(* ===== verification/_CoqProject ===== *)
-Q . S2P
Prelude.v
Text.v
Gesture.v
Keys.v
Machine.v
MachineSafety.v
MachineChords.v
InFlight.v
InFlightProps.v
ReaderRules.v
Tree.v
TextModel.v
FocusRules.v
Facts.v
Messages.v
Merge.v
Outbound.v
Policy.v
PolicyProps.v
Generation.v
Listener.v
Schedule.v
ScheduleInv.v
ScheduleSteps.v
ScheduleProps.v
OutpostEntry.v
Verdicts.v
Hold.v
GapRecord.v
CaretWatch.v
HeldReports.v
TextFacts.v
Intake.v
IntakePlan.v
IntakeProps.v
Follow.v
FollowProps.v
Outpost.v
OutpostTerm.v
OutpostCopies.v
OutpostLedger.v
OutpostQueries.v
Recorder.v
Requests.v
Speech.v
Trim.v
SpeechQueue.v
SpeechQueueProps.v
Store.v
StoreProps.v
StoreKept.v
Mixer.v
MixerProps.v
MixerRun.v
MixerDevice.v
MixerEnd.v
Settings.v
Synth.v
SynthProps.v
SynthAudio.v
SynthThread.v
Hosting.v
HostingProps.v
Announce.v
CoreEvents.v
ForegroundRecord.v
CoreQueries.v
TextUnits.v
CoreText.v
CoreState.v
CoreShell.v
Editing.v
SayAll.v
CoreProps.v
SayAllProps.v
Flood.v
FloodProps.v
FloodLedger.v
HeldKeys.v
HeldKeysProps.v
