(* ===== verification/Prelude.v ===== *)
(** * Verbatim: a verification of the screen reader's decision logic

    Verbatim is a screen reader for Windows. Its processes are verbatim.exe,
    with the keyboard hook, the functional core and the supervisor; one focus
    listener, which receives every application's focus events; and one outpost
    process for each application, which reads it. The code keeps what these
    decide apart from the calls they make: pure state machines, with no clock,
    no lock and no Windows type, driven by shells that supply the time and
    carry out the effects. This development models those machines, from the
    sources under src/crates, and proves what makes them correct over whole
    runs. The shells are the environment: what a machine relies on from its
    shell is the precondition of a step ([allowed] in the files below), and
    what it asks of Windows is an argument.

    ** Files and what they model

    - [Prelude] (this file): machine integers, durations, tactics, the lemmas
      every component shares. [Text]: the operations of Rust's [str] the
      sources use, on ASCII strings.
    - [Gesture] (verbatim-model, gesture.rs): gesture identifiers and their
      normalizing parser. [Keys] (verbatim-input, keys.rs and toggle.rs): the
      key-name table, module [Names], and the lock keys, module [Toggle].
    - [Machine] (verbatim-input, state.rs and map.rs): the keyboard's decision
      machine. [DecisionMachine] is the struct, [on_key] and [passed_on] are
      its transitions, and each rule of state.rs is a definition of its own
      name. [MachineSafety] and [MachineChords] hold its properties.
    - [InFlight] (verbatim-reader-rules, in_flight.rs and window.rs): the one
      item a reader has under way, its deadline, its bound and its judgements.
      [InFlightProps] holds its properties.
    - [ReaderRules] (verbatim-reader-rules, class.rs and acceptance.rs): the
      class verdict, module [Class], and the test of an event before it is
      read, module [Acceptance], against a class of window queries.
    - [Tree] (verbatim-model, tree.rs and the identities of lib.rs): roles,
      states and the bits of a set of states, snapshots, object keys, trees.
      [FocusRules] (verbatim-core, focus_rules.rs): which changes and
      selections are spoken, and where two focus lines meet.
    - [Facts] (verbatim-model, protocol/mod.rs and calls.rs): the facts the
      listener sends, their keys, the tick order and the call counts.
    - [Policy] (verbatim-core, supervisor/policy.rs): the supervisor's
      decisions; [PolicyProps] holds its properties. [Generation]
      (supervisor/generation.rs): an application's outpost from its launch to
      its removal, with properties of whole lives.
    - [Listener] (verbatim-listener-logic, focus.rs, foreground.rs, and
      GraceState of schedule.rs): the listener's events and outcomes, the
      foreground watch and the menu end's grace. [Schedule] (schedule.rs): the
      read scheduler, built on [InFlight]. [ScheduleInv] states its invariant,
      [ScheduleSteps] shows that every operation keeps it, and
      [ScheduleProps] draws the properties of runs.
    - [TextModel] (verbatim-model, text.rs, terminal.rs, shell.rs and
      limits.rs): the values of text the protocol carries, and a terminal's
      padded lines. [Messages] (protocol/mod.rs and event.rs): what an outpost
      sends Core, and the nodes and anchors a message names. [Merge]
      (protocol/merge.rs): which waiting message a newer one replaces, against
      the class [Merge] its message type implements. [Outbound]
      (verbatim-outpost, outbound.rs): the queue of messages to Core.
    - The outpost's reducer (verbatim-outpost-logic), one file for each module
      of the crate: [OutpostEntry] (entry.rs), [Verdicts] (verdicts.rs),
      [Hold] (hold.rs), [GapRecord] (gap_record.rs), [CaretWatch] (watch.rs),
      [HeldReports] (held.rs), [TextFacts] (text.rs), [Intake] (intake.rs),
      [Follow] (follow.rs), and over them [Outpost] (lib.rs): [Reducer] is the
      struct, [input] and [tick] its transitions, [handle] the match over the
      inputs and [pump] the loop that starts programs. [IntakePlan] holds the
      intake's reference definitions and [IntakeProps] its properties,
      [FollowProps] those of the commits. [OutpostTerm] proves the loop's end,
      [OutpostCopies] that the shell's copies of the facts are current, and
      [OutpostLedger] and [OutpostQueries] that queries are answered once.
    - Core's shell: [Requests] (verbatim-core, requests.rs): the table of the
      requests Core waits on. [Recorder] (flight_recorder.rs, recorder.rs): the
      window of a reducer's inputs kept for replay.
    - Core's reducer (verbatim-core): [CoreEvents] (verbatim-model, event.rs,
      settings.rs): its inputs, effects and settings. [Announce] (reduce.rs,
      applications.rs): the words of nodes and of changed states.
      [ForegroundRecord] (foreground.rs): what it knows of the foreground.
      [CoreQueries] (queries.rs): the table of its own queries and what each
      continues. [TextUnits] (verbatim-text, lib.rs): characters, lines, words
      and sentence ends, over a class of Unicode tables. [CoreText] (text.rs,
      review.rs): what is spoken of a chunk of text and its formatting.
      [CoreState] (state.rs): the state itself, and [Step], what a handler is.
      [Editing] (editing.rs): carets, caret keys, selections and the echo of
      typing. [SayAll] (say_all.rs). [CoreProps] holds the properties of the
      words and of the queries and a sample of the classes the witnesses run,
      [SayAllProps] those of say-all. [Flood] (terminal.rs, terminal/items.rs):
      the flood policy of a terminal's output, over what the reading rules said;
      its loop takes as many rounds as items wait and three more, which
      [FloodProps] shows to be enough; [FloodProps] also holds the properties of
      its backlog, [FloodLedger] those of its runs. [CoreShell] (shell.rs,
      keys.rs): what the shell's threads learn, and the key numbers speech
      carries. [HeldKeys] (editing.rs, and the dispatch of keys in reduce.rs):
      the keys the hook holds back, [HeldKeysProps] their properties; its loop
      takes as many rounds as keys wait.
    - Speech: [Speech] (verbatim-model, speech.rs, and verbatim-speech,
      driver.rs): utterances and the sequences drivers speak. [Trim] (trim.rs):
      the silence taken off a synthesizer's audio. [SpeechQueue] (manager.rs,
      the queue thread): what waits to be spoken, what was handed on, and the
      fence of a key press; [SpeechQueueProps] holds its properties.
    - The mixer (verbatim-audio, mixer): [Store] (store.rs): a source, with its
      samples as IEEE singles; [Mixer] (run.rs, recover.rs, and the lanes of
      mod.rs): the audio thread's pass, recovery and shutdown. A pass takes the
      device's answers and the readings of the atomics as its input, and logs
      what it does to the device. [StoreProps] keeps the ledger of a source's
      utterances through each operation, [StoreKept] its limits and the order of
      its reports; [MixerProps] shows that each part of
      a pass is a sequence of those operations, [MixerRun] draws the properties
      of runs, [MixerDevice] what the device is given, and [MixerEnd] those of
      the shutdown and two runs in which a sound is lost or outlasts a cancel.
    - The synthesizers (verbatim-speech): [Settings] (settings.rs, host.rs,
      registry.rs): setting descriptors and their validation, the registry, the
      mirror and handle of the settings GUI. [Synth] (manager.rs, driver.rs): the
      synth thread and a job; a driver is an instance of the class [SynthDriver],
      whose [speak] is the program of the calls it makes on its sink, and what
      other threads do to a job is an argument of it. [SynthProps] holds a driver
      the witnesses run and what is true of a job whatever happens to it,
      [SynthAudio] what an undisturbed one gives the mixer, [SynthThread] the
      thread's properties and its composition with the queue.
    - Synthesizer hosts: [Hosting] (verbatim-speech, hosting.rs, and the crates
      verbatim-synth-host and verbatim-synth-hosted): the protocol's frames,
      module [Wire], the thread that serves Core in the host, [HostSide], and
      the driver that relays the host to the synth thread, [CoreSide].
      [HostingProps] composes the two over their pipes as a step relation.

    ** How the code is modelled

    A struct is a record and an enum an inductive type with the source's
    fields and constructors, renamed only where Rocq needs it. A method that
    takes [&mut self] returns the new state beside its result, and the
    scheduler's methods, which also append to a vector of effects, are
    functions from a state to the effects appended and the state after. A map
    is a [gmap] and a set a [gset]; where the source walks a map in order its
    keys are sorted. Unsigned integers are [N] with saturation, checks and
    wrap-around written out at their width; signed ones are [Z]. Log lines are
    left out. A debug assertion is the precondition of a step; the step is
    defined without it, as a release build runs. The outpost's reducer changes its
    state and pushes effects through many calls: its methods are programs of the
    monad [M] of [Outpost], which threads the reducer and appends the effects.
    One loop is not over a list or a map: [Reducer::pump]. Its model takes its
    fuel from [pump_measure], a count of the entries waiting, planned and kept
    for when nothing else is ready, a barrier counting twice, and of the caret
    key's watch; [pump_terminates] proves that it always ends by itself within
    that fuel, so that the fuel is never seen. The mixer's loops over a list that
    shrinks as it is walked (a lane's records, the retired voices, the starts
    that wait for the device's clock) take its length as fuel, as each turn
    moves on or takes one out; the shutdown's takes [shut_down_rounds], which
    [shutdown_ends_everything] proves enough. The threads of the mixer meet at
    queues and atomics only, so a run is any interleaving of pushes onto the
    lanes, passes and deliveries; a pass reads each atomic as often as the code
    does, and the readings may differ.

    ** What the theorems show

    - The keyboard: the release of a key is swallowed exactly when its press
      did not reach the application, so that no key is left down; no key
      overtakes the line and places are distinct across the counter's wrap;
      double taps, multiple presses and auto-repeat count as documented; key
      names and gestures round-trip.
    - The readers: an item leaves its record exactly once, stale requests are
      refused, a deadline abandons without losing what was read, the reader's
      timer is exact; which classes and events are taken.
    - The scheduler: every event gets exactly one outcome whatever is
      abandoned, published, replaced or dropped; idle waiters run when, and as
      soon as, the events before them are answered; the alarm is the soonest
      instant anything is due; threads and waits are bounded.
    - The supervisor: starts and ends announced to an application match, the
      listener's hook is installed exactly while an outpost is ready, no child
      process is lost; backoffs double up to their limit without overflow;
      facts held during a start are released in the order they last happened;
      spares are given once, oldest first.
    - The outpost: every query Core asks is answered with exactly one reply,
      whatever is cut, abandoned, published, withdrawn or released, as long as
      a program's commits answer only its own query; without that a query can
      be lost, as a concrete run shows. The intake loses no query, barrier or
      parked object; its batches are the reference plan and stop at markers
      and idle queries; the hand-over from the listener's copies to the hook's
      handles each event once, in order; a watch is answered once and polls
      within its bound; a program's own copy agrees with the reducer's facts;
      the elements, ranges and copies the shell keeps are exactly those the
      facts name; the loop ends.
    - Core's request table answers every asker once, with exactly the outcome
      that ended its request; the recorder's window is bounded and replays to
      the reducer's state.
    - Speech: the trimmer is a reference function of the whole audio however it
      is cut into pushes; every utterance the queue takes is waiting, handed on
      or ended once, one job at a time; the source's generation is raised before
      a job's token is cancelled; speech of an earlier key never passes a later
      key's cancel.
    - The synth thread: a job registers its utterance once and ends it once;
      its marks and sounds reach the mixer in order whatever its driver can do,
      its audio stops with its cancel, and its driver's settings are put back;
      every command is answered once, every value is well typed, the mirror
      shows the driver, and what the queue sends is registered in that order.
      A hosted synthesizer gives the sink what its driver gave in the host, a
      cancel stops its own utterance alone, and no message is out of turn.
    - The mixer: every utterance a lane accepts is accounted for and ends at most
      once, with nothing reported after; once a pass has read a raised cancel
      generation, nothing of an older utterance is reported but an ending that
      cuts it, which with the queue's order makes a cancel exact from the key to
      the device; memory stays within what was allocated; the device is given
      only what it has room for, in range; the shutdown ends everything. A sound
      that ends its utterance can lose that ending to a discard in the same pass,
      and the sound of an ended utterance is not stopped by a cancel, as concrete
      runs show.
    - Core's reducer: each of its queries ends once; the words said of states are
      true; say-all says what it read once and in order, never waits for
      nothing, and releases the display however it ends; of a terminal's
      output every line is heard, counted as skipped, waiting or dropped by a
      cut, in order, what waits is bounded and always brought on, and nothing
      read before a cut is heard; every key held back is passed on once, in
      order, and a key that waits has a deadline that brings it on. A growth dropped at the bound ends its group a
      line early, as a concrete state shows.
    - The messages: what Core is shown loses no change by merging; the record
      of what was reported counts exactly what waits; a terminal's text is
      padded back to what it was.
    - The data: the bits of a set of states are a finite set, focus lines meet
      at their innermost shared object, tick order survives the wrap.

    ** What is not modelled

    The shells (verbatim-app, -listener, -outpost, -supervisor,
    -input-windows), the UIA, MSAA and Win32 clients, audio devices, speech
    engines, the GUI, and the test hosts and tools are calls into Windows or other
    processes. A program the outpost's worker runs (verbatim-outpost, worker.rs)
    is such calls too: what it commits is an input of the reducer, and what a
    commit may hold is a precondition ([commit_ok] of [OutpostLedger]). In the
    mixer the duration of a heard report, the tap's opening, and the speech lane's
    waits and sample-rate conversion are left out. Of a hosted synthesizer, the
    starting and ending of its process and the waits on its pipe are left out.
    Of the pure code, the review cursor over an outpost's text (review_text.rs),
    the terminal model (terminal_model.rs) and the reading rules it runs
    (verbatim-text, terminal_rows.rs and terminal_reading.rs) are not modelled;
    [CoreState] keeps of a model what the other parts read. The reducer's own
    handlers of events and review commands (reduce.rs) are not modelled either:
    what [HeldKeys] needs of them is the interface [KeyParts], and what its
    theorems rely on, that a command and a terminal's read leave the held keys
    alone, is [KeyLaws]. *)

From Stdlib Require Export Ascii.
From stdpp Require Export base gmap sets list strings sorting option numbers ssreflect.

(** ** Notations and scopes *)

Declare Scope verbatim_scope.
Delimit Scope verbatim_scope with verbatim.
Open Scope N_scope.
Open Scope verbatim_scope.

(** ** Machine integers

    An unsigned machine integer is an [N]; the operations the sources use on
    it are written out at their width. *)

Definition U8_MAX : N := 0xFF.
Definition U32_MAX : N := 0xFFFFFFFF.
Definition U64_MAX : N := 0xFFFFFFFFFFFFFFFF.

(** [a.saturating_add(b)] at a width whose largest value is [max]. *)
Definition saturating_add (max a b : N) : N := N.min max (a + b).

Notation "a +|8| b" := (saturating_add U8_MAX a b)
  (at level 50, left associativity) : verbatim_scope.
Notation "a +|32| b" := (saturating_add U32_MAX a b)
  (at level 50, left associativity) : verbatim_scope.
Notation "a +|64| b" := (saturating_add U64_MAX a b)
  (at level 50, left associativity) : verbatim_scope.

(** [a.checked_add(b)] at a width whose largest value is [max]. *)
Definition checked_add (max a b : N) : option N :=
  if a + b <=? max then Some (a + b) else None.

(** [a.checked_sub(b)] for unsigned integers. *)
Definition checked_sub (a b : N) : option N :=
  if b <=? a then Some (a - b) else None.

(** ** [std::time::Duration]

    A duration is its length in nanoseconds, at most [Duration::MAX]. *)
Module Duration.
Definition t : Set := N.
Definition MAX : t := U64_MAX * 1000000000 + 999999999.
Definition from_millis (ms : N) : t := ms * 1000000.
Definition from_micros (us : N) : t := us * 1000.
Definition as_micros (d : t) : N := d / 1000.
Definition is_zero (d : t) : bool := d =? 0.
Definition saturating_mul (d : t) (k : N) : t := N.min MAX (d * k).
End Duration.

(** ** Tactics *)

(** Splits every [match], [if] and [decide] of the goal, simplifying as it
    goes. *)
Ltac split_cases :=
  repeat (case_match || case_decide); simplify_eq/=.

(** Turns the boolean comparisons of the context into propositions. *)
Ltac reflect_bools :=
  repeat match goal with
  | H : (_ <=? _) = true |- _ => apply N.leb_le in H
  | H : (_ <=? _) = false |- _ => apply N.leb_gt in H
  | H : (_ <? _) = true |- _ => apply N.ltb_lt in H
  | H : (_ <? _) = false |- _ => apply N.ltb_ge in H
  | H : (_ =? _) = true |- _ => apply N.eqb_eq in H
  | H : (_ =? _) = false |- _ => apply N.eqb_neq in H
  | H : andb _ _ = true |- _ => apply andb_true_iff in H as [? ?]
  | H : orb _ _ = false |- _ => apply orb_false_iff in H as [? ?]
  | H : negb _ = true |- _ => apply negb_true_iff in H
  | H : negb _ = false |- _ => apply negb_false_iff in H
  | H : bool_decide _ = true |- _ => apply bool_decide_eq_true in H
  | H : bool_decide _ = false |- _ => apply bool_decide_eq_false in H
  end.

Create HintDb verbatim discriminated.

(** ** Arithmetic shared by the components *)

Lemma saturating_add_le max a b : saturating_add max a b <= max.
Proof. unfold saturating_add. lia. Qed.

Lemma saturating_add_exact max a b :
  a + b <= max -> saturating_add max a b = a + b.
Proof. unfold saturating_add. lia. Qed.

Lemma saturating_add_ge max a b : a <= max -> a <= saturating_add max a b.
Proof. unfold saturating_add. lia. Qed.

(** A saturated part of a saturated sum may be the exact one. *)
Lemma min_add_l max a b : N.min max (N.min max a + b) = N.min max (a + b).
Proof. lia. Qed.

Lemma min_add_r max a b : N.min max (a + N.min max b) = N.min max (a + b).
Proof. lia. Qed.

#[export] Hint Resolve saturating_add_le saturating_add_exact
  saturating_add_ge : verbatim.

(** ** Lists *)

(** [iter().find(..)]: the first element of [l] that [f] accepts. *)
Fixpoint find {A} (f : A -> bool) (l : list A) : option A :=
  match l with
  | [] => None
  | x :: l => if f x then Some x else find f l
  end.

Lemma find_Some {A} (f : A -> bool) l x :
  find f l = Some x -> x ∈ l /\ f x = true.
Proof.
  induction l as [|y l IH]; simpl; [done|].
  destruct (f y) eqn:Hy; [intros [= <-]; split; [left|done]|].
  intros [??]%IH. split; [by right|done].
Qed.

Lemma find_None {A} (f : A -> bool) l :
  find f l = None <-> forall x, x ∈ l -> f x = false.
Proof.
  induction l as [|y l IH]; simpl.
  - split; [|done]. intros _ x Hx. by apply not_elem_of_nil in Hx.
  - destruct (f y) eqn:Hy.
    + split; [done|]. intros H. rewrite (H y) in Hy; [done|left].
    + rewrite IH. split; intros H x.
      * intros [->|Hx]%elem_of_cons; [done|by apply H].
      * intros Hx. apply H. by right.
Qed.

(** A boolean check of every element of a table, for facts established by
    evaluation. *)
Lemma forallb_elem {A} (f : A -> bool) l x :
  forallb f l = true -> x ∈ l -> f x = true.
Proof.
  rewrite forallb_forall. intros H Hx. apply H. by apply list_elem_of_In.
Qed.

(** A filter and its complement hold every element. *)
Lemma filter_split {A} (f : A -> bool) l :
  l ≡ₚ List.filter f l ++ List.filter (fun x => negb (f x)) l.
Proof.
  induction l as [|x l IH]; [done|]. cbn. destruct (f x); cbn; [by constructor|].
  by rewrite -Permutation_middle -IH.
Qed.

Lemma filter_sublist {A} (f : A -> bool) l : List.filter f l `sublist_of` l.
Proof.
  induction l as [|x l IH]; simpl; [done|].
  destruct (f x); [by apply sublist_skip|by apply sublist_cons].
Qed.

Lemma elem_of_option_list {A} (o : option A) t : t ∈ option_list o <-> o = Some t.
Proof. destruct o; simpl; set_solver. Qed.

(** ** Results

    [Result<A, E>]. *)
Inductive result (A E : Type) : Type :=
  | Ok (a : A)
  | Err (e : E).
Arguments Ok {A E} a.
Arguments Err {A E} e.

(** [result.ok()]. *)
Definition ok {A E} (r : result A E) : option A :=
  match r with Ok a => Some a | Err _ => None end.
