(* ===== verification/Text.v ===== *)
(** * The string operations of the standard library the sources use

    A [&str] is a [string] of bytes.  [to_lowercase] lowercases the ASCII
    letters and keeps every other byte, which is what Rust's does to an ASCII
    string; a theorem whose claim depends on lowercasing is stated for
    [ascii_only] strings. *)

From S2P Require Import Prelude.


(** ** Characters *)

Definition is_ascii (c : ascii) : bool := N_of_ascii c <? 128.
Definition is_ascii_uppercase (c : ascii) : bool :=
  (65 <=? N_of_ascii c) && (N_of_ascii c <=? 90).
Definition is_ascii_lowercase (c : ascii) : bool :=
  (97 <=? N_of_ascii c) && (N_of_ascii c <=? 122).
Definition is_ascii_digit (c : ascii) : bool :=
  (48 <=? N_of_ascii c) && (N_of_ascii c <=? 57).

Definition to_ascii_lowercase (c : ascii) : ascii :=
  if is_ascii_uppercase c then ascii_of_N (N_of_ascii c + 32) else c.
Definition to_ascii_uppercase (c : ascii) : ascii :=
  if is_ascii_lowercase c then ascii_of_N (N_of_ascii c - 32) else c.

(** ** Strings *)

Fixpoint ascii_only (s : string) : bool :=
  match s with
  | "" => true
  | String c s => is_ascii c && ascii_only s
  end.

(** Whether [c] occurs in [s]. *)
Fixpoint has_char (c : ascii) (s : string) : bool :=
  match s with
  | "" => false
  | String d s => bool_decide (d = c) || has_char c s
  end.

Definition is_empty (s : string) : bool := bool_decide (s = "").

Fixpoint to_lowercase (s : string) : string :=
  match s with
  | "" => ""
  | String c s => String (to_ascii_lowercase c) (to_lowercase s)
  end.

(** [s.split_once(c)]: the parts of [s] around its first [c]. *)
Fixpoint split_once (c : ascii) (s : string) : option (string * string) :=
  match s with
  | "" => None
  | String d s =>
      if bool_decide (d = c) then Some ("", s)
      else '(before, after) ← split_once c s; Some (String d before, after)
  end.

(** [s.split(c)]: never empty, one part more than [s] has [c]s. *)
Fixpoint split (c : ascii) (s : string) : list string :=
  match s with
  | "" => [""]
  | String d s =>
      if bool_decide (d = c) then "" :: split c s
      else match split c s with
           | [] => [String d ""]
           | part :: parts => String d part :: parts
           end
  end.

(** [parts.join(sep)]. *)
Fixpoint join (sep : ascii) (parts : list string) : string :=
  match parts with
  | [] => ""
  | [part] => part
  | part :: parts => part +:+ String sep (join sep parts)
  end.

(** [s.strip_prefix(p)]. *)
Fixpoint strip_prefix (p s : string) : option string :=
  match p, s with
  | "", _ => Some s
  | String c p, String d s => if bool_decide (c = d) then strip_prefix p s else None
  | String _ _, "" => None
  end.

Definition starts_with (s p : string) : bool :=
  match strip_prefix p s with Some _ => true | None => false end.

(** [s.trim_start_matches(f)]. *)
Fixpoint trim_start_matches (f : ascii -> bool) (s : string) : string :=
  match s with
  | "" => ""
  | String c rest => if f c then trim_start_matches f rest else s
  end.

(** [s.rfind(p)]: where the last occurrence of [p] in [s] starts. *)
Fixpoint rfind (p s : string) : option nat :=
  match s with
  | "" => if starts_with s p then Some 0%nat else None
  | String _ rest =>
      match rfind p rest with
      | Some i => Some (S i)
      | None => if starts_with s p then Some 0%nat else None
      end
  end.

(** [parts.sort_unstable()]: equal strings are indistinguishable, so the
    order alone decides the result. *)
Definition sort_unstable (parts : list string) : list string :=
  merge_sort String.le parts.

(** ** Lemmas *)

Lemma to_ascii_lowercase_idem c :
  to_ascii_lowercase (to_ascii_lowercase c) = to_ascii_lowercase c.
Proof. by destruct c as [[][][][][][][][]]. Qed.

Lemma to_lowercase_idem s : to_lowercase (to_lowercase s) = to_lowercase s.
Proof. induction s as [|c s IH]; simpl; by rewrite ?to_ascii_lowercase_idem ?IH. Qed.

Lemma to_lowercase_empty s : to_lowercase s = "" <-> s = "".
Proof. by destruct s. Qed.

(** A character that no letter lowercases to stays where it was. *)
Lemma has_char_to_lowercase c s :
  (forall d, to_ascii_lowercase d = c -> d = c) ->
  has_char c s = false -> has_char c (to_lowercase s) = false.
Proof.
  intros Hc. induction s as [|d s IH]; simpl; [done|].
  intros [Hd Hs]%orb_false_iff. apply orb_false_iff. split; [|by apply IH].
  apply bool_decide_eq_false in Hd. apply bool_decide_eq_false.
  by intros ?%Hc.
Qed.

Lemma lowercase_plus d : to_ascii_lowercase d = "+"%char -> d = "+"%char.
Proof. by destruct d as [[][][][][][][][]]. Qed.

Lemma lowercase_colon d : to_ascii_lowercase d = ":"%char -> d = ":"%char.
Proof. by destruct d as [[][][][][][][][]]. Qed.

#[export] Hint Resolve has_char_to_lowercase lowercase_plus lowercase_colon : verbatim.

Lemma split_once_app c before after :
  has_char c before = false ->
  split_once c (before +:+ String c after) = Some (before, after).
Proof.
  induction before as [|d before IH]; simpl; intros H.
  - by rewrite bool_decide_eq_true_2.
  - apply orb_false_iff in H as [Hd H]. by rewrite Hd IH.
Qed.

Lemma split_once_Some c s before after :
  split_once c s = Some (before, after) ->
  s = before +:+ String c after /\ has_char c before = false.
Proof.
  revert before. induction s as [|d s IH]; simpl; intros before; [done|].
  case_bool_decide as Hd; [intros [= <- <-]; by subst|].
  destruct (split_once c s) as [[b a]|]; simpl; [|done].
  intros [= <- <-]. destruct (IH b) as [-> Hb]; [done|].
  split; [done|]. simpl. by rewrite bool_decide_eq_false_2.
Qed.

Lemma split_nonempty c s : split c s <> [].
Proof. destruct s; simpl; repeat case_match; done. Qed.

Lemma split_no_char c s part : part ∈ split c s -> has_char c part = false.
Proof.
  revert part. induction s as [|d s IH]; simpl; intros part.
  - by intros ->%list_elem_of_singleton.
  - case_bool_decide as Hd.
    + intros [->|?]%elem_of_cons; [done|by apply IH].
    + destruct (split c s) as [|p ps].
      * intros ->%list_elem_of_singleton. simpl. by rewrite bool_decide_eq_false_2.
      * intros [->|Hin]%elem_of_cons.
        -- simpl. rewrite bool_decide_eq_false_2 //. apply IH. left.
        -- apply IH. by right.
Qed.

(** A string with no [c] is the only part of its split. *)
Lemma split_single c s : has_char c s = false -> split c s = [s].
Proof.
  induction s as [|d s IH]; simpl; [done|].
  intros [Hd Hs]%orb_false_iff. by rewrite Hd IH.
Qed.

Lemma split_app c part rest :
  has_char c part = false -> split c (part +:+ String c rest) = part :: split c rest.
Proof.
  induction part as [|d part IH]; simpl; intros H.
  - by rewrite bool_decide_eq_true_2.
  - apply orb_false_iff in H as [Hd H]. by rewrite Hd IH.
Qed.

(** Splitting a join gives the parts back. *)
Lemma split_join c parts :
  parts <> [] -> Forall (fun part => has_char c part = false) parts ->
  split c (join c parts) = parts.
Proof.
  induction parts as [|part parts IH]; [done|]. intros _ [Hp Hps]%Forall_cons.
  destruct parts as [|q parts]; simpl; [by apply split_single|].
  rewrite split_app //. f_equal. by apply IH.
Qed.

(** Joining a split gives the string back. *)
Lemma join_split c s : join c (split c s) = s.
Proof.
  induction s as [|d s IH]; simpl; [done|].
  pose proof (split_nonempty c s) as Hne.
  destruct (split c s) as [|p ps]; [done|].
  case_bool_decide as Hd; simpl in *; [by rewrite Hd -IH|].
  destruct ps; simpl in *; by rewrite -IH.
Qed.

(** Sorting depends only on which parts there are. *)
Lemma sort_unstable_Permutation parts parts' :
  parts ≡ₚ parts' -> sort_unstable parts = sort_unstable parts'.
Proof.
  intros Hp. unfold sort_unstable. apply (StronglySorted_unique String.le).
  - apply StronglySorted_merge_sort; apply _.
  - apply StronglySorted_merge_sort; apply _.
  - by rewrite !merge_sort_Permutation.
Qed.

Lemma sort_unstable_idem parts :
  sort_unstable (sort_unstable parts) = sort_unstable parts.
Proof. apply sort_unstable_Permutation, merge_sort_Permutation. Qed.
