(* ===== verification/Gesture.v ===== *)
(** * Gesture identifiers ([crates/verbatim-model/src/gesture.rs])

    An identifier [source:parts] is lowercased and its parts sorted, so that
    binding lookups are insensitive to case and to the order of the parts. *)

From S2P Require Import Prelude Text.


(** A normalized gesture identifier such as [kb:v+verbatim]. *)
Record GestureId := { normalized : string }.

#[export] Instance GestureId_eq_dec : EqDecision GestureId.
Proof. solve_decision. Defined.

#[export] Program Instance GestureId_countable : Countable GestureId :=
  inj_countable' normalized Build_GestureId _.
Next Obligation. by intros []. Qed.

Inductive GestureParseError :=
  | MissingSource (raw : string)
  | EmptyPart (raw : string).

#[export] Instance GestureParseError_eq_dec : EqDecision GestureParseError.
Proof. solve_decision. Defined.

(** [GestureId::parse]. *)
Definition parse (raw : string) : result GestureId GestureParseError :=
  match split_once ":" raw with
  | None => Err (MissingSource raw)
  | Some (source, keys) =>
      if is_empty source then Err (MissingSource raw)
      else
        let parts := map to_lowercase (split "+" keys) in
        if existsb is_empty parts then Err (EmptyPart raw)
        else Ok {| normalized :=
                     to_lowercase source +:+ String ":" (join "+" (sort_unstable parts)) |}
  end.

(** [GestureId::source]. *)
Definition source (g : GestureId) : string :=
  match split_once ":" (normalized g) with
  | Some (source, _) => source
  | None => ""
  end.

(** [GestureId::as_str]. *)
Definition as_str (g : GestureId) : string := normalized g.

(** ** Properties *)

Lemma existsb_is_empty_false parts :
  existsb is_empty parts = false <-> Forall (fun part => part <> "") parts.
Proof.
  induction parts as [|p ps IH]; simpl; [by split|].
  rewrite orb_false_iff IH Forall_cons /is_empty bool_decide_eq_false. done.
Qed.

Lemma Forall_to_lowercase_nonempty parts :
  Forall (fun part => part <> "") (map to_lowercase parts) <->
  Forall (fun part => part <> "") parts.
Proof.
  rewrite Forall_map. apply Forall_iff. intros s. by rewrite to_lowercase_empty.
Qed.

(** The identifier of a source and a non-empty list of non-empty parts. *)
Definition identifier (src : string) (parts : list string) : string :=
  src +:+ String ":" (join "+" parts).

(** [parse] on an identifier written out from its source and parts. *)
Lemma parse_identifier src parts :
  has_char ":" src = false -> src <> "" ->
  parts <> [] -> Forall (fun part => has_char "+" part = false) parts ->
  Forall (fun part => part <> "") parts ->
  parse (identifier src parts) =
    Ok {| normalized :=
            identifier (to_lowercase src) (sort_unstable (map to_lowercase parts)) |}.
Proof.
  intros Hsrc Hne Hparts Hplus Hemp. unfold parse, identifier.
  rewrite split_once_app // split_join //.
  rewrite /is_empty bool_decide_eq_false_2 //.
  assert (existsb is_empty (map to_lowercase parts) = false) as He.
  { by apply existsb_is_empty_false, Forall_to_lowercase_nonempty. }
  unfold is_empty in He. by rewrite He.
Qed.

(** What a successful parse read. *)
Lemma parse_Ok raw g :
  parse raw = Ok g ->
  exists src parts,
    raw = identifier src parts /\ has_char ":" src = false /\ src <> "" /\
    parts <> [] /\ Forall (fun part => has_char "+" part = false) parts /\
    Forall (fun part => part <> "") parts /\
    normalized g = identifier (to_lowercase src) (sort_unstable (map to_lowercase parts)).
Proof.
  unfold parse. destruct (split_once ":" raw) as [[src keys]|] eqn:Hraw; [|done].
  destruct (is_empty src) eqn:Hs; [done|].
  destruct (existsb is_empty _) eqn:Hp; [done|]. intros [= <-]. simpl.
  apply split_once_Some in Hraw as [-> Hc]. exists src, (split "+" keys).
  unfold identifier. rewrite join_split. unfold is_empty in Hs.
  apply bool_decide_eq_false in Hs.
  rewrite existsb_is_empty_false Forall_to_lowercase_nonempty in Hp.
  split_and!; try done; [apply split_nonempty|].
  apply Forall_forall. intros part. apply split_no_char.
Qed.

(** The parts of a normalized identifier are again well-formed parts. *)
Lemma normalized_parts parts :
  parts <> [] -> Forall (fun part => has_char "+" part = false) parts ->
  Forall (fun part => part <> "") parts ->
  let ps := sort_unstable (map to_lowercase parts) in
  ps <> [] /\ Forall (fun part => has_char "+" part = false) ps /\
  Forall (fun part => part <> "") ps /\ map to_lowercase ps ≡ₚ ps.
Proof.
  intros Hne Hplus Hemp. simpl.
  pose proof (merge_sort_Permutation String.le (map to_lowercase parts)) as Hp.
  fold (sort_unstable (map to_lowercase parts)) in Hp. split_and!.
  - intros Heq. rewrite Heq in Hp. apply Permutation_nil in Hp. by destruct parts.
  - rewrite Hp Forall_map. eapply Forall_impl; [exact Hplus|]. auto with verbatim.
  - by rewrite Hp Forall_to_lowercase_nonempty.
  - rewrite Hp map_map. erewrite map_ext; [done|]. apply to_lowercase_idem.
Qed.

Lemma source_normalized g src parts :
  has_char ":" src = false -> normalized g = identifier (to_lowercase src) parts ->
  source g = to_lowercase src.
Proof.
  intros Hc Hg. unfold source. rewrite Hg /identifier split_once_app //.
  auto with verbatim.
Qed.

(** C40: a gesture identifier round-trips: for an ASCII identifier that parses,
    the gesture's own text parses to the same gesture, as the source's
    serialization relies on, and its source is the identifier's, lowercased
    and not empty. *)
Theorem gesture_parse_roundtrip raw g :
  ascii_only raw = true -> parse raw = Ok g ->
  parse (as_str g) = Ok g /\
  exists src keys, split_once ":" raw = Some (src, keys) /\
    source g = to_lowercase src /\ source g <> "".
Proof.
  intros _ (src & parts & -> & Hc & Hs & Hne & Hplus & Hemp & Hg)%parse_Ok.
  destruct (normalized_parts parts) as (Hne' & Hplus' & Hemp' & Hperm); [done..|].
  split.
  - unfold as_str. rewrite Hg parse_identifier //.
    + destruct g as [n]. simpl in *. subst n.
      by rewrite to_lowercase_idem (sort_unstable_Permutation _ _ Hperm) sort_unstable_idem.
    + auto with verbatim.
    + by rewrite to_lowercase_empty.
  - exists src, (join "+" parts). rewrite (source_normalized g src _ Hc Hg).
    unfold identifier. rewrite split_once_app // to_lowercase_empty. done.
Qed.

Lemma gesture_parse_roundtrip_witness :
  exists g, parse "kb:Verbatim+Shift+V" = Ok g /\ parse (as_str g) = Ok g.
Proof.
  eexists. split; [vm_compute; reflexivity|].
  apply (gesture_parse_roundtrip "kb:Verbatim+Shift+V"); vm_compute; reflexivity.
Defined.

(** Binding lookups are insensitive to case and order: two ASCII
    identifiers whose sources are equal up to case, and whose non-empty parts
    are the same up to case and order, both parse, to the same gesture. *)
Theorem parse_case_order_insensitive src src' parts parts' :
  ascii_only (identifier src parts) = true ->
  ascii_only (identifier src' parts') = true ->
  has_char ":" src = false -> has_char ":" src' = false -> src <> "" ->
  parts <> [] -> Forall (fun part => has_char "+" part = false) parts ->
  Forall (fun part => has_char "+" part = false) parts' ->
  Forall (fun part => part <> "") parts ->
  to_lowercase src = to_lowercase src' ->
  map to_lowercase parts ≡ₚ map to_lowercase parts' ->
  exists g, parse (identifier src parts) = Ok g /\ parse (identifier src' parts') = Ok g.
Proof.
  intros _ _ Hs Hs' Hne Hp Hplus Hplus' Hemp Hsrc Hperm. eexists. split.
  - by apply parse_identifier.
  - rewrite parse_identifier //.
    + by rewrite Hsrc (sort_unstable_Permutation _ _ Hperm).
    + intros ->. by destruct src.
    + intros ->. apply Permutation_nil_r in Hperm. by destruct parts.
    + by apply Forall_to_lowercase_nonempty; rewrite -Hperm; apply Forall_to_lowercase_nonempty.
Qed.

Lemma parse_case_order_insensitive_witness :
  exists g, parse (identifier "kb" ["Verbatim"; "V"]) = Ok g /\
            parse (identifier "KB" ["v"; "verbatim"]) = Ok g.
Proof.
  apply (parse_case_order_insensitive "kb" "KB" ["Verbatim"; "V"] ["v"; "verbatim"]);
    try (vm_compute; reflexivity); try done.
  - by repeat constructor.
  - by repeat constructor.
  - by repeat constructor.
  - apply perm_swap.
Defined.
