(* ===== verification/Keys.v ===== *)
(** * Key names and lock keys

    [crates/verbatim-input/src/keys.rs] (module [Names]),
    [crates/verbatim-input/src/toggle.rs] (module [Toggle]) and the raw key
    transition of [crates/verbatim-input/src/lib.rs].  A virtual-key code is a
    [u16], an [N] here. *)

From S2P Require Import Prelude Text Gesture.

(** One raw key transition as seen by the low-level hook. *)
Record KeyEvent := {
  vk : N;
  scan_code : N;
  extended : bool;
  injected : bool;
  pressed : bool;
}.

Module Names.

(** The gesture-identifier name of the Verbatim modifier. *)
Definition VERBATIM_MODIFIER_NAME : string := "verbatim".

(** A named key: virtual-key code plus how the extended-key flag must
    match, [None] for either. *)
Record KeyName := { kn_vk : N; kn_extended : option bool }.

#[export] Instance KeyName_eq_dec : EqDecision KeyName.
Proof. solve_decision. Defined.

Definition NAMED_KEYS : list (string * N * option bool) :=
[("break", 0x03, None);
 ("backspace", 0x08, None);
 ("tab", 0x09, None);
 ("enter", 0x0D, Some false);
 ("numpadenter", 0x0D, Some true);
 ("shift", 0x10, None);
 ("control", 0x11, None);
 ("alt", 0x12, None);
 ("pause", 0x13, None);
 ("capslock", 0x14, None);
 ("escape", 0x1B, None);
 ("space", 0x20, None);
 ("pageup", 0x21, Some true);
 ("numpad9", 0x21, Some false);
 ("pagedown", 0x22, Some true);
 ("numpad3", 0x22, Some false);
 ("end", 0x23, Some true);
 ("numpad1", 0x23, Some false);
 ("home", 0x24, Some true);
 ("numpad7", 0x24, Some false);
 ("leftarrow", 0x25, Some true);
 ("numpad4", 0x25, Some false);
 ("uparrow", 0x26, Some true);
 ("numpad8", 0x26, Some false);
 ("rightarrow", 0x27, Some true);
 ("numpad6", 0x27, Some false);
 ("downarrow", 0x28, Some true);
 ("numpad2", 0x28, Some false);
 ("numpad5", 0x0C, None);
 ("printscreen", 0x2C, None);
 ("insert", 0x2D, Some true);
 ("numpadinsert", 0x2D, Some false);
 ("numpad0", 0x2D, Some false);
 ("delete", 0x2E, Some true);
 ("numpaddelete", 0x2E, Some false);
 ("leftwindows", 0x5B, None);
 ("rightwindows", 0x5C, None);
 ("applications", 0x5D, None);
 ("numpadmultiply", 0x6A, None);
 ("numpadplus", 0x6B, None);
 ("numpadminus", 0x6D, None);
 ("numpaddivide", 0x6F, None);
 ("period", 0xBE, None);
 ("f1", 0x70, None);
 ("f2", 0x71, None);
 ("f3", 0x72, None);
 ("f4", 0x73, None);
 ("f5", 0x74, None);
 ("f6", 0x75, None);
 ("f7", 0x76, None);
 ("f8", 0x77, None);
 ("f9", 0x78, None);
 ("f10", 0x79, None);
 ("f11", 0x7A, None);
 ("f12", 0x7B, None);
 ("numlock", 0x90, None);
 ("scrolllock", 0x91, None);
 ("leftshift", 0xA0, None);
 ("rightshift", 0xA1, None);
 ("leftcontrol", 0xA2, None);
 ("rightcontrol", 0xA3, None);
 ("leftalt", 0xA4, None);
 ("rightalt", 0xA5, None);
 ("plus", 0xBB, None)].

(** Resolves a lowercase key name to its virtual key: letters and digits
    procedurally, everything else by the table. *)
Definition vk_from_name (name : string) : option KeyName :=
  let by_table :=
    match find (fun '(key_name, _, _) => bool_decide (key_name = name)) NAMED_KEYS with
    | Some (_, vk, extended) => Some {| kn_vk := vk; kn_extended := extended |}
    | None => None
    end in
  match name with
  | String c "" =>
      if is_ascii_lowercase c then
        Some {| kn_vk := N_of_ascii (to_ascii_uppercase c); kn_extended := None |}
      else if is_ascii_digit c then
        Some {| kn_vk := N_of_ascii c; kn_extended := None |}
      else by_table
  | _ => by_table
  end.

Definition LETTERS : list string :=
  ["a"; "b"; "c"; "d"; "e"; "f"; "g"; "h"; "i"; "j"; "k"; "l"; "m"; "n"; "o"; "p"; "q"; "r"; "s"; "t"; "u"; "v"; "w"; "x"; "y"; "z"].
Definition DIGITS : list string := ["0"; "1"; "2"; "3"; "4"; "5"; "6"; "7"; "8"; "9"].

(** The name [vk] takes in [names], the run of names that starts at
    [first]. *)
Definition offset_into (names : list string) (vk first : N) : option string :=
  match checked_sub vk first with
  | Some index => names !! N.to_nat index
  | None => None
  end.

(** Names a virtual key with its extended flag. *)
Definition name_from_vk (vk : N) (extended : bool) : option string :=
  match find (fun '(_, key_vk, key_extended) =>
                (key_vk =? vk) && Bool.eqb (default extended key_extended) extended)
             NAMED_KEYS with
  | Some (name, _, _) => Some name
  | None =>
      if (0x41 <=? vk) && (vk <=? 0x5A) then offset_into LETTERS vk 0x41
      else if (0x30 <=? vk) && (vk <=? 0x39) then offset_into DIGITS vk 0x30
      else None
  end.

(** Every row of the table is found by its name. *)
Lemma named_keys_by_name name vk ext :
  (name, vk, ext) ∈ NAMED_KEYS ->
  vk_from_name name = Some {| kn_vk := vk; kn_extended := ext |}.
Proof.
  intros Hin.
  assert (forallb (fun '(n, v, e) => bool_decide
    (vk_from_name n = Some {| kn_vk := v; kn_extended := e |})) NAMED_KEYS = true) as H
    by (vm_compute; reflexivity).
  apply (forallb_elem _ _ _ H) in Hin. by apply bool_decide_eq_true in Hin.
Qed.

(** Every name of a run of letters or digits resolves to its code. *)
Lemma run_by_name names first vk name :
  forallb (fun '(i, n) => bool_decide
    (vk_from_name n = Some {| kn_vk := first + N.of_nat i; kn_extended := None |}))
    (zip (seq 0 (length names)) names) = true ->
  offset_into names vk first = Some name ->
  vk_from_name name = Some {| kn_vk := vk; kn_extended := None |}.
Proof.
  unfold offset_into, checked_sub. intros Hall.
  destruct (first <=? vk) eqn:Hle; [|done]. intros Hname. reflect_bools.
  assert ((N.to_nat (vk - first), name) ∈ zip (seq 0 (length names)) names) as Hin.
  { apply (list_elem_of_lookup_2 _ (N.to_nat (vk - first))).
    apply lookup_zip_with_Some. eexists _, _. split_and!; [done| |done].
    apply lookup_seq. split; [lia|]. by eapply lookup_lt_Some. }
  apply (forallb_elem _ _ _ Hall) in Hin. apply bool_decide_eq_true in Hin.
  rewrite Hin. do 2 f_equal. lia.
Qed.

(** A key's name resolves back to it: for every virtual-key code and
    extended flag that [name_from_vk] names, [vk_from_name] gives the same code
    and a flag requirement the key meets. *)
Theorem name_vk_roundtrip vk extended name :
  name_from_vk vk extended = Some name ->
  exists ext, vk_from_name name = Some {| kn_vk := vk; kn_extended := ext |} /\
              (ext = None \/ ext = Some extended).
Proof.
  unfold name_from_vk. destruct (find _ _) as [[[n v] e]|] eqn:Hfind.
  - intros [= <-]. apply find_Some in Hfind as [Hin Hm]. reflect_bools. subst v.
    exists e. split; [by apply named_keys_by_name|].
    destruct e as [e|]; [right|by left]. by destruct e, extended.
  - intros Hrun. exists None. split; [|by left].
    repeat case_match; try done.
    + eapply (run_by_name LETTERS 0x41); [vm_compute; reflexivity|done].
    + eapply (run_by_name DIGITS 0x30); [vm_compute; reflexivity|done].
Qed.

Lemma name_vk_roundtrip_witness :
  name_from_vk 0x2D false = Some "numpadinsert" /\
  exists ext, vk_from_name "numpadinsert" = Some {| kn_vk := 0x2D; kn_extended := ext |} /\
              (ext = None \/ ext = Some false).
Proof.
  split; [vm_compute; reflexivity|].
  apply (name_vk_roundtrip 0x2D false "numpadinsert"). vm_compute; reflexivity.
Defined.

End Names.

Module Toggle.

(** A key that toggles a lock. *)
Inductive ToggleKey := CapsLock | NumLock | ScrollLock.

#[export] Instance ToggleKey_eq_dec : EqDecision ToggleKey.
Proof. solve_decision. Defined.

(** The lock in the model's words. *)
Inductive LockKey := LockCapsLock | LockNumLock | LockScrollLock.

Definition from_vk (vk : N) : option ToggleKey :=
  if vk =? 0x14 then Some CapsLock
  else if vk =? 0x90 then Some NumLock
  else if vk =? 0x91 then Some ScrollLock
  else None.

Definition vk (key : ToggleKey) : N :=
  match key with CapsLock => 0x14 | NumLock => 0x90 | ScrollLock => 0x91 end.

(** The fixed identifier [gesture] parses. *)
Definition gesture_name (key : ToggleKey) : string :=
  match key with
  | CapsLock => "kb:capslock"
  | NumLock => "kb:numlock"
  | ScrollLock => "kb:scrolllock"
  end.

(** The gesture that reports the key reached the operating system; [None]
    is the panic of the source's [expect]. *)
Definition gesture (key : ToggleKey) : option GestureId := ok (parse (gesture_name key)).

Definition lock_key (key : ToggleKey) : LockKey :=
  match key with
  | CapsLock => LockCapsLock | NumLock => LockNumLock | ScrollLock => LockScrollLock
  end.

Definition of_lock_key (key : LockKey) : ToggleKey :=
  match key with
  | LockCapsLock => CapsLock | LockNumLock => NumLock | LockScrollLock => ScrollLock
  end.

(** The toggle key a gesture reports, if it reports one. *)
Definition of_gesture (g : GestureId) : option ToggleKey :=
  find (fun key => bool_decide (gesture key = Some g)) [CapsLock; NumLock; ScrollLock].

Lemma from_vk_vk v key : from_vk v = Some key -> v = vk key.
Proof. unfold from_vk. repeat case_match; reflect_bools; by intros [= <-]. Qed.

(** A lock key, its virtual-key code and its gesture name each other: the
    code and the gesture of a lock key give the key back, no other code does,
    and the identifier the source expects to parse always does. *)
Theorem toggle_key_roundtrip key :
  from_vk (vk key) = Some key /\
  (forall v, from_vk v = Some key -> v = vk key) /\
  (exists g, gesture key = Some g /\ of_gesture g = Some key) /\
  of_lock_key (lock_key key) = key.
Proof.
  split_and!; [by destruct key| | |by destruct key].
  - intros v. apply from_vk_vk.
  - destruct key; (eexists; split; [vm_compute; reflexivity|vm_compute; reflexivity]).
Qed.

End Toggle.
