(* ===== verification/Machine.v ===== *)
(** * The keyboard decision machine

    [crates/verbatim-input/src/map.rs] (module [GMap]) and the non-test code
    of [crates/verbatim-input/src/state.rs].  The machine is a record; each
    [&mut self] method is a function that returns the machine after it.  Times
    are microseconds on the run's shared clock, [u64]; places are [u32]. *)

From S2P Require Import Prelude Text Gesture Keys.

(** ** The gesture map *)

Module GMap.

(** The bound, observed and held gestures. *)
Record GestureMap := {
  bound : gset GestureId;
  observed : gset GestureId;
  held : gset GestureId;
}.

Definition new (gestures : list GestureId) : GestureMap :=
  {| bound := list_to_set gestures; observed := ∅; held := ∅ |}.

Definition with_observed (self : GestureMap) (gestures : list GestureId) : GestureMap :=
  {| bound := bound self;
     observed := observed self ∪ list_to_set gestures;
     held := held self |}.

Definition with_held (self : GestureMap) (gestures : list GestureId) : GestureMap :=
  foldl (fun self gesture =>
           {| bound := bound self;
              observed := {[gesture]} ∪ observed self;
              held := {[gesture]} ∪ held self |}) self gestures.

Definition holds (self : GestureMap) (gesture : GestureId) : bool :=
  bool_decide (gesture ∈ held self).
Definition contains (self : GestureMap) (gesture : GestureId) : bool :=
  bool_decide (gesture ∈ bound self).
Definition observes (self : GestureMap) (gesture : GestureId) : bool :=
  bool_decide (gesture ∈ observed self).
Definition len (self : GestureMap) : nat := size (bound self).
Definition is_empty (self : GestureMap) : bool := bool_decide (bound self = ∅).

End GMap.

(** ** Constants *)

Definition VK_CAPITAL : N := 0x14.
Definition VK_INSERT : N := 0x2D.
Definition VK_RETURN : N := 0x0D.
Definition VK_SPACE : N := 0x20.
Definition VK_NUMLOCK : N := 0x90.
Definition VK_SCROLL : N := 0x91.
Definition VK_SHIFT : N := 0x10.
Definition VK_LSHIFT : N := 0xA0.
Definition VK_RSHIFT : N := 0xA1.
Definition VK_VOLUME_MUTE : N := 0xAD.
Definition VK_VOLUME_UP : N := 0xAF.
Definition VK_UNKNOWN : N := 0xFF.
Definition VK_MASK : N := VK_UNKNOWN.

Definition DEFAULT_MULTI_PRESS_TIMEOUT : Duration.t := Duration.from_millis 500.

(** [vk] is one of [vks]: the source's [matches!] on codes. *)
Definition one_of (vk : N) (vks : list N) : bool := existsb (N.eqb vk) vks.
(** [(low..=high).contains(&vk)]. *)
Definition in_range (low high vk : N) : bool := (low <=? vk) && (vk <=? high).

(** ** Configuration and data *)

Record DecisionConfig := {
  caps_lock : bool;
  insert_key : bool;
  numpad_insert : bool;
  share_modifier : bool;
  multi_press_timeout : Duration.t;
  interrupt_for_characters : bool;
  interrupt_for_enter : bool;
}.

Definition default_config : DecisionConfig := {|
  caps_lock := true;
  insert_key := true;
  numpad_insert := true;
  share_modifier := false;
  multi_press_timeout := DEFAULT_MULTI_PRESS_TIMEOUT;
  interrupt_for_characters := true;
  interrupt_for_enter := true;
|}.

(** A gesture the machine decided to raise, with its multi-press count, a
    [u8]. *)
Record RaisedGesture := { gesture : GestureId; repeat : N }.

(** A raised gesture tagged for tracing. *)
Record EmittedGesture := { trace_id : N; em_gesture : GestureId; em_repeat : N }.

(** [RaisedGesture::stamped]. *)
Definition stamped (self : RaisedGesture) (trace_id : N) : EmittedGesture :=
  {| trace_id := trace_id; em_gesture := gesture self; em_repeat := repeat self |}.

Inductive KeySpeechEffect := Cancel | TogglePause.
Inductive KeySource := User | Own.
Inductive HoldPermit := NoHold | DeferOnly | HoldAndDefer.

Record KeyInput := {
  event : KeyEvent;
  now : N;
  num_lock : bool;
  key_source : KeySource;
  permit : HoldPermit;
  may_mask : bool;
}.

Inductive Verdict :=
  | Pass
  | Swallow
  | Hold (place : N)
  | Defer (place : N).

Inductive PressReport := ReportNothing | Translated | TranslatedOrPassed.

#[export] Instance KeySpeechEffect_eq_dec : EqDecision KeySpeechEffect.
Proof. solve_decision. Defined.
#[export] Instance KeySource_eq_dec : EqDecision KeySource.
Proof. solve_decision. Defined.
#[export] Instance HoldPermit_eq_dec : EqDecision HoldPermit.
Proof. solve_decision. Defined.
#[export] Instance Verdict_eq_dec : EqDecision Verdict.
Proof. solve_decision. Defined.

(** The outcome of feeding one [KeyInput] to the machine. *)
Record Decision := {
  verdict : Verdict;
  emitted : option RaisedGesture;
  speech : option KeySpeechEffect;
  shared_modifier : bool;
  observed_gesture : option RaisedGesture;
  typing : PressReport;
  toggle : option Toggle.ToggleKey;
  mask : option (N * N);
}.

Definition pass : Decision := {|
  verdict := Pass; emitted := None; speech := None; shared_modifier := false;
  observed_gesture := None; typing := ReportNothing; toggle := None; mask := None |}.

Definition pass_observed (g : GestureId) : Decision := {|
  verdict := Pass; emitted := None; speech := None; shared_modifier := false;
  observed_gesture := Some {| gesture := g; repeat := 0 |};
  typing := ReportNothing; toggle := None; mask := None |}.

Definition pass_shared_modifier : Decision := {|
  verdict := Pass; emitted := None; speech := None; shared_modifier := true;
  observed_gesture := None; typing := ReportNothing; toggle := None; mask := None |}.

Definition swallow : Decision := {|
  verdict := Swallow; emitted := None; speech := None; shared_modifier := false;
  observed_gesture := None; typing := ReportNothing; toggle := None; mask := None |}.

Definition swallow_emit (g : RaisedGesture) : Decision := {|
  verdict := Swallow; emitted := Some g; speech := None; shared_modifier := false;
  observed_gesture := None; typing := ReportNothing; toggle := None; mask := None |}.

(** Identity of a physical key: its code and extended flag. *)
Abbreviation KeyCode := (N * bool)%type.

Definition key_of (e : KeyEvent) : KeyCode := (vk e, extended e).

(** What the machine knows of a key it has seen go down and not come up. *)
Record KeyDown := { reached : bool; swallowed_gesture : bool }.
Definition KeyDown_default : KeyDown := {| reached := false; swallowed_gesture := false |}.

(** A key transition held back or deferred, not yet passed on. *)
Record Waiting := { place_of : N; transition : option (N * bool) }.

Inductive KeyRole :=
  | Modifier
  | Named (name : string)
  | Unnamed.

Definition is_modifier_role (role : KeyRole) : bool :=
  match role with Modifier => true | _ => false end.

(** ** Keys *)

(** The generic name of a normal modifier. *)
Definition generic_modifier_name (vk : N) : option string :=
  if one_of vk [0x11; 0xA2; 0xA3] then Some "control"
  else if one_of vk [0x10; 0xA0; 0xA1] then Some "shift"
  else if one_of vk [0x12; 0xA4; 0xA5] then Some "alt"
  else if one_of vk [0x5B; 0x5C] then Some "leftwindows"
  else None.

Definition since (then_us now : N) : Duration.t := Duration.from_micros (now - then_us).

Definition is_numpad_operator (vk : N) : bool := one_of vk [0x6A; 0x6B; 0x6D; 0x6F].

Definition is_normal_modifier (vk : N) : bool :=
  match generic_modifier_name vk with Some _ => true | None => false end.

Definition may_edit (vk : N) : bool :=
  negb (is_normal_modifier vk)
  && match Toggle.from_vk vk with Some _ => false | None => true end
  && negb (one_of vk [0x13; 0x2C; 0x5F] || in_range 0xA6 0xB7 vk).

(** ** The lone-modifier lifecycle *)

Inductive LoneModifier :=
  | Idle
  | HeldAlone (key : KeyCode)
  | TapPending (key : KeyCode) (released : N)
  | PassingThrough.

Definition hands_press_to_os (self : LoneModifier) (key : KeyCode) (now : N)
    (timeout : Duration.t) : bool :=
  match self with
  | PassingThrough => true
  | TapPending tapped released => bool_decide (tapped = key) && (since released now <? timeout)
  | Idle | HeldAlone _ => false
  end.

Definition after_press (key : KeyCode) (hands_to_os : bool) (role : KeyRole) : LoneModifier :=
  if hands_to_os then PassingThrough
  else if is_modifier_role role then HeldAlone key
  else Idle.

Definition after_release (self : LoneModifier) (key : KeyCode) (now : N) : LoneModifier :=
  match self with
  | PassingThrough => Idle
  | HeldAlone candidate | TapPending candidate _ =>
      if bool_decide (candidate = key) then TapPending key now else self
  | Idle => Idle
  end.

(** ** The machine *)

Record DecisionMachine := {
  config : DecisionConfig;
  gmap_of : GMap.GestureMap;
  held_modifiers : gset KeyCode;
  keys_down : gmap KeyCode KeyDown;
  lone_modifier : LoneModifier;
  last_gesture : option (GestureId * N);
  repeat_count : N;
  line : list Waiting;
  last_place : N;
}.

Definition set_held_modifiers (m : DecisionMachine) (x : gset KeyCode) : DecisionMachine := {|
  config := config m; gmap_of := gmap_of m; held_modifiers := x;
  keys_down := keys_down m; lone_modifier := lone_modifier m;
  last_gesture := last_gesture m; repeat_count := repeat_count m;
  line := line m; last_place := last_place m |}.
Definition set_keys_down (m : DecisionMachine) (x : gmap KeyCode KeyDown) : DecisionMachine := {|
  config := config m; gmap_of := gmap_of m; held_modifiers := held_modifiers m;
  keys_down := x; lone_modifier := lone_modifier m;
  last_gesture := last_gesture m; repeat_count := repeat_count m;
  line := line m; last_place := last_place m |}.
Definition set_lone_modifier (m : DecisionMachine) (x : LoneModifier) : DecisionMachine := {|
  config := config m; gmap_of := gmap_of m; held_modifiers := held_modifiers m;
  keys_down := keys_down m; lone_modifier := x;
  last_gesture := last_gesture m; repeat_count := repeat_count m;
  line := line m; last_place := last_place m |}.
Definition set_last_gesture (m : DecisionMachine) (x : option (GestureId * N))
    : DecisionMachine := {|
  config := config m; gmap_of := gmap_of m; held_modifiers := held_modifiers m;
  keys_down := keys_down m; lone_modifier := lone_modifier m;
  last_gesture := x; repeat_count := repeat_count m;
  line := line m; last_place := last_place m |}.
Definition set_streak (m : DecisionMachine) (x : option (GestureId * N)) (n : N)
    : DecisionMachine := {|
  config := config m; gmap_of := gmap_of m; held_modifiers := held_modifiers m;
  keys_down := keys_down m; lone_modifier := lone_modifier m;
  last_gesture := x; repeat_count := n;
  line := line m; last_place := last_place m |}.
Definition set_line (m : DecisionMachine) (x : list Waiting) (n : N) : DecisionMachine := {|
  config := config m; gmap_of := gmap_of m; held_modifiers := held_modifiers m;
  keys_down := keys_down m; lone_modifier := lone_modifier m;
  last_gesture := last_gesture m; repeat_count := repeat_count m;
  line := x; last_place := n |}.

(** [keys_down.entry(key).or_default()]. *)
Definition entry (m : DecisionMachine) (key : KeyCode) : KeyDown :=
  default KeyDown_default (keys_down m !! key).

(** [keys_down.entry(key).or_default().swallowed_gesture = true]. *)
Definition mark_swallowed (m : DecisionMachine) (key : KeyCode) : DecisionMachine :=
  set_keys_down m
    (<[key := {| reached := reached (entry m key); swallowed_gesture := true |}]> (keys_down m)).

Definition new (config : DecisionConfig) (gm : GMap.GestureMap) : DecisionMachine := {|
  config := config; gmap_of := gm; held_modifiers := ∅; keys_down := ∅;
  lone_modifier := Idle; last_gesture := None; repeat_count := 0; line := []; last_place := 0 |}.

Definition is_verbatim_modifier (m : DecisionMachine) (vk : N) (extended : bool) : bool :=
  (caps_lock (config m) && (vk =? VK_CAPITAL))
  || (insert_key (config m) && (vk =? VK_INSERT) && extended)
  || (numpad_insert (config m) && (vk =? VK_INSERT) && negb extended).

(** What a held key contributes to a chord it is not the main key of. *)
Definition modifier_part (m : DecisionMachine) (current_key key : KeyCode) : option string :=
  if bool_decide (key = current_key) then None
  else if is_verbatim_modifier m key.1 key.2 then Some Names.VERBATIM_MODIFIER_NAME
  else generic_modifier_name key.1.

(** The parts of the chord: the held modifiers, then the main key.  The source
    walks its ordered set; [parse] sorts, so the order is irrelevant. *)
Definition chord_parts (m : DecisionMachine) (current_key : KeyCode) (main_name : string)
    : list string :=
  omap (modifier_part m current_key) (elements (held_modifiers m)) ++ [main_name].

Definition build_gesture (m : DecisionMachine) (current_key : KeyCode) (main_name : string)
    : option GestureId :=
  ok (parse ("kb:" +:+ join "+" (chord_parts m current_key main_name))).

Definition role_of (m : DecisionMachine) (key : KeyCode) (hands_to_os : bool) : KeyRole :=
  if negb hands_to_os && is_verbatim_modifier m key.1 key.2 then Modifier
  else match Names.name_from_vk key.1 key.2 with
       | Some name => Named name
       | None => Unnamed
       end.

(** The repeat count an emission carries, with the streak after it. *)
Definition count_press (m : DecisionMachine) (g : GestureId) (key : KeyCode) (now : N)
    : N * DecisionMachine :=
  if match keys_down m !! key with Some down => swallowed_gesture down | None => false end
  then (repeat_count m, m)
  else
    let count :=
      match last_gesture m with
      | Some (last, at_us) =>
          if bool_decide (last = g) && (since at_us now <? multi_press_timeout (config m))
          then repeat_count m +|8| 1 else 0
      | None => 0
      end in
    (count, set_streak m (Some (g, now)) count).

(** The name the press is known by in a chord; [None] for a key that can take
    no part in one. *)
Definition main_name_of (role : KeyRole) (vk : N) (num_lock : bool) : option string :=
  match role with
  | Modifier => Some Names.VERBATIM_MODIFIER_NAME
  | Named name => if num_lock && is_numpad_operator vk then None else Some name
  | Unnamed => None
  end.

(** A modifier going down is held from now on. *)
Definition note_modifier (m : DecisionMachine) (key : KeyCode) (role : KeyRole)
    : DecisionMachine :=
  if is_modifier_role role || is_normal_modifier key.1
  then set_held_modifiers m ({[key]} ∪ held_modifiers m) else m.

(** A key other than a modifier that completes no bound gesture ends the
    multi-press streak. *)
Definition end_streak (m : DecisionMachine) (vk : N) (role : KeyRole) : DecisionMachine :=
  if negb (is_modifier_role role) && negb (is_normal_modifier vk)
  then set_last_gesture m None else m.

(** The rest of [on_press], after no bound gesture was completed. *)
Definition unbound_press (m0 : DecisionMachine) (e : KeyEvent) (key : KeyCode)
    (role : KeyRole) (hands_to_os : bool) (g : option GestureId)
    : Decision * DecisionMachine :=
  let m := end_streak m0 (vk e) role in
  if is_modifier_role role then
    if share_modifier (config m) then (pass_shared_modifier, m)
    else (swallow, mark_swallowed m key)
  else if hands_to_os && share_modifier (config m) then (pass_shared_modifier, m)
  else
    match g with
    | Some g' => if GMap.observes (gmap_of m) g' then (pass_observed g', m) else (pass, m)
    | None => (pass, m)
    end.

(** [on_press]: the part the key plays, the lone-modifier lifecycle, and the
    chord it completes. *)
Definition on_press (m0 : DecisionMachine) (e : KeyEvent) (now : N) (num_lock : bool)
    : Decision * DecisionMachine :=
  let key := key_of e in
  let hands_to_os :=
    hands_press_to_os (lone_modifier m0) key now (multi_press_timeout (config m0)) in
  let role := role_of m0 key hands_to_os in
  let m1 := set_lone_modifier m0 (after_press key hands_to_os role) in
  match main_name_of role (vk e) num_lock with
  | None => (pass, set_last_gesture m1 None)
  | Some main_name =>
      let m2 := note_modifier m1 key role in
      let g := build_gesture m2 key main_name in
      match g with
      | Some g' =>
          if GMap.contains (gmap_of m2) g' then
            let '(count, m3) := count_press m2 g' key now in
            (swallow_emit {| gesture := g'; repeat := count |}, mark_swallowed m3 key)
          else unbound_press m2 e key role hands_to_os g
      | None => unbound_press m2 e key role hands_to_os g
      end
  end.

Definition on_release (m : DecisionMachine) (e : KeyEvent) (now : N)
    : Decision * DecisionMachine :=
  let key := key_of e in
  let m := set_lone_modifier m (after_release (lone_modifier m) key now) in
  (pass, set_held_modifiers m (held_modifiers m ∖ {[key]})).

(** Whether a key-down types a character. *)
Definition is_typed_character (m : DecisionMachine) (e : KeyEvent) : bool :=
  let v := vk e in
  if is_verbatim_modifier m v (extended e) then false
  else
    let modifiers_allow :=
      forallb (fun '(held, _) => one_of held [VK_SHIFT; VK_LSHIFT; VK_RSHIFT])
              (elements (held_modifiers m)) in
    let character_key :=
      (v =? VK_SPACE) || in_range 0x30 0x39 v || in_range 0x41 0x5A v
      || in_range 0xBA 0xC0 v || in_range 0xDB 0xDF v || (v =? 0xE2) in
    let lock_key := one_of v [VK_CAPITAL; VK_NUMLOCK; VK_SCROLL] in
    lock_key || (character_key && modifiers_allow).

(** What a key-down does to speech. *)
Definition speech_effect (m : DecisionMachine) (e : KeyEvent) : option KeySpeechEffect :=
  let is_shift := one_of (vk e) [VK_SHIFT; VK_LSHIFT; VK_RSHIFT] in
  if (extended e && in_range VK_VOLUME_MUTE VK_VOLUME_UP (vk e)) || (vk e =? VK_UNKNOWN)
  then None
  else if negb (interrupt_for_characters (config m)) && (is_shift || is_typed_character m e)
  then None
  else if negb (interrupt_for_enter (config m)) && (vk e =? VK_RETURN) then None
  else if is_shift then
    if bool_decide (key_of e ∈ held_modifiers m) then None else Some TogglePause
  else Some Cancel.

(** The next place in line: the one after the last given out, 1 after the
    largest [u32]. *)
Definition next_place (last : N) : N := default 1 (checked_add U32_MAX last 1).

(** Puts a transition held back or deferred in line. *)
Definition queue (m : DecisionMachine) (transition : option (N * bool))
    : N * DecisionMachine :=
  let place := next_place (last_place m) in
  (place, set_line m (line m ++ [{| place_of := place; transition := transition |}]) place).

(** Whether a transition that would pass waits behind the line: the user's,
    of no lock key, while the permit lets it be. *)
Definition defers (m : DecisionMachine) (e : KeyEvent) (source : KeySource)
    (permit : HoldPermit) : bool :=
  bool_decide (source = User)
  && match Toggle.from_vk (vk e) with None => true | Some _ => false end
  && bool_decide (permit <> NoHold)
  && match line m with [] => false | _ :: _ => true end.

(** The end of [place]. *)
Definition pass_or_defer (m : DecisionMachine) (e : KeyEvent) (source : KeySource)
    (permit : HoldPermit) : Verdict * DecisionMachine :=
  if defers m e source permit then
    let '(p, m) := queue m (Some (vk e, pressed e)) in (Defer p, m)
  else (Pass, m).

(** Whether a press of an observed gesture is held back. *)
Definition holds_press (m : DecisionMachine) (source : KeySource) (permit : HoldPermit)
    (d : Decision) : bool :=
  bool_decide (source = User) && bool_decide (permit = HoldAndDefer)
  && match observed_gesture d with
     | Some o => GMap.holds (gmap_of m) (gesture o)
     | None => false
     end.

(** [place]: the verdict on a transition the rules passed or swallowed. *)
Definition place (m : DecisionMachine) (e : KeyEvent) (source : KeySource)
    (permit : HoldPermit) (d : Decision) : Verdict * DecisionMachine :=
  let key := key_of e in
  if pressed e then
    let held := holds_press m source permit d in
    let down := entry m key in
    let m := set_keys_down m (<[key := down]> (keys_down m)) in
    if bool_decide (verdict d = Swallow) then (Swallow, m)
    else
      let m := set_keys_down m
        (<[key := {| reached := negb held; swallowed_gesture := swallowed_gesture down |}]>
           (keys_down m)) in
      if held then let '(p, m) := queue m None in (Hold p, m)
      else pass_or_defer m e source permit
  else
    let removed := keys_down m !! key in
    let m := set_keys_down m (delete key (keys_down m)) in
    match removed with
    | Some down => if negb (reached down) then (Swallow, m)
                   else pass_or_defer m e source permit
    | None => pass_or_defer m e source permit
    end.

(** [report]: completes a decision with what the transition reports. *)
Definition report (e : KeyEvent) (source : KeySource) (d : Decision) : Decision :=
  let own := bool_decide (source = Own) in
  let observed := if own then None else observed_gesture d in
  let reaches := match verdict d with Pass | Defer _ => true | Swallow | Hold _ => false end in
  {| verdict := verdict d;
     emitted := emitted d;
     speech := if own then None else speech d;
     shared_modifier := shared_modifier d;
     observed_gesture := observed;
     typing :=
       if pressed e && reaches && negb (shared_modifier d) && bool_decide (source = User) then
         if match observed with None => true | Some _ => false end && may_edit (vk e)
         then TranslatedOrPassed else Translated
       else ReportNothing;
     toggle :=
       if pressed e && bool_decide (verdict d = Pass) && negb (shared_modifier d)
       then Toggle.from_vk (vk e) else None;
     mask := mask d |}.

(** Whether a modifier of [vks] is down in the application. *)
Definition modifier_reached (m : DecisionMachine) (vks : list N) : bool :=
  existsb (fun key => one_of key.1 vks &&
             match keys_down m !! key with Some down => reached down | None => false end)
          (elements (held_modifiers m)).

Definition modifiers_may_act_alone (m : DecisionMachine) : bool :=
  modifier_reached m [0x12; 0xA4; 0xA5; 0x5B; 0x5C]
  || (modifier_reached m [0x11; 0xA2; 0xA3] && modifier_reached m [0x10; 0xA0; 0xA1]).

Definition set_speech (d : Decision) (s : option KeySpeechEffect) : Decision := {|
  verdict := verdict d; emitted := emitted d; speech := s;
  shared_modifier := shared_modifier d; observed_gesture := observed_gesture d;
  typing := typing d; toggle := toggle d; mask := mask d |}.
Definition set_verdict (d : Decision) (v : Verdict) : Decision := {|
  verdict := v; emitted := emitted d; speech := speech d;
  shared_modifier := shared_modifier d; observed_gesture := observed_gesture d;
  typing := typing d; toggle := toggle d; mask := mask d |}.
Definition set_mask (d : Decision) (p : option (N * N)) : Decision := {|
  verdict := verdict d; emitted := emitted d; speech := speech d;
  shared_modifier := shared_modifier d; observed_gesture := observed_gesture d;
  typing := typing d; toggle := toggle d; mask := p |}.

(** [on_key]: decides one key transition whole. *)
Definition on_key (m : DecisionMachine) (input : KeyInput) : Decision * DecisionMachine :=
  let e := event input in
  let '(d, m) :=
    if pressed e then
      let speech := speech_effect m e in
      let '(d, m) := on_press m e (now input) (num_lock input) in
      (set_speech d speech, m)
    else on_release m e (now input) in
  let '(v, m) := place m e (key_source input) (permit input) d in
  let d := report e (key_source input) (set_verdict d v) in
  if match emitted d with Some _ => true | None => false end
     && bool_decide (key_source input = User) && may_mask input
     && modifiers_may_act_alone m
  then
    let '(down, m) := queue m (Some (VK_MASK, true)) in
    let '(up, m) := queue m (Some (VK_MASK, false)) in
    (set_mask d (Some (down, up)), m)
  else (d, m).

(** Drops the line up to and including [place]. *)
Fixpoint drop_through (place : N) (l : list Waiting) : list Waiting :=
  match l with
  | [] => []
  | front :: l => if place_of front =? place then l else drop_through place l
  end.

(** [passed_on]: the key Core passed on with [place] reached the hook, and
    with it every key ahead of it. *)
Definition passed_on (m : DecisionMachine) (place : N) : DecisionMachine :=
  if existsb (fun w => place_of w =? place) (line m)
  then set_line m (drop_through place (line m)) (last_place m)
  else m.

Definition has_outstanding (m : DecisionMachine) : bool :=
  match line m with [] => false | _ :: _ => true end.

Definition deferred_transitions (m : DecisionMachine) : list (N * bool) :=
  omap transition (line m).
