(* ===== verification/MachineSafety.v ===== *)
(** * Properties of the keyboard decision machine

    Every reachable machine is one made by [new] and driven by [on_key] and
    [passed_on] in any order.  The trace of a run records each transition with
    its verdict, from which [app_down] computes what the application sees. *)

From S2P Require Import Prelude Text Gesture Keys Machine.

(** [m'] differs from [m] in no field the line of keys held back is kept in,
    nor in what the machine was made with. *)
Record same_line (m m' : DecisionMachine) : Prop := {
  sl_config : config m' = config m;
  sl_map : gmap_of m' = gmap_of m;
  sl_line : line m' = line m;
  sl_last : last_place m' = last_place m;
}.

#[export] Instance same_line_refl : Reflexive same_line.
Proof. by split. Qed.
#[export] Instance same_line_trans : Transitive same_line.
Proof. intros m1 m2 m3 [] []. split; congruence. Qed.

(** What the rules leave of a key's entry: untouched, or marked as swallowed
    with [reached] as it was. *)
Definition marked (m : DecisionMachine) (key : KeyCode) : KeyDown :=
  {| reached := reached (entry m key); swallowed_gesture := true |}.

Definition keys_marked (m m' : DecisionMachine) (key : KeyCode) : Prop :=
  keys_down m' = keys_down m \/ keys_down m' = <[key := marked m key]> (keys_down m).

Lemma mark_swallowed_keys m0 m key :
  keys_down m = keys_down m0 -> keys_marked m0 (mark_swallowed m key) key.
Proof. intros H. right. unfold mark_swallowed, marked, entry. simpl. by rewrite H. Qed.

Lemma mark_swallowed_line m key : same_line m (mark_swallowed m key).
Proof. by split. Qed.

Lemma note_modifier_frame m key role :
  let m' := note_modifier m key role in
  same_line m m' /\ keys_down m' = keys_down m /\ lone_modifier m' = lone_modifier m.
Proof. unfold note_modifier. by case_match. Qed.

Lemma end_streak_frame m vk role :
  let m' := end_streak m vk role in
  same_line m m' /\ keys_down m' = keys_down m /\ lone_modifier m' = lone_modifier m /\
  held_modifiers m' = held_modifiers m.
Proof. unfold end_streak. by case_match. Qed.

Lemma count_press_frame m g key now c m' :
  count_press m g key now = (c, m') ->
  same_line m m' /\ keys_down m' = keys_down m /\ held_modifiers m' = held_modifiers m /\
  lone_modifier m' = lone_modifier m.
Proof. unfold count_press. intros H. split_cases; by repeat split. Qed.

Lemma unbound_press_frame m e key role hands g d m' :
  unbound_press m e key role hands g = (d, m') ->
  same_line m m' /\ keys_marked m m' key /\ held_modifiers m' = held_modifiers m /\
  lone_modifier m' = lone_modifier m.
Proof.
  unfold unbound_press, end_streak. intros H. split_cases;
    (split_and!; [by split| |done|done]; solve [by left | by apply mark_swallowed_keys]).
Qed.

Lemma on_press_frame m e now nl d m' :
  on_press m e now nl = (d, m') ->
  same_line m m' /\ keys_marked m m' (key_of e) /\
  lone_modifier m' =
    (let hands := hands_press_to_os (lone_modifier m) (key_of e) now
                    (multi_press_timeout (config m)) in
     after_press (key_of e) hands (role_of m (key_of e) hands)).
Proof.
  unfold on_press. set (hands := hands_press_to_os _ _ _ _).
  set (m1 := set_lone_modifier _ _).
  assert (same_line m m1 /\ keys_down m1 = keys_down m) as [Hl1 Hk1] by done.
  destruct (main_name_of _ _ _) as [name|]; [|intros [= <- <-]; split_and!; [done|by left|done]].
  set (m2 := note_modifier _ _ _).
  assert (same_line m m2 /\ keys_down m2 = keys_down m /\ lone_modifier m2 = lone_modifier m1)
    as (Hl2 & Hk2 & Hlm) by (edestruct (note_modifier_frame m1) as (? & ? & ?); by split_and!; [etrans|..]).
  assert (forall g, unbound_press m2 e (key_of e) (role_of m (key_of e) hands) hands g = (d, m') ->
    same_line m m' /\ keys_marked m m' (key_of e) /\ lone_modifier m' = lone_modifier m1) as Hub.
  { intros g (Hl & Hk & _ & Hlm')%unbound_press_frame.
    split_and!; [by etrans| |congruence].
    unfold keys_marked, marked, entry in *. by rewrite Hk2 in Hk. }
  destruct (build_gesture _ _ _) as [g|]; [|intros H; by apply Hub in H].
  destruct (GMap.contains _ _); [|intros H; by apply Hub in H].
  destruct (count_press _ _ _ _) as [c m3] eqn:Hc. intros [= <- <-].
  apply count_press_frame in Hc as (Hl3 & Hk3 & _ & Hlm3). split_and!.
  - etrans; [exact Hl2|]. etrans; [exact Hl3|]. apply mark_swallowed_line.
  - apply mark_swallowed_keys. congruence.
  - by rewrite /= Hlm3 Hlm.
Qed.

(** The verdict the rules give before the line is looked at, with what they
    may report. *)
Record rules_shape (m : DecisionMachine) (d : Decision) : Prop := {
  rs_verdict : verdict d = Pass \/ verdict d = Swallow;
  rs_emitted : forall g, emitted d = Some g ->
    verdict d = Swallow /\ GMap.contains (gmap_of m) (gesture g) = true;
  rs_observed : forall g, observed_gesture d = Some g ->
    verdict d = Pass /\ repeat g = 0 /\
    GMap.observes (gmap_of m) (gesture g) = true /\
    GMap.contains (gmap_of m) (gesture g) = false;
  rs_shared : shared_modifier d = true ->
    verdict d = Pass /\ share_modifier (config m) = true /\ observed_gesture d = None;
  rs_mask : mask d = None;
}.

Lemma pass_shape m : rules_shape m pass.
Proof. by split; [left|..]. Qed.

#[export] Hint Resolve pass_shape : verbatim.

Lemma unbound_press_shape m e key role hands g d m' :
  match g with Some g' => GMap.contains (gmap_of m) g' = false | None => True end ->
  unbound_press m e key role hands g = (d, m') -> rules_shape m d.
Proof.
  unfold unbound_press. intros Hg. set (m1 := end_streak _ _ _).
  assert (gmap_of m1 = gmap_of m /\ config m1 = config m) as [Hm Hc]
    by (destruct (end_streak_frame m (vk e) role) as [[] _]; done).
  rewrite Hm Hc. intros H. repeat case_match; simplify_eq/=;
    auto with verbatim; split; simpl; try done; auto.
  1, 2: by reflect_bools.
  by intros ? [= <-].
Qed.

Lemma on_press_shape m e now nl d m' :
  on_press m e now nl = (d, m') -> rules_shape m d.
Proof.
  unfold on_press. set (hands := hands_press_to_os _ _ _ _). set (m1 := set_lone_modifier _ _).
  destruct (main_name_of _ _ _) as [name|]; [|intros [= <- <-]; auto with verbatim].
  set (m2 := note_modifier _ _ _).
  assert (gmap_of m2 = gmap_of m /\ config m2 = config m) as [Hm Hc]
    by (edestruct (note_modifier_frame m1) as [[] _]; done).
  assert (forall g, match g with Some g' => GMap.contains (gmap_of m) g' = false | None => True end ->
    unbound_press m2 e (key_of e) (role_of m (key_of e) hands) hands g = (d, m') ->
    rules_shape m d) as Hub.
  { intros g Hg [H1 H2 H3 H4 H5]%unbound_press_shape; [|by rewrite Hm].
    rewrite ?Hm ?Hc in H1 H2 H3 H4 H5. by split. }
  destruct (build_gesture _ _ _) as [g|]; [|intros H; by apply Hub in H].
  destruct (GMap.contains _ _) eqn:Hg; [|intros H; apply Hub in H; [done|by rewrite -Hm]].
  destruct (count_press _ _ _ _) as [c m3]. intros [= <- <-].
  split; try done; [by right|]. intros ? [= <-]. by rewrite -Hm.
Qed.

(** ** The verdict *)

(** A transition that reaches the application: now, or once deferred. *)
Inductive delivered (m : DecisionMachine) (e : KeyEvent) (src : KeySource) (pm : HoldPermit)
    : Verdict -> DecisionMachine -> Prop :=
  | delivered_now m' :
      defers m e src pm = false -> same_line m m' -> delivered m e src pm Pass m'
  | delivered_later m' :
      defers m e src pm = true ->
      config m' = config m -> gmap_of m' = gmap_of m ->
      line m' = line m ++ [{| place_of := next_place (last_place m);
                              transition := Some (vk e, pressed e) |}] ->
      last_place m' = next_place (last_place m) ->
      delivered m e src pm (Defer (next_place (last_place m))) m'.

(** What [place] does, by case: [placed m e src permit d v m']. *)
Inductive placed (m : DecisionMachine) (e : KeyEvent) (src : KeySource) (pm : HoldPermit)
    (d : Decision) : Verdict -> DecisionMachine -> Prop :=
  | placed_swallow_press m' :
      pressed e = true -> verdict d = Swallow ->
      same_line m m' -> keys_down m' = <[key_of e := entry m (key_of e)]> (keys_down m) ->
      placed m e src pm d Swallow m'
  | placed_hold m' :
      pressed e = true -> verdict d <> Swallow -> holds_press m src pm d = true ->
      keys_down m' = <[key_of e := {| reached := false;
        swallowed_gesture := swallowed_gesture (entry m (key_of e)) |}]> (keys_down m) ->
      config m' = config m -> gmap_of m' = gmap_of m ->
      line m' = line m ++ [{| place_of := next_place (last_place m); transition := None |}] ->
      last_place m' = next_place (last_place m) ->
      placed m e src pm d (Hold (next_place (last_place m))) m'
  | placed_press v m' :
      pressed e = true -> verdict d <> Swallow -> holds_press m src pm d = false ->
      keys_down m' = <[key_of e := {| reached := true;
        swallowed_gesture := swallowed_gesture (entry m (key_of e)) |}]> (keys_down m) ->
      delivered m e src pm v m' ->
      placed m e src pm d v m'
  | placed_swallow_release down m' :
      pressed e = false -> keys_down m !! key_of e = Some down -> reached down = false ->
      same_line m m' -> keys_down m' = delete (key_of e) (keys_down m) ->
      placed m e src pm d Swallow m'
  | placed_release v m' :
      pressed e = false ->
      (forall down, keys_down m !! key_of e = Some down -> reached down = true) ->
      keys_down m' = delete (key_of e) (keys_down m) ->
      delivered m e src pm v m' ->
      placed m e src pm d v m'.

Lemma pass_or_defer_delivered m0 m e src pm v m' :
  same_line m0 m -> pass_or_defer m e src pm = (v, m') ->
  delivered m0 e src pm v m' /\ keys_down m' = keys_down m.
Proof.
  intros [Hc Hm Hl Hp]. unfold pass_or_defer, queue.
  assert (defers m e src pm = defers m0 e src pm) as -> by (by unfold defers; rewrite Hl).
  destruct (defers m0 e src pm) eqn:Hd; intros [= <- <-].
  - rewrite Hp. split; [|done]. constructor; simpl; congruence.
  - split; [|done]. by constructor.
Qed.

Lemma place_placed m e src pm d v m' :
  place m e src pm d = (v, m') -> placed m e src pm d v m'.
Proof.
  unfold place. destruct (pressed e) eqn:Hp.
  - case_bool_decide as Hd.
    { intros [= <- <-]. by apply placed_swallow_press. }
    destruct (holds_press m src pm d) eqn:Hh.
    + unfold queue. intros [= <- <-]. apply placed_hold; simpl; try done.
      by rewrite insert_insert_eq.
    + intros [Hdel Hk]%(pass_or_defer_delivered m); [|done].
      apply placed_press; try done. rewrite Hk /=. by rewrite insert_insert_eq.
  - destruct (keys_down m !! key_of e) as [down|] eqn:Hdown.
    + destruct (reached down) eqn:Hr; simpl.
      * intros [Hdel Hk]%(pass_or_defer_delivered m); [|done].
        apply placed_release; try done. congruence.
      * intros [= <- <-]. by eapply placed_swallow_release.
    + intros [Hdel Hk]%(pass_or_defer_delivered m); [|done].
      apply placed_release; try done. congruence.
Qed.

Lemma placed_swallow_iff m e src pm d v m' :
  placed m e src pm d v m' -> pressed e = true -> (v = Swallow <-> verdict d = Swallow).
Proof.
  intros Hpl Hp. destruct Hpl as [| | ? ? ? ? ? ? Hdl | | ? ? ? ? ? Hdl]; try congruence; try done.
  split; [by destruct Hdl|done].
Qed.

(** ** The whole transition *)

(** The first half of [on_key]: what the rules decide before [place]. *)
Definition rules (m : DecisionMachine) (input : KeyInput) : Decision * DecisionMachine :=
  let e := event input in
  if pressed e then
    let speech := speech_effect m e in
    let '(d, m) := on_press m e (now input) (num_lock input) in
    (set_speech d speech, m)
  else on_release m e (now input).

(** The mask, when the gesture gets one. *)
Definition masks (m : DecisionMachine) (input : KeyInput) (d : Decision) : bool :=
  match emitted d with Some _ => true | None => false end
  && bool_decide (key_source input = User) && may_mask input && modifiers_may_act_alone m.

Lemma rules_shape_set_speech m d s : rules_shape m d -> rules_shape m (set_speech d s).
Proof. intros []. by split. Qed.

Lemma rules_frame m input d1 m1 :
  rules m input = (d1, m1) ->
  same_line m m1 /\ keys_marked m m1 (key_of (event input)) /\ rules_shape m d1 /\
  (pressed (event input) = false -> keys_down m1 = keys_down m /\ d1 = pass).
Proof.
  unfold rules. destruct (pressed (event input)).
  - destruct (on_press _ _ _ _) as [d m2] eqn:Hp. intros [= <- <-].
    pose proof (on_press_shape _ _ _ _ _ _ Hp). apply on_press_frame in Hp as (? & ? & _).
    split_and!; try done. by apply rules_shape_set_speech.
  - unfold on_release. intros [= <- <-]. split_and!; auto with verbatim; try done. by left.
Qed.

(** [on_key] is the rules, then [place], then the report and the mask. *)
Lemma on_key_inv m input d m' :
  on_key m input = (d, m') ->
  exists d1 m1 v m2,
    rules m input = (d1, m1) /\
    placed m1 (event input) (key_source input) (permit input) d1 v m2 /\
    let d2 := report (event input) (key_source input) (set_verdict d1 v) in
    if masks m2 input d2 then
      d = set_mask d2 (Some (next_place (last_place m2),
                             next_place (next_place (last_place m2)))) /\
      keys_down m' = keys_down m2 /\ config m' = config m2 /\ gmap_of m' = gmap_of m2 /\
      line m' = line m2 ++
        [{| place_of := next_place (last_place m2); transition := Some (VK_MASK, true) |};
         {| place_of := next_place (next_place (last_place m2));
            transition := Some (VK_MASK, false) |}] /\
      last_place m' = next_place (next_place (last_place m2))
    else d = d2 /\ m' = m2.
Proof.
  unfold on_key. change (if pressed (event input) then _ else _) with (rules m input).
  destruct (rules m input) as [d1 m1].
  destruct (place m1 _ _ _ d1) as [v m2] eqn:Hp. apply place_placed in Hp.
  intros H. exists d1, m1, v, m2. split_and!; [done..|]. simpl. unfold masks.
  case_match; unfold queue in H; simplify_eq/=; split_and!; try done.
  by rewrite -app_assoc.
Qed.

(** ** Concrete inputs, for evaluating the machine *)

Definition key_event (key : KeyCode) (down : bool) : KeyEvent :=
  {| vk := key.1; scan_code := 0; extended := key.2; injected := false; pressed := down |}.

Definition user_key (key : KeyCode) (down : bool) (t : N) (pm : HoldPermit) : KeyInput :=
  {| event := key_event key down; now := t; num_lock := false; key_source := User;
     permit := pm; may_mask := true |}.

Definition kb (name : string) : GestureId := {| normalized := name |}.

(** Verbatim+T and Alt+T bound, the down arrow held, on the default
    configuration. *)
Definition sample : DecisionMachine :=
  new default_config
    (GMap.with_held (GMap.new [kb "kb:t+verbatim"; kb "kb:alt+t"]) [kb "kb:downarrow"]).

Definition caps : KeyCode := (0x14, false).
Definition letter_t : KeyCode := (0x54, false).
Definition down_arrow : KeyCode := (0x28, true).
Definition left_alt : KeyCode := (0xA4, false).

(** Drives a machine through inputs, with its decisions. *)
Fixpoint drive (m : DecisionMachine) (inputs : list KeyInput) : list Decision * DecisionMachine :=
  match inputs with
  | [] => ([], m)
  | input :: inputs =>
      let '(d, m) := on_key m input in
      let '(ds, m) := drive m inputs in (d :: ds, m)
  end.

(** ** Runs *)

Abbreviation trace := (list (KeyEvent * Verdict)).

Inductive reachable (cfg : DecisionConfig) (gm : GMap.GestureMap)
    : trace -> DecisionMachine -> Prop :=
  | reachable_new : reachable cfg gm [] (new cfg gm)
  | reachable_key tr m input d m' :
      reachable cfg gm tr m -> on_key m input = (d, m') ->
      reachable cfg gm (tr ++ [(event input, verdict d)]) m'
  | reachable_passed_on tr m p :
      reachable cfg gm tr m -> reachable cfg gm tr (passed_on m p).

(** Driving a machine reaches it. *)
Lemma reachable_drive cfg gm tr m inputs :
  reachable cfg gm tr m ->
  reachable cfg gm (tr ++ zip (map event inputs) (map verdict (drive m inputs).1))
            (drive m inputs).2.
Proof.
  revert tr m. induction inputs as [|i rest IH]; intros tr m Hre; simpl; [by rewrite app_nil_r|].
  destruct (on_key m i) as [d m'] eqn:Hon.
  specialize (IH (tr ++ [(event i, verdict d)]) m').
  destruct (drive m' rest) as [ds m'']. simpl in *. rewrite -app_assoc in IH.
  apply IH. by eapply reachable_key.
Qed.

(** ** What the application sees of a key *)

(** One transition's effect on whether [key] is down in the application: a
    transition passed or deferred reaches it, a held press is sent to it by
    Core with its release, and a swallowed one never does. *)
Definition app_step (key : KeyCode) (down : bool) (t : KeyEvent * Verdict) : bool :=
  if bool_decide (key_of t.1 = key) then
    match t.2 with
    | Pass | Defer _ => pressed t.1
    | Hold _ => false
    | Swallow => down
    end
  else down.

(** Whether [key] is down in the application after [tr]. *)
Definition app_down (tr : trace) (key : KeyCode) : bool := foldl (app_step key) false tr.

(** Whether [key] is physically down: its last transition was a press. *)
Definition seen_down (tr : trace) (key : KeyCode) : bool :=
  foldl (fun down t => if bool_decide (key_of t.1 = key) then pressed t.1 else down) false tr.

Lemma app_down_snoc tr t key : app_down (tr ++ [t]) key = app_step key (app_down tr key) t.
Proof. unfold app_down. by rewrite foldl_app. Qed.

Lemma seen_down_snoc tr t key :
  seen_down (tr ++ [t]) key =
    if bool_decide (key_of t.1 = key) then pressed t.1 else seen_down tr key.
Proof. unfold seen_down. by rewrite foldl_app. Qed.

(** The machine's record of a key is exactly what the trace says of it. *)
Definition key_ok (tr : trace) (m : DecisionMachine) (key : KeyCode) : Prop :=
  match keys_down m !! key with
  | Some down => seen_down tr key = true /\ reached down = app_down tr key
  | None => seen_down tr key = false /\ app_down tr key = false
  end.

(** Whatever a verdict leaves of the key's own record, the invariant holds
    after it, when it held of what the rules left. *)
Lemma placed_key_ok tr m m1 e src pm d v m2 :
  (forall key, key_ok tr m key) -> keys_marked m m1 (key_of e) ->
  (pressed e = false -> keys_down m1 = keys_down m) ->
  placed m1 e src pm d v m2 -> forall key, key_ok (tr ++ [(e, v)]) m2 key.
Proof.
  intros Hok Hmark Hrel Hpl key.
  assert (reached (entry m1 (key_of e)) = app_down tr (key_of e)) as Hent.
  { specialize (Hok (key_of e)). unfold key_ok, entry in *.
    destruct Hmark as [->| ->].
    - destruct (keys_down m !! key_of e); simpl; naive_solver.
    - rewrite lookup_insert_eq /= /entry.
      destruct (keys_down m !! key_of e); simpl; naive_solver. }
  destruct (decide (key_of e = key)) as [<-|Hne].
  - specialize (Hok (key_of e)). unfold key_ok in *.
    rewrite app_down_snoc seen_down_snoc /app_step /=. rewrite !bool_decide_eq_true_2 //.
    destruct Hpl as [? Hp ? ? Hk | ? Hp ? ? Hk | ? ? Hp ? ? Hk Hd | ? ? Hp Hl Hr ? Hk | ? ? Hp Hl Hk Hd];
      rewrite Hk ?lookup_insert_eq ?lookup_delete_eq ?Hp; try done.
    + by destruct Hd.
    + rewrite Hrel // in Hl. rewrite Hl in Hok. naive_solver.
    + by destruct Hd.
  - assert (keys_down m2 !! key = keys_down m !! key) as Heq.
    { transitivity (keys_down m1 !! key).
      - by destruct Hpl as [? ? ? ? Hk | ? ? ? ? Hk | ? ? ? ? ? Hk ? | ? ? ? ? ? ? Hk | ? ? ? ? Hk ?];
          rewrite Hk ?lookup_insert_ne ?lookup_delete_ne.
      - destruct Hmark as [->| ->]; by rewrite ?lookup_insert_ne. }
    unfold key_ok. rewrite Heq app_down_snoc seen_down_snoc /app_step /=.
    rewrite !bool_decide_eq_false_2 //. apply Hok.
Qed.

Lemma verdict_report e src d : verdict (report e src d) = verdict d.
Proof. done. Qed.

Lemma on_key_verdict m input d m' :
  on_key m input = (d, m') ->
  exists d1 m1 m2, rules m input = (d1, m1) /\
    placed m1 (event input) (key_source input) (permit input) d1 (verdict d) m2 /\
    keys_down m' = keys_down m2.
Proof.
  intros (d1 & m1 & v & m2 & Hr & Hpl & Hd)%on_key_inv. exists d1, m1, m2.
  simpl in Hd. case_match; destruct_and?; simplify_eq/=; done.
Qed.

Lemma passed_on_keys m p : keys_down (passed_on m p) = keys_down m.
Proof. unfold passed_on. by case_match. Qed.

Lemma reachable_key_ok cfg gm tr m :
  reachable cfg gm tr m -> forall key, key_ok tr m key.
Proof.
  induction 1 as [|tr m input d m' Hre IH Hon|tr m p Hre IH].
  - intros key. by unfold key_ok.
  - apply on_key_verdict in Hon as (d1 & m1 & m2 & Hr & Hpl & Hk).
    apply rules_frame in Hr as (_ & Hmark & _ & Hrel).
    intros key. unfold key_ok. rewrite Hk.
    eapply placed_key_ok; [done|done| |done]. by intros [? _]%Hrel.
  - intros key. unfold key_ok. rewrite passed_on_keys. apply IH.
Qed.

(** C14: no application sees the release of a press it never saw, and every
    release it is owed arrives: in every run, the release of a key seen going
    down is swallowed exactly when the key is not down in the application, and
    the release of a key never seen going down is not swallowed. *)
Theorem release_swallowed_iff cfg gm tr m input d m' :
  reachable cfg gm tr m -> on_key m input = (d, m') -> pressed (event input) = false ->
  (verdict d = Swallow <->
   seen_down tr (key_of (event input)) = true /\ app_down tr (key_of (event input)) = false).
Proof.
  intros Hre Hon Hp. pose proof (reachable_key_ok _ _ _ _ Hre (key_of (event input))) as Hok.
  apply on_key_verdict in Hon as (d1 & m1 & m2 & Hr & Hpl & _).
  apply rules_frame in Hr as (_ & _ & _ & Hrel). destruct (Hrel Hp) as [Hk _].
  unfold key_ok in Hok.
  inversion Hpl as [| | |down ? ? Hl Hrd|v ? ? Hl Hk' Hd]; try congruence.
  - rewrite -Hk Hl in Hok. naive_solver.
  - assert (verdict d <> Swallow) as Hns by (by destruct Hd).
    split; [done|]. intros [Hs Ha]. rewrite -Hk in Hok.
    destruct (keys_down m1 !! _) as [down|] eqn:Hkd; destruct Hok; [|congruence].
    specialize (Hl _ eq_refl). congruence.
Qed.

Lemma release_swallowed_iff_witness :
  let inputs := [user_key caps true 0 NoHold] in
  let m := (drive sample inputs).2 in
  let release := user_key caps false 1000 NoHold in
  verdict (on_key m release).1 = Swallow <->
  seen_down (zip (map event inputs) (map verdict (drive sample inputs).1)) caps = true /\
  app_down (zip (map event inputs) (map verdict (drive sample inputs).1)) caps = false.
Proof.
  intros inputs m release.
  apply (release_swallowed_iff default_config (gmap_of sample) _ m release
           (on_key m release).1 (on_key m release).2).
  - apply (reachable_drive default_config (gmap_of sample) [] sample inputs). constructor.
  - apply surjective_pairing.
  - reflexivity.
Defined.

(** C25: no key is left down in an application: in every run, a key whose last
    transition was its release, or that never went down, is not down in the
    application. *)
Theorem no_key_left_down cfg gm tr m key :
  reachable cfg gm tr m -> seen_down tr key = false -> app_down tr key = false.
Proof.
  intros Hre Hs. pose proof (reachable_key_ok _ _ _ _ Hre key) as Hok.
  unfold key_ok in Hok. destruct (keys_down m !! key); destruct Hok; congruence.
Qed.

Lemma no_key_left_down_witness :
  let inputs := [user_key letter_t true 0 NoHold; user_key letter_t false 1000 NoHold] in
  app_down (zip (map event inputs) (map verdict (drive sample inputs).1)) letter_t = false.
Proof.
  intros inputs.
  apply (no_key_left_down default_config (gmap_of sample) _ (drive sample inputs).2 letter_t).
  - apply (reachable_drive default_config (gmap_of sample) [] sample inputs). constructor.
  - vm_compute. reflexivity.
Defined.

(** ** The line of keys held back *)

(** The [n] places given out after [p]. *)
Fixpoint run_from (p : N) (n : nat) : list N :=
  match n with
  | O => []
  | S n => next_place p :: run_from (next_place p) n
  end.

Lemma run_from_snoc p n :
  run_from p (S n) = run_from p n ++ [Nat.iter (S n) next_place p].
Proof.
  revert p. induction n as [|n IH]; intros p; [done|].
  change (run_from p (S (S n))) with (next_place p :: run_from (next_place p) (S n)).
  rewrite IH /=. do 3 f_equal. clear IH.
  induction n as [|n IH]; simpl; [done|]. by rewrite IH.
Qed.

(** The line holds the last places given out, in order. *)
Definition line_ok (m : DecisionMachine) : Prop :=
  exists p, p <= U32_MAX /\
    map place_of (line m) = run_from p (length (line m)) /\
    last_place m = Nat.iter (length (line m)) next_place p.

Lemma line_ok_frame m m' : same_line m m' -> line_ok m -> line_ok m'.
Proof. intros [_ _ Hl Hp]. unfold line_ok. by rewrite Hl Hp. Qed.

(** Queueing keeps the line in order. *)
Lemma line_ok_queue m m' t :
  line_ok m ->
  line m' = line m ++ [{| place_of := next_place (last_place m); transition := t |}] ->
  last_place m' = next_place (last_place m) -> line_ok m'.
Proof.
  intros (p & Hp & Hl & Hlast) Hline Hlast'. exists p. split; [done|].
  rewrite Hline Hlast' map_app length_app Nat.add_comm /= Hl Hlast.
  split; [|done]. by rewrite -(run_from_snoc p).
Qed.

Lemma line_ok_delivered m e src pm v m' :
  delivered m e src pm v m' -> line_ok m -> line_ok m'.
Proof. intros Hd Hok; destruct Hd; [by eapply line_ok_frame|by eapply line_ok_queue]. Qed.

Lemma line_ok_placed m e src pm d v m' :
  placed m e src pm d v m' -> line_ok m -> line_ok m'.
Proof.
  intros Hpl Hok; destruct Hpl; try (by eapply line_ok_frame); try (by eapply line_ok_queue);
    by eapply line_ok_delivered.
Qed.

Lemma drop_through_suffix p l : exists k, drop_through p l = drop k l.
Proof.
  induction l as [|w l [k IH]]; simpl; [by exists 0%nat|].
  case_match; [by exists 1%nat|by exists (S k)].
Qed.

Lemma drop_run_from k p n :
  (k <= n)%nat -> drop k (run_from p n) = run_from (Nat.iter k next_place p) (n - k).
Proof.
  revert p n. induction k as [|k IH]; intros p n Hk; [by rewrite Nat.sub_0_r|].
  destruct n as [|n]; [lia|]. simpl. rewrite IH; [|lia]. f_equal.
  clear. induction k as [|k IH]; simpl; [done|]. by rewrite IH.
Qed.

Lemma next_place_le p : p <= U32_MAX -> next_place p <= U32_MAX /\ 1 <= next_place p.
Proof.
  unfold next_place, checked_add. destruct (N.leb_spec (p + 1) U32_MAX); simpl; unfold U32_MAX in *; lia.
Qed.

Lemma iter_next_place_le k p : p <= U32_MAX -> Nat.iter k next_place p <= U32_MAX.
Proof. intros Hp. induction k as [|k IH]; simpl; [done|]. by apply next_place_le. Qed.

Lemma line_ok_passed_on m p : line_ok m -> line_ok (passed_on m p).
Proof.
  unfold passed_on. case_match; [|done]. intros (q & Hq & Hl & Hlast).
  destruct (drop_through_suffix p (line m)) as [k Hk].
  destruct (decide (k <= length (line m))%nat) as [Hle|Hgt].
  - exists (Nat.iter k next_place q). split; [by apply iter_next_place_le|]. simpl.
    rewrite Hk. change (map place_of (drop k (line m))) with (place_of <$> drop k (line m)).
    rewrite fmap_drop length_drop. split.
    + change (place_of <$> line m) with (map place_of (line m)). rewrite Hl drop_run_from //.
    + rewrite Hlast -Nat.iter_add. f_equal. lia.
  - exists (last_place m). simpl. rewrite Hk drop_ge; [|lia]. split; [|done].
    rewrite Hlast. by apply iter_next_place_le.
Qed.

Lemma reachable_line_ok cfg gm tr m : reachable cfg gm tr m -> line_ok m.
Proof.
  induction 1 as [|tr m input d m' Hre IH Hon|tr m p Hre IH].
  - by exists 0.
  - apply on_key_inv in Hon as (d1 & m1 & v & m2 & Hr & Hpl & Hd).
    apply rules_frame in Hr as (Hsl & _).
    assert (line_ok m2) as H2 by (eapply line_ok_placed; [done|by eapply line_ok_frame]).
    simpl in Hd. destruct (masks m2 input _); [|by destruct Hd as [_ ->]].
    destruct Hd as (_ & _ & _ & _ & Hline & Hlast).
    set (w1 := {| place_of := next_place (last_place m2); transition := Some (VK_MASK, true) |}).
    set (m3 := set_line m2 (line m2 ++ [w1]) (next_place (last_place m2))).
    assert (line_ok m3) as H3 by (by eapply line_ok_queue).
    eapply (line_ok_queue m3); [done| |done]. rewrite Hline /=. by rewrite -app_assoc.
  - by apply line_ok_passed_on.
Qed.

(** The [i]th place after [p], with the wrap of the counter written out. *)
Lemma iter_next_place i p :
  p <= U32_MAX -> N.of_nat i <= U32_MAX ->
  Nat.iter i next_place p =
    if p + N.of_nat i <=? U32_MAX then p + N.of_nat i else p + N.of_nat i - U32_MAX.
Proof.
  intros Hp. induction i as [|i IH]; intros Hi.
  - change (Nat.iter 0 next_place p) with p.
    destruct (N.leb_spec (p + N.of_nat 0) U32_MAX); lia.
  - change (Nat.iter (S i) next_place p) with (next_place (Nat.iter i next_place p)).
    rewrite IH; [|lia]. unfold next_place, checked_add.
    destruct (N.leb_spec (p + N.of_nat i) U32_MAX);
    repeat match goal with |- context [?a <=? ?b] => destruct (N.leb_spec a b) end; unfold default, from_option, id; clear IH; lia.
Qed.

Lemma lookup_run_from p n i q :
  run_from p n !! i = Some q -> q = Nat.iter (S i) next_place p.
Proof.
  revert p i. induction n as [|n IH]; intros p [|i]; simpl; [done|done|congruence|].
  intros ->%IH. clear. induction i as [|i IH]; simpl; [done|]. by rewrite -IH.
Qed.

Lemma run_from_NoDup p n : p <= U32_MAX -> N.of_nat n <= U32_MAX -> NoDup (run_from p n).
Proof.
  intros Hp Hn. apply NoDup_alt. intros i j q Hi Hj.
  assert (length (run_from p n) = n) as Hlen.
  { clear. revert p. induction n as [|n IH]; simpl; [done|]. intros p. by rewrite IH. }
  pose proof (lookup_lt_Some _ _ _ Hi). pose proof (lookup_lt_Some _ _ _ Hj).
  apply lookup_run_from in Hi, Hj. subst q.
  rewrite !iter_next_place in Hj; [|lia..].
  repeat match goal with H : context [?a <=? ?b] |- _ => destruct (N.leb_spec a b) end; lia.
Qed.

(** The places in line are distinct [u32]s from 1, so that a place names
    one transition: in every run whose line is no longer than [u32] can count,
    no two waiting transitions have the same place. *)
Theorem line_places_distinct cfg gm tr m :
  reachable cfg gm tr m -> N.of_nat (length (line m)) <= U32_MAX ->
  NoDup (map place_of (line m)) /\
  Forall (fun w => 1 <= place_of w <= U32_MAX) (line m).
Proof.
  intros (p & Hp & Hl & _)%reachable_line_ok Hlen. split.
  - rewrite Hl. by apply run_from_NoDup.
  - apply Forall_forall. intros w Hw.
    assert (place_of w ∈ map place_of (line m)) as Hin by (by apply list_elem_of_fmap_2).
    rewrite Hl in Hin. apply list_elem_of_lookup in Hin as [i ->%lookup_run_from].
    destruct (next_place_le (Nat.iter i next_place p)); [by apply iter_next_place_le|done].
Qed.

Lemma line_places_distinct_witness :
  let inputs := [user_key down_arrow true 0 HoldAndDefer; user_key letter_t true 1000 HoldAndDefer;
                 user_key letter_t false 2000 HoldAndDefer] in
  let m := (drive sample inputs).2 in
  length (line m) = 3%nat /\ NoDup (map place_of (line m)) /\
  Forall (fun w => 1 <= place_of w <= U32_MAX) (line m).
Proof.
  intros inputs m. split; [vm_compute; reflexivity|].
  apply (line_places_distinct default_config (gmap_of sample)
           (zip (map event inputs) (map verdict (drive sample inputs).1))).
  - apply (reachable_drive default_config (gmap_of sample) [] sample inputs). constructor.
  - vm_compute. discriminate.
Defined.

(** [drop_through] of the place of the only such waiting transition. *)
Lemma drop_through_app p l1 w l2 :
  Forall (fun w' => place_of w' <> p) l1 -> place_of w = p ->
  drop_through p (l1 ++ w :: l2) = l2.
Proof.
  induction l1 as [|x l1 IH]; simpl; intros H1 Hw.
  - by rewrite Hw N.eqb_refl.
  - apply Forall_cons in H1 as [Hx H1]. apply N.eqb_neq in Hx. rewrite Hx. by apply IH.
Qed.

(** Keys passed on leave the line in order: in every run, noting that a
    waiting transition reached the hook takes it and every transition ahead of
    it out of the line, keeps those behind it in their order, and changes
    nothing else of the line. *)
Theorem passed_on_keeps_order cfg gm tr m l1 w l2 :
  reachable cfg gm tr m -> N.of_nat (length (line m)) <= U32_MAX ->
  line m = l1 ++ w :: l2 ->
  line (passed_on m (place_of w)) = l2 /\
  last_place (passed_on m (place_of w)) = last_place m.
Proof.
  intros (p & Hp & Hl & _)%reachable_line_ok Hlen Hline.
  pose proof (run_from_NoDup p _ Hp Hlen) as Hnd. rewrite -Hl Hline map_app /= in Hnd.
  unfold passed_on.
  assert (existsb (fun w' => place_of w' =? place_of w) (line m) = true) as ->.
  { apply existsb_exists. exists w. rewrite N.eqb_refl Hline. split; [|done].
    apply list_elem_of_In, elem_of_app. right. left. }
  simpl. split; [|done]. rewrite Hline. apply drop_through_app; [|done].
  apply Forall_forall. intros w' Hw' Heq.
  apply NoDup_app in Hnd as (_ & Hdisj & _). apply (Hdisj (place_of w')).
  - by apply list_elem_of_fmap_2.
  - rewrite Heq. left.
Qed.

Lemma passed_on_keeps_order_witness :
  let inputs := [user_key down_arrow true 0 HoldAndDefer; user_key letter_t true 1000 HoldAndDefer;
                 user_key letter_t false 2000 HoldAndDefer] in
  let m := (drive sample inputs).2 in
  exists w1 w2 w3, line m = [w1] ++ w2 :: [w3] /\
    line (passed_on m (place_of w2)) = [w3].
Proof.
  intros inputs m.
  set (w1 := {| place_of := 1; transition := None |}).
  set (w2 := {| place_of := 2; transition := Some (0x54, true) |}).
  set (w3 := {| place_of := 3; transition := Some (0x54, false) |}).
  assert (line m = [w1] ++ w2 :: [w3]) as Hline by (vm_compute; reflexivity).
  exists w1, w2, w3. split; [exact Hline|].
  apply (passed_on_keeps_order default_config (gmap_of sample)
           (zip (map event inputs) (map verdict (drive sample inputs).1)) m [w1] w2 [w3]).
  - apply (reachable_drive default_config (gmap_of sample) [] sample inputs). constructor.
  - vm_compute. discriminate.
  - exact Hline.
Defined.

(** ** The shape of a decision *)

Lemma holds_press_true m src pm d :
  holds_press m src pm d = true ->
  src = User /\ pm = HoldAndDefer /\
  exists o, observed_gesture d = Some o /\ GMap.holds (gmap_of m) (gesture o) = true.
Proof.
  unfold holds_press. intros H. reflect_bools. split_and!; [done..|].
  destruct (observed_gesture d) as [o|]; [|done]. by exists o.
Qed.

Lemma defers_true m e src pm :
  defers m e src pm = true ->
  src = User /\ pm <> NoHold /\ Toggle.from_vk (vk e) = None /\ line m <> [].
Proof.
  unfold defers. intros H. reflect_bools.
  split_and!; try done; [by destruct (Toggle.from_vk _)|by destruct (line m)].
Qed.

(** A verdict of the machine's holds or defers only what the rules allow:
    a press is held only for the user, while the permit lets keys be held, on
    an observed gesture the map holds; a transition is deferred only for the
    user, while the permit lets it be, of no lock key, behind a waiting one;
    so Verbatim's own keys are never held nor deferred. *)
Theorem hold_and_defer_permitted m input d m' :
  on_key m input = (d, m') ->
  match verdict d with
  | Hold p =>
      key_source input = User /\ permit input = HoldAndDefer /\
      pressed (event input) = true /\ p = next_place (last_place m) /\
      exists o, observed_gesture d = Some o /\ GMap.holds (gmap_of m) (gesture o) = true
  | Defer p =>
      key_source input = User /\ permit input <> NoHold /\
      Toggle.from_vk (vk (event input)) = None /\ has_outstanding m = true /\
      p = next_place (last_place m)
  | Pass | Swallow => True
  end.
Proof.
  intros (d1 & m1 & v & m2 & Hr & Hpl & Hd)%on_key_inv.
  apply rules_frame in Hr as ([Hcf Hgm Hli Hla] & _ & _ & _).
  assert (verdict d = v /\ (key_source input = User -> observed_gesture d = observed_gesture d1))
    as [Hv Hobs].
  { simpl in Hd. case_match; destruct_and?; subst d; simpl; split; try done; by intros ->. }
  rewrite Hv.
  assert (forall v, delivered m1 (event input) (key_source input) (permit input) v m2 ->
    match v with
    | Defer p => key_source input = User /\ permit input <> NoHold /\
        Toggle.from_vk (vk (event input)) = None /\ has_outstanding m = true /\
        p = next_place (last_place m)
    | Hold _ => False | _ => True end) as Hdel.
  { intros v' [|? (? & ? & ? & Hne)%defers_true]; [done|]. split_and!; try done.
    - unfold has_outstanding. rewrite -Hli. by destruct (line m1).
    - by rewrite Hla. }
  destruct Hpl as [| ? Hp ? (Hu & Hpm & o & Ho & Hh)%holds_press_true | v ? ? ? ? ? Hdl | | v ? ? ? ? Hdl];
    try done; try (apply Hdel in Hdl; by destruct v).
  split_and!; try done; [by rewrite Hla|]. exists o. rewrite Hobs // -Hgm. done.
Qed.

Lemma hold_and_defer_permitted_witness :
  exists d m', on_key sample (user_key down_arrow true 0 HoldAndDefer) = (d, m') /\
    verdict d = Hold 1 /\
    exists o, observed_gesture d = Some o /\ GMap.holds (gmap_of sample) (gesture o) = true.
Proof.
  eexists _, _. assert (on_key sample (user_key down_arrow true 0 HoldAndDefer) = (_, _)) as Hon
    by (vm_compute; reflexivity).
  split; [exact Hon|]. split; [reflexivity|].
  apply (hold_and_defer_permitted sample _ _ _ Hon).
Defined.

(** No key overtakes the line: while a transition waits, no transition of
    the user's passes at once where the permit lets it be deferred, unless it
    is a lock key's. *)
Theorem no_overtaking m input d m' :
  on_key m input = (d, m') -> has_outstanding m = true ->
  key_source input = User -> permit input <> NoHold ->
  Toggle.from_vk (vk (event input)) = None -> verdict d <> Pass.
Proof.
  intros (d1 & m1 & m2 & Hr & Hpl & _)%on_key_verdict Hout Hu Hpm Htog.
  apply rules_frame in Hr as ([_ _ Hli _] & _ & _ & _).
  assert (defers m1 (event input) (key_source input) (permit input) = true) as Hdef.
  { unfold defers. rewrite Htog Hli. rewrite !bool_decide_eq_true_2 //. }
  assert (forall v, delivered m1 (event input) (key_source input) (permit input) v m2 -> v <> Pass)
    as Hdel by (intros v []; congruence).
  inversion Hpl as [| |? ? ? ? ? ? Hd| |? ? ? ? ? Hd]; try congruence; by apply Hdel.
Qed.

Lemma no_overtaking_witness :
  let m := (drive sample [user_key down_arrow true 0 HoldAndDefer]).2 in
  verdict (on_key m (user_key letter_t true 1000 DeferOnly)).1 <> Pass.
Proof.
  intros m. apply (no_overtaking m (user_key letter_t true 1000 DeferOnly) _ _
                     (surjective_pairing _)); try reflexivity. discriminate.
Defined.

(** How a decision's fields come from the rules' decision [d1] and the
    verdict [v]. *)
Record reported (m : DecisionMachine) (input : KeyInput) (d d1 : Decision) : Prop := {
  rp_shape : rules_shape m d1;
  rp_emitted : emitted d = emitted d1;
  rp_rest : exists x, d = set_mask (report (event input) (key_source input)
                                      (set_verdict d1 (verdict d))) x;
  rp_release : pressed (event input) = false -> d1 = pass;
  rp_swallow : pressed (event input) = true ->
    (verdict d = Swallow <-> verdict d1 = Swallow);
  rp_mask : forall a b, mask d = Some (a, b) ->
    emitted d1 <> None /\ key_source input = User /\ may_mask input = true /\ b = next_place a;
}.

Lemma on_key_reported m input d m' :
  on_key m input = (d, m') -> exists d1, reported m input d d1.
Proof.
  intros (d1 & m1 & v & m2 & Hr & Hpl & Hd)%on_key_inv. exists d1.
  apply rules_frame in Hr as (_ & _ & Hshape & Hrel).
  pose proof (placed_swallow_iff _ _ _ _ _ _ _ Hpl) as Hsw. simpl in Hd.
  destruct (masks m2 input _) eqn:Hmk.
  - destruct Hd as (-> & _). split; try done; [by eexists|by intros [_ ?]%Hrel|].
    unfold masks in Hmk. simpl in *. intros a b [= <- <-]. reflect_bools.
    split_and!; try done. by destruct (emitted d1).
  - destruct Hd as [-> _]. split; try done.
    + exists None. unfold set_mask, report. simpl. by rewrite (rs_mask _ _ Hshape).
    + by intros [_ ?]%Hrel.
    + simpl. by rewrite (rs_mask _ _ Hshape).
Qed.

Section reported.
Context {m : DecisionMachine} {input : KeyInput} {d d1 : Decision}.
Context (Hrep : reported m input d d1).

Lemma reported_emitted g :
  emitted d = Some g ->
  verdict d = Swallow /\ pressed (event input) = true /\
  GMap.contains (gmap_of m) (gesture g) = true.
Proof.
  destruct Hrep as [Hshape -> _ Hrel Hsw _]. intros Hg.
  destruct (pressed (event input)) eqn:Hp; [|by rewrite Hrel in Hg].
  destruct (rs_emitted _ _ Hshape _ Hg). by rewrite Hsw.
Qed.

Lemma reported_observed g :
  observed_gesture d = Some g ->
  verdict d <> Swallow /\ pressed (event input) = true /\ key_source input = User /\
  repeat g = 0 /\ GMap.observes (gmap_of m) (gesture g) = true /\
  GMap.contains (gmap_of m) (gesture g) = false.
Proof.
  destruct Hrep as [Hshape _ [x Hx] Hrel Hsw _]. rewrite {1}Hx /=.
  case_bool_decide as Hown; [done|]. intros Hg.
  destruct (pressed (event input)) eqn:Hp; [|by rewrite Hrel in Hg].
  destruct (rs_observed _ _ Hshape _ Hg) as (Hv & ? & ? & ?). rewrite Hsw // Hv.
  split_and!; try done. by destruct (key_source input).
Qed.

Lemma reported_toggle t :
  toggle d = Some t ->
  verdict d = Pass /\ pressed (event input) = true /\ shared_modifier d = false /\
  vk (event input) = Toggle.vk t.
Proof.
  destruct Hrep as [_ _ [x Hx] _ _ _]. rewrite {1 3}Hx /=. intros Ht.
  destruct (_ && _) eqn:Hb; [|done]. reflect_bools. apply Toggle.from_vk_vk in Ht. done.
Qed.

Lemma reported_typing :
  typing d <> ReportNothing ->
  pressed (event input) = true /\ key_source input = User /\
  (verdict d = Pass \/ exists p, verdict d = Defer p).
Proof.
  destruct Hrep as [_ _ [x Hx] _ _ _]. rewrite {1}Hx /=. intros Ht.
  destruct (pressed _ && _ && _ && _) eqn:Hb; [|done]. reflect_bools.
  split_and!; try done. destruct (verdict d); try done; eauto.
Qed.

Lemma reported_own : key_source input = Own -> speech d = None.
Proof.
  destruct Hrep as [_ _ [x Hx] _ _ _]. rewrite Hx /=. intros ->.
  by rewrite bool_decide_eq_true_2.
Qed.

End reported.

(** A decision reports what its fields say: a gesture is emitted only by
    a swallowed press that completes a bound gesture; one is observed only on
    the user's press, not swallowed, of an observed gesture that is not bound,
    with a repeat of 0; a lock key is announced, and a press translated, only
    when it reaches the application; a mask's two places follow one another
    and belong to an emitted gesture of the user's; and Verbatim's own key
    does nothing to speech. *)
Theorem decision_fields m input d m' :
  on_key m input = (d, m') ->
  (forall g, emitted d = Some g ->
     verdict d = Swallow /\ pressed (event input) = true /\
     GMap.contains (gmap_of m) (gesture g) = true) /\
  (forall g, observed_gesture d = Some g ->
     verdict d <> Swallow /\ pressed (event input) = true /\ key_source input = User /\
     repeat g = 0 /\ GMap.observes (gmap_of m) (gesture g) = true /\
     GMap.contains (gmap_of m) (gesture g) = false) /\
  (forall t, toggle d = Some t ->
     verdict d = Pass /\ pressed (event input) = true /\ shared_modifier d = false /\
     vk (event input) = Toggle.vk t) /\
  (typing d <> ReportNothing ->
     pressed (event input) = true /\ key_source input = User /\
     (verdict d = Pass \/ exists p, verdict d = Defer p)) /\
  (forall a b, mask d = Some (a, b) ->
     emitted d <> None /\ key_source input = User /\ may_mask input = true /\
     b = next_place a) /\
  (key_source input = Own -> speech d = None).
Proof.
  intros [d1 Hrep]%on_key_reported. split_and!.
  - apply (reported_emitted Hrep).
  - apply (reported_observed Hrep).
  - apply (reported_toggle Hrep).
  - apply (reported_typing Hrep).
  - intros a b. rewrite (rp_emitted _ _ _ _ Hrep). apply (rp_mask _ _ _ _ Hrep).
  - apply (reported_own Hrep).
Qed.

Lemma decision_fields_witness :
  let m := (drive sample [user_key left_alt true 0 NoHold]).2 in
  let d := (on_key m (user_key letter_t true 1000 NoHold)).1 in
  mask d = Some (1, 2) /\ emitted d <> None.
Proof.
  intros m d. split; [vm_compute; reflexivity|].
  apply (decision_fields m (user_key letter_t true 1000 NoHold) _ _
           (surjective_pairing _)) with (a := 1) (b := 2).
  vm_compute. reflexivity.
Defined.
