(* ===== verification/MachineChords.v ===== *)
(** * Chords, taps and multi-press counting of the decision machine

    The gesture a chord builds, the double tap that hands the Verbatim
    modifier's key to the operating system, and the repeat counts of a
    gesture pressed again. *)

From S2P Require Import Prelude Text Gesture Keys Machine MachineSafety.

(** ** The gesture of a chord *)

(** A part a gesture identifier can hold as it is. *)
Definition well_formed_part (name : string) : bool :=
  negb (is_empty name) && negb (has_char "+" name) && bool_decide (to_lowercase name = name).

Lemma name_from_vk_well_formed vk ext name :
  Names.name_from_vk vk ext = Some name -> well_formed_part name = true.
Proof.
  unfold Names.name_from_vk. destruct (find _ _) as [[[n v] e]|] eqn:Hfind.
  - intros [= <-]. apply find_Some in Hfind as [Hin _].
    assert (forallb (fun t => well_formed_part t.1.1) Names.NAMED_KEYS = true) as H
      by (vm_compute; reflexivity).
    by apply (forallb_elem _ _ _ H) in Hin.
  - assert (forall names first, forallb well_formed_part names = true ->
      Names.offset_into names vk first = Some name -> well_formed_part name = true) as Hrun.
    { unfold Names.offset_into. intros names first Hall. case_match; [|done].
      intros ?%list_elem_of_lookup_2. by eapply forallb_elem. }
    repeat case_match; try done; apply Hrun; vm_compute; reflexivity.
Qed.

Lemma main_name_well_formed m key hands vk nl name :
  main_name_of (role_of m key hands) vk nl = Some name -> well_formed_part name = true.
Proof.
  unfold main_name_of, role_of. destruct (_ && _); [by intros [= <-]|].
  destruct (Names.name_from_vk _ _) as [n|] eqn:Hn; [|done].
  case_match; [done|]. intros [= <-]. by eapply name_from_vk_well_formed.
Qed.

Lemma modifier_part_well_formed m current key part :
  modifier_part m current key = Some part -> well_formed_part part = true.
Proof.
  unfold modifier_part, generic_modifier_name. intros H. split_cases; done.
Qed.

Lemma chord_parts_well_formed m key name :
  well_formed_part name = true ->
  Forall (fun part => well_formed_part part = true) (chord_parts m key name).
Proof.
  intros Hname. unfold chord_parts. apply Forall_app. split; [|by constructor].
  apply Forall_forall. intros part (k & _ & Hk)%list_elem_of_omap.
  by eapply modifier_part_well_formed.
Qed.

(** Every key Verbatim can name completes a well-formed gesture: for the
    main key name of any press, the identifier the machine builds from it and
    the held modifiers parses, to [kb:] and the parts sorted, so the gesture
    does not depend on the order the modifiers were pressed in. *)
Theorem build_gesture_sorted m key hands vk nl name :
  main_name_of (role_of m key hands) vk nl = Some name ->
  build_gesture m key name =
    Some {| normalized := identifier "kb" (sort_unstable (chord_parts m key name)) |}.
Proof.
  intros Hwf%main_name_well_formed%(chord_parts_well_formed m key).
  unfold build_gesture. change ("kb:" +:+ ?s) with ("kb" +:+ String ":" s).
  fold (identifier "kb" (chord_parts m key name)). rewrite parse_identifier //=.
  - do 3 f_equal. rewrite -{2}(map_id (chord_parts m key name)). f_equal.
    apply map_ext_in. intros part Hin%list_elem_of_In.
    rewrite Forall_forall in Hwf. apply Hwf in Hin. unfold well_formed_part in Hin.
    by reflect_bools.
  - unfold chord_parts. by destruct (omap _ _).
  - eapply Forall_impl; [exact Hwf|]. intros part H. unfold well_formed_part in H.
    by reflect_bools.
  - eapply Forall_impl; [exact Hwf|]. intros part H. unfold well_formed_part, is_empty in H.
    by reflect_bools.
Qed.

Lemma build_gesture_sorted_witness :
  let m := new default_config (GMap.new []) in
  build_gesture m (0x54, false) "t" = Some {| normalized := "kb:t" |}.
Proof.
  apply (build_gesture_sorted (new default_config (GMap.new [])) (0x54, false) false 0x54 false "t").
  vm_compute. reflexivity.
Defined.

(** ** What a transition does to the lifecycle and the streak *)

Lemma place_keeps m e src pm d v m' :
  place m e src pm d = (v, m') ->
  lone_modifier m' = lone_modifier m /\ held_modifiers m' = held_modifiers m /\
  last_gesture m' = last_gesture m /\ repeat_count m' = repeat_count m /\ config m' = config m.
Proof. unfold place, pass_or_defer, queue. intros H. split_cases; done. Qed.

(** [on_key] leaves the lifecycle, the streak and the configuration as its
    rules left them. *)
Lemma on_key_keeps m input d m' :
  on_key m input = (d, m') ->
  exists d1 m1, rules m input = (d1, m1) /\
    lone_modifier m' = lone_modifier m1 /\ last_gesture m' = last_gesture m1 /\
    repeat_count m' = repeat_count m1 /\ config m' = config m1 /\ emitted d = emitted d1.
Proof.
  unfold on_key. change (if pressed (event input) then _ else _) with (rules m input).
  destruct (rules m input) as [d1 m1]. destruct (place _ _ _ _ _) as [v m2] eqn:Hp.
  apply place_keeps in Hp as (? & ? & ? & ? & ?). unfold queue.
  intros Hon. exists d1, m1. split; [done|]. case_match; simplify_eq/=; done.
Qed.

(** The lifecycle after any transition. *)
Lemma on_key_lone m input d m' :
  on_key m input = (d, m') ->
  config m' = config m /\
  lone_modifier m' =
    let key := key_of (event input) in
    if pressed (event input) then
      let hands := hands_press_to_os (lone_modifier m) key (now input)
                     (multi_press_timeout (config m)) in
      after_press key hands (role_of m key hands)
    else after_release (lone_modifier m) key (now input).
Proof.
  intros (d1 & m1 & Hr & -> & _ & _ & -> & _)%on_key_keeps. unfold rules in Hr.
  destruct (pressed (event input)).
  - destruct (on_press _ _ _ _) as [d0 m0] eqn:Ho. simplify_eq.
    apply on_press_frame in Ho as ([] & _ & ->). done.
  - unfold on_release in Hr. by simplify_eq/=.
Qed.

(** ** The double tap *)

(** A press that acts as the Verbatim modifier and emits nothing is swallowed
    outside share mode. *)
Lemma modifier_press_swallowed m e t nl d m' :
  let hands := hands_press_to_os (lone_modifier m) (key_of e) t (multi_press_timeout (config m)) in
  role_of m (key_of e) hands = Modifier -> share_modifier (config m) = false ->
  on_press m e t nl = (d, m') -> emitted d = None -> verdict d = Swallow.
Proof.
  intros hands Hrole Hshare. unfold on_press. fold hands. rewrite Hrole /=.
  set (m2 := note_modifier _ _ _).
  assert (share_modifier (config m2) = false) as Hs2 by done.
  destruct (build_gesture _ _ _) as [g|]; [destruct (GMap.contains _ _)|].
  - destruct (count_press _ _ _ _). by intros [= <- <-].
  - unfold unbound_press, end_streak. simpl. rewrite Hs2. by intros [= <- <-].
  - unfold unbound_press, end_streak. simpl. rewrite Hs2. by intros [= <- <-].
Qed.

(** A press handed to the operating system that emits nothing passes. *)
Lemma handed_press_passes m e t nl d m' :
  hands_press_to_os (lone_modifier m) (key_of e) t (multi_press_timeout (config m)) = true ->
  on_press m e t nl = (d, m') -> emitted d = None -> verdict d = Pass.
Proof.
  intros Hh. unfold on_press. rewrite Hh.
  assert (is_modifier_role (role_of m (key_of e) true) = false) as Hr.
  { unfold role_of. simpl. by case_match. }
  destruct (main_name_of _ _ _); [|by intros [= <- <-]].
  assert (forall m2 g, unbound_press m2 e (key_of e) (role_of m (key_of e) true) true g = (d, m') ->
    verdict d = Pass) as Hub.
  { intros m2 g. unfold unbound_press. rewrite Hr. intros H. by split_cases. }
  destruct (build_gesture _ _ _); [destruct (GMap.contains _ _)|].
  - destruct (count_press _ _ _ _). by intros [= <- <-].
  - intros H%Hub. done.
  - intros H%Hub. done.
Qed.


(** What a press of a modifier key does, by whether it is handed over: the
    verdict is [Swallow] exactly when it is not, and the key's press has not
    reached the application unless it passed. *)
Lemma modifier_key_press m input d m' :
  on_key m input = (d, m') -> pressed (event input) = true -> emitted d = None ->
  is_verbatim_modifier m (vk (event input)) (extended (event input)) = true ->
  share_modifier (config m) = false ->
  let key := key_of (event input) in
  let hands := hands_press_to_os (lone_modifier m) key (now input)
                 (multi_press_timeout (config m)) in
  (verdict d = Swallow <-> hands = false) /\
  lone_modifier m' = (if hands then PassingThrough else HeldAlone key) /\
  config m' = config m /\
  exists down, keys_down m' !! key = Some down /\
    (verdict d = Swallow -> reached down = reached (entry m key)) /\
    (verdict d <> Swallow -> (forall p, verdict d <> Hold p) -> reached down = true).
Proof.
  intros Hon Hp Hem Hmod Hshare key hands.
  destruct (on_key_lone _ _ _ _ Hon) as [Hcfg Hlone]. rewrite Hp in Hlone. simpl in Hlone.
  fold key hands in Hlone.
  assert (role_of m key false = Modifier) as Hrole.
  { unfold role_of, key, key_of. simpl. by rewrite Hmod. }
  pose proof Hon as (d1 & m1 & v & m2 & Hr & Hpl & Hd)%on_key_inv.
  assert (verdict d = v /\ keys_down m' = keys_down m2 /\ emitted d1 = None) as (Hv & Hk & He1).
  { simpl in Hd. case_match; destruct_and?; simplify_eq/=; done. }
  pose proof (placed_swallow_iff _ _ _ _ _ _ _ Hpl Hp) as Hsw.
  destruct (rules_frame _ _ _ _ Hr) as (_ & Hmark & _ & _).
  unfold rules in Hr. rewrite Hp in Hr.
  destruct (on_press _ _ _ _) as [d0 m0] eqn:Ho. simplify_eq/=.
  split_and!.
  - rewrite Hsw. destruct hands eqn:Hh.
    + by rewrite (handed_press_passes _ _ _ _ _ _ Hh Ho He1).
    + rewrite (modifier_press_swallowed _ _ _ _ _ _ _ _ Ho He1) //. fold key hands. by rewrite Hh.
  - rewrite Hlone. destruct hands; [done|]. by rewrite Hrole.
  - done.
  - rewrite Hk. fold key in Hmark.
    assert (reached (entry m1 key) = reached (entry m key)) as Hent.
    { destruct Hmark as [Heq|Heq]; unfold entry; rewrite Heq; [done|]. by rewrite lookup_insert_eq. }
    destruct Hpl as [? ? ? ? Hk'|? ? ? ? Hk'|? ? ? ? ? Hk' Hdel|? ? ? ? ? ? ?|? ? ? ? ? ?];
      try congruence; rewrite Hk' lookup_insert_eq; eexists; (split; [done|]); split; try done.
    + intros _ Hnh. by destruct (Hnh _ eq_refl).
    + intros Hs. by rewrite Hsw in Hs.
Qed.

(** The release of a key: what it leaves of the lifecycle, and when it is
    swallowed. *)
Lemma key_release m input d m' :
  on_key m input = (d, m') -> pressed (event input) = false ->
  let key := key_of (event input) in
  lone_modifier m' = after_release (lone_modifier m) key (now input) /\
  config m' = config m /\ keys_down m' !! key = None /\
  (forall down, keys_down m !! key = Some down ->
     (verdict d = Swallow <-> reached down = false)).
Proof.
  intros Hon Hp key. destruct (on_key_lone _ _ _ _ Hon) as [Hcfg Hlone]. rewrite Hp in Hlone.
  pose proof Hon as (d1 & m1 & v & m2 & Hr & Hpl & Hd)%on_key_inv.
  assert (verdict d = v /\ keys_down m' = keys_down m2) as (Hv & Hk).
  { simpl in Hd. case_match; destruct_and?; simplify_eq/=; done. }
  destruct (rules_frame _ _ _ _ Hr) as (_ & _ & _ & Hrel). destruct (Hrel Hp) as [Hk1 _].
  rewrite Hv Hk -Hk1.
  destruct Hpl as [| | |down ? ? Hl Hrd ? Hdel|? ? ? Hl Hdel Hd2]; try congruence;
    rewrite Hdel lookup_delete_eq; (split_and!; [done..|]); intros down' Hd'.
  - subst key. split; [congruence|done].
  - subst key. pose proof (Hl _ Hd') as Hrd. split; [|congruence]. by destruct Hd2.
Qed.

Section double_tap.
Context {m0 m1 m2 m3 m4 m5 : DecisionMachine} {i1 i2 i3 i4 i5 : KeyInput}.
Context {d1 d2 d3 d4 d5 : Decision} {key : KeyCode}.

(** Three taps of one key: pressed, released, pressed, released, pressed. *)
Record three_taps : Prop := {
  tt_keys : Forall (fun i => key_of (event i) = key) [i1; i2; i3; i4; i5];
  tt_pressed : map (fun i => pressed (event i)) [i1; i2; i3; i4; i5] =
               [true; false; true; false; true];
  tt_1 : on_key m0 i1 = (d1, m1);
  tt_2 : on_key m1 i2 = (d2, m2);
  tt_3 : on_key m2 i3 = (d3, m3);
  tt_4 : on_key m3 i4 = (d4, m4);
  tt_5 : on_key m4 i5 = (d5, m5);
}.
End double_tap.
Arguments three_taps : clear implicits.

(** The double tap hands the Verbatim modifier's key over, and only it:
    with no lone tap in flight, and no gesture bound to the key's presses, the
    first tap of a modifier key is swallowed, press and release; the second
    press passes exactly when it comes within the multi-press timeout of the
    first release, and its release then reaches the application; and the
    press after a hand-over is the modifier's again, and swallowed. *)
Theorem double_tap_passthrough m0 m1 m2 m3 m4 m5 i1 i2 i3 i4 i5 d1 d2 d3 d4 d5 key :
  three_taps m0 m1 m2 m3 m4 m5 i1 i2 i3 i4 i5 d1 d2 d3 d4 d5 key ->
  lone_modifier m0 = Idle -> keys_down m0 !! key = None ->
  is_verbatim_modifier m0 key.1 key.2 = true -> share_modifier (config m0) = false ->
  emitted d1 = None -> emitted d3 = None -> emitted d5 = None ->
  let again := since (now i2) (now i3) <? multi_press_timeout (config m0) in
  verdict d1 = Swallow /\ verdict d2 = Swallow /\
  (verdict d3 <> Swallow <-> again = true) /\
  (again = true -> (forall p, verdict d3 <> Hold p) -> verdict d4 <> Swallow) /\
  (again = true -> verdict d5 = Swallow).
Proof.
  intros [Hkeys Hpr H1 H2 H3 H4 H5] Hidle Hnone Hmod Hshare He1 He3 He5 again.
  simpl in Hpr. injection Hpr as Hp1 Hp2 Hp3 Hp4 Hp5.
  rewrite !Forall_cons in Hkeys. destruct Hkeys as (Hk1 & Hk2 & Hk3 & Hk4 & Hk5 & _).
  assert (forall m i, config m = config m0 -> key_of (event i) = key ->
    is_verbatim_modifier m (vk (event i)) (extended (event i)) = true) as Hm.
  { intros m i Hc <-. unfold is_verbatim_modifier in *. by rewrite Hc. }
  destruct (modifier_key_press _ _ _ _ H1 Hp1 He1) as (Hv1 & Hl1 & Hc1 & down1 & Hd1 & Hr1 & _);
    [by apply Hm|done|]. rewrite Hidle Hk1 /= in Hv1 Hl1 Hd1 Hr1.
  assert (reached down1 = false) as Hrd1.
  { rewrite Hr1; [|by apply Hv1]. unfold entry. by rewrite Hnone. }
  destruct (key_release _ _ _ _ H2 Hp2) as (Hl2 & Hc2 & _ & Hv2).
  rewrite Hk2 Hl1 /= bool_decide_eq_true_2 // in Hl2 Hv2.
  destruct (modifier_key_press _ _ _ _ H3 Hp3 He3) as (Hv3 & Hl3 & Hc3 & down3 & Hd3 & _ & Hr3);
    [apply Hm; congruence|congruence|].
  rewrite Hk3 Hl2 /= bool_decide_eq_true_2 //= Hc2 Hc1 in Hv3 Hl3 Hd3 Hr3. fold again in Hv3, Hl3.
  destruct (key_release _ _ _ _ H4 Hp4) as (Hl4 & Hc4 & _ & Hv4). rewrite Hk4 in Hl4 Hv4.
  destruct (modifier_key_press _ _ _ _ H5 Hp5 He5) as (Hv5 & _);
    [apply Hm; congruence|congruence|].
  split_and!; [by apply Hv1|by apply (Hv2 _ Hd1)| | |].
  - rewrite Hv3. by destruct again.
  - intros Ha Hnh. rewrite (Hv4 _ Hd3) Hr3 //. rewrite Hv3 Ha. done.
  - intros Ha. apply Hv5. rewrite Hl4 Hl3 Ha. done.
Qed.

Lemma double_tap_passthrough_witness :
  let inputs := [user_key caps true 0 NoHold; user_key caps false 1000 NoHold;
             user_key caps true 2000 NoHold; user_key caps false 3000 NoHold;
             user_key caps true 4000 NoHold] in
  map verdict (drive sample inputs).1 = [Swallow; Swallow; Pass; Pass; Swallow] /\
  exists d5, last (drive sample inputs).1 = Some d5 /\ verdict d5 = Swallow.
Proof.
  intros inputs. split; [vm_compute; reflexivity|].
  set (m1 := (on_key sample (user_key caps true 0 NoHold)).2).
  set (m2 := (on_key m1 (user_key caps false 1000 NoHold)).2).
  set (m3 := (on_key m2 (user_key caps true 2000 NoHold)).2).
  set (m4 := (on_key m3 (user_key caps false 3000 NoHold)).2).
  exists (on_key m4 (user_key caps true 4000 NoHold)).1. split; [vm_compute; reflexivity|].
  apply (double_tap_passthrough sample m1 m2 m3 m4
           (on_key m4 (user_key caps true 4000 NoHold)).2
           (user_key caps true 0 NoHold) (user_key caps false 1000 NoHold)
           (user_key caps true 2000 NoHold) (user_key caps false 3000 NoHold)
           (user_key caps true 4000 NoHold)
           (on_key sample (user_key caps true 0 NoHold)).1
           (on_key m1 (user_key caps false 1000 NoHold)).1
           (on_key m2 (user_key caps true 2000 NoHold)).1
           (on_key m3 (user_key caps false 3000 NoHold)).1 _ caps);
    try (vm_compute; reflexivity).
  split; try apply surjective_pairing; [|vm_compute; reflexivity].
  repeat constructor.
Defined.

(** ** Multi-press counting *)

(** The count a fresh press of [g] at [t] carries. *)
Definition next_count (m : DecisionMachine) (g : GestureId) (t : N) : N :=
  match last_gesture m with
  | Some (last, at_us) =>
      if bool_decide (last = g) && (since at_us t <? multi_press_timeout (config m))
      then repeat_count m +|8| 1 else 0
  | None => 0
  end.

(** Whether a press of [key] is the operating system's auto-repeat. *)
Definition auto_repeat (m : DecisionMachine) (key : KeyCode) : bool :=
  match keys_down m !! key with Some down => swallowed_gesture down | None => false end.

Lemma count_press_count m g key t c m' :
  count_press m g key t = (c, m') ->
  repeat_count m' = c /\
  if auto_repeat m key then c = repeat_count m /\ last_gesture m' = last_gesture m
  else c = next_count m g t /\ last_gesture m' = Some (g, t).
Proof.
  unfold count_press. fold (auto_repeat m key). fold (next_count m g t).
  destruct (auto_repeat m key); by intros [= <- <-].
Qed.

(** An emission of the rules, with the streak and the key's entry after it. *)
Lemma on_press_emission m e t nl d m' g :
  on_press m e t nl = (d, m') -> emitted d = Some g ->
  repeat_count m' = repeat g /\ auto_repeat m' (key_of e) = true /\
  if auto_repeat m (key_of e)
  then repeat g = repeat_count m /\ last_gesture m' = last_gesture m
  else repeat g = next_count m (gesture g) t /\ last_gesture m' = Some (gesture g, t).
Proof.
  unfold on_press. set (hands := hands_press_to_os _ _ _ _). set (m1 := set_lone_modifier _ _).
  destruct (main_name_of _ _ _) as [name|]; [|by intros [= <- <-]].
  set (m2 := note_modifier _ _ _).
  assert (auto_repeat m2 (key_of e) = auto_repeat m (key_of e) /\
    repeat_count m2 = repeat_count m /\ last_gesture m2 = last_gesture m /\
    forall g, next_count m2 g t = next_count m g t) as (Ha & Hrc & Hlg & Hnc).
  { unfold m2, note_modifier. by case_match. }
  assert (forall g', unbound_press m2 e (key_of e) (role_of m (key_of e) hands) hands g' = (d, m') ->
    emitted d = None) as Hub.
  { intros g'. unfold unbound_press. intros H. by split_cases. }
  destruct (build_gesture _ _ _) as [g'|]; [destruct (GMap.contains _ _)|].
  - destruct (count_press _ _ _ _) as [c m3] eqn:Hc. intros [= <- <-] [= <-].
    apply count_press_count in Hc as [Hr Hc]. rewrite Ha Hrc Hlg Hnc in Hc.
    split_and!; [done| |done]. unfold auto_repeat. simpl. by rewrite lookup_insert_eq.
  - intros H%Hub. congruence.
  - intros H%Hub. congruence.
Qed.

Lemma on_key_emission m i d m' g :
  on_key m i = (d, m') -> emitted d = Some g ->
  let key := key_of (event i) in
  config m' = config m /\ repeat_count m' = repeat g /\ auto_repeat m' key = true /\
  if auto_repeat m key
  then repeat g = repeat_count m /\ last_gesture m' = last_gesture m
  else repeat g = next_count m (gesture g) (now i) /\ last_gesture m' = Some (gesture g, now i).
Proof.
  intros Hon Hg key. destruct (on_key_lone _ _ _ _ Hon) as [Hcfg _].
  pose proof Hon as (d1 & m1 & Hr & _ & Hlg & Hrc & _ & He)%on_key_keeps.
  pose proof Hon as (d1' & m1' & v & m2 & Hr' & Hpl & Hd)%on_key_inv.
  rewrite Hr in Hr'. simplify_eq. rewrite Hg in He. symmetry in He.
  assert (keys_down m' = keys_down m2) as Hk.
  { simpl in Hd. case_match; destruct_and?; simplify_eq/=; done. }
  unfold rules in Hr. destruct (pressed (event i)) eqn:Hp; [|unfold on_release in Hr; by simplify_eq/=].
  destruct (on_press _ _ _ _) as [d0 m0] eqn:Ho.
  assert (verdict d1' = Swallow) as Hsw.
  { pose proof (on_press_shape _ _ _ _ _ _ Ho) as Hs. simplify_eq/=.
    by eapply rs_emitted. }
  simplify_eq/=. destruct (on_press_emission _ _ _ _ _ _ _ Ho He) as (Hrc' & Hau & Hrest).
  rewrite Hrc Hlg. split_and!; try done. rewrite /auto_repeat Hk.
  destruct Hpl as [? ? ? ? Hk'| | | |]; try done; try congruence.
  rewrite Hk' lookup_insert_eq. unfold auto_repeat in Hau. unfold entry.
  by destruct (keys_down m1' !! key_of (event i)).
Qed.

(** Holding a key is one press: while a gesture's key stays down, every
    gesture its auto-repeat raises carries the count of the press that began
    the hold, whatever the time between them, and the streak is left as it
    was. *)
Theorem auto_repeat_keeps_count m i1 d1 m1 g1 i2 d2 m2 g2 :
  on_key m i1 = (d1, m1) -> emitted d1 = Some g1 ->
  key_of (event i2) = key_of (event i1) ->
  on_key m1 i2 = (d2, m2) -> emitted d2 = Some g2 ->
  repeat g2 = repeat g1 /\ last_gesture m2 = last_gesture m1 /\
  repeat_count m2 = repeat_count m1.
Proof.
  intros H1 Hg1 Hkey H2 Hg2.
  destruct (on_key_emission _ _ _ _ _ H1 Hg1) as (_ & Hrc1 & Hau1 & _).
  destruct (on_key_emission _ _ _ _ _ H2 Hg2) as (_ & Hrc2 & _ & Hrest).
  rewrite Hkey Hau1 in Hrest. destruct Hrest. split_and!; congruence.
Qed.

Lemma auto_repeat_keeps_count_witness :
  let m := (drive sample [user_key caps true 0 NoHold; user_key letter_t true 1000 NoHold;
                          user_key letter_t false 2000 NoHold]).2 in
  let p1 := user_key letter_t true 3000 NoHold in
  let p2 := user_key letter_t true 9000000 NoHold in
  exists g1 g2, emitted (on_key m p1).1 = Some g1 /\ repeat g1 = 1 /\
    emitted (on_key (on_key m p1).2 p2).1 = Some g2 /\ repeat g2 = repeat g1.
Proof.
  intros m p1 p2.
  assert (emitted (on_key m p1).1 = Some {| gesture := kb "kb:t+verbatim"; repeat := 1 |}) as H1
    by (vm_compute; reflexivity).
  assert (emitted (on_key (on_key m p1).2 p2).1 =
          Some {| gesture := kb "kb:t+verbatim"; repeat := 1 |}) as H2 by (vm_compute; reflexivity).
  eexists _, _. split; [exact H1|]. split; [reflexivity|]. split; [exact H2|].
  apply (auto_repeat_keeps_count m p1 _ _ _ p2 _ _ _ (surjective_pairing _) H1 eq_refl
           (surjective_pairing _) H2).
Defined.

(** Successive presses and releases of one key, each raising [g] within the
    timeout of the press before, with the counts they raise it with; [last] is
    when the press before the first was. *)
Inductive taps (g : GestureId) (key : KeyCode)
    : option N -> DecisionMachine -> list N -> Prop :=
  | taps_nil last m : taps g key last m []
  | taps_cons last m i1 d1 m1 i2 d2 m2 r rs :
      pressed (event i1) = true -> key_of (event i1) = key -> on_key m i1 = (d1, m1) ->
      emitted d1 = Some {| gesture := g; repeat := r |} ->
      (forall t, last = Some t -> since t (now i1) < multi_press_timeout (config m)) ->
      pressed (event i2) = false -> key_of (event i2) = key -> on_key m1 i2 = (d2, m2) ->
      taps g key (Some (now i1)) m2 rs ->
      taps g key last m (r :: rs).

Lemma taps_counts g key last m rs n :
  taps g key last m rs -> auto_repeat m key = false -> repeat_count m <= U8_MAX ->
  match last with
  | Some t => last_gesture m = Some (g, t) /\ repeat_count m +|8| 1 = N.min U8_MAX n
  | None => last_gesture m = None /\ n = 0
  end ->
  rs = map (fun k => N.min U8_MAX (n + N.of_nat k)) (seq 0 (length rs)).
Proof.
  intros Ht. revert n.
  induction Ht as [|last m i1 d1 m1 i2 d2 m2 r rs Hp1 Hk1 H1 Hg1 Hin Hp2 Hk2 H2 Ht IH];
    intros n Hau Hrc Hlast; [done|].
  destruct (on_key_emission _ _ _ _ _ H1 Hg1) as (Hc1 & Hrc1 & _ & Hrest).
  rewrite Hk1 Hau /= in Hrest. destruct Hrest as [Hr Hlg1]. simpl in Hrc1.
  assert (r = N.min U8_MAX n) as Hrn.
  { rewrite Hr /next_count. destruct last as [t|]; destruct Hlast as [-> Hn]; [|by subst n].
    rewrite bool_decide_eq_true_2 //. specialize (Hin t eq_refl). apply N.ltb_lt in Hin.
    by rewrite Hin. }
  pose proof H2 as (dd & mm & Hr2 & _ & Hlg2 & Hrc2 & _ & _)%on_key_keeps.
  destruct (key_release _ _ _ _ H2 Hp2) as (_ & _ & Hnone & _). rewrite Hk2 in Hnone.
  unfold rules in Hr2. rewrite Hp2 in Hr2. unfold on_release in Hr2.
  injection Hr2 as _ <-. simpl in Hlg2, Hrc2.
  simpl. f_equal; [by rewrite Hrn N.add_0_r|].
  rewrite (IH (n + 1)).
  - rewrite length_map length_seq -fmap_S_seq. change (@fmap list _) with map. rewrite map_map.
    apply map_ext. intros k. f_equal. lia.
  - unfold auto_repeat. by rewrite Hnone.
  - rewrite Hrc2 Hrc1 Hrn. lia.
  - rewrite Hlg2 Hlg1 Hrc2 Hrc1 Hrn. split; [done|]. unfold saturating_add, U8_MAX. lia.
Qed.

(** Pressing a gesture again within the timeout counts 0, 1, 2, and on,
    saturating at 255 rather than overflowing: from a machine with no streak
    and the key up, successive presses and releases of one key that raise one
    gesture, each press within the timeout of the one before, raise it with
    the counts 0, 1, 2 up to 255. *)
Theorem multi_press_counts g key m rs :
  taps g key None m rs -> last_gesture m = None -> keys_down m !! key = None ->
  repeat_count m <= U8_MAX ->
  rs = map (fun k => N.min U8_MAX (N.of_nat k)) (seq 0 (length rs)).
Proof.
  intros Ht Hl Hk Hrc. apply (taps_counts g key None m rs 0); [done| |done|done].
  unfold auto_repeat. by rewrite Hk.
Qed.

Lemma multi_press_counts_witness :
  let m := (drive sample [user_key caps true 0 NoHold]).2 in
  exists r1 r2, taps (kb "kb:t+verbatim") letter_t None m [r1; r2] /\
    [r1; r2] = map (fun k => N.min U8_MAX (N.of_nat k)) (seq 0 (length [r1; r2])).
Proof.
  intros m. exists 0, 1.
  assert (taps (kb "kb:t+verbatim") letter_t None m [0; 1]) as Ht.
  { eapply (taps_cons _ _ _ _ (user_key letter_t true 1000 NoHold) _ _
              (user_key letter_t false 2000 NoHold));
      [done|done|apply surjective_pairing|vm_compute; reflexivity|done|done|done
      |apply surjective_pairing|].
    eapply (taps_cons _ _ _ _ (user_key letter_t true 3000 NoHold) _ _
              (user_key letter_t false 4000 NoHold));
      [done|done|apply surjective_pairing|vm_compute; reflexivity| |done|done
      |apply surjective_pairing|constructor].
    intros t [= <-]. vm_compute. reflexivity. }
  split; [exact Ht|].
  apply (multi_press_counts (kb "kb:t+verbatim") letter_t m [0; 1] Ht); try (vm_compute; reflexivity).
  vm_compute. discriminate.
Defined.
