(* ===== verification/InFlight.v ===== *)
(** * The work in flight ([crates/verbatim-reader-rules/src/in_flight.rs])

    A reader's record of the one slow-call item a worker is running: which
    worker generation is in charge, the item's deadline, its judgement, the
    publication of its walk at its bound, and its abandonment.  Each
    [&mut self] transition returns the record after it.  A [debug_assert] is
    not part of the transitions: that it holds is a hypothesis of the step
    relation where the caller owes it, and a theorem where the code does.

    The module [Window] is [crates/verbatim-reader-rules/src/window.rs]. *)

From S2P Require Import Prelude.

Module Window.

(** A window's handle, never 0. *)
Record Window := { handle : Z }.

#[global] Instance Window_eq_dec : EqDecision Window.
Proof. solve_decision. Defined.

Definition new (h : Z) : option Window :=
  if (h =? 0)%Z then None else Some {| handle := h |}.

Definition get (w : Window) : Z := handle w.

End Window.
Export Window (Window(..), Window_eq_dec).

(** [MOVED_ON_GRACE], of the crate's [lib.rs]. *)
Definition MOVED_ON_GRACE : Duration.t := Duration.from_millis 500.

Definition grace_us : N := N.min U64_MAX (Duration.as_micros MOVED_ON_GRACE).

Record Request := { generation : N; number : N }.

Inductive Walk :=
  | Unarmed
  | Armed (bound : N)
  | Published.

Inductive Moved :=
  | MovedNever
  | MovedUnknown
  | MovedKnown (window : Window) (next : N)
  | MovedNamed (next : N).

Inductive RuleWindow :=
  | RuleNever
  | RuleUnknown
  | RuleKnown (window : Window)
  | RuleNamed.

Inductive Reason := Deadline | MovedOn | Hung.

Inductive Ask :=
  | Judge (request : Request) (window : option Window)
  | Publish (request : Request) (then_abandon : option Reason).

#[export] Instance Request_eq_dec : EqDecision Request.
Proof. solve_decision. Defined.
#[export] Instance Walk_eq_dec : EqDecision Walk.
Proof. solve_decision. Defined.
#[export] Instance Moved_eq_dec : EqDecision Moved.
Proof. solve_decision. Defined.
#[export] Instance Reason_eq_dec : EqDecision Reason.
Proof. solve_decision. Defined.

(** [RuleWindow::from_cached]. *)
Definition from_cached (h : option Z) : RuleWindow :=
  match h with
  | None => RuleNever
  | Some h => match Window.new h with Some w => RuleKnown w | None => RuleUnknown end
  end.

(** [RuleWindow::known]. *)
Definition known (self : RuleWindow) : option Window :=
  match self with RuleKnown w => Some w | RuleNever | RuleUnknown | RuleNamed => None end.

Section in_flight.
Context {T : Type}.

Record Abandoned := {
  dead : N;
  replacement : N;
  reason : Reason;
  ab_item : T;
  ab_published : bool;
}.

Inductive Decision :=
  | Nothing
  | AskShell (ask : Ask)
  | Abandon (a : Abandoned).

Record Running := {
  request : Request;
  started : N;
  deadline_at : N;
  walk : Walk;
  moved : Moved;
  item : T;
}.

Record InFlight := {
  in_charge : N;
  requests : N;
  running_item : option Running;
}.

(** ** Field updates *)

Definition with_walk (r : Running) (w : Walk) : Running := {|
  request := request r; started := started r; deadline_at := deadline_at r;
  walk := w; moved := moved r; item := item r |}.
Definition with_moved (r : Running) (mv : Moved) : Running := {|
  request := request r; started := started r; deadline_at := deadline_at r;
  walk := walk r; moved := mv; item := item r |}.
Definition with_request (r : Running) (q : Request) : Running := {|
  request := q; started := started r; deadline_at := deadline_at r;
  walk := walk r; moved := moved r; item := item r |}.
Definition with_running (s : InFlight) (r : Running) : InFlight := {|
  in_charge := in_charge s; requests := requests s; running_item := Some r |}.

Definition is_armed (w : Walk) : bool := match w with Armed _ => true | _ => false end.
Definition is_published (w : Walk) : bool := match w with Published => true | _ => false end.

(** ** Transitions *)

Definition new : InFlight := {| in_charge := 0; requests := 0; running_item := None |}.

(** A new request of the generation in charge. *)
Definition next_request (s : InFlight) : Request * InFlight :=
  let n := requests s +|64| 1 in
  ({| generation := in_charge s; number := n |},
   {| in_charge := in_charge s; requests := n; running_item := running_item s |}).

Definition start (s : InFlight) (it : T) (deadline : N) (window : RuleWindow) (now : N)
    : Request * InFlight :=
  let '(q, s) := next_request s in
  let next := now +|64| grace_us in
  let mv := match window with
            | RuleNever => MovedNever
            | RuleUnknown => MovedUnknown
            | RuleKnown w => MovedKnown w next
            | RuleNamed => MovedNamed next
            end in
  (q, with_running s {| request := q; started := now; deadline_at := now +|64| deadline;
                        walk := Unarmed; moved := mv; item := it |}).

Definition hand_on (s : InFlight) : option Request * InFlight :=
  let q := {| generation := in_charge s; number := requests s +|64| 1 |} in
  match running_item s with
  | None => (None, s)
  | Some r => (Some q, {| in_charge := in_charge s; requests := requests s +|64| 1;
                          running_item := Some (with_request r q) |})
  end.

(** The item running, if it is [q]'s. *)
Definition running_of (s : InFlight) (q : Request) : option Running :=
  match running_item s with
  | Some r => if bool_decide (request r = q) then Some r else None
  | None => None
  end.

Definition abandon (s : InFlight) (why : Reason) : Decision * InFlight :=
  match running_item s with
  | None => (Nothing, s)
  | Some r =>
      let next := in_charge s +|64| 1 in
      (Abandon {| dead := in_charge s; replacement := next; reason := why;
                  ab_item := item r; ab_published := is_published (walk r) |},
       {| in_charge := next; requests := requests s; running_item := None |})
  end.

(** The last judgement, of the item's window. *)
Definition judge_window (s : InFlight) (r : Running) (now : N) : Decision * InFlight :=
  match moved r with
  | MovedKnown w next =>
      if next <=? now then
        (AskShell (Judge (request r) (Some w)),
         with_running s (with_moved r (MovedKnown w (now +|64| grace_us))))
      else (Nothing, s)
  | MovedNamed next =>
      if next <=? now then
        (AskShell (Judge (request r) None),
         with_running s (with_moved r (MovedNamed (now +|64| grace_us))))
      else (Nothing, s)
  | MovedNever | MovedUnknown => (Nothing, s)
  end.

Definition judge (s : InFlight) (now : N) : Decision * InFlight :=
  match running_item s with
  | None => (Nothing, s)
  | Some r =>
      if deadline_at r <=? now then
        if is_armed (walk r) then
          (AskShell (Publish (request r) (Some Deadline)), with_running s (with_walk r Unarmed))
        else abandon s Deadline
      else
        match walk r with
        | Armed bound =>
            if bound <=? now then
              (AskShell (Publish (request r) None), with_running s (with_walk r Unarmed))
            else judge_window s r now
        | Unarmed | Published => judge_window s r now
        end
  end.

Definition tick (s : InFlight) (now : N) : Decision * InFlight := judge s now.

Definition learned (s : InFlight) (q : Request) (window : Window) (now : N)
    : Decision * InFlight :=
  match running_of s q with
  | None => (Nothing, s)
  | Some r =>
      if bool_decide (moved r <> MovedUnknown) then (Nothing, s)
      else
        let grace_end := started r +|64| grace_us in
        let s := with_running s (with_moved r (MovedKnown window (N.max grace_end now))) in
        if grace_end <=? now then judge s now else (Nothing, s)
  end.

Definition armed (s : InFlight) (q : Request) (bound : N) : InFlight :=
  match running_of s q with
  | Some r => if is_published (walk r) then s else with_running s (with_walk r (Armed bound))
  | None => s
  end.

Definition walk_returned (s : InFlight) (q : Request) (past : bool) : Decision * InFlight :=
  match running_of s q with
  | None => (Nothing, s)
  | Some r =>
      if negb (is_armed (walk r)) then (Nothing, s)
      else
        let s := with_running s (with_walk r Unarmed) in
        if past then (AskShell (Publish q None), s) else (Nothing, s)
  end.

Definition judged (s : InFlight) (q : Request) (verdict : option Reason)
    : Decision * InFlight :=
  match running_of s q, verdict with
  | None, _ => (Nothing, s)
  | Some _, None => (Nothing, s)
  | Some r, Some why =>
      if is_armed (walk r) then
        (AskShell (Publish q (Some why)), with_running s (with_walk r Unarmed))
      else abandon s why
  end.

(** [publication]: [None] when [q] is not running. *)
Definition publication (s : InFlight) (q : Request) (got : bool) (then_abandon : option Reason)
    : option Decision * InFlight :=
  match running_of s q with
  | None => (None, s)
  | Some r =>
      let s := if got then with_running s (with_walk r Published) else s in
      match then_abandon with
      | Some why => let '(d, s) := abandon s why in (Some d, s)
      | None => (Some Nothing, s)
      end
  end.

Definition published (s : InFlight) (q : Request) (got : bool) (then_abandon : option Reason)
    (now : N) : Decision * InFlight :=
  match publication s q got then_abandon with
  | (Some Nothing, s) => judge s now
  | (Some d, s) => (d, s)
  | (None, s) => (Nothing, s)
  end.

Definition published_judging_nothing (s : InFlight) (q : Request) (got : bool)
    (then_abandon : option Reason) : Decision * InFlight :=
  let '(d, s) := publication s q got then_abandon in (default Nothing d, s).

(** [end], a keyword here: the item of [q], once, with whether its walk was
    published. *)
Definition end_ (s : InFlight) (q : Request) : option (T * bool) * InFlight :=
  match running_of s q with
  | Some r => (Some (item r, is_published (walk r)),
               {| in_charge := in_charge s; requests := requests s; running_item := None |})
  | None => (None, s)
  end.

Definition succeed (s : InFlight) : N * InFlight :=
  let next := in_charge s +|64| 1 in
  (next, {| in_charge := next; requests := requests s; running_item := running_item s |}).

(** ** Queries *)

Definition accepts (s : InFlight) (q : Request) : bool :=
  match running_item s with
  | Some r => bool_decide (request r = q) && negb (is_published (walk r))
  | None => false
  end.

Definition generation_in_charge (s : InFlight) : N := in_charge s.

Definition running (s : InFlight) : option (Request * T * bool) :=
  match running_item s with
  | Some r => Some (request r, item r, is_published (walk r))
  | None => None
  end.

Definition deadline (s : InFlight) : option N :=
  match running_item s with Some r => Some (deadline_at r) | None => None end.

(** [item_mut], as the change [f] its caller makes through it. *)
Definition item_mut (s : InFlight) (f : T -> T) : InFlight :=
  match running_item s with
  | Some r => with_running s {| request := request r; started := started r;
      deadline_at := deadline_at r; walk := walk r; moved := moved r; item := f (item r) |}
  | None => s
  end.

Definition next_wake (s : InFlight) : option N :=
  match running_item s with
  | None => None
  | Some r =>
      let due := deadline_at r in
      let due := match walk r with Armed bound => N.min due bound | _ => due end in
      let due := match moved r with
                 | MovedKnown _ next | MovedNamed next => N.min due next
                 | MovedNever | MovedUnknown => due
                 end in
      Some due
  end.

End in_flight.

Arguments Abandoned T : clear implicits.
Arguments Decision T : clear implicits.
Arguments Running T : clear implicits.
Arguments InFlight T : clear implicits.
