(* ===== verification/InFlightProps.v ===== *)
(** * Properties of the work in flight

    A run of [InFlight.v]'s record is any sequence of its transitions in which
    an item is started, and a generation succeeded, only while nothing runs,
    as the source asserts.  Each item leaves exactly once; a request whose
    item has left is refused for good; the reader's timer misses nothing. *)

From S2P Require Import Prelude InFlight.

Section props.
Context {T : Type}.
Implicit Types (s : InFlight T) (r : Running T) (q : Request).

(** ** Runs *)

Inductive op :=
  | OStart (it : T) (deadline : N) (window : RuleWindow) (now : N)
  | OHandOn
  | OLearned (q : Request) (w : Window) (now : N)
  | OArmed (q : Request) (bound : N)
  | OWalkReturned (q : Request) (past : bool)
  | OTick (now : N)
  | OJudged (q : Request) (verdict : option Reason)
  | OPublished (q : Request) (got : bool) (then_abandon : option Reason) (now : N)
  | OPublishedStopped (q : Request) (got : bool) (then_abandon : option Reason)
  | OEnd (q : Request)
  | OSucceed
  | ONextRequest.

(** The item an operation's decision carries out. *)
Definition leaves (d : Decision T) : list T :=
  match d with Abandon a => [ab_item a] | Nothing | AskShell _ => [] end.

(** What one operation does: the items that leave in it, the requests it
    issues, and the record after it. *)
Definition exec s (o : op) : list T * list Request * InFlight T :=
  match o with
  | OStart it dl w t => let '(q, s) := start s it dl w t in ([], [q], s)
  | OHandOn => let '(q, s) := hand_on s in ([], option_list q, s)
  | OLearned q w t => let '(d, s) := learned s q w t in (leaves d, [], s)
  | OArmed q b => ([], [], armed s q b)
  | OWalkReturned q past => let '(d, s) := walk_returned s q past in (leaves d, [], s)
  | OTick t => let '(d, s) := tick s t in (leaves d, [], s)
  | OJudged q v => let '(d, s) := judged s q v in (leaves d, [], s)
  | OPublished q got ta t => let '(d, s) := published s q got ta t in (leaves d, [], s)
  | OPublishedStopped q got ta =>
      let '(d, s) := published_judging_nothing s q got ta in (leaves d, [], s)
  | OEnd q => let '(x, s) := end_ s q in
              (match x with Some (it, _) => [it] | None => [] end, [], s)
  | OSucceed => ([], [], (succeed s).2)
  | ONextRequest => let '(q, s) := next_request s in ([], [q], s)
  end.

(** What the source asserts of its callers: nothing runs when an item is
    started or a generation succeeded. *)
Definition allowed s (o : op) : Prop :=
  match o with
  | OStart _ _ _ _ | OSucceed => running_item s = None
  | _ => True
  end.

(** The items an operation starts. *)
Definition starts (o : op) : list T :=
  match o with OStart it _ _ _ => [it] | _ => [] end.

(** [runs started left issued s]: some run from [new] reaches [s], having
    started [started], let [left] leave and issued [issued], each in order. *)
Inductive runs : list T -> list T -> list Request -> InFlight T -> Prop :=
  | runs_new : runs [] [] [] new
  | runs_op st lf qs s o out qs' s' :
      runs st lf qs s -> allowed s o -> exec s o = (out, qs', s') ->
      runs (st ++ starts o) (lf ++ out) (qs ++ qs') s'.

(** The items a record holds. *)
Definition holds_items s : list T :=
  match running_item s with Some r => [item r] | None => [] end.

(** ** Each transition, by what it does to the running item *)

(** [kept s s']: the same item still runs, under the same request, or none
    does and none did; and no request was issued. *)
Definition kept s s' : Prop :=
  requests s' = requests s /\ in_charge s' = in_charge s /\
  match running_item s, running_item s' with
  | Some r, Some r' => request r' = request r /\ item r' = item r /\
      deadline_at r' = deadline_at r /\ (walk r = Published -> walk r' = Published)
  | None, None => True
  | _, _ => False
  end.

(** [gone s a s']: the running item was abandoned as [a] says. *)
Definition gone s (a : Abandoned T) s' : Prop :=
  exists r, running_item s = Some r /\ running_item s' = None /\
    requests s' = requests s /\ in_charge s' = in_charge s +|64| 1 /\
    ab_item a = item r /\ dead a = in_charge s /\ replacement a = in_charge s'.

(** A decision with the record after it: an abandonment, or the item kept. *)
Definition decided s (d : Decision T) s' : Prop :=
  match d with
  | Abandon a => gone s a s'
  | Nothing | AskShell _ => kept s s'
  end.

Lemma kept_refl s : kept s s.
Proof. unfold kept. by destruct (running_item s). Qed.

Lemma kept_with s r r' :
  running_item s = Some r -> request r' = request r -> item r' = item r ->
  deadline_at r' = deadline_at r -> (walk r = Published -> walk r' = Published) ->
  kept s (with_running s r').
Proof. intros Hr ? ? ? ?. unfold kept. simpl. by rewrite Hr. Qed.

(** Disarming an armed walk keeps the item. *)
Lemma kept_disarm s r :
  running_item s = Some r -> is_armed (walk r) = true ->
  kept s (with_running s (with_walk r Unarmed)).
Proof.
  intros Hr Ha. eapply kept_with; [done..|]. intros Hp. by rewrite Hp in Ha.
Qed.

Lemma kept_move s r mv :
  running_item s = Some r -> kept s (with_running s (with_moved r mv)).
Proof. intros Hr. by eapply kept_with. Qed.

#[local] Hint Resolve kept_refl kept_disarm kept_move : verbatim.

Lemma decided_after s s1 d s' : kept s s1 -> decided s1 d s' -> decided s d s'.
Proof.
  unfold decided, kept, gone. intros (Hq & Hc & Hr) Hd.
  destruct d as [| |a].
  - destruct Hd as (? & ? & Hr'). split_and!; [congruence..|].
    destruct (running_item s), (running_item s1), (running_item s'); naive_solver congruence.
  - destruct Hd as (? & ? & Hr'). split_and!; [congruence..|].
    destruct (running_item s), (running_item s1), (running_item s'); naive_solver congruence.
  - destruct Hd as (r & Hr1 & ? & ? & ? & ? & ? & ?). rewrite Hr1 in Hr.
    destruct (running_item s) as [r0|]; [|done]. exists r0.
    destruct Hr as (? & ? & ? & ?). split_and!; congruence.
Qed.

Lemma running_of_Some s q r :
  running_of s q = Some r -> running_item s = Some r /\ request r = q.
Proof.
  unfold running_of. destruct (running_item s) as [r'|]; [|done].
  case_bool_decide; [|done]. by intros [= <-].
Qed.

Lemma abandon_decided s why d s' : abandon s why = (d, s') -> decided s d s'.
Proof.
  unfold abandon. destruct (running_item s) as [r|] eqn:Hr; intros [= <- <-]; simpl.
  - exists r. by rewrite Hr.
  - auto with verbatim.
Qed.

Lemma judge_decided s t d s' : judge s t = (d, s') -> decided s d s'.
Proof.
  unfold judge, judge_window. destruct (running_item s) as [r|] eqn:Hr;
    [|intros [= <- <-]; simpl; auto with verbatim].
  intros H. repeat case_match; simplify_eq; simpl; auto with verbatim;
    try (by eapply abandon_decided). apply kept_disarm; [done|]. by rewrite H1.
Qed.

Lemma learned_decided s q w t d s' : learned s q w t = (d, s') -> decided s d s'.
Proof.
  unfold learned. destruct (running_of s q) as [r|] eqn:Hq;
    [apply running_of_Some in Hq as [Hr _]|intros [= <- <-]; simpl; auto with verbatim].
  case_bool_decide; [intros [= <- <-]; simpl; auto with verbatim|]. case_match.
  - intros Hj%judge_decided. eapply decided_after; [|done]. auto with verbatim.
  - intros [= <- <-]. simpl. auto with verbatim.
Qed.

Lemma walk_returned_decided s q past d s' : walk_returned s q past = (d, s') -> decided s d s'.
Proof.
  unfold walk_returned. destruct (running_of s q) as [r|] eqn:Hq;
    [apply running_of_Some in Hq as [Hr _]|intros [= <- <-]; simpl; auto with verbatim].
  destruct (is_armed (walk r)) eqn:Ha; simpl; [|intros [= <- <-]; simpl; auto with verbatim].
  destruct past; intros [= <- <-]; simpl; auto with verbatim.
Qed.

Lemma judged_decided s q v d s' : judged s q v = (d, s') -> decided s d s'.
Proof.
  unfold judged. destruct (running_of s q) as [r|] eqn:Hq;
    [apply running_of_Some in Hq as [Hr _]|intros [= <- <-]; simpl; auto with verbatim].
  destruct v as [why|]; [|intros [= <- <-]; simpl; auto with verbatim].
  destruct (is_armed (walk r)) eqn:Ha; [intros [= <- <-]; simpl; auto with verbatim|].
  apply abandon_decided.
Qed.

(** [publication], with the decision it gives when its request runs. *)
Lemma publication_decided s q got ta d s' :
  publication s q got ta = (d, s') -> decided s (default Nothing d) s'.
Proof.
  unfold publication. destruct (running_of s q) as [r|] eqn:Hq;
    [apply running_of_Some in Hq as [Hr _]|intros [= <- <-]; simpl; auto with verbatim].
  assert (kept s (if got then with_running s (with_walk r Published) else s)) as Hk.
  { destruct got; [by eapply kept_with|auto with verbatim]. }
  destruct ta as [why|]; [|by intros [= <- <-]].
  destruct (abandon _ _) as [d' s1] eqn:Ha. intros [= <- <-]. simpl.
  eapply decided_after; [exact Hk|]. by eapply abandon_decided.
Qed.

Lemma published_decided s q got ta t d s' : published s q got ta t = (d, s') -> decided s d s'.
Proof.
  unfold published. destruct (publication s q got ta) as [d1 s1] eqn:Hp.
  apply publication_decided in Hp.
  destruct d1 as [[| |a]|]; simpl in Hp; try (intros [= <- <-]; exact Hp).
  intros Hj%judge_decided. by eapply decided_after.
Qed.

Lemma stopped_decided s q got ta d s' :
  published_judging_nothing s q got ta = (d, s') -> decided s d s'.
Proof.
  unfold published_judging_nothing. destruct (publication s q got ta) as [d1 s1] eqn:Hp.
  apply publication_decided in Hp. by intros [= <- <-].
Qed.

Lemma armed_kept s q b : kept s (armed s q b).
Proof.
  unfold armed. destruct (running_of s q) as [r|] eqn:Hq; [|auto with verbatim].
  apply running_of_Some in Hq as [Hr _]. destruct (walk r) eqn:Hw; simpl; auto with verbatim;
    eapply kept_with; try done; by rewrite Hw.
Qed.

(** ** Conservation of items *)

Lemma decided_items s d s' : decided s d s' -> holds_items s = leaves d ++ holds_items s'.
Proof.
  unfold holds_items. destruct d as [| |a]; simpl.
  - intros (_ & _ & H). by destruct (running_item s), (running_item s'); destruct_and?; f_equal.
  - intros (_ & _ & H). by destruct (running_item s), (running_item s'); destruct_and?; f_equal.
  - intros (r & -> & -> & _ & _ & -> & _). done.
Qed.

Lemma exec_items s o out qs s' :
  allowed s o -> exec s o = (out, qs, s') -> holds_items s ++ starts o = out ++ holds_items s'.
Proof.
  intros Hal Hex. destruct o; simpl in *;
    try (match type of Hex with (let '(_, _) := ?x in _) = _ => destruct x as [d s1] eqn:Hd end);
    simplify_eq/=; rewrite ?app_nil_r;
    try (apply decided_items; eauto using learned_decided, walk_returned_decided, judge_decided,
           judged_decided, published_decided, stopped_decided).
  - unfold holds_items. simpl. by rewrite Hal.
  - unfold hand_on in Hd. unfold holds_items.
    destruct (running_item s) eqn:Hr; simplify_eq/=; by rewrite ?Hr.
  - pose proof (armed_kept s q bound) as (_ & _ & H). unfold holds_items.
    by destruct (running_item s), (running_item (armed s q bound)); destruct_and?; f_equal.
  - unfold end_ in Hd. destruct (running_of s q) as [r|] eqn:Hq; simplify_eq/=; [|done].
    apply running_of_Some in Hq as [Hr _]. unfold holds_items. by rewrite Hr.
  - done.
  - done.
Qed.

(** C26: an item leaves exactly once: in every run, the items started are those
    that left, by [end] or inside an abandonment, followed by the one running,
    if any, each in the order it was started. *)
Theorem item_leaves_once st lf qs s :
  runs st lf qs s -> st = lf ++ holds_items s.
Proof.
  induction 1 as [|st lf qs s o out qs' s' Hr IH Hal Hex]; [done|].
  apply exec_items in Hex; [|done]. by rewrite IH -!app_assoc Hex.
Qed.

(** ** Requests *)

(** Every request issued is numbered no later than the record's count, and so
    is the running item's. *)
Definition issued_ok (qs : list Request) s : Prop :=
  requests s <= U64_MAX /\ Forall (fun q => number q <= requests s) qs /\
  match running_item s with Some r => request r ∈ qs | None => True end.

(** What an operation does to the requests: it issues none and keeps the
    running item's, or it issues the next one. *)
Lemma exec_requests s o out qs s' :
  exec s o = (out, qs, s') ->
  (qs = [] /\ requests s' = requests s /\
   match running_item s' with
   | Some r' => exists r, running_item s = Some r /\ request r' = request r
   | None => True end) \/
  (exists q, qs = [q] /\ number q = requests s +|64| 1 /\ requests s' = requests s +|64| 1 /\
   match running_item s' with
   | Some r' => request r' = q \/ exists r, running_item s = Some r /\ request r' = request r
   | None => True end).
Proof.
  assert (forall s d s', decided s d s' -> requests s' = requests s /\
    match running_item s' with
    | Some r' => exists r, running_item s = Some r /\ request r' = request r
    | None => True end) as Hdec.
  { clear. intros s d s'. destruct d as [| |a]; simpl.
    - intros (? & _ & H). split; [done|].
      destruct (running_item s), (running_item s'); try done; destruct_and?; eauto.
    - intros (? & _ & H). split; [done|].
      destruct (running_item s), (running_item s'); try done; destruct_and?; eauto.
    - intros (r & _ & -> & ? & _). done. }
  intros Hex. destruct o; simpl in *;
    try (match type of Hex with (let '(_, _) := ?x in _) = _ => destruct x as [d s1] eqn:Hd end);
    simplify_eq/=;
    try solve [left; split; [done|]; eapply Hdec; eauto using learned_decided,
      walk_returned_decided, judge_decided, judged_decided, published_decided, stopped_decided].
  - right. eexists. split_and!; [done..|]. by left.
  - unfold hand_on in Hd. destruct (running_item s) as [r|] eqn:Hr; simplify_eq/=.
    + right. eexists. split_and!; [done..|]. by left.
    + left. by rewrite Hr.
  - left. split; [done|]. apply (Hdec s Nothing). apply armed_kept.
  - left. unfold end_ in Hd. destruct (running_of s q) as [r|]; simplify_eq/=; [done|].
    split_and!; [done..|]. destruct (running_item s'); eauto.
  - left. split_and!; [done..|]. destruct (running_item s); eauto.
  - right. eexists. split_and!; [done..|]. destruct (running_item s); eauto.
Qed.

Lemma runs_issued st lf qs s : runs st lf qs s -> issued_ok qs s.
Proof.
  induction 1 as [|st lf qs s o out qs' s' Hr (Hmax & Hall & Hrun) Hal Hex]; [by split_and!|].
  apply exec_requests in Hex as [(-> & Hq & Hrun')|(q & -> & Hn & Hq & Hrun')].
  - rewrite app_nil_r. unfold issued_ok. rewrite Hq. split_and!; [done..|].
    destruct (running_item s') as [r'|]; [|done].
    destruct Hrun' as (r & Hr' & ->). by rewrite Hr' in Hrun.
  - unfold issued_ok. rewrite Hq. unfold saturating_add in *. split_and!; [lia| |].
    + apply Forall_app. split; [|constructor; [lia|done]].
      eapply Forall_impl; [exact Hall|]. simpl. intros q' Hq'. lia.
    + destruct (running_item s') as [r'|]; [|done]. apply elem_of_app.
      destruct Hrun' as [->|(r & Hr' & ->)]; [right; by left|left]. by rewrite Hr' in Hrun.
Qed.

(** Any number of allowed operations. *)
Inductive continues : InFlight T -> InFlight T -> Prop :=
  | continues_refl s : continues s s
  | continues_op s o out qs s' s'' :
      allowed s o -> exec s o = (out, qs, s') -> continues s' s'' -> continues s s''.

Lemma continues_requests s s' : continues s s' -> requests s <= requests s' \/ U64_MAX < requests s.
Proof.
  induction 1 as [|s o out qs s' s'' Hal Hex _ IH]; [lia|].
  apply exec_requests in Hex as [(_ & Hq & _)|(q & _ & _ & Hq & _)]; rewrite Hq in IH; [done|].
  unfold saturating_add in IH. lia.
Qed.

Lemma continues_refused q s s' :
  continues s s' -> requests s' < U64_MAX -> number q <= requests s ->
  running_of s q = None -> running_of s' q = None.
Proof.
  induction 1 as [|s o out qs s' s'' Hal Hex Hc IH]; [done|]. intros Hlt Hn Hq.
  pose proof (continues_requests _ _ Hc) as Hm.
  apply exec_requests in Hex as [(_ & Hreq & Hrun)|(q' & _ & Hn' & Hreq & Hrun)].
  - apply IH; [done|lia|]. unfold running_of in *.
    destruct (running_item s') as [r'|]; [|done]. destruct Hrun as (r & Hr & ->).
    rewrite Hr in Hq. by case_bool_decide.
  - unfold saturating_add in *.
    apply IH; [done|lia|]. unfold running_of in *.
    destruct (running_item s') as [r'|]; [|done]. destruct Hrun as [->|(r & Hr & ->)].
    + rewrite bool_decide_eq_false_2 //. intros ->. lia.
    + rewrite Hr in Hq. by case_bool_decide.
Qed.

(** A request whose item has left is refused for good: in every run, a
    request that was issued and is not the running item's is never the running
    item's again, whatever is done afterwards, until the count of requests
    saturates; so the results of a dead worker generation, or of an earlier
    request, are never applied. *)
Theorem stale_request_refused st lf qs s s' q :
  runs st lf qs s -> q ∈ qs -> running_of s q = None ->
  continues s s' -> requests s' < U64_MAX ->
  running_of s' q = None /\ accepts s' q = false /\ (end_ s' q).1 = None.
Proof.
  intros (_ & Hall & _)%runs_issued Hin Hno Hc Hlt. rewrite Forall_forall in Hall.
  assert (running_of s' q = None) as Hr by (eapply continues_refused; eauto).
  split_and!; [done| |by unfold end_; rewrite Hr].
  unfold running_of in Hr. unfold accepts. destruct (running_item s'); [|done].
  by case_bool_decide.
Qed.

(** ** The reader's timer *)

(** The reader's timer is exact: a tick before [next_wake], or while it is
    [None], decides nothing and changes nothing, and a tick at or after it
    always decides something. *)
Theorem next_wake_exact s now :
  match next_wake s with
  | None => tick s now = (Nothing, s)
  | Some due => if due <=? now then (tick s now).1 <> Nothing else tick s now = (Nothing, s)
  end.
Proof.
  unfold next_wake, tick, judge, judge_window, abandon.
  destruct (running_item s) as [r|] eqn:Hr; [|done]. cbv zeta.
  destruct (walk r), (moved r); simpl; rewrite ?Hr;
    repeat match goal with |- context [?a <=? ?b] => destruct (N.leb_spec a b) end;
    first [discriminate | reflexivity | lia].
Qed.

(** An item past its deadline leaves, and what its walk read is published
    first: a tick at or after the deadline abandons it for its deadline at
    once, or, while its walk is armed, asks for the walk's publication and
    abandons it for its deadline with the answer, whatever the answer is. *)
Theorem deadline_abandons s r now :
  running_item s = Some r -> deadline_at r <= now ->
  (is_armed (walk r) = false /\ exists a s', tick s now = (Abandon a, s') /\
     reason a = Deadline /\ ab_item a = item r /\ ab_published a = is_published (walk r) /\
     running_item s' = None) \/
  (is_armed (walk r) = true /\ exists s',
     tick s now = (AskShell (Publish (request r) (Some Deadline)), s') /\
     forall got now', exists a s'',
       published s' (request r) got (Some Deadline) now' = (Abandon a, s'') /\
       reason a = Deadline /\ ab_item a = item r /\ ab_published a = got /\
       running_item s'' = None).
Proof.
  intros Hr Hd%N.leb_le. unfold tick, judge. rewrite Hr Hd.
  destruct (is_armed (walk r)) eqn:Ha; [right|left]; (split; [done|]).
  - eexists. split; [done|]. intros got now'.
    unfold published, publication, running_of. simpl. rewrite bool_decide_eq_true_2 //.
    destruct got; simpl; eexists _, _; by split_and!.
  - unfold abandon. rewrite Hr. eexists _, _. by split_and!.
Qed.

(** Nothing read is lost to an abandonment: while a walk is armed, the
    judgements of a tick, of a window learned and of a verdict never abandon
    its item before asking for the walk's publication. *)
Theorem armed_walk_not_abandoned s r q w v now :
  running_item s = Some r -> is_armed (walk r) = true ->
  leaves (tick s now).1 = [] /\ leaves (learned s q w now).1 = [] /\
  leaves (judged s q v).1 = [].
Proof.
  intros Hr Ha.
  assert (forall s' r', running_item s' = Some r' -> is_armed (walk r') = true ->
    leaves (judge s' now).1 = []) as Hj.
  { intros s' r' Hr' Ha'. unfold judge, judge_window. rewrite Hr' Ha'.
    repeat case_match; simplify_eq/=; try done. }
  split_and!; [by eapply Hj| |].
  - unfold learned. destruct (running_of s q) as [r'|] eqn:Hq; [|done].
    apply running_of_Some in Hq as [Hr' _]. case_bool_decide; [done|].
    case_match; [|done]. eapply Hj; [done|]. simpl. congruence.
  - unfold judged. destruct (running_of s q) as [r'|] eqn:Hq; [|done].
    apply running_of_Some in Hq as [Hr' _]. destruct v; [|done].
    rewrite Hr in Hr'. simplify_eq. by rewrite Ha.
Qed.

(** A walk published at its bound stays published, and nothing more of its
    item is applied: whatever is done next, while the item still runs its walk
    is published and its requests are not accepted. *)
Theorem published_is_final s r o out qs s' r' :
  running_item s = Some r -> walk r = Published ->
  allowed s o -> exec s o = (out, qs, s') -> running_item s' = Some r' ->
  walk r' = Published /\ item r' = item r /\ forall q, accepts s' q = false.
Proof.
  intros Hr Hw Hal Hex Hr'.
  assert (forall d s'', decided s d s'' -> running_item s'' = Some r' ->
    walk r' = Published /\ item r' = item r) as Hdec.
  { intros d s'' Hd Hs. destruct d as [| |a]; simpl in Hd.
    - destruct Hd as (_ & _ & H). rewrite Hr Hs in H. destruct_and?. auto.
    - destruct Hd as (_ & _ & H). rewrite Hr Hs in H. destruct_and?. auto.
    - destruct Hd as (? & _ & H & _). congruence. }
  enough (walk r' = Published /\ item r' = item r) as [Hw' Hi].
  { split_and!; [done..|]. intros q. unfold accepts. rewrite Hr' Hw'. by case_bool_decide. }
  destruct o; simpl in *;
    try (match type of Hex with (let '(_, _) := ?x in _) = _ => destruct x as [d s1] eqn:Hd end);
    simplify_eq/=; try congruence;
    try solve [eapply Hdec; [|done]; eauto using learned_decided, walk_returned_decided,
      judge_decided, judged_decided, published_decided, stopped_decided].
  - unfold hand_on in Hd. rewrite Hr in Hd. simplify_eq/=. by simplify_eq/=.
  - eapply (Hdec Nothing); [|done]. apply armed_kept.
  - unfold end_ in Hd. destruct (running_of s q); simplify_eq/=. done.
  - done.
Qed.

End props.

(** ** Witnesses *)

(** A record running item 7, started at 0 with a deadline of 1000, whose walk
    is armed with its bound at 500. *)
Definition sample_q : Request := {| generation := 0; number := 1 |}.
Definition sample_started : InFlight nat := (start new 7%nat 1000 RuleNamed 0).2.
Definition sample_armed : InFlight nat := armed sample_started sample_q 500.
Definition sample_published : InFlight nat :=
  (published (tick sample_armed 600).2 sample_q true None 700).2.

Lemma sample_runs : runs [7%nat] [] [sample_q] sample_started.
Proof.
  apply (runs_op [] [] [] new (OStart 7%nat 1000 RuleNamed 0) [] [sample_q]); [constructor|done|].
  reflexivity.
Qed.

Lemma item_leaves_once_witness :
  let s := (tick sample_started 2000).2 in
  runs [7%nat] [7%nat] [sample_q] s /\ [7%nat] = [7%nat] ++ holds_items s.
Proof.
  intros s. assert (runs [7%nat] [7%nat] [sample_q] s) as H.
  { apply (runs_op [7%nat] [] [sample_q] sample_started (OTick 2000) [7%nat] []);
      [apply sample_runs|done|vm_compute; reflexivity]. }
  split; [exact H|]. apply (item_leaves_once _ _ _ _ H).
Defined.

Lemma stale_request_refused_witness :
  let s := (tick sample_started 2000).2 in
  let s' := (start s 8%nat 1000 RuleNever 3000).2 in
  running_of s' sample_q = None /\ accepts s' sample_q = false /\ (end_ s' sample_q).1 = None.
Proof.
  intros s s'. assert (runs [7%nat] [7%nat] [sample_q] s) as H.
  { apply (runs_op [7%nat] [] [sample_q] sample_started (OTick 2000) [7%nat] []);
      [apply sample_runs|done|vm_compute; reflexivity]. }
  apply (stale_request_refused _ _ _ s s' sample_q H).
  - left.
  - reflexivity.
  - apply (continues_op s (OStart 8%nat 1000 RuleNever 3000) [] [{| generation := 1; number := 2 |}] s');
      [reflexivity|vm_compute; reflexivity|constructor].
  - vm_compute. reflexivity.
Defined.

Lemma deadline_abandons_witness :
  exists r, running_item sample_armed = Some r /\ is_armed (walk r) = true /\
    exists s', tick sample_armed 2000 = (AskShell (Publish (request r) (Some Deadline)), s').
Proof.
  set (r := {| request := sample_q; started := 0; deadline_at := 1000; walk := Armed 500;
               moved := MovedNamed 500000; item := 7%nat |}).
  exists r. split; [vm_compute; reflexivity|]. split; [reflexivity|].
  destruct (deadline_abandons sample_armed r 2000) as [[Hf _]|[_ [s' [Hs' _]]]];
    [vm_compute; reflexivity|vm_compute; discriminate|discriminate Hf|].
  exists s'. exact Hs'.
Defined.

Lemma armed_walk_not_abandoned_witness :
  leaves (judged sample_armed sample_q (Some Hung)).1 = [].
Proof.
  eapply (armed_walk_not_abandoned sample_armed _ sample_q {| Window.handle := 5 |} (Some Hung) 0);
    vm_compute; reflexivity.
Defined.

Lemma published_is_final_witness :
  exists r', running_item (armed sample_published sample_q 900) = Some r' /\
    walk r' = Published.
Proof.
  eexists. split; [vm_compute; reflexivity|].
  eapply (published_is_final sample_published _ (OArmed sample_q 900) [] []
            (armed sample_published sample_q 900)); try (vm_compute; reflexivity); done.
Defined.
