(* ===== verification/ReaderRules.v ===== *)
(** * The rules both readers apply before a read

    [crates/verbatim-reader-rules/src/class.rs] (module [Class]): class names
    normalized as NVDA normalizes them, and the verdict its class lists give a
    window.  [crates/verbatim-reader-rules/src/acceptance.rs] (module
    [Acceptance]): NVDA's test for accepting an event before anything is read
    of it, with the relation to the foreground window of
    [crates/verbatim-core/src/focus_rules.rs].  The window queries of the
    source's trait are a type class: they are the operating system's answers. *)

From S2P Require Import Prelude Text InFlight.

Module Class.

Definition CLASS_MAP : list (string * string) :=
  [("EDIT", "Edit");
   ("TTntEdit.UnicodeClass", "Edit");
   ("TMaskEdit", "Edit");
   ("TTntMemo.UnicodeClass", "Edit");
   ("TRichEdit", "RichEdit20");
   ("TRichViewEdit", "Edit");
   ("TInEdit.UnicodeClass", "Edit");
   ("TInEdit", "Edit");
   ("TEdit", "Edit");
   ("TFilenameEdit", "Edit");
   ("TSpinEdit", "Edit");
   ("ThunderRT6TextBox", "Edit");
   ("TMemo", "Edit");
   ("RICHEDIT", "RichEdit");
   ("TPasswordEdit", "Edit");
   ("THppEdit.UnicodeClass", "Edit");
   ("TUnicodeTextEdit.UnicodeClass", "Edit");
   ("TTextEdit", "Edit");
   ("TPropInspEdit", "Edit");
   ("TFilterbarEdit.UnicodeClass", "Edit");
   ("EditControl", "Edit");
   ("TNavigableTntMemo.UnicodeClass", "Edit");
   ("TNavigableTntEdit.UnicodeClass", "Edit");
   ("TAltEdit.UnicodeClass", "Edit");
   ("TAltEdit", "Edit");
   ("TDefEdit", "Edit");
   ("TRichEditViewer", "RichEdit");
   ("WFMAINRE", "RichEdit20");
   ("RichEdit20A", "RichEdit20");
   ("RichEdit20W", "RichEdit20");
   ("TChatRichEdit", "RichEdit20");
   ("TAccessibleEdit", "Edit");
   ("TskRichEdit.UnicodeClass", "RichEdit20");
   ("RichEdit20WPT", "RichEdit20");
   ("RICHEDIT60W", "RICHEDIT50W");
   ("TChatRichEdit.UnicodeClass", "RichEdit20");
   ("TMyRichEdit", "RichEdit20");
   ("TExRichEdit", "RichEdit20");
   ("RichTextWndClass", "RichEdit20");
   ("TSRichEdit", "RichEdit20");
   ("TRxRichEdit", "RichEdit20");
   ("ScintillaWindowImpl", "Scintilla");
   ("RICHEDIT60W_WLXPRIVATE", "RICHEDIT50W");
   ("TNumEdit", "Edit");
   ("TAccessibleRichEdit", "RichEdit20")].

Definition mapped_class (class : string) : option string :=
  match find (fun '(from, _) => bool_decide (from = class)) CLASS_MAP with
  | Some (_, to) => Some to
  | None => None
  end.

(** The control class inside a Windows Forms class name: [WindowsForms],
    digits, a dot, then the class up to the last [.app.]. *)
Definition windows_forms_class (raw : string) : option string :=
  rest ← strip_prefix "WindowsForms" raw;
  let rest := trim_start_matches is_ascii_digit rest in
  rest ← strip_prefix "." rest;
  stop ← rfind ".app." rest;
  Some (String.substring 0 stop rest).

Definition normalize_class_name (raw : string) : string :=
  match mapped_class raw with
  | Some mapped => mapped
  | None =>
      let unwrapped := match windows_forms_class raw with
                       | Some inner => Some inner
                       | None => strip_prefix "ATL:" raw
                       end in
      match unwrapped with
      | Some inner => default inner (mapped_class inner)
      | None => raw
      end
  end.

Inductive ClassVerdict := Uia | NonUia | Unknown.

Record WindowClasses := { raw : string; normalized : string; root : string }.

Definition new (raw root : string) : WindowClasses :=
  {| raw := raw; normalized := normalize_class_name raw; root := root |}.

Definition GOOD_UIA_CLASSES : list string :=
  ["RAIL_WINDOW";
   "Microsoft.UI.Content.DesktopChildSiteBridge";
   "CASCADIA_HOSTING_WINDOW_CLASS"].

Definition SHELL_ROOT_CLASSES : list string :=
  ["Shell_TrayWnd";
   "Shell_InputSwitchTopLevelWindow";
   "XamlExplorerHostIslandWindow";
   "TopLevelWindowForOverflowXamlIsland"].

Definition BAD_UIA_CLASSES : list string :=
  ["Microsoft.IME.CandidateWindow.View";
   "SysTreeView32";
   "WuDuiListView";
   "ComboBox";
   "msctls_progress32";
   "msctls_trackbar32";
   "Edit";
   "CommonPlacesWrapperWndClass";
   "SysMonthCal32";
   "SUPERGRID";
   "RichEdit";
   "RichEdit20";
   "RICHEDIT50W";
   "Button";
   "FoxitDocWnd";
   "MozillaWindowClass";
   "MozillaDropShadowWindowClass";
   "MozillaDialogClass";
   "MozillaContentWindowClass"].

Definition is_shell (self : WindowClasses) : bool :=
  bool_decide (root self ∈ SHELL_ROOT_CLASSES) && negb (bool_decide (raw self = "Start")).

Definition classify_with (good bad : string -> bool) (classes : WindowClasses) : ClassVerdict :=
  if good (normalized classes) || is_shell classes then Uia
  else if bad (normalized classes) then NonUia
  else Unknown.

Definition class_verdict (classes : WindowClasses) : ClassVerdict :=
  classify_with (fun class => bool_decide (class ∈ GOOD_UIA_CLASSES))
                (fun class => bool_decide (class ∈ BAD_UIA_CLASSES)) classes.

(** ** Properties *)

Lemma starts_with_app p s : starts_with (p +:+ s) p = true.
Proof.
  unfold starts_with. induction p as [|c p IH]; simpl; [done|].
  by rewrite bool_decide_eq_true_2.
Qed.

Lemma strip_prefix_app p s : strip_prefix p (p +:+ s) = Some s.
Proof. induction p as [|c p IH]; simpl; [done|]. by rewrite bool_decide_eq_true_2. Qed.

Lemma trim_start_app f ds c s :
  (forall d, has_char d ds = true -> f d = true) -> f c = false ->
  trim_start_matches f (ds +:+ String c s) = String c s.
Proof.
  intros Hds Hc. induction ds as [|d ds IH]; simpl; [by rewrite Hc|].
  rewrite Hds; [|simpl; by rewrite bool_decide_eq_true_2].
  apply IH. intros d' Hd'. apply Hds. simpl. by rewrite Hd' orb_true_r.
Qed.

(** The last occurrence of [p] in [pre +:+ s] is where [s] starts, when it is
    where [s]'s own last occurrence is. *)
Lemma rfind_app p pre s :
  rfind p s = Some 0%nat -> rfind p (pre +:+ s) = Some (String.length pre).
Proof. intros Hs. induction pre as [|c pre IH]; simpl; [done|]. by rewrite IH. Qed.

Lemma substring_app pre s : String.substring 0 (String.length pre) (pre +:+ s) = pre.
Proof. induction pre as [|c pre IH]; simpl; [by destruct s|]. by rewrite IH. Qed.

(** No class of the map is a wrapped one. *)
Lemma mapped_class_wrapped p rest :
  forallb (fun '(from, _) => negb (starts_with from p)) CLASS_MAP = true ->
  mapped_class (p +:+ rest) = None.
Proof.
  intros Hall. unfold mapped_class. destruct (find _ _) as [[from to]|] eqn:Hf; [|done].
  apply find_Some in Hf as [Hin Heq]. reflect_bools. subst from.
  apply (forallb_elem _ _ _ Hall) in Hin. by rewrite starts_with_app in Hin.
Qed.

(** [raw] wraps a control of class [inner], by Windows Forms or by ATL. *)
Inductive wraps (inner : string) : string -> Prop :=
  | wraps_forms digits suffix :
      (forall d, has_char d digits = true -> is_ascii_digit d = true) ->
      rfind ".app." ("app." +:+ suffix) = None ->
      wraps inner ("WindowsForms" +:+ (digits +:+ ("." +:+ (inner +:+ (".app." +:+ suffix)))))
  | wraps_atl : wraps inner ("ATL:" +:+ inner).

Lemma normalize_wrapped inner raw :
  wraps inner raw -> normalize_class_name raw = default inner (mapped_class inner).
Proof.
  intros Hw. unfold normalize_class_name.
  destruct Hw as [digits suffix Hd Hsuf|].
  - rewrite mapped_class_wrapped; [|vm_compute; reflexivity].
    unfold windows_forms_class. rewrite strip_prefix_app. cbv zeta. cbn [mbind option_bind].
    change ("." +:+ ?x) with (String "." x).
    rewrite trim_start_app; [|done|done].
    change (String "." ?x) with ("." +:+ x). rewrite strip_prefix_app. cbn [mbind option_bind].
    rewrite (rfind_app ".app." inner (".app." +:+ suffix)).
    + cbn [mbind option_bind]. by rewrite substring_app.
    + change (".app." +:+ suffix) with (String "." ("app." +:+ suffix)). cbn [rfind].
      by rewrite Hsuf.
  - rewrite mapped_class_wrapped; [|vm_compute; reflexivity].
    assert (windows_forms_class ("ATL:" +:+ inner) = None) as -> by done.
    by rewrite strip_prefix_app.
Qed.

(** A control wrapped by Windows Forms or ATL is handled as the control it
    is: the class verdict of a wrapped control is the control's own, when the
    control's own class is not itself a wrapped one nor the Start button's. *)
Theorem wrapped_control_verdict inner raw root :
  wraps inner raw -> windows_forms_class inner = None -> strip_prefix "ATL:" inner = None ->
  inner <> "Start" ->
  class_verdict (new raw root) = class_verdict (new inner root).
Proof.
  intros Hw Hf Ha Hs.
  assert (raw <> "Start") as Hraw by (destruct Hw; discriminate).
  assert (normalize_class_name raw = normalize_class_name inner) as Hn.
  { rewrite (normalize_wrapped inner raw Hw). unfold normalize_class_name. rewrite Hf Ha.
    by destruct (mapped_class inner). }
  unfold class_verdict, classify_with, is_shell, new. simpl. rewrite Hn.
  by rewrite (bool_decide_eq_false_2 _ Hraw) (bool_decide_eq_false_2 _ Hs).
Qed.

Lemma wrapped_control_verdict_witness :
  class_verdict (new "WindowsForms10.EDIT.app.0.141b42a_r9_ad1" "#32770") = NonUia /\
  class_verdict (new "WindowsForms10.EDIT.app.0.141b42a_r9_ad1" "#32770") =
    class_verdict (new "EDIT" "#32770").
Proof.
  split; [vm_compute; reflexivity|].
  apply (wrapped_control_verdict "EDIT" "WindowsForms10.EDIT.app.0.141b42a_r9_ad1" "#32770");
    try (vm_compute; reflexivity); [|discriminate].
  apply (wraps_forms "EDIT" "10" "0.141b42a_r9_ad1"); [|vm_compute; reflexivity].
  intros d Hd. simpl in Hd. repeat (case_bool_decide; [by subst d|]). done.
Defined.

(** What NVDA's class lists decide: a window is UIA's exactly when its
    normalized class is on the good list, or it is under a shell root and not
    the Start button; it is MSAA's exactly when its class is on the bad list
    and it is no such shell window, since the two lists share no class; and
    otherwise it is left to the probe. *)
Theorem class_verdict_spec c :
  let shell := root c ∈ SHELL_ROOT_CLASSES /\ raw c <> "Start" in
  (class_verdict c = Uia <-> normalized c ∈ GOOD_UIA_CLASSES \/ shell) /\
  (class_verdict c = NonUia <-> normalized c ∈ BAD_UIA_CLASSES /\ ~ shell) /\
  (class_verdict c = Unknown <->
     normalized c ∉ GOOD_UIA_CLASSES /\ normalized c ∉ BAD_UIA_CLASSES /\ ~ shell).
Proof.
  intros shell.
  assert (forallb (fun x => negb (bool_decide (x ∈ BAD_UIA_CLASSES))) GOOD_UIA_CLASSES = true)
    as Hdisj by (vm_compute; reflexivity).
  assert (normalized c ∈ GOOD_UIA_CLASSES -> normalized c ∉ BAD_UIA_CLASSES) as Hd.
  { intros Hg. apply (forallb_elem _ _ _ Hdisj) in Hg. by reflect_bools. }
  assert (is_shell c = true <-> shell) as Hs.
  { unfold is_shell, shell. rewrite andb_true_iff negb_true_iff bool_decide_eq_true
      bool_decide_eq_false. done. }
  unfold class_verdict, classify_with. destruct (is_shell c) eqn:Hsc.
  - rewrite orb_true_r. assert shell by (by apply Hs). naive_solver.
  - assert (~ shell) by (by intros ?%Hs). rewrite orb_false_r.
    repeat case_bool_decide; naive_solver.
Qed.

End Class.

Module Acceptance.

Inductive EventName :=
  | GainFocus | MenuStart | MenuEnd | SwitchEnd | Show | Alert | ValueChange | StateChange
  | NameChange | DescriptionChange | Selection | Caret | LocationChange | TextChange.

#[export] Instance EventName_eq_dec : EqDecision EventName.
Proof. solve_decision. Defined.

(** The events an application's support asked to have from any window of its
    process, by event, process id and window class. *)
Record RequestedEvents := { requested : list (EventName * N * string) }.

Definition contains (self : RequestedEvents) (event : EventName) (pid : N) (class : string)
    : bool :=
  bool_decide ((event, pid, class) ∈ requested self).

(** The window queries the test makes. *)
Class WindowQueries := {
  class_name : Window -> string;
  process : Window -> N;
  parent : Window -> option Window;
  root_of : Window -> option Window;
  root_owner : Window -> option Window;
  is_child : Window -> Window -> bool;
  is_topmost : Window -> bool;
  desktop : option Window;
  active_window : option Window;
  foreground : option Window;
}.

(** How a window stands to the system's foreground window. *)
Record ForegroundRelation := {
  in_foreground : bool;
  topmost : bool;
  under_active_window : option bool;
}.

Definition related (self : ForegroundRelation) : bool :=
  in_foreground self || topmost self || bool_decide (under_active_window self = Some true).

Section acceptance.
Context `{WindowQueries}.

Definition is_descendant (parent child : Window) : bool :=
  bool_decide (parent = child) || is_child parent child.

(** [o.is_some_and(f)]. *)
Definition is_some_and {A} (f : A -> bool) (o : option A) : bool :=
  match o with Some a => f a | None => false end.

Definition foreground_relation (window : Window) (class : string) : ForegroundRelation :=
  let owner := root_owner window in
  {| in_foreground :=
       is_some_and (fun fg =>
         bool_decide (owner = root_owner fg) || is_descendant fg window
         || is_some_and (is_descendant fg) owner) foreground;
     topmost := is_topmost window || is_some_and is_topmost (root_of window);
     under_active_window :=
       if starts_with class "Windows.UI.Core"
       then Some (is_some_and (fun active => is_descendant active window) active_window)
       else None |}.

Definition SHOW_CLASSES : list string :=
  ["Frame Notification Bar"; "tooltips_class32"; "mscandui21.candidate";
   "mscandui40.candidate"; "MSCandUIWindow_Candidate"; "TTrayAlert"].

(** The rules of [accepts_event] that decide by the event alone: [Some] when
    one does. *)
Definition event_rule (event : EventName) (window : Window) (class : string) : option bool :=
  match event with
  | Show => Some (bool_decide (class ∈ SHOW_CLASSES))
  | Alert =>
      if is_some_and (fun p => bool_decide (class_name p = "ToastChildWindowClass"))
                     (parent window) then Some true else None
  | MenuEnd | SwitchEnd => Some true
  | _ => None
  end.

Definition accepts_event (event : EventName) (window : option Window)
    (req : RequestedEvents) : bool :=
  match window with
  | None => true
  | Some window =>
      let class := class_name window in
      if contains req event (process window) class then true
      else match event_rule event window class with
           | Some answer => answer
           | None =>
               if bool_decide (Some window = desktop) then true
               else related (foreground_relation window class)
           end
  end.

Lemma is_some_and_true {A} (f : A -> bool) o :
  is_some_and f o = true <-> exists a, o = Some a /\ f a = true.
Proof.
  destruct o as [a|]; simpl; [|by split; [|intros (? & ? & ?)]].
  split; [by exists a|]. by intros (? & [= <-] & ?).
Qed.

(** What it is to be related to the foreground window: to share its root
    owner, be in it or be owned from in it; to be topmost, or in a topmost
    window; or to be a UWP window in the active window. *)
Definition foreground_related (window : Window) : Prop :=
  (exists fg, foreground = Some fg /\
     (root_owner window = root_owner fg \/ is_descendant fg window = true \/
      exists owner, root_owner window = Some owner /\ is_descendant fg owner = true)) \/
  (is_topmost window = true \/ exists r, root_of window = Some r /\ is_topmost r = true) \/
  (starts_with (class_name window) "Windows.UI.Core" = true /\
   exists active, active_window = Some active /\ is_descendant active window = true).

Lemma related_spec window :
  related (foreground_relation window (class_name window)) = true <->
  foreground_related window.
Proof.
  unfold related, foreground_relation, foreground_related. simpl.
  generalize (class_name window) as class. intros class.
  rewrite !orb_true_iff (is_some_and_true _ foreground) (is_some_and_true is_topmost)
    bool_decide_eq_true.
  assert ((if starts_with class "Windows.UI.Core"
    then Some (is_some_and (fun active => is_descendant active window) active_window)
    else None) = Some true <->
    starts_with class "Windows.UI.Core" = true /\
    exists active, active_window = Some active /\ is_descendant active window = true) as ->.
  { case_match; [|by split; [|intros [? _]]]. rewrite -is_some_and_true.
    split; [by intros [= ->]|by intros [_ ->]]. }
  assert (forall P Q Q' R : Prop, (Q <-> Q') -> ((Q \/ P) \/ R <-> Q' \/ P \/ R)) as Hor
    by tauto.
  apply Hor. split; intros (fg & Hfg & Hany); exists fg; (split; [done|]).
  - rewrite 2!orb_true_iff bool_decide_eq_true is_some_and_true in Hany. tauto.
  - rewrite 2!orb_true_iff bool_decide_eq_true is_some_and_true. tauto.
Qed.

(** Which events are accepted before a read: an event with no window
    always; any other exactly when its application asked for it; or, shown,
    its class is one of NVDA's; or, not shown, it is a menu's or the
    switcher's end, a toast's alert, the desktop window's, or its window is
    related to the foreground window: in it, topmost, or a UWP window under
    the active window. *)
Theorem accepts_event_spec event window req :
  accepts_event event None req = true /\
  (accepts_event event (Some window) req = true <->
  (event, process window, class_name window) ∈ requested req \/
  (event = Show /\ class_name window ∈ SHOW_CLASSES) \/
  (event <> Show /\
   (event = MenuEnd \/ event = SwitchEnd \/
    (event = Alert /\ exists p, parent window = Some p /\
                               class_name p = "ToastChildWindowClass") \/
    desktop = Some window \/ foreground_related window))).
Proof.
  split; [done|]. rewrite -related_spec. unfold accepts_event, contains. case_bool_decide as Hreq; [tauto|].
  assert (Hdesk : (if bool_decide (Some window = desktop) then true
     else related (foreground_relation window (class_name window))) = true <->
     desktop = Some window \/ related (foreground_relation window (class_name window)) = true).
  { case_bool_decide; naive_solver. }
  assert (Htoast : is_some_and (fun p => bool_decide (class_name p = "ToastChildWindowClass"))
      (parent window) = true <->
      exists p, parent window = Some p /\ class_name p = "ToastChildWindowClass").
  { rewrite is_some_and_true. by setoid_rewrite bool_decide_eq_true. }
  destruct (decide (event = Show)) as [->|Hs].
  { simpl. rewrite bool_decide_eq_true. tauto. }
  destruct (decide (event = MenuEnd)) as [->|Hm]; [simpl; tauto|].
  destruct (decide (event = SwitchEnd)) as [->|Hw]; [simpl; tauto|].
  destruct (decide (event = Alert)) as [->|Ha].
  { simpl. destruct (is_some_and _ (parent window)); rewrite ?Hdesk -Htoast; intuition congruence. }
  assert (event_rule event window (class_name window) = None) as -> by (by destruct event).
  rewrite Hdesk. tauto.
Qed.

End acceptance.

(** An event whose window is in the foreground is never dropped: of a
    window that is the foreground window, or inside it, or owned from inside
    it, every event but one of an object shown is accepted. *)
Theorem foreground_event_accepted `{WindowQueries} event window fg req :
  foreground = Some fg -> event <> Show ->
  is_descendant fg window = true \/
  (exists owner, root_owner window = Some owner /\ is_descendant fg owner = true) ->
  accepts_event event (Some window) req = true.
Proof.
  intros Hfg Hev Hin. unfold accepts_event. case_match; [done|].
  assert (related (foreground_relation window (class_name window)) = true) as Hrel.
  { apply related_spec. left. exists fg. tauto. }
  rewrite Hrel. destruct event, (bool_decide (Some window = desktop)); try done;
    simpl; by destruct (is_some_and _ (parent window)).
Qed.

(** A foreground window 1 with a child 2. *)
Definition sample_queries : WindowQueries := {|
  class_name := fun _ => "#32770"; process := fun _ => 1;
  parent := fun w => if bool_decide (Window.handle w = 2%Z)
                     then Some {| Window.handle := 1 |} else None;
  root_of := fun _ => Some {| Window.handle := 1 |};
  root_owner := fun _ => Some {| Window.handle := 1 |};
  is_child := fun p c => bool_decide (Window.handle p = 1%Z /\ Window.handle c = 2%Z);
  is_topmost := fun _ => false; desktop := None; active_window := None;
  foreground := Some {| Window.handle := 1 |} |}.

Lemma foreground_event_accepted_witness :
  @accepts_event sample_queries GainFocus (Some {| Window.handle := 2 |})
    {| requested := [] |} = true.
Proof.
  apply (@foreground_event_accepted sample_queries GainFocus {| Window.handle := 2 |}
           {| Window.handle := 1 |} {| requested := [] |}); [reflexivity|discriminate|].
  left. vm_compute. reflexivity.
Defined.

End Acceptance.
