(* ===== verification/Tree.v ===== *)
(** The nodes of the accessibility tree: verbatim-model's [tree.rs] and the
    node identities of its [lib.rs]. Roles and states are the source's
    enumerations; a set of states is the [u32] of bits the source keeps it in,
    with its operations written on the bits, and the theorems show that the
    bits implement finite sets of states. *)

From S2P Require Import Prelude.

(** ** Identities *)

Record OutpostId := { outpost_number : N }.
Definition UNASSIGNED : OutpostId := {| outpost_number := 0 |}.

Record NodeId := { outpost : OutpostId; number : N }.

Record WindowHandle := { raw_handle : N }.

#[export] Instance OutpostId_eq_dec : EqDecision OutpostId.
Proof. solve_decision. Defined.
#[export] Instance NodeId_eq_dec : EqDecision NodeId.
Proof. solve_decision. Defined.
#[export] Instance WindowHandle_eq_dec : EqDecision WindowHandle.
Proof. solve_decision. Defined.

Module NodeIds.

Definition new (number : N) : NodeId := {| outpost := UNASSIGNED; number := number |}.

Definition in_outpost (outpost : OutpostId) (number : N) : NodeId :=
  {| outpost := outpost; number := number |}.

Definition with_outpost (self : NodeId) (outpost : OutpostId) : NodeId :=
  {| outpost := outpost; number := number self |}.

Definition unstamped (self : NodeId) : NodeId := new (number self).

End NodeIds.

Inductive Backend := Uia | Msaa.

#[export] Instance Backend_eq_dec : EqDecision Backend.
Proof. solve_decision. Defined.

(** ** Roles and states *)

Inductive Role :=
  | RoleWindow | RoleDialog | RolePane | RolePropertyPage | RoleGroup | RoleMenuBar
  | RoleMenu | RoleMenuItem | RoleButton | RoleToggleButton | RoleCheckBox
  | RoleRadioButton | RoleComboBox | RoleList | RoleListItem | RoleSlider | RoleSpinButton
  | RoleTabControl | RoleTab | RoleStaticText | RoleEditableText | RoleLink | RoleToolBar
  | RoleStatusBar | RoleTree | RoleTreeItem | RoleSplitButton | RoleDropDownButton
  | RoleMenuButton | RoleGraphic | RoleProgressBar | RoleScrollBar | RoleTable | RoleRow
  | RoleCell | RoleColumnHeader | RoleRowHeader | RoleHeader | RoleHeaderItem
  | RoleDataGrid | RoleDataItem | RoleCalendar | RoleToolTip | RoleTitleBar | RoleSeparator
  | RoleDocument | RoleApplication | RoleAlert | RoleHotkeyField | RoleThumb | RoleTerminal
  | RoleIpAddress | RoleAnimation | RoleClock | RoleDropList | RoleDial | RoleGrip
  | RoleIndicator | RoleBorder | RoleWhitespace | RoleMath | RoleChart | RoleDiagram
  | RoleColumn | RoleCharacter | RoleSound | RoleTreeViewButton | RoleDropDownButtonGrid
  | RoleHelpBalloon | RoleBusyIndicator | RoleUnknown.

#[export] Instance Role_eq_dec : EqDecision Role.
Proof. solve_decision. Defined.

Definition Role_ALL : list Role := [
  RoleWindow; RoleDialog; RolePane; RolePropertyPage; RoleGroup; RoleMenuBar; RoleMenu;
  RoleMenuItem; RoleButton; RoleToggleButton; RoleCheckBox; RoleRadioButton; RoleComboBox;
  RoleList; RoleListItem; RoleSlider; RoleSpinButton; RoleTabControl; RoleTab;
  RoleStaticText; RoleEditableText; RoleLink; RoleToolBar; RoleStatusBar; RoleTree;
  RoleTreeItem; RoleSplitButton; RoleDropDownButton; RoleMenuButton; RoleGraphic;
  RoleProgressBar; RoleScrollBar; RoleTable; RoleRow; RoleCell; RoleColumnHeader;
  RoleRowHeader; RoleHeader; RoleHeaderItem; RoleDataGrid; RoleDataItem; RoleCalendar;
  RoleToolTip; RoleTitleBar; RoleSeparator; RoleDocument; RoleApplication; RoleAlert;
  RoleHotkeyField; RoleThumb; RoleTerminal; RoleIpAddress; RoleAnimation; RoleClock;
  RoleDropList; RoleDial; RoleGrip; RoleIndicator; RoleBorder; RoleWhitespace; RoleMath;
  RoleChart; RoleDiagram; RoleColumn; RoleCharacter; RoleSound; RoleTreeViewButton;
  RoleDropDownButtonGrid; RoleHelpBalloon; RoleBusyIndicator; RoleUnknown].

Inductive State :=
  | Focused | Focusable | Selected | Selectable | Checked | Mixed | Disabled | ReadOnly
  | Expanded | Collapsed | Pressed | HasPopup | Offscreen | Busy | Protected | Required
  | InvalidEntry | Checkable | Multiline | Visited | Linked | Invisible.

#[export] Instance State_eq_dec : EqDecision State.
Proof. solve_decision. Defined.

Definition State_ALL : list State := [
  Focused; Focusable; Selected; Selectable; Checked; Mixed; Disabled; ReadOnly; Expanded;
  Collapsed; Pressed; HasPopup; Offscreen; Busy; Protected; Required; InvalidEntry;
  Checkable; Multiline; Visited; Linked; Invisible].

Definition index (self : State) : N :=
  match self with
  | Focused => 0 | Focusable => 1 | Selected => 2 | Selectable => 3 | Checked => 4
  | Mixed => 5 | Disabled => 6 | ReadOnly => 7 | Expanded => 8 | Collapsed => 9
  | Pressed => 10 | HasPopup => 11 | Offscreen => 12 | Busy => 13 | Protected => 14
  | Required => 15 | InvalidEntry => 16 | Checkable => 17 | Multiline => 18 | Visited => 19
  | Linked => 20 | Invisible => 21
  end.

Definition bit (self : State) : N := N.shiftl 1 (index self).

(** ** Sets of states, as the bits of a [u32] *)

Module StateSet.

Record t := { bits : N }.

#[export] Instance t_eq_dec : EqDecision t.
Proof. solve_decision. Defined.

Definition new : t := {| bits := 0 |}.

Definition contains (self : t) (state : State) : bool :=
  negb (N.land (bits self) (bit state) =? 0).

Definition insert (self : t) (state : State) : t :=
  {| bits := N.lor (bits self) (bit state) |}.

Definition remove (self : t) (state : State) : t :=
  {| bits := N.land (bits self) (N.lnot (bit state) 32) |}.

(** [with] of the source. *)
Definition with_ (self : t) (state : State) : t := insert self state.

Definition is_empty (self : t) : bool := bits self =? 0.

Definition iter (self : t) : list State :=
  List.filter (contains self) State_ALL.

Definition from_iter (states : list State) : t := fold_left insert states new.

End StateSet.

(** ** Nodes *)

Record Rect := { left : Z; top : Z; width : Z; height : Z }.

Record NodeDetails := {
  description : option string;
  keyboard_shortcut : option string;
  position_in_set : option N;
  set_size : option N;
  level : option N;
  rect : option Rect;
  top_level_client : bool;
  class_name : option string;
  row : option N;
  column : option N;
  parent_automation_id : option string;
  details_window : option WindowHandle;
}.

Definition NodeDetails_default : NodeDetails := {|
  description := None; keyboard_shortcut := None; position_in_set := None;
  set_size := None; level := None; rect := None; top_level_client := false;
  class_name := None; row := None; column := None; parent_automation_id := None;
  details_window := None |}.

Record NodeSnapshot := {
  id : NodeId;
  backend : Backend;
  role : Role;
  name : option string;
  value : option string;
  states : StateSet.t;
  details : NodeDetails;
}.

Definition assign_outpost (self : NodeSnapshot) (outpost : OutpostId) : NodeSnapshot := {|
  id := NodeIds.with_outpost (id self) outpost; backend := backend self;
  role := role self; name := name self; value := value self; states := states self;
  details := details self |}.

Record ObjectKey := { key_node : NodeId; key_window : option WindowHandle }.

Definition of_node (node : NodeSnapshot) : ObjectKey :=
  {| key_node := id node; key_window := details_window (details node) |}.

Definition of_id (id : NodeId) : ObjectKey := {| key_node := id; key_window := None |}.

Definition is_same_object (self other : ObjectKey) : bool :=
  bool_decide (key_node self = key_node other) ||
  match key_window self, key_window other with
  | Some one, Some other => bool_decide (one = other)
  | _, _ => false
  end.

Inductive TreeNode := Tree { snapshot : NodeSnapshot; children : list TreeNode }.

Fixpoint assign_tree (self : TreeNode) (outpost : OutpostId) : TreeNode :=
  Tree (assign_outpost (snapshot self) outpost)
       (map (fun child => assign_tree child outpost) (children self)).

(** ** The bits are finite sets of states *)

Section state_bits.
Implicit Types (s : StateSet.t) (a b : State).

Lemma State_ALL_complete a : a ∈ State_ALL.
Proof.
  assert (bool_decide (a ∈ State_ALL) = true) as H by (destruct a; vm_compute; reflexivity).
  by apply bool_decide_eq_true in H.
Qed.

Lemma index_inj a b : index a = index b -> a = b.
Proof. destruct a, b; done. Qed.

Lemma index_bound a : index a < 22.
Proof. destruct a; done. Qed.

Lemma bit_testbit a n : N.testbit (bit a) n = (index a =? n).
Proof. unfold bit. rewrite N.shiftl_1_l. apply N.pow2_bits_eqb. Qed.

Lemma contains_testbit s a : StateSet.contains s a = N.testbit (StateSet.bits s) (index a).
Proof.
  unfold StateSet.contains. destruct (N.testbit (StateSet.bits s) (index a)) eqn:Ht.
  - apply negb_true_iff, N.eqb_neq. intros H0.
    assert (N.testbit (N.land (StateSet.bits s) (bit a)) (index a) = false) as Hf
      by (by rewrite H0 N.bits_0).
    by rewrite N.land_spec Ht bit_testbit N.eqb_refl in Hf.
  - apply negb_false_iff, N.eqb_eq, N.bits_inj_0. intros n.
    rewrite N.land_spec bit_testbit. destruct (N.eqb_spec (index a) n) as [<-|]; [by rewrite Ht|].
    apply andb_false_r.
Qed.

Lemma index_eqb a b : (index a =? index b) = bool_decide (a = b).
Proof.
  case_bool_decide as H; [subst; apply N.eqb_refl|].
  apply N.eqb_neq. by intros ?%index_inj.
Qed.

Lemma insert_contains s a b :
  StateSet.contains (StateSet.insert s a) b = bool_decide (a = b) || StateSet.contains s b.
Proof.
  rewrite !contains_testbit. simpl. by rewrite N.lor_spec bit_testbit index_eqb orb_comm.
Qed.

Lemma remove_contains s a b :
  StateSet.contains (StateSet.remove s a) b =
    negb (bool_decide (a = b)) && StateSet.contains s b.
Proof.
  rewrite !contains_testbit. simpl. rewrite N.land_spec N.lnot_spec_low.
  - by rewrite bit_testbit index_eqb andb_comm.
  - pose proof (index_bound b). lia.
Qed.

(** The sets Verbatim makes: no bit above the last state's. *)
Definition well_formed s : Prop := StateSet.bits s < 2 ^ 22.

Lemma well_formed_testbit s n : well_formed s -> 22 <= n -> N.testbit (StateSet.bits s) n = false.
Proof.
  intros Hw Hn. destruct (N.eq_dec (StateSet.bits s) 0) as [->|H0]; [apply N.bits_0|].
  apply N.bits_above_log2. apply N.log2_lt_pow2 in Hw; lia.
Qed.

Lemma well_formed_bits s :
  (forall n, 22 <= n -> N.testbit (StateSet.bits s) n = false) -> well_formed s.
Proof.
  intros H. unfold well_formed. destruct (N.lt_ge_cases (StateSet.bits s) (2 ^ 22)) as [|Hge]; [done|].
  pose proof (N.log2_le_mono _ _ Hge) as Hl. rewrite N.log2_pow2 in Hl; [|lia].
  pose proof (N.bit_log2 (StateSet.bits s) ltac:(lia)) as Hb. by rewrite (H _ Hl) in Hb.
Qed.

Lemma well_formed_new : well_formed StateSet.new.
Proof. done. Qed.

Lemma well_formed_insert s a : well_formed s -> well_formed (StateSet.insert s a).
Proof.
  intros Hw. apply well_formed_bits. intros n Hn. simpl.
  rewrite N.lor_spec bit_testbit (well_formed_testbit s n Hw Hn).
  apply N.eqb_neq. pose proof (index_bound a). lia.
Qed.

Lemma well_formed_remove s a : well_formed s -> well_formed (StateSet.remove s a).
Proof.
  intros Hw. apply well_formed_bits. intros n Hn. simpl.
  by rewrite N.land_spec (well_formed_testbit s n Hw Hn).
Qed.

#[local] Hint Resolve well_formed_new well_formed_insert well_formed_remove : verbatim.

(** Every bit below 22 is a state's. *)
Lemma index_onto n : n < 22 -> exists a, index a = n.
Proof.
  intros Hn.
  assert (existsb (fun a => index a =? n) State_ALL = true) as Hex.
  { apply (forallb_elem (fun n => existsb (fun a => index a =? n) State_ALL)
             (N.of_nat <$> seq 0 22)); [vm_compute; reflexivity|].
    apply list_elem_of_fmap. exists (N.to_nat n). split; [lia|]. apply elem_of_seq. lia. }
  apply existsb_exists in Hex as (a & _ & Ha%N.eqb_eq). by exists a.
Qed.

(** Two sets with the same states are the same bits. *)
Lemma state_set_ext s s' :
  well_formed s -> well_formed s' ->
  (forall a, StateSet.contains s a = StateSet.contains s' a) -> s = s'.
Proof.
  intros Hs Hs' Heq. destruct s as [x], s' as [y]. f_equal. apply N.bits_inj. intros n.
  destruct (N.lt_ge_cases n 22) as [Hn|Hn].
  - destruct (index_onto n Hn) as [a <-]. specialize (Heq a). by rewrite !contains_testbit in Heq.
  - apply (well_formed_testbit _ n) in Hs, Hs'; [|done..]. simpl in *. congruence.
Qed.

Lemma fold_insert_spec states s :
  well_formed s ->
  well_formed (fold_left StateSet.insert states s) /\
  forall b, StateSet.contains (fold_left StateSet.insert states s) b =
            bool_decide (b ∈ states) || StateSet.contains s b.
Proof.
  revert s. induction states as [|a states IH]; intros s Hs; simpl; [done|].
  destruct (IH (StateSet.insert s a)) as [Hw Hc]; [auto with verbatim|].
  split; [done|]. intros b. rewrite Hc insert_contains orb_assoc. f_equal.
  apply eq_bool_prop_intro. rewrite !Is_true_true orb_true_iff !bool_decide_eq_true elem_of_cons.
  intuition congruence.
Qed.

Lemma from_iter_spec states :
  well_formed (StateSet.from_iter states) /\
  forall b, StateSet.contains (StateSet.from_iter states) b = bool_decide (b ∈ states).
Proof.
  destruct (fold_insert_spec states StateSet.new well_formed_new) as [Hw Hc].
  split; [done|]. intros b. unfold StateSet.from_iter. rewrite Hc.
  by rewrite contains_testbit N.bits_0 orb_false_r.
Qed.

Lemma elem_of_iter s a : a ∈ StateSet.iter s <-> StateSet.contains s a = true.
Proof.
  unfold StateSet.iter. rewrite !list_elem_of_In filter_In -list_elem_of_In.
  split; [by intros [_ ?]|]. intros ?. split; [apply State_ALL_complete|done].
Qed.

End state_bits.

#[export] Hint Resolve well_formed_new well_formed_insert well_formed_remove : verbatim.

(** A set of states kept in the bits of a [u32] is a finite set: nothing
    is in the empty set, [insert] and [with] add exactly their state and
    [remove] takes exactly it away, both keep the bits within those of the
    states, and a set is [is_empty] exactly when it contains nothing. *)
Theorem state_set_is_a_set s a b :
  well_formed s ->
  (well_formed StateSet.new /\ StateSet.contains StateSet.new b = false) /\
  (well_formed (StateSet.insert s a) /\
   StateSet.contains (StateSet.insert s a) b = bool_decide (a = b) || StateSet.contains s b) /\
  (well_formed (StateSet.remove s a) /\
   StateSet.contains (StateSet.remove s a) b =
     negb (bool_decide (a = b)) && StateSet.contains s b) /\
  (StateSet.is_empty s = true <-> forall c, StateSet.contains s c = false).
Proof.
  intros Hw. split_and!; auto with verbatim; [apply insert_contains|apply remove_contains|].
  unfold StateSet.is_empty. rewrite N.eqb_eq. split.
  - intros H0 c. by rewrite contains_testbit H0 N.bits_0.
  - intros Hc. enough (s = StateSet.new) as -> by done.
    apply state_set_ext; auto with verbatim.
Qed.

Lemma state_set_is_a_set_witness :
  let s := StateSet.with_ (StateSet.with_ StateSet.new Focused) Invisible in
  StateSet.contains (StateSet.remove s Focused) Focused = false /\
  StateSet.contains (StateSet.remove s Focused) Invisible = true.
Proof.
  intros s. assert (well_formed s) as Hw by (vm_compute; reflexivity).
  split.
  - by rewrite (proj2 (proj1 (proj2 (proj2 (state_set_is_a_set s Focused Focused Hw))))).
  - by rewrite (proj2 (proj1 (proj2 (proj2 (state_set_is_a_set s Focused Invisible Hw))))).
Defined.

(** Collecting states and listing them are inverse: a set's listing
    collects into the set itself; what is collected from a list of states
    lists each of them once, in declaration order, whatever order and however
    often they were given. *)
Theorem state_set_roundtrip s l :
  well_formed s ->
  StateSet.from_iter (StateSet.iter s) = s /\
  StateSet.iter (StateSet.from_iter l) = List.filter (fun a => bool_decide (a ∈ l)) State_ALL /\
  NoDup (StateSet.iter s).
Proof.
  intros Hw. destruct (from_iter_spec (StateSet.iter s)) as [Hw' Hc].
  split_and!.
  - apply state_set_ext; [done..|]. intros a. rewrite Hc.
    apply eq_bool_prop_intro. rewrite !Is_true_true bool_decide_eq_true. apply elem_of_iter.
  - unfold StateSet.iter. apply filter_ext. apply from_iter_spec.
  - apply NoDup_ListNoDup, List.NoDup_filter, NoDup_ListNoDup.
    apply (bool_decide_unpack (NoDup State_ALL)). vm_compute. exact I.
Qed.

Lemma state_set_roundtrip_witness :
  StateSet.iter (StateSet.from_iter [Checked; Focused; Checked]) = [Focused; Checked] /\
  StateSet.from_iter (StateSet.iter (StateSet.from_iter [Checked; Focused; Checked])) =
    StateSet.from_iter [Checked; Focused; Checked].
Proof.
  destruct (state_set_roundtrip (StateSet.from_iter [Checked; Focused; Checked])
              [Checked; Focused; Checked]) as (H1 & H2 & _); [vm_compute; reflexivity|].
  split; [rewrite H2; reflexivity|exact H1].
Defined.

(** ** Stamping a tree *)

(** The node ids of a tree, in tree order. *)
Fixpoint ids (t : TreeNode) : list NodeId :=
  id (snapshot t) :: concat (map ids (children t)).

Lemma TreeNode_strong_ind (P : TreeNode -> Prop) :
  (forall s c, Forall P c -> P (Tree s c)) -> forall t, P t.
Proof.
  intros H. fix IH 1. intros [s c]. apply H. induction c as [|t c IHc]; [constructor|].
  constructor; [apply IH|exact IHc].
Qed.

(** Stamping a tree an outpost sent stamps every node of it and renames
    none: each id keeps its number, in tree order, and has the outpost of the
    pipe the message arrived on. *)
Theorem assign_tree_ids t o :
  ids (assign_tree t o) = map (fun i => NodeIds.in_outpost o (number i)) (ids t).
Proof.
  induction t as [s c IH] using TreeNode_strong_ind. simpl. f_equal.
  rewrite concat_map !map_map. f_equal. apply map_ext_Forall. exact IH.
Qed.
