(* ===== verification/TextModel.v ===== *)
(** Text and terminals as the model names them: verbatim-model's [text.rs],
    [terminal.rs], [shell.rs] and [limits.rs]. Positions and anchors, chunks,
    carets and selections, the operations Core asks of a text and their
    replies, the packed text of a terminal with the round trip of its padding,
    and the limits both sides share. *)

From S2P Require Import Prelude Tree.

(** ** Limits *)

Module Limits.

Definition from_secs (s : N) : Duration.t := s * 1000000000.
Definition duration_add (a b : Duration.t) : Duration.t := N.min Duration.MAX (a + b).

Definition UIA_TRANSACTION_TIMEOUT : Duration.t := from_secs 10.
Definition MARGIN : Duration.t := from_secs 1.
Definition HANDLING_DEADLINE : Duration.t := duration_add UIA_TRANSACTION_TIMEOUT MARGIN.
Definition SAME_WINDOW_BOUND : Duration.t := from_secs 2.
Definition BOUNDED_WALK_DEADLINE : Duration.t := duration_add HANDLING_DEADLINE SAME_WINDOW_BOUND.

End Limits.

(** ** Positions, units and chunks *)

Record TextAnchor := { anchor_number : N }.
Record TextPosition := { anchor : TextAnchor; pos_offset : N }.

Definition position_at (a : TextAnchor) : TextPosition := {| anchor := a; pos_offset := 0 |}.

Inductive TextPoint :=
  | PointCaret | PointSelectionStart | PointSelectionEnd | PointStart | PointEnd
  | PointAt (position : TextPosition).

Inductive TextUnit :=
  | UnitCharacter | UnitWord | UnitLine | UnitSentence | UnitParagraph | UnitPage | UnitDocument.

Record LanguageRun := { run_start : N; run_end : N; language : string }.

Inductive LineStyle :=
  | LineNone | LineSingle | LineWordsOnly | LineDouble | LineDotted | LineDashed | LineDotDash
  | LineDotDotDash | LineWavy | LineThick | LineDoubleWavy | LineThickWavy | LineLongDash
  | LineThickDashed | LineThickDotDash | LineThickDotDotDash | LineThickDotted
  | LineThickLongDash | LineOther.

Definition is_drawn (self : LineStyle) : bool :=
  match self with LineNone => false | _ => true end.

Inductive BulletStyle :=
  | BulletNone | BulletHollowRound | BulletFilledRound | BulletHollowSquare
  | BulletFilledSquare | BulletDash | BulletOther.

Record TextAttributes := {
  spelling_error : bool;
  grammar_error : bool;
  font_name : option string;
  font_size : option string;
  color : option string;
  bold : option bool;
  italic : option bool;
  underline : option bool;
  underline_style : option LineStyle;
  strikethrough : option LineStyle;
  background_color : option string;
  bullet : option BulletStyle;
  link : bool;
}.

Record FormatRun := { format_start : N; format_end : N; attributes : TextAttributes }.

Record TextChunk := {
  chunk_unit : TextUnit;
  chunk_text : string;
  chunk_start : TextAnchor;
  chunk_offset : N;
  languages : list LanguageRun;
  chunk_first : bool;
  chunk_last : bool;
  chunk_truncated : bool;
  formats : list FormatRun;
}.

(** [TextChunk::language_at]: the offset must fit the [u32] the runs are in. *)
Definition language_at (self : TextChunk) (offset : N) : option string :=
  option_map language
    (Prelude.find (fun run => (offset <=? U32_MAX) && (run_start run <=? offset) &&
                      (offset <? run_end run)) (languages self)).

Record Selection := { selection_start : TextPosition; selection_end : TextPosition }.

Record SelectionChange := { selected : bool; selected_text : string; characters_selected : N }.

Record CaretReport := {
  line : TextChunk;
  report_selection : option Selection;
  selection_line : option TextChunk;
}.

Inductive FocusText :=
  | FocusCaret (caret : CaretReport) (selected_text : option string)
  | FocusNoText
  | FocusNotRead.

Record CaretWatch := {
  since : option TextPosition;
  pressed_at_ms : N;
  watch_unit : TextUnit;
  compare_with : option string;
  landing : bool;
  deletes : bool;
}.

Record CaretReply := {
  moved : bool;
  reply_caret : CaretReport;
  read_at_ms : N;
  reply_unit : option TextChunk;
  reply_selection_changes : list SelectionChange;
  reply_content_changed : bool;
  reply_new_selection : option SelectionChange;
  reply_same_line : option bool;
  removed : option string;
}.

Record TextMovement := { movement_unit : TextUnit; movement_count : Z }.
Record TextRead := { read_at : TextPoint; read_movement : option TextMovement;
                     read_unit : TextUnit }.
Record TextReadAhead := { ahead_at : TextPoint; ahead_movement : option TextMovement;
                          ahead_unit : TextUnit; ahead_count : N }.
Record TextThrough := { through_start : TextPoint; through_end : TextPoint }.

(** ** Terminals *)

(** A line of text as the list of its Unicode scalar values. *)
Definition Chars : Set := list N.

Record TerminalText := { packed : Chars; lengths : list (N * N) }.

Record TerminalColourRun := { colour_column : N; colour_length : N; foreground : N;
                              background : N }.
Record TerminalMatch := { match_above : Z; match_text : string }.

Inductive TerminalScope := ScopeFresh | ScopeWhole | ScopeHistoryBlock (height : N).

Record TerminalSnapshot := {
  terminal_text : TerminalText;
  terminal_screen : TerminalText;
  from_start : bool;
  shrank : bool;
  at_document_start : bool;
  alternate : bool;
  first_row : TerminalText;
  caret_rows_to_end : N;
  caret_line : TerminalText;
  caret_column : N;
  above : N;
  started_ms : N;
  ended_ms : N;
  waited : bool;
  terminal_read : N;
  colours : option (list (list TerminalColourRun));
  terminal_caret : option CaretReport;
}.

(** ** Operations and replies *)

Inductive TextOp :=
  | AwaitCaret (watch : CaretWatch)
  | ReadCaret
  | Read (read : TextRead)
  | ReadRange (start_ end_ : TextPoint) (through : option TextThrough)
  | Select (start_ end_ : TextPoint) (through : option TextThrough)
  | MoveCaret (to : TextPoint)
  | Location (at_ : TextPoint)
  | ReadAhead (ahead : TextReadAhead)
  | TerminalHold
  | TerminalRead (hold : bool)
  | TerminalCancel
  | TerminalReadNow (scope : TerminalScope)
  | TerminalHistory (above_ : N) (whole : bool)
  | TerminalFind (needle : string) (from_ : Z) (rows : N)
  | TerminalColours (from_ms until_ms : N)
  | TerminalShape (height width : N).

Inductive TextReply :=
  | ReplyCaret (reply : CaretReply)
  | ReplyRead (moved : Z) (chunk : TextChunk)
  | ReplyChunks (moved : Z) (chunks : list TextChunk)
  | ReplyRange (text : string) (truncated : bool)
  | ReplyDone
  | ReplySelected (changes : list SelectionChange)
  | ReplyTerminalSnapshot (snapshot : TerminalSnapshot)
  | ReplyTerminalUnchanged
  | ReplyTerminalHistory (text : string) (above_ read : N)
  | ReplyTerminalFound (matches_ : list TerminalMatch) (read : N)
  | ReplyLocation (x y : Z)
  | ReplyOffsetLocation (offset length_ : N) (point : option (Z * Z))
  | ReplyUnsupportedUnit (unit_ : TextUnit)
  | ReplyUnsupported
  | ReplyNoText
  | ReplyAnchorLost
  | ReplyGone
  | ReplyUnanswered
  | ReplyWatchEnded.

(** ** The shell's items *)

Inductive ShellItemKind := SystemTray | Taskbar.
Record ShellItem := { item_name : string; item_runtime_id : list Z }.
Record ShellCandidate := { candidate : ShellItem; offscreen : bool; candidate_rect : option Rect }.
Record ShellCandidates := { candidates : list ShellCandidate; complete : bool }.

(** ** The padding of a terminal's lines *)

Module Terminal.

Definition CR : N := 13.
Definition LF : N := 10.
Definition SPACE : N := 32.

(** [text.split("\r\n")]: never empty. *)
Fixpoint split_lines (text : Chars) : list Chars :=
  match text with
  | [] => [[]]
  | c :: rest =>
      match rest with
      | d :: rest' =>
          if (c =? CR) && (d =? LF) then [] :: split_lines rest'
          else match split_lines rest with
               | [] => [[c]]
               | l :: ls => (c :: l) :: ls
               end
      | [] => [[c]]
      end
  end.

(** The lines joined by ["\r\n"], as the source's loops push them. *)
Fixpoint join_lines (ls : list Chars) : Chars :=
  match ls with
  | [] => []
  | [l] => l
  | l :: rest => l ++ [CR; LF] ++ join_lines rest
  end.

(** [line.trim_end_matches(' ')]. *)
Fixpoint trim_end (line : Chars) : Chars :=
  match line with
  | [] => []
  | c :: rest =>
      match trim_end rest with
      | [] => if c =? SPACE then [] else [c]
      | trimmed => c :: trimmed
      end
  end.

(** [characters]: one for each scalar value, by bytes or by [chars()] alike. *)
Definition characters (line : Chars) : N := N.of_nat (List.length line).

(** One more line of the given length in the run-length list, newest last. *)
Fixpoint count_length (lengths : list (N * N)) (length : N) : list (N * N) :=
  match lengths with
  | [] => [(1, length)]
  | [(count, last)] =>
      if last =? length then [(count +|32| 1, last)] else [(count, last); (1, length)]
  | run :: rest => run :: count_length rest length
  end.

Definition unpadded (padded : Chars) : TerminalText :=
  let ls := split_lines padded in
  {| packed := join_lines (map trim_end ls);
     lengths := fold_left (fun lengths line => count_length lengths (N.min U32_MAX (characters line)))
                  ls [] |}.

(** The lengths run by run, each repeated [count] times. *)
Definition spread (lengths : list (N * N)) : list N :=
  flat_map (fun run => replicate (N.to_nat run.1) run.2) lengths.

Fixpoint pad_lines (ls : list Chars) (widths : list N) : list Chars :=
  match ls with
  | [] => []
  | l :: rest =>
      let length := match widths with w :: _ => w | [] => 0 end in
      (l ++ replicate (N.to_nat (length - characters l)) SPACE)
        :: pad_lines rest (tail widths)
  end.

Definition padded (self : TerminalText) : Chars :=
  join_lines (pad_lines (split_lines (packed self)) (spread (lengths self))).

End Terminal.

(** ** The packed text of a terminal loses nothing *)

Module TerminalProps.
Import Terminal.

(** No line feed follows a carriage return inside the line. *)
Fixpoint no_crlf (l : Chars) : bool :=
  match l with
  | [] => true
  | c :: rest =>
      match rest with
      | d :: _ => negb ((c =? CR) && (d =? LF)) && no_crlf rest
      | [] => true
      end
  end.

Lemma split_lines_cons c l :
  split_lines (c :: l) =
  match l with
  | d :: rest => if (c =? CR) && (d =? LF) then [] :: split_lines rest
                 else match split_lines l with [] => [[c]] | k :: ks => (c :: k) :: ks end
  | [] => [[c]]
  end.
Proof. by destruct l. Qed.

Lemma split_lines_plain l : no_crlf l = true -> split_lines l = [l].
Proof.
  induction l as [|c l IH]; [done|]. rewrite split_lines_cons. destruct l as [|d l]; [done|].
  cbn [no_crlf]. intros [H1 H2]%andb_prop. apply negb_true_iff in H1. rewrite H1.
  by rewrite IH.
Qed.

Lemma split_lines_app l rest :
  no_crlf l = true -> split_lines (l ++ CR :: LF :: rest) = l :: split_lines rest.
Proof.
  induction l as [|c l IH]; intros H; [done|].
  rewrite -app_comm_cons split_lines_cons. destruct l as [|d l].
  - rewrite (IH eq_refl). cbn [app]. destruct (c =? CR); done.
  - cbn [app]. cbn [no_crlf] in H. apply andb_prop in H as [H1 H2].
    apply negb_true_iff in H1. rewrite H1. cbn [app] in IH. by rewrite (IH H2).
Qed.

Lemma split_lines_join ls :
  ls <> [] -> Forall (fun l => no_crlf l = true) ls -> split_lines (join_lines ls) = ls.
Proof.
  induction ls as [|l ls IH]; [done|]. intros _ [Hl Hls]%Forall_cons.
  destruct ls as [|k ls]; [by apply split_lines_plain|].
  cbn [join_lines app]. rewrite split_lines_app //. f_equal. by apply IH.
Qed.

Lemma split_lines_nonempty t : split_lines t <> [].
Proof.
  destruct t as [|c [|d t]]; try done. rewrite split_lines_cons.
  destruct (_ && _); [done|]. by destruct (split_lines (d :: t)).
Qed.

(** The split's own lines, and the text they join to. *)
Lemma split_lines_spec n t :
  (List.length t <= n)%nat ->
  Forall (fun l => no_crlf l = true) (split_lines t) /\ join_lines (split_lines t) = t.
Proof.
  revert t. induction n as [|n IH]; intros t Ht; [by destruct t; [split; [repeat constructor|]|simpl in Ht; lia]|].
  destruct t as [|c [|d t]]; [by split; [repeat constructor|]..|].
  rewrite split_lines_cons. destruct ((c =? CR) && (d =? LF)) eqn:E.
  - apply andb_prop in E as [->%N.eqb_eq ->%N.eqb_eq].
    destruct (IH t) as [HF HJ]; [simpl in Ht; lia|]. split; [by constructor|].
    pose proof (split_lines_nonempty t). destruct (split_lines t); [done|].
    cbn [join_lines app] in *. by rewrite HJ.
  - destruct (IH (d :: t)) as [HF HJ]; [simpl in *; lia|].
    destruct (split_lines (d :: t)) as [|k ks] eqn:Hs; [by apply split_lines_nonempty in Hs|].
    apply Forall_cons in HF as [Hk Hks]. split.
    + constructor; [|done]. destruct k as [|e k]; [done|].
      change (no_crlf (c :: e :: k)) with (negb ((c =? CR) && (e =? LF)) && no_crlf (e :: k)).
      rewrite Hk andb_true_r.
      assert (e = d) as ->.
      { destruct ks; cbn [join_lines app] in HJ; congruence. }
      by rewrite E.
    + destruct ks; cbn [join_lines app] in *; congruence.
Qed.

Lemma trim_end_length l : (List.length (trim_end l) <= List.length l)%nat.
Proof.
  induction l as [|c l IH]; [done|]. cbn [trim_end].
  destruct (trim_end l) as [|d k]; [destruct (c =? SPACE)|]; simpl in *; lia.
Qed.

Lemma trim_end_spec l :
  l = trim_end l ++ replicate (N.to_nat (characters l - characters (trim_end l))) SPACE.
Proof.
  assert (forall l, l = trim_end l ++ replicate (List.length l - List.length (trim_end l)) SPACE) as H.
  { clear l. induction l as [|c l IH]; [done|]. cbn [trim_end].
    pose proof (trim_end_length l) as Hl.
    destruct (trim_end l) as [|d k] eqn:E; cbn [List.length app] in *.
    - rewrite Nat.sub_0_r in IH. destruct (N.eqb_spec c SPACE) as [->|Hc]; cbn [List.length app].
      + rewrite Nat.sub_0_r. cbn [replicate]. by f_equal.
      + f_equal. by rewrite {1}IH Nat.sub_succ Nat.sub_0_r.
    - f_equal. rewrite {1}IH. done. }
  rewrite {1}(H l). f_equal. f_equal. unfold characters. lia.
Qed.

Lemma no_crlf_app_l l k : no_crlf (l ++ k) = true -> no_crlf l = true.
Proof.
  induction l as [|c l IH]; [done|]. destruct l as [|d l]; [done|].
  cbn [app no_crlf]. intros [-> H]%andb_prop. by apply IH.
Qed.

Lemma no_crlf_trim l : no_crlf l = true -> no_crlf (trim_end l) = true.
Proof. rewrite {1}(trim_end_spec l). apply no_crlf_app_l. Qed.

(** Run by run, the widths are those counted, as long as no count saturates. *)
Lemma spread_count lens n :
  Forall (fun run => run.1 < U32_MAX) lens ->
  spread (count_length lens n) = spread lens ++ [n].
Proof.
  induction lens as [|[c w] lens IH]; intros HF; [done|].
  apply Forall_cons in HF as [Hc HF]. simpl in Hc. destruct lens as [|run lens].
  - cbn [count_length]. destruct (N.eqb_spec w n) as [->|];
      [|by unfold spread; cbn [flat_map fst snd]; rewrite -app_assoc].
    unfold spread. cbn [flat_map fst snd]. rewrite saturating_add_exact; [|lia].
    rewrite !app_nil_r. replace (N.to_nat (c + 1)) with (N.to_nat c + 1)%nat by lia.
    by rewrite replicate_add.
  - cbn [count_length]. unfold spread in *. cbn [flat_map fst snd]. rewrite IH //.
    by rewrite app_assoc.
Qed.

Lemma count_length_bound lens n k :
  Forall (fun run => run.1 <= k) lens -> 0 < k \/ lens = [] ->
  Forall (fun run => run.1 <= k + 1) (count_length lens n).
Proof.
  induction lens as [|[c w] lens IH]; intros HF Hk.
  - constructor; [simpl; lia|done].
  - apply Forall_cons in HF as [Hc HF]. simpl in Hc. destruct Hk as [Hk|Hk]; [|done].
    destruct lens as [|run lens].
    + cbn [count_length]. destruct (w =? n); repeat constructor; simpl; unfold saturating_add; lia.
    + cbn [count_length]. constructor; [simpl; lia|]. apply IH; [done|]. left. lia.
Qed.

Lemma spread_counted (ns : list N) lens k :
  Forall (fun run => run.1 <= k) lens -> k + N.of_nat (List.length ns) <= U32_MAX ->
  0 < k \/ lens = [] ->
  spread (fold_left count_length ns lens) = spread lens ++ ns.
Proof.
  revert lens k. induction ns as [|n ns IH]; intros lens k HF Hk H0.
  - by rewrite app_nil_r.
  - cbn [fold_left List.length] in *. rewrite (IH _ (k + 1)).
    + rewrite spread_count ?app_assoc -?app_assoc //. eapply Forall_impl; [done|]. simpl. lia.
    + by apply count_length_bound.
    + lia.
    + left. lia.
Qed.

Lemma pad_trimmed ls :
  pad_lines (map trim_end ls) (map characters ls) = ls.
Proof.
  induction ls as [|l ls IH]; [done|]. cbn [map pad_lines tail]. by rewrite -trim_end_spec IH.
Qed.

Lemma fold_left_map_arg {A B C} (f : A -> B -> A) (g : C -> B) l a :
  fold_left (fun a c => f a (g c)) l a = fold_left f (map g l) a.
Proof. revert a. induction l; simpl; auto. Qed.

(** A terminal's text is packed without loss: for a text of fewer than 2^32
    lines and characters, whatever its characters, a carriage return or a line
    feed on its own included, padding the packed text by its lengths gives back
    every line with all of its trailing spaces. *)
Theorem terminal_text_roundtrip (text : Chars) :
  N.of_nat (List.length text) < U32_MAX -> padded (unpadded text) = text.
Proof.
  intros Hlen. destruct (split_lines_spec _ text (le_n _)) as [HF HJ].
  assert (Hbound : forall ls : list Chars,
    N.of_nat (List.length ls) <= N.of_nat (List.length (join_lines ls)) + 1 /\
    Forall (fun l => characters l <= N.of_nat (List.length (join_lines ls))) ls).
  { induction ls as [|l ls [IH1 IH2]]; [split; [simpl; lia|done]|].
    destruct ls as [|k ls]; [split; [simpl; lia|repeat constructor; unfold characters; simpl; lia]|].
    change (join_lines (l :: k :: ls)) with (l ++ [CR; LF] ++ join_lines (k :: ls)).
    rewrite !length_app. cbn [List.length] in *. split; [lia|].
    constructor; [unfold characters; lia|]. eapply Forall_impl; [exact IH2|].
    intros x Hx. cbv beta in Hx. lia. }
  destruct (Hbound (split_lines text)) as [HB1 HB2]. rewrite HJ in HB1 HB2. unfold padded, unpadded. cbn [packed lengths].
  rewrite split_lines_join.
  - rewrite (fold_left_map_arg count_length (fun line => N.min U32_MAX (characters line))).
    rewrite (spread_counted _ _ 0); [| by constructor | rewrite length_map; lia | by right].
    cbn [spread flat_map app].
    rewrite (map_ext_Forall _ characters); [by rewrite pad_trimmed|].
    eapply Forall_impl; [exact HB2|]. intros l Hl. cbv beta in *. lia.
  - pose proof (split_lines_nonempty text). by destruct (split_lines text).
  - apply Forall_map. eapply Forall_impl; [exact HF|]. intros l. apply no_crlf_trim.
Qed.

(** Two rows, the first padded with spaces, with a lone carriage return. *)
Lemma terminal_text_roundtrip_witness :
  let text := [97; 32; 32; 13; 10; 13; 98; 32] in
  N.of_nat (List.length text) < U32_MAX /\ padded (unpadded text) = text /\
  packed (unpadded text) = [97; 13; 10; 13; 98] /\ lengths (unpadded text) = [(2, 3)].
Proof.
  split; [vm_compute; reflexivity|]. split; [|split; vm_compute; reflexivity].
  apply terminal_text_roundtrip. vm_compute. reflexivity.
Defined.

End TerminalProps.
