(* ===== verification/FocusRules.v ===== *)
(** The rules Core and the outposts share about the focus: verbatim-core's
    [focus_rules.rs]. Which property changes and selections are spoken, and
    where a new focus line meets the previous one. [ForegroundRelation], of the
    same source file, is with the acceptance rules that make it. *)

From S2P Require Import Prelude Tree.

(** One node of the focus Core holds. *)
Record HeldNode := {
  held_id : NodeId;
  held_backend : Backend;
  held_role : Role;
  held_name : option string;
  held_states : StateSet.t;
  held_window : option WindowHandle;
}.

(** [HeldNode::of]. *)
Definition held_of (node : NodeSnapshot) : HeldNode := {|
  held_id := id node; held_backend := backend node; held_role := role node;
  held_name := name node; held_states := states node;
  held_window := details_window (details node) |}.

Record RepeatEvidence := { same_element : bool; still_focused : bool }.

Definition repeats_focus (evidence : RepeatEvidence) : bool :=
  same_element evidence && still_focused evidence.

Inductive ChangeKind := ChangeName | ChangeDescription | ChangeValue | ChangeStates.
Inductive ChangeTarget := ChangeFocus | ChangeAncestor.

#[export] Instance ChangeKind_eq_dec : EqDecision ChangeKind.
Proof. solve_decision. Defined.

Definition change_target (kind : ChangeKind) (node focus : NodeId) (ancestors : list NodeId)
    (speaks_states : NodeId -> bool) : option ChangeTarget :=
  if bool_decide (node = focus) then Some ChangeFocus
  else if bool_decide (kind = ChangeStates) &&
          existsb (fun ancestor => bool_decide (ancestor = node) && speaks_states ancestor)
                  ancestors
       then Some ChangeAncestor
       else None.

Definition is_some {A} (o : option A) : bool := match o with Some _ => true | None => false end.

Definition change_candidates (kind : ChangeKind) (focus : NodeId) (ancestors : list NodeId)
    (speaks_states : NodeId -> bool) : list NodeId :=
  List.filter (fun node => is_some (change_target kind node focus ancestors speaks_states))
    (ancestors ++ [focus]).

Inductive SelectionTarget := FocusStates | AncestorStates | SelectionItem.

Definition is_selection_container (role : Role) : bool :=
  match role with RoleList | RoleTabControl => true | _ => false end.

Definition SENSITIVE_SLIDER_CLASS : string := "SensitiveSlider".

Definition is_sensitive_slider (node : NodeSnapshot) : bool :=
  bool_decide (backend node = Uia) &&
  bool_decide (class_name (details node) = Some SENSITIVE_SLIDER_CLASS).

Definition selection_target (node : NodeId) (focus : NodeId * Role) (ancestors : list NodeId)
    (selects_states : NodeId -> bool) : option SelectionTarget :=
  let '(focus, focus_role) := focus in
  if bool_decide (node = focus) then Some FocusStates
  else if existsb (fun ancestor => bool_decide (ancestor = node)) ancestors
  then if selects_states node then Some AncestorStates else None
  else if bool_decide (outpost focus = outpost node) && is_selection_container focus_role
  then Some SelectionItem
  else None.

(** A node as the identity rule compares it. *)
Class EnteredKey (A : Type) := {
  key_id : A -> NodeId;
  entered_window : A -> option WindowHandle;
}.

#[export] Instance HeldNode_key : EnteredKey HeldNode :=
  { key_id := held_id; entered_window := held_window }.
#[export] Instance NodeSnapshot_key : EnteredKey NodeSnapshot :=
  { key_id := id; entered_window := fun node => details_window (details node) }.

Section meeting.
Context {O N' : Type} `{!EnteredKey O, !EnteredKey N'}.

Definition key_of {A} `{EnteredKey A} (node : A) : ObjectKey :=
  {| key_node := key_id node; key_window := entered_window node |}.

Definition same_object (old : O) (new : N') : bool := is_same_object (key_of old) (key_of new).

(** [get(index).unwrap_or(focus)]: the entry of a line, the ancestors outermost
    first and then the focus. *)
Definition at_ {A} (line : list A * A) (index : nat) : A := default line.2 (line.1 !! index).

(** [iter().find_map(..)]. *)
Fixpoint find_map {A B} (f : A -> option B) (l : list A) : option B :=
  match l with
  | [] => None
  | x :: l => match f x with Some y => Some y | None => find_map f l end
  end.

(** [(0..=len).rev()]. *)
Definition down_from (len : nat) : list nat := rev (seq 0 (S len)).

Definition meeting (previous : list O * O) (new : list N' * N') : option (nat * nat) :=
  find_map (fun at_new =>
    option_map (fun at_old => (at_old, at_new))
      (find (fun at_old => same_object (at_ previous at_old) (at_ new at_new))
            (down_from (length previous.1))))
    (down_from (length new.1)).

Definition already_entered (previous : list O * O) (new : list N' * N') : nat :=
  match meeting previous new with Some (_, at_new) => S at_new | None => 0%nat end.

(** ** Where two focus lines meet *)

Lemma down_from_S len : down_from (S len) = S len :: down_from len.
Proof. unfold down_from. rewrite (seq_S (S len)) rev_app_distr. done. Qed.

Lemma find_map_down {B} (f : nat -> option B) len y :
  find_map f (down_from len) = Some y <->
  exists i, (i <= len)%nat /\ f i = Some y /\ forall j, (i < j <= len)%nat -> f j = None.
Proof.
  induction len as [|len IH].
  - change (down_from 0) with [0%nat]. simpl. destruct (f 0%nat) as [z|] eqn:Hf; split.
    + intros [= <-]. exists 0%nat. split_and!; [lia|done|intros; lia].
    + intros (i & Hi & Hy & _). replace i with 0%nat in Hy by lia. congruence.
    + done.
    + intros (i & Hi & Hy & _). replace i with 0%nat in Hy by lia. congruence.
  - rewrite down_from_S. simpl. destruct (f (S len)) as [z|] eqn:Hf.
    + split; [intros [= <-]; exists (S len); split_and!; [lia|done|intros; lia]|].
      intros (i & Hi & Hy & Hn). destruct (decide (i = S len)) as [->|]; [congruence|].
      rewrite Hn in Hf; [done|lia].
    + rewrite IH. split.
      * intros (i & Hi & Hy & Hn). exists i. split_and!; [lia|done|]. intros j Hj.
        destruct (decide (j = S len)) as [->|]; [done|apply Hn; lia].
      * intros (i & Hi & Hy & Hn). destruct (decide (i = S len)) as [->|]; [congruence|].
        exists i. split_and!; [lia|done|]. intros j Hj. apply Hn. lia.
Qed.

Lemma find_map_down_None {B} (f : nat -> option B) len :
  find_map f (down_from len) = None <-> forall i, (i <= len)%nat -> f i = None.
Proof.
  induction len as [|len IH].
  - change (down_from 0) with [0%nat]. simpl. split.
    + intros Hf i Hi. replace i with 0%nat by lia. by destruct (f 0%nat).
    + intros Hf. by rewrite Hf.
  - rewrite down_from_S. simpl. destruct (f (S len)) as [z|] eqn:Hf.
    + split; [done|]. intros H. rewrite H in Hf; [done|lia].
    + rewrite IH. split; intros H i Hi; [|apply H; lia].
      destruct (decide (i = S len)) as [->|]; [done|apply H; lia].
Qed.

Lemma find_find_map (f : nat -> bool) l :
  find f l = find_map (fun i => if f i then Some i else None) l.
Proof. induction l as [|i l IH]; [done|]. simpl. destruct (f i); [done|exact IH]. Qed.

(** The innermost entry of [line]'s [len] that [f] accepts. *)
Lemma find_down (f : nat -> bool) len i :
  find f (down_from len) = Some i <->
  (i <= len)%nat /\ f i = true /\ forall j, (i < j <= len)%nat -> f j = false.
Proof.
  rewrite find_find_map find_map_down. split.
  - intros (k & Hk & Hf & Hn). destruct (f k) eqn:Hfk; simplify_eq. split_and!; [done..|].
    intros j Hj. specialize (Hn j Hj). by destruct (f j).
  - intros (Hi & Hf & Hn). exists i. rewrite Hf. split_and!; [done..|].
    intros j Hj. by rewrite Hn.
Qed.

Lemma find_down_None (f : nat -> bool) len :
  find f (down_from len) = None <-> forall i, (i <= len)%nat -> f i = false.
Proof.
  rewrite find_find_map find_map_down_None. split; intros H i Hi; specialize (H i Hi).
  - by destruct (f i).
  - by rewrite H.
Qed.

(** Entry [i] of the previous line and entry [j] of the new one are the same
    object. *)
Definition meets (previous : list O * O) (new : list N' * N') (i j : nat) : Prop :=
  (i <= length previous.1)%nat /\ (j <= length new.1)%nat /\
  same_object (at_ previous i) (at_ new j) = true.

Lemma meeting_Some previous new i j :
  meeting previous new = Some (i, j) <->
  meets previous new i j /\
  (forall i' j', meets previous new i' j' -> (j' < j \/ j' = j /\ i' <= i)%nat).
Proof.
  unfold meeting, meets. rewrite find_map_down. split.
  - intros (k & Hk & Hf & Hn).
    destruct (find _ (down_from (length previous.1))) as [i0|] eqn:Hfind; simplify_eq/=.
    apply find_down in Hfind as (Hi & Hs & Hin). split; [done|].
    intros i' j' (Hi' & Hj' & Hs').
    destruct (Nat.lt_trichotomy j' j) as [?|[->|Hlt]]; [by left|right|exfalso].
    + split; [done|]. destruct (Nat.le_gt_cases i' i); [done|]. rewrite Hin in Hs'; [done|lia].
    + specialize (Hn j' ltac:(lia)).
      destruct (find _ _) eqn:Hfind; [done|]. apply find_down_None with (i := i') in Hfind; [|done].
      congruence.
  - intros ((Hi & Hj & Hs) & Hmax). exists j. split_and!; [done|..].
    + rewrite (proj2 (find_down _ (length previous.1) i)); [done|]. split_and!; [done..|].
      intros i' Hi'. apply not_true_is_false. intros Hs'.
      destruct (Hmax i' j) as [?|[_ ?]]; [split_and!; [lia|lia|done]|lia|lia].
    + intros j' Hj'. rewrite (proj2 (find_down_None _ (length previous.1))); [done|].
      intros i' Hi'. apply not_true_is_false. intros Hs'.
      destruct (Hmax i' j') as [?|[? _]]; [split_and!; [lia|lia|done]|lia|lia].
Qed.

Lemma meeting_None previous new :
  meeting previous new = None <-> forall i j, ~ meets previous new i j.
Proof.
  unfold meeting, meets. rewrite find_map_down_None. split.
  - intros H i j (Hi & Hj & Hs). specialize (H j Hj). destruct (find _ _) eqn:Hfind; [done|].
    apply find_down_None with (i := i) in Hfind; [congruence|done].
  - intros H j Hj. rewrite (proj2 (find_down_None _ (length previous.1))); [done|].
    intros i Hi. apply not_true_is_false. intros Hs. by apply (H i j).
Qed.

End meeting.

(** Where two focus lines meet: [meeting] answers the innermost entry of
    the new line that is an object of the previous line, with the innermost
    such entry of the previous line, and nothing exactly when the lines share
    no object; so what [already_entered] leaves, below the meeting, shares no
    object with the previous line. *)
Theorem meeting_innermost {O N' : Type} `{!EnteredKey O, !EnteredKey N'}
    (previous : list O * O) (new : list N' * N') :
  (forall i j, meeting previous new = Some (i, j) <->
     meets previous new i j /\
     (forall i' j', meets previous new i' j' -> (j' < j \/ j' = j /\ i' <= i)%nat)) /\
  (meeting previous new = None <-> forall i j, ~ meets previous new i j) /\
  (forall i j, (already_entered previous new <= j)%nat -> ~ meets previous new i j).
Proof.
  split_and!; [apply meeting_Some|apply meeting_None|].
  intros i j. unfold already_entered.
  destruct (meeting previous new) as [[i0 j0]|] eqn:Hm; intros Hj Hmeets.
  - apply meeting_Some in Hm as [_ Hmax]. destruct (Hmax i j Hmeets); lia.
  - exact (proj1 (meeting_None previous new) Hm i j Hmeets).
Qed.

(** ** Which changes and selections are spoken *)

Lemma change_target_spec kind node focus ancestors speaks :
  (change_target kind node focus ancestors speaks = Some ChangeFocus <-> node = focus) /\
  (change_target kind node focus ancestors speaks = Some ChangeAncestor <->
     node <> focus /\ kind = ChangeStates /\ node ∈ ancestors /\ speaks node = true).
Proof.
  unfold change_target.
  assert (existsb (fun a => bool_decide (a = node) && speaks a) ancestors = true <->
          node ∈ ancestors /\ speaks node = true) as Hex.
  { rewrite existsb_exists. setoid_rewrite andb_true_iff. setoid_rewrite bool_decide_eq_true.
    rewrite list_elem_of_In. split; [by intros (? & ? & -> & ?)|]. intros [? ?]. by exists node. }
  case_bool_decide; [intuition congruence|].
  destruct (bool_decide (kind = ChangeStates) && _) eqn:Hb.
  - apply andb_true_iff in Hb as [Hk%bool_decide_eq_true He%Hex]. intuition congruence.
  - split; [intuition congruence|]. split; [done|]. intros (_ & -> & Hn).
    rewrite bool_decide_eq_true_2 in Hb; [|done]. apply Hex in Hn. by rewrite Hn in Hb.
Qed.

(** The nodes an outpost tells an event's object from are exactly those
    whose change is spoken: a node is among the change's candidates exactly
    when [change_target] gives it a target, which it does for the focus always
    and for an ancestor only for a state change it speaks, and it gives no
    target to any other node. *)
Theorem change_candidates_exact kind node focus ancestors speaks :
  (node ∈ change_candidates kind focus ancestors speaks <->
     is_some (change_target kind node focus ancestors speaks) = true) /\
  (is_some (change_target kind node focus ancestors speaks) = true <->
     node = focus \/ (kind = ChangeStates /\ node ∈ ancestors /\ speaks node = true)).
Proof.
  destruct (change_target_spec kind node focus ancestors speaks) as [Hf Ha].
  assert (is_some (change_target kind node focus ancestors speaks) = true <->
     node = focus \/ (kind = ChangeStates /\ node ∈ ancestors /\ speaks node = true)) as Hspec.
  { destruct (decide (node = focus)) as [Heq|Hne].
    - rewrite (proj2 Hf Heq). simpl. tauto.
    - destruct (change_target kind node focus ancestors speaks) as [[]|];
        simpl; intuition congruence. }
  split; [|done]. unfold change_candidates.
  rewrite list_elem_of_In filter_In -list_elem_of_In elem_of_app list_elem_of_singleton.
  rewrite Hspec. tauto.
Qed.

(** What a selection concerns: the focus's own selection is its states',
    an ancestor's is its states' or nothing when refused, never an item, and
    any other node is an item exactly when the focus is a list or a tab
    control and both are of the same outpost. *)
Theorem selection_target_spec node focus role ancestors selects :
  (selection_target node (focus, role) ancestors selects = Some FocusStates <-> node = focus) /\
  (selection_target node (focus, role) ancestors selects = Some AncestorStates <->
     node <> focus /\ node ∈ ancestors /\ selects node = true) /\
  (selection_target node (focus, role) ancestors selects = Some SelectionItem <->
     node <> focus /\ node ∉ ancestors /\ outpost node = outpost focus /\
     (role = RoleList \/ role = RoleTabControl)).
Proof.
  unfold selection_target.
  assert (existsb (fun a => bool_decide (a = node)) ancestors = true <-> node ∈ ancestors) as Hex.
  { rewrite existsb_exists. setoid_rewrite bool_decide_eq_true. rewrite list_elem_of_In.
    split; [by intros (? & ? & ->)|]. intros ?. by exists node. }
  assert (is_selection_container role = true <-> role = RoleList \/ role = RoleTabControl) as Hr.
  { destruct role; simpl; intuition congruence. }
  case_bool_decide; [intuition congruence|].
  destruct (existsb _ ancestors) eqn:He.
  - assert (node ∈ ancestors) by (by apply Hex). destruct (selects node); intuition congruence.
  - assert (node ∉ ancestors) by (by intros ?%Hex).
    destruct (bool_decide (outpost focus = outpost node) && _) eqn:Hb.
    + apply andb_true_iff in Hb as [Ho%bool_decide_eq_true Hc%Hr]. intuition congruence.
    + split_and!; [intuition congruence..|]. split; [done|]. intros (_ & _ & Ho & Hc%Hr).
      by rewrite bool_decide_eq_true_2 // Hc in Hb.
Qed.
