(* ===== verification/Facts.v ===== *)
(** The facts the focus listener sends and the supervisor routes: the message
    types of verbatim-model's [protocol/mod.rs] with their keys, the counts of
    cross-process calls of [calls.rs], and the wrapping order of the system's
    32-bit tick counter. *)

From S2P Require Import Prelude Tree.

Record Pid := { pid_number : N }.
Record TraceId := { trace_number : N }.

#[export] Instance Pid_eq_dec : EqDecision Pid.
Proof. solve_decision. Defined.
#[export] Instance TraceId_eq_dec : EqDecision TraceId.
Proof. solve_decision. Defined.

(** ** Counts of cross-process calls *)

Record CallCounts := { uia : N; msaa : N; window_messages : N; connections : N }.

Inductive CallKind := CallUia | CallMsaa | CallWindowMessage.

Module Calls.

Definition none : CallCounts := {| uia := 0; msaa := 0; window_messages := 0; connections := 0 |}.

Definition record (self : CallCounts) (kind : CallKind) : CallCounts :=
  match kind with
  | CallUia => {| uia := uia self +|32| 1; msaa := msaa self;
                  window_messages := window_messages self; connections := connections self |}
  | CallMsaa => {| uia := uia self; msaa := msaa self +|32| 1;
                   window_messages := window_messages self; connections := connections self |}
  | CallWindowMessage =>
      {| uia := uia self; msaa := msaa self; window_messages := window_messages self +|32| 1;
         connections := connections self |}
  end.

Definition record_connection (self : CallCounts) : CallCounts :=
  {| uia := uia self; msaa := msaa self; window_messages := window_messages self;
     connections := connections self +|32| 1 |}.

Definition total (self : CallCounts) : N :=
  (uia self +|32| msaa self) +|32| window_messages self.

Definition is_empty (self : CallCounts) : bool := total self =? 0.

Definition add (self other : CallCounts) : CallCounts :=
  {| uia := uia self +|32| uia other; msaa := msaa self +|32| msaa other;
     window_messages := window_messages self +|32| window_messages other;
     connections := connections self +|32| connections other |}.

End Calls.

(** ** Timing *)

Record EventTiming := {
  raised_ms_ago : option N;
  observed_at_us : N;
  listener_handled_at_us : N;
  listener_written_at_us : N;
  relayed_at_us : N;
  dequeued_at_us : N;
  awaited_at_us : N;
  published_at_us : N;
  written_at_us : N;
  calls : CallCounts;
  awaited_calls : CallCounts;
  core_received_at_us : N;
  core_relay_us : N;
  core_held_us : N;
  core_sent_at_us : N;
  core_read_at_us : N;
}.

(** [EventTiming::default()]. *)
Definition EventTiming_default : EventTiming := {|
  raised_ms_ago := None; observed_at_us := 0; listener_handled_at_us := 0;
  listener_written_at_us := 0; relayed_at_us := 0; dequeued_at_us := 0; awaited_at_us := 0;
  published_at_us := 0; written_at_us := 0; calls := Calls.none; awaited_calls := Calls.none;
  core_received_at_us := 0; core_relay_us := 0; core_held_us := 0; core_sent_at_us := 0;
  core_read_at_us := 0 |}.

Definition hop_us (from_us to_us : N) : option N :=
  if negb (from_us =? 0) && negb (to_us =? 0) then Some (to_us - from_us) else None.

(** ** UI Automation facts *)

Record UiaSnapshotFact := {
  runtime_id : list Z;
  fact_role : Role;
  fact_name : option string;
  fact_value : option string;
  fact_states : StateSet.t;
  fact_details : NodeDetails;
}.

Record UiaAncestorFact := {
  ancestor_snapshot : UiaSnapshotFact;
  ancestor_hwnd : Z;
  content : bool;
}.

Inductive AncestorsEnd := Top | ContinueFrom (hwnd : Z) | PlainFrom (hwnd : Z).

Inductive EarlierElement := EarlierFocused | EarlierNotFocused | EarlierGone.

Record UiaFocusRead := {
  read_hwnd : Z;
  read_snapshot : UiaSnapshotFact;
  ancestors : list UiaAncestorFact;
  ancestors_end : AncestorsEnd;
  selected_child : option UiaSnapshotFact;
  value_from_selection : bool;
  read_window : option Z;
  same_as_last : option EarlierElement;
  bound_us : N;
}.

Record WinEventStamp := { thread : N; time : N }.

(** [a.wrapping_sub(b)] on [u32]. *)
Definition wrapping_sub32 (a b : N) : N := (a + 2 ^ 32 - b) mod 2 ^ 32.

Definition tick_is_after (a b : N) : bool :=
  negb (a =? b) && (wrapping_sub32 a b <? N.shiftl 1 31).

Definition raised_after (self : WinEventStamp) (tick : N) : bool := tick_is_after (time self) tick.
Definition raised_before (self : WinEventStamp) (tick : N) : bool := tick_is_after tick (time self).

Inductive NotificationKind :=
  | ItemAdded | ItemRemoved | ActionCompleted | ActionAborted | OtherNotification.

Inductive NotificationProcessing :=
  | ImportantAll | ImportantMostRecent | AllNotifications | MostRecent
  | CurrentThenMostRecent.

Record Notification := {
  notification_kind : NotificationKind;
  processing : NotificationProcessing;
  display_string : option string;
  activity_id : option string;
}.

(** ** Delivered facts and their keys *)

Inductive DeliveredFact :=
  | UiaFocusMarker (marker : N)
  | UiaFocusRead_ (marker : N) (read : UiaFocusRead) (focus : bool)
  | UiaFocusDropped (marker : N) (focus no_window : bool)
  | UiaFocusReadsEnded
  | MsaaFocus (hwnd id_object id_child : Z)
  | Foreground (hwnd : Z)
  | MenuPopup (hwnd id_object id_child : Z)
  | UiaMarked (marker : N) (fact : DeliveredFact)
  | UiaSelection (hwnd focus_window : Z) (snapshot : UiaSnapshotFact)
  | UiaNotification (hwnd : Z) (snapshot : UiaSnapshotFact) (notification : Notification)
  | Alert (hwnd id_object id_child : Z)
  | Show (hwnd id_object id_child : Z).

Definition is_win_event (self : DeliveredFact) : bool :=
  match self with
  | MsaaFocus _ _ _ | Foreground _ | MenuPopup _ _ _ | Alert _ _ _ | Show _ _ _ => true
  | _ => false
  end.

Definition is_focus_read (self : DeliveredFact) : bool :=
  match self with
  | UiaFocusMarker _ | UiaFocusRead_ _ _ _ | UiaFocusDropped _ _ _ | UiaMarked _ _
  | UiaFocusReadsEnded => true
  | _ => false
  end.

Inductive FactKey :=
  | KeyForeground (hwnd : Z) (thread : N)
  | KeyMsaaFocus (hwnd id_object id_child : Z) (thread : N)
  | KeyMenuPopup (hwnd id_object id_child : Z)
  | KeyUiaSelection (runtime_id : list Z)
  | KeyUiaNotification (runtime_id : list Z) (kind : NotificationKind)
      (processing : NotificationProcessing) (activity_id : option string)
  | KeyAlert (hwnd id_object id_child : Z) (thread : N)
  | KeyShow (hwnd id_object id_child : Z) (thread : N).

#[export] Instance NotificationKind_eq_dec : EqDecision NotificationKind.
Proof. solve_decision. Defined.
#[export] Instance NotificationProcessing_eq_dec : EqDecision NotificationProcessing.
Proof. solve_decision. Defined.
#[export] Instance FactKey_eq_dec : EqDecision FactKey.
Proof. solve_decision. Defined.

(** [DeliveredFact::key]. *)
Definition key (self : DeliveredFact) (win_event : option WinEventStamp) : option FactKey :=
  let thread := match win_event with Some stamp => thread stamp | None => 0 end in
  match self with
  | Foreground hwnd => Some (KeyForeground hwnd thread)
  | MsaaFocus hwnd id_object id_child => Some (KeyMsaaFocus hwnd id_object id_child thread)
  | UiaFocusMarker _ | UiaFocusRead_ _ _ _ | UiaFocusDropped _ _ _ | UiaFocusReadsEnded
  | UiaMarked _ _ => None
  | UiaNotification _ snapshot notification =>
      Some (KeyUiaNotification (runtime_id snapshot) (notification_kind notification)
              (processing notification) (activity_id notification))
  | MenuPopup hwnd id_object id_child => Some (KeyMenuPopup hwnd id_object id_child)
  | UiaSelection _ _ snapshot => Some (KeyUiaSelection (runtime_id snapshot))
  | Alert hwnd id_object id_child => Some (KeyAlert hwnd id_object id_child thread)
  | Show hwnd id_object id_child => Some (KeyShow hwnd id_object id_child thread)
  end.

Record ListenerFact := { fact_pid : Pid; fact : DeliveredFact }.

(** ** Properties *)

(** The facts that are never replaced on the way are exactly the parts of a
    focus's read. *)
Lemma key_None_iff f w : key f w = None <-> is_focus_read f = true.
Proof. by destruct f. Qed.

Lemma wrapping_sub32_cases a b :
  a < 2 ^ 32 -> b < 2 ^ 32 ->
  wrapping_sub32 a b = if b <=? a then a - b else a + 2 ^ 32 - b.
Proof.
  intros Ha Hb. unfold wrapping_sub32. destruct (N.leb_spec b a).
  - replace (a + 2 ^ 32 - b) with ((a - b) + 1 * 2 ^ 32) by lia.
    rewrite N.Div0.mod_add. apply N.mod_small. lia.
  - apply N.mod_small. lia.
Qed.

(** [tick_is_after] without the wrapping: the later tick is less than half the
    counter ahead. *)
Lemma tick_is_after_iff a b :
  a < 2 ^ 32 -> b < 2 ^ 32 ->
  tick_is_after a b = true <-> (b < a /\ a - b < 2 ^ 31) \/ (a < b /\ 2 ^ 31 < b - a).
Proof.
  intros Ha Hb. unfold tick_is_after. rewrite wrapping_sub32_cases // N.shiftl_1_l.
  rewrite andb_true_iff negb_true_iff N.eqb_neq N.ltb_lt. destruct (N.leb_spec b a); lia.
Qed.

(** The order of two ticks of the system's wrapping millisecond counter:
    of two ticks less than 2^31 ms apart, across the wrap too, exactly the
    later is after the earlier, so no tick is after itself; and two ticks are
    never each after the other. *)
Theorem tick_order (a d : N) :
  a < 2 ^ 32 -> d < 2 ^ 31 ->
  (tick_is_after ((a + d) mod 2 ^ 32) a = true <-> 0 < d) /\
  tick_is_after a ((a + d) mod 2 ^ 32) = false /\
  forall c, c < 2 ^ 32 -> tick_is_after a c = true -> tick_is_after c a = false.
Proof.
  intros Ha Hd.
  assert ((a + d) mod 2 ^ 32 = if a + d <? 2 ^ 32 then a + d else a + d - 2 ^ 32) as Hb.
  { destruct (N.ltb_spec (a + d) (2 ^ 32)); [by apply N.mod_small|].
    replace (a + d) with ((a + d - 2 ^ 32) + 1 * 2 ^ 32) at 1 by lia.
    rewrite N.Div0.mod_add. apply N.mod_small. lia. }
  assert ((a + d) mod 2 ^ 32 < 2 ^ 32) as Hlt by (apply N.mod_lt; lia).
  rewrite Hb in Hlt. rewrite Hb. split_and!.
  - rewrite tick_is_after_iff //. destruct (N.ltb_spec (a + d) (2 ^ 32)); lia.
  - apply not_true_is_false. rewrite tick_is_after_iff //.
    destruct (N.ltb_spec (a + d) (2 ^ 32)); lia.
  - intros c Hc. rewrite tick_is_after_iff //. intros Hac.
    apply not_true_is_false. rewrite tick_is_after_iff //. lia.
Qed.

Lemma tick_order_witness :
  tick_is_after ((0xFFFFFFFF + 5) mod 2 ^ 32) 0xFFFFFFFF = true /\
  tick_is_after 0xFFFFFFFF ((0xFFFFFFFF + 5) mod 2 ^ 32) = false.
Proof.
  destruct (tick_order 0xFFFFFFFF 5) as (H1 & H2 & _); [lia..|].
  split; [apply H1; lia|exact H2].
Defined.

Lemma total_exact self :
  Calls.total self = N.min U32_MAX (uia self + msaa self + window_messages self).
Proof. unfold Calls.total, saturating_add. apply min_add_l. Qed.

(** Counts of calls saturate and never wrap: the total is the exact sum of
    the counts up to the largest [u32]; recording a call adds one to it, the
    total of a sum is the saturated sum of the totals, and a connection is in
    no total. *)
Theorem call_counts_total self other kind :
  Calls.total self = N.min U32_MAX (uia self + msaa self + window_messages self) /\
  Calls.total (Calls.record self kind) = Calls.total self +|32| 1 /\
  Calls.total (Calls.add self other) = Calls.total self +|32| Calls.total other /\
  Calls.total (Calls.record_connection self) = Calls.total self.
Proof.
  rewrite !total_exact. split_and!; [done| | |done]; unfold saturating_add.
  - destruct kind; simpl; unfold saturating_add; rewrite min_add_l.
    + rewrite -N.add_assoc min_add_l. f_equal. lia.
    + rewrite (N.add_comm (uia self)) -N.add_assoc min_add_l. f_equal. lia.
    + rewrite min_add_r. f_equal. lia.
  - simpl. unfold saturating_add. rewrite min_add_l min_add_r min_add_r.
    rewrite (N.add_comm (N.min _ _) (N.min _ _)) -N.add_assoc min_add_l.
    rewrite N.add_assoc N.add_comm N.add_assoc min_add_r. f_equal. lia.
Qed.
