(* ===== verification/Messages.v ===== *)
(** The messages between an outpost and Core: the events of verbatim-model's
    [event.rs] and the queries, replies and messages of [protocol/mod.rs], with
    the operations on a message as a whole: its kind, its stamps, the outpost
    generation put on every node it names, and what it names. *)

From S2P Require Import Prelude Tree TextModel Facts.

(** ** Events *)

Record WindowFacts := {
  top_level : WindowHandle;
  root_owner : WindowHandle;
  topmost : bool;
  under_active_window : option bool;
  in_foreground : bool;
  foreground_window : WindowHandle;
  window_class : string;
  window_application : string;
  alt_held : bool;
  foreground_is_shell : bool;
}.

Inductive PropertyChange :=
  | NameChanged (name : option string)
  | ValueChanged_ (value : option string)
  | StatesChanged (states : StateSet.t)
  | DescriptionChanged (description : option string)
  | SuggestionsChanged (open : bool).

Record FocusGroup := { group_number : N; group_rank : N }.

Record ProgressReading := {
  bar_id : NodeId;
  bar_value : option string;
  bar_offscreen : bool;
  bar_rect : option Rect;
}.

Inductive NormalizedEvent :=
  | FocusChanged (node : NodeSnapshot) (whole_window : bool) (ancestors : list NodeSnapshot)
      (selected_child : option NodeSnapshot) (text : option FocusText)
      (earlier : option EarlierElement) (group : option FocusGroup)
  | PropertyChanged (node_id : NodeId) (change : PropertyChange) (child_count : option N)
  | ValueChanged (node_id : NodeId) (value : option string)
  | SelectionChanged (node : NodeSnapshot)
  | ProgressChanged (bar : ProgressReading)
  | ControlledSelection (controller : NodeId) (node : NodeSnapshot)
  | NotificationEvent (node_id : NodeId) (notification : Notification)
  | AlertEvent (node : NodeSnapshot)
  | CaretMoved (node_id : NodeId) (caret : CaretReport) (selection_changes : list SelectionChange)
      (content_changed : bool) (new_selection : option SelectionChange)
  | TextChanged (node_id : NodeId)
  | TerminalSnapshotEvent (node_id : NodeId) (snapshot : TerminalSnapshot)
  | ActiveTextPositionChanged (node_id : NodeId) (position : TextPosition).

(** [NormalizedEvent::assign_outpost]. *)
Definition assign_event (self : NormalizedEvent) (outpost : OutpostId) : NormalizedEvent :=
  let stamp node := assign_outpost node outpost in
  let stamp_id node := NodeIds.with_outpost node outpost in
  match self with
  | FocusChanged node whole_window ancestors selected_child text earlier group =>
      FocusChanged (stamp node) whole_window (map stamp ancestors)
        (option_map stamp selected_child) text earlier group
  | SelectionChanged node => SelectionChanged (stamp node)
  | AlertEvent node => AlertEvent (stamp node)
  | ProgressChanged bar =>
      ProgressChanged {| bar_id := stamp_id (bar_id bar); bar_value := bar_value bar;
                         bar_offscreen := bar_offscreen bar; bar_rect := bar_rect bar |}
  | ControlledSelection controller node => ControlledSelection (stamp_id controller) (stamp node)
  | PropertyChanged node_id change child_count =>
      PropertyChanged (stamp_id node_id) change child_count
  | ValueChanged node_id value => ValueChanged (stamp_id node_id) value
  | NotificationEvent node_id notification => NotificationEvent (stamp_id node_id) notification
  | CaretMoved node_id caret selection_changes content_changed new_selection =>
      CaretMoved (stamp_id node_id) caret selection_changes content_changed new_selection
  | TextChanged node_id => TextChanged (stamp_id node_id)
  | TerminalSnapshotEvent node_id snapshot => TerminalSnapshotEvent (stamp_id node_id) snapshot
  | ActiveTextPositionChanged node_id position =>
      ActiveTextPositionChanged (stamp_id node_id) position
  end.

(** ** Queries and their outcomes *)

Inductive Requester := AskerReducer | AskerShell.
Record RequestId := { asker : Requester; request_number : N }.

#[export] Instance Requester_eq_dec : EqDecision Requester.
Proof. solve_decision. Defined.
#[export] Instance RequestId_eq_dec : EqDecision RequestId.
Proof. solve_decision. Defined.
#[export] Program Instance RequestId_countable : Countable RequestId :=
  inj_countable'
    (fun r => (match asker r with AskerReducer => true | AskerShell => false end, request_number r))
    (fun p => {| asker := if p.1 then AskerReducer else AskerShell; request_number := p.2 |}) _.
Next Obligation. by intros [[] n]. Qed.

Inductive QueryKind := QueryParent | QueryNextSibling | QueryPreviousSibling | QueryFirstChild.

Inductive Query :=
  | FocusNow_
  | Navigate (node_id : NodeId) (kind : QueryKind)
  | Activate (node_id : NodeId)
  | Ancestors (node_id : NodeId)
  | DumpTree (locations : bool)
  | TextQuery (node_id : NodeId) (op : TextOp)
  | ShellItems (kind : ShellItemKind) (answer_by_us : N)
  | ShellItemPosition (kind : ShellItemKind) (item : ShellItem) (answer_by_us : N).

Inductive ActionName := Invoke | Named_ (name : string).

Record FocusedControl := {
  control_node : NodeSnapshot;
  control_ancestors : list NodeSnapshot;
  control_selected_child : option NodeSnapshot;
  control_window : option WindowFacts;
  control_text : option FocusText;
}.

Record FocusNow := {
  now_window : option (NodeSnapshot * WindowFacts);
  now_focus : option FocusedControl;
  now_observed_at_us : N;
}.

Record DumpedTree := { root : TreeNode; tree_truncated : bool; locations : bool }.

Inductive QueryResult :=
  | FocusResult (focus : FocusNow)
  | Navigated (node : option NodeSnapshot)
  | Activated (action : option ActionName)
  | AncestorsResult (chain : list NodeSnapshot)
  | TreeResult (dumped : DumpedTree)
  | TextResult (reply : TextReply)
  | ShellItemsResult (items : list ShellItem)
  | ShellItemPositionResult (candidates : ShellCandidates).

Inductive QueryOutcome :=
  | Done (result : QueryResult)
  | Gone
  | Failed (detail : string)
  | NotStarted
  | OutcomeAbandoned.

(** ** Messages *)

Inductive OutpostToCore :=
  | Ready (outpost_pid target_pid : Pid)
  | Event (trace_id : TraceId) (observed_at_us : N) (backend : Backend)
      (window : option WindowFacts) (application : option Pid) (timing : EventTiming)
      (event : NormalizedEvent)
  | Reply (trace_id : TraceId) (request_id : RequestId) (outcome : QueryOutcome)
      (timing : EventTiming)
  | Pong (seq parked_count parked_on_hung written_at_us : N)
  | NotResponding (window : Z)
  | Fault (detail : string)
  | TargetExited
  | SpareReady (outpost_pid : Pid)
  | IdleAnswer (round : N).

Inductive Kind := KindAsk | KindAnswer | KindReport | KindRelease | KindLifecycle | KindRouted
  | KindConfiguration.

Definition kind (self : OutpostToCore) : Kind :=
  match self with
  | Reply _ _ _ _ | IdleAnswer _ => KindAnswer
  | Event _ _ _ _ _ _ _ | Fault _ | NotResponding _ => KindReport
  | Ready _ _ | SpareReady _ | TargetExited | Pong _ _ _ _ => KindLifecycle
  end.

Definition carries_nodes (self : OutpostToCore) : bool :=
  match self with
  | Event _ _ _ _ _ _ _ => true
  | Reply _ _ outcome _ =>
      match outcome with
      | Done _ => true
      | Gone | Failed _ | NotStarted | OutcomeAbandoned => false
      end
  | Ready _ _ | SpareReady _ | Pong _ _ _ _ | Fault _ | NotResponding _ | TargetExited
  | IdleAnswer _ => false
  end.

Definition with_written (t : EventTiming) (at_us : N) : EventTiming := {|
  raised_ms_ago := raised_ms_ago t; observed_at_us := observed_at_us t;
  listener_handled_at_us := listener_handled_at_us t;
  listener_written_at_us := listener_written_at_us t; relayed_at_us := relayed_at_us t;
  dequeued_at_us := dequeued_at_us t; awaited_at_us := awaited_at_us t;
  published_at_us := published_at_us t; written_at_us := at_us; calls := calls t;
  awaited_calls := awaited_calls t; core_received_at_us := core_received_at_us t;
  core_relay_us := core_relay_us t; core_held_us := core_held_us t;
  core_sent_at_us := core_sent_at_us t; core_read_at_us := core_read_at_us t |}.

Definition with_core_read (t : EventTiming) (at_us : N) : EventTiming := {|
  raised_ms_ago := raised_ms_ago t; observed_at_us := observed_at_us t;
  listener_handled_at_us := listener_handled_at_us t;
  listener_written_at_us := listener_written_at_us t; relayed_at_us := relayed_at_us t;
  dequeued_at_us := dequeued_at_us t; awaited_at_us := awaited_at_us t;
  published_at_us := published_at_us t; written_at_us := written_at_us t; calls := calls t;
  awaited_calls := awaited_calls t; core_received_at_us := core_received_at_us t;
  core_relay_us := core_relay_us t; core_held_us := core_held_us t;
  core_sent_at_us := core_sent_at_us t; core_read_at_us := at_us |}.

Definition written (self : OutpostToCore) (at_us : N) : OutpostToCore :=
  match self with
  | Event trace_id observed backend window application timing event =>
      Event trace_id observed backend window application (with_written timing at_us) event
  | Reply trace_id request_id outcome timing =>
      Reply trace_id request_id outcome (with_written timing at_us)
  | Pong seq parked_count parked_on_hung _ => Pong seq parked_count parked_on_hung at_us
  | Ready _ _ | SpareReady _ | Fault _ | NotResponding _ | TargetExited | IdleAnswer _ => self
  end.

Definition core_read (self : OutpostToCore) (at_us : N) : OutpostToCore :=
  match self with
  | Event trace_id observed backend window application timing event =>
      Event trace_id observed backend window application (with_core_read timing at_us) event
  | Reply trace_id request_id outcome timing =>
      Reply trace_id request_id outcome (with_core_read timing at_us)
  | _ => self
  end.

Definition assign_result (result : QueryResult) (outpost : OutpostId) : QueryResult :=
  let stamp node := assign_outpost node outpost in
  match result with
  | FocusResult focus =>
      FocusResult {|
        now_window := option_map (fun w => (stamp w.1, w.2)) (now_window focus);
        now_focus := option_map (fun control => {|
            control_node := stamp (control_node control);
            control_ancestors := map stamp (control_ancestors control);
            control_selected_child := option_map stamp (control_selected_child control);
            control_window := control_window control;
            control_text := control_text control |}) (now_focus focus);
        now_observed_at_us := now_observed_at_us focus |}
  | Navigated (Some node) => Navigated (Some (stamp node))
  | AncestorsResult chain => AncestorsResult (map stamp chain)
  | TreeResult dumped =>
      TreeResult {| root := assign_tree (root dumped) outpost;
                    tree_truncated := tree_truncated dumped; locations := locations dumped |}
  | Navigated None | Activated _ | TextResult _ | ShellItemsResult _
  | ShellItemPositionResult _ => result
  end.

(** [OutpostToCore::assign_outpost]. *)
Definition assign_message (self : OutpostToCore) (outpost : OutpostId) : OutpostToCore :=
  match self with
  | Event trace_id observed backend window application timing event =>
      Event trace_id observed backend window application timing (assign_event event outpost)
  | Reply trace_id request_id (Done result) timing =>
      Reply trace_id request_id (Done (assign_result result outpost)) timing
  | _ => self
  end.

(** ** What a message names *)

Record Named := { named_nodes : list NodeId; named_anchors : list TextAnchor }.

Module Names_.

Definition default : Named := {| named_nodes := []; named_anchors := [] |}.

Definition push_node (self : Named) (node : NodeId) : Named :=
  {| named_nodes := named_nodes self ++ [node]; named_anchors := named_anchors self |}.

Definition push_anchor (self : Named) (a : TextAnchor) : Named :=
  {| named_nodes := named_nodes self; named_anchors := named_anchors self ++ [a] |}.

Definition node (self : Named) (node : NodeSnapshot) : Named := push_node self (id node).

Definition nodes (self : Named) (l : list NodeSnapshot) : Named := fold_left node l self.

Fixpoint tree (self : Named) (t : TreeNode) : Named :=
  fold_left tree (children t) (node self (snapshot t)).

Definition chunk (self : Named) (c : TextChunk) : Named := push_anchor self (chunk_start c).

Definition caret (self : Named) (c : CaretReport) : Named :=
  let self := chunk self (line c) in
  let self := match report_selection c with
              | Some selection =>
                  push_anchor (push_anchor self (anchor (selection_start selection)))
                    (anchor (selection_end selection))
              | None => self
              end in
  match selection_line c with Some l => chunk self l | None => self end.

Definition focus_text (self : Named) (text : option FocusText) : Named :=
  match text with Some (FocusCaret c _) => caret self c | _ => self end.

Definition snapshot_caret (self : Named) (s : TerminalSnapshot) : Named :=
  match terminal_caret s with Some c => caret self c | None => self end.

Definition text_reply (self : Named) (reply : TextReply) : Named :=
  match reply with
  | ReplyCaret reply =>
      let self := caret self (reply_caret reply) in
      match reply_unit reply with Some unit_ => chunk self unit_ | None => self end
  | ReplyRead _ c => chunk self c
  | ReplyChunks _ chunks => fold_left chunk chunks self
  | ReplyTerminalSnapshot s => snapshot_caret self s
  | ReplyRange _ _ | ReplyDone | ReplySelected _ | ReplyTerminalUnchanged
  | ReplyTerminalHistory _ _ _ | ReplyTerminalFound _ _ | ReplyLocation _ _
  | ReplyOffsetLocation _ _ _ | ReplyUnsupportedUnit _ | ReplyUnsupported | ReplyNoText
  | ReplyAnchorLost | ReplyGone | ReplyUnanswered | ReplyWatchEnded => self
  end.

Definition event (self : Named) (e : NormalizedEvent) : Named :=
  match e with
  | FocusChanged n _ ancestors selected_child text _ _ =>
      let self := nodes (node self n) ancestors in
      let self := match selected_child with Some s => node self s | None => self end in
      focus_text self text
  | SelectionChanged n | AlertEvent n => node self n
  | ProgressChanged bar => push_node self (bar_id bar)
  | ControlledSelection controller n => node (push_node self controller) n
  | CaretMoved node_id c _ _ _ => caret (push_node self node_id) c
  | TerminalSnapshotEvent node_id s => snapshot_caret (push_node self node_id) s
  | ActiveTextPositionChanged node_id position =>
      push_anchor (push_node self node_id) (anchor position)
  | PropertyChanged node_id _ _ | ValueChanged node_id _ | NotificationEvent node_id _
  | TextChanged node_id => push_node self node_id
  end.

Definition result (self : Named) (r : QueryResult) : Named :=
  match r with
  | FocusResult focus =>
      let self := match now_window focus with Some (w, _) => node self w | None => self end in
      match now_focus focus with
      | Some control =>
          let self := nodes (node self (control_node control)) (control_ancestors control) in
          let self := match control_selected_child control with
                      | Some s => node self s
                      | None => self
                      end in
          focus_text self (control_text control)
      | None => self
      end
  | Navigated (Some n) => node self n
  | AncestorsResult chain => nodes self chain
  | TreeResult dumped => tree self (root dumped)
  | TextResult reply => text_reply self reply
  | Navigated None | Activated _ | ShellItemsResult _ | ShellItemPositionResult _ => self
  end.

End Names_.

(** [OutpostToCore::named]. *)
Definition named (self : OutpostToCore) : Named :=
  match self with
  | Event _ _ _ _ _ _ event => Names_.event Names_.default event
  | Reply _ _ (Done result) _ => Names_.result Names_.default result
  | _ => Names_.default
  end.

(** ** Stamping names every node *)

Section stamping.
Context (o : OutpostId).

(** [b] names what [a] names, with the nodes stamped. *)
Definition stamped (a b : Named) : Prop :=
  named_nodes b = map (fun n => NodeIds.with_outpost n o) (named_nodes a) /\
  named_anchors b = named_anchors a.

Lemma stamped_push_node a b n :
  stamped a b -> stamped (Names_.push_node a n) (Names_.push_node b (NodeIds.with_outpost n o)).
Proof. intros [H1 H2]. split; cbn; [by rewrite H1 map_app|done]. Qed.

Lemma stamped_push_anchor a b x :
  stamped a b -> stamped (Names_.push_anchor a x) (Names_.push_anchor b x).
Proof. intros [H1 H2]. split; cbn; [done|by rewrite H2]. Qed.

Lemma stamped_node a b n :
  stamped a b -> stamped (Names_.node a n) (Names_.node b (assign_outpost n o)).
Proof. apply stamped_push_node. Qed.

Lemma stamped_fold {A} (f g : Named -> A -> Named) (h : A -> A) l a b :
  (forall a b x, x ∈ l -> stamped a b -> stamped (f a x) (g b (h x))) ->
  stamped a b -> stamped (fold_left f l a) (fold_left g (map h l) b).
Proof.
  revert a b. induction l as [|x l IH]; intros a b Hf H; [done|]. cbn. apply IH.
  - intros ? ? y Hy. apply Hf. by constructor 2.
  - apply Hf; [constructor|done].
Qed.

Lemma stamped_nodes a b l :
  stamped a b -> stamped (Names_.nodes a l) (Names_.nodes b (map (fun n => assign_outpost n o) l)).
Proof. intros H. apply stamped_fold; [|done]. intros. by apply stamped_node. Qed.

Lemma stamped_tree t a b :
  stamped a b -> stamped (Names_.tree a t) (Names_.tree b (assign_tree t o)).
Proof.
  revert t a b. fix IH 1. intros [s cs] a b H.
  assert (stamped (Names_.node a s) (Names_.node b (assign_outpost s o))) as H' by by apply stamped_node.
  cbn. revert H'. generalize (Names_.node a s) (Names_.node b (assign_outpost s o)). clear H.
  induction cs as [|c cs IHcs]; intros a' b' H; [done|]. cbn. by apply IHcs, IH.
Qed.

Lemma stamped_caret a b c : stamped a b -> stamped (Names_.caret a c) (Names_.caret b c).
Proof.
  intros H. unfold Names_.caret, Names_.chunk. cbv zeta.
  destruct (report_selection c), (selection_line c); repeat apply stamped_push_anchor; done.
Qed.

Lemma stamped_focus_text a b t :
  stamped a b -> stamped (Names_.focus_text a t) (Names_.focus_text b t).
Proof. intros H. destruct t as [[]|]; try done. by apply stamped_caret. Qed.

Lemma stamped_snapshot a b s :
  stamped a b -> stamped (Names_.snapshot_caret a s) (Names_.snapshot_caret b s).
Proof.
  intros H. unfold Names_.snapshot_caret. destruct (terminal_caret s); [|done].
  by apply stamped_caret.
Qed.

Lemma stamped_text_reply a b r :
  stamped a b -> stamped (Names_.text_reply a r) (Names_.text_reply b r).
Proof.
  intros H. destruct r; try done; cbn [Names_.text_reply].
  - destruct (reply_unit reply); [apply stamped_push_anchor|]; by apply stamped_caret.
  - by apply stamped_push_anchor.
  - revert a b H. induction chunks as [|c l IH]; intros a b H; [done|]. cbn.
    by apply IH, stamped_push_anchor.
  - by apply stamped_snapshot.
Qed.

Lemma stamped_event a b e :
  stamped a b -> stamped (Names_.event a e) (Names_.event b (assign_event e o)).
Proof.
  intros H. destruct e; cbn [Names_.event assign_event];
    eauto using stamped_node, stamped_push_node, stamped_caret, stamped_snapshot,
      stamped_push_anchor.
  apply stamped_focus_text. destruct selected_child; cbn [option_map];
    eauto using stamped_node, stamped_nodes.
Qed.

Lemma stamped_result a b r :
  stamped a b -> stamped (Names_.result a r) (Names_.result b (assign_result r o)).
Proof.
  intros H. destruct r as [f|[n|]| |chain|t|r| |]; cbn [Names_.result assign_result];
    eauto using stamped_node, stamped_nodes, stamped_tree, stamped_text_reply.
  cbn [now_window now_focus].
  destruct (now_window f) as [[w wf]|], (now_focus f) as [c|]; cbn [option_map fst];
    try (apply stamped_focus_text; destruct (control_selected_child c) eqn:E; cbn);
    rewrite ?E; cbn; eauto using stamped_node, stamped_nodes.
Qed.

End stamping.

(** Every node an outpost's message names is stamped with the outpost
    generation its pipe belongs to, in place and number unchanged, and no text
    anchor changes; and a message that names a node or an anchor always counts
    toward the positions Core acknowledges, so that the outpost never releases
    a node of a message Core has not counted. *)
Theorem message_names_stamped_and_counted (m : OutpostToCore) (o : OutpostId) :
  named_nodes (named (assign_message m o)) =
    map (fun n => NodeIds.with_outpost n o) (named_nodes (named m)) /\
  named_anchors (named (assign_message m o)) = named_anchors (named m) /\
  carries_nodes (assign_message m o) = carries_nodes m /\
  (carries_nodes m = false -> named m = Names_.default).
Proof.
  assert (stamped o Names_.default Names_.default) as H by done.
  assert (stamped o (named m) (named (assign_message m o))) as [H1 H2].
  { destruct m as [| ? ? ? ? ? ? e |? ? [r| | | |] ?| | | | | |]; try done; cbn.
    - by apply stamped_event.
    - by apply stamped_result. }
  split_and!; [done..| |]; by destruct m as [| ? ? ? ? ? ? e |? ? [r| | | |] ?| | | | | |].
Qed.

Lemma message_names_stamped_and_counted_witness :
  carries_nodes (IdleAnswer 3) = false /\ named (IdleAnswer 3) = Names_.default.
Proof.
  split; [reflexivity|].
  apply (message_names_stamped_and_counted (IdleAnswer 3) UNASSIGNED). reflexivity.
Defined.
