(* ===== verification/Merge.v ===== *)
(** Merging waiting messages: verbatim-model's [protocol/merge.rs]. A type of
    messages says how it merges by the class [Merge]; [merge_into] finds the
    waiting message a newer one is merged into. The one implementation is the
    outpost's messages to Core. *)

From S2P Require Import Prelude Tree TextModel Facts Messages.

Inductive Barrier := BarrierNone | BarrierReply | BarrierAll.

#[export] Instance Barrier_eq_dec : EqDecision Barrier.
Proof. solve_decision. Defined.

(** [Barrier]'s derived order, and its maximum. *)
Definition barrier_rank (b : Barrier) : N :=
  match b with BarrierNone => 0 | BarrierReply => 1 | BarrierAll => 2 end.
Definition barrier_max (a b : Barrier) : Barrier :=
  if barrier_rank a <=? barrier_rank b then b else a.

Class Merge (M : Type) := {
  Key : Type;
  #[global] Key_eq_dec :: EqDecision Key;
  merge_key : M -> option Key;
  barrier : M -> Barrier;
  may_merge : M -> M -> Barrier -> bool;
  merged : M -> M -> M;
}.

Section merge.
Context {M : Type} `{Merge M}.

(** The loop of [merge_into], over the waiting messages newest first. *)
Fixpoint merge_loop (key : Key) (newer : M) (crossed : Barrier) (waiting : list (nat * M))
    : option nat :=
  match waiting with
  | [] => None
  | (place, older) :: rest =>
      if bool_decide (merge_key older = Some key)
      then if may_merge older newer crossed then Some place else None
      else match barrier older with
           | BarrierAll => None
           | b => merge_loop key newer (barrier_max crossed b) rest
           end
  end.

Definition merge_into (waiting : list (nat * M)) (newer : M) : option nat :=
  match merge_key newer with
  | None => None
  | Some key => merge_loop key newer BarrierNone (rev waiting)
  end.

End merge.

(** ** The outpost's messages *)

(** [std::mem::discriminant] of an event and of a property change. *)
Definition event_discriminant (e : NormalizedEvent) : N :=
  match e with
  | FocusChanged _ _ _ _ _ _ _ => 0 | PropertyChanged _ _ _ => 1 | ValueChanged _ _ => 2
  | SelectionChanged _ => 3 | ProgressChanged _ => 4 | ControlledSelection _ _ => 5
  | NotificationEvent _ _ => 6 | AlertEvent _ => 7 | CaretMoved _ _ _ _ _ => 8
  | TextChanged _ => 9 | TerminalSnapshotEvent _ _ => 10 | ActiveTextPositionChanged _ _ => 11
  end.

Definition change_discriminant (c : PropertyChange) : N :=
  match c with
  | NameChanged _ => 0 | ValueChanged_ _ => 1 | StatesChanged _ => 2 | DescriptionChanged _ => 3
  | SuggestionsChanged _ => 4
  end.

Inductive Detail := DetailNone | DetailProperty (property : N) | DetailForeground (foreground : bool).

Record EventKey := { ek_node : NodeId; ek_kind : N; ek_detail : Detail }.

#[export] Instance Detail_eq_dec : EqDecision Detail.
Proof. solve_decision. Defined.
#[export] Instance EventKey_eq_dec : EqDecision EventKey.
Proof. solve_decision. Defined.

Definition event_key (self : OutpostToCore) : option EventKey :=
  match self with
  | Event _ _ _ _ _ _ event =>
      let key node detail :=
        Some {| ek_node := node; ek_kind := event_discriminant event; ek_detail := detail |} in
      match event with
      | FocusChanged node foreground _ _ _ _ _ => key (id node) (DetailForeground foreground)
      | PropertyChanged node_id change _ =>
          key node_id (DetailProperty (change_discriminant change))
      | SelectionChanged node | ControlledSelection _ node | AlertEvent node =>
          key (id node) DetailNone
      | ProgressChanged bar => key (bar_id bar) DetailNone
      | ValueChanged node_id _ | CaretMoved node_id _ _ _ _ | TextChanged node_id
      | ActiveTextPositionChanged node_id _ => key node_id DetailNone
      | NotificationEvent _ _ | TerminalSnapshotEvent _ _ => None
      end
  | _ => None
  end.

Definition message_barrier (self : OutpostToCore) : Barrier :=
  match self with
  | IdleAnswer _ => BarrierAll
  | Reply _ _ _ _ => BarrierReply
  | Ready _ _ | SpareReady _ | Event _ _ _ _ _ _ _ | Pong _ _ _ _ | Fault _ | NotResponding _
  | TargetExited => BarrierNone
  end.

Definition carries_selection_changes (message : OutpostToCore) : bool :=
  match message with
  | Event _ _ _ _ _ _ (CaretMoved _ _ (_ :: _) _ _) => true
  | _ => false
  end.

Definition content_changed (message : OutpostToCore) : bool :=
  match message with
  | Event _ _ _ _ _ _ (CaretMoved _ _ _ true _) => true
  | _ => false
  end.

Definition message_may_merge (older newer : OutpostToCore) (crossed : Barrier) : bool :=
  negb (carries_selection_changes older &&
        ((barrier_rank BarrierReply <=? barrier_rank crossed) || content_changed older ||
         content_changed newer)).

Definition message_merged (older newer : OutpostToCore) : OutpostToCore :=
  match older, newer with
  | Event _ _ _ _ _ _ (CaretMoved _ _ waiting _ _),
    Event trace_id observed_at_us backend window application timing
      (CaretMoved node_id caret selection_changes content_changed new_selection) =>
      Event trace_id observed_at_us backend window application timing
        (CaretMoved node_id caret (waiting ++ selection_changes) content_changed new_selection)
  | _, newer => newer
  end.

#[export] Instance OutpostToCore_Merge : Merge OutpostToCore := {
  merge_key := event_key;
  barrier := message_barrier;
  may_merge := message_may_merge;
  merged := message_merged;
}.

(** ** Where a newer message goes *)

Section merge_spec.
Context {M : Type} `{Merge M}.

(** The strongest barrier of the messages crossed. *)
Definition crossed_by (post : list (nat * M)) (start : Barrier) : Barrier :=
  fold_left (fun c w => barrier_max c (barrier w.2)) (rev post) start.

Lemma merge_loop_spec key newer start waiting place :
  merge_loop key newer start waiting = Some place <->
  exists post older pre, waiting = post ++ (place, older) :: pre /\
    merge_key older = Some key /\
    Forall (fun w => merge_key w.2 <> Some key /\ barrier w.2 <> BarrierAll) post /\
    may_merge older newer
      (fold_left (fun c w => barrier_max c (barrier w.2)) post start) = true.
Proof.
  revert start. induction waiting as [|[p m] rest IH]; intros start; cbn [merge_loop].
  { split; [done|]. intros (post & older & pre & Heq & _). by destruct post. }
  destruct (bool_decide_reflect (merge_key m = Some key)) as [Hk|Hk].
  - split.
    + intros Hm. exists [], m, rest. destruct (may_merge m newer start) eqn:E; [|done].
      injection Hm as ->. done.
    + intros (post & older & pre & Heq & Hold & HF & Hm). destruct post as [|w post].
      * injection Heq as -> -> ->. cbn in Hm. by rewrite Hm.
      * injection Heq as <- Heq. apply Forall_cons in HF as [[HF _] _]. done.
  - assert (barrier m <> BarrierAll ->
      (merge_loop key newer (barrier_max start (barrier m)) rest = Some place <->
       exists post older pre, (p, m) :: rest = post ++ (place, older) :: pre /\
         merge_key older = Some key /\
         Forall (fun w => merge_key w.2 <> Some key /\ barrier w.2 <> BarrierAll) post /\
         may_merge older newer
           (fold_left (fun c w => barrier_max c (barrier w.2)) post start) = true)) as Hstep.
    { intros Hb. rewrite IH. split.
      - intros (post & older & pre & -> & ? & ? & ?). exists ((p, m) :: post), older, pre.
        split; [done|]. split; [done|]. split; [by constructor|done].
      - intros (post & older & pre & Heq & ? & HF & ?). destruct post as [|w post].
        + by injection Heq as -> -> ->.
        + injection Heq as <- ->. apply Forall_cons in HF as [_ HF]. by exists post, older, pre. }
    destruct (barrier m) eqn:E; [by apply Hstep..|]. split; [done|].
    intros (post & older & pre & Heq & ? & HF & ?). destruct post as [|w post].
    + by injection Heq as -> -> ->.
    + injection Heq as <- ->. apply Forall_cons in HF as [[_ HF] _]. cbn in HF. by rewrite E in HF.
Qed.

(** Where a newer message is merged, for any type of message: exactly into the
    newest waiting message of its own key, when none of the messages crossed
    bars everything and the two may be merged across the strongest barrier of
    those; a message without a key is never merged. *)
Theorem merge_into_spec (waiting : list (nat * M)) (newer : M) (place : nat) :
  merge_into waiting newer = Some place <->
  exists pre older post key, waiting = pre ++ (place, older) :: post /\
    merge_key newer = Some key /\ merge_key older = Some key /\
    Forall (fun w => merge_key w.2 <> Some key /\ barrier w.2 <> BarrierAll) post /\
    may_merge older newer (crossed_by post BarrierNone) = true.
Proof.
  unfold merge_into. destruct (merge_key newer) as [key|] eqn:E.
  - rewrite merge_loop_spec. split.
    + intros (post & older & pre & Heq & Hold & HF & Hm).
      exists (rev pre), older, (rev post), key. unfold crossed_by. rewrite rev_involutive.
      split_and!; [|done|done|by apply Forall_rev|done].
      by rewrite -(rev_involutive waiting) Heq rev_app_distr /= -app_assoc.
    + intros (pre & older & post & key' & -> & [= <-] & Hold & HF & Hm).
      exists (rev post), older, (rev pre). split_and!; [|done|by apply Forall_rev|done].
      by rewrite rev_app_distr /= -app_assoc.
  - split; [done|]. by intros (? & ? & ? & ? & ? & ? & ?).
Qed.

End merge_spec.
