(* ===== verification/Outbound.v ===== *)
(** The outpost's queue of messages to Core: [Pending] of verbatim-outpost's
    [outpost/outbound.rs]. What is sent waits here only while a write is in
    flight; waiting messages are merged, urgent ones go ahead, and the messages
    that carry nodes are numbered as they are written, with what each carries
    recorded at its number. The transport and the encoding of a message are the
    environment: a flush marker is the number of the waiter it answers. *)

From S2P Require Import Prelude Tree TextModel Facts Messages Merge.

Inductive Carried := CarriedNode (number : N) | CarriedAnchor (number : N).

#[export] Instance Carried_eq_dec : EqDecision Carried.
Proof. solve_decision. Defined.
#[export] Program Instance Carried_countable : Countable Carried :=
  inj_countable' (fun c => match c with CarriedNode n => inl n | CarriedAnchor n => inr n end)
                 (fun s => match s with inl n => CarriedNode n | inr n => CarriedAnchor n end) _.
Next Obligation. by intros []. Qed.

Inductive Urgent :=
  | UrgentPong (seq parked_count parked_on_hung : N)
  | UrgentReady (outpost_pid target_pid : Pid)
  | UrgentTargetExited
  | UrgentSpareReady (outpost_pid : Pid).

Definition from_urgent (urgent : Urgent) : OutpostToCore :=
  match urgent with
  | UrgentPong seq parked_count parked_on_hung => Pong seq parked_count parked_on_hung 0
  | UrgentReady outpost_pid target_pid => Ready outpost_pid target_pid
  | UrgentTargetExited => TargetExited
  | UrgentSpareReady outpost_pid => SpareReady outpost_pid
  end.

Inductive Outgoing :=
  | OutgoingUrgent (urgent : Urgent)
  | OutgoingMessage (message : OutpostToCore) (touched : list Carried)
  | OutgoingFlushed (done : N).

Inductive Waiting :=
  | WaitingMessage (message : OutpostToCore) (touched : list Carried)
  | WaitingFlushed (done : N).

Record Report := { report_position : N; report_waiting : N }.

Definition Report_default : Report := {| report_position := 0; report_waiting := 0 |}.

Record Pending := {
  urgent : list Urgent;
  ordinary : list Waiting;
  position : N;
  reported : gmap Carried Report;
}.

Definition Pending_new : Pending :=
  {| urgent := []; ordinary := []; position := 0; reported := ∅ |}.

Definition is_flushed (w : Waiting) : bool :=
  match w with WaitingFlushed _ => true | WaitingMessage _ _ => false end.

(** [iter().rposition(..)]: the last place that [f] accepts. *)
Fixpoint rposition {A} (f : A -> bool) (l : list A) : option nat :=
  match l with
  | [] => None
  | x :: rest =>
      match rposition f rest with
      | Some i => Some (S i)
      | None => if f x then Some 0%nat else None
      end
  end.

(** One more waiting message that may report [number]. A count of waiting
    messages stays far below 2^32, where the source's [+= 1] would wrap. *)
Definition await_report (reports : gmap Carried Report) (number : Carried) : gmap Carried Report :=
  let report := default Report_default (reports !! number) in
  <[number := {| report_position := report_position report;
                 report_waiting := report_waiting report + 1 |}]> reports.

(** The messages since the last flush marker, each with its place. *)
Definition since_flush (ordinary : list Waiting) : list (nat * OutpostToCore) :=
  let from := match rposition is_flushed ordinary with Some marker => S marker | None => 0%nat end in
  omap (fun w => match w with
                 | (place, WaitingMessage message _) => Some (place, message)
                 | (_, WaitingFlushed _) => None
                 end)
    (drop from (imap (fun place w => (place, w)) ordinary)).

Definition push_message (self : Pending) (message : OutpostToCore) (touched : list Carried)
    : Pending :=
  let reported := fold_left await_report touched (reported self) in
  let '(message, touched, rest) :=
    match merge_into (since_flush (ordinary self)) message with
    | Some place =>
        match ordinary self !! place with
        | Some (WaitingMessage older older_touched) =>
            (message_merged older message, touched ++ older_touched,
             delete place (ordinary self))
        | Some (WaitingFlushed _) => (message, touched, delete place (ordinary self))
        | None => (message, touched, ordinary self)
        end
    | None => (message, touched, ordinary self)
    end in
  {| urgent := urgent self; ordinary := rest ++ [WaitingMessage message touched];
     position := position self; reported := reported |}.

Definition note_written (position : N) (reports : gmap Carried Report) (number : Carried)
    : gmap Carried Report :=
  match reports !! number with
  | Some report =>
      <[number := {| report_position := position;
                     report_waiting := report_waiting report - 1 |}]> reports
  | None => reports
  end.

(** [Pending::number]; the position is a [u64], never reached by messages. *)
Definition number_message (self : Pending) (message : OutpostToCore) (touched : list Carried)
    : Pending :=
  let position := if carries_nodes message then position self + 1 else position self in
  {| urgent := urgent self; ordinary := ordinary self; position := position;
     reported := fold_left (note_written position) touched (reported self) |}.

Definition report (self : Pending) (carried : Carried) : option (N * N) :=
  option_map (fun r => (report_position r, report_waiting r)) (reported self !! carried).

Definition forget (self : Pending) (gone : Carried -> bool) : Pending :=
  {| urgent := urgent self; ordinary := ordinary self; position := position self;
     reported := filter (fun p => gone p.1 = false) (reported self) |}.

Definition push (self : Pending) (item : Outgoing) : Pending :=
  match item with
  | OutgoingUrgent message =>
      {| urgent := urgent self ++ [message]; ordinary := ordinary self;
         position := position self; reported := reported self |}
  | OutgoingMessage message touched => push_message self message touched
  | OutgoingFlushed done =>
      {| urgent := urgent self; ordinary := ordinary self ++ [WaitingFlushed done];
         position := position self; reported := reported self |}
  end.

Definition pop (self : Pending) : option Outgoing * Pending :=
  match urgent self with
  | message :: rest =>
      (Some (OutgoingUrgent message),
       {| urgent := rest; ordinary := ordinary self; position := position self;
          reported := reported self |})
  | [] =>
      match ordinary self with
      | [] => (None, self)
      | w :: rest =>
          (Some (match w with
                 | WaitingMessage message touched => OutgoingMessage message touched
                 | WaitingFlushed done => OutgoingFlushed done
                 end),
           {| urgent := []; ordinary := rest; position := position self;
              reported := reported self |})
      end
  end.

(** [Backlog::encode]: the message written, stamped with the clock's [now_us],
    or the waiter of a flush marker answered. *)
Definition encode (self : Pending) (item : Outgoing) (now_us : N)
    : (OutpostToCore + N) * Pending :=
  match item with
  | OutgoingUrgent message => (inl (written (from_urgent message) now_us), self)
  | OutgoingMessage message touched =>
      (inl (written message now_us), number_message self message touched)
  | OutgoingFlushed done => (inr done, self)
  end.

Definition is_empty (self : Pending) : bool :=
  match urgent self, ordinary self with [], [] => true | _, _ => false end.

(** [Pending::waiting_nodes]: in increasing number, as the map's order gives
    them. *)
Definition waiting_nodes (self : Pending) : list N :=
  merge_sort N.le
    (omap (fun p => match p.1 with
                    | CarriedNode number => if 0 <? report_waiting p.2 then Some number else None
                    | CarriedAnchor _ => None
                    end)
       (map_to_list (reported self))).

(** ** The queue in use *)

(** What happens to the queue: something is sent, the next item is written, or
    the store forgets what it has freed. *)
Inductive Op :=
  | OpPush (item : Outgoing)
  | OpWrite (now_us : N)
  | OpForget (gone : Carried -> bool).

(** The queue and the ordinary messages written so far, oldest first. *)
Definition exec (s : Pending * list (OutpostToCore * list Carried)) (op : Op)
    : Pending * list (OutpostToCore * list Carried) :=
  match op with
  | OpPush item => (push s.1 item, s.2)
  | OpWrite now_us =>
      match pop s.1 with
      | (None, q) => (q, s.2)
      | (Some item, q) =>
          ((encode q item now_us).2,
           match item with
           | OutgoingMessage message touched => s.2 ++ [(message, touched)]
           | _ => s.2
           end)
      end
  | OpForget gone => (forget s.1 gone, s.2)
  end.

Definition run (ops : list Op) : Pending * list (OutpostToCore * list Carried) :=
  fold_left exec ops (Pending_new, []).

(** ** Merging in the queue *)

Lemma rposition_lookup {A} (f : A -> bool) l i :
  rposition f l = Some i ->
  exists x, l !! i = Some x /\ f x = true /\ Forall (fun y => f y = false) (drop (S i) l).
Proof.
  revert i. induction l as [|x l IH]; intros i; [done|]. cbn [rposition].
  destruct (rposition f l) as [j|] eqn:E.
  - intros [= <-]. destruct (IH j eq_refl) as (y & ? & ? & ?). by exists y.
  - destruct (f x) eqn:Ef; [|done]. intros [= <-]. exists x. split_and!; [done..|].
    cbn. clear IH Ef. rewrite drop_0. induction l as [|y l IHl]; [done|]. cbn in E.
    destruct (rposition f l); [done|]. destruct (f y) eqn:Ey; [done|]. constructor; auto.
Qed.

Lemma rposition_None {A} (f : A -> bool) l :
  rposition f l = None -> Forall (fun y => f y = false) l.
Proof.
  induction l as [|y l IH]; [done|]. cbn. destruct (rposition f l); [done|].
  destruct (f y) eqn:E; [done|]. constructor; auto.
Qed.

(** The messages of a stretch without a flush marker, each with its place. *)
Lemma since_flush_spec q :
  exists pre rest, q = pre ++ rest /\ Forall (fun w => is_flushed w = false) rest /\
    since_flush q = omap (fun w => match w with
                   | (place, WaitingMessage message _) => Some (place, message)
                   | (_, WaitingFlushed _) => None
                   end) (imap (fun i w => ((length pre + i)%nat, w)) rest).
Proof.
  unfold since_flush. set (from := match rposition is_flushed q with Some _ => _ | None => _ end).
  exists (take from q), (drop from q). split; [by rewrite take_drop|]. split.
  - unfold from. destruct (rposition is_flushed q) as [i|] eqn:E.
    + by destruct (rposition_lookup _ _ _ E) as (? & ? & ? & ?).
    + rewrite drop_0. by apply rposition_None.
  - f_equal. rewrite -{1}(take_drop from q) imap_app drop_app_length'.
    + apply imap_ext. intros i x Hx. cbn. done.
    + rewrite length_imap length_take. assert (from <= length q)%nat; [|lia]. unfold from.
      destruct (rposition is_flushed q) as [i|] eqn:E; [|lia].
      destruct (rposition_lookup _ _ _ E) as (? & ?%lookup_lt_Some & ?). lia.
Qed.

(** The places listed are those of the queue, in order. *)
Lemma since_flush_split q pre' place older post :
  since_flush q = pre' ++ (place, older) :: post ->
  exists pre t after, q = pre ++ WaitingMessage older t :: after /\ length pre = place /\
    omap (fun w => match w with WaitingMessage m _ => Some m | WaitingFlushed _ => None end) after =
      map snd post /\ Forall (fun w => is_flushed w = false) after.
Proof.
  destruct (since_flush_spec q) as (pre & rest & -> & HF & ->). intros Heq.
  revert pre pre' Heq. induction rest as [|w rest IH]; intros pre pre' Heq; [by destruct pre'|].
  apply Forall_cons in HF as [Hw HF]. destruct w as [m t|]; [|done].
  cbn [imap] in Heq. rewrite Nat.add_0_r in Heq.
  assert (imap ((fun i w => ((length pre + i)%nat, w)) ∘ S) rest =
          imap (fun i w => ((length (pre ++ [WaitingMessage m t]) + i)%nat, w)) rest) as Himap.
  { apply imap_ext. intros i x _. cbn. rewrite length_app. cbn. f_equal. lia. }
  rewrite Himap in Heq. destruct pre' as [|p pre'].
  - injection Heq as <- <- <-. exists pre, t, rest. split_and!; [done..| |done].
    clear. generalize (length (pre ++ [WaitingMessage m t])). intros n. revert n.
    induction rest as [|[m' t'|] rest IH]; intros n; [done|..]; cbn.
    + f_equal. rewrite (IH (S n)). f_equal. f_equal. apply imap_ext. intros i x _. cbn. f_equal. lia.
    + rewrite (IH (S n)). f_equal. f_equal. apply imap_ext. intros i x _. cbn. f_equal. lia.
  - injection Heq as _ Heq. destruct (IH HF (pre ++ [WaitingMessage m t]) pre' Heq)
      as (pre2 & t2 & after & Hq & Hl & Ho & HF2).
    exists pre2, t2, after. split_and!; [|done..]. by rewrite -Hq -app_assoc.
Qed.

(** A push either queues the message at the back, or replaces the waiting
    message it is merged into. *)
Lemma push_message_cases s m touched :
  (merge_into (since_flush (ordinary s)) m = None /\
   ordinary (push_message s m touched) = ordinary s ++ [WaitingMessage m touched]) \/
  (exists pre older t after key,
     ordinary s = pre ++ WaitingMessage older t :: after /\
     event_key m = Some key /\ event_key older = Some key /\
     Forall (fun w => match w with
                      | WaitingMessage k _ => event_key k <> Some key /\ message_barrier k <> BarrierAll
                      | WaitingFlushed _ => False
                      end) after /\
     (carries_selection_changes older = true ->
      Forall (fun w => match w with
                       | WaitingMessage k _ => message_barrier k = BarrierNone
                       | WaitingFlushed _ => False
                       end) after) /\
     ordinary (push_message s m touched) =
       pre ++ after ++ [WaitingMessage (message_merged older m) (touched ++ t)]).
Proof.
  unfold push_message. cbv zeta. destruct (merge_into _ m) as [place|] eqn:E; [right|by left].
  apply merge_into_spec in E as (pre' & older & post & key & Heq & Hm & Ho & HF & Hmay).
  destruct (since_flush_split _ _ _ _ _ Heq) as (pre & t & after & Hq & <- & Hafter & Hfl).
  exists pre, older, t, after, key. rewrite Hq. split; [done|]. split; [done|]. split; [done|].
  assert (Hposts : Forall (fun k => event_key k <> Some key /\ message_barrier k <> BarrierAll)
                     (map snd post)) by (by apply Forall_map).
  assert (Hall : forall P, Forall P (map snd post) ->
    Forall (fun w => match w with WaitingMessage k _ => P k | WaitingFlushed _ => False end) after).
  { intros P. rewrite -Hafter. clear -Hfl. induction after as [|[k tk|] after IH]; [done|..];
      cbn; apply Forall_cons in Hfl as [? Hfl]; [|done]. intros [? ?]%Forall_cons.
    constructor; auto. }
  split; [by apply (Hall (fun k => event_key k <> Some key /\ message_barrier k <> BarrierAll))|].
  split.
  - intros Hc. apply (Hall (fun k => message_barrier k = BarrierNone)).
    change (message_may_merge older m (crossed_by post BarrierNone) = true) in Hmay.
    unfold message_may_merge in Hmay. rewrite Hc in Hmay. cbn [andb] in Hmay.
    apply negb_true_iff in Hmay. apply orb_false_iff in Hmay as [Hmay _].
    apply orb_false_iff in Hmay as [Hmay _]. apply N.leb_gt in Hmay. unfold crossed_by in Hmay.
    assert (Hr : forall l b, barrier_rank (fold_left (fun c (w : nat * OutpostToCore) =>
       barrier_max c (barrier w.2)) l b) < 1 ->
       barrier_rank b < 1 /\ Forall (fun w => message_barrier w.2 = BarrierNone) l).
    { clear. intros l. induction l as [|w l IH]; intros b; [done|]. cbn [fold_left].
      intros [Hb HFl]%IH. change (barrier w.2) with (message_barrier w.2) in Hb.
      unfold barrier_max in Hb. destruct (message_barrier w.2) eqn:Ew, b; cbn in Hb; try lia.
      split; [cbn; lia|by constructor]. }
    apply Hr in Hmay as [_ Hmay]. apply Forall_map. apply Forall_rev in Hmay.
    by rewrite rev_involutive in Hmay.
  - rewrite list_lookup_middle //. cbn [ordinary]. rewrite delete_middle. by rewrite -app_assoc.
Qed.

(** ** What is written is what was sent *)

(** What must keep its place among the messages of node [n]'s caret: each
    selection change, the answers a change may not cross, and flush markers. *)
Inductive Shown :=
  | ShownChange (change : SelectionChange)
  | ShownReply (request : RequestId)
  | ShownIdle (round : N)
  | ShownFlush (done : N).

Definition shown (n : NodeId) (m : OutpostToCore) : list Shown :=
  match m with
  | Event _ _ _ _ _ _ (CaretMoved node _ changes _ _) =>
      if decide (node = n) then map ShownChange changes else []
  | Reply _ request _ _ => [ShownReply request]
  | IdleAnswer round => [ShownIdle round]
  | _ => []
  end.

Definition waiting_shown (n : NodeId) (w : Waiting) : list Shown :=
  match w with WaitingMessage m _ => shown n m | WaitingFlushed done => [ShownFlush done] end.

(** The messages that are never merged, with the flush markers. *)
Definition unmerged (w : Waiting) : option (OutpostToCore + N) :=
  match w with
  | WaitingMessage m _ => match event_key m with None => Some (inl m) | Some _ => None end
  | WaitingFlushed done => Some (inr done)
  end.

Lemma shown_None n w key :
  match w with
  | WaitingMessage k _ => event_key k <> Some key /\ message_barrier k = BarrierNone
  | WaitingFlushed _ => False
  end ->
  key = {| ek_node := n; ek_kind := 8; ek_detail := DetailNone |} -> waiting_shown n w = [].
Proof.
  intros H ->. destruct w as [m t|]; [|done]. destruct H as [Hk Hb]. cbn.
  destruct m as [| ? ? ? ? ? ? e| | | | | | |]; try done. destruct e; try done. cbn.
  case_decide as Hn; [|done]. subst. by destruct Hk.
Qed.

Lemma flat_map_nil {A B} (f : A -> list B) l : Forall (fun x => f x = []) l -> flat_map f l = [].
Proof. induction 1 as [|x l Hx _ IH]; [done|]. cbn. by rewrite Hx IH. Qed.

(** What the merge of two caret reports shows of a node: the older's changes
    and then the newer's; and nothing of a node either is not about. *)
Lemma shown_merged n older m key :
  event_key older = Some key -> event_key m = Some key ->
  shown n (message_merged older m) = shown n older ++ shown n m.
Proof.
  destruct older as [| ? ? ? ? ? ? e| | | | | | |]; try done.
  destruct m as [| ? ? ? ? ? ? e'| | | | | | |]; try done. intros <- Heq.
  destruct e, e'; cbn in Heq; simplify_eq; try done; cbn.
  case_decide; [by rewrite map_app|done].
Qed.

Lemma shown_empty_or_caret n m key :
  event_key m = Some key -> shown n m = [] \/
  (key = {| ek_node := n; ek_kind := 8; ek_detail := DetailNone |} /\
   carries_selection_changes m = true).
Proof.
  destruct m as [| ? ? ? ? ? ? e| | | | | | |]; try done. destruct e; try by left.
  cbn. intros [= <-]. case_decide as Hn; [|by left]. subst.
  destruct selection_changes; [by left|]. by right.
Qed.


(** ** Positions *)

(** How often [c] is among [l]. *)
Definition occurrences (c : Carried) (l : list Carried) : N :=
  N.of_nat (length (filter (fun x => x = c) l)).

Definition waiting_occurrences (c : Carried) (q : list Waiting) : N :=
  foldr (fun w n => match w with
                    | WaitingMessage _ touched => occurrences c touched + n
                    | WaitingFlushed _ => n
                    end) 0 q.

(** How many of the messages written carry nodes: the position, as Core counts
    it. *)
Definition positions (log : list (OutpostToCore * list Carried)) : N :=
  foldr (fun p n => (if carries_nodes p.1 then 1 else 0) + n) 0 log.

(** The position of the last message written that carried [c], 0 for none. *)
Fixpoint last_position_from (start : N) (c : Carried) (log : list (OutpostToCore * list Carried))
    : N :=
  match log with
  | [] => 0
  | (m, touched) :: rest =>
      let here := start + (if carries_nodes m then 1 else 0) in
      let later := last_position_from here c rest in
      if decide (Exists (fun p => c ∈ p.2) rest) then later
      else if decide (c ∈ touched) then here else 0
  end.
Definition last_position := last_position_from 0.

Lemma occurrences_cons c x l :
  occurrences c (x :: l) = (if decide (x = c) then 1 else 0) + occurrences c l.
Proof. unfold occurrences. rewrite filter_cons. case_decide; cbn [length]; lia. Qed.

Lemma occurrences_app c l k : occurrences c (l ++ k) = occurrences c l + occurrences c k.
Proof. unfold occurrences. rewrite filter_app length_app. lia. Qed.

Lemma occurrences_pos c l : 0 < occurrences c l <-> c ∈ l.
Proof.
  induction l as [|x l IH]; [split; [done|by intros ?%elem_of_nil]|].
  rewrite occurrences_cons elem_of_cons -IH. case_decide; [split; [by left|lia]|].
  split; [right; lia|]. intros [->|]; [done|lia].
Qed.

Lemma await_reports m touched c :
  fold_left await_report touched m !! c =
  if decide (c ∈ touched)
  then let r := default Report_default (m !! c) in
       Some {| report_position := report_position r;
               report_waiting := report_waiting r + occurrences c touched |}
  else m !! c.
Proof.
  revert m. induction touched as [|x l IH]; intros m; [done|]. cbn [fold_left]. rewrite IH.
  rewrite occurrences_cons. unfold await_report. destruct (decide (x = c)) as [->|Hx].
  - rewrite lookup_insert_eq. cbn [default]. rewrite (decide_True (P := c ∈ c :: l)); [|constructor].
    case_decide as Hl; [|].
    + cbn. f_equal. f_equal. lia.
    + cbn. f_equal. f_equal. assert (occurrences c l = 0); [|lia].
      rewrite -occurrences_pos in Hl. lia.
  - rewrite lookup_insert_ne //. cbv zeta. rewrite N.add_0_l.
    destruct (decide (c ∈ l)) as [Hl|Hl].
    + rewrite decide_True //. by constructor.
    + rewrite decide_False //. rewrite elem_of_cons. intros [->|?]; done.
Qed.

Lemma note_writtens p m touched c :
  fold_left (note_written p) touched m !! c =
  if decide (c ∈ touched)
  then option_map (fun r => {| report_position := p;
                               report_waiting := report_waiting r - occurrences c touched |}) (m !! c)
  else m !! c.
Proof.
  revert m. induction touched as [|x l IH]; intros m; [done|]. cbn [fold_left]. rewrite IH.
  rewrite occurrences_cons. unfold note_written. destruct (decide (x = c)) as [->|Hx].
  - rewrite (decide_True (P := c ∈ c :: l)); [|constructor].
    destruct (m !! c) as [r|] eqn:E.
    + rewrite lookup_insert_eq. case_decide as Hl; cbn.
      * f_equal. f_equal. lia.
      * f_equal. f_equal. assert (occurrences c l = 0); [|lia].
        rewrite -occurrences_pos in Hl. lia.
    + rewrite E. by case_decide.
  - rewrite N.add_0_l.
    assert ((match m !! x with
             | Some r => <[x:={| report_position := p; report_waiting := report_waiting r - 1 |}]> m
             | None => m end) !! c = m !! c) as ->.
    { destruct (m !! x); [by rewrite lookup_insert_ne|done]. }
    destruct (decide (c ∈ l)) as [Hl|Hl].
    + rewrite decide_True //. by constructor.
    + rewrite decide_False //. rewrite elem_of_cons. intros [->|?]; done.
Qed.

Lemma positions_app log k : positions (log ++ k) = positions log + positions k.
Proof. induction log as [|p log IH]; [done|]. cbn [app]. unfold positions in *. cbn [foldr]. lia. Qed.

Lemma last_position_snoc c log m t :
  last_position c (log ++ [(m, t)]) =
  if decide (c ∈ t) then positions (log ++ [(m, t)]) else last_position c log.
Proof.
  unfold last_position.
  assert (forall start, last_position_from start c (log ++ [(m, t)]) =
    if decide (c ∈ t) then start + positions (log ++ [(m, t)])
    else last_position_from start c log) as Hs; [|by rewrite Hs N.add_0_l].
  induction log as [|[m' t'] log IH]; intros start; cbn [app last_position_from].
  - destruct (decide (Exists _ [])) as [He|_]; [by apply Exists_nil in He|].
    case_decide; [cbn; lia|done].
  - rewrite IH. destruct (decide (c ∈ t)) as [Ht|Ht].
    + destruct (decide (Exists _ _)) as [_|He];
        [cbn [app positions foldr fst]; unfold positions; lia|destruct He; apply Exists_app; right; by constructor].
    + destruct (decide (Exists (fun p => c ∈ p.2) log)) as [He|He].
      * rewrite decide_True //. apply Exists_app. by left.
      * rewrite decide_False //. rewrite Exists_app. intros [?|[?|?%Exists_nil]%Exists_cons]; done.
Qed.

Lemma waiting_occurrences_app c q k :
  waiting_occurrences c (q ++ k) = waiting_occurrences c q + waiting_occurrences c k.
Proof. induction q as [|[] q IH]; cbn [app waiting_occurrences foldr] in *; [done|..]; unfold waiting_occurrences in *; lia. Qed.

Lemma waiting_occurrences_push s m touched c :
  waiting_occurrences c (ordinary (push_message s m touched)) =
  waiting_occurrences c (ordinary s) + occurrences c touched.
Proof.
  destruct (push_message_cases s m touched) as [[_ ->]|(pre & older & t & after & key & -> & _ & _ & _ & _ & ->)];
    rewrite !waiting_occurrences_app; cbn [waiting_occurrences foldr]; rewrite ?occurrences_app;
    unfold waiting_occurrences; lia.
Qed.

(** Whether a message that may report [c] was sent. *)
Definition sent (c : Carried) (ops : list Op) : Prop :=
  Exists (fun op => match op with
                    | OpPush (OutgoingMessage _ touched) => c ∈ touched
                    | _ => False
                    end) ops.

#[export] Instance sent_dec c ops : Decision (sent c ops).
Proof.
  unfold sent. apply Exists_dec. intros [[]| |]; apply _.
Defined.

(** No forgetting of the run names [c]. *)
Definition kept (c : Carried) (ops : list Op) : Prop :=
  forall gone, OpForget gone ∈ ops -> gone c = false.

Definition accounts (c : Carried) (sent : Prop) (s : Pending)
    (log : list (OutpostToCore * list Carried)) : Prop :=
  position s = positions log /\
  (sent -> reported s !! c = Some {| report_position := last_position c log;
                                     report_waiting := waiting_occurrences c (ordinary s) |}) /\
  (~ sent -> reported s !! c = None /\ waiting_occurrences c (ordinary s) = 0 /\
             last_position c log = 0).

Lemma accounts_push c P s log m touched :
  accounts c P s log -> accounts c (P \/ c ∈ touched) (push_message s m touched) log.
Proof.
  intros (Hp & Hs & Hn).
  assert (reported (push_message s m touched) = fold_left await_report touched (reported s)) as Hr.
  { unfold push_message. cbv zeta. by repeat case_match. }
  assert (position (push_message s m touched) = position s) as Hpos.
  { unfold push_message. cbv zeta. by repeat case_match. }
  unfold accounts. rewrite Hpos Hr await_reports waiting_occurrences_push. split; [done|].
  destruct (decide (c ∈ touched)) as [Ht|Ht].
  - split; [|intros []; by right]. intros _. cbv zeta.
    destruct (reported s !! c) as [r|] eqn:E; cbn [default from_option].
    + unfold Datatypes.id.
      assert (~ ~ P) as HP. { intros HnP. by destruct (Hn HnP). }
      assert (report_position r = last_position c log /\
              report_waiting r = waiting_occurrences c (ordinary s)) as [-> ->]; [|done].
      split; apply dec_stable; intros Hc; apply HP; intros HP';
        apply Hc; by injection (Hs HP') as ->.
    + assert (~ P) as HP by (intros HP; specialize (Hs HP); congruence).
      destruct (Hn HP) as (_ & Hw & Hl). by rewrite Hl Hw.
  - assert (occurrences c touched = 0) as -> by (rewrite -occurrences_pos in Ht; lia).
    rewrite N.add_0_r. split; [intros [HP|?]; [by apply Hs|done]|].
    intros HnP. apply Hn. intros HP. apply HnP. by left.
Qed.

Lemma accounts_write c P s log now :
  accounts c P s log -> accounts c P (exec (s, log) (OpWrite now)).1 (exec (s, log) (OpWrite now)).2.
Proof.
  intros (Hp & Hs & Hn). cbn [exec fst snd]. unfold pop.
  destruct (urgent s) as [|u us]; [|by split_and!].
  destruct (ordinary s) as [|[m t|d] rest] eqn:E; cbn [fst snd encode].
  - unfold accounts. by rewrite E.
  - assert (Hpos : (if carries_nodes m then position s + 1 else position s) =
             positions (log ++ [(m, t)])).
    { rewrite positions_app -Hp. cbn. destruct (carries_nodes m); lia. }
    unfold accounts, number_message. cbn [position ordinary reported].
    rewrite Hpos note_writtens last_position_snoc. split; [done|].
    cbn [waiting_occurrences foldr] in Hs, Hn. fold (waiting_occurrences c rest) in Hs, Hn.
    split.
    + intros HP. rewrite (Hs HP). case_decide as Ht; cbn.
      * f_equal. f_equal. unfold waiting_occurrences. lia.
      * assert (occurrences c t = 0) as -> by (rewrite -occurrences_pos in Ht; lia).
        by rewrite N.add_0_l.
    + intros HP. destruct (Hn HP) as (HN & HW & HL).
      assert (occurrences c t = 0 /\ waiting_occurrences c rest = 0) as [H1 H2] by (split; unfold waiting_occurrences in *; lia).
      assert (c ∉ t) as Ht by (by rewrite -occurrences_pos H1). rewrite !decide_False //.
  - unfold accounts. cbn [position ordinary reported].
    cbn [waiting_occurrences foldr] in Hs, Hn. by fold (waiting_occurrences c rest) in Hs, Hn.
Qed.

Lemma accounts_iff c P Q s log : (P <-> Q) -> accounts c P s log -> accounts c Q s log.
Proof. unfold accounts. tauto. Qed.

Lemma accounts_step c P s log op :
  (forall gone, op = OpForget gone -> gone c = false) -> accounts c P s log ->
  accounts c (P \/ sent c [op]) (exec (s, log) op).1 (exec (s, log) op).2.
Proof.
  intros Hf H. destruct op as [[u|m t|d]|now|gone]; cbn [exec fst snd].
  - apply (accounts_iff c P); [|done]. unfold sent. rewrite Exists_cons Exists_nil. tauto.
  - eapply accounts_iff; [|by apply accounts_push]. unfold sent. rewrite Exists_cons Exists_nil. tauto.
  - apply (accounts_iff c P); [unfold sent; rewrite Exists_cons Exists_nil; tauto|].
    unfold accounts in *. cbn [push position ordinary reported]. rewrite waiting_occurrences_app.
    cbn [waiting_occurrences foldr]. by rewrite N.add_0_r.
  - eapply accounts_iff; [|by apply accounts_write]. unfold sent. rewrite Exists_cons Exists_nil. tauto.
  - apply (accounts_iff c P); [unfold sent; rewrite Exists_cons Exists_nil; tauto|].
    unfold accounts in *. cbn [forget position ordinary reported].
    assert (filter (fun p : Carried * Report => gone p.1 = false) (reported s) !! c = reported s !! c)
      as ->; [|done].
    destruct (reported s !! c) as [r|] eqn:E.
    + apply map_lookup_filter_Some. split; [done|]. by apply Hf.
    + apply map_lookup_filter_None. by left.
Qed.

(** What the queue records is exact, over any run of sends, writes and the
    store's forgetting of other things: the position is the number of written
    messages that carry nodes, as Core counts them; and for anything a message
    named, the queue answers the position of the last message written that
    carried it and how many mentions still wait, whatever was merged, and
    nothing when no message named it. So what the store frees when none waits
    and the position is acknowledged is in no message Core has yet to see. *)
Theorem outbound_reports_exact (ops : list Op) (c : Carried) :
  kept c ops ->
  let '(s, log) := run ops in
  position s = positions log /\
  report s c = if decide (sent c ops)
               then Some (last_position c log, waiting_occurrences c (ordinary s))
               else None.
Proof.
  intros Hk. unfold run.
  assert (forall ops s log P, kept c ops -> accounts c P s log ->
    accounts c (P \/ sent c ops) (fold_left exec ops (s, log)).1 (fold_left exec ops (s, log)).2) as Hrun.
  { clear. induction ops as [|op ops IH]; intros s log P Hk H.
    - eapply accounts_iff; [|exact H]. unfold sent. rewrite Exists_nil. tauto.
    - cbn [fold_left]. rewrite (surjective_pairing (exec (s, log) op)).
      eapply accounts_iff; [|apply IH, (accounts_step c P)].
      + unfold sent. rewrite !Exists_cons Exists_nil. tauto.
      + intros gone Hg. apply Hk. by constructor 2.
      + intros gone ->. apply Hk. constructor.
      + done. }
  specialize (Hrun ops Pending_new [] False Hk).
  destruct (fold_left exec ops (Pending_new, [])) as [s log]. cbn [fst snd] in Hrun.
  destruct Hrun as (Hp & Hs & Hn).
  { split; [done|]. split; [done|]. intros _. done. }
  split; [done|]. unfold report. case_decide as Hd.
  - by rewrite Hs; [|right].
  - destruct Hn as [-> _]; [|done]. intros [[]|?]; done.
Qed.

(** A caret report of node 7, observed at [at_us]. *)
Definition sample_caret (at_us : N) : OutpostToCore :=
  Event {| trace_number := 1 |} at_us Uia None None EventTiming_default
    (CaretMoved (NodeIds.new 7)
       {| line := {| chunk_unit := UnitLine; chunk_text := "a";
                     chunk_start := {| anchor_number := 4 |}; chunk_offset := 0;
                     languages := []; chunk_first := true; chunk_last := true; chunk_truncated := false;
                     formats := [] |};
          report_selection := None; selection_line := None |} [] false None).

Definition sample_ops : list Op :=
  [OpPush (OutgoingMessage (sample_caret 1) [CarriedNode 7]);
   OpPush (OutgoingMessage (sample_caret 2) [CarriedNode 7]); OpWrite 9].

(** A node named by two caret reports: the first waits, the second is merged
    with it, and their one message is written as message 1. *)
Lemma outbound_reports_exact_witness :
  report (run (take 2 sample_ops)).1 (CarriedNode 7) = Some (0, 2) /\
  report (run sample_ops).1 (CarriedNode 7) = Some (1, 0).
Proof.
  assert (Hk : forall k, kept (CarriedNode 7) (take k sample_ops)).
  { intros k gone Hg. exfalso. apply list_elem_of_lookup in Hg as [i Hi].
    destruct k as [|[|[|[|]]]], i as [|[|[|]]]; done. }
  split.
  - pose proof (outbound_reports_exact _ _ (Hk 2%nat)) as H. vm_compute in H. vm_compute. apply H.
  - pose proof (outbound_reports_exact _ _ (Hk 3%nat)) as H. vm_compute in H. vm_compute. apply H.
Defined.
