(* ===== verification/Policy.v ===== *)
(** The supervisor's pure decisions: verbatim-core's [supervisor/policy.rs].
    When a child is stuck ([wedge_decision]), when an idle outpost is retired,
    how long a failed outpost's replacement waits ([Backoffs]), how facts that
    arrive during a start are held ([Held]), and which spare outposts are kept
    and given ([SparesList]). *)

From S2P Require Import Prelude Tree Facts.

(** ** Stuck and idle children *)

Inductive WedgeReason := MissedHeartbeats | AbandonedWorkers.

Record WedgeLimits := {
  ping_interval : Duration.t;
  missed_pongs : N;
  abandoned_workers : N;
}.

Record Parked := { on_hung : N; other : N }.
Definition Parked_default : Parked := {| on_hung := 0; other := 0 |}.

Definition since_us (earlier later : N) : Duration.t := Duration.from_micros (later - earlier).

(** [u64::try_from(wait.as_micros()).unwrap_or(u64::MAX)] is the least of the
    two. *)
Definition after_us (at_us : N) (wait : Duration.t) : N :=
  at_us +|64| N.min U64_MAX (Duration.as_micros wait).

Definition wedge_decision (last_pong_us now_us : N) (limits : WedgeLimits) (parked : Parked)
    : option WedgeReason :=
  if abandoned_workers limits <=? other parked then Some AbandonedWorkers
  else if Duration.saturating_mul (ping_interval limits) (missed_pongs limits)
          <=? since_us last_pong_us now_us
  then Some MissedHeartbeats
  else None.

Module Live.
Record Liveness := { last_pong_us : N }.
Definition new (now_us : N) : Liveness := {| last_pong_us := now_us |}.
Definition ponged (self : Liveness) (at_us : N) : Liveness := {| last_pong_us := at_us |}.
Definition wedged (self : Liveness) (now_us : N) (limits : WedgeLimits) : option WedgeReason :=
  wedge_decision (last_pong_us self) now_us limits Parked_default.
End Live.

Definition retirement_decision (last_attention_us now_us : N) (idle_after : Duration.t)
    (holds_attention nodes_held : bool) : bool :=
  negb holds_attention && negb nodes_held &&
  (idle_after <=? since_us last_attention_us now_us).

(** ** The backoff between failures *)

Module Backoffs.

Record Backoff := { failures : N; due_us : option N }.

(** [Backoff::default()]. *)
Definition new : Backoff := {| failures := 0; due_us := None |}.

(** The first wait, the longest one, and how long an outpost stays up to have
    its failures forgotten. *)
Record Times := { first : Duration.t; limit : Duration.t; stayed_up : Duration.t }.

(** The wait of a count of failures: 2^(failures - 2) times the first. *)
Definition wait_of (failures : N) (times : Times) : Duration.t :=
  if failures =? 1 then 0
  else let doublings := N.min (failures - 2) 31 in
       N.min (Duration.saturating_mul (first times) (N.shiftl 1 doublings)) (limit times).

Definition failed (self : Backoff) (up : Duration.t) (now_us : N) (times : Times)
    : Duration.t * Backoff :=
  let failures := if stayed_up times <=? up then 0 else failures self in
  let failures := failures +|32| 1 in
  let wait := wait_of failures times in
  (wait,
   {| failures := failures;
      due_us := if negb (Duration.is_zero wait) then Some (after_us now_us wait) else None |}).

Definition due (self : Backoff) : option N := due_us self.

Definition ended (self : Backoff) (now_us : N) : bool * Backoff :=
  let ended := match due_us self with Some due => due <=? now_us | None => false end in
  (ended, if ended then {| failures := failures self; due_us := None |} else self).

Definition foreground (self : Backoff) : bool * Backoff :=
  (match due_us self with Some _ => true | None => false end, new).

(** The order of the due pairs: [(u64, Pid)]'s own. *)
Definition due_le (a b : N * Pid) : Prop :=
  a.1 < b.1 \/ (a.1 = b.1 /\ pid_number a.2 <= pid_number b.2).

#[global] Instance due_le_dec : RelDecision due_le.
Proof. intros [??] [??]. unfold due_le. simpl. apply _. Defined.
#[global] Instance due_le_trans : Transitive due_le.
Proof. intros [??] [??] [??]. unfold due_le. simpl. lia. Qed.
#[global] Instance due_le_total : Total due_le.
Proof. intros [??] [??]. unfold due_le. simpl. lia. Qed.

(** One backoff of [due_starts]: its due pair when it has ended, and what is
    left of it. *)
Definition due_start (now_us : N) (entry : Pid * Backoff) : option (N * Pid) * (Pid * Backoff) :=
  let '(pid, backoff) := entry in
  match due backoff with
  | None => (None, entry)
  | Some due_us =>
      let '(ended, backoff) := ended backoff now_us in
      (if ended then Some (due_us, pid) else None, (pid, backoff))
  end.

Definition due_starts (backoffs : list (Pid * Backoff)) (now_us : N)
    : list Pid * list (Pid * Backoff) :=
  let started := map (due_start now_us) backoffs in
  (map snd (merge_sort due_le (omap fst started)), map snd started).

End Backoffs.

(** ** Facts held while an outpost starts *)

Module Held.

Record Received := { at_us : N }.

Record HeldFact := {
  trace_id : TraceId;
  timing : EventTiming;
  fact : DeliveredFact;
  win_event : option WinEventStamp;
  received : Received;
}.

(** A fact's key, with its own event. *)
Definition fact_key (f : HeldFact) : option FactKey := key (fact f) (win_event f).

Record HeldFacts := { facts : list HeldFact; first_held_us : option N }.

(** [HeldFacts::default()]. *)
Definition new : HeldFacts := {| facts := []; first_held_us := None |}.

Definition hold (self : HeldFacts) (fact : HeldFact) (now_us : N) : HeldFacts :=
  let kept :=
    match fact_key fact with
    | Some k => List.filter (fun held => negb (bool_decide (fact_key held = Some k))) (facts self)
    | None => facts self
    end in
  {| facts := kept ++ [fact];
     first_held_us := Some (default now_us (first_held_us self)) |}.

Definition take (self : HeldFacts) : list HeldFact * HeldFacts := (facts self, new).

End Held.

(** ** Spare outposts *)

Module SparesList.

Record Spares := {
  kept : bool;
  waiting : list (OutpostId * bool);
  backoff : Backoffs.Backoff;
}.

(** [Spares::default()]. *)
Definition new : Spares := {| kept := false; waiting := []; backoff := Backoffs.new |}.

Definition keep (self : Spares) : bool * Spares :=
  (negb (kept self), {| kept := true; waiting := waiting self; backoff := backoff self |}).

Definition set_backoff (self : Spares) (b : Backoffs.Backoff) : Spares :=
  {| kept := kept self; waiting := waiting self; backoff := b |}.
Definition set_waiting (self : Spares) (w : list (OutpostId * bool)) : Spares :=
  {| kept := kept self; waiting := w; backoff := backoff self |}.

Definition wanted (self : Spares) (count : N) (now_us : N) : N * Spares :=
  if negb (kept self) then (0, self)
  else match Backoffs.due (backoff self) with
       | Some _ =>
           let '(ended, b) := Backoffs.ended (backoff self) now_us in
           (if ended then count - N.of_nat (length (waiting self)) else 0, set_backoff self b)
       | None => (count - N.of_nat (length (waiting self)), self)
       end.

Definition due (self : Spares) : option N := Backoffs.due (backoff self).

Definition add (self : Spares) (spare : OutpostId) : Spares :=
  set_waiting self (waiting self ++ [(spare, false)]).

(** [iter_mut().find(..)] and the change of the entry found. *)
Fixpoint mark_ready (spare : OutpostId) (l : list (OutpostId * bool))
    : option (list (OutpostId * bool)) :=
  match l with
  | [] => None
  | (o, r) :: l => if bool_decide (o = spare) then Some ((o, true) :: l)
                   else option_map (cons (o, r)) (mark_ready spare l)
  end.

Definition ready (self : Spares) (spare : OutpostId) : option N * Spares :=
  match mark_ready spare (waiting self) with
  | None => (None, self)
  | Some w => (Some (N.of_nat (length (List.filter snd w))), set_waiting self w)
  end.

Definition take (self : Spares) : option OutpostId * Spares :=
  if negb (kept self) then (None, self)
  else match waiting self with
       | [] => (None, self)
       | (spare, _) :: w => (Some spare, set_waiting self w)
       end.

Definition remove (self : Spares) (spare : OutpostId) : bool * Spares :=
  let w := List.filter (fun '(o, _) => negb (bool_decide (o = spare))) (waiting self) in
  (negb (length w =? length (waiting self))%nat, set_waiting self w).

Definition failed (self : Spares) (up : Duration.t) (now_us : N) (times : Backoffs.Times)
    : Duration.t * Spares :=
  let '(wait, b) := Backoffs.failed (backoff self) up now_us times in
  (wait, set_backoff self b).

End SparesList.

Definition SNAP_RESULTS_ACTIVITY : string := "Windows.Shell.SnapComponent.SnapHotKeyResults".

Definition may_start_outpost (fact : DeliveredFact) : bool :=
  match fact with
  | UiaSelection _ _ _ | UiaFocusDropped _ _ _ | UiaFocusReadsEnded => false
  | UiaNotification _ _ notification =>
      bool_decide (activity_id notification = Some SNAP_RESULTS_ACTIVITY)
  | UiaFocusMarker _ | UiaFocusRead_ _ _ _ | UiaMarked _ _ | MsaaFocus _ _ _ | Foreground _
  | MenuPopup _ _ _ | Alert _ _ _ | Show _ _ _ => true
  end.
