(* ===== verification/PolicyProps.v ===== *)
(** Properties of the supervisor's decisions ([Policy]): the backoff doubles up
    to its limit and never overflows, the starts due are those of the waits
    that ended in the order they ended, held facts are released in the order
    they last happened with one per object and kind, and spare outposts are
    given once, oldest first. *)

From S2P Require Import Prelude Tree Facts Policy.

(** ** The backoff *)

Section backoff.
Import Backoffs.
Variable times : Times.

(** A run of failures, each of an outpost that had been up for some time and
    failed at some instant: the waits it answers. *)
Fixpoint fail_run (b : Backoff) (run : list (Duration.t * N)) : list Duration.t * Backoff :=
  match run with
  | [] => ([], b)
  | (up, now) :: run =>
      let '(wait, b) := failed b up now times in
      let '(waits, b) := fail_run b run in
      (wait :: waits, b)
  end.

(** The wait of the failure numbered [k] from 0: none, then the first wait,
    doubling up to the limit. *)
Definition ideal_wait (k : nat) : Duration.t :=
  match k with
  | O => 0
  | S j => N.min (first times * 2 ^ N.of_nat j) (limit times)
  end.

Hypothesis Hreach : limit times <= first times * 2 ^ 31.
Hypothesis Hmax : limit times <= Duration.MAX.

Lemma wait_of_ideal k : wait_of (N.min U32_MAX (N.of_nat k + 1)) times = ideal_wait k.
Proof.
  unfold wait_of, ideal_wait, Duration.saturating_mul, U32_MAX. destruct k as [|j]; [done|].
  destruct (N.eqb_spec (N.min 0xFFFFFFFF (N.of_nat (S j) + 1)) 1); [lia|].
  replace (N.min (N.min 0xFFFFFFFF (N.of_nat (S j) + 1) - 2) 31) with (N.min (N.of_nat j) 31) by lia.
  rewrite N.shiftl_1_l. destruct (N.le_gt_cases (N.of_nat j) 31) as [Hj|Hj].
  - rewrite (N.min_l (N.of_nat j) 31) //.
    generalize (first times * 2 ^ N.of_nat j) as x. intros x. lia.
  - rewrite (N.min_r (N.of_nat j) 31); [|lia].
    assert (first times * 2 ^ 31 <= first times * 2 ^ N.of_nat j) as Hle.
    { apply N.mul_le_mono_l, N.pow_le_mono_r; lia. }
    generalize dependent (first times * 2 ^ N.of_nat j).
    generalize dependent (first times * 2 ^ 31). intros. lia.
Qed.

Lemma fail_run_waits run : forall k b,
  failures b = N.min U32_MAX (N.of_nat k) ->
  Forall (fun '(up, _) => up < stayed_up times) run ->
  (fail_run b run).1 = map ideal_wait (seq k (length run)).
Proof.
  induction run as [|[up now] run IH]; intros k b Hb Hup; [done|].
  apply Forall_cons in Hup as [Hu Hup]. cbn [fail_run length seq map].
  assert (failures (failed b up now times).2 = N.min U32_MAX (N.of_nat (S k))) as Hf.
  { unfold failed. simpl. destruct (N.leb_spec (stayed_up times) up); [lia|].
    unfold saturating_add, U32_MAX in *. lia. }
  assert ((failed b up now times).1 = ideal_wait k) as Hw.
  { rewrite -wait_of_ideal. unfold failed. simpl. f_equal.
    destruct (N.leb_spec (stayed_up times) up); [lia|]. rewrite Hb.
    unfold saturating_add, U32_MAX. lia. }
  destruct (failed b up now times) as [wait b'] eqn:Heq.
  destruct (fail_run b' run) as [waits b''] eqn:Hrun. cbn [fst snd] in *. subst wait.
  f_equal. specialize (IH (S k) b' Hf Hup). by rewrite Hrun in IH.
Qed.

End backoff.

(** The waits of a run of failures: the first is replaced at once, and
    each further one waits twice as long as the one before, from the first
    wait up to the limit, however many failures there are: neither the count,
    the doubling nor the wait ever overflows. The premises are that 2^31 first
    waits reach the limit, which is a [Duration]. *)
Theorem backoff_waits times run :
  Backoffs.limit times <= Backoffs.first times * 2 ^ 31 ->
  Backoffs.limit times <= Duration.MAX ->
  Forall (fun '(up, _) => up < Backoffs.stayed_up times) run ->
  (fail_run times Backoffs.new run).1 = map (ideal_wait times) (seq 0 (length run)).
Proof. intros H1 H2 H3. by apply fail_run_waits. Qed.

Lemma backoff_waits_witness :
  let times := {| Backoffs.first := Duration.from_millis 500;
                  Backoffs.limit := Duration.from_millis 3000;
                  Backoffs.stayed_up := Duration.from_millis 60000 |} in
  (fail_run times Backoffs.new (repeat (Duration.from_millis 10, 7) 6)).1 =
    map Duration.from_millis [0; 500; 1000; 2000; 3000; 3000].
Proof.
  intros times.
  rewrite (backoff_waits times (repeat (Duration.from_millis 10, 7) 6));
    [vm_compute; reflexivity|vm_compute; discriminate..|].
  repeat constructor.
Defined.

(** When a wait runs, and what ends it: a failure leaves a wait running
    exactly when its wait is not nothing, due that long after it; a wait ends
    once, at the first instant at or after it is due; and the application in
    the foreground, or an outpost that had stayed up, starts the count again,
    so that the failure is replaced at once. *)
Theorem backoff_wait_ends b up now now' times :
  let '(wait, b') := Backoffs.failed b up now times in
  (Backoffs.due b' = if wait =? 0 then None else Some (after_us now wait)) /\
  (Backoffs.ended b' now').1 = (match Backoffs.due b' with Some d => d <=? now' | None => false end) /\
  ((Backoffs.ended b' now').1 = true ->
     forall later, (Backoffs.ended (Backoffs.ended b' now').2 later).1 = false) /\
  (Backoffs.stayed_up times <= up -> wait = 0) /\
  (let '(ran, b'') := Backoffs.foreground b' in
   ran = negb (wait =? 0) /\ Backoffs.due b'' = None /\
   (Backoffs.failed b'' up now times).1 = 0).
Proof.
  unfold Backoffs.failed, Backoffs.ended, Backoffs.due, Backoffs.foreground, Duration.is_zero.
  cbv zeta. simpl. set (wait := Backoffs.wait_of _ _).
  split_and!.
  - by destruct (wait =? 0).
  - done.
  - intros Hended later. by rewrite Hended.
  - intros Hup. unfold wait. apply N.leb_le in Hup. by rewrite Hup.
  - by destruct (wait =? 0).
  - done.
  - by destruct (Backoffs.stayed_up times <=? up).
Qed.

(** ** The starts that are due *)

(** When and for whom a backoff's wait has ended. *)
Definition ended_wait (now : N) (entry : Pid * Backoffs.Backoff) : option (N * Pid) :=
  match Backoffs.due entry.2 with
  | Some due => if due <=? now then Some (due, entry.1) else None
  | None => None
  end.

Lemma due_start_spec now entry :
  (Backoffs.due_start now entry).1 = ended_wait now entry /\
  (Backoffs.due_start now entry).2 =
    (entry.1, if ended_wait now entry
              then {| Backoffs.failures := Backoffs.failures entry.2; Backoffs.due_us := None |}
              else entry.2).
Proof.
  destruct entry as [pid [n [d|]]]; [|split; reflexivity].
  unfold Backoffs.due_start, ended_wait, Backoffs.ended. simpl. by destruct (d <=? now).
Qed.

Lemma due_starts_spec bs now :
  Backoffs.due_starts bs now =
    (map snd (merge_sort Backoffs.due_le (omap (ended_wait now) bs)),
     map (fun entry => (Backoffs.due_start now entry).2) bs).
Proof.
  unfold Backoffs.due_starts. rewrite map_map. f_equal. do 2 f_equal.
  induction bs as [|e bs IH]; [done|]. simpl. rewrite (proj1 (due_start_spec now e)).
  destruct (ended_wait now e); [f_equal|]; exact IH.
Qed.

(** Which applications are given their next outposts, and in what order:
    those whose waits ended, each once, in the order the waits ended and by
    process id when two ended together; their waits are told so and every
    other backoff is left as it is, so that asking again gives none. *)
Theorem due_starts_order bs now :
  let '(pids, bs') := Backoffs.due_starts bs now in
  (exists pairs, pids = map snd pairs /\ StronglySorted Backoffs.due_le pairs /\
     pairs ≡ₚ omap (ended_wait now) bs) /\
  bs' = map (fun '(pid, b) =>
     (pid, if ended_wait now (pid, b)
           then {| Backoffs.failures := Backoffs.failures b; Backoffs.due_us := None |}
           else b)) bs /\
  (Backoffs.due_starts bs' now).1 = [].
Proof.
  rewrite due_starts_spec. split_and!.
  - exists (merge_sort Backoffs.due_le (omap (ended_wait now) bs)). split_and!; [done|..].
    + apply StronglySorted_merge_sort; apply _.
    + apply merge_sort_Permutation.
  - apply map_ext. intros [pid b]. by rewrite (proj2 (due_start_spec now (pid, b))).
  - rewrite due_starts_spec. simpl.
    enough (omap (ended_wait now) (map (fun e => (Backoffs.due_start now e).2) bs) = []) as ->
      by done.
    induction bs as [|e bs IH]; [done|]. simpl. rewrite (proj2 (due_start_spec now e)).
    destruct (ended_wait now e) eqn:He; unfold ended_wait at 1; simpl; [exact IH|].
    destruct e as [pid b]. unfold ended_wait in He. simpl in *.
    destruct (Backoffs.due b) as [d|]; [|exact IH]. by destruct (d <=? now).
Qed.

(** ** Facts held while an outpost starts *)

Section held.
Import Held.

(** A later fact of [rest] is for the same object and kind. *)
Definition replaced (f : HeldFact) (rest : list HeldFact) : bool :=
  match fact_key f with
  | Some k => existsb (fun g => bool_decide (fact_key g = Some k)) rest
  | None => false
  end.

(** The facts no later one replaced, in the order they happened. *)
Fixpoint survivors (fs : list HeldFact) : list HeldFact :=
  match fs with
  | [] => []
  | f :: rest => if replaced f rest then survivors rest else f :: survivors rest
  end.

(** Every fact held, in arrival order, each at its instant. *)
Definition hold_all (run : list (HeldFact * N)) : HeldFacts :=
  fold_left (fun h '(f, now) => hold h f now) run new.

Lemma replaced_app f fs g :
  replaced f (fs ++ [g]) =
    replaced f fs || match fact_key g with Some k => bool_decide (fact_key f = Some k)
                                         | None => false end.
Proof.
  unfold replaced. destruct (fact_key f) as [k|]; simpl.
  - rewrite existsb_app. simpl. rewrite orb_false_r. f_equal.
    destruct (fact_key g) as [k'|]; repeat case_bool_decide; congruence.
  - by destruct (fact_key g).
Qed.

Lemma survivors_snoc fs f :
  survivors (fs ++ [f]) =
    match fact_key f with
    | Some k => List.filter (fun held => negb (bool_decide (fact_key held = Some k))) (survivors fs)
    | None => survivors fs
    end ++ [f].
Proof.
  induction fs as [|g fs IH]; simpl.
  - unfold replaced. by destruct (fact_key f).
  - rewrite replaced_app IH. destruct (replaced g fs) eqn:Hr; simpl; [done|].
    destruct (fact_key f) as [k|]; simpl; [|done]. by case_bool_decide.
Qed.

Lemma hold_all_snoc run f now : hold_all (run ++ [(f, now)]) = hold (hold_all run) f now.
Proof. unfold hold_all. by rewrite fold_left_app. Qed.

Lemma hold_all_spec run :
  facts (hold_all run) = survivors (map fst run) /\
  first_held_us (hold_all run) = snd <$> head run.
Proof.
  induction run as [|[f now] run [IHf IHh]] using rev_ind; [done|].
  rewrite hold_all_snoc map_app survivors_snoc. unfold hold. simpl. rewrite IHf IHh.
  split; [done|]. by destruct run.
Qed.

Lemma survivors_sublist fs : survivors fs `sublist_of` fs.
Proof.
  induction fs as [|f fs IH]; simpl; [done|].
  destruct (replaced f fs); [by apply sublist_cons|by apply sublist_skip].
Qed.

Lemma survivors_keeps fs f : f ∈ fs -> fact_key f = None -> f ∈ survivors fs.
Proof.
  intros Hin Hk. induction fs as [|g fs IH]; [done|]. simpl.
  apply elem_of_cons in Hin as [<-|Hin].
  - unfold replaced. rewrite Hk. left.
  - destruct (replaced g fs); [by apply IH|right; by apply IH].
Qed.

Lemma survivors_keys fs : NoDup (omap fact_key (survivors fs)).
Proof.
  induction fs as [|f fs IH]; simpl; [constructor|].
  destruct (replaced f fs) eqn:Hr; [done|]. simpl. unfold replaced in Hr.
  destruct (fact_key f) as [k|]; [|done]. constructor; [|done].
  rewrite list_elem_of_omap. intros (g & Hg & Hk).
  eapply elem_of_submseteq in Hg; [|apply sublist_submseteq, survivors_sublist].
  apply not_true_iff_false in Hr. apply Hr, existsb_exists. exists g.
  split; [by apply list_elem_of_In|]. by apply bool_decide_eq_true.
Qed.

End held.

(** What is released to an outpost once it is ready, after facts arrived
    while it started: the facts no later fact for the same object and kind
    replaced, in the order they last happened; so at most one per object and
    kind, never a part of a focus's read missing, and the wait is counted
    from the first fact held. *)
Theorem held_facts_released run :
  let released := (Held.take (hold_all run)).1 in
  released = survivors (map fst run) /\ released `sublist_of` map fst run /\
  NoDup (omap Held.fact_key released) /\
  (forall f, f ∈ map fst run -> is_focus_read (Held.fact f) = true -> f ∈ released) /\
  Held.first_held_us (hold_all run) = snd <$> head run /\
  (Held.take (hold_all run)).2 = Held.new.
Proof.
  destruct (hold_all_spec run) as [Hf Hh]. unfold Held.take. simpl. rewrite Hf.
  split_and!; [done|apply survivors_sublist|apply survivors_keys| |done|done].
  intros f Hin Hr. apply survivors_keeps; [done|]. by apply key_None_iff.
Qed.

(** ** Spare outposts *)

Section spares.
Import SparesList.

Definition waiting_ids (s : Spares) : list OutpostId := map fst (waiting s).

(** A run of the supervisor's operations on its spares: the ones started, the
    ones given, the ones that ended while they waited, and the list after. A
    spare is started with an outpost number never used before. *)
Inductive spares_run :
    list OutpostId -> list OutpostId -> list OutpostId -> Spares -> Prop :=
  | run_new : spares_run [] [] [] new
  | run_keep added given removed s :
      spares_run added given removed s -> spares_run added given removed (keep s).2
  | run_add added given removed s o :
      spares_run added given removed s -> o ∉ added ->
      spares_run (added ++ [o]) given removed (add s o)
  | run_ready added given removed s o :
      spares_run added given removed s -> spares_run added given removed (ready s o).2
  | run_take added given removed s :
      spares_run added given removed s ->
      spares_run added (given ++ option_list (take s).1) removed (take s).2
  | run_remove added given removed s o :
      spares_run added given removed s ->
      spares_run added given (removed ++ if (remove s o).1 then [o] else []) (remove s o).2
  | run_wanted added given removed s count now :
      spares_run added given removed s -> spares_run added given removed (wanted s count now).2
  | run_failed added given removed s up now times :
      spares_run added given removed s -> spares_run added given removed (failed s up now times).2.

Lemma mark_ready_ids o l l' : mark_ready o l = Some l' -> map fst l' = map fst l.
Proof.
  revert l'. induction l as [|[p r] l IH]; intros l'; simpl; [done|].
  case_bool_decide; [by intros [= <-]|].
  destruct (mark_ready o l) as [l0|]; [|done]. intros [= <-]. simpl. f_equal. by apply IH.
Qed.

Lemma ready_ids s o : waiting_ids (ready s o).2 = waiting_ids s.
Proof.
  unfold ready. destruct (mark_ready o (waiting s)) eqn:Hm; [|done].
  by apply mark_ready_ids in Hm.
Qed.

Lemma wanted_ids s count now : waiting_ids (wanted s count now).2 = waiting_ids s.
Proof.
  unfold wanted. destruct (kept s); [|done]. simpl.
  destruct (Backoffs.due (backoff s)); [|done]. by destruct (Backoffs.ended (backoff s) now).
Qed.

Lemma failed_ids s up now times : waiting_ids (failed s up now times).2 = waiting_ids s.
Proof. unfold failed. by destruct (Backoffs.failed (backoff s) up now times). Qed.

Lemma take_ids s : waiting_ids s = option_list (take s).1 ++ waiting_ids (take s).2.
Proof.
  unfold take, waiting_ids. destruct (kept s); [|done]. simpl.
  by destruct (waiting s) as [|[o r] w] eqn:Hw; [rewrite /= Hw|].
Qed.

(** [retain] by id, on the ids. *)
Lemma retain_ids o (w : list (OutpostId * bool)) :
  map fst (List.filter (fun '(p, _) => negb (bool_decide (p = o))) w) =
  List.filter (fun p => negb (bool_decide (p = o))) (map fst w).
Proof. induction w as [|[p r] w IH]; simpl; [done|]. by case_bool_decide; simpl; rewrite IH. Qed.

Lemma filter_absent o l :
  o ∉ l -> List.filter (fun p : OutpostId => negb (bool_decide (p = o))) l = l.
Proof.
  induction l as [|p l IH]; simpl; [done|]. rewrite not_elem_of_cons. intros [Hne Hl].
  rewrite bool_decide_eq_false_2; [|congruence]. simpl. by rewrite IH.
Qed.

Lemma filter_present o l :
  NoDup l -> o ∈ l ->
  l ≡ₚ o :: List.filter (fun p : OutpostId => negb (bool_decide (p = o))) l.
Proof.
  induction l as [|p l IH]; [by intros _ ?%not_elem_of_nil|].
  intros [Hp Hl]%NoDup_cons Hin. simpl. case_bool_decide as Heq; simpl.
  - subst p. by rewrite filter_absent.
  - apply elem_of_cons in Hin as [->|Hin]; [done|].
    rewrite {1}(IH Hl Hin). apply Permutation_swap.
Qed.

Lemma remove_ids s o :
  NoDup (waiting_ids s) ->
  waiting_ids s ≡ₚ (if (remove s o).1 then [o] else []) ++ waiting_ids (remove s o).2 /\
  waiting_ids (remove s o).2 `sublist_of` waiting_ids s.
Proof.
  intros Hnd. unfold remove, waiting_ids in *. simpl. rewrite retain_ids.
  split; [|apply filter_sublist].
  rewrite -(length_map fst (List.filter _ _)) -(length_map fst (waiting s)) retain_ids.
  destruct (decide (o ∈ map fst (waiting s))) as [Hin|Hin].
  - pose proof (filter_present o _ Hnd Hin) as Hp.
    apply Permutation_length in Hp as Hlen. simpl in Hlen.
    destruct (Nat.eqb_spec (length (List.filter (fun p => negb (bool_decide (p = o)))
      (map fst (waiting s)))) (length (map fst (waiting s)))) as [Heq|_]; [lia|done].
  - by rewrite filter_absent // Nat.eqb_refl.
Qed.

(** The invariant of a run. *)
Definition spares_ok (added given removed : list OutpostId) (s : Spares) : Prop :=
  NoDup added /\ added ≡ₚ removed ++ given ++ waiting_ids s /\
  given ++ waiting_ids s `sublist_of` added.

Lemma spares_run_ok added given removed s :
  spares_run added given removed s -> spares_ok added given removed s.
Proof.
  induction 1 as [| | ? ? ? ? o ? (Hnd & Hp & Hs) Hnew | ? ? ? s o ? IH | ? ? ? s ? (Hnd & Hp & Hs)
    | added given removed s o ? (Hnd & Hp & Hs) | ? ? ? s count now ? IH
    | ? ? ? s up now times ? IH].
  - split_and!; [constructor|done|done].
  - done.
  - unfold spares_ok, add, waiting_ids in *. simpl. rewrite map_app. split_and!.
    + apply NoDup_app. split_and!; [done|..|apply NoDup_singleton].
      intros x Hx ->%list_elem_of_singleton. done.
    + rewrite Hp /= -!app_assoc. done.
    + rewrite app_assoc. by apply sublist_app.
  - unfold spares_ok. by rewrite ready_ids.
  - unfold spares_ok. rewrite take_ids in Hp, Hs. by rewrite -app_assoc.
  - assert (NoDup (waiting_ids s)) as Hw.
    { rewrite Hp in Hnd. by apply NoDup_app in Hnd as (_ & _ & [_ [_ ?]]%NoDup_app). }
    destruct (remove_ids s o Hw) as [Hrem Hsub]. split_and!; [done|..].
    + rewrite Hp Hrem -!app_assoc. apply Permutation_app_head.
      rewrite !app_assoc. by apply Permutation_app_tail, Permutation_app_comm.
    + etrans; [|done]. by apply sublist_app.
  - unfold spares_ok. by rewrite wanted_ids.
  - unfold spares_ok. by rewrite failed_ids.
Qed.

End spares.

(** A spare outpost is given at most once and none is lost: in every run,
    the spares started are those given, those that ended while they waited and
    those still waiting, each exactly once; and spares are given in the order
    they were started, the oldest waiting next. *)
Theorem spares_given_once added given removed s :
  spares_run added given removed s ->
  NoDup (removed ++ given ++ waiting_ids s) /\
  added ≡ₚ removed ++ given ++ waiting_ids s /\
  given ++ waiting_ids s `sublist_of` added /\
  (SparesList.take s).1 = if SparesList.kept s then head (waiting_ids s) else None.
Proof.
  intros (Hnd & Hp & Hs)%spares_run_ok. split_and!; [by rewrite -Hp|done|done|].
  unfold SparesList.take, waiting_ids. destruct (SparesList.kept s); [|done]. simpl.
  by destruct (SparesList.waiting s) as [|[o r] w].
Qed.

Lemma spares_given_once_witness :
  exists s, spares_run [ {| outpost_number := 1 |}; {| outpost_number := 2 |} ]
              [ {| outpost_number := 1 |} ] [] s /\
    (SparesList.take s).1 = Some {| outpost_number := 2 |}.
Proof.
  set (o1 := {| outpost_number := 1 |}). set (o2 := {| outpost_number := 2 |}).
  assert (spares_run [o1; o2] [o1] [] (SparesList.take (SparesList.add (SparesList.add
            (SparesList.keep SparesList.new).2 o1) o2)).2) as Hr.
  { refine (run_take [o1; o2] [] [] (SparesList.add (SparesList.add
      (SparesList.keep SparesList.new).2 o1) o2) _).
    refine (run_add [o1] [] [] _ o2 (run_add [] [] [] _ o1 (run_keep [] [] [] _ run_new) _) _).
    - apply not_elem_of_nil.
    - by intros ?%list_elem_of_singleton. }
  eexists. split; [exact Hr|]. rewrite (proj2 (proj2 (proj2 (spares_given_once _ _ _ _ Hr)))).
  reflexivity.
Defined.

(** How many spares are started: while spares are kept and no failure's
    wait runs, enough that [count] wait, and never any while they are not kept
    or before the wait's end. *)
Theorem spares_wanted_exact s count now :
  (SparesList.wanted s count now).1 =
    if SparesList.kept s &&
       match Backoffs.due (SparesList.backoff s) with Some d => d <=? now | None => true end
    then count - N.of_nat (length (waiting_ids s)) else 0.
Proof.
  unfold SparesList.wanted, waiting_ids, Backoffs.ended, Backoffs.due. rewrite length_map.
  destruct (SparesList.kept s); [|done]. simpl.
  destruct (Backoffs.due_us (SparesList.backoff s)) as [d|] eqn:Hd; [|done].
  simpl. by destruct (d <=? now).
Qed.
