(* ===== verification/Generation.v ===== *)
(** An application's outpost generation: verbatim-core's
    [supervisor/generation.rs]. Each state is a constructor, each transition a
    function from a state to the next and the notices to send, in order. The
    properties are of whole lives: every sequence of transitions from a new
    record to its removal. *)

From S2P Require Import Prelude Tree Facts Policy.

(** Why an outpost ended: [supervisor/mod.rs]. *)
Inductive EndReason := Exited | Killed | Retired | TargetExited.

(** A generation's liveness. *)
Record Live := { last_pong_us : N; parked : Parked }.
Definition Live_new (now_us : N) : Live :=
  {| last_pong_us := now_us; parked := Parked_default |}.

Inductive Heartbeat := Ping | Wedged (reason : WedgeReason).

Record GivenSpare := { fault : option string }.
Definition GivenSpare_default : GivenSpare := {| fault := None |}.

(** A generation that ended without becoming ready. *)
Record Unready := { unready_outpost : OutpostId; unready_reason : EndReason; started : bool }.

Inductive Lifecycle :=
  | Started (outpost : OutpostId) (target_pid : Pid)
  | Ended (outpost : OutpostId) (target_pid : Pid) (reason : EndReason) (follows : bool)
  | Regenerated (outpost next : OutpostId) (target_pid : Pid)
  | NotWatched (target_pid : Pid).

Inductive Notice :=
  | HookInstalled (pid : Pid) (outpost : OutpostId)
  | HookRemoved (pid : Pid)
  | NoticeAssign (outpost : OutpostId)
  | NoticeLaunch (outpost : OutpostId)
  | App (lifecycle : Lifecycle).

(** [started] and [ended] of the source. *)
Definition notice_started (outpost : OutpostId) (target_pid : Pid) : Notice :=
  App (Started outpost target_pid).
Definition notice_ended (outpost : OutpostId) (target_pid : Pid) (reason : EndReason)
    (follows : bool) : Notice :=
  App (Ended outpost target_pid reason follows).

Section generation.
Context {C : Type}.

(** A spare's process: still being launched, or running. *)
Inductive Run := RunLaunching | RunRunning (child : C).

(** [Run::running], and [Run::into_running], which takes the child out. *)
Definition into_running (self : Run) : option C :=
  match self with RunRunning child => Some child | RunLaunching => None end.

Inductive Generation :=
  | Launching (outpost : OutpostId)
  | SpareGiven (outpost : OutpostId)
  | Starting (outpost : OutpostId) (child : C) (spare : option GivenSpare) (live : Live)
  | Ready (outpost : OutpostId) (child : C) (live : Live)
  | Waiting (unready : option Unready).

Inductive Next :=
  | NextSpare (outpost : OutpostId) (child : option C)
  | NextLaunch (outpost : OutpostId).

Record Failed := {
  next : Generation;
  failed_outpost : OutpostId;
  failed_child : option C;
  failed_ready : bool;
  failed_fault : option string;
  failed_notices : list Notice;
}.

Record Removed := {
  removed_child : option C;
  removed_outpost : option OutpostId;
  removed_ready : bool;
  removed_notices : list Notice;
}.

Definition new : Generation := Waiting None.

Definition outpost_of (self : Generation) : option OutpostId :=
  match self with
  | Launching o | SpareGiven o | Starting o _ _ _ | Ready o _ _ => Some o
  | Waiting _ => None
  end.

Definition child_of (self : Generation) : option C :=
  match self with
  | Starting _ child _ _ | Ready _ child _ => Some child
  | Launching _ | SpareGiven _ | Waiting _ => None
  end.

Definition ready_child (self : Generation) : option C :=
  match self with Ready _ child _ => Some child | _ => None end.

Definition forwarding_target (self : Generation) (outpost : OutpostId) : option C :=
  match self with
  | Ready ready child _ => if bool_decide (ready = outpost) then Some child else None
  | _ => None
  end.

Definition ponged (self : Generation) (at_us : N) (p : Parked) : Generation :=
  let live := {| last_pong_us := at_us; parked := p |} in
  match self with
  | Starting o child spare _ => Starting o child spare live
  | Ready o child _ => Ready o child live
  | Launching _ | SpareGiven _ | Waiting _ => self
  end.

(** [live_mut], read. *)
Definition live_of (self : Generation) : option Live :=
  match self with
  | Starting _ _ _ live | Ready _ _ live => Some live
  | Launching _ | SpareGiven _ | Waiting _ => None
  end.

Definition heartbeat (self : Generation) (now_us : N) (limits : WedgeLimits)
    : option Heartbeat :=
  match live_of self with
  | None => None
  | Some live =>
      Some (match wedge_decision (last_pong_us live) now_us limits (parked live) with
            | Some reason => Wedged reason
            | None => Ping
            end)
  end.

Definition is_ready (self : Generation) : bool :=
  match self with Ready _ _ _ => true | _ => false end.

Definition is_launching (self : Generation) : bool :=
  match self with Launching _ | SpareGiven _ => true | _ => false end.

Definition is_spare_given (self : Generation) : bool :=
  match self with SpareGiven _ => true | _ => false end.

(** [spare_fault], as the change of the fault it gives access to. *)
Definition set_spare_fault (self : Generation) (f : option string -> option string)
    : Generation :=
  match self with
  | Starting o child (Some spare) live =>
      Starting o child (Some {| fault := f (fault spare) |}) live
  | _ => self
  end.

(** [given], of a record with no generation; of any other it changes nothing. *)
Definition given (self : Generation) (pid : Pid) (next : Next) (now_us : N)
    : Generation * list Notice :=
  match self with
  | Waiting unready =>
      let next_outpost := match next with NextSpare o _ | NextLaunch o => o end in
      let notices :=
        match unready with
        | Some failed =>
            App (Regenerated (unready_outpost failed) next_outpost pid) ::
            (if started failed
             then [notice_ended (unready_outpost failed) pid (unready_reason failed) true]
             else [])
        | None => []
        end in
      match next with
      | NextSpare outpost (Some child) =>
          (Starting outpost child (Some GivenSpare_default) (Live_new now_us),
           notices ++ [NoticeAssign outpost; notice_started outpost pid])
      | NextSpare outpost None => (SpareGiven outpost, notices)
      | NextLaunch outpost => (Launching outpost, notices ++ [NoticeLaunch outpost])
      end
  | _ => (self, [])
  end.

Definition launched (self : Generation) (pid : Pid) (child : C) (now_us : N)
    : result (Generation * list Notice) (Generation * C) :=
  match self with
  | Launching outpost =>
      Ok (Starting outpost child None (Live_new now_us), [notice_started outpost pid])
  | other => Err (other, child)
  end.

Definition assigned (self : Generation) (pid : Pid) (child : C) (now_us : N)
    : result (Generation * list Notice) (Generation * C) :=
  match self with
  | SpareGiven outpost =>
      Ok (Starting outpost child (Some GivenSpare_default) (Live_new now_us),
          [NoticeAssign outpost; notice_started outpost pid])
  | other => Err (other, child)
  end.

Definition ready (self : Generation) (pid : Pid) (outpost : OutpostId)
    : Generation * list Notice :=
  match self with
  | Starting starting child spare live =>
      if bool_decide (starting = outpost)
      then (Ready outpost child live, [HookInstalled pid outpost])
      else (self, [])
  | other => (other, [])
  end.

Definition failed (self : Generation) (pid : Pid) (reason : EndReason)
    : result Failed Generation :=
  let not_ready (outpost : OutpostId) (child : option C) (f : option string) := {|
    next := Waiting (Some {| unready_outpost := outpost; unready_reason := reason;
                             started := match child with Some _ => true | None => false end |});
    failed_outpost := outpost; failed_child := child; failed_ready := false;
    failed_fault := f; failed_notices := [] |} in
  match self with
  | Ready outpost child _ =>
      Ok {| next := Waiting None; failed_outpost := outpost; failed_child := Some child;
            failed_ready := true; failed_fault := None;
            failed_notices := [HookRemoved pid; notice_ended outpost pid reason true] |}
  | Starting outpost child spare _ =>
      Ok (not_ready outpost (Some child)
            (match spare with Some s => fault s | None => None end))
  | Launching outpost | SpareGiven outpost => Ok (not_ready outpost None None)
  | Waiting _ => Err self
  end.

Definition removed (self : Generation) (pid : Pid) (reason : option EndReason) : Removed :=
  let '(child, outpost, ready, heard) :=
    match self with
    | Ready outpost child _ => (Some child, Some outpost, true, Some outpost)
    | Starting outpost child _ _ => (Some child, Some outpost, false, Some outpost)
    | Launching outpost | SpareGiven outpost => (None, Some outpost, false, None)
    | Waiting unready =>
        (None, None, false,
         match unready with
         | Some u => if started u then Some (unready_outpost u) else None
         | None => None
         end)
    end in
  {| removed_child := child; removed_outpost := outpost; removed_ready := ready;
     removed_notices := HookRemoved pid ::
       match reason with
       | Some reason =>
           match heard with
           | Some outpost => [notice_ended outpost pid reason false]
           | None => []
           end ++ [App (NotWatched pid)]
       | None => []
       end |}.

End generation.

Arguments Run : clear implicits.
Arguments Generation : clear implicits.
Arguments Next : clear implicits.
Arguments Failed : clear implicits.
Arguments Removed : clear implicits.

(** ** Lives *)

Section lives.
Context {C : Type}.
Variable pid : Pid.
Implicit Types (g : Generation C) (l : list Notice).

(** What the supervisor's owner thread does with a record. *)
Inductive Op :=
  | OpGiven (next : Next C) (now_us : N)
  | OpLaunched (child : C) (now_us : N)
  | OpAssigned (child : C) (now_us : N)
  | OpReady (outpost : OutpostId)
  | OpFailed (reason : EndReason)
  | OpPonged (at_us : N) (parked : Parked)
  | OpSpareFault (f : option string -> option string).

(** The next state, the notices sent and the children handed back. *)
Definition exec g (o : Op) : Generation C * list Notice * list C :=
  match o with
  | OpGiven n now => let '(g, l) := given g pid n now in (g, l, [])
  | OpLaunched c now =>
      match launched g pid c now with Ok (g, l) => (g, l, []) | Err (g, c) => (g, [], [c]) end
  | OpAssigned c now =>
      match assigned g pid c now with Ok (g, l) => (g, l, []) | Err (g, c) => (g, [], [c]) end
  | OpReady o => let '(g, l) := ready g pid o in (g, l, [])
  | OpFailed reason =>
      match failed g pid reason with
      | Ok f => (next f, failed_notices f, option_list (failed_child f))
      | Err g => (g, [], [])
      end
  | OpPonged at_us p => (ponged g at_us p, [], [])
  | OpSpareFault f => (set_spare_fault g f, [], [])
  end.

(** A generation is given only to a record with none, which [given] asserts. *)
Definition allowed g (o : Op) : Prop :=
  match o with OpGiven _ _ => exists u, g = Waiting u | _ => True end.

(** The children an operation brings. *)
Definition brought (o : Op) : list C :=
  match o with
  | OpGiven (NextSpare _ child) _ => option_list child
  | OpLaunched child _ | OpAssigned child _ => [child]
  | _ => []
  end.

(** A record's life so far: the operations, the notices sent, the children
    brought and handed back, and the state. *)
Inductive life : list Notice -> list C -> list C -> Generation C -> Prop :=
  | life_new : life [] [] [] new
  | life_step l ins outs g o g' l' outs' :
      life l ins outs g -> allowed g o -> exec g o = (g', l', outs') ->
      life (l ++ l') (ins ++ brought o) (outs ++ outs') g'.

Definition started_ids l : list OutpostId :=
  omap (fun n => match n with App (Started o _) => Some o | _ => None end) l.
Definition ended_ids l : list OutpostId :=
  omap (fun n => match n with App (Ended o _ _ _) => Some o | _ => None end) l.

(** The outpost the application was told has started and not that it ended. *)
Definition pending g : list OutpostId :=
  match g with
  | Starting o _ _ _ | Ready o _ _ => [o]
  | Waiting (Some u) => if started u then [unready_outpost u] else []
  | _ => []
  end.

(** The listener's hook as the notices leave it: [Ok] of the outpost whose own
    hook is installed, if any, and [Err] once a hook was installed over
    another or removed with none installed. *)
Definition hook_step (h : result (option OutpostId) unit) (n : Notice)
    : result (option OutpostId) unit :=
  match h, n with
  | Ok None, HookInstalled _ o => Ok (Some o)
  | Ok (Some _), HookInstalled _ _ => Err ()
  | Ok (Some _), HookRemoved _ => Ok None
  | Ok None, HookRemoved _ => Err ()
  | h, _ => h
  end.
Definition hook_of l : result (option OutpostId) unit := fold_left hook_step l (Ok None).

Lemma exec_pending g o g' l outs :
  allowed g o -> exec g o = (g', l, outs) ->
  pending g ++ started_ids l = ended_ids l ++ pending g'.
Proof.
  intros Hal Hex. destruct o; simpl in *; unfold ponged, set_spare_fault in *.
  - destruct Hal as [u ->]. unfold given in Hex.
    destruct u as [[o r []]|], next0 as [o' [c|]|o']; simplify_eq/=; done.
  - destruct g; simplify_eq/=; rewrite ?app_nil_r; done.
  - destruct g; simplify_eq/=; rewrite ?app_nil_r; done.
  - destruct g; simplify_eq/=; try (case_bool_decide; simplify_eq/=);
      rewrite ?app_nil_r; done.
  - destruct g; simplify_eq/=; rewrite ?app_nil_r; done.
  - destruct g; simplify_eq/=; rewrite ?app_nil_r; done.
  - destruct g as [| |? ? [|] ?| |]; simplify_eq/=; rewrite ?app_nil_r; done.
Qed.

Lemma exec_hook g o g' l outs :
  allowed g o -> exec g o = (g', l, outs) ->
  fold_left hook_step l (Ok (if is_ready g then outpost_of g else None)) =
    Ok (if is_ready g' then outpost_of g' else None).
Proof.
  intros Hal Hex. destruct o; simpl in *; unfold ponged, set_spare_fault in *.
  - destruct Hal as [u ->]. unfold given in Hex.
    destruct u as [[o r []]|], next0 as [o' [c|]|o']; simplify_eq/=; done.
  - destruct g; simplify_eq/=; done.
  - destruct g; simplify_eq/=; done.
  - destruct g; simplify_eq/=; try (case_bool_decide; simplify_eq/=); done.
  - destruct g; simplify_eq/=; done.
  - destruct g; simplify_eq/=; done.
  - destruct g as [| |? ? [|] ?| |]; simplify_eq/=; done.
Qed.

Lemma exec_children g o g' l outs :
  allowed g o -> exec g o = (g', l, outs) ->
  option_list (child_of g) ++ brought o ≡ₚ outs ++ option_list (child_of g').
Proof.
  intros Hal Hex. destruct o; simpl in *; unfold ponged, set_spare_fault in *.
  - destruct Hal as [u ->]. unfold given in Hex.
    destruct u as [[o r []]|], next0 as [o' [c|]|o']; simplify_eq/=; done.
  - destruct g; simplify_eq/=; try done; apply Permutation_swap.
  - destruct g; simplify_eq/=; try done; apply Permutation_swap.
  - destruct g; simplify_eq/=; try (case_bool_decide; simplify_eq/=); done.
  - destruct g; simplify_eq/=; done.
  - destruct g; simplify_eq/=; done.
  - destruct g as [| |? ? [|] ?| |]; simplify_eq/=; done.
Qed.

Lemma life_pending l ins outs g :
  life l ins outs g -> started_ids l = ended_ids l ++ pending g.
Proof.
  induction 1 as [|l ins outs g o g' l' outs' Hl IH Hal Hex]; [done|].
  unfold started_ids, ended_ids. rewrite !omap_app.
  fold (started_ids l) (started_ids l') (ended_ids l) (ended_ids l').
  by rewrite IH -!app_assoc (exec_pending g o g' l' outs').
Qed.

Lemma life_hook l ins outs g :
  life l ins outs g -> hook_of l = Ok (if is_ready g then outpost_of g else None).
Proof.
  induction 1 as [|l ins outs g o g' l' outs' Hl IH Hal Hex]; [done|].
  unfold hook_of in *. rewrite fold_left_app IH. by eapply exec_hook.
Qed.

Lemma life_children l ins outs g :
  life l ins outs g -> ins ≡ₚ outs ++ option_list (child_of g).
Proof.
  induction 1 as [|l ins outs g o g' l' outs' Hl IH Hal Hex]; [done|].
  rewrite IH -!app_assoc. by rewrite (exec_children g o g' l' outs').
Qed.

(** C37: what the application hears of its outposts: in every life the outposts
    announced started are those announced ended, in the same order, followed
    by the one still to be announced; and a removal for a reason announces its
    end too, so that each start is followed by exactly one end. *)
Theorem starts_and_ends_match l ins outs g reason :
  life l ins outs g ->
  started_ids l = ended_ids l ++ pending g /\
  started_ids (l ++ removed_notices (removed g pid (Some reason))) =
    ended_ids (l ++ removed_notices (removed g pid (Some reason))).
Proof.
  intros Hl%life_pending. split; [done|]. unfold started_ids, ended_ids in *.
  rewrite !omap_app Hl.
  destruct g as [| | | |[[o r []]|]]; simpl; by rewrite ?app_nil_r.
Qed.

(** The listener's hook: in every life the listener is told of a hook
    installed and of its removal in turn, never of two installed, nor of a
    removal with none installed; a hook is installed exactly while the outpost
    is ready, it is that outpost's, and a removal from any stage ends with a
    removed hook. *)
Theorem hook_exactly_while_ready l ins outs g reason :
  life l ins outs g ->
  hook_of l = Ok (if is_ready g then outpost_of g else None) /\
  exists rest, removed_notices (removed g pid reason) = HookRemoved pid :: rest /\
    forall n, n ∈ rest -> exists a, n = App a.
Proof.
  intros Hl. split; [by eapply life_hook|].
  destruct g as [| | | |[[o r []]|]], reason; simpl; (eexists; split; [reflexivity|]);
    intros n Hn; set_unfold in Hn; naive_solver.
Qed.

(** No child process is lost: in every life each child brought to the
    record, launched or given as a spare, was handed back to be stopped,
    exactly once, or is the record's current one, which the removal hands
    back. *)
Theorem children_accounted l ins outs g reason :
  life l ins outs g ->
  ins ≡ₚ outs ++ option_list (child_of g) /\
  removed_child (removed g pid reason) = child_of g.
Proof.
  intros Hl. split; [by eapply life_children|]. by destruct g as [| | | |[[o r []]|]].
Qed.

End lives.

(** A life in which outpost 1 is launched, starts, is replaced by the spare 2
    when it dies before it is ready, and 2 becomes ready. *)
Definition sample_pid : Pid := {| pid_number := 40 |}.
Definition sample_ops : list (Op (C := N)) :=
  [OpGiven (NextLaunch {| outpost_number := 1 |}) 0; OpLaunched 11 5; OpFailed Killed;
   OpGiven (NextSpare {| outpost_number := 2 |} (Some 22)) 9;
   OpReady {| outpost_number := 2 |}].

(** The life of a list of operations. *)
Fixpoint lived {C} (pid : Pid) (g : Generation C) (ops : list Op)
    : list Notice * list C * list C * Generation C :=
  match ops with
  | [] => ([], [], [], g)
  | o :: ops =>
      let '(g', l', outs') := exec pid g o in
      let '(l, ins, outs, g'') := lived pid g' ops in
      (l' ++ l, brought o ++ ins, outs' ++ outs, g'')
  end.

Fixpoint all_allowed {C} (pid : Pid) (g : Generation C) (ops : list Op) : Prop :=
  match ops with
  | [] => True
  | o :: ops => allowed g o /\ all_allowed pid (exec pid g o).1.1 ops
  end.

Lemma lived_life {C} pid (ops : list (Op (C := C))) : forall l ins outs g,
  life pid l ins outs g -> all_allowed pid g ops ->
  let '(l', ins', outs', g') := lived pid g ops in
  life pid (l ++ l') (ins ++ ins') (outs ++ outs') g'.
Proof.
  induction ops as [|o ops IH]; intros l ins outs g Hl Hal; simpl; [by rewrite !app_nil_r|].
  destruct Hal as [Ho Hal]. destruct (exec pid g o) as [[g' l'] outs'] eqn:Hex.
  specialize (IH _ _ _ _ (life_step pid _ _ _ _ _ _ _ _ Hl Ho Hex) Hal).
  destruct (lived pid g' ops) as [[[l2 ins2] outs2] g2]. by rewrite -!app_assoc in IH.
Qed.

Lemma sample_life :
  let '(l, ins, outs, g) := lived sample_pid new sample_ops in life sample_pid l ins outs g.
Proof.
  apply (lived_life sample_pid sample_ops [] [] [] new); [apply life_new|].
  simpl. split_and!; try done; by eexists.
Qed.

Lemma starts_and_ends_match_witness :
  let '(l, _, _, g) := lived sample_pid new sample_ops in
  started_ids l = [ {| outpost_number := 1 |}; {| outpost_number := 2 |} ] /\
  ended_ids (l ++ removed_notices (removed g sample_pid (Some Retired))) =
    [ {| outpost_number := 1 |}; {| outpost_number := 2 |} ].
Proof.
  pose proof sample_life as Hl.
  split; [reflexivity|]. rewrite -(proj2 (starts_and_ends_match sample_pid _ _ _ _ Retired Hl)).
  reflexivity.
Defined.

Lemma hook_exactly_while_ready_witness :
  let '(l, _, _, g) := lived sample_pid new sample_ops in
  is_ready g = true /\ hook_of l = Ok (Some {| outpost_number := 2 |}).
Proof.
  pose proof sample_life as Hl.
  split; [reflexivity|]. exact (proj1 (hook_exactly_while_ready sample_pid _ _ _ _ None Hl)).
Defined.

Lemma children_accounted_witness :
  let '(_, ins, outs, g) := lived sample_pid new sample_ops in
  ins = [11; 22] /\ ins ≡ₚ outs ++ option_list (child_of g).
Proof.
  pose proof sample_life as Hl.
  split; [reflexivity|]. exact (proj1 (children_accounted sample_pid _ _ _ _ None Hl)).
Defined.
