(* ===== verification/Listener.v ===== *)
(** The focus listener's vocabulary and its two small machines: the events and
    outcomes of verbatim-listener-logic's [focus.rs] (module [Focus]), the
    window in the foreground of its [foreground.rs] (module [Watch]), and the
    grace of a menu's end of its [schedule.rs] (module [Grace]). *)

From S2P Require Import Prelude Tree Facts.

Module Focus.

Definition ABANDONED_LIMIT : N := 2.

Definition NOT_IN_TIME : string := "its read did not return in time".
Definition MOVED_ON : string := "the user moved on from a slow window".
Definition STOPPED_RESPONDING : string := "its window stopped responding".
Definition WAITED_TOO_LONG : string :=
  "it waited too long behind its application's abandoned reads".
Definition NO_WINDOW : string :=
  "it has no window above it, so NVDA makes no object for it".
Definition REPLACED : string := "a newer focus event of its element replaced it".

Inductive FocusEvent := FocusChange | MenuOpened | Selection | NotificationEvent.

#[export] Instance FocusEvent_eq_dec : EqDecision FocusEvent.
Proof. solve_decision. Defined.

Inductive Judged :=
  | Read (read : UiaFocusRead)
  | Dropped (reason : string)
  | Passed (fact : DeliveredFact).

Definition into_fact (self : Judged) (marker : N) (kind : FocusEvent) : DeliveredFact :=
  let focus := bool_decide (kind = FocusChange) in
  match self with
  | Read read => UiaFocusRead_ marker read focus
  | Dropped reason =>
      UiaFocusDropped marker focus (focus && bool_decide (reason = NO_WINDOW))
  | Passed fact => UiaMarked marker fact
  end.

Definition dropped_reason (self : Judged) : option string :=
  match self with Dropped reason => Some reason | Read _ | Passed _ => None end.

(** An event's place in the queue of every application's events. *)
Record QueuePlace := { place : N; place_left_at : N }.

Definition current_since (self : QueuePlace) (read_place : N) : bool :=
  negb (read_place =? 0) && (place_left_at self <? read_place).

Record Arrival := {
  arrival_trace : TraceId;
  arrival_observed_at_us : N;
  arrival_place : N;
  arrival_left_at : N;
}.

(** [Arrival::queue]. *)
Definition arrival_queue (self : Arrival) : QueuePlace :=
  {| place := arrival_place self; place_left_at := arrival_left_at self |}.

Record Meta := {
  marker : N;
  kind : FocusEvent;
  trace : TraceId;
  timing : EventTiming;
}.

Definition arrival_of (meta : Meta) (queue : QueuePlace) : Arrival := {|
  arrival_trace := trace meta; arrival_observed_at_us := observed_at_us (timing meta);
  arrival_place := place queue; arrival_left_at := place_left_at queue |}.

End Focus.

(** ** The window in the foreground *)

Module Watch.

Record Front := { window : Z; thread : N; console : bool; front_observed_at_us : N }.

Record Step := { report : option Front; console_events_change : option bool }.

(** [Step::default()]. *)
Definition no_step : Step := {| report := None; console_events_change := None |}.

Record ForegroundWatch := {
  started : bool;
  unnamed_console : option Z;
  console_events : bool;
  pending : option Front;
}.

(** [ForegroundWatch::default()]. *)
Definition new : ForegroundWatch :=
  {| started := false; unnamed_console := None; console_events := false; pending := None |}.

Definition hook_consoles (self : ForegroundWatch) (hooked : bool)
    : option bool * ForegroundWatch :=
  if bool_decide (console_events self <> hooked)
  then (Some hooked, {| started := started self; unnamed_console := unnamed_console self;
                        console_events := hooked; pending := pending self |})
  else (None, self).

Definition set_unnamed (self : ForegroundWatch) (w : option Z) : ForegroundWatch :=
  {| started := started self; unnamed_console := w; console_events := console_events self;
     pending := pending self |}.
Definition set_pending (self : ForegroundWatch) (p : option Front) : ForegroundWatch :=
  {| started := started self; unnamed_console := unnamed_console self;
     console_events := console_events self; pending := p |}.

Definition start (self : ForegroundWatch) (front : option Front) : Step * ForegroundWatch :=
  let self := {| started := true; unnamed_console := unnamed_console self;
                 console_events := true; pending := pending self |} in
  let '(report, self) :=
    match front with
    | Some front =>
        if console front
        then (Some {| window := window front; thread := 0; console := console front;
                      front_observed_at_us := front_observed_at_us front |},
              set_unnamed self (Some (window front)))
        else (Some front, self)
    | None => (None, self)
    end in
  let '(change, self) :=
    hook_consoles self (match unnamed_console self with Some _ => true | None => false end) in
  ({| report := report; console_events_change := change |}, self).

Definition sent (self : ForegroundWatch) (front : Front) : Step * ForegroundWatch :=
  let '(change, self) := hook_consoles (set_unnamed self None) false in
  ({| report := Some front; console_events_change := change |}, self).

Definition foreground (self : ForegroundWatch) (front : Front) (in_front : bool)
    : Step * ForegroundWatch :=
  if negb (started self) then (no_step, self)
  else if in_front then sent (set_pending self None) front
  else (no_step, set_pending self (Some front)).

Definition has_pending (self : ForegroundWatch) : bool :=
  match pending self with Some _ => true | None => false end.

Definition event_seen (self : ForegroundWatch) (foreground : Z) (observed_at_us : N)
    : Step * ForegroundWatch :=
  match pending self with
  | Some p =>
      if started self && bool_decide (window p = foreground)
      then sent (set_pending self None)
             {| window := window p; thread := thread p; console := console p;
                front_observed_at_us := observed_at_us |}
      else (no_step, self)
  | None => (no_step, self)
  end.

Definition console_event (self : ForegroundWatch) (w : Z) (t : N) (observed_at_us : N)
    : Step * ForegroundWatch :=
  if negb (started self) || bool_decide (unnamed_console self <> Some w)
  then (no_step, self)
  else
    let '(change, self) := hook_consoles (set_unnamed self None) false in
    ({| report := Some {| window := w; thread := t; console := true;
                          front_observed_at_us := observed_at_us |};
        console_events_change := change |}, self).

End Watch.

(** ** The grace of a menu's end *)

Module Grace.

Record GraceState := {
  end_ : option (N * EventTiming * N);
  answers : list N;
  closed : bool;
}.

(** [GraceState::default()]. *)
Definition new : GraceState := {| end_ := None; answers := []; closed := false |}.

Inductive GraceInput :=
  | Ended (ended_at_us : N) (timing : EventTiming) (grace : N)
  | Fired
  | IdleAnswer (round : N)
  | Close.

Inductive GraceEffect :=
  | SendEnd (ended_at_us : N) (timing : EventTiming)
  | SendIdleAnswer (round : N)
  | SetTimer (us : N).

Definition step (self : GraceState) (input : GraceInput) (now : N)
    : list GraceEffect * GraceState :=
  match input with
  | Ended ended_at_us timing grace =>
      ([SetTimer grace],
       {| end_ := Some (ended_at_us, timing, now +|64| grace);
          answers := answers self; closed := closed self |})
  | Fired =>
      let send :=
        (match end_ self with Some (at_us, timing, _) => [SendEnd at_us timing] | None => [] end
         ++ map SendIdleAnswer (answers self),
         {| end_ := None; answers := []; closed := closed self |}) in
      match end_ self with
      | Some (_, _, over) =>
          if now <? over
          then (if closed self then [] else [SetTimer (over - now)], self)
          else send
      | None => send
      end
  | IdleAnswer round =>
      match end_ self with
      | Some _ => ([], {| end_ := end_ self; answers := answers self ++ [round];
                          closed := closed self |})
      | None => ([SendIdleAnswer round], self)
      end
  | Close => ([], {| end_ := end_ self; answers := answers self; closed := true |})
  end.

End Grace.

(** ** Properties of the two machines *)

Module WatchProps.
Import Watch.

(** What the listener's [WinEvent] thread tells the watch. *)
Inductive Op :=
  | OpStart (front : option Front)
  | OpForeground (front : Front) (in_front : bool)
  | OpSeen (foreground : Z) (observed_at_us : N)
  | OpConsole (window : Z) (thread observed_at_us : N).

Definition exec (w : ForegroundWatch) (o : Op) : Step * ForegroundWatch :=
  match o with
  | OpStart front => start w front
  | OpForeground front in_front => foreground w front in_front
  | OpSeen fg at_us => event_seen w fg at_us
  | OpConsole win t at_us => console_event w win t at_us
  end.

(** The console events' hook as the listener keeps it: the steps' changes,
    from hooked, since the listener starts with every kind hooked. *)
Definition hook_after (hooked : bool) (st : Step) : bool :=
  default hooked (console_events_change st).

(** A run after the start: the steps taken, and the watch. *)
Inductive run : bool -> ForegroundWatch -> Prop :=
  | run_start front : run (hook_after true (start new front).1) (start new front).2
  | run_op hooked w o :
      run hooked w -> (forall front, o <> OpStart front) ->
      run (hook_after hooked (exec w o).1) (exec w o).2.

Lemma unhooked w :
  let '(change, w') := hook_consoles (set_unnamed w None) false in
  started w' = started w /\ default (console_events w) change = false /\
  console_events w' = false /\ unnamed_console w' = None.
Proof. destruct w as [st u [] p]; done. Qed.

Lemma watch_run_inv hooked w :
  run hooked w ->
  started w = true /\ hooked = console_events w /\
  console_events w = (match unnamed_console w with Some _ => true | None => false end).
Proof.
  induction 1 as [front|hooked w o _ (Hs & -> & Hc) Hno].
  - destruct front as [[win t [] at_us]|]; done.
  - destruct o as [front|front []|fg at_us|win t at_us]; simpl.
    + by destruct (Hno front).
    + unfold foreground, sent. rewrite Hs. simpl.
      pose proof (unhooked (set_pending w None)) as Hu.
      destruct (hook_consoles _ false). simpl in *. destruct Hu as (H1 & H2 & H3 & H4). unfold hook_after. simpl. by rewrite H1 H2 H3 H4.
    + unfold foreground. by rewrite Hs.
    + unfold event_seen, sent. destruct (pending w) as [p|]; [|done].
      destruct (started w && bool_decide (window p = fg)); [|done].
      pose proof (unhooked (set_pending w None)) as Hu.
      destruct (hook_consoles _ false). simpl in *. destruct Hu as (H1 & H2 & H3 & H4). unfold hook_after. simpl. by rewrite H1 H2 H3 H4.
    + unfold console_event. destruct (negb (started w) || _); [done|].
      pose proof (unhooked w) as Hu.
      destruct (hook_consoles _ false). simpl in *. destruct Hu as (H1 & H2 & H3 & H4). unfold hook_after. simpl. by rewrite H1 H2 H3 H4.
Qed.

(** The console's events are hooked exactly while they are needed: in
    every run the hook the listener was last told to keep is set exactly while
    a console window is in front whose thread no event has named, and the
    event that names it, or any window sent as in front, ends the wait. *)
Theorem consoles_hooked_exactly hooked w win t at_us :
  run hooked w ->
  (hooked = true <-> exists c, unnamed_console w = Some c) /\
  (unnamed_console w = Some win ->
     console_event w win t at_us =
       ({| report := Some {| window := win; thread := t; console := true;
                             front_observed_at_us := at_us |};
           console_events_change := Some false |},
        {| started := true; unnamed_console := None; console_events := false;
           pending := pending w |})).
Proof.
  intros (Hs & -> & Hc)%watch_run_inv. split.
  - rewrite Hc. destruct (unnamed_console w) as [c|]; [by split; [exists c|]|].
    split; [done|]. by intros [? ?].
  - intros Hu. unfold console_event. rewrite Hs Hu. simpl.
    rewrite bool_decide_eq_false_2; [|tauto]. unfold hook_consoles. simpl.
    rewrite Hc Hu. by rewrite Hs.
Qed.

Lemma consoles_hooked_exactly_witness :
  let w := (start new (Some {| window := 9; thread := 3; console := true;
                               front_observed_at_us := 1 |})).2 in
  (console_event w 9 4 2).2 =
    {| started := true; unnamed_console := None; console_events := false; pending := None |}.
Proof.
  intros w.
  pose proof (run_start (Some {| window := 9; thread := 3; console := true;
                                 front_observed_at_us := 1 |})) as Hr.
  by rewrite (proj2 (consoles_hooked_exactly _ _ 9 4 2 Hr) eq_refl).
Defined.

End WatchProps.

Module GraceProps.
Import Grace.

Definition round_of (i : GraceInput) : list N :=
  match i with IdleAnswer r => [r] | _ => [] end.
Definition answered (e : list GraceEffect) : list N :=
  omap (fun x => match x with SendIdleAnswer r => Some r | _ => None end) e.
Definition ends (e : list GraceEffect) : list (N * EventTiming) :=
  omap (fun x => match x with SendEnd at_us t => Some (at_us, t) | _ => None end) e.

(** A run: the rounds asked, the effects, and the state. *)
Inductive run : list N -> list GraceEffect -> GraceState -> Prop :=
  | run_new : run [] [] new
  | run_step rounds e s i now :
      run rounds e s -> run (rounds ++ round_of i) (e ++ (step s i now).1) (step s i now).2.

Lemma answered_map l : answered (map SendIdleAnswer l) = l.
Proof. induction l as [|x l IH]; [done|]. simpl. by f_equal. Qed.

Lemma step_answers s i now :
  (end_ s = None -> answers s = []) ->
  answers s ++ round_of i = answered (step s i now).1 ++ answers (step s i now).2 /\
  (end_ (step s i now).2 = None -> answers (step s i now).2 = []).
Proof.
  intros Hn. destruct i as [at_us t g| |r|]; simpl.
  - split; [by rewrite app_nil_r|done].
  - destruct (end_ s) as [[[at_us t] over]|] eqn:He; simpl.
    + destruct (now <? over); simpl.
      * split; [by destruct (closed s); rewrite app_nil_r|congruence].
      * split; [by rewrite answered_map|done].
    + split; [by rewrite answered_map|done].
  - destruct (end_ s) as [x|] eqn:He; simpl; [done|]. rewrite Hn //.
  - split; [by rewrite app_nil_r|done].
Qed.

Lemma grace_run_answers rounds e s :
  run rounds e s -> rounds = answered e ++ answers s /\ (end_ s = None -> answers s = []).
Proof.
  induction 1 as [|rounds e s i now _ [IHr IHn]]; [done|].
  destruct (step_answers s i now IHn) as [Hs Hn]. split; [|done].
  rewrite IHr -app_assoc Hs. unfold answered. by rewrite omap_app app_assoc.
Qed.

(** The idle barrier's answers wait for a menu's end, and none is lost: in
    every run the rounds asked are answered in order, each once; an answer is
    kept back only while an end waits for its grace; and an end is sent only
    by the timer, once its grace is over, ahead of the answers kept for it. *)
Theorem grace_answers rounds e s i now :
  run rounds e s ->
  rounds = answered e ++ answers s /\
  (end_ s = None -> answers s = []) /\
  (forall at_us t, (at_us, t) ∈ ends (step s i now).1 ->
     exists over, i = Fired /\ end_ s = Some (at_us, t, over) /\ over <= now /\
       (step s i now).1 = SendEnd at_us t :: map SendIdleAnswer (answers s)).
Proof.
  intros [Hr Hn]%grace_run_answers. split_and!; [done|done|].
  assert (forall l, ends (map SendIdleAnswer l) = []) as Hnone
    by (induction l as [|x l IHl]; done).
  intros at_us t Hin. destruct i as [? ? ?| |?|]; simpl in *.
  - by apply not_elem_of_nil in Hin.
  - destruct (end_ s) as [[[at0 t0] over]|] eqn:He; simpl in *.
    + destruct (N.ltb_spec now over); simpl in *.
      * destruct (closed s); by apply not_elem_of_nil in Hin.
      * rewrite Hnone in Hin. apply list_elem_of_singleton in Hin. simplify_eq. eauto.
    + rewrite Hnone in Hin. by apply not_elem_of_nil in Hin.
  - destruct (end_ s); by apply not_elem_of_nil in Hin.
  - by apply not_elem_of_nil in Hin.
Qed.

Lemma grace_answers_witness :
  let s := (step (step new (Ended 5 EventTiming_default 100) 10).2 (IdleAnswer 3) 20).2 in
  [3] = answered [SetTimer 100] ++ answers s.
Proof.
  intros s. apply (fun H => proj1 (grace_answers [3] [SetTimer 100] s Fired 0 H)).
  refine (run_step [] [SetTimer 100] (step new (Ended 5 EventTiming_default 100) 10).2
            (IdleAnswer 3) 20 _).
  exact (run_step [] [] _ (Ended 5 EventTiming_default 100) 10 run_new).
Defined.

End GraceProps.
