(* ===== verification/Schedule.v ===== *)
(** The focus listener's read scheduler: verbatim-listener-logic's
    [schedule.rs]. [Schedule] is the whole state, one [App] for each
    application with its queue and its work in flight ([InFlight]); [step]
    takes one input and the time and answers the effects, in the order the
    shell applies them.

    The source appends to one vector of effects while it changes the state: a
    [Step] here is a function from the state to the effects it appends and the
    state after it, and [;;] does one after the other. A map keyed by process
    id is a [gmap], and its keys are sorted where the source walks them in
    order. *)

From S2P Require Import Prelude Tree Facts InFlight Listener.
Export Focus.

#[export] Instance Pid_countable : Countable Pid.
Proof.
  apply (inj_countable' pid_number (fun n => {| pid_number := n |})). by intros [].
Defined.

Definition SHUTTING_DOWN : string := "the listener is shutting down".
Definition NO_THREAD : string := "no thread to read it".

Inductive Waking := WakeThread (pid : Pid) | WakeAll.

Inductive AlarmChange := AlarmSet (due : option N) | AlarmNow.

(** What the schedule keeps of the event being read: [Running] of the
    source. *)
Record Reading := { reading_meta : Meta; reading_kind : FocusEvent; reading_place : N }.

Section schedule.
Context {J : Type}.

Inductive ScheduleInput :=
  | Push (pid : Pid) (meta : Meta) (job : J) (kind : FocusEvent) (key : option (list Z))
      (window : RuleWindow)
  | Next (pid : Pid) (generation : N)
  | Returned (pid : Pid) (request : Request) (meta : Meta) (judged : Judged)
      (top : option Window)
  | Tick
  | Learned (pid : Pid) (request : Request) (window : Window)
  | ArmedAt (pid : Pid) (request : Request) (bound : N)
  | JudgedBy (pid : Pid) (request : Request) (verdict : option Reason)
  | PublishedAs (pid : Pid) (request : Request) (read : option UiaFocusRead)
      (then_abandon : option Reason)
  | ForegroundEvent (top_level : option Window) (running_tops : list (Pid * option Window))
  | MsaaFocusOf (pid : Pid)
  | OutpostEnded (pid : Pid)
  | WhenIdle (waiter : N)
  | SpawnFailed (pid : Pid) (generation : N)
  | Stop.

(** The event a reading thread reads next. *)
Record Job := {
  job_pid : Pid;
  job_request : Request;
  job_meta : Meta;
  work : J;
  job_window : RuleWindow;
  job_after_elsewhere : bool;
  job_queue : QueuePlace;
}.

Inductive ScheduleEffect :=
  | Outcome (pid : Pid) (meta : Meta) (judged : Judged)
  | Spawn (pid : Pid) (generation : N) (reuse : bool)
  | Wake (waking : Waking)
  | Unwatch (pid : Pid)
  | ForgetLast
  | Forget (pid : Pid)
  | Alarm (change : AlarmChange)
  | RunIdle (waiter : N)
  | JobOf (job : Job)
  | JudgeRead (pid : Pid) (request : Request) (window : Window)
  | PublishRead (pid : Pid) (request : Request) (then_abandon : option Reason).

(** One event waiting for its read. *)
Record Queued := {
  queued_place : N;
  after_elsewhere : bool;
  queued_left_at : N;
  queued_kind : FocusEvent;
  queued_key : option (list Z);
  queued_window : RuleWindow;
  queued_meta : Meta;
  queued_job : J;
}.

(** One application's reading. *)
Record App := {
  queue : list Queued;
  threaded : bool;
  flight : InFlight Reading;
  abandoned : N;
  limit_reached : option N;
  ending : bool;
  left_at : N;
  last_top : option Window;
}.

Definition set_queue (a : App) (x : list Queued) : App := {|
  queue := x; threaded := threaded a; flight := flight a; abandoned := abandoned a;
  limit_reached := limit_reached a; ending := ending a; left_at := left_at a;
  last_top := last_top a |}.
Definition set_threaded (a : App) (x : bool) : App := {|
  queue := queue a; threaded := x; flight := flight a; abandoned := abandoned a;
  limit_reached := limit_reached a; ending := ending a; left_at := left_at a;
  last_top := last_top a |}.
Definition set_flight (a : App) (x : InFlight Reading) : App := {|
  queue := queue a; threaded := threaded a; flight := x; abandoned := abandoned a;
  limit_reached := limit_reached a; ending := ending a; left_at := left_at a;
  last_top := last_top a |}.
Definition set_abandoned (a : App) (x : N) : App := {|
  queue := queue a; threaded := threaded a; flight := flight a; abandoned := x;
  limit_reached := limit_reached a; ending := ending a; left_at := left_at a;
  last_top := last_top a |}.
Definition set_limit_reached (a : App) (x : option N) : App := {|
  queue := queue a; threaded := threaded a; flight := flight a; abandoned := abandoned a;
  limit_reached := x; ending := ending a; left_at := left_at a; last_top := last_top a |}.
Definition set_ending (a : App) (x : bool) : App := {|
  queue := queue a; threaded := threaded a; flight := flight a; abandoned := abandoned a;
  limit_reached := limit_reached a; ending := x; left_at := left_at a;
  last_top := last_top a |}.
Definition set_left_at (a : App) (x : N) : App := {|
  queue := queue a; threaded := threaded a; flight := flight a; abandoned := abandoned a;
  limit_reached := limit_reached a; ending := ending a; left_at := x;
  last_top := last_top a |}.
Definition set_last_top (a : App) (x : option Window) : App := {|
  queue := queue a; threaded := threaded a; flight := flight a; abandoned := abandoned a;
  limit_reached := limit_reached a; ending := ending a; left_at := left_at a;
  last_top := x |}.

Definition App_new : App := {|
  queue := []; threaded := false; flight := InFlight.new; abandoned := 0;
  limit_reached := None; ending := false; left_at := 0; last_top := None |}.

(** [App::in_charge]. *)
Definition app_in_charge (self : App) (generation : N) : bool :=
  threaded self && (generation_in_charge (flight self) =? generation).

Definition is_nil {A} (l : list A) : bool := match l with [] => true | _ => false end.

Definition spent (self : App) : bool :=
  ending self && negb (threaded self) && (abandoned self =? 0) && is_nil (queue self).

Definition waiting_end (self : App) (deadline : N) : option N :=
  if threaded self || is_nil (queue self) then None
  else option_map (fun reached => reached +|64| deadline) (limit_reached self).

(** The whole schedule. *)
Record Schedule := {
  deadline : N;
  apps : gmap Pid App;
  stopping : bool;
  queued : N;
  idle_waiters : list (N * N);
  last_focus : option Pid;
  alarm_due : option N;
}.

Definition set_apps (s : Schedule) (x : gmap Pid App) : Schedule := {|
  deadline := deadline s; apps := x; stopping := stopping s; queued := queued s;
  idle_waiters := idle_waiters s; last_focus := last_focus s; alarm_due := alarm_due s |}.
Definition set_stopping (s : Schedule) (x : bool) : Schedule := {|
  deadline := deadline s; apps := apps s; stopping := x; queued := queued s;
  idle_waiters := idle_waiters s; last_focus := last_focus s; alarm_due := alarm_due s |}.
Definition set_queued (s : Schedule) (x : N) : Schedule := {|
  deadline := deadline s; apps := apps s; stopping := stopping s; queued := x;
  idle_waiters := idle_waiters s; last_focus := last_focus s; alarm_due := alarm_due s |}.
Definition set_idle_waiters (s : Schedule) (x : list (N * N)) : Schedule := {|
  deadline := deadline s; apps := apps s; stopping := stopping s; queued := queued s;
  idle_waiters := x; last_focus := last_focus s; alarm_due := alarm_due s |}.
Definition set_last_focus (s : Schedule) (x : option Pid) : Schedule := {|
  deadline := deadline s; apps := apps s; stopping := stopping s; queued := queued s;
  idle_waiters := idle_waiters s; last_focus := x; alarm_due := alarm_due s |}.
Definition set_alarm_due (s : Schedule) (x : option N) : Schedule := {|
  deadline := deadline s; apps := apps s; stopping := stopping s; queued := queued s;
  idle_waiters := idle_waiters s; last_focus := last_focus s; alarm_due := x |}.

Definition micros (duration : Duration.t) : N := N.min U64_MAX (Duration.as_micros duration).

Definition new (deadline : Duration.t) : Schedule := {|
  deadline := micros deadline; apps := ∅; stopping := false; queued := 0;
  idle_waiters := []; last_focus := None; alarm_due := None |}.

(** ** Steps *)

Definition Step : Type := Schedule -> list ScheduleEffect * Schedule.

Definition skip : Step := fun s => ([], s).
Definition emit (effects : list ScheduleEffect) : Step := fun s => (effects, s).
Definition andthen (f g : Step) : Step := fun s =>
  let '(e, s) := f s in let '(e', s) := g s in (e ++ e', s).

(** [if let Some(app) = self.apps.get_mut(&pid)]. *)
Definition with_app (pid : Pid) (f : App -> Step) : Step := fun s =>
  match apps s !! pid with Some app => f app s | None => ([], s) end.

(** [*app = ..]: the application's record as changed so far. *)
Definition put (pid : Pid) (app : App) : Step := fun s =>
  ([], set_apps s (<[pid := app]> (apps s))).

(** The applications, and their ids in order. *)
Definition values (s : Schedule) : list App := (map_to_list (apps s)).*2.

Definition pid_le (a b : Pid) : Prop := pid_number a <= pid_number b.

#[local] Instance pid_le_dec : RelDecision pid_le.
Proof. intros a b. unfold pid_le. apply _. Defined.

Definition held (s : Schedule) : list Pid := merge_sort pid_le ((map_to_list (apps s)).*1).

(** [iter().min()]. *)
Fixpoint min_of (l : list N) : option N :=
  match l with
  | [] => None
  | x :: l => Some (match min_of l with Some y => N.min x y | None => x end)
  end.

(** ** Idle waiters *)

(** The oldest event of an application whose outcome is still to be sent. *)
Definition oldest_of (app : App) : option N :=
  match InFlight.running (flight app) with
  | Some (_, reading, false) => Some (reading_place reading)
  | _ => option_map queued_place (head (queue app))
  end.

(** The waiters that may run with [oldest] the oldest such event, and those
    that still wait. *)
Fixpoint idle_ready (oldest : option N) (waiters : list (N * N)) : list N * list (N * N) :=
  match waiters with
  | [] => ([], [])
  | (before, waiter) :: rest =>
      if match oldest with None => true | Some oldest => before <? oldest end
      then let '(run, wait) := idle_ready oldest rest in (waiter :: run, wait)
      else ([], waiters)
  end.

Definition wake_idle_waiters : Step := fun s =>
  let '(run, wait) := idle_ready (min_of (omap oldest_of (values s))) (idle_waiters s) in
  (map RunIdle run, set_idle_waiters s wait).

(** ** The alarm *)

Definition due_times (deadline : N) (app : App) : list N :=
  option_list (next_wake (flight app)) ++ option_list (waiting_end app deadline).

Definition set_alarm : Step := fun s =>
  if stopping s then ([], s)
  else
    let due := min_of (concat (map (due_times (deadline s)) (values s))) in
    if bool_decide (due = alarm_due s) then ([], s)
    else ([Alarm (AlarmSet due)], set_alarm_due s due).

(** ** Threads *)

Definition start (pid : Pid) (reuse : bool) : Step :=
  with_app pid (fun app s =>
    let '(generation, flight) := succeed (flight app) in
    andthen (put pid (set_threaded (set_flight app flight) true))
            (emit [Spawn pid generation reuse]) s).

Definition let_go (pid : Pid) : Step := fun s =>
  ([Forget pid], set_apps s (delete pid (apps s))).

Definition moved_away_from_all_but (pid : Pid) : Step := fun s =>
  ([], set_apps s (map_imap (fun owner app =>
         Some (if bool_decide (owner = pid) then app else set_left_at app (queued s)))
         (apps s))).

(** Every event waiting is dropped for [why], in order. *)
Definition drop_outcomes (pid : Pid) (why : string) (q : list Queued) : list ScheduleEffect :=
  map (fun queued => Outcome pid (queued_meta queued) (Dropped why)) q.

Definition drop_waiting (pid : Pid) : Step :=
  with_app pid (fun app s =>
    if threaded app || is_nil (queue app) then ([], s)
    else andthen (put pid (set_queue app []))
        (andthen (emit (drop_outcomes pid WAITED_TOO_LONG (queue app))) wake_idle_waiters) s).

(** ** What the work in flight decides *)

Definition why_abandoned (reason : Reason) : string :=
  match reason with
  | MovedOn => MOVED_ON
  | Deadline => NOT_IN_TIME
  | Hung => STOPPED_RESPONDING
  end.

Definition abandon (now : N) (pid : Pid) (ab : Abandoned Reading) : Step :=
  with_app pid (fun app s =>
    let count := abandoned app +|64| 1 in
    let reached :=
      if (ABANDONED_LIMIT <=? count) && negb (bool_decide (is_Some (limit_reached app)))
      then Some now else limit_reached app in
    let app := set_limit_reached (set_abandoned (set_threaded app false) count) reached in
    andthen (emit [Unwatch pid])
    (andthen (put pid app)
    (andthen (if ab_published ab then skip
              else emit [Outcome pid (reading_meta (ab_item ab))
                           (Dropped (why_abandoned (reason ab)))])
    (andthen (if is_nil (queue app) || (ABANDONED_LIMIT <=? count) then skip
              else start pid false)
             wake_idle_waiters))) s).

Definition decided (now : N) (pid : Pid) (decision : Decision Reading) : Step :=
  match decision with
  | Nothing => skip
  | AskShell (Judge request (Some window)) => emit [JudgeRead pid request window]
  | AskShell (Judge _ None) => skip
  | AskShell (Publish request then_abandon) => emit [PublishRead pid request then_abandon]
  | Abandon ab => abandon now pid ab
  end.

(** A transition of [pid]'s work in flight, and what it decides. *)
Definition decide_flight (now : N) (pid : Pid) (app : App)
    (transition : Decision Reading * InFlight Reading) : Step :=
  let '(decision, flight) := transition in
  andthen (put pid (set_flight app flight)) (decided now pid decision).

(** ** The inputs *)

Definition is_focus_kind (kind : FocusEvent) : bool :=
  match kind with FocusChange | MenuOpened => true | Selection | NotificationEvent => false end.

(** Whether a newer event of [kind] and [key] replaces [waiting]. *)
Definition replaced_by (kind : FocusEvent) (key : option (list Z)) (waiting : Queued) : bool :=
  match key with
  | Some key => bool_decide (queued_kind waiting = kind) &&
                bool_decide (queued_key waiting = Some key)
  | None => false
  end.

(** The first half of [push]: the events the new one replaces are dropped. *)
Definition push_replacing (pid : Pid) (kind : FocusEvent) (key : option (list Z)) : Step := fun s =>
  let app := set_ending (default App_new (apps s !! pid)) false in
  let gone := List.filter (replaced_by kind key) (queue app) in
  let kept := List.filter (fun waiting => negb (replaced_by kind key waiting)) (queue app) in
  andthen (put pid (set_queue app kept))
  (andthen (emit (drop_outcomes pid REPLACED gone))
           (if is_nil gone then skip else wake_idle_waiters)) s.

(** The second half: the event takes its place at the back, and a thread is
    woken or started for it unless its application's abandoned threads are at
    the limit. *)
Definition push_queueing (now : N) (pid : Pid) (meta : Meta) (job : J) (kind : FocusEvent)
    (key : option (list Z)) (window : RuleWindow) : Step := fun s =>
  let s := set_queued s (queued s +|64| 1) in
  let place := queued s in
  let elsewhere := is_focus_kind kind && negb (bool_decide (last_focus s = Some pid)) in
  let s := if is_focus_kind kind then set_last_focus s (Some pid) else s in
  andthen (if is_focus_kind kind then moved_away_from_all_but pid else skip)
    (with_app pid (fun app s =>
      let app := set_queue app (queue app ++ [{|
        queued_place := place; after_elsewhere := elsewhere; queued_left_at := left_at app;
        queued_kind := kind; queued_key := key; queued_window := window;
        queued_meta := meta; queued_job := job |}]) in
      andthen (put pid app)
        (if threaded app then emit [Wake (WakeThread pid)]
         else if match limit_reached app with
                 | Some reached => reached +|64| deadline s <=? now
                 | None => false
                 end then drop_waiting pid
         else if ABANDONED_LIMIT <=? abandoned app then skip
         else start pid false) s)) s.

Definition push (now : N) (pid : Pid) (meta : Meta) (job : J) (kind : FocusEvent)
    (key : option (list Z)) (window : RuleWindow) : Step := fun s =>
  if stopping s then ([Outcome pid meta (Dropped SHUTTING_DOWN)], s)
  else andthen (push_replacing pid kind key) (push_queueing now pid meta job kind key window) s.

Definition next (now : N) (pid : Pid) (generation : N) : Step := fun s =>
  if stopping s then ([], s)
  else with_app pid (fun app s =>
    if negb (app_in_charge app generation) then ([], s)
    else match queue app with
    | q :: rest =>
        let reading := {| reading_meta := queued_meta q; reading_kind := queued_kind q;
                          reading_place := queued_place q |} in
        let '(request, flight) :=
          InFlight.start (flight app) reading (deadline s) (queued_window q) now in
        andthen (put pid (set_flight (set_queue app rest) flight))
          (emit [JobOf {| job_pid := pid; job_request := request; job_meta := queued_meta q;
             work := queued_job q; job_window := queued_window q;
             job_after_elsewhere := after_elsewhere q;
             job_queue := {| place := queued_place q; place_left_at := queued_left_at q |} |}]) s
    | [] =>
        if ending app
        then let app := set_threaded app false in
             andthen (put pid app) (if spent app then let_go pid else skip) s
        else ([], s)
    end) s.

Definition returned (pid : Pid) (request : Request) (meta : Meta) (judged : Judged)
    (top : option Window) : Step :=
  with_app pid (fun app s =>
    if app_in_charge app (generation request)
    then
      let app := match judged, top with
                 | Read _, Some top => set_last_top app (Some top)
                 | _, _ => app
                 end in
      let '(ended, flight) := InFlight.end_ (flight app) request in
      andthen (put pid (set_flight app flight))
      (andthen (match ended with
                | Some (_, true) => skip
                | Some (_, false) => emit [Outcome pid meta judged]
                | None => skip
                end) wake_idle_waiters) s
    else
      let count := abandoned app - 1 in
      let app := set_abandoned app count in
      let app := if count <? ABANDONED_LIMIT then set_limit_reached app None else app in
      andthen (put pid app)
      (andthen (emit [ForgetLast])
               (if spent app then let_go pid
                else if threaded app || is_nil (queue app) || stopping s then skip
                else start pid true)) s).

(** One application of [tick]. *)
Definition tick_app (now : N) (pid : Pid) : Step :=
  with_app pid (fun app s =>
    match InFlight.running (flight app) with
    | Some _ => decide_flight now pid app (InFlight.tick (flight app) now) s
    | None =>
        if match waiting_end app (deadline s) with Some e => e <=? now | None => false end
        then drop_waiting pid s
        else ([], s)
    end).

Fixpoint each (f : Pid -> Step) (pids : list Pid) : Step :=
  match pids with [] => skip | pid :: pids => andthen (f pid) (each f pids) end.

Definition tick (now : N) : Step := fun s =>
  if stopping s then ([], s) else each (tick_app now) (held s) s.

Definition published (now : N) (pid : Pid) (request : Request) (read : option UiaFocusRead)
    (then_abandon : option Reason) : Step :=
  with_app pid (fun app s =>
    let meta :=
      match InFlight.running (flight app) with
      | Some (running, reading, _) =>
          if accepts (flight app) running && bool_decide (running = request)
          then Some (reading_meta reading) else None
      | None => None
      end in
    let '(effects, got) :=
      match meta, read with
      | Some meta, Some read => ([Outcome pid meta (Read read)], true)
      | _, _ => ([], false)
      end in
    let '(decision, flight) := InFlight.published (flight app) request got then_abandon now in
    andthen (emit effects)
    (andthen (put pid (set_flight app flight))
    (andthen (if got then wake_idle_waiters else skip)
             (decided now pid decision))) s).

Definition foreground (top_level : option Window) (running_tops : list (Pid * option Window))
    : Step := fun s =>
  ([], set_apps s (map_imap (fun pid app =>
    let reference :=
      match InFlight.running (flight app) with
      | Some _ => match find (fun '(owner, _) => bool_decide (owner = pid)) running_tops with
                  | Some (_, top) => top
                  | None => None
                  end
      | None => last_top app
      end in
    Some (if bool_decide (reference = None) || bool_decide (reference <> top_level)
          then set_left_at app (queued s) else app)) (apps s))).

Definition outpost_ended (pid : Pid) : Step :=
  with_app pid (fun app s =>
    let app := set_ending app true in
    andthen (put pid app)
      (if spent app then let_go pid else emit [Wake (WakeThread pid)]) s).

Definition spawn_failed (pid : Pid) (generation : N) : Step :=
  with_app pid (fun app s =>
    if negb (app_in_charge app generation) then ([], s)
    else
      let dropped := drop_outcomes pid NO_THREAD (queue app) in
      let app := set_queue (set_threaded app false) [] in
      andthen (put pid app)
      (andthen (emit dropped)
      (andthen (if spent app then let_go pid else skip) wake_idle_waiters)) s).

(** The input's own transition, before the alarm is set. *)
Definition handle (input : ScheduleInput) (now : N) : Step :=
  match input with
  | Push pid meta job kind key window => push now pid meta job kind key window
  | Next pid generation => next now pid generation
  | Returned pid request meta judged top => returned pid request meta judged top
  | Tick => fun s => tick now (set_alarm_due s None)
  | Learned pid request window => fun s =>
      if stopping s then ([], s)
      else with_app pid (fun app =>
        decide_flight now pid app (InFlight.learned (flight app) request window now)) s
  | ArmedAt pid request bound =>
      with_app pid (fun app => put pid (set_flight app (InFlight.armed (flight app) request bound)))
  | JudgedBy pid request verdict =>
      with_app pid (fun app =>
        decide_flight now pid app (InFlight.judged (flight app) request verdict))
  | PublishedAs pid request read then_abandon => published now pid request read then_abandon
  | ForegroundEvent top_level running_tops => foreground top_level running_tops
  | MsaaFocusOf pid => moved_away_from_all_but pid
  | OutpostEnded pid => outpost_ended pid
  | WhenIdle waiter => fun s =>
      if stopping s then ([], s)
      else wake_idle_waiters (set_idle_waiters s (idle_waiters s ++ [(queued s, waiter)]))
  | SpawnFailed pid generation => spawn_failed pid generation
  | Stop => fun s => ([Wake WakeAll; Alarm AlarmNow], set_stopping s true)
  end.

Definition step (input : ScheduleInput) (now : N) : Step :=
  andthen (handle input now) set_alarm.

(** ** Queries *)

(** The events an application holds whose outcome is still to be sent. *)
Definition app_metas (app : App) : list Meta :=
  map queued_meta (queue app) ++
  match InFlight.running (flight app) with
  | Some (_, reading, false) => [reading_meta reading]
  | _ => []
  end.

Definition markers (s : Schedule) : list N :=
  merge_sort N.le (map marker (concat (map app_metas (values s)))).

Definition in_charge (s : Schedule) (pid : Pid) (generation : N) : bool :=
  negb (stopping s) &&
  match apps s !! pid with Some app => app_in_charge app generation | None => false end.

Definition focus_pending (s : Schedule) (pid : option Pid) : bool :=
  existsb (fun '(owner, app) =>
    match InFlight.running (flight app) with
    | Some (_, reading, published) =>
        bool_decide (reading_kind reading = FocusChange) && negb published
    | None => false
    end ||
    (threaded app || bool_decide (Some owner = pid)) &&
    existsb (fun queued => bool_decide (queued_kind queued = FocusChange)) (queue app))
    (map_to_list (apps s)).

End schedule.

Arguments ScheduleInput : clear implicits.
Arguments ScheduleEffect : clear implicits.
Arguments Job : clear implicits.
Arguments Queued : clear implicits.
Arguments App : clear implicits.
Arguments Schedule : clear implicits.
Arguments Step : clear implicits.
