(* ===== verification/ScheduleInv.v ===== *)
(** Invariants of the read scheduler ([Schedule]). The events whose outcome is
    still to be sent are the schedule's [pending] entries; [evolves] says what
    a part of a step may do: it keeps the invariant [ok], and every entry that
    leaves [pending] leaves in an outcome. Each operation of [Schedule] is
    shown to evolve, and the operations compose. *)

From S2P Require Import Prelude Tree Facts InFlight InFlightProps Listener Schedule.

(** ** The work in flight, as the scheduler sees it *)

Section flight.
Context {T : Type}.
Implicit Types (f : InFlight T).

(** What a transition that decided [d] did to the item running: nothing the
    scheduler sees, or it took the item out, saying whether it was published. *)
Definition views f (d : InFlight.Decision T) f' : Prop :=
  match d with
  | Abandon a => exists r, running_item f = Some r /\ running_item f' = None /\
      ab_item a = item r /\ ab_published a = is_published (walk r)
  | Nothing | AskShell _ => InFlight.running f' = InFlight.running f
  end.

Lemma abandon_views f why : views f (InFlight.abandon f why).1 (InFlight.abandon f why).2.
Proof.
  unfold InFlight.abandon. destruct (running_item f) as [r|] eqn:Hr; simpl; [|done].
  by exists r.
Qed.

Lemma judge_views f now : views f (judge f now).1 (judge f now).2.
Proof.
  unfold judge, judge_window. destruct (running_item f) as [r|] eqn:Hr; [|done].
  destruct (deadline_at r <=? now).
  - destruct (walk r) eqn:Hw; simpl; try apply abandon_views.
    unfold InFlight.running. simpl. by rewrite Hr Hw.
  - destruct (walk r) eqn:Hw; try (destruct (_ <=? now));
      destruct (moved r); try (destruct (_ <=? now)); simpl;
      unfold InFlight.running; simpl; by rewrite ?Hr ?Hw.
Qed.

Lemma judged_views f q v : views f (InFlight.judged f q v).1 (InFlight.judged f q v).2.
Proof.
  unfold InFlight.judged. destruct (running_of f q) as [r|] eqn:Hq; [|done].
  destruct v as [why|]; [|done]. apply running_of_Some in Hq as [Hr _].
  destruct (walk r) eqn:Hw; simpl; try apply abandon_views.
  unfold InFlight.running. simpl. by rewrite Hr Hw.
Qed.

Lemma views_same f f1 d f' :
  InFlight.running f1 = InFlight.running f ->
  (running_item f1 = None <-> running_item f = None) ->
  views f1 d f' -> views f d f'.
Proof.
  unfold views, InFlight.running. destruct d; try congruence.
  intros Hv Hn (r & Hr & Hr' & Hi & Hp). rewrite Hr in Hv.
  destruct (running_item f) as [r0|]; [|done]. simplify_eq. exists r0.
  split_and!; congruence.
Qed.

Lemma learned_views f q w now : views f (InFlight.learned f q w now).1 (InFlight.learned f q w now).2.
Proof.
  unfold InFlight.learned. destruct (running_of f q) as [r|] eqn:Hq; [|done].
  apply running_of_Some in Hq as [Hr _]. case_bool_decide; [done|].
  assert (forall mv, InFlight.running (with_running f (with_moved r mv)) = InFlight.running f)
    as Hrun by (intros mv; unfold InFlight.running; simpl; by rewrite Hr).
  destruct (_ <=? now); [|apply Hrun].
  eapply views_same, judge_views; [apply Hrun|]. by rewrite Hr.
Qed.

Lemma armed_running f q b : InFlight.running (InFlight.armed f q b) = InFlight.running f.
Proof.
  unfold InFlight.armed. destruct (running_of f q) as [r|] eqn:Hq; [|done].
  apply running_of_Some in Hq as [Hr _].
  destruct (walk r) eqn:Hw; simpl; unfold InFlight.running; simpl; by rewrite ?Hr ?Hw.
Qed.

Lemma published_views f q ta now :
  views f (InFlight.published f q false ta now).1 (InFlight.published f q false ta now).2.
Proof.
  unfold InFlight.published, publication. destruct (running_of f q) as [r|] eqn:Hq; [|done].
  destruct ta as [why|]; [|apply judge_views].
  pose proof (abandon_views f why) as Hv. apply running_of_Some in Hq as [Hr _].
  unfold InFlight.abandon in *. rewrite Hr in Hv |- *. exact Hv.
Qed.

(** A publication that had something to publish. *)
Lemma published_got f q r ta now :
  running_of f q = Some r ->
  views (with_running f (with_walk r Published))
    (InFlight.published f q true ta now).1 (InFlight.published f q true ta now).2.
Proof.
  intros Hq. unfold InFlight.published, publication. rewrite Hq.
  destruct ta as [why|]; [|apply judge_views].
  unfold InFlight.abandon. simpl. by eexists.
Qed.

End flight.

(** ** Pending entries *)

Section entries.
Context {J : Type}.
Implicit Types (s : Schedule J) (app : App J) (pid : Pid).

(** The place and meta of an event. *)
Definition Entry : Type := N * Meta.

Definition reading_entries (f : InFlight Reading) : list Entry :=
  match InFlight.running f with
  | Some (_, r, false) => [(reading_place r, reading_meta r)]
  | _ => []
  end.

Definition queued_entries (q : list (Queued J)) : list Entry :=
  map (fun q => (queued_place q, queued_meta q)) q.

(** The events of an application whose outcome is to be sent, oldest first. *)
Definition app_entries app : list Entry :=
  reading_entries (flight app) ++ queued_entries (queue app).

Definition pend (E : gmap Pid (list Entry)) : list (Pid * Entry) :=
  map_to_list E ≫= fun '(pid, es) => pair pid <$> es.

Definition pending s : list (Pid * Entry) := pend (app_entries <$> apps s).

(** An entry without its place. *)
Definition untag (e : Pid * Entry) : Pid * Meta := (e.1, e.2.2).

(** The outcomes of effects, and the waiters they run. *)
Definition outcomes (e : list (ScheduleEffect J)) : list (Pid * Meta) :=
  omap (fun x => match x with Outcome pid meta _ => Some (pid, meta) | _ => None end) e.
Definition ran (e : list (ScheduleEffect J)) : list N :=
  omap (fun x => match x with RunIdle w => Some w | _ => None end) e.

Lemma pend_insert E pid es :
  pend (<[pid := es]> E) ≡ₚ (pair pid <$> es) ++ pend (delete pid E).
Proof.
  unfold pend. rewrite -insert_delete_eq.
  rewrite map_to_list_insert; [|by rewrite lookup_delete_eq]. done.
Qed.

Lemma pend_lookup E pid es :
  E !! pid = Some es -> pend E ≡ₚ (pair pid <$> es) ++ pend (delete pid E).
Proof. intros H. unfold pend. by rewrite -(map_to_list_delete E pid es H). Qed.

Lemma elem_of_pending s pid e :
  (pid, e) ∈ pending s <-> exists app, apps s !! pid = Some app /\ e ∈ app_entries app.
Proof.
  unfold pending, pend. rewrite list_elem_of_bind. split.
  - intros ([pid' es] & Hin & Hm). apply list_elem_of_fmap in Hin as (e' & [= <- <-] & He).
    apply elem_of_map_to_list in Hm. rewrite lookup_fmap in Hm.
    destruct (apps s !! pid) as [app|]; simplify_eq/=. eauto.
  - intros (app & Hl & He). exists (pid, app_entries app). split.
    + apply list_elem_of_fmap. eauto.
    + apply elem_of_map_to_list. by rewrite lookup_fmap Hl.
Qed.

(** Replacing an application's record, when it is there or is not. *)
Lemma pending_put s pid app' :
  pending (set_apps s (<[pid := app']> (apps s))) ≡ₚ
    (pair pid <$> app_entries app') ++ pend (delete pid (app_entries <$> apps s)).
Proof. unfold pending. simpl. rewrite fmap_insert. apply pend_insert. Qed.

Lemma pending_at s pid :
  pending s ≡ₚ
    (pair pid <$> match apps s !! pid with Some app => app_entries app | None => [] end) ++
    pend (delete pid (app_entries <$> apps s)).
Proof.
  unfold pending. destruct (apps s !! pid) as [app|] eqn:Hl.
  - apply pend_lookup. by rewrite lookup_fmap Hl.
  - rewrite delete_id; [done|]. by rewrite lookup_fmap Hl.
Qed.

Lemma oldest_of_head app : oldest_of app = fst <$> head (app_entries app).
Proof.
  unfold oldest_of, app_entries, reading_entries.
  destruct (InFlight.running (flight app)) as [[[q r] []]|]; [|done|];
    by destruct (queue app).
Qed.

Lemma app_entries_idle app :
  running_item (flight app) = None -> app_entries app = queued_entries (queue app).
Proof.
  unfold app_entries, reading_entries, InFlight.running. by intros ->.
Qed.

(** ** The invariant *)

(** What holds of each application's record: an event is read only by a thread
    in charge, places grow along its events, at most [ABANDONED_LIMIT] threads
    are abandoned and a thread is in charge only below it, the limit's instant
    is kept exactly while it is reached, and events wait with no thread only
    then. *)
Record app_core (last : N) app : Prop := {
  ok_unread : threaded app = false -> running_item (flight app) = None;
  ok_sorted : StronglySorted N.le (app_entries app).*1;
  ok_places : Forall (fun e => e.1 <= last) (app_entries app);
  ok_abandoned : abandoned app <= ABANDONED_LIMIT;
  ok_threaded : threaded app = true -> abandoned app < ABANDONED_LIMIT;
  ok_limit : is_Some (limit_reached app) <-> abandoned app = ABANDONED_LIMIT;
}.

Record app_ok (last : N) (stop : bool) app : Prop := {
  ok_core : app_core last app;
  ok_waits : stop = false -> queue app <> [] -> threaded app = true \/ is_Some (limit_reached app);
}.

Record ok s : Prop := {
  ok_apps : map_Forall (fun _ app => app_ok (queued s) (stopping s) app) (apps s);
  ok_waiters : StronglySorted N.le (idle_waiters s).*1;
  ok_before : Forall (fun w => w.1 <= queued s) (idle_waiters s);
}.

(** What a part of a step does: it keeps the invariant; the entries that leave
    leave in outcomes, and none comes; waiters run in order, each once every
    event queued before it has left. *)
Record evolves s (e : list (ScheduleEffect J)) s' : Prop := {
  ev_ok : ok s';
  ev_out : untag <$> pending s ≡ₚ outcomes e ++ (untag <$> pending s');
  ev_in : forall x, x ∈ pending s' -> x ∈ pending s;
  ev_static : deadline s' = deadline s /\ stopping s' = stopping s /\ queued s' = queued s;
  ev_idle : exists l, idle_waiters s = l ++ idle_waiters s' /\ ran e = l.*2 /\
    forall b w pid p m, (b, w) ∈ l -> (pid, (p, m)) ∈ pending s' -> b < p;
}.

Lemma evolves_refl s : ok s -> evolves s [] s.
Proof.
  intros Hok. split; [done|done|done|done|]. exists []. split_and!; [done|done|].
  intros b w pid p m Hb. by apply not_elem_of_nil in Hb.
Qed.

Lemma evolves_trans s e s1 e1 s2 :
  evolves s e s1 -> evolves s1 e1 s2 -> evolves s (e ++ e1) s2.
Proof.
  intros [Hok1 Hout1 Hin1 (? & ? & ?) (l1 & Hi1 & Hr1 & Hl1)]
         [Hok2 Hout2 Hin2 (? & ? & ?) (l2 & Hi2 & Hr2 & Hl2)].
  split; [done| | |split_and!; congruence|].
  - unfold outcomes. rewrite omap_app -app_assoc. fold (outcomes e) (outcomes e1).
    by rewrite Hout1 Hout2.
  - auto.
  - exists (l1 ++ l2). split_and!.
    + by rewrite Hi1 Hi2 app_assoc.
    + unfold ran. rewrite omap_app fmap_app. by f_equal.
    + intros b w pid p m [Hb|Hb]%elem_of_app Hp; [|by eapply Hl2].
      eapply Hl1; [done|]. by apply Hin2.
Qed.

Lemma evolves_andthen s (f g : Step J) :
  evolves s (f s).1 (f s).2 ->
  evolves (f s).2 (g (f s).2).1 (g (f s).2).2 ->
  evolves s (andthen f g s).1 (andthen f g s).2.
Proof.
  intros Hf Hg. unfold andthen. destruct (f s) as [e s1]; simpl in *.
  destruct (g s1) as [e1 s2]; simpl in *. by eapply evolves_trans.
Qed.

(** Effects that are no outcome and run no waiter. *)
Definition quiet (e : list (ScheduleEffect J)) : Prop := outcomes e = [] /\ ran e = [].

Lemma evolves_quiet s e s' e' : quiet e' -> evolves s e s' -> evolves s (e ++ e') s'.
Proof.
  intros [Ho Hr] Hev. eapply evolves_trans; [done|]. destruct Hev as [Hok _ _ _ _].
  destruct (evolves_refl s' Hok) as [? ? ? ? (l & ? & ? & ?)].
  split; [done|by rewrite Ho|done|done|]. exists l. by rewrite Hr.
Qed.

(** Only the outcomes and the waiters of the effects count. *)
Lemma evolves_effects s e e' s' :
  outcomes e' = outcomes e -> ran e' = ran e -> evolves s e s' -> evolves s e' s'.
Proof.
  intros Ho Hr [? ? ? ? (l & ? & ? & ?)]. split; [done|by rewrite Ho|done|done|].
  exists l. by rewrite Hr.
Qed.

(** The invariant but for one application. *)
Definition ok_but pid s : Prop :=
  map_Forall (fun _ app => app_ok (queued s) (stopping s) app) (delete pid (apps s)) /\
  StronglySorted N.le (idle_waiters s).*1 /\
  Forall (fun w => w.1 <= queued s) (idle_waiters s).

Lemma ok_ok_but pid s : ok s -> ok_but pid s.
Proof. intros [Ha Hw Hb]. split_and!; [by apply map_Forall_delete|done|done]. Qed.

Lemma ok_but_put pid s app :
  ok_but pid s -> app_ok (queued s) (stopping s) app ->
  ok (set_apps s (<[pid := app]> (apps s))).
Proof.
  intros (Ha & Hw & Hb) Happ. split; simpl; [|done|done].
  rewrite -insert_delete_eq. by apply map_Forall_insert_2.
Qed.

(** Outcomes sent while an application's record is replaced. *)
Lemma evolves_put s e pid app' :
  ok_but pid s -> app_ok (queued s) (stopping s) app' -> ran e = [] ->
  (exists es,
     match apps s !! pid with Some app => app_entries app | None => [] end ≡ₚ
       es ++ app_entries app' /\ outcomes e = map (fun x => (pid, x.2)) es) ->
  evolves s e (set_apps s (<[pid := app']> (apps s))).
Proof.
  intros Hbut Happ Hran (es & Hes & Hout).
  assert (pending s ≡ₚ (pair pid <$> es) ++
            pending (set_apps s (<[pid := app']> (apps s)))) as Hp.
  { rewrite pending_put (pending_at s pid) Hes fmap_app -app_assoc. done. }
  split.
  - by apply ok_but_put.
  - rewrite Hp fmap_app Hout.
    enough (untag <$> (pair pid <$> es) = map (fun x => (pid, x.2)) es) as -> by done.
    by rewrite -list_fmap_compose.
  - intros x Hx. rewrite Hp. apply elem_of_app. by right.
  - done.
  - exists []. split_and!; [done|done|]. intros b w pid' p m Hb'. by apply not_elem_of_nil in Hb'.
Qed.

(** The usual case: the application's entries are as they were. *)
Lemma evolves_same s pid app app' :
  ok s -> apps s !! pid = Some app -> app_ok (queued s) (stopping s) app' ->
  app_entries app' = app_entries app ->
  evolves s [] (set_apps s (<[pid := app']> (apps s))).
Proof.
  intros Hok Hl Happ He. apply evolves_put; [by apply ok_ok_but|done..|].
  exists []. by rewrite Hl He.
Qed.

(** An application with nothing left may be let go. *)
Lemma evolves_let_go s pid app :
  ok s -> apps s !! pid = Some app -> app_entries app = [] ->
  evolves s [Forget pid] (set_apps s (delete pid (apps s))).
Proof.
  intros [Ha Hw Hb] Hl He.
  assert (pending s ≡ₚ pending (set_apps s (delete pid (apps s)))) as Hp.
  { rewrite (pending_at s pid) Hl He. unfold pending. simpl. by rewrite fmap_delete. }
  split; [|by rewrite Hp| |done|].
  - split; simpl; [|done|done]. by apply map_Forall_delete.
  - intros x. by rewrite Hp.
  - exists []. split_and!; [done|done|]. intros b w pid' p m Hb'. by apply not_elem_of_nil in Hb'.
Qed.

(** ** Idle waiters *)

Lemma min_of_lower l y : y ∈ l -> exists x, min_of l = Some x /\ x <= y.
Proof.
  induction l as [|z l IH]; [by intros ?%not_elem_of_nil|]. simpl.
  intros [->|Hy]%elem_of_cons.
  - eexists. split; [done|]. destruct (min_of l); lia.
  - destruct (IH Hy) as (x & -> & Hx). eexists. split; [done|]. lia.
Qed.

Lemma min_of_elem l x : min_of l = Some x -> x ∈ l.
Proof.
  revert x. induction l as [|z l IH]; intros x; [done|]. simpl. intros [= <-].
  destruct (min_of l) as [m|]; [|left].
  destruct (N.min_spec z m) as [[_ ->]|[_ ->]]; [left|right; by apply IH].
Qed.

(** The waiters that run, and that each was of the front. *)
Lemma idle_ready_spec o waiters run wait :
  idle_ready o waiters = (run, wait) ->
  exists l, waiters = l ++ wait /\ run = l.*2 /\
    (forall b w, (b, w) ∈ l -> match o with Some p => b < p | None => True end) /\
    match wait, o with
    | [], _ => True
    | (b, _) :: _, Some p => p <= b
    | _ :: _, None => False
    end.
Proof.
  revert run wait. induction waiters as [|[b w] rest IH]; intros run wait; simpl.
  - intros [= <- <-]. exists []. split_and!; [done|done| |done].
    intros b w Hb. by apply not_elem_of_nil in Hb.
  - destruct (match o with Some p => b <? p | None => true end) eqn:Hc.
    + destruct (idle_ready o rest) as [run' wait'] eqn:Hr. intros [= <- <-].
      destruct (IH _ _ eq_refl) as (l & -> & -> & Hl & Hw). exists ((b, w) :: l).
      split_and!; [done|done| |done]. intros b' w' [[= -> ->]|Hin]%elem_of_cons; [|by eapply Hl].
      destruct o; [by apply N.ltb_lt|done].
    + intros [= <- <-]. exists []. split_and!; [done|done|..].
      * intros b' w' Hb. by apply not_elem_of_nil in Hb.
      * destruct o; [by apply N.ltb_ge|done].
Qed.

Lemma elem_of_values s app : app ∈ values s <-> exists pid, apps s !! pid = Some app.
Proof.
  unfold values. rewrite list_elem_of_fmap. split.
  - intros ([pid app'] & -> & Hin%elem_of_map_to_list). by exists pid.
  - intros (pid & Hl). exists (pid, app). split; [done|]. by apply elem_of_map_to_list.
Qed.

Lemma head_least (l : list Entry) e :
  StronglySorted N.le l.*1 -> e ∈ l -> exists h, fst <$> head l = Some h /\ h <= e.1.
Proof.
  destruct l as [|x l]; [by intros _ ?%not_elem_of_nil|]. simpl. intros Hs Hin.
  exists x.1. split; [done|]. apply StronglySorted_inv in Hs as [_ Hall].
  apply elem_of_cons in Hin as [->|Hin]; [lia|].
  rewrite Forall_forall in Hall. apply Hall. apply list_elem_of_fmap. eauto.
Qed.

Lemma wake_evolves s : ok s -> evolves s (wake_idle_waiters s).1 (wake_idle_waiters s).2.
Proof.
  intros [Ha Hw Hb]. unfold wake_idle_waiters.
  destruct (idle_ready _ (idle_waiters s)) as [run wait] eqn:Hr.
  apply idle_ready_spec in Hr as (l & Hl & -> & Hlt & _). simpl.
  assert (outcomes (map RunIdle l.*2) = [] /\ ran (map RunIdle l.*2) = l.*2) as [Hout Hran].
  { clear. induction l as [|[b w] l [IH1 IH2]]; [done|]. simpl. split; [done|by f_equal]. }
  rewrite Hl in Hw, Hb. split; simpl.
  - split; simpl; [done| |by apply Forall_app in Hb as [_ ?]].
    rewrite fmap_app in Hw. by apply StronglySorted_app in Hw as (_ & _ & ?).
  - by rewrite Hout.
  - done.
  - done.
  - exists l. split_and!; [done|done|]. intros b w pid p m Hin Hp.
    apply elem_of_pending in Hp as (app & Happ & He).
    destruct (head_least _ _ (ok_sorted _ _ (ok_core _ _ _ (Ha _ _ Happ))) He) as (h & Hh & Hle).
    destruct (min_of_lower (omap oldest_of (values s)) h) as (x & Hx & Hxh).
    { apply list_elem_of_omap. exists app. split; [|by rewrite oldest_of_head].
      apply elem_of_values. eauto. }
    specialize (Hlt b w Hin). rewrite Hx in Hlt. simpl in Hle. lia.
Qed.

(** No idle waiter is forgotten: the first waits for an event queued at or
    before it. *)
Definition settled s : Prop :=
  match idle_waiters s with
  | [] => True
  | (b, _) :: _ => exists pid app h,
      apps s !! pid = Some app /\ oldest_of app = Some h /\ h <= b
  end.

Lemma wake_settled s : settled (wake_idle_waiters s).2.
Proof.
  unfold wake_idle_waiters. destruct (idle_ready _ (idle_waiters s)) as [run wait] eqn:Hr.
  apply idle_ready_spec in Hr as (l & _ & _ & _ & Hw). unfold settled. simpl.
  destruct wait as [|[b w] wait]; [done|].
  destruct (min_of (omap oldest_of (values s))) as [p|] eqn:Hm; [|done].
  apply min_of_elem, list_elem_of_omap in Hm as (app & Hin & Ho).
  apply elem_of_values in Hin as (pid & Hl). by exists pid, app, p.
Qed.

(** What keeps a schedule settled: each application's oldest event stays, or
    an older one comes. *)
Lemma settled_mono s s' :
  idle_waiters s' = idle_waiters s ->
  (forall pid app h, apps s !! pid = Some app -> oldest_of app = Some h ->
     exists app' h', apps s' !! pid = Some app' /\ oldest_of app' = Some h' /\ h' <= h) ->
  settled s -> settled s'.
Proof.
  unfold settled. intros -> Hold. destruct (idle_waiters s) as [|[b w] l]; [done|].
  intros (pid & app & h & Hl & Ho & Hh). destruct (Hold _ _ _ Hl Ho) as (app' & h' & ? & ? & ?).
  exists pid, app', h'. split_and!; [done..|lia].
Qed.

Lemma settled_put s pid app app' :
  apps s !! pid = Some app ->
  (forall h, oldest_of app = Some h -> exists h', oldest_of app' = Some h' /\ h' <= h) ->
  settled s -> settled (set_apps s (<[pid := app']> (apps s))).
Proof.
  intros Hl Hold. apply settled_mono; [done|]. intros pid' app0 h Hl0 Ho. simpl.
  destruct (decide (pid' = pid)) as [->|Hne].
  - rewrite Hl in Hl0. simplify_eq. destruct (Hold _ Ho) as (h' & ? & ?).
    exists app', h'. by rewrite lookup_insert_eq.
  - exists app0, h. rewrite lookup_insert_ne //.
Qed.

End entries.

#[export] Hint Resolve evolves_refl wake_evolves wake_settled ok_ok_but : verbatim.
