(* ===== verification/ScheduleSteps.v ===== *)
(** Each operation of the read scheduler keeps its invariant and accounts for
    the events it answers ([good]), the arrival of an event, [push], last. *)

From S2P Require Import Prelude Tree Facts InFlight InFlightProps Listener Schedule ScheduleInv.

Section steps.
Context {J : Type}.
Implicit Types (s : Schedule J) (app : App J) (pid : Pid) (f : Step J).

(** From a good schedule [f] does good, and leaves no idle waiter behind. *)
Definition good s f : Prop :=
  ok s -> settled s -> evolves s (f s).1 (f s).2 /\ settled (f s).2.

Lemma good_andthen s f g : good s f -> good (f s).2 g -> good s (andthen f g).
Proof.
  intros Hf Hg Hok Hset. destruct (Hf Hok Hset) as [He Hs].
  destruct (Hg (ev_ok _ _ _ He) Hs) as [He' Hs'].
  split; [by apply evolves_andthen|].
  unfold andthen. destruct (f s) as [e s1]; simpl in *. by destruct (g s1).
Qed.

Lemma good_skip s : good s skip.
Proof. intros Hok Hset. split; [by apply evolves_refl|done]. Qed.

Lemma good_emit s e : quiet e -> good s (emit e).
Proof.
  intros Hq Hok Hset. split; [|done]. apply (evolves_quiet s [] s e Hq). by apply evolves_refl.
Qed.

Lemma good_with_app s pid (k : App J -> Step J) :
  (forall app, apps s !! pid = Some app -> good s (k app)) -> good s (with_app pid k).
Proof.
  intros Hk. unfold with_app. destruct (apps s !! pid) as [app|] eqn:Hl; unfold good.
  - by rewrite Hl; apply Hk.
  - rewrite Hl. intros. split; [by apply evolves_refl|done].
Qed.

Lemma good_wake s : good s wake_idle_waiters.
Proof. intros Hok Hset. split; [by apply wake_evolves|by apply wake_settled]. Qed.

(** After [wake_idle_waiters] the schedule is settled whatever it was. *)
Lemma evolves_then_wake s e s1 :
  evolves s e s1 ->
  evolves s (e ++ (wake_idle_waiters s1).1) (wake_idle_waiters s1).2 /\
  settled (wake_idle_waiters s1).2.
Proof.
  intros He. split; [|apply wake_settled]. eapply evolves_trans; [done|].
  apply wake_evolves, He.
Qed.

(** Replacing a record by one with the same entries. *)
Lemma good_put s pid app app' :
  apps s !! pid = Some app -> app_ok (queued s) (stopping s) app' ->
  app_entries app' = app_entries app -> good s (put pid app').
Proof.
  intros Hl Happ He Hok Hset. split; [by eapply evolves_same|].
  eapply settled_put; [done| |done]. intros h. rewrite !oldest_of_head He.
  intros ->. exists h. split; [done|lia].
Qed.

Lemma ok_lookup s pid app :
  ok s -> apps s !! pid = Some app -> app_ok (queued s) (stopping s) app.
Proof. intros [Ha _ _] Hl. exact (Ha _ _ Hl). Qed.

Lemma put_apps s pid app app' :
  set_apps (set_apps s (<[pid := app]> (apps s)))
    (<[pid := app']> (apps (set_apps s (<[pid := app]> (apps s))))) =
  set_apps s (<[pid := app']> (apps s)).
Proof. unfold set_apps. simpl. by rewrite insert_insert_eq. Qed.

(** ** Threads *)

(** An application given a new thread. *)
Definition restarted app : App J :=
  set_threaded (set_flight app (succeed (flight app)).2) true.

Lemma start_eq s pid app reuse :
  apps s !! pid = Some app ->
  start pid reuse s =
    ([Spawn pid (succeed (flight app)).1 reuse],
     set_apps s (<[pid := restarted app]> (apps s))).
Proof. intros Hl. unfold start, with_app. by rewrite Hl. Qed.

Lemma restarted_entries app : app_entries (restarted app) = app_entries app.
Proof. done. Qed.

Lemma restarted_ok last stop app :
  app_core last app -> abandoned app < ABANDONED_LIMIT -> app_ok last stop (restarted app).
Proof.
  intros [Hu Hs Hp Ha Ht Hl] Hlt. split; [split|]; simpl; [done|exact Hs|exact Hp|done|done|done|].
  by left.
Qed.

Lemma let_go_good s pid app :
  apps s !! pid = Some app -> spent app = true -> good s (let_go pid).
Proof.
  intros Hl Hsp Hok Hset.
  assert (app_entries app = []) as He.
  { unfold spent in Hsp. reflect_bools.
    destruct (ok_core _ _ _ (ok_lookup _ _ _ Hok Hl)) as [Hu _ _ _ _ _].
    rewrite app_entries_idle; [by destruct (queue app)|]. by apply Hu. }
  split; [by eapply evolves_let_go|].
  apply (settled_mono s); [done| |done]. intros pid' app' h Hl' Ho.
  exists app', h. split_and!; [|done|lia]. simpl. rewrite lookup_delete_ne //.
  intros <-. rewrite Hl in Hl'. simplify_eq. by rewrite oldest_of_head He in Ho.
Qed.

(** Replacing a record with the same entries, and letting it go if spent. *)
Lemma put_let_go_good s pid app app' (e : Step J) :
  apps s !! pid = Some app -> app_ok (queued s) (stopping s) app' ->
  app_entries app' = app_entries app -> (forall s', good s' e) ->
  good s (andthen (put pid app') (if spent app' then let_go pid else e)).
Proof.
  intros Hl Happ He Hgood. apply good_andthen; [by eapply good_put|].
  destruct (spent app') eqn:Hsp; [|apply Hgood].
  eapply let_go_good; [|done]. simpl. by rewrite lookup_insert_eq.
Qed.

Lemma outpost_ended_good s pid : good s (outpost_ended pid).
Proof.
  apply good_with_app. intros app Hl Hok. revert Hok. intros Hok.
  apply (put_let_go_good s pid app); [done| |done| |done].
  - destruct (ok_lookup _ _ _ Hok Hl) as [[Hu Hs Hp Ha Ht Hlim] Hw].
    split; [split|]; done.
  - intros s'. by apply good_emit.
Qed.

(** Any change of an application's currentness changes nothing else. *)
Lemma left_at_good s (g : Pid -> App J -> bool) :
  good s (fun s => ([], set_apps s (map_imap (fun pid app =>
    Some (if g pid app then set_left_at app (queued s) else app)) (apps s)))).
Proof.
  intros [Ha Hw Hb] Hset. set (s' := (_ : list (ScheduleEffect J) * Schedule J).2).
  assert (forall pid, apps s' !! pid =
    (fun app => if g pid app then set_left_at app (queued s) else app) <$> apps s !! pid) as Hlk.
  { intros pid. simpl. rewrite map_lookup_imap. by destruct (apps s !! pid). }
  assert (app_entries <$> apps s' = app_entries <$> apps s) as Hes.
  { apply map_eq. intros pid. rewrite !lookup_fmap Hlk.
    destruct (apps s !! pid) as [app|]; [|done]. simpl. by destruct (g pid app). }
  assert (pending s' = pending s) as Hp by (unfold pending; by rewrite Hes).
  split; [split|].
  - split; [|done|done]. intros pid app. rewrite Hlk.
    destruct (apps s !! pid) as [app0|] eqn:Hl; [|done]. intros [= <-].
    specialize (Ha _ _ Hl). simpl. destruct (g pid app0); [|done].
    destruct Ha as [[? ? ? ? ? ?] ?]. split; [split|]; done.
  - by rewrite Hp.
  - by rewrite Hp.
  - done.
  - exists []. split_and!; [done|done|]. intros b w pid' p m Hb'. by apply not_elem_of_nil in Hb'.
  - apply (settled_mono s); [done| |done]. intros pid app h Hl Ho.
    exists (if g pid app then set_left_at app (queued s) else app), h.
    rewrite Hlk Hl. split_and!; [done| |lia]. by destruct (g pid app).
Qed.

Lemma moved_away_good s pid : good s (moved_away_from_all_but pid).
Proof.
  intros Hok Hset.
  destruct (left_at_good s (fun owner _ => negb (bool_decide (owner = pid))) Hok Hset) as [He Hs].
  unfold moved_away_from_all_but.
  assert (forall m : gmap Pid (App J), map_imap (fun owner app => Some (if bool_decide (owner = pid) then app
      else set_left_at app (queued s))) m =
    map_imap (fun owner app => Some (if negb (bool_decide (owner = pid))
      then set_left_at app (queued s) else app)) m) as Heq.
  { intros m. apply map_eq. intros i. rewrite !map_lookup_imap.
    destruct (m !! i); [|done]. simpl. by case_bool_decide. }
  by rewrite Heq.
Qed.

Lemma foreground_good s top tops : good s (foreground top tops).
Proof. apply (left_at_good s (fun pid app => _)). Qed.

(** ** Dropping what waits *)

Lemma drop_outcomes_spec pid why (q : list (Queued J)) :
  outcomes (drop_outcomes pid why q) = map (fun x => (pid, x.2)) (queued_entries q) /\
  ran (drop_outcomes pid why q) = [].
Proof.
  induction q as [|x q [IH1 IH2]]; [done|]. split; [|done]. simpl. by f_equal.
Qed.

Lemma drop_waiting_good s pid : good s (drop_waiting pid).
Proof.
  apply good_with_app. intros app Hl Hok Hset. unfold drop_waiting.
  destruct (threaded app || is_nil (queue app)) eqn:Hc; [by apply good_skip|].
  reflect_bools. destruct (ok_lookup _ _ _ Hok Hl) as [[Hu Hs Hp Ha Ht Hlim] Hw].
  destruct (drop_outcomes_spec pid WAITED_TOO_LONG (queue app)) as [Ho Hr].
  assert (running_item (flight app) = None) as Hrun by auto.
  assert (evolves s (drop_outcomes pid WAITED_TOO_LONG (queue app))
    (set_apps s (<[pid := set_queue app []]> (apps s)))) as He.
  { apply evolves_put; [by apply ok_ok_but| |done|].
    - split; [split|]; simpl; rewrite ?(app_entries_idle (set_queue app [])) //; constructor.
    - exists (queued_entries (queue app)). rewrite Hl Ho.
      rewrite (app_entries_idle app) // (app_entries_idle (set_queue app [])) //.
      simpl. by rewrite app_nil_r. }
  apply evolves_then_wake in He. unfold andthen, put, emit. simpl.
  by destruct (wake_idle_waiters _) as [e1 s1].
Qed.

(** ** Abandonment *)

(** The application after its read was abandoned. *)
Definition after_abandon (now : N) app : App J :=
  let count := abandoned app +|64| 1 in
  set_limit_reached (set_abandoned (set_threaded app false) count)
    (if (ABANDONED_LIMIT <=? count) && negb (bool_decide (is_Some (limit_reached app)))
     then Some now else limit_reached app).

Lemma after_abandon_core last stop now app :
  app_ok last stop app -> threaded app = true -> running_item (flight app) = None ->
  app_core last (after_abandon now app) /\
  (abandoned (after_abandon now app) < ABANDONED_LIMIT \/
   is_Some (limit_reached (after_abandon now app))).
Proof.
  intros [[Hu Hs Hp Ha Ht Hl] Hw] Hth Hrun. specialize (Ht Hth).
  unfold after_abandon, saturating_add, U64_MAX, ABANDONED_LIMIT in *.
  set (count := N.min 0xFFFFFFFFFFFFFFFF (abandoned app + 1)).
  assert (count = abandoned app + 1) as Hc by (unfold count; lia). clearbody count.
  assert (limit_reached app = None) as Hn.
  { destruct (limit_reached app); [|done]. exfalso.
    assert (abandoned app = 2) by (apply Hl; eauto). lia. }
  rewrite Hn. rewrite bool_decide_eq_false_2; [|by intros [? ?]].
  destruct (N.leb_spec 2 count); simpl; split.
  - split; simpl; unfold ABANDONED_LIMIT; [done|exact Hs|exact Hp|lia|done|].
    split; [lia|eauto].
  - right. eauto.
  - split; simpl; unfold ABANDONED_LIMIT; [done|exact Hs|exact Hp|lia|done|].
    split; [by intros [? ?]|lia].
  - left. simpl. lia.
Qed.

(** The record a published read's abandonment leaves, with a new thread for
    what waits where there may be one. *)
Definition abandoned_app (now : N) app : App J :=
  let app' := after_abandon now app in
  if is_nil (queue app') || (ABANDONED_LIMIT <=? abandoned app') then app'
  else restarted app'.

Lemma abandon_eq s now pid app ab :
  apps s !! pid = Some app ->
  exists e, quiet e /\
    abandon now pid ab s =
      ([Unwatch pid] ++
       (if ab_published ab then [] else
          [Outcome pid (reading_meta (ab_item ab)) (Dropped (why_abandoned (reason ab)))]) ++ e ++
       (wake_idle_waiters (set_apps s (<[pid := abandoned_app now app]> (apps s)))).1,
       (wake_idle_waiters (set_apps s (<[pid := abandoned_app now app]> (apps s)))).2).
Proof.
  intros Hl. unfold abandon, with_app. rewrite Hl. cbv zeta.
  fold (after_abandon now app).
  change (abandoned app +|64| 1) with (abandoned (after_abandon now app)).
  unfold abandoned_app. set (app' := after_abandon now app).
  destruct (is_nil (queue app') || (ABANDONED_LIMIT <=? abandoned app')).
  - exists []. split; [done|]. unfold andthen, emit, put, skip.
    destruct (ab_published ab); simpl; by destruct (wake_idle_waiters _).
  - exists [Spawn pid (succeed (flight app')).1 false]. split; [done|].
    unfold andthen, emit, put, skip.
    destruct (ab_published ab); simpl;
      rewrite (start_eq _ pid app'); simpl; rewrite ?lookup_insert_eq ?insert_insert_eq //;
      by destruct (wake_idle_waiters _).
Qed.

Lemma abandoned_app_ok last stop now app :
  app_ok last stop app -> threaded app = true -> running_item (flight app) = None ->
  app_ok last stop (abandoned_app now app).
Proof.
  intros Hok Hth Hrun. destruct (after_abandon_core last stop now app Hok Hth Hrun) as [Hc Hl].
  unfold abandoned_app. set (app' := after_abandon now app) in *. clearbody app'.
  destruct (is_nil (queue app')) eqn:Hq; simpl.
  - split; [done|]. by destruct (queue app').
  - destruct (N.leb_spec ABANDONED_LIMIT (abandoned app')) as [Hge|Hlt].
    + split; [done|]. intros _ _. right. destruct Hl; [lia|done].
    + by apply restarted_ok.
Qed.

Lemma abandoned_app_entries now app : app_entries (abandoned_app now app) = app_entries app.
Proof. unfold abandoned_app. by case_match. Qed.

(** Once the item is out of its application's work in flight, the abandonment
    sends the outcome of an unpublished one and nothing else. *)
Lemma abandon_evolves s now pid app ab :
  ok s -> apps s !! pid = Some app -> threaded app = true ->
  running_item (flight app) = None ->
  exists e, evolves s e (abandon now pid ab s).2 /\ settled (abandon now pid ab s).2 /\
    ran (abandon now pid ab s).1 = ran e /\
    outcomes (abandon now pid ab s).1 =
      (if ab_published ab then [] else [(pid, reading_meta (ab_item ab))]) ++ outcomes e.
Proof.
  intros Hok Hl Hth Hrun. destruct (abandon_eq s now pid app ab Hl) as (e & [Ho Hr] & ->).
  assert (evolves s [] (set_apps s (<[pid := abandoned_app now app]> (apps s)))) as He.
  { eapply evolves_same; [done|done| |by rewrite abandoned_app_entries].
    apply abandoned_app_ok; [|done|done]. by eapply ok_lookup. }
  apply evolves_then_wake in He as [He Hset]. simpl in He.
  eexists. split_and!; [exact He|exact Hset|..].
  - unfold ran in *. rewrite !omap_app Hr. by destruct (ab_published ab).
  - unfold outcomes in *. rewrite !omap_app Ho. by destruct (ab_published ab).
Qed.

(** ** Transitions of the work in flight *)

Lemma views_entries (f f' : InFlight Reading) d :
  views f d f' ->
  match d with
  | Abandon a => exists r, running_item f = Some r /\ running_item f' = None /\
      reading_entries f' = [] /\
      reading_entries f = if ab_published a then []
                          else [(reading_place (ab_item a), reading_meta (ab_item a))]
  | _ => reading_entries f' = reading_entries f /\
         (running_item f' = None <-> running_item f = None)
  end.
Proof.
  unfold views, reading_entries, InFlight.running.
  destruct d as [|q|a].
  - intros H. split; [by rewrite H|].
    destruct (running_item f), (running_item f'); done.
  - intros H. split; [by rewrite H|].
    destruct (running_item f), (running_item f'); done.
  - intros (r & Hr & Hr' & -> & ->). exists r. rewrite Hr Hr'.
    split_and!; [done..|]. by destruct (is_published (walk r)).
Qed.

Lemma set_flight_ok last stop app (f' : InFlight Reading) :
  app_ok last stop app ->
  reading_entries f' = reading_entries (flight app) ->
  (running_item (flight app) = None -> running_item f' = None) ->
  app_ok last stop (set_flight app f').
Proof.
  intros [[Hu Hs Hp Ha Ht Hl] Hw] He Hn. unfold app_entries in *.
  split; [split|]; simpl; try done; unfold app_entries; simpl; try (by rewrite He).
  intros Hth. apply Hn. auto.
Qed.

Lemma decided_good s now pid d : (forall a, d <> Abandon a) -> good s (decided now pid d).
Proof.
  intros Hd. destruct d as [|[q [w|]|q ta]|a]; simpl.
  - apply good_skip.
  - by apply good_emit.
  - apply good_skip.
  - by apply good_emit.
  - by destruct (Hd a).
Qed.

Lemma decision_cases (d : InFlight.Decision Reading) :
  (forall a, d <> Abandon a) \/ exists a, d = Abandon a.
Proof. destruct d; [by left|by left|right; by eexists]. Qed.

Lemma decide_flight_good s now pid app t :
  apps s !! pid = Some app -> views (flight app) t.1 t.2 ->
  good s (decide_flight now pid app t).
Proof.
  intros Hl Hv Hok Hset. destruct t as [d f']. simpl in Hv. apply views_entries in Hv.
  pose proof (ok_lookup _ _ _ Hok Hl) as Happ.
  destruct d as [|q|ab].
  1,2: destruct Hv as [He Hn]; unfold decide_flight;
    apply good_andthen; [|by apply decided_good|done|done];
    eapply good_put; [done|apply set_flight_ok; [done|done|by apply Hn]|];
    unfold app_entries; simpl; by rewrite He.
  destruct Hv as (r & Hr & Hr' & He' & He). unfold decide_flight, andthen, put. simpl.
  set (s1 := set_apps s _).
  assert (threaded app = true) as Hth.
  { destruct (threaded app) eqn:Hth; [done|]. destruct Happ as [[Hu _ _ _ _ _] _].
    by rewrite Hu in Hr. }
  assert (app_entries app = reading_entries (flight app) ++ app_entries (set_flight app f'))
    as Hes by (unfold app_entries; simpl; by rewrite He').
  assert (app_ok (queued s) (stopping s) (set_flight app f')) as Happ'.
  { destruct Happ as [[Hu Hs Hp Ha Ht Hlim] Hw]. rewrite Hes in Hs, Hp.
    rewrite fmap_app in Hs. apply StronglySorted_app in Hs as (_ & _ & Hs).
    apply Forall_app in Hp as [_ Hp].
    split; [split|]; simpl; try done. }
  destruct (abandon_evolves s1 now pid (set_flight app f') ab) as (e & Hev & Hs2 & Hran & Hout);
    [by apply ok_but_put; [apply ok_ok_but|]|by rewrite /= lookup_insert_eq|done|done|].
  destruct (abandon now pid ab s1) as [e2 s2]. simpl in *. split; [|done].
  eapply (evolves_effects s ((if ab_published ab then [] else
    [Outcome pid (reading_meta (ab_item ab)) (Dropped "")]) ++ e)).
  - unfold outcomes in *. rewrite Hout omap_app. by destruct (ab_published ab).
  - unfold ran in *. rewrite Hran omap_app. by destruct (ab_published ab).
  - eapply evolves_trans; [|exact Hev]. apply evolves_put; [by apply ok_ok_but|done| |].
    + by destruct (ab_published ab).
    + exists (reading_entries (flight app)). rewrite Hl Hes He. split; [done|].
      by destruct (ab_published ab).
Qed.

(** ** The reading threads *)

(** What the listener's shell keeps to: a thread in charge asks for its next
    event, or fails to start, only while it reads none, and it returns an event
    it read with that event's own meta. *)
Definition allowed s (input : ScheduleInput J) : Prop :=
  match input with
  | Next pid generation | SpawnFailed pid generation =>
      forall app, apps s !! pid = Some app -> app_in_charge app generation = true ->
        running_item (flight app) = None
  | Returned pid request meta _ _ =>
      forall app r, apps s !! pid = Some app -> running_of (flight app) request = Some r ->
        meta = reading_meta (item r)
  | _ => True
  end.

Lemma in_charge_threaded app g : app_in_charge app g = true -> threaded app = true.
Proof. unfold app_in_charge. by intros [? _]%andb_true_iff. Qed.

Lemma next_good s now pid g : allowed s (Next pid g) -> good s (next now pid g).
Proof.
  intros Hal Hok Hset. unfold next. destruct (stopping s); [by apply good_skip|].
  revert Hok Hset. apply good_with_app. intros app Hl Hok.
  destruct (app_in_charge app g) eqn:Hc; [|by apply good_skip]. simpl.
  assert (running_item (flight app) = None) as Hrun by (by eapply Hal).
  destruct (ok_lookup _ _ _ Hok Hl) as [[Hu Hs Hp Ha Ht Hlim] Hw].
  destruct (queue app) as [|q rest] eqn:Hq.
  - destruct (ending app); [|by apply good_skip].
    apply (put_let_go_good s pid app); [done| |done|intros; apply good_skip|done].
    split; [split|]; try done; by rewrite Hq.
  - apply good_andthen; [|by apply good_emit|done].
    eapply good_put; [done| |].
    + split; [split|]; try done; try (simpl; intros Hth; by rewrite (in_charge_threaded _ _ Hc) in Hth).
      * by rewrite app_entries_idle // Hq in Hs.
      * by rewrite app_entries_idle // Hq in Hp.
      * intros _ _. left. by apply in_charge_threaded in Hc.
    + rewrite (app_entries_idle app) // Hq. done.
Qed.

Lemma set_last_top_ok last stop app top :
  app_ok last stop app -> app_ok last stop (set_last_top app top).
Proof. intros [[? ? ? ? ? ?] ?]. split; [split|]; done. Qed.

(** A read's end, by its thread in charge. *)
Lemma returned_in_charge s pid app top q meta judged :
  apps s !! pid = Some app -> threaded app = true ->
  (forall r, running_of (flight app) q = Some r -> meta = reading_meta (item r)) ->
  ok s ->
  let '(ended, f') := InFlight.end_ (flight app) q in
  let st := andthen (put pid (set_flight (set_last_top app top) f'))
      (andthen (match ended with
                | Some (_, true) => skip
                | Some (_, false) => emit [Outcome pid meta judged]
                | None => skip
                end) wake_idle_waiters) in
  evolves s (st s).1 (st s).2 /\ settled (st s).2.
Proof.
  intros Hl Hth Hmeta Hok. pose proof (ok_lookup _ _ _ Hok Hl) as Happ.
  unfold InFlight.end_. destruct (running_of (flight app) q) as [r|] eqn:Hq.
  - specialize (Hmeta r eq_refl). apply running_of_Some in Hq as [Hr _].
    set (f' := {| InFlight.in_charge := _; requests := _; running_item := None |}).
    assert (app_entries app = reading_entries (flight app) ++ app_entries (set_flight (set_last_top app top) f'))
      as Hes by done.
    assert (reading_entries (flight app) = if is_published (walk r) then []
              else [(reading_place (item r), meta)]) as Hre.
    { unfold reading_entries, InFlight.running. rewrite Hr Hmeta. by destruct (walk r). }
    assert (evolves s (if is_published (walk r) then [] else [Outcome pid meta judged])
              (set_apps s (<[pid := set_flight (set_last_top app top) f']> (apps s)))) as He.
    { apply evolves_put; [by apply ok_ok_but| |by destruct (walk r)|].
      - destruct Happ as [[Hu Hs Hp Ha Ht Hlim] Hw]. rewrite Hes in Hs, Hp.
        rewrite fmap_app in Hs. apply StronglySorted_app in Hs as (_ & _ & Hs).
        apply Forall_app in Hp as [_ Hp]. split; [split|]; simpl; done.
      - exists (reading_entries (flight app)). rewrite Hl Hes Hre. split; [done|].
        by destruct (walk r). }
    apply evolves_then_wake in He as [He Hs]. unfold andthen, put, emit, skip.
    destruct (is_published (walk r)); simpl in *; by destruct (wake_idle_waiters _).
  - assert (evolves s [] (set_apps s (<[pid := set_flight (set_last_top app top) (flight app)]> (apps s)))) as He.
    { eapply evolves_same; [done|done| |done]. by apply (set_last_top_ok _ _ _ top) in Happ. }
    apply evolves_then_wake in He as [He Hs]. unfold andthen, put, skip. simpl in *.
    by destruct (wake_idle_waiters _).
Qed.

(** An abandoned thread's return: its application may have a thread again. *)
Lemma returned_abandoned s pid app :
  apps s !! pid = Some app ->
  let count := abandoned app - 1 in
  let app1 := set_abandoned app count in
  let app2 := if count <? ABANDONED_LIMIT then set_limit_reached app1 None else app1 in
  good s (andthen (put pid app2)
      (andthen (emit [ForgetLast])
               (if spent app2 then let_go pid
                else if threaded app2 || is_nil (queue app2) || stopping s then skip
                else start pid true))).
Proof.
  intros Hl count app1 app2 Hok Hset. pose proof (ok_lookup _ _ _ Hok Hl) as Happ.
  destruct Happ as [[Hu Hs Hp Ha Ht Hlim] Hw]. unfold ABANDONED_LIMIT in *.
  assert (app2 = set_limit_reached app1 None) as H2.
  { unfold app2, count. destruct (N.ltb_spec (abandoned app - 1) 2); [done|lia]. }
  assert (abandoned app2 = abandoned app - 1) as Hab by (by rewrite H2).
  assert (app_core (queued s) app2) as Hcore.
  { rewrite H2. split; simpl; unfold ABANDONED_LIMIT, count; try done; [lia|lia|].
    split; [by intros [? ?]|lia]. }
  assert (app_entries app2 = app_entries app) as Hes by (by rewrite H2).
  assert (queue app2 = queue app /\ threaded app2 = threaded app) as [Hq2 Ht2] by (by rewrite H2).
  assert (spent app2 = true \/ threaded app2 || is_nil (queue app2) || stopping s = true ->
          app_ok (queued s) (stopping s) app2) as Hok2.
  { intros Hc. split; [done|]. intros Hst Hqn. left. destruct Hc as [Hc|Hc].
    - unfold spent in Hc. reflect_bools. by destruct (queue app2).
    - rewrite Hst orb_false_r in Hc. by destruct (threaded app2), (queue app2). }
  clearbody app2. destruct (spent app2) eqn:Hsp.
  - apply good_andthen; [eapply good_put; [done|by apply Hok2; left|done]| |done|done].
    apply good_andthen; [by apply good_emit|].
    eapply let_go_good; [|done]. simpl. by rewrite lookup_insert_eq.
  - destruct (threaded app2 || is_nil (queue app2) || stopping s) eqn:Hc.
    + apply good_andthen; [eapply good_put; [done|by apply Hok2; right|done]| |done|done].
      apply good_andthen; [by apply good_emit|apply good_skip].
    + unfold andthen, put, emit. simpl. rewrite (start_eq _ pid app2); [|by rewrite /= lookup_insert_eq].
      rewrite put_apps. simpl. split.
      * eapply (evolves_effects s []); [done|done|].
        eapply evolves_same; [done|done| |by rewrite restarted_entries].
        apply restarted_ok; [done|]. unfold ABANDONED_LIMIT. lia.
      * eapply settled_put; [done| |done]. intros h. rewrite !oldest_of_head restarted_entries Hes.
        intros ->. exists h. split; [done|lia].
Qed.

Lemma returned_good s pid q meta judged top :
  allowed s (Returned pid q meta judged top) -> good s (returned pid q meta judged top).
Proof.
  intros Hal. apply good_with_app. intros app Hl Hok Hset.
  destruct (app_in_charge app (generation q)) eqn:Hc; [|by apply returned_abandoned].
  set (app' := match judged with Read _ => _ | _ => _ end).
  assert (exists top', app' = set_last_top app top') as (top' & ->).
  { unfold app'. destruct judged; [destruct top|..]; eexists; try reflexivity;
      instantiate (1 := last_top app); by destruct app. }
  pose proof (returned_in_charge s pid app top' q meta judged Hl
    (in_charge_threaded _ _ Hc) (fun r => Hal app r Hl) Hok) as Hr.
  cbv zeta. change (flight (set_last_top app top')) with (flight app).
  by destruct (InFlight.end_ (flight app) q) as [ended f'].
Qed.

Lemma spawn_failed_good s pid g : allowed s (SpawnFailed pid g) -> good s (spawn_failed pid g).
Proof.
  intros Hal. apply good_with_app. intros app Hl Hok Hset.
  destruct (app_in_charge app g) eqn:Hc; [|by apply good_skip].
  assert (running_item (flight app) = None) as Hrun by (by eapply Hal).
  destruct (ok_lookup _ _ _ Hok Hl) as [[Hu Hs Hp Ha Ht Hlim] Hw].
  destruct (drop_outcomes_spec pid NO_THREAD (queue app)) as [Ho Hr].
  set (app' := set_queue (set_threaded app false) []).
  assert (app_entries app' = []) as He' by (by rewrite app_entries_idle).
  assert (evolves s (drop_outcomes pid NO_THREAD (queue app))
            (set_apps s (<[pid := app']> (apps s)))) as He.
  { apply evolves_put; [by apply ok_ok_but| |done|].
    - split; [split|]; simpl; rewrite ?He'; try done; constructor.
    - exists (queued_entries (queue app)). by rewrite Hl Ho He' app_nil_r (app_entries_idle app). }
  cbn [negb]. cbv zeta. fold app'. unfold andthen at 1, put at 1, emit.
  unfold andthen at 1. simpl.
  destruct (spent app').
  - unfold andthen, let_go. simpl.
    assert (apps (set_apps s (<[pid := app']> (apps s))) !! pid = Some app') as Hl'
      by (by rewrite /= lookup_insert_eq).
    pose proof (evolves_trans _ _ _ _ _ He (evolves_let_go _ pid app' (ev_ok _ _ _ He) Hl' He'))
      as He2.
    apply evolves_then_wake in He2 as [He2 Hs2]. destruct (wake_idle_waiters _); simpl in *.
    by rewrite -app_assoc in He2.
  - unfold andthen, skip. apply evolves_then_wake in He as [He Hs2]. simpl in *.
    by destruct (wake_idle_waiters _).
Qed.

(** ** The watchdog *)

Lemma tick_app_good s now pid : good s (tick_app now pid).
Proof.
  apply good_with_app. intros app Hl. destruct (InFlight.running (flight app)).
  - by apply decide_flight_good; [|apply judge_views].
  - intros Hok Hset. destruct (match waiting_end app _ with Some e => _ | None => _ end).
    + by apply drop_waiting_good.
    + by apply good_skip.
Qed.

Lemma each_good (f : Pid -> Step J) pids s : (forall s pid, good s (f pid)) -> good s (each f pids).
Proof.
  intros Hf. revert s. induction pids as [|pid pids IH]; intros s; [apply good_skip|].
  apply good_andthen; [apply Hf|apply IH].
Qed.

Lemma tick_good s now : good s (tick now).
Proof.
  intros Hok Hset. unfold tick. destruct (stopping s); [by apply good_skip|].
  apply each_good; [|done|done]. intros. apply tick_app_good.
Qed.

(** ** The shell's answers *)

Lemma published_good s now pid q read ta : good s (published now pid q read ta).
Proof.
  apply good_with_app. intros app Hl Hok Hset. pose proof (ok_lookup _ _ _ Hok Hl) as Happ.
  set (meta := match InFlight.running (flight app) with Some _ => _ | None => _ end).
  assert (forall m, meta = Some m -> exists r, running_of (flight app) q = Some r /\
    is_published (walk r) = false /\ m = reading_meta (item r)) as Hmeta.
  { unfold meta, InFlight.running, accepts, running_of. intros m.
    destruct (running_item (flight app)) as [r|]; [|done].
    rewrite bool_decide_eq_true_2 //. destruct (is_published (walk r)) eqn:Hp; [done|]. simpl.
    case_bool_decide; [|done]. intros [= <-]. eauto. }
  clearbody meta. destruct meta as [m|], read as [read|].
  2-4: pose proof (decide_flight_good s now pid app
         (InFlight.published (flight app) q false ta now) Hl
         (published_views (flight app) q ta now) Hok Hset) as Hd;
       unfold decide_flight, andthen, emit, put, skip in *;
       destruct (InFlight.published (flight app) q false ta now) as [d f']; simpl in *;
       by destruct (decided now pid d _).
  destruct (Hmeta m eq_refl) as (r & Hq & Hpub & Hm).
  pose proof (published_got (flight app) q r ta now Hq) as Hv.
  apply running_of_Some in Hq as [Hr _].
  destruct (InFlight.published (flight app) q true ta now) as [d f'] eqn:Hpb0. simpl in Hv.
  assert (reading_entries f' = []) as He'.
  { apply views_entries in Hv. destruct d; [by destruct Hv as [-> _]..|].
    by destruct Hv as (? & _ & _ & ? & _). }
  assert (threaded app = true) as Hth.
  { destruct (threaded app) eqn:Hth; [done|]. destruct Happ as [[Hu _ _ _ _ _] _].
    by rewrite Hu in Hr. }
  assert (app_entries app = [(reading_place (item r), m)] ++ app_entries (set_flight app f')) as Hes.
  { unfold app_entries. simpl. rewrite He'. unfold reading_entries, InFlight.running.
    by rewrite Hr Hpub Hm. }
  assert (evolves s [Outcome pid m (Read read)]
            (set_apps s (<[pid := set_flight app f']> (apps s)))) as He.
  { apply evolves_put; [by apply ok_ok_but| |done|].
    - destruct Happ as [[Hu Hs Hp Ha Ht Hlim] Hw]. rewrite Hes in Hs, Hp.
      rewrite fmap_app in Hs. apply StronglySorted_app in Hs as (_ & _ & Hs).
      apply Forall_app in Hp as [_ Hp]. split; [split|]; simpl; try done. congruence.
    - exists [(reading_place (item r), m)]. by rewrite Hl Hes. }
  apply evolves_then_wake in He as [He Hs]. unfold andthen, emit, put.
  cbn [fst snd]. rewrite Hpb0. cbn [fst snd]. set (s1 := set_apps s _) in *.
  destruct (wake_idle_waiters s1) as [e1 s2] eqn:Hwake. cbn [fst snd] in *.
  assert (apps s2 !! pid = Some (set_flight app f')) as Hl2.
  { replace (apps s2) with (apps s1); [by rewrite /= lookup_insert_eq|].
    unfold wake_idle_waiters in Hwake. by destruct (idle_ready _ _); simplify_eq/=. }
  destruct (decision_cases d) as [Hna|[ab ->]].
  { destruct (decided_good s2 now pid d Hna (ev_ok _ _ _ He) Hs) as [Hd Hs3].
    destruct (decided now pid d s2) as [e3 s3]. simpl in *. split; [|done].
    eapply (evolves_trans s ([_] ++ e1)); eassumption. }
  simpl in Hv. destruct Hv as (r0 & Hr0 & Hr' & Hi & Hpb). simplify_eq/=.
  destruct (abandon_evolves s2 now pid (set_flight app f') ab) as (e & Hev & Hs3 & Hran & Hout);
    [apply He|done|done|done|].
  rewrite Hpb in Hout. destruct (abandon now pid ab s2) as [e3 s3]. simpl in *.
  split; [|done]. eapply (evolves_trans s ([_] ++ e1)); [exact He|].
  by eapply evolves_effects.
Qed.

End steps.

Section push.
Context {J : Type}.
Implicit Types (s : Schedule J) (app : App J) (pid : Pid).

Lemma App_new_ok last stop : app_ok last stop (App_new (J := J)).
Proof.
  split; [split|]; simpl; try done; try constructor; try done.
Qed.

Lemma sorted_filter (f : Queued J -> bool) (l : list Entry) q :
  StronglySorted N.le (l ++ queued_entries q).*1 ->
  StronglySorted N.le (l ++ queued_entries (List.filter f q)).*1.
Proof.
  rewrite !fmap_app !StronglySorted_app. intros (Hall & Hl & Hq).
  assert (forall x, x ∈ (queued_entries (List.filter f q)).*1 -> x ∈ (queued_entries q).*1) as Hin.
  { intros x (e & -> & He)%list_elem_of_fmap. apply list_elem_of_fmap. exists e. split; [done|].
    apply list_elem_of_In, in_map_iff in He as (y & <- & Hy%filter_In).
    apply list_elem_of_In, in_map_iff. exists y. tauto. }
  split_and!; [auto|done|]. clear Hall Hin. induction q as [|x q IH]; [constructor|].
  simpl in *. apply StronglySorted_inv in Hq as [Hq Hx]. specialize (IH Hq).
  destruct (f x); [|done]. simpl. constructor; [done|].
  rewrite Forall_forall in Hx. apply Forall_forall. intros y Hy. apply Hx.
  apply list_elem_of_fmap in Hy as (e & -> & He). apply list_elem_of_fmap. exists e.
  split; [done|]. apply list_elem_of_In, in_map_iff in He as (z & <- & Hz%filter_In).
  apply list_elem_of_In, in_map_iff. exists z. tauto.
Qed.

(** ** Replacing *)

Section replacing.
Variables (pid : Pid) (kind : FocusEvent) (key : option (list Z)).

Lemma replacing_ok last stop app :
  app_ok last stop app ->
  app_ok last stop (set_queue (set_ending app false)
    (List.filter (fun w => negb (replaced_by kind key w)) (queue app))).
Proof.
  intros [[Hu Hs Hp Ha Ht Hl] Hw]. split; [split|]; simpl; try done.
  - unfold app_entries in *. simpl. by apply sorted_filter.
  - unfold app_entries in *. simpl. apply Forall_app in Hp as [Hp1 Hp2].
    apply Forall_app. split; [done|]. rewrite !Forall_forall in Hp2 |- *. intros e He.
    apply Hp2. apply list_elem_of_In, in_map_iff in He as (y & <- & Hy%filter_In).
    apply list_elem_of_In, in_map_iff. exists y. tauto.
  - intros Hst Hq. apply Hw; [done|]. by destruct (queue app).
Qed.

Lemma replacing_entries app :
  app_entries app ≡ₚ
    queued_entries (List.filter (replaced_by kind key) (queue app)) ++
    app_entries (set_queue (set_ending app false)
      (List.filter (fun w => negb (replaced_by kind key w)) (queue app))).
Proof.
  unfold app_entries, queued_entries. simpl.
  rewrite {1}(Permutation_map _ (filter_split (replaced_by kind key) (queue app))).
  rewrite map_app !app_assoc. apply Permutation_app_tail, Permutation_app_comm.
Qed.

Lemma push_replacing_good s :
  ok s -> settled s ->
  evolves s (push_replacing pid kind key s).1 (push_replacing pid kind key s).2 /\
  settled (push_replacing pid kind key s).2 /\
  is_Some (apps (push_replacing pid kind key s).2 !! pid).
Proof.
  intros Hok Hset. unfold push_replacing.
  set (app0 := default App_new (apps s !! pid)).
  change (queue (set_ending app0 false)) with (queue app0).
  set (gone := List.filter (replaced_by kind key) (queue app0)).
  set (app1 := set_queue (set_ending app0 false) _).
  assert (app_ok (queued s) (stopping s) app0) as Happ0.
  { unfold app0. destruct (apps s !! pid) as [app|] eqn:Hl; simpl;
      [by eapply ok_lookup|apply App_new_ok]. }
  assert (match apps s !! pid with Some app => app_entries app | None => [] end =
          app_entries app0) as He0 by (unfold app0; by destruct (apps s !! pid)).
  destruct (drop_outcomes_spec pid REPLACED gone) as [Ho Hr].
  assert (evolves s (drop_outcomes pid REPLACED gone)
            (set_apps s (<[pid := app1]> (apps s)))) as He.
  { apply evolves_put; [by apply ok_ok_but|by apply replacing_ok|done|].
    exists (queued_entries gone). rewrite He0 Ho. split; [|done]. apply replacing_entries. }
  unfold andthen, put, emit. simpl. destruct gone as [|g gone'] eqn:Hg; simpl.
  - split_and!; [done| |by rewrite lookup_insert_eq].
    assert (queue app1 = queue app0) as Hq.
    { simpl. unfold gone in Hg. clear -Hg.
      assert (forall q : list (Queued J), List.filter (replaced_by kind key) q = [] ->
        List.filter (fun w => negb (replaced_by kind key w)) q = q) as H; [|by apply H].
      induction q as [|x q IH]; simpl; [done|]. destruct (replaced_by kind key x); [done|].
      simpl. intros ?. by rewrite IH. }
    assert (oldest_of app1 = oldest_of app0) as Hold.
    { rewrite !oldest_of_head. unfold app_entries. by rewrite Hq. }
    apply (settled_mono s); [done| |done]. intros pid' app h Hl Hh. simpl.
    destruct (decide (pid' = pid)) as [->|Hne].
    + exists app1, h. rewrite lookup_insert_eq Hold. unfold app0. rewrite Hl. simpl.
      split_and!; [done..|lia].
    + exists app, h. rewrite lookup_insert_ne //.
  - apply evolves_then_wake in He as [He Hs].
    destruct (wake_idle_waiters _) as [e1 s1] eqn:Hw. simpl in *. split_and!; [done|done|].
    unfold wake_idle_waiters in Hw. destruct (idle_ready _ _). simplify_eq/=.
    by rewrite lookup_insert_eq.
Qed.

End replacing.

(** ** Queueing *)

(** The event at the back of its application's queue. *)
Lemma queueing_core last stop app q :
  app_ok last stop app -> last <= queued_place q ->
  app_core (queued_place q) (set_queue app (queue app ++ [q])) /\
  app_entries (set_queue app (queue app ++ [q])) =
    app_entries app ++ [(queued_place q, queued_meta q)].
Proof.
  intros [[Hu Hs Hp Ha Ht Hl] Hw] Hle.
  assert (app_entries (set_queue app (queue app ++ [q])) =
    app_entries app ++ [(queued_place q, queued_meta q)]) as He.
  { unfold app_entries, queued_entries. simpl. rewrite map_app app_assoc. done. }
  split; [|done]. split; try done.
  - rewrite He fmap_app. apply StronglySorted_app. split_and!; [|done|repeat constructor].
    intros x y (e & -> & Hin)%list_elem_of_fmap ->%list_elem_of_singleton.
    rewrite Forall_forall in Hp. specialize (Hp _ Hin). simpl. lia.
  - rewrite He. apply Forall_app. split; [|by repeat constructor].
    eapply Forall_impl; [done|]. simpl. intros; lia.
Qed.

(** The schedule's count of events grows. *)
Lemma ok_bump s n lf :
  ok s -> queued s <= n -> ok (set_last_focus (set_queued s n) lf).
Proof.
  intros [Ha Hw Hb] Hle. split; simpl; [|done|].
  - intros pid app Hl. destruct (Ha _ _ Hl) as [[? ? Hp ? ? ?] ?]. split; [split|]; try done.
    eapply Forall_impl; [done|]. simpl. intros; lia.
  - eapply Forall_impl; [done|]. simpl. intros; lia.
Qed.

(** The schedule with the event at the back of [pid]'s queue, a thread had for
    it where there may be one. *)
Lemma queueing_branch s now pid app q :
  ok s -> settled s -> apps s !! pid = Some app -> queued_place q = queued s ->
  let app' := set_queue app (queue app ++ [q]) in
  let st := andthen (put pid app')
        (if threaded app' then emit [Wake (WakeThread pid)]
         else if match limit_reached app' with
                 | Some reached => reached +|64| deadline s <=? now
                 | None => false
                 end then drop_waiting pid
         else if ABANDONED_LIMIT <=? abandoned app' then skip
         else start pid false) in
  exists s2, evolves s2 (st s).1 (st s).2 /\ settled (st s).2 /\
    pending s2 ≡ₚ pending s ++ [(pid, (queued_place q, queued_meta q))] /\
    idle_waiters s2 = idle_waiters s /\ deadline s2 = deadline s /\
    stopping s2 = stopping s /\ queued s2 = queued s.
Proof.
  intros Hok Hset Hl Hpl app' st. pose proof (ok_lookup _ _ _ Hok Hl) as Happ.
  destruct (queueing_core _ _ app q Happ) as [Hcore Hes]; [lia|]. fold app' in Hcore, Hes.
  rewrite Hpl in Hcore. clearbody app'.
  set (s2 := set_apps s (<[pid := app']> (apps s))). exists s2.
  assert (settled s2) as Hset2.
  { eapply settled_put; [done| |done]. intros h. rewrite !oldest_of_head Hes.
    destruct (app_entries app) as [|x l]; [done|]. simpl. intros [= <-].
    exists x.1. split; [done|lia]. }
  assert (pending s2 ≡ₚ pending s ++ [(pid, (queued_place q, queued_meta q))]) as Hp.
  { unfold s2. rewrite pending_put (pending_at s pid) Hl Hes fmap_app -!app_assoc. simpl.
    apply Permutation_app_head, Permutation_cons_append. }
  assert (apps s2 !! pid = Some app') as Hl2 by (by rewrite /= lookup_insert_eq).
  enough (evolves s2 (st s).1 (st s).2 /\ settled (st s).2) by tauto.
  assert (threaded app' = true \/ is_Some (limit_reached app') -> ok s2) as Hok2.
  { intros Hw. apply ok_but_put; [by apply ok_ok_but|]. by split. }
  unfold st. clear st. unfold andthen at 1 2 3. unfold put at 1 2 3. fold s2. simpl fst. simpl snd.
  assert (forall g : Step J, (ok s2 -> settled s2 -> evolves s2 (g s2).1 (g s2).2 /\ settled (g s2).2) ->
    ok s2 -> evolves s2 (let '(e', s') := g s2 in ([] ++ e', s')).1
               (let '(e', s') := g s2 in ([] ++ e', s')).2 /\
             settled (let '(e', s') := g s2 in ([] ++ e', s')).2) as Hgo.
  { intros g Hg Hok'. destruct (Hg Hok' Hset2). by destruct (g s2). }
  destruct (threaded app') eqn:Hth; 
    [exact (Hgo _ (good_emit s2 [Wake (WakeThread pid)] ltac:(done)) (Hok2 (or_introl eq_refl)))|].
  destruct (limit_reached app') as [reached|] eqn:Hlim.
  - assert (ok s2) as Hok' by (apply Hok2; right; eauto).
    destruct (reached +|64| deadline s <=? now); 
      [exact (Hgo _ (drop_waiting_good s2 pid) Hok')|].
    assert (abandoned app' = ABANDONED_LIMIT) as -> by (apply (ok_limit _ _ Hcore); eauto).
    rewrite N.leb_refl. exact (Hgo _ (good_skip s2) Hok').
  - assert (abandoned app' < ABANDONED_LIMIT) as Hlt.
    { pose proof (ok_abandoned _ _ Hcore) as Hle. apply N.le_lteq in Hle as [|Heq]; [done|].
      apply (ok_limit _ _ Hcore) in Heq as [? Heq]. congruence. }
    destruct (N.leb_spec ABANDONED_LIMIT (abandoned app')); [lia|].
    rewrite (start_eq _ pid app') //. unfold s2. rewrite put_apps. fold s2. simpl. split.
    + assert (evolves s2 [] (set_apps s2 (<[pid := restarted app']> (apps s2)))) as He.
      { apply evolves_put; [| |done|].
        - destruct (ok_ok_but pid s Hok) as (? & ? & ?). split_and!; simpl; [|done|done].
          by rewrite delete_insert_eq.
        - by apply restarted_ok.
        - exists []. by rewrite Hl2 restarted_entries. }
      unfold s2 in He. rewrite put_apps in He. fold s2 in He.
      by eapply (evolves_effects s2 []).
    + rewrite -(put_apps s pid app'). eapply settled_put; [exact Hl2| |exact Hset2].
      intros h. rewrite !oldest_of_head restarted_entries. intros ->. exists h. split; [done|lia].
Qed.

(** What an arrival does: the new event joins the pending ones, and is in turn
    answered or still pending. *)
Lemma push_spec s now pid meta job kind key window :
  ok s -> settled s -> stopping s = false -> queued s <= U64_MAX ->
  let '(e, s') := push now pid meta job kind key window s in
  let place := queued s +|64| 1 in
  ok s' /\ settled s' /\
  (untag <$> pending s) ++ [(pid, meta)] ≡ₚ outcomes e ++ (untag <$> pending s') /\
  (forall x, x ∈ pending s' -> x ∈ pending s \/ x = (pid, (place, meta))) /\
  deadline s' = deadline s /\ stopping s' = stopping s /\ queued s' = place /\
  exists l, idle_waiters s = l ++ idle_waiters s' /\ ran e = l.*2 /\
    forall b w p q m, (b, w) ∈ l -> (p, (q, m)) ∈ pending s' -> b < q \/ q = place.
Proof.
  intros Hok Hset Hst Hmax. unfold push. rewrite Hst. unfold andthen.
  pose proof (push_replacing_good pid kind key s Hok Hset) as (He1 & Hs1 & [app1 Hl1]).
  destruct (push_replacing pid kind key s) as [e1 s1]. simpl in *.
  destruct He1 as [Hok1 Hout1 Hin1 (Hd1 & Hst1 & Hq1) (l1 & Hi1 & Hr1 & Hlt1)].
  unfold push_queueing. cbv zeta. rewrite -Hq1.
  set (place := queued s1 +|64| 1).
  assert (queued s1 <= place) as Hle by (unfold place; apply saturating_add_ge; lia).
  set (s3 := if is_focus_kind kind then set_last_focus (set_queued s1 place) (Some pid)
             else set_queued s1 place).
  assert (exists lf, s3 = set_last_focus (set_queued s1 place) lf) as (lf & Hs3).
  { unfold s3. destruct (is_focus_kind kind); [by eexists|by exists (last_focus s1)]. }
  assert (ok s3) as Hok3 by (rewrite Hs3; by apply ok_bump).
  assert (settled s3 /\ pending s3 = pending s1 /\ idle_waiters s3 = idle_waiters s1 /\
    deadline s3 = deadline s1 /\ stopping s3 = stopping s1 /\ queued s3 = place /\
    apps s3 = apps s1) as (Hset3 & Hp3 & Hi3 & Hd3 & Hst3 & Hq3 & Ha3) by (by rewrite Hs3).
  change (queued (set_queued s1 place)) with place.
  set (elsewhere := is_focus_kind kind && _). clearbody s3 elsewhere. clear Hs3.
  set (away := if is_focus_kind kind then moved_away_from_all_but pid else skip).
  assert (evolves s3 (away s3).1 (away s3).2 /\ settled (away s3).2 /\
          is_Some (apps (away s3).2 !! pid)) as (He4 & Hset4 & [app Hl4]).
  { unfold away. destruct (is_focus_kind kind).
    - destruct (moved_away_good s3 pid Hok3 Hset3). split_and!; [done..|].
      simpl. rewrite map_lookup_imap Ha3 Hl1. simpl. eauto.
    - destruct (good_skip s3 Hok3 Hset3). split_and!; [done..|]. simpl. rewrite Ha3. eauto. }
  unfold andthen. destruct (away s3) as [e4 s4]. simpl in He4, Hset4, Hl4.
  destruct He4 as [Hok4 Hout4 Hin4 (Hd4 & Hst4 & Hq4) (l4 & Hi4 & Hr4 & Hlt4)].
  unfold with_app. rewrite Hl4.
  set (q := {| queued_place := place; after_elsewhere := elsewhere;
    queued_left_at := left_at app; queued_kind := kind; queued_key := key;
    queued_window := window; queued_meta := meta; queued_job := job |}).
  destruct (queueing_branch s4 now pid app q Hok4 Hset4 Hl4) as (s2 & He5 & Hset5 & Hp2 & Hi2 &
    Hd2 & Hst2 & Hq2); [simpl; congruence|]. cbv zeta in He5, Hset5. unfold andthen in He5, Hset5.
  match goal with H : evolves s2 ?x.1 _ |- _ => destruct x as [e5 s5] end. simpl in He5, Hset5.
  destruct He5 as [Hok5 Hout5 Hin5 (Hd5 & Hst5 & Hq5) (l5 & Hi5 & Hr5 & Hlt5)].
  split_and!; [done|done|..].
  - unfold outcomes. rewrite !omap_app. fold (outcomes e1) (outcomes e4) (outcomes e5).
    rewrite Hout1 -Hp3 Hout4 -!app_assoc. do 2 apply Permutation_app_head.
    rewrite -Hout5 Hp2 fmap_app. done.
  - intros x Hx%Hin5. rewrite Hp2 in Hx. apply elem_of_app in Hx as [Hx|Hx%list_elem_of_singleton].
    + left. apply Hin1. rewrite -Hp3. by apply Hin4.
    + by right.
  - congruence.
  - congruence.
  - congruence.
  - exists (l1 ++ l4 ++ l5). split_and!.
    + rewrite Hi1 -Hi3 Hi4 -Hi2 Hi5 !app_assoc. done.
    + unfold ran. rewrite !omap_app !fmap_app. by f_equal; [|f_equal].
    + assert (forall b w p n m, (b, w) ∈ l1 ++ l4 -> (p, (n, m)) ∈ pending s4 -> b < n) as Hlt14.
      { intros b w p n m [Hb|Hb]%elem_of_app Hin; [|by eapply Hlt4].
        eapply Hlt1; [done|]. rewrite -Hp3. by apply Hin4. }
      intros b w p n m Hb Hin. rewrite app_assoc in Hb.
      apply elem_of_app in Hb as [Hb|Hb]; [|left; by eapply Hlt5].
      apply Hin5 in Hin. rewrite Hp2 in Hin.
      apply elem_of_app in Hin as [Hin|[= <- <- <-]%list_elem_of_singleton]; [|by right].
      left. by eapply Hlt14.
Qed.

End push.
