(* ===== verification/ScheduleProps.v ===== *)
(** Properties of the focus listener's read scheduler, of every run: every
    event gets exactly one outcome, an idle waiter runs once every event before
    it has its outcome and no later, the alarm is set to the soonest thing due,
    and an application's threads and waits are bounded. *)

From S2P Require Import Prelude Tree Facts InFlight InFlightProps Listener Schedule ScheduleInv ScheduleSteps.

Section props.
Context {J : Type}.
Implicit Types (s : Schedule J) (app : App J) (pid : Pid) (input : ScheduleInput J).

(** The event an input brings, and the idle waiter. *)
Definition pushed_of input : list (Pid * Meta) :=
  match input with Push pid meta _ _ _ _ => [(pid, meta)] | _ => [] end.
Definition waiter_of s input : list (N * N) :=
  match input with
  | WhenIdle w => if stopping s then [] else [(queued s, w)]
  | _ => []
  end.

(** The invariant of reachable schedules. *)
Definition inv s : Prop := ok s /\ settled s /\ queued s <= U64_MAX.

(** What a whole step does. *)
Definition steps s input (e : list (ScheduleEffect J)) s' : Prop :=
  inv s' /\
  (untag <$> pending s) ++ pushed_of input ≡ₚ outcomes e ++ (untag <$> pending s') /\
  exists l, idle_waiters s ++ waiter_of s input = l ++ idle_waiters s' /\ ran e = l.*2 /\
    (queued s' < U64_MAX ->
     forall b w pid p m, (b, w) ∈ l -> (pid, (p, m)) ∈ pending s' -> b < p).

Lemma evolves_steps s input e s' :
  inv s -> pushed_of input = [] -> waiter_of s input = [] ->
  evolves s e s' /\ settled s' -> steps s input e s'.
Proof.
  intros (Hok & Hset & Hmax) Hp Hw [[Hok' Hout _ (_ & _ & Hq) (l & Hi & Hr & Hl)] Hset'].
  unfold steps, inv. rewrite Hp Hw !app_nil_r Hq. split_and!; try done. exists l.
  split_and!; done.
Qed.

Lemma push_steps s now pid meta job kind key window :
  inv s ->
  let '(e, s') := push now pid meta job kind key window s in
  steps s (Push pid meta job kind key window) e s'.
Proof.
  intros (Hok & Hset & Hmax). destruct (stopping s) eqn:Hst.
  - unfold push. rewrite Hst. unfold steps, inv. simpl. split_and!; try done.
    + apply Permutation_app_comm.
    + exists []. rewrite app_nil_r. split_and!; [done|done|].
      intros _ b w pid' p m Hb. by apply not_elem_of_nil in Hb.
  - pose proof (push_spec s now pid meta job kind key window Hok Hset Hst Hmax) as Hp.
    destruct (push now pid meta job kind key window s) as [e s'].
    destruct Hp as (Hok' & Hset' & Hout & Hin & _ & _ & Hq & l & Hi & Hr & Hl).
    unfold steps, inv. rewrite Hq. split_and!; try done; [apply saturating_add_le|].
    exists l. simpl. rewrite app_nil_r. split_and!; [done|done|].
    intros Hlt b w p n m Hb Hp. destruct (Hl _ _ _ _ _ Hb Hp) as [?| ->]; [done|].
    destruct Hok as [_ _ Hbef]. rewrite Hi in Hbef. apply Forall_app in Hbef as [Hbef _].
    rewrite Forall_forall in Hbef. specialize (Hbef _ Hb). simpl in Hbef.
    unfold saturating_add in *. lia.
Qed.

Lemma when_idle_steps s w now :
  inv s -> let '(e, s') := handle (WhenIdle w) now s in steps s (WhenIdle w) e s'.
Proof.
  intros (Hok & Hset & Hmax). simpl. destruct (stopping s) eqn:Hst.
  - unfold steps, inv. simpl. rewrite Hst !app_nil_r. split_and!; try done.
    exists []. split_and!; [done|done|]. intros _ b w' pid p m Hb. by apply not_elem_of_nil in Hb.
  - set (s1 := set_idle_waiters s (idle_waiters s ++ [(queued s, w)])).
    assert (ok s1) as Hok1.
    { destruct Hok as [Ha Hw Hb]. split; simpl; [done| |].
      - rewrite fmap_app. apply StronglySorted_app. split_and!; [|done|repeat constructor].
        intros x y (z & -> & Hz)%list_elem_of_fmap ->%list_elem_of_singleton.
        rewrite Forall_forall in Hb. by apply Hb.
      - apply Forall_app. split; [done|]. repeat constructor. simpl. lia. }
    pose proof (wake_evolves s1 Hok1) as [Hok2 Hout _ (_ & _ & Hq) (l & Hi & Hr & Hl)].
    pose proof (wake_settled s1) as Hset2.
    destruct (wake_idle_waiters s1) as [e s']. simpl in *.
    unfold steps, inv. simpl. rewrite Hst Hq app_nil_r. split_and!; try done.
    exists l. split_and!; done.
Qed.

(** Setting the alarm, and spending it, changes nothing else. *)
Lemma alarm_ok s due : ok s -> settled s -> ok (set_alarm_due s due) /\ settled (set_alarm_due s due).
Proof. intros [Ha Hw Hb] Hset. split; [|done]. by split. Qed.

Lemma stop_inv s : inv s -> inv (set_stopping s true).
Proof.
  intros ([Ha Hw Hb] & Hset & Hmax). split_and!; [|done|done]. split; simpl; [|done|done].
  intros pid app Hl. destruct (Ha _ _ Hl) as [Hc _]. by split.
Qed.

(** The inputs that bring nothing. *)
Definition plain input : Prop :=
  match input with Push _ _ _ _ _ _ | WhenIdle _ | Stop => False | _ => True end.

Lemma armed_good s pid q b :
  good s (with_app pid (fun app =>
    put pid (set_flight app (InFlight.armed (flight app) q b)))).
Proof.
  apply good_with_app. intros app Hl Hok Hset.
  assert (reading_entries (InFlight.armed (flight app) q b) = reading_entries (flight app)) as He.
  { unfold reading_entries. by rewrite armed_running. }
  eapply good_put; [done| | |done|done].
  - apply set_flight_ok; [by eapply ok_lookup|done|].
    pose proof (armed_running (flight app) q b) as Hr. unfold InFlight.running in Hr.
    intros Hn. rewrite Hn in Hr. by destruct (running_item (InFlight.armed (flight app) q b)).
  - unfold app_entries. simpl. by rewrite He.
Qed.

Lemma handle_good s input now :
  allowed s input -> plain input -> good s (handle input now).
Proof.
  intros Hal Hpl. destruct input; try done; simpl.
  - by apply next_good.
  - by apply returned_good.
  - intros Hok Hset. destruct (alarm_ok s None Hok Hset) as [Hok1 Hset1].
    destruct (tick_good (set_alarm_due s None) now Hok1 Hset1) as [[] ?]. by split; [split|].
  - intros Hok Hset. destruct (stopping s); [by apply good_skip|]. revert Hok Hset.
    apply good_with_app. intros app Hl. apply decide_flight_good; [done|]. apply learned_views.
  - apply armed_good.
  - apply good_with_app. intros app Hl. apply decide_flight_good; [done|]. apply judged_views.
  - apply published_good.
  - apply foreground_good.
  - apply moved_away_good.
  - apply outpost_ended_good.
  - by apply spawn_failed_good.
Qed.

Lemma handle_steps s input now :
  inv s -> allowed s input -> steps s input (handle input now s).1 (handle input now s).2.
Proof.
  intros Hinv Hal. pose proof Hinv as (Hok & Hset & Hmax).
  destruct input as [pid meta job kind key window| | | | | | | | | | |w| |].
  1: { pose proof (push_steps s now pid meta job kind key window Hinv) as Hp. simpl.
       by destruct (push now pid meta job kind key window s). }
  11: { pose proof (when_idle_steps s w now Hinv) as Hp. by destruct (handle (WhenIdle w) now s). }
  12: { unfold steps. simpl. rewrite !app_nil_r. split_and!; [by apply stop_inv|done|].
        exists []. split_and!; [done|done|].
        intros _ b w pid p m Hb. by apply not_elem_of_nil in Hb. }
  all: apply evolves_steps; [done..|]; by apply handle_good.
Qed.

Lemma set_alarm_steps s input e s1 :
  steps s input e s1 -> steps s input (e ++ (set_alarm s1).1) (set_alarm s1).2.
Proof.
  intros (Hinv & Hout & l & Hi & Hr & Hl). unfold set_alarm.
  destruct (stopping s1); simpl; [rewrite app_nil_r; split_and!; [done..|by exists l]|].
  case_bool_decide; simpl; [rewrite app_nil_r; split_and!; [done..|by exists l]|].
  unfold steps, outcomes, ran. rewrite !omap_app !app_nil_r. simpl. split_and!.
  - destruct Hinv as (Hok & Hset & ?). by destruct (alarm_ok s1 (min_of (concat (map
      (due_times (deadline s1)) (values s1)))) Hok Hset).
  - done.
  - by exists l.
Qed.

Lemma step_steps s input now :
  inv s -> allowed s input -> steps s input (step input now s).1 (step input now s).2.
Proof.
  intros Hinv Hal. pose proof (handle_steps s input now Hinv Hal) as Hh.
  unfold step, andthen. destruct (handle input now s) as [e s1]. simpl in Hh.
  apply set_alarm_steps in Hh. by destruct (set_alarm s1).
Qed.

(** ** Runs *)

(** A run from the listener's start: the events it was given, the effects it
    had, and the idle waiters it was given. *)
Inductive run (dl : Duration.t) :
    list (Pid * Meta) -> list (ScheduleEffect J) -> list N -> Schedule J -> Prop :=
  | run_start : run dl [] [] [] (new dl)
  | run_step pushed e waiters s input now :
      run dl pushed e waiters s -> allowed s input ->
      run dl (pushed ++ pushed_of input) (e ++ (step input now s).1)
        (waiters ++ (waiter_of s input).*2) (step input now s).2.

Lemma new_inv dl : inv (new dl).
Proof. split_and!; [|done|done]. split; simpl; [done|constructor|constructor]. Qed.

Lemma run_inv dl pushed e waiters s :
  run dl pushed e waiters s ->
  inv s /\ pushed ≡ₚ outcomes e ++ (untag <$> pending s) /\
  waiters = ran e ++ (idle_waiters s).*2.
Proof.
  induction 1 as [|pushed e waiters s input now _ (Hinv & Hp & Hw) Hal].
  - split_and!; [apply new_inv|done|done].
  - destruct (step_steps s input now Hinv Hal) as (Hinv' & Hout & l & Hi & Hr & _).
    split_and!; [done| |].
    + unfold outcomes in *. rewrite omap_app -app_assoc -Hout Hp app_assoc. done.
    + unfold ran in *. rewrite omap_app Hw Hr -app_assoc -fmap_app Hi fmap_app app_assoc. done.
Qed.

(** The markers the schedule answers for are those of its pending entries. *)
Lemma markers_pending s : markers s ≡ₚ (fun x => marker x.2.2) <$> pending s.
Proof.
  unfold markers, pending, pend, values. rewrite merge_sort_Permutation map_to_list_fmap.
  generalize (map_to_list (apps s)) as l. intros l.
  induction l as [|[pid app] l IH]; [done|]. simpl. rewrite map_app fmap_app IH.
  apply Permutation_app_tail. unfold app_metas, app_entries, reading_entries, queued_entries.
  rewrite -list_fmap_compose map_app fmap_app Permutation_app_comm.
  apply Permutation_app; [by destruct (InFlight.running (flight app)) as [[[? ?] []]|]|].
  rewrite map_map. induction (queue app) as [|q qs IHq]; [done|]. simpl. by f_equiv.
Qed.

(** C11: every event gets exactly one outcome: in every run of the listener's
    scheduler, whatever reads are abandoned, published, replaced or dropped and
    whatever threads cannot be started, the events it was given are those it
    sent an outcome for together with those it still holds, each exactly once;
    the markers it answers for are those of the events it holds. *)
Theorem outcome_exactly_once dl pushed e waiters s :
  run dl pushed e waiters s ->
  pushed ≡ₚ outcomes e ++ (untag <$> pending s) /\
  (fun x => marker x.2) <$> pushed ≡ₚ ((fun x => marker x.2) <$> outcomes e) ++ markers s.
Proof.
  intros (_ & Hp & _)%run_inv. split; [done|].
  rewrite {1}Hp fmap_app markers_pending -list_fmap_compose. done.
Qed.

(** An idle waiter runs when, and as soon as, every event queued before it
    has its outcome: waiters run in the order they came, each once; when a
    step runs one, no event queued before it is pending any more; and while
    one waits, after any step, some event queued before it still is. *)
Theorem idle_waiters_run dl pushed e waiters s input now :
  run dl pushed e waiters s -> allowed s input ->
  let '(e', s') := step input now s in
  waiters = ran e ++ (idle_waiters s).*2 /\
  (exists ready, idle_waiters s ++ waiter_of s input = ready ++ idle_waiters s' /\
     ran e' = ready.*2 /\
     (queued s' < U64_MAX ->
      forall b w pid p m, (b, w) ∈ ready -> (pid, (p, m)) ∈ pending s' -> b < p)) /\
  (forall b w, (b, w) ∈ idle_waiters s' -> exists pid p m, (pid, (p, m)) ∈ pending s' /\ p <= b).
Proof.
  intros (Hinv & _ & Hw)%run_inv Hal.
  pose proof (step_steps s input now Hinv Hal) as (Hinv' & _ & Hl).
  destruct (step input now s) as [e' s']. simpl in *. split_and!; [done|done|].
  destruct Hinv' as ([Ha Hsort _] & Hset & _). unfold settled in Hset.
  intros b w Hin. destruct (idle_waiters s') as [|[b0 w0] rest]; [by apply not_elem_of_nil in Hin|].
  destruct Hset as (pid & app & h & Hlk & Ho & Hh).
  rewrite oldest_of_head in Ho. destruct (app_entries app) as [|[p m] es] eqn:He; [done|].
  simplify_eq/=. exists pid, h, m. split.
  - apply elem_of_pending. exists app. rewrite He. split; [done|left].
  - apply StronglySorted_inv in Hsort as [_ Hall]. rewrite Forall_forall in Hall.
    apply elem_of_cons in Hin as [[= -> ->]|Hin]; [done|].
    assert (b0 <= b) by (apply Hall, list_elem_of_fmap; by exists (b, w)). lia.
Qed.

(** The watchdog's alarm is set to the soonest thing due: after every step
    of a listener that is not stopping, nothing is due before the alarm (no
    read's next judgement, and no end of a wait behind abandoned reads), what
    it is set to is due, and it is unset exactly when nothing is due. *)
Theorem alarm_is_soonest s input now :
  let s' := (step input now s).2 in
  stopping s' = false ->
  (forall pid app t, apps s' !! pid = Some app -> t ∈ due_times (deadline s') app ->
     exists a, alarm_due s' = Some a /\ a <= t) /\
  (forall a, alarm_due s' = Some a ->
     exists pid app, apps s' !! pid = Some app /\ a ∈ due_times (deadline s') app).
Proof.
  intros s' Hst.
  assert (alarm_due s' = min_of (concat (map (due_times (deadline s')) (values s')))) as Hal.
  { unfold s', step, andthen in *. destruct (handle input now s) as [e s1].
    unfold set_alarm in *. destruct (stopping s1) eqn:Hs1; simpl in *; [congruence|].
    case_bool_decide; simpl in *; done. }
  rewrite Hal. clearbody s'. split.
  - intros pid app t Hl Ht. apply min_of_lower, list_elem_of_In, in_concat.
    exists (due_times (deadline s') app). split; [|by apply list_elem_of_In].
    apply in_map, list_elem_of_In, elem_of_values. eauto.
  - intros a Ha%min_of_elem. apply list_elem_of_In, in_concat in Ha as (l & Hl & Ha).
    apply in_map_iff in Hl as (app & <- & Hin%list_elem_of_In%elem_of_values).
    destruct Hin as [pid Hpid]. exists pid, app. split; [done|]. by apply list_elem_of_In.
Qed.

(** An application's reads are bounded: in every run at most
    [ABANDONED_LIMIT] of its threads are abandoned to their calls and it has no
    other thread once they are, and while the listener runs an event is never
    left waiting with neither a thread to read it nor an instant at which it
    is dropped; only a thread in charge reads. *)
Theorem threads_and_waits_bounded dl pushed e waiters s pid app :
  run dl pushed e waiters s -> apps s !! pid = Some app ->
  abandoned app + (if threaded app then 1 else 0) <= ABANDONED_LIMIT /\
  (is_Some (InFlight.running (flight app)) -> threaded app = true) /\
  (stopping s = false -> queue app <> [] -> threaded app = false ->
     is_Some (waiting_end app (deadline s))).
Proof.
  intros (Hinv & _)%run_inv Hl. destruct Hinv as (Hok & _ & _).
  destruct (ok_lookup _ _ _ Hok Hl) as [[Hu _ _ Ha Ht _] Hw]. split_and!.
  - destruct (threaded app); [specialize (Ht eq_refl); lia|lia].
  - intros [x Hx]. destruct (threaded app); [done|]. unfold InFlight.running in Hx.
    by rewrite Hu in Hx.
  - intros Hst Hq Hth. destruct (Hw Hst Hq) as [?|[r Hr]]; [congruence|].
    unfold waiting_end. rewrite Hth Hr. destruct (queue app); [done|]. simpl. eauto.
Qed.

(** ** Runs by execution *)

Fixpoint exec_all s (inputs : list (ScheduleInput J * N))
    : list (Pid * Meta) * list (ScheduleEffect J) * list N * Schedule J :=
  match inputs with
  | [] => ([], [], [], s)
  | (input, now) :: inputs =>
      let '(e, s') := step input now s in
      let '(pushed, e', waiters, s'') := exec_all s' inputs in
      (pushed_of input ++ pushed, e ++ e', (waiter_of s input).*2 ++ waiters, s'')
  end.

Fixpoint all_allowed s (inputs : list (ScheduleInput J * N)) : Prop :=
  match inputs with
  | [] => True
  | (input, now) :: inputs => allowed s input /\ all_allowed (step input now s).2 inputs
  end.

Lemma exec_all_run dl inputs : forall pushed e waiters s,
  run dl pushed e waiters s -> all_allowed s inputs ->
  let '(pushed', e', waiters', s') := exec_all s inputs in
  run dl (pushed ++ pushed') (e ++ e') (waiters ++ waiters') s'.
Proof.
  induction inputs as [|[input now] inputs IH]; intros pushed e waiters s Hr Hal;
    simpl; [by rewrite !app_nil_r|].
  destruct Hal as [Ha Hal]. pose proof (run_step dl _ _ _ _ input now Hr Ha) as Hr'.
  specialize (IH _ _ _ _ Hr' Hal). destruct (step input now s) as [e1 s1]. simpl in *.
  destruct (exec_all s1 inputs) as [[[p2 e2] w2] s2]. by rewrite -!app_assoc in IH.
Qed.

End props.

(** ** Witnesses *)

Definition sample_pid : Pid := {| pid_number := 7 |}.
Definition sample_meta (n : N) : Meta := {|
  marker := n; kind := FocusChange; trace := {| trace_number := n |};
  timing := EventTiming_default |}.

(** Two focuses of one application, the first read and the second waiting
    behind an idle waiter's barrier. *)
Definition sample_inputs : list (ScheduleInput unit * N) :=
  [(Push sample_pid (sample_meta 1) tt FocusChange None RuleNever, 10);
   (Next sample_pid 1, 20);
   (WhenIdle 5, 25);
   (Push sample_pid (sample_meta 2) tt FocusChange None RuleNever, 30)].

Definition sample_schedule : Schedule unit :=
  (exec_all (new (Duration.from_millis 10000)) sample_inputs).2.

Lemma sample_run :
  let '(pushed, e, waiters, s) := exec_all (new (Duration.from_millis 10000)) sample_inputs in
  run (Duration.from_millis 10000) pushed e waiters s.
Proof.
  apply (exec_all_run _ sample_inputs [] [] []); [apply run_start|].
  refine (conj I (conj _ (conj I (conj I I)))). intros app Hl _. vm_compute in Hl. by simplify_eq.
Qed.

Lemma outcome_exactly_once_witness :
  let '(pushed, e, _, s) := exec_all (new (Duration.from_millis 10000)) sample_inputs in
  length pushed = 2%nat /\ pushed ≡ₚ outcomes e ++ (untag <$> pending s).
Proof.
  pose proof sample_run as Hr.
  destruct (exec_all (new (Duration.from_millis 10000)) sample_inputs) as [[[p e] w] s] eqn:He.
  split; [|exact (proj1 (outcome_exactly_once _ _ _ _ _ Hr))].
  change (length (p, e, w, s).1.1.1 = 2%nat). rewrite -He. vm_compute. reflexivity.
Defined.

(** The read returns, and the barrier's waiter runs although the second event,
    queued after it, still waits. *)
Lemma idle_waiters_run_witness :
  let '(e', s') := step (Returned sample_pid {| generation := 1; number := 1 |} (sample_meta 1)
                           (Dropped NOT_IN_TIME) None) 40 sample_schedule in
  ran e' = [5] /\
  (forall b w, (b, w) ∈ idle_waiters s' -> exists pid p m, (pid, (p, m)) ∈ pending s' /\ p <= b).
Proof.
  pose proof sample_run as Hr.
  destruct (exec_all (new (Duration.from_millis 10000)) sample_inputs) as [[[p e] w] s] eqn:He.
  assert (s = sample_schedule) as -> by (by unfold sample_schedule; rewrite He).
  pose proof (idle_waiters_run _ _ _ _ _ (Returned sample_pid {| generation := 1; number := 1 |}
    (sample_meta 1) (Dropped NOT_IN_TIME) None) 40 Hr) as Hi.
  assert (ran (step (Returned sample_pid {| generation := 1; number := 1 |} (sample_meta 1)
            (Dropped NOT_IN_TIME) None) 40 sample_schedule).1 = [5]) as Hran
    by (vm_compute; reflexivity).
  assert (option_map (fun r => reading_meta (item r)) (apps sample_schedule !! sample_pid ≫=
            fun app => running_of (flight app) {| generation := 1; number := 1 |}) =
          Some (sample_meta 1)) as Hm by (vm_compute; reflexivity).
  destruct (step _ 40 sample_schedule) as [e' s']. split; [exact Hran|].
  apply Hi. intros app r Hl Hq. rewrite Hl in Hm. cbn [mbind option_bind] in Hm.
  rewrite Hq in Hm. by injection Hm.
Defined.

Lemma alarm_is_soonest_witness :
  stopping (step Tick 50 sample_schedule).2 = false /\
  exists a, alarm_due (step Tick 50 sample_schedule).2 = Some a /\ a <= 10000020.
Proof.
  split; [vm_compute; reflexivity|].
  destruct (apps (step Tick 50 sample_schedule).2 !! sample_pid) as [app|] eqn:Hl;
    [|vm_compute in Hl; discriminate].
  apply (proj1 (alarm_is_soonest sample_schedule Tick 50 ltac:(vm_compute; reflexivity))
           sample_pid app 10000020 Hl).
  assert ((due_times (deadline (step Tick 50 sample_schedule).2) <$>
           apps (step Tick 50 sample_schedule).2 !! sample_pid) = Some [10000020]) as Hd
    by (vm_compute; reflexivity).
  rewrite Hl in Hd. injection Hd as ->. left.
Defined.

Lemma threads_and_waits_bounded_witness :
  exists app, apps sample_schedule !! sample_pid = Some app /\ threaded app = true /\
    abandoned app + (if threaded app then 1 else 0) <= ABANDONED_LIMIT.
Proof.
  pose proof sample_run as Hr.
  destruct (exec_all (new (Duration.from_millis 10000)) sample_inputs) as [[[p e] w] s] eqn:He.
  assert (s = sample_schedule) as -> by (by unfold sample_schedule; rewrite He).
  destruct (apps sample_schedule !! sample_pid) as [app|] eqn:Hl;
    [|vm_compute in Hl; discriminate].
  assert ((threaded <$> apps sample_schedule !! sample_pid) = Some true) as Ht
    by (vm_compute; reflexivity).
  rewrite Hl in Ht. injection Ht as Ht. exists app. split_and!; [reflexivity|exact Ht|].
  exact (proj1 (threads_and_waits_bounded _ _ _ _ _ _ _ Hr Hl)).
Defined.
