(* ===== verification/OutpostEntry.v ===== *)
(** What the outpost's mailbox carries to its reducer: verbatim-outpost-logic's
    [entry.rs]. An application object is never in an entry: a UIA event's
    element and range are the keys they are parked under. *)

From S2P Require Import Prelude Tree TextModel Facts Messages.

Inductive WinKind :=
  | WinFocus | WinForeground | WinValueChange | WinStateChange | WinNameChange
  | WinDescriptionChange | WinSelection | WinMenuPopupStart | WinMenuEnd | WinSwitchEnd
  | WinDestroy | WinAlert | WinCaret | WinTextSelectionChange | WinShow | WinConsoleUpdate
  | WinShellForeground | WinConsoleCaret.

#[export] Instance WinKind_eq_dec : EqDecision WinKind.
Proof. solve_decision. Defined.

Module property.

Definition NAME : Z := 30005.
Definition HELP_TEXT : Z := 30013.
Definition VALUE : Z := 30045.
Definition RANGE_VALUE : Z := 30047.
Definition CONTROLLER_FOR : Z := 30104.

End property.

Definition is_state_property (id : Z) : bool :=
  negb (existsb (Z.eqb id)
    [property.NAME; property.VALUE; property.RANGE_VALUE; property.HELP_TEXT;
     property.CONTROLLER_FOR]).

Inductive UiaKind :=
  | UiaProperty (id : Z)
  | UiaSelectionKind
  | UiaNotificationKind (notification : Notification)
  | UiaTextSelection
  | UiaTextChanged
  | UiaActiveTextPosition (range : option N).

Record UiaEvent := {
  uia_kind : UiaKind;
  uia_parts : UiaSnapshotFact;
  uia_hwnd : Z;
  uia_focus_window : Z;
  uia_element : option N;
}.

(** [UiaEvent::parked]. *)
Definition event_parked (self : UiaEvent) : list N :=
  let range := match uia_kind self with UiaActiveTextPosition range => range | _ => None end in
  option_list (uia_element self) ++ option_list range.

Inductive Asker := AskerRound (round : N) | AskerSettle (id : N).

Inductive Item :=
  | ItemMsaa (kind : WinKind) (hwnd id_object id_child : Z) (raiser : N)
  | ItemUia (event : UiaEvent)
  | ItemFact (fact : DeliveredFact) (stamp : option WinEventStamp)
  | ItemQuery (request_id : RequestId) (query : Query)
  | ItemNodesHeld (nodes anchors : list N) (acknowledged : N)
  | ItemNotedCaret (node_id : NodeId)
  | ItemBarrier (asker : Asker) (behind_noted : bool)
  | ItemGapBound (bound : N)
  | ItemGapRead (window : Z).

(** [Item::parked]. *)
Definition parked (self : Item) : list N :=
  match self with ItemUia event => event_parked event | _ => [] end.

Inductive Front :=
  | Untested
  | Accepted (accepted : bool)
  | FrontForeground (in_front_at_us : option N) (uia : bool).

Record Entry := {
  entry_item : Item;
  entry_trace : TraceId;
  entry_observed_at_us : N;
  entry_timing : EventTiming;
  entry_front : Front;
}.

(** [Entry::own]. *)
Definition own (item : Item) (trace : TraceId) (observed_at_us : N) : Entry := {|
  entry_item := item; entry_trace := trace; entry_observed_at_us := observed_at_us;
  entry_timing := EventTiming_default; entry_front := Untested |}.

(** [Entry { item, ..entry }]. *)
Definition with_item (entry : Entry) (item : Item) : Entry := {|
  entry_item := item; entry_trace := entry_trace entry;
  entry_observed_at_us := entry_observed_at_us entry; entry_timing := entry_timing entry;
  entry_front := entry_front entry |}.

(** [Entry { item, observed_at_us, ..entry }]. *)
Definition with_read (entry : Entry) (item : Item) (at_us : N) : Entry := {|
  entry_item := item; entry_trace := entry_trace entry; entry_observed_at_us := at_us;
  entry_timing := entry_timing entry; entry_front := entry_front entry |}.

Inductive Source := SourceHook | SourceListener | SourceOther.
