(* ===== verification/Verdicts.v ===== *)
(** The arbitrator's record of probed verdicts: verbatim-outpost-logic's
    [verdicts.rs]. Each window keeps its newest verdict and the one before it;
    an event is judged by the one its observation falls under. *)

From S2P Require Import Prelude.

Inductive Probed := ProbedUia | NotUia (until : N) | TimedOut (until : N) | Excluded.

#[export] Instance Probed_eq_dec : EqDecision Probed.
Proof. solve_decision. Defined.

(** [Probed::lasts]. *)
Definition probed_lasts (self : Probed) : bool :=
  match self with ProbedUia | Excluded => true | NotUia _ | TimedOut _ => false end.

Record Probe := { probe_hwnd : Z; probe_owner : N; probe_from_us : N; probe_probed : Probed }.

Inductive VerdictChange := ProbedChange (probe : Probe) | Forget (hwnd : Z).

Definition kept_from_any_generation (self : VerdictChange) : bool :=
  match self with
  | Forget _ => true
  | ProbedChange probe => match probe_probed probe with TimedOut _ => true | _ => false end
  end.

Record Kept := { owner : N; from_us : N; probed : Probed }.

#[export] Instance Kept_eq_dec : EqDecision Kept.
Proof. solve_decision. Defined.

Definition judges (self : Kept) (at_us : N) : option Probed :=
  if at_us <? from_us self then None
  else match probed self with
       | NotUia until | TimedOut until => if until <=? at_us then None else Some (probed self)
       | ProbedUia | Excluded => Some (probed self)
       end.

Record WindowVerdicts := { current : Kept; previous : option Kept }.

#[export] Instance WindowVerdicts_eq_dec : EqDecision WindowVerdicts.
Proof. solve_decision. Defined.

Record Verdicts := { windows : gmap Z WindowVerdicts }.

Definition Verdicts_default : Verdicts := {| windows := ∅ |}.

Definition kept_at (self : Verdicts) (hwnd : Z) (owner_ at_us : N) : option Probed :=
  window ← windows self !! hwnd;
  if negb (owner (current window) =? owner_) then None
  else if from_us (current window) <=? at_us then judges (current window) at_us
  else previous window ≫= fun previous => judges previous at_us.

Definition lasts (self : Verdicts) (hwnd : Z) (owner_ : N) : bool :=
  match windows self !! hwnd with
  | Some window => (owner (current window) =? owner_) && probed_lasts (probed (current window))
  | None => false
  end.

(** [Verdicts::apply]: whether the record changed, and the record after. *)
Definition apply_verdict (self : Verdicts) (change : VerdictChange) : bool * Verdicts :=
  match change with
  | Forget hwnd =>
      (bool_decide (is_Some (windows self !! hwnd)), {| windows := delete hwnd (windows self) |})
  | ProbedChange probe =>
      if (match probe_probed probe with TimedOut _ => true | _ => false end) &&
         lasts self (probe_hwnd probe) (probe_owner probe)
      then (false, self)
      else
        let kept := {| owner := probe_owner probe; from_us := probe_from_us probe;
                       probed := probe_probed probe |} in
        let updated :=
          match windows self !! probe_hwnd probe with
          | Some window =>
              if owner (current window) =? owner kept
              then if from_us (current window) <=? from_us kept
                   then {| current := kept; previous := Some (current window) |}
                   else {| current := current window; previous := Some kept |}
              else {| current := kept; previous := None |}
          | None => {| current := kept; previous := None |}
          end in
        (bool_decide (windows self !! probe_hwnd probe <> Some updated),
         {| windows := <[probe_hwnd probe := updated]> (windows self) |})
  end.

(** ** Verdicts over a run of changes *)

(** The record after the changes, oldest first. *)
Definition recorded (changes : list VerdictChange) : Verdicts :=
  fold_left (fun v change => (apply_verdict v change).2) changes Verdicts_default.

(** [kept] is a probe of window [hwnd] among [changes] whose window was neither
    forgotten nor probed under another owner since. *)
Definition stands (changes : list VerdictChange) (hwnd : Z) (kept : Kept) : Prop :=
  exists pre probe post, changes = pre ++ ProbedChange probe :: post /\
    probe_hwnd probe = hwnd /\
    kept = {| owner := probe_owner probe; from_us := probe_from_us probe;
              probed := probe_probed probe |} /\
    Forall (fun change => match change with
                          | Forget gone => gone <> hwnd
                          | ProbedChange later =>
                              probe_hwnd later = hwnd -> probe_owner later = owner kept
                          end) post.

Lemma stands_snoc changes hwnd kept change :
  stands changes hwnd kept ->
  match change with
  | Forget gone => gone <> hwnd
  | ProbedChange later => probe_hwnd later = hwnd -> probe_owner later = owner kept
  end -> stands (changes ++ [change]) hwnd kept.
Proof.
  intros (pre & probe & post & -> & ? & ? & HF) Hc. exists pre, probe, (post ++ [change]).
  split_and!; [by rewrite -app_assoc|done..|]. apply Forall_app. split; [done|]. by constructor.
Qed.

Lemma stands_new changes probe :
  stands (changes ++ [ProbedChange probe]) (probe_hwnd probe)
    {| owner := probe_owner probe; from_us := probe_from_us probe; probed := probe_probed probe |}.
Proof. by exists changes, probe, []. Qed.

(** A window's two verdicts are of one owner, the newest judging from no
    earlier than the other, and both stand. *)
Definition window_ok (changes : list VerdictChange) (hwnd : Z) (w : WindowVerdicts) : Prop :=
  stands changes hwnd (current w) /\
  forall kept, previous w = Some kept ->
    stands changes hwnd kept /\ owner kept = owner (current w) /\
    from_us kept <= from_us (current w).

Lemma recorded_snoc changes change :
  recorded (changes ++ [change]) = (apply_verdict (recorded changes) change).2.
Proof. unfold recorded. by rewrite fold_left_app. Qed.

Lemma recorded_ok changes hwnd w :
  windows (recorded changes) !! hwnd = Some w -> window_ok changes hwnd w.
Proof.
  revert hwnd w. induction changes as [|change changes IH] using rev_ind; intros hwnd w.
  { cbn. by rewrite lookup_empty. }
  assert (Hkeep : forall w, windows (recorded changes) !! hwnd = Some w ->
    match change with
    | Forget gone => gone <> hwnd
    | ProbedChange later => probe_hwnd later = hwnd -> probe_owner later = owner (current w)
    end -> window_ok (changes ++ [change]) hwnd w).
  { intros w' Hw' Hc. destruct (IH _ _ Hw') as [H1 H2].
    split; [by apply stands_snoc|]. intros kept Hk. destruct (H2 kept Hk) as (Hs & Ho & Hf).
    split_and!; [|done..]. apply stands_snoc; [done|]. rewrite Ho. done. }
  rewrite recorded_snoc. destruct change as [probe|gone]; cbn [apply_verdict].
  - destruct (_ && _) eqn:Eb; cbn [snd].
    + intros Hw. apply Hkeep; [done|]. intros <-. apply andb_prop in Eb as [_ Hl].
      unfold lasts in Hl. rewrite Hw in Hl. apply andb_prop in Hl as [Hl%N.eqb_eq _]. done.
    + cbn [windows]. destruct (decide (probe_hwnd probe = hwnd)) as [<-|Hne].
      * rewrite lookup_insert_eq. intros [= <-].
        destruct (windows (recorded changes) !! probe_hwnd probe) as [w0|] eqn:Ew; [|].
        -- destruct (IH _ _ Ew) as [H1 H2]. cbn [owner from_us].
           destruct (N.eqb_spec (owner (current w0)) (probe_owner probe)) as [Ho|Ho].
           ++ destruct (N.leb_spec (from_us (current w0)) (probe_from_us probe)).
              ** split; [apply stands_new|]. cbn. intros kept [= <-].
                 split_and!; [|done..]. apply stands_snoc; [done|]. done.
              ** split; [apply stands_snoc; done|]. cbn. intros kept [= <-].
                 split_and!; [apply stands_new|done|cbn; lia].
           ++ split; [apply stands_new|done].
        -- split; [apply stands_new|done].
      * rewrite lookup_insert_ne //. intros Hw. by apply Hkeep.
  - cbn [snd windows]. intros [Hne Hw]%lookup_delete_Some. by apply Hkeep.
Qed.

Lemma judges_Some kept at_us p :
  judges kept at_us = Some p ->
  probed kept = p /\ from_us kept <= at_us /\
  match p with NotUia until | TimedOut until => at_us < until | _ => True end.
Proof.
  unfold judges. destruct (N.ltb_spec at_us (from_us kept)); [done|].
  destruct (probed kept); try (intros [= <-]; split_and!; done);
    destruct (N.leb_spec until at_us); intros [= <-]; split_and!; done.
Qed.

(** An event is judged only by what a probe found: whatever the record answers
    for an event of a window was probed of that window under that owner, by a
    judgement made no later than the event's observation, its keep not yet over
    then, and since that probe the window was neither destroyed nor probed
    under another owner. *)
Theorem verdicts_sound (changes : list VerdictChange) (hwnd : Z) (owner_ at_us : N) (p : Probed) :
  kept_at (recorded changes) hwnd owner_ at_us = Some p ->
  exists kept, stands changes hwnd kept /\ owner kept = owner_ /\ probed kept = p /\
    from_us kept <= at_us /\
    match p with NotUia until | TimedOut until => at_us < until | _ => True end.
Proof.
  unfold kept_at. destruct (windows (recorded changes) !! hwnd) as [w|] eqn:Ew; [|done].
  cbn [mbind option_bind]. destruct (recorded_ok _ _ _ Ew) as [H1 H2].
  destruct (N.eqb_spec (owner (current w)) owner_) as [Ho|]; [|done]. cbn [negb].
  destruct (from_us (current w) <=? at_us).
  - intros (Hp & Hf & Hu)%judges_Some. exists (current w). done.
  - destruct (previous w) as [kept|] eqn:Ek; [|done]. cbn [mbind option_bind].
    destruct (H2 kept eq_refl) as (Hs & Hk & _).
    intros (Hp & Hf & Hu)%judges_Some. exists kept. split_and!; try done. congruence.
Qed.

Lemma verdicts_sound_witness :
  let probe := {| probe_hwnd := 7; probe_owner := 3; probe_from_us := 10; probe_probed := NotUia 50 |} in
  kept_at (recorded [ProbedChange probe]) 7 3 20 = Some (NotUia 50) /\
  exists kept, stands [ProbedChange probe] 7 kept /\ probed kept = NotUia 50 /\ 20 < 50.
Proof.
  cbv zeta. split; [vm_compute; reflexivity|].
  destruct (verdicts_sound [ProbedChange {| probe_hwnd := 7; probe_owner := 3; probe_from_us := 10;
              probe_probed := NotUia 50 |}] 7 3 20 (NotUia 50)) as (kept & H1 & _ & H2 & _ & H3);
    [vm_compute; reflexivity|]. by exists kept.
Defined.

(** A probe judging from no earlier than the window's newest verdict becomes
    the newest: later events are judged by it, and events observed before it by
    the verdict it replaced, as long as that one's probe had begun; a probe that
    timed out leaves a window whose verdict holds for its lifetime judged as it
    was, at every observation. *)
Theorem verdict_newest (v : Verdicts) (probe : Probe) (window : WindowVerdicts) (at_us : N) :
  windows v !! probe_hwnd probe = Some window -> owner (current window) = probe_owner probe ->
  from_us (current window) <= probe_from_us probe ->
  kept_at (apply_verdict v (ProbedChange probe)).2 (probe_hwnd probe) (probe_owner probe) at_us =
  if (match probe_probed probe with TimedOut _ => true | _ => false end) &&
     probed_lasts (probed (current window))
  then kept_at v (probe_hwnd probe) (probe_owner probe) at_us
  else if probe_from_us probe <=? at_us
       then judges {| owner := probe_owner probe; from_us := probe_from_us probe;
                      probed := probe_probed probe |} at_us
       else if from_us (current window) <=? at_us
            then kept_at v (probe_hwnd probe) (probe_owner probe) at_us else None.
Proof.
  intros Hw Ho Hf. cbn [apply_verdict]. unfold lasts. rewrite Hw Ho N.eqb_refl andb_true_l.
  destruct (_ && _); [done|]. cbn [snd]. unfold kept_at. cbn [windows owner from_us].
  rewrite lookup_insert_eq Hw. cbn [mbind option_bind]. rewrite (proj2 (N.leb_le _ _) Hf) Ho.
  rewrite N.eqb_refl. cbn [current previous owner from_us negb].
  rewrite ?N.eqb_refl. cbn [negb].
  destruct (probe_from_us probe <=? at_us); [done|]. cbn [mbind option_bind].
  destruct (N.leb_spec (from_us (current window)) at_us) as [|Hlt]; [done|].
  unfold judges. by rewrite (proj2 (N.ltb_lt _ _) Hlt).
Qed.

(** A window found without a provider, and found to have one later: events
    observed before the second probe keep the first verdict. *)
Lemma verdict_newest_witness :
  let v := recorded [ProbedChange {| probe_hwnd := 7; probe_owner := 3; probe_from_us := 10;
                                     probe_probed := NotUia 50 |}] in
  let probe := {| probe_hwnd := 7; probe_owner := 3; probe_from_us := 30;
                  probe_probed := ProbedUia |} in
  kept_at (apply_verdict v (ProbedChange probe)).2 7 3 20 = Some (NotUia 50).
Proof.
  cbv zeta. etransitivity.
  - apply (verdict_newest _ {| probe_hwnd := 7; probe_owner := 3; probe_from_us := 30;
      probe_probed := ProbedUia |} {| current := {| owner := 3; from_us := 10; probed := NotUia 50 |};
      previous := None |}); [vm_compute; reflexivity|reflexivity|vm_compute; discriminate].
  - vm_compute. reflexivity.
Defined.
