(* ===== verification/Hold.v ===== *)
(** The hand-over's hold: verbatim-outpost-logic's [hold.rs]. While the
    outpost's own hook takes over from the focus listener, the hook's copies of
    events are held until the listener says what it forwarded. *)

From S2P Require Import Prelude Tree TextModel Facts Messages OutpostEntry.

Inductive HoldState :=
  | Unhooked
  | Holding (held : list Entry) (newest_forwarded : option N)
  | Over.

Record Hold := { hold_state : HoldState }.

Definition Hold_default : Hold := {| hold_state := Unhooked |}.

Definition hooked (self : Hold) : Hold :=
  match hold_state self with
  | Unhooked => {| hold_state := Holding [] None |}
  | _ => self
  end.

Definition without_listener (self : Hold) : list Entry * Hold :=
  (match hold_state self with Holding held _ => held | Unhooked | Over => [] end,
   {| hold_state := Over |}).

Definition holding (self : Hold) : bool :=
  match hold_state self with Holding _ _ => true | _ => false end.

Definition held_copies (self : Hold) : list Entry :=
  match hold_state self with Holding held _ => held | Unhooked | Over => [] end.

Definition hooked_copy (self : Hold) (entry : Entry) : option Entry * Hold :=
  match hold_state self with
  | Holding held newest => (None, {| hold_state := Holding (held ++ [entry]) newest |})
  | Unhooked | Over => (Some entry, self)
  end.

(** Whether the listener forwards [fact] while the hook goes in. *)
Definition forwarded (fact : DeliveredFact) : bool :=
  match fact with
  | MsaaFocus _ _ _ | Foreground _ | MenuPopup _ _ _ | Alert _ _ _ | Show _ _ _ => true
  | _ => false
  end.

Definition forwarded_time (entry : Entry) : option N :=
  match entry_item entry with
  | ItemFact fact (Some stamp) => if forwarded fact then Some (time stamp) else None
  | _ => None
  end.

Definition listener_copy (self : Hold) (entry : Entry) : Hold :=
  match hold_state self, forwarded_time entry with
  | Holding held newest_forwarded, Some time =>
      if match newest_forwarded with None => true | Some newest => tick_is_after time newest end
      then {| hold_state := Holding held (Some time) |}
      else self
  | _, _ => self
  end.

Definition released_entry (through : option N) (entry : Entry) : bool :=
  match through with
  | None => true
  | Some through =>
      match forwarded_time entry with
      | None => true
      | Some time => tick_is_after time through
      end
  end.

(** [Hold::release]. *)
Definition release_hold (self : Hold) (through : option N) : option (list Entry) * Hold :=
  (match hold_state self with
   | Holding held _ => Some (List.filter (released_entry through) held)
   | Unhooked | Over => None
   end, {| hold_state := Over |}).

Definition forwarding_ended (self : Hold) (through : N) : option (list Entry) * Hold :=
  release_hold self (Some through).

Definition reads_ended (self : Hold) : option (list Entry) * Hold :=
  match hold_state self with
  | Holding _ newest_forwarded => release_hold self newest_forwarded
  | Unhooked | Over => (None, self)
  end.

(** ** The hand-over, event by event *)

Inductive Copy := HookCopy (entry : Entry) | ListenerCopy (entry : Entry).

(** The entries handled as a copy comes, and the hold after it. *)
Definition take_copy (s : list Entry * Hold) (copy : Copy) : list Entry * Hold :=
  match copy with
  | HookCopy entry => let '(out, hold) := hooked_copy s.2 entry in (s.1 ++ option_list out, hold)
  | ListenerCopy entry => (s.1 ++ [entry], listener_copy s.2 entry)
  end.

Definition hook_stream (copies : list Copy) : list Entry :=
  omap (fun c => match c with HookCopy e => Some e | ListenerCopy _ => None end) copies.
Definition listener_stream (copies : list Copy) : list Entry :=
  omap (fun c => match c with HookCopy _ => None | ListenerCopy e => Some e end) copies.

(** What is handled from the hook's install to the listener's last word, and
    then of the hook's later copies. *)
Definition handled (copies : list Copy) (through : N) (later : list Entry) : list Entry :=
  let '(before, hold) := fold_left take_copy copies ([], hooked Hold_default) in
  let '(released, hold) := forwarding_ended hold through in
  let '(after, _) := fold_left take_copy (map HookCopy later) ([], hold) in
  before ++ default [] released ++ after.

Lemma take_copies copies out held newest :
  exists newest',
    fold_left take_copy copies (out, {| hold_state := Holding held newest |}) =
    (out ++ listener_stream copies, {| hold_state := Holding (held ++ hook_stream copies) newest' |}) /\
    (forall t, newest' = Some t -> newest = Some t \/
       exists e, e ∈ listener_stream copies /\ forwarded_time e = Some t).
Proof.
  revert out held newest. induction copies as [|[e|e] copies IH]; intros out held newest.
  - exists newest. rewrite !app_nil_r. auto.
  - cbn [fold_left take_copy hooked_copy hold_state fst snd option_list].
    rewrite app_nil_r. destruct (IH out (held ++ [e]) newest) as (n & -> & Hn).
    exists n. cbn [listener_stream hook_stream omap list_omap]. by rewrite -app_assoc.
  - cbn [fold_left take_copy fst snd].
    assert (exists newest1, listener_copy {| hold_state := Holding held newest |} e =
      {| hold_state := Holding held newest1 |} /\
      (newest1 = newest \/ newest1 = forwarded_time e /\ is_Some newest1)) as (n1 & -> & Hn1).
    { unfold listener_copy. cbn [hold_state]. destruct (forwarded_time e) as [t|]; [|by exists newest; auto].
      case_match; [exists (Some t); eauto|by exists newest; auto]. }
    destruct (IH (out ++ [e]) held n1) as (n & -> & Hn). exists n. split.
    + cbn [listener_stream hook_stream omap list_omap]. by rewrite -app_assoc.
    + intros t Ht. destruct (Hn t Ht) as [H|(x & Hx & Hxt)].
      * destruct Hn1 as [->|[-> _]]; [by left|]. right. exists e.
        split; [cbn [listener_stream omap list_omap]; constructor|done].
      * right. exists x. split; [cbn [listener_stream omap list_omap]; by constructor 2|done].
Qed.

Lemma hook_copies_over later out :
  fold_left take_copy (map HookCopy later) (out, {| hold_state := Over |}) =
  (out ++ later, {| hold_state := Over |}).
Proof.
  revert out. induction later as [|e l IH]; intros out; [by rewrite app_nil_r|].
  cbn [map fold_left take_copy hooked_copy hold_state fst snd option_list]. rewrite IH.
  by rewrite -app_assoc.
Qed.

(** The hand-over takes every event exactly once. When the listener forwarded,
    of the events the hook saw, exactly those of its kinds raised at or before
    the tick it names, however the two streams interleave, what the outpost
    handles until then and afterwards is every event of the hook's stream once:
    the listener's copies as they come, then the rest in the hook's order, ahead
    of anything the hook delivers later. *)
Theorem handover_exactly_once (copies : list Copy) (through : N) (later : list Entry) :
  listener_stream copies ≡ₚ
    List.filter (fun e => negb (released_entry (Some through) e)) (hook_stream copies) ->
  handled copies through later =
    listener_stream copies ++
    List.filter (released_entry (Some through)) (hook_stream copies) ++ later /\
  handled copies through later ≡ₚ hook_stream copies ++ later.
Proof.
  intros Hl.
  assert (handled copies through later = listener_stream copies ++
    List.filter (released_entry (Some through)) (hook_stream copies) ++ later) as Heq.
  { unfold handled. cbn [hooked Hold_default hold_state].
    destruct (take_copies copies [] [] None) as (n & -> & _). rewrite !app_nil_l.
    unfold forwarding_ended, release_hold. cbn [hold_state].
    rewrite (hook_copies_over later []). done. }
  split; [done|]. rewrite Heq Hl app_assoc [_ ++ List.filter _ _]Permutation_app_comm. by rewrite -filter_split.
Qed.

(** A focus on child [child] of window 7, raised at [time]. *)
Definition sample_focus (child : Z) (time : N) : Entry :=
  own (ItemFact (MsaaFocus 7 (-4) child) (Some {| thread := 3; time := time |}))
    {| trace_number := 1 |} time.

Lemma handover_exactly_once_witness :
  let copies := [HookCopy (sample_focus 1 100); ListenerCopy (sample_focus 1 100);
                 HookCopy (sample_focus 2 200)] in
  handled copies 100 [sample_focus 3 300] =
    [sample_focus 1 100; sample_focus 2 200; sample_focus 3 300].
Proof.
  cbv zeta. etransitivity; [apply handover_exactly_once|reflexivity].
  vm_compute. reflexivity.
Defined.

(** When the listener's reads end before its last word, a held copy is dropped
    only when the listener had forwarded a copy raised no earlier, so that the
    event it is a copy of is not lost with the listener; and with no copy
    forwarded nothing is dropped. *)
Theorem reads_ended_drops_only_forwarded (copies : list Copy) (e : Entry) :
  let '(before, hold) := fold_left take_copy copies ([], hooked Hold_default) in
  let '(released, after) := reads_ended hold in
  hold_state after = Over /\ before = listener_stream copies /\
  (e ∈ hook_stream copies ->
   e ∈ default [] released \/
   exists l t tl, l ∈ listener_stream copies /\ forwarded_time l = Some tl /\
     forwarded_time e = Some t /\ tick_is_after t tl = false).
Proof.
  cbn [hooked Hold_default hold_state].
  destruct (take_copies copies [] [] None) as (n & -> & Hn). rewrite !app_nil_l.
  unfold reads_ended. cbn [hold_state release_hold]. split_and!; [done..|].
  intros He. cbn [default from_option]. unfold Datatypes.id.
  destruct (released_entry n e) eqn:Er.
  - left. rewrite list_elem_of_In filter_In -list_elem_of_In. done.
  - right. unfold released_entry in Er. destruct n as [tl|]; [|done].
    destruct (forwarded_time e) as [t|]; [|done].
    destruct (Hn tl eq_refl) as [?|(l & Hl & Hlt)]; [done|]. by exists l, t, tl.
Qed.

Lemma reads_ended_drops_only_forwarded_witness :
  let copies := [ListenerCopy (sample_focus 1 100); HookCopy (sample_focus 1 100);
                 HookCopy (sample_focus 2 120)] in
  (reads_ended (fold_left take_copy copies ([], hooked Hold_default)).2).1 =
    Some [sample_focus 2 120] /\
  (sample_focus 1 100 ∈ hook_stream copies ->
   sample_focus 1 100 ∈ [sample_focus 2 120] \/
   exists l t tl, l ∈ listener_stream copies /\ forwarded_time l = Some tl /\
     forwarded_time (sample_focus 1 100) = Some t /\ tick_is_after t tl = false).
Proof.
  cbv zeta. split; [vm_compute; reflexivity|].
  pose proof (reads_ended_drops_only_forwarded
    [ListenerCopy (sample_focus 1 100); HookCopy (sample_focus 1 100);
     HookCopy (sample_focus 2 120)] (sample_focus 1 100)) as H.
  exact (proj2 (proj2 H)).
Defined.
