(* ===== verification/GapRecord.v ===== *)
(** The outpost's gap record: verbatim-outpost-logic's [gap_record.rs]. The
    wait, after a focus copy dropped because its window is judged UIA, or a
    foreground change, for the application's focus to be told to Core; its
    look-back on the reports made, its restamps, and its numbered bounds. *)

From S2P Require Import Prelude Tree Facts.

Definition BOUND_US : N := 1000000.
Definition ANSWERED_BEFORE_US : N := 100000.

Inductive Awaits := AwaitsFocus | AwaitsTitle.
Inductive Bound := BoundWaiting | BoundQueued | BoundPassed.

#[export] Instance Awaits_eq_dec : EqDecision Awaits.
Proof. solve_decision. Defined.
#[export] Instance Bound_eq_dec : EqDecision Bound.
Proof. solve_decision. Defined.

Record Open := {
  open_window : Z;
  open_top_level : Z;
  open_stamp_us : N;
  open_trace : TraceId;
  open_due_us : N;
  open_bound : Bound;
  open_bound_number : N;
  open_awaits : Awaits;
}.

Record GapRead := { gap_read_window : Z; gap_read_stamp_us : N }.

Record AtBound := { at_top_level : Z; at_stamp_us : N; at_trace : TraceId; at_awaits : Awaits }.

Inductive CopyDropped := Answered | ReadNow | Opened (due_us : N) | Restamped.

#[export] Instance CopyDropped_eq_dec : EqDecision CopyDropped.
Proof. solve_decision. Defined.

Record GapRecord := {
  open : option Open;
  reported : gmap Z N;
  last_no_window_us : option N;
  bounds : N;
}.

Definition GapRecord_default : GapRecord :=
  {| open := None; reported := ∅; last_no_window_us := None; bounds := 0 |}.

Definition with_open (self : GapRecord) (o : option Open) : GapRecord :=
  {| open := o; reported := reported self; last_no_window_us := last_no_window_us self;
     bounds := bounds self |}.

Definition with_bound (o : Open) (b : Bound) : Open := {|
  open_window := open_window o; open_top_level := open_top_level o;
  open_stamp_us := open_stamp_us o; open_trace := open_trace o; open_due_us := open_due_us o;
  open_bound := b; open_bound_number := open_bound_number o; open_awaits := open_awaits o |}.

Definition answers (reported_us copy_us : N) : bool :=
  copy_us <=? reported_us +|64| ANSWERED_BEFORE_US.

Definition is_open (self : GapRecord) : bool := bool_decide (is_Some (open self)).

Definition pending (self : GapRecord) : bool :=
  match open self with Some o => bool_decide (open_bound o <> BoundPassed) | None => false end.

Definition awaits (self : GapRecord) : option Awaits := option_map open_awaits (open self).
Definition bound_number (self : GapRecord) : option N := option_map open_bound_number (open self).

(** The next bound's number; a [u64] that a run does not exhaust. *)
Definition arm (self : GapRecord) : N * GapRecord :=
  (bounds self + 1,
   {| open := open self; reported := reported self;
      last_no_window_us := last_no_window_us self; bounds := bounds self + 1 |}).

Definition trace (self : GapRecord) : option TraceId := option_map open_trace (open self).
Definition due_us (self : GapRecord) : option N := option_map open_due_us (open self).

Definition waiting_due_us (self : GapRecord) : option N :=
  match open self with
  | Some o => if bool_decide (open_bound o = BoundWaiting) then Some (open_due_us o) else None
  | None => None
  end.

Definition at_bound (self : GapRecord) : option AtBound * GapRecord :=
  match open self with
  | Some o =>
      if bool_decide (open_bound o = BoundWaiting)
      then (Some {| at_top_level := open_top_level o; at_stamp_us := open_stamp_us o;
                    at_trace := open_trace o; at_awaits := open_awaits o |},
            with_open self (Some (with_bound o BoundQueued)))
      else (None, self)
  | None => (None, self)
  end.

Definition bound_passed (self : GapRecord) : GapRecord :=
  match open self with
  | Some o => with_open self (Some (with_bound o BoundPassed))
  | None => self
  end.

Definition close (self : GapRecord) : GapRecord := with_open self None.

(** The look-back of a copy with no record open. *)
Definition copy_opens (self : GapRecord) (window top_level : Z) (at_us : N) (trace : TraceId)
    : CopyDropped * GapRecord :=
  if match reported self !! top_level with Some r => answers r at_us | None => false end
  then (Answered, self)
  else if match last_no_window_us self with Some n => answers n at_us | None => false end
  then (ReadNow, self)
  else
    let due := at_us +|64| BOUND_US in
    let '(number, self) := arm self in
    (Opened due,
     with_open self (Some {|
       open_window := window; open_top_level := top_level; open_stamp_us := at_us;
       open_trace := trace; open_due_us := due; open_bound := BoundWaiting;
       open_bound_number := number; open_awaits := AwaitsFocus |})).

Definition copy_dropped (self : GapRecord) (window top_level : Z) (at_us : N) (trace : TraceId)
    : CopyDropped * GapRecord :=
  match open self with
  | Some o =>
      if at_us <=? open_stamp_us o then (Answered, self)
      else if (open_top_level o =? top_level)%Z then
        let '(due, bound, number, self) :=
          if bool_decide (open_bound o = BoundPassed)
          then let '(number, self) := arm self in (at_us +|64| BOUND_US, BoundWaiting, number, self)
          else (open_due_us o, open_bound o, open_bound_number o, self) in
        (if bool_decide (bound = open_bound o) then Restamped else Opened due,
         with_open self (Some {|
           open_window := window; open_top_level := open_top_level o; open_stamp_us := at_us;
           open_trace := trace; open_due_us := due; open_bound := bound;
           open_bound_number := number; open_awaits := AwaitsFocus |}))
      else copy_opens (with_open self None) window top_level at_us trace
  | None => copy_opens self window top_level at_us trace
  end.

Definition foreground (self : GapRecord) (window : Z) (at_us : N) (trace : TraceId) (wants : Awaits)
    : GapRecord :=
  let opens wants :=
    let '(number, self) := arm self in
    with_open self (Some {|
      open_window := window; open_top_level := window; open_stamp_us := at_us;
      open_trace := trace; open_due_us := at_us +|64| BOUND_US; open_bound := BoundWaiting;
      open_bound_number := number; open_awaits := wants |}) in
  match open self with
  | Some o =>
      if at_us <=? open_stamp_us o then self
      else if (open_top_level o =? window)%Z && bool_decide (open_awaits o = AwaitsFocus)
           then opens AwaitsFocus
           else opens wants
  | None => opens wants
  end.

(** [GapRecord::reported]: whether it closed the record. *)
Definition note_reported (self : GapRecord) (top_level : option Z) (at_us : N)
    (whole_window : bool) : bool * GapRecord :=
  let self :=
    match whole_window, top_level with
    | false, Some top =>
        let newest := default at_us (reported self !! top) in
        {| open := open self; reported := <[top := N.max newest at_us]> (reported self);
           last_no_window_us := last_no_window_us self; bounds := bounds self |}
    | _, _ => self
    end in
  match open self with
  | None => (false, self)
  | Some o =>
      let closes :=
        if bool_decide (top_level = Some (open_top_level o))
        then answers at_us (open_stamp_us o) &&
             (negb whole_window || bool_decide (open_awaits o = AwaitsTitle))
        else open_stamp_us o <? at_us in
      (closes, if closes then with_open self None else self)
  end.

Definition no_window (self : GapRecord) (at_us : N) : option GapRead * GapRecord :=
  let newest := default at_us (last_no_window_us self) in
  let self := {| open := open self; reported := reported self;
                 last_no_window_us := Some (N.max newest at_us); bounds := bounds self |} in
  match open self with
  | Some o =>
      if bool_decide (open_awaits o = AwaitsFocus) && answers at_us (open_stamp_us o)
      then (Some {| gap_read_window := open_window o; gap_read_stamp_us := open_stamp_us o |},
            with_open self None)
      else (None, self)
  | None => (None, self)
  end.

(** [Result<Option<GapRead>, u64>]: the read, or the bound's due time when it
    has not passed. *)
Definition bound_reached (self : GapRecord) (bound now_us : N)
    : result (option GapRead) N * GapRecord :=
  match open self with
  | None => (Ok None, self)
  | Some o =>
      if negb (open_bound_number o =? bound) then (Ok None, self)
      else if bool_decide (open_bound o = BoundPassed) then (Ok None, self)
      else if now_us <? open_due_us o
           then (Err (open_due_us o), with_open self (Some (with_bound o BoundWaiting)))
           else (Ok (Some {| gap_read_window := open_window o;
                             gap_read_stamp_us := open_stamp_us o |}),
                 with_open self (Some (with_bound o BoundPassed)))
  end.

Definition window_destroyed (self : GapRecord) (hwnd : Z) : GapRecord :=
  {| open := open self; reported := delete hwnd (reported self);
     last_no_window_us := last_no_window_us self; bounds := bounds self |}.

(** ** Runs of the record *)

Inductive Op :=
  | OpCopy (window top_level : Z) (at_us : N) (trace : TraceId)
  | OpForeground (window : Z) (at_us : N) (trace : TraceId) (wants : Awaits)
  | OpReported (top_level : option Z) (at_us : N) (whole_window : bool)
  | OpNoWindow (at_us : N)
  | OpAtBound
  | OpBoundPassed
  | OpClose
  | OpBoundReached (bound now_us : N)
  | OpDestroyed (hwnd : Z).

(** The record after [op], and the bound whose entry was read, if one was. *)
Definition exec (self : GapRecord) (op : Op) : GapRecord * option N :=
  match op with
  | OpCopy window top_level at_us trace => ((copy_dropped self window top_level at_us trace).2, None)
  | OpForeground window at_us trace wants => (foreground self window at_us trace wants, None)
  | OpReported top_level at_us whole => ((note_reported self top_level at_us whole).2, None)
  | OpNoWindow at_us => ((no_window self at_us).2, None)
  | OpAtBound => ((at_bound self).2, None)
  | OpBoundPassed => (bound_passed self, None)
  | OpClose => (close self, None)
  | OpBoundReached bound now_us =>
      let '(read, self) := bound_reached self bound now_us in
      (self, match read with Ok (Some _) => Some bound | _ => None end)
  | OpDestroyed hwnd => (window_destroyed self hwnd, None)
  end.

Fixpoint run (self : GapRecord) (ops : list Op) : GapRecord * list N :=
  match ops with
  | [] => (self, [])
  | op :: rest =>
      let '(self, read) := exec self op in
      let '(self, reads) := run self rest in
      (self, option_list read ++ reads)
  end.

(** How an operation may change the open record: it stays as it is up to where
    its bound stands, which only a bound just reached makes passed; it keeps
    its bound for a newer copy; it gets a bound with a new number; or it
    closes. *)
Inductive moves (s s' : GapRecord) : option N -> Prop :=
  | moves_closed : open s' = None -> bounds s <= bounds s' -> moves s s' None
  | moves_same o o' : open s = Some o -> open s' = Some o' -> bounds s' = bounds s ->
      open_bound_number o' = open_bound_number o -> open_stamp_us o <= open_stamp_us o' ->
      (open_bound o = BoundPassed -> open_bound o' = BoundPassed) ->
      (open_top_level o' = open_top_level o) ->
      (open_awaits o = AwaitsFocus -> open_awaits o' = AwaitsFocus) -> moves s s' None
  | moves_armed o' : open s' = Some o' -> bounds s' = bounds s + 1 ->
      open_bound_number o' = bounds s' -> open_bound o' = BoundWaiting ->
      open_due_us o' = open_stamp_us o' +|64| BOUND_US ->
      (forall o, open s = Some o -> open_stamp_us o < open_stamp_us o') -> moves s s' None
  | moves_read o o' : open s = Some o -> open s' = Some o' -> bounds s' = bounds s ->
      open_bound o <> BoundPassed -> o' = with_bound o BoundPassed ->
      moves s s' (Some (open_bound_number o)).

Lemma copy_opens_moves s w top at_us tr :
  open s = None ->
  let s' := (copy_opens s w top at_us tr).2 in
  (open s' = None /\ bounds s' = bounds s) \/
  (exists o', open s' = Some o' /\ bounds s' = bounds s + 1 /\ open_bound_number o' = bounds s' /\
     open_bound o' = BoundWaiting /\ open_due_us o' = open_stamp_us o' +|64| BOUND_US /\
     open_stamp_us o' = at_us).
Proof.
  intros Hs. cbv zeta. unfold copy_opens, arm. repeat case_match; simplify_eq/=;
    first [left; by split | right; eexists; split; [reflexivity|done]].
Qed.

Lemma exec_moves s op : moves s (exec s op).1 (exec s op).2.
Proof.
  assert (Hid : forall s', bounds s' = bounds s -> open s' = open s -> moves s s' None).
  { intros s' Hb Ho. destruct (open s) as [o|] eqn:E.
    - by eapply (moves_same _ _ o o).
    - apply moves_closed; [done|lia]. }
  destruct op as [w top at_us tr|w at_us tr wants|top at_us whole|at_us| | | |b now|h];
    cbn [exec fst snd].
  - unfold copy_dropped. destruct (open s) as [o|] eqn:E.
    + destruct (N.leb_spec at_us (open_stamp_us o)); [by apply Hid; rewrite ?E|].
      destruct (Z.eqb_spec (open_top_level o) top) as [Ht|Ht].
      * destruct (bool_decide_reflect (open_bound o = BoundPassed)) as [Hb|Hb]; cbn.
        -- eapply moves_armed; [done..|]. intros o2 Ho2. rewrite E in Ho2. by injection Ho2 as <-.
        -- eapply (moves_same _ _ o); [done..| | | |]; cbn; [lia|done..].
      * destruct (copy_opens_moves (with_open s None) w top at_us tr eq_refl)
          as [[H1 H2]|(o' & H1 & H2 & H3 & H4 & H5 & H6)].
        -- apply moves_closed; [done|]. rewrite H2. cbn. lia.
        -- eapply moves_armed; [done..|]. intros o2 Ho2. rewrite E in Ho2. injection Ho2 as <-. by rewrite H6.
    + destruct (copy_opens_moves s w top at_us tr E) as [[H1 H2]|(o' & H1 & H2 & H3 & H4 & H5 & H6)].
      * apply moves_closed; [done|lia].
      * eapply moves_armed; [done..|]. intros o2 Ho2. congruence.
  - unfold foreground. cbn. destruct (open s) as [o|] eqn:E.
    + destruct (N.leb_spec at_us (open_stamp_us o)); [by apply Hid; rewrite ?E|].
      destruct (_ && _); eapply moves_armed; cbn; try done; intros o2 Ho2; rewrite E in Ho2; injection Ho2 as <-; done.
    + eapply moves_armed; cbn; try done. intros o2 Ho2. congruence.
  - unfold note_reported. cbv zeta.
    set (s1 := match whole, top with false, Some t => _ | _, _ => s end).
    assert (open s1 = open s /\ bounds s1 = bounds s) as [H1 H2] by (unfold s1; by destruct whole, top).
    clearbody s1. destruct (open s1) as [o|] eqn:E; cbn [snd]; [|apply Hid; [done|congruence]].
    destruct (if bool_decide _ then _ else _); [apply moves_closed; cbn; [done|lia]|].
    apply Hid; congruence.
  - unfold no_window. cbv zeta. cbn [open]. destruct (open s) as [o|] eqn:E; [|apply Hid; cbn; congruence].
    destruct (_ && _); [apply moves_closed; cbn; [done|lia]|]. apply Hid; cbn; congruence.
  - unfold at_bound. destruct (open s) as [o|] eqn:E; [|apply Hid; cbn; congruence].
    destruct (bool_decide_reflect (open_bound o = BoundWaiting)) as [Hb|Hb]; cbn; [|apply Hid; congruence].
    eapply (moves_same _ _ o); cbn; try done. by rewrite Hb.
  - unfold bound_passed. destruct (open s) as [o|] eqn:E; [|apply Hid; cbn; congruence].
    eapply (moves_same _ _ o); cbn; try done.
  - apply moves_closed; cbn; [done|lia].
  - unfold bound_reached. destruct (open s) as [o|] eqn:E; [|apply Hid; cbn; congruence].
    destruct (N.eqb_spec (open_bound_number o) b) as [<-|Hn]; cbn [negb]; [|apply Hid; cbn; congruence].
    destruct (bool_decide_reflect (open_bound o = BoundPassed)) as [Hb|Hb]; [apply Hid; cbn; congruence|].
    destruct (now <? open_due_us o); cbn.
    + eapply (moves_same _ _ o); cbn; try done.
    + eapply (moves_read _ _ o); cbn; try done.
  - apply Hid; done.
Qed.

(** The bounds read so far were armed, none twice, and the one of the open
    record, if among them, has passed. *)
Definition reads_ok (s : GapRecord) (reads : list N) : Prop :=
  NoDup reads /\ Forall (fun b => b <= bounds s) reads /\
  forall o, open s = Some o -> open_bound_number o <= bounds s /\
    (open_bound_number o ∈ reads -> open_bound o = BoundPassed).

Lemma reads_ok_step s reads s' read :
  reads_ok s reads -> moves s s' read -> reads_ok s' (reads ++ option_list read).
Proof.
  intros (Hnd & Hle & Ho) Hm.
  destruct Hm as [Hc Hb|o o' Eo Eo' Hb Hn Hst Hp Ht Ha|o' Eo' Hb Hn Hw Hd Hst|o o' Eo Eo' Hb Hnp ->];
    cbn [option_list]; rewrite ?app_nil_r.
  - split_and!; [done| |intros o Ho'; congruence]. eapply Forall_impl; [done|]. cbn. lia.
  - split_and!; [done|by rewrite Hb|]. intros o2 Ho2. rewrite Eo' in Ho2. injection Ho2 as <-.
    rewrite Hn Hb. destruct (Ho o Eo) as [H1 H2]. auto.
  - split_and!; [done| |].
    + eapply Forall_impl; [done|]. cbn. lia.
    + intros o2 Ho2. rewrite Eo' in Ho2. injection Ho2 as <-. split; [lia|].
      intros Hin. rewrite Forall_forall in Hle. specialize (Hle _ Hin). cbn in Hle. lia.
  - destruct (Ho o Eo) as [H1 H2].
    assert (open_bound_number o ∉ reads) as Hni by (intros Hin; by apply Hnp, H2).
    split_and!.
    + apply NoDup_app. split_and!; [done| |apply NoDup_singleton].
      intros x Hx ->%list_elem_of_singleton. done.
    + apply Forall_app. split; [eapply Forall_impl; [done|]; cbn; lia|]. constructor; [lia|done].
    + intros o2 Ho2. rewrite Eo' in Ho2. injection Ho2 as <-. cbn. split; [lia|done].
Qed.

(** However copies, foreground changes, reports and drops interleave with its
    bounds, each bound of the gap record is read at most once, and only one
    that was armed: an entry whose bound was replaced while it waited, or
    whose record was closed, reads nothing. *)
Theorem gap_bound_read_once (ops : list Op) :
  NoDup (run GapRecord_default ops).2 /\
  Forall (fun b => b <= bounds (run GapRecord_default ops).1) (run GapRecord_default ops).2.
Proof.
  assert (forall ops s reads, reads_ok s reads ->
    reads_ok (run s ops).1 (reads ++ (run s ops).2)) as Hrun.
  { clear. induction ops as [|op ops IH]; intros s reads H; cbn [run]; [by rewrite app_nil_r|].
    pose proof (reads_ok_step s reads _ _ H (exec_moves s op)) as H1.
    destruct (exec s op) as [s1 read]. specialize (IH s1 _ H1). cbn [fst snd] in *.
    destruct (run s1 ops) as [s2 rs]. cbn [fst snd] in *. by rewrite app_assoc. }
  destruct (Hrun ops GapRecord_default []) as (H1 & H2 & _); [|done].
  split_and!; [constructor|done|done].
Qed.

(** While a record is open its stamp only moves forward, even across windows;
    a bound with a number of its own is newer than every one before it, is
    waited for, and passes a second past the stamp that armed it. *)
Theorem gap_stamp_moves_forward (s : GapRecord) (op : Op) (o o' : Open) :
  open s = Some o -> open (exec s op).1 = Some o' ->
  open_stamp_us o <= open_stamp_us o' /\
  (open_bound_number o' <> open_bound_number o ->
   open_bound_number o' = bounds s + 1 /\ open_bound o' = BoundWaiting /\
   open_due_us o' = open_stamp_us o' +|64| BOUND_US).
Proof.
  intros Ho Ho'.
  destruct (exec_moves s op) as [Hc Hb|o1 o2 Eo Eo' Hb Hn Hst Hp Ht Ha|o2 Eo' Hb Hn Hw Hd Hst|o1 o2 Eo Eo' Hb Hnp ->];
    simplify_eq.
  - split; [done|]. by intros [].
  - specialize (Hst o Ho). split; [lia|]. intros _. split_and!; [lia|done..].
  - destruct o. split; [done|]. by intros [].
Qed.

Lemma gap_stamp_moves_forward_witness :
  let s := (copy_dropped GapRecord_default 17 16 1000 {| trace_number := 1 |}).2 in
  open_stamp_us <$> open (exec s (OpForeground 16 2000 {| trace_number := 2 |} AwaitsTitle)).1 =
    Some 2000 /\ 1000 <= 2000.
Proof.
  cbv zeta. split; [reflexivity|].
  exact (proj1 (gap_stamp_moves_forward
    (copy_dropped GapRecord_default 17 16 1000 {| trace_number := 1 |}).2
    (OpForeground 16 2000 {| trace_number := 2 |} AwaitsTitle) _ _ eq_refl eq_refl)).
Defined.

(** No focus copy the worker drops is left in silence: either a report of its
    top-level window observed with it, or a newer copy or change the record
    already waits for, stands for it; or its focus is read at once, after a
    drop for no window observed with it; or the record now waits for the
    application's focus under the copy's own window and stamp with a bound
    still to be handled, one armed by it a second from it when it was opened. *)
Theorem gap_copy_accounted (s : GapRecord) (window top_level : Z) (at_us : N) (tr : TraceId) :
  let '(outcome, s') := copy_dropped s window top_level at_us tr in
  match outcome with
  | Answered =>
      (exists o, open s = Some o /\ at_us <= open_stamp_us o) \/
      (exists r, reported s !! top_level = Some r /\ at_us <= r +|64| ANSWERED_BEFORE_US)
  | ReadNow =>
      open s' = None /\
      exists n, last_no_window_us s = Some n /\ at_us <= n +|64| ANSWERED_BEFORE_US
  | Opened _ | Restamped =>
      exists o', open s' = Some o' /\ open_window o' = window /\ open_top_level o' = top_level /\
        open_stamp_us o' = at_us /\ open_awaits o' = AwaitsFocus /\ pending s' = true /\
        (outcome <> Restamped -> waiting_due_us s' = Some (at_us +|64| BOUND_US))
  end.
Proof.
  assert (Hopens : forall s0, reported s0 = reported s -> last_no_window_us s0 = last_no_window_us s ->
    open s0 = None ->
    let '(outcome, s') := copy_opens s0 window top_level at_us tr in
    match outcome with
    | Answered => exists r, reported s !! top_level = Some r /\ at_us <= r +|64| ANSWERED_BEFORE_US
    | ReadNow => open s' = None /\
        exists n, last_no_window_us s = Some n /\ at_us <= n +|64| ANSWERED_BEFORE_US
    | Opened _ | Restamped =>
        exists o', open s' = Some o' /\ open_window o' = window /\ open_top_level o' = top_level /\
          open_stamp_us o' = at_us /\ open_awaits o' = AwaitsFocus /\ pending s' = true /\
          (outcome <> Restamped -> waiting_due_us s' = Some (at_us +|64| BOUND_US))
    end).
  { intros s0 Hr Hl Hn. unfold copy_opens, answers. rewrite Hr Hl.
    destruct (reported s !! top_level) as [r|]; [destruct (N.leb_spec at_us (r +|64| ANSWERED_BEFORE_US)); [by exists r|]|];
    (destruct (last_no_window_us s) as [n|]; [destruct (N.leb_spec at_us (n +|64| ANSWERED_BEFORE_US)); [split; [done|by exists n]|]|]);
    cbn; eexists; split_and!; reflexivity || done. }
  unfold copy_dropped. destruct (open s) as [o|] eqn:E.
  - destruct (N.leb_spec at_us (open_stamp_us o)); [left; by exists o|].
    destruct (Z.eqb_spec (open_top_level o) top_level) as [<-|Ht].
    + destruct (bool_decide_reflect (open_bound o = BoundPassed)) as [Hb|Hb]; cbn.
      * rewrite Hb. cbn. eexists. split_and!; reflexivity || done.
      * rewrite bool_decide_true //. eexists. split_and!; try reflexivity; [|done].
        unfold pending. cbn. by rewrite bool_decide_true.
    + specialize (Hopens (with_open s None) eq_refl eq_refl eq_refl).
      destruct (copy_opens _ _ _ _ _) as [[] s']; try done. by right.
  - specialize (Hopens s eq_refl eq_refl E). destruct (copy_opens _ _ _ _ _) as [[] s']; try done.
    by right.
Qed.
