(* ===== verification/CaretWatch.v ===== *)
(** The caret key's watch: verbatim-outpost-logic's [watch.rs]. The outpost's
    open check for a key's evidence, in one of four states. The reducer gives
    each transition the clock; a program's copy gives none, its times left at
    zero. *)

From S2P Require Import Prelude Tree TextModel Facts Messages.

Definition CARET_WATCH_BOUND : Duration.t := Limits.HANDLING_DEADLINE.
Definition POLL_INTERVAL : Duration.t := Duration.from_millis 5.
Definition POLL_BOUND : Duration.t := Duration.from_millis 50.

Record OpenWatch := {
  watch_request_id : RequestId;
  watch_trace : TraceId;
  watch_node_id : NodeId;
  watch_watch : CaretWatch;
  watch_timing : EventTiming;
  watch_calls : CallCounts;
}.

Inductive Resume :=
  | ResumeBound (bound : N)
  | ResumePoll (next until : N)
  | ResumeRead (until : N).

Inductive Watch :=
  | NoWatch
  | WatchWaiting (open : OpenWatch) (bound : N)
  | WatchPolling (open : OpenWatch) (next until : N)
  | WatchChecking (open : OpenWatch) (resume : Resume).

Inductive Checked :=
  | CheckedAnswered (reply : TextReply) (calls : CallCounts) (awaited_at_us : N)
  | CheckedWatching (calls : CallCounts).

Inductive Answer :=
  | AnswerEnded (open : OpenWatch) (why : string)
  | AnswerEvidence (open : OpenWatch) (reply : TextReply) (calls : CallCounts) (awaited_at_us : N)
  | AnswerAbandoned (open : OpenWatch).

Inductive Reached := ReachedNothing | ReachedEnded (answer : Answer) | ReachedRead.

Definition Clock : Set := option N.

(** [micros]: the microseconds of a duration, as a [u64]. *)
Definition micros (d : Duration.t) : N := N.min U64_MAX (Duration.as_micros d).

(** [Watch::open]. *)
Definition watch_open (self : Watch) : option OpenWatch :=
  match self with
  | NoWatch => None
  | WatchWaiting open _ | WatchPolling open _ _ | WatchChecking open _ => Some open
  end.

(** [Watch::kept]. *)
Definition watch_kept (self : Watch) : option OpenWatch :=
  match self with
  | WatchWaiting open _ | WatchPolling open _ _ => Some open
  | NoWatch | WatchChecking _ _ => None
  end.

Definition watch_is_none (self : Watch) : bool :=
  match self with NoWatch => true | _ => false end.

Definition watch_due (self : Watch) : option N :=
  match self with
  | WatchWaiting _ bound => Some bound
  | WatchPolling _ next _ => Some next
  | NoWatch | WatchChecking _ _ => None
  end.

(** [pressed_at_ms.saturating_mul(1_000)]. *)
Definition pressed_us (open : OpenWatch) : N := N.min U64_MAX (pressed_at_ms (watch_watch open) * 1000).

Definition opened (self : Watch) (open : OpenWatch) (console : bool) (clock : Clock) : bool * Watch :=
  if negb (watch_is_none self) then (false, self)
  else
    (true,
     if console then
       let '(next, until) :=
         match clock with
         | None => (0, 0)
         | Some now =>
             let from := if pressed_us open =? 0 then now else pressed_us open in
             let until := from +|64| micros POLL_BOUND in
             (N.min (now +|64| micros POLL_INTERVAL) until, until)
         end in
       WatchPolling open next until
     else
       WatchWaiting open (match clock with
                          | None => 0
                          | Some now => now +|64| micros CARET_WATCH_BOUND
                          end)).

(** [Watch::take]. *)
Definition watch_take (self : Watch) (node : NodeId) : option OpenWatch * Watch :=
  match self with
  | WatchWaiting open bound =>
      if bool_decide (watch_node_id open = node)
      then (Some open, WatchChecking open (ResumeBound bound)) else (None, self)
  | WatchPolling open next until =>
      if bool_decide (watch_node_id open = node)
      then (Some open, WatchChecking open (ResumePoll next until)) else (None, self)
  | NoWatch | WatchChecking _ _ => (None, self)
  end.

Definition add_calls (open : OpenWatch) (calls : CallCounts) : OpenWatch := {|
  watch_request_id := watch_request_id open; watch_trace := watch_trace open;
  watch_node_id := watch_node_id open; watch_watch := watch_watch open;
  watch_timing := watch_timing open; watch_calls := Calls.add (watch_calls open) calls |}.

Definition POLL_ENDED : string := "its poll's bound passed".

Definition watch_checked (self : Watch) (checked : Checked) (clock : Clock)
    : option (option Answer) * Watch :=
  match self with
  | WatchChecking open resume =>
      match checked with
      | CheckedAnswered reply calls awaited_at_us =>
          (Some (Some (AnswerEvidence open reply calls awaited_at_us)), NoWatch)
      | CheckedWatching calls =>
          let open := add_calls open calls in
          match resume with
          | ResumeBound bound => (Some None, WatchWaiting open bound)
          | ResumePoll next until => (Some None, WatchPolling open next until)
          | ResumeRead until =>
              match clock with
              | Some now =>
                  if until <=? now then (Some (Some (AnswerEnded open POLL_ENDED)), NoWatch)
                  else (Some None,
                        WatchPolling open (N.min (now +|64| micros POLL_INTERVAL) until) until)
              | None => (Some None, WatchPolling open 0 until)
              end
          end
      end
  | NoWatch | WatchWaiting _ _ | WatchPolling _ _ _ => (None, self)
  end.

(** [Watch::end]. *)
Definition watch_end (self : Watch) (why : string) : option Answer * Watch :=
  (option_map (fun open => AnswerEnded open why) (watch_open self), NoWatch).

Definition end_kept (self : Watch) (why : string) : option Answer * Watch :=
  match watch_kept self with Some _ => watch_end self why | None => (None, self) end.

Definition BOUND_PASSED : string := "its bound passed".

Definition reach (self : Watch) (now_us : N) : Reached * Watch :=
  match self with
  | WatchWaiting open bound =>
      if bound <=? now_us
      then (ReachedEnded (AnswerEnded open BOUND_PASSED), NoWatch)
      else (ReachedNothing, self)
  | WatchPolling open next until =>
      if next <=? now_us then (ReachedRead, WatchChecking open (ResumeRead until))
      else (ReachedNothing, self)
  | NoWatch | WatchChecking _ _ => (ReachedNothing, self)
  end.

(** [Watch::abandoned]. *)
Definition watch_abandoned (self : Watch) : option Answer * Watch :=
  match self with
  | WatchChecking open _ => (Some (AnswerAbandoned open), NoWatch)
  | NoWatch | WatchWaiting _ _ | WatchPolling _ _ _ => (None, self)
  end.

Definition CHECK_FAILED : string := "its check failed".

Definition program_ended (self : Watch) : option Answer * Watch :=
  match self with
  | WatchChecking _ _ => watch_end self CHECK_FAILED
  | NoWatch | WatchWaiting _ _ | WatchPolling _ _ _ => (None, self)
  end.

(** ** Every watch opened is answered once *)

(** A transition of the watch, the reducer's or a program's. *)
Inductive Op :=
  | OpOpened (open : OpenWatch) (console : bool)
  | OpTake (node : NodeId)
  | OpChecked (checked : Checked)
  | OpEnd (why : string)
  | OpEndKept (why : string)
  | OpReach (now_us : N)
  | OpAbandoned
  | OpProgramEnded.

Definition answered_by (a : Answer) : RequestId :=
  match a with
  | AnswerEnded open _ | AnswerEvidence open _ _ _ | AnswerAbandoned open =>
      watch_request_id open
  end.

(** The watch after, and its answer if it is answered. *)
Definition exec (self : Watch) (clock : Clock) (op : Op) : option Answer * Watch :=
  match op with
  | OpOpened open console => (None, (opened self open console clock).2)
  | OpTake node => (None, (watch_take self node).2)
  | OpChecked checked => let '(a, w) := watch_checked self checked clock in (default None a, w)
  | OpEnd why => watch_end self why
  | OpEndKept why => end_kept self why
  | OpReach now_us =>
      let '(r, w) := reach self now_us in
      (match r with ReachedEnded a => Some a | _ => None end, w)
  | OpAbandoned => watch_abandoned self
  | OpProgramEnded => program_ended self
  end.

(** The request [op] opens a watch for, when it opens one. *)
Definition opens (self : Watch) (clock : Clock) (op : Op) : list RequestId :=
  match op with
  | OpOpened open console =>
      if (opened self open console clock).1 then [watch_request_id open] else []
  | _ => []
  end.

(** The requests watches were opened for and those answered, each in order, and
    the watch after the run. *)
Fixpoint run (self : Watch) (ops : list (Clock * Op)) : list RequestId * list RequestId * Watch :=
  match ops with
  | [] => ([], [], self)
  | (clock, op) :: rest =>
      let '(a, w) := exec self clock op in
      let '(o, r, w') := run w rest in
      (opens self clock op ++ o, option_list (option_map answered_by a) ++ r, w')
  end.

Definition waits_for (self : Watch) : list RequestId :=
  option_list (option_map watch_request_id (watch_open self)).

Lemma exec_answers self clock op :
  let '(a, w) := exec self clock op in
  waits_for self ++ opens self clock op = option_list (option_map answered_by a) ++ waits_for w.
Proof.
  destruct op, self; cbn; try done; repeat case_match; simplify_eq/=; try done.
Qed.

(** Every watch a caret key opens is answered exactly once and in the order
    opened, whatever transitions come in whatever order: the requests answered
    are those opened, but for the one still watched. *)
Theorem watch_answered_once (self : Watch) (ops : list (Clock * Op)) :
  let '(opened_, answered, w) := run self ops in
  waits_for self ++ opened_ = answered ++ waits_for w.
Proof.
  revert self. induction ops as [|[clock op] ops IH]; intros self; cbn [run].
  - by rewrite app_nil_r.
  - pose proof (exec_answers self clock op) as H. destruct (exec self clock op) as [a w].
    specialize (IH w). destruct (run w ops) as [[o r] w'].
    by rewrite app_assoc H -app_assoc IH app_assoc.
Qed.

(** ** The poll keeps to its bound *)

(** The times of a watch the reducer keeps: a poll's next read is no later than
    its last, and both at most the bound past the later of the key's press and
    the watch's opening. *)
Definition poll_ok (limit : N) (self : Watch) : Prop :=
  match self with
  | WatchPolling _ next until => next <= until /\ until <= limit
  | WatchChecking _ (ResumePoll next until) => next <= until /\ until <= limit
  | WatchChecking _ (ResumeRead until) => until <= limit
  | _ => True
  end.

Lemma poll_ok_exec limit self now op :
  (forall open console, op = OpOpened open console ->
     N.max now (pressed_us open) +|64| micros POLL_BOUND <= limit) ->
  poll_ok limit self -> poll_ok limit (exec self (Some now) op).2.
Proof.
  intros Hl H. destruct op as [o c|n|ck|w|w|t| |].
  - specialize (Hl o c eq_refl). destruct self; cbn in *; try done.
    destruct c; cbn; [|done]. destruct (pressed_us o =? 0); unfold saturating_add in *; lia.
  - destruct self; cbn in *; repeat case_match; simplify_eq/=; done.
  - destruct self as [| | |o r]; cbn in *; try done. destruct ck; cbn; [done|].
    destruct r; cbn in *; try done. destruct (until <=? now); cbn; [done|]. lia.
  - by destruct self.
  - by destruct self.
  - destruct self; cbn in *; repeat case_match; simplify_eq/=; try done. lia.
  - by destruct self.
  - by destruct self.
Qed.

(** The console poll never outlives its bound: over any run of a watch opened
    polling, on a clock that may move anyhow, every read still to come is due
    no later than the poll's bound past the key's press or the opening,
    whichever is later, and a poll read whose check comes back past its last
    read ends the watch. *)
Theorem poll_stays_in_bound (open : OpenWatch) (start : N) (ops : list (N * Op)) :
  let limit := N.max start (pressed_us open) +|64| micros POLL_BOUND in
  Forall (fun p => match p.2 with OpOpened _ _ => False | _ => True end) ops ->
  let w := (run (opened NoWatch open true (Some start)).2
              (map (fun p => (Some p.1, p.2)) ops)).2 in
  poll_ok limit w /\
  (forall o next until, w = WatchPolling o next until -> next <= limit) /\
  (forall o until calls now, w = WatchChecking o (ResumeRead until) -> limit <= now ->
     (watch_checked w (CheckedWatching calls) (Some now)).2 = NoWatch).
Proof.
  intros limit Hops. cbv zeta.
  assert (poll_ok limit (opened NoWatch open true (Some start)).2) as H0.
  { unfold limit. cbn. destruct (pressed_us open =? 0); unfold saturating_add; lia. }
  assert (poll_ok limit (run (opened NoWatch open true (Some start)).2
              (map (fun p => (Some p.1, p.2)) ops)).2) as H.
  { revert H0. generalize (opened NoWatch open true (Some start)).2.
    induction Hops as [|[now op] ops Hop _ IH]; intros w Hw; [done|]. cbn [map run fst snd].
    pose proof (poll_ok_exec limit w now op) as Hstep.
    destruct (exec w (Some now) op) as [a w']. cbn [snd] in Hstep. specialize (IH w').
    destruct (run w' _) as [[o r] w'']. cbn [snd] in *. apply IH, Hstep; [|done].
    intros o' c ->. by cbn in Hop. }
  split; [done|]. split.
  - intros o next until E. rewrite E in H. cbn in H. lia.
  - intros o until calls now E Hn. rewrite E in H |- *. cbn in H |- *.
    destruct (N.leb_spec until now); [done|lia].
Qed.

Definition sample_watch (request pressed_ms : N) : OpenWatch := {|
  watch_request_id := {| asker := AskerShell; request_number := request |};
  watch_trace := {| trace_number := 1 |}; watch_node_id := NodeIds.new 1;
  watch_watch := {| since := None; pressed_at_ms := pressed_ms; watch_unit := UnitCharacter;
                    compare_with := None; landing := false; deletes := false |};
  watch_timing := EventTiming_default; watch_calls := Calls.none |}.

Lemma poll_stays_in_bound_witness :
  let w := (run (opened NoWatch (sample_watch 7 1000) true (Some 1003000)).2
              [(Some 1008000, OpReach 1008000); (Some 1009000, OpChecked (CheckedWatching Calls.none))]).2 in
  w = WatchPolling (sample_watch 7 1000) 1014000 1050000 /\ 1014000 <= 1053000.
Proof.
  cbv zeta. split; [vm_compute; reflexivity|].
  destruct (poll_stays_in_bound (sample_watch 7 1000) 1003000
    [(1008000, OpReach 1008000); (1009000, OpChecked (CheckedWatching Calls.none))]) as (_ & H & _).
  - repeat constructor.
  - apply (H (sample_watch 7 1000) 1014000 1050000). vm_compute. reflexivity.
Defined.
