(* ===== verification/HeldReports.v ===== *)
(** The outpost's reports whose focus node it has not released:
    verbatim-outpost-logic's [held.rs]. What the outpost reads changes for, one
    report per focus node and line, and the states last read of a focus. *)

From S2P Require Import Prelude Tree FocusRules Facts InFlight.

Inductive InFront := InFrontForeground (window : option Window) | InFrontRead (window : option Window).

Record Focus := {
  focus_node : HeldNode;
  focus_ancestors : list HeldNode;
  focus_top_level : option Window;
  in_front : InFront;
  entered_in_front : option Window;
  focus_event : option (Z * Z * Z);
  simple_child : bool;
  dialog_texts : list (NodeId * option string);
}.

(** [Focus::chain_ids]. *)
Definition chain_ids (self : Focus) : list NodeId :=
  map held_id (focus_ancestors self ++ [focus_node self]).

(** [Focus::node]. *)
Definition chain_node (self : Focus) (node : NodeId) : option HeldNode :=
  Prelude.find (fun held => bool_decide (held_id held = node)) (focus_node self :: focus_ancestors self).

Definition same_line (self other : Focus) : bool :=
  bool_decide (held_id (focus_node self) = held_id (focus_node other)) &&
  bool_decide (chain_ids self = chain_ids other).

Inductive Evidence := EvidenceUia (earlier : option EarlierElement) | EvidenceMsaa.

Record Held := { reports : list Focus; states_read : option (NodeId * StateSet.t) }.

Definition Held_default : Held := {| reports := []; states_read := None |}.

(** [Held::expected]: the newest report. *)
Definition expected (self : Held) : option Focus := List.last (map Some (reports self)) None.

Definition repeats_newest (self : Held) (focus : Focus) (evidence : Evidence) : bool :=
  match expected self with
  | None => false
  | Some newest =>
      bool_decide (held_id (focus_node newest) = held_id (focus_node focus)) &&
      match evidence with
      | EvidenceUia earlier =>
          match earlier with None | Some EarlierFocused => true | _ => false end
      | EvidenceMsaa =>
          bool_decide (is_Some (focus_event focus)) &&
          bool_decide (focus_event newest = focus_event focus) && negb (simple_child focus)
      end
  end.

Definition newest_in (self : Held) (top_level : option Window) : option Focus :=
  match top_level with
  | None => None
  | Some top => Prelude.find (fun report => bool_decide (focus_top_level report = Some top))
                  (rev (reports self))
  end.

(** [Held::entered_in_front]. *)
Definition decide_in_front (self : Held) (focus : Focus) : option Window :=
  match in_front focus with
  | InFrontForeground window => window
  | InFrontRead read =>
      match newest_in self (focus_top_level focus) with
      | Some before => entered_in_front before
      | None => read
      end
  end.

Definition with_in_front (focus : Focus) (window : option Window) : Focus := {|
  focus_node := focus_node focus; focus_ancestors := focus_ancestors focus;
  focus_top_level := focus_top_level focus; in_front := in_front focus;
  entered_in_front := window; focus_event := focus_event focus;
  simple_child := simple_child focus; dialog_texts := dialog_texts focus |}.

(** [Held::reported]. *)
Definition report_focus (self : Held) (focus : Focus) (evidence : Evidence) : Held :=
  let focus := with_in_front focus (decide_in_front self focus) in
  {| reports := List.filter (fun report => negb (same_line report focus)) (reports self) ++ [focus];
     states_read := if repeats_newest self focus evidence then states_read self
                    else Some (held_id (focus_node focus), held_states (focus_node focus)) |}.

(** [Held::release]. *)
Definition release_reports (self : Held) (released : gset N) : Held := {|
  reports := List.filter
               (fun report => negb (bool_decide (Tree.number (held_id (focus_node report)) ∈ released)))
               (reports self);
  states_read := match states_read self with
                 | Some (node, _) =>
                     if bool_decide (Tree.number node ∈ released) then None else states_read self
                 | None => None
                 end |}.

Definition is_a_focus (self : Held) (node : NodeId) : bool :=
  existsb (fun focus => bool_decide (held_id (focus_node focus) = node)) (reports self).

Definition role_of (self : Held) (node : NodeId) : option Role :=
  option_map held_role (find_map (fun focus => chain_node focus node) (rev (reports self))).

Definition dialog_text (self : Held) (node : NodeId) : option (option string) :=
  find_map (fun focus =>
    option_map snd (Prelude.find (fun d => bool_decide (d.1 = node)) (dialog_texts focus)))
    (rev (reports self)).

(** [Held::role_states]. *)
Definition reported_states (self : Held) (node : NodeId) : option StateSet.t :=
  option_map (fun focus => held_states (focus_node focus))
    (Prelude.find (fun focus => bool_decide (held_id (focus_node focus) = node)) (rev (reports self))).

Definition expanded_before (self : Held) (node : NodeId) : option bool :=
  if negb (is_a_focus self node) then None
  else
    before ← match states_read self with
             | Some (read, before) => if bool_decide (read = node) then Some before
                                      else reported_states self node
             | None => reported_states self node
             end;
    Some (StateSet.contains before Expanded).

Definition replace_states (self : Held) (node : NodeId) (states : StateSet.t)
    : option bool * Held :=
  match expanded_before self node with
  | None => (None, self)
  | Some before => (Some before, {| reports := reports self; states_read := Some (node, states) |})
  end.

(** ** What is held *)

Inductive Op :=
  | OpReported (focus : Focus) (evidence : Evidence)
  | OpRelease (released : gset N)
  | OpStates (node : NodeId) (states : StateSet.t).

Definition exec (self : Held) (op : Op) : Held :=
  match op with
  | OpReported focus evidence => report_focus self focus evidence
  | OpRelease released => release_reports self released
  | OpStates node states => (replace_states self node states).2
  end.

Definition run (ops : list Op) : Held := fold_left exec ops Held_default.

(** The lines of the reports made whose focus was not released since, the
    newest report of a line last. *)
Definition lines_exec (ls : list (list NodeId)) (op : Op) : list (list NodeId) :=
  match op with
  | OpReported focus _ =>
      List.filter (fun l => negb (bool_decide (l = chain_ids focus))) ls ++ [chain_ids focus]
  | OpRelease released =>
      List.filter (fun l => match List.last (map Some l) None with
                            | Some node => negb (bool_decide (Tree.number node ∈ released))
                            | None => true
                            end) ls
  | OpStates _ _ => ls
  end.

Lemma last_chain focus : List.last (map Some (chain_ids focus)) None = Some (held_id (focus_node focus)).
Proof. unfold chain_ids. rewrite !map_app. cbn. by rewrite last_last. Qed.

Lemma same_line_chain a b : same_line a b = bool_decide (chain_ids a = chain_ids b).
Proof.
  unfold same_line. destruct (bool_decide_reflect (chain_ids a = chain_ids b)) as [H|H];
    [|by rewrite andb_false_r].
  rewrite andb_true_r. apply bool_decide_eq_true.
  pose proof (last_chain a) as Ha. rewrite H last_chain in Ha. congruence.
Qed.

Lemma filter_map_comm {A B} (f : A -> B) (P : B -> bool) (g : A -> bool) l :
  (forall x, g x = P (f x)) -> map f (List.filter g l) = List.filter P (map f l).
Proof.
  intros H. induction l as [|x l IH]; [done|]. cbn. rewrite H -IH. by destruct (P (f x)).
Qed.

(** The reports held are exactly those made and not released: over any run,
    their lines, in order, are the lines reported whose focus node was not
    released after its newest report, each line once at its newest place; so a
    node is a focus of the reports exactly when it is the focus of such a
    line. *)
Theorem held_reports_exact (ops : list Op) :
  map chain_ids (reports (run ops)) = fold_left lines_exec ops [] /\
  NoDup (map chain_ids (reports (run ops))).
Proof.
  unfold run. assert (forall ops h ls, map chain_ids (reports h) = ls -> NoDup ls ->
    map chain_ids (reports (fold_left exec ops h)) = fold_left lines_exec ops ls /\
    NoDup (fold_left lines_exec ops ls)) as H.
  { clear. induction ops as [|op ops IH]; intros h ls Hl Hn; [done|]. cbn [fold_left]. apply IH.
    - destruct op as [focus ev|released|node states]; cbn [exec lines_exec].
      + cbn [reports report_focus]. rewrite map_app -Hl. f_equal.
        apply filter_map_comm. intros x. by rewrite same_line_chain.
      + rewrite -Hl. apply filter_map_comm. intros x. by rewrite last_chain.
      + unfold replace_states. by destruct (expanded_before h node).
    - destruct op as [focus ev|released|node states]; cbn [lines_exec].
      + apply NoDup_app. split_and!; [| |apply NoDup_singleton].
        * apply NoDup_ListNoDup, List.NoDup_filter, NoDup_ListNoDup, Hn.
        * intros l Hin ->%list_elem_of_singleton. apply list_elem_of_In, filter_In in Hin as [_ Hin].
          by rewrite bool_decide_true in Hin.
      + apply NoDup_ListNoDup, List.NoDup_filter, NoDup_ListNoDup, Hn.
      + done. }
  destruct (H ops Held_default [] eq_refl (NoDup_nil_2)) as [-> Hn]. done.
Qed.

(** The newest report decides what a node was reported as, and the window a
    focus entered in front is kept while the focus stays in it: a report that
    is no foreground change, of the top-level window the newest report in it
    had, has that report's verdict, whatever was read of the window since. *)
Theorem entered_in_front_kept (self : Held) (focus before : Focus) (evidence : Evidence)
    (read : option Window) (top : Window) :
  in_front focus = InFrontRead read -> focus_top_level focus = Some top ->
  newest_in self (Some top) = Some before ->
  option_map entered_in_front (newest_in (report_focus self focus evidence) (Some top)) =
    Some (entered_in_front before) /\
  expected (report_focus self focus evidence) =
    Some (with_in_front focus (entered_in_front before)).
Proof.
  intros Hf Ht Hb.
  assert (decide_in_front self focus = entered_in_front before) as Hd.
  { unfold decide_in_front. by rewrite Hf Ht Hb. }
  unfold report_focus. rewrite Hd. split.
  - cbn [newest_in reports]. rewrite rev_app_distr. cbn [rev app Prelude.find].
    cbn [focus_top_level with_in_front]. by rewrite Ht bool_decide_true.
  - unfold expected. cbn [reports]. rewrite map_app. cbn. by rewrite last_last.
Qed.

Definition sample_report (node : N) (front : InFront) : Focus := {|
  focus_node := {| held_id := NodeIds.new node; held_backend := Msaa; held_role := RoleButton;
                   held_name := None; held_states := StateSet.new; held_window := None |};
  focus_ancestors := []; focus_top_level := Window.new 7; in_front := front;
  entered_in_front := None; focus_event := None; simple_child := false; dialog_texts := [] |}.

(** A window entered in front, and left behind by the time of the next focus
    inside it. *)
Lemma entered_in_front_kept_witness :
  let held := report_focus Held_default (sample_report 1 (InFrontForeground (Window.new 7))) EvidenceMsaa in
  option_map entered_in_front
    (newest_in (report_focus held (sample_report 2 (InFrontRead None)) EvidenceMsaa) (Window.new 7)) =
  Some (Window.new 7).
Proof.
  cbv zeta.
  destruct (entered_in_front_kept
    (report_focus Held_default (sample_report 1 (InFrontForeground (Window.new 7))) EvidenceMsaa)
    (sample_report 2 (InFrontRead None)) _ EvidenceMsaa None {| Window.handle := 7 |}
    eq_refl eq_refl eq_refl) as [H _].
  exact H.
Defined.
