(* ===== verification/TextFacts.v ===== *)
(** Text support per node as the reducer remembers it: verbatim-outpost-logic's
    [text.rs]. Anchors with their chunks' text, the positions reported, the
    carets reported, and the selection the next report compares with. A
    position is an edit control's offset or the key of a UIA range the store
    keeps; the changes return the ranges no fact names any more. *)

From S2P Require Import Prelude Tree TextModel.

Definition RangeKey : Set := N.

Section positions.
Context {P : Type}.

Record Anchor := { anchor_pos : P; anchor_text : string }.

Record CaretSeen := {
  seen_read_at_ms : N;
  seen_caret : TextPosition;
  seen_selection : option (P * P);
  seen_report : N;
}.

Record KeptSelection := {
  ends : P * P;
  collapsed : bool;
  kept_text : option (list N);
  kept_report : N;
}.

Record NodeAnchors := {
  anchors : gmap N Anchor;
  reported : gmap (N * N) P;
  carets : list CaretSeen;
  report_count : N;
  kept_selection : option KeptSelection;
  content_changed : bool;
}.

Definition NodeAnchors_default : NodeAnchors := {|
  anchors := ∅; reported := ∅; carets := []; report_count := 0; kept_selection := None;
  content_changed := false |}.

(** One anchor's part of the copy: nothing when it was copied before. *)
Definition copy_anchor (self : NodeAnchors)
    (acc : gmap N Anchor * gmap (N * N) P * gset N) (number : N)
    : gmap N Anchor * gmap (N * N) P * gset N :=
  let '(part_anchors, part_reported, copied) := acc in
  if bool_decide (number ∈ copied) then acc
  else
    (match anchors self !! number with
     | Some anchor => <[number := anchor]> part_anchors
     | None => part_anchors
     end,
     filter (fun p => p.1.1 = number) (reported self) ∪ part_reported,
     {[number]} ∪ copied).

(** [NodeAnchors::part]. *)
Definition part (self : NodeAnchors) (named : list N) : NodeAnchors * gset N :=
  let numbers := named ++ map (fun seen => anchor_number (anchor (seen_caret seen))) (carets self) in
  let '(part_anchors, part_reported, copied) :=
    fold_left (copy_anchor self) numbers (∅, ∅, ∅) in
  ({| anchors := part_anchors; reported := part_reported; carets := carets self;
      report_count := report_count self; kept_selection := kept_selection self;
      content_changed := content_changed self |}, copied).

(** [NodeAnchors::positions]. *)
Definition positions (self : NodeAnchors) : list P :=
  map (fun p => anchor_pos p.2) (map_to_list (anchors self)) ++
  map snd (map_to_list (reported self)) ++
  flat_map (fun seen => match seen_selection seen with
                        | Some (start, end_) => [start; end_]
                        | None => []
                        end) (carets self) ++
  match kept_selection self with Some s => [(ends s).1; (ends s).2] | None => [] end.

(** Whether what the copy [copied] holds of anchor [number] is taken in: an
    anchor forgotten since stays forgotten. *)
Definition takes_in (self : NodeAnchors) (copied : gset N) (number : N) : bool :=
  negb (bool_decide (number ∈ copied)) || bool_decide (is_Some (anchors self !! number)).

(** [NodeAnchors::put]. The anchors go in first, and each reported position is
    judged by the anchors then kept. *)
Definition put (self : NodeAnchors) (part : NodeAnchors) (copied : gset N) : NodeAnchors :=
  let put_anchors := filter (fun p => takes_in self copied p.1 = true) (anchors part) ∪ anchors self in
  let with_anchors := {|
    anchors := put_anchors; reported := reported self; carets := carets self;
    report_count := report_count self; kept_selection := kept_selection self;
    content_changed := content_changed self |} in
  {| anchors := put_anchors;
     reported := filter (fun p => takes_in with_anchors copied p.1.1 = true) (reported part)
                   ∪ reported self;
     carets := carets part; report_count := report_count part;
     kept_selection := kept_selection part; content_changed := content_changed part |}.

Definition forget_anchors (self : NodeAnchors) (forgotten : gset N) : NodeAnchors := {|
  anchors := filter (fun p => p.1 ∉ forgotten) (anchors self);
  reported := filter (fun p => p.1.1 ∉ forgotten) (reported self);
  carets := carets self; report_count := report_count self;
  kept_selection := kept_selection self; content_changed := content_changed self |}.

Definition forget_selection (self : NodeAnchors) : NodeAnchors := {|
  anchors := anchors self; reported := reported self; carets := carets self;
  report_count := report_count self; kept_selection := None;
  content_changed := content_changed self |}.

Definition set_content_changed (self : NodeAnchors) (changed : bool) : NodeAnchors := {|
  anchors := anchors self; reported := reported self; carets := carets self;
  report_count := report_count self; kept_selection := kept_selection self;
  content_changed := changed |}.

End positions.

Arguments Anchor : clear implicits.
Arguments CaretSeen : clear implicits.
Arguments KeptSelection : clear implicits.
Arguments NodeAnchors : clear implicits.

(** [KeptSelection::map]. *)
Definition map_selection {P Q} (end_ : P -> Q) (self : KeptSelection P) : KeptSelection Q := {|
  ends := (end_ (ends self).1, end_ (ends self).2); collapsed := collapsed self;
  kept_text := kept_text self; kept_report := kept_report self |}.

(** [NodeAnchors::filter_map]. *)
Definition filter_map {P Q} (position : P -> option Q) (self : NodeAnchors P) : NodeAnchors Q :=
  let both (p : P * P) : option (Q * Q) :=
    start ← position p.1; end_ ← position p.2; Some (start, end_) in
  {| anchors := omap (fun anchor => option_map (fun pos =>
                  {| anchor_pos := pos; anchor_text := anchor_text anchor |})
                  (position (anchor_pos anchor))) (anchors self);
     reported := omap position (reported self);
     carets := omap (fun seen =>
       match seen_selection seen with
       | Some selection =>
           option_map (fun s => {| seen_read_at_ms := seen_read_at_ms seen;
             seen_caret := seen_caret seen; seen_selection := Some s;
             seen_report := seen_report seen |}) (both selection)
       | None => Some {| seen_read_at_ms := seen_read_at_ms seen; seen_caret := seen_caret seen;
                         seen_selection := None; seen_report := seen_report seen |}
       end) (carets self);
     report_count := report_count self;
     kept_selection := kept_selection self ≫= fun s =>
       option_map (fun e => {| ends := e; collapsed := collapsed s; kept_text := kept_text s;
                               kept_report := kept_report s |}) (both (ends s));
     content_changed := content_changed self |}.

(** ** Cut reads *)

Record CutLine (P : Type) := {
  cut_start : P;
  cut_end : P;
  cut_text : list N;
  cut_truncated : bool;
  cut_offset : N;
}.

Record ReportCut (P : Type) := {
  report_caret : P;
  report_cut_selection : option (P * P);
  report_moved : bool;
  report_read_at_ms : N;
  report_last : KeptSelection P;
}.

Record AnswerCut (P : Type) := {
  answer_caret : P;
  answer_selection : option (P * P);
  answer_read_at_ms : N;
  answer_line : option (CutLine P);
  answer_unit : TextUnit;
  answer_same_line : option bool;
  answer_compared : KeptSelection P;
}.

(** ** Changes *)

Inductive TextChange :=
  | ChangeUia (node : N) (part : NodeAnchors RangeKey) (copied : gset N)
  | ChangeEdit (node : N) (part : NodeAnchors N) (copied : gset N)
  | ForgetSelection (node : N) (uia : bool)
  | ContentChanged (node : N)
  | ContentCounted (node : N)
  | ForgetText (node : N).

(** [TextChange::node]. *)
Definition change_node (self : TextChange) : N :=
  match self with
  | ChangeUia node _ _ | ChangeEdit node _ _ | ForgetSelection node _ | ContentChanged node
  | ContentCounted node | ForgetText node => node
  end.

Definition adds (self : TextChange) : bool :=
  match self with
  | ChangeUia _ _ _ | ChangeEdit _ _ _ | ContentChanged _ => true
  | ForgetSelection _ _ | ContentCounted _ | ForgetText _ => false
  end.

Record TextFacts := { uia_texts : gmap N (NodeAnchors RangeKey); edit_texts : gmap N (NodeAnchors N) }.

Definition TextFacts_default : TextFacts := {| uia_texts := ∅; edit_texts := ∅ |}.

(** [keys]. *)
Definition range_keys (a : option (NodeAnchors RangeKey)) : gset RangeKey :=
  match a with Some a => list_to_set (positions a) | None => ∅ end.

(** The facts after a change, but for the ranges returned. *)
Definition change_text (self : TextFacts) (change : TextChange) : TextFacts :=
  match change with
  | ChangeUia node part copied =>
      {| uia_texts := <[node := put (default NodeAnchors_default (uia_texts self !! node)) part copied]>
                        (uia_texts self);
         edit_texts := edit_texts self |}
  | ChangeEdit node part copied =>
      {| uia_texts := uia_texts self;
         edit_texts := <[node := put (default NodeAnchors_default (edit_texts self !! node)) part copied]>
                         (edit_texts self) |}
  | ForgetSelection node true =>
      {| uia_texts := alter forget_selection node (uia_texts self); edit_texts := edit_texts self |}
  | ForgetSelection node false =>
      {| uia_texts := uia_texts self; edit_texts := alter forget_selection node (edit_texts self) |}
  | ContentChanged node =>
      {| uia_texts := uia_texts self;
         edit_texts := <[node := set_content_changed
                                   (default NodeAnchors_default (edit_texts self !! node)) true]>
                         (edit_texts self) |}
  | ContentCounted node =>
      {| uia_texts := uia_texts self;
         edit_texts := alter (fun a => if content_changed a && bool_decide (is_Some (kept_selection a))
                                       then set_content_changed a false else a) node (edit_texts self) |}
  | ForgetText node =>
      {| uia_texts := delete node (uia_texts self); edit_texts := delete node (edit_texts self) |}
  end.

(** [TextFacts::apply]: the ranges let go of, and the facts after. *)
Definition apply_text (self : TextFacts) (change : TextChange) : gset (N * RangeKey) * TextFacts :=
  let node := change_node change in
  let before := range_keys (uia_texts self !! node) in
  let named := match change with
               | ChangeUia _ part _ => before ∪ list_to_set (positions part)
               | _ => before
               end in
  let after := change_text self change in
  (set_map (fun key => (node, key)) (named ∖ range_keys (uia_texts after !! node)), after).

(** [TextFacts::release]. *)
Definition release_text (self : TextFacts) (nodes released : gset N)
    : gset (N * RangeKey) * TextFacts :=
  let kept_uia := filter (fun p => p.1 ∉ nodes) (uia_texts self) in
  let kept_edit := filter (fun p => p.1 ∉ nodes) (edit_texts self) in
  if bool_decide (released = ∅) then (∅, {| uia_texts := kept_uia; edit_texts := kept_edit |})
  else
    let forget {P} (a : NodeAnchors P) : NodeAnchors P :=
      if bool_decide (Exists (fun p => p.1 ∈ released) (map_to_list (anchors a)))
      then forget_anchors a released else a in
    let uia := forget <$> kept_uia in
    (⋃ map (fun p => set_map (fun key => (p.1, key))
                       (range_keys (Some p.2) ∖ range_keys (uia !! p.1)))
         (map_to_list kept_uia),
     {| uia_texts := uia; edit_texts := (fun a => forget a) <$> kept_edit |}).

(** ** A text call's copy *)

Section copies.
Context {P : Type}.
Implicit Types s p : NodeAnchors P.

Lemma copy_loop s numbers acc :
  let '(pa, pr, copied) := fold_left (copy_anchor s) numbers acc in
  (acc.1.1 ⊆ anchors s -> pa ⊆ anchors s) /\ (acc.1.2 ⊆ reported s -> pr ⊆ reported s) /\
  (forall n, n ∈ copied <-> n ∈ acc.2 \/ n ∈ numbers) /\
  ((forall n a, n ∈ acc.2 -> anchors s !! n = Some a -> acc.1.1 !! n = Some a) ->
   forall n a, n ∈ copied -> anchors s !! n = Some a -> pa !! n = Some a) /\
  ((forall n k x, n ∈ acc.2 -> reported s !! (n, k) = Some x -> acc.1.2 !! (n, k) = Some x) ->
   forall n k x, n ∈ copied -> reported s !! (n, k) = Some x -> pr !! (n, k) = Some x).
Proof.
  revert acc. induction numbers as [|number numbers IH]; intros [[pa pr] copied]; cbn [fold_left].
  { cbn. split_and!; try done. intros n. rewrite elem_of_nil. tauto. }
  specialize (IH (copy_anchor s (pa, pr, copied) number)).
  destruct (fold_left _ numbers _) as [[pa' pr'] copied'].
  destruct IH as (I1 & I2 & I3 & I4 & I5). cbn [fst snd]. revert I1 I2 I3 I4 I5.
  unfold copy_anchor. case_bool_decide as Hin; cbn [fst snd]; intros I1 I2 I3 I4 I5.
  - split_and!; try done. intros n. rewrite I3 elem_of_cons. split; [tauto|].
    intros [?|[->|?]]; tauto.
  - split_and!.
    + intros H. apply I1. destruct (anchors s !! number) eqn:E; [|done].
      by apply insert_subseteq_l.
    + intros H. apply I2. apply map_union_least; [apply map_filter_subseteq|done].
    + intros n. rewrite I3 elem_of_cons elem_of_union elem_of_singleton. tauto.
    + intros H. apply I4. intros n a [->%elem_of_singleton|Hn]%elem_of_union Ha.
      * rewrite Ha. by rewrite lookup_insert_eq.
      * destruct (anchors s !! number) eqn:E; [|by apply H].
        destruct (decide (n = number)) as [->|]; [rewrite lookup_insert_eq; congruence|].
        rewrite lookup_insert_ne //. by apply H.
    + intros H. apply I5. intros n k x [->%elem_of_singleton|Hn]%elem_of_union Hx.
      * apply lookup_union_Some_l. by apply map_lookup_filter_Some.
      * destruct (decide (n = number)) as [->|Hne].
        -- apply lookup_union_Some_l. by apply map_lookup_filter_Some.
        -- rewrite lookup_union_r; [by apply H|]. apply map_lookup_filter_None. right.
           intros y _. cbn. done.
Qed.

(** What a copy of the anchors [named] holds. *)
Lemma part_spec s named :
  let '(p, copied) := part s named in
  anchors p ⊆ anchors s /\ reported p ⊆ reported s /\
  (forall n, n ∈ copied <-> n ∈ named \/ exists seen, seen ∈ carets s /\
     n = anchor_number (anchor (seen_caret seen))) /\
  (forall n a, n ∈ copied -> anchors s !! n = Some a -> anchors p !! n = Some a) /\
  (forall n k x, n ∈ copied -> reported s !! (n, k) = Some x -> reported p !! (n, k) = Some x) /\
  carets p = carets s /\ report_count p = report_count s /\
  kept_selection p = kept_selection s /\ content_changed p = content_changed s.
Proof.
  unfold part. set (numbers := named ++ _). pose proof (copy_loop s numbers (∅, ∅, ∅)) as H.
  destruct (fold_left _ numbers _) as [[pa pr] copied]. cbn [fst snd anchors reported] in *.
  destruct H as (H1 & H2 & H3 & H4 & H5). split_and!; try done.
  - apply H1, map_empty_subseteq.
  - apply H2, map_empty_subseteq.
  - intros n. rewrite H3 /numbers elem_of_app list_elem_of_fmap. split.
    + intros [?%elem_of_empty|[?|(seen & -> & ?)]]; [done|by left|]. right. by exists seen.
    + intros [?|(seen & ? & ->)]; right; [by left|]. right. by exists seen.
  - apply H4. intros n a []%elem_of_empty.
  - apply H5. intros n k x []%elem_of_empty.
Qed.

(** Putting back a text call's copy it did not change changes nothing, whatever
    anchors the call named. *)
Theorem text_part_put_roundtrip s named : put s (part s named).1 (part s named).2 = s.
Proof.
  pose proof (part_spec s named) as H. destruct (part s named) as [p copied]. cbn [fst snd].
  destruct H as (Ha & Hr & _ & _ & _ & Hc & Hn & Hs & Hcc).
  unfold put. rewrite Hc Hn Hs Hcc. destruct s as [sa sr sc sn ss sb]. cbn in *.
  f_equal; (apply map_subseteq_union; etrans; [apply map_filter_subseteq|done]).
Qed.

(** An anchor forgotten while a text call ran stays forgotten when the call's
    copy is put back, with every position reported in its chunk, whatever the
    call did to its copy; an anchor the call minted is taken in, with the
    positions it reported there; and anchors the call had no copy of are left
    as they are. *)
Theorem text_put_keeps_forgotten s named p (forgotten : gset N) n :
  let copied := (part s named).2 in
  let after := put (forget_anchors s forgotten) p copied in
  (n ∈ copied -> n ∈ forgotten ->
   anchors after !! n = None /\ forall k, reported after !! (n, k) = None) /\
  (n ∉ copied -> forall a, anchors p !! n = Some a ->
   anchors after !! n = Some a /\
   forall k x, reported p !! (n, k) = Some x -> reported after !! (n, k) = Some x) /\
  (n ∉ forgotten -> anchors p !! n = None -> anchors after !! n = anchors s !! n).
Proof.
  intros copied after.
  assert (Ha : n ∈ copied -> n ∈ forgotten -> anchors after !! n = None).
  { intros Hc Hf. cbn. apply lookup_union_None. split.
    - apply map_lookup_filter_None. right. intros a _. cbn. unfold takes_in.
      rewrite bool_decide_true //. cbn. rewrite bool_decide_false //.
      intros [a' Ha']. apply map_lookup_filter_Some in Ha' as [_ Hx]. done.
    - apply map_lookup_filter_None. right. intros a _. cbn. auto. }
  split; [|split].
  - intros Hc Hf. split; [auto|]. intros k. cbn. apply lookup_union_None. split.
    + apply map_lookup_filter_None. right. intros x _. cbn. unfold takes_in.
      rewrite bool_decide_true //. cbn [negb orb]. rewrite bool_decide_false //.
      specialize (Ha Hc Hf). cbn in Ha. cbn. rewrite Ha. by intros [].
    + apply map_lookup_filter_None. right. intros x _. cbn. auto.
  - intros Hc a Hp. split.
    + cbn. apply lookup_union_Some_l, map_lookup_filter_Some. split; [done|].
      unfold takes_in. by rewrite bool_decide_false.
    + intros k x Hx. cbn. apply lookup_union_Some_l, map_lookup_filter_Some. split; [done|].
      unfold takes_in. cbn. by rewrite bool_decide_false.
  - intros Hf Hp. cbn. rewrite lookup_union_r.
    + destruct (anchors s !! n) as [a|] eqn:E.
      * apply map_lookup_filter_Some. done.
      * apply map_lookup_filter_None. by left.
    + apply map_lookup_filter_None. by left.
Qed.

End copies.

(** Anchor 4 is forgotten while a call that named it mints anchor 5. *)
Lemma text_put_keeps_forgotten_witness :
  let s := {| anchors := {[4 := {| anchor_pos := 9; anchor_text := "a" |}]}; reported := ∅;
              carets := []; report_count := 0; kept_selection := None; content_changed := false |} in
  let p := {| anchors := {[4 := {| anchor_pos := 9; anchor_text := "a" |};
                           5 := {| anchor_pos := 2; anchor_text := "b" |}]}; reported := ∅;
              carets := []; report_count := 0; kept_selection := None; content_changed := false |} in
  let after := put (forget_anchors s {[4]}) p (part s [4]).2 in
  anchors after !! 4 = None /\ anchors after !! 5 = Some {| anchor_pos := 2; anchor_text := "b" |}.
Proof.
  cbv zeta. split.
  - eapply (text_put_keeps_forgotten _ [4] _ {[4]} 4); vm_compute; reflexivity.
  - eapply (text_put_keeps_forgotten _ [4] _ {[4]} 5); [|reflexivity].
    vm_compute. intros H. discriminate H.
Defined.

(** ** The ranges kept are those the facts name *)

Inductive Op := OpApply (change : TextChange) | OpRelease (nodes released : gset N).

(** The store's ranges, by node: a text call keeps the ranges of its positions,
    what the facts let go of is dropped, and a freed node's go with it. *)
Definition exec (s : TextFacts * gset (N * RangeKey)) (op : Op) : TextFacts * gset (N * RangeKey) :=
  match op with
  | OpApply change =>
      let minted := match change with
                    | ChangeUia node part _ => set_map (fun key => (node, key))
                        (list_to_set (C := gset RangeKey) (positions part))
                    | _ => ∅
                    end in
      let '(dropped, facts) := apply_text s.1 change in
      (facts, (s.2 ∪ minted) ∖ dropped)
  | OpRelease nodes released =>
      let '(dropped, facts) := release_text s.1 nodes released in
      (facts, filter (fun r => r.1 ∉ nodes) s.2 ∖ dropped)
  end.

Definition exact (s : TextFacts * gset (N * RangeKey)) : Prop :=
  forall node key, (node, key) ∈ s.2 <-> key ∈ range_keys (uia_texts s.1 !! node).

Lemma change_text_other s change node :
  node <> change_node change -> uia_texts (change_text s change) !! node = uia_texts s !! node.
Proof.
  intros Hne. destruct change as [| |? []| | |]; cbn in *; try done.
  - by rewrite lookup_insert_ne.
  - by rewrite lookup_alter_ne.
  - by rewrite lookup_delete_ne.
Qed.

Lemma elem_of_pairs (node node' : N) (key : RangeKey) (X : gset RangeKey) :
  (node, key) ∈ (set_map (fun k => (node', k)) X : gset (N * RangeKey)) <-> node = node' /\ key ∈ X.
Proof.
  rewrite elem_of_map. split.
  - intros (k & [= -> ->] & H). done.
  - intros [-> H]. by exists key.
Qed.

Lemma range_keys_change s change key :
  key ∈ range_keys (uia_texts (change_text s change) !! change_node change) ->
  key ∈ range_keys (uia_texts s !! change_node change) \/
  match change with ChangeUia _ part _ => key ∈ positions part | _ => False end.
Proof.
  destruct change as [node p c| |node []| | |node]; cbn; try by left.
  - rewrite lookup_insert_eq. cbn. rewrite elem_of_list_to_set. unfold positions. cbn.
    rewrite !elem_of_app !list_elem_of_fmap.
    intros [([i a] & -> & Hia)|[([i x] & -> & Hix)|H]].
    + apply elem_of_map_to_list, lookup_union_Some_raw in Hia as [Hia|[_ Hia]].
      * right. left. apply map_lookup_filter_Some in Hia as [Hia _].
        exists (i, a). split; [done|]. by apply elem_of_map_to_list.
      * left. destruct (uia_texts s !! node) as [t|] eqn:E; cbn in *; [|by rewrite lookup_empty in Hia].
        rewrite elem_of_list_to_set !elem_of_app list_elem_of_fmap. left. exists (i, a).
        split; [done|]. by apply elem_of_map_to_list.
    + apply elem_of_map_to_list, lookup_union_Some_raw in Hix as [Hix|[_ Hix]].
      * right. right. left. apply map_lookup_filter_Some in Hix as [Hix _].
        exists (i, x). split; [done|]. by apply elem_of_map_to_list.
      * left. destruct (uia_texts s !! node) as [t|] eqn:E; cbn in *; [|by rewrite lookup_empty in Hix].
        rewrite elem_of_list_to_set !elem_of_app. right. left. rewrite list_elem_of_fmap.
        exists (i, x). split; [done|]. by apply elem_of_map_to_list.
    + right. right. by right.
  - rewrite lookup_alter_eq. destruct (uia_texts s !! node) as [t|]; cbn; [|by left].
    left. revert H. rewrite !elem_of_list_to_set /positions. cbn. rewrite app_nil_r.
    rewrite !elem_of_app. tauto.
  - rewrite lookup_delete_eq. by left.
Qed.

Lemma exact_apply s change : exact s -> exact (exec s (OpApply change)).
Proof.
  intros H node key. cbn [exec apply_text fst snd].
  set (after := change_text s.1 change). set (n := change_node change).
  rewrite elem_of_difference elem_of_union elem_of_pairs elem_of_difference (H node key).
  destruct (decide (node = n)) as [->|Hne].
  - pose proof (range_keys_change s.1 change key) as Hk. fold after n in Hk.
    destruct change as [m p c| | | | |]; cbn [change_node] in *; unfold n in *;
      rewrite ?elem_of_pairs ?elem_of_union ?elem_of_list_to_set ?elem_of_empty;
      (match goal with |- context [range_keys (uia_texts after !! ?m)] =>
         destruct (decide (key ∈ range_keys (uia_texts after !! m))) end); try tauto.
  - unfold after. rewrite (change_text_other _ _ node) //. split;
      [|intros Hk; split; [by left|by intros [? _]]]. intros [[Hk|Hm] _]; [done|].
    destruct change; try (by apply elem_of_empty in Hm). apply elem_of_pairs in Hm as [? _]. done.
Qed.

Lemma exact_release s nodes released : exact s -> exact (exec s (OpRelease nodes released)).
Proof.
  intros H node key. cbn [exec]. unfold release_text.
  assert (Hkept : (node, key) ∈ filter (fun r : N * RangeKey => r.1 ∉ nodes) s.2 <->
    key ∈ range_keys (filter (fun p : N * NodeAnchors RangeKey => p.1 ∉ nodes) (uia_texts s.1) !! node)).
  { rewrite elem_of_filter H. cbn. destruct (decide (node ∈ nodes)) as [Hn|Hn].
    - rewrite (_ : filter _ _ !! node = None); [by rewrite elem_of_empty; tauto|].
      apply map_lookup_filter_None. right. intros t _ Hx. done.
    - rewrite (_ : filter _ _ !! node = uia_texts s.1 !! node); [tauto|].
      apply option_eq. intros t. rewrite map_lookup_filter_Some. cbn. tauto. }
  case_bool_decide as He; cbn [fst snd uia_texts].
  - rewrite elem_of_difference elem_of_empty Hkept. tauto.
  - set (kept := filter _ (uia_texts s.1)) in *. set (forget := fun a : NodeAnchors RangeKey => _).
    rewrite elem_of_difference Hkept elem_of_union_list. split.
    + intros [Hk Hd]. destruct (decide (key ∈ range_keys ((forget <$> kept) !! node))); [done|].
      destruct Hd. destruct (kept !! node) as [t|] eqn:E; [|by apply elem_of_empty in Hk].
      exists (set_map (fun key => (node, key)) (range_keys (Some t) ∖ range_keys ((forget <$> kept) !! node))).
      split; [|by rewrite elem_of_pairs elem_of_difference].
      apply list_elem_of_fmap. exists (node, t). split; [done|]. by apply elem_of_map_to_list.
    + rewrite lookup_fmap. intros Hk.
      assert (key ∈ range_keys (kept !! node)) as Hk'.
      { destruct (kept !! node) as [t|]; [|done]. cbn in Hk |- *. unfold forget in Hk.
        case_bool_decide; [|done]. revert Hk. rewrite !elem_of_list_to_set /positions !elem_of_app.
        cbn. rewrite !list_elem_of_fmap. intros [([i a] & -> & Hia)|[([i x] & -> & Hix)|Hx]]; [| |tauto].
        - left. exists (i, a). split; [done|]. apply elem_of_map_to_list in Hia.
          apply map_lookup_filter_Some in Hia as [Hia _]. by apply elem_of_map_to_list.
        - right. left. exists (i, x). split; [done|]. apply elem_of_map_to_list in Hix.
          apply map_lookup_filter_Some in Hix as [Hix _]. by apply elem_of_map_to_list. }
      split; [done|]. intros (X & HX & Hin). apply list_elem_of_fmap in HX as ([m t] & -> & Hm).
      apply elem_of_pairs in Hin as [<- Hin]. apply elem_of_difference in Hin as [_ Hin].
      by rewrite lookup_fmap in Hin.
Qed.

(** The ranges the store keeps are exactly those the text facts name: over any
    run of text calls' changes and releases, a range a call minted is kept as
    long as an anchor, a reported position, a caret or the kept selection of
    its node names it, and let go of in the change or release that ends that,
    a range minted for an anchor forgotten meanwhile at once; none is leaked
    and none a fact still names is dropped. *)
Theorem text_ranges_exact (ops : list Op) (node : N) (key : RangeKey) :
  let '(facts, ranges) := fold_left exec ops (TextFacts_default, ∅) in
  (node, key) ∈ ranges <-> key ∈ range_keys (uia_texts facts !! node).
Proof.
  assert (exact (fold_left exec ops (TextFacts_default, ∅))) as H.
  { assert (exact (TextFacts_default, ∅)) as H0.
    { intros n k. cbn. rewrite lookup_empty. set_solver. }
    revert H0. generalize (TextFacts_default, (∅ : gset (N * RangeKey))).
    induction ops as [|[change|nodes released] ops IH]; intros s Hs; [done|..]; cbn [fold_left]; apply IH.
    - by apply exact_apply.
    - by apply exact_release. }
  specialize (H node key). by destruct (fold_left exec ops _).
Qed.
