(* ===== verification/Intake.v ===== *)
(** The outpost's intake queue: verbatim-outpost-logic's [intake.rs]. One queue
    for the application's events and Core's queries, handled in the order they
    arrived but for what the limits drop, what a newer event replaces, and the
    runs of focus events, which are tried newest first. Indexes are [nat]; a
    debug assertion on an index is a theorem of [IntakeProps]. *)

From S2P Require Import Prelude Tree TextModel Facts Messages InFlight OutpostEntry GapRecord.

Definition OBJID_CLIENT : Z := -4.
Definition FOCUS_EVENTS_PER_BATCH : N := 4.
Definition EVENTS_PER_THREAD : N := 10.

(** ** Keys *)

Inductive Key :=
  | KMsaa (kind : WinKind) (hwnd id_object id_child : Z) (raiser : N)
  | KUia (kind : N) (id : Z) (runtime_id : list Z)
  | KForeground (hwnd : Z) (raiser : N)
  | KMsaaFocus (hwnd id_object id_child : Z) (raiser : N)
  | KUiaFocus (runtime_id : list Z)
  | KMenuPopup (hwnd id_object id_child : Z)
  | KUiaNotification (runtime_id : list Z) (kind : NotificationKind)
      (processing : NotificationProcessing) (activity_id : option string)
  | KNodesHeld.

Inductive Object := ObjectMsaa (hwnd id_object id_child : Z) | ObjectUia (runtime_id : list Z).

#[export] Instance Key_eq_dec : EqDecision Key.
Proof. solve_decision. Defined.
#[export] Instance Object_eq_dec : EqDecision Object.
Proof. solve_decision. Defined.

(** [Key::object]. *)
Definition object (self : Key) : option Object :=
  match self with
  | KMsaa _ hwnd obj child _ | KMsaaFocus hwnd obj child _ | KMenuPopup hwnd obj child =>
      Some (ObjectMsaa hwnd obj child)
  | KUia _ _ runtime_id | KUiaFocus runtime_id | KUiaNotification runtime_id _ _ _ =>
      Some (ObjectUia runtime_id)
  | KForeground _ _ | KNodesHeld => None
  end.

Inductive Category := CategoryFocus | CategoryOther | CategoryUncounted | CategoryExempt.

#[export] Instance Category_eq_dec : EqDecision Category.
Proof. solve_decision. Defined.

Record Waiting := {
  w_key : option Key;
  w_category : Category;
  w_raiser : N;
  w_marker : option N;
  w_entry : Entry;
}.

Inductive Planned := PlannedRun (entry : Entry) | PlannedMenu (entry : Entry)
  | PlannedFocus (entries : list Entry).

Inductive Handling := HandlingRun | HandlingMenu | HandlingTried (rank : N).

(** [Planned::entries]. *)
Definition planned_entries (self : Planned) : list Entry :=
  match self with PlannedRun e | PlannedMenu e => [e] | PlannedFocus es => es end.

Record Intake := {
  waiting : list Waiting;
  batch : list Planned;
  batch_number : N;
  idle : option Entry;
  closed : bool;
  gap : GapRecord;
}.

Definition Intake_default : Intake := {|
  waiting := []; batch := []; batch_number := 0; idle := None; closed := false;
  gap := GapRecord_default |}.

Inductive TerminalMark := TerminalNone | TerminalWindowUnknown | TerminalIn (window : Window).

Definition terminal_of (window : option Window) : TerminalMark :=
  match window with None => TerminalWindowUnknown | Some w => TerminalIn w end.

Record Marks := {
  focused : option Object;
  terminal : TerminalMark;
  focus_redirected : bool;
  absorbed : option Z;
  system_caret_unused : bool;
}.

Definition Marks_default : Marks := {|
  focused := None; terminal := TerminalNone; focus_redirected := false; absorbed := None;
  system_caret_unused := false |}.

#[export] Instance TerminalMark_eq_dec : EqDecision TerminalMark.
Proof. solve_decision. Defined.
#[export] Instance Marks_eq_dec : EqDecision Marks.
Proof. solve_decision. Defined.

Definition drops_on_arrival (self : Marks) (item : Item) : bool :=
  match item with
  | ItemMsaa WinConsoleUpdate hwnd _ _ _ => bool_decide (absorbed self = Some hwnd)
  | ItemMsaa WinCaret _ _ _ _ => system_caret_unused self
  | _ => false
  end.

(** ** Classification *)

Definition raiser_of (item : Item) : N :=
  match item with
  | ItemMsaa _ _ _ _ raiser => raiser
  | ItemFact _ (Some stamp) => thread stamp
  | _ => 0
  end.

Definition notification_key (runtime_id : list Z) (n : Notification) : Key :=
  KUiaNotification runtime_id (notification_kind n) (processing n) (activity_id n).

Fixpoint classify_fact (fact : DeliveredFact) (raiser : N) : option Key * Category * Z :=
  match fact with
  | UiaMarked _ fact => classify_fact fact raiser
  | UiaSelection hwnd _ snapshot =>
      (Some (KUia 1 0 (runtime_id snapshot)), CategoryUncounted, hwnd)
  | UiaNotification hwnd snapshot notification =>
      (Some (notification_key (runtime_id snapshot) notification), CategoryUncounted, hwnd)
  | Alert hwnd id_object id_child =>
      (Some (KMsaa WinAlert hwnd id_object id_child raiser), CategoryOther, hwnd)
  | Show hwnd id_object id_child =>
      (Some (KMsaa WinShow hwnd id_object id_child raiser), CategoryOther, hwnd)
  | Foreground hwnd => (Some (KForeground hwnd raiser), CategoryFocus, hwnd)
  | MsaaFocus hwnd id_object id_child =>
      (Some (KMsaaFocus hwnd id_object id_child raiser), CategoryFocus, hwnd)
  | UiaFocusRead_ _ read _ =>
      (Some (KUiaFocus (runtime_id (read_snapshot read))), CategoryUncounted, read_hwnd read)
  | UiaFocusMarker _ | UiaFocusDropped _ _ _ | UiaFocusReadsEnded => (None, CategoryExempt, 0%Z)
  | MenuPopup hwnd id_object id_child =>
      (Some (KMenuPopup hwnd id_object id_child), CategoryUncounted, hwnd)
  end.

Definition classify (item : Item) : option Key * Category * Z :=
  match item with
  | ItemMsaa kind hwnd id_object id_child raiser =>
      match kind with
      | WinDestroy => (None, CategoryExempt, hwnd)
      | WinConsoleUpdate | WinConsoleCaret => (Some (KMsaa kind hwnd 0 0 0), CategoryOther, hwnd)
      | _ => (Some (KMsaa kind hwnd id_object id_child raiser), CategoryOther, hwnd)
      end
  | ItemUia event =>
      let rid := runtime_id (uia_parts event) in
      (Some (match uia_kind event with
             | UiaProperty id => KUia 0 id rid
             | UiaSelectionKind => KUia 1 0 rid
             | UiaTextSelection => KUia 2 0 rid
             | UiaTextChanged => KUia 3 0 rid
             | UiaActiveTextPosition _ => KUia 4 0 rid
             | UiaNotificationKind notification => notification_key rid notification
             end), CategoryUncounted, uia_hwnd event)
  | ItemFact fact _ => classify_fact fact (raiser_of item)
  | ItemNodesHeld _ _ _ => (Some KNodesHeld, CategoryExempt, 0%Z)
  | ItemQuery _ _ | ItemNotedCaret _ | ItemBarrier _ _ | ItemGapBound _ | ItemGapRead _ =>
      (None, CategoryExempt, 0%Z)
  end.

Definition window_of (item : Item) : option Window := Window.new (classify item).2.

(** ** The waiting queue *)

(** [iter().position(..)]. *)
Fixpoint position {A} (f : A -> bool) (l : list A) : option nat :=
  match l with
  | [] => None
  | x :: rest => if f x then Some 0%nat else option_map S (position f rest)
  end.

(** [iter().take_while(..)]. *)
Fixpoint take_while {A} (f : A -> bool) (l : list A) : list A :=
  match l with
  | [] => []
  | x :: rest => if f x then x :: take_while f rest else []
  end.

(** [insert(at, x)] of a [Vec] or [VecDeque]. *)
Definition insert_at {A} (at_ : nat) (x : A) (l : list A) : list A := take at_ l ++ x :: drop at_ l.

Definition is_barrier (item : Item) : bool :=
  match item with ItemBarrier _ _ => true | _ => false end.

Definition is_query (w : Waiting) : bool := is_barrier (entry_item (w_entry w)).

(** Where [remove_waiting] finds the entry: the nearest before [at_], else the
    first after. *)
Definition find_waiting (waiting : list Waiting) (at_ : nat) (matches_ : Waiting -> bool)
    : option nat :=
  match position matches_ (take_while (fun w => negb (is_query w)) (rev (take at_ waiting))) with
  | Some back => Some (at_ - 1 - back)%nat
  | None =>
      option_map (fun ahead => (at_ + ahead)%nat)
        (position matches_ (take_while (fun w => negb (is_query w)) (drop at_ waiting)))
  end.

Definition remove_waiting (waiting : list Waiting) (at_ : nat) (matches_ : Waiting -> bool)
    : option (nat * Waiting) * list Waiting :=
  match find_waiting waiting at_ matches_ with
  | Some found =>
      match waiting !! found with
      | Some removed => (Some (found, removed), delete found waiting)
      | None => (None, waiting)
      end
  | None => (None, waiting)
  end.

Definition remove_keyed (waiting : list Waiting) (key : Key) (at_ : nat)
    : option (nat * Waiting) * list Waiting :=
  remove_waiting waiting at_ (fun w => bool_decide (w_key w = Some key)).

Definition stamp_of (w : Waiting) : option WinEventStamp :=
  match entry_item (w_entry w) with ItemFact _ stamp => stamp | _ => None end.

Definition focus_raised_first (focus change : option WinEventStamp) (focus_arrived_first : bool)
    : bool :=
  match focus, change with
  | Some focus, Some change =>
      if negb (time focus =? time change) then raised_before focus (time change)
      else focus_arrived_first
  | _, _ => focus_arrived_first
  end.

Definition remove_client_focus (waiting : list Waiting) (window : Z) (raiser : N)
    (change : option WinEventStamp) : list Waiting :=
  (remove_waiting waiting (length waiting) (fun w =>
     bool_decide (w_key w = Some (KMsaaFocus window OBJID_CLIENT 0 raiser)) &&
     focus_raised_first (stamp_of w) change true)).2.

(** Whether [w] is a UIA state change of the element [old]. *)
Definition state_change_of (old : list Z) (w : Waiting) : bool :=
  match entry_item (w_entry w) with
  | ItemUia event =>
      match uia_kind event with
      | UiaProperty id => is_state_property id && bool_decide (runtime_id (uia_parts event) = old)
      | _ => false
      end
  | _ => false
  end.

Definition divides (w : Waiting) : bool := bool_decide (is_Some (w_marker w)) || is_query w.

(** One step of the loop of [old_focus_events_first], at index [at_]. *)
Definition move_old (old : list Z) (acc : list Waiting * nat) (at_ : nat) : list Waiting * nat :=
  let '(waiting, place) := acc in
  match waiting !! at_ with
  | Some w =>
      if state_change_of old w then (insert_at place w (delete at_ waiting), S place) else acc
  | None => acc
  end.

Definition old_focus_events_first (waiting : list Waiting) (place : nat) (old : list Z)
    : list Waiting * nat :=
  let start := S place in
  let end_ := match position divides (drop start waiting) with
              | Some at_ => (start + at_)%nat
              | None => length waiting
              end in
  fold_left (move_old old) (seq start (end_ - start)) (waiting, place).

(** ** Pushing *)

Definition with_waiting (self : Intake) (w : list Waiting) : Intake := {|
  waiting := w; batch := batch self; batch_number := batch_number self; idle := idle self;
  closed := closed self; gap := gap self |}.
Definition with_gap (self : Intake) (g : GapRecord) : Intake := {|
  waiting := waiting self; batch := batch self; batch_number := batch_number self;
  idle := idle self; closed := closed self; gap := g |}.
Definition with_idle (self : Intake) (e : option Entry) : Intake := {|
  waiting := waiting self; batch := batch self; batch_number := batch_number self;
  idle := e; closed := closed self; gap := gap self |}.

(** [Intake::resolves_without_read]. *)
Definition resolves_without_read (self : Intake) (entry : Entry) : option Intake :=
  match entry_item entry with
  | ItemFact (UiaFocusDropped marker _ _) _ =>
      Some (with_waiting self
        (List.filter (fun w => negb (bool_decide (w_marker w = Some marker))) (waiting self)))
  | ItemFact UiaFocusReadsEnded _ =>
      Some (with_waiting self
        (List.filter (fun w => bool_decide (w_marker w = None)) (waiting self)))
  | _ => None
  end.

(** [Intake::apply_gap_outcome]. *)
Definition apply_gap_outcome (self : Intake) (entry : Entry) : Entry * option N * Intake :=
  match entry_item entry with
  | ItemFact (UiaFocusDropped marker _ true) _ =>
      let '(read, g) := no_window (gap self) (entry_observed_at_us entry) in
      match read with
      | None => (entry, None, with_gap self g)
      | Some read =>
          (with_read entry (ItemGapRead (gap_read_window read)) (gap_read_stamp_us read),
           Some marker, with_gap self g)
      end
  | _ => (entry, None, self)
  end.

(** The entry a marked event is, with the marker it resolves. *)
Definition unmark (entry : Entry) : Entry * option N :=
  match entry_item entry with
  | ItemFact (UiaMarked marker fact) stamp => (with_item entry (ItemFact fact stamp), Some marker)
  | _ => (entry, None)
  end.

(** The end of a push: the entry in its place, or at the back. *)
Definition place_waiting (waiting : list Waiting) (place : option nat) (w : Waiting)
    : list Waiting :=
  match place with
  | Some p => match waiting !! p with Some _ => <[p := w]> waiting | None => waiting ++ [w] end
  | None => waiting ++ [w]
  end.

(** The objects unparked by the entry a keyed push replaced, what waits then,
    and the place, which a removal ahead of it moves down. *)
Definition replace_keyed (waiting : list Waiting) (key : option Key) (place : option nat)
    (item : Item) : list N * list Waiting * option nat :=
  match key with
  | None => ([], waiting, place)
  | Some k =>
      let '(removed, rest) := remove_keyed waiting k (default (length waiting) place) in
      let '(unparked, place) :=
        match removed with
        | Some (at_, gone) =>
            (parked (entry_item (w_entry gone)),
             option_map (fun p => if (at_ <? p)%nat then (p - 1)%nat else p) place)
        | None => ([], place)
        end in
      let rest :=
        match k, item with
        | KForeground window raiser, ItemFact _ stamp => remove_client_focus rest window raiser stamp
        | _, _ => rest
        end in
      (unparked, rest, place)
  end.

(** The old focus's own state changes moved ahead of a focus's read moving into
    a child of it. *)
Definition old_focus_first (waiting : list Waiting) (place : option nat) (item : Item)
    (marks : Marks) : list Waiting * option nat :=
  match place, item, focused marks with
  | Some at_, ItemFact (UiaFocusRead_ _ read _) _, Some (ObjectUia old) =>
      if existsb (fun a => bool_decide (runtime_id (ancestor_snapshot a) = old)) (ancestors read)
      then let '(w, p) := old_focus_events_first waiting at_ old in (w, Some p)
      else (waiting, place)
  | _, _, _ => (waiting, place)
  end.

(** [Intake::push]: the objects unparked, and the intake after. *)
Definition push (self : Intake) (entry : Entry) (marks : Marks) : list N * Intake :=
  let '(entry, resolved_by_read) := unmark entry in
  let '(key, category, _) := classify (entry_item entry) in
  let raiser := raiser_of (entry_item entry) in
  if closed self then (parked (entry_item entry), self)
  else
    let '(entry, gap_read_resolves, self) := apply_gap_outcome self entry in
    match resolves_without_read self entry with
    | Some self => ([], self)
    | None =>
        let item := entry_item entry in
        let marker := match item with
                      | ItemFact (UiaFocusMarker marker) _ => Some marker
                      | _ => None
                      end in
        let resolves := match item with
                        | ItemFact (UiaFocusRead_ marker _ _) _ => Some marker
                        | _ => match resolved_by_read with
                               | Some m => Some m
                               | None => gap_read_resolves
                               end
                        end in
        let place := resolves ≫= fun m =>
          position (fun w => bool_decide (w_marker w = Some m)) (waiting self) in
        let '(unparked, rest, place) := replace_keyed (waiting self) key place item in
        let '(rest, place) := old_focus_first rest place item marks in
        (unparked,
         with_waiting self (place_waiting rest place {|
           w_key := key; w_category := category; w_raiser := raiser; w_marker := marker;
           w_entry := entry |}))
    end.

Definition push_gap_bound (self : Intake) (entry : Entry) (marks : Marks) : Intake :=
  (push self entry marks).2.

(** ** Planning a batch *)

(** [caret_after_update]. *)
Definition caret_after_update (waiting : list Waiting) (focused : option Object)
    (terminal : TerminalMark) : list Waiting :=
  match terminal, focused with
  | TerminalNone, _ => waiting
  | _, Some (ObjectUia rid) =>
      let window := match terminal with TerminalIn w => Some w | _ => None end in
      let console kind := option_map (fun w => KMsaa kind (Window.get w) 0 0 0) window in
      let of_key key (other : option Key) (w : Waiting) :=
        bool_decide (w_key w = Some key) ||
        (bool_decide (is_Some (w_key w)) && bool_decide (w_key w = other)) in
      match position (of_key (KUia 2 0 rid) (console WinConsoleCaret)) waiting with
      | None => waiting
      | Some at_ =>
          let events := take_while (fun w => match entry_item (w_entry w) with
                                             | ItemMsaa _ _ _ _ _ | ItemUia _ => true
                                             | _ => false
                                             end) (drop (S at_) waiting) in
          let newest_change := fold_left (fun newest p =>
            if of_key (KUia 3 0 rid) (console WinConsoleUpdate) p.2 then Some p.1 else newest)
            (imap (fun i w => ((S at_ + i)%nat, w)) events) None in
          match newest_change, waiting !! at_ with
          | Some change, Some caret => insert_at change caret (delete at_ waiting)
          | _, _ => waiting
          end
      end
  | _, _ => waiting
  end.

(** The counts of [admit_], newest first: focus events, and the others of each
    thread. *)
Definition admit_step (focused : option Object) (counts : N * gmap N N) (w : Waiting)
    : bool * (N * gmap N N) :=
  let '(focus_kept, per_thread) := counts in
  let of_focus := bool_decide (is_Some focused) &&
                  bool_decide (w_key w ≫= object = focused) in
  let counted := default 0 (per_thread !! w_raiser w) + 1 in
  match w_category w with
  | CategoryExempt | CategoryUncounted => (true, counts)
  | CategoryFocus =>
      let focus_kept := focus_kept + 1 in
      let among_focus := focus_kept <=? FOCUS_EVENTS_PER_BATCH in
      match w_key w with
      | Some (KForeground _ _) =>
          (among_focus || (counted <=? EVENTS_PER_THREAD),
           (focus_kept, <[w_raiser w := counted]> per_thread))
      | _ => (among_focus, (focus_kept, per_thread))
      end
  | CategoryOther =>
      ((counted <=? EVENTS_PER_THREAD) || of_focus,
       (focus_kept, <[w_raiser w := counted]> per_thread))
  end.

Fixpoint admit_loop (focused : option Object) (counts : N * gmap N N) (newest_first : list Waiting)
    : list bool :=
  match newest_first with
  | [] => []
  | w :: rest =>
      let '(keep, counts) := admit_step focused counts w in
      keep :: admit_loop focused counts rest
  end.

Definition admit_ (waiting : list Waiting) (focused : option Object) : list Waiting :=
  let keep := rev (admit_loop focused (0, ∅) (rev waiting)) in
  omap (fun p : Waiting * bool => if p.2 then Some p.1 else None) (zip waiting keep).

Definition ends_a_run (key : option Key) : bool :=
  match key with
  | Some (KMsaa kind _ _ _ _) =>
      match kind with
      | WinConsoleUpdate | WinConsoleCaret | WinTextSelectionChange => false
      | _ => true
      end
  | Some (KMenuPopup _ _ _) => true
  | _ => false
  end.

Definition in_a_run (key : option Key) : bool :=
  match key with Some (KMsaaFocus _ _ _ _) | Some (KForeground _ _) => true | _ => false end.

(** The runs, each with the index of its newest, by their own order. *)
Definition run_step (acc : gmap nat (list nat) * list nat) (p : nat * Waiting)
    : gmap nat (list nat) * list nat :=
  let '(runs, run) := acc in
  if in_a_run (w_key p.2) then (runs, run ++ [p.1])
  else if ends_a_run (w_key p.2)
       then match last run with Some newest => (<[newest := run]> runs, []) | None => acc end
       else acc.

Definition runs_of (kept : list Waiting) : gmap nat (list nat) :=
  let '(runs, run) := fold_left run_step (imap (fun i w => (i, w)) kept) (∅, []) in
  match last run with Some newest => <[newest := run]> runs | None => runs end.

(** [u32::cast_signed]. *)
Definition cast_signed32 (n : N) : Z := if n <? 2 ^ 31 then Z.of_N n else (Z.of_N n - 2 ^ 32)%Z.

(** A stable sort by a signed key, as [sort_by_key]. *)
Fixpoint insert_by {A} (key : A -> Z) (x : A) (l : list A) : list A :=
  match l with
  | [] => [x]
  | y :: rest => if (key x <=? key y)%Z then x :: l else y :: insert_by key x rest
  end.
Definition sort_by_key {A} (key : A -> Z) (l : list A) : list A := foldr (insert_by key) [] l.

Definition raised_time (kept : list Waiting) (at_ : nat) : option N :=
  kept !! at_ ≫= fun w => option_map time (stamp_of w).

Definition in_raised_order (kept : list Waiting) (run : list nat) : list nat :=
  match head run ≫= raised_time kept with
  | None => run
  | Some first =>
      if existsb (fun at_ => bool_decide (raised_time kept at_ = None)) run then run
      else sort_by_key (fun at_ => match raised_time kept at_ with
                                   | Some time => cast_signed32 (wrapping_sub32 time first)
                                   | None => 0%Z
                                   end) run
  end.

(** [take_entry]: the entry of slot [at_], and the slots with it taken. *)
Definition take_entry (entries : list (option Entry)) (at_ : nat)
    : option Entry * list (option Entry) :=
  match entries !! at_ with
  | Some slot => (slot, <[at_ := None]> entries)
  | None => (None, entries)
  end.

Fixpoint take_group (entries : list (option Entry)) (ats : list nat)
    : list Entry * list (option Entry) :=
  match ats with
  | [] => ([], entries)
  | at_ :: rest =>
      let '(e, entries) := take_entry entries at_ in
      let '(es, entries) := take_group entries rest in
      (option_list e ++ es, entries)
  end.

Record Planning := {
  pl_entries : list (option Entry);
  pl_planned : list Planned;
  pl_deferred : list Entry;
}.

Definition plan_step (runs : gmap nat (list nat)) (msaa_menu : option nat) (s : Planning)
    (p : nat * option Key) : Planning :=
  let '(index, key) := p in
  if in_a_run key then
    match runs !! index with
    | Some run =>
        let '(group, entries) := take_group (pl_entries s) (rev run) in
        {| pl_entries := entries; pl_planned := pl_planned s ++ [PlannedFocus group];
           pl_deferred := pl_deferred s |}
    | None => s
    end
  else
    let '(e, entries) := take_entry (pl_entries s) index in
    match e with
    | None => {| pl_entries := entries; pl_planned := pl_planned s; pl_deferred := pl_deferred s |}
    | Some entry =>
        match key with
        | Some (KUiaFocus _) =>
            {| pl_entries := entries; pl_planned := pl_planned s ++ [PlannedFocus [entry]];
               pl_deferred := pl_deferred s |}
        | Some (KMenuPopup _ _ _) =>
            {| pl_entries := entries; pl_planned := pl_planned s;
               pl_deferred := if bool_decide (Some index = msaa_menu)
                              then pl_deferred s ++ [entry] else pl_deferred s |}
        | _ => {| pl_entries := entries; pl_planned := pl_planned s ++ [PlannedRun entry];
                  pl_deferred := pl_deferred s |}
        end
    end.

Definition is_menu (key : option Key) : bool :=
  match key with Some (KMenuPopup _ _ _) => true | _ => false end.

(** [iter().rposition(..)]. *)
Fixpoint rposition {A} (f : A -> bool) (l : list A) : option nat :=
  match l with
  | [] => None
  | x :: rest =>
      match rposition f rest with
      | Some i => Some (S i)
      | None => if f x then Some 0%nat else None
      end
  end.

(** The end of [plan]: the deferred menu behind everything but the idle query
    that ends the batch. *)
Definition menus_before_query (planned : list Planned) (deferred : list Entry) : list Planned :=
  let '(query, planned) :=
    match last planned with
    | Some (PlannedRun e) =>
        if is_barrier (entry_item e) then ([PlannedRun e], removelast planned) else ([], planned)
    | _ => ([], planned)
    end in
  planned ++ map PlannedMenu deferred ++ query.

Definition plan (waiting : list Waiting) (focused : option Object) : list Planned :=
  let kept := admit_ waiting focused in
  let msaa_menu := rposition (fun w => is_menu (w_key w)) kept in
  let runs := in_raised_order kept <$> runs_of kept in
  let s := fold_left (plan_step runs msaa_menu) (imap (fun i w => (i, w_key w)) kept)
             {| pl_entries := map (fun w => Some (w_entry w)) kept; pl_planned := [];
                pl_deferred := [] |} in
  menus_before_query (pl_planned s) (pl_deferred s).

(** ** Handing out *)

(** How many entries are ready: those before the first marker, up to and with
    the first idle query. *)
Definition ready (waiting : list Waiting) : nat :=
  match position divides waiting with
  | None => length waiting
  | Some at_ =>
      match waiting !! at_ with
      | Some w => if bool_decide (is_Some (w_marker w)) then at_ else S at_
      | None => at_
      end
  end.

Definition with_batch (self : Intake) (b : list Planned) : Intake := {|
  waiting := waiting self; batch := b; batch_number := batch_number self; idle := idle self;
  closed := closed self; gap := gap self |}.

Definition take_when_idle (self : Intake) : option (Planned * N) * Intake :=
  if closed self then (None, self)
  else (option_map (fun e => (PlannedRun e, batch_number self)) (idle self), with_idle self None).

(** [Intake::next]. *)
Definition next (self : Intake) (marks : Marks) : option (Planned * N) * Intake :=
  match batch self with
  | planned :: rest => (Some (planned, batch_number self), with_batch self rest)
  | [] =>
      let n := ready (waiting self) in
      if (0 <? n)%nat then
        let due := caret_after_update (take n (waiting self)) (focused marks) (terminal marks) in
        let self := {|
          waiting := drop n (waiting self); batch := plan due (focused marks);
          batch_number := batch_number self +|64| 1; idle := idle self;
          closed := closed self; gap := gap self |} in
        match batch self with
        | planned :: rest => (Some (planned, batch_number self), with_batch self rest)
        | [] => take_when_idle self
        end
      else take_when_idle self
  end.

(** [Intake::close]. *)
Definition close_intake (self : Intake) : list N * Intake :=
  let dropped := map w_entry (waiting self) ++ flat_map planned_entries (batch self) ++
                 option_list (idle self) in
  (flat_map (fun e => parked (entry_item e)) dropped,
   {| waiting := []; batch := []; batch_number := batch_number self; idle := None; closed := true;
      gap := gap self |}).

(** [Intake::entries]. *)
Definition entries (self : Intake) : list Entry :=
  map w_entry (waiting self) ++ flat_map planned_entries (batch self).

Definition is_query_of (request_id : RequestId) (e : Entry) : bool :=
  match entry_item e with ItemQuery id _ => bool_decide (id = request_id) | _ => false end.

(** [Intake::cancel]. *)
Definition cancel (self : Intake) (request_id : RequestId) : option TraceId * Intake :=
  match Prelude.find (is_query_of request_id) (entries self) with
  | None => (None, self)
  | Some e =>
      (Some (entry_trace e),
       {| waiting := List.filter (fun w => negb (is_query_of request_id (w_entry w))) (waiting self);
          batch := List.filter (fun p => negb (existsb (is_query_of request_id) (planned_entries p)))
                     (batch self);
          batch_number := batch_number self; idle := idle self; closed := closed self;
          gap := gap self |})
  end.

Definition own_waiting (e : Entry) : Waiting :=
  let '(key, category, _) := classify (entry_item e) in
  {| w_key := key; w_category := category; w_raiser := raiser_of (entry_item e);
     w_marker := None; w_entry := e |}.

Definition push_ahead (self : Intake) (es : list Entry) : Intake :=
  if closed self then self
  else with_waiting self
    (fold_left (fun w p => insert_at p.1 (own_waiting p.2) w) (imap (fun i e => (i, e)) es)
       (waiting self)).

Definition when_idle (self : Intake) (e : Entry) : Intake := with_idle self (Some e).
Definition take_idle (self : Intake) : option Entry * Intake := (idle self, with_idle self None).

Inductive WaitingCaret :=
  | CaretUia (runtime_id : list Z)
  | CaretConsole (hwnd : Z)
  | CaretEdit (hwnd : Z).

(** [waiting_caret] and [edit_value_change], of the crate's [lib.rs]. *)
Definition waiting_caret (item : Item) : option WaitingCaret :=
  match item with
  | ItemUia event =>
      match uia_kind event with
      | UiaTextSelection => Some (CaretUia (runtime_id (uia_parts event)))
      | _ => None
      end
  | ItemMsaa WinConsoleCaret hwnd _ _ _ => Some (CaretConsole hwnd)
  | ItemMsaa (WinCaret | WinTextSelectionChange) hwnd _ _ _ => Some (CaretEdit hwnd)
  | _ => None
  end.

Definition edit_value_change (item : Item) : option Z :=
  match item with
  | ItemMsaa WinValueChange hwnd id_object id_child _ =>
      if (id_object =? OBJID_CLIENT)%Z && (id_child =? 0)%Z then Some hwnd else None
  | _ => None
  end.

Definition waiting_carets (self : Intake) (since_ms : option N) : list WaitingCaret :=
  match since_ms with
  | None => []
  | Some since_ms =>
      omap (fun e => waiting_caret (entry_item e))
        (List.filter (fun e => since_ms <=? entry_observed_at_us e / 1000) (entries self))
  end.

Definition value_change_waiting (self : Intake) (hwnd : Z) : bool :=
  existsb (fun e => bool_decide (edit_value_change (entry_item e) = Some hwnd)) (entries self).

Definition settles (self : Intake) : list N :=
  omap (fun e => match entry_item e with
                 | ItemBarrier (AskerSettle id) _ => Some id
                 | _ => None
                 end) (entries self).
