(* ===== verification/IntakePlan.v ===== *)
(** What a batch of the intake queue is ([Intake]): which events the limits
    admit, and the plan of a batch as one pass over them. *)

From S2P Require Import Prelude Tree TextModel Facts Messages InFlight OutpostEntry GapRecord Intake.

Section admission.
Context (focused : option Object).

Definition counts_focus (w : Waiting) : bool := bool_decide (w_category w = CategoryFocus).
Definition is_foreground (w : Waiting) : bool :=
  match w_key w with Some (KForeground _ _) => true | _ => false end.
Definition counts_thread (raiser : N) (w : Waiting) : bool :=
  (w_raiser w =? raiser) &&
  (bool_decide (w_category w = CategoryOther) || (counts_focus w && is_foreground w)).
Definition count (f : Waiting -> bool) (l : list Waiting) : N := N.of_nat (length (List.filter f l)).
Definition of_focused (w : Waiting) : bool :=
  bool_decide (is_Some focused) && bool_decide (w_key w ≫= object = focused).

(** Whether [w], with [newer] behind it, is within the limits. *)
Definition within_limits (w : Waiting) (newer : list Waiting) : bool :=
  let among_focus := count counts_focus newer + 1 <=? FOCUS_EVENTS_PER_BATCH in
  let among_thread := count (counts_thread (w_raiser w)) newer + 1 <=? EVENTS_PER_THREAD in
  match w_category w with
  | CategoryExempt | CategoryUncounted => true
  | CategoryFocus => among_focus || (is_foreground w && among_thread)
  | CategoryOther => among_thread || of_focused w
  end.

Fixpoint admit_spec (waiting : list Waiting) : list Waiting :=
  match waiting with
  | [] => []
  | w :: newer => (if within_limits w newer then [w] else []) ++ admit_spec newer
  end.

Definition counts_of (seen : list Waiting) (c : N * gmap N N) : Prop :=
  c.1 = count counts_focus seen /\
  forall r, default 0 (c.2 !! r) = count (counts_thread r) seen.

Lemma count_app f l k : count f (l ++ k) = count f l + count f k.
Proof. rewrite /count List.filter_app length_app. lia. Qed.

Lemma count_one f w : count f [w] = if f w then 1 else 0.
Proof. rewrite /count /=. by destruct (f w). Qed.

Lemma admit_step_counts seen c w :
  counts_of seen c ->
  (admit_step focused c w).1 = within_limits w seen /\ counts_of (seen ++ [w]) (admit_step focused c w).2.
Proof.
  destruct c as [k m]. rewrite /counts_of /=. intros [-> Hm].
  have Hc r : default 0 (<[w_raiser w := count (counts_thread (w_raiser w)) seen + 1]> m !! r) =
    count (counts_thread r) seen + (if w_raiser w =? r then 1 else 0).
  { destruct (N.eqb_spec (w_raiser w) r) as [<-|]; [by rewrite lookup_insert_eq|].
    rewrite lookup_insert_ne // Hm. lia. }
  rewrite /admit_step /within_limits Hm.
  split.
  - destruct (w_category w); [rewrite /is_foreground; destruct (w_key w) as [[]|]|..];
      by rewrite /= ?orb_false_r.
  - have Hf : counts_focus w = bool_decide (w_category w = CategoryFocus) by done.
    have Ht r : counts_thread r w = (w_raiser w =? r) &&
      (bool_decide (w_category w = CategoryOther) || (counts_focus w && is_foreground w)) by done.
    setoid_rewrite Hf in Ht. rewrite /is_foreground in Ht.
    destruct (w_category w) eqn:E; (try destruct (w_key w) as [[]|] eqn:K);
      (split; [|intros r; specialize (Ht r)]);
      rewrite count_app count_one ?Hf ?Ht ?Hm ?Hc /= ?andb_false_r ?andb_true_r ?N.add_0_r //.
Qed.

Lemma admit_loop_snoc newest_first w : forall seen c,
  counts_of seen c ->
  admit_loop focused c (newest_first ++ [w]) =
  admit_loop focused c newest_first ++ [within_limits w (seen ++ newest_first)].
Proof.
  induction newest_first as [|x rest IH]; intros seen c Hc; simpl.
  - rewrite app_nil_r. destruct (admit_step_counts seen c w Hc) as [<- _].
    by destruct (admit_step _ _ _).
  - destruct (admit_step focused c x) as [keep c'] eqn:E.
    destruct (admit_step_counts seen c x Hc) as [_ Hc']. rewrite E /= in Hc'.
    by rewrite (IH (seen ++ [x])) // -app_assoc.
Qed.

Lemma within_limits_rev w l : within_limits w (rev l) = within_limits w l.
Proof.
  have Hc f : count f (rev l) = count f l.
  { rewrite /count List.filter_rev length_rev //. }
  by rewrite /within_limits !Hc.
Qed.

Lemma admit_is_spec waiting : admit_ waiting focused = admit_spec waiting.
Proof.
  rewrite /admit_. induction waiting as [|w newer IH]; [done|].
  rewrite [rev (w :: newer)]/= (admit_loop_snoc _ _ []) //.
  rewrite rev_app_distr within_limits_rev /= -IH.
  by destruct (within_limits w newer).
Qed.
End admission.

(** ** The plan, in one pass over the entries *)

Definition waiting_time (w : Waiting) : option N := option_map time (stamp_of w).

(** A run in the order Windows raised it, when every event of it says when. *)
Definition run_in_order (run : list Waiting) : list Waiting :=
  match head run ≫= waiting_time with
  | None => run
  | Some first =>
      if existsb (fun w => bool_decide (waiting_time w = None)) run then run
      else sort_by_key (fun w => match waiting_time w with
                                 | Some time => cast_signed32 (wrapping_sub32 time first)
                                 | None => 0%Z
                                 end) run
  end.

(** Whether a run ends before [later]: an event that ends it, or nothing more
    of it, comes first. *)
Fixpoint run_over (later : list Waiting) : bool :=
  match later with
  | [] => true
  | w :: rest =>
      if in_a_run (w_key w) then false else ends_a_run (w_key w) || run_over rest
  end.

(** A run, tried newest first, stands where its newest arrived; everything else
    stands where it arrived. *)
Fixpoint planned_of (run kept : list Waiting) : list Planned :=
  match kept with
  | [] => []
  | w :: rest =>
      if in_a_run (w_key w) then
        if run_over rest
        then PlannedFocus (map w_entry (rev (run_in_order (run ++ [w])))) :: planned_of [] rest
        else planned_of (run ++ [w]) rest
      else match w_key w with
           | Some (KUiaFocus _) => [PlannedFocus [w_entry w]]
           | Some (KMenuPopup _ _ _) => []
           | _ => [PlannedRun (w_entry w)]
           end ++ planned_of run rest
  end.

Definition newest_menu (kept : list Waiting) : list Entry :=
  option_list (option_map w_entry (last (List.filter (fun w => is_menu (w_key w)) kept))).

Definition plan_spec (waiting : list Waiting) (focused : option Object) : list Planned :=
  let kept := admit_spec focused waiting in
  menus_before_query (planned_of [] kept) (newest_menu kept).

Section runs.
Context (kept : list Waiting).

Definition indexed (n : nat) (l : list Waiting) : list (nat * Waiting) :=
  imap (fun i w => ((n + i)%nat, w)) l.

Lemma indexed_cons n w l : indexed n (w :: l) = (n, w) :: indexed (S n) l.
Proof.
  rewrite /indexed imap_cons Nat.add_0_r. f_equal. apply imap_ext. intros i x _. simpl. f_equal. lia.
Qed.

Definition runs_from (n : nat) (runs : gmap nat (list nat)) (run : list nat) (l : list Waiting)
    : gmap nat (list nat) :=
  let '(runs, run) := fold_left run_step (indexed n l) (runs, run) in
  match last run with Some newest => <[newest := run]> runs | None => runs end.

Lemma runs_from_cons n runs run w l :
  runs_from n runs run (w :: l) =
  let '(runs, run) := run_step (runs, run) (n, w) in runs_from (S n) runs run l.
Proof. rewrite /runs_from indexed_cons. cbn [fold_left]. by destruct (run_step (runs, run) (n, w)). Qed.

Lemma runs_from_frame i l : forall n runs run,
  (i < n)%nat -> last run ≠ Some i -> runs_from n runs run l !! i = runs !! i.
Proof.
  induction l as [|w l IH]; intros n runs run Hi Hl.
  - rewrite /runs_from /=. destruct (last run) eqn:E; [|done]. apply lookup_insert_ne. congruence.
  - rewrite runs_from_cons /=. destruct (in_a_run _).
    { apply IH; [lia|]. rewrite last_snoc. intros [= ?]. lia. }
    destruct (ends_a_run _); [|apply IH; [lia|done]].
    destruct (last run) eqn:E; [|apply IH; [lia|congruence]].
    rewrite IH //; [|lia]. apply lookup_insert_ne. congruence.
Qed.

Lemma runs_from_newest i l : forall n runs run,
  (i < n)%nat -> last run = Some i -> runs !! i = None ->
  runs_from n runs run l !! i = if run_over l then Some run else None.
Proof.
  induction l as [|w l IH]; intros n runs run Hi Hl Hr.
  - rewrite /runs_from /= Hl. apply lookup_insert_eq.
  - rewrite runs_from_cons /=. destruct (in_a_run _) eqn:E1.
    { rewrite runs_from_frame //; [lia|]. rewrite last_snoc. intros [= ?]. lia. }
    destruct (ends_a_run _) eqn:E2; simpl; [|apply IH; [lia|done..]].
    rewrite Hl. rewrite runs_from_frame; [apply lookup_insert_eq|lia|done].
Qed.

(** The indexes [ats] are those of the entries [ws]. *)
Definition names (ats : list nat) (ws : list Waiting) : Prop :=
  Forall2 (fun at_ w => kept !! at_ = Some w) ats ws.

Lemma names_insert_by (f : nat -> Z) (g : Waiting -> Z) at_ w ats ws :
  (forall a x, kept !! a = Some x -> f a = g x) ->
  kept !! at_ = Some w -> names ats ws -> names (insert_by f at_ ats) (insert_by g w ws).
Proof.
  intros Hfg Hw. induction 1 as [|b x ats ws Hx H IH]; simpl; [by repeat constructor|].
  rewrite (Hfg _ _ Hw) (Hfg _ _ Hx). destruct (_ <=? _)%Z; by repeat constructor.
Qed.

Lemma names_sort (f : nat -> Z) (g : Waiting -> Z) ats ws :
  (forall a x, kept !! a = Some x -> f a = g x) ->
  names ats ws -> names (sort_by_key f ats) (sort_by_key g ws).
Proof. intros Hfg. induction 1; simpl; [constructor|by apply names_insert_by]. Qed.

Lemma raised_time_of at_ w : kept !! at_ = Some w -> raised_time kept at_ = waiting_time w.
Proof. rewrite /raised_time. by intros ->. Qed.

Lemma names_in_order ats ws :
  names ats ws -> names (in_raised_order kept ats) (run_in_order ws).
Proof.
  intros H. rewrite /in_raised_order /run_in_order.
  have -> : head ats ≫= raised_time kept = head ws ≫= waiting_time.
  { destruct H as [|a w ats ws Hw H]; [done|]. exact (raised_time_of _ _ Hw). }
  destruct (head ws ≫= waiting_time) as [first|]; [|done].
  have -> : existsb (fun at_ => bool_decide (raised_time kept at_ = None)) ats =
            existsb (fun w => bool_decide (waiting_time w = None)) ws.
  { induction H as [|a w ats ws Hw H IH]; [done|]. by rewrite /= IH (raised_time_of _ _ Hw). }
  destruct (existsb _ ws); [done|]. apply names_sort; [|done].
  intros a x Hx. by rewrite (raised_time_of _ _ Hx).
Qed.

Lemma names_rev ats ws : names ats ws -> names (rev ats) (rev ws).
Proof.
  induction 1 as [|a w ats ws Hw H IH]; simpl; [constructor|].
  apply Forall2_app; [done|by repeat constructor].
Qed.

End runs.

Lemma insert_by_perm {A} (f : A -> Z) x l : insert_by f x l ≡ₚ x :: l.
Proof.
  induction l as [|y l IH]; simpl; [done|]. destruct (_ <=? _)%Z; [done|]. rewrite IH. constructor.
Qed.

Lemma sort_by_key_perm {A} (f : A -> Z) l : sort_by_key f l ≡ₚ l.
Proof. induction l as [|x l IH]; simpl; [done|]. by rewrite insert_by_perm IH. Qed.

Lemma run_in_order_perm run : run_in_order run ≡ₚ run.
Proof.
  rewrite /run_in_order. destruct (_ ≫= _); [|done]. destruct (existsb _ _); [done|].
  apply sort_by_key_perm.
Qed.

Lemma in_raised_order_perm kept run : in_raised_order kept run ≡ₚ run.
Proof.
  rewrite /in_raised_order. destruct (_ ≫= _); [|done]. destruct (existsb _ _); [done|].
  apply sort_by_key_perm.
Qed.

Lemma runs_of_from kept : runs_of kept = runs_from 0 ∅ [] kept.
Proof. done. Qed.

(** ** The indexed plan follows the one-pass plan *)

Section planning.
Context (kept : list Waiting) (msaa_menu : option nat).

Definition slots_hold (slots : list (option Entry)) (n : nat) (ats : list nat) : Prop :=
  forall j w, kept !! j = Some w -> (n <= j)%nat \/ j ∈ ats -> slots !! j = Some (Some (w_entry w)).

Lemma take_group_holds n rest ats ws : forall slots,
  names kept ats ws -> NoDup ats -> Forall (fun a => a < n)%nat ats ->
  (forall a, a ∈ ats -> a ∉ rest) -> slots_hold slots n (ats ++ rest) ->
  exists slots', take_group slots ats = (map w_entry ws, slots') /\ slots_hold slots' n rest.
Proof.
  intros slots H. revert slots.
  induction H as [|a w ats ws Hw H IH]; intros slots Hnd Hlt Hdis Hs; simpl; [by exists slots|].
  apply NoDup_cons in Hnd as [Hna Hnd]. apply Forall_cons in Hlt as [Ha Hlt].
  rewrite /take_entry (Hs a w Hw) /=; [|right; set_solver].
  destruct (IH (<[a := None]> slots)) as (slots' & -> & Hs'); try done.
  - intros b Hb. apply Hdis. set_solver.
  - intros j x Hx Hj. have Hne : j ≠ a.
    { intros ->. destruct Hj as [|Hj]; [lia|]. apply elem_of_app in Hj as [?|?]; [done|].
      apply (Hdis a); [set_solver|done]. }
    rewrite list_lookup_insert_ne //. apply Hs; [done|]. set_solver.
  - by exists slots'.
Qed.

(** The run [run] of indexes is the one [ws] the one-pass plan gathers, unless
    the run is already planned. *)
Definition run_matches (run : list nat) (ws later : list Waiting) : Prop :=
  (names kept run ws /\ (ws = [] \/ run_over later = false)) \/ (ws = [] /\ run_over later = true).

Definition menus_at (n : nat) (l : list Waiting) : list Entry :=
  omap (fun p : nat * Waiting =>
    if is_menu (w_key p.2) && bool_decide (Some p.1 = msaa_menu) then Some (w_entry p.2) else None)
    (indexed n l).

Lemma menus_at_cons n w l :
  menus_at n (w :: l) =
  (if is_menu (w_key w) && bool_decide (Some n = msaa_menu) then [w_entry w] else []) ++
  menus_at (S n) l.
Proof. rewrite /menus_at indexed_cons /=. by destruct (_ && _). Qed.

Definition keyed (p : nat * Waiting) : nat * option Key := (p.1, w_key p.2).

(** A step that is not of a run. *)
Lemma plan_step_other runs s n w ats :
  kept !! n = Some w -> in_a_run (w_key w) = false -> Forall (fun a => a < n)%nat ats ->
  slots_hold (pl_entries s) n ats ->
  let s' := plan_step runs msaa_menu s (keyed (n, w)) in
  slots_hold (pl_entries s') (S n) ats /\
  pl_planned s' = pl_planned s ++ match w_key w with
                                  | Some (KUiaFocus _) => [PlannedFocus [w_entry w]]
                                  | Some (KMenuPopup _ _ _) => []
                                  | _ => [PlannedRun (w_entry w)]
                                  end /\
  pl_deferred s' = pl_deferred s ++
    (if is_menu (w_key w) && bool_decide (Some n = msaa_menu) then [w_entry w] else []).
Proof.
  intros Hw Hr Hlt Hs. rewrite /plan_step /keyed /= Hr /take_entry (Hs n w Hw) /=; [|by left].
  have Hs' : slots_hold (<[n := None]> (pl_entries s)) (S n) ats.
  { intros j x Hx Hj. have Hne : j ≠ n.
    { intros ->. destruct Hj as [|Hj]; [lia|]. rewrite Forall_forall in Hlt.
      specialize (Hlt _ Hj). simpl in Hlt. lia. }
    rewrite list_lookup_insert_ne //. apply Hs; [done|]. destruct Hj; [left; lia|by right]. }
  destruct (w_key w) as [[]|]; simpl in *; rewrite ?app_nil_r; try done.
  destruct (bool_decide _); by rewrite ?app_nil_r.
Qed.

Lemma names_nil run : names kept run [] -> run = [].
Proof. by inversion 1. Qed.

Lemma fold_plan_run n runs run ws w l s :
  kept !! n = Some w -> in_a_run (w_key w) = true ->
  (forall i, (n <= i)%nat -> runs !! i = None) -> NoDup run -> Forall (fun a => a < n)%nat run ->
  names kept run ws -> slots_hold (pl_entries s) n (if decide (ws = []) then [] else run) ->
  let s' := plan_step (in_raised_order kept <$> runs_from (S n) runs (run ++ [n]) l) msaa_menu s
              (keyed (n, w)) in
  pl_deferred s' = pl_deferred s /\
  if run_over l
  then pl_planned s' =
         pl_planned s ++ [PlannedFocus (map w_entry (rev (run_in_order (ws ++ [w]))))] /\
       slots_hold (pl_entries s') (S n) []
  else s' = s.
Proof.
  intros Hw Hr Hruns Hnd Hlt Hrun Hs. rewrite /plan_step /keyed Hr lookup_fmap
    (runs_from_newest n) ?last_snoc //; [|lia|by apply Hruns].
  destruct (run_over l); [simpl|done].
  have Hall : slots_hold (pl_entries s) n run.
  { destruct (decide (ws = [])) as [->|]; [|done]. by rewrite (names_nil _ Hrun). }
  have P : rev (in_raised_order kept (run ++ [n])) ≡ₚ run ++ [n].
  { rewrite -{2}(in_raised_order_perm kept (run ++ [n])). symmetry. apply Permutation_rev. }
  edestruct (take_group_holds (S n) [] (rev (in_raised_order kept (run ++ [n])))
    (rev (run_in_order (ws ++ [w]))) (pl_entries s)) as (slots' & Ht & Hs').
  - apply names_rev, names_in_order, Forall2_app; [exact Hrun|]. by repeat constructor.
  - rewrite P. apply NoDup_app. split_and!; [done| |apply NoDup_singleton].
    intros a Ha. rewrite Forall_forall in Hlt. specialize (Hlt _ Ha). simpl in Hlt.
    rewrite list_elem_of_singleton. lia.
  - rewrite P. apply Forall_app. split; [|by repeat constructor; lia].
    eapply Forall_impl; [exact Hlt|]. simpl. lia.
  - set_solver.
  - intros j x Hx Hj. apply Hall; [done|].
    rewrite app_nil_r in Hj. destruct (decide (n <= j)%nat) as [|Hn]; [by left|]. right.
    destruct Hj as [|Hj]; [lia|]. rewrite P elem_of_app list_elem_of_singleton in Hj.
    destruct Hj; [done|lia].
  - by rewrite Ht.
Qed.

Lemma fold_plan l : forall pre runs run ws s,
  kept = pre ++ l ->
  let n := length pre in
  (forall i, (n <= i)%nat -> runs !! i = None) -> NoDup run -> Forall (fun a => a < n)%nat run ->
  run_matches run ws l -> slots_hold (pl_entries s) n (if decide (ws = []) then [] else run) ->
  let s' := fold_left (plan_step (in_raised_order kept <$> runs_from n runs run l) msaa_menu)
              (map keyed (indexed n l)) s in
  pl_planned s' = pl_planned s ++ planned_of ws l /\
  pl_deferred s' = pl_deferred s ++ menus_at n l.
Proof.
  induction l as [|w l IH]; intros pre runs run ws s Hk n Hruns Hnd Hlt Hrun Hs.
  { simpl. by rewrite !app_nil_r. }
  have Hw : kept !! n = Some w by rewrite Hk list_lookup_middle.
  have Hk' : kept = (pre ++ [w]) ++ l by rewrite -app_assoc.
  have Hn' : length (pre ++ [w]) = S n by rewrite length_app /= Nat.add_1_r.
  have Hlt' : Forall (fun a => a < S n)%nat run
    by eapply Forall_impl; [exact Hlt|simpl; lia].
  rewrite menus_at_cons indexed_cons runs_from_cons. cbn [map fold_left run_step snd fst planned_of].
  specialize (IH (pre ++ [w])). cbv zeta in IH. rewrite Hn' in IH.
  have Hruns' i : (S n <= i)%nat -> runs !! i = None by intros ?; apply Hruns; lia.
  destruct (in_a_run (w_key w)) eqn:Er.
  - have Hnames : names kept run ws.
    { destruct Hrun as [[? _]|[_ Ho]]; [done|]. by rewrite /= Er in Ho. }
    have Hm : is_menu (w_key w) = false by destruct (w_key w) as [[]|].
    have Hnd' : NoDup (run ++ [n]).
    { apply NoDup_app. split_and!; [done| |apply NoDup_singleton]. intros a Ha.
      rewrite Forall_forall in Hlt. specialize (Hlt _ Ha). simpl in Hlt.
      rewrite list_elem_of_singleton. lia. }
    have Hlt2 : Forall (fun a => a < S n)%nat (run ++ [n])
      by apply Forall_app; split; [done|repeat constructor].
    rewrite Hm andb_false_l app_nil_l. destruct (fold_plan_run n runs run ws w l s) as [Hd Hp]; try done.
    destruct (run_over l) eqn:Eo; [destruct Hp as [Hp Hsl]|].
    + edestruct (IH runs (run ++ [n]) []) as [-> ->]; [done..|by right|done|].
      by rewrite Hp Hd -app_assoc.
    + rewrite Hp. apply IH; [done..| |].
      * left. split; [|by right]. apply Forall2_app; [done|]. by repeat constructor.
      * rewrite decide_False; [|by destruct ws]. intros j x Hx Hj.
        apply Hs; [done|]. rewrite elem_of_app list_elem_of_singleton in Hj.
        destruct (decide (j = n)) as [->|]; [by left|]. destruct Hj as [?|[Hj|?]]; [left; lia| |done].
        right. destruct (decide (ws = [])) as [->|]; [|done]. by rewrite (names_nil _ Hnames) in Hj.
  - edestruct (plan_step_other (in_raised_order kept <$> runs_from n runs run (w :: l)) s n w)
      as (Hsl & Hp & Hd); [done..| |exact Hs|].
    { destruct (decide _); [constructor|done]. }
    rewrite runs_from_cons in Hsl, Hp, Hd. cbn [run_step snd fst] in Hsl, Hp, Hd.
    rewrite Er in Hsl, Hp, Hd. rewrite !app_assoc -Hp -Hd.
    destruct (ends_a_run (w_key w)) eqn:Ee; [destruct (last run) as [k|] eqn:El|].
    + have Hws : ws = [].
      { destruct Hrun as [[H [?|Ho]]|[? _]]; [done| |done]. by rewrite /= Er Ee in Ho. }
      subst ws.
      apply IH; [done| |by apply NoDup_nil|by apply Forall_nil|left; split; [constructor|by left]|].
      2: exact Hsl.
      intros i Hi. rewrite lookup_insert_ne; [by apply Hruns'|].
      apply last_Some_elem_of in El. rewrite Forall_forall in Hlt. specialize (Hlt _ El).
      simpl in Hlt. lia.
    + apply IH; [done..| |done]. destruct Hrun as [[H Ho]|[-> Ho]].
      * left. split; [done|]. left. by destruct Ho as [|Ho]; [|rewrite /= Er Ee in Ho].
      * apply last_None in El as ->. left. split; [constructor|by left].
    + apply IH; [done..| |done]. by rewrite /run_matches /= Er Ee in Hrun *.
Qed.

End planning.

Lemma menus_at_none l n m :
  (forall i, rposition (fun w => is_menu (w_key w)) l = Some i -> m ≠ Some (n + i)%nat) ->
  rposition (fun w => is_menu (w_key w)) l = None \/ (forall i, m = Some i -> i < n)%nat ->
  menus_at m n l = [].
Proof.
  revert n. induction l as [|w l IH]; intros n Hne Hor; [done|].
  rewrite menus_at_cons. simpl in Hne, Hor.
  destruct Hor as [Hor|Hlt].
  - destruct (rposition _ l) eqn:E; [done|]. destruct (is_menu _); [done|].
    simpl. apply IH; [done|by left].
  - rewrite bool_decide_false; [|intros ?%eq_sym%Hlt; lia]. rewrite andb_false_r /=.
    apply IH; [|right; intros i ?%Hlt; lia]. intros i _ ?%Hlt. lia.
Qed.

Lemma rposition_none l :
  rposition (fun w => is_menu (w_key w)) l = None ->
  List.filter (fun w => is_menu (w_key w)) l = [].
Proof.
  induction l as [|w l IH]; simpl; [done|]. destruct (rposition _ l); [done|].
  destruct (is_menu _); [done|]. by intros _; apply IH.
Qed.

Lemma rposition_some l i :
  rposition (fun w => is_menu (w_key w)) l = Some i ->
  List.filter (fun w => is_menu (w_key w)) l <> [].
Proof.
  revert i. induction l as [|w l IH]; intros i; simpl; [done|].
  destruct (is_menu _); [done|]. destruct (rposition _ l) as [k|]; [|done]. intros _. by apply (IH k).
Qed.

Lemma menus_at_newest l n :
  menus_at (option_map (Nat.add n) (rposition (fun w => is_menu (w_key w)) l)) n l = newest_menu l.
Proof.
  revert n. induction l as [|w l IH]; intros n; [done|].
  rewrite menus_at_cons /newest_menu. cbn [rposition List.filter].
  destruct (rposition (fun w => is_menu (w_key w)) l) as [i|] eqn:E; cbn [option_map].
  - rewrite bool_decide_false; [|intros [= ?]; lia]. rewrite andb_false_r app_nil_l.
    rewrite -Nat.add_succ_comm. specialize (IH (S n)). cbn [option_map] in IH. rewrite IH.
    apply rposition_some in E. rewrite /newest_menu.
    destruct (is_menu _); [|done]. destruct (List.filter _ l) eqn:F; [done|]. done.
  - rewrite (rposition_none _ E). destruct (is_menu (w_key w)); cbn [option_map].
    + rewrite Nat.add_0_r bool_decide_true //= menus_at_none //; [|by left]. intros i Hi. by rewrite E in Hi.
    + rewrite menus_at_none //; by left.
Qed.

Lemma plan_is_spec waiting focused : plan waiting focused = plan_spec waiting focused.
Proof.
  rewrite /plan /plan_spec admit_is_spec. set (kept := admit_spec focused waiting).
  have -> : imap (fun i w => (i, w_key w)) kept = map keyed (indexed 0 kept).
  { symmetry. exact (fmap_imap _ keyed kept). }
  rewrite runs_of_from.
  edestruct (fold_plan kept (rposition (fun w => is_menu (w_key w)) kept) kept [] ∅ [] []
    {| pl_entries := map (fun w => Some (w_entry w)) kept; pl_planned := []; pl_deferred := [] |})
    as [Hp Hd];
    [done|done|by apply NoDup_nil|by apply Forall_nil|left; split; [constructor|by left]| |].
  - intros j w Hw _. cbn [pl_entries].
    etransitivity; [exact (list_lookup_fmap (fun w => Some (w_entry w)) kept j)|]. by rewrite Hw.
  - cbn [length] in Hp, Hd. cbv zeta. rewrite Hp Hd -(menus_at_newest kept 0).
    by destruct (rposition _ kept).
Qed.

(** What stays of a batch: everything but the older menu openings. *)
Definition batch_entries (kept : list Waiting) : list Entry :=
  map w_entry (List.filter (fun w => negb (is_menu (w_key w))) kept) ++ newest_menu kept.

Lemma planned_of_perm l : forall ws,
  ws = [] \/ run_over l = false ->
  flat_map planned_entries (planned_of ws l) ≡ₚ
  map w_entry (ws ++ List.filter (fun w => negb (is_menu (w_key w))) l).
Proof.
  induction l as [|w l IH]; intros ws H; simpl.
  { destruct H as [->|]; done. }
  simpl in H. destruct (in_a_run (w_key w)) eqn:Er.
  - have -> : is_menu (w_key w) = false by destruct (w_key w) as [[]|].
    destruct (run_over l) eqn:Eo; simpl.
    + rewrite IH; [|by left]. rewrite map_rev -Permutation_rev (Permutation_map _ (run_in_order_perm _)).
      by rewrite -map_app -app_assoc.
    + rewrite IH; [|by right]. by rewrite -app_assoc.
  - have H' : ws = [] \/ run_over l = false.
    { destruct H as [|H]; [by left|]. apply orb_false_iff in H as [_ ?]. by right. }
    rewrite flat_map_app (IH _ H') !map_app.
    destruct (w_key w) as [[]|]; simpl in *; try done; by rewrite Permutation_middle.
Qed.

Lemma menus_before_query_perm planned deferred :
  flat_map planned_entries (menus_before_query planned deferred) ≡ₚ
  flat_map planned_entries planned ++ deferred.
Proof.
  have Hm : flat_map planned_entries (map PlannedMenu deferred) = deferred.
  { induction deferred as [|e l IH]; [done|]. by rewrite /= IH. }
  rewrite /menus_before_query. destruct (last planned) as [[e| |]|] eqn:E;
    rewrite ?app_nil_r ?flat_map_app ?Hm //.
  destruct (is_barrier _); rewrite ?app_nil_r !flat_map_app Hm //.
  apply last_Some in E as [l ->]. rewrite removelast_last flat_map_app /= -!app_assoc.
  by rewrite (Permutation_app_comm deferred).
Qed.

Lemma plan_entries_perm waiting focused :
  flat_map planned_entries (plan waiting focused) ≡ₚ batch_entries (admit_spec focused waiting).
Proof.
  rewrite plan_is_spec /plan_spec menus_before_query_perm planned_of_perm; [done|by left].
Qed.

(** C27: the plan of a batch, made with indexes, slots and a map of runs, is the
    one-pass plan: the entries the limits admit, counted from the newest, each
    where it arrived, but each run of focus events and foreground changes as one,
    newest first, where its newest arrived; of the menu openings the newest alone,
    last but for the idle query. Every other entry admitted is planned exactly
    once. *)
Theorem plan_exact waiting focused :
  plan waiting focused = plan_spec waiting focused /\
  flat_map planned_entries (plan waiting focused) ≡ₚ batch_entries (admit_ waiting focused).
Proof.
  split; [apply plan_is_spec|]. rewrite admit_is_spec. apply plan_entries_perm.
Qed.

Lemma caret_after_update_perm l focused terminal : caret_after_update l focused terminal ≡ₚ l.
Proof.
  rewrite /caret_after_update. destruct terminal; try done; destruct focused as [[]|]; try done;
    (destruct (position _ _) as [at_|]; [|done]);
    (destruct (fold_left _ _ _) as [change|]; [|done]);
    (destruct (l !! at_) as [caret|] eqn:E; [|done]);
    by rewrite /insert_at -Permutation_middle take_drop -delete_Permutation.
Qed.
