(* ===== verification/IntakeProps.v ===== *)
(** What the intake queue promises ([Intake]): nothing owed an answer or a
    release is lost in any run, and where an idle query and a marker stand. *)

From S2P Require Import Prelude Tree TextModel Facts Messages InFlight OutpostEntry GapRecord Intake IntakePlan.

(** ** What may not be lost *)

(** An event with objects parked for it, a query of Core's, and an idle query:
    each is owed a release or an answer. *)
Definition durable (item : Item) : bool :=
  match item with ItemUia _ | ItemQuery _ _ | ItemBarrier _ _ => true | _ => false end.

Definition durables (es : list Entry) : list Item := List.filter durable (map entry_item es).

Lemma durables_app l k : durables (l ++ k) = durables l ++ durables k.
Proof. by rewrite /durables map_app List.filter_app. Qed.

Lemma durables_perm l k : l ≡ₚ k -> durables l ≡ₚ durables k.
Proof.
  rewrite /durables. intros P. apply (Permutation_map entry_item) in P. revert P.
  generalize (map entry_item l) (map entry_item k). induction 1; simpl.
  - done.
  - destruct (durable _); [by constructor|done].
  - destruct (durable y), (durable x); done || constructor.
  - by etrans.
Qed.

Definition waiting_ok (w : Waiting) : Prop :=
  (classify (entry_item (w_entry w))).1 = (w_key w, w_category w) /\
  forall m, w_marker w = Some m -> exists stamp, entry_item (w_entry w) = ItemFact (UiaFocusMarker m) stamp.

Lemma waiting_ok_key w k : waiting_ok w -> w_key w = Some k ->
  durable (entry_item (w_entry w)) = true -> exists event, entry_item (w_entry w) = ItemUia event.
Proof.
  intros [Hc _] Hk Hd. destruct (entry_item (w_entry w)); simpl in *; simplify_eq; try congruence.
  by eexists.
Qed.

(** A durable entry is within the limits, is of no run and is no menu. *)
Lemma waiting_ok_durable w : waiting_ok w -> durable (entry_item (w_entry w)) = true ->
  (forall focused newer, within_limits focused w newer = true) /\
  is_menu (w_key w) = false /\ in_a_run (w_key w) = false /\ ends_a_run (w_key w) = false.
Proof.
  intros [Hc _] Hd. rewrite /within_limits. destruct (entry_item (w_entry w)) as [|e| | | | | | |]; try done.
  2, 3: by injection Hc as <- <-.
  simpl in Hc. injection Hc as <- <-. by destruct (uia_kind e).
Qed.

Lemma uia_focus_not_durable w rid : waiting_ok w -> w_key w = Some (KUiaFocus rid) ->
  durable (entry_item (w_entry w)) = false.
Proof.
  intros [Hc _] Hk. rewrite Hk in Hc. destruct (entry_item (w_entry w)) as [|e| | | | | | |]; try done.
  simpl in Hc. by destruct (uia_kind e).
Qed.

Lemma admit_durables focused ws : Forall waiting_ok ws ->
  durables (map w_entry (admit_spec focused ws)) = durables (map w_entry ws).
Proof.
  induction 1 as [|w ws Hw H IH]; simpl; [done|]. rewrite map_app durables_app IH.
  rewrite /durables /=. destruct (durable _) eqn:E; [|destruct (within_limits _ _ _); by rewrite /= ?E].
  destruct (waiting_ok_durable w Hw E) as [-> _]. by rewrite /= E.
Qed.

Lemma durables_none es : Forall (fun e => durable (entry_item e) = false) es -> durables es = [].
Proof. rewrite /durables. induction 1 as [|e es He H IH]; simpl; [done|]. by rewrite He. Qed.

Lemma newest_menu_durables ws : Forall waiting_ok ws -> durables (newest_menu ws) = [].
Proof.
  intros H. rewrite /newest_menu. destruct (last _) as [w|] eqn:E; [|done]. simpl.
  apply durables_none. repeat constructor. apply last_Some_elem_of, list_elem_of_In, filter_In in E as [Hin Hm].
  apply list_elem_of_In in Hin. rewrite Forall_forall in H. apply H in Hin.
  destruct (durable _) eqn:Ed; [|done]. destruct (waiting_ok_durable w Hin Ed) as (_ & Hm' & _). congruence.
Qed.

Lemma admit_sub focused ws w : w ∈ admit_spec focused ws -> w ∈ ws.
Proof.
  induction ws as [|x ws IH]; simpl; [done|]. rewrite elem_of_app. intros [H|H]; [|set_solver].
  destruct (within_limits _ _ _); set_solver.
Qed.

Lemma admit_ok focused ws : Forall waiting_ok ws -> Forall waiting_ok (admit_spec focused ws).
Proof. rewrite !Forall_forall. intros H w Hw. apply H. by eapply admit_sub. Qed.

Lemma plan_durables ws focused : Forall waiting_ok ws ->
  durables (flat_map planned_entries (plan ws focused)) ≡ₚ durables (map w_entry ws).
Proof.
  intros H. rewrite (durables_perm _ _ (plan_entries_perm ws focused)) /batch_entries durables_app.
  have Ha := admit_ok focused ws H. rewrite newest_menu_durables // app_nil_r -(admit_durables focused ws) //.
  revert Ha. generalize (admit_spec focused ws). induction 1 as [|w l Hw Hl IH]; [done|].
  rewrite /= /durables /=. destruct (durable (entry_item (w_entry w))) eqn:E.
  - destruct (waiting_ok_durable w Hw E) as (_ & -> & _). simpl. rewrite E. by constructor.
  - destruct (is_menu _); simpl; rewrite ?E; exact IH.
Qed.

(** ** Pushing *)

Lemma position_some {A} (f : A -> bool) l i :
  position f l = Some i -> exists x, l !! i = Some x /\ f x = true.
Proof.
  revert i. induction l as [|x l IH]; intros i; simpl; [done|].
  destruct (f x) eqn:E; [intros [= <-]; by exists x|].
  destruct (position f l); simpl; [|done]. intros [= <-]. by apply IH.
Qed.

Lemma take_while_lookup {A} (f : A -> bool) l i x : take_while f l !! i = Some x -> l !! i = Some x.
Proof.
  revert i. induction l as [|y l IH]; intros [|i]; simpl; try done; destruct (f y); try done.
  apply IH.
Qed.

Lemma find_waiting_some l at_ f i :
  (at_ <= length l)%nat -> find_waiting l at_ f = Some i -> exists w, l !! i = Some w /\ f w = true.
Proof.
  intros Hat. rewrite /find_waiting. destruct (position _ _) as [back|] eqn:E.
  - intros [= <-]. apply position_some in E as (w & Hw & Hf). exists w. split; [|done].
    apply take_while_lookup in Hw. rewrite rev_alt -/(reverse _) in Hw.
    have Hb : (back < at_)%nat.
    { apply lookup_lt_Some in Hw. rewrite length_reverse length_take in Hw. lia. }
    rewrite reverse_lookup in Hw; [|rewrite length_take; lia].
    rewrite length_take Nat.min_l // lookup_take_lt in Hw; [|lia].
    by replace (at_ - 1 - back)%nat with (at_ - S back)%nat by lia.
  - clear E. destruct (position _ _) as [ahead|] eqn:E; [|done]. intros [= <-].
    apply position_some in E as (w & Hw & Hf). exists w. split; [|done].
    apply take_while_lookup in Hw. by rewrite lookup_drop in Hw.
Qed.

Lemma remove_waiting_some l at_ f i w rest :
  (at_ <= length l)%nat -> remove_waiting l at_ f = (Some (i, w), rest) ->
  l !! i = Some w /\ f w = true /\ rest = delete i l.
Proof.
  intros Hat. rewrite /remove_waiting. destruct (find_waiting _ _ _) as [j|] eqn:E; [|done].
  apply find_waiting_some in E as (x & Hx & Hf); [|done]. rewrite Hx. by intros [= <- <- <-].
Qed.

Lemma remove_waiting_none l at_ f rest : remove_waiting l at_ f = (None, rest) -> rest = l.
Proof.
  rewrite /remove_waiting. destruct (find_waiting _ _ _) as [j|]; [|by intros [= <-]].
  destruct (l !! j); [done|by intros [= <-]].
Qed.

Lemma move_old_spec old l place at_ m :
  (place < at_)%nat -> l !! place = Some m ->
  let '(l', place') := move_old old (l, place) at_ in
  l' ≡ₚ l /\ l' !! place' = Some m /\ (place' < S at_)%nat.
Proof.
  intros Hlt Hm. rewrite /move_old. destruct (l !! at_) as [w|] eqn:E; [|split_and!; [done..|lia]].
  destruct (state_change_of old w); [|split_and!; [done..|lia]]. split_and!; [|..|lia].
  - rewrite /insert_at -Permutation_middle take_drop. symmetry. by apply delete_Permutation.
  - have Hl : (place < length (delete at_ l))%nat.
    { rewrite length_delete; [|by eexists]. apply lookup_lt_Some in E. lia. }
    rewrite /insert_at lookup_app_r length_take; [|lia]. rewrite Nat.min_l; [|lia].
    replace (S place - place)%nat with 1%nat by lia. simpl. rewrite lookup_drop Nat.add_0_r.
    by rewrite list_lookup_delete_lt.
Qed.

Lemma old_focus_events_first_spec l place old m :
  l !! place = Some m ->
  let '(l', place') := old_focus_events_first l place old in l' ≡ₚ l /\ l' !! place' = Some m.
Proof.
  intros Hm. rewrite /old_focus_events_first.
  generalize (match position divides (drop (S place) l) with
              | Some at_ => (S place + at_)%nat
              | None => length l
              end - S place)%nat as k. intros k.
  have Hlt : (place < S place)%nat by lia. revert Hlt. generalize (S place) as start.
  revert l place Hm. induction k as [|k IH]; intros l place Hm start Hlt;
    cbn [seq fold_left]; [done|].
  have Hs := move_old_spec old l place start m Hlt Hm.
  destruct (move_old old (l, place) start) as [l' place']. destruct Hs as (P & Hm' & Hlt').
  specialize (IH l' place' Hm' (S start) Hlt'). destruct (fold_left _ _ _) as [l'' place''].
  destruct IH as [P' ?]. split; [|done]. by rewrite P'.
Qed.

(** A marked event is a selection or a notification, as the listener marks
    them. *)
Definition marked_ok (e : Entry) : bool :=
  match entry_item e with
  | ItemFact (UiaMarked _ fact) _ =>
      match fact with UiaSelection _ _ _ | UiaNotification _ _ _ => true | _ => false end
  | _ => true
  end.

Definition is_uia (item : Item) : bool := match item with ItemUia _ => true | _ => false end.

Definition held_waiting (ws : list Waiting) : list Item := durables (map w_entry ws).

Lemma held_perm l k : l ≡ₚ k -> held_waiting l ≡ₚ held_waiting k.
Proof. intros P. by apply durables_perm, Permutation_map. Qed.

Lemma held_cons w l :
  held_waiting (w :: l) = List.filter durable [entry_item (w_entry w)] ++ held_waiting l.
Proof. rewrite /held_waiting /durables /=. by destruct (durable _). Qed.

Lemma held_delete l i w : l !! i = Some w ->
  held_waiting l ≡ₚ List.filter durable [entry_item (w_entry w)] ++ held_waiting (delete i l).
Proof. intros H. rewrite -held_cons. by apply held_perm, delete_Permutation. Qed.

Lemma held_delete_lost l i w : l !! i = Some w -> durable (entry_item (w_entry w)) = false ->
  held_waiting (delete i l) ≡ₚ held_waiting l.
Proof. intros H Hd. by rewrite (held_delete l i w) //= Hd. Qed.

Lemma remove_client_focus_held l window raiser change :
  Forall waiting_ok l ->
  held_waiting (remove_client_focus l window raiser change) ≡ₚ held_waiting l /\
  Forall waiting_ok (remove_client_focus l window raiser change).
Proof.
  intros Hok. rewrite /remove_client_focus.
  destruct (remove_waiting _ _ _) as [[[i w]|] rest] eqn:E.
  - apply remove_waiting_some in E as (Hw & Hf & ->); [|done]. simpl. split; [|by apply Forall_delete].
    apply (held_delete_lost _ i w Hw). apply andb_true_iff in Hf as [Hk _].
    apply bool_decide_eq_true in Hk. destruct (durable _) eqn:Ed; [|done].
    have Hwok : waiting_ok w by eapply Forall_lookup_1.
    destruct (waiting_ok_durable w Hwok Ed) as (_ & _ & Hr & _). by rewrite Hk in Hr.
  - by apply remove_waiting_none in E as ->.
Qed.

(** A place that is the marker's stays the marker's. *)
Definition marks_place (l : list Waiting) (place : option nat) : Prop :=
  forall p, place = Some p -> exists w, l !! p = Some w /\ is_Some (w_marker w).

Lemma marker_not_durable w : waiting_ok w -> is_Some (w_marker w) ->
  durable (entry_item (w_entry w)) = false /\ w_key w = None.
Proof. intros [Hc Hm] [m H]. destruct (Hm m H) as [stamp E]. rewrite E in Hc *. by injection Hc. Qed.

Lemma marks_place_delete l i w place :
  Forall waiting_ok l -> l !! i = Some w -> w_key w <> None -> marks_place l place ->
  marks_place (delete i l) (option_map (fun p => if (i <? p)%nat then (p - 1)%nat else p) place).
Proof.
  intros Hok Hw Hk Hp q Hq. destruct place as [p|]; [|done]. simpl in Hq. injection Hq as <-.
  destruct (Hp p eq_refl) as (x & Hx & Hm). exists x. split; [|done].
  have Hne : i <> p.
  { intros ->. simplify_eq. destruct (marker_not_durable w) as [_ ?]; [|done|done].
    by eapply Forall_lookup_1. }
  destruct (Nat.ltb_spec i p).
  - rewrite list_lookup_delete_ge; [|lia]. by replace (S (p - 1)) with p by lia.
  - rewrite list_lookup_delete_lt //. lia.
Qed.

Lemma remove_keyed_held l k place :
  Forall waiting_ok l -> marks_place l place ->
  let '(removed, rest) := remove_keyed l k (default (length l) place) in
  let place' := match removed with
                | Some (at_, _) => option_map (fun p => if (at_ <? p)%nat then (p - 1)%nat else p) place
                | None => place
                end in
  exists gone, match removed with Some (_, w) => parked (entry_item (w_entry w)) | None => [] end =
    flat_map parked gone /\ Forall (fun i => is_uia i = true) gone /\
    held_waiting l ≡ₚ gone ++ held_waiting rest /\ Forall waiting_ok rest /\ marks_place rest place'.
Proof.
  intros Hok Hp. rewrite /remove_keyed.
  have Hat : (default (length l) place <= length l)%nat.
  { destruct place as [p|]; [|done]. destruct (Hp p eq_refl) as (x & Hx%lookup_lt_Some & _).
    simpl. lia. }
  destruct (remove_waiting _ _ _) as [[[i w]|] rest] eqn:E.
  - apply remove_waiting_some in E as (Hw & Hk & ->); [|done]. apply bool_decide_eq_true in Hk.
    have Hwok : waiting_ok w by eapply Forall_lookup_1.
    exists (List.filter durable [entry_item (w_entry w)]). split_and!.
    + simpl. destruct (entry_item (w_entry w)); simpl; by rewrite ?app_nil_r.
    + simpl. destruct (durable _) eqn:Ed; [|constructor]. repeat constructor.
      by destruct (waiting_ok_key w k Hwok Hk Ed) as [e ->].
    + by apply held_delete.
    + by apply Forall_delete.
    + apply (marks_place_delete _ _ w); [done..|congruence|done].
  - apply remove_waiting_none in E as ->. by exists [].
Qed.

Lemma replace_keyed_held l key place item :
  Forall waiting_ok l -> marks_place l place ->
  (forall window raiser, key = Some (KForeground window raiser) -> place = None) ->
  let '(unparked, rest, place') := replace_keyed l key place item in
  exists gone, unparked = flat_map parked gone /\ Forall (fun i => is_uia i = true) gone /\
    held_waiting l ≡ₚ gone ++ held_waiting rest /\ Forall waiting_ok rest /\
    marks_place rest place'.
Proof.
  intros Hok Hp Hfg. rewrite /replace_keyed. destruct key as [k|]; [|by exists []].
  have H := remove_keyed_held l k place Hok Hp.
  destruct (remove_keyed _ _ _) as [removed rest]. destruct H as (gone & Hu & Huia & P & Hok' & Hp').
  set (rest' := match k, item with
                | KForeground window raiser, ItemFact _ stamp => remove_client_focus rest window raiser stamp
                | _, _ => rest
                end).
  have Hrest : held_waiting rest' ≡ₚ held_waiting rest /\ Forall waiting_ok rest' /\
    (rest' = rest \/ place = None).
  { subst rest'. destruct k, item; try (by auto).
    destruct (remove_client_focus_held rest hwnd raiser stamp Hok') as [Hh ?].
    split_and!; [done..|]. right. by eapply Hfg. }
  destruct Hrest as (Hh & Hok2 & Hor).
  destruct removed as [[i w]|]; exists gone; (split_and!; [exact Hu|exact Huia|by rewrite Hh|exact Hok2|]);
    destruct Hor as [->| ->]; done.
Qed.

Lemma old_focus_first_held l place item marks :
  Forall waiting_ok l -> marks_place l place ->
  let '(rest, place') := old_focus_first l place item marks in
  held_waiting rest ≡ₚ held_waiting l /\ Forall waiting_ok rest /\ marks_place rest place'.
Proof.
  intros Hok Hp. rewrite /old_focus_first. destruct place as [p|]; [|done].
  destruct (Hp p eq_refl) as (m & Hm & Hmk).
  destruct item as [| |fact| | | | | |]; try done. destruct fact; try done.
  destruct (focused marks) as [[|old]|]; try done. destruct (existsb _ _); [|done].
  have Hs := old_focus_events_first_spec l p old m Hm.
  destruct (old_focus_events_first l p old) as [l' p']. destruct Hs as [P Hm'].
  split_and!; [by apply held_perm|by rewrite P|]. intros q [= <-]. by exists m.
Qed.

Lemma place_waiting_held l place w :
  Forall waiting_ok l -> marks_place l place -> waiting_ok w ->
  held_waiting (place_waiting l place w) ≡ₚ List.filter durable [entry_item (w_entry w)] ++ held_waiting l /\
  Forall waiting_ok (place_waiting l place w).
Proof.
  intros Hok Hp Hw. have Hback : held_waiting (l ++ [w]) ≡ₚ
    List.filter durable [entry_item (w_entry w)] ++ held_waiting l /\ Forall waiting_ok (l ++ [w]).
  { rewrite -held_cons. split; [|apply Forall_app; split; [done|by apply Forall_singleton]].
    apply held_perm. by rewrite Permutation_app_comm. }
  rewrite /place_waiting. destruct place as [p|]; [|exact Hback].
  destruct (Hp p eq_refl) as (m & Hm & Hmk). rewrite Hm. split; [|by apply Forall_insert].
  destruct (marker_not_durable m) as [Hd _]; [by eapply Forall_lookup_1|done|].
  rewrite -(held_delete_lost l p m Hm Hd) -held_cons. apply held_perm.
  rewrite insert_take_drop; [|by eapply lookup_lt_Some].
  by rewrite delete_take_drop Permutation_middle.
Qed.

Lemma filter_markers_held (f : Waiting -> bool) l :
  Forall waiting_ok l -> (forall w, f w = false -> is_Some (w_marker w)) ->
  held_waiting (List.filter f l) = held_waiting l /\ Forall waiting_ok (List.filter f l).
Proof.
  intros Hok Hf. induction Hok as [|w l Hw Hok [IH IH']]; simpl; [done|].
  rewrite (held_cons w l). destruct (f w) eqn:E; [by rewrite held_cons IH; auto|].
  destruct (marker_not_durable w Hw (Hf w E)) as [Hd _]. by rewrite IH /= Hd.
Qed.

Definition Intake_ok (s : Intake) : Prop :=
  Forall waiting_ok (waiting s) /\
  Forall (fun p => (exists e, p = PlannedRun e) \/
                   Forall (fun e => durable (entry_item e) = false) (planned_entries p)) (batch s) /\
  Forall (fun e => durable (entry_item e) = false) (option_list (idle s)).

(** What the intake holds that may not be lost. *)
Definition held (s : Intake) : list Item := durables (entries s).

Lemma held_eq s : held s = held_waiting (waiting s) ++ durables (flat_map planned_entries (batch s)).
Proof. by rewrite /held /entries durables_app. Qed.

Lemma resolves_without_read_held s e s' :
  Intake_ok s -> resolves_without_read s e = Some s' ->
  Intake_ok s' /\ held s' = held s /\ durable (entry_item e) = false /\ closed s' = closed s.
Proof.
  intros (Hw & Hb & Hi). rewrite /resolves_without_read.
  destruct (entry_item e) as [| |fact| | | | | |]; try done.
  have Hrun f : (forall w, f w = false -> is_Some (w_marker w)) ->
    Intake_ok (with_waiting s (List.filter f (waiting s))) /\
    held (with_waiting s (List.filter f (waiting s))) = held s /\
    durable (ItemFact fact stamp) = false /\ closed (with_waiting s (List.filter f (waiting s))) = closed s.
  { intros Hf. destruct (filter_markers_held f (waiting s) Hw Hf) as [Hh Hok].
    split_and!; [by split_and!| |done..]. by rewrite !held_eq /= Hh. }
  destruct fact; try done; intros [= <-]; apply Hrun; intros w.
  - intros H%negb_false_iff%bool_decide_eq_true. by rewrite H.
  - intros H%bool_decide_eq_false. by apply not_eq_None_Some.
Qed.

Lemma apply_gap_outcome_held s e :
  let '(e', resolves, s') := apply_gap_outcome s e in
  waiting s' = waiting s /\ batch s' = batch s /\ idle s' = idle s /\ closed s' = closed s /\
  (durable (entry_item e) = false -> durable (entry_item e') = false) /\
  (classify (entry_item e')).1 = (classify (entry_item e)).1 /\
  (resolves = None -> e' = e) /\
  (is_Some resolves -> exists w, entry_item e' = ItemGapRead w /\ durable (entry_item e) = false).
Proof.
  rewrite /apply_gap_outcome.
  destruct (entry_item e) as [| |fact stamp| | | | | |] eqn:E;
    try (rewrite ?E; split_and!; auto; by intros []).
  destruct fact as [| |marker focus nw| | | | | | | | |]; try (rewrite ?E; split_and!; auto; by intros []).
  destruct nw; [|rewrite ?E; split_and!; auto; by intros []].
  destruct (no_window _ _) as [[read|] g]; simpl; rewrite ?E; split_and!; auto; try done; try (by intros []).
  intros _. by eexists.
Qed.

Lemma unmark_ok e :
  marked_ok e = true ->
  let '(e', resolved) := unmark e in
  List.filter durable [entry_item e'] = List.filter durable [entry_item e] /\
  parked (entry_item e') = parked (entry_item e) /\
  (is_Some resolved -> exists k, (classify (entry_item e')).1.1 = Some k /\
     forall window raiser, k <> KForeground window raiser).
Proof.
  rewrite /marked_ok /unmark. intros H.
  destruct (entry_item e) as [| |fact stamp| | | | | |] eqn:E; rewrite ?E;
    try (split_and!; [done..|by intros []]).
  destruct fact as [| | | | | | |marker fact| | | |]; rewrite ?E; try (split_and!; [done..|by intros []]).
  destruct fact; try done; (split_and!; [done..|]); intros _; by eexists.
Qed.

(** A push to an open intake: what it holds afterwards, with the events it
    replaced, is what it held and the entry pushed. *)
Lemma push_held s e marks :
  Intake_ok s -> marked_ok e = true -> closed s = false ->
  let '(unparked, s') := push s e marks in
  Intake_ok s' /\ closed s' = false /\
  exists gone, unparked = flat_map parked gone /\ Forall (fun i => is_uia i = true) gone /\
    List.filter durable [entry_item e] ++ held s ≡ₚ gone ++ held s'.
Proof.
  intros Hok Hm Hcl. rewrite /push. have Hu := unmark_ok e Hm.
  destruct (unmark e) as [e0 resolved]. destruct Hu as (<- & _ & Hres).
  destruct (classify (entry_item e0)) as [[key category] window] eqn:Ec. rewrite Hcl.
  have Hg := apply_gap_outcome_held s e0.
  destruct (apply_gap_outcome s e0) as [[e1 gap_resolves] s1].
  destruct Hg as (Hw1 & Hb1 & Hi1 & Hc1 & Hd1 & Hcl1 & Hnone & Hsome).
  have Hok1 : Intake_ok s1 by rewrite /Intake_ok Hw1 Hb1 Hi1.
  have Hh1 : held s1 = held s by rewrite !held_eq Hw1 Hb1.
  destruct (resolves_without_read s1 e1) as [s2|] eqn:Er.
  { destruct (resolves_without_read_held s1 e1 s2 Hok1 Er) as (? & Hh & Hd & Hc).
    split_and!; [done|by rewrite Hc Hc1|]. exists []. split_and!; [done|constructor|].
    rewrite Hh Hh1. simpl.
    destruct gap_resolves as [m|].
    - destruct Hsome as (w & _ & ->); by eauto.
    - by rewrite -(Hnone eq_refl) Hd. }
  rewrite Ec /= in Hcl1.
  set (resolves := match entry_item e1 with
                   | ItemFact (UiaFocusRead_ marker _ _) _ => Some marker
                   | _ => match resolved with Some m => Some m | None => gap_resolves end
                   end).
  set (place := resolves ≫= _).
  have Hp : marks_place (waiting s1) place.
  { intros p. rewrite /place. destruct resolves as [m|]; [|done]. simpl.
    intros (w & Hw & Hb%bool_decide_eq_true)%position_some. exists w. by rewrite Hb. }
  have Hfg window' raiser : key = Some (KForeground window' raiser) -> place = None.
  { intros ->. rewrite /place. have -> : resolves = None; [|done]. rewrite /resolves.
    have Hr : match resolved with Some m => Some m | None => gap_resolves end = None.
    { destruct resolved as [m|].
      - destruct Hres as (k & Hk & Hne); [by eauto|]. injection Hk as <-. by destruct (Hne window' raiser).
      - destruct gap_resolves as [m|]; [|done]. destruct Hsome as (w & Hw & _); [by eauto|].
        by rewrite Hw in Hcl1. }
    destruct (entry_item e1) as [| |[] ?| | | | | |]; done. }
  destruct Hok1 as (Hw & Hb & Hi).
  have H := replace_keyed_held (waiting s1) key place (entry_item e1) Hw Hp Hfg.
  destruct (replace_keyed _ _ _ _) as [[unparked rest] place1].
  destruct H as (gone & Hun & Huia & P & Hw1' & Hp1).
  have H := old_focus_first_held rest place1 (entry_item e1) marks Hw1' Hp1.
  destruct (old_focus_first _ _ _ _) as [rest2 place2]. destruct H as (P2 & Hw2 & Hp2).
  edestruct (place_waiting_held rest2 place2) as [P3 Hw3]; [done..| |].
  2: { split_and!; [split_and!; [exact Hw3|done..]|by rewrite /= Hc1|]. exists gone.
       split_and!; [done..|]. rewrite -Hh1 !held_eq. cbn [waiting batch with_waiting].
       rewrite P3 P2 P. cbn [w_entry].
       have -> : List.filter durable [entry_item e1] = List.filter durable [entry_item e0].
       { destruct gap_resolves as [m|]; [|by rewrite Hnone].
         destruct Hsome as (w & -> & Hd); [by eauto|]. by rewrite /= Hd. }
       rewrite !app_assoc. by rewrite (Permutation_app_comm gone). }
  split; [done|]. simpl. intros m. destruct (entry_item e1) as [| |[] ?| | | | | |]; try done.
  intros [= <-]. by eexists.
Qed.


(** ** Handing out *)

Lemma planned_of_ok l : forall ws,
  Forall waiting_ok l -> Forall waiting_ok ws -> Forall (fun w => durable (entry_item (w_entry w)) = false) ws ->
  Forall (fun p => (exists e, p = PlannedRun e) \/
                   Forall (fun e => durable (entry_item e) = false) (planned_entries p)) (planned_of ws l).
Proof.
  induction l as [|w l IH]; intros ws Hl Hws Hd; [constructor|]. apply Forall_cons in Hl as [Hw Hl].
  cbn [planned_of]. destruct (in_a_run (w_key w)) eqn:Er.
  - have Hn : durable (entry_item (w_entry w)) = false.
    { destruct (durable _) eqn:E; [|done]. destruct (waiting_ok_durable w Hw E) as (_ & _ & Hr & _). congruence. }
    have Hd' : Forall (fun w => durable (entry_item (w_entry w)) = false) (ws ++ [w])
      by apply Forall_app; split; [done|by apply Forall_singleton].
    destruct (run_over l).
    + constructor; [|by apply IH]. right. apply Forall_map, Forall_rev. by rewrite run_in_order_perm.
    + apply IH; [done| |done]. apply Forall_app. split; [done|by apply Forall_singleton].
  - apply Forall_app. split; [|by apply IH].
    destruct (w_key w) as [[]|] eqn:Ek; repeat apply Forall_cons_2; try apply Forall_nil_2;
      try (left; by eexists).
    right. apply Forall_singleton. by eapply uia_focus_not_durable.
Qed.

Definition planned_ok (p : Planned) : Prop :=
  (exists e, p = PlannedRun e) \/
  Forall (fun e => durable (entry_item e) = false) (planned_entries p).

Lemma menus_before_query_ok planned deferred :
  Forall planned_ok planned -> Forall (fun e => durable (entry_item e) = false) deferred ->
  Forall planned_ok (menus_before_query planned deferred).
Proof.
  intros Hp Hd. have Hm : Forall planned_ok (map PlannedMenu deferred).
  { apply Forall_map. eapply Forall_impl; [exact Hd|]. intros e He. right. by apply Forall_singleton. }
  rewrite /menus_before_query. destruct (last planned) as [[e| |]|] eqn:E;
    try (rewrite app_nil_r; apply Forall_app; by split).
  destruct (is_barrier _); [|rewrite app_nil_r; apply Forall_app; by split].
  apply last_Some in E as [l ->]. rewrite removelast_last. apply Forall_app in Hp as [Hp _].
  repeat (apply Forall_app; split); [done..|]. apply Forall_singleton. left. by eexists.
Qed.

Lemma plan_ok ws focused : Forall waiting_ok ws -> Forall planned_ok (plan ws focused).
Proof.
  intros H. rewrite plan_is_spec. have Ha := admit_ok focused ws H. apply menus_before_query_ok.
  - by apply planned_of_ok.
  - rewrite /newest_menu. destruct (last _) as [w|] eqn:E; [|constructor]. apply Forall_singleton.
    apply last_Some_elem_of, list_elem_of_In, filter_In in E as [Hin Hm].
    apply list_elem_of_In in Hin. rewrite Forall_forall in Ha. apply Ha in Hin.
    destruct (durable _) eqn:Ed; [|done]. destruct (waiting_ok_durable w Hin Ed) as (_ & Hm' & _). congruence.
Qed.

Definition handed (out : option (Planned * N)) : list Entry :=
  flat_map (fun p => planned_entries p.1) (option_list out).

Lemma take_when_idle_held s :
  Intake_ok s ->
  let '(out, s') := take_when_idle s in
  Intake_ok s' /\ closed s' = closed s /\ held s = durables (handed out) ++ held s'.
Proof.
  intros (Hw & Hb & Hi). rewrite /take_when_idle. destruct (closed s) eqn:Ec; [by rewrite Ec|].
  split_and!; [split_and!; [done..|constructor]|by rewrite Ec|].
  rewrite {1}held_eq -held_eq. destruct (idle s) as [e|]; [|done]. simpl in *.
  by rewrite durables_none.
Qed.

Lemma next_held s marks :
  Intake_ok s ->
  let '(out, s') := next s marks in
  Intake_ok s' /\ closed s' = closed s /\ held s ≡ₚ durables (handed out) ++ held s'.
Proof.
  intros Hok. have [Hw [Hb Hi]] := Hok. rewrite /next. destruct (batch s) as [|p rest] eqn:Eb.
  2: { apply Forall_cons in Hb as [_ Hb]. split_and!; [by split_and!|done|].
       rewrite !held_eq Eb /= durables_app /handed /= app_nil_r !app_assoc.
       by rewrite (Permutation_app_comm (held_waiting _)). }
  destruct (0 <? ready (waiting s))%nat.
  2: { have H := take_when_idle_held s Hok. destruct (take_when_idle s). destruct H as (? & ? & ->). done. }
  set (due := caret_after_update _ _ _). set (n := ready (waiting s)) in *.
  have Hdue : Forall waiting_ok due by rewrite /due caret_after_update_perm; apply Forall_take.
  have Hheld : held s ≡ₚ durables (flat_map planned_entries (plan due (focused marks))) ++
                         held_waiting (drop n (waiting s)).
  { rewrite plan_durables // held_eq Eb /= app_nil_r -{1}(take_drop n (waiting s)).
    rewrite /held_waiting map_app durables_app. apply Permutation_app_tail.
    symmetry. by apply held_perm, caret_after_update_perm. }
  have Hpl := plan_ok due (focused marks) Hdue. cbn [batch].
  destruct (plan due (focused marks)) as [|p rest] eqn:Ep.
  - match goal with |- context [take_when_idle ?x] => have H := take_when_idle_held x end.
    destruct (take_when_idle _). destruct H as (? & ? & H).
    { split_and!; [by apply Forall_drop|constructor|done]. }
    split_and!; [done..|]. by rewrite -H Hheld held_eq /= app_nil_r.
  - apply Forall_cons in Hpl as [_ Hpl]. split_and!; [split_and!; [by apply Forall_drop|done..]|done|].
    rewrite Hheld held_eq /= durables_app /handed /= app_nil_r -!app_assoc.
    by rewrite (Permutation_app_comm (durables (flat_map _ _))).
Qed.

(** ** Every run of the intake *)

Definition asks (request_id : RequestId) (item : Item) : bool :=
  match item with ItemQuery id _ => bool_decide (id = request_id) | _ => false end.

Lemma durables_filter id es :
  durables (List.filter (fun e => negb (is_query_of id e)) es) =
  List.filter (fun i => negb (asks id i)) (durables es).
Proof.
  rewrite /durables. induction es as [|e es IH]; [done|]. simpl.
  change (is_query_of id e) with (asks id (entry_item e)).
  destruct (asks id (entry_item e)) eqn:Ea, (durable (entry_item e)) eqn:Ed; simpl;
    by rewrite ?Ea ?Ed ?IH.
Qed.

Lemma cancel_batch_durables id b :
  Forall planned_ok b ->
  durables (flat_map planned_entries
    (List.filter (fun p => negb (existsb (is_query_of id) (planned_entries p))) b)) =
  List.filter (fun i => negb (asks id i)) (durables (flat_map planned_entries b)).
Proof.
  induction 1 as [|p b Hp Hb IH]; [done|]. simpl. rewrite durables_app List.filter_app -IH.
  rewrite -durables_filter. destruct Hp as [[e ->]|Hp].
  - simpl. rewrite orb_false_r. destruct (is_query_of id e); [done|]. exact (durables_app [e] _).
  - rewrite (durables_none (List.filter _ _)); [by destruct (existsb _ _); rewrite /= ?durables_app ?(durables_none _ Hp)|].
    apply Forall_forall. intros e [He _]%list_elem_of_In%filter_In. rewrite Forall_forall in Hp.
    by apply Hp, list_elem_of_In.
Qed.

Lemma cancel_held s id :
  Intake_ok s ->
  let '(_, s') := cancel s id in
  Intake_ok s' /\ closed s' = closed s /\
  exists dropped, held s ≡ₚ dropped ++ held s' /\ Forall (fun i => asks id i = true) dropped.
Proof.
  intros Hok. have [Hw [Hb Hi]] := Hok. rewrite /cancel. destruct (Prelude.find _ _); [|by split_and!; [..|exists []]].
  split_and!; [split_and!|done|].
  - apply Forall_forall. intros w [Hin _]%list_elem_of_In%filter_In. rewrite Forall_forall in Hw.
    by apply Hw, list_elem_of_In.
  - apply Forall_forall. intros w [Hin _]%list_elem_of_In%filter_In. rewrite Forall_forall in Hb.
    by apply Hb, list_elem_of_In.
  - done.
  - exists (List.filter (asks id) (held s)). split.
    + rewrite {1}(filter_split (asks id) (held s)). f_equiv. rewrite !held_eq List.filter_app /=.
      rewrite (cancel_batch_durables id (batch s) Hb) /held_waiting -durables_filter.
      by rewrite List.filter_map_swap.
    + apply Forall_forall. intros i Hi'. by apply list_elem_of_In, filter_In in Hi' as [_ ?].
Qed.

Inductive Op :=
  | OpPush (entry : Entry) (marks : Marks)
  | OpNext (marks : Marks)
  | OpCancel (request_id : RequestId)
  | OpClose
  | OpPushAhead (es : list Entry)
  | OpWhenIdle (entry : Entry)
  | OpTakeIdle.

(** The objects released and the entries handed out by one operation. *)
Definition step (s : Intake) (op : Op) : list N * list Entry * Intake :=
  match op with
  | OpPush e marks => let '(unparked, s) := push s e marks in (unparked, [], s)
  | OpNext marks => let '(out, s) := next s marks in ([], handed out, s)
  | OpCancel id => ([], [], (cancel s id).2)
  | OpClose => let '(unparked, s) := close_intake s in (unparked, [], s)
  | OpPushAhead es => ([], [], push_ahead s es)
  | OpWhenIdle e => ([], [], when_idle s e)
  | OpTakeIdle => let '(e, s) := take_idle s in ([], option_list e, s)
  end.

Fixpoint run (s : Intake) (ops : list Op) : list N * list Entry * Intake :=
  match ops with
  | [] => ([], [], s)
  | op :: rest =>
      let '(released, out, s) := step s op in
      let '(released', out', s) := run s rest in
      (released ++ released', out ++ out', s)
  end.

Definition taken_in (op : Op) : list Entry :=
  match op with OpPush e _ => [e] | OpPushAhead es => es | _ => [] end.

(** What the reducer does with the intake: only selections and notifications
    are marked, only its own entries go ahead, and only a noted caret is kept
    for when nothing is ready. *)
Definition op_ok (op : Op) : bool :=
  match op with
  | OpPush e _ => marked_ok e
  | OpPushAhead es => forallb (fun e => negb (is_uia (entry_item e))) es
  | OpWhenIdle e => negb (durable (entry_item e))
  | _ => true
  end.

Definition withdrawn (ops : list Op) (item : Item) : Prop :=
  is_uia item = true \/ exists id query, item = ItemQuery id query /\ OpCancel id ∈ ops.

Lemma parked_durables items :
  flat_map parked (List.filter durable items) = flat_map parked items.
Proof. induction items as [|i l IH]; [done|]. simpl. destruct i; simpl; by rewrite ?IH. Qed.

Lemma not_uia_parked es : forallb (fun e => negb (is_uia (entry_item e))) es = true ->
  flat_map parked (durables es) = [].
Proof.
  rewrite /durables parked_durables. induction es as [|e es IH]; [done|].
  simpl. intros [He H]%andb_true_iff. rewrite IH //. by destruct (entry_item e).
Qed.

Lemma push_ahead_waiting n es l :
  (n <= length l)%nat ->
  fold_left (fun w p => insert_at p.1 (own_waiting p.2) w) (imap (fun i e => ((n + i)%nat, e)) es) l =
  take n l ++ map own_waiting es ++ drop n l.
Proof.
  revert n l. induction es as [|e es IH]; intros n l Hn; simpl; [by rewrite take_drop|].
  rewrite Nat.add_0_r. rewrite (imap_ext _ (fun i e => ((S n + i)%nat, e))); [|intros i x _; simpl; f_equal; lia].
  have Hl : length (take n l) = n by rewrite length_take; lia.
  rewrite IH /insert_at; [|rewrite length_app /= length_take length_drop; lia].
  rewrite take_app drop_app Hl. replace (S n - n)%nat with 1%nat by lia. simpl.
  rewrite take_take Nat.min_r; [|lia]. rewrite (drop_ge (take n l)); [|lia]. by rewrite -app_assoc.
Qed.

Lemma push_ahead_held s es :
  Intake_ok s -> closed s = false ->
  Intake_ok (push_ahead s es) /\ closed (push_ahead s es) = false /\
  held (push_ahead s es) = durables es ++ held s.
Proof.
  intros (Hw & Hb & Hi) Hc. rewrite /push_ahead Hc.
  have := push_ahead_waiting 0 es (waiting s) (Nat.le_0_l _). rewrite drop_0 take_0 /=. intros ->.
  have Hown e : w_entry (own_waiting e) = e.
  { rewrite /own_waiting. by destruct (classify _) as [[] ?]. }
  split_and!; [split_and!; [|done..]|done|].
  - simpl. apply Forall_app. split; [|done]. apply Forall_map, Forall_forall. intros e _.
    rewrite /waiting_ok Hown /own_waiting. by destruct (classify _) as [[] ?].
  - rewrite !held_eq /= /held_waiting map_app durables_app map_map -app_assoc. f_equal. f_equal.
    rewrite -{2}(map_id es). by apply map_ext.
Qed.

Lemma close_held s : Intake_ok s ->
  let '(released, s') := close_intake s in
  Intake_ok s' /\ closed s' = true /\ held s' = [] /\ released = flat_map parked (held s).
Proof.
  intros (Hw & Hb & Hi). split_and!; [by split_and!; constructor|done..|].
  rewrite /held /durables parked_durables.
  have Hidle : flat_map parked (map entry_item (option_list (idle s))) = [].
  { destruct (idle s) as [e|]; [|done]. apply Forall_cons in Hi as [Hi _]. simpl. by destruct (entry_item e). }
  have Hflat es : flat_map (fun e => parked (entry_item e)) es = flat_map parked (map entry_item es).
  { by rewrite !flat_map_concat_map map_map. }
  rewrite /entries app_assoc Hflat map_app flat_map_app Hidle. by rewrite app_nil_r.
Qed.

Lemma closed_push_held s e marks : closed s = true -> marked_ok e = true ->
  push s e marks = (flat_map parked (durables [e]), s).
Proof.
  intros Hc Hm. rewrite /push. have := unmark_ok e Hm. destruct (unmark e) as [e' r].
  intros (_ & Hp & _). destruct (classify _) as [[]]. rewrite Hc Hp /durables parked_durables /=.
  by rewrite app_nil_r.
Qed.

Lemma step_held s op : Intake_ok s -> op_ok op = true ->
  let '(released, out, s') := step s op in
  Intake_ok s' /\ exists dropped,
    durables (taken_in op) ++ held s ≡ₚ durables out ++ held s' ++ dropped /\
    released = flat_map parked dropped /\
    (closed s' = false -> closed s = false /\ Forall (withdrawn [op]) dropped).
Proof.
  intros Hok Hop. destruct op as [e marks|marks|id| |es|e|]; simpl.
  - destruct (closed s) eqn:Hc.
    { rewrite closed_push_held //. split; [done|]. exists (durables [e]). split_and!; [|done|congruence].
      exact (Permutation_app_comm (durables [e]) (held s)). }
    have H := push_held s e marks Hok Hop Hc. destruct (push s e marks) as [unparked s'].
    destruct H as (? & ? & gone & -> & Hu & P). split; [done|]. exists gone. split_and!; [|done|].
    + rewrite /= [held s' ++ _]Permutation_app_comm. exact P.
    + intros _. split; [done|]. eapply Forall_impl; [exact Hu|]. by left.
  - have H := next_held s marks Hok. destruct (next s marks) as [out s']. destruct H as (? & Hc & P).
    split; [done|]. exists []. rewrite app_nil_r. split_and!; [exact P|done|].
    intros ?. by rewrite -Hc.
  - have H := cancel_held s id Hok. destruct (cancel s id) as [t s'].
    destruct H as (? & Hc & dropped & P & Hd). split; [done|]. exists dropped. simpl. split_and!.
    + by rewrite P Permutation_app_comm.
    + symmetry. clear P. induction Hd as [|i l Hi Hd IH]; [done|]. simpl. rewrite IH. by destruct i.
    + intros ?. split; [by rewrite -Hc|]. eapply Forall_impl; [exact Hd|]. intros i Hi. right.
      destruct i as [| | |id' q| | | | |]; try done. apply bool_decide_eq_true in Hi as ->. exists id, q. set_solver.
  - have H := close_held s Hok. destruct (close_intake s) as [released s'].
    destruct H as (? & Hc & Hh & ->). split; [done|]. exists (held s). split_and!; [done|done|done].
  - split; [|exists (if closed s then durables es else [])].
    { destruct (closed s) eqn:Hc; [by rewrite /push_ahead Hc|]. by apply push_ahead_held. }
    destruct (closed s) eqn:Hc.
    + rewrite /push_ahead Hc. split_and!; [|by rewrite not_uia_parked|congruence].
      exact (Permutation_app_comm (durables es) (held s)).
    + destruct (push_ahead_held s es Hok Hc) as (_ & _ & ->). by rewrite app_nil_r.
  - split; [|exists []; rewrite app_nil_r; split_and!; done].
    have [Hw [Hb Hi]] := Hok. split_and!; [done..|]. apply Forall_singleton. by apply negb_true_iff.
  - have [Hw [Hb Hi]] := Hok. split; [split_and!; [done..|constructor]|]. exists [].
    rewrite app_nil_r (durables_none _ Hi). split_and!; done.
Qed.

Lemma run_held ops : forall s, Intake_ok s -> Forall (fun op => op_ok op = true) ops ->
  let '(released, out, s') := run s ops in
  Intake_ok s' /\ exists dropped,
    durables (flat_map taken_in ops) ++ held s ≡ₚ durables out ++ held s' ++ dropped /\
    released = flat_map parked dropped /\
    (closed s' = false -> closed s = false /\ Forall (withdrawn ops) dropped).
Proof.
  induction ops as [|op ops IH]; intros s Hok Hops; cbn [run].
  { split; [done|]. exists []. by rewrite app_nil_r. }
  apply Forall_cons in Hops as [Hop Hops]. have H := step_held s op Hok Hop.
  destruct (step s op) as [[released out] s1]. destruct H as (Hok1 & d & P & -> & Hc).
  specialize (IH s1 Hok1 Hops). destruct (run s1 ops) as [[released' out'] s2].
  destruct IH as (Hok2 & d' & P' & -> & Hc'). split; [done|]. exists (d ++ d'). split_and!.
  - simpl. rewrite !durables_app (Permutation_app_comm (durables (taken_in op))) -!app_assoc P.
    rewrite app_assoc (Permutation_app_comm _ (durables out)) -app_assoc.
    apply Permutation_app_head. rewrite app_assoc P' -!app_assoc.
    by do 2 apply Permutation_app_head; apply Permutation_app_comm.
  - by rewrite flat_map_app.
  - intros Hcl. destruct (Hc' Hcl) as [H1 Hd']. destruct (Hc H1) as [? Hd]. split; [done|].
    apply Forall_app. split; (eapply Forall_impl; [eassumption|]); intros i [|(id & q & -> & Hin)];
      [by left| |by left|]; right; exists id, q; set_solver.
Qed.


Section example.

Let snapshot : UiaSnapshotFact := {|
  runtime_id := [42; 7]%Z; fact_role := RoleButton; fact_name := None; fact_value := None;
  fact_states := StateSet.new; fact_details := NodeDetails_default |}.
Let changed (element : N) : Entry := own (ItemUia {|
  uia_kind := UiaProperty property.NAME; uia_parts := snapshot; uia_hwnd := 5%Z;
  uia_focus_window := 0%Z; uia_element := Some element |}) {| trace_number := element |} element.
Let query : Entry := own (ItemQuery {| asker := AskerReducer; request_number := 9 |} FocusNow_) {| trace_number := 3 |} 3.

Definition example_ops : list Op :=
  [OpPush (changed 1) Marks_default; OpPush query Marks_default; OpPush (changed 2) Marks_default;
   OpNext Marks_default; OpPush (changed 4) Marks_default; OpClose].

End example.


(** ** Where a batch ends *)

Lemma position_app {A} (f : A -> bool) l x : f x = false -> position f (l ++ [x]) = position f l.
Proof. intros Hx. induction l as [|y l IH]; simpl; [by rewrite Hx|]. rewrite IH. done. Qed.

Lemma take_while_app {A} (f : A -> bool) l x : f x = false -> take_while f (l ++ [x]) = take_while f l.
Proof. intros Hx. induction l as [|y l IH]; simpl; [by rewrite Hx|]. by rewrite IH. Qed.

Lemma take_while_length {A} (f : A -> bool) l : (length (take_while f l) <= length l)%nat.
Proof. induction l as [|y l IH]; simpl; [done|]. destruct (f y); simpl; lia. Qed.

Lemma fold_newest (f : nat * Waiting -> bool) n l : forall acc i,
  fold_left (fun newest (p : nat * Waiting) => if f p then Some p.1 else newest)
    (imap (fun i w => ((n + i)%nat, w)) l) acc = Some i ->
  acc = Some i \/ (i < n + length l)%nat.
Proof.
  revert n. induction l as [|w l IH]; intros n acc i; simpl; [by left|].
  rewrite (imap_ext _ (fun i w => ((S n + i)%nat, w))); [|intros j x _; simpl; f_equal; lia].
  intros [Ha|Ha]%IH; [|right; lia]. destruct (f _); [|by left]. injection Ha as <-. right. lia.
Qed.

(** The caret's move stays ahead of an idle query that ends the batch. *)
Lemma caret_after_update_query l w focused terminal :
  is_query w = true -> w_key w = None ->
  caret_after_update (l ++ [w]) focused terminal = caret_after_update l focused terminal ++ [w].
Proof.
  intros Hq Hk. rewrite /caret_after_update.
  have Hev : match entry_item (w_entry w) with ItemMsaa _ _ _ _ _ | ItemUia _ => true | _ => false end = false.
  { rewrite /is_query in Hq. by destruct (entry_item (w_entry w)). }
  destruct terminal; try done; destruct focused as [[|rid]|]; try done.
  all: rewrite position_app; [|rewrite Hk; cbn; by rewrite bool_decide_false].
  all: destruct (position _ l) as [at_|] eqn:Ep; [|done].
  all: apply position_some in Ep as (x & Hx & _); have Hat := lookup_lt_Some _ _ _ Hx.
  all: rewrite drop_app_le; [|lia]; rewrite take_while_app //.
  all: destruct (fold_left _ _ _) as [change|] eqn:Ef; [|done].
  all: apply fold_newest in Ef as [?|Hc]; [done|].
  all: rewrite lookup_app_l // Hx.
  all: set (events := take_while _ _) in Hc; have Hl : (length events <= length (drop (S at_) l))%nat
    by apply take_while_length.
  all: rewrite length_drop in Hl; have -> : delete at_ (l ++ [w]) = delete at_ l ++ [w]
    by rewrite !delete_take_drop take_app_le ?drop_app_le ?app_assoc //; lia.
  all: have Hlen : (change <= length (delete at_ l))%nat
    by rewrite length_delete; [lia|by eexists].
  all: by rewrite /insert_at take_app_le // drop_app_le // -app_assoc.
Qed.

Definition no_query (ws : list Waiting) : Prop := Forall (fun w => is_query w = false) ws.
Definition no_barrier (es : list Entry) : Prop := Forall (fun e => is_barrier (entry_item e) = false) es.

Lemma planned_of_query l w : forall ws,
  w_key w = None -> no_query ws -> no_query l -> exists planned,
    planned_of ws (l ++ [w]) = planned ++ [PlannedRun (w_entry w)] /\
    no_barrier (flat_map planned_entries planned).
Proof.
  intros ws Hk. revert ws. induction l as [|x l IH]; intros ws Hws Hl.
  { exists []. simpl. rewrite Hk. split; [done|constructor]. }
  apply Forall_cons in Hl as [Hx Hl]. rewrite -app_comm_cons. cbn [planned_of].
  have Hws' : no_query (ws ++ [x]) by apply Forall_app; split; [done|by apply Forall_singleton].
  destruct (in_a_run (w_key x)).
  - destruct (run_over _); [|by apply IH]. destruct (IH []) as (pl & -> & Hin); [constructor|done|].
    eexists (_ :: pl). split; [done|]. simpl. apply Forall_app. split; [|done].
    apply Forall_map, Forall_rev. by rewrite run_in_order_perm.
  - destruct (IH ws) as (pl & -> & Hin); [done..|]. eexists (_ ++ pl). rewrite -app_assoc. split; [done|].
    rewrite flat_map_app. apply Forall_app. split; [|done].
    destruct (w_key x) as [[]|]; simpl; repeat apply Forall_cons_2; try apply Forall_nil_2; exact Hx.
Qed.

Lemma admit_query focused l w : waiting_ok w -> is_query w = true -> exists kept,
  admit_spec focused (l ++ [w]) = kept ++ [w] /\ forall x, x ∈ kept -> x ∈ l.
Proof.
  intros Hw Hq. have Hd : durable (entry_item (w_entry w)) = true.
  { rewrite /is_query in Hq. by destruct (entry_item (w_entry w)). }
  destruct (waiting_ok_durable w Hw Hd) as (Hin & _).
  induction l as [|x l (kept & IH & Hs)]; simpl.
  - exists []. rewrite Hin. split; [done|set_solver].
  - rewrite IH. destruct (within_limits focused x (l ++ [w])).
    + exists (x :: kept). split; [done|set_solver].
    + exists kept. split; [done|set_solver].
Qed.

Lemma no_query_menu ws : no_query ws -> no_barrier (newest_menu ws).
Proof.
  intros H. rewrite /newest_menu. destruct (last _) as [w|] eqn:E; [|constructor]. apply Forall_singleton.
  apply last_Some_elem_of, list_elem_of_In, filter_In in E as [Hin _].
  apply list_elem_of_In in Hin. rewrite /no_query Forall_forall in H. by apply H in Hin.
Qed.

(** A batch that ends with an idle query is planned with it last, and holds no
    other. *)
Lemma plan_query focused l w :
  Forall waiting_ok (l ++ [w]) -> is_query w = true -> no_query l -> exists planned,
    plan (l ++ [w]) focused = planned ++ [PlannedRun (w_entry w)] /\
    no_barrier (flat_map planned_entries planned).
Proof.
  intros Hok Hq Hl. apply Forall_app in Hok as [_ Hw]. apply Forall_cons in Hw as [Hw _].
  have Hk : w_key w = None.
  { destruct Hw as [Hc _]. rewrite /is_query in Hq. destruct (entry_item (w_entry w)); try done.
    by injection Hc as <-. }
  rewrite plan_is_spec /plan_spec. destruct (admit_query focused l w Hw Hq) as (kept & -> & Hsub).
  have Hkept : no_query kept.
  { apply Forall_forall. intros x Hx. rewrite /no_query Forall_forall in Hl. by apply Hl, Hsub. }
  destruct (planned_of_query kept w [] Hk) as (pl & -> & Hpl); [constructor|done|].
  rewrite /menus_before_query last_snoc. rewrite /is_query in Hq. rewrite Hq removelast_last app_assoc.
  eexists. split; [done|]. rewrite flat_map_app. apply Forall_app. split; [done|].
  have -> : newest_menu (kept ++ [w]) = newest_menu kept.
  { by rewrite /newest_menu List.filter_app /= Hk app_nil_r. }
  have Hm := no_query_menu kept Hkept. induction Hm; simpl; [constructor|by constructor].
Qed.

Lemma position_none {A} (f : A -> bool) l : position f l = None -> Forall (fun x => f x = false) l.
Proof.
  induction l as [|x l IH]; simpl; [constructor|]. destruct (f x) eqn:E; [done|].
  destruct (position f l); [done|]. constructor; [done|by apply IH].
Qed.

Lemma position_before {A} (f : A -> bool) l i :
  position f l = Some i -> Forall (fun x => f x = false) (take i l).
Proof.
  revert i. induction l as [|x l IH]; intros i; simpl; [done|].
  destruct (f x) eqn:E; [intros [= <-]; constructor|].
  destruct (position f l) as [k|]; [|done]. intros [= <-]. constructor; [done|by apply IH].
Qed.

Lemma divides_false ws : Forall (fun w => divides w = false) ws ->
  Forall (fun w => w_marker w = None) ws /\ no_query ws.
Proof.
  rewrite /no_query !Forall_forall. intros H. split; intros w Hw; apply H in Hw;
    apply orb_false_iff in Hw as [Hm Hq]; [|done].
  apply bool_decide_eq_false in Hm. by apply eq_None_not_Some.
Qed.

(** The entries ready: none a marker, and none but the last an idle query. *)
Lemma ready_cases ws :
  let due := take (ready ws) ws in let later := drop (ready ws) ws in
  Forall (fun w => w_marker w = None) due /\
  ((no_query due /\ (later = [] \/ exists w, head later = Some w /\ is_Some (w_marker w))) \/
   exists l w, due = l ++ [w] /\ no_query l /\ is_query w = true).
Proof.
  rewrite /ready. destruct (position divides ws) as [at_|] eqn:E.
  - have Hb := position_before _ _ _ E. apply divides_false in Hb as [Hm Hq].
    apply position_some in E as (w & Hw & Hd). rewrite Hw. destruct (bool_decide _) eqn:Em.
    + apply bool_decide_eq_true in Em. split; [done|]. left. split; [done|]. right. exists w.
      by rewrite head_lookup lookup_drop Nat.add_0_r.
    + rewrite /divides Em /= in Hd. rewrite (take_S_r _ _ w) //. apply bool_decide_eq_false in Em.
      split; [|right; by exists (take at_ ws), w].
      apply Forall_app. split; [done|]. apply Forall_singleton. by apply eq_None_not_Some.
  - rewrite firstn_all drop_all. apply position_none, divides_false in E as [? ?].
    split; [done|]. left. split; [done|by left].
Qed.

Definition planned_now (out : option (Planned * N)) : list Planned := option_list (option_map fst out).

Lemma next_planned s marks : batch s = [] ->
  let '(out, s') := next s marks in
  waiting s' = drop (ready (waiting s)) (waiting s) /\
  (0 < ready (waiting s) -> plan (caret_after_update (take (ready (waiting s)) (waiting s)) (focused marks)
       (terminal marks)) (focused marks) <> [] ->
   planned_now out ++ batch s' =
     plan (caret_after_update (take (ready (waiting s)) (waiting s)) (focused marks)
       (terminal marks)) (focused marks))%nat.
Proof.
  intros Hb. rewrite /next Hb. destruct (Nat.ltb_spec 0 (ready (waiting s))) as [Hr|Hr].
  - cbn [batch]. destruct (plan _ _) as [|p rest] eqn:Ep; [|done].
    rewrite /take_when_idle /=. by destruct (closed s).
  - have -> : ready (waiting s) = 0%nat by lia. rewrite drop_0.
    rewrite /take_when_idle. destruct (closed s); (split; [done|lia]).
Qed.

(** In every run, a new batch takes the entries waiting up to the first marker,
    whose read it waits for, or up to and with the first idle query; the query is
    then the last entry of its batch and its only query, so it is reached after
    everything that waited ahead of it, and nothing behind it or behind a marker
    is planned with it. *)
Theorem next_stops_at_marker_and_query ops marks released out s :
  Forall (fun op => op_ok op = true) ops -> run Intake_default ops = (released, out, s) ->
  batch s = [] ->
  let '(next_out, s') := next s marks in
  exists due, waiting s = due ++ waiting s' /\ Forall (fun w => w_marker w = None) due /\
    ((no_query due /\
      (waiting s' = [] \/ exists w, head (waiting s') = Some w /\ is_Some (w_marker w))) \/
     exists l w planned, due = l ++ [w] /\ no_query l /\ is_query w = true /\
       planned_now next_out ++ batch s' = planned ++ [PlannedRun (w_entry w)] /\
       no_barrier (flat_map planned_entries planned)).
Proof.
  intros Hops Hrun Hb. have H : Intake_ok Intake_default by split_and!; constructor.
  have R := run_held ops Intake_default H Hops. rewrite Hrun in R. destruct R as [[Hw _] _].
  have Hn := next_planned s marks Hb. destruct (next s marks) as [next_out s'].
  destruct Hn as [Hws Hpl]. exists (take (ready (waiting s)) (waiting s)).
  rewrite Hws take_drop. split; [done|]. have [Hm Hc] := ready_cases (waiting s).
  split; [done|]. destruct Hc as [[? ?]|(l & w & Hdue & Hl & Hq)]; [by left|]. right.
  rewrite Hdue in Hpl *. have Hok : Forall waiting_ok (l ++ [w]) by rewrite -Hdue; apply Forall_take.
  have Hk : w_key w = None.
  { apply Forall_app in Hok as [_ Hok]. apply Forall_cons in Hok as [[Hc _] _].
    rewrite /is_query in Hq. destruct (entry_item (w_entry w)); try done. by injection Hc as <-. }
  rewrite caret_after_update_query // in Hpl.
  have Hperm := caret_after_update_perm l (focused marks) (terminal marks).
  edestruct (plan_query (focused marks) (caret_after_update l (focused marks) (terminal marks)) w)
    as (planned & Hp & Hnb); [by rewrite Hperm|done|by rewrite /no_query Hperm|].
  exists l, w, planned. split_and!; try done. rewrite Hpl //.
  - destruct (ready (waiting s)); [by destruct l|lia].
  - rewrite Hp. by destruct planned.
Qed.

Lemma next_stops_at_marker_and_query_witness :
  let barrier := own (ItemBarrier (AskerRound 1) false) {| trace_number := 1 |} 1 in
  let query := own (ItemQuery {| asker := AskerShell; request_number := 2 |} FocusNow_)
                 {| trace_number := 2 |} 2 in
  let ops := [OpPush query Marks_default; OpPush barrier Marks_default;
              OpPush (with_item query (ItemFact (UiaFocusMarker 1) None)) Marks_default] in
  length (waiting (run Intake_default ops).2) = 3%nat /\
  let '(next_out, s') := next (run Intake_default ops).2 Marks_default in
  exists due, waiting (run Intake_default ops).2 = due ++ waiting s' /\
    Forall (fun w => w_marker w = None) due /\
    ((no_query due /\
      (waiting s' = [] \/ exists w, head (waiting s') = Some w /\ is_Some (w_marker w))) \/
     exists l w planned, due = l ++ [w] /\ no_query l /\ is_query w = true /\
       planned_now next_out ++ batch s' = planned ++ [PlannedRun (w_entry w)] /\
       no_barrier (flat_map planned_entries planned)).
Proof.
  intros barrier query ops. split; [reflexivity|].
  apply (next_stops_at_marker_and_query ops Marks_default (run Intake_default ops).1.1
           (run Intake_default ops).1.2); [repeat constructor|reflexivity|reflexivity].
Defined.
