(* ===== verification/Follow.v ===== *)
(** What the outpost follows, and what a program's commit changes of it:
    verbatim-outpost-logic's [follow.rs]. A program is given a copy of the facts
    and applies its own commits to it with the function the reducer applies them
    with, but with no clock. Ranges let go of are a set, their order saying
    nothing. *)

From S2P Require Import Prelude Tree TextModel FocusRules Facts Messages InFlight OutpostEntry GapRecord Intake Verdicts CaretWatch HeldReports TextFacts.

Inductive Group := Base | Extended | ExtendedWithoutTextEvents.

#[export] Instance Group_eq_dec : EqDecision Group.
Proof. solve_decision. Defined.

Definition DialogMemo : Type := option (NodeId * option string).

Record Tracking := {
  tracking_role : option Role;
  tracking_batch : option N;
  tracking_chain : list NodeSnapshot;
  tracking_window : option Z;
  tracking_focus : option NodeId;
  tracking_focus_role : option Role;
  tracking_dialog : DialogMemo;
  tracking_value_from_selection : option NodeId;
}.

Definition Tracking_default : Tracking := {|
  tracking_role := None; tracking_batch := None; tracking_chain := []; tracking_window := None;
  tracking_focus := None; tracking_focus_role := None; tracking_dialog := None;
  tracking_value_from_selection := None |}.

(** [CaretRead]: the node read and when the read began. *)
Definition CaretRead : Type := option (N * N).

(** [CaretRead::covers]. *)
Definition covers (self : CaretRead) (node observed_us : N) : bool :=
  match self with Some (read, at_) => (read =? node) && (observed_us <=? at_) | None => false end.

Inductive OwedWork := FirstRead (caret : option CaretReport) | Slider.

Record Owed := {
  owed_node : NodeId;
  owed_work : OwedWork;
  owed_trace : TraceId;
  owed_observed_at_us : N;
  attempting : option N;
}.

(** ** The focus's path *)

Record FocusPath := { chain : list (list Z * option Window); cut : bool }.

Record Route := { route_window : Window; path : list (list Z); route_runtime_id : list Z }.

(** [FocusPath::of]. *)
Definition path_of (read : UiaFocusRead) : FocusPath := {|
  chain := (runtime_id (read_snapshot read), Window.new (read_hwnd read)) ::
           map (fun a => (runtime_id (ancestor_snapshot a), Window.new (ancestor_hwnd a)))
             (ancestors read);
  cut := match ancestors_end read with Top => false | _ => true end |}.

Definition is_cut_at (self : FocusPath) (id : list Z) : bool :=
  cut self &&
  match chain self with (first, _) :: _ => bool_decide (first = id) | [] => false end &&
  forallb (fun p => bool_decide (p.2 = None)) (chain self).

(** The first element with a window of its own, and how many lie below it. *)
Fixpoint first_window (from : list (list Z * option Window)) : option (nat * Window) :=
  match from with
  | [] => None
  | (_, Some window) :: _ => Some (0%nat, window)
  | (_, None) :: rest => option_map (fun p => (S p.1, p.2)) (first_window rest)
  end.

Definition route_to (self : FocusPath) (id : list Z) : option Route :=
  index ← position (fun p => bool_decide (p.1 = id)) (chain self);
  let from := drop index (chain self) in
  '(above, window) ← first_window from;
  Some {| route_window := window; path := rev (map fst (take above from));
          route_runtime_id := id |}.

(** ** A commit *)

Record Target := {
  wanted : option (NodeId * Group * option NodeId);
  target_element : option N;
  target_slider : option N;
}.

Record Follow := {
  follow_node : NodeId;
  follow_role : Role;
  follow_object : option Object;
  follow_window : option Z;
  follow_chain : list NodeSnapshot;
  follow_batch : N;
  redirected : bool;
  follow_terminal : bool;
  console : bool;
  follow_target : Target;
  follow_owed : option OwedWork;
  follow_trace : TraceId;
  follow_observed_at_us : N;
  adopt : bool;
}.

Inductive WatchChange :=
  | WatchOpen (open : OpenWatch) (console : bool)
  | WatchTake (node : NodeId)
  | WatchCheckedChange (checked : Checked).

Inductive Report :=
  | Reported (focus : Focus) (evidence : Evidence)
  | AnsweredReport (focus : Focus).

Inductive GapNote :=
  | NoteCopyDropped (window top_level : Z) (at_us : N) (trace : TraceId)
  | NoteWindowDestroyed (hwnd : Z).

Inductive Found := FoundHung | FoundAnswered.

Record Change := {
  result : option OutpostToCore;
  report : option Report;
  follow : option Follow;
  change_foreground : option (NodeId * Role * N);
  dialog : option DialogMemo;
  change_value_from_selection : option (option NodeId);
  change_focus_path : option FocusPath;
  change_element : option (NodeId * Target);
  owed_done : option NodeId;
  change_caret_read : option (NodeId * N);
  change_watch : option WatchChange;
  drop_system_caret : bool;
  absorb : option Z;
  clear_redirect : bool;
  change_states : option (NodeId * StateSet.t);
  change_gap : list GapNote;
  noted_caret : option (NodeId * TraceId * N * EventTiming);
  replaced : option NodeId;
  change_texts : list TextChange;
  change_found : option (Window * Found);
}.

Definition Change_default : Change := {|
  result := None; report := None; follow := None; change_foreground := None; dialog := None;
  change_value_from_selection := None; change_focus_path := None; change_element := None;
  owed_done := None; change_caret_read := None; change_watch := None; drop_system_caret := false;
  absorb := None; clear_redirect := false; change_states := None; change_gap := [];
  noted_caret := None; replaced := None; change_texts := []; change_found := None |}.

(** ** The facts *)

Record FollowState := {
  tracking : Tracking;
  followed : option (NodeId * Group * option NodeId);
  followed_element : option N;
  followed_slider : option N;
  kept_groups : list (NodeId * Group * N);
  watch : Watch;
  caret_read : CaretRead;
  focus_path : option FocusPath;
  owed : option Owed;
}.

Definition FollowState_default : FollowState := {|
  tracking := Tracking_default; followed := None; followed_element := None;
  followed_slider := None; kept_groups := []; watch := NoWatch; caret_read := None;
  focus_path := None; owed := None |}.

Record Facts := {
  held : Held;
  following : FollowState;
  marks : Marks;
  verdicts : Verdicts;
  text : TextFacts;
}.

Definition Facts_default : Facts := {|
  held := Held_default; following := FollowState_default; marks := Marks_default;
  verdicts := Verdicts_default; text := TextFacts_default |}.

Record Subscription := {
  newest : option (N * Group);
  sub_slider : option N;
  sub_kept : list (N * Group);
}.

Record Applied := {
  taken : option OpenWatch;
  applied_opened : bool;
  resumed : bool;
  applied_answers : list Answer;
  subscribe : option Subscription;
  unfollowed : list N;
  ranges : gset (N * RangeKey);
}.

Definition Applied_default : Applied := {|
  taken := None; applied_opened := false; resumed := false; applied_answers := [];
  subscribe := None; unfollowed := []; ranges := ∅ |}.

(** ** Field updates *)

Definition with_tracking (s : FollowState) (t : Tracking) : FollowState := {|
  tracking := t; followed := followed s; followed_element := followed_element s;
  followed_slider := followed_slider s; kept_groups := kept_groups s; watch := watch s;
  caret_read := caret_read s; focus_path := focus_path s; owed := owed s |}.
Definition with_followed (s : FollowState) (f : option (NodeId * Group * option NodeId))
    (element slider : option N) (kept : list (NodeId * Group * N)) : FollowState := {|
  tracking := tracking s; followed := f; followed_element := element;
  followed_slider := slider; kept_groups := kept; watch := watch s;
  caret_read := caret_read s; focus_path := focus_path s; owed := owed s |}.
Definition with_watch (s : FollowState) (w : Watch) : FollowState := {|
  tracking := tracking s; followed := followed s; followed_element := followed_element s;
  followed_slider := followed_slider s; kept_groups := kept_groups s; watch := w;
  caret_read := caret_read s; focus_path := focus_path s; owed := owed s |}.
Definition with_caret_read (s : FollowState) (r : CaretRead) : FollowState := {|
  tracking := tracking s; followed := followed s; followed_element := followed_element s;
  followed_slider := followed_slider s; kept_groups := kept_groups s; watch := watch s;
  caret_read := r; focus_path := focus_path s; owed := owed s |}.
Definition with_focus_path (s : FollowState) (p : option FocusPath) : FollowState := {|
  tracking := tracking s; followed := followed s; followed_element := followed_element s;
  followed_slider := followed_slider s; kept_groups := kept_groups s; watch := watch s;
  caret_read := caret_read s; focus_path := p; owed := owed s |}.
Definition with_owed (s : FollowState) (o : option Owed) : FollowState := {|
  tracking := tracking s; followed := followed s; followed_element := followed_element s;
  followed_slider := followed_slider s; kept_groups := kept_groups s; watch := watch s;
  caret_read := caret_read s; focus_path := focus_path s; owed := o |}.

Definition with_following (f : Facts) (s : FollowState) : Facts := {|
  held := held f; following := s; marks := marks f; verdicts := verdicts f; text := text f |}.
Definition with_marks (f : Facts) (m : Marks) : Facts := {|
  held := held f; following := following f; marks := m; verdicts := verdicts f; text := text f |}.
Definition with_held (f : Facts) (h : Held) : Facts := {|
  held := h; following := following f; marks := marks f; verdicts := verdicts f; text := text f |}.
Definition with_text (f : Facts) (t : TextFacts) : Facts := {|
  held := held f; following := following f; marks := marks f; verdicts := verdicts f; text := t |}.
Definition with_verdicts (f : Facts) (v : Verdicts) : Facts := {|
  held := held f; following := following f; marks := marks f; verdicts := v; text := text f |}.

Definition add_answers (a : Applied) (answers : list Answer) : Applied := {|
  taken := taken a; applied_opened := applied_opened a; resumed := resumed a;
  applied_answers := applied_answers a ++ answers; subscribe := subscribe a;
  unfollowed := unfollowed a; ranges := ranges a |}.
Definition with_unfollowed (a : Applied) (u : list N) : Applied := {|
  taken := taken a; applied_opened := applied_opened a; resumed := resumed a;
  applied_answers := applied_answers a; subscribe := subscribe a; unfollowed := u;
  ranges := ranges a |}.
Definition with_subscribe (a : Applied) (s : Subscription) : Applied := {|
  taken := taken a; applied_opened := applied_opened a; resumed := resumed a;
  applied_answers := applied_answers a; subscribe := Some s; unfollowed := unfollowed a;
  ranges := ranges a |}.
Definition with_taken (a : Applied) (t : option OpenWatch) : Applied := {|
  taken := t; applied_opened := applied_opened a; resumed := resumed a;
  applied_answers := applied_answers a; subscribe := subscribe a; unfollowed := unfollowed a;
  ranges := ranges a |}.
Definition with_opened (a : Applied) (o : bool) : Applied := {|
  taken := taken a; applied_opened := o; resumed := resumed a;
  applied_answers := applied_answers a; subscribe := subscribe a; unfollowed := unfollowed a;
  ranges := ranges a |}.
Definition with_resumed (a : Applied) (r : bool) : Applied := {|
  taken := taken a; applied_opened := applied_opened a; resumed := r;
  applied_answers := applied_answers a; subscribe := subscribe a; unfollowed := unfollowed a;
  ranges := ranges a |}.
Definition with_ranges (a : Applied) (r : gset (N * RangeKey)) : Applied := {|
  taken := taken a; applied_opened := applied_opened a; resumed := resumed a;
  applied_answers := applied_answers a; subscribe := subscribe a; unfollowed := unfollowed a;
  ranges := r |}.

(** ** The follow state's operations *)

Definition FOCUS_MOVED : string := "the focus moved".
Definition ELEMENT_REPLACED : string := "the focus's element was replaced".

(** Ends the watch and notes its answer. *)
Definition end_watch (self : FollowState) (why : string) (applied : Applied) : FollowState * Applied :=
  let '(answer, w) := watch_end (watch self) why in
  (with_watch self w, add_answers applied (option_list answer)).

Definition end_watch_elsewhere (self : FollowState) (node : NodeId) (applied : Applied)
    : FollowState * Applied :=
  match watch_open (watch self) with
  | Some open =>
      if bool_decide (watch_node_id open = node) then (self, applied)
      else end_watch self FOCUS_MOVED applied
  | None => (self, applied)
  end.

(** Whether the subscription still follows the element [token] names. *)
Definition follows (self : FollowState) (token : N) : bool :=
  bool_decide (followed_element self = Some token) ||
  bool_decide (followed_slider self = Some token) ||
  existsb (fun kept : NodeId * Group * N => kept.2 =? token) (kept_groups self).

Definition unfollow (self : FollowState) (tokens : list N) (applied : Applied) : Applied :=
  with_unfollowed applied
    (fold_left (fun un token =>
       if negb (follows self token) && negb (existsb (N.eqb token) un) then un ++ [token] else un)
       tokens (unfollowed applied)).

Definition subscription (self : FollowState) : Subscription :=
  let newest_ := match followed self, followed_element self with
                 | Some (_, group, _), Some element => Some (element, group)
                 | _, _ => None
                 end in
  {| newest := newest_;
     sub_slider := if newest_ then followed_slider self else None;
     sub_kept := map (fun kept : NodeId * Group * N => (kept.2, kept.1.2)) (kept_groups self) |}.

Definition kept_node (kept : NodeId * Group * N) : NodeId := kept.1.1.

(** The focus followed before keeps its group: the tokens dropped, and the
    elements kept. *)
Fixpoint keep_group (node : NodeId) (group : Group) (element : N) (kept : list (NodeId * Group * N))
    : list N * list (NodeId * Group * N) :=
  match kept with
  | [] => ([], [(node, group, element)])
  | k :: rest =>
      if bool_decide (kept_node k = node) then ([k.2], (node, group, element) :: rest)
      else let '(dropped, rest) := keep_group node group element rest in (dropped, k :: rest)
  end.

Definition retarget (self : FollowState) (target : Target) (applied : Applied)
    : FollowState * Applied :=
  if bool_decide (followed self = wanted target) &&
     bool_decide (followed_element self = target_element target) &&
     bool_decide (followed_slider self = target_slider target)
  then (self, applied)
  else
    let dropped := option_list (followed_slider self) in
    let '(replaced, kept) :=
      match followed self, followed_element self with
      | Some (node, group, _), Some element => keep_group node group element (kept_groups self)
      | _, _ => ([], kept_groups self)
      end in
    let dropped := dropped ++ replaced in
    let '(dropped, kept) :=
      match wanted target with
      | Some (node, _, _) =>
          (dropped ++ map snd (List.filter (fun k => bool_decide (kept_node k = node)) kept),
           List.filter (fun k => negb (bool_decide (kept_node k = node))) kept)
      | None => (dropped, kept)
      end in
    let self := with_followed self (wanted target) (target_element target) (target_slider target) kept in
    (self, with_subscribe (unfollow self dropped applied) (subscription self)).

Definition release_groups (self : FollowState) (released : gset N) (applied : Applied)
    : FollowState * Applied :=
  let of_released (node : NodeId) := bool_decide (Tree.number node ∈ released) in
  let dropped := map snd (List.filter (fun k => of_released (kept_node k)) (kept_groups self)) in
  let kept := List.filter (fun k => negb (of_released (kept_node k))) (kept_groups self) in
  let '(self, dropped) :=
    match followed self with
    | Some (node, _, _) =>
        if of_released node
        then (with_followed self None None None kept,
              dropped ++ option_list (followed_element self) ++ option_list (followed_slider self))
        else (with_followed self (followed self) (followed_element self) (followed_slider self) kept,
              dropped)
    | None => (with_followed self (followed self) (followed_element self) (followed_slider self) kept,
               dropped)
    end in
  match dropped with
  | [] => (self, applied)
  | _ => (self, with_subscribe (unfollow self dropped applied) (subscription self))
  end.

(** ** Applying a commit *)

Definition apply_watch (self : Watch) (change : WatchChange) (clock : Clock) (applied : Applied)
    : Watch * Applied :=
  match change with
  | WatchOpen open console =>
      let '(done_, w) := opened self open console clock in (w, with_opened applied done_)
  | WatchTake node => let '(t, w) := watch_take self node in (w, with_taken applied t)
  | WatchCheckedChange checked =>
      let '(found, w) := watch_checked self checked clock in
      match found with
      | Some answer =>
          let watching := match checked with CheckedWatching _ => true | _ => false end in
          (w, add_answers (with_resumed applied (bool_decide (answer = None) && watching))
                (option_list answer))
      | None => (w, applied)
      end
  end.

(** The text changes, in order. *)
Fixpoint apply_texts (t : TextFacts) (changes : list TextChange) (let_go : gset (N * RangeKey))
    : gset (N * RangeKey) * TextFacts :=
  match changes with
  | [] => (let_go, t)
  | change :: rest =>
      let '(r, t) := apply_text t change in apply_texts t rest (let_go ∪ r)
  end.

(** The marks a focus adopted leaves. *)
Definition adopted_marks (f : Follow) : Marks := {|
  focused := follow_object f;
  terminal := if follow_terminal f then terminal_of (follow_window f ≫= Window.new) else TerminalNone;
  focus_redirected := redirected f;
  absorbed := None;
  system_caret_unused := follow_terminal f && console f |}.

Definition adopted_tracking (t : Tracking) (f : Follow) : Tracking := {|
  tracking_role := Some (follow_role f); tracking_batch := Some (follow_batch f);
  tracking_chain := follow_chain f; tracking_window := follow_window f;
  tracking_focus := Some (follow_node f); tracking_focus_role := Some (follow_role f);
  tracking_dialog := tracking_dialog t;
  tracking_value_from_selection := tracking_value_from_selection t |}.

Definition owed_of (f : Follow) : option Owed :=
  option_map (fun work => {| owed_node := follow_node f; owed_work := work;
    owed_trace := follow_trace f; owed_observed_at_us := follow_observed_at_us f;
    attempting := None |}) (follow_owed f).

(** The part of [apply] for a focus becoming the followed one. *)
Definition apply_follow (facts : Facts) (f : Follow) (applied : Applied) : Facts * Applied :=
  let '(facts, applied) :=
    if adopt f then
      let '(s, applied) := end_watch_elsewhere (following facts) (follow_node f) applied in
      (with_marks (with_following facts (with_tracking s (adopted_tracking (tracking s) f)))
         (adopted_marks f), applied)
    else (facts, applied) in
  let '(s, applied) := retarget (following facts) (follow_target f) applied in
  (with_following facts (with_owed s (owed_of f)), applied).

Definition with_dialog (t : Tracking) (d : DialogMemo) : Tracking := {|
  tracking_role := tracking_role t; tracking_batch := tracking_batch t;
  tracking_chain := tracking_chain t; tracking_window := tracking_window t;
  tracking_focus := tracking_focus t; tracking_focus_role := tracking_focus_role t;
  tracking_dialog := d; tracking_value_from_selection := tracking_value_from_selection t |}.
Definition with_value_from_selection (t : Tracking) (v : option NodeId) : Tracking := {|
  tracking_role := tracking_role t; tracking_batch := tracking_batch t;
  tracking_chain := tracking_chain t; tracking_window := tracking_window t;
  tracking_focus := tracking_focus t; tracking_focus_role := tracking_focus_role t;
  tracking_dialog := tracking_dialog t; tracking_value_from_selection := v |}.
Definition with_role_batch (t : Tracking) (role : Role) (batch : N) : Tracking := {|
  tracking_role := Some role; tracking_batch := Some batch;
  tracking_chain := tracking_chain t; tracking_window := tracking_window t;
  tracking_focus := tracking_focus t; tracking_focus_role := tracking_focus_role t;
  tracking_dialog := tracking_dialog t;
  tracking_value_from_selection := tracking_value_from_selection t |}.

(** The marks' part of [apply]. *)
Definition apply_marks (m : Marks) (change : Change) : Marks := {|
  focused := focused m; terminal := terminal m;
  focus_redirected := if clear_redirect change then false else focus_redirected m;
  absorbed := match absorb change with Some w => Some w | None => absorbed m end;
  system_caret_unused := drop_system_caret change || system_caret_unused m |}.

(** Runs a part of a commit when the commit has it. *)
Definition when {A S} (o : option A) (f : A -> S -> S) (s : S) : S :=
  match o with Some a => f a s | None => s end.

Definition apply_replaced (node : NodeId) (p : Facts * Applied) : Facts * Applied :=
  match watch_open (watch (following p.1)) with
  | Some open =>
      if bool_decide (watch_node_id open = node)
      then let '(s, applied) := end_watch (following p.1) ELEMENT_REPLACED p.2 in
           (with_following p.1 s, applied)
      else p
  | None => p
  end.

Definition on_following (f : FollowState -> FollowState) (p : Facts * Applied) : Facts * Applied :=
  (with_following p.1 (f (following p.1)), p.2).

Definition apply_foreground (c : NodeId * Role * N) (p : Facts * Applied) : Facts * Applied :=
  let '(node, role, batch) := c in
  let '(s, applied) := end_watch_elsewhere (following p.1) node p.2 in
  (with_following p.1 (with_tracking s (with_role_batch (tracking s) role batch)), applied).

Definition apply_element (c : NodeId * Target) (p : Facts * Applied) : Facts * Applied :=
  let '(node, target) := c in
  if bool_decide (tracking_focus (tracking (following p.1)) = Some node)
  then let '(s, applied) := retarget (following p.1) target p.2 in (with_following p.1 s, applied)
  else (p.1, unfollow (following p.1)
               (option_list (target_element target) ++ option_list (target_slider target)) p.2).

Definition apply_owed_done (generation : N) (node : NodeId) (s : FollowState) : FollowState :=
  match owed s with
  | Some o => if bool_decide (owed_node o = node) && bool_decide (attempting o = Some generation)
              then with_owed s None else s
  | None => s
  end.

(** [apply]. *)
Definition apply (facts : Facts) (generation : N) (change : Change) (clock : Clock)
    : Facts * Applied :=
  let '(let_go, t) := apply_texts (text facts) (change_texts change) ∅ in
  let p := (with_text facts t, with_ranges Applied_default let_go) in
  let p := when (replaced change) apply_replaced p in
  let p := when (dialog change) (fun memo => on_following (fun s =>
             with_tracking s (with_dialog (tracking s) memo))) p in
  let p := when (follow change) (fun f p => apply_follow p.1 f p.2) p in
  let p := when (change_focus_path change) (fun path => on_following (fun s =>
             with_focus_path s (Some path))) p in
  let p := when (change_value_from_selection change) (fun v => on_following (fun s =>
             with_tracking s (with_value_from_selection (tracking s) v))) p in
  let p := when (change_foreground change) apply_foreground p in
  let p := when (change_element change) apply_element p in
  let p := when (owed_done change) (fun node => on_following (apply_owed_done generation node)) p in
  let p := when (change_caret_read change) (fun '(node, started) => on_following (fun s =>
             with_caret_read s (Some (Tree.number node, started)))) p in
  let p := (with_marks p.1 (apply_marks (marks p.1) change), p.2) in
  let p := when (change_states change) (fun '(node, states) p =>
             (with_held p.1 (replace_states (held p.1) node states).2, p.2)) p in
  when (change_watch change) (fun c p =>
    let '(w, applied) := apply_watch (watch (following p.1)) c clock p.2 in
    (with_following p.1 (with_watch (following p.1) w), applied)) p.

(** [answer_to_judge]. *)
Definition answer_to_judge (before : option Focus) (answered : Focus) : Focus :=
  match before with
  | Some b =>
      if bool_decide (held_id (focus_node b) = held_id (focus_node answered)) then {|
        focus_node := focus_node answered; focus_ancestors := focus_ancestors answered;
        focus_top_level := focus_top_level answered; in_front := in_front answered;
        entered_in_front := entered_in_front answered; focus_event := focus_event b;
        simple_child := simple_child b; dialog_texts := dialog_texts answered |}
      else answered
  | None => answered
  end.

(** [record]. *)
Definition record (self : Held) (r : Report) : Held :=
  match r with
  | Reported focus evidence => report_focus self focus evidence
  | AnsweredReport focus =>
      report_focus self (answer_to_judge (expected self) focus) (EvidenceUia None)
  end.

Definition apply_local (facts : Facts) (generation : N) (change : Change) : Facts * Applied :=
  apply (when (report change) (fun r f => with_held f (record (held f) r)) facts) generation change None.
