(* ===== verification/FollowProps.v ===== *)
(** What following promises ([Follow]): the shell's elements are dropped exactly
    when nothing follows them, a program's copy of the facts agrees with the
    reducer's, and the route to an element of the focus's path. *)

From S2P Require Import Prelude Tree TextModel FocusRules Facts Messages InFlight OutpostEntry GapRecord Intake Verdicts CaretWatch HeldReports TextFacts Follow.

(** ** The elements followed *)

Definition tokens (s : FollowState) : gset N :=
  list_to_set (option_list (followed_element s) ++ option_list (followed_slider s) ++
               map snd (kept_groups s)).

Lemma follows_tokens s t : follows s t = true <-> t ∈ tokens s.
Proof.
  rewrite /follows /tokens elem_of_list_to_set !elem_of_app !orb_true_iff !bool_decide_eq_true.
  rewrite !elem_of_option_list existsb_exists or_assoc.
  have Hk : (exists x, In x (kept_groups s) /\ (x.2 =? t) = true) <-> t ∈ map snd (kept_groups s).
  { rewrite list_elem_of_In in_map_iff. split.
    - intros (x & Hin & He%N.eqb_eq). by exists x.
    - intros (x & <- & Hin). exists x. split; [done|]. by apply N.eqb_refl. }
  rewrite Hk. tauto.
Qed.

Lemma unfollow_spec s ts a t :
  t ∈ unfollowed (unfollow s ts a) <-> t ∈ unfollowed a \/ (t ∈ ts /\ t ∉ tokens s).
Proof.
  rewrite /unfollow /=. generalize (unfollowed a) as un. induction ts as [|x ts IH]; intros un; simpl; [set_solver|].
  rewrite IH. destruct (follows s x) eqn:Ef; simpl.
  - apply follows_tokens in Ef. set_solver.
  - have Hx : x ∉ tokens s by rewrite -follows_tokens Ef.
    destruct (existsb (N.eqb x) un) eqn:Ex; simpl; [|set_solver].
    apply existsb_exists in Ex as (y & Hy%list_elem_of_In & ->%N.eqb_eq). set_solver.
Qed.

Lemma unfollow_nodup s ts a : NoDup (unfollowed a) -> NoDup (unfollowed (unfollow s ts a)).
Proof.
  rewrite /unfollow /=. generalize (unfollowed a) as un. induction ts as [|x ts IH]; intros un H; simpl; [done|].
  apply IH. destruct (negb _ && negb _) eqn:E; [|done]. apply andb_true_iff in E as [_ E%negb_true_iff].
  apply NoDup_app. split_and!; [done| |apply NoDup_singleton]. intros y Hy ->%list_elem_of_singleton.
  have : existsb (N.eqb x) un = true; [|congruence]. apply existsb_exists. exists x.
  by rewrite N.eqb_refl -list_elem_of_In.
Qed.

(** One element is kept per node, and none of the newest focus's node. *)
Definition follow_ok (s : FollowState) : Prop :=
  (followed s = None -> followed_element s = None) /\ NoDup (map kept_node (kept_groups s)) /\
  forall node group slider, followed s = Some (node, group, slider) -> node ∉ map kept_node (kept_groups s).

Definition target_ok (target : Target) : bool :=
  bool_decide (wanted target = None -> target_element target = None).

Definition target_tokens (target : Target) : gset N :=
  list_to_set (option_list (target_element target) ++ option_list (target_slider target)).

Lemma keep_group_spec node group element kept :
  NoDup (map kept_node kept) ->
  let '(dropped, kept') := keep_group node group element kept in
  NoDup (map kept_node kept') /\
  (forall n, n ∈ map kept_node kept' <-> n ∈ map kept_node kept \/ n = node) /\
  (forall t, t ∈ element :: map snd kept <-> t ∈ dropped \/ t ∈ map snd kept').
Proof.
  induction kept as [|k kept IH]; simpl; intros Hnd.
  { split_and!; [apply NoDup_singleton|set_solver|set_solver]. }
  apply NoDup_cons in Hnd as [Hk Hnd]. case_bool_decide as Hn.
  - simpl. rewrite Hn in Hk. split_and!; [by constructor|set_solver|set_solver].
  - specialize (IH Hnd). destruct (keep_group node group element kept) as [dropped kept'].
    destruct IH as (Hnd' & Hin & Ht). simpl. split_and!.
    + apply NoDup_cons. split; [|done]. rewrite Hin. intros [?|?]; [done|congruence].
    + intros n. rewrite !elem_of_cons Hin. tauto.
    + intros t. specialize (Ht t). rewrite !elem_of_cons in Ht *. tauto.
Qed.

Lemma filter_snd (f : NodeId * Group * N -> bool) kept t :
  t ∈ map snd kept <->
  t ∈ map snd (List.filter f kept) \/ t ∈ map snd (List.filter (fun k => negb (f k)) kept).
Proof.
  have P := Permutation_map snd (filter_split f kept). rewrite {1}P map_app. by rewrite elem_of_app.
Qed.

Lemma filter_nodes (f : NodeId * Group * N -> bool) kept n :
  n ∈ map kept_node (List.filter f kept) -> n ∈ map kept_node kept.
Proof.
  rewrite !list_elem_of_In !in_map_iff. intros (k & <- & [Hk _]%filter_In). by exists k.
Qed.

Lemma filter_nodup (f : NodeId * Group * N -> bool) kept :
  NoDup (map kept_node kept) -> NoDup (map kept_node (List.filter f kept)).
Proof.
  induction kept as [|k kept IH]; simpl; [done|]. intros [Hk Hnd]%NoDup_cons.
  destruct (f k); simpl; [|by apply IH]. apply NoDup_cons. split; [|by apply IH].
  by intros ?%filter_nodes.
Qed.

Lemma tokens_followed s f e sl kept :
  tokens (with_followed s f e sl kept) = list_to_set (option_list e ++ option_list sl ++ map snd kept).
Proof. done. Qed.

Definition settled (s : FollowState) (brought : gset N) (a : Applied) (s' : FollowState) (a' : Applied) : Prop :=
  follow_ok s' /\ tokens s' ⊆ tokens s ∪ brought /\
  (forall t, t ∈ unfollowed a' <-> t ∈ unfollowed a \/ (t ∈ tokens s ∪ brought /\ t ∉ tokens s')) /\
  (NoDup (unfollowed a) -> NoDup (unfollowed a')).

Lemma retarget_settled s target a :
  follow_ok s -> target_ok target = true ->
  let '(s', a') := retarget s target a in settled s (target_tokens target) a s' a'.
Proof.
  intros (Hnone & Hnd & Hnew) Ht. apply bool_decide_eq_true in Ht. rewrite /retarget.
  destruct (_ && _ && _) eqn:E.
  { apply andb_true_iff in E as [[_ He%bool_decide_eq_true]%andb_true_iff Hs%bool_decide_eq_true].
    split_and!; [by split_and!|set_solver| |done]. intros t. split; [by left|]. intros [|[Ht1 Ht2]]; [done|].
    exfalso. apply Ht2. apply elem_of_union in Ht1 as [?|Ht1]; [done|].
    rewrite /target_tokens -He -Hs in Ht1. rewrite /tokens. set_solver. }
  clear E. set (before := match followed s with Some (node, group, _) => _ | None => _ end).
  have Hb : let '(dropped, kept) := before in
    NoDup (map kept_node kept) /\
    (forall t, t ∈ dropped \/ t ∈ map snd kept <->
       followed_element s = Some t \/ t ∈ map snd (kept_groups s)).
  { rewrite /before. destruct (followed s) as [[[node group] sl]|] eqn:Ef.
    - destruct (followed_element s) as [e|] eqn:Ee; [|split; [done|set_solver]].
      have H := keep_group_spec node group e (kept_groups s) Hnd.
      destruct (keep_group _ _ _ _) as [dropped kept]. destruct H as (Hn & _ & H). split; [done|].
      intros t. rewrite -H elem_of_cons. split; (intros [?|?]; [left; congruence|by right]).
    - rewrite Hnone //. split; [done|set_solver]. }
  destruct before as [replaced kept]. destruct Hb as [Hkn Hb].
  set (last := match wanted target with Some (node, _, _) => _ | None => _ end).
  have Hl : let '(dropped, kept') := last in
    NoDup (map kept_node kept') /\
    (forall node g sl, wanted target = Some (node, g, sl) -> node ∉ map kept_node kept') /\
    (forall t, t ∈ dropped \/ t ∈ map snd kept' <-> t ∈ tokens s).
  { have Hall t : t ∈ option_list (followed_slider s) ++ replaced \/ t ∈ map snd kept <-> t ∈ tokens s.
    { rewrite /tokens elem_of_list_to_set !elem_of_app elem_of_option_list elem_of_option_list.
      specialize (Hb t). tauto. }
    rewrite /last. destruct (wanted target) as [[[node g] sl]|]; [|done].
    split_and!; [by apply filter_nodup| |].
    - intros n g' sl' [= <- <- <-]. rewrite list_elem_of_In in_map_iff.
      intros (k & Hk & [_ Hf%negb_true_iff%bool_decide_eq_false]%filter_In). congruence.
    - intros t. rewrite -Hall (filter_snd (fun k => bool_decide (kept_node k = node)) kept t).
      rewrite elem_of_app. tauto. }
  destruct last as [dropped kept']. destruct Hl as (Hkn' & Hnew' & Hl).
  set (s' := with_followed _ _ _ _ _). have Htok t : t ∈ tokens s' <-> t ∈ target_tokens target \/ t ∈ map snd kept'.
  { rewrite tokens_followed /target_tokens !elem_of_list_to_set !elem_of_app. tauto. }
  split_and!; [by split_and!| | |intros ?; by apply unfollow_nodup].
  - intros t. rewrite Htok elem_of_union -Hl. tauto.
  - intros t. simpl. rewrite unfollow_spec elem_of_union -Hl. specialize (Htok t).
    split; [intros [?|[? ?]]; tauto|]. intros [?|[[?|?] ?]]; tauto.
Qed.

Lemma release_groups_settled s released a :
  follow_ok s -> let '(s', a') := release_groups s released a in settled s ∅ a s' a'.
Proof.
  intros (Hnone & Hnd & Hnew). rewrite /release_groups.
  set (gone := fun k => bool_decide (Tree.number (kept_node k) ∈ released)).
  have Hkn := filter_nodup (fun k => negb (gone k)) _ Hnd.
  have Hsnd t := filter_snd gone (kept_groups s) t.
  set (last := match followed s with Some (node, _, _) => _ | None => _ end).
  have Hl : let '(s', dropped) := last in
    follow_ok s' /\ (forall t, t ∈ dropped \/ t ∈ tokens s' <-> t ∈ tokens s).
  { rewrite /last. destruct (followed s) as [[[node g] sl]|] eqn:Ef; [case_bool_decide|].
    - split; [split_and!; done|]. intros t. rewrite tokens_followed.
      rewrite /tokens !elem_of_list_to_set !elem_of_app Hsnd. set_solver.
    - split; [split_and!; [done..|]|].
      + intros n g' sl' [= <- <- <-] Hin%filter_nodes. by eapply Hnew.
      + intros t. rewrite tokens_followed /tokens !elem_of_list_to_set !elem_of_app Hsnd. tauto.
    - split; [split_and!; [by intros _; apply Hnone|done..]|].
      intros t. rewrite tokens_followed /tokens !elem_of_list_to_set !elem_of_app Hsnd. tauto. }
  destruct last as [s' dropped]. destruct Hl as [Hok Hl].
  have Hset a' : (forall t, t ∈ unfollowed a' <-> t ∈ unfollowed a \/ (t ∈ dropped /\ t ∉ tokens s')) ->
    (NoDup (unfollowed a) -> NoDup (unfollowed a')) -> settled s ∅ a s' a'.
  { intros Hu Hn. split_and!; [done| | |done].
    - intros t ?. apply elem_of_union_l, Hl. by right.
    - intros t. rewrite Hu elem_of_union -Hl. set_solver. }
  destruct dropped as [|d dropped].
  - apply Hset; [|done]. intros t. set_solver.
  - apply Hset; [|intros ?; by apply unfollow_nodup]. intros t. apply unfollow_spec.
Qed.

(** What a part of a commit that moves no subscription keeps. *)
Definition kept_view (p : Facts * Applied) :=
  (followed (following p.1), followed_element (following p.1), followed_slider (following p.1),
   kept_groups (following p.1), unfollowed p.2).

Definition settles_to (s : FollowState) (brought : gset N) (p : Facts * Applied) : Prop :=
  settled s brought Applied_default (following p.1) p.2.

Lemma settles_to_view s brought p q : kept_view p = kept_view q -> settles_to s brought p -> settles_to s brought q.
Proof.
  destruct p as [[h1 [] m1 v1 t1] []], q as [[h2 [] m2 v2 t2] []]. rewrite /kept_view /=. intros. simplify_eq.
  done.
Qed.

Lemma end_watch_elsewhere_view s node a : let '(s', a') := end_watch_elsewhere s node a in
  (followed s', followed_element s', followed_slider s', kept_groups s', unfollowed a') =
  (followed s, followed_element s, followed_slider s, kept_groups s, unfollowed a).
Proof.
  rewrite /end_watch_elsewhere. destruct (watch_open _); [case_bool_decide|]; done.
Qed.

Lemma when_view {A} (o : option A) f p :
  (forall x q, o = Some x -> kept_view (f x q) = kept_view q) -> kept_view (when o f p) = kept_view p.
Proof. intros H. destruct o; [by apply H|done]. Qed.

Lemma apply_replaced_view node p : kept_view (apply_replaced node p) = kept_view p.
Proof.
  rewrite /apply_replaced. destruct (watch_open _); [case_bool_decide|]; done.
Qed.

Lemma apply_foreground_view c p : kept_view (apply_foreground c p) = kept_view p.
Proof.
  destruct c as [[node role] b]. rewrite /apply_foreground.
  have H := end_watch_elsewhere_view (following p.1) node p.2.
  by destruct (end_watch_elsewhere (following p.1) node p.2).
Qed.

Lemma apply_owed_done_view g node p : kept_view (on_following (apply_owed_done g node) p) = kept_view p.
Proof. rewrite /on_following /apply_owed_done /kept_view /=. destruct (owed _); [case_match|]; done. Qed.

Lemma apply_watch_unfollowed w c clock a : unfollowed (apply_watch w c clock a).2 = unfollowed a.
Proof.
  destruct c; rewrite /apply_watch; [by destruct (opened _ _ _ _)|by destruct (watch_take _ _)|].
  destruct (watch_checked _ _ _) as [[[]|] ?]; done.
Qed.

Definition change_targets (change : Change) : list Target :=
  option_list (option_map follow_target (follow change)) ++
  option_list (option_map snd (change_element change)).

(** A commit moves the subscription at most once, and names no element without
    the node it is of. *)
Definition change_ok (change : Change) : bool :=
  forallb target_ok (change_targets change) &&
  bool_decide (follow change = None \/ change_element change = None).

Definition brought (change : Change) : gset N := ⋃ map target_tokens (change_targets change).

Lemma settled_from s a s2 a2 b s' a' :
  (followed s, followed_element s, followed_slider s, kept_groups s, unfollowed a) =
  (followed s2, followed_element s2, followed_slider s2, kept_groups s2, unfollowed a2) ->
  settled s b a s' a' -> settled s2 b a2 s' a'.
Proof. destruct s, s2, a, a2. simpl. intros. by simplify_eq. Qed.

Lemma follow_ok_view p q : kept_view p = kept_view q -> follow_ok (following p.1) -> follow_ok (following q.1).
Proof.
  destruct p as [[h1 [] m1 v1 t1] []], q as [[h2 [] m2 v2 t2] []]. rewrite /kept_view /=. intros. by simplify_eq.
Qed.

Lemma apply_follow_settled p f :
  follow_ok (following p.1) -> target_ok (follow_target f) = true ->
  let q := apply_follow p.1 f p.2 in
  settled (following p.1) (target_tokens (follow_target f)) p.2 (following q.1) q.2.
Proof.
  intros Hok Ht. rewrite /apply_follow.
  set (mid := if adopt f then _ else _).
  have Hv : kept_view mid = kept_view p.
  { rewrite /mid. destruct (adopt f); [|by destruct p].
    have H := end_watch_elsewhere_view (following p.1) (follow_node f) p.2.
    by destruct (end_watch_elsewhere (following p.1) (follow_node f) p.2). }
  destruct mid as [facts applied].
  have H := retarget_settled (following facts) (follow_target f) applied
              (follow_ok_view p (facts, applied) (eq_sym Hv) Hok) Ht.
  destruct (retarget _ _ _) as [s' a']. by eapply settled_from.
Qed.

Lemma apply_element_settled p node target :
  follow_ok (following p.1) -> target_ok target = true ->
  let q := apply_element (node, target) p in
  settled (following p.1) (target_tokens target) p.2 (following q.1) q.2.
Proof.
  intros Hok Ht. rewrite /apply_element. case_bool_decide.
  - have H' := retarget_settled (following p.1) target p.2 Hok Ht. by destruct (retarget _ _ _).
  - split_and!; [done|set_solver| |intros ?; by apply unfollow_nodup].
    intros t. rewrite unfollow_spec /target_tokens elem_of_union elem_of_list_to_set. tauto.
Qed.

Lemma apply_settled facts generation change clock :
  follow_ok (following facts) -> change_ok change = true ->
  let q := apply facts generation change clock in
  settled (following facts) (brought change) Applied_default (following q.1) q.2.
Proof.
  intros Hok [Hts Hor%bool_decide_eq_true]%andb_true_iff.
  rewrite /apply. destruct (apply_texts _ _ _) as [let_go t]. cbv zeta.
  set (p2 := when (dialog change) _ _).
  have V2 : kept_view p2 = kept_view (facts, Applied_default).
  { rewrite /p2 when_view; [|done]. rewrite when_view; [done|]. intros. apply apply_replaced_view. }
  set (p6 := when (change_foreground change) _ _). set (p7 := when (change_element change) _ p6).
  have Hlast q : kept_view q = kept_view p7 ->
    settled (following facts) (brought change) Applied_default (following p7.1) p7.2 ->
    settled (following facts) (brought change) Applied_default (following q.1) q.2.
  { intros Hv. by apply (settles_to_view _ _ p7 q). }
  apply Hlast.
  { rewrite when_view.
    2: { intros c q _. have H := apply_watch_unfollowed (watch (following q.1)) c clock q.2.
         destruct (apply_watch _ _ _ _) as [w a]. rewrite /kept_view /=. by rewrite -H. }
    rewrite when_view; [|by intros [node states] q _]. rewrite /kept_view /=. rewrite -/(kept_view _).
    rewrite when_view; [|by intros [node at_] q _]. rewrite when_view //. intros. apply apply_owed_done_view. }
  have V6 : kept_view p6 = kept_view (when (follow change) (fun f p => apply_follow p.1 f p.2) p2).
  { rewrite /p6 when_view; [|intros; apply apply_foreground_view]. rewrite when_view; [|done]. by rewrite when_view. }
  have Hok2 : follow_ok (following p2.1) := follow_ok_view (facts, Applied_default) p2 (eq_sym V2) Hok.
  rewrite /brought /change_targets in Hts *. destruct (follow change) as [f|] eqn:Ef.
  - rewrite /p7. destruct Hor as [|Hel]; [done|]. rewrite Hel /= in Hts *. apply andb_true_iff in Hts as [Hts _].
    apply (settles_to_view _ _ (apply_follow p2.1 f p2.2)); [done|]. rewrite union_empty_r_L.
    eapply settled_from; [exact V2|]. by apply apply_follow_settled.
  - rewrite /p7. have Hok6 : follow_ok (following p6.1) := follow_ok_view _ _ (eq_sym V6) Hok2.
    destruct (change_element change) as [[node target]|] eqn:Ee; simpl in *.
    + apply andb_true_iff in Hts as [Hts _]. rewrite union_empty_r_L.
      eapply settled_from; [etransitivity; [exact V6|exact V2]|]. by apply apply_element_settled.
    + apply (settles_to_view _ _ (facts, Applied_default)); [by rewrite V6 V2|].
      split_and!; [done|set_solver| |done]. simpl. set_solver.
Qed.

(** ** Every run *)

Inductive Op :=
  | OpCommit (generation : N) (change : Change) (clock : Clock)
  | OpRelease (released : gset N).

Definition op_ok (op : Op) : bool :=
  match op with OpCommit _ change _ => change_ok change | OpRelease _ => true end.

(** The facts, and the elements the shell keeps: those the commits brought, but
    for those it was told to drop. *)
Definition exec (s : Facts * gset N) (op : Op) : Facts * gset N :=
  match op with
  | OpCommit generation change clock =>
      let '(facts, applied) := apply s.1 generation change clock in
      (facts, (s.2 ∪ brought change) ∖ list_to_set (unfollowed applied))
  | OpRelease released =>
      let '(f, applied) := release_groups (following s.1) released Applied_default in
      (with_following s.1 f, s.2 ∖ list_to_set (unfollowed applied))
  end.

Definition run (ops : list Op) : Facts * gset N := fold_left exec ops (Facts_default, ∅).

Lemma settled_tokens s b a' s' :
  settled s b Applied_default s' a' -> (tokens s ∪ b) ∖ list_to_set (unfollowed a') = tokens s'.
Proof.
  intros (_ & Hsub & Hu & _). apply set_eq. intros t.
  rewrite elem_of_difference elem_of_list_to_set Hu /=. split.
  - intros [Ht Hn]. destruct (decide (t ∈ tokens s')); [done|]. exfalso. apply Hn. by right.
  - intros Ht. split; [by apply Hsub|]. intros [?|[_ ?]]; [by eapply not_elem_of_nil|done].
Qed.

(** In every run of commits and releases, the elements the shell keeps are
    exactly those the subscription follows, as the newest focus, its slider or
    an older report's: none is dropped while it is followed, and none is kept
    once nothing follows it. One element is kept per node, none of the newest
    focus's node. *)
Theorem followed_elements_exact (ops : list Op) :
  Forall (fun op => op_ok op = true) ops ->
  (run ops).2 = tokens (following (run ops).1) /\
  NoDup (map kept_node (kept_groups (following (run ops).1))) /\
  forall node group slider, followed (following (run ops).1) = Some (node, group, slider) ->
    node ∉ map kept_node (kept_groups (following (run ops).1)).
Proof.
  intros Hops. rewrite /run.
  have Hstep s op : op_ok op = true -> s.2 = tokens (following s.1) /\ follow_ok (following s.1) ->
    (exec s op).2 = tokens (following (exec s op).1) /\ follow_ok (following (exec s op).1).
  { intros Hop [Ht Hok]. destruct op as [g change clock|released]; simpl.
    - have H := apply_settled s.1 g change clock Hok Hop.
      destruct (apply s.1 g change clock) as [f a]. simpl in *. rewrite Ht.
      split; [by apply settled_tokens|by destruct H].
    - have H := release_groups_settled (following s.1) released Applied_default Hok.
      destruct (release_groups _ _ _) as [f a]. simpl. rewrite Ht.
      split; [|by destruct H]. by rewrite -(settled_tokens _ _ _ _ H) union_empty_r_L. }
  have H0 : (Facts_default, ∅ : gset N).2 = tokens (following (Facts_default, ∅ : gset N).1) /\
            follow_ok (following (Facts_default, ∅ : gset N).1).
  { split; [done|]. split_and!; [done|apply NoDup_nil_2|done]. }
  revert H0. generalize (Facts_default, ∅ : gset N) as s.
  induction Hops as [|op ops Hop Hops IH]; intros s [Ht Hok]; simpl; [by destruct Hok as (_ & ? & ?)|].
  apply IH. by apply Hstep.
Qed.

Section example.

Let node (n : N) : NodeId := {| outpost := {| outpost_number := 1 |}; Tree.number := n |}.
Let target (n element : N) (slider : option N) : Target := {|
  wanted := Some (node n, Base, None); target_element := Some element; target_slider := slider |}.
Let adopts (n element : N) (slider : option N) : Follow := {|
  follow_node := node n; follow_role := RoleButton; follow_object := None; follow_window := None;
  follow_chain := []; follow_batch := 1; redirected := false; follow_terminal := false;
  console := false; follow_target := target n element slider; follow_owed := None;
  follow_trace := {| trace_number := 1 |}; follow_observed_at_us := 1; adopt := true |}.
Let moves (n element : N) (slider : option N) : Change := {|
  result := None; report := None; follow := Some (adopts n element slider);
  change_foreground := None; dialog := None; change_value_from_selection := None;
  change_focus_path := None; change_element := None; owed_done := None; change_caret_read := None;
  change_watch := None; drop_system_caret := false; absorb := None; clear_redirect := false;
  change_states := None; change_gap := []; noted_caret := None; replaced := None;
  change_texts := []; change_found := None |}.

Definition example_ops : list Op :=
  [OpCommit 0 (moves 1 11 (Some 12)) None; OpCommit 0 (moves 2 21 None) None;
   OpCommit 0 (moves 1 13 None) None; OpRelease {[2]}].

End example.

Lemma followed_elements_exact_witness :
  (run example_ops).2 = {[13]} /\ (run example_ops).2 = tokens (following (run example_ops).1).
Proof.
  split; [vm_compute; reflexivity|]. apply (followed_elements_exact example_ops). repeat constructor.
Defined.

(** ** A program's copy *)

(** The watch with its times left out, which a program's copy does not keep. *)
Definition erase_watch (w : Watch) : Watch :=
  match w with
  | NoWatch => NoWatch
  | WatchWaiting open _ => WatchWaiting open 0
  | WatchPolling open _ _ => WatchPolling open 0 0
  | WatchChecking open resume =>
      WatchChecking open (match resume with
                          | ResumeBound _ => ResumeBound 0
                          | ResumePoll _ _ => ResumePoll 0 0
                          | ResumeRead _ => ResumeRead 0
                          end)
  end.

Definition erase_following (s : FollowState) : FollowState := with_watch s (erase_watch (watch s)).
Definition erase (p : Facts * Applied) : Facts * Applied :=
  (with_following p.1 (erase_following (following p.1)), p.2).

Lemma erase_watch_open w : watch_open (erase_watch w) = watch_open w.
Proof. by destruct w. Qed.

Lemma end_watch_erase s why a :
  end_watch (erase_following s) why a =
  (erase_following (end_watch s why a).1, (end_watch s why a).2).
Proof. rewrite /end_watch /watch_end /= erase_watch_open. done. Qed.

Lemma end_watch_elsewhere_erase s node a :
  end_watch_elsewhere (erase_following s) node a =
  (erase_following (end_watch_elsewhere s node a).1, (end_watch_elsewhere s node a).2).
Proof.
  rewrite /end_watch_elsewhere /= erase_watch_open. destruct (watch_open (watch s)); [|done].
  case_bool_decide; [done|]. apply end_watch_erase.
Qed.

Lemma unfollow_erase s ts a : unfollow (erase_following s) ts a = unfollow s ts a.
Proof. done. Qed.

Lemma retarget_erase s target a :
  retarget (erase_following s) target a =
  (erase_following (retarget s target a).1, (retarget s target a).2).
Proof.
  rewrite /retarget /=. destruct (_ && _ && _); [done|].
  destruct (match followed s with Some _ => _ | None => _ end) as [replaced kept].
  destruct (match wanted target with Some _ => _ | None => _ end) as [dropped kept']. done.
Qed.

Lemma apply_replaced_erase node p : apply_replaced node (erase p) = erase (apply_replaced node p).
Proof.
  rewrite /apply_replaced /= erase_watch_open. destruct (watch_open _); [|done].
  by case_bool_decide.
Qed.

Lemma apply_foreground_erase c p : apply_foreground c (erase p) = erase (apply_foreground c p).
Proof.
  destruct c as [[node role] b]. rewrite /apply_foreground /= end_watch_elsewhere_erase.
  by destruct (end_watch_elsewhere _ _ _).
Qed.

Lemma apply_element_erase c p : apply_element c (erase p) = erase (apply_element c p).
Proof.
  destruct c as [node target]. rewrite /apply_element /=. case_bool_decide; [|done].
  rewrite retarget_erase. by destruct (retarget _ _ _).
Qed.

Lemma apply_follow_erase f p :
  apply_follow (erase p).1 f (erase p).2 = erase (apply_follow p.1 f p.2).
Proof.
  rewrite /apply_follow /=. destruct (adopt f).
  - rewrite end_watch_elsewhere_erase. destruct (end_watch_elsewhere _ _ _) as [s a]. simpl.
    change (with_tracking (erase_following s) (adopted_tracking (tracking s) f))
      with (erase_following (with_tracking s (adopted_tracking (tracking s) f))).
    rewrite retarget_erase. by destruct (retarget _ _ _).
  - rewrite retarget_erase. by destruct (retarget _ _ _).
Qed.

Lemma apply_owed_done_erase g node s :
  apply_owed_done g node (erase_following s) = erase_following (apply_owed_done g node s).
Proof. rewrite /apply_owed_done /=. destruct (owed s); [case_match|]; done. Qed.

Lemma when_erase {A} (o : option A) (f : A -> Facts * Applied -> Facts * Applied) p :
  (forall x q, f x (erase q) = erase (f x q)) -> when o f (erase p) = erase (when o f p).
Proof. intros H. destruct o; [apply H|done]. Qed.

Definition poll_over (w : Watch) (now : N) : bool :=
  match w with WatchChecking _ (ResumeRead until) => until <=? now | _ => false end.

Lemma apply_watch_erase w w' c now a :
  erase_watch w = erase_watch w' -> poll_over w now = false ->
  erase_watch (apply_watch w c (Some now) a).1 = erase_watch (apply_watch w' c None a).1 /\
  (apply_watch w c (Some now) a).2 = (apply_watch w' c None a).2.
Proof.
  intros He Hp. destruct w as [|o b|o n u|o r], w' as [|o' b'|o' n' u'|o' r']; simpl in He; simplify_eq.
  - destruct c as [open console| |[]]; simpl; try done.
    destruct console; [|done]. by destruct (_ =? 0).
  - destruct c as [open console|node|[]]; simpl; try done. by case_bool_decide.
  - destruct c as [open console|node|[]]; simpl; try done. by case_bool_decide.
  - destruct c as [open console|node|[]]; simpl; try done;
      [by destruct r, r'; simpl in *; simplify_eq..|].
    destruct r, r'; simpl in *; simplify_eq; try done. by rewrite Hp.
Qed.

(** A part of a commit before its watch's change at most ends the watch. *)
Definition watch_ends (p q : Facts * Applied) : Prop :=
  watch (following q.1) = watch (following p.1) \/ watch (following q.1) = NoWatch.

Lemma end_watch_elsewhere_ends s node a :
  watch (end_watch_elsewhere s node a).1 = watch s \/ watch (end_watch_elsewhere s node a).1 = NoWatch.
Proof.
  rewrite /end_watch_elsewhere. destruct (watch_open _); [|by left]. case_bool_decide; [by left|by right].
Qed.

Lemma retarget_watch s target a : watch (retarget s target a).1 = watch s.
Proof.
  rewrite /retarget. destruct (_ && _ && _); [done|].
  destruct (match followed s with Some _ => _ | None => _ end) as [replaced kept].
  by destruct (match wanted target with Some _ => _ | None => _ end) as [dropped kept'].
Qed.

Lemma apply_replaced_ends node p : watch_ends p (apply_replaced node p).
Proof.
  rewrite /watch_ends /apply_replaced. destruct (watch_open _); [|by left].
  case_bool_decide; [by right|by left].
Qed.

Lemma apply_foreground_ends c p : watch_ends p (apply_foreground c p).
Proof.
  destruct c as [[node role] b]. rewrite /watch_ends /apply_foreground.
  have H := end_watch_elsewhere_ends (following p.1) node p.2. by destruct (end_watch_elsewhere _ _ _).
Qed.

Lemma apply_element_ends c p : watch_ends p (apply_element c p).
Proof.
  destruct c as [node target]. rewrite /watch_ends /apply_element. left. case_bool_decide; [|done].
  have H' := retarget_watch (following p.1) target p.2. by destruct (retarget _ _ _).
Qed.

Lemma apply_follow_ends f p : watch_ends p (apply_follow p.1 f p.2).
Proof.
  rewrite /watch_ends /apply_follow. set (mid := if adopt f then _ else _).
  have Hm : watch (following mid.1) = watch (following p.1) \/ watch (following mid.1) = NoWatch.
  { rewrite /mid. destruct (adopt f); [|by left].
    have H := end_watch_elsewhere_ends (following p.1) (follow_node f) p.2.
    by destruct (end_watch_elsewhere _ _ _). }
  destruct mid as [facts a]. have H := retarget_watch (following facts) (follow_target f) a.
  destruct (retarget _ _ _) as [s a']. simpl in *. by rewrite H.
Qed.

(** Two copies that agree but for the watch's times, the reducer's poll not
    over at [now]. *)
Definition agree (now : N) (p q : Facts * Applied) : Prop :=
  erase p = erase q /\ poll_over (watch (following p.1)) now = false.

Lemma when_agree {A} now (o : option A) (f : A -> Facts * Applied -> Facts * Applied) p q :
  (forall x r, f x (erase r) = erase (f x r)) -> (forall x r, watch_ends r (f x r)) ->
  agree now p q -> agree now (when o f p) (when o f q).
Proof.
  intros Hf Hw [He Hp]. destruct o as [x|]; [|done]. split; simpl.
  - by rewrite -!Hf He.
  - by destruct (Hw x p) as [-> | ->].
Qed.

Lemma on_following_agree now (o : FollowState -> FollowState) p q :
  (forall s, o (erase_following s) = erase_following (o s)) -> (forall s, watch (o s) = watch s) ->
  agree now p q -> agree now (on_following o p) (on_following o q).
Proof.
  intros Hf Hw [He Hp]. split; [|by rewrite /= Hw].
  have Hc r : erase (on_following o r) = on_following o (erase r).
  { by rewrite /erase /on_following /= Hf. }
  by rewrite !Hc He.
Qed.

Lemma when_following_agree {A} now (o : option A) (f : A -> FollowState -> FollowState) p q :
  (forall x s, f x (erase_following s) = erase_following (f x s)) ->
  (forall x s, watch (f x s) = watch s) ->
  agree now p q -> agree now (when o (fun x => on_following (f x)) p) (when o (fun x => on_following (f x)) q).
Proof. intros Hf Hw H. destruct o as [x|]; [|done]. by apply on_following_agree. Qed.

Lemma apply_agree facts facts' generation change now :
  agree now (facts, Applied_default) (facts', Applied_default) ->
  erase (apply facts generation change (Some now)) = erase (apply facts' generation change None).
Proof.
  intros [He Hp]. have Ht : text facts = text facts' by injection He.
  rewrite /apply Ht. destruct (apply_texts _ _ _) as [let_go t]. cbv zeta.
  have A0 : agree now (with_text facts t, with_ranges Applied_default let_go)
                      (with_text facts' t, with_ranges Applied_default let_go).
  { split; [|done]. exact (f_equal (fun r => (with_text r.1 t, with_ranges Applied_default let_go)) He). }
  revert A0. generalize (with_text facts t, with_ranges Applied_default let_go) as p.
  generalize (with_text facts' t, with_ranges Applied_default let_go) as p'. intros p' p A0.
  apply (when_agree now (replaced change) apply_replaced) in A0;
    [|apply apply_replaced_erase|apply apply_replaced_ends].
  eapply (when_following_agree now (dialog change)
            (fun memo s => with_tracking s (with_dialog (tracking s) memo))) in A0; [|done..].
  apply (when_agree now (follow change) (fun f p => apply_follow p.1 f p.2)) in A0;
    [|apply apply_follow_erase|apply apply_follow_ends].
  eapply (when_following_agree now (change_focus_path change) (fun path s => with_focus_path s (Some path)))
    in A0; [|done..].
  eapply (when_following_agree now (change_value_from_selection change)
            (fun v s => with_tracking s (with_value_from_selection (tracking s) v))) in A0; [|done..].
  apply (when_agree now (change_foreground change) apply_foreground) in A0;
    [|apply apply_foreground_erase|apply apply_foreground_ends].
  apply (when_agree now (change_element change) apply_element) in A0;
    [|apply apply_element_erase|apply apply_element_ends].
  eapply (when_following_agree now (owed_done change) (apply_owed_done generation)) in A0;
    [|apply apply_owed_done_erase|intros x s; rewrite /apply_owed_done; destruct (owed s); [case_match|]; done].
  eapply (when_agree now (change_caret_read change) (fun '(node, started) => on_following (fun s =>
            with_caret_read s (Some (Tree.number node, started))))) in A0; [|by intros [] ?|intros [] ?; by left].
  match type of A0 with agree _ ?x ?y => revert A0; generalize x as r; generalize y as r' end.
  clear. intros r' r [He Hp].
  have A1 : agree now (with_marks r.1 (apply_marks (marks r.1) change), r.2)
                      (with_marks r'.1 (apply_marks (marks r'.1) change), r'.2).
  { split; [|done]. exact (f_equal (fun x => (with_marks x.1 (apply_marks (marks x.1) change), x.2)) He). }
  eapply (when_agree now (change_states change) (fun '(node, states) p =>
            (with_held p.1 (replace_states (held p.1) node states).2, p.2))) in A1;
    [|by intros [] ?|intros [] ?; by left].
  match type of A1 with agree _ ?x ?y => revert A1; generalize x as q; generalize y as q' end.
  clear. intros q' q [He Hp]. destruct (change_watch change) as [c|]; [|done]. simpl.
  have Hw : erase_watch (watch (following q.1)) = erase_watch (watch (following q'.1))
    := f_equal (fun x => watch (following x.1)) He.
  have H2 : q.2 = q'.2 := f_equal snd He.
  destruct (apply_watch_erase _ _ c now q.2 Hw Hp) as [Hw' Ha].
  rewrite H2 in Hw' Ha *. destruct (apply_watch _ c (Some now) _) as [w a], (apply_watch _ c None _) as [w' a'].
  simpl in *. subst a'.
  have := f_equal (fun x => (with_following x.1 (with_watch (following x.1) (erase_watch w)), a)) He.
  by rewrite {2}Hw'.
Qed.

(** The reducer's commit: the report recorded, then the rest, by the clock. *)
Definition reducer_commit (facts : Facts) (generation : N) (change : Change) (now : N) : Facts * Applied :=
  apply (when (report change) (fun r f => with_held f (record (held f) r)) facts) generation change (Some now).

(** C35: a program's copy that agrees with the reducer's facts but for the watch's
    times still does after a commit each applies for itself, and the two asked
    the shell for the same, so what the program reads after its commit is what
    the reducer holds; except that the reducer alone ends a console poll whose
    bound has passed. *)
Theorem program_copy_agrees (facts copy : Facts) (generation : N) (change : Change) (now : N) :
  with_following facts (erase_following (following facts)) =
  with_following copy (erase_following (following copy)) ->
  poll_over (watch (following facts)) now = false ->
  let reducer := reducer_commit facts generation change now in
  let program := apply_local copy generation change in
  with_following reducer.1 (erase_following (following reducer.1)) =
  with_following program.1 (erase_following (following program.1)) /\ reducer.2 = program.2.
Proof.
  intros He Hp reducer program.
  have H : erase reducer = erase program; [|by split; [exact (f_equal fst H)|exact (f_equal snd H)]].
  apply apply_agree. destruct (report change) as [r|]; simpl; [|split; [|done]; by rewrite /erase /= He].
  split; [|done].
  exact (f_equal (fun x => (with_held x (record (held x) r), Applied_default)) He).
Qed.

Definition example_take (node : NodeId) : Change := {|
  result := None; report := None; follow := None; change_foreground := None; dialog := None;
  change_value_from_selection := None; change_focus_path := None; change_element := None;
  owed_done := None; change_caret_read := Some (node, 15); change_watch := Some (WatchTake node);
  drop_system_caret := true; absorb := None; clear_redirect := false; change_states := None;
  change_gap := []; noted_caret := None; replaced := None; change_texts := []; change_found := None |}.

Lemma program_copy_agrees_witness :
  let open : OpenWatch := sample_watch 3 10 in
  let facts := with_following Facts_default (with_watch FollowState_default (WatchWaiting open 500)) in
  let copy := with_following Facts_default (with_watch FollowState_default (WatchWaiting open 0)) in
  let change := example_take (watch_node_id open) in
  let reducer := reducer_commit facts 1 change 20 in
  let program := apply_local copy 1 change in
  facts <> copy /\ taken reducer.2 = Some open /\
  with_following reducer.1 (erase_following (following reducer.1)) =
  with_following program.1 (erase_following (following program.1)) /\ reducer.2 = program.2.
Proof.
  intros open facts copy change reducer program. split; [done|]. split; [reflexivity|].
  apply (program_copy_agrees facts copy 1 change 20); reflexivity.
Defined.

(** ** The route to an element *)

Lemma first_window_spec from above window :
  first_window from = Some (above, window) <->
  exists below id post, from = below ++ (id, Some window) :: post /\ length below = above /\
    Forall (fun p : list Z * option Window => p.2 = None) below.
Proof.
  revert above. induction from as [|[id w] from IH]; intros above; simpl.
  { split; [done|]. by intros ([] & ? & ? & ? & _). }
  destruct w as [w|].
  - split.
    + intros [= <- <-]. by exists [], id, from.
    + intros ([|[] below] & id' & post & H & <- & Hb); simpl in H; simplify_eq; [done|].
      by apply Forall_cons in Hb as [? _].
  - destruct (first_window from) as [[k w']|] eqn:E; simpl.
    + split.
      * intros [= <- <-]. destruct (proj1 (IH k) eq_refl) as (below & id' & post & -> & <- & Hb).
        exists ((id, None) :: below), id', post. split_and!; [done..|by constructor].
      * intros ([|[] below] & id' & post & H & <- & Hb); simpl in H; simplify_eq. apply Forall_cons in Hb as [_ Hb].
        have Hk : Some (k, w') = Some (length below, window) by apply IH; eauto 6. by simplify_eq.
    + split; [done|]. intros ([|[] below] & id' & post & H & <- & Hb); simpl in H; simplify_eq.
      apply Forall_cons in Hb as [_ Hb]. have : None = Some (length below, window) by apply IH; eauto 6. done.
Qed.

Lemma position_first (id : list Z) (l : list (list Z * option Window)) i :
  position (fun p => bool_decide (p.1 = id)) l = Some i <->
  exists pre w post, l = pre ++ (id, w) :: post /\ length pre = i /\ id ∉ map fst pre.
Proof.
  revert i. induction l as [|[x w] l IH]; intros i; simpl.
  { split; [done|]. by intros ([] & ? & ? & ? & _). }
  case_bool_decide as Hx; simpl in Hx.
  - subst x. split; [intros [= <-]; exists [], w, l; by split_and!; [..|apply not_elem_of_nil]|].
    intros ([|[] pre] & w' & post & H & <- & Hn); simpl in H; simplify_eq; [done|]. set_solver.
  - destruct (position _ l) as [k|] eqn:E; simpl.
    + split.
      * intros [= <-]. destruct (proj1 (IH k) eq_refl) as (pre & w' & post & -> & <- & Hn).
        exists ((x, w) :: pre), w', post. split_and!; [done..|]. set_solver.
      * intros ([|[] pre] & w' & post & H & <- & Hn); simpl in H; simplify_eq.
        have Hk : Some k = Some (length pre) by apply IH; exists pre, w', post; set_solver. by simplify_eq.
    + split; [done|]. intros ([|[] pre] & w' & post & H & <- & Hn); simpl in H; simplify_eq.
      have : None = Some (length pre) by apply IH; exists pre, w', post; set_solver. done.
Qed.

(** A route leads to an element of the focus's path exactly when one of the path
    has its runtime id and one at or above it has a window of its own: it starts
    at the nearest such window, and its ids are those below that window down to
    the element, outermost first. *)
Theorem route_exact (self : FocusPath) (id : list Z) (r : Route) :
  route_to self id = Some r <->
  exists pre below above post, chain self = pre ++ below ++ above :: post /\ id ∉ map fst pre /\
    head (map fst (below ++ [above])) = Some id /\
    Forall (fun p => p.2 = None) below /\ above.2 = Some (route_window r) /\
    path r = rev (map fst below) /\ route_runtime_id r = id.
Proof.
  rewrite /route_to. split.
  - destruct (position _ _) as [i|] eqn:Ei; [|done]. simpl.
    apply position_first in Ei as (pre & w & post & Hc & <- & Hn). rewrite Hc drop_app_length.
    destruct (first_window _) as [[above window]|] eqn:Ef; [|done]. simpl. intros [= <-].
    apply first_window_spec in Ef as (below & wid & post' & Hf & <- & Hb).
    exists pre, below, (wid, Some window), post'. rewrite Hf take_app_length. split_and!; try done.
    destruct below as [|[] below]; simpl in *; by simplify_eq.
  - intros (pre & below & [wid w] & post & Hc & Hn & Hh & Hb & Hw & Hp & Hr). simpl in Hw. subst w.
    have -> : position (fun p => bool_decide (p.1 = id)) (chain self) = Some (length pre).
    { apply position_first. rewrite Hc.
      destruct below as [|[x w] below]; simpl in Hh; injection Hh as ->; by eexists pre, _, _. }
    simpl. rewrite Hc drop_app_length.
    have -> : first_window (below ++ (wid, Some (route_window r)) :: post) =
              Some (length below, route_window r) by apply first_window_spec; eauto 6.
    simpl. rewrite take_app_length -Hp -Hr. by destruct r.
Qed.
