(* ===== verification/Outpost.v ===== *)
(** The outpost's reducer: verbatim-outpost-logic's [lib.rs]. The state machine
    that holds every remembered fact of the outpost's application: inputs come
    in mailbox order, and effects go out. Its methods, which change the reducer
    and push effects, are programs of the monad [M] below; the loop of [pump]
    takes its fuel from a measure of the state, which [OutpostTerm] proves
    enough. A [u64] is an [N], and a [BTreeSet] a [gset]. *)

From S2P Require Import Prelude Tree TextModel FocusRules Facts Messages InFlight OutpostEntry GapRecord Hold Intake Verdicts CaretWatch HeldReports TextFacts Follow.

#[export] Instance Window_countable : Countable Window.
Proof.
  apply (inj_countable' Window.get (fun h => {| Window.handle := h |})). by intros [].
Defined.

Record Now := { now_at : Duration.t; observed_us : N; wall_us : N }.

(** ** Programs *)

Inductive Finish :=
  | FinishReport (trace : TraceId) (observed_at_us : N) (read : ReportCut N)
  | FinishKey (request_id : RequestId) (trace : TraceId) (read : AnswerCut N)
  | FinishWatch (read : AnswerCut N).

Record Cut := {
  edit : Z;
  cut_node : NodeId;
  cut_length : option N;
  read_at : option N;
  cut_timing : EventTiming;
  cut_calls : CallCounts;
  finish : Finish;
}.

Inductive Work :=
  | WorkEntry (entry : Entry) (handling : Handling) (batch : N) (group : option FocusGroup)
  | WorkOwed (owed : Owed)
  | WorkDrop
  | WorkPollRead
  | WorkFinish (cut : Cut) (waiting : bool).

Record Program := {
  program_request : Request;
  program_window : option Window;
  program_facts : Facts;
  program_work : Work;
  program_waiting : list WaitingCaret;
}.

Record InHand := { hand_work : string; hand_trace : option TraceId; hand_window : option Z }.

Inductive Effect :=
  | Dispatch (program : Program)
  | Send (message : OutpostToCore)
  | Release (nodes anchors : list N) (acknowledged : N) (live : list Request)
  | Subscribe (subscription : Subscription)
  | Unfollow (tokens : list N)
  | Unpark (keys : list N)
  | ForgetRanges (ranges : gset (N * RangeKey))
  | AbandonWorker (dead replacement : N) (reason : string) (on_hung : bool) (in_hand : InHand)
  | MarksChanged (marks : Marks)
  | VerdictsChanged (verdicts : Verdicts)
  | Settled (id : N)
  | Narrow
  | GapTimer (due_us : option N)
  | TestGapBound (request : Request) (top_level : Window) (stamp_us : N) (trace : TraceId)
      (facts : Facts)
  | AskJudge (request : Request) (window : option Window)
  | PublishWalk (request : Request) (facts : Facts) (then_abandon : option Reason)
  | WatchEnded (trace : TraceId) (why : string) (waited : Duration.t).

Inductive Input :=
  | InputEntry (entry : Entry) (source : Source)
  | Hooked
  | WithoutListener
  | ForwardingEnded (through : N)
  | Cancel (request_id : RequestId)
  | Verdict (generation : N) (change : VerdictChange)
  | Commit (request : Request) (change : Change)
  | InputArmed (request : Request) (bound : Duration.t)
  | WalkReturned (request : Request) (past : bool)
  | Finished (request : Request) (reported panicked : bool) (cut : option Cut)
  | Released (nodes anchors : gset N) (objects : bool)
  | GapTimerGiven
  | HandlingDeadline (deadline : Duration.t)
  | InputGapBound
  | GapBoundTested (request : Request) (related : bool) (title : option Change)
  | Judged (request : Request) (verdict : option Reason) (window : option Window)
  | InputPublished (request : Request) (change : option Change) (then_abandon : option Reason)
  | InputClose.

(** [InHand::of]. *)
Definition in_hand_of (work : Work) (window : option Window) : InHand :=
  let '(name, trace) :=
    match work with
    | WorkEntry entry _ _ _ =>
        (match entry_item entry with
         | ItemMsaa _ _ _ _ _ => "an MSAA event"
         | ItemUia _ => "a UIA event"
         | ItemFact _ _ => "a fact such as a focus or a foreground change"
         | ItemQuery _ _ => "a query from Core"
         | ItemNodesHeld _ _ _ => "the nodes Core holds"
         | ItemNotedCaret _ => "a noted caret"
         | ItemBarrier _ _ => "the idle barrier"
         | ItemGapBound _ => "the gap record's bound"
         | ItemGapRead _ => "the gap record's read"
         end, Some (entry_trace entry))
    | WorkOwed _ => ("the work the followed focus owes", None)
    | WorkDrop => ("the drop of released objects", None)
    | WorkPollRead => ("a read of the caret key's console poll", None)
    | WorkFinish _ _ => ("the finish of a cut caret read", None)
    end%string in
  {| hand_work := name; hand_trace := trace; hand_window := option_map Window.get window |}.

(** ** State *)

Record GroupTry := { try_number : N; try_rank : N; try_batch : N; try_older : list Entry }.

Record Current := {
  cur_running : option (RequestId * TraceId);
  cur_group : option GroupTry;
  deferred : bool;
  in_hand : InHand;
  destroyed : gset Window;
}.

Record Reducer := {
  intake : Intake;
  hold : Hold;
  facts : Facts;
  flight : InFlight Current;
  after : list (Entry * option GroupTry);
  to_drop : bool;
  queries : gset RequestId;
  idle_query : option N;
  focus_groups : N;
  gap_timer_given : bool;
  test_deadline : option Duration.t;
  releasing : bool;
  stopping : bool;
  hung : gset Window;
}.

Definition Reducer_default : Reducer := {|
  intake := Intake_default; hold := Hold_default; facts := Facts_default; flight := InFlight.new;
  after := []; to_drop := false; queries := ∅; idle_query := None; focus_groups := 0;
  gap_timer_given := false; test_deadline := None; releasing := false; stopping := false;
  hung := ∅ |}.

(** ** Field updates *)

Definition set_intake (x : Intake) (s : Reducer) : Reducer := {|
  intake := x; hold := hold s; facts := facts s; flight := flight s; after := after s; to_drop
  := to_drop s; queries := queries s; idle_query := idle_query s; focus_groups := focus_groups
  s; gap_timer_given := gap_timer_given s; test_deadline := test_deadline s; releasing :=
  releasing s; stopping := stopping s; hung := hung s |}.
Definition set_hold (x : Hold) (s : Reducer) : Reducer := {|
  intake := intake s; hold := x; facts := facts s; flight := flight s; after := after s; to_drop
  := to_drop s; queries := queries s; idle_query := idle_query s; focus_groups := focus_groups
  s; gap_timer_given := gap_timer_given s; test_deadline := test_deadline s; releasing :=
  releasing s; stopping := stopping s; hung := hung s |}.
Definition set_facts (x : Facts) (s : Reducer) : Reducer := {|
  intake := intake s; hold := hold s; facts := x; flight := flight s; after := after s; to_drop
  := to_drop s; queries := queries s; idle_query := idle_query s; focus_groups := focus_groups
  s; gap_timer_given := gap_timer_given s; test_deadline := test_deadline s; releasing :=
  releasing s; stopping := stopping s; hung := hung s |}.
Definition set_flight (x : InFlight Current) (s : Reducer) : Reducer := {|
  intake := intake s; hold := hold s; facts := facts s; flight := x; after := after s; to_drop
  := to_drop s; queries := queries s; idle_query := idle_query s; focus_groups := focus_groups
  s; gap_timer_given := gap_timer_given s; test_deadline := test_deadline s; releasing :=
  releasing s; stopping := stopping s; hung := hung s |}.
Definition set_after (x : list (Entry * option GroupTry)) (s : Reducer) : Reducer := {|
  intake := intake s; hold := hold s; facts := facts s; flight := flight s; after := x; to_drop
  := to_drop s; queries := queries s; idle_query := idle_query s; focus_groups := focus_groups
  s; gap_timer_given := gap_timer_given s; test_deadline := test_deadline s; releasing :=
  releasing s; stopping := stopping s; hung := hung s |}.
Definition set_to_drop (x : bool) (s : Reducer) : Reducer := {|
  intake := intake s; hold := hold s; facts := facts s; flight := flight s; after := after s;
  to_drop := x; queries := queries s; idle_query := idle_query s; focus_groups := focus_groups
  s; gap_timer_given := gap_timer_given s; test_deadline := test_deadline s; releasing :=
  releasing s; stopping := stopping s; hung := hung s |}.
Definition set_queries (x : gset RequestId) (s : Reducer) : Reducer := {|
  intake := intake s; hold := hold s; facts := facts s; flight := flight s; after := after s;
  to_drop := to_drop s; queries := x; idle_query := idle_query s; focus_groups := focus_groups
  s; gap_timer_given := gap_timer_given s; test_deadline := test_deadline s; releasing :=
  releasing s; stopping := stopping s; hung := hung s |}.
Definition set_idle_query (x : option N) (s : Reducer) : Reducer := {|
  intake := intake s; hold := hold s; facts := facts s; flight := flight s; after := after s;
  to_drop := to_drop s; queries := queries s; idle_query := x; focus_groups := focus_groups s;
  gap_timer_given := gap_timer_given s; test_deadline := test_deadline s; releasing := releasing
  s; stopping := stopping s; hung := hung s |}.
Definition set_focus_groups (x : N) (s : Reducer) : Reducer := {|
  intake := intake s; hold := hold s; facts := facts s; flight := flight s; after := after s;
  to_drop := to_drop s; queries := queries s; idle_query := idle_query s; focus_groups := x;
  gap_timer_given := gap_timer_given s; test_deadline := test_deadline s; releasing := releasing
  s; stopping := stopping s; hung := hung s |}.
Definition set_gap_timer_given (x : bool) (s : Reducer) : Reducer := {|
  intake := intake s; hold := hold s; facts := facts s; flight := flight s; after := after s;
  to_drop := to_drop s; queries := queries s; idle_query := idle_query s; focus_groups :=
  focus_groups s; gap_timer_given := x; test_deadline := test_deadline s; releasing := releasing
  s; stopping := stopping s; hung := hung s |}.
Definition set_test_deadline (x : option Duration.t) (s : Reducer) : Reducer := {|
  intake := intake s; hold := hold s; facts := facts s; flight := flight s; after := after s;
  to_drop := to_drop s; queries := queries s; idle_query := idle_query s; focus_groups :=
  focus_groups s; gap_timer_given := gap_timer_given s; test_deadline := x; releasing :=
  releasing s; stopping := stopping s; hung := hung s |}.
Definition set_releasing (x : bool) (s : Reducer) : Reducer := {|
  intake := intake s; hold := hold s; facts := facts s; flight := flight s; after := after s;
  to_drop := to_drop s; queries := queries s; idle_query := idle_query s; focus_groups :=
  focus_groups s; gap_timer_given := gap_timer_given s; test_deadline := test_deadline s;
  releasing := x; stopping := stopping s; hung := hung s |}.
Definition set_stopping (x : bool) (s : Reducer) : Reducer := {|
  intake := intake s; hold := hold s; facts := facts s; flight := flight s; after := after s;
  to_drop := to_drop s; queries := queries s; idle_query := idle_query s; focus_groups :=
  focus_groups s; gap_timer_given := gap_timer_given s; test_deadline := test_deadline s;
  releasing := releasing s; stopping := x; hung := hung s |}.
Definition set_hung (x : gset Window) (s : Reducer) : Reducer := {|
  intake := intake s; hold := hold s; facts := facts s; flight := flight s; after := after s;
  to_drop := to_drop s; queries := queries s; idle_query := idle_query s; focus_groups :=
  focus_groups s; gap_timer_given := gap_timer_given s; test_deadline := test_deadline s;
  releasing := releasing s; stopping := stopping s; hung := x |}.

Definition set_gap (g : GapRecord) (s : Reducer) : Reducer :=
  set_intake (with_gap (intake s) g) s.
Definition set_follow (f : FollowState) (s : Reducer) : Reducer :=
  set_facts (with_following (facts s) f) s.
Definition follow_watch (s : Reducer) : Watch := watch (following (facts s)).
Definition set_follow_watch (w : Watch) (s : Reducer) : Reducer :=
  set_follow (with_watch (following (facts s)) w) s.
Definition clear_absorbed (s : Reducer) : Reducer :=
  let m := marks (facts s) in
  set_facts (with_marks (facts s) {|
    focused := focused m; terminal := terminal m; focus_redirected := focus_redirected m;
    absorbed := None; system_caret_unused := system_caret_unused m |}) s.

Definition with_cur_running (c : Current) (r : option (RequestId * TraceId)) : Current := {|
  cur_running := r; cur_group := cur_group c; deferred := deferred c; in_hand := in_hand c;
  destroyed := destroyed c |}.
Definition with_deferred (c : Current) (d : bool) : Current := {|
  cur_running := cur_running c; cur_group := cur_group c; deferred := d; in_hand := in_hand c;
  destroyed := destroyed c |}.
Definition with_destroyed (c : Current) (d : gset Window) : Current := {|
  cur_running := cur_running c; cur_group := cur_group c; deferred := deferred c;
  in_hand := in_hand c; destroyed := d |}.

(** ** A method: the reducer changed, the effects pushed, and a result *)

Definition M (A : Type) : Type := Reducer -> A * Reducer * list Effect.

#[export] Instance M_ret : MRet M := fun _ a s => (a, s, []).
#[export] Instance M_bind : MBind M := fun _ _ f m s =>
  let '(a, s1, e1) := m s in
  let '(b, s2, e2) := f a s1 in
  (b, s2, e1 ++ e2).

Definition get : M Reducer := fun s => (s, s, []).
Definition modify (f : Reducer -> Reducer) : M unit := fun s => (tt, f s, []).
Definition emit (e : Effect) : M unit := fun s => (tt, s, [e]).
Definition skip : M unit := mret tt.

(** [for x in l]. *)
Fixpoint for_each {A} (l : list A) (f : A -> M unit) : M unit :=
  match l with [] => skip | x :: rest => f x ;; for_each rest f end.

(** [if let Some(x) = o]. *)
Definition if_some {A} (o : option A) (f : A -> M unit) : M unit :=
  match o with Some x => f x | None => skip end.

Definition if_then (b : bool) (m : M unit) : M unit := if b then m else skip.

(** ** Queries of the state *)

Definition handling_deadline (self : Reducer) : Duration.t :=
  default Limits.HANDLING_DEADLINE (test_deadline self).

Definition busy (self : Reducer) : bool := bool_decide (is_Some (running_item (flight self))).

Definition reducer_accepts (self : Reducer) (request : Request) : bool :=
  InFlight.accepts (flight self) request.

Definition is_running (self : Reducer) (request : Request) : bool :=
  match InFlight.running (flight self) with
  | Some (r, _, _) => bool_decide (r = request)
  | None => false
  end.

(** [current_of(request)], as the change its caller makes through it. *)
Definition current_of (request : Request) (f : Current -> Current) (self : Reducer) : Reducer :=
  if is_running self request then set_flight (item_mut (flight self) f) self else self.

(** [now.at.checked_add(left)]. *)
Definition after_left (now : Now) (due now_us : N) : option Duration.t :=
  let at_ := now_at now + Duration.from_micros (due - now_us) in
  if at_ <=? Duration.MAX then Some at_ else None.

Definition min_opt (a b : option Duration.t) : option Duration.t :=
  match a, b with Some x, Some y => Some (N.min x y) | Some x, None => Some x | None, b => b end.

Definition next_timer (self : Reducer) (now : Now) : option Duration.t :=
  let flight_due := if stopping self then None
                    else option_map Duration.from_micros (next_wake (flight self)) in
  let watch_due := if negb (busy self) && negb (releasing self) && negb (stopping self)
                   then watch_due (follow_watch self) ≫= fun due => after_left now due (wall_us now)
                   else None in
  let gap_due := if negb (gap_timer_given self) && negb (stopping self)
                 then waiting_due_us (gap (intake self)) ≫= fun due =>
                        after_left now due (observed_us now)
                 else None in
  min_opt flight_due (min_opt watch_due gap_due).

(** ** Messages *)

(** [reply]. *)
Definition reply (request_id : RequestId) (trace : TraceId) (outcome : QueryOutcome) : OutpostToCore :=
  Reply trace request_id outcome EventTiming_default.

Definition with_published (t : EventTiming) (c : CallCounts) (at_us : N) : EventTiming := {|
  raised_ms_ago := raised_ms_ago t; observed_at_us := observed_at_us t;
  listener_handled_at_us := listener_handled_at_us t;
  listener_written_at_us := listener_written_at_us t; relayed_at_us := relayed_at_us t;
  dequeued_at_us := dequeued_at_us t; awaited_at_us := awaited_at_us t;
  published_at_us := at_us; written_at_us := written_at_us t; calls := c;
  awaited_calls := awaited_calls t; core_received_at_us := core_received_at_us t;
  core_relay_us := core_relay_us t; core_held_us := core_held_us t;
  core_sent_at_us := core_sent_at_us t; core_read_at_us := core_read_at_us t |}.

Definition with_awaited (t : EventTiming) (c : CallCounts) (at_us : N) : EventTiming := {|
  raised_ms_ago := raised_ms_ago t; observed_at_us := observed_at_us t;
  listener_handled_at_us := listener_handled_at_us t;
  listener_written_at_us := listener_written_at_us t; relayed_at_us := relayed_at_us t;
  dequeued_at_us := dequeued_at_us t; awaited_at_us := at_us;
  published_at_us := published_at_us t; written_at_us := written_at_us t; calls := calls t;
  awaited_calls := c; core_received_at_us := core_received_at_us t;
  core_relay_us := core_relay_us t; core_held_us := core_held_us t;
  core_sent_at_us := core_sent_at_us t; core_read_at_us := core_read_at_us t |}.

(** [watch_ended]. *)
Definition watch_ended (open : OpenWatch) (published_at_us : N) : OutpostToCore :=
  Reply (watch_trace open) (watch_request_id open) (Done (TextResult ReplyWatchEnded))
    (with_published (watch_timing open) (watch_calls open) published_at_us).

(** [isize::from_ne_bytes(top_level.0.to_ne_bytes())]. *)
Definition cast_signed64 (n : N) : Z := if n <? 2 ^ 63 then Z.of_N n else (Z.of_N n - 2 ^ 64)%Z.

Definition gap_report (message : OutpostToCore) : option (option Z * N * bool) :=
  let top (w : option WindowFacts) := option_map (fun f => cast_signed64 (raw_handle (top_level f))) w in
  match message with
  | Event _ observed _ window _ _ (FocusChanged _ whole_window _ _ _ _ _) =>
      Some (top window, observed, whole_window)
  | Reply _ _ (Done (FocusResult now)) _ =>
      option_map (fun focus => (top (control_window focus), now_observed_at_us now, false)) (now_focus now)
  | _ => None
  end.

(** [Reducer::send]. *)
Definition send (message : OutpostToCore) : M unit :=
  if_some (gap_report message) (fun '(top, at_us, whole) =>
    modify (fun s => set_gap (note_reported (gap (intake s)) top at_us whole).2 s)) ;;
  match message with
  | Reply _ request_id _ _ =>
      modify (fun s => set_queries (queries s ∖ {[request_id]}) s) ;;
      modify (fun s => set_flight (item_mut (flight s) (fun current =>
        match cur_running current with
        | Some (running, _) =>
            if bool_decide (running = request_id) then with_cur_running current None else current
        | None => current
        end)) s)
  | _ => skip
  end ;;
  emit (Send message).

Definition answer_watch (answer : Answer) (now : Now) : M unit :=
  match answer with
  | AnswerEnded open why =>
      emit (WatchEnded (watch_trace open) why
              (Duration.from_micros (wall_us now - dequeued_at_us (watch_timing open)))) ;;
      send (watch_ended open (wall_us now))
  | AnswerEvidence open r c awaited =>
      send (Reply (watch_trace open) (watch_request_id open) (Done (TextResult r))
              (with_published (with_awaited (watch_timing open) (watch_calls open) awaited)
                 (Calls.add (watch_calls open) c) (wall_us now)))
  | AnswerAbandoned open => send (reply (watch_request_id open) (watch_trace open) OutcomeAbandoned)
  end.

(** ** Taking in entries *)

(** [Reducer::destroy_seen]. *)
Definition destroy_seen (item : Item) : M unit :=
  match item with
  | ItemMsaa WinDestroy hwnd _ _ _ =>
      if_some (Window.new hwnd) (fun window =>
        modify (fun s => set_hung (hung s ∖ {[window]}) s) ;;
        modify (fun s => set_flight (item_mut (flight s) (fun current =>
          with_destroyed current ({[window]} ∪ destroyed current))) s))
  | _ => skip
  end.

(** A foreground change its test found in front opens the gap record. *)
Definition open_gap (entry : Entry) (s : Reducer) : Reducer :=
  match entry_item entry, entry_front entry with
  | ItemFact (Foreground hwnd) _, FrontForeground (Some in_front_at_us) uia =>
      let at_us := if entry_observed_at_us entry =? 0 then in_front_at_us
                   else entry_observed_at_us entry in
      set_gap (GapRecord.foreground (gap (intake s)) hwnd at_us (entry_trace entry)
                 (if uia then AwaitsFocus else AwaitsTitle)) s
  | _, _ => s
  end.

(** [Reducer::push]. *)
Definition push_entry (entry : Entry) : M unit :=
  match entry_item entry with
  | ItemQuery request_id _ =>
      modify (fun s => if stopping s then s else set_queries ({[request_id]} ∪ queries s) s)
  | _ => skip
  end ;;
  modify (open_gap entry) ;;
  s ← get;
  let '(unparked, i) := Intake.push (intake s) entry (marks (facts s)) in
  modify (set_intake i) ;;
  match unparked with [] => skip | _ => emit (Unpark unparked) end.

Definition push_all (entries : list Entry) : M unit := for_each entries push_entry.

(** [Reducer::entry]. *)
Definition take_entry_in (entry : Entry) (source : Source) : M unit :=
  destroy_seen (entry_item entry) ;;
  match source with
  | SourceHook =>
      s ← get;
      let '(e, h) := hooked_copy (hold s) entry in
      modify (set_hold h) ;; if_some e push_entry
  | SourceListener =>
      modify (fun s => set_hold (listener_copy (hold s) entry) s) ;; push_entry entry
  | SourceOther =>
      push_entry entry ;;
      match entry_item entry with
      | ItemFact UiaFocusReadsEnded _ =>
          s ← get;
          let '(released, h) := reads_ended (hold s) in
          modify (set_hold h) ;; if_some released push_all
      | _ => skip
      end
  end.

(** ** Commits *)

Definition hang_seen (request : Request) (window : Window) : M unit :=
  s ← get;
  let gone := match InFlight.running (flight s) with
              | Some (r, current, _) => bool_decide (r = request) && bool_decide (window ∈ destroyed current)
              | None => false
              end in
  if gone then skip
  else
    modify (fun s => set_hung ({[window]} ∪ hung s) s) ;;
    if_then (bool_decide (hung s = ∅)) (send (NotResponding (Window.get window))).

Definition found (request : Request) (f : Window * Found) : M unit :=
  match f with
  | (window, FoundHung) => hang_seen request window
  | (window, FoundAnswered) => modify (fun s => set_hung (hung s ∖ {[window]}) s)
  end.

Definition gap_note (note : GapNote) : M unit :=
  match note with
  | NoteCopyDropped window top at_us trace =>
      s ← get;
      let '(dropped, g) := copy_dropped (gap (intake s)) window top at_us trace in
      modify (set_gap g) ;;
      if_then (bool_decide (dropped = ReadNow))
        (let group := match InFlight.running (flight s) with
                      | Some (_, current, _) =>
                          option_map (fun g => {| try_number := try_number g; try_rank := try_rank g;
                            try_batch := try_batch g; try_older := [] |}) (cur_group current)
                      | None => None
                      end in
         modify (fun s => set_after ((own (ItemGapRead window) trace at_us, group) :: after s) s))
  | NoteWindowDestroyed hwnd => modify (fun s => set_gap (window_destroyed (gap (intake s)) hwnd) s)
  end.

Definition subscription_effects (applied : Applied) (now : Now) : M unit :=
  for_each (applied_answers applied) (fun answer => answer_watch answer now) ;;
  if_some (subscribe applied) (fun s => emit (Subscribe s)) ;;
  match unfollowed applied with [] => skip | tokens => emit (Unfollow tokens) end.

Definition emit_ranges (r : gset (N * RangeKey)) : M unit :=
  if_then (negb (bool_decide (r = ∅))) (emit (ForgetRanges r)).

(** What an applied commit changes of the program in flight. *)
Definition commit_current (applied : Applied) (current : Current) : Current :=
  let current := if applied_opened applied then with_cur_running current None else current in
  let current := if taken applied then with_deferred current true else current in
  if resumed applied then with_deferred current false else current.

Definition noted_entry (n : NodeId * TraceId * N * EventTiming) : Entry :=
  let '(node_id, trace, observed, timing) := n in {|
    entry_item := ItemNotedCaret node_id; entry_trace := trace; entry_observed_at_us := observed;
    entry_timing := timing; entry_front := Untested |}.

(** [Reducer::commit]. *)
Definition commit (request : Request) (change : Change) (now : Now) : M unit :=
  if_some (change_found change) (found request) ;;
  if_some (report change) (fun r => modify (fun s =>
    set_facts (with_held (facts s) (record (held (facts s)) r)) s)) ;;
  if_some (result change) (fun message =>
    modify (current_of request (fun current => with_cur_running current None)) ;; send message) ;;
  for_each (change_gap change) gap_note ;;
  if_some (noted_caret change) (fun n => modify (fun s =>
    set_intake (when_idle (intake s) (noted_entry n)) s)) ;;
  s ← get;
  let '(f, applied) := Follow.apply (facts s) (in_charge (flight s)) change (Some (wall_us now)) in
  modify (set_facts f) ;;
  emit_ranges (ranges applied) ;;
  modify (current_of request (commit_current applied)) ;;
  subscription_effects applied now.

Definition record_verdict (generation : N) (change : VerdictChange) : M unit :=
  s ← get;
  if negb (generation =? in_charge (flight s)) && negb (kept_from_any_generation change) then skip
  else
    let '(changed, v) := apply_verdict (verdicts (facts s)) change in
    modify (fun s => set_facts (with_verdicts (facts s) v) s) ;;
    if changed then
      emit (VerdictsChanged v) ;;
      match change with
      | ProbedChange probe => match probe_probed probe with ProbedUia => emit Narrow | _ => skip end
      | Forget _ => skip
      end
    else skip.

(** ** Abandonment, publication and the end of a program *)

(** [Reducer::continue_group]. *)
Definition continue_group (group : GroupTry) (s : Reducer) : Reducer :=
  match try_older group with
  | [] => s
  | entry :: older =>
      set_after (after s ++ [(entry, Some {| try_number := try_number group;
        try_rank := try_rank group +|32| 1; try_batch := try_batch group; try_older := older |})]) s
  end.

Definition reason_text (r : Reason) : string :=
  match r with
  | Deadline => "a call passed its deadline"
  | MovedOn => "the user moved on from a slow window"
  | Hung => "the window stopped responding"
  end.

(** Answers with what a transition of the watch leaves. *)
Definition take_watch_answer (step : Watch -> option Answer * Watch) (now : Now) : M unit :=
  s ← get;
  let '(answer, w) := step (follow_watch s) in
  modify (set_follow_watch w) ;;
  if_some answer (fun a => answer_watch a now).

(** [Reducer::abandoned]. *)
Definition abandoned (a : Abandoned Current) (now : Now) : M unit :=
  modify (fun s => match owed (following (facts s)) with
                   | Some o => if bool_decide (attempting o = Some (dead a))
                               then set_follow (with_owed (following (facts s)) None) s else s
                   | None => s
                   end) ;;
  emit (AbandonWorker (dead a) (replacement a) (reason_text (reason a))
          (bool_decide (reason a = Hung)) (in_hand (ab_item a))) ;;
  take_watch_answer watch_abandoned now ;;
  if_some (cur_running (ab_item a)) (fun '(request_id, trace) =>
    send (reply request_id trace OutcomeAbandoned)) ;;
  if_some (cur_group (ab_item a)) (fun group =>
    if_then (negb (ab_published a)) (modify (continue_group group))).

(** [Reducer::decided]. *)
Definition decided (decision : Decision Current) (now : Now) : M unit :=
  match decision with
  | Nothing => skip
  | AskShell (Judge request window) => emit (AskJudge request window)
  | AskShell (Publish request then_abandon) =>
      s ← get; emit (PublishWalk request (facts s) then_abandon)
  | Abandon a => abandoned a now
  end.

(** A transition of the work in flight, and what it decided. *)
Definition flight_step (step : InFlight Current -> Decision Current * InFlight Current) (now : Now)
    : M unit :=
  s ← get;
  let '(decision, f) := step (flight s) in
  modify (set_flight f) ;; decided decision now.

(** [Reducer::published]. *)
Definition walk_published (request : Request) (change : option Change) (then_abandon : option Reason)
    (now : Now) : M unit :=
  s ← get;
  got ← match change with
        | Some change =>
            if InFlight.accepts (flight s) request then commit request change now ;; mret true
            else mret false
        | None => mret false
        end;
  flight_step (fun f => if stopping s then published_judging_nothing f request got then_abandon
                        else published f request got then_abandon (micros (now_at now))) now.

Definition is_gap_read (item : Item) : bool := match item with ItemGapRead _ => true | _ => false end.

(** The group of a program that ended: its gap's read, or its older entries. *)
Definition end_group (group : GroupTry) (ended : bool) (s : Reducer) : Reducer :=
  match after s with
  | (entry, read_group) :: rest =>
      if is_gap_read (entry_item entry) then
        if ended then set_after ((entry, None) :: rest) s
        else match read_group with
             | Some g => set_after ((entry, Some {| try_number := try_number g; try_rank := try_rank g;
                 try_batch := try_batch g; try_older := try_older group |}) :: rest) s
             | None => s
             end
      else if ended then s else continue_group group s
  | [] => if ended then s else continue_group group s
  end.

Definition FAILED_QUERY : string := "the outpost failed handling the query".

(** [dispatch_finish]. *)
Definition dispatch_finish (cut : Cut) : M unit :=
  s ← get;
  let waits := value_change_waiting (intake s) (edit cut) ||
               existsb (fun e => bool_decide (edit_value_change (entry_item e) = Some (edit cut)))
                 (held_copies (hold s)) in
  let '(request, f) := hand_on (flight s) in
  modify (set_flight f) ;;
  if_some request (fun request =>
    emit (Dispatch {| program_request := request; program_window := Window.new (edit cut);
      program_facts := facts s; program_work := WorkFinish cut waits; program_waiting := [] |})).

(** [Reducer::finished]. *)
Definition finished (request : Request) (reported panicked : bool) (cut : option Cut) (now : Now)
    : M unit :=
  s ← get;
  match InFlight.running (flight s) with
  | Some (running, _, published) =>
      if negb (bool_decide (running = request)) then skip
      else
        match (if negb panicked && negb published then cut else None) with
        | Some cut => dispatch_finish cut
        | None =>
            let '(ended, f) := InFlight.end_ (flight s) request in
            modify (set_flight f) ;;
            if_some ended (fun '(current, published) =>
              take_watch_answer program_ended now ;;
              if_some (cur_running current) (fun '(request_id, trace) =>
                send (reply request_id trace (Failed FAILED_QUERY))) ;;
              if_some (cur_group current) (fun group =>
                modify (end_group group (reported || published))))
        end
  | None => skip
  end.

(** [Reducer::released]. *)
Definition released (nodes anchors : gset N) (objects : bool) (now : Now) : M unit :=
  modify (set_releasing false) ;;
  modify (fun s => set_facts (with_held (facts s) (release_reports (held (facts s)) nodes)) s) ;;
  s ← get;
  let '(r, t) := release_text (text (facts s)) nodes anchors in
  modify (set_facts (with_text (facts s) t)) ;;
  emit_ranges r ;;
  s ← get;
  let follow := following (facts s) in
  let '(follow, applied) :=
    match watch_kept (watch follow) with
    | Some open => if bool_decide (Tree.number (watch_node_id open) ∈ nodes)
                   then end_watch follow "its node was released" Applied_default
                   else (follow, Applied_default)
    | None => (follow, Applied_default)
    end in
  let '(follow, applied) := release_groups follow nodes applied in
  modify (set_follow follow) ;;
  subscription_effects applied now ;;
  modify (fun s => set_to_drop (to_drop s || objects) s).

(** [Reducer::answer_idle]. *)
Definition idle_waits (s : Reducer) : bool :=
  holding (hold s) ||
  match InFlight.running (flight s) with Some (_, current, _) => deferred current | None => false end ||
  negb (watch_is_none (follow_watch s)) || pending (gap (intake s)).

Definition answer_idle : M unit :=
  s ← get;
  if idle_waits s then skip
  else
    modify (set_idle_query None) ;;
    if_some (idle_query s) (fun round => emit (Send (IdleAnswer round))).

Definition shutdown_drop (self : Reducer) : Program * Reducer :=
  let '(request, f) := next_request (flight self) in
  ({| program_request := request; program_window := None; program_facts := Facts_default;
      program_work := WorkDrop; program_waiting := [] |}, set_flight f self).

(** ** Dispatching *)

(** The caret key's watch a query opens. *)
Definition await_caret (item : Item) : option CaretWatch :=
  match item with ItemQuery _ (TextQuery _ (AwaitCaret watch)) => Some watch | _ => None end.

Definition is_caret_key (work : Work) : bool :=
  match work with
  | WorkEntry entry _ _ _ => bool_decide (is_Some (await_caret (entry_item entry)))
  | _ => false
  end.

Definition clears_absorb (item : Item) : bool :=
  match item with
  | ItemQuery _ (TextQuery _ (AwaitCaret _ | TerminalHold | TerminalRead _ | TerminalCancel)) => true
  | _ => false
  end.

Definition owed_clears_absorb (o : Owed) : bool :=
  match owed_work o with FirstRead _ => true | Slider => false end.

Definition names_no_window (item : Item) : bool :=
  match item with
  | ItemQuery _ (DumpTree _ | ShellItems _ _ | ShellItemPosition _ _ _) => true
  | _ => false
  end.

Definition duration_saturating_add (a b : Duration.t) : Duration.t := N.min Duration.MAX (a + b).

Definition budget (entry : Entry) (now : Now) (handling : Duration.t)
    : Duration.t * option (RequestId * TraceId) :=
  let bounded_walk := duration_saturating_add handling Limits.SAME_WINDOW_BOUND in
  match entry_item entry with
  | ItemQuery request_id query =>
      (match query with
       | FocusNow_ => bounded_walk
       | ShellItems _ answer_by_us | ShellItemPosition _ _ answer_by_us =>
           Duration.from_micros (answer_by_us - wall_us now)
       | _ => handling
       end, Some (request_id, entry_trace entry))
  | ItemFact (UiaFocusRead_ _ _ _) _ => (bounded_walk, None)
  | _ => (handling, None)
  end.

(** [Reducer::waiting]. *)
Definition waiting_for (self : Reducer) (work : Work) : list WaitingCaret :=
  let pressed :=
    match work with
    | WorkEntry entry _ _ _ =>
        match await_caret (entry_item entry) with
        | Some w => Some (pressed_at_ms w)
        | None => option_map (fun o => pressed_at_ms (watch_watch o)) (watch_open (follow_watch self))
        end
    | _ => option_map (fun o => pressed_at_ms (watch_watch o)) (watch_open (follow_watch self))
    end in
  waiting_carets (intake self) pressed.

Definition rule_window (window : option Window) (work : Work) : RuleWindow :=
  match window, work with
  | Some window, _ => RuleKnown window
  | None, WorkDrop => RuleNever
  | None, WorkEntry entry _ _ _ => if names_no_window (entry_item entry) then RuleNever else RuleNamed
  | None, (WorkOwed _ | WorkPollRead | WorkFinish _ _) => RuleNamed
  end.

Definition NEXT_KEY : string := "the next caret key replaced it".

(** [Reducer::dispatch]. *)
Definition dispatch (work : Work) (deadline : Duration.t) (window : option Window)
    (running : option (RequestId * TraceId)) (group : option GroupTry) (now : Now) : M unit :=
  if_then (is_caret_key work) (take_watch_answer (fun w => end_kept w NEXT_KEY) now) ;;
  s ← get;
  let waits := waiting_for s work in
  let reads_gap := match work with
                   | WorkEntry entry _ _ _ => is_gap_read (entry_item entry)
                   | _ => false
                   end in
  let current := {| cur_running := running; cur_group := group; deferred := reads_gap;
                    in_hand := in_hand_of work window; destroyed := ∅ |} in
  let '(request, f) := start (flight s) current (micros deadline) (rule_window window work)
                         (micros (now_at now)) in
  modify (set_flight f) ;;
  emit (Dispatch {| program_request := request; program_window := window; program_facts := facts s;
    program_work := work; program_waiting := waits |}).

Definition dispatch_entry (entry : Entry) (handling : Handling) (batch : N) (group : option GroupTry)
    (now : Now) : M unit :=
  s ← get;
  let '(deadline, running) := budget entry now (handling_deadline s) in
  let window := window_of (entry_item entry) in
  if_then (clears_absorb (entry_item entry)) (modify clear_absorbed) ;;
  let place := option_map (fun g => {| group_number := try_number g; group_rank := try_rank g |}) group in
  dispatch (WorkEntry entry handling batch place) deadline window running group now.

Definition start_entry (entry : Entry) (handling : Handling) (group : option GroupTry) (now : Now)
    : M unit :=
  s ← get;
  dispatch_entry entry (match group with Some g => HandlingTried (try_rank g) | None => handling end)
    (match group with Some g => try_batch g | None => batch_number (intake s) end) group now.

(** [Reducer::live]. *)
Definition live (self : Reducer) : list Request :=
  match InFlight.running (flight self) with
  | Some (request, _, published) => if published then [] else [request]
  | None => []
  end.

(** [Reducer::run]. *)
Definition run_entry (entry : Entry) (batch : N) (now : Now) : M unit :=
  s ← get;
  match entry_item entry with
  | ItemBarrier asker behind_noted =>
      match (if behind_noted then None else idle (intake s)) with
      | Some noted =>
          modify (set_intake (push_ahead (take_idle (intake s)).2
                    [noted; with_item entry (ItemBarrier asker true)]))
      | None =>
          match asker with
          | AskerRound round => modify (set_idle_query (Some round)) ;; answer_idle
          | AskerSettle id => emit (Settled id)
          end
      end
  | ItemNodesHeld nodes anchors acknowledged =>
      modify (set_releasing true) ;; emit (Release nodes anchors acknowledged (live s))
  | ItemGapBound bound =>
      let '(reached, g) := bound_reached (gap (intake s)) bound (observed_us now) in
      modify (set_gap g) ;;
      match reached with
      | Ok (Some read) =>
          dispatch_entry (with_read entry (ItemGapRead (gap_read_window read)) (gap_read_stamp_us read))
            HandlingRun batch None now
      | Ok None | Err _ => skip
      end
  | ItemQuery request_id (ShellItems _ answer_by_us) =>
      if answer_by_us <=? wall_us now
      then send (reply request_id (entry_trace entry) (Done (ShellItemsResult [])))
      else dispatch_entry entry HandlingRun batch None now
  | ItemQuery request_id (ShellItemPosition _ _ answer_by_us) =>
      if answer_by_us <=? wall_us now
      then send (reply request_id (entry_trace entry)
                   (Done (ShellItemPositionResult {| candidates := []; complete := false |})))
      else dispatch_entry entry HandlingRun batch None now
  | _ => dispatch_entry entry HandlingRun batch None now
  end.

(** An entry planned, handled. *)
Definition run_planned (planned : Planned) (batch : N) (now : Now) : M unit :=
  match planned with
  | PlannedRun entry => run_entry entry batch now
  | PlannedMenu entry => dispatch_entry entry HandlingMenu batch None now
  | PlannedFocus entries =>
      modify (fun s => set_focus_groups (focus_groups s +|64| 1) s) ;;
      match entries with
      | [] => skip
      | newest :: older =>
          s ← get;
          start_entry newest (HandlingTried 0)
            (Some {| try_number := focus_groups s; try_rank := 0; try_batch := batch;
                     try_older := older |}) now
      end
  end.

(** The watch's due time acted on, nothing else being ready: whether the loop
    goes on. *)
Definition reach_watch (now : Now) : M bool :=
  s ← get;
  let '(reached, w) := reach (follow_watch s) (wall_us now) in
  modify (set_follow_watch w) ;;
  match reached with
  | ReachedNothing => mret false
  | ReachedEnded answer => answer_watch answer now ;; mret true
  | ReachedRead =>
      dispatch WorkPollRead (handling_deadline s) None None None now ;;
      modify (fun s => set_flight (item_mut (flight s) (fun c => with_deferred c true)) s) ;;
      mret true
  end.

(** The owed work not yet attempted. *)
Definition owed_now (self : Reducer) : option Owed :=
  match owed (following (facts self)) with
  | Some o => if bool_decide (attempting o = None) then Some o else None
  | None => None
  end.

Definition attempt (o : Owed) (generation : N) : Owed := {|
  owed_node := owed_node o; owed_work := owed_work o; owed_trace := owed_trace o;
  owed_observed_at_us := owed_observed_at_us o; attempting := Some generation |}.

(** One turn of the loop of [pump]: whether the loop goes on. *)
Definition pump_step (now : Now) : M bool :=
  s ← get;
  if busy s || stopping s || releasing s then mret false
  else
    match owed_now s with
    | Some o =>
        let o := attempt o (in_charge (flight s)) in
        modify (fun s => set_follow (with_owed (following (facts s)) (Some o)) s) ;;
        if_then (owed_clears_absorb o) (modify clear_absorbed) ;;
        dispatch (WorkOwed o) (handling_deadline s) None None None now ;; mret true
    | None =>
        match after s with
        | (entry, group) :: rest =>
            modify (set_after rest) ;; start_entry entry HandlingRun group now ;; mret true
        | [] =>
            if to_drop s then
              modify (set_to_drop false) ;;
              dispatch WorkDrop (handling_deadline s) None None None now ;; mret true
            else
              let '(out, i) := next (intake s) (marks (facts s)) in
              modify (set_intake i) ;;
              match out with
              | None => reach_watch now
              | Some (planned, batch) => run_planned planned batch now ;; mret true
              end
        end
    end.

(** The loop, with fuel: whether it ended by itself. *)
Fixpoint pump_loop (fuel : nat) (now : Now) : M bool :=
  match fuel with
  | O => mret false
  | S fuel => on ← pump_step now; if on : bool then pump_loop fuel now else mret true
  end.

(** A barrier not yet behind a noted caret is handled at most twice. *)
Definition entry_weight (e : Entry) : nat :=
  match entry_item e with ItemBarrier _ false => 2 | _ => 1 end.

Definition weight (es : list Entry) : nat := sum_list_with entry_weight es.

(** The turns of [pump] the state can still take, at most. *)
Definition pump_measure (self : Reducer) : nat :=
  (2 * weight (map w_entry (Intake.waiting (intake self))) +
   weight (flat_map planned_entries (batch (intake self))) + length (batch (intake self)) +
   2 * weight (option_list (idle (intake self))) +
   (if watch_is_none (follow_watch self) then 0 else 1))%nat.

Definition pump (now : Now) : M unit :=
  s ← get; _ ← pump_loop (pump_measure s + 2) now; mret tt.

(** ** Inputs *)

(** [Reducer::gap_bound]. *)
Definition gap_bound : M unit :=
  s ← get;
  if stopping s then skip
  else
    let '(at_, g) := at_bound (gap (intake s)) in
    modify (set_gap g) ;;
    if_some at_ (fun at_ =>
      match Window.new (at_top_level at_) with
      | None => modify (fun s => set_gap (close (gap (intake s))) s)
      | Some top =>
          let '(request, f) := next_request (flight s) in
          modify (set_flight f) ;;
          emit (TestGapBound request top (at_stamp_us at_) (at_trace at_) (facts s))
      end).

(** [Reducer::gap_bound_tested]. *)
Definition gap_bound_tested (request : Request) (related : bool) (title : option Change) (now : Now)
    : M unit :=
  s ← get;
  if negb (is_open (gap (intake s))) then skip
  else if negb related then modify (set_gap (close (gap (intake s))))
  else
    let reads := bool_decide (awaits (gap (intake s)) = Some AwaitsFocus) in
    let trace := trace (gap (intake s)) in
    let bound := bound_number (gap (intake s)) in
    if_some title (fun change => commit request change now) ;;
    s ← get;
    match trace, bound with
    | Some trace, Some bound =>
        if reads && is_open (gap (intake s))
        then modify (set_intake (push_gap_bound (intake s)
               (own (ItemGapBound bound) trace (observed_us now)) (marks (facts s))))
        else modify (set_gap (bound_passed (gap (intake s))))
    | _, _ => modify (set_gap (bound_passed (gap (intake s))))
    end.

Definition handle (input : Input) (now : Now) : M unit :=
  match input with
  | InputEntry entry source => take_entry_in entry source
  | Hooked => modify (fun s => set_hold (hooked (hold s)) s)
  | WithoutListener =>
      s ← get;
      let '(held, h) := without_listener (hold s) in
      modify (set_hold h) ;; push_all held
  | ForwardingEnded through =>
      s ← get;
      let '(released, h) := forwarding_ended (hold s) through in
      modify (set_hold h) ;; if_some released push_all
  | Cancel request_id =>
      s ← get;
      let '(trace, i) := cancel (intake s) request_id in
      modify (set_intake i) ;;
      if_some trace (fun trace => send (reply request_id trace NotStarted))
  | Verdict generation change => record_verdict generation change
  | Commit request change =>
      s ← get; if_then (reducer_accepts s request) (commit request change now)
  | InputArmed request bound => modify (fun s => set_flight (armed (flight s) request (micros bound)) s)
  | WalkReturned request past => flight_step (fun f => walk_returned f request past) now
  | Finished request reported panicked cut => finished request reported panicked cut now
  | Released nodes anchors objects => released nodes anchors objects now
  | GapTimerGiven => modify (set_gap_timer_given true)
  | HandlingDeadline deadline => modify (set_test_deadline (Some deadline))
  | InputGapBound => gap_bound
  | GapBoundTested request related title => gap_bound_tested request related title now
  | Judged request verdict window =>
      s ← get;
      if stopping s then skip
      else
        match is_running s request, verdict, window with
        | true, Some Hung, Some window => hang_seen request window
        | _, _, _ => skip
        end ;;
        flight_step (fun f => judged f request verdict) now
  | InputPublished request change then_abandon => walk_published request change then_abandon now
  | InputClose =>
      modify (set_stopping true) ;;
      s ← get;
      let '(unparked, i) := close_intake (intake s) in
      modify (set_intake i) ;;
      match unparked with [] => skip | _ => emit (Unpark unparked) end
  end.

Definition observed (self : Reducer) : Marks * option N :=
  (marks (facts self), due_us (gap (intake self))).

(** [Reducer::changed]: the effects with what changed of what the shell keeps a
    copy of. *)
Definition changed (before : Marks * option N) (self : Reducer) (effects : list Effect) : list Effect :=
  let effects := if bool_decide (marks (facts self) = before.1) then effects
                 else MarksChanged (marks (facts self)) :: effects in
  if bool_decide (due_us (gap (intake self)) = before.2) then effects
  else effects ++ [GapTimer (due_us (gap (intake self)))].

(** A transition, then the pump, the idle answer and the shell's copies. *)
Definition transition (m : M unit) (now : Now) (self : Reducer) : list Effect * Reducer :=
  let '(_, s, effects) := (m ;; pump now ;; answer_idle) self in
  (changed (observed self) s effects, s).

(** [Reducer::input]. *)
Definition input (self : Reducer) (i : Input) (now : Now) : list Effect * Reducer :=
  transition (handle i now) now self.

(** [Reducer::tick]. *)
Definition tick_now (now : Now) : M unit :=
  s ← get;
  if_then (negb (stopping s)) (flight_step (fun f => InFlight.tick f (micros (now_at now))) now) ;;
  s ← get;
  if_then (negb (gap_timer_given s) &&
           match waiting_due_us (gap (intake s)) with
           | Some due => due <=? observed_us now
           | None => false
           end) gap_bound.

Definition tick (self : Reducer) (now : Now) : list Effect * Reducer :=
  transition (tick_now now) now self.
