(* ===== verification/OutpostTerm.v ===== *)
(** The reducer's methods as programs ([Outpost]): their laws, what they keep,
    and that the loop of [pump] ends within its fuel. *)

From S2P Require Import Prelude Tree TextModel FocusRules Facts Messages InFlight OutpostEntry GapRecord Hold Intake IntakePlan IntakeProps Verdicts CaretWatch HeldReports TextFacts Follow Outpost.

(** ** Results, states and effects of a method *)

Section laws.
Context {A B : Type}.

Definition val (m : M A) (s : Reducer) : A := (m s).1.1.
Definition st (m : M A) (s : Reducer) : Reducer := (m s).1.2.
Definition out (m : M A) (s : Reducer) : list Effect := (m s).2.

End laws.

Section bind_laws.
Context {A B : Type} (m : M A) (f : A -> M B).

Lemma val_bind s : val (m ≫= f) s = val (f (val m s)) (st m s).
Proof. rewrite /val /st /mbind /M_bind. destruct (m s) as [[a s1] e1]. simpl. by destruct (f a s1) as [[]]. Qed.

Lemma st_bind s : st (m ≫= f) s = st (f (val m s)) (st m s).
Proof. rewrite /val /st /mbind /M_bind. destruct (m s) as [[a s1] e1]. simpl. by destruct (f a s1) as [[]]. Qed.

Lemma out_bind s : out (m ≫= f) s = out m s ++ out (f (val m s)) (st m s).
Proof. rewrite /val /st /out /mbind /M_bind. destruct (m s) as [[a s1] e1]. simpl. by destruct (f a s1) as [[]]. Qed.

End bind_laws.

(** ** What a method keeps *)

Definition keeps {A V} (view : Reducer -> V) (m : M A) : Prop := forall s, view (st m s) = view s.

Create HintDb keeps.

Section keeps_laws.
Context {V : Type} (view : Reducer -> V).

Lemma keeps_ret {A} (a : A) : keeps view (mret a : M A).
Proof. done. Qed.
Lemma keeps_skip : keeps view skip.
Proof. done. Qed.
Lemma keeps_get : keeps view get.
Proof. done. Qed.
Lemma keeps_emit e : keeps view (emit e).
Proof. done. Qed.
Lemma keeps_modify f : (forall s, view (f s) = view s) -> keeps view (modify f).
Proof. intros H s. apply H. Qed.
Lemma keeps_bind {A B} (m : M A) (f : A -> M B) :
  keeps view m -> (forall a, keeps view (f a)) -> keeps view (m ≫= f).
Proof. intros Hm Hf s. by rewrite st_bind Hf Hm. Qed.
Lemma keeps_for_each {A} (l : list A) f : (forall x, keeps view (f x)) -> keeps view (for_each l f).
Proof. intros Hf. induction l; simpl; [done|]. by apply keeps_bind. Qed.
Lemma keeps_if_some {A} (o : option A) f : (forall x, keeps view (f x)) -> keeps view (if_some o f).
Proof. intros Hf. destruct o; [apply Hf|done]. Qed.
Lemma keeps_if_then b m : keeps view m -> keeps view (if_then b m).
Proof. by destruct b. Qed.

End keeps_laws.

#[export] Hint Resolve keeps_ret keeps_skip keeps_get keeps_emit : keeps.

(** Splits a program along its binds and branches. *)
Ltac keep_split :=
  repeat first
    [ solve [auto 1 with keeps nocore]
    | apply keeps_bind; [|intros ?] | apply keeps_for_each; intros ? | apply keeps_if_some; intros ?
    | apply keeps_if_then | progress case_match | apply keeps_modify; intros ? ].

(** What the turns of [pump] are counted by. *)
Definition pump_view (s : Reducer) :=
  (Intake.waiting (intake s), batch (intake s), idle (intake s), follow_watch s).

Lemma pump_view_measure s s' : pump_view s = pump_view s' -> pump_measure s = pump_measure s'.
Proof. rewrite /pump_view /pump_measure. by intros [= -> -> -> ->]. Qed.

Lemma send_keeps message : keeps pump_view (send message).
Proof. rewrite /send. keep_split; done. Qed.
#[export] Hint Resolve send_keeps : keeps.

Lemma answer_watch_keeps a now : keeps pump_view (answer_watch a now).
Proof. rewrite /answer_watch. keep_split. Qed.
#[export] Hint Resolve answer_watch_keeps : keeps.

Lemma answer_idle_keeps : keeps pump_view answer_idle.
Proof. rewrite /answer_idle. keep_split; done. Qed.
#[export] Hint Resolve answer_idle_keeps : keeps.

(** ** The weight of what the intake hands out *)

#[local] Arguments weight : simpl never.

Lemma weight_cons e l : weight (e :: l) = (entry_weight e + weight l)%nat.
Proof. done. Qed.

Lemma weight_nil : weight [] = 0%nat.
Proof. done. Qed.

Lemma weight_app l k : weight (l ++ k) = (weight l + weight k)%nat.
Proof. rewrite /weight. induction l as [|e l IH]; simpl; [done|]. rewrite IH. lia. Qed.

Lemma weight_perm l k : l ≡ₚ k -> weight l = weight k.
Proof. rewrite /weight. induction 1; simpl; lia. Qed.

Lemma weight_length l : (length l <= weight l)%nat.
Proof. rewrite /weight. induction l as [|e l IH]; simpl; [done|]. rewrite {1}/entry_weight. repeat case_match; lia. Qed.

Lemma admit_weight focused ws :
  (weight (map w_entry (admit_spec focused ws)) <= weight (map w_entry ws))%nat.
Proof.
  induction ws as [|w ws IH]; [done|]. simpl. rewrite map_app weight_app weight_cons.
  destruct (within_limits _ _ _); rewrite /= ?weight_cons ?weight_nil; lia.
Qed.

Lemma batch_entries_weight kept : (weight (batch_entries kept) <= weight (map w_entry kept))%nat.
Proof.
  rewrite /batch_entries weight_app.
  have P := Permutation_map w_entry (filter_split (fun w => is_menu (w_key w)) kept).
  rewrite (weight_perm _ _ P) map_app weight_app.
  have Hm : (weight (newest_menu kept) <=
             weight (map w_entry (List.filter (fun w => is_menu (w_key w)) kept)))%nat.
  { rewrite /newest_menu. destruct (last _) as [w|] eqn:E; simpl; [|rewrite weight_nil; lia].
    apply last_Some in E as [l ->]. rewrite map_app weight_app /=. lia. }
  lia.
Qed.

Lemma planned_of_nonempty l : forall ws,
  Forall (fun p => planned_entries p <> []) (planned_of ws l).
Proof.
  induction l as [|w l IH]; intros ws; cbn [planned_of]; [constructor|].
  destruct (in_a_run _).
  - destruct (run_over l); [|apply IH]. constructor; [|apply IH]. simpl. intros Hn.
    apply map_eq_nil in Hn. have P := run_in_order_perm (ws ++ [w]).
    apply (f_equal (@length _)) in Hn. rewrite length_rev (Permutation_length P) length_app /= in Hn. lia.
  - apply Forall_app. split; [|apply IH]. destruct (w_key w) as [[]|]; by repeat constructor.
Qed.

Lemma menus_before_query_nonempty planned deferred :
  Forall (fun p => planned_entries p <> []) planned ->
  Forall (fun p => planned_entries p <> []) (menus_before_query planned deferred).
Proof.
  intros Hp. have Hm : Forall (fun p => planned_entries p <> []) (map PlannedMenu deferred)
    by apply Forall_map, Forall_forall.
  rewrite /menus_before_query. destruct (last planned) as [[e| |]|] eqn:E;
    try (rewrite app_nil_r; apply Forall_app; by split).
  destruct (is_barrier _); [|rewrite app_nil_r; apply Forall_app; by split].
  apply last_Some in E as [l ->]. rewrite removelast_last. apply Forall_app in Hp as [Hp _].
  repeat (apply Forall_app; split); [done..|]. by repeat constructor.
Qed.

Lemma plan_nonempty ws focused : Forall (fun p => planned_entries p <> []) (plan ws focused).
Proof. rewrite plan_is_spec. apply menus_before_query_nonempty, planned_of_nonempty. Qed.

Lemma planned_length pl : Forall (fun p => planned_entries p <> []) pl ->
  (length pl <= weight (flat_map planned_entries pl))%nat.
Proof.
  induction 1 as [|p pl Hp H IH]; simpl; [done|]. rewrite weight_app.
  have Hw := weight_length (planned_entries p). destruct (planned_entries p); [done|]. cbn [length] in Hw. lia.
Qed.

Lemma plan_weight ws focused :
  (weight (flat_map planned_entries (plan ws focused)) + length (plan ws focused) <=
   2 * weight (map w_entry ws))%nat.
Proof.
  have Hl := planned_length _ (plan_nonempty ws focused).
  have Hw := weight_perm _ _ (plan_entries_perm ws focused).
  have Hb := batch_entries_weight (admit_spec focused ws). have Ha := admit_weight focused ws. lia.
Qed.

Definition intake_weight (i : Intake) : nat :=
  (2 * weight (map w_entry (Intake.waiting i)) + weight (flat_map planned_entries (batch i)) +
   length (batch i) + 2 * weight (option_list (idle i)))%nat.

Lemma pump_measure_eq s :
  pump_measure s = (intake_weight (intake s) + (if watch_is_none (follow_watch s) then 0 else 1))%nat.
Proof. done. Qed.

Lemma take_when_idle_weight i p n i' :
  take_when_idle i = (Some (p, n), i') ->
  (intake_weight i' + weight (planned_entries p) + 1 <= intake_weight i)%nat.
Proof.
  rewrite /take_when_idle. destruct (closed i); [done|]. destruct (idle i) as [e|] eqn:E; [|done].
  intros [= <- <- <-]. rewrite /intake_weight E.
  cbn [idle with_idle Intake.waiting batch option_list planned_entries]. rewrite weight_nil.
  have := weight_length [e]. cbn [length]. change (option_list (Some e)) with [e]. lia.
Qed.

(** An entry handed out takes its weight and one from the intake's. *)
Lemma next_weight i marks p n i' :
  next i marks = (Some (p, n), i') ->
  (intake_weight i' + weight (planned_entries p) + 1 <= intake_weight i)%nat.
Proof.
  rewrite /next. destruct (batch i) as [|q rest] eqn:Eb.
  2: { intros [= <- <- <-]. rewrite /intake_weight /= Eb /= weight_app. lia. }
  destruct (0 <? ready (Intake.waiting i))%nat; [|apply take_when_idle_weight].
  set (due := caret_after_update _ _ _). cbn [batch].
  have Hp := plan_weight due (focused marks).
  have Hd : weight (map w_entry due) = weight (map w_entry (take (ready (Intake.waiting i)) (Intake.waiting i))).
  { apply weight_perm, Permutation_map, caret_after_update_perm. }
  have Hs : weight (map w_entry (Intake.waiting i)) =
            (weight (map w_entry (take (ready (Intake.waiting i)) (Intake.waiting i))) +
             weight (map w_entry (drop (ready (Intake.waiting i)) (Intake.waiting i))))%nat.
  { by rewrite -weight_app -map_app take_drop. }
  destruct (plan due (focused marks)) as [|q rest] eqn:Ep.
  - intros H%take_when_idle_weight. rewrite /intake_weight Eb /= in H *. lia.
  - intros [= <- <- <-]. rewrite /intake_weight Eb /= weight_app in Hp *. lia.
Qed.

(** ** When nothing is handed out *)

Lemma admit_last focused ws w : last ws = Some w -> exists kept, admit_spec focused ws = kept ++ [w].
Proof.
  intros [l ->]%last_Some. induction l as [|x l (kept & IH)]; simpl.
  - exists []. rewrite /within_limits. by destruct (w_category w).
  - rewrite IH. eexists. by rewrite app_assoc.
Qed.

Lemma plan_some ws focused : ws <> [] -> plan ws focused <> [].
Proof.
  intros Hne Hp. have P := plan_entries_perm ws focused. rewrite Hp /= in P.
  apply Permutation_nil in P. destruct (last ws) as [w|] eqn:E; [|by apply last_None in E].
  destruct (admit_last focused ws w E) as [kept Hk]. rewrite Hk /batch_entries in P.
  apply app_eq_nil in P as [P1 P2]. rewrite List.filter_app map_app in P1.
  apply app_eq_nil in P1 as [_ P1]. simpl in P1.
  destruct (is_menu (w_key w)) eqn:Em; [|done].
  by rewrite /newest_menu List.filter_app /= Em last_snoc in P2.
Qed.

(** Nothing is handed out only when nothing is ready. *)
Lemma next_none i marks i' :
  next i marks = (None, i') ->
  batch i = [] /\ ready (Intake.waiting i) = 0%nat /\ (closed i = true \/ idle i = None) /\
  Intake.waiting i' = Intake.waiting i /\ batch i' = batch i /\ gap i' = gap i /\
  closed i' = closed i /\ (closed i = true -> i' = i) /\ (closed i = false -> idle i' = None).
Proof.
  have Hidle j : take_when_idle j = (None, i') -> (closed j = true \/ idle j = None) /\
    Intake.waiting i' = Intake.waiting j /\ batch i' = batch j /\ gap i' = gap j /\
    closed i' = closed j /\ (closed j = true -> i' = j) /\ (closed j = false -> idle i' = None).
  { rewrite /take_when_idle. destruct (closed j) eqn:Ec.
    - intros [= <-]. split_and!; auto. congruence.
    - destruct (idle j) eqn:Ei; [done|]. intros [= <-]. split_and!; auto. congruence. }
  rewrite /next. destruct (batch i) as [|q rest] eqn:Eb; [|done].
  destruct (Nat.ltb_spec 0 (ready (Intake.waiting i))) as [Hr|Hr].
  - set (due := caret_after_update _ _ _). cbn [batch].
    have Hne : due <> [].
    { intros Hd. have P := caret_after_update_perm (take (ready (Intake.waiting i)) (Intake.waiting i)) (focused marks) (terminal marks).
      rewrite -/due Hd in P. apply Permutation_nil in P.
      destruct (Intake.waiting i) as [|x l]; [rewrite /ready /= in Hr; lia|]. by destruct (ready _); [lia|]. }
    destruct (plan due (focused marks)) as [|p rest] eqn:Ep; [by destruct (plan_some due (focused marks))|done].
  - intros H%Hidle. rewrite -Eb. split; [done|]. split; [lia|]. exact H.
Qed.

Lemma next_none_weight i marks i' :
  next i marks = (None, i') -> (intake_weight i' <= intake_weight i)%nat.
Proof.
  intros (_ & _ & _ & Hw & Hb & _ & Hc & Hcl & Hi)%next_none. rewrite /intake_weight Hw Hb.
  destruct (closed i); [by rewrite Hcl|]. rewrite Hi //. change (option_list (@None Entry)) with (@nil Entry).
  rewrite weight_nil. lia.
Qed.

(** ** A turn of the loop *)

Definition at_rest (s : Reducer) : bool := busy s || stopping s || releasing s.

Lemma dispatch_busy work deadline window running group now s :
  busy (st (dispatch work deadline window running group now) s) = true.
Proof. rewrite /dispatch st_bind. generalize (st (if_then (is_caret_key work) (take_watch_answer (fun w => end_kept w NEXT_KEY) now)) s). done. Qed.

Lemma dispatch_entry_busy entry handling b group now s :
  busy (st (dispatch_entry entry handling b group now) s) = true.
Proof.
  rewrite /dispatch_entry st_bind. destruct (budget _ _ _) as [deadline running]. rewrite st_bind.
  apply dispatch_busy.
Qed.

Lemma start_entry_busy entry handling group now s :
  busy (st (start_entry entry handling group now) s) = true.
Proof. rewrite /start_entry st_bind. apply dispatch_entry_busy. Qed.

Lemma at_rest_busy s : busy s = true -> at_rest s = true.
Proof. rewrite /at_rest. by intros ->. Qed.

Lemma pump_view_set_gap g s : pump_view (set_gap g s) = pump_view s.
Proof. done. Qed.

Lemma push_ahead_weight i es :
  (intake_weight (push_ahead i es) <= intake_weight i + 2 * weight es)%nat.
Proof.
  rewrite /push_ahead. destruct (closed i); [lia|]. rewrite /intake_weight /=.
  have := IntakeProps.push_ahead_waiting 0 es (Intake.waiting i) (Nat.le_0_l _). rewrite drop_0 take_0 /=. intros ->.
  rewrite map_app weight_app map_map.
  have -> : map (fun e => w_entry (own_waiting e)) es = es.
  { rewrite -{2}(map_id es). apply map_ext. intros e. rewrite /own_waiting. by destruct (classify _) as [[]]. }
  lia.
Qed.

(** What a turn leaves: the reducer at rest, or less to do. *)
Definition lighter (m : M unit) (slack : nat) : Prop :=
  forall s, at_rest (st m s) = true \/ (pump_measure (st m s) <= pump_measure s + slack)%nat.

Lemma lighter_keeps m slack : keeps pump_view m -> lighter m slack.
Proof. intros H s. right. rewrite (pump_view_measure _ _ (H s)). lia. Qed.

Lemma run_entry_lighter entry b now : lighter (run_entry entry b now) (weight [entry]).
Proof.
  intros s. rewrite /run_entry st_bind. cbn [val get fst].
  have Hw := weight_length [entry]. cbn [length] in Hw.
  have Hd h e : at_rest (st (dispatch_entry e h b None now) s) = true \/
    (pump_measure (st (dispatch_entry e h b None now) s) <= pump_measure s + weight [entry])%nat
    by left; apply at_rest_busy, dispatch_entry_busy.
  have Hk (m : M unit) : keeps pump_view m ->
    at_rest (st m s) = true \/ (pump_measure (st m s) <= pump_measure s + weight [entry])%nat
    by intros ?; apply lighter_keeps.
  destruct (entry_item entry) as [| | |id q|nodes anchors ack| |asker behind|bound|] eqn:Ei;
    try (apply Hd).
  - destruct q; try (apply Hd); (destruct (_ <=? _); [apply Hk, send_keeps|apply Hd]).
  - left. rewrite /at_rest. rewrite st_bind. simpl. by rewrite !orb_true_r.
  - destruct (if behind then None else idle (intake s)) as [noted|] eqn:En.
    + destruct behind; [done|]. right. rewrite !pump_measure_eq. cbn [st modify fst snd intake set_intake].
      have Hp := push_ahead_weight (take_idle (intake s)).2 [noted; with_item entry (ItemBarrier asker true)].
      have Ht : intake_weight (intake s) = (intake_weight (take_idle (intake s)).2 + 2 * weight [noted])%nat.
      { rewrite /intake_weight En. cbn [take_idle with_idle snd idle Intake.waiting batch].
        change (option_list (Some noted)) with [noted]. change (option_list (@None Entry)) with (@nil Entry).
        rewrite weight_nil. lia. }
      have H2 : weight [entry] = 2%nat by rewrite weight_cons weight_nil /entry_weight Ei.
      rewrite !weight_cons weight_nil in Hp Ht. change (entry_weight (with_item entry (ItemBarrier asker true))) with 1%nat in Hp.
      change (follow_watch (set_intake _ (st get s))) with (follow_watch s). lia.
    + destruct asker; [|apply Hk; keep_split]. apply Hk. keep_split; done.
  - destruct (bound_reached _ _ _) as [reached g]. rewrite st_bind. cbn [val st modify fst snd].
    destruct reached as [[read|]|]; [left; apply at_rest_busy, dispatch_entry_busy|right..];
      (rewrite (pump_view_measure (st skip (set_gap g s)) s); [lia|done]).
Qed.

Lemma run_planned_lighter p b now : lighter (run_planned p b now) (weight (planned_entries p)).
Proof.
  destruct p as [e|e|es]; [apply run_entry_lighter|intros s; left; apply at_rest_busy, dispatch_entry_busy|].
  intros s. rewrite /run_planned st_bind. destruct es as [|newest older].
  - right. rewrite (pump_view_measure (st skip _) s); [lia|done].
  - left. rewrite st_bind. apply at_rest_busy, start_entry_busy.
Qed.

Lemma watch_measure s : (pump_measure s <= intake_weight (intake s) + 1)%nat.
Proof. rewrite pump_measure_eq. destruct (watch_is_none _); lia. Qed.

Lemma answer_watch_intake a now s : intake_weight (intake (st (answer_watch a now) s)) = intake_weight (intake s)
  /\ follow_watch (st (answer_watch a now) s) = follow_watch s.
Proof.
  have H := answer_watch_keeps a now s. rewrite /pump_view in H. injection H as H1 H2 H3 H4.
  by rewrite /intake_weight H1 H2 H3 H4.
Qed.

Lemma reach_watch_turn now s :
  val (reach_watch now) s = true ->
  at_rest (st (reach_watch now) s) = true \/
  (pump_measure (st (reach_watch now) s) < pump_measure s)%nat.
Proof.
  rewrite /reach_watch st_bind val_bind. change (val get s) with s. change (st get s) with s.
  destruct (reach (follow_watch s) (wall_us now)) as [reached w] eqn:Er.
  rewrite st_bind val_bind. change (st (modify (set_follow_watch w)) s) with (set_follow_watch w s).
  destruct reached as [|answer|]; [done| |].
  - intros _. right. rewrite st_bind !pump_measure_eq.
    destruct (answer_watch_intake answer now (set_follow_watch w s)) as [Hi Hw].
    change (st (mret true) ?x) with x. rewrite Hi Hw.
    have Hn : watch_is_none (follow_watch s) = false /\ w = NoWatch.
    { rewrite /reach in Er. destruct (follow_watch s); try done; destruct (_ <=? _); by simplify_eq. }
    destruct Hn as [-> ->]. change (follow_watch (set_follow_watch NoWatch s)) with NoWatch.
    change (intake (set_follow_watch NoWatch s)) with (intake s). simpl. lia.
  - intros _. left. rewrite !st_bind. apply at_rest_busy.
    have Hb := dispatch_busy WorkPollRead (handling_deadline s) None None None now (set_follow_watch w s).
    revert Hb. generalize (st (dispatch WorkPollRead (handling_deadline s) None None None now)
                             (set_follow_watch w s)) as s'. intros s'.
    rewrite /busy. cbn [st mret M_ret modify fst snd flight set_flight]. rewrite /item_mut.
    by destruct (running_item (flight s')).
Qed.

(** A turn that goes on leaves the reducer at rest, or less to do. *)
Lemma pump_step_turn now s :
  val (pump_step now) s = true ->
  at_rest (st (pump_step now) s) = true \/ (pump_measure (st (pump_step now) s) < pump_measure s)%nat.
Proof.
  rewrite /pump_step st_bind val_bind. change (val get s) with s. change (st get s) with s.
  destruct (busy s || stopping s || releasing s); [done|].
  destruct (owed_now s) as [o|].
  { intros _. left. do 3 rewrite st_bind. apply at_rest_busy, dispatch_busy. }
  destruct (after s) as [|[entry group] rest].
  2: { intros _. left. do 2 rewrite st_bind. apply at_rest_busy, start_entry_busy. }
  destruct (to_drop s).
  { intros _. left. do 2 rewrite st_bind. apply at_rest_busy, dispatch_busy. }
  destruct (next (intake s) (marks (facts s))) as [out_ i] eqn:En.
  rewrite st_bind val_bind. change (st (modify (set_intake i)) s) with (set_intake i s).
  destruct out_ as [[p b]|].
  - intros _. rewrite st_bind. apply next_weight in En.
    change (st (mret true) ?x) with x.
    destruct (run_planned_lighter p b now (set_intake i s)) as [Hr|Hr]; [by left|right].
    rewrite !pump_measure_eq in Hr *. change (intake (set_intake i s)) with i in Hr.
    change (follow_watch (set_intake i s)) with (follow_watch s) in Hr. lia.
  - intros Hv. destruct (reach_watch_turn now (set_intake i s) Hv) as [?|Hr]; [by left|right].
    have Hi : (intake_weight i <= intake_weight (intake s))%nat by apply (next_none_weight _ _ _ En).
    rewrite !pump_measure_eq in Hr *. change (intake (set_intake i s)) with i in Hr.
    change (follow_watch (set_intake i s)) with (follow_watch s) in Hr. lia.
Qed.

(** ** The loop *)

(** Nothing is left for the loop to do at [now]. *)
Definition pumped (s : Reducer) (now : Now) : Prop :=
  at_rest s = true \/
  (owed_now s = None /\ after s = [] /\ to_drop s = false /\ batch (intake s) = [] /\
   ready (Intake.waiting (intake s)) = 0%nat /\ (closed (intake s) = true \/ idle (intake s) = None) /\
   (reach (follow_watch s) (wall_us now)).1 = ReachedNothing).

Lemma reach_nothing w now_us : (reach w now_us).1 = ReachedNothing -> (reach w now_us).2 = w.
Proof. destruct w; simpl; try done; by destruct (_ <=? _). Qed.

Lemma pump_step_ends now s :
  val (pump_step now) s = false -> pumped (st (pump_step now) s) now.
Proof.
  rewrite /pump_step st_bind val_bind. change (val get s) with s. change (st get s) with s.
  destruct (busy s || stopping s || releasing s) eqn:Er; [by left|].
  destruct (owed_now s) as [o|] eqn:Eo.
  { do 3 rewrite val_bind. done. }
  destruct (after s) as [|[entry group] rest] eqn:Ea; [|by do 2 rewrite val_bind].
  destruct (to_drop s) eqn:Ed; [by do 2 rewrite val_bind|].
  destruct (next (intake s) (marks (facts s))) as [out_ i] eqn:En.
  rewrite st_bind val_bind. change (st (modify (set_intake i)) s) with (set_intake i s).
  destruct out_ as [[p b]|]; [by rewrite val_bind|].
  apply next_none in En as (Hb & Hr & Hi & Hw' & Hb' & _ & Hc & Hcl & Hopen).
  rewrite /reach_watch st_bind val_bind. change (val get ?x) with x. change (st get ?x) with x.
  change (follow_watch (set_intake i s)) with (follow_watch s).
  destruct (reach (follow_watch s) (wall_us now)) as [reached w] eqn:Ew.
  rewrite st_bind val_bind. destruct reached as [|answer|]; [|by rewrite val_bind|by do 2 rewrite val_bind].
  intros _. have Hw : w = follow_watch s.
  { have H := reach_nothing (follow_watch s) (wall_us now). rewrite Ew /= in H. by apply H. }
  right. subst w. split_and!; try done.
  - simpl. by rewrite Hb' Hb.
  - simpl. by rewrite Hw'.
  - simpl. destruct (closed i) eqn:E; [by left|right]. apply Hopen. by rewrite -Hc.
  - change (follow_watch _) with (follow_watch s). by rewrite Ew.
Qed.

Lemma pump_step_at_rest now s : at_rest s = true -> pump_step now s = (false, s, []).
Proof. rewrite /at_rest /pump_step /mbind /M_bind /get. by intros ->. Qed.

Lemma pump_loop_S fuel now s :
  pump_loop (S fuel) now s =
  (if val (pump_step now) s
   then (val (pump_loop fuel now) (st (pump_step now) s), st (pump_loop fuel now) (st (pump_step now) s),
         out (pump_step now) s ++ out (pump_loop fuel now) (st (pump_step now) s))
   else (true, st (pump_step now) s, out (pump_step now) s)).
Proof.
  cbn [pump_loop]. rewrite /mbind /M_bind /val /st /out. destruct (pump_step now s) as [[on s1] e1]. simpl.
  destruct on; [by destruct (pump_loop fuel now s1) as [[]]|]. by rewrite /mret /M_ret app_nil_r.
Qed.

Lemma pump_loop_enough now fuel : forall s,
  (pump_measure s + 2 <= fuel)%nat ->
  val (pump_loop fuel now) s = true /\ pumped (st (pump_loop fuel now) s) now /\
  forall more, pump_loop (fuel + more) now s = pump_loop fuel now s.
Proof.
  have Hrest s n : at_rest s = true -> pump_loop (S n) now s = (true, s, []).
  { intros Hr. rewrite pump_loop_S /val /st /out pump_step_at_rest //. }
  induction fuel as [|fuel IH]; intros s Hf; [lia|].
  have Hmore more : (forall s', pump_loop (fuel + more) now s' = pump_loop fuel now s') \/
    val (pump_step now) s = false \/
    pump_loop (fuel + more) now (st (pump_step now) s) = pump_loop fuel now (st (pump_step now) s) ->
    pump_loop (S fuel + more) now s = pump_loop (S fuel) now s.
  { rewrite Nat.add_succ_l !pump_loop_S. intros [H|[->|H]]; [|done|]; by rewrite /val /st /out H. }
  have Hv : val (pump_loop (S fuel) now) s = if val (pump_step now) s
            then val (pump_loop fuel now) (st (pump_step now) s) else true.
  { rewrite {1}/val pump_loop_S. by destruct (val (pump_step now) s). }
  have Hst : st (pump_loop (S fuel) now) s = if val (pump_step now) s
            then st (pump_loop fuel now) (st (pump_step now) s) else st (pump_step now) s.
  { rewrite {1}/st pump_loop_S. by destruct (val (pump_step now) s). }
  rewrite Hv Hst. destruct (val (pump_step now) s) eqn:Ev.
  - destruct (pump_step_turn now s Ev) as [Hr|Hm].
    + destruct fuel as [|fuel]; [lia|]. have Hr' := Hrest _ fuel Hr.
      split_and!; [by rewrite {1}/val Hr'|left; by rewrite {1}/st Hr'|].
      intros more. apply Hmore. right. right. by rewrite Nat.add_succ_l !Hrest.
    + destruct (IH (st (pump_step now) s)) as (H1 & H2 & H3); [lia|]. split_and!; [done..|].
      intros more. apply Hmore. auto.
  - split_and!; [done|by apply pump_step_ends|]. intros more. apply Hmore. auto.
Qed.

(** C21: the loop of [pump] ends by itself within its fuel, from every state: no
    more fuel changes its result, and it ends only with a program in flight, a
    release pending, the outpost stopping, or nothing left to start. *)
Theorem pump_terminates (self : Reducer) (now : Now) (more : nat) :
  val (pump_loop (pump_measure self + 2 + more) now) self = true /\
  st (pump now) self = st (pump_loop (pump_measure self + 2 + more) now) self /\
  out (pump now) self = out (pump_loop (pump_measure self + 2 + more) now) self /\
  pumped (st (pump now) self) now.
Proof.
  destruct (pump_loop_enough now (pump_measure self + 2) self (Nat.le_refl _)) as (Hv & Hp & Hm).
  have Hst : st (pump now) self = st (pump_loop (pump_measure self + 2) now) self.
  { rewrite /pump st_bind. change (val get self) with self. change (st get self) with self. by rewrite st_bind. }
  have Hout : out (pump now) self = out (pump_loop (pump_measure self + 2) now) self.
  { rewrite /pump out_bind. change (val get self) with self. change (st get self) with self.
    rewrite out_bind. by rewrite app_nil_r. }
  rewrite Hst Hout /val /st /out Hm. by split_and!.
Qed.
