(* ===== verification/OutpostCopies.v ===== *)
(** The copies the outpost's shell keeps of the reducer's facts: the mailbox's
    marks and verdicts and the gap's timer ([shell.rs] of verbatim-outpost),
    set by the reducer's effects ([Outpost]), are its own after every
    transition. *)

From S2P Require Import Prelude Tree TextModel FocusRules Facts Messages InFlight OutpostEntry GapRecord Hold Intake Verdicts CaretWatch HeldReports TextFacts Follow Outpost OutpostTerm.

Record Copies := { copy_marks : Marks; copy_verdicts : Verdicts; copy_due : option N }.

(** The shell's [perform], of the effects its copies come from. *)
Definition perform_copy (c : Copies) (e : Effect) : Copies :=
  match e with
  | MarksChanged m => {| copy_marks := m; copy_verdicts := copy_verdicts c; copy_due := copy_due c |}
  | VerdictsChanged v => {| copy_marks := copy_marks c; copy_verdicts := v; copy_due := copy_due c |}
  | GapTimer due => {| copy_marks := copy_marks c; copy_verdicts := copy_verdicts c; copy_due := due |}
  | _ => c
  end.

Definition perform_copies (c : Copies) (es : list Effect) : Copies := fold_left perform_copy es c.

Definition copies_of (s : Reducer) : Copies := {|
  copy_marks := marks (facts s); copy_verdicts := verdicts (facts s); copy_due := due_us (gap (intake s)) |}.

(** ** Methods that give the shell every change of the verdicts *)

Definition with_verdicts_of (c : Copies) (s : Reducer) : Copies := {|
  copy_marks := copy_marks c; copy_verdicts := verdicts (facts s); copy_due := copy_due c |}.

Definition no_marks (e : Effect) : bool := match e with MarksChanged _ => false | _ => true end.

Definition mirrors {A} (m : M A) : Prop := forall s,
  (forall c, perform_copies (with_verdicts_of c s) (out m s) = with_verdicts_of c (st m s)) /\
  forallb no_marks (out m s) = true.

Definition no_copy (e : Effect) : bool :=
  match e with MarksChanged _ | VerdictsChanged _ | GapTimer _ => false | _ => true end.

Lemma mirrors_ret {A} (a : A) : mirrors (mret a : M A).
Proof. done. Qed.
Lemma mirrors_skip : mirrors skip.
Proof. done. Qed.
Lemma mirrors_get : mirrors get.
Proof. done. Qed.
Lemma mirrors_emit e : no_copy e = true -> mirrors (emit e).
Proof. intros H s. by destruct e. Qed.
Lemma mirrors_modify f : (forall s, verdicts (facts (f s)) = verdicts (facts s)) -> mirrors (modify f).
Proof. intros H s. split; [|done]. intros c. rewrite /with_verdicts_of /st /=. by rewrite H. Qed.
Lemma mirrors_bind {A B} (m : M A) (f : A -> M B) : mirrors m -> (forall a, mirrors (f a)) -> mirrors (m ≫= f).
Proof.
  intros Hm Hf s. destruct (Hm s) as [H1 H2], (Hf (val m s) (st m s)) as [H3 H4].
  rewrite st_bind out_bind forallb_app H2 H4. split; [|done]. intros c.
  by rewrite /perform_copies fold_left_app -/(perform_copies _ (out m s)) H1 -H3.
Qed.
Lemma mirrors_for_each {A} (l : list A) f : (forall x, mirrors (f x)) -> mirrors (for_each l f).
Proof. intros Hf. induction l; simpl; [done|]. by apply mirrors_bind. Qed.
Lemma mirrors_if_some {A} (o : option A) f : (forall x, mirrors (f x)) -> mirrors (if_some o f).
Proof. intros Hf. destruct o; [apply Hf|done]. Qed.
Lemma mirrors_if_then b m : mirrors m -> mirrors (if_then b m).
Proof. by destruct b. Qed.

Create HintDb mirrors.
#[export] Hint Resolve mirrors_ret mirrors_skip mirrors_get : mirrors.

Ltac mirror_split :=
  repeat first
    [ solve [auto 1 with mirrors nocore] | solve [apply mirrors_emit; reflexivity]
    | solve [apply mirrors_modify; intros ?; reflexivity]
    | apply mirrors_bind; [|intros ?] | apply mirrors_for_each; intros ? | apply mirrors_if_some; intros ?
    | apply mirrors_if_then | progress case_match | apply mirrors_modify; intros ? ].

Lemma send_mirrors message : mirrors (send message).
Proof. rewrite /send. mirror_split. Qed.
#[export] Hint Resolve send_mirrors : mirrors.

Lemma answer_watch_mirrors a now : mirrors (answer_watch a now).
Proof. destruct a; simpl; mirror_split. Qed.
#[export] Hint Resolve answer_watch_mirrors : mirrors.

Lemma take_watch_answer_mirrors step now : mirrors (take_watch_answer step now).
Proof. rewrite /take_watch_answer. mirror_split. Qed.
#[export] Hint Resolve take_watch_answer_mirrors : mirrors.

Lemma answer_idle_mirrors : mirrors answer_idle.
Proof. rewrite /answer_idle. mirror_split. Qed.
#[export] Hint Resolve answer_idle_mirrors : mirrors.

Lemma push_entry_mirrors e : mirrors (push_entry e).
Proof.
  rewrite /push_entry. mirror_split; rewrite /open_gap; by repeat case_match.
Qed.
#[export] Hint Resolve push_entry_mirrors : mirrors.

Lemma push_all_mirrors es : mirrors (push_all es).
Proof. rewrite /push_all. mirror_split. Qed.
#[export] Hint Resolve push_all_mirrors : mirrors.

Lemma take_entry_in_mirrors e source : mirrors (take_entry_in e source).
Proof. rewrite /take_entry_in /destroy_seen. mirror_split. Qed.

Lemma hang_seen_mirrors request window : mirrors (hang_seen request window).
Proof. rewrite /hang_seen. mirror_split. Qed.
#[export] Hint Resolve hang_seen_mirrors : mirrors.

Lemma gap_note_mirrors note : mirrors (gap_note note).
Proof. rewrite /gap_note. mirror_split. Qed.

Lemma emit_ranges_mirrors r : mirrors (emit_ranges r).
Proof. rewrite /emit_ranges. mirror_split. Qed.
Lemma subscription_effects_mirrors applied now : mirrors (subscription_effects applied now).
Proof. rewrite /subscription_effects. mirror_split. Qed.
#[export] Hint Resolve gap_note_mirrors emit_ranges_mirrors subscription_effects_mirrors : mirrors.

(** A commit leaves the verdicts as they are. *)
Lemma when_verdicts {A} (o : option A) f (p : Facts * Applied) :
  (forall a p, verdicts (f a p).1 = verdicts p.1) -> verdicts (when o f p).1 = verdicts p.1.
Proof. intros H. by destruct o; rewrite /= ?H. Qed.

Lemma apply_verdicts facts generation change clock :
  verdicts (Follow.apply facts generation change clock).1 = verdicts facts.
Proof.
  rewrite /Follow.apply. destruct (apply_texts _ _ _) as [let_go t]. cbv zeta.
  repeat (rewrite when_verdicts; [|intros a p; simpl; rewrite ?/apply_replaced ?/apply_follow
    ?/apply_foreground ?/apply_element; repeat case_match; simplify_eq; done]; simpl).
  done.
Qed.

Lemma apply_mirrors (k : Applied -> M unit) generation change clock :
  (forall applied, mirrors (k applied)) ->
  mirrors (s ← get; let '(f, applied) := Follow.apply (facts s) (generation s) change clock in
           modify (set_facts f) ;; k applied).
Proof.
  intros Hk s. have Hv := apply_verdicts (facts s) (generation s) change clock.
  rewrite st_bind out_bind. change (val get s) with s. change (st get s) with s.
  destruct (Follow.apply _ _ _ _) as [f applied]. simpl in Hv.
  rewrite st_bind out_bind. change (out get s) with (@nil Effect).
  change (out (modify (set_facts f)) s) with (@nil Effect). change (st (modify (set_facts f)) s) with (set_facts f s).
  destruct (Hk applied (set_facts f s)) as [H1 H2]. split; [|done]. intros c.
  have -> : with_verdicts_of c s = with_verdicts_of c (set_facts f s) by rewrite /with_verdicts_of /= Hv.
  apply H1.
Qed.

Lemma commit_mirrors request change now : mirrors (commit request change now).
Proof.
  rewrite /commit. apply mirrors_bind; [rewrite /found; mirror_split|intros _].
  apply mirrors_bind; [mirror_split|intros _].
  apply mirrors_bind; [rewrite /current_of; mirror_split; done|intros _].
  apply mirrors_bind; [mirror_split|intros _]. apply mirrors_bind; [mirror_split|intros _].
  apply (apply_mirrors (fun applied => _)). intros applied. rewrite /current_of. mirror_split; done.
Qed.
#[export] Hint Resolve commit_mirrors : mirrors.

Lemma verdicts_same self change : (apply_verdict self change).1 = false -> (apply_verdict self change).2 = self.
Proof.
  destruct self as [ws], change as [probe|gone]; simpl.
  - destruct (_ && _); [done|]. simpl. intros H. apply bool_decide_eq_false, dec_stable in H.
    f_equal. by apply insert_id.
  - intros H. apply bool_decide_eq_false in H. f_equal. apply delete_id. by apply eq_None_not_Some.
Qed.

Lemma record_verdict_mirrors generation change : mirrors (record_verdict generation change).
Proof.
  intros s. rewrite /record_verdict st_bind out_bind. change (val get s) with s. change (st get s) with s.
  destruct (negb _ && _); [done|]. have Hv := verdicts_same (verdicts (facts s)) change.
  destruct (apply_verdict _ change) as [changed v]. simpl in Hv.
  rewrite st_bind out_bind. destruct changed; simpl.
  - rewrite st_bind out_bind. destruct change as [probe|]; [destruct (probe_probed probe)|]; done.
  - split; [|done]. intros c. rewrite /with_verdicts_of /st /= Hv //.
Qed.

Lemma abandoned_mirrors a now : mirrors (abandoned a now).
Proof.
  rewrite /abandoned /continue_group. mirror_split; repeat case_match; done.
Qed.
#[export] Hint Resolve abandoned_mirrors : mirrors.

Lemma flight_step_mirrors step now : mirrors (flight_step step now).
Proof. rewrite /flight_step /decided. mirror_split. Qed.
#[export] Hint Resolve flight_step_mirrors : mirrors.

Lemma walk_published_mirrors request change then_abandon now :
  mirrors (walk_published request change then_abandon now).
Proof. rewrite /walk_published. mirror_split. Qed.

Lemma dispatch_finish_mirrors cut : mirrors (dispatch_finish cut).
Proof. rewrite /dispatch_finish. mirror_split. Qed.
#[export] Hint Resolve dispatch_finish_mirrors : mirrors.

Lemma finished_mirrors request reported panicked cut now : mirrors (finished request reported panicked cut now).
Proof. rewrite /finished /end_group /continue_group. mirror_split; repeat case_match; done. Qed.

Lemma release_text_mirrors (nodes anchors : gset N) (k : gset (N * RangeKey) -> M unit) :
  (forall r, mirrors (k r)) ->
  mirrors (s ← get; let '(r, t) := release_text (text (facts s)) nodes anchors in
           modify (set_facts (with_text (facts s) t)) ;; k r).
Proof.
  intros Hk s. rewrite st_bind out_bind. change (val get s) with s. change (st get s) with s.
  destruct (release_text _ _ _) as [r t]. rewrite st_bind out_bind.
  exact (Hk r (set_facts (with_text (facts s) t) s)).
Qed.

Lemma released_mirrors nodes anchors objects now : mirrors (released nodes anchors objects now).
Proof.
  rewrite /released. apply mirrors_bind; [mirror_split|intros _]. apply mirrors_bind; [mirror_split|intros _].
  apply (release_text_mirrors nodes anchors (fun r => _)). intros r. mirror_split.
Qed.

Lemma dispatch_mirrors work deadline window running group now :
  mirrors (dispatch work deadline window running group now).
Proof. rewrite /dispatch. mirror_split. Qed.
#[export] Hint Resolve dispatch_mirrors : mirrors.

Lemma dispatch_entry_mirrors e handling batch group now : mirrors (dispatch_entry e handling batch group now).
Proof. rewrite /dispatch_entry. mirror_split. Qed.
#[export] Hint Resolve dispatch_entry_mirrors : mirrors.

Lemma run_entry_mirrors e batch now : mirrors (run_entry e batch now).
Proof. rewrite /run_entry. mirror_split. Qed.
#[export] Hint Resolve run_entry_mirrors : mirrors.

Lemma run_planned_mirrors p batch now : mirrors (run_planned p batch now).
Proof. rewrite /run_planned /start_entry. mirror_split. Qed.
#[export] Hint Resolve run_planned_mirrors : mirrors.

Lemma pump_step_mirrors now : mirrors (pump_step now).
Proof. rewrite /pump_step /reach_watch /start_entry. mirror_split. Qed.

Lemma pump_mirrors now : mirrors (pump now).
Proof.
  rewrite /pump. apply mirrors_bind; [apply mirrors_get|intros s]. apply mirrors_bind; [|intros _; apply mirrors_ret].
  generalize (pump_measure s + 2)%nat. intros fuel. induction fuel as [|fuel IH]; simpl; [apply mirrors_ret|].
  apply mirrors_bind; [apply pump_step_mirrors|]. intros []; [done|apply mirrors_ret].
Qed.

Lemma gap_bound_mirrors : mirrors gap_bound.
Proof. rewrite /gap_bound. mirror_split. Qed.
#[export] Hint Resolve take_entry_in_mirrors record_verdict_mirrors walk_published_mirrors : mirrors.
#[export] Hint Resolve finished_mirrors released_mirrors gap_bound_mirrors : mirrors.

Lemma handle_mirrors i now : mirrors (handle i now).
Proof. destruct i; cbn [handle]; rewrite ?/gap_bound_tested; mirror_split. Qed.

Lemma tick_mirrors now : mirrors (tick_now now).
Proof. rewrite /tick_now. mirror_split. Qed.

(** ** A transition's copies *)

Definition Transition (self : Reducer) (es : list Effect) (s : Reducer) : Prop :=
  (exists i now, (es, s) = input self i now) \/ (exists now, (es, s) = tick self now).

Lemma transition_copies m now self : mirrors m ->
  exists es s, transition m now self = (changed (observed self) s es, s) /\ forallb no_marks es = true /\
    forall c, perform_copies (with_verdicts_of c self) es = with_verdicts_of c s.
Proof.
  intros Hm. have H : mirrors (m ;; pump now ;; answer_idle).
  { apply mirrors_bind; [done|intros _]. apply mirrors_bind; [apply pump_mirrors|intros _]. apply answer_idle_mirrors. }
  destruct (H self) as [H1 H2]. rewrite /transition. rewrite /out /st in H1 H2.
  destruct ((m ;; pump now ;; answer_idle) self) as [[[] s] es]. by exists es, s.
Qed.

Lemma perform_marks es : forall c, forallb no_marks es = true -> copy_marks (perform_copies c es) = copy_marks c.
Proof.
  induction es as [|e es IH]; intros c; [done|]. simpl. intros [He Hes]%andb_true_iff.
  rewrite /perform_copies /= -/(perform_copies _ es) IH //. by destruct e.
Qed.

Lemma perform_app c l k : perform_copies c (l ++ k) = perform_copies (perform_copies c l) k.
Proof. apply fold_left_app. Qed.

Section changed.
Context (self s : Reducer) (es : list Effect).
Hypothesis Hm : forallb no_marks es = true.
Hypothesis Hv : forall c, perform_copies (with_verdicts_of c self) es = with_verdicts_of c s.

(** The transition's effects, the marks first. *)
Lemma changed_head : exists head tail, changed (observed self) s es = head ++ es ++ tail /\
  perform_copies (copies_of self) head =
    {| copy_marks := marks (facts s); copy_verdicts := verdicts (facts self); copy_due := due_us (gap (intake self)) |} /\
  (forall c, copy_due c = due_us (gap (intake self)) -> perform_copies c tail =
     {| copy_marks := copy_marks c; copy_verdicts := copy_verdicts c; copy_due := due_us (gap (intake s)) |}) /\
  (head = [] \/ head = [MarksChanged (marks (facts s))]) /\ forallb no_marks tail = true.
Proof.
  rewrite /changed /=.
  exists (if bool_decide (marks (facts s) = marks (facts self)) then [] else [MarksChanged (marks (facts s))]),
    (if bool_decide (due_us (gap (intake s)) = due_us (gap (intake self))) then [] else [GapTimer (due_us (gap (intake s)))]).
  do 2 case_bool_decide; rewrite ?app_nil_r; split_and!; try done; auto;
    rewrite /perform_copies /=.
  1, 4: rewrite /copies_of; congruence.
  1, 2: intros [] E; simpl in *; congruence.
Qed.

Lemma changed_copies : perform_copies (copies_of self) (changed (observed self) s es) = copies_of s.
Proof.
  destruct changed_head as (head & tail & -> & H1 & H2 & _). rewrite !perform_app H1.
  set (c := {| copy_marks := _ |}). rewrite H2.
  - by rewrite (Hv c).
  - by rewrite (Hv c).
Qed.

Lemma changed_dispatch pre program post : changed (observed self) s es = pre ++ Dispatch program :: post ->
  copy_marks (perform_copies (copies_of self) pre) = marks (facts s).
Proof.
  destruct changed_head as (head & tail & E & H1 & _ & H3 & H4). rewrite E. clear E. intros E.
  have Hrest : forall pre, forallb no_marks (es ++ tail) = true -> es ++ tail = pre ++ Dispatch program :: post ->
      forallb no_marks pre = true.
  { intros pre' H E'. rewrite E' forallb_app in H. by apply andb_true_iff in H as [? _]. }
  have Hall : forallb no_marks (es ++ tail) = true by rewrite forallb_app Hm H4.
  destruct H3 as [->| ->]; simpl in E.
  - rewrite perform_marks; [|by apply Hrest]. by apply (f_equal copy_marks) in H1.
  - destruct pre as [|e pre]; [done|]. injection E as <- E.
    rewrite /perform_copies /= -/(perform_copies _ pre) perform_marks; [done|by apply Hrest].
Qed.

End changed.

(** After every transition the shell's copies of the marks, the verdicts and
    the gap's bound are the reducer's, when they were before it; and when the
    shell starts a program the transition dispatched, the mailbox already
    judges by the marks the transition left. *)
Theorem shell_copies_current (self : Reducer) (es : list Effect) (s : Reducer) :
  Transition self es s ->
  perform_copies (copies_of self) es = copies_of s /\
  forall pre program post, es = pre ++ Dispatch program :: post ->
    copy_marks (perform_copies (copies_of self) pre) = marks (facts s).
Proof.
  intros H. have [m [now [Hm E]]] : exists m now, mirrors m /\ (es, s) = transition m now self.
  { destruct H as [(i & now & E)|(now & E)].
    - exists (handle i now), now. split; [apply handle_mirrors|done].
    - exists (tick_now now), now. split; [apply tick_mirrors|done]. }
  destruct (transition_copies m now self Hm) as (es' & s' & E' & H1 & H2). rewrite E' in E. injection E as -> ->.
  split; [by apply changed_copies|]. intros pre program post. by apply changed_dispatch.
Qed.

Lemma shell_copies_current_witness :
  let now := {| now_at := 0; observed_us := 7; wall_us := 7 |} in
  let probe := {| probe_hwnd := 5%Z; probe_owner := 1; probe_from_us := 2; probe_probed := ProbedUia |} in
  let '(es, s) := input Reducer_default (Verdict 0 (ProbedChange probe)) now in
  (perform_copies (copies_of Reducer_default) es = copies_of s /\
   forall pre program post, es = pre ++ Dispatch program :: post ->
     copy_marks (perform_copies (copies_of Reducer_default) pre) = marks (facts s)) /\
  es = [VerdictsChanged (verdicts (facts s)); Narrow].
Proof.
  split; [|vm_compute; reflexivity].
  apply (shell_copies_current Reducer_default). left.
  exists (Verdict 0 (ProbedChange {| probe_hwnd := 5%Z; probe_owner := 1; probe_from_us := 2; probe_probed := ProbedUia |})),
    {| now_at := 0; observed_us := 7; wall_us := 7 |}. reflexivity.
Defined.
