(* ===== verification/OutpostLedger.v ===== *)
(** The ledger of the outpost's queries ([Outpost]): those taken in and not yet
    answered, and what the reducer's methods do with them: sending, taking in
    entries, commits, and the end of a program. *)

From S2P Require Import Prelude Tree TextModel FocusRules Facts Messages InFlight InFlightProps OutpostEntry GapRecord Hold Intake IntakePlan IntakeProps Verdicts CaretWatch HeldReports TextFacts Follow Outpost OutpostTerm.

(** ** The ledger *)

Definition qid (item : Item) : option RequestId :=
  match item with ItemQuery id _ => Some id | _ => None end.
Definition entry_qid (e : Entry) : option RequestId := qid (entry_item e).

Definition replied (e : Effect) : option RequestId :=
  match e with Send (Reply _ id _ _) => Some id | _ => None end.
Definition answered (es : list Effect) : list RequestId := omap replied es.

(** What a program in flight answers. *)
Definition run_ids (c : Current) : list RequestId := option_list (option_map fst (cur_running c)).

Definition flight_ids (f : InFlight Current) : list RequestId :=
  match running_item f with Some r => run_ids (item r) | None => [] end.

(** The queries taken in and not answered: those the intake holds, the program
    in flight's, and the caret key's watch's. *)
Definition unanswered (s : Reducer) : list RequestId :=
  omap qid (IntakeProps.held (intake s)) ++ flight_ids (flight s) ++ waits_for (follow_watch s).

Definition no_qid (e : Entry) : Prop := entry_qid e = None.
Definition group_ok (g : option GroupTry) : Prop :=
  match g with Some g => Forall no_qid (try_older g) | None => True end.
Definition copy_ok (e : Entry) : Prop := no_qid e /\ marked_ok e = true.

(** Queries are held nowhere else. *)
Record shape (s : Reducer) : Prop := {
  shape_intake : Intake_ok (intake s);
  shape_open : closed (intake s) = false;
  shape_on : stopping s = false;
  shape_after : Forall (fun p => no_qid p.1 /\ group_ok p.2) (after s);
  shape_hold : Forall copy_ok (held_copies (hold s));
  shape_group : match running_item (flight s) with
                | Some r => group_ok (cur_group (item r))
                | None => True
                end;
}.

(** The ledger with the queries [hand] that a method has in hand. *)
Definition ledger (hand : list RequestId) (s : Reducer) : list RequestId := hand ++ unanswered s.

Definition ok (hand : list RequestId) (s : Reducer) : Prop :=
  shape s /\ NoDup (ledger hand s) /\ queries s = list_to_set (ledger hand s).

(** A method, run with [hand] in hand, answers what leaves the ledger and
    nothing else, and ends with [hand'] in hand. *)
Definition good {A} (hand : list RequestId) (s : Reducer) (r : A * Reducer * list Effect)
    (hand' : A -> list RequestId) : Prop :=
  shape r.1.2 /\ queries r.1.2 = list_to_set (ledger (hand' r.1.1) r.1.2) /\
  ledger hand s ≡ₚ answered r.2 ++ ledger (hand' r.1.1) r.1.2.

Lemma good_ok {A} hand s (r : A * Reducer * list Effect) hand' :
  ok hand s -> good hand s r hand' -> ok (hand' r.1.1) r.1.2.
Proof.
  intros (_ & Hnd & _) (Hs & Hq & P). split_and!; [done| |done].
  rewrite P in Hnd. by apply NoDup_app in Hnd as (_ & _ & ?).
Qed.

Lemma answered_app l k : answered (l ++ k) = answered l ++ answered k.
Proof. apply omap_app. Qed.

(** The ledger is counted from [s0], which a method may be run past. *)
Lemma good_bind_from {A B} hand s0 s (m : M A) (f : A -> M B) mid hand' :
  ok hand s0 -> good hand s0 (m s) mid ->
  (ok (mid (val m s)) (st m s) -> good (mid (val m s)) (st m s) (f (val m s) (st m s)) hand') ->
  good hand s0 ((m ≫= f) s) hand'.
Proof.
  intros Hok Hm Hf. have Hok1 := good_ok _ _ _ _ Hok Hm. specialize (Hf Hok1).
  rewrite /val /st in Hf Hok1. rewrite /good /mbind /M_bind.
  destruct (m s) as [[a s1] e1]. simpl in *. destruct (f a s1) as [[b s2] e2].
  destruct Hm as (_ & _ & P1). destruct Hf as (Hs & Hq & P2). simpl in *. split_and!; [done..|].
  rewrite answered_app -app_assoc -P2. exact P1.
Qed.

Lemma good_bind {A B} hand s (m : M A) (f : A -> M B) mid hand' :
  ok hand s -> good hand s (m s) mid ->
  (ok (mid (val m s)) (st m s) -> good (mid (val m s)) (st m s) (f (val m s) (st m s)) hand') ->
  good hand s ((m ≫= f) s) hand'.
Proof. apply good_bind_from. Qed.

Lemma good_seq {A B} hand s (m : M A) (f : A -> M B) mid hand' :
  ok hand s -> good hand s (m s) mid ->
  (forall a s1, ok (mid a) s1 -> good (mid a) s1 (f a s1) hand') ->
  good hand s ((m ≫= f) s) hand'.
Proof. intros Hok Hm Hf. by eapply good_bind; [done|done|apply Hf]. Qed.

Lemma good_get {B} hand s (f : Reducer -> M B) hand' :
  good hand s (f s s) hand' -> good hand s ((get ≫= f) s) hand'.
Proof. rewrite /mbind /M_bind /get. by destruct (f s s) as [[]]. Qed.

Lemma good_ret {A} hand s (a : A) hand' :
  ok hand s -> hand' a = hand -> good hand s ((mret a : M A) s) hand'.
Proof. intros (Hs & _ & Hq) Hh. rewrite /good /= Hh. by split_and!. Qed.

Lemma ledger_skip hand s : ok hand s -> good hand s (skip s) (fun _ => hand).
Proof. intros. by apply good_ret. Qed.

(** ** Methods that leave the ledger as it is *)

Definition quiet_view (s : Reducer) :=
  (Intake.waiting (intake s), batch (intake s), idle (intake s), closed (intake s), hold s,
   option_map (fun r => (cur_running (item r), cur_group (item r))) (running_item (flight s)),
   after s, queries s, stopping s, follow_watch s).

Lemma quiet_view_ok s s' hand : quiet_view s = quiet_view s' -> shape s ->
  shape s' /\ ledger hand s' = ledger hand s /\ queries s' = queries s.
Proof.
  rewrite /quiet_view. intros H [[Hw [Hb Hi]] Ho Hn Ha Hh Hg].
  injection H as E1 E2 E3 E4 E5 E6 E7 E8 E9 E10.
  have Hf : flight_ids (flight s') = flight_ids (flight s).
  { rewrite /flight_ids. destruct (running_item (flight s)), (running_item (flight s')); try done.
    simpl in E6. injection E6 as H1 _. by rewrite /run_ids H1. }
  split_and!; [split| |by rewrite E8].
  - by rewrite /Intake_ok -E1 -E2 -E3.
  - by rewrite -E4.
  - by rewrite -E9.
  - by rewrite -E7.
  - by rewrite -E5.
  - destruct (running_item (flight s)), (running_item (flight s')); try done.
    simpl in E6. injection E6 as _ H2. by rewrite -H2.
  - by rewrite /ledger /unanswered !held_eq Hf -E1 -E2 -E10.
Qed.

(** Methods that keep the ledger's view and answer nothing. *)
Definition quiet {A} (m : M A) : Prop := forall s, quiet_view (st m s) = quiet_view s /\ answered (out m s) = [].

Lemma good_quiet {A} hand s (m : M A) : ok hand s -> quiet m -> good hand s (m s) (fun _ => hand).
Proof.
  intros (Hs & _ & Hq) Hm. destruct (Hm s) as [Hv Ha]. rewrite /st in Hv. rewrite /out in Ha.
  destruct (quiet_view_ok s (m s).1.2 hand (eq_sym Hv) Hs) as (? & Hl & Hq').
  rewrite /good Ha Hl Hq'. by split_and!.
Qed.

Lemma quiet_ret {A} (a : A) : quiet (mret a : M A).
Proof. done. Qed.
Lemma quiet_skip : quiet skip.
Proof. done. Qed.
Lemma quiet_get : quiet get.
Proof. done. Qed.
Lemma quiet_emit e : replied e = None -> quiet (emit e).
Proof. intros H s. split; [done|]. by rewrite /out /answered /= H. Qed.
Lemma quiet_modify f : (forall s, quiet_view (f s) = quiet_view s) -> quiet (modify f).
Proof. intros H s. split; [apply H|done]. Qed.
Lemma quiet_bind {A B} (m : M A) (f : A -> M B) : quiet m -> (forall a, quiet (f a)) -> quiet (m ≫= f).
Proof.
  intros Hm Hf s. destruct (Hm s) as [H1 H2], (Hf (val m s) (st m s)) as [H3 H4].
  rewrite st_bind out_bind answered_app H2 H4 H3. by split.
Qed.
Lemma quiet_for_each {A} (l : list A) f : (forall x, quiet (f x)) -> quiet (for_each l f).
Proof. intros Hf. induction l; simpl; [done|]. by apply quiet_bind. Qed.
Lemma quiet_if_some {A} (o : option A) f : (forall x, quiet (f x)) -> quiet (if_some o f).
Proof. intros Hf. destruct o; [apply Hf|done]. Qed.
Lemma quiet_if_then b m : quiet m -> quiet (if_then b m).
Proof. by destruct b. Qed.

Create HintDb quiet.
#[export] Hint Resolve quiet_ret quiet_skip quiet_get : quiet.

Ltac quiet_split :=
  repeat first
    [ solve [auto 1 with quiet nocore] | solve [apply quiet_emit; reflexivity]
    | apply quiet_bind; [|intros ?] | apply quiet_for_each; intros ? | apply quiet_if_some; intros ?
    | apply quiet_if_then | progress case_match | apply quiet_modify; intros ? ].

(** ** Sending *)

Lemma item_mut_info (s : Reducer) f :
  (forall c, cur_running (f c) = cur_running c /\ cur_group (f c) = cur_group c) ->
  option_map (fun r => (cur_running (item r), cur_group (item r))) (running_item (item_mut (flight s) f)) =
  option_map (fun r => (cur_running (item r), cur_group (item r))) (running_item (flight s)).
Proof.
  intros H. rewrite /item_mut. destruct (running_item (flight s)) as [r|] eqn:E; rewrite ?E //=.
  by destruct (H (item r)) as [-> ->].
Qed.

Lemma quiet_item_mut f :
  (forall c, cur_running (f c) = cur_running c /\ cur_group (f c) = cur_group c) ->
  quiet (modify (fun s => set_flight (item_mut (flight s) f) s)).
Proof.
  intros H. apply quiet_modify. intros s. rewrite /quiet_view. cbn [intake hold flight after queries stopping facts set_flight].
  change (follow_watch (set_flight _ s)) with (follow_watch s). by rewrite item_mut_info.
Qed.

Lemma send_quiet message :
  (forall t id o tm, message <> Reply t id o tm) -> quiet (send message).
Proof.
  intros H. rewrite /send. destruct message; try (exfalso; by eapply H); quiet_split; done.
Qed.

Lemma unanswered_flight s f : flight_ids f = flight_ids (flight s) ->
  unanswered (set_flight f s) = unanswered s.
Proof. intros H. rewrite /unanswered /=. by rewrite H. Qed.

(** The reply of a query in hand. *)
Lemma good_send_reply hand s trace id outcome timing :
  ok (id :: hand) s ->
  good (id :: hand) s (send (Reply trace id outcome timing) s) (fun _ => hand).
Proof.
  intros Hok. rewrite /send.
  eapply good_seq; [done|apply good_quiet; [done|quiet_split; done]|].
  clear s Hok. intros [] s1 Hok1.
  destruct Hok1 as ([[Hw [Hb Hi]] Ho Hn Ha Hh Hg] & Hnd & Hq).
  rewrite /mbind /M_bind /emit /modify /good. cbn [fst snd].
  set (keep := fun current => match cur_running current with Some _ => _ | None => _ end).
  have Hk : flight_ids (item_mut (flight s1) keep) = flight_ids (flight s1).
  { rewrite /flight_ids /item_mut. destruct (running_item (flight s1)) as [r|] eqn:E; rewrite ?E //=.
    rewrite /run_ids /keep. destruct (cur_running (item r)) as [[id' t]|] eqn:Er; rewrite ?Er //=.
    case_bool_decide as Hid; rewrite ?Er //. subst id'.
    exfalso. rewrite /ledger in Hnd. apply NoDup_cons in Hnd as [Hnd _]. apply Hnd.
    rewrite /unanswered /flight_ids E /run_ids Er. set_solver. }
  have Hun : unanswered (set_flight (item_mut (flight s1) keep) (set_queries (queries s1 ∖ {[id]}) s1)) = unanswered s1.
  { rewrite /unanswered /=. by rewrite Hk. }
  split_and!.
  - split; try done. simpl. rewrite /item_mut. destruct (running_item (flight s1)) as [r|] eqn:E; rewrite ?E //=.
    rewrite /keep. destruct (cur_running (item r)) as [[]|]; [case_bool_decide|]; done.
  - rewrite /ledger Hun. change (queries (set_flight _ _)) with (queries s1 ∖ {[id]}). rewrite Hq /ledger.
    apply NoDup_cons in Hnd as [Hnd _]. apply set_eq. intros x. rewrite elem_of_difference !elem_of_list_to_set elem_of_cons elem_of_singleton.
    split; [naive_solver|]. intros Hx. split; [by right|]. intros ->. done.
  - rewrite /ledger Hun. done.
Qed.

Lemma good_answer_watch hand s a now :
  ok (answered_by a :: hand) s -> good (answered_by a :: hand) s (answer_watch a now s) (fun _ => hand).
Proof.
  intros Hok. destruct a as [open why|open r c awaited|open]; simpl in *.
  - eapply good_seq; [done|apply good_quiet; [done|by apply quiet_emit]|]. intros [] s1 Hok1.
    by apply good_send_reply.
  - by apply good_send_reply.
  - by apply good_send_reply.
Qed.

(** A change of the state that moves [ids] from the ledger into the hand. *)
Lemma good_modify hand s f ids :
  ok hand s -> shape (f s) -> queries (f s) = queries s -> unanswered s ≡ₚ ids ++ unanswered (f s) ->
  good hand s (modify f s) (fun _ => ids ++ hand).
Proof.
  intros (Hs & _ & Hq) Hs' Hq' P.
  have HP : ledger hand s ≡ₚ ledger (ids ++ hand) (f s).
  { by rewrite /ledger P !app_assoc (Permutation_app_comm hand). }
  rewrite /good /=. split_and!; [done| |done]. rewrite Hq' Hq. by rewrite HP.
Qed.

Lemma set_watch_shape w s : shape s -> shape (set_follow_watch w s).
Proof. intros []. by split. Qed.

Lemma set_watch_unanswered w s ids : waits_for (follow_watch s) = ids ++ waits_for w ->
  unanswered s ≡ₚ ids ++ unanswered (set_follow_watch w s).
Proof.
  intros H. rewrite /unanswered. change (follow_watch (set_follow_watch w s)) with w.
  rewrite H. simpl. rewrite !app_assoc. by rewrite (Permutation_app_comm _ ids) !app_assoc.
Qed.

Lemma good_answers hand s (answers : list Answer) now :
  ok (map answered_by answers ++ hand) s ->
  good (map answered_by answers ++ hand) s
    (for_each answers (fun a => answer_watch a now) s) (fun _ => hand).
Proof.
  revert s. induction answers as [|a answers IH]; intros s Hok; simpl; [by apply ledger_skip|].
  eapply good_seq; [done|by apply good_answer_watch|]. intros [] s1 Hok1. by apply IH.
Qed.

(** A transition of the watch, answered. *)
Lemma good_take_watch_answer hand s step now :
  (forall w, waits_for w = option_list (option_map answered_by (step w).1) ++ waits_for (step w).2) ->
  ok hand s -> good hand s (take_watch_answer step now s) (fun _ => hand).
Proof.
  intros Hstep Hok. rewrite /take_watch_answer. apply good_get.
  have Hw := Hstep (follow_watch s). destruct (step (follow_watch s)) as [answer w].
  eapply good_seq; [done|apply good_modify with (ids := option_list (option_map answered_by answer))|].
  - done.
  - by apply set_watch_shape; destruct Hok.
  - done.
  - by apply set_watch_unanswered.
  - intros [] s1 Hok1. destruct answer as [a|]; [by apply good_answer_watch|by apply ledger_skip].
Qed.

Lemma abandoned_law w : waits_for w = option_list (option_map answered_by (watch_abandoned w).1) ++ waits_for (watch_abandoned w).2.
Proof. by destruct w. Qed.
Lemma program_ended_law w : waits_for w = option_list (option_map answered_by (program_ended w).1) ++ waits_for (program_ended w).2.
Proof. by destruct w. Qed.
Lemma end_kept_law why w : waits_for w = option_list (option_map answered_by (end_kept w why).1) ++ waits_for (end_kept w why).2.
Proof. by destruct w. Qed.

(** ** Taking in entries *)

Lemma destroy_seen_quiet item : quiet (destroy_seen item).
Proof.
  rewrite /destroy_seen. destruct item; try apply quiet_skip. destruct kind; try apply quiet_skip.
  apply quiet_if_some. intros w. apply quiet_bind; [by apply quiet_modify|]. intros _. by apply quiet_item_mut.
Qed.

Lemma omap_qid_durables es : omap qid (durables es) = omap entry_qid es.
Proof.
  rewrite /durables. have -> : omap entry_qid es = omap qid (map entry_item es).
  { induction es as [|e es IH]; [done|]. csimpl. by rewrite IH. }
  induction (map entry_item es) as [|i l IH]; [done|]. destruct i; csimpl; by rewrite IH.
Qed.

Lemma omap_qid_uia items : Forall (fun i => is_uia i = true) items -> omap qid items = [].
Proof. induction 1 as [|i l Hi H IH]; [done|]. csimpl. by destruct i. Qed.

Lemma set_intake_shape i s : shape s -> Intake_ok i -> closed i = false -> shape (set_intake i s).
Proof. intros [] ? ?. by split. Qed.

Lemma set_intake_unanswered i s ids :
  omap qid (IntakeProps.held (intake s)) ≡ₚ ids ++ omap qid (IntakeProps.held i) ->
  unanswered s ≡ₚ ids ++ unanswered (set_intake i s).
Proof.
  intros P. rewrite /unanswered /= P. change (follow_watch (set_intake i s)) with (follow_watch s).
  by rewrite -!app_assoc.
Qed.

(** An entry pushed, its query in hand. *)
Lemma good_intake_push hand s e :
  ok (option_list (entry_qid e) ++ hand) s -> marked_ok e = true ->
  good (option_list (entry_qid e) ++ hand) s
    ((s ← get;
      let '(unparked, i) := Intake.push (intake s) e (marks (facts s)) in
      modify (set_intake i) ;; match unparked with [] => skip | _ => emit (Unpark unparked) end) s)
    (fun _ => hand).
Proof.
  intros Hok Hm. have [Hs [Hnd Hq]] := Hok. apply good_get.
  have H := push_held (intake s) e (marks (facts s)) (shape_intake s Hs) Hm (shape_open s Hs).
  destruct (Intake.push _ _ _) as [unparked i]. destruct H as (Hi & Hc & gone & _ & Hu & P).
  have P' : option_list (entry_qid e) ++ omap qid (IntakeProps.held (intake s)) ≡ₚ omap qid (IntakeProps.held i).
  { have H := omap_Permutation qid _ _ P. rewrite !omap_app (omap_qid_uia gone Hu) /= in H. rewrite -H.
    f_equiv. rewrite /entry_qid. by destruct (entry_item e). }
  have Hl : ledger (option_list (entry_qid e) ++ hand) s ≡ₚ ledger hand (set_intake i s).
  { rewrite /ledger /unanswered /=. rewrite -P'. change (follow_watch (set_intake i s)) with (follow_watch s).
    rewrite !app_assoc. by rewrite (Permutation_app_comm (option_list _) hand). }
  eapply good_seq; [done|instantiate (1 := fun _ => hand)|].
  - rewrite /good /=. split_and!; [by apply set_intake_shape| |done]. by rewrite Hq Hl.
  - intros [] s1 Hok1. apply good_quiet; [done|]. destruct unparked; quiet_split.
Qed.

Lemma open_gap_quiet e : quiet (modify (open_gap e)).
Proof. apply quiet_modify. intros s. rewrite /open_gap. repeat case_match; done. Qed.
#[export] Hint Resolve open_gap_quiet destroy_seen_quiet : quiet.

Lemma good_push_entry hand s e : ok hand s -> copy_ok e -> good hand s (push_entry e s) (fun _ => hand).
Proof.
  intros Hok [Hq Hm]. rewrite /push_entry. rewrite /no_qid /entry_qid in Hq.
  have Hskip : match entry_item e with
               | ItemQuery request_id _ => modify (fun s => if stopping s then s else set_queries ({[request_id]} ∪ queries s) s)
               | _ => skip end = skip by destruct (entry_item e).
  rewrite Hskip. eapply good_seq; [done|by apply ledger_skip|]. intros [] s1 Hok1.
  eapply good_seq; [done|apply good_quiet; [done|apply open_gap_quiet]|]. intros [] s2 Hok2.
  have H := good_intake_push hand s2 e. rewrite /entry_qid Hq /= in H. by apply H.
Qed.

Lemma good_push_all hand s es : ok hand s -> Forall copy_ok es -> good hand s (push_all es s) (fun _ => hand).
Proof.
  intros Hok H. revert s Hok. rewrite /push_all. induction H as [|e es He H IH]; intros s Hok; simpl; [by apply ledger_skip|].
  eapply good_seq; [done|by apply good_push_entry|]. intros [] s1 Hok1. by apply IH.
Qed.

Lemma set_hold_ok hand h s : ok hand s -> Forall copy_ok (held_copies h) ->
  good hand s (modify (set_hold h) s) (fun _ => hand).
Proof.
  intros Hok Hh. have [Hs _] := Hok. apply (good_modify _ _ _ []); [done| |done..].
  destruct Hs. by split.
Qed.

(** The hold's transitions hand out copies it held. *)
Lemma release_hold_copies h through : Forall copy_ok (held_copies h) ->
  let '(released, h') := release_hold h through in
  Forall copy_ok (held_copies h') /\ Forall (Forall copy_ok) (option_list released).
Proof.
  intros H. rewrite /release_hold. split; [constructor|].
  rewrite /held_copies in H. destruct (hold_state h) as [|held newest|]; [constructor| |constructor].
  apply Forall_singleton. apply Forall_forall. intros e [He _]%list_elem_of_In%filter_In.
  rewrite Forall_forall in H. by apply H, list_elem_of_In.
Qed.

Lemma good_released hand s (released : option (list Entry)) :
  ok hand s -> Forall (Forall copy_ok) (option_list released) ->
  good hand s (if_some released push_all s) (fun _ => hand).
Proof.
  intros Hok H. destruct released as [es|]; [|by apply ledger_skip].
  apply good_push_all; [done|]. by apply Forall_cons in H as [H _].
Qed.

(** What comes from the hook and the listener is no query. *)
Definition taken_ok (e : Entry) (source : Source) : bool :=
  marked_ok e && match source with SourceOther => true | _ => bool_decide (entry_qid e = None) end.

Lemma good_take_entry_in hand s e source :
  ok hand s -> taken_ok e source = true -> entry_qid e = None ->
  good hand s (take_entry_in e source s) (fun _ => hand).
Proof.
  intros Hok [Hm Hsrc]%andb_true_iff Hq. rewrite /take_entry_in.
  have Hcopy : copy_ok e by split.
  eapply good_seq; [done|apply good_quiet; [done|apply destroy_seen_quiet]|]. intros [] s1 Hok1.
  have [Hs1 _] := Hok1. have Hh := shape_hold s1 Hs1. destruct source.
  - apply good_get. have Hc : let '(e', h) := hooked_copy (hold s1) e in
      Forall copy_ok (held_copies h) /\ Forall copy_ok (option_list e').
    { rewrite /hooked_copy. rewrite /held_copies in Hh *.
      destruct (hold_state (hold s1)) as [|held newest|] eqn:E; rewrite ?E; simpl;
        (split; [try done|repeat constructor; done]).
      apply Forall_app. split; [done|by apply Forall_singleton]. }
    destruct (hooked_copy (hold s1) e) as [e' h]. destruct Hc as [Hh' He'].
    eapply good_seq; [done|by apply set_hold_ok|]. intros [] s2 Hok2.
    destruct e' as [e'|]; [|by apply ledger_skip]. apply Forall_cons in He' as [He' _]. by apply good_push_entry.
  - eapply good_seq; [done|instantiate (1 := fun _ => hand)|intros [] s2 Hok2; by apply good_push_entry].
    change (modify ?f s1) with (modify (fun _ => f s1) s1).
    apply (set_hold_ok _ (listener_copy (hold s1) e)); [done|].
    rewrite /listener_copy. rewrite /held_copies in Hh *.
    destruct (hold_state (hold s1)) as [|held newest|] eqn:E; rewrite ?E //.
    destruct (forwarded_time e); rewrite ?E //. destruct (match newest with Some _ => _ | None => _ end); by rewrite /= ?E.
  - eapply good_seq; [done|by apply good_push_entry|]. intros [] s2 Hok2.
    destruct (entry_item e) as [| |[] ?| | | | | |]; try by apply ledger_skip.
    apply good_get. have [Hs2 _] := Hok2. have Hh2 := shape_hold s2 Hs2.
    have Hr : let '(released, h) := reads_ended (hold s2) in
      Forall copy_ok (held_copies h) /\ Forall (Forall copy_ok) (option_list released).
    { rewrite /reads_ended. destruct (hold_state (hold s2)) as [|held newest|] eqn:E; [by split; [|constructor]| |by split; [|constructor]].
      by apply release_hold_copies. }
    destruct (reads_ended (hold s2)) as [released h]. destruct Hr as [Hh' Hr].
    eapply good_seq; [done|by apply set_hold_ok|]. intros [] s3 Hok3. by apply good_released.
Qed.

(** ** Commits *)

(** The query the program of [request] answers, when it is the one in flight. *)
Definition answers_for (request : Request) (s : Reducer) : option RequestId :=
  match InFlight.running (flight s) with
  | Some (r, current, _) => if bool_decide (r = request) then option_map fst (cur_running current) else None
  | None => None
  end.

(** What a commit may hold: a result that is the reply of the query its program
    answers, or none of another's; and a watch opened only for that query,
    unanswered. *)
Definition commit_ok (s : Reducer) (request : Request) (change : Change) : bool :=
  match result change with
  | Some (Reply _ id _ _) => bool_decide (answers_for request s = Some id)
  | Some _ => bool_decide (answers_for request s = None)
  | None => true
  end &&
  match change_watch change with
  | Some (WatchOpen open _) =>
      match result change with
      | None => bool_decide (answers_for request s = Some (watch_request_id open))
      | Some _ => false
      end
  | _ => true
  end.

Lemma good_seq_keep {A B V} (view : Reducer -> V) hand s (m : M A) (f : A -> M B) mid hand' :
  ok hand s -> good hand s (m s) mid -> keeps view m ->
  (forall a s1, ok (mid a) s1 -> view s1 = view s -> good (mid a) s1 (f a s1) hand') ->
  good hand s ((m ≫= f) s) hand'.
Proof. intros Hok Hm Hk Hf. eapply good_bind; [done..|]. intros Hok1. by apply Hf. Qed.

Lemma hang_seen_quiet request window : quiet (hang_seen request window).
Proof.
  rewrite /hang_seen. apply quiet_bind; [apply quiet_get|intros s0]. case_match; [apply quiet_skip|].
  apply quiet_bind; [by apply quiet_modify|intros _]. apply quiet_if_then. by apply send_quiet.
Qed.

Lemma found_quiet request f : quiet (found request f).
Proof. destruct f as [window []]; [apply hang_seen_quiet|by apply quiet_modify]. Qed.

Lemma send_answers_for request message :
  (forall t id o tm, message <> Reply t id o tm) -> keeps (answers_for request) (send message).
Proof. intros H. rewrite /send. destruct message; try (exfalso; by eapply H); keep_split; done. Qed.

Lemma found_answers_for request r f : keeps (answers_for request) (found r f).
Proof.
  destruct f as [window []]; [|by apply keeps_modify]. rewrite /found /hang_seen. keep_split; done.
Qed.

Lemma set_after_ok hand s l : ok hand s -> Forall (fun p => no_qid p.1 /\ group_ok p.2) l ->
  good hand s (modify (set_after l) s) (fun _ => hand).
Proof. intros Hok Hl. have [Hs _] := Hok. apply (good_modify _ _ _ []); [done| |done..]. destruct Hs. by split. Qed.

Lemma good_gap_note hand s note : ok hand s -> good hand s (gap_note note s) (fun _ => hand).
Proof.
  intros Hok. destruct note as [window top at_us trace|hwnd]; [|by apply good_quiet, quiet_modify].
  rewrite /gap_note. apply good_get. destruct (copy_dropped _ _ _ _ _) as [dropped g].
  eapply good_seq; [done|by apply good_quiet, quiet_modify|]. intros [] s1 Hok1.
  destruct (bool_decide _); cbn [if_then]; [|by apply ledger_skip].
  change (modify ?f s1) with (modify (fun _ => f s1) s1).
  have [Hs1 _] := Hok1. apply (set_after_ok _ s1 (_ :: after s1)); [done|].
  constructor; [|by apply shape_after]. split; [done|]. simpl.
  destruct (InFlight.running (flight s)) as [[[r current] p]|]; [|done].
  destruct (cur_group current); [constructor|done].
Qed.

Lemma gap_note_answers_for request note : keeps (answers_for request) (gap_note note).
Proof. rewrite /gap_note. keep_split; done. Qed.

Lemma good_gap_notes hand notes : forall s, ok hand s -> good hand s (for_each notes gap_note s) (fun _ => hand).
Proof.
  induction notes as [|n notes IH]; intros s Hok; simpl; [by apply ledger_skip|].
  eapply good_seq; [done|by apply good_gap_note|]. intros [] s1 Hok1. by apply IH.
Qed.

Lemma good_noted hand s n : ok hand s ->
  good hand s (modify (fun s => set_intake (when_idle (intake s) (noted_entry n)) s) s) (fun _ => hand).
Proof.
  intros Hok. have [Hs _] := Hok. have [Hw [Hb Hi]] := shape_intake s Hs.
  apply (good_modify _ _ _ []); [done| |done|by apply set_intake_unanswered].
  apply set_intake_shape; [done| |by apply shape_open]. split_and!; [done..|].
  apply Forall_singleton. by destruct n as [[[]]].
Qed.

(** A change through [current_of] of the program in flight. *)
Section current_of.
Context (request : Request) (f : Current -> Current).
Hypothesis Hgroup : forall c, cur_group (f c) = cur_group c.

Lemma current_of_shape s : shape s -> shape (current_of request f s).
Proof.
  intros [? ? ? ? ? Hg]. rewrite /current_of. destruct (is_running s request); [|by split]. split; try done.
  simpl. rewrite /item_mut. destruct (running_item (flight s)) as [r|] eqn:E; rewrite ?E //=. by rewrite Hgroup.
Qed.

Lemma current_of_queries s : queries (current_of request f s) = queries s.
Proof. rewrite /current_of. by case_match. Qed.

Lemma current_of_flight_keeps s : (forall c, cur_running (f c) = cur_running c) ->
  flight_ids (flight (current_of request f s)) = flight_ids (flight s).
Proof.
  intros H. rewrite /current_of. destruct (is_running s request); [|done]. simpl.
  rewrite /flight_ids /item_mut. destruct (running_item (flight s)) as [r|] eqn:E; rewrite ?E //=.
  by rewrite /run_ids H.
Qed.

Lemma current_of_flight_drops s : (forall c, cur_running (f c) = None) ->
  flight_ids (flight s) =
  option_list (answers_for request s) ++ flight_ids (flight (current_of request f s)).
Proof.
  intros H. rewrite /current_of /is_running /answers_for /InFlight.running /flight_ids.
  destruct (running_item (flight s)) as [r|] eqn:E; rewrite ?E //=.
  case_bool_decide; rewrite /= ?E //. rewrite /item_mut E /= /run_ids H /= app_nil_r.
  by destruct (cur_running (item r)).
Qed.

Lemma current_of_rest s : intake (current_of request f s) = intake s /\ follow_watch (current_of request f s) = follow_watch s.
Proof. rewrite /current_of. by case_match. Qed.

End current_of.

(** The result of a commit, sent. *)
Lemma good_result hand s request message :
  ok hand s ->
  match message with
  | Reply _ id _ _ => answers_for request s = Some id
  | _ => answers_for request s = None
  end ->
  good hand s ((modify (current_of request (fun current => with_cur_running current None)) ;;
                send message) s) (fun _ => hand).
Proof.
  intros Hok Hm. set (f := fun current => with_cur_running current None).
  have Hf := current_of_flight_drops request f s ltac:(done).
  have [Hi Hw] := current_of_rest request f s. have [Hs _] := Hok.
  eapply good_seq; [done|apply good_modify with (ids := option_list (answers_for request s))|].
  - done.
  - by apply current_of_shape.
  - apply current_of_queries.
  - rewrite /unanswered Hi Hw Hf. by rewrite -app_assoc !(app_assoc (omap _ _)) (Permutation_app_comm (omap _ _)) -!app_assoc.
  - intros [] s1 Hok1. destruct message; rewrite Hm in Hok1 |- *; simpl in *;
      try (apply good_quiet; [done|by apply send_quiet]). by apply good_send_reply.
Qed.

(** What a commit answers of the watch, and opens. *)
Definition opens_id (change : Change) (applied : Applied) : list RequestId :=
  match change_watch change with
  | Some (WatchOpen open _) => if applied_opened applied then [watch_request_id open] else []
  | _ => []
  end.

Section applied.
Context (w0 : Watch).

Definition answers_kept (p : Facts * Applied) : Prop :=
  waits_for w0 = map answered_by (applied_answers p.2) ++ waits_for (watch (following p.1)) /\
  applied_opened p.2 = false.

Lemma answers_kept_when {A} (o : option A) f p :
  answers_kept p -> (forall a p, answers_kept p -> answers_kept (f a p)) -> answers_kept (when o f p).
Proof. intros Hp Hf. destruct o; [by apply Hf|done]. Qed.

Lemma end_watch_kept F why A :
  waits_for w0 = map answered_by (applied_answers A) ++ waits_for (watch F) -> applied_opened A = false ->
  let '(F', A') := end_watch F why A in
  waits_for w0 = map answered_by (applied_answers A') ++ waits_for (watch F') /\ applied_opened A' = false.
Proof.
  intros H Ho. rewrite /end_watch /watch_end /=. split; [|done]. rewrite map_app app_nil_r H /waits_for.
  by destruct (watch_open (watch F)).
Qed.

Lemma end_elsewhere_kept F node A :
  waits_for w0 = map answered_by (applied_answers A) ++ waits_for (watch F) -> applied_opened A = false ->
  let '(F', A') := end_watch_elsewhere F node A in
  waits_for w0 = map answered_by (applied_answers A') ++ waits_for (watch F') /\ applied_opened A' = false.
Proof.
  intros H Ho. rewrite /end_watch_elsewhere. destruct (watch_open (watch F)) as [open|]; [|done].
  case_bool_decide; [done|]. by apply end_watch_kept.
Qed.

Lemma retarget_kept F target A :
  let '(F', A') := retarget F target A in
  watch F' = watch F /\ applied_answers A' = applied_answers A /\ applied_opened A' = applied_opened A.
Proof. rewrite /retarget. repeat case_match; simplify_eq; done. Qed.

Lemma on_following_kept f p : (forall F, watch (f F) = watch F) -> answers_kept p -> answers_kept (on_following f p).
Proof. intros Hf [H Ho]. rewrite /answers_kept /= Hf. done. Qed.

Lemma apply_follow_kept facts f A : answers_kept (facts, A) -> answers_kept (apply_follow facts f A).
Proof.
  intros [H Ho]. rewrite /apply_follow. simpl in *. destruct (adopt f).
  - have H1 := end_elsewhere_kept (following facts) (follow_node f) A H Ho.
    destruct (end_watch_elsewhere _ _ _) as [F1 A1].
    have H2 := retarget_kept (with_tracking F1 (adopted_tracking (tracking F1) f)) (follow_target f) A1.
    simpl. destruct (retarget _ _ _) as [F2 A2]. destruct H2 as (E1 & E2 & E3). rewrite /answers_kept /= E1 E2 E3. done.
  - have H2 := retarget_kept (following facts) (follow_target f) A.
    destruct (retarget _ _ _) as [F2 A2]. destruct H2 as (E1 & E2 & E3). rewrite /answers_kept /= E1 E2 E3. done.
Qed.

Lemma apply_replaced_kept node p : answers_kept p -> answers_kept (apply_replaced node p).
Proof.
  intros [H Ho]. rewrite /apply_replaced. destruct (watch_open _) as [open|]; [|done]. case_bool_decide; [|done].
  have H1 := end_watch_kept (following p.1) ELEMENT_REPLACED p.2 H Ho. exact H1.
Qed.

Lemma apply_foreground_kept c p : answers_kept p -> answers_kept (apply_foreground c p).
Proof.
  destruct c as [[node role] batch]. intros [H Ho]. rewrite /apply_foreground.
  have H1 := end_elsewhere_kept (following p.1) node p.2 H Ho.
  destruct (end_watch_elsewhere _ _ _). exact H1.
Qed.

Lemma apply_element_kept c p : answers_kept p -> answers_kept (apply_element c p).
Proof.
  destruct c as [node target]. intros [H Ho]. rewrite /apply_element. case_bool_decide; [|done].
  have H2 := retarget_kept (following p.1) target p.2.
  destruct (retarget _ _ _) as [F2 A2]. destruct H2 as (E1 & E2 & E3). rewrite /answers_kept /= E1 E2 E3. done.
Qed.

Lemma answers_kept_marks p m : answers_kept p -> answers_kept (with_marks p.1 m, p.2).
Proof. done. Qed.

End applied.

Lemma apply_answers facts generation change clock :
  let '(facts', applied) := Follow.apply facts generation change clock in
  waits_for (watch (following facts)) ++ opens_id change applied =
    map answered_by (applied_answers applied) ++ waits_for (watch (following facts')) /\
  (applied_opened applied = true -> opens_id change applied <> []).
Proof.
  rewrite /Follow.apply. destruct (apply_texts _ _ _) as [let_go t].
  set (w0 := watch (following facts)). cbv zeta.
  match goal with |- context [when (change_states change) ?f ?p] => set (P := when (change_states change) f p) end.
  have HP : answers_kept w0 P.
  { rewrite /P.
    repeat first [apply answers_kept_when; [|intros a p Hp] | apply answers_kept_marks].
    - done.
    - by apply apply_replaced_kept.
    - by apply on_following_kept.
    - apply apply_follow_kept. by destruct p.
    - by apply on_following_kept.
    - by apply on_following_kept.
    - by apply apply_foreground_kept.
    - by apply apply_element_kept.
    - apply on_following_kept; [|done]. intros F. rewrite /apply_owed_done.
      destruct (owed F); [by destruct (_ && _)|done].
    - destruct a. by apply on_following_kept.
    - by destruct a. }
  clearbody P. destruct P as [F A]. destruct HP as [H Ho]. rewrite /opens_id. simpl in *.
  destruct (change_watch change) as [[open console|node|checked]|]; simpl.
  - rewrite /opened. destruct (watch_is_none (watch (following F))) eqn:E; simpl.
    + split; [|done]. rewrite H. destruct (watch (following F)); try done. destruct console, clock; simpl; rewrite app_nil_r; done.
    + by rewrite app_nil_r.
  - rewrite /watch_take app_nil_r.
    destruct (watch (following F)); simpl; try (by rewrite Ho); case_bool_decide; simpl; by rewrite Ho.
  - rewrite /watch_checked. destruct (watch (following F)) as [| | |open resume]; simpl; try by rewrite app_nil_r ?Ho.
    destruct checked as [r c a|c]; simpl.
    + rewrite H map_app !app_nil_r. split; [done|]. by rewrite Ho.
    + destruct resume; simpl; rewrite ?app_nil_r ?Ho; try done.
      destruct clock as [now|]; [destruct (until <=? now)|]; simpl; rewrite ?app_nil_r ?map_app ?Ho //.
  - by rewrite app_nil_r Ho.
Qed.

Lemma subscription_effects_good hand s applied now :
  ok (map answered_by (applied_answers applied) ++ hand) s ->
  good (map answered_by (applied_answers applied) ++ hand) s (subscription_effects applied now s) (fun _ => hand).
Proof.
  intros Hok. rewrite /subscription_effects. eapply good_seq; [done|by apply good_answers|]. intros [] s1 Hok1.
  apply good_quiet; [done|]. quiet_split.
Qed.

(** Two changes of the state with only effects between them are one. *)
Lemma good_modify_emit hand s f g r (k : M unit) hand' :
  good hand s ((modify (fun s => g (f s)) ;; emit_ranges r ;; k) s) hand' ->
  good hand s ((modify f ;; emit_ranges r ;; modify g ;; k) s) hand'.
Proof.
  rewrite /mbind /M_bind /modify /emit_ranges /if_then.
  destruct (negb _); simpl; by destruct (k _) as [[]].
Qed.

Lemma commit_current_ids (applied : Applied) :
  (forall c, cur_running (commit_current applied c) = if applied_opened applied then None else cur_running c) /\
  (forall c, cur_group (commit_current applied c) = cur_group c).
Proof. rewrite /commit_current. split; intros c; repeat case_match; done. Qed.

Lemma set_facts_shape f s : shape s -> shape (set_facts f s).
Proof. intros []. by split. Qed.

(** The facts applied, the watch it opened taking over its program's query. *)
Lemma good_apply hand s request change now :
  ok hand s ->
  (forall open console, change_watch change = Some (WatchOpen open console) ->
     answers_for request s = Some (watch_request_id open)) ->
  good hand s
    ((let '(f, applied) := Follow.apply (facts s) (in_charge (flight s)) change (Some (wall_us now)) in
      modify (set_facts f) ;;
      emit_ranges (ranges applied) ;;
      modify (current_of request (commit_current applied)) ;;
      subscription_effects applied now) s) (fun _ => hand).
Proof.
  intros Hok Hopen. have [Hs _] := Hok.
  have H := apply_answers (facts s) (in_charge (flight s)) change (Some (wall_us now)).
  destruct (Follow.apply _ _ _ _) as [f applied]. destruct H as [Hw Ho].
  destruct (commit_current_ids applied) as [Hrun Hgrp].
  apply good_modify_emit.
  eapply good_seq; [done|apply good_modify with (ids := map answered_by (applied_answers applied))|].
  - done.
  - apply current_of_shape; [done|by apply set_facts_shape].
  - by rewrite current_of_queries.
  - have [Hi Hw'] := current_of_rest request (commit_current applied) (set_facts f s).
    have Hfl : flight_ids (flight s) =
      opens_id change applied ++ flight_ids (flight (current_of request (commit_current applied) (set_facts f s))).
    { rewrite /opens_id in Ho |- *. destruct (applied_opened applied) eqn:E.
      - rewrite (current_of_flight_drops request (commit_current applied) (set_facts f s)); [|by intros; rewrite Hrun].
        f_equal. destruct (change_watch change) as [[open console| |]|] eqn:Ec; try by destruct (Ho eq_refl).
        change (answers_for request (set_facts f s)) with (answers_for request s). by rewrite (Hopen open console).
      - rewrite current_of_flight_keeps; [|by intros; rewrite Hrun]. by destruct (change_watch change) as [[]|]. }
    rewrite /unanswered Hi Hw' Hfl. change (follow_watch (set_facts f s)) with (watch (following f)).
    change (intake (set_facts f s)) with (intake s). change (waits_for (follow_watch s)) with (waits_for (watch (following (facts s)))).
    set (H1 := omap _ _). set (F1 := flight_ids _).
    trans (H1 ++ F1 ++ waits_for (watch (following (facts s))) ++ opens_id change applied).
    { f_equiv. rewrite -app_assoc Permutation_app_comm -app_assoc. done. }
    rewrite Hw. rewrite !app_assoc. f_equiv. by rewrite (Permutation_app_comm _ (map _ _)) !app_assoc.
  - intros [] s1 Hok1. eapply good_seq; [done|apply good_quiet; [done|rewrite /emit_ranges; quiet_split]|].
    intros [] s2 Hok2. by apply subscription_effects_good.
Qed.

Lemma with_held_quiet (f : Reducer -> Held) : quiet (modify (fun s => set_facts (with_held (facts s) (f s)) s)).
Proof. by apply quiet_modify. Qed.

(** [Reducer::commit], of a commit that holds what it may. *)
Lemma good_commit hand s request change now :
  ok hand s -> commit_ok s request change = true ->
  good hand s (commit request change now s) (fun _ => hand).
Proof.
  intros Hok Hc. rewrite /commit. apply andb_true_iff in Hc as [Hres Hop].
  eapply (good_seq_keep (answers_for request)); [done|apply good_quiet; [done|quiet_split; apply found_quiet]| |].
  { apply keeps_if_some. intros. apply found_answers_for. }
  intros [] s1 Hok1 E1.
  eapply (good_seq_keep (answers_for request)); [done|apply good_quiet; [done|quiet_split; done]| |].
  { apply keeps_if_some. intros. by apply keeps_modify. }
  intros [] s2 Hok2 E2. rewrite -E1 -E2 in Hres Hop. clear E1 E2 s s1 Hok Hok1.
  have Hopen : forall open console, change_watch change = Some (WatchOpen open console) ->
      result change = None /\ answers_for request s2 = Some (watch_request_id open).
  { intros open console Ew. rewrite Ew in Hop. destruct (result change); [done|]. by case_bool_decide. }
  eapply good_bind with (mid := fun _ => hand); [done| |].
  { destruct (result change) as [message|]; [|by apply ledger_skip]. apply good_result; [done|].
    destruct message; by case_bool_decide. }
  intros Hok3. set (s3 := st _ s2) in *.
  have Hopen3 : forall open console, change_watch change = Some (WatchOpen open console) ->
      answers_for request s3 = Some (watch_request_id open).
  { intros open console Ew. destruct (Hopen _ _ Ew) as [E ?]. by rewrite /s3 E. }
  clearbody s3. clear Hopen Hres Hop s2 Hok2.
  eapply (good_seq_keep (answers_for request)); [done|by apply good_gap_notes| |].
  { apply keeps_for_each. intros. apply gap_note_answers_for. }
  intros [] s4 Hok4 E4.
  eapply (good_seq_keep (answers_for request)); [done| | |].
  { instantiate (1 := fun _ => hand). destruct (noted_caret change); [by apply good_noted|by apply ledger_skip]. }
  { apply keeps_if_some. intros. by apply keeps_modify. }
  intros [] s5 Hok5 E5. apply good_get. apply good_apply; [done|]. intros open console Ew.
  rewrite E5 E4. by eapply Hopen3.
Qed.

Lemma record_verdict_quiet generation change : quiet (record_verdict generation change).
Proof. rewrite /record_verdict. quiet_split; done. Qed.

(** ** The end of a program *)

Lemma continue_group_after group s :
  group_ok (Some group) -> Forall (fun p => no_qid p.1 /\ group_ok p.2) (after s) ->
  exists l, continue_group group s = set_after l s /\ Forall (fun p => no_qid p.1 /\ group_ok p.2) l.
Proof.
  rewrite /continue_group. intros Hg Ha. destruct (try_older group) as [|e older] eqn:E.
  - exists (after s). split; [by destruct s|done].
  - eexists. split; [done|]. simpl in Hg. rewrite E in Hg. apply Forall_cons in Hg as [He Ho].
    apply Forall_app. split; [done|]. by apply Forall_singleton.
Qed.

Lemma good_continue_group hand s group : ok hand s -> group_ok (Some group) ->
  good hand s (modify (continue_group group) s) (fun _ => hand).
Proof.
  intros Hok Hg. have [Hs _] := Hok. destruct (continue_group_after group s Hg (shape_after s Hs)) as (l & E & Hl).
  change (modify ?f s) with (modify (fun _ => f s) s). rewrite E. by apply (set_after_ok hand s l).
Qed.

Lemma good_end_group hand s group ended : ok hand s -> group_ok (Some group) ->
  good hand s (modify (end_group group ended) s) (fun _ => hand).
Proof.
  intros Hok Hg. have [Hs _] := Hok. have Ha := shape_after s Hs.
  change (modify ?f s) with (modify (fun _ => f s) s). rewrite /end_group.
  have Hend : good hand s (modify (fun _ => if ended then s else continue_group group s) s) (fun _ => hand).
  { destruct ended; [by apply ledger_skip|by apply good_continue_group]. }
  destruct (after s) as [|[e g] rest] eqn:E; [done|]. destruct (is_gap_read (entry_item e)) eqn:Er; [|done].
  apply Forall_cons in Ha as [[He Hg'] Hrest]. destruct ended.
  - apply (set_after_ok hand s ((e, None) :: rest)); [done|]. by constructor.
  - destruct g as [g|]; [|by apply ledger_skip].
    apply (set_after_ok hand s ((e, Some _) :: rest)); [done|]. by constructor.
Qed.

(** A program taken out of flight, its query in hand. *)
Lemma good_take_flight hand s f ids :
  ok hand s -> running_item f = None -> flight_ids (flight s) = ids ->
  good hand s (modify (set_flight f) s) (fun _ => ids ++ hand).
Proof.
  intros Hok Hf Hi. have [Hs _] := Hok. apply good_modify; [done| |done|].
  - destruct Hs. split; try done. simpl. by rewrite Hf.
  - have Hn : flight_ids f = [] by rewrite /flight_ids Hf.
    rewrite /unanswered /= Hn Hi. change (follow_watch (set_flight f s)) with (follow_watch s).
    rewrite !app_assoc. f_equiv. by rewrite app_nil_r Permutation_app_comm.
Qed.

(** A change of the flight that keeps its program. *)
Lemma good_keep_flight hand s f :
  ok hand s -> option_map item (running_item f) = option_map item (running_item (flight s)) ->
  good hand s (modify (set_flight f) s) (fun _ => hand).
Proof.
  intros Hok Hf. have [Hs _] := Hok. apply (good_modify _ _ _ []); [done| |done|].
  - destruct Hs as [? ? ? ? ? Hg]. split; try done. simpl.
    destruct (running_item f), (running_item (flight s)); try done. injection Hf as ->. done.
  - simpl. rewrite unanswered_flight; [done|]. rewrite /flight_ids.
    destruct (running_item f), (running_item (flight s)); try done. by injection Hf as ->.
Qed.

Lemma good_query_answer hand s (c : Current) outcome :
  ok (run_ids c ++ hand) s ->
  good (run_ids c ++ hand) s
    (if_some (cur_running c) (fun '(request_id, trace) => send (reply request_id trace outcome)) s) (fun _ => hand).
Proof.
  rewrite /run_ids. destruct (cur_running c) as [[id trace]|]; simpl; intros Hok; [|by apply ledger_skip].
  by apply good_send_reply.
Qed.

Lemma good_abandoned hand s a now :
  ok (run_ids (ab_item a) ++ hand) s -> group_ok (cur_group (ab_item a)) ->
  good (run_ids (ab_item a) ++ hand) s (abandoned a now s) (fun _ => hand).
Proof.
  intros Hok Hg. rewrite /abandoned.
  eapply good_seq; [done|apply good_quiet; [done|quiet_split; done]|]. intros [] s1 Hok1.
  eapply good_seq; [done|apply good_quiet; [done|quiet_split]|]. intros [] s2 Hok2.
  eapply good_seq; [done|apply good_take_watch_answer; [apply abandoned_law|done]|]. intros [] s3 Hok3.
  eapply good_seq; [done|by apply good_query_answer|]. intros [] s4 Hok4.
  destruct (cur_group (ab_item a)) as [g|]; [|by apply ledger_skip]. simpl.
  destruct (ab_published a); [by apply ledger_skip|]. by apply good_continue_group.
Qed.

Lemma good_flight_step hand s step now :
  ok hand s -> (forall f d f', step f = (d, f') -> InFlightProps.decided f d f') ->
  good hand s (flight_step step now s) (fun _ => hand).
Proof.
  intros Hok Hstep. rewrite /flight_step. apply good_get. have [Hs _] := Hok. have Hg := shape_group s Hs.
  destruct (step (flight s)) as [d f] eqn:E. apply Hstep in E. destruct d as [|ask|a].
  1,2: destruct E as (_ & _ & E);
    (eapply good_seq; [done|apply good_keep_flight; [done|]|]);
    [destruct (running_item (flight s)), (running_item f); try done; destruct E as (_ & E & _); simpl; by rewrite E|
     intros [] s1 Hok1; apply good_quiet; [done|]; rewrite /decided; quiet_split].
  destruct E as (r & Hr & Hf & _ & _ & Hi & _). rewrite Hr -Hi in Hg.
  eapply good_seq; [done|apply (good_take_flight hand s f (run_ids (ab_item a))); [done..|]|].
  - by rewrite /flight_ids Hr Hi.
  - intros [] s1 Hok1. by apply good_abandoned.
Qed.

Lemma good_walk_published hand s request change then_abandon now :
  ok hand s ->
  (forall c, change = Some c -> reducer_accepts s request = true -> commit_ok s request c = true) ->
  good hand s (walk_published request change then_abandon now s) (fun _ => hand).
Proof.
  intros Hok Hc. rewrite /walk_published. apply good_get.
  eapply good_seq with (mid := fun _ => hand); [done| |].
  - destruct change as [c|]; [|by apply good_ret]. destruct (InFlight.accepts (flight s) request) eqn:E; [|by apply good_ret].
    eapply good_seq; [done|apply good_commit; [done|by apply Hc]|]. intros [] s1 Hok1. by apply good_ret.
  - intros got s1 Hok1. apply good_flight_step; [done|]. intros f d f' E. destruct (stopping s).
    + by eapply stopped_decided.
    + by eapply published_decided.
Qed.

Lemma good_dispatch_finish hand s cut : ok hand s -> good hand s (dispatch_finish cut s) (fun _ => hand).
Proof.
  intros Hok. rewrite /dispatch_finish. apply good_get. cbv zeta. destruct (hand_on (flight s)) as [request f] eqn:E.
  eapply good_seq; [done|apply good_keep_flight; [done|]|].
  - rewrite /hand_on in E. destruct (running_item (flight s)) as [r|] eqn:Er; simplify_eq; rewrite ?Er //.
  - intros [] s1 Hok1. apply good_quiet; [done|]. quiet_split.
Qed.

Lemma good_finished hand s request reported panicked cut now :
  ok hand s -> good hand s (finished request reported panicked cut now s) (fun _ => hand).
Proof.
  intros Hok. rewrite /finished. apply good_get.
  destruct (InFlight.running (flight s)) as [[[running current] published]|]; [|by apply ledger_skip].
  case_bool_decide; simpl; [|by apply ledger_skip].
  destruct (if _ && _ then cut else None); [by apply good_dispatch_finish|].
  have [Hs _] := Hok. have Hg := shape_group s Hs. rewrite /end_.
  destruct (running_of (flight s) request) as [r|] eqn:E.
  - apply running_of_Some in E as [Er _]. rewrite Er in Hg.
    eapply good_seq; [done|apply (good_take_flight hand s _ (run_ids (item r))); [done..|]|].
    { by rewrite /flight_ids Er. }
    intros [] s1 Hok1. simpl.
    eapply good_seq; [done|apply good_take_watch_answer; [apply program_ended_law|done]|]. intros [] s2 Hok2.
    eapply good_seq; [done|by apply good_query_answer|]. intros [] s3 Hok3.
    destruct (cur_group (item r)) as [g|]; [|by apply ledger_skip]. by apply good_end_group.
  - eapply good_seq; [done|by apply good_keep_flight|]. intros [] s1 Hok1. by apply ledger_skip.
Qed.

Lemma set_follow_unanswered F s ids : waits_for (follow_watch s) = ids ++ waits_for (watch F) ->
  unanswered s ≡ₚ ids ++ unanswered (set_follow F s).
Proof. exact (set_watch_unanswered (watch F) s ids). Qed.

Lemma release_groups_kept F nodes A :
  let '(F', A') := release_groups F nodes A in
  watch F' = watch F /\ applied_answers A' = applied_answers A.
Proof. rewrite /release_groups. repeat case_match; simplify_eq; done. Qed.

Lemma good_released_nodes hand s nodes anchors objects now :
  ok hand s -> good hand s (released nodes anchors objects now s) (fun _ => hand).
Proof.
  intros Hok. rewrite /released.
  eapply good_seq; [done|by apply good_quiet, quiet_modify|]. intros [] s1 Hok1.
  eapply good_seq; [done|by apply good_quiet, quiet_modify|]. intros [] s2 Hok2.
  apply good_get. destruct (release_text _ _ _) as [r t].
  eapply good_seq; [done|instantiate (1 := fun _ => hand)|].
  { have [Hs2 _] := Hok2. apply (good_modify _ _ _ []); [done|by apply set_facts_shape|done..]. }
  intros [] s3 Hok3. eapply good_seq; [done|apply good_quiet; [done|rewrite /emit_ranges; quiet_split]|].
  intros [] s4 Hok4. apply good_get. cbv zeta.
  set (E := match watch_kept _ with Some _ => _ | None => _ end).
  have HE : waits_for (follow_watch s4) = map answered_by (applied_answers E.2) ++ waits_for (watch E.1).
  { rewrite /E. destruct (watch_kept (watch (following (facts s4)))) as [open|]; [|done]. case_bool_decide; [|done].
    by destruct (end_watch_kept (follow_watch s4) (following (facts s4)) "its node was released" Applied_default). }
  clearbody E. destruct E as [F A]. have Hr := release_groups_kept F nodes A.
  destruct (release_groups F nodes A) as [F' A']. destruct Hr as [Hw Ha]. simpl in HE. rewrite -Hw -Ha in HE.
  eapply good_seq; [done|apply good_modify with (ids := map answered_by (applied_answers A'))|].
  - done.
  - have [Hs4 _] := Hok4. by apply set_facts_shape.
  - done.
  - by apply set_follow_unanswered.
  - intros [] s5 Hok5. eapply good_seq; [done|by apply subscription_effects_good|]. intros [] s6 Hok6.
    by apply good_quiet, quiet_modify.
Qed.

Lemma answer_idle_quiet : quiet answer_idle.
Proof. rewrite /answer_idle. quiet_split; done. Qed.
#[export] Hint Resolve answer_idle_quiet : quiet.
