(* ===== verification/OutpostQueries.v ===== *)
(** Every query the outpost takes in is answered exactly once ([Outpost]): the
    ledger of [OutpostLedger] kept by the dispatches, the loop and every input,
    along every run. *)

From S2P Require Import Prelude Tree TextModel FocusRules Facts Messages InFlight InFlightProps OutpostEntry GapRecord Hold Intake IntakePlan IntakeProps Verdicts CaretWatch HeldReports TextFacts Follow Outpost OutpostTerm OutpostLedger.

(** ** Dispatching *)

Lemma item_mut_busy (s : Reducer) f : busy (set_flight (item_mut (flight s) f) s) = busy s.
Proof. rewrite /busy /= /item_mut. destruct (running_item (flight s)) eqn:E; rewrite ?E //. Qed.

Lemma send_keeps_busy message : keeps busy (send message).
Proof. rewrite /send. keep_split; try done; apply item_mut_busy. Qed.

#[export] Hint Resolve send_keeps_busy : keeps.

Lemma answer_watch_busy a now : keeps busy (answer_watch a now).
Proof. destruct a; simpl; keep_split. Qed.
#[export] Hint Resolve answer_watch_busy : keeps.

(** A program put in flight, its query out of the hand. *)
Lemma good_put_flight hand s f ids :
  ok (ids ++ hand) s -> busy s = false -> flight_ids f = ids ->
  match running_item f with Some r => group_ok (cur_group (item r)) | None => True end ->
  good (ids ++ hand) s (modify (set_flight f) s) (fun _ => hand).
Proof.
  intros (Hs & Hnd & Hq) Hb Hf Hg.
  have Hn : flight_ids (flight s) = [].
  { rewrite /flight_ids. rewrite /busy in Hb. destruct (running_item (flight s)); [|done].
    apply bool_decide_eq_false in Hb. by destruct Hb. }
  have P : ledger (ids ++ hand) s ≡ₚ ledger hand (set_flight f s).
  { rewrite /ledger /unanswered /= Hn Hf. change (follow_watch (set_flight f s)) with (follow_watch s).
    rewrite (Permutation_app_comm ids) -app_assoc. f_equiv. rewrite !app_assoc. f_equiv.
    by rewrite app_nil_r Permutation_app_comm. }
  rewrite /good /=. split_and!; [|by rewrite Hq P|done]. destruct Hs. by split.
Qed.

Lemma good_dispatch hand s work deadline window running group now :
  ok (option_list (option_map fst running) ++ hand) s -> busy s = false -> group_ok group ->
  good (option_list (option_map fst running) ++ hand) s
    (dispatch work deadline window running group now s) (fun _ => hand).
Proof.
  intros Hok Hb Hg. rewrite /dispatch.
  eapply (good_seq_keep busy); [done| | |].
  { instantiate (1 := fun _ => _). destruct (is_caret_key work); [|by apply ledger_skip].
    apply good_take_watch_answer; [apply end_kept_law|done]. }
  { apply keeps_if_then. rewrite /take_watch_answer. keep_split; done. }
  intros [] s1 Hok1 Hb1. apply good_get. cbv zeta. destruct (start _ _ _ _ _) as [request f] eqn:E.
  eapply good_seq; [done|apply good_put_flight; [done|by rewrite Hb1|..]|].
  - rewrite /start /= in E. injection E as _ <-. done.
  - rewrite /start /= in E. injection E as _ <-. done.
  - intros [] s2 Hok2. apply good_quiet; [done|]. quiet_split.
Qed.

Lemma budget_ids e now handling : option_list (option_map fst (budget e now handling).2) = option_list (entry_qid e).
Proof. rewrite /budget /entry_qid. destruct (entry_item e) as [| |[] ?| | | | | |]; done. Qed.

Lemma good_dispatch_entry hand s e handling batch group now :
  ok (option_list (entry_qid e) ++ hand) s -> busy s = false -> group_ok group ->
  good (option_list (entry_qid e) ++ hand) s (dispatch_entry e handling batch group now s) (fun _ => hand).
Proof.
  intros Hok Hb Hg. rewrite /dispatch_entry. apply good_get.
  have Hids := budget_ids e now (handling_deadline s). destruct (budget e now _) as [deadline running]. simpl in Hids.
  rewrite -Hids in Hok |- *.
  eapply (good_seq_keep busy); [done|apply good_quiet; [done|quiet_split; done]| |].
  { keep_split; done. }
  intros [] s1 Hok1 Hb1. apply good_dispatch; [done|by rewrite Hb1|done].
Qed.

Lemma good_start_entry hand s e handling group now :
  ok hand s -> busy s = false -> no_qid e -> group_ok group ->
  good hand s (start_entry e handling group now s) (fun _ => hand).
Proof.
  intros Hok Hb Hq Hg. rewrite /start_entry. apply good_get.
  have H := good_dispatch_entry hand s e. rewrite Hq /= in H. by apply H.
Qed.

Lemma good_put_intake hand s i ids :
  ok (ids ++ hand) s -> Intake_ok i -> closed i = false ->
  omap qid (IntakeProps.held i) ≡ₚ ids ++ omap qid (IntakeProps.held (intake s)) ->
  good (ids ++ hand) s (modify (set_intake i) s) (fun _ => hand).
Proof.
  intros (Hs & Hnd & Hq) Hi Hc P.
  have PL : ledger (ids ++ hand) s ≡ₚ ledger hand (set_intake i s).
  { rewrite /ledger /unanswered /= P. change (follow_watch (set_intake i s)) with (follow_watch s).
    by rewrite (Permutation_app_comm ids) -!app_assoc. }
  rewrite /good /=. split_and!; [by apply set_intake_shape|by rewrite Hq PL|done].
Qed.

Lemma good_send_item hand s e request_id query outcome :
  entry_item e = ItemQuery request_id query ->
  ok (option_list (entry_qid e) ++ hand) s ->
  good (option_list (entry_qid e) ++ hand) s (send (reply request_id (entry_trace e) outcome) s) (fun _ => hand).
Proof. intros E. rewrite /entry_qid E /=. intros Hok. by apply good_send_reply. Qed.

(** [Reducer::run]. *)
Lemma good_run_entry hand s e batch now :
  ok (option_list (entry_qid e) ++ hand) s -> busy s = false ->
  good (option_list (entry_qid e) ++ hand) s (run_entry e batch now s) (fun _ => hand).
Proof.
  intros Hok Hb. have Hd := good_dispatch_entry hand s e HandlingRun batch None now Hok Hb I.
  rewrite /run_entry. apply good_get. destruct (entry_item e) as [| | |request_id query|nodes anchors acknowledged| |asker behind|bound|] eqn:Ei; try done.
  - destruct query; try done; (destruct (_ <=? _); [by eapply good_send_item|done]).
  - rewrite /entry_qid Ei /= in Hok |- *. by apply good_quiet; [done|quiet_split].
  - rewrite /entry_qid Ei /= in Hok |- *. destruct (if behind then None else idle (intake s)) as [noted|] eqn:En.
    + change (modify ?f s) with (modify (set_intake (push_ahead (take_idle (intake s)).2 [noted; with_item e (ItemBarrier asker true)])) s).
      have [Hs _] := Hok. have [Hw [Hb' Hi]] := shape_intake s Hs.
      have Hn : durable (entry_item noted) = false.
      { destruct behind; [done|]. rewrite En in Hi. by apply Forall_cons in Hi as [? _]. }
      destruct (push_ahead_held (take_idle (intake s)).2 [noted; with_item e (ItemBarrier asker true)])
        as (Hok' & Hc' & Hh); [split_and!; [done..|constructor]|by apply shape_open|].
      apply (good_put_intake hand s _ []); [done..|]. rewrite Hh omap_app omap_qid_durables. csimpl.
      rewrite /entry_qid. by destruct (entry_item noted).
    + by apply good_quiet; [done|quiet_split].
  - rewrite /entry_qid Ei /= in Hok |- *. destruct (bound_reached _ _ _) as [reached g].
    eapply (good_seq_keep busy); [done|instantiate (1 := fun _ => hand)|by apply keeps_modify|].
    { have [Hs _] := Hok. apply (good_modify _ _ _ []); [done| |done..]. destruct Hs. by split. }
    intros [] s1 Hok1 Hb1. destruct reached as [[read|]|]; [|by apply ledger_skip..].
    apply (good_dispatch_entry hand s1 (with_read e (ItemGapRead (gap_read_window read)) (gap_read_stamp_us read)));
      [done|by rewrite Hb1|done].
Qed.

Lemma next_planned_ok i marks p n i' :
  Intake_ok i -> next i marks = (Some (p, n), i') -> planned_ok p.
Proof.
  intros (Hw & Hb & Hi). rewrite /next.
  have Hidle j : Forall (fun e => durable (entry_item e) = false) (option_list (idle j)) ->
    take_when_idle j = (Some (p, n), i') -> planned_ok p.
  { rewrite /take_when_idle. destruct (closed j); [done|]. destruct (idle j) as [e|]; [|done].
    intros _ [= <- _ _]. left. by eexists. }
  destruct (batch i) as [|q rest] eqn:E.
  - destruct (0 <? ready (Intake.waiting i))%nat; [|by apply Hidle]. cbn [batch].
    set (due := caret_after_update _ _ _). have Hdue : Forall waiting_ok due by rewrite /due caret_after_update_perm; apply Forall_take.
    have Hp := plan_ok due (focused marks) Hdue. destruct (plan due (focused marks)) as [|q rest]; [by apply Hidle|].
    intros [= <- _ _]. by apply Forall_cons in Hp as [? _].
  - intros [= <- _ _]. by apply Forall_cons in Hb as [? _].
Qed.

Lemma durable_no_qid e : durable (entry_item e) = false -> no_qid e.
Proof. rewrite /no_qid /entry_qid. by destruct (entry_item e). Qed.

Lemma omap_no_qid es : Forall no_qid es -> omap entry_qid es = [].
Proof. induction 1 as [|e es He H IH]; [done|]. csimpl. by rewrite He. Qed.

Lemma omap_singleton {A B} (f : A -> option B) x : omap f [x] = option_list (f x).
Proof. csimpl. by destruct (f x). Qed.

Lemma good_run_planned hand s p batch now :
  ok (omap entry_qid (planned_entries p) ++ hand) s -> busy s = false -> planned_ok p ->
  good (omap entry_qid (planned_entries p) ++ hand) s (run_planned p batch now s) (fun _ => hand).
Proof.
  intros Hok Hb Hp.
  have Hids : (exists e, p = PlannedRun e) \/ Forall no_qid (planned_entries p).
  { destruct Hp as [?|Hp]; [by left|right]. eapply Forall_impl; [exact Hp|]. apply durable_no_qid. }
  destruct p as [e|e|es]; cbn [planned_entries run_planned] in *.
  - rewrite omap_singleton in Hok |- *. by apply good_run_entry.
  - destruct Hids as [[e' He]|Hids]; [done|]. rewrite omap_no_qid // in Hok |- *.
    apply Forall_cons in Hids as [He _].
    have H := good_dispatch_entry hand s e HandlingMenu batch None now. rewrite He /= in H. by apply H.
  - destruct Hids as [[e' He]|Hids]; [done|]. rewrite omap_no_qid // in Hok |- *. simpl in *.
    eapply (good_seq_keep busy); [done|by apply good_quiet, quiet_modify|by apply keeps_modify|]. intros [] s1 Hok1 Hb1.
    destruct es as [|newest older]; [by apply ledger_skip|]. apply good_get. apply Forall_cons in Hids as [Hn Ho].
    by apply good_start_entry; [|rewrite Hb1|..].
Qed.

(** ** The loop *)

Lemma quiet_with_deferred : quiet (modify (fun s => set_flight (item_mut (flight s) (fun c => with_deferred c true)) s)).
Proof. by apply quiet_item_mut. Qed.

Lemma good_reach_watch hand s now : ok hand s -> busy s = false -> good hand s (reach_watch now s) (fun _ => hand).
Proof.
  intros Hok Hb. rewrite /reach_watch. apply good_get.
  set (r := reach (follow_watch s) (wall_us now)).
  have Hr : waits_for (follow_watch s) =
    match r.1 with ReachedEnded a => [answered_by a] | _ => [] end ++ waits_for r.2.
  { rewrite /r /reach. destruct (follow_watch s); try done; by destruct (_ <=? _). }
  destruct r as [reached w]. simpl in Hr.
  eapply (good_seq_keep busy); [done|apply good_modify with (ids := match reached with ReachedEnded a => [answered_by a] | _ => [] end)|by apply keeps_modify|].
  - done.
  - have [Hs _] := Hok. by apply set_watch_shape.
  - done.
  - by apply set_watch_unanswered.
  - intros [] s1 Hok1 Hb1. destruct reached as [|a|]; simpl in *.
    + by apply good_ret.
    + eapply good_seq; [done|by apply good_answer_watch|]. intros [] s2 Hok2. by apply good_ret.
    + eapply good_seq; [done|apply (good_dispatch hand s1 WorkPollRead _ _ None None); [done|by rewrite Hb1|done]|].
      intros [] s2 Hok2. eapply good_seq; [done|by apply good_quiet, quiet_with_deferred|].
      intros [] s3 Hok3. by apply good_ret.
Qed.

Lemma good_pump_step hand s now : ok hand s -> good hand s (pump_step now s) (fun _ => hand).
Proof.
  intros Hok. rewrite /pump_step. apply good_get. have [Hs _] := Hok.
  destruct (busy s) eqn:Hb; [by apply good_ret|]. destruct (stopping s); [by apply good_ret|].
  destruct (releasing s); [by apply good_ret|]. cbn [orb].
  destruct (owed_now s) as [o|].
  { eapply (good_seq_keep busy); [done|by apply good_quiet, quiet_modify|by apply keeps_modify|]. intros [] s1 Hok1 Hb1.
    eapply (good_seq_keep busy); [done|apply good_quiet; [done|quiet_split; done]|keep_split; done|]. intros [] s2 Hok2 Hb2.
    eapply good_seq; [done|apply (good_dispatch hand s2 _ _ _ None None); [done|by rewrite Hb2 Hb1|done]|].
    intros [] s3 Hok3. by apply good_ret. }
  have Ha := shape_after s Hs. destruct (after s) as [|[e g] rest].
  - destruct (to_drop s).
    { eapply (good_seq_keep busy); [done|by apply good_quiet, quiet_modify|by apply keeps_modify|]. intros [] s1 Hok1 Hb1.
      eapply good_seq; [done|apply (good_dispatch hand s1 _ _ _ None None); [done|by rewrite Hb1|done]|].
      intros [] s2 Hok2. by apply good_ret. }
    have H := next_held (intake s) (marks (facts s)) (shape_intake s Hs).
    destruct (next (intake s) (marks (facts s))) as [out i] eqn:En. destruct H as (Hi & Hc & P).
    have P' : omap qid (IntakeProps.held (intake s)) ≡ₚ omap entry_qid (handed out) ++ omap qid (IntakeProps.held i).
    { rewrite -omap_qid_durables -omap_app. by rewrite P. }
    eapply (good_seq_keep busy); [done|apply good_modify with (ids := omap entry_qid (handed out))|by apply keeps_modify|].
    + done.
    + apply set_intake_shape; [done..|]. rewrite Hc. by apply shape_open.
    + done.
    + by apply set_intake_unanswered.
    + intros [] s1 Hok1 Hb1. destruct out as [[p n]|].
      * apply next_planned_ok in En; [|by apply shape_intake]. rewrite /handed /= app_nil_r in Hok1 |- *.
        eapply good_seq; [done|by apply good_run_planned; [|rewrite Hb1|]|]. intros [] s2 Hok2. by apply good_ret.
      * apply good_reach_watch; [done|by rewrite Hb1].
  - apply Forall_cons in Ha as [[He Hg] Hrest].
    eapply (good_seq_keep busy); [done|by apply (set_after_ok hand s rest)|by apply keeps_modify|]. intros [] s1 Hok1 Hb1.
    eapply good_seq; [done|by apply good_start_entry; [|rewrite Hb1|..]|]. intros [] s2 Hok2. by apply good_ret.
Qed.

Lemma good_pump hand s now : ok hand s -> good hand s (pump now s) (fun _ => hand).
Proof.
  intros Hok. rewrite /pump. apply good_get.
  eapply good_seq with (mid := fun _ => hand); [done| |intros b s1 Hok1; by apply good_ret].
  generalize (pump_measure s + 2)%nat. intros fuel. revert s Hok.
  induction fuel as [|fuel IH]; intros s Hok; simpl; [by apply good_ret|].
  eapply good_seq; [done|by apply good_pump_step|]. intros [|] s1 Hok1; [by apply IH|by apply good_ret].
Qed.

(** ** Inputs *)

Lemma cancel_keeps_none s id e : (cancel s id).1 <> None -> e ∈ entries (cancel s id).2 -> entry_qid e <> Some id.
Proof.
  rewrite /cancel. destruct (Prelude.find _ _); [|done]. intros _. rewrite /entries /= elem_of_app.
  have Hq : entry_qid e = Some id -> is_query_of id e = true.
  { rewrite /entry_qid /is_query_of. destruct (entry_item e); try done. intros [= ->]. by case_bool_decide. }
  intros [Hin|Hin] He%Hq.
  - apply list_elem_of_fmap in Hin as (w & -> & [_ Hn]%list_elem_of_In%filter_In). by rewrite He in Hn.
  - apply list_elem_of_In, in_flat_map in Hin as (p & [_ Hn]%filter_In & Hin).
    apply negb_true_iff in Hn. have : existsb (is_query_of id) (planned_entries p) = true by apply existsb_exists; eauto.
    congruence.
Qed.

Lemma held_ids i : omap qid (IntakeProps.held i) = omap entry_qid (entries i).
Proof. apply omap_qid_durables. Qed.

(** A query withdrawn is the only one of its id. *)
Lemma cancel_ids s id : Intake_ok s -> NoDup (omap qid (IntakeProps.held s)) ->
  Intake_ok (cancel s id).2 /\ closed (cancel s id).2 = closed s /\
  omap qid (IntakeProps.held s) ≡ₚ
    option_list (option_map (fun _ => id) (cancel s id).1) ++ omap qid (IntakeProps.held (cancel s id).2).
Proof.
  intros Hi Hnd. have H := cancel_held s id Hi. have Hk := cancel_keeps_none s id.
  have Hf : forall t, (cancel s id).1 = Some t -> id ∈ omap qid (IntakeProps.held s).
  { intros t. rewrite /cancel held_ids. destruct (Prelude.find _ _) as [e|] eqn:E; [|done]. intros _.
    apply find_Some in E as [Hin Hq]. apply list_elem_of_omap. exists e. split; [done|].
    rewrite /is_query_of in Hq. rewrite /entry_qid. destruct (entry_item e); try done. by case_bool_decide; subst. }
  have Hn : (cancel s id).1 = None -> (cancel s id).2 = s by rewrite /cancel; destruct (Prelude.find _ _).
  destruct (cancel s id) as [[t|] s']; simpl in *; [|by rewrite Hn].
  destruct H as (? & ? & dropped & P & Hd). split_and!; [done..|].
  specialize (Hf t eq_refl). apply (omap_Permutation qid) in P. rewrite omap_app in P.
  have Hid : Forall (fun x => x = id) (omap qid dropped).
  { clear P. induction Hd as [|i l Hi' Hd IH]; [constructor|]. csimpl. destruct i; try done.
    constructor; [by apply bool_decide_eq_true in Hi'|done]. }
  have Hnot : id ∉ omap qid (IntakeProps.held s').
  { rewrite held_ids. intros (e & He & Hq)%list_elem_of_omap. by eapply Hk. }
  rewrite P in Hf Hnd. apply NoDup_app in Hnd as (Hnd & _ & _). rewrite P.
  destruct (omap qid dropped) as [|x [|y l]]; [by apply elem_of_app in Hf as [?%elem_of_nil|]| |].
  - by apply Forall_cons in Hid as [-> _].
  - apply Forall_cons in Hid as [-> [-> _]%Forall_cons]. apply NoDup_cons in Hnd as [Hnd _]. set_solver.
Qed.

Lemma good_cancel hand s id : ok hand s ->
  good hand s ((s ← get;
    let '(trace, i) := cancel (intake s) id in
    modify (set_intake i) ;; if_some trace (fun trace => send (reply id trace NotStarted))) s) (fun _ => hand).
Proof.
  intros Hok. apply good_get. have [Hs [Hnd _]] := Hok.
  have Hnd' : NoDup (omap qid (IntakeProps.held (intake s))).
  { rewrite /ledger /unanswered in Hnd. apply NoDup_app in Hnd as (_ & _ & Hnd). by apply NoDup_app in Hnd as (? & _ & _). }
  have H := cancel_ids (intake s) id (shape_intake s Hs) Hnd'. destruct (cancel (intake s) id) as [trace i].
  simpl in H. destruct H as (Hi & Hc & P).
  eapply good_seq; [done|apply good_modify with (ids := option_list (option_map (fun _ => id) trace))|].
  - done.
  - apply set_intake_shape; [done..|]. rewrite Hc. by apply shape_open.
  - done.
  - by apply set_intake_unanswered.
  - intros [] s1 Hok1. destruct trace as [t|]; [by apply good_send_reply|by apply ledger_skip].
Qed.

Lemma set_gap_good hand s g : ok hand s -> good hand s (modify (set_gap g) s) (fun _ => hand).
Proof.
  intros Hok. have [Hs _] := Hok. apply (good_modify _ _ _ []); [done| |done|].
  - destruct Hs. by split.
  - by apply set_intake_unanswered.
Qed.

Lemma good_gap_bound hand s : ok hand s -> good hand s (gap_bound s) (fun _ => hand).
Proof.
  intros Hok. rewrite /gap_bound. apply good_get. destruct (stopping s); [by apply ledger_skip|].
  destruct (at_bound _) as [at_ g].
  eapply (good_seq_keep flight); [done|by apply set_gap_good|by apply keeps_modify|]. intros [] s1 Hok1 Hf.
  destruct at_ as [a|]; [|by apply ledger_skip]. simpl. destruct (Window.new _); [|by apply good_quiet, quiet_modify].
  eapply good_seq; [done|apply good_keep_flight; [done|by rewrite Hf]|].
  intros [] s2 Hok2. apply good_quiet; [done|]. quiet_split.
Qed.

Lemma good_gap_bound_tested hand s request related title now :
  ok hand s -> (forall c, title = Some c -> commit_ok s request c = true) ->
  good hand s (gap_bound_tested request related title now s) (fun _ => hand).
Proof.
  intros Hok Ht. rewrite /gap_bound_tested. apply good_get.
  destruct (is_open _); cbn [negb]; [|by apply ledger_skip]. destruct related; cbn [negb]; [|by apply set_gap_good].
  eapply good_seq with (mid := fun _ => hand); [done| |].
  { destruct title as [c|]; [|by apply ledger_skip]. apply good_commit; [done|by apply Ht]. }
  intros [] s1 Hok1. apply good_get.
  have Hpass := set_gap_good hand s1 (bound_passed (gap (intake s1))) Hok1.
  destruct (trace (gap (intake s))) as [t|]; [|done]. destruct (bound_number (gap (intake s))) as [b|]; [|done].
  destruct (_ && _); [|done].
  have [Hs1 _] := Hok1. rewrite /push_gap_bound.
  have H := push_held (intake s1) (own (ItemGapBound b) t (observed_us now)) (marks (facts s1)) (shape_intake s1 Hs1) eq_refl (shape_open s1 Hs1).
  destruct (Intake.push _ _ _) as [unparked i]. destruct H as (Hi & Hc & gone & _ & Hu & P).
  apply (good_put_intake hand s1 i []); [done..|]. simpl in *.
  rewrite P omap_app (omap_qid_uia gone Hu). done.
Qed.

(** A query taken in: its id enters the ledger. *)
Lemma good_ask s e id :
  ok [] s -> entry_qid e = Some id -> id ∉ unanswered s ->
  let s0 := set_queries ({[id]} ∪ queries s) s in
  ok [id] s0 /\ ledger [id] s0 = id :: ledger [] s /\
  good [id] s0 (take_entry_in e SourceOther s) (fun _ => []).
Proof.
  intros (Hs & Hnd & Hq) Hid Hnew s0.
  have Hu : unanswered s0 = unanswered s by done.
  have Hok0 : ok [id] s0.
  { split_and!; [by destruct Hs; split| |].
    - apply NoDup_cons. by rewrite Hu.
    - rewrite /s0 /= Hq. done. }
  split_and!; [done..|]. rewrite /entry_qid in Hid. destruct (entry_item e) as [| | |id' query| | | | |] eqn:Ei; try done.
  injection Hid as ->. rewrite /take_entry_in Ei. cbn [destroy_seen].
  rewrite /push_entry Ei.
  have Hrest : good [id] s0
    ((modify (open_gap e) ;;
      s ← get;
      let '(unparked, i) := Intake.push (intake s) e (marks (facts s)) in
      modify (set_intake i) ;; match unparked with [] => skip | _ => emit (Unpark unparked) end) s0) (fun _ => []).
  { eapply good_seq; [done|apply good_quiet; [done|apply open_gap_quiet]|]. intros [] s2 Hok2.
    have H := good_intake_push [] s2 e. rewrite /entry_qid /marked_ok Ei /= in H. by apply H. }
  have Hadd : (if stopping s then s else set_queries ({[id]} ∪ queries s) s) = s0 by rewrite (shape_on s Hs).
  set (k := modify (open_gap e) ;; _) in Hrest |- *.
  clearbody k. rewrite /mbind /M_bind /skip /mret /M_ret /modify /= Hadd.
  destruct (k s0) as [[[] s1] es]. by rewrite /= app_nil_r.
Qed.

Definition asked_by (i : Input) : list RequestId :=
  match i with InputEntry e _ => option_list (entry_qid e) | _ => [] end.

(** What the shell gives the reducer before it closes: queries come from Core,
    and a commit the reducer takes holds what it may. *)
Definition input_ok (s : Reducer) (i : Input) : bool :=
  match i with
  | InputEntry e source => taken_ok e source
  | Commit request change => implb (reducer_accepts s request) (commit_ok s request change)
  | InputPublished request (Some change) _ => implb (reducer_accepts s request) (commit_ok s request change)
  | GapBoundTested request _ (Some change) => commit_ok s request change
  | InputClose => false
  | _ => true
  end.

Lemma without_listener_copies h : Forall copy_ok (held_copies h) ->
  Forall copy_ok (without_listener h).1 /\ Forall copy_ok (held_copies (without_listener h).2).
Proof. intros H. split; [exact H|constructor]. Qed.

Lemma hooked_copies h : Forall copy_ok (held_copies h) -> Forall copy_ok (held_copies (hooked h)).
Proof. rewrite /hooked /held_copies. destruct (hold_state h) eqn:E; simpl; rewrite ?E //. Qed.

Lemma implb_ok a b : implb a b = true -> a = true -> b = true.
Proof. by destruct a. Qed.

Lemma good_handle s i now :
  ok [] s -> input_ok s i = true -> asked_by i = [] -> good [] s (handle i now s) (fun _ => []).
Proof.
  intros Hok Hi Ha. have [Hs _] := Hok. have Hh := shape_hold s Hs.
  destruct i as [e source| | |through|id|generation change|request change|request bound|request past
    |request reported panicked cut|nodes anchors objects| |deadline| |request related title
    |request verdict window|request change then_abandon|]; simpl in Hi, Ha |- *.
  - apply good_take_entry_in; [done..|]. by destruct (entry_qid e).
  - change (modify ?f s) with (modify (set_hold (hooked (hold s))) s). by apply set_hold_ok, hooked_copies.
  - apply good_get. destruct (without_listener_copies (hold s) Hh) as [H1 H2]. destruct (without_listener _) as [es h].
    eapply good_seq; [done|by apply set_hold_ok|]. intros [] s1 Hok1. by apply good_push_all.
  - apply good_get. have Hr := release_hold_copies (hold s) (Some through) Hh.
    rewrite /forwarding_ended /release_hold. destruct Hr as [Hh' Hr].
    eapply good_seq; [done|by apply set_hold_ok|]. intros [] s1 Hok1. by apply good_released.
  - by apply good_cancel.
  - apply good_quiet; [done|apply record_verdict_quiet].
  - apply good_get. destruct (reducer_accepts s request); [by apply good_commit|by apply ledger_skip].
  - change (modify ?f s) with (modify (set_flight (armed (flight s) request (micros bound))) s).
    apply good_keep_flight; [done|]. rewrite /armed /running_of.
    destruct (running_item (flight s)) as [r|] eqn:E; [|by rewrite E].
    case_bool_decide; [|by rewrite E]. destruct (is_published _); by rewrite ?E.
  - apply good_flight_step; [done|]. intros. by eapply walk_returned_decided.
  - by apply good_finished.
  - by apply good_released_nodes.
  - by apply good_quiet, quiet_modify.
  - by apply good_quiet, quiet_modify.
  - by apply good_gap_bound.
  - apply good_gap_bound_tested; [done|]. by intros c ->.
  - apply good_get. destruct (stopping s); [by apply ledger_skip|].
    eapply good_seq; [done|apply good_quiet; [done|]|].
    + destruct (is_running s request); [|apply quiet_skip]. destruct verdict as [[]|]; try apply quiet_skip.
      destruct window; [apply hang_seen_quiet|apply quiet_skip].
    + intros [] s1 Hok1. apply good_flight_step; [done|]. intros. by eapply judged_decided.
  - apply good_walk_published; [done|]. intros c ->. by apply implb_ok.
  - done.
Qed.

(** ** Runs *)

Inductive Step := StepInput (i : Input) (now : Now) | StepTick (now : Now).

Definition asked (step : Step) : list RequestId :=
  match step with StepInput i _ => asked_by i | StepTick _ => [] end.

Definition take_step (s : Reducer) (step : Step) : list Effect * Reducer :=
  match step with StepInput i now => input s i now | StepTick now => tick s now end.

Definition step_ok (s : Reducer) (step : Step) : bool :=
  match step with StepInput i _ => input_ok s i | StepTick _ => true end.

Fixpoint run_steps (s : Reducer) (steps : list Step) : list Effect * Reducer :=
  match steps with
  | [] => ([], s)
  | step :: rest =>
      let '(es, s) := take_step s step in
      let '(es', s) := run_steps s rest in (es ++ es', s)
  end.

Fixpoint run_ok (s : Reducer) (steps : list Step) : bool :=
  match steps with
  | [] => true
  | step :: rest => step_ok s step && run_ok (take_step s step).2 rest
  end.

Lemma answered_changed before s es : answered (changed before s es) = answered es.
Proof. rewrite /changed. repeat case_bool_decide; rewrite ?answered_app //= app_nil_r //. Qed.

(** A step's method, then the pump, the idle answer and the shell's copies. *)
Lemma good_transition hand s0 s m now :
  ok hand s0 -> good hand s0 (m s) (fun _ => []) ->
  shape (transition m now s).2 /\ queries (transition m now s).2 = list_to_set (unanswered (transition m now s).2) /\
  ledger hand s0 ≡ₚ answered (transition m now s).1 ++ unanswered (transition m now s).2.
Proof.
  intros Hok Hm.
  have H : good hand s0 ((m ;; pump now ;; answer_idle) s) (fun _ => []).
  { eapply good_bind_from; [done..|]. intros Hok1. eapply good_seq; [done|by apply good_pump|].
    intros [] s2 Hok2. apply good_quiet; [done|apply answer_idle_quiet]. }
  rewrite /transition. destruct ((m ;; pump now ;; answer_idle) s) as [[[] s'] es]. simpl.
  rewrite answered_changed. exact H.
Qed.

Lemma good_tick s now : ok [] s -> good [] s (tick_now now s) (fun _ => []).
Proof.
  intros Hok. rewrite /tick_now. apply good_get.
  eapply good_seq with (mid := fun _ => []); [done| |].
  - destruct (negb _); [|by apply ledger_skip]. apply good_flight_step; [done|]. intros. by eapply judge_decided.
  - intros [] s1 Hok1. apply good_get. destruct (_ && _); [by apply good_gap_bound|by apply ledger_skip].
Qed.

Lemma step_ledger s step :
  ok [] s -> step_ok s step = true -> NoDup (asked step ++ unanswered s) ->
  ok [] (take_step s step).2 /\
  asked step ++ unanswered s ≡ₚ answered (take_step s step).1 ++ unanswered (take_step s step).2.
Proof.
  intros Hok Hstep Hnd.
  have Hfin : forall hand s0 m now, ok hand s0 -> ledger hand s0 = asked step ++ unanswered s ->
    good hand s0 (m s) (fun _ => []) -> take_step s step = transition m now s ->
    ok [] (take_step s step).2 /\
    asked step ++ unanswered s ≡ₚ answered (take_step s step).1 ++ unanswered (take_step s step).2.
  { intros hand s0 m now Hok0 El Hg ->. destruct (good_transition hand s0 s m now Hok0 Hg) as (? & ? & P).
    rewrite El in P. split; [|done]. split_and!; [done| |done].
    rewrite P in Hnd. by apply NoDup_app in Hnd as (_ & _ & ?). }
  destruct step as [i now|now]; simpl in *.
  - destruct (asked_by i) as [|id l] eqn:Ea; [by eapply (Hfin [] s (handle i now) now); [| |apply good_handle|]|].
    destruct i as [e source| | | | | | | | | | | | | | | | | ]; try done. simpl in Ea.
    destruct (entry_qid e) as [id'|] eqn:Eq; [|done]. injection Ea as -> <-.
    have Hsrc : source = SourceOther.
    { apply andb_true_iff in Hstep as [_ Hstep]. by destruct source; rewrite ?Eq in Hstep. }
    subst source. apply NoDup_cons in Hnd as [Hnew _]. destruct (good_ask s e id Hok Eq Hnew) as (Hok0 & El & Hg).
    by eapply (Hfin _ _ _ now Hok0 El Hg).
  - by eapply (Hfin [] s (tick_now now) now); [| |apply good_tick|].
Qed.

Lemma ok_default : ok [] Reducer_default.
Proof. split_and!; [split; done || constructor|constructor|done]. Qed.

Lemma run_ledger steps : forall s,
  ok [] s -> run_ok s steps = true -> NoDup (flat_map asked steps ++ unanswered s) ->
  ok [] (run_steps s steps).2 /\
  flat_map asked steps ++ unanswered s ≡ₚ answered (run_steps s steps).1 ++ unanswered (run_steps s steps).2.
Proof.
  induction steps as [|step steps IH]; intros s Hok Hrun Hnd; simpl in *; [done|].
  apply andb_true_iff in Hrun as [Hstep Hrun].
  have Hnd1 : NoDup (flat_map asked steps ++ asked step ++ unanswered s).
  { by rewrite app_assoc (Permutation_app_comm _ (asked step)). }
  have [_ [_ Hnd2]] := proj1 (NoDup_app _ _) Hnd1.
  destruct (step_ledger s step Hok Hstep Hnd2) as [Hok1 P1].
  destruct (take_step s step) as [es s1]. simpl in *.
  have Hnd3 : NoDup (flat_map asked steps ++ unanswered s1).
  { rewrite P1 in Hnd1. rewrite (Permutation_app_comm (answered es)) app_assoc in Hnd1. by apply NoDup_app in Hnd1 as (? & _). }
  destruct (IH s1 Hok1 Hrun Hnd3) as [Hok2 P2]. destruct (run_steps s1 steps) as [es' s2]. simpl in *.
  split; [done|]. rewrite answered_app -(app_assoc (answered es)) -P2.
  rewrite (Permutation_app_comm (asked step)) -app_assoc P1 !app_assoc.
  by rewrite (Permutation_app_comm (flat_map _ _)).
Qed.


(** ** Runs of it *)

Section example.
Let at_ (n : N) : Now := {| now_at := Duration.from_micros n; observed_us := n; wall_us := n |}.
Let id (n : N) : RequestId := {| asker := AskerReducer; request_number := n |}.
Let trace (n : N) : TraceId := {| trace_number := n |}.
Let ask (n : N) (query : Query) : Step :=
  StepInput (InputEntry (own (ItemQuery (id n) query) (trace n) n) SourceOther) (at_ n).
Let request : Request := {| generation := 0; number := 1 |}.
Let committed (message : OutpostToCore) : Change := {|
  result := Some message; report := None; follow := None; change_foreground := None; dialog := None;
  change_value_from_selection := None; change_focus_path := None; change_element := None;
  owed_done := None; change_caret_read := None; change_watch := None; drop_system_caret := false;
  absorb := None; clear_redirect := false; change_states := None; change_gap := [];
  noted_caret := None; replaced := None; change_texts := []; change_found := None |}.

(** Five queries: the first answered by its program, the second by its program's
    end, the third withdrawn, the fourth abandoned at its deadline, and the
    last in flight. *)
Definition example_steps : list Step :=
  [ask 1 FocusNow_; ask 2 (DumpTree false); ask 3 (DumpTree true); ask 4 (DumpTree true); ask 5 FocusNow_;
   StepInput (Commit request (committed (reply (id 1) (trace 1) Gone))) (at_ 6);
   StepInput (Finished request true false None) (at_ 7);
   StepInput (Cancel (id 3)) (at_ 8);
   StepInput (Finished {| generation := 0; number := 2 |} false false None) (at_ 9);
   StepTick (at_ 100000000)].

(** A program that answers a query commits an event, and is abandoned before it
    commits the reply. *)
Definition event_before_reply : list Step :=
  [ask 1 (TextQuery (NodeIds.new 7) (TerminalColours 0 1));
   StepInput (Commit request (committed (Event (trace 1) 2 Uia None None EventTiming_default
     (TextChanged (NodeIds.new 7))))) (at_ 3);
   StepTick (at_ 100000000)].

End example.


