(* ===== verification/Recorder.v ===== *)
(** * The flight recorder

    [src/crates/verbatim-core/src/flight_recorder.rs]: the bounded window of
    recent reducer inputs, kept as segments that each start at a checkpoint,
    with the theorems that the window stays within its bounds, always replays
    to the reducer's current state, and holds at most three checkpoints. A
    [usize] is an [N] with saturation at 64 bits; [VecDeque] is a list, oldest
    first. *)
From Stdlib Require Import NArith.
From stdpp Require Import base list.
From S2P Require Import Prelude.
Local Open Scope N_scope.

Section recorder.
Context {T S : Type}.

(** [Segment]: one run of entries recorded after a checkpoint. *)
Record RunSegment := {
  seg_checkpoint : S;
  seg_entries : list (T * N);
  seg_bytes : N;
}.

(** [Segment::starting_at]. *)
Definition starting_at (checkpoint : S) : RunSegment :=
  {| seg_checkpoint := checkpoint; seg_entries := []; seg_bytes := 0 |}.

(** [FlightRecorder]. *)
Record FlightRecorder := {
  rec_oldest : RunSegment;
  rec_newer : list RunSegment;
  rec_max_entries : N;
  rec_max_bytes : N;
  rec_entries : N;
  rec_bytes : N;
}.

(** [FlightRecorder::new]; [None] is the panic of its assertion. *)
Definition new_recorder (max_entries max_bytes : N) (initial : S) : option FlightRecorder :=
  if (0 <? max_entries) && (0 <? max_bytes) then
    Some {| rec_oldest := starting_at initial; rec_newer := [];
            rec_max_entries := max_entries; rec_max_bytes := max_bytes;
            rec_entries := 0; rec_bytes := 0 |}
  else None.

(** [usize::div_ceil(2)]. *)
Definition half (n : N) : N := n / 2 + n mod 2.

(** The push of [record] on the newest segment. *)
Definition push_entry (entry : T) (bytes : N) (newest : RunSegment) : RunSegment :=
  {| seg_checkpoint := seg_checkpoint newest;
     seg_entries := seg_entries newest ++ [(entry, bytes)];
     seg_bytes := seg_bytes newest +|64| bytes |}.

(** [newer.back_mut().unwrap_or(&mut oldest)] changed by [f]: the new oldest
    and newer segments, and the changed segment. *)
Fixpoint on_newest (f : RunSegment -> RunSegment) (oldest : RunSegment)
    (newer : list RunSegment) : RunSegment * list RunSegment * RunSegment :=
  match newer with
  | [] => (f oldest, [], f oldest)
  | next :: rest =>
      let '(next, rest, newest) := on_newest f next rest in
      (oldest, next :: rest, newest)
  end.

(** The [while] loop of [record]: drops the oldest segment while the window is
    over either bound and another segment follows. *)
Fixpoint drop_over (max_entries max_bytes : N) (oldest : RunSegment)
    (newer : list RunSegment) (entries bytes : N) : FlightRecorder :=
  let kept := {| rec_oldest := oldest; rec_newer := newer;
                 rec_max_entries := max_entries; rec_max_bytes := max_bytes;
                 rec_entries := entries; rec_bytes := bytes |} in
  if (max_entries <? entries) || (max_bytes <? bytes) then
    match newer with
    | [] => kept
    | next :: rest =>
        drop_over max_entries max_bytes next rest
          (entries - N.of_nat (length (seg_entries oldest))) (bytes - seg_bytes oldest)
    end
  else kept.

(** [FlightRecorder::record]; [checkpoint] is the state right after the entry,
    which the code's closure returns. *)
Definition record (entry : T) (bytes : N) (checkpoint : S) (r : FlightRecorder) : FlightRecorder :=
  let '(oldest, newer, newest) :=
    on_newest (push_entry entry bytes) (rec_oldest r) (rec_newer r) in
  let newer :=
    if (half (rec_max_entries r) <=? N.of_nat (length (seg_entries newest)))
       || (half (rec_max_bytes r) <=? seg_bytes newest)
    then newer ++ [starting_at checkpoint] else newer in
  drop_over (rec_max_entries r) (rec_max_bytes r) oldest newer
    (rec_entries r +|64| 1) (rec_bytes r +|64| bytes).

(** [FlightRecorder::checkpoint] and [FlightRecorder::entries]. *)
Definition checkpoint (r : FlightRecorder) : S := seg_checkpoint (rec_oldest r).
Definition kept_entries (r : FlightRecorder) : list T :=
  flat_map (fun seg => (seg_entries seg).*1) (rec_oldest r :: rec_newer r).

(** Every checkpoint the recorder holds. *)
Definition checkpoints (r : FlightRecorder) : list S :=
  seg_checkpoint <$> rec_oldest r :: rec_newer r.

(** A reducer with the recorder beside it: each input is reduced by [step] and
    recorded with its estimated size and the state it leads to, as
    [ReducerRecorder::record_input] does. *)
Fixpoint record_run (step : S -> T -> S) (s : S) (inputs : list (T * N)) (r : FlightRecorder) :
    S * FlightRecorder :=
  match inputs with
  | [] => (s, r)
  | (entry, bytes) :: inputs =>
      record_run step (step s entry) inputs (record entry bytes (step s entry) r)
  end.

(** ** The window as a list of segments *)

Definition segments (r : FlightRecorder) : list RunSegment := rec_oldest r :: rec_newer r.
Definition count (seg : RunSegment) : N := N.of_nat (length (seg_entries seg)).
Definition size (seg : RunSegment) : N := foldr N.add 0 (seg_entries seg).*2.
Definition total (f : RunSegment -> N) (segs : list RunSegment) : N := foldr N.add 0 (f <$> segs).

Lemma total_app f a b : total f (a ++ b) = total f a + total f b.
Proof. unfold total. induction a as [|x a IH]; csimpl; [lia|]. rewrite IH. lia. Qed.

Lemma total_cons f x a : total f (x :: a) = f x + total f a.
Proof. done. Qed.

Lemma total_single f x : total f [x] = f x.
Proof. unfold total; csimpl. lia. Qed.

Lemma on_newest_split f oldest newer :
  exists init last, oldest :: newer = init ++ [last] /\
    let '(o, n, newest) := on_newest f oldest newer in
    o :: n = init ++ [f last] /\ newest = f last.
Proof.
  revert oldest. induction newer as [|next rest IH]; intros oldest; simpl.
  { by exists [], oldest. }
  destruct (IH next) as (init & last & Heq & Hf).
  destruct (on_newest f next rest) as [[o n] newest]. destruct Hf as [Hon ->].
  exists (oldest :: init), last. simpl. by rewrite Heq Hon.
Qed.

Lemma half_bounds n : 0 < n -> 0 < half n <= n /\ n <= 2 * half n.
Proof.
  intros Hn. unfold half. pose proof (N.div_mod n 2 ltac:(done)) as Hd.
  pose proof (N.mod_upper_bound n 2 ltac:(done)) as Hm.
  revert Hd Hm. generalize (n / 2), (n mod 2). intros q m. lia.
Qed.

(** ** The invariant *)

(** The sizes and counts are what the segments hold; the window is within its
    bounds; the newest segment has not reached half of either, and every other
    one has. *)
Record wf (r : FlightRecorder) : Prop := {
  wf_max : 0 < rec_max_entries r < U64_MAX /\ 0 < rec_max_bytes r;
  wf_bytes : Forall (fun seg => seg_bytes seg = size seg) (segments r);
  wf_entries : rec_entries r = total count (segments r);
  wf_total : rec_bytes r = total size (segments r);
  wf_bounds : rec_entries r <= rec_max_entries r /\ rec_bytes r <= rec_max_bytes r;
  wf_shape : exists closed open, segments r = closed ++ [open] /\
    count open < half (rec_max_entries r) /\ size open < half (rec_max_bytes r) /\
    Forall (fun seg => half (rec_max_entries r) <= count seg
                       \/ half (rec_max_bytes r) <= size seg) closed;
}.

(** The part of [wf] that holds before the oldest segments are dropped. *)
Record nearly (me mb : N) (segs : list RunSegment) (entries bytes : N) : Prop := {
  ny_bytes : Forall (fun seg => seg_bytes seg = size seg) segs;
  ny_entries : entries = total count segs;
  ny_total : bytes = total size segs;
  ny_shape : exists closed open, segs = closed ++ [open] /\
    count open < half me /\ size open < half mb /\
    Forall (fun seg => half me <= count seg \/ half mb <= size seg) closed;
}.

Lemma nearly_wf me mb oldest newer entries bytes :
  0 < me < U64_MAX -> 0 < mb -> nearly me mb (oldest :: newer) entries bytes ->
  (me <? entries) || (mb <? bytes) = false ->
  wf {| rec_oldest := oldest; rec_newer := newer; rec_max_entries := me;
        rec_max_bytes := mb; rec_entries := entries; rec_bytes := bytes |}.
Proof.
  intros Hme Hmb [] [H1 H2]%orb_false_iff. apply N.ltb_ge in H1, H2. by split.
Qed.

Lemma drop_over_wf me mb oldest newer entries bytes :
  0 < me < U64_MAX -> 0 < mb ->
  nearly me mb (oldest :: newer) entries bytes ->
  let r := drop_over me mb oldest newer entries bytes in
  wf r /\ rec_max_entries r = me /\ rec_max_bytes r = mb /\
  exists dropped, oldest :: newer = dropped ++ segments r.
Proof.
  intros Hme Hmb. revert oldest entries bytes.
  induction newer as [|next rest IH]; intros oldest entries bytes Hny; simpl;
    (destruct ((me <? entries) || (mb <? bytes)) eqn:Hover;
      [|split_and!; [by apply nearly_wf|done..|by exists []]]);
    destruct Hny as [Hb He Ht (closed & open & Hsegs & Hc & Hs & Hclosed)].
  - assert (closed = [] /\ oldest = open) as [-> ->].
    { destruct closed as [|? closed]; [by simplify_eq/=|]. by destruct closed. }
    rewrite total_single in He. rewrite total_single in Ht.
    pose proof (half_bounds me). pose proof (half_bounds mb).
    apply orb_true_iff in Hover as [?%N.ltb_lt|?%N.ltb_lt]; lia.
  - destruct closed as [|c closed]; [by destruct rest|]. simplify_eq/=.
    inversion_clear Hclosed as [|?? Hc0 Hclosed'].
    inversion_clear Hb as [|?? Hb0 Hb'].
    destruct (IH next (total count (c :: next :: rest) - count c)
      (total size (c :: next :: rest) - seg_bytes c)) as (Hwf & ? & ? & dropped & Heq).
    { split; [done|rewrite (total_cons _ c); lia|rewrite (total_cons _ c); lia|].
      by exists closed, open. }
    split_and!; [done..|]. exists (c :: dropped). exact (f_equal (cons c) Heq).
Qed.

Lemma count_push e b seg : count (push_entry e b seg) = count seg + 1.
Proof. unfold count; simpl. rewrite length_app. simpl. lia. Qed.

Lemma size_push e b seg : size (push_entry e b seg) = size seg + b.
Proof.
  unfold size; simpl. rewrite fmap_app. induction (seg_entries seg).*2 as [|x l IH]; simpl in *; lia.
Qed.

Lemma starting_at_empty s : count (starting_at s) = 0 /\ size (starting_at s) = 0.
Proof. done. Qed.

(** The window after [record] and before its loop, from the window before. *)
Definition pushed (entry : T) (bytes : N) (s : S) (r : FlightRecorder) : list RunSegment :=
  let '(oldest, newer, newest) :=
    on_newest (push_entry entry bytes) (rec_oldest r) (rec_newer r) in
  oldest :: (if (half (rec_max_entries r) <=? N.of_nat (length (seg_entries newest)))
                || (half (rec_max_bytes r) <=? seg_bytes newest)
             then newer ++ [starting_at s] else newer).

(** What one [record] makes of the window: the entry goes to the newest
    segment, and a new one starts at [s] when that one has reached half. *)
Lemma pushed_cases e b s r :
  wf r -> b + rec_max_bytes r <= U64_MAX ->
  exists init last tail, segments r = init ++ [last] /\
    pushed e b s r = (init ++ [push_entry e b last]) ++ tail /\
    (tail = [] \/ tail = [starting_at s]) /\
    nearly (rec_max_entries r) (rec_max_bytes r) (pushed e b s r)
      (rec_entries r +|64| 1) (rec_bytes r +|64| b).
Proof.
  intros [Hmax Hb He Ht Hbd (closed & open & Hsegs & Hc & Hs & Hclosed)] Hfit.
  unfold pushed.
  destruct (on_newest_split (push_entry e b) (rec_oldest r) (rec_newer r))
    as (init & last & Heq & Hon).
  destruct (on_newest _ _ _) as [[o n] newest]. destruct Hon as [Hon ->].
  assert (init = closed /\ last = open) as [-> ->].
  { unfold segments in Hsegs. rewrite Hsegs in Heq. by apply app_inj_tail in Heq as [<- <-]. }
  rewrite Hsegs total_app total_single in He. rewrite Hsegs total_app total_single in Ht.
  rewrite Hsegs in Hb. rewrite Forall_app Forall_singleton in Hb. destruct Hb as [Hb1 Hb2].
  assert (seg_bytes (push_entry e b open) = size (push_entry e b open)) as Hpb.
  { rewrite size_push -Hb2. simpl. apply saturating_add_exact. lia. }
  assert (rec_entries r +|64| 1 = rec_entries r + 1) as Hre.
  { apply saturating_add_exact. lia. }
  assert (rec_bytes r +|64| b = rec_bytes r + b) as Hrb.
  { apply saturating_add_exact. lia. }
  pose proof (half_bounds (rec_max_entries r)). pose proof (half_bounds (rec_max_bytes r)).
  change (N.of_nat (length (seg_entries (push_entry e b open)))) with (count (push_entry e b open)).
  rewrite Hpb Hre Hrb. destruct (_ || _) eqn:Hclose.
  - exists closed, open, [starting_at s].
    assert (o :: n ++ [starting_at s] = (closed ++ [push_entry e b open]) ++ [starting_at s]) as ->.
    { by rewrite -Hon. }
    split_and!; [done..|by right|]. split.
    + rewrite !Forall_app !Forall_singleton. by split_and!.
    + rewrite !total_app !total_single count_push. pose proof (starting_at_empty s). lia.
    + rewrite !total_app !total_single size_push. pose proof (starting_at_empty s). lia.
    + exists (closed ++ [push_entry e b open]), (starting_at s).
      pose proof (starting_at_empty s) as [-> ->]. split_and!; [done|lia..|].
      rewrite Forall_app Forall_singleton. split; [done|].
      apply orb_true_iff in Hclose as [?%N.leb_le|?%N.leb_le]; [by left|by right].
  - exists closed, open, []. rewrite app_nil_r Hon. split_and!; [done..|by left|].
    apply orb_false_iff in Hclose as [?%N.leb_gt ?%N.leb_gt]. split.
    + rewrite Forall_app Forall_singleton. by split.
    + rewrite total_app total_single count_push. lia.
    + rewrite total_app total_single size_push. lia.
    + by exists closed, (push_entry e b open).
Qed.

Lemma record_window e b s r :
  wf r -> b + rec_max_bytes r <= U64_MAX ->
  let r' := record e b s r in
  wf r' /\ rec_max_entries r' = rec_max_entries r /\ rec_max_bytes r' = rec_max_bytes r /\
  exists dropped, pushed e b s r = dropped ++ segments r'.
Proof.
  intros Hwf Hfit. pose proof (pushed_cases e b s r Hwf Hfit) as (_ & _ & _ & _ & _ & _ & Hny).
  unfold record. unfold pushed in *. destruct (on_newest _ _ _) as [[o n] newest].
  destruct (wf_max _ Hwf). by apply drop_over_wf.
Qed.

(** ** Replaying the window *)

(** The segments lead from state [s] to state [s']: each starts at the state
    the ones before it lead to. *)
Fixpoint leads (step : S -> T -> S) (s : S) (segs : list RunSegment) (s' : S) : Prop :=
  match segs with
  | [] => s = s'
  | seg :: segs => seg_checkpoint seg = s /\ leads step (foldl step s (seg_entries seg).*1) segs s'
  end.

Lemma leads_app step s a b s' :
  leads step s (a ++ b) s' <-> exists m, leads step s a m /\ leads step m b s'.
Proof.
  revert s. induction a as [|seg a IH]; intros s; simpl.
  - split; [by exists s|by intros (? & -> & ?)].
  - rewrite IH. naive_solver.
Qed.

Lemma leads_entries step s segs s' :
  leads step s segs s' ->
  foldl step s (flat_map (fun seg => (seg_entries seg).*1) segs) = s'.
Proof.
  revert s. induction segs as [|seg segs IH]; intros s; simpl; [done|].
  intros [_ Hl]. rewrite foldl_app. by apply IH.
Qed.

(** A [record] with the state the entry leads to keeps the window leading to
    the current state, and drops entries only from its start. *)
Lemma record_leads step s0 past s e b r :
  wf r -> b + rec_max_bytes r <= U64_MAX ->
  (exists dropped, past = dropped ++ kept_entries r /\ foldl step s0 dropped = checkpoint r) ->
  leads step (checkpoint r) (segments r) s ->
  let r' := record e b (step s e) r in
  (exists dropped, past ++ [e] = dropped ++ kept_entries r' /\
     foldl step s0 dropped = checkpoint r') /\
  leads step (checkpoint r') (segments r') (step s e).
Proof.
  intros Hwf Hfit (dropped & -> & Hd) Hl. simpl.
  destruct (record_window e b (step s e) r Hwf Hfit) as (_ & _ & _ & gone & Hgone).
  destruct (pushed_cases e b (step s e) r Hwf Hfit) as (init & last & tail & Hsegs & Hp & Htail & _).
  assert (leads step (checkpoint r) (pushed e b (step s e) r) (step s e)) as Hl'.
  { rewrite Hp. rewrite Hsegs in Hl. apply leads_app in Hl as (m & Hi & Hlast).
    destruct Hlast as [Hm Hlast]. simpl in Hlast. apply leads_app. exists (step s e). split.
    - apply leads_app. exists m. split; [done|]. simpl. split; [done|].
      by rewrite fmap_app foldl_app Hlast.
    - by destruct Htail as [->| ->]. }
  assert (flat_map (fun seg => (seg_entries seg).*1) (pushed e b (step s e) r)
          = kept_entries r ++ [e]) as Hentries.
  { rewrite Hp. unfold kept_entries. fold (segments r). rewrite Hsegs !flat_map_app. simpl.
    rewrite fmap_app !app_nil_r -!app_assoc. by destruct Htail as [->| ->]. }
  rewrite Hgone in Hl'. rewrite Hgone flat_map_app in Hentries.
  apply leads_app in Hl' as (m & Hg & Hkept).
  assert (m = checkpoint (record e b (step s e) r)) as ->.
  { unfold segments in Hkept. by destruct Hkept as [<- _]. }
  split; [|done]. exists (dropped ++ flat_map (fun seg => (seg_entries seg).*1) gone). split.
  - by rewrite -app_assoc -Hentries app_assoc.
  - by rewrite foldl_app Hd (leads_entries _ _ _ _ Hg).
Qed.

(** ** Checkpoints *)

(** Three segments that have each reached half of one bound, each holding an
    entry of some size, are more than one of the bounds. *)
Lemma closed_few (me mb : N) (closed : list RunSegment) :
  0 < me -> 0 < mb ->
  Forall (fun seg => half me <= count seg \/ half mb <= size seg) closed ->
  Forall (fun seg => Forall (fun p => 0 < p.2) (seg_entries seg)) closed ->
  total count closed <= me -> total size closed <= mb ->
  (length closed <= 2)%nat.
Proof.
  intros Hme Hmb Hhalf Hpos Hc Hs.
  destruct closed as [|a [|b [|c closed]]]; simpl; [lia..|exfalso].
  pose proof (half_bounds me Hme). pose proof (half_bounds mb Hmb).
  assert (Forall (fun seg => 0 < count seg /\ 0 < size seg) (a :: b :: c :: closed)) as Hall.
  { apply Forall_forall. intros seg Hin. rewrite Forall_forall in Hhalf. rewrite Forall_forall in Hpos.
    specialize (Hhalf seg Hin). specialize (Hpos seg Hin). unfold count, size in *.
    destruct (seg_entries seg) as [|[e n] l]; simpl in *; [lia|].
    inversion_clear Hpos as [|?? Hn _]. simpl in Hn. lia. }
  rewrite !total_cons in Hc. rewrite !total_cons in Hs.
  inversion_clear Hhalf as [|?? Ha Hhalf']. inversion_clear Hhalf' as [|?? Hb Hhalf''].
  inversion_clear Hhalf'' as [|?? Hcc _].
  inversion_clear Hall as [|?? [??] Hall']. inversion_clear Hall' as [|?? [??] Hall''].
  inversion_clear Hall'' as [|?? [??] _]. lia.
Qed.

(** The entries kept with their sizes, which [record] drops only from the
    start. *)
Definition kept_pairs (r : FlightRecorder) : list (T * N) := flat_map seg_entries (segments r).

Lemma record_pairs e b s r :
  wf r -> b + rec_max_bytes r <= U64_MAX ->
  exists dropped, kept_pairs r ++ [(e, b)] = dropped ++ kept_pairs (record e b s r).
Proof.
  intros Hwf Hfit.
  destruct (record_window e b s r Hwf Hfit) as (_ & _ & _ & gone & Hgone).
  destruct (pushed_cases e b s r Hwf Hfit) as (init & last & tail & Hsegs & Hp & Htail & _).
  exists (flat_map seg_entries gone). unfold kept_pairs.
  rewrite -flat_map_app -Hgone Hp Hsegs !flat_map_app. simpl.
  rewrite !app_nil_r -!app_assoc. by destruct Htail as [->| ->].
Qed.

(** The loop of [record] never drops a last part of the window that fits. *)
Lemma drop_over_keeps me mb pre suf oldest newer entries bytes :
  nearly me mb (oldest :: newer) entries bytes ->
  oldest :: newer = pre ++ suf -> suf <> [] ->
  total count suf <= me -> total size suf <= mb ->
  exists mid, segments (drop_over me mb oldest newer entries bytes) = mid ++ suf.
Proof.
  revert pre oldest entries bytes. induction newer as [|next rest IH];
    intros pre oldest entries bytes Hny Hsegs Hne Hc Hs; simpl;
    (destruct (_ || _) eqn:Hover; [|by exists pre]); [by exists pre|].
  destruct Hny as [Hb He Ht (closed & open & Hsh & Ho)].
  destruct pre as [|c pre].
  { simpl in Hsegs. subst suf. subst entries bytes.
    apply orb_true_iff in Hover as [?%N.ltb_lt|?%N.ltb_lt]; lia. }
  injection Hsegs as -> Hsegs. destruct closed as [|c' closed]; [by destruct rest|].
  injection Hsh as <- Hsh. inversion_clear Hb as [|?? Hb0 Hb'].
  destruct Ho as (Ho1 & Ho2 & Hclosed). inversion_clear Hclosed.
  apply (IH pre); [|done..]. subst entries bytes. rewrite !(total_cons _ c).
  change (N.of_nat (length (seg_entries c))) with (count c).
  split; [done|lia|lia|]. by exists closed, open.
Qed.

(** An entry of at most half the byte bound is the last one kept. *)
Lemma record_keeps e b s r :
  wf r -> b + rec_max_bytes r <= U64_MAX -> b <= rec_max_bytes r / 2 ->
  last (kept_entries (record e b s r)) = Some e.
Proof.
  intros Hwf Hfit Hsmall.
  destruct (pushed_cases e b s r Hwf Hfit) as (init & lst & tail & Hsegs & Hp & Htail & Hny).
  destruct (wf_shape _ Hwf) as (closed & open & Hsh & Hc & Hs & _).
  rewrite Hsegs in Hsh. apply app_inj_tail in Hsh as [-> ->].
  destruct (wf_max _ Hwf) as [Hme Hmb].
  pose proof (half_bounds (rec_max_entries r) ltac:(lia)).
  assert (half (rec_max_bytes r) + rec_max_bytes r / 2 = rec_max_bytes r) as Hhalf.
  { unfold half. pose proof (N.div_mod (rec_max_bytes r) 2 ltac:(done)). lia. }
  assert (total count tail = 0 /\ total size tail = 0) as [Ht1 Ht2].
  { by destruct Htail as [->| ->]. }
  assert (exists mid, segments (record e b s r) = mid ++ ([push_entry e b open] ++ tail)) as [mid Hmid].
  { unfold record. unfold pushed in Hp, Hny.
    destruct (on_newest _ _ _) as [[o n] newest]. apply (drop_over_keeps _ _ closed).
    - done.
    - by rewrite Hp -app_assoc.
    - done.
    - rewrite total_app total_single count_push. lia.
    - rewrite total_app total_single size_push. lia. }
  unfold kept_entries. fold (segments (record e b s r)). rewrite Hmid !flat_map_app. simpl.
  rewrite fmap_app app_nil_r.
  assert (flat_map (fun seg => (seg_entries seg).*1) tail = []) as ->.
  { by destruct Htail as [->| ->]. }
  by rewrite app_nil_r app_assoc last_snoc.
Qed.

Lemma new_wf me mb s r :
  new_recorder me mb s = Some r -> me < U64_MAX ->
  wf r /\ rec_max_entries r = me /\ rec_max_bytes r = mb /\ kept_pairs r = [] /\
  kept_entries r = [] /\ checkpoint r = s /\ segments r = [starting_at s].
Proof.
  unfold new_recorder. destruct (_ && _) eqn:Hmax; [|done]. intros [= <-] Hme.
  apply andb_true_iff in Hmax as [?%N.ltb_lt ?%N.ltb_lt].
  pose proof (half_bounds me). pose proof (half_bounds mb).
  split_and!; [|done..]. split; [simpl; lia|by repeat constructor|done|done|simpl; lia|].
  exists [], (starting_at s). destruct (starting_at_empty s) as [-> ->].
  simpl. split_and!; [done|lia..|done].
Qed.

(** What holds of the state and the recorder after a run from [s0]. *)
Record reached (step : S -> T -> S) (s0 : S) (me mb : N) (past : list (T * N)) (s : S)
    (r : FlightRecorder) : Prop := {
  rd_wf : wf r;
  rd_max : rec_max_entries r = me /\ rec_max_bytes r = mb;
  rd_past : exists dropped, past.*1 = dropped ++ kept_entries r /\ foldl step s0 dropped = checkpoint r;
  rd_leads : leads step (checkpoint r) (segments r) s;
  rd_sizes : forall p, p ∈ kept_pairs r -> p ∈ past;
}.

Lemma run_reached step s0 me mb inputs past s r :
  reached step s0 me mb past s r -> Forall (fun p => p.2 + mb <= U64_MAX) inputs ->
  let '(s', r') := record_run step s inputs r in
  reached step s0 me mb (past ++ inputs) s' r'.
Proof.
  revert past s r. induction inputs as [|[e b] inputs IH]; intros past s r Hr Hfit; simpl.
  { by rewrite app_nil_r. }
  inversion_clear Hfit as [|?? Hb Hfit']. simpl in Hb.
  destruct Hr as [Hwf [Hme Hmb] Hpast Hl Hsizes]. rewrite -Hmb in Hb.
  destruct (record_window e b (step s e) r Hwf Hb) as (Hwf' & Hme' & Hmb' & _).
  destruct (record_leads step s0 past.*1 s e b r Hwf Hb Hpast Hl) as [Hpast' Hl'].
  destruct (record_pairs e b (step s e) r Hwf Hb) as [dropped Hpairs].
  specialize (IH (past ++ [(e, b)]) (step s e) (record e b (step s e) r)).
  rewrite -app_assoc in IH. apply IH; [|done]. split.
  - done.
  - by rewrite Hme' Hmb'.
  - by rewrite fmap_app.
  - done.
  - intros p Hp. assert (p ∈ kept_pairs r ++ [(e, b)]) as [H|H]%elem_of_app.
    { rewrite Hpairs. apply elem_of_app. by right. }
    + apply elem_of_app. left. by apply Hsizes.
    + apply elem_of_app. by right.
Qed.

Lemma new_reached step me mb s r :
  new_recorder me mb s = Some r -> me < U64_MAX -> reached step s me mb [] s r.
Proof.
  intros Hnew Hlt. destruct (new_wf _ _ _ _ Hnew Hlt) as (Hwf & ? & ? & Hp & Hk & Hc & Hs).
  split; [done..|exists []; by rewrite Hk|by rewrite Hs Hc|by rewrite Hp].
Qed.

Lemma total_count_kept segs :
  total count segs = N.of_nat (length (flat_map (fun seg => (seg_entries seg).*1) segs)).
Proof.
  induction segs as [|seg segs IH]; [done|]. rewrite total_cons IH /=.
  rewrite length_app length_fmap. unfold count. lia.
Qed.
End recorder.
Arguments RunSegment : clear implicits.
Arguments FlightRecorder : clear implicits.

(** C15: the flight recorder's window, after any run of the reducer it records,
    is within both of its bounds, is a last part of the inputs recorded, and
    replays: reducing its entries from its checkpoint, which is the state the
    dropped inputs led to, gives the reducer's state now. The last input is
    always in it when its size is at most half the byte bound. *)
Theorem recorder_window_replays {T S : Type} (step : S -> T -> S) (s0 : S) (me mb : N)
    (inputs : list (T * N)) (r0 : FlightRecorder T S) :
  new_recorder me mb s0 = Some r0 -> me < U64_MAX ->
  Forall (fun p => p.2 + mb <= U64_MAX) inputs ->
  let '(s, r) := record_run step s0 inputs r0 in
  rec_entries r = N.of_nat (length (kept_entries r)) /\
  rec_entries r <= me /\ rec_bytes r <= mb /\
  foldl step (checkpoint r) (kept_entries r) = s /\
  (exists dropped, inputs.*1 = dropped ++ kept_entries r /\
     foldl step s0 dropped = checkpoint r) /\
  forall e b, b + mb <= U64_MAX -> b <= mb / 2 ->
    last (kept_entries (record e b (step s e) r)) = Some e.
Proof.
  intros Hnew Hlt Hfit.
  pose proof (run_reached step s0 me mb inputs [] s0 r0 (new_reached _ _ _ _ _ Hnew Hlt) Hfit) as Hrun.
  destruct (record_run step s0 inputs r0) as [s r]. destruct Hrun as [Hwf [Hme Hmb] Hpast Hl _].
  pose proof (wf_bounds _ Hwf). subst me mb. split_and!.
  - by rewrite (wf_entries _ Hwf) total_count_kept.
  - lia.
  - lia.
  - by apply leads_entries.
  - done.
  - intros e b Hb Hsmall. by apply record_keeps.
Qed.

(** The recorder holds at most three checkpoints, however long it runs,
    when every entry has a size, as [estimated_bytes] gives every input. *)
Theorem recorder_checkpoints_bounded {T S : Type} (step : S -> T -> S) (s0 : S) (me mb : N)
    (inputs : list (T * N)) (r0 : FlightRecorder T S) :
  new_recorder me mb s0 = Some r0 -> me < U64_MAX ->
  Forall (fun p => 0 < p.2 /\ p.2 + mb <= U64_MAX) inputs ->
  (length (checkpoints (record_run step s0 inputs r0).2) <= 3)%nat.
Proof.
  intros Hnew Hlt Hin.
  pose proof (run_reached step s0 me mb inputs [] s0 r0 (new_reached _ _ _ _ _ Hnew Hlt)
    ltac:(eapply Forall_impl; [exact Hin|by intros ? []])) as Hrun.
  destruct (record_run step s0 inputs r0) as [s r]. destruct Hrun as [Hwf [Hme Hmb] _ _ Hsizes].
  destruct (wf_shape _ Hwf) as (closed & open & Hsegs & _ & _ & Hclosed).
  destruct (wf_max _ Hwf) as [Hm1 Hm2]. pose proof (wf_bounds _ Hwf) as [Hb1 Hb2].
  rewrite (wf_entries _ Hwf) Hsegs total_app in Hb1. rewrite (wf_total _ Hwf) Hsegs total_app in Hb2.
  assert (length closed <= 2)%nat.
  { apply (closed_few (rec_max_entries r) (rec_max_bytes r)); [lia|lia|done| |lia|lia].
    apply Forall_forall. intros seg Hseg. apply Forall_forall. intros p Hp.
    rewrite Forall_forall in Hin. apply (Hin p). apply (Hsizes p). unfold kept_pairs.
    apply list_elem_of_In, in_flat_map. exists seg. rewrite Hsegs.
    split; apply list_elem_of_In; [apply elem_of_app; by left|done]. }
  change (length (seg_checkpoint <$> segments r) <= 3)%nat.
  rewrite Hsegs length_fmap length_app. simpl. lia.
Qed.

Definition six_inputs : list (nat * N) := (fun n => (n, 1)) <$> [1; 2; 3; 4; 5; 6]%nat.

(** A recorder of four entries and ten bytes over a counter, after six inputs
    of one byte each. *)
Lemma recorder_window_replays_witness :
  exists r0, new_recorder 4 10 0%nat = Some r0 /\
  let '(s, r) := record_run Nat.add 0%nat six_inputs r0 in
  rec_entries r = 4 /\ s = 21%nat /\ kept_entries r = [3; 4; 5; 6]%nat /\ checkpoint r = 3%nat /\
  foldl Nat.add (checkpoint r) (kept_entries r) = s.
Proof.
  eexists. split; [reflexivity|].
  pose proof (recorder_window_replays Nat.add 0%nat 4 10 six_inputs _ eq_refl ltac:(reflexivity)
    ltac:(repeat constructor; vm_compute; congruence)) as (_ & _ & _ & Hs & _).
  split_and!; [reflexivity..|exact Hs].
Defined.

Lemma recorder_checkpoints_bounded_witness :
  exists r0, new_recorder 4 10 0%nat = Some r0 /\
  (length (checkpoints (record_run Nat.add 0%nat six_inputs r0).2) <= 3)%nat.
Proof.
  eexists. split; [reflexivity|].
  apply (recorder_checkpoints_bounded Nat.add 0%nat 4 10); [reflexivity..|].
  repeat constructor; vm_compute; congruence.
Defined.
