(* ===== verification/Requests.v ===== *)
(** * Core's request table

    [src/crates/verbatim-core/src/requests.rs]: the queries the shell sends
    outposts, each recorded with its asker, its outpost and a deadline, and the
    one outcome each gets. The [BTreeMap] is a list kept in its key order, and
    the table's operations are functions on it; [u64] numbers saturate. The
    theorems: every asker is handed back exactly once or is still waiting,
    and each way of ending requests ends exactly those it should, in the order
    they were made. *)
From Stdlib Require Import NArith.
From stdpp Require Import base list strings sorting.
From S2P Require Import Prelude Text Tree Facts Messages.
Local Open Scope N_scope.

(** [requests::DEADLINE_PASSED]. *)
Definition DEADLINE_PASSED : string := "no answer came by the request's deadline".

(** The order derived for [Requester] and [RequestId]: by asker, then number. *)
Definition requester_index (r : Requester) : N :=
  match r with AskerReducer => 0 | AskerShell => 1 end.
Definition request_ltb (a b : RequestId) : bool :=
  (requester_index (asker a) <? requester_index (asker b))
  || ((requester_index (asker a) =? requester_index (asker b))
      && (request_number a <? request_number b)).

(** [RequestId::shell]. *)
Definition shell (number : N) : RequestId := {| asker := AskerShell; request_number := number |}.

(** ** An ordered map of requests

    What the table uses of [BTreeMap<RequestId, _>]: entries in key order. *)
Section ordered.
Context {V : Type}.
Implicit Type m : list (RequestId * V).

Fixpoint map_insert (id : RequestId) (v : V) m : list (RequestId * V) :=
  match m with
  | [] => [(id, v)]
  | (id', v') :: m' =>
      if decide (id = id') then (id, v) :: m'
      else if request_ltb id id' then (id, v) :: m
      else (id', v') :: map_insert id v m'
  end.

Fixpoint map_get (id : RequestId) m : option V :=
  match m with
  | [] => None
  | (id', v) :: m => if decide (id = id') then Some v else map_get id m
  end.

Fixpoint map_remove (id : RequestId) m : list (RequestId * V) * option V :=
  match m with
  | [] => ([], None)
  | (id', v) :: m =>
      if decide (id = id') then (m, Some v)
      else let '(m', found) := map_remove id m in ((id', v) :: m', found)
  end.
End ordered.

Section table.
Context {A : Type}.

(** [requests::Entry]. *)
Record RequestEntry := {
  req_outpost : OutpostId;
  req_asker : A;
  req_deadline_us : option N;
}.

(** [Expired]. *)
Record Expired := {
  exp_id : RequestId;
  exp_outpost : OutpostId;
  exp_asker : A;
  exp_outcome : QueryOutcome;
}.

(** [RequestTable]. *)
Record RequestTable := {
  table_next : N;
  table_entries : list (RequestId * RequestEntry);
}.

(** [RequestTable::default]. *)
Definition empty_table : RequestTable := {| table_next := 0; table_entries := [] |}.

Implicit Type t : RequestTable.

(** [RequestTable::insert]. *)
Definition table_insert (outpost : OutpostId) (asker : A) (deadline_us : option N) t :
    RequestTable * RequestId :=
  let next := table_next t +|64| 1 in
  let id := shell next in
  ({| table_next := next;
      table_entries := map_insert id
        {| req_outpost := outpost; req_asker := asker; req_deadline_us := deadline_us |}
        (table_entries t) |}, id).

(** [RequestTable::begin] and [RequestTable::begin_until]. *)
Definition begin (outpost : OutpostId) (asker : A) t := table_insert outpost asker None t.
Definition begin_until (outpost : OutpostId) (asker : A) (deadline_us : N) t :=
  table_insert outpost asker (Some deadline_us) t.

(** [RequestTable::remove]. *)
Definition table_remove (id : RequestId) t : RequestTable * option RequestEntry :=
  let '(m, found) := map_remove id (table_entries t) in
  ({| table_next := table_next t; table_entries := m |}, found).

(** [RequestTable::finish]. *)
Definition finish (id : RequestId) (outpost : OutpostId) (outcome : QueryOutcome) t :
    RequestTable * option (A * QueryOutcome) :=
  match map_get id (table_entries t) with
  | None => (t, None)
  | Some entry =>
      if decide (req_outpost entry <> outpost) then (t, None)
      else
        let '(t, found) := table_remove id t in
        (t, (fun entry => (req_asker entry, outcome)) <$> found)
  end.

(** [ids.into_iter().filter_map(|id| self.remove(id))], with each id. *)
Fixpoint remove_each (ids : list RequestId) t : RequestTable * list (RequestId * RequestEntry) :=
  match ids with
  | [] => (t, [])
  | id :: ids =>
      let '(t, found) := table_remove id t in
      let '(t, rest) := remove_each ids t in
      (t, match found with Some entry => (id, entry) :: rest | None => rest end)
  end.

(** [RequestTable::outpost_ended]. *)
Definition outpost_ended (outpost : OutpostId) t : RequestTable * list (A * QueryOutcome) :=
  let ended := (List.filter (fun p => bool_decide (req_outpost p.2 = outpost))
                  (table_entries t)).*1 in
  let '(t, removed) := remove_each ended t in
  (t, (fun p => (req_asker p.2, Gone)) <$> removed).

(** The test of [RequestTable::expire]: the deadline is [now_us] or earlier. *)
Definition past_deadline (now_us : N) (entry : RequestEntry) : bool :=
  match req_deadline_us entry with Some deadline => deadline <=? now_us | None => false end.

(** [RequestTable::expire]. *)
Definition expire (now_us : N) t : RequestTable * list Expired :=
  let expired := (List.filter (fun p => past_deadline now_us p.2) (table_entries t)).*1 in
  let '(t, removed) := remove_each expired t in
  (t, (fun p => {| exp_id := p.1; exp_outpost := req_outpost p.2; exp_asker := req_asker p.2;
                   exp_outcome := Failed DEADLINE_PASSED |}) <$> removed).

(** [Iterator::min] on numbers. *)
Definition least (l : list N) : option N :=
  match l with [] => None | x :: l => Some (foldl N.min x l) end.

(** [RequestTable::next_deadline]. *)
Definition next_deadline t : option N :=
  least (omap (fun p => req_deadline_us p.2) (table_entries t)).

(** [RequestTable::find]. *)
Definition find_request (which : A -> bool) t : option (RequestId * OutpostId) :=
  (fun p => (p.1, req_outpost p.2)) <$>
    Prelude.find (fun p => which (req_asker p.2)) (table_entries t).

(** [RequestTable::len], which [outstanding] and [is_empty] also read. *)
Definition len t : nat := length (table_entries t).

(** ** Runs of the table *)

(** The calls that change the table. *)
Inductive TableOp :=
  | OpBegin (outpost : OutpostId) (asker : A)
  | OpBeginUntil (outpost : OutpostId) (asker : A) (deadline_us : N)
  | OpFinish (id : RequestId) (outpost : OutpostId) (outcome : QueryOutcome)
  | OpOutpostEnded (outpost : OutpostId)
  | OpExpire (now_us : N).

(** One call: the table after it, the askers it was given, and the askers it
    hands back with their outcomes. *)
Definition table_op (op : TableOp) t : RequestTable * list A * list (A * QueryOutcome) :=
  match op with
  | OpBegin outpost asker => ((begin outpost asker t).1, [asker], [])
  | OpBeginUntil outpost asker deadline_us => ((begin_until outpost asker deadline_us t).1, [asker], [])
  | OpFinish id outpost outcome =>
      let '(t, answered) := finish id outpost outcome t in (t, [], option_list answered)
  | OpOutpostEnded outpost => let '(t, answered) := outpost_ended outpost t in (t, [], answered)
  | OpExpire now_us =>
      let '(t, expired) := expire now_us t in
      (t, [], (fun x => (exp_asker x, exp_outcome x)) <$> expired)
  end.

Fixpoint table_run (ops : list TableOp) t : RequestTable * list A * list (A * QueryOutcome) :=
  match ops with
  | [] => (t, [], [])
  | op :: ops =>
      let '(t, begun, answered) := table_op op t in
      let '(t, begun', answered') := table_run ops t in
      (t, begun ++ begun', answered ++ answered')
  end.

(** The askers still waiting. *)
Definition waiting_askers t : list A := (fun p => req_asker p.2) <$> table_entries t.

(** ** The invariant: the keys are the shell's, distinct, increasing, and none
    is past the last number given. *)
Definition well_numbered t : Prop :=
  StronglySorted N.lt (request_number <$> (table_entries t).*1) /\
  Forall (fun p => asker p.1 = AskerShell /\ request_number p.1 <= table_next t) (table_entries t).


Lemma well_numbered_NoDup t : well_numbered t -> NoDup (table_entries t).*1.
Proof.
  intros [Hs _]. apply (NoDup_fmap_1 request_number).
  induction Hs as [|n l Hs IH Hall]; constructor; [|done].
  intros Hin. rewrite Forall_forall in Hall. specialize (Hall n Hin). lia.
Qed.

(** A number past every key goes last. *)
Lemma map_insert_last {V} n (v : V) m :
  Forall (fun p => asker p.1 = AskerShell /\ request_number p.1 < n) m ->
  map_insert (shell n) v m = m ++ [(shell n, v)].
Proof.
  induction 1 as [|[id w] m [Ha Hn] _ IH]; simpl in *; [done|].
  case_decide as Hid; [subst; simpl in Hn; lia|].
  assert (request_ltb (shell n) id = false) as ->.
  { unfold request_ltb. rewrite Ha. simpl. apply N.ltb_ge. lia. }
  by rewrite IH.
Qed.

Lemma table_insert_last outpost a deadline t :
  well_numbered t -> table_next t < U64_MAX ->
  let '(t', id) := table_insert outpost a deadline t in
  table_next t' = table_next t + 1 /\ id = shell (table_next t + 1) /\
  table_entries t' = table_entries t ++
    [(id, {| req_outpost := outpost; req_asker := a; req_deadline_us := deadline |})] /\
  well_numbered t'.
Proof.
  intros [Hs Hall] Hlt. unfold table_insert.
  assert (table_next t +|64| 1 = table_next t + 1) as Hn by (apply saturating_add_exact; lia).
  rewrite Hn map_insert_last; [|eapply Forall_impl; [exact Hall|intros ? []; split; [done|lia]]].
  split_and!; [done..|]. split; simpl.
  - rewrite !fmap_app. simpl. apply StronglySorted_app_2; [|done|by repeat constructor].
    intros x y Hx Hy. apply list_elem_of_singleton in Hy as ->.
    apply list_elem_of_fmap in Hx as (id & -> & Hid). apply list_elem_of_fmap in Hid as (p & -> & Hp).
    rewrite Forall_forall in Hall. destruct (Hall p Hp). simpl. lia.
  - rewrite Forall_app Forall_singleton. split; [|split; simpl; [done|lia]].
    eapply Forall_impl; [exact Hall|intros ? []; split; [done|lia]].
Qed.

Lemma map_remove_middle {V} pre id (v : V) post :
  id ∉ pre.*1 -> map_remove id (pre ++ (id, v) :: post) = (pre ++ post, Some v).
Proof.
  induction pre as [|[id' v'] pre IH]; csimpl.
  { by rewrite decide_True. }
  intros [Hne Hin]%not_elem_of_cons. rewrite decide_False // IH //.
Qed.

Lemma map_get_split {V} id (m : list (RequestId * V)) v :
  map_get id m = Some v -> exists pre post, m = pre ++ (id, v) :: post /\ id ∉ pre.*1.
Proof.
  induction m as [|[id' v'] m IH]; csimpl; [done|]. case_decide as Hid.
  { intros [= ->]. subst. exists [], m. split; [done|]. apply not_elem_of_nil. }
  intros (pre & post & -> & Hn)%IH. exists ((id', v') :: pre), post.
  split; [done|]. csimpl. by rewrite not_elem_of_cons.
Qed.

(** Removing the ids a test picks leaves exactly the entries it does not pick,
    and hands back those it does, in order. *)
Lemma remove_each_filter (f : RequestId * RequestEntry -> bool) next pre rest :
  NoDup (pre ++ rest).*1 ->
  remove_each (List.filter f rest).*1 {| table_next := next; table_entries := pre ++ rest |} =
    ({| table_next := next;
        table_entries := pre ++ List.filter (fun p => negb (f p)) rest |}, List.filter f rest).
Proof.
  revert pre. induction rest as [|[id e] rest IH]; intros pre Hnd; csimpl; [done|].
  assert (Hpre : id ∉ pre.*1).
  { rewrite fmap_app in Hnd. apply NoDup_app in Hnd as (_ & Hd & _). intros H.
    apply (Hd id H). csimpl. left. }
  destruct (f (id, e)) eqn:Hf; csimpl.
  - unfold table_remove. simpl. rewrite map_remove_middle //.
    rewrite IH //. rewrite fmap_app. rewrite fmap_app in Hnd. csimpl in Hnd.
    apply NoDup_app in Hnd as (H1 & H2 & H3). apply NoDup_app. inversion_clear H3.
    split_and!; [done|intros x Hx Hx'; apply (H2 x Hx); by right|done].
  - specialize (IH (pre ++ [(id, e)])). rewrite -!app_assoc in IH. simpl in IH. by apply IH.
Qed.

Lemma outpost_ended_exact outpost t :
  well_numbered t ->
  outpost_ended outpost t =
    ({| table_next := table_next t;
        table_entries := List.filter (fun p => negb (bool_decide (req_outpost p.2 = outpost)))
                           (table_entries t) |},
     (fun p => (req_asker p.2, Gone)) <$>
       List.filter (fun p => bool_decide (req_outpost p.2 = outpost)) (table_entries t)).
Proof.
  intros Hwn%well_numbered_NoDup. unfold outpost_ended. destruct t as [next m].
  by rewrite (remove_each_filter _ next [] m).
Qed.

Lemma expire_exact now t :
  well_numbered t ->
  expire now t =
    ({| table_next := table_next t;
        table_entries := List.filter (fun p => negb (past_deadline now p.2)) (table_entries t) |},
     (fun p => {| exp_id := p.1; exp_outpost := req_outpost p.2; exp_asker := req_asker p.2;
                  exp_outcome := Failed DEADLINE_PASSED |}) <$>
       List.filter (fun p => past_deadline now p.2) (table_entries t)).
Proof.
  intros Hwn%well_numbered_NoDup. unfold expire. destruct t as [next m].
  by rewrite (remove_each_filter _ next [] m).
Qed.

Lemma finish_exact id outpost outcome t :
  match finish id outpost outcome t with
  | (t', None) => t' = t /\
      forall entry, map_get id (table_entries t) = Some entry -> req_outpost entry <> outpost
  | (t', Some (a, o)) => exists pre entry post,
      table_entries t = pre ++ (id, entry) :: post /\ table_entries t' = pre ++ post /\
      table_next t' = table_next t /\ req_outpost entry = outpost /\
      a = req_asker entry /\ o = outcome
  end.
Proof.
  unfold finish. destruct (map_get id (table_entries t)) as [entry|] eqn:Hget; [|by split].
  case_decide as Ho; [split; [done|by intros ? [= <-]]|].
  destruct (map_get_split _ _ _ Hget) as (pre & post & Hm & Hpre).
  unfold table_remove. rewrite Hm map_remove_middle; [simpl|done].
  by exists pre, entry, post.
Qed.

(** Dropping entries keeps the numbering. *)
Lemma well_numbered_sub next m m' :
  sublist m' m -> well_numbered {| table_next := next; table_entries := m |} ->
  well_numbered {| table_next := next; table_entries := m' |}.
Proof.
  intros Hsub [Hs Hall]. unfold well_numbered in *. simpl in *. split.
  - clear Hall. induction Hsub as [|p l1 l2 Hsub IH|p l1 l2 Hsub IH]; csimpl in *; [done|..].
    + apply StronglySorted_inv in Hs as [Hs Hp]. constructor; [by apply IH|].
      rewrite Forall_forall in Hp. apply Forall_forall. intros x Hx. apply Hp.
      apply (elem_of_sublist _ _ x Hx). by do 2 apply fmap_sublist.
    + apply StronglySorted_inv in Hs as [Hs _]. by apply IH.
  - rewrite Forall_forall in Hall. apply Forall_forall. intros p Hp. apply Hall.
    by apply (elem_of_sublist _ _ p Hp).
Qed.

Lemma filter_entries_sublist (f : RequestId * RequestEntry -> bool) m : sublist (List.filter f m) m.
Proof. induction m as [|p m IH]; cbn; [constructor|]. destruct (f p); by constructor. Qed.

Lemma table_op_well_numbered op t :
  well_numbered t -> table_next t < U64_MAX ->
  let '(t', _, _) := table_op op t in
  well_numbered t' /\ table_next t' <= table_next t + 1.
Proof.
  intros Hwn Hlt. destruct op as [o a|o a d|id o outcome|o|now]; unfold table_op, begin, begin_until.
  - pose proof (table_insert_last o a None t Hwn Hlt) as H.
    destruct (table_insert _ _ _ _) as [t1 id]. simpl. destruct H as (-> & _ & _ & ?). by split.
  - pose proof (table_insert_last o a (Some d) t Hwn Hlt) as H.
    destruct (table_insert _ _ _ _) as [t1 id]. simpl. destruct H as (-> & _ & _ & ?). by split.
  - pose proof (finish_exact id o outcome t) as H. destruct (finish _ _ _ _) as [t' [[a r]|]].
    + destruct H as (pre & e & post & Hm & Hm' & Hn & _). split; [|lia].
      destruct t as [next m], t' as [next' m']. simpl in *. subst.
      eapply well_numbered_sub; [|exact Hwn]. apply sublist_app; [done|]. by constructor.
    + destruct H as [-> _]. split; [done|lia].
  - rewrite outpost_ended_exact //. split; [|simpl; lia]. destruct t as [next m].
    eapply well_numbered_sub; [|exact Hwn]. apply filter_entries_sublist.
  - rewrite expire_exact //. split; [|simpl; lia]. destruct t as [next m].
    eapply well_numbered_sub; [|exact Hwn]. apply filter_entries_sublist.
Qed.

(** One call neither loses an asker nor hands one back twice. *)
Lemma table_op_ledger op t :
  well_numbered t -> table_next t < U64_MAX ->
  let '(t', begun, answered) := table_op op t in
  waiting_askers t ++ begun ≡ₚ waiting_askers t' ++ answered.*1.
Proof.
  intros Hwn Hlt. unfold waiting_askers. destruct op as [o a|o a d|id o outcome|o|now]; unfold table_op, begin, begin_until.
  - pose proof (table_insert_last o a None t Hwn Hlt) as H.
    destruct (table_insert _ _ _ _) as [t1 id]. simpl. destruct H as (_ & _ & -> & _).
    by rewrite fmap_app app_nil_r.
  - pose proof (table_insert_last o a (Some d) t Hwn Hlt) as H.
    destruct (table_insert _ _ _ _) as [t1 id]. simpl. destruct H as (_ & _ & -> & _).
    by rewrite fmap_app app_nil_r.
  - pose proof (finish_exact id o outcome t) as H. destruct (finish _ _ _ _) as [t' [[a r]|]].
    + destruct H as (pre & e & post & -> & -> & _ & _ & -> & _). rewrite !fmap_app. csimpl.
      rewrite app_nil_r. solve_Permutation.
    + by destruct H as [-> _].
  - rewrite outpost_ended_exact //. csimpl. rewrite app_nil_r -list_fmap_compose Permutation_app_comm.
    rewrite -fmap_app. apply fmap_Permutation. apply filter_split.
  - rewrite expire_exact //. csimpl. rewrite app_nil_r -!list_fmap_compose Permutation_app_comm.
    rewrite -fmap_app. apply fmap_Permutation. apply filter_split.
Qed.

Lemma table_run_ledger ops t :
  well_numbered t -> table_next t + N.of_nat (length ops) <= U64_MAX ->
  let '(t', begun, answered) := table_run ops t in
  well_numbered t' /\ waiting_askers t ++ begun ≡ₚ waiting_askers t' ++ answered.*1.
Proof.
  revert t. induction ops as [|op ops IH]; intros t Hwn Hlt; simpl in *; [done|].
  assert (table_next t < U64_MAX) as Hlt1 by lia.
  pose proof (table_op_well_numbered op t Hwn Hlt1) as Hop.
  pose proof (table_op_ledger op t Hwn Hlt1) as Hledger.
  destruct (table_op op t) as [[t1 begun] answered]. destruct Hop as [Hwn1 Hn1].
  specialize (IH t1 Hwn1 ltac:(lia)).
  destruct (table_run ops t1) as [[t2 begun'] answered']. destruct IH as [Hwn2 IH].
  split; [done|]. rewrite app_assoc Hledger fmap_app.
  rewrite -app_assoc (Permutation_app_comm answered.*1) app_assoc IH. solve_Permutation.
Qed.

Lemma empty_well_numbered : well_numbered empty_table.
Proof. split; constructor. Qed.

Lemma least_spec l :
  match least l with
  | None => l = []
  | Some n => n ∈ l /\ forall x, x ∈ l -> n <= x
  end.
Proof.
  destruct l as [|x l]; simpl; [done|].
  assert (foldl N.min x l ∈ x :: l /\ forall y, y ∈ x :: l -> foldl N.min x l <= y) as H; [|exact H].
  revert x. induction l as [|z l IH]; intros x; simpl.
  { split; [left|]. intros y ->%list_elem_of_singleton. done. }
  destruct (IH (N.min x z)) as [Hin Hle]. split.
  - apply elem_of_cons in Hin as [Hin|Hin]; [|by do 2 right]. rewrite Hin.
    destruct (N.min_spec x z) as [[_ ->]|[_ ->]]; [left|right; left].
  - assert (foldl N.min (N.min x z) l <= N.min x z) by (apply Hle; left).
    intros y [->|[->|Hy]%elem_of_cons]%elem_of_cons; [lia..|]. apply Hle. by right.
Qed.
End table.
Arguments RequestEntry : clear implicits.
Arguments RequestTable : clear implicits.
Arguments Expired : clear implicits.
Arguments TableOp : clear implicits.

(** C28: exactly one outcome per request: in any run of the table from empty,
    fewer than [2^64] calls long, the askers the table was given are exactly
    those still waiting and those it handed back with an outcome, each once,
    whatever outcomes, outposts' ends and deadlines come, in whatever order
    and however often they are repeated. *)
Theorem requests_answered_once {A : Type} (ops : list (TableOp A)) :
  N.of_nat (length ops) <= U64_MAX ->
  let '(t, begun, answered) := table_run ops empty_table in
  begun ≡ₚ waiting_askers t ++ answered.*1.
Proof.
  intros Hlt. pose proof (table_run_ledger ops empty_table empty_well_numbered Hlt) as H.
  destruct (table_run ops empty_table) as [[t begun] answered]. by destruct H as [_ H].
Qed.

(** What ends which requests, in any table a run reaches: an outcome ends
    only a request of the outpost it comes from, and then no later one finds
    it; the end of an outpost ends exactly its requests, gone, and the clock
    exactly those whose deadline has come, failed, both in the order they were
    made; and the deadline the shell waits for is then later than the clock
    and the soonest there is. *)
Theorem requests_ended_exactly {A : Type} (ops : list (TableOp A)) :
  N.of_nat (length ops) <= U64_MAX ->
  let t := (table_run ops empty_table).1.1 in
  (forall id outpost outcome t' a o, finish id outpost outcome t = (t', Some (a, o)) ->
     (exists entry, (id, entry) ∈ table_entries t /\ req_outpost entry = outpost /\
                    req_asker entry = a) /\
     forall outpost' outcome', finish id outpost' outcome' t' = (t', None)) /\
  (forall outpost, (outpost_ended outpost t).2 =
     (fun p => (req_asker p.2, Gone)) <$>
       List.filter (fun p => bool_decide (req_outpost p.2 = outpost)) (table_entries t)) /\
  (forall outpost p, p ∈ table_entries (outpost_ended outpost t).1 <->
     p ∈ table_entries t /\ req_outpost p.2 <> outpost) /\
  (forall now, (fun x => (exp_id x, exp_outcome x)) <$> (expire now t).2 =
     (fun p => (p.1, Failed DEADLINE_PASSED)) <$>
       List.filter (fun p => past_deadline now p.2) (table_entries t)) /\
  (forall now d, next_deadline (expire now t).1 = Some d ->
     now < d /\ forall p d', p ∈ table_entries (expire now t).1 ->
       req_deadline_us p.2 = Some d' -> d <= d') /\
  StronglySorted N.lt (request_number <$> (table_entries t).*1).
Proof.
  intros Hlt. pose proof (table_run_ledger ops empty_table empty_well_numbered Hlt) as H.
  destruct (table_run ops empty_table) as [[t begun] answered]. destruct H as [Hwn _]. simpl.
  split_and!.
  - intros id outpost outcome t' a o Hf. pose proof (finish_exact id outpost outcome t) as H.
    rewrite Hf in H. destruct H as (pre & entry & post & Hm & Hm' & Hn & Ho & -> & _). split.
    { exists entry. rewrite Hm. split; [|done]. apply elem_of_app. right. left. }
    intros outpost' outcome'. unfold finish. rewrite Hm'.
    assert (map_get id (pre ++ post) = None) as ->; [|done].
    pose proof (well_numbered_NoDup t Hwn) as Hnd. rewrite Hm fmap_app in Hnd. csimpl in Hnd.
    destruct (map_get id (pre ++ post)) as [e|] eqn:Hget; [exfalso|done].
    apply map_get_split in Hget as (pre' & post' & Heq & _).
    rewrite -Permutation_middle -fmap_app Heq in Hnd. apply NoDup_cons in Hnd as [Hnd _].
    apply Hnd. rewrite fmap_app. csimpl. apply elem_of_app. right. left.
  - intros outpost. by rewrite outpost_ended_exact.
  - intros outpost p. rewrite outpost_ended_exact //. simpl.
    rewrite !list_elem_of_In filter_In negb_true_iff bool_decide_eq_false. done.
  - intros now. rewrite expire_exact //. simpl. by rewrite -!list_fmap_compose.
  - intros now d. rewrite expire_exact //. unfold next_deadline. simpl.
    pose proof (least_spec (omap (fun p => req_deadline_us p.2)
      (List.filter (fun p => negb (past_deadline now p.2)) (table_entries t)))) as Hl.
    destruct (least _) as [n|]; [|done]. intros [= ->]. destruct Hl as [Hin Hle]. split.
    + apply list_elem_of_omap in Hin as (p & Hp & Hd).
      apply list_elem_of_In, filter_In in Hp as [_ Hp]. unfold past_deadline in Hp.
      rewrite Hd in Hp. apply negb_true_iff, N.leb_gt in Hp. done.
    + intros p d' Hp Hd. apply Hle. apply list_elem_of_omap. by exists p.
  - apply Hwn.
Qed.

(** Three requests to two outposts, of which the first outpost answers one
    twice and ends, and the third expires. *)
Definition table_sample : list (TableOp nat) :=
  [OpBegin (Build_OutpostId 1) 10%nat; OpBegin (Build_OutpostId 1) 11%nat;
   OpBeginUntil (Build_OutpostId 2) 12%nat 500;
   OpFinish (shell 1) (Build_OutpostId 2) NotStarted;
   OpFinish (shell 1) (Build_OutpostId 1) NotStarted;
   OpFinish (shell 1) (Build_OutpostId 1) Gone;
   OpOutpostEnded (Build_OutpostId 1); OpExpire 500].

Lemma requests_answered_once_witness :
  let '(t, begun, answered) := table_run table_sample empty_table in
  begun = [10; 11; 12]%nat /\ waiting_askers t = [] /\
  answered = [(10%nat, NotStarted); (11%nat, Gone); (12%nat, Failed DEADLINE_PASSED)] /\
  begun ≡ₚ waiting_askers t ++ answered.*1.
Proof.
  pose proof (requests_answered_once table_sample ltac:(vm_compute; congruence)) as H.
  split_and!; [reflexivity..|exact H].
Defined.

Lemma requests_ended_exactly_witness :
  let t := (table_run (take 3 table_sample) empty_table).1.1 in
  (outpost_ended (Build_OutpostId 1) t).2 = [(10%nat, Gone); (11%nat, Gone)].
Proof.
  pose proof (requests_ended_exactly (take 3 table_sample) ltac:(vm_compute; congruence))
    as (_ & H & _).
  exact (H (Build_OutpostId 1)).
Defined.
