(* ===== verification/Speech.v ===== *)
(** * Utterances and speech sequences

    The structured utterances of [src/crates/verbatim-model/src/speech.rs] with
    the validity of focus speech, and the flat sequences of
    [src/crates/verbatim-speech/src/driver.rs] a synthesizer is given, with
    their splitting and the placing of sounds as marks from [manager.rs]. A
    sound is the number its [Arc] is known by, and a gain its 32 bits, which is
    how the source compares them. The theorems: splitting loses no item and
    leaves none of what it splits at; putting sounds in as marks can be undone. *)

From S2P Require Import Prelude Text Tree Keys TextModel Facts.

(** ** Utterances *)

Record UtteranceId := { utterance_number : N }.

#[export] Instance UtteranceId_eq_dec : EqDecision UtteranceId.
Proof. solve_decision. Defined.

#[export] Program Instance UtteranceId_countable : Countable UtteranceId :=
  inj_countable' utterance_number Build_UtteranceId _.
Next Obligation. by intros []. Qed.

Inductive UtteranceEnding :=
  | EndCompleted
  | EndCancelled
  | EndFailed (reason : string).

Inductive SpeechPriority := Interrupt | Next | Queued.

Inductive TypingEcho := EchoOff | EchoEditControls | EchoAlways.

Inductive TextFormat :=
  | FmtSpellingError | FmtNotSpellingError | FmtGrammarError | FmtNotGrammarError
  | FmtFontName (name : string) | FmtFontSize (size : string) | FmtColor (color : string)
  | FmtBold | FmtNotBold | FmtItalic | FmtNotItalic | FmtUnderline | FmtNotUnderline
  | FmtBackgroundColor (color : string) | FmtOnBackgroundColor (color : string)
  | FmtUnderlineStyle (style : LineStyle) | FmtStrikethrough (style : LineStyle)
  | FmtBullet (style : BulletStyle) | FmtLink | FmtNotLink.

Record SpeechMark := { mark_value : N }.

Inductive SelectionText :=
  | SelText (text : string)
  | SelCharacter (text : string)
  | SelCharacters (count : N).

Inductive Phrase :=
  | Selected (text : SelectionText)
  | Unselected (text : SelectionText)
  | SelectedInstead (text : SelectionText)
  | Preselected (text : SelectionText)
  | Positioned (x y : Z)
  | OffsetPositioned (offset length : N) (point : option (Z * Z))
  | SpeakTypedCharacters (echo : TypingEcho)
  | SpeakTypedWords (echo : TypingEcho)
  | SkippedLines (lines : N)
  | SkippedUncountedLines
  | SkippedMoreThanLines (lines : N)
  | SkippedAboutLines (lines : N)
  | Items (count : N)
  | LockKeyState (key : Toggle.LockKey) (on : bool)
  | CopiedToClipboard (text : string)
  | ShellItemGone (name : string)
  | ShellItemUnclickable (name : string).

Inductive Message :=
  | NoNextObject | NoPreviousObject | NoContainingObject | NoObjectsInside
  | MsgTop | MsgBottom | MsgLeft | MsgRight | MsgBlank | MoveToFocus | NoNavigatorObject | NoFocus
  | MsgActivate | NoAction | MsgInvoke | MsgSpace | StartMarked | NoStartMarker | PressTwiceToCopy
  | CaretMovesReview | CaretDoesNotMoveReview | NotSupported | CannotSelect | NoCaret
  | ReportNewOutputOn | ReportNewOutputOff | TerminalLineCut | SelectionRemoved | UnableToCopy
  | NoStatusBarInformation | NoStatusLineFound.

Inductive SegmentContent :=
  | SegText (text : string)
  | SegLabel (text : string)
  | SegValue (text : string)
  | SegDescription (text : string)
  | SegShortcut (text : string)
  | SegRole (role : Role)
  | SegState (state : State)
  | SegNegatedState (state : State)
  | SegPosition (position : N) (set_size : option N)
  | SegLevel (level : N)
  | SegRow (row : N)
  | SegColumn (column : N)
  | SegMessage (message : Message)
  | SegSpelledCapital (text : string)
  | SegCharacter (text : string)
  | SegCharacterDescription (text : string)
  | SegMark (mark : SpeechMark)
  | SegPhrase (phrase : Phrase)
  | SegFormat (format : TextFormat).

Record UtteranceSegment := { content : SegmentContent; segment_language : option string }.

(** [UtteranceSegment::new], [text], [label] and [value]. *)
Definition segment (content : SegmentContent) : UtteranceSegment :=
  {| content := content; segment_language := None |}.
Definition text_segment (text : string) : UtteranceSegment := segment (SegText text).
Definition label_segment (text : string) : UtteranceSegment := segment (SegLabel text).
Definition value_segment (text : string) : UtteranceSegment := segment (SegValue text).

Record UtteranceSource := { source_role : Role; source_rect : option Rect }.

(** [FocusValidity]. *)
Record FocusValidity := {
  valid_node : NodeId;
  had_focus : bool;
  valid_window : option WindowHandle;
}.

(** [FocusNow]. *)
Record FocusNow := {
  now_focus : ObjectKey;
  now_ancestors : list ObjectKey;
  now_foreground : option ObjectKey;
  menu_item_of_focus : option NodeId;
}.

(** [FocusValidity::holds]. *)
Definition holds (self : FocusValidity) (now : FocusNow) : bool :=
  let key := {| key_node := valid_node self; key_window := valid_window self |} in
  negb (had_focus self)
  || is_same_object key (now_focus now)
  || existsb (is_same_object key) (now_ancestors now)
  || match now_foreground now with Some f => is_same_object key f | None => false end
  || bool_decide (menu_item_of_focus now = Some (valid_node self)).

Record Utterance := {
  utt_trace_id : TraceId;
  priority : SpeechPriority;
  utt_segments : list UtteranceSegment;
  source : option UtteranceSource;
  validity : option FocusValidity;
  say_all : bool;
}.

(** ** Speech sequences *)

Record IndexMark := { index : N }.

#[export] Instance IndexMark_eq_dec : EqDecision IndexMark.
Proof. solve_decision. Defined.

(** [SoundCue]: the sound by its [Arc]'s number, the gain by its bits. *)
Record SoundCue := { cue_indication : string; cue_sound : N; cue_gain : N }.

Inductive SpeechItem :=
  | ItemText (text : string)
  | ItemMark (mark : IndexMark)
  | ItemPitch (offset : Z)
  | ItemSound (cue : SoundCue).

#[export] Instance SoundCue_eq_dec : EqDecision SoundCue.
Proof. solve_decision. Defined.
#[export] Instance SpeechItem_eq_dec : EqDecision SpeechItem.
Proof. solve_decision. Defined.

Record SpeechSequence := {
  seq_utterance : UtteranceId;
  seq_trace_id : TraceId;
  seq_language : option string;
  items : list SpeechItem;
}.

Module Sequence.

(** The UTF-8 encodings of the characters [char::is_whitespace] accepts. *)
Definition bytes (l : list N) : string :=
  foldr (fun b s => String (ascii_of_N b) s) EmptyString l.
Definition WHITESPACE : list string :=
  bytes <$> [[9]; [10]; [11]; [12]; [13]; [32]; [0xC2; 0x85]; [0xC2; 0xA0]; [0xE1; 0x9A; 0x80];
    [0xE2; 0x80; 0x80]; [0xE2; 0x80; 0x81]; [0xE2; 0x80; 0x82]; [0xE2; 0x80; 0x83];
    [0xE2; 0x80; 0x84]; [0xE2; 0x80; 0x85]; [0xE2; 0x80; 0x86]; [0xE2; 0x80; 0x87];
    [0xE2; 0x80; 0x88]; [0xE2; 0x80; 0x89]; [0xE2; 0x80; 0x8A]; [0xE2; 0x80; 0xA8];
    [0xE2; 0x80; 0xA9]; [0xE2; 0x80; 0xAF]; [0xE2; 0x81; 0x9F]; [0xE3; 0x80; 0x80]].

(** [starts_with(char::is_whitespace)] and [ends_with(char::is_whitespace)]. *)
Definition starts_with_whitespace (s : string) : bool :=
  existsb (fun w => String.prefix w s) WHITESPACE.
Definition ends_with_whitespace (s : string) : bool :=
  existsb (fun w => String.prefix (String.rev w) (String.rev s)) WHITESPACE.

(** The words [SpeechSequence::text] joins. *)
Definition words (self : SpeechSequence) : list string :=
  omap (fun item =>
    match item with
    | ItemText text => Some text
    | ItemSound cue => Some (String.append "sound: " (cue_indication cue))
    | ItemMark _ | ItemPitch _ => None
    end) (items self).

(** [SpeechSequence::text]. *)
Definition text (self : SpeechSequence) : string :=
  match words self with
  | [] => ""
  | first :: rest =>
      foldl (fun joined words =>
        let joined :=
          if negb (ends_with_whitespace joined) && negb (starts_with_whitespace words)
          then String.append joined " " else joined in
        String.append joined words) (String.append "" first) rest
  end.

(** [SpeechSequence::has_text], [has_marks], [marks], [has_pitch_changes]. *)
Definition has_text (self : SpeechSequence) : bool :=
  existsb (fun item => match item with ItemText text => negb (is_empty text) | _ => false end)
    (items self).
Definition has_marks (self : SpeechSequence) : bool :=
  existsb (fun item => match item with ItemMark _ => true | _ => false end) (items self).
Definition marks (self : SpeechSequence) : list IndexMark :=
  omap (fun item => match item with ItemMark mark => Some mark | _ => None end) (items self).
Definition is_pitch (item : SpeechItem) : bool :=
  match item with ItemPitch _ => true | _ => false end.
Definition has_pitch_changes (self : SpeechSequence) : bool := existsb is_pitch (items self).

(** [SpeechSequence::with_items]. *)
Definition with_items (self : SpeechSequence) (items : list SpeechItem) : SpeechSequence :=
  {| seq_utterance := seq_utterance self; seq_trace_id := seq_trace_id self;
     seq_language := seq_language self; items := items |}.

(** [SpeechSequence::without_pitch_changes]. *)
Definition without_pitch_changes (self : SpeechSequence) : SpeechSequence :=
  with_items self (List.filter (fun item => negb (is_pitch item)) (items self)).

(** Whether [split] splits at an item. *)
Definition splits_at (at_marks at_pitch : bool) (item : SpeechItem) : bool :=
  match item with ItemMark _ => at_marks | ItemPitch _ => at_pitch | _ => false end.

(** The loop of [SpeechSequence::split]: [taken] holds the items of the piece
    being made. *)
Fixpoint split_from (at_marks at_pitch : bool) (self : SpeechSequence) (taken rest : list SpeechItem) :
    list (SpeechSequence * option SpeechItem) :=
  match rest with
  | [] => [(with_items self taken, None)]
  | item :: rest =>
      if splits_at at_marks at_pitch item
      then (with_items self taken, Some item) :: split_from at_marks at_pitch self [] rest
      else split_from at_marks at_pitch self (taken ++ [item]) rest
  end.

(** [SpeechSequence::split] and [SpeechSequence::split_at_marks]. *)
Definition split (self : SpeechSequence) (at_marks at_pitch : bool) :
    list (SpeechSequence * option SpeechItem) :=
  split_from at_marks at_pitch self [] (items self).
Definition split_at_marks (self : SpeechSequence) : list (SpeechSequence * option IndexMark) :=
  (fun '(piece, after) =>
    (piece, match after with Some (ItemMark mark) => Some mark | _ => None end)) <$>
    split self true false.

(** [manager::SOUND_MARK]. *)
Definition SOUND_MARK : N := N.shiftl 1 63.

(** The mark [sounds_as_marks] puts in the place of the sound numbered [index]. *)
Definition sound_mark (index : nat) : IndexMark :=
  {| index := N.lor SOUND_MARK (N.of_nat index) |}.

(** The loop of [manager::sounds_as_marks]. *)
Fixpoint sounds_from (sounds : list SoundCue) (rest : list SpeechItem) :
    list SpeechItem * list SoundCue :=
  match rest with
  | [] => ([], sounds)
  | ItemSound cue :: rest =>
      let '(items, all) := sounds_from (sounds ++ [cue]) rest in
      (ItemMark (sound_mark (length sounds)) :: items, all)
  | item :: rest =>
      let '(items, all) := sounds_from sounds rest in (item :: items, all)
  end.

(** [manager::sounds_as_marks]. *)
Definition sounds_as_marks (sequence : SpeechSequence) : SpeechSequence * list SoundCue :=
  let '(items, sounds) := sounds_from [] (items sequence) in
  (with_items sequence items, sounds).

(** What [PipelineSink::forward] reads a mark as: the sound numbered by a mark
    with [SOUND_MARK] set, or the mark itself. *)
Definition mark_reads (sounds : list SoundCue) (mark : IndexMark) : option SoundCue + IndexMark :=
  if N.testbit (index mark) 63
  then inl (sounds !! N.to_nat (N.ldiff (index mark) SOUND_MARK))
  else inr mark.

(** ** Properties *)

(** The items of the pieces with the ones split at, in order. *)
Definition rejoined (pieces : list (SpeechSequence * option SpeechItem)) : list SpeechItem :=
  flat_map (fun '(piece, after) => items piece ++ option_list after) pieces.

Lemma split_from_spec am ap self taken rest :
  Forall (fun item => splits_at am ap item = false) taken ->
  let pieces := split_from am ap self taken rest in
  rejoined pieces = taken ++ rest /\
  Forall (fun '(piece, _) => Forall (fun item => splits_at am ap item = false) (items piece)
            /\ piece = with_items self (items piece)) pieces /\
  length pieces = S (length (List.filter (splits_at am ap) rest)).
Proof.
  revert taken. induction rest as [|item rest IH]; intros taken Ht; simpl.
  { rewrite !app_nil_r. split_and!; [done| |done]. by constructor. }
  destruct (splits_at am ap item) eqn:Hs; simpl.
  - destruct (IH [] ltac:(constructor)) as (Hj & Hf & Hl). unfold rejoined in *. simpl.
    rewrite Hj Hl -app_assoc. split_and!; [done| |done]. by constructor.
  - destruct (IH (taken ++ [item])) as (Hj & Hf & Hl).
    { by rewrite Forall_app Forall_singleton. }
    by rewrite Hj Hl -app_assoc.
Qed.

(** The low 63 bits of a sound's mark are its number, and its top bit is set. *)
Lemma sound_mark_reads sounds i :
  (N.of_nat i < 2 ^ 63)%N -> mark_reads sounds (sound_mark i) = inl (sounds !! i).
Proof.
  intros Hi. unfold mark_reads, sound_mark, SOUND_MARK. simpl index.
  assert (forall k, (63 <= k)%N -> N.testbit (N.of_nat i) k = false) as Hbits.
  { intros k Hk. destruct (decide (N.of_nat i = 0)%N) as [->|Hn]; [apply N.bits_0|].
    apply N.bits_above_log2. apply N.lt_le_trans with 63%N; [|done]. apply N.log2_lt_pow2; lia. }
  assert (N.testbit (N.shiftl 1 63) 63 = true) as Htop by reflexivity.
  assert (N.ldiff (N.lor (N.shiftl 1 63) (N.of_nat i)) (N.shiftl 1 63) = N.of_nat i) as ->;
    [|by rewrite N.lor_spec Htop /= Nat2N.id].
  apply N.bits_inj. intros k.
  rewrite N.ldiff_spec N.lor_spec. destruct (decide (k = 63)%N) as [->|Hk].
  { rewrite Htop andb_false_r. symmetry. by apply Hbits. }
  replace (N.testbit (N.shiftl 1 63) k) with false; [by rewrite orb_false_l andb_true_r|].
  destruct (decide (k < 63)%N); [by rewrite N.shiftl_spec_low|].
  rewrite N.shiftl_spec_high'; [|lia]. symmetry. apply N.bits_above_log2. simpl. lia.
Qed.

(** What the sink makes of an item of the sequence the synthesizer is given. *)
Definition item_reads (sounds : list SoundCue) (item : SpeechItem) : SpeechItem :=
  match item with
  | ItemMark mark =>
      match mark_reads sounds mark with
      | inl (Some cue) => ItemSound cue
      | inl None => item
      | inr mark => ItemMark mark
      end
  | item => item
  end.

Lemma sounds_from_spec sounds rest :
  let '(items, all) := sounds_from sounds rest in
  sounds `prefix_of` all /\
  length all = (length sounds + length (omap (fun item =>
    match item with ItemSound cue => Some cue | _ => None end) rest))%nat /\
  (Forall (fun item => match item with ItemMark m => N.testbit (index m) 63 = false | _ => True end) rest ->
   (N.of_nat (length all) <= 2 ^ 63)%N -> item_reads all <$> items = rest) /\
  Forall (fun item => match item with ItemSound _ => False | _ => True end) items.
Proof.
  revert sounds. induction rest as [|item rest IH]; intros sounds; simpl.
  { split_and!; [done|lia|done|done]. }
  destruct item as [t|m|p|cue]; csimpl.
  1-3: specialize (IH sounds); destruct (sounds_from sounds rest) as [its all];
    destruct IH as (Hp & Hl & Hr & Hn); split_and!; [done|done| |by constructor];
    intros Hm Hlt; inversion_clear Hm as [|?? Hm1 Hm2]; csimpl; rewrite Hr //; f_equal.
  { unfold mark_reads. by rewrite Hm1. }
  specialize (IH (sounds ++ [cue])). destruct (sounds_from (sounds ++ [cue]) rest) as [its all].
  destruct IH as (Hp & Hl & Hr & Hn). rewrite length_app in Hl. simpl in Hl.
  split_and!.
  - etrans; [|exact Hp]. by apply prefix_app_r.
  - lia.
  - intros Hm Hlt. inversion_clear Hm as [|?? _ Hm2]. csimpl. rewrite Hr //.
    rewrite sound_mark_reads; [|lia]. destruct Hp as [more ->].
    rewrite -app_assoc lookup_app_r // Nat.sub_diag. done.
  - by constructor.
Qed.

End Sequence.
