(* ===== verification/Trim.v ===== *)
(** * Silence trimming

    [src/crates/verbatim-speech/src/trim.rs]: the trimmer every synthesizer's
    audio goes through. A sample is a [Z] (an [i16]); audio and marks are the
    calls made, in order. The reference drops the quiet frames before the first
    audible one and after the last; the theorems show the trimmer's output is
    the reference's wherever its bound on held audio does not make it let go
    early, and that in every case it only ever drops quiet audio and keeps
    every mark in its place. *)

From S2P Require Import Prelude Speech.
Local Open Scope nat_scope.

(** [PcmFormat]. *)
Record PcmFormat := { sample_rate : N; channels : N }.

#[export] Instance PcmFormat_eq_dec : EqDecision PcmFormat.
Proof. solve_decision. Defined.

Definition QUIET : Z := 64.
Definition MAX_HELD_SAMPLES : nat := N.to_nat 192000.

(** [Piece]. *)
Inductive Piece :=
  | Pcm (format : PcmFormat) (samples : list Z)
  | PieceMark (mark : IndexMark).

(** [Trimmer]. *)
Record Trimmer := {
  trim_started : bool;
  held : list Z;
  held_format : option PcmFormat;
  held_marks : list (nat * IndexMark);
}.

(** [Trimmer::default]. *)
Definition new_trimmer : Trimmer :=
  {| trim_started := false; held := []; held_format := None; held_marks := [] |}.

(** [slice::chunks_exact]: the whole runs of [n] samples, the partial last one
    left out; [fuel] is the length, as each run takes at least one. *)
Fixpoint chunks_exact_ (fuel n : nat) (l : list Z) : list (list Z) :=
  match fuel with
  | O => []
  | S fuel => if decide (length l < n) then [] else take n l :: chunks_exact_ fuel n (drop n l)
  end.
Definition chunks_exact (n : nat) (l : list Z) : list (list Z) := chunks_exact_ (length l) n l.

(** [slice::get(from..at)]. *)
Definition get_range (from at_ : nat) (l : list Z) : option (list Z) :=
  if decide (from <= at_ /\ at_ <= length l) then Some (take (at_ - from) (drop from l)) else None.

(** The loop of [Trimmer::release] over the marks held: the pieces, and where
    the audio after the last of them starts. *)
Fixpoint release_marks (format : PcmFormat) (held : list Z) (from : nat)
    (marks : list (nat * IndexMark)) : list Piece * nat :=
  match marks with
  | [] => ([], from)
  | (at_, mark) :: marks =>
      let before :=
        if decide (from < at_) then
          match get_range from at_ held with Some piece => [Pcm format piece] | None => [] end
        else [] in
      let '(out, last) := release_marks format held (Nat.max from at_) marks in
      (before ++ PieceMark mark :: out, last)
  end.

(** [Trimmer::release], giving the pieces it adds to the output. *)
Definition release (self : Trimmer) : Trimmer * list Piece :=
  match held_format self with
  | None =>
      ({| trim_started := trim_started self; held := held self; held_format := None;
          held_marks := [] |}, (fun p => PieceMark p.2) <$> held_marks self)
  | Some format =>
      let '(out, from) := release_marks format (held self) 0 (held_marks self) in
      ({| trim_started := trim_started self; held := []; held_format := None; held_marks := [] |},
       out ++ match get_range from (length (held self)) (held self) with
              | Some (x :: rest) => [Pcm format (x :: rest)]
              | _ => []
              end)
  end.

(** A frame whose every sample is quiet. *)
Definition quiet (frame : list Z) : bool :=
  forallb (fun sample => (Z.abs sample <=? QUIET)%Z) frame.

(** [if !audible.is_empty() { out.push(..) }]. *)
Definition pcm_of (format : PcmFormat) (audible : list Z) : list Piece :=
  match audible with [] => [] | _ => [Pcm format audible] end.

(** The loop of [Trimmer::push] over the frames, with the audible run so far. *)
Fixpoint push_frames (format : PcmFormat) (frames : list (list Z)) (audible : list Z)
    (self : Trimmer) : Trimmer * list Piece :=
  match frames with
  | [] => (self, pcm_of format audible)
  | frame :: frames =>
      if quiet frame then
        if trim_started self then
          let self := {| trim_started := true; held := held self ++ frame;
                         held_format := Some format; held_marks := held_marks self |} in
          let '(self, released) :=
            if decide (MAX_HELD_SAMPLES < length (held self)) then release self else (self, []) in
          let '(self, out) := push_frames format frames [] self in
          (self, pcm_of format audible ++ released ++ out)
        else push_frames format frames audible self
      else
        let self := {| trim_started := true; held := held self; held_format := held_format self;
                       held_marks := held_marks self |} in
        let '(self, released) :=
          match held self, held_marks self with
          | [], [] => (self, [])
          | _, _ => release self
          end in
        let '(self, out) := push_frames format frames (audible ++ frame) self in
        (self, released ++ out)
  end.

(** The channels of a format, at least one. *)
Definition channel_count (format : PcmFormat) : nat := N.to_nat (N.max (channels format) 1).

(** [Trimmer::push]. *)
Definition push (format : PcmFormat) (samples : list Z) (self : Trimmer) : Trimmer * list Piece :=
  let '(self, out) :=
    match held_format self with
    | Some held => if decide (held <> format) then release self else (self, [])
    | None => (self, [])
    end in
  let '(self, rest) := push_frames format (chunks_exact (channel_count format) samples) [] self in
  (self, out ++ rest).

(** [Trimmer::mark]. *)
Definition mark (m : IndexMark) (self : Trimmer) : Trimmer * list Piece :=
  match held self with
  | [] => (self, [PieceMark m])
  | _ => ({| trim_started := trim_started self; held := held self; held_format := held_format self;
             held_marks := held_marks self ++ [(length (held self), m)] |}, [])
  end.

(** [Trimmer::finish]. *)
Definition trim_finish (self : Trimmer) : Trimmer * list Piece :=
  ({| trim_started := false; held := []; held_format := None; held_marks := [] |},
   (fun p => PieceMark p.2) <$> held_marks self).

(** What a synthesizer gives for one utterance, and the trimmer over it, ended
    by [finish]. *)
Inductive TrimCall := CallPush (format : PcmFormat) (samples : list Z) | CallMark (m : IndexMark).

Definition trim_call (call : TrimCall) (self : Trimmer) : Trimmer * list Piece :=
  match call with
  | CallPush format samples => push format samples self
  | CallMark m => mark m self
  end.

Fixpoint trim_calls (calls : list TrimCall) (self : Trimmer) : Trimmer * list Piece :=
  match calls with
  | [] => (self, [])
  | call :: calls =>
      let '(self, out) := trim_call call self in
      let '(self, rest) := trim_calls calls self in
      (self, out ++ rest)
  end.

Definition trim_run (calls : list TrimCall) : list Piece :=
  let '(self, out) := trim_calls calls new_trimmer in out ++ (trim_finish self).2.

(** ** The reference *)

(** The whole frames and the marks of a run of calls, in order. *)
Inductive Token := TFrame (format : PcmFormat) (frame : list Z) | TMark (m : IndexMark).

Definition tokens_of (call : TrimCall) : list Token :=
  match call with
  | CallPush format samples => TFrame format <$> chunks_exact (channel_count format) samples
  | CallMark m => [TMark m]
  end.
Definition tokens (calls : list TrimCall) : list Token := flat_map tokens_of calls.

Definition audible_token (t : Token) : bool :=
  match t with TFrame _ frame => negb (quiet frame) | TMark _ => false end.
Definition is_mark (t : Token) : bool := match t with TMark _ => true | TFrame _ _ => false end.

(** The quiet frames before the first audible one left out. *)
Fixpoint lead_trim (ts : list Token) : list Token :=
  match ts with
  | [] => []
  | t :: ts =>
      if audible_token t then t :: ts
      else if is_mark t then t :: lead_trim ts else lead_trim ts
  end.

(** The tokens after the last audible frame, and those up to it. *)
Fixpoint quiet_tail (ts : list Token) : list Token :=
  match ts with
  | [] => []
  | t :: ts => if existsb audible_token (t :: ts) then quiet_tail ts else t :: ts
  end.
Fixpoint up_to_audible (ts : list Token) : list Token :=
  match ts with
  | [] => []
  | t :: ts => if existsb audible_token (t :: ts) then t :: up_to_audible ts else []
  end.

(** The quiet frames before the first audible frame and after the last left
    out, every mark kept. *)
Definition trimmed (ts : list Token) : list Token :=
  up_to_audible (lead_trim ts) ++ List.filter is_mark (quiet_tail (lead_trim ts)).

(** Samples and marks, however they are cut into frames or pieces. *)
Inductive Sample := SAudio (format : PcmFormat) (x : Z) | SMark (m : IndexMark).

Definition flat_token (t : Token) : list Sample :=
  match t with TFrame format frame => SAudio format <$> frame | TMark m => [SMark m] end.
Definition flat_tokens (ts : list Token) : list Sample := flat_map flat_token ts.
Definition flat_piece (p : Piece) : list Sample :=
  match p with Pcm format samples => SAudio format <$> samples | PieceMark m => [SMark m] end.
Definition flat_pieces (ps : list Piece) : list Sample := flat_map flat_piece ps.
Definition is_smark (s : Sample) : bool := match s with SMark _ => true | SAudio _ _ => false end.

(** ** Lemmas on the reference *)

Lemma existsb_snoc {A} (f : A -> bool) l x : existsb f (l ++ [x]) = existsb f l || f x.
Proof. by rewrite existsb_app /= orb_false_r. Qed.

Lemma lead_trim_snoc ts t :
  lead_trim (ts ++ [t]) =
    lead_trim ts ++ (if existsb audible_token ts || audible_token t || is_mark t then [t] else []).
Proof.
  induction ts as [|x ts IH]; simpl.
  { by destruct (audible_token t), (is_mark t). }
  destruct (audible_token x) eqn:Hx; simpl; [done|].
  destruct (is_mark x); simpl; by rewrite IH.
Qed.

Lemma quiet_tail_none ts : existsb audible_token ts = false -> quiet_tail ts = ts.
Proof. destruct ts as [|t ts]; simpl; [done|]. by intros ->. Qed.

Lemma up_to_audible_tail ts : ts = up_to_audible ts ++ quiet_tail ts.
Proof.
  induction ts as [|t ts IH]; cbn [up_to_audible quiet_tail]; [done|].
  case_match; simpl; [by f_equal|done].
Qed.

Lemma quiet_tail_snoc ts t :
  quiet_tail (ts ++ [t]) = if audible_token t then [] else quiet_tail ts ++ [t].
Proof.
  induction ts as [|x ts IH]; cbn [quiet_tail app].
  { simpl. by destruct (audible_token t). }
  rewrite -[x :: ts ++ [t]]/((x :: ts) ++ [t]) existsb_snoc IH.
  destruct (audible_token t); [by rewrite orb_true_r|]. rewrite orb_false_r.
  by case_match.
Qed.

Lemma lead_trim_audible ts :
  existsb audible_token (lead_trim ts) = existsb audible_token ts.
Proof.
  induction ts as [|t ts IH]; simpl; [done|]. destruct (audible_token t) eqn:Ht; simpl; [by rewrite Ht|].
  by destruct (is_mark t); simpl; rewrite ?Ht.
Qed.

Lemma flat_tokens_app a b : flat_tokens (a ++ b) = flat_tokens a ++ flat_tokens b.
Proof. apply flat_map_app. Qed.
Lemma flat_pieces_app a b : flat_pieces (a ++ b) = flat_pieces a ++ flat_pieces b.
Proof. apply flat_map_app. Qed.

Lemma flat_token_marks ts : flat_tokens (List.filter is_mark ts) = List.filter is_smark (flat_tokens ts).
Proof.
  induction ts as [|t ts IH]; simpl; [done|]. unfold flat_tokens in *. simpl.
  rewrite List.filter_app. destruct t as [f fr|m]; simpl; [|by rewrite IH].
  rewrite IH. replace (List.filter is_smark (SAudio f <$> fr)) with (@nil Sample); [done|].
  by induction fr.
Qed.

(** ** What is held *)

(** The held audio from [from] on, with the marks in their places. *)
Fixpoint weave (f : PcmFormat) (held : list Z) (from : nat) (marks : list (nat * IndexMark)) :
    list Sample :=
  match marks with
  | [] => SAudio f <$> drop from held
  | (at_, m) :: marks =>
      (SAudio f <$> take (at_ - from) (drop from held)) ++ SMark m :: weave f held at_ marks
  end.

Fixpoint marks_between (lo hi : nat) (marks : list (nat * IndexMark)) : Prop :=
  match marks with
  | [] => lo <= hi
  | (at_, _) :: marks => lo <= at_ /\ marks_between at_ hi marks
  end.

Definition held_flat (self : Trimmer) : list Sample :=
  match held_format self with
  | Some f => weave f (held self) 0 (held_marks self)
  | None => []
  end.

(** Nothing is held in no format; what is held is quiet, has its marks in
    order within it, and is within the bound. *)
Definition trim_wf (self : Trimmer) : Prop :=
  match held_format self with
  | None => held self = [] /\ held_marks self = []
  | Some _ => held self <> [] /\ marks_between 0 (length (held self)) (held_marks self) /\
      quiet (held self) = true /\ trim_started self = true
  end.

Lemma marks_between_le lo hi marks : marks_between lo hi marks -> lo <= hi.
Proof. revert lo. induction marks as [|[at_ m] marks IH]; simpl; [done|]. intros lo [? ?%IH]. lia. Qed.

Lemma marks_between_more lo hi hi' marks :
  marks_between lo hi marks -> hi <= hi' -> marks_between lo hi' marks.
Proof.
  revert lo. induction marks as [|[at_ m] marks IH]; simpl; [lia|]. intros lo [? ?] ?. eauto.
Qed.

Lemma marks_between_snoc lo hi m marks :
  marks_between lo hi marks -> marks_between lo hi (marks ++ [(hi, m)]).
Proof.
  revert lo. induction marks as [|[at_ m'] marks IH]; simpl; [lia|]. intros lo [? ?]. eauto.
Qed.

Lemma weave_frame f held from marks frame :
  marks_between from (length held) marks ->
  weave f (held ++ frame) from marks = weave f held from marks ++ (SAudio f <$> frame).
Proof.
  revert from. induction marks as [|[at_ m] marks IH]; simpl; intros from.
  - intros Hle. rewrite drop_app_le // fmap_app //.
  - intros [Hle Hm]. pose proof (marks_between_le _ _ _ Hm).
    rewrite IH // -app_assoc /=. do 2 f_equal. rewrite drop_app_le; [|lia].
    rewrite take_app_le // length_drop. lia.
Qed.

Lemma weave_mark f held from marks m :
  marks_between from (length held) marks ->
  weave f held from (marks ++ [(length held, m)]) = weave f held from marks ++ [SMark m].
Proof.
  revert from. induction marks as [|[at_ m'] marks IH]; simpl; intros from.
  - intros Hle. rewrite drop_all. simpl. f_equal. f_equal. apply take_ge. rewrite length_drop. lia.
  - intros [Hle Hm]. rewrite IH // -app_assoc //.
Qed.

(** The pieces [release] makes are what is held. *)
Lemma release_marks_flat f held from marks :
  marks_between from (length held) marks ->
  let '(out, last) := release_marks f held from marks in
  flat_pieces out ++ (SAudio f <$> drop last held) = weave f held from marks /\ last <= length held.
Proof.
  revert from. induction marks as [|[at_ m] marks IH]; simpl; intros from; [done|].
  intros [Hle Hm]. specialize (IH at_ Hm). rewrite Nat.max_r //.
  destruct (release_marks f held at_ marks) as [out last]. destruct IH as [IH Hlast].
  split; [|done]. rewrite flat_pieces_app -app_assoc -IH. pose proof (marks_between_le _ _ _ Hm).
  case_decide as Hlt.
  - unfold get_range. rewrite decide_True //. simpl. by rewrite app_nil_r.
  - replace (at_ - from) with 0 by lia. done.
Qed.

Lemma release_flat self :
  trim_wf self ->
  flat_pieces (release self).2 = held_flat self /\
  held (release self).1 = [] /\ held_format (release self).1 = None /\
  held_marks (release self).1 = [] /\ trim_started (release self).1 = trim_started self.
Proof.
  unfold trim_wf, release, held_flat. destruct (held_format self) as [f|].
  - intros (_ & Hm & _). pose proof (release_marks_flat f (held self) 0 (held_marks self) Hm) as H.
    destruct (release_marks f (held self) 0 (held_marks self)) as [out last]. destruct H as [<- Hlast].
    simpl. split; [|done]. rewrite flat_pieces_app. f_equal.
    unfold get_range. rewrite decide_True //. rewrite take_ge; [|rewrite length_drop; lia].
    destruct (drop last (held self)); simpl; by rewrite ?app_nil_r.
  - intros [Hh Hm]. simpl. by rewrite Hm.
Qed.

(** ** The invariant of a run *)

Definition audio (l : list Sample) : list Sample := List.filter (fun s => negb (is_smark s)) l.
Definition tail_samples (ts : list Token) : list Sample :=
  audio (flat_tokens (quiet_tail (lead_trim ts))).

(** After the tokens [ts] with [done] passed on: [done] and what is held are
    the tokens without their quiet start; in a run all of format [F], while
    the quiet tail is within the bound, all its audio is held. *)
Record tinv (F : option PcmFormat) (ts : list Token) (self : Trimmer) (done_ : list Sample) : Prop := {
  ti_stream : done_ ++ held_flat self = flat_tokens (lead_trim ts);
  ti_started : trim_started self = existsb audible_token ts;
  ti_wf : trim_wf self;
  ti_bound : length (held self) <= MAX_HELD_SAMPLES;
  ti_format : forall f g, F = Some f -> held_format self = Some g -> g = f;
  ti_tail : forall f, F = Some f -> length (tail_samples ts) <= MAX_HELD_SAMPLES ->
    exists v, Forall (fun s => is_smark s = true) v /\
      flat_tokens (quiet_tail (lead_trim ts)) = v ++ held_flat self;
}.

Lemma tinv_new F : tinv F [] new_trimmer [].
Proof.
  split; try done.
  - apply Nat.le_0_l.
  - intros f _ _. by exists [].
Qed.

Lemma audio_app a b : audio (a ++ b) = audio a ++ audio b.
Proof. apply List.filter_app. Qed.

Lemma audio_frame f frame : audio (SAudio f <$> frame) = SAudio f <$> frame.
Proof. unfold audio. induction frame; simpl in *; [done|]. by f_equal. Qed.

Lemma audio_marks v : Forall (fun s => is_smark s = true) v -> audio v = [].
Proof. unfold audio. induction 1 as [|s v Hs _ IH]; simpl; [done|]. by rewrite Hs. Qed.

Lemma audio_weave f held from marks :
  marks_between from (length held) marks -> audio (weave f held from marks) = SAudio f <$> drop from held.
Proof.
  revert from. induction marks as [|[at_ m] marks IH]; simpl; intros from.
  { intros _. apply audio_frame. }
  intros [Hle Hm]. rewrite audio_app audio_frame. cbn [audio List.filter is_smark negb].
  fold (audio (weave f held at_ marks)). rewrite IH // -fmap_app. f_equal.
  replace (drop at_ held) with (drop (at_ - from) (drop from held)); [apply take_drop|].
  rewrite drop_drop. f_equal. lia.
Qed.

Lemma held_audio self : trim_wf self -> length (audio (held_flat self)) = length (held self).
Proof.
  unfold trim_wf, held_flat. destruct (held_format self) as [f|]; [|by intros [-> _]].
  intros (_ & Hm & _). by rewrite audio_weave // length_fmap drop_0.
Qed.

Lemma quiet_app a b : quiet (a ++ b) = quiet a && quiet b.
Proof. apply forallb_app. Qed.

(** Nothing held: the fields [release] leaves. *)
Lemma empty_held self :
  held self = [] -> held_format self = None -> held_marks self = [] ->
  held_flat self = [] /\ trim_wf self.
Proof. intros H1 H2 H3. unfold held_flat, trim_wf. by rewrite H2. Qed.

Lemma release_tinv ts self done_ :
  tinv None ts self done_ ->
  tinv None ts (release self).1 (done_ ++ flat_pieces (release self).2).
Proof.
  intros [Hs Hst Hwf Hb Hf Ht]. destruct (release_flat self Hwf) as (Hfl & Hh & Hhf & Hhm & Hstd).
  destruct (empty_held _ Hh Hhf Hhm) as [Hflat Hwf']. split; try done.
  - by rewrite Hflat app_nil_r Hfl.
  - by rewrite Hstd.
  - rewrite Hh. apply Nat.le_0_l.
Qed.

(** A quiet frame before the first audible one is left out. *)
Lemma quiet_before_tinv F ts self done_ f frame :
  tinv F ts self done_ -> quiet frame = true -> trim_started self = false ->
  tinv F (ts ++ [TFrame f frame]) self done_.
Proof.
  intros [Hs Hst Hwf Hb Hf Ht] Hq Hns. rewrite Hst in Hns.
  assert (lead_trim (ts ++ [TFrame f frame]) = lead_trim ts) as Hl.
  { rewrite lead_trim_snoc Hns /= Hq. by rewrite app_nil_r. }
  split; try done.
  - by rewrite Hl.
  - by rewrite existsb_snoc Hst /= Hq orb_false_r.
  - unfold tail_samples. by rewrite Hl.
Qed.

(** The trimmer with one quiet frame more held. *)
Definition hold_frame (f : PcmFormat) (frame : list Z) (self : Trimmer) : Trimmer :=
  {| trim_started := true; held := held self ++ frame; held_format := Some f;
     held_marks := held_marks self |}.

Lemma hold_frame_wf f frame self :
  trim_wf self -> (forall g, held_format self = Some g -> g = f) -> frame <> [] ->
  quiet frame = true ->
  trim_wf (hold_frame f frame self) /\
  held_flat (hold_frame f frame self) = held_flat self ++ (SAudio f <$> frame).
Proof.
  intros Hwf Hf Hne Hq. unfold trim_wf, held_flat in *. simpl.
  destruct (held_format self) as [g|].
  - destruct Hwf as (Hh & Hm & Hqh & _). rewrite (Hf g eq_refl) weave_frame // quiet_app Hqh Hq.
    split_and!; try done; [by destruct (held self)|].
    eapply marks_between_more; [exact Hm|]. rewrite length_app. lia.
  - destruct Hwf as [-> ->]. simpl. rewrite drop_0. split_and!; try done. lia.
Qed.

Lemma quiet_tinv F ts self done_ f frame :
  tinv F ts self done_ -> frame <> [] -> quiet frame = true -> trim_started self = true ->
  (forall g, held_format self = Some g -> g = f) -> (forall g, F = Some g -> g = f) ->
  let self1 := hold_frame f frame self in
  let '(self2, released) :=
    if decide (MAX_HELD_SAMPLES < length (held self1)) then release self1 else (self1, []) in
  tinv F (ts ++ [TFrame f frame]) self2 (done_ ++ flat_pieces released) /\
  (forall g, held_format self2 = Some g -> g = f).
Proof.
  intros [Hs Hst Hwf Hb Hf Ht] Hne Hq Hstd Hhf HF self1.
  destruct (hold_frame_wf f frame self Hwf Hhf Hne Hq) as [Hwf1 Hfl1]. fold self1 in Hwf1, Hfl1.
  rewrite Hst in Hstd.
  assert (lead_trim (ts ++ [TFrame f frame]) = lead_trim ts ++ [TFrame f frame]) as Hl.
  { by rewrite lead_trim_snoc Hstd. }
  assert (existsb audible_token (ts ++ [TFrame f frame]) = true) as Haud.
  { by rewrite existsb_snoc Hstd. }
  assert (quiet_tail (lead_trim (ts ++ [TFrame f frame]))
          = quiet_tail (lead_trim ts) ++ [TFrame f frame]) as Hqt.
  { by rewrite Hl quiet_tail_snoc /= Hq. }
  assert (done_ ++ held_flat self1 = flat_tokens (lead_trim (ts ++ [TFrame f frame]))) as Hstream.
  { rewrite Hl flat_tokens_app -Hs Hfl1 /= app_nil_r app_assoc //. }
  assert (forall g, F = Some g -> length (tail_samples (ts ++ [TFrame f frame])) <= MAX_HELD_SAMPLES ->
    exists v, Forall (fun s => is_smark s = true) v /\
      flat_tokens (quiet_tail (lead_trim (ts ++ [TFrame f frame]))) = v ++ held_flat self1) as Htail.
  { intros g HFg Hlen. destruct (Ht g HFg) as (v & Hv & Heq).
    { etrans; [|exact Hlen]. unfold tail_samples. rewrite Hqt flat_tokens_app audio_app length_app. lia. }
    exists v. split; [done|]. by rewrite Hqt flat_tokens_app Heq Hfl1 /= app_nil_r app_assoc. }
  case_decide as Hlong.
  - destruct (release_flat self1 Hwf1) as (Hfl & Hh & Hhf2 & Hhm & Hstd2).
    destruct (empty_held _ Hh Hhf2 Hhm) as [Hflat Hwf2].
    destruct (release self1) as [self2 released]. simpl in *. split; [|by rewrite Hhf2].
    split; try done.
    + by rewrite Hflat app_nil_r Hfl.
    + by rewrite Hstd2 Haud.
    + rewrite Hh. apply Nat.le_0_l.
    + by rewrite Hhf2.
    + intros g HFg Hlen. exfalso. destruct (Htail g HFg Hlen) as (v & Hv & Heq).
      unfold tail_samples in Hlen. rewrite Heq audio_app length_app in Hlen.
      rewrite held_audio // audio_marks // in Hlen. simpl in Hlen. lia.
  - simpl. rewrite app_nil_r. split; [|by intros g [= <-]].
    split; try done; [by apply Nat.nlt_ge|].
    intros g1 g2 HFg [= <-]. symmetry. by apply HF.
Qed.

(** The trimmer at an audible frame: started, with nothing held after. *)
Definition start_audible (self : Trimmer) : Trimmer :=
  {| trim_started := true; held := held self; held_format := held_format self;
     held_marks := held_marks self |}.

Lemma audible_tinv F ts self done_ f frame :
  tinv F ts self done_ -> quiet frame = false ->
  let self1 := start_audible self in
  let '(self2, released) :=
    match held self1, held_marks self1 with [], [] => (self1, []) | _, _ => release self1 end in
  tinv F (ts ++ [TFrame f frame]) self2 (done_ ++ flat_pieces released ++ (SAudio f <$> frame)) /\
  held_format self2 = None /\ (held_format self = None -> released = []).
Proof.
  intros [Hs Hst Hwf Hb Hf Ht] Hq self1.
  assert (trim_wf self1) as Hwf1.
  { unfold trim_wf in *. simpl. by destruct (held_format self); naive_solver. }
  assert (lead_trim (ts ++ [TFrame f frame]) = lead_trim ts ++ [TFrame f frame]) as Hl.
  { rewrite lead_trim_snoc /= Hq. by destruct (existsb audible_token ts). }
  assert (quiet_tail (lead_trim (ts ++ [TFrame f frame])) = []) as Hqt.
  { by rewrite Hl quiet_tail_snoc /= Hq. }
  assert (exists self2 released,
    match held self1, held_marks self1 with [], [] => (self1, []) | _, _ => release self1 end
      = (self2, released) /\ flat_pieces released = held_flat self /\ held self2 = [] /\
    held_format self2 = None /\ held_marks self2 = [] /\ trim_started self2 = true /\
    (held_format self = None -> released = [])) as (self2 & released & -> & Hfl & Hh & Hhf & Hhm & Hstd & Hrel).
  { destruct (release_flat self1 Hwf1) as (Hfl & Hh & Hhf & Hhm & Hstd).
    unfold trim_wf, held_flat in *. simpl in *. destruct (held_format self) as [g|] eqn:Hg.
    - destruct Hwf as (Hne & _). destruct (held self) as [|x l]; [done|].
      destruct (release self1) as [self2 released]. exists self2, released.
      split_and!; try done.
    - destruct Hwf as [Hh0 Hm0]. rewrite Hh0 Hm0. exists self1, []. split_and!; try done. }
  destruct (empty_held _ Hh Hhf Hhm) as [Hflat Hwf2]. split; [|done]. split.
  - rewrite Hflat app_nil_r Hfl Hl flat_tokens_app -Hs /= app_nil_r -!app_assoc //.
  - by rewrite Hstd existsb_snoc /= Hq orb_true_r.
  - done.
  - rewrite Hh. apply Nat.le_0_l.
  - intros g1 g2 _. by rewrite Hhf.
  - intros g _ _. exists []. by rewrite Hqt Hflat.
Qed.

Lemma mark_tinv F ts self done_ m :
  tinv F ts self done_ ->
  let '(self', out) := mark m self in
  tinv F (ts ++ [TMark m]) self' (done_ ++ flat_pieces out) /\ held_format self' = held_format self.
Proof.
  intros [Hs Hst Hwf Hb Hf Ht].
  assert (lead_trim (ts ++ [TMark m]) = lead_trim ts ++ [TMark m]) as Hl.
  { rewrite lead_trim_snoc /=. by rewrite orb_true_r. }
  assert (quiet_tail (lead_trim (ts ++ [TMark m])) = quiet_tail (lead_trim ts) ++ [TMark m]) as Hqt.
  { by rewrite Hl quiet_tail_snoc. }
  assert (tail_samples (ts ++ [TMark m]) = tail_samples ts) as Htl.
  { unfold tail_samples. by rewrite Hqt flat_tokens_app audio_app /= app_nil_r. }
  unfold mark. destruct (held self) as [|x l] eqn:Hheld.
  - assert (held_flat self = []) as Hflat.
    { unfold trim_wf, held_flat in *. rewrite Hheld in Hwf.
      destruct (held_format self); [by destruct Hwf as [? _]|done]. }
    split; [|done]. rewrite Hflat app_nil_r in Hs. split; try done.
    + by rewrite Hflat app_nil_r Hl flat_tokens_app Hs.
    + by rewrite existsb_snoc Hst orb_false_r.
    + rewrite Hheld. apply Nat.le_0_l.
    + rewrite Htl. intros f HF Hlen. destruct (Ht f HF Hlen) as (v & Hv & Heq).
      exists (v ++ [SMark m]). rewrite Hqt flat_tokens_app Heq Hflat !app_nil_r /=.
      split; [|done]. by rewrite Forall_app Forall_singleton.
  - set (self' := {| trim_started := _ |}).
    assert (held_flat self' = held_flat self ++ [SMark m] /\ trim_wf self') as [Hflat Hwf'].
    { unfold trim_wf, held_flat in *. simpl. destruct (held_format self) as [f|].
      - rewrite Hheld in Hwf. destruct Hwf as (? & Hm & ? & ?). rewrite Hheld.
        rewrite (weave_mark f (x :: l)) //. split_and!; try done. by apply marks_between_snoc.
      - rewrite Hheld in Hwf. by destruct Hwf. }
    split; [|done]. split; try done.
    + by rewrite Hflat Hl flat_tokens_app -Hs /= app_nil_r app_assoc.
    + by rewrite existsb_snoc /= Hst orb_false_r.
    + rewrite Htl. intros f HF Hlen. destruct (Ht f HF Hlen) as (v & Hv & Heq).
      exists v. split; [done|]. by rewrite Hqt flat_tokens_app Heq Hflat /= app_assoc.
Qed.

Lemma flat_pcm_of f audible : flat_pieces (pcm_of f audible) = SAudio f <$> audible.
Proof. destruct audible; [done|]. unfold pcm_of, flat_pieces. simpl. by rewrite app_nil_r. Qed.

Lemma push_frames_tinv F f frames ts self done_ audible :
  Forall (fun frame => frame <> []) frames -> (forall g, F = Some g -> g = f) ->
  tinv F ts self (done_ ++ (SAudio f <$> audible)) ->
  (forall g, held_format self = Some g -> g = f) -> (audible <> [] -> held_format self = None) ->
  let '(self', out) := push_frames f frames audible self in
  tinv F (ts ++ (TFrame f <$> frames)) self' (done_ ++ flat_pieces out).
Proof.
  revert ts self done_ audible. induction frames as [|frame frames IH];
    intros ts self done_ audible Hne HF Hinv Hhf Haud; cbn [push_frames].
  { by rewrite app_nil_r flat_pcm_of. }
  inversion_clear Hne as [|?? Hfr Hne'].
  assert (ts ++ (TFrame f <$> frame :: frames) = (ts ++ [TFrame f frame]) ++ (TFrame f <$> frames))
    as -> by by rewrite -app_assoc.
  destruct (quiet frame) eqn:Hq; [destruct (trim_started self) eqn:Hst|].
  - pose proof (quiet_tinv F ts self _ f frame Hinv Hfr Hq Hst Hhf HF) as H. cbv zeta in H.
    unfold hold_frame in H. destruct (if decide _ then _ else _) as [self2 released].
    destruct H as [Hinv2 Hhf2].
    specialize (IH (ts ++ [TFrame f frame]) self2
      ((done_ ++ (SAudio f <$> audible)) ++ flat_pieces released) [] Hne' HF).
    rewrite app_nil_r in IH. specialize (IH Hinv2 Hhf2 ltac:(done)).
    destruct (push_frames f frames [] self2) as [self' out].
    by rewrite !flat_pieces_app flat_pcm_of !app_assoc.
  - apply IH; try done. by apply quiet_before_tinv.
  - pose proof (audible_tinv F ts self _ f frame Hinv Hq) as H. cbv zeta in H.
    unfold start_audible in H. cbn [held held_marks] in H |- *.
    destruct (match held self with [] => _ | _ => _ end) as [self2 released].
    destruct H as (Hinv2 & Hnone & Hrel).
    specialize (IH (ts ++ [TFrame f frame]) self2 (done_ ++ flat_pieces released)
      (audible ++ frame) Hne' HF).
    destruct (push_frames f frames (audible ++ frame) self2) as [self' out].
    rewrite flat_pieces_app app_assoc. apply IH; [|by rewrite Hnone|done].
    rewrite fmap_app. destruct audible as [|x audible].
    + rewrite app_nil_r in Hinv2. by rewrite -app_assoc.
    + rewrite Hrel in Hinv2 |- *; [|by apply Haud..]. simpl in *.
      rewrite app_nil_r. by rewrite -!app_assoc in Hinv2 |- *.
Qed.

Lemma chunks_exact_nonempty n l : 0 < n -> Forall (fun frame => frame <> []) (chunks_exact n l).
Proof.
  intros Hn. unfold chunks_exact. generalize (length l) as fuel. intros fuel. revert l.
  induction fuel as [|fuel IH]; intros l; simpl; [done|]. case_decide as Hl; [done|].
  constructor; [|by apply IH]. intros Hnil%(f_equal length). rewrite length_take /= in Hnil. lia.
Qed.

Lemma trim_call_tinv F call ts self done_ :
  (forall f, F = Some f -> match call with CallPush g _ => g = f | CallMark _ => True end) ->
  tinv F ts self done_ ->
  let '(self', out) := trim_call call self in
  tinv F (ts ++ tokens_of call) self' (done_ ++ flat_pieces out).
Proof.
  intros HF Hinv. destruct call as [f samples|m]; simpl in *.
  - assert (forall g, F = Some g -> g = f) as HF' by (intros g Hg; symmetry; by apply HF).
    unfold push.
    assert (exists self1 out1,
      match held_format self with
      | Some held => if decide (held <> f) then release self else (self, [])
      | None => (self, [])
      end = (self1, out1) /\ tinv F ts self1 (done_ ++ flat_pieces out1) /\
      (forall g, held_format self1 = Some g -> g = f)) as (self1 & out1 & -> & Hinv1 & Hhf1).
    { destruct (held_format self) as [g|] eqn:Hg; [case_decide as Hne|].
      - destruct F as [f0|]; [by pose proof (ti_format _ _ _ _ Hinv f0 g eq_refl Hg) as ->;
          destruct Hne; apply HF'|].
        pose proof (release_tinv _ _ _ Hinv) as Hrel.
        destruct (release_flat self (ti_wf _ _ _ _ Hinv)) as (_ & _ & Hnone & _).
        destruct (release self) as [self1 out1]. exists self1, out1. simpl in *.
        by rewrite Hnone.
      - exists self, []. rewrite app_nil_r Hg. split_and!; [done..|].
        by intros g' [= <-].
      - exists self, []. rewrite app_nil_r Hg. done. }
    pose proof (push_frames_tinv F f (chunks_exact (channel_count f) samples) ts self1
      (done_ ++ flat_pieces out1) []) as H.
    destruct (push_frames f _ [] self1) as [self2 out2].
    rewrite flat_pieces_app app_assoc. apply H; try done.
    + apply chunks_exact_nonempty. unfold channel_count. lia.
    + by rewrite app_nil_r.
  - pose proof (mark_tinv F ts self done_ m Hinv) as H. destruct (mark m self) as [self' out].
    by destruct H.
Qed.

Lemma trim_calls_tinv F calls ts self done_ :
  (forall f, F = Some f ->
     Forall (fun c => match c with CallPush g _ => g = f | CallMark _ => True end) calls) ->
  tinv F ts self done_ ->
  let '(self', out) := trim_calls calls self in
  tinv F (ts ++ tokens calls) self' (done_ ++ flat_pieces out).
Proof.
  revert ts self done_. induction calls as [|call calls IH]; intros ts self done_ HF Hinv; simpl.
  { by rewrite !app_nil_r. }
  pose proof (trim_call_tinv F call ts self done_) as H. destruct (trim_call call self) as [self1 out1].
  specialize (IH (ts ++ tokens_of call) self1 (done_ ++ flat_pieces out1)).
  destruct (trim_calls calls self1) as [self2 out2].
  rewrite flat_pieces_app !app_assoc. apply IH.
  - intros f Hf. specialize (HF f Hf). by inversion HF.
  - apply H; [|done]. intros f Hf. specialize (HF f Hf). by inversion HF.
Qed.

Lemma finish_marks self :
  trim_wf self -> flat_pieces (trim_finish self).2 = List.filter is_smark (held_flat self).
Proof.
  unfold trim_wf, held_flat. simpl. destruct (held_format self) as [f|]; [|by intros [_ ->]].
  intros _. generalize (held self) 0. intros l. induction (held_marks self) as [|[at_ m] marks IH];
    intros from; simpl.
  - by induction (drop from l).
  - rewrite List.filter_app. replace (List.filter is_smark (SAudio f <$> _)) with (@nil Sample).
    { simpl. unfold flat_pieces in *. simpl. f_equal. apply IH. }
    by induction (take (at_ - from) (drop from l)).
Qed.

Lemma held_flat_quiet self x f :
  trim_wf self -> SAudio f x ∈ held_flat self -> quiet [x] = true.
Proof.
  unfold trim_wf, held_flat. destruct (held_format self) as [g|]; [|intros _ H; by apply not_elem_of_nil in H].
  intros (_ & Hm & Hq & _) Hin.
  assert (SAudio f x ∈ audio (weave g (held self) 0 (held_marks self))) as Hin'.
  { apply list_elem_of_In, filter_In. split; [by apply list_elem_of_In|done]. }
  rewrite audio_weave // in Hin'. apply list_elem_of_fmap in Hin' as (y & [= _ ->] & Hy).
  rewrite drop_0 in Hy. simpl. rewrite andb_true_r. by apply (forallb_elem (fun s => (Z.abs s <=? QUIET)%Z) (held self)).
Qed.

(** Whatever a synthesizer gives, in whatever formats, the trimmer passes
    on its marks and audio in order and unchanged, less the quiet frames
    before the first audible one and at most two seconds of quiet audio at
    the very end; every mark is passed on. *)
Theorem trim_drops_only_silence (calls : list TrimCall) :
  exists kept tail, flat_tokens (lead_trim (tokens calls)) = kept ++ tail /\
    flat_pieces (trim_run calls) = kept ++ List.filter is_smark tail /\
    (forall f x, SAudio f x ∈ tail -> quiet [x] = true) /\
    length (audio tail) <= MAX_HELD_SAMPLES.
Proof.
  pose proof (trim_calls_tinv None calls [] new_trimmer [] ltac:(done) (tinv_new None)) as H.
  unfold trim_run. destruct (trim_calls calls new_trimmer) as [self out]. simpl in H.
  destruct H as [Hs _ Hwf Hb _ _]. exists (flat_pieces out), (held_flat self). split_and!.
  - by rewrite -Hs.
  - by rewrite flat_pieces_app finish_marks.
  - intros f x. by apply held_flat_quiet.
  - by rewrite held_audio.
Qed.

(** C29: in one format, with at most two seconds of quiet at the end, the
    trimmer is the reference: it passes on exactly the audio from the first
    audible frame to the last and every mark in its place, however the audio
    is cut into pushes and wherever the pauses within it fall. *)
Theorem trim_is_reference (f : PcmFormat) (calls : list TrimCall) :
  Forall (fun c => match c with CallPush g _ => g = f | CallMark _ => True end) calls ->
  length (tail_samples (tokens calls)) <= MAX_HELD_SAMPLES ->
  flat_pieces (trim_run calls) = flat_tokens (trimmed (tokens calls)).
Proof.
  intros Hone Hlen.
  pose proof (trim_calls_tinv (Some f) calls [] new_trimmer [] ltac:(by intros ? [= <-])
    (tinv_new (Some f))) as H.
  unfold trim_run. destruct (trim_calls calls new_trimmer) as [self out]. simpl in H.
  destruct H as [Hs _ Hwf Hb _ Ht]. destruct (Ht f eq_refl Hlen) as (v & Hv & Heq).
  rewrite flat_pieces_app finish_marks //. unfold trimmed.
  rewrite flat_tokens_app flat_token_marks Heq List.filter_app app_assoc.
  assert (List.filter is_smark v = v) as ->.
  { clear Heq. induction Hv as [|s v Hm _ IH]; simpl; [done|]. by rewrite Hm IH. }
  f_equal. rewrite {1}(up_to_audible_tail (lead_trim (tokens calls))) flat_tokens_app Heq app_assoc in Hs.
  by apply app_inv_tail in Hs.
Qed.

Definition mono : PcmFormat := {| sample_rate := 16000; channels := 1 |}.
Definition trim_sample : list TrimCall :=
  [CallPush mono [0; 5; 900]%Z; CallMark {| index := 1 |}; CallPush mono [3; 700; 2]%Z;
   CallMark {| index := 2 |}; CallPush mono [1]%Z].

Lemma trim_is_reference_witness :
  trim_run trim_sample =
    [Pcm mono [900]%Z; PieceMark {| index := 1 |}; Pcm mono [3]%Z; Pcm mono [700]%Z;
     PieceMark {| index := 2 |}] /\
  flat_pieces (trim_run trim_sample) = flat_tokens (trimmed (tokens trim_sample)).
Proof.
  split; [vm_compute; reflexivity|].
  apply (trim_is_reference mono); [repeat constructor|]. apply Nat.leb_le. vm_compute. reflexivity.
Defined.
