(* ===== verification/SpeechQueue.v ===== *)
(** * The speech queue

    The queue thread of [src/crates/verbatim-speech/src/manager.rs]: the
    priority lanes, the job in flight, pausing, cancelling and the judging of
    focus speech, with the handles that post to its inbox. Its state is
    [QueueThread]; a handler gives the new state and the list of what it does,
    in order: its calls on the observer, the speech source's control, cancel
    tokens and the synth thread's channel. The inbox is first in, first out, so
    a run is the list of events taken. The presenter is the interface
    [Presenter]; a cancel token is the number of its job, and the cancel
    generation, which only this thread writes, is a field. *)

From S2P Require Import Prelude Tree Facts Speech.

(** ** What the queue exchanges *)

Definition KeySeq := N.
Definition NONE_YET : KeySeq := 0.

Definition SynthId := string.
Definition SettingId := string.
Inductive SettingValue := Number (n : Z) | Choice (option_id : string) | Toggled (on : bool).

#[export] Instance SettingValue_eq_dec : EqDecision SettingValue.
Proof. solve_decision. Defined.

(** [QueueEvent]; a closure or responder is the number it is known by. *)
Inductive QueueEvent :=
  | Speak (id : UtteranceId) (utterance : Utterance) (key : option KeySeq)
  | ApplySetting (id : SettingId) (value : SettingValue) (change : N)
  | Commit
  | Revert
  | SwitchSynth (id : SynthId) (reply : N)
  | Settle (done_ : N)
  | SynthFinished
  | Cancel (key : option KeySeq)
  | TogglePause
  | DropExpired (now : FocusNow)
  | UtteranceEnded (id : UtteranceId) (ending : UtteranceEnding)
  | AfterQueued (done_ : N)
  | Shutdown.

(** [Job]. *)
Record Job := { job_sequence : SpeechSequence; job_cancel : N; job_generation : N }.

(** [SynthCommand]. *)
Inductive SynthCommand :=
  | JobCommand (job : Job)
  | SetSetting (id : SettingId) (value : SettingValue) (change : N)
  | CommitCommand
  | RevertCommand
  | SwitchCommand (id : SynthId) (reply : N)
  | SettleCommand (done_ : N)
  | ShutdownCommand.

(** What a handler does: a call on the observer, the source's control, a token,
    the synth thread's channel, or a closure it was given. *)
Inductive QueueAct :=
  | ReportQueued (id : UtteranceId) (trace : TraceId) (text : string)
  | ReportEnded (id : UtteranceId) (trace : TraceId) (ending : UtteranceEnding)
  | ReportMarksCancelled (id : UtteranceId) (trace : TraceId) (marks : list IndexMark)
  | ReportMarksFailed (id : UtteranceId) (trace : TraceId) (marks : list IndexMark)
  | ReportPaused (paused : bool)
  | RaiseGeneration
  | ControlPause (paused : bool)
  | StorePaused (paused : bool)
  | CancelToken (token : N)
  | Send (command : SynthCommand)
  | RunDone (done_ : N).

(** [Presenter]: what flattens utterances, and that the sequence it makes is of
    the utterance it was given. *)
Class Presenter := {
  flatten : Utterance -> UtteranceId -> SpeechSequence;
  flatten_utterance : forall u id, seq_utterance (flatten u id) = id;
}.

(** ** The queue thread's state *)

(** [manager::Waiting]. *)
Record Waiting := { w_sequence : SpeechSequence; w_validity : option FocusValidity }.

(** [QueueThread]. *)
Record QueueThread := {
  next_lane : list Waiting;
  queued_lane : list Waiting;
  in_flight : option N;
  handed_on : list (UtteranceId * option FocusValidity);
  q_paused : bool;
  focus_now : option FocusNow;
  cancelled_through : KeySeq;
  marked : gmap UtteranceId (TraceId * list IndexMark);
  generation : N;
  next_token : N;
}.

(** [QueueThread::new]; the source's generation starts at zero
    ([MixerBuilder::source]). *)
Definition new_queue : QueueThread :=
  {| next_lane := []; queued_lane := []; in_flight := None; handed_on := []; q_paused := false;
     focus_now := None; cancelled_through := NONE_YET; marked := ∅; generation := 0;
     next_token := 0 |}.

(** A handler: the state after it and what it does. *)
Definition Handler := QueueThread -> QueueThread * list QueueAct.
Definition andThen (f g : Handler) : Handler := fun q =>
  let '(q, a) := f q in let '(q, b) := g q in (q, a ++ b).
Definition act (acts : list QueueAct) : Handler := fun q => (q, acts).
Notation "f >>> g" := (andThen f g) (at level 65, right associativity).

Definition with_lanes (next queued : list Waiting) (q : QueueThread) : QueueThread :=
  {| next_lane := next; queued_lane := queued; in_flight := in_flight q; handed_on := handed_on q;
     q_paused := q_paused q; focus_now := focus_now q; cancelled_through := cancelled_through q;
     marked := marked q; generation := generation q; next_token := next_token q |}.
Definition with_paused (paused : bool) (q : QueueThread) : QueueThread :=
  {| next_lane := next_lane q; queued_lane := queued_lane q; in_flight := in_flight q;
     handed_on := handed_on q; q_paused := paused; focus_now := focus_now q;
     cancelled_through := cancelled_through q; marked := marked q; generation := generation q;
     next_token := next_token q |}.
Definition with_in_flight (token : option N) (q : QueueThread) : QueueThread :=
  {| next_lane := next_lane q; queued_lane := queued_lane q; in_flight := token;
     handed_on := handed_on q; q_paused := q_paused q; focus_now := focus_now q;
     cancelled_through := cancelled_through q; marked := marked q; generation := generation q;
     next_token := next_token q |}.
Definition with_handed_on (handed : list (UtteranceId * option FocusValidity)) (q : QueueThread) :
    QueueThread :=
  {| next_lane := next_lane q; queued_lane := queued_lane q; in_flight := in_flight q;
     handed_on := handed; q_paused := q_paused q; focus_now := focus_now q;
     cancelled_through := cancelled_through q; marked := marked q; generation := generation q;
     next_token := next_token q |}.
Definition with_focus (now : FocusNow) (q : QueueThread) : QueueThread :=
  {| next_lane := next_lane q; queued_lane := queued_lane q; in_flight := in_flight q;
     handed_on := handed_on q; q_paused := q_paused q; focus_now := Some now;
     cancelled_through := cancelled_through q; marked := marked q; generation := generation q;
     next_token := next_token q |}.
Definition with_marked (m : gmap UtteranceId (TraceId * list IndexMark)) (q : QueueThread) :
    QueueThread :=
  {| next_lane := next_lane q; queued_lane := queued_lane q; in_flight := in_flight q;
     handed_on := handed_on q; q_paused := q_paused q; focus_now := focus_now q;
     cancelled_through := cancelled_through q; marked := m; generation := generation q;
     next_token := next_token q |}.
Definition with_fence (key : KeySeq) (q : QueueThread) : QueueThread :=
  {| next_lane := next_lane q; queued_lane := queued_lane q; in_flight := in_flight q;
     handed_on := handed_on q; q_paused := q_paused q; focus_now := focus_now q;
     cancelled_through := key; marked := marked q; generation := generation q;
     next_token := next_token q |}.

(** ** Its operations *)

(** [report_marks_cancelled]. *)
Definition report_marks_cancelled (id : UtteranceId) (trace : TraceId) (marks : list IndexMark) :
    list QueueAct :=
  match marks with [] => [] | _ => [ReportMarksCancelled id trace marks] end.

(** [end_waiting], of one and of many. *)
Definition end_one (w : Waiting) : list QueueAct :=
  ReportEnded (seq_utterance (w_sequence w)) (seq_trace_id (w_sequence w)) EndCancelled
  :: report_marks_cancelled (seq_utterance (w_sequence w)) (seq_trace_id (w_sequence w))
       (Sequence.marks (w_sequence w)).
Definition end_waiting (waiting : list Waiting) : list QueueAct := flat_map end_one waiting.

(** [SourceControl::cancel]: the generation raised, wrapping as the atomic does. *)
Definition control_cancel : Handler := fun q =>
  ({| next_lane := next_lane q; queued_lane := queued_lane q; in_flight := in_flight q;
      handed_on := handed_on q; q_paused := q_paused q; focus_now := focus_now q;
      cancelled_through := cancelled_through q; marked := marked q;
      generation := (generation q + 1) mod (U64_MAX + 1); next_token := next_token q |},
   [RaiseGeneration]).

(** [unpause]. *)
Definition unpause : Handler := fun q =>
  if q_paused q
  then (with_paused false q, [ControlPause false; StorePaused false; ReportPaused false])
  else (q, []).

(** [in_flight]'s token cancelled, if there is one. *)
Definition cancel_in_flight : Handler := fun q =>
  (q, match in_flight q with Some token => [CancelToken token] | None => [] end).

(** [stop_handed_on]. *)
Definition stop_handed_on : Handler :=
  control_cancel >>> cancel_in_flight >>> (fun q => (with_handed_on [] q, [])) >>> unpause.

(** [cancel_everything]. *)
Definition cancel_everything : Handler :=
  (fun q => (with_lanes [] [] q, end_waiting (next_lane q ++ queued_lane q))) >>> stop_handed_on.

(** The test of [pump]: focus speech whose focus has moved on. *)
Definition expired (focus : option FocusNow) (w : Waiting) : bool :=
  match w_validity w, focus with
  | Some validity, Some now => negb (holds validity now)
  | _, _ => false
  end.

(** The loop of [pump] through one lane: the expired ones before its first that
    is not, that one, and those behind it. *)
Fixpoint first_due (focus : option FocusNow) (lane : list Waiting) :
    list Waiting * option Waiting * list Waiting :=
  match lane with
  | [] => ([], None, [])
  | w :: lane =>
      if expired focus w then
        let '(gone, due, rest) := first_due focus lane in (w :: gone, due, rest)
      else ([], Some w, lane)
  end.

(** The loop of [pump]: through the next lane, then the queued one. *)
Definition take_due (q : QueueThread) : list Waiting * option Waiting * list Waiting * list Waiting :=
  let '(gone, due, next) := first_due (focus_now q) (next_lane q) in
  match due with
  | Some w => (gone, Some w, next, queued_lane q)
  | None =>
      let '(gone', due, queued) := first_due (focus_now q) (queued_lane q) in
      (gone ++ gone', due, next, queued)
  end.

(** The end of [pump]: [w] handed to the synth thread under the generation now,
    with a new token. *)
Definition hand_on (w : Waiting) : Handler := fun q =>
  let sequence := w_sequence w in
  ({| next_lane := next_lane q; queued_lane := queued_lane q; in_flight := Some (next_token q);
      handed_on := handed_on q ++ [(seq_utterance sequence, w_validity w)];
      q_paused := q_paused q; focus_now := focus_now q; cancelled_through := cancelled_through q;
      marked := if Sequence.has_marks sequence
                then <[seq_utterance sequence := (seq_trace_id sequence, Sequence.marks sequence)]> (marked q)
                else marked q;
      generation := generation q; next_token := next_token q + 1 |},
   [Send (JobCommand {| job_sequence := sequence; job_cancel := next_token q;
                        job_generation := generation q |})]).

(** [pump]. *)
Definition pump : Handler := fun q =>
  match in_flight q with
  | Some _ => (q, [])
  | None =>
      let '(gone, due, next, queued) := take_due q in
      let q := with_lanes next queued q in
      match due with
      | None => (q, end_waiting gone)
      | Some w => (act (end_waiting gone) >>> hand_on w) q
      end
  end.

Section presented.
Context `{Presenter}.

(** [QueueThread::speak]. *)
Definition speak (id : UtteranceId) (utterance : Utterance) : Handler :=
  let sequence := flatten utterance id in
  let waiting := {| w_sequence := sequence; w_validity := validity utterance |} in
  act [ReportQueued id (seq_trace_id sequence) (Sequence.text sequence)] >>>
  (fun q => if q_paused q then cancel_everything q else (q, [])) >>>
  match priority utterance with
  | Interrupt =>
      cancel_everything >>>
      (fun q => (with_lanes (next_lane q ++ [waiting]) (queued_lane q) q, []))
  | Next => fun q => (with_lanes (next_lane q ++ [waiting]) (queued_lane q) q, [])
  | Queued => fun q => (with_lanes (next_lane q) (queued_lane q ++ [waiting]) q, [])
  end >>>
  pump.

(** [fenced_off]. *)
Definition fenced_off (id : UtteranceId) (utterance : Utterance) : list QueueAct :=
  let sequence := flatten utterance id in
  [ReportQueued id (seq_trace_id sequence) (Sequence.text sequence);
   ReportEnded id (seq_trace_id sequence) EndCancelled]
  ++ report_marks_cancelled id (seq_trace_id sequence) (Sequence.marks sequence).

(** [drop_expired]. *)
Definition drop_expired (now : FocusNow) : Handler := fun q =>
  let gone := existsb (fun p => match p.2 with Some v => negb (holds v now) | None => false end)
                (handed_on q) in
  let q := with_focus now q in
  if gone then stop_handed_on q else (q, []).

(** The handling of the mixer's ending in [run]. *)
Definition ended (id : UtteranceId) (ending : UtteranceEnding) : Handler := fun q =>
  let q := with_handed_on (List.filter (fun p => negb (bool_decide (p.1 = id))) (handed_on q)) q in
  match marked q !! id with
  | None => (q, [])
  | Some (trace, marks) =>
      (with_marked (delete id (marked q)) q,
       match ending with
       | EndCompleted => []
       | EndCancelled => report_marks_cancelled id trace marks
       | EndFailed _ => [ReportMarksFailed id trace marks]
       end)
  end.

(** The fence of [run]: speech a key press before the last cancelling one caused. *)
Definition fenced (key : option KeySeq) (q : QueueThread) : bool :=
  match key with Some key => key <? cancelled_through q | None => false end.

(** One event of [QueueThread::run]. *)
Definition handle (event : QueueEvent) : Handler := fun q =>
  match event with
  | Speak id utterance key =>
      if fenced key q then (q, fenced_off id utterance) else speak id utterance q
  | ApplySetting id value change => (q, [Send (SetSetting id value change)])
  | Commit => (q, [Send CommitCommand])
  | Revert => (q, [Send RevertCommand])
  | Settle done_ => (q, [Send (SettleCommand done_)])
  | SwitchSynth id reply => (cancel_everything >>> act [Send (SwitchCommand id reply)]) q
  | SynthFinished => pump (with_in_flight None q)
  | Cancel key =>
      cancel_everything
        (match key with
         | Some key => with_fence (N.max (cancelled_through q) key) q
         | None => q
         end)
  | TogglePause =>
      let q := with_paused (negb (q_paused q)) q in
      (q, [ControlPause (q_paused q); StorePaused (q_paused q); ReportPaused (q_paused q)])
  | DropExpired now => drop_expired now q
  | UtteranceEnded id ending => ended id ending q
  | AfterQueued done_ => (q, [RunDone done_])
  | Shutdown => (cancel_everything >>> act [Send ShutdownCommand]) q
  end.

(** [QueueThread::run] over the events taken: the state, what was done, and the
    events it took, which end at a shutdown. *)
Fixpoint run (events : list QueueEvent) (q : QueueThread) :
    QueueThread * list QueueAct * list QueueEvent :=
  match events with
  | [] => (q, [], [])
  | event :: events =>
      let '(q, acts) := handle event q in
      match event with
      | Shutdown => (q, acts, [event])
      | _ =>
          let '(q, more, taken) := run events q in
          (q, acts ++ more, event :: taken)
      end
  end.

End presented.

(** ** Posting to the queue *)

(** [SpeechManager::speak], [speak_for_key], [SpeechControl::cancel],
    [cancel_through], [toggle_pause], [drop_expired] and [settle] post these,
    in this order; [mint] is [NEXT_UTTERANCE]. *)
Definition mint_utterance (mint : N) : UtteranceId * N :=
  ({| utterance_number := mint |}, (mint + 1) mod (U64_MAX + 1)).
Definition post_speak (utterance : Utterance) (mint : N) : list QueueEvent * N :=
  let '(id, mint) := mint_utterance mint in ([Speak id utterance None], mint).
Definition post_speak_for_key (utterance : Utterance) (key : option KeySeq) (mint : N) :
    list QueueEvent * N :=
  let '(id, mint) := mint_utterance mint in ([Speak id utterance key], mint).
Definition post_cancel : list QueueEvent := [Cancel None].
Definition post_cancel_through (key : KeySeq) : list QueueEvent := [Cancel (Some key)].
Definition post_settle (done_ : N) : list QueueEvent := [Cancel None; Settle done_].
