(* ===== verification/SpeechQueueProps.v ===== *)
(** * The speech queue's guarantees

    What the handlers of SpeechQueue.v keep, over any run of events from a new
    queue: every utterance it takes is waiting, handed on or ended, exactly one
    of them and once; a cancel raises the source's generation before it cancels
    a token, and every job is under the generation it was handed on in; at most
    one job is with the synth thread; focus speech handed on still holds. Each
    is a predicate on handlers closed under sequencing. *)

From S2P Require Import Prelude Tree Facts Speech SpeechQueue.

(** ** Reading what was done *)

Definition ended_ids (acts : list QueueAct) : list UtteranceId :=
  omap (fun a => match a with ReportEnded id _ _ => Some id | _ => None end) acts.
Definition jobs_of (acts : list QueueAct) : list Job :=
  omap (fun a => match a with Send (JobCommand job) => Some job | _ => None end) acts.
Definition handed_ids (acts : list QueueAct) : list UtteranceId :=
  (fun job => seq_utterance (job_sequence job)) <$> jobs_of acts.
Definition raises (acts : list QueueAct) : N :=
  N.of_nat (length (omap (fun a => match a with RaiseGeneration => Some tt | _ => None end) acts)).
Definition spoken_ids (events : list QueueEvent) : list UtteranceId :=
  omap (fun e => match e with Speak id _ _ => Some id | _ => None end) events.
Definition lane_ids (q : QueueThread) : list UtteranceId :=
  (fun w => seq_utterance (w_sequence w)) <$> next_lane q ++ queued_lane q.
Definition finishes (events : list QueueEvent) : nat :=
  length (omap (fun e => match e with SynthFinished => Some tt | _ => None end) events).

Lemma ended_ids_app a b : ended_ids (a ++ b) = ended_ids a ++ ended_ids b.
Proof. apply omap_app. Qed.
Lemma jobs_of_app a b : jobs_of (a ++ b) = jobs_of a ++ jobs_of b.
Proof. apply omap_app. Qed.
Lemma handed_ids_app a b : handed_ids (a ++ b) = handed_ids a ++ handed_ids b.
Proof. unfold handed_ids. by rewrite jobs_of_app fmap_app. Qed.
Lemma raises_app a b : raises (a ++ b) = raises a + raises b.
Proof. unfold raises. rewrite omap_app length_app. lia. Qed.

Lemma report_marks_silent id tr ms :
  ended_ids (report_marks_cancelled id tr ms) = [] /\ jobs_of (report_marks_cancelled id tr ms) = [] /\
  raises (report_marks_cancelled id tr ms) = 0.
Proof. by destruct ms. Qed.

Lemma end_waiting_reads ws :
  ended_ids (end_waiting ws) = (fun w => seq_utterance (w_sequence w)) <$> ws /\
  jobs_of (end_waiting ws) = [] /\ raises (end_waiting ws) = 0.
Proof.
  induction ws as [|w ws (IH1 & IH2 & IH3)]; [done|]. unfold end_waiting in *.
  change (flat_map end_one (w :: ws)) with (end_one w ++ flat_map end_one ws).
  rewrite ended_ids_app jobs_of_app raises_app IH1 IH2 IH3. unfold end_one.
  by destruct (Sequence.marks (w_sequence w)).
Qed.

(** ** Owned once *)

(** The handler takes on the utterances [new], and afterwards each it had is in
    a lane, handed on, or ended. *)
Definition owes (new : list UtteranceId) (f : Handler) : Prop := forall q,
  let '(q', acts) := f q in
  new ++ lane_ids q ≡ₚ lane_ids q' ++ handed_ids acts ++ ended_ids acts.

Lemma owes_then a b f g : owes a f -> owes b g -> owes (a ++ b) (f >>> g).
Proof.
  intros Hf Hg q. unfold andThen. specialize (Hf q). destruct (f q) as [q1 acts1].
  specialize (Hg q1). destruct (g q1) as [q2 acts2].
  rewrite handed_ids_app ended_ids_app (Permutation_app_comm a) -app_assoc Hf app_assoc Hg.
  solve_Permutation.
Qed.

Lemma owes_act acts : jobs_of acts = [] -> ended_ids acts = [] -> owes [] (act acts).
Proof. intros Hj He q. unfold act, handed_ids. rewrite Hj He. csimpl. by rewrite app_nil_r. Qed.

(** A handler that leaves the lanes and neither hands on nor ends. *)
Lemma owes_quiet (f : Handler) :
  (forall q, lane_ids (f q).1 = lane_ids q /\ jobs_of (f q).2 = [] /\ ended_ids (f q).2 = []) ->
  owes [] f.
Proof.
  intros Hf q. destruct (Hf q) as (Hl & Hj & He). destruct (f q) as [q' acts]. simpl in *.
  unfold handed_ids. rewrite Hl Hj He. csimpl. by rewrite app_nil_r.
Qed.

Lemma owes_stop_handed_on : owes [] stop_handed_on.
Proof.
  apply owes_quiet. intros q. unfold stop_handed_on, andThen, unpause, cancel_in_flight. simpl.
  by destruct (in_flight q), (q_paused q).
Qed.

Lemma owes_cancel_everything : owes [] cancel_everything.
Proof.
  apply (owes_then [] []); [|apply owes_stop_handed_on]. intros q.
  destruct (end_waiting_reads (next_lane q ++ queued_lane q)) as (He & Hj & _).
  unfold handed_ids. rewrite He Hj. done.
Qed.

Lemma first_due_split focus lane :
  let '(gone, due, rest) := first_due focus lane in
  lane = gone ++ option_list due ++ rest /\ Forall (fun w => expired focus w = true) gone /\
  match due with Some w => expired focus w = false | None => rest = [] end.
Proof.
  induction lane as [|w lane IH]; simpl; [done|]. destruct (expired focus w) eqn:He; [|by rewrite He].
  destruct (first_due focus lane) as [[gone due] rest]. destruct IH as (-> & Hg & Hd).
  split_and!; [done|by constructor|done].
Qed.

Lemma take_due_split q :
  let '(gone, due, next, queued) := take_due q in
  next_lane q ++ queued_lane q ≡ₚ gone ++ option_list due ++ next ++ queued /\
  Forall (fun w => expired (focus_now q) w = true) gone /\
  match due with
  | Some w => expired (focus_now q) w = false
  | None => next = [] /\ queued = []
  end.
Proof.
  unfold take_due. pose proof (first_due_split (focus_now q) (next_lane q)) as H1.
  destruct (first_due (focus_now q) (next_lane q)) as [[gone due] next]. destruct H1 as (-> & Hg & Hd).
  destruct due as [w|].
  { split_and!; [|done..]. simpl. by rewrite -!app_assoc. }
  pose proof (first_due_split (focus_now q) (queued_lane q)) as H2.
  destruct (first_due (focus_now q) (queued_lane q)) as [[gone' due] queued].
  destruct H2 as (-> & Hg' & Hd'). subst next. simpl. rewrite app_nil_r.
  split_and!; [by rewrite -app_assoc|by apply Forall_app|by destruct due].
Qed.

Lemma owes_pump : owes [] pump.
Proof.
  intros q. unfold pump. destruct (in_flight q).
  { simpl. by rewrite app_nil_r. }
  pose proof (take_due_split q) as H. destruct (take_due q) as [[[gone due] next] queued].
  destruct H as (Hp & _ & Hd). destruct (end_waiting_reads gone) as (He & Hj & _).
  unfold lane_ids at 1. destruct due as [w|]; unfold andThen, act; simpl;
    rewrite ?ended_ids_app ?handed_ids_app He; unfold handed_ids; rewrite Hj; simpl;
    rewrite Hp; unfold lane_ids; simpl; rewrite ?fmap_app; csimpl; rewrite ?app_nil_r.
  - rewrite fmap_app. solve_Permutation.
  - destruct Hd as [-> ->]. by rewrite app_nil_r.
Qed.

(** ** Generations and tokens *)

(** Scanning what was done from generation [g] with the jobs [js] sent before:
    a job is under the generation it is handed on in, and a token is cancelled
    only when its job's generation is past. *)
Fixpoint in_order (g : N) (js : list Job) (acts : list QueueAct) : Prop :=
  match acts with
  | [] => True
  | RaiseGeneration :: acts => in_order (g + 1) js acts
  | CancelToken token :: acts =>
      (exists job, job ∈ js /\ job_cancel job = token /\ job_generation job < g) /\ in_order g js acts
  | Send (JobCommand job) :: acts => job_generation job = g /\ in_order g (js ++ [job]) acts
  | _ :: acts => in_order g js acts
  end.

Lemma in_order_app g js a b :
  in_order g js (a ++ b) <-> in_order g js a /\ in_order (g + raises a) (js ++ jobs_of a) b.
Proof.
  revert g js. induction a as [|x a IH]; intros g js.
  { unfold raises, jobs_of. simpl. rewrite app_nil_r N.add_0_r. tauto. }
  destruct x as [| | | | | | | | |[]|]; simpl; rewrite IH; unfold raises, jobs_of; csimpl;
    rewrite -?app_assoc; try tauto.
  by replace (g + 1 + N.of_nat _) with
    (g + N.of_nat (S (length (omap (fun a => match a with RaiseGeneration => Some tt | _ => None end) a))))
    by lia.
Qed.

(** The queue's generation is past none of the jobs', and the job in flight, if
    any, is one of them. *)
Definition knows (js : list Job) (q : QueueThread) : Prop :=
  Forall (fun job => job_generation job <= generation q) js /\
  match in_flight q with Some token => exists job, job ∈ js /\ job_cancel job = token | None => True end.

(** A handler that keeps the order, as long as the generation does not wrap. *)
Definition keeps_order (f : Handler) : Prop := forall q js,
  knows js q ->
  let '(q', acts) := f q in
  generation q + raises acts <= U64_MAX ->
  in_order (generation q) js acts /\ knows (js ++ jobs_of acts) q' /\
  generation q' = generation q + raises acts.

Lemma keeps_order_then f g : keeps_order f -> keeps_order g -> keeps_order (f >>> g).
Proof.
  intros Hf Hg q js Hk. unfold andThen. specialize (Hf q js Hk). destruct (f q) as [q1 acts1].
  specialize (Hg q1 (js ++ jobs_of acts1)). destruct (g q1) as [q2 acts2].
  rewrite raises_app jobs_of_app in_order_app. intros Hle.
  destruct (Hf ltac:(lia)) as (Ho & Hk1 & Hgen). rewrite -Hgen.
  destruct (Hg Hk1 ltac:(lia)) as (Ho2 & Hk2 & Hgen2). rewrite app_assoc.
  split_and!; [done..|lia].
Qed.

(** A handler that raises nothing and sends no job. *)
Lemma keeps_order_quiet (f : Handler) :
  (forall q, generation (f q).1 = generation q /\
     (in_flight (f q).1 = in_flight q \/ in_flight (f q).1 = None) /\
     raises (f q).2 = 0 /\ jobs_of (f q).2 = [] /\ forall g js, in_order g js (f q).2) ->
  keeps_order f.
Proof.
  intros Hf q js [Hj Hi]. destruct (Hf q) as (Hg & Hfl & Hr & Hjb & Ho). destruct (f q) as [q' acts].
  simpl in *. rewrite Hr Hjb N.add_0_r app_nil_r. intros _. split_and!; [apply Ho| |done].
  split; [by rewrite Hg|]. by destruct Hfl as [->| ->].
Qed.

Lemma in_order_silent g js acts :
  Forall (fun a => match a with RaiseGeneration | CancelToken _ | Send (JobCommand _) => False
                   | _ => True end) acts -> in_order g js acts.
Proof. induction 1 as [|a acts Ha _ IH]; [done|]. by destruct a as [| | | | | | | | |[]|]. Qed.

Lemma end_waiting_silent ws : Forall (fun a =>
  match a with RaiseGeneration | CancelToken _ | Send (JobCommand _) => False | _ => True end)
  (end_waiting ws).
Proof.
  unfold end_waiting. induction ws as [|w ws IH]; [done|].
  change (flat_map end_one (w :: ws)) with (end_one w ++ flat_map end_one ws).
  rewrite Forall_app. split; [|done]. unfold end_one. constructor; [done|].
  destruct (Sequence.marks (w_sequence w)); by repeat constructor.
Qed.

Lemma end_waiting_keeps_order (q' : QueueThread -> QueueThread) (ws : QueueThread -> list Waiting) :
  (forall q, generation (q' q) = generation q /\ in_flight (q' q) = in_flight q) ->
  keeps_order (fun q => (q' q, end_waiting (ws q))).
Proof.
  intros Hq. apply keeps_order_quiet. intros q. simpl. destruct (Hq q) as [-> ->].
  destruct (end_waiting_reads (ws q)) as (_ & -> & ->).
  split_and!; [done|by left|done..|]. intros g js. apply in_order_silent, end_waiting_silent.
Qed.

Lemma keeps_order_stop_handed_on : keeps_order stop_handed_on.
Proof.
  intros q js [Hj Hi]. unfold stop_handed_on, andThen, control_cancel, cancel_in_flight, unpause. simpl.
  assert (forall token, in_flight q = Some token ->
    exists job, job ∈ js /\ job_cancel job = token /\ job_generation job < generation q + 1) as Hcut.
  { intros token Ht. rewrite Ht in Hi. destruct Hi as (job & Hin & Hc). exists job.
    rewrite Forall_forall in Hj. specialize (Hj job Hin). split_and!; [done..|lia]. }
  assert (generation q + 1 <= U64_MAX -> (generation q + 1) mod (U64_MAX + 1) = generation q + 1) as Hmod.
  { intros. apply N.mod_small. lia. }
  assert (Forall (fun job => job_generation job <= generation q + 1) js) as Hj'.
  { eapply Forall_impl; [exact Hj|]. simpl. lia. }
  destruct (in_flight q) as [token|] eqn:Hfl, (q_paused q); unfold raises, jobs_of; csimpl;
    intros Hle; (rewrite app_nil_r; split; [by eauto|split; [|by apply Hmod]]);
    unfold knows; simpl; rewrite ?Hfl (Hmod Hle); by split.
Qed.

Lemma keeps_order_cancel_everything : keeps_order cancel_everything.
Proof.
  apply keeps_order_then; [|apply keeps_order_stop_handed_on].
  by apply (end_waiting_keeps_order (with_lanes [] []) (fun q => next_lane q ++ queued_lane q)).
Qed.

Lemma keeps_order_pump : keeps_order pump.
Proof.
  intros q js Hk. unfold pump. destruct (in_flight q) as [t|] eqn:Hfl.
  { unfold raises, jobs_of. simpl. rewrite app_nil_r N.add_0_r. done. }
  destruct (take_due q) as [[[gone due] next] queued].
  destruct (end_waiting_reads gone) as (_ & Hj & Hr). pose proof (end_waiting_silent gone) as Hs.
  destruct Hk as [Hjs _]. destruct due as [w|]; simpl.
  - rewrite raises_app jobs_of_app in_order_app !Hr !Hj. unfold raises, jobs_of. csimpl.
    rewrite !N.add_0_r.
    intros _. split; [split; [by apply in_order_silent|done]|]. split; [|done].
    split; simpl; [rewrite Forall_app Forall_singleton; by split|].
    eexists. split; [apply elem_of_app; right; left|done].
  - rewrite Hr Hj app_nil_r N.add_0_r. intros _.
    split_and!; [by apply in_order_silent| |done]. split; simpl; [done|by rewrite Hfl].
Qed.

(** ** One job at a time, and only speech that holds *)

(** Of the utterances handed on, none is focus speech that no longer holds. *)
Definition all_hold (q : QueueThread) : Prop :=
  forall id v now, (id, Some v) ∈ handed_on q -> focus_now q = Some now -> holds v now = true.

Definition keeps_hold (f : Handler) : Prop := forall q,
  all_hold q -> all_hold (f q).1 /\
  (length (jobs_of (f q).2) + (if in_flight q then 1 else 0)
   <= (if in_flight (f q).1 then 1 else 0))%nat.

Lemma keeps_hold_then f g : keeps_hold f -> keeps_hold g -> keeps_hold (f >>> g).
Proof.
  intros Hf Hg q Hq. unfold andThen. destruct (Hf q Hq) as [H1 Hn1].
  destruct (f q) as [q1 acts1]. destruct (Hg q1 H1) as [H2 Hn2]. destruct (g q1) as [q2 acts2].
  simpl in *. split; [done|]. rewrite jobs_of_app length_app. lia.
Qed.

Lemma keeps_hold_quiet (f : Handler) :
  (forall q, focus_now (f q).1 = focus_now q /\ in_flight (f q).1 = in_flight q /\
     (forall p, p ∈ handed_on (f q).1 -> p ∈ handed_on q) /\ jobs_of (f q).2 = []) ->
  keeps_hold f.
Proof.
  intros Hf q Hq. destruct (Hf q) as (Hfo & Hi & Hh & Hj). split.
  - intros id v now Hin. rewrite Hfo. apply Hq with id. by apply Hh.
  - by rewrite Hi Hj.
Qed.

Lemma stop_handed_on_clears q :
  handed_on (stop_handed_on q).1 = [] /\ in_flight (stop_handed_on q).1 = in_flight q /\
  jobs_of (stop_handed_on q).2 = [] /\ focus_now (stop_handed_on q).1 = focus_now q.
Proof.
  unfold stop_handed_on, andThen, unpause, cancel_in_flight. simpl.
  by destruct (in_flight q), (q_paused q).
Qed.

Lemma keeps_hold_stop_handed_on : keeps_hold stop_handed_on.
Proof.
  apply keeps_hold_quiet. intros q. destruct (stop_handed_on_clears q) as (-> & -> & -> & ->).
  split_and!; try done. intros p Hp. by apply not_elem_of_nil in Hp.
Qed.

Lemma keeps_hold_cancel_everything : keeps_hold cancel_everything.
Proof.
  apply keeps_hold_then; [|apply keeps_hold_stop_handed_on]. apply keeps_hold_quiet. intros q. simpl.
  by destruct (end_waiting_reads (next_lane q ++ queued_lane q)) as (_ & -> & _).
Qed.

Lemma keeps_hold_pump : keeps_hold pump.
Proof.
  intros q Hq. unfold pump. destruct (in_flight q) as [t|] eqn:Hi; [by rewrite /= Hi|].
  pose proof (take_due_split q) as H. destruct (take_due q) as [[[gone due] next] queued].
  destruct H as (_ & _ & Hd). destruct (end_waiting_reads gone) as (_ & Hj & _).
  destruct due as [w|]; simpl; [|by rewrite Hj Hi]. rewrite jobs_of_app Hj. simpl. split; [|done].
  intros id v now [Hin|Hin]%elem_of_app Hn; simpl in *; [by apply (Hq id v now)|].
  apply list_elem_of_singleton in Hin as [= _ Hv]. unfold expired in Hd. rewrite -Hv Hn in Hd.
  by apply negb_false_iff in Hd.
Qed.

(** ** Events and runs *)

Section presented.
Context `{Presenter}.

(** The lane a waiting utterance is put in. *)
Definition enqueue (priority : SpeechPriority) (w : Waiting) : Handler :=
  match priority with
  | Interrupt =>
      cancel_everything >>> (fun q => (with_lanes (next_lane q ++ [w]) (queued_lane q) q, []))
  | Next => fun q => (with_lanes (next_lane q ++ [w]) (queued_lane q) q, [])
  | Queued => fun q => (with_lanes (next_lane q) (queued_lane q ++ [w]) q, [])
  end.

(** Speech arriving while paused cancels first. *)
Definition cancel_if_paused : Handler := fun q => if q_paused q then cancel_everything q else (q, []).

(** A predicate on handlers closed under sequencing that the parts of [speak]
    have, [speak] has. *)
Lemma speak_parts (P : Handler -> Prop) id u :
  (forall f g, P f -> P g -> P (f >>> g)) ->
  P (act [ReportQueued id (seq_trace_id (flatten u id)) (Sequence.text (flatten u id))]) ->
  P cancel_if_paused ->
  P (enqueue (priority u) {| w_sequence := flatten u id; w_validity := validity u |}) ->
  P pump -> P (speak id u).
Proof. intros Hthen H1 H2 H3 H4. unfold speak. by repeat (apply Hthen; [done|]). Qed.

Lemma owes_speak id u : owes [id] (speak id u).
Proof.
  set (w := {| w_sequence := flatten u id; w_validity := validity u |}).
  assert (seq_utterance (w_sequence w) = id) as Hid by apply flatten_utterance.
  assert (forall q, [id] ++ lane_ids q
    ≡ₚ lane_ids (with_lanes (next_lane q ++ [w]) (queued_lane q) q) ++ [] ++ []) as Hnext.
  { intros q. unfold lane_ids. simpl. rewrite !fmap_app. simpl. rewrite Hid. solve_Permutation. }
  unfold speak. apply (owes_then [] [id]); [by apply owes_act|].
  apply (owes_then [] [id]).
  { intros q. pose proof (owes_cancel_everything q) as Hc. destruct (q_paused q); [done|].
    unfold handed_ids. csimpl. by rewrite app_nil_r. }
  apply (owes_then [id] []); [|apply owes_pump].
  destruct (priority u).
  - apply (owes_then [] [id]); [apply owes_cancel_everything|exact Hnext].
  - exact Hnext.
  - intros q. unfold lane_ids. simpl. rewrite !fmap_app. simpl. rewrite Hid. solve_Permutation.
Qed.

Lemma owes_handle event : owes (spoken_ids [event]) (handle event).
Proof.
  intros q. destruct event as [id u key|id v c| | |id r|d| |key| |now|id e|d|]; unfold handle.
  2-4,6,12: unfold handed_ids; csimpl; by rewrite app_nil_r.
  - destruct (fenced key q); [|apply owes_speak]. unfold fenced_off.
    destruct (report_marks_silent id (seq_trace_id (flatten u id)) (Sequence.marks (flatten u id)))
      as (H1 & H2 & _).
    rewrite ended_ids_app handed_ids_app H1. unfold handed_ids. rewrite H2. csimpl.
    solve_Permutation.
  - apply (owes_then [] []); [apply owes_cancel_everything|by apply owes_act].
  - apply (owes_pump (with_in_flight None q)).
  - destruct key as [k|]; [|apply (owes_cancel_everything q)].
    apply (owes_cancel_everything (with_fence (N.max (cancelled_through q) k) q)).
  - unfold handed_ids. csimpl. by rewrite app_nil_r.
  - unfold drop_expired. destruct (existsb _ _); [apply (owes_stop_handed_on (with_focus now q))|].
    unfold handed_ids. csimpl. by rewrite app_nil_r.
  - unfold ended. simpl. destruct (marked q !! id) as [[tr ms]|]; unfold handed_ids; csimpl;
      [|by rewrite app_nil_r].
    destruct e; csimpl; [by rewrite app_nil_r| |by rewrite app_nil_r].
    destruct (report_marks_silent id tr ms) as (-> & -> & _). csimpl. by rewrite app_nil_r.
  - apply (owes_then [] []); [apply owes_cancel_everything|by apply owes_act].
Qed.

Lemma ended_reads id e q :
  jobs_of (ended id e q).2 = [] /\ raises (ended id e q).2 = 0 /\
  (forall g js, in_order g js (ended id e q).2) /\
  generation (ended id e q).1 = generation q /\ in_flight (ended id e q).1 = in_flight q /\
  focus_now (ended id e q).1 = focus_now q /\
  (forall p, p ∈ handed_on (ended id e q).1 -> p ∈ handed_on q).
Proof.
  unfold ended. simpl. destruct (marked q !! id) as [[tr ms]|]; simpl.
  - split_and!; try done; [by destruct e, ms..| |].
    + intros g js. by destruct e, ms.
    + intros p Hp. apply list_elem_of_In, filter_In in Hp as [Hp _]. by apply list_elem_of_In.
  - split_and!; try done.
    intros p Hp. apply list_elem_of_In, filter_In in Hp as [Hp _]. by apply list_elem_of_In.
Qed.

Lemma keeps_order_handle event : keeps_order (handle event).
Proof.
  assert (forall acts, Forall (fun a => match a with
      RaiseGeneration | CancelToken _ | Send (JobCommand _) => False | _ => True end) acts ->
      raises acts = 0 -> jobs_of acts = [] -> keeps_order (act acts)) as Hact.
  { intros acts Ha Hr Hj. apply keeps_order_quiet. intros q. simpl.
    split_and!; try done; [by left|]. intros g js. by apply in_order_silent. }
  assert (forall q' acts, Forall (fun a => match a with
      RaiseGeneration | CancelToken _ | Send (JobCommand _) => False | _ => True end) acts ->
      raises acts = 0 -> jobs_of acts = [] ->
      (forall q, generation (q' q) = generation q /\ in_flight (q' q) = in_flight q) ->
      keeps_order (fun q => (q' q, acts))) as Hpure.
  { intros q' acts Ha Hr Hj Hq. apply keeps_order_quiet. intros q. destruct (Hq q) as [H1 H2]. simpl.
    split_and!; try done; [by left|]. intros g js. by apply in_order_silent. }
  assert (forall cmd q js, (forall job, cmd <> JobCommand job) -> knows js q ->
    let '(q', acts) := (q, [Send cmd]) in generation q + raises acts <= U64_MAX ->
    in_order (generation q) js acts /\ knows (js ++ jobs_of acts) q' /\
    generation q' = generation q + raises acts) as Hsend.
  { intros cmd q js Hc Hk. apply (Hact [Send cmd]); [..|done];
      destruct cmd as [job| | | | | |]; by try (destruct (Hc job)); repeat constructor. }
  intros q js Hk. destruct event as [id u key|id v c| | |id r|d| |key| |now|id e|d|]; unfold handle.
  - destruct (fenced key q).
    + apply (Hact (fenced_off id u)); [..|done];
        unfold fenced_off; destruct (Sequence.marks (flatten u id)); by repeat constructor.
    + apply (speak_parts keeps_order); [apply keeps_order_then|by apply Hact; repeat constructor| | |apply keeps_order_pump|done].
      * intros q1 js1 Hk1. unfold cancel_if_paused. pose proof (keeps_order_cancel_everything q1 js1 Hk1).
        destruct (q_paused q1); [done|]. exact (Hact [] ltac:(constructor) eq_refl eq_refl _ _ Hk1).
      * destruct (priority u); simpl.
        -- apply keeps_order_then; [apply keeps_order_cancel_everything|].
           by apply (Hpure _ [] ltac:(constructor)).
        -- by apply (Hpure _ [] ltac:(constructor)).
        -- by apply (Hpure _ [] ltac:(constructor)).
  - by apply Hsend.
  - by apply Hsend.
  - by apply Hsend.
  - apply (keeps_order_then cancel_everything); [apply keeps_order_cancel_everything| |done].
    by apply Hact; repeat constructor.
  - by apply Hsend.
  - apply (keeps_order_pump (with_in_flight None q)). destruct Hk as [Hk _]. by split.
  - destruct key as [k|]; [|by apply keeps_order_cancel_everything].
    by apply (keeps_order_cancel_everything (with_fence (N.max (cancelled_through q) k) q)).
  - exact (Hpure (fun q => with_paused (negb (q_paused q)) q)
      [ControlPause (negb (q_paused q)); StorePaused (negb (q_paused q)); ReportPaused (negb (q_paused q))]
      ltac:(by repeat constructor) eq_refl eq_refl ltac:(done) q js Hk).
  - unfold drop_expired. destruct (existsb _ _); [by apply (keeps_order_stop_handed_on (with_focus now q))|].
    exact (Hpure (with_focus now) [] ltac:(constructor) eq_refl eq_refl ltac:(done) q js Hk).
  - apply (keeps_order_quiet (ended id e)); [|done]. intros q1.
    destruct (ended_reads id e q1) as (H1 & H2 & H3 & H4 & H5 & _).
    split_and!; [done|by left|done..].
  - exact (Hact [RunDone d] ltac:(by repeat constructor) eq_refl eq_refl q js Hk).
  - apply (keeps_order_then cancel_everything); [apply keeps_order_cancel_everything| |done].
    by apply Hact; repeat constructor.
Qed.

Lemma handle_hold event q :
  all_hold q -> all_hold (handle event q).1 /\
  (length (jobs_of (handle event q).2) + (if in_flight q then 1 else 0)
   <= (if in_flight (handle event q).1 then 1 else 0) + finishes [event])%nat.
Proof.
  intros Hq. assert (forall f, keeps_hold f -> all_hold (f q).1 /\
    (length (jobs_of (f q).2) + (if in_flight q then 1 else 0)
      <= (if in_flight (f q).1 then 1 else 0) + 0)%nat) as Hkeep.
  { intros f Hf. destruct (Hf q Hq). split; [done|lia]. }
  assert (forall acts, jobs_of acts = [] -> keeps_hold (act acts)) as Hact.
  { intros acts Hj. apply keeps_hold_quiet. by intros. }
  assert (forall next queued : QueueThread -> list Waiting,
    keeps_hold (fun q => (with_lanes (next q) (queued q) q, []))) as Hlanes.
  { intros next queued. apply keeps_hold_quiet. by intros. }
  destruct event as [id u key|id v c| | |id r|d| |key| |now|id e|d|]; unfold handle, finishes; csimpl.
  - destruct (fenced key q).
    + apply (Hkeep (act (fenced_off id u))), Hact. unfold fenced_off.
      by destruct (Sequence.marks (flatten u id)).
    + apply Hkeep. apply (speak_parts keeps_hold); [apply keeps_hold_then|by apply Hact| | |apply keeps_hold_pump].
      * intros q1 Hq1. unfold cancel_if_paused. pose proof (keeps_hold_cancel_everything q1 Hq1).
        by destruct (q_paused q1).
      * destruct (priority u); simpl; [|apply Hlanes..].
        apply keeps_hold_then; [apply keeps_hold_cancel_everything|apply Hlanes].
  - split; [done|simpl; lia].
  - split; [done|simpl; lia].
  - split; [done|simpl; lia].
  - apply (Hkeep (cancel_everything >>> act _)), keeps_hold_then;
      [apply keeps_hold_cancel_everything|by apply Hact].
  - split; [done|simpl; lia].
  - destruct (keeps_hold_pump (with_in_flight None q)) as [H1 H2]; [done|]. split; [done|].
    simpl in H2. destruct (in_flight q); lia.
  - destruct key as [k|]; [|apply (Hkeep cancel_everything), keeps_hold_cancel_everything].
    destruct (keeps_hold_cancel_everything (with_fence (N.max (cancelled_through q) k) q)) as [H1 H2];
      [done|]. split; [done|]. simpl in H2. lia.
  - simpl. split; [done|lia].
  - unfold drop_expired. destruct (existsb _ _) eqn:Hx.
    + destruct (stop_handed_on_clears (with_focus now q)) as (Hh & -> & -> & _).
      split; [|simpl; lia]. intros id v now' Hin. rewrite Hh in Hin. by apply not_elem_of_nil in Hin.
    + simpl. split; [|lia]. intros id v now' Hin [= <-]. simpl in Hin.
      destruct (holds v now) eqn:Hh; [done|]. exfalso.
      apply not_true_iff_false in Hx. apply Hx. apply existsb_exists. exists (id, Some v).
      split; [by apply list_elem_of_In|]. simpl. by rewrite Hh.
  - apply (Hkeep (ended id e)), keeps_hold_quiet. intros q1.
    destruct (ended_reads id e q1) as (H1 & _ & _ & _ & H5 & H6 & H7). done.
  - split; [done|simpl; lia].
  - apply (Hkeep (cancel_everything >>> act _)), keeps_hold_then;
      [apply keeps_hold_cancel_everything|by apply Hact].
Qed.

(** A relation on states, what was done and the events taken that the empty run
    has and one event more keeps, every run has. *)
Lemma run_induct (P : QueueThread -> list QueueAct -> list QueueEvent -> Prop) events q acts past :
  P q acts past ->
  (forall q acts past event, P q acts past ->
     P (handle event q).1 (acts ++ (handle event q).2) (past ++ [event])) ->
  let '(q', acts', taken) := run events q in P q' (acts ++ acts') (past ++ taken).
Proof.
  intros Hp Hstep. revert q acts past Hp.
  induction events as [|event events IH]; intros q acts past Hp; simpl; [by rewrite !app_nil_r|].
  pose proof (Hstep q acts past event Hp) as H1. destruct (handle event q) as [q1 acts1]. simpl in H1.
  specialize (IH q1 _ _ H1). destruct (run events q1) as [[q2 acts2] taken2].
  rewrite -!app_assoc in IH. by destruct event.
Qed.

Lemma run_owes events :
  let '(q, acts, taken) := run events new_queue in
  spoken_ids taken ≡ₚ lane_ids q ++ handed_ids acts ++ ended_ids acts.
Proof.
  apply (run_induct (fun q acts past =>
    spoken_ids past ≡ₚ lane_ids q ++ handed_ids acts ++ ended_ids acts) events new_queue [] []); [done|].
  intros q acts past event Hp. pose proof (owes_handle event q) as Hh.
  destruct (handle event q) as [q1 acts1]. simpl. unfold spoken_ids in *. rewrite omap_app Hp.
  rewrite handed_ids_app ended_ids_app.
  rewrite (Permutation_app_comm _ (omap _ [event])) app_assoc Hh. solve_Permutation.
Qed.

Lemma run_shutdown events :
  let '(q, acts, taken) := run events new_queue in Shutdown ∈ taken -> lane_ids q = [].
Proof.
  cut (forall q, let '(q', acts, taken) := run events q in Shutdown ∈ taken -> lane_ids q' = []).
  { intros Hc. apply (Hc new_queue). }
  induction events as [|event events IH]; intros q; simpl; [intros Hn; by apply not_elem_of_nil in Hn|].
  destruct (handle event q) as [q1 acts1] eqn:Hh. specialize (IH q1).
  destruct (run events q1) as [[q2 acts2] taken2].
  destruct event; try (intros [?|?]%elem_of_cons; [done|by apply IH]).
  intros _. unfold handle, cancel_everything, stop_handed_on, andThen, act, unpause in Hh.
  simpl in Hh. destruct (q_paused q); simpl in Hh; by injection Hh as <- _.
Qed.

Lemma run_in_order events :
  let '(q, acts, taken) := run events new_queue in
  raises acts <= U64_MAX -> in_order 0 [] acts.
Proof.
  pose proof (run_induct (fun q acts past => raises acts <= U64_MAX ->
    in_order 0 [] acts /\ knows (jobs_of acts) q /\ generation q = raises acts)
    events new_queue [] []) as Hrun.
  destruct (run events new_queue) as [[q acts] taken]. simpl in Hrun.
  intros Hle. apply Hrun; [done| |done]. clear Hrun Hle q acts taken.
  intros q acts past event IH. pose proof (keeps_order_handle event q (jobs_of acts)) as Hk.
  destruct (handle event q) as [q1 acts1]. simpl. rewrite raises_app jobs_of_app in_order_app.
  intros Hle. destruct (IH ltac:(lia)) as (Ho & Hkn & Hg). rewrite Hg in Hk.
  destruct (Hk Hkn Hle) as (Ho1 & Hkn1 & Hg1). rewrite N.add_0_l. by split_and!.
Qed.

Lemma in_order_token g js pre token post :
  in_order g js (pre ++ CancelToken token :: post) ->
  exists job, job ∈ js ++ jobs_of pre /\ job_cancel job = token /\ job_generation job < g + raises pre.
Proof. intros Ho. apply in_order_app in Ho as [_ [Ho _]]. done. Qed.

Lemma in_order_job g js pre job post :
  in_order g js (pre ++ Send (JobCommand job) :: post) -> job_generation job = g + raises pre.
Proof. intros Ho. apply in_order_app in Ho as [_ [Ho _]]. done. Qed.

Lemma run_hold events :
  let '(q, acts, taken) := run events new_queue in
  all_hold q /\ (length (jobs_of acts) <= (if in_flight q then 1 else 0) + finishes taken)%nat.
Proof.
  apply (run_induct (fun q acts past => all_hold q /\
    (length (jobs_of acts) <= (if in_flight q then 1 else 0) + finishes past)%nat) events new_queue [] []).
  - split; [|done]. intros id v now Hin. by apply not_elem_of_nil in Hin.
  - intros q acts past event [Hh Hn]. destruct (handle_hold event q Hh) as [Hh1 Hn1].
    split; [done|]. rewrite jobs_of_app length_app. unfold finishes in *.
    rewrite omap_app length_app. lia.
Qed.

Lemma run_fence events k :
  let '(q, acts, taken) := run events new_queue in
  Cancel (Some k) ∈ taken -> k <= cancelled_through q.
Proof.
  apply (run_induct (fun q acts past => Cancel (Some k) ∈ past -> k <= cancelled_through q)
    events new_queue [] []).
  { intros Hin. by apply not_elem_of_nil in Hin. }
  intros q acts past event IH.
  assert (cancelled_through (handle event q).1 =
    match event with Cancel (Some key) => N.max (cancelled_through q) key | _ => cancelled_through q end)
    as ->.
  { assert (forall q, cancelled_through (stop_handed_on q).1 = cancelled_through q) as Hstop.
    { intros q1. unfold stop_handed_on, andThen, unpause. simpl. by destruct (q_paused q1). }
    assert (forall q, cancelled_through (cancel_everything q).1 = cancelled_through q) as Hall.
    { intros q1. unfold cancel_everything, andThen. pose proof (Hstop (with_lanes [] [] q1)).
      by destruct (stop_handed_on (with_lanes [] [] q1)). }
    assert (forall q, cancelled_through (pump q).1 = cancelled_through q) as Hpump.
    { intros q1. unfold pump. destruct (in_flight q1); [done|].
      destruct (take_due q1) as [[[? due] ?] ?]. by destruct due. }
    assert (forall f g, (forall q, cancelled_through (f q).1 = cancelled_through q) ->
      (forall q, cancelled_through (g q).1 = cancelled_through q) ->
      forall q, cancelled_through ((f >>> g) q).1 = cancelled_through q) as Hthen.
    { intros f g Hf Hg q1. unfold andThen. specialize (Hf q1). destruct (f q1) as [q2 ?].
      specialize (Hg q2). destruct (g q2). simpl in *. congruence. }
    destruct event as [id u key|id v c| | |id r|d| |key| |now|id e|d|]; unfold handle; try done.
    - destruct (fenced key q); [done|]. apply (speak_parts (fun f =>
        forall q, cancelled_through (f q).1 = cancelled_through q)); try done.
      + intros q1. unfold cancel_if_paused. destruct (q_paused q1); [apply Hall|done].
      + destruct (priority u); simpl; try done. by apply Hthen.
    - by apply Hthen.
    - apply (Hpump (with_in_flight None q)).
    - destruct key as [key|]; [|apply Hall]. apply (Hall (with_fence _ q)).
    - unfold drop_expired. destruct (existsb _ _); [|done]. apply (Hstop (with_focus now q)).
    - unfold ended. simpl. by destruct (marked q !! id) as [[]|].
    - by apply Hthen. }
  intros [Hin|Hin]%elem_of_app.
  - specialize (IH Hin). destruct event as [| | | | | | |[]| | | | |]; lia.
  - apply list_elem_of_singleton in Hin as <-. lia.
Qed.

End presented.

(** ** The guarantees *)

(** C13: every utterance the speech queue takes is owned exactly once: over any
    run of events, the utterances spoken are exactly those waiting in a lane,
    those handed to the synth thread and the mixer, and those the queue has
    ended itself, each in one of the three and once; and when the queue has
    shut down none is left waiting. *)
Theorem speech_owned_once `{Presenter} (events : list QueueEvent) :
  let '(q, acts, taken) := run events new_queue in
  spoken_ids taken ≡ₚ lane_ids q ++ handed_ids acts ++ ended_ids acts /\
  (Shutdown ∈ taken -> lane_ids q = []).
Proof.
  pose proof (run_owes events) as H1. pose proof (run_shutdown events) as H2.
  by destruct (run events new_queue) as [[q acts] taken].
Qed.

(** C20: the order that makes a cancel exact: in whatever the queue does, up to
    [2^64] cancels, each job is sent under the generation of that moment, and
    whenever a token is cancelled its job was sent before, under a generation
    the source has already been raised past. So a mixer that sees the token's
    effect sees the raised generation, and never ends that job completed. *)
Theorem generation_raised_before_token `{Presenter} (events : list QueueEvent) :
  let acts := (run events new_queue).1.2 in
  raises acts <= U64_MAX ->
  (forall pre token post, acts = pre ++ CancelToken token :: post ->
     exists job, Send (JobCommand job) ∈ pre /\ job_cancel job = token /\
                 job_generation job < raises pre) /\
  (forall pre job post, acts = pre ++ Send (JobCommand job) :: post ->
     job_generation job = raises pre).
Proof.
  pose proof (run_in_order events) as Ho. destruct (run events new_queue) as [[q acts] taken].
  simpl. intros Hle. specialize (Ho Hle). split.
  - intros pre token post ->. apply in_order_token in Ho as (job & Hin & Ht & Hg).
    exists job. split_and!; [|done..]. unfold jobs_of in Hin. simpl in Hin.
    apply list_elem_of_omap in Hin as (a & Ha & Heq). by destruct a as [| | | | | | | | |[]|]; simplify_eq.
  - intros pre job post ->. by apply in_order_job in Ho.
Qed.

(** The synth thread is given one job at a time, each after the one before
    it has finished; and focus speech is only ever with the synth thread and
    the mixer while it holds: whatever focus changes come, everything handed
    on and not yet stopped or ended is about the focus the queue was last told
    of, its ancestors or the foreground, or was never the focus. *)
Theorem one_job_and_speech_that_holds `{Presenter} (events : list QueueEvent) :
  let '(q, acts, taken) := run events new_queue in
  (length (jobs_of acts) <= 1 + finishes taken)%nat /\
  (forall id v now, (id, Some v) ∈ handed_on q -> focus_now q = Some now -> holds v now = true).
Proof.
  pose proof (run_hold events) as Hh. destruct (run events new_queue) as [[q acts] taken].
  destruct Hh as [Hh Hn]. split; [|exact Hh]. destruct (in_flight q); lia.
Qed.

(** The key fence: once a key press has cancelled speech, speech an earlier
    key press caused that arrives after it changes nothing in the queue and is
    handed to no one: it is reported queued and ended cancelled at once. *)
Theorem earlier_keys_fenced `{Presenter} (events : list QueueEvent) (k k' : KeySeq)
    (id : UtteranceId) (u : Utterance) :
  let '(q, acts, taken) := run events new_queue in
  Cancel (Some k) ∈ taken -> k' < k ->
  handle (Speak id u (Some k')) q = (q, fenced_off id u) /\
  ended_ids (fenced_off id u) = [id] /\ jobs_of (fenced_off id u) = [].
Proof.
  pose proof (run_fence events k) as Hf. destruct (run events new_queue) as [[q acts] taken].
  intros Hin Hlt. specialize (Hf Hin). split.
  - unfold handle, fenced. by rewrite (proj2 (N.ltb_lt _ _) (N.lt_le_trans _ _ _ Hlt Hf)).
  - unfold fenced_off. by destruct (Sequence.marks (flatten u id)).
Qed.

(** ** A run *)

(** A presenter that speaks text segments as they are. *)
Definition plain_flatten (u : Utterance) (id : UtteranceId) : SpeechSequence :=
  {| seq_utterance := id; seq_trace_id := utt_trace_id u; seq_language := None;
     items := omap (fun s => match content s with
                             | SegText t => Some (ItemText t)
                             | SegMark m => Some (ItemMark {| index := mark_value m |})
                             | _ => None end) (utt_segments u) |}.
#[export] Instance plain_presenter : Presenter := {| flatten := plain_flatten; flatten_utterance _ _ := eq_refl |}.

Definition say (n : N) (p : SpeechPriority) (key : option KeySeq) : QueueEvent :=
  Speak {| utterance_number := n |}
    {| utt_trace_id := {| trace_number := n |}; priority := p; utt_segments := [text_segment "hello"];
       source := None; validity := None; say_all := false |} key.

(** Three utterances in two lanes, a key's cancel, one of an earlier key, one
    that interrupts, and the synth thread's end of the first job. *)
Definition queue_sample : list QueueEvent :=
  [say 1 Queued None; say 2 Queued None; say 3 Next None; SynthFinished; Cancel (Some 7);
   say 4 Queued (Some 6); say 5 Interrupt (Some 8); SynthFinished].

Definition ids (l : list N) : list UtteranceId := Build_UtteranceId <$> l.

Lemma speech_owned_once_witness :
  let '(q, acts, taken) := run queue_sample new_queue in
  handed_ids acts = ids [1; 3; 5] /\ ended_ids acts = ids [2; 4] /\ lane_ids q = [] /\
  spoken_ids taken ≡ₚ lane_ids q ++ handed_ids acts ++ ended_ids acts.
Proof.
  assert (handed_ids (run queue_sample new_queue).1.2 = ids [1; 3; 5] /\
    ended_ids (run queue_sample new_queue).1.2 = ids [2; 4] /\
    lane_ids (run queue_sample new_queue).1.1 = []) as Hr by (vm_compute; tauto).
  pose proof (speech_owned_once queue_sample) as H.
  destruct (run queue_sample new_queue) as [[q acts] taken]. simpl in Hr.
  destruct H as [H _], Hr as (H1 & H2 & H3). split_and!; assumption.
Defined.

Lemma generation_raised_before_token_witness :
  let acts := (run queue_sample new_queue).1.2 in
  raises acts = 2 /\ job_generation <$> jobs_of acts = [0; 0; 2] /\
  forall pre token post, acts = pre ++ CancelToken token :: post ->
    exists job, Send (JobCommand job) ∈ pre /\ job_cancel job = token /\ job_generation job < raises pre.
Proof.
  cbv zeta. split; [vm_compute; reflexivity|]. split; [vm_compute; reflexivity|].
  apply (generation_raised_before_token queue_sample). vm_compute. congruence.
Defined.

Lemma earlier_keys_fenced_witness :
  let q := (run (take 5 queue_sample) new_queue).1.1 in
  (handle (say 4 Queued (Some 6)) q).1 = q /\ jobs_of (handle (say 4 Queued (Some 6)) q).2 = [].
Proof.
  assert (Cancel (Some 7) ∈ (run (take 5 queue_sample) new_queue).2) as Hin.
  { apply list_elem_of_In. vm_compute. tauto. }
  pose proof (earlier_keys_fenced (take 5 queue_sample) 7 6 {| utterance_number := 4 |}
    {| utt_trace_id := {| trace_number := 4 |}; priority := Queued;
       utt_segments := [text_segment "hello"]; source := None; validity := None; say_all := false |}) as H.
  unfold say. destruct (run (take 5 queue_sample) new_queue) as [[q acts] taken]. simpl in Hin |- *.
  destruct (H Hin ltac:(reflexivity)) as (Hh & _ & Hj). unfold handle in Hh. rewrite Hh. split; [done|exact Hj].
Defined.
