(* ===== verification/Store.v ===== *)
(** * The mixer's store

    [src/crates/verbatim-audio/src/mixer/store.rs]: one source's state on the
    audio thread, with its frames, pending events, utterances and voices, and
    every operation on it. Positions and counts are [u64]s as [N] with the
    source's saturating arithmetic; a sample is an IEEE single, computed with
    the Standard Library's [SpecFloat] at 24 bits of precision; [VecDeque] and
    [Vec] are lists, oldest first. The outbound ring is the list of what it
    holds, with its capacity. *)

From Stdlib Require Import SpecFloat.
From S2P Require Import Prelude Facts Speech.

(** ** Samples *)

Definition f32 := spec_float.
Definition f32_add : f32 -> f32 -> f32 := SFadd 24 128.
Definition f32_mul : f32 -> f32 -> f32 := SFmul 24 128.
Definition f32_zero : f32 := S754_zero false.
Definition f32_one : f32 := S754_finite false 8388608 (-23).

(** [f32::clamp(-1.0, 1.0)]. *)
Definition f32_clamp (x : f32) : f32 :=
  if SFltb x (SFopp f32_one) then SFopp f32_one
  else if SFltb f32_one x then f32_one else x.

(** ** Records of the outbound ring *)

(** [PlaybackEvent]; the duration of [Heard] is in nanoseconds. *)
Inductive PlaybackEvent :=
  | PlayStarted (utterance : UtteranceId) (trace : TraceId)
  | PlayHeard (utterance : UtteranceId) (trace : TraceId)
  | PlayMark (utterance : UtteranceId) (trace : TraceId) (mark : N)
  | PlayEnded (utterance : UtteranceId) (trace : TraceId) (ending : UtteranceEnding).

(** [records::Outbound]; the time a pass read is left out, as it is the same
    for all a pass sends. *)
Inductive Outbound :=
  | OutEvent (source : nat) (event : PlaybackEvent)
  | OutFormatChanged (source : nat) (utterance : UtteranceId) (trace : TraceId)
  | OutUnderrun (count : N)
  | OutFrames (frames : list f32)
  | OutReason (reason : string).

(** [mixer::OUTBOUND] and the ring's [is_full] and [push]. *)
Definition OUTBOUND : nat := N.to_nat 1024.
Definition ring_full (out : list Outbound) : bool := bool_decide (OUTBOUND <= length out)%nat.
Definition ring_push (record : Outbound) (out : list Outbound) : list Outbound :=
  if ring_full out then out else out ++ [record].

(** ** The store's limits *)

Definition TRACKED : nat := N.to_nat 64.
Definition EVENTS : nat := N.to_nat 1024.
Definition VOICES : nat := N.to_nat 64.
Definition SEGMENTS : nat := N.to_nat 1024.
Definition MAX_CHANNELS : N := 8.
Definition MAX_RATE : N := 192000.
Definition MARGIN_MS : N := 10.
Definition SAMPLES : N := MAX_RATE * (80 + MARGIN_MS) / 1000 * MAX_CHANNELS.

(** ** A source's state *)

(** [store::Kind]. *)
Inductive Kind :=
  | KindStart
  | KindMark (mark : N)
  | KindEnd
  | KindEnded (ending : UtteranceEnding)
  | KindFormatChanged.

(** [store::Pending]. *)
Record Pending := {
  p_position : N;
  p_utterance : UtteranceId;
  p_trace : TraceId;
  p_kind : Kind;
}.

(** [store::Tracked]. *)
Record Tracked := {
  t_utterance : UtteranceId;
  t_trace : TraceId;
  t_generation : N;
  t_start : N;
  t_writing : bool;
  t_started : bool;
}.

(** [store::Segment]. *)
Record MixSegment := { source_start : N; mix_start : N; seg_len : N }.

(** [store::VoiceState]. *)
Inductive VoiceState :=
  | VoiceWaiting
  | VoiceResume (heard : N)
  | VoicePlaying (start : N)
  | VoiceRetired.

#[export] Instance VoiceState_eq_dec : EqDecision VoiceState.
Proof. solve_decision. Defined.

(** [store::Voice]. *)
Record Voice := {
  v_utterance : option UtteranceId;
  v_ends : bool;
  v_trigger : N;
  v_frames : list f32;
  v_gain : f32;
  v_state : VoiceState;
}.

(** [records::NewVoice]. *)
Record NewVoice := { nv_frames : list f32; nv_gain : f32; nv_format : N }.

(** [SourceState]. *)
Record SourceState := {
  s_channels : N;
  sample_room : N;
  data : list f32;
  data_start : N;
  write_end : N;
  mixed_end : N;
  segments : list MixSegment;
  events : list Pending;
  tracked : list Tracked;
  s_paused : bool;
  resumed : bool;
  voices : list Voice;
  awaiting_clock : list (UtteranceId * TraceId * N);
  s_generation : N;
  released : N;
  released_now : bool;
}.

(** [SourceState::new]. *)
Definition new_source (takes_frames : bool) : SourceState :=
  {| s_channels := 0; sample_room := if takes_frames then SAMPLES else 0; data := [];
     data_start := 0; write_end := 0; mixed_end := 0; segments := []; events := []; tracked := [];
     s_paused := false; resumed := false; voices := []; awaiting_clock := []; s_generation := 0;
     released := 0; released_now := false |}.

(** Changes of one group of fields. *)
Definition set_audio (d : list f32) (dstart wend mend : N) (segs : list MixSegment) (s : SourceState) :=
  {| s_channels := s_channels s; sample_room := sample_room s; data := d; data_start := dstart;
     write_end := wend; mixed_end := mend; segments := segs; events := events s;
     tracked := tracked s; s_paused := s_paused s; resumed := resumed s; voices := voices s;
     awaiting_clock := awaiting_clock s; s_generation := s_generation s; released := released s;
     released_now := released_now s |}.
Definition set_events (e : list Pending) (s : SourceState) :=
  {| s_channels := s_channels s; sample_room := sample_room s; data := data s;
     data_start := data_start s; write_end := write_end s; mixed_end := mixed_end s;
     segments := segments s; events := e; tracked := tracked s; s_paused := s_paused s;
     resumed := resumed s; voices := voices s; awaiting_clock := awaiting_clock s;
     s_generation := s_generation s; released := released s; released_now := released_now s |}.
Definition set_tracked (t : list Tracked) (s : SourceState) :=
  {| s_channels := s_channels s; sample_room := sample_room s; data := data s;
     data_start := data_start s; write_end := write_end s; mixed_end := mixed_end s;
     segments := segments s; events := events s; tracked := t; s_paused := s_paused s;
     resumed := resumed s; voices := voices s; awaiting_clock := awaiting_clock s;
     s_generation := s_generation s; released := released s; released_now := released_now s |}.
Definition set_voices (v : list Voice) (s : SourceState) :=
  {| s_channels := s_channels s; sample_room := sample_room s; data := data s;
     data_start := data_start s; write_end := write_end s; mixed_end := mixed_end s;
     segments := segments s; events := events s; tracked := tracked s; s_paused := s_paused s;
     resumed := resumed s; voices := v; awaiting_clock := awaiting_clock s;
     s_generation := s_generation s; released := released s; released_now := released_now s |}.
Definition set_pauses (paused res : bool) (s : SourceState) :=
  {| s_channels := s_channels s; sample_room := sample_room s; data := data s;
     data_start := data_start s; write_end := write_end s; mixed_end := mixed_end s;
     segments := segments s; events := events s; tracked := tracked s; s_paused := paused;
     resumed := res; voices := voices s; awaiting_clock := awaiting_clock s;
     s_generation := s_generation s; released := released s; released_now := released_now s |}.
Definition set_clock (c : list (UtteranceId * TraceId * N)) (s : SourceState) :=
  {| s_channels := s_channels s; sample_room := sample_room s; data := data s;
     data_start := data_start s; write_end := write_end s; mixed_end := mixed_end s;
     segments := segments s; events := events s; tracked := tracked s; s_paused := s_paused s;
     resumed := resumed s; voices := voices s; awaiting_clock := c;
     s_generation := s_generation s; released := released s; released_now := released_now s |}.
Definition set_released (n : N) (now : bool) (s : SourceState) :=
  {| s_channels := s_channels s; sample_room := sample_room s; data := data s;
     data_start := data_start s; write_end := write_end s; mixed_end := mixed_end s;
     segments := segments s; events := events s; tracked := tracked s; s_paused := s_paused s;
     resumed := resumed s; voices := voices s; awaiting_clock := awaiting_clock s;
     s_generation := s_generation s; released := n; released_now := now |}.
Definition set_generation (g : N) (s : SourceState) :=
  {| s_channels := s_channels s; sample_room := sample_room s; data := data s;
     data_start := data_start s; write_end := write_end s; mixed_end := mixed_end s;
     segments := segments s; events := events s; tracked := tracked s; s_paused := s_paused s;
     resumed := resumed s; voices := voices s; awaiting_clock := awaiting_clock s;
     s_generation := g; released := released s; released_now := released_now s |}.

(** [SourceState::set_channels]. *)
Definition change_channels (channels : N) (s : SourceState) :=
  {| s_channels := channels; sample_room := sample_room s; data := data s;
     data_start := data_start s; write_end := write_end s; mixed_end := mixed_end s;
     segments := segments s; events := events s; tracked := tracked s; s_paused := s_paused s;
     resumed := resumed s; voices := voices s; awaiting_clock := awaiting_clock s;
     s_generation := s_generation s; released := released s; released_now := released_now s |}.

(** ** What it has room for *)

(** [SourceState::held]. *)
Definition held (s : SourceState) : N := write_end s - data_start s.

(** [admits_register], [admits_frames], [admits_event], [admits_voice]. *)
Definition admits_register (s : SourceState) : bool :=
  bool_decide (length (tracked s) < TRACKED)%nat && bool_decide (length (events s) < EVENTS)%nat.
Definition admits_frames (samples : N) (s : SourceState) : bool :=
  ((N.of_nat (length (data s)) +|64| samples) <=? sample_room s)
  && bool_decide (length (events s) < EVENTS)%nat.
Definition admits_event (s : SourceState) : bool := bool_decide (length (events s) < EVENTS)%nat.
Definition admits_voice (s : SourceState) : bool := bool_decide (length (voices s) < VOICES)%nat.

(** ** Taking records *)

(** Whether a tracked utterance is [utterance] and still takes frames. *)
Definition writes (utterance : UtteranceId) (t : Tracked) : bool :=
  bool_decide (t_utterance t = utterance) && t_writing t.

(** [SourceState::writing]. *)
Definition writing (utterance : UtteranceId) (s : SourceState) : option Tracked :=
  Prelude.find (writes utterance) (tracked s).

(** The first tracked utterance [writing] finds, changed. *)
Fixpoint update_writing (utterance : UtteranceId) (f : Tracked -> Tracked) (l : list Tracked) :
    list Tracked :=
  match l with
  | [] => []
  | t :: l => if writes utterance t then f t :: l else t :: update_writing utterance f l
  end.

(** [SourceState::end_now]. *)
Definition end_now (utterance : UtteranceId) (trace : TraceId) (kind : Kind) (s : SourceState) :=
  set_events ({| p_position := 0; p_utterance := utterance; p_trace := trace; p_kind := kind |}
              :: events s) s.

(** [SourceState::register]. *)
Definition register (utterance : UtteranceId) (trace : TraceId) (generation : N) (s : SourceState) :=
  if generation <? s_generation s then end_now utterance trace (KindEnded EndCancelled) s
  else set_tracked (tracked s ++
    [{| t_utterance := utterance; t_trace := trace; t_generation := generation;
        t_start := write_end s; t_writing := true; t_started := false |}]) s.

(** [SourceState::release_count]. *)
Definition release_count (frames : N) (s : SourceState) := set_released (released s +|64| frames) true s.

(** [SourceState::sample_index]. *)
Definition sample_index (position : N) (s : SourceState) : N :=
  N.min U64_MAX ((position - data_start s) * s_channels s).

(** [SourceState::truncate]. *)
Definition truncate (from : N) (s : SourceState) :=
  let from := N.max from (data_start s) in
  let s :=
    if from <? write_end s then
      let removed := write_end s - from in
      release_count removed
        (set_audio (take (N.to_nat (sample_index from s)) (data s)) (data_start s) from
           (mixed_end s) (segments s) s)
    else s in
  set_audio (data s) (data_start s) (write_end s) (N.min (mixed_end s) from) (segments s) s.

(** [SourceState::retire_voices]. *)
Definition retire (v : Voice) : Voice :=
  {| v_utterance := v_utterance v; v_ends := v_ends v; v_trigger := v_trigger v;
     v_frames := v_frames v; v_gain := v_gain v; v_state := VoiceRetired |}.
Definition retire_voices (which : Voice -> bool) (s : SourceState) :=
  set_voices ((fun v => if bool_decide (v_state v <> VoiceRetired) && which v then retire v else v)
              <$> voices s) s.

(** [tracked.iter().position(..)], with the element there. *)
Fixpoint position (f : Tracked -> bool) (l : list Tracked) : option (Tracked * list Tracked) :=
  match l with
  | [] => None
  | t :: l => if f t then Some (t, l) else '(x, rest) ← position f l; Some (x, t :: rest)
  end.

(** [SourceState::end_failed], of the tracked utterance [t] with [rest] the
    others. *)
Definition end_failed (t : Tracked) (rest : list Tracked) (kind : Kind) (s : SourceState) :=
  let s := set_tracked rest s in
  let utterance := t_utterance t in
  let s := truncate (N.max (t_start t) (mixed_end s)) s in
  let s := set_events (List.filter (fun p => negb (bool_decide (p_utterance p = utterance))) (events s)) s in
  let s := retire_voices (fun v => bool_decide (v_utterance v = Some utterance)) s in
  end_now utterance (t_trace t) kind s.

(** [SourceState::frames]. *)
Definition frames (utterance : UtteranceId) (count : N) (samples : list f32) (current : bool)
    (s : SourceState) :=
  if negb current then
    let s := release_count count s in
    match position (writes utterance) (tracked s) with
    | Some (t, rest) => end_failed t rest KindFormatChanged s
    | None => s
    end
  else
    match writing utterance s with
    | None => release_count count s
    | Some t =>
        let s :=
          if t_started t then s
          else
            set_events (events s ++ [{| p_position := write_end s; p_utterance := utterance;
                                        p_trace := t_trace t; p_kind := KindStart |}])
              (set_tracked (update_writing utterance (fun t =>
                 {| t_utterance := t_utterance t; t_trace := t_trace t; t_generation := t_generation t;
                    t_start := t_start t; t_writing := t_writing t; t_started := true |}) (tracked s)) s) in
        set_audio (data s ++ samples) (data_start s) (write_end s +|64| count) (mixed_end s)
          (segments s) s
    end.

(** [SourceState::mark]. *)
Definition mark_at (utterance : UtteranceId) (mark : N) (s : SourceState) :=
  match writing utterance s with
  | None => s
  | Some t =>
      set_events (events s ++ [{| p_position := write_end s; p_utterance := utterance;
                                  p_trace := t_trace t; p_kind := KindMark mark |}]) s
  end.

(** [SourceState::voice]. *)
Definition voice (utterance : option UtteranceId) (v : NewVoice) (current : bool)
    (s : SourceState) (out : list Outbound) : SourceState * list Outbound :=
  let accepted := current &&
    match utterance with
    | None => true
    | Some u => match writing u s with Some _ => true | None => false end
    end in
  if negb accepted then (s, ring_push (OutFrames (nv_frames v)) out)
  else
    (set_voices (voices s ++
       [{| v_utterance := utterance; v_ends := false; v_trigger := write_end s;
           v_frames := nv_frames v; v_gain := nv_gain v; v_state := VoiceWaiting |}]) s, out).

(** [SourceState::play_to_end]. *)
Definition play_to_end (utterance : UtteranceId) (trace : TraceId) (v : NewVoice) (current : bool)
    (s : SourceState) (out : list Outbound) : SourceState * list Outbound :=
  if negb current then
    (end_now utterance trace (KindEnded EndCancelled) s, ring_push (OutFrames (nv_frames v)) out)
  else
    (set_voices (voices s ++
       [{| v_utterance := Some utterance; v_ends := true; v_trigger := write_end s;
           v_frames := nv_frames v; v_gain := nv_gain v; v_state := VoiceWaiting |}])
     (set_tracked (tracked s ++
       [{| t_utterance := utterance; t_trace := trace; t_generation := s_generation s;
           t_start := write_end s; t_writing := false; t_started := true |}]) s), out).

(** [SourceState::finish]. *)
Definition finish_at (utterance : UtteranceId) (s : SourceState) :=
  match writing utterance s with
  | None => s
  | Some t =>
      set_events (events s ++ [{| p_position := write_end s; p_utterance := utterance;
                                  p_trace := t_trace t; p_kind := KindEnd |}])
        (set_tracked (update_writing utterance (fun t =>
           {| t_utterance := t_utterance t; t_trace := t_trace t; t_generation := t_generation t;
              t_start := t_start t; t_writing := false; t_started := t_started t |}) (tracked s)) s)
  end.

(** [SourceState::fail]; the reason given back when the utterance had ended. *)
Definition fail_at (utterance : UtteranceId) (reason : string) (s : SourceState) :
    SourceState * option string :=
  match position (fun t => bool_decide (t_utterance t = utterance)) (tracked s) with
  | None => (s, Some reason)
  | Some (t, rest) => (end_failed t rest (KindEnded (EndFailed reason)) s, None)
  end.

(** ** Cancelling *)

(** Whether a pending event is an ending made at once. *)
Definition made_at_once (k : Kind) : bool :=
  match k with KindEnded _ | KindFormatChanged => true | _ => false end.

(** The closure [cancelled] of [cancel_older]: an utterance tracked under an
    older generation. *)
Definition tracked_older (generation : N) (ts : list Tracked) (utterance : UtteranceId) : bool :=
  existsb (fun t => bool_decide (t_utterance t = utterance) && (t_generation t <? generation)) ts.

(** [SourceState::cancel_older]. *)
Definition cancel_older (generation : N) (s : SourceState) :=
  let spared :=
    match Prelude.find (fun t => generation <=? t_generation t) (tracked s) with
    | Some t => t_start t
    | None => write_end s
    end in
  let from := N.max (mixed_end s) (data_start s) in
  let removed := spared - from in
  let s :=
    if 0 <? removed then
      release_count removed
        (set_audio (take (N.to_nat (sample_index from s)) (data s)
                    ++ drop (N.to_nat (sample_index spared s)) (data s))
           (data_start s) (write_end s) (mixed_end s) (segments s) s)
    else s in
  let ts := tracked s in
  let s := set_events (omap (fun p =>
    if tracked_older generation ts (p_utterance p) && negb (made_at_once (p_kind p)) then None
    else Some (if (spared <=? p_position p) && negb (made_at_once (p_kind p))
               then {| p_position := p_position p - removed; p_utterance := p_utterance p;
                       p_trace := p_trace p; p_kind := p_kind p |}
               else p)) (events s)) s in
  let s := set_voices ((fun v =>
    let cancelled := match v_utterance v with
                     | None => true
                     | Some u => tracked_older generation ts u end in
    if bool_decide (v_state v <> VoiceRetired) && cancelled then retire v
    else if bool_decide (v_state v = VoiceWaiting) && (spared <=? v_trigger v)
    then {| v_utterance := v_utterance v; v_ends := v_ends v; v_trigger := v_trigger v - removed;
            v_frames := v_frames v; v_gain := v_gain v; v_state := v_state v |}
    else v) <$> voices s) s in
  let ended := List.filter (fun t => t_generation t <? generation) ts in
  let kept := (fun t =>
    if spared <=? t_start t
    then {| t_utterance := t_utterance t; t_trace := t_trace t; t_generation := t_generation t;
            t_start := t_start t - removed; t_writing := t_writing t; t_started := t_started t |}
    else t) <$> List.filter (fun t => negb (t_generation t <? generation)) ts in
  let s := set_tracked kept s in
  let s := foldr (fun t => end_now (t_utterance t) (t_trace t) (KindEnded EndCancelled)) s ended in
  let wend := write_end s - removed in
  set_audio (data s) (data_start s) wend (N.min (mixed_end s) wend) (segments s) s.

(** [SourceState::end_all]. *)
Definition end_all (ending : UtteranceEnding) (s : SourceState) :=
  let s := truncate (mixed_end s) s in
  let s := set_events (List.filter (fun p => made_at_once (p_kind p)) (events s)) s in
  let s := retire_voices (fun _ => true) s in
  let ts := tracked s in
  foldr (fun t => end_now (t_utterance t) (t_trace t) (KindEnded ending)) (set_tracked [] s) ts.

(** ** Letting go and firing *)

(** [Vec::swap_remove] within range: the last element takes the place of the
    one at [i]. *)
Definition swap_remove {A} (i : nat) (l : list A) : list A :=
  match last l with
  | Some x => take (length l - 1) (<[i:=x]> l)
  | None => []
  end.

(** The loop of [SourceState::flush_retired]: it moves on or takes one out, so
    the number of voices is fuel enough. *)
Fixpoint flush_from (fuel index : nat) (vs : list Voice) (out : list Outbound) (sent : bool) :
    list Voice * list Outbound * bool :=
  match fuel with
  | O => (vs, out, sent)
  | S fuel =>
      match vs !! index with
      | None => (vs, out, sent)
      | Some v =>
          if decide (v_state v <> VoiceRetired) then flush_from fuel (S index) vs out sent
          else if ring_full out then (vs, out, sent)
          else flush_from fuel index (swap_remove index vs) (ring_push (OutFrames (v_frames v)) out) true
      end
  end.

(** [SourceState::flush_retired]. *)
Definition flush_retired (s : SourceState) (out : list Outbound) : SourceState * list Outbound * bool :=
  let '(vs, out, sent) := flush_from (length (voices s)) 0 (voices s) out false in
  (set_voices vs s, out, sent).

(** [nothing_retired] and [events_pending]. *)
Definition nothing_retired (s : SourceState) : bool :=
  forallb (fun v => bool_decide (v_state v <> VoiceRetired)) (voices s).
Definition events_pending (s : SourceState) : bool :=
  match events s with [] => false | _ => true end.

(** [SourceState::mix_position]. *)
Definition mix_position (position : N) (s : SourceState) : option N :=
  (fun seg => mix_start seg +|64| (position - source_start seg)) <$>
    Prelude.find (fun seg => (source_start seg <=? position)
                             && (position <? source_start seg +|64| seg_len seg)) (segments s).

(** [frame_played] and [played_up_to]. *)
Definition frame_played (position played : N) (s : SourceState) : bool :=
  if position <? data_start s then true
  else match mix_position position s with Some mix => mix <? played | None => false end.
Definition played_up_to (position played : N) (s : SourceState) : bool :=
  (position <=? data_start s) || frame_played (position - 1) played s.

(** [voice_len_of] and [voice_len]. *)
Definition voice_len_of (samples : nat) (channels : N) : N :=
  N.of_nat samples / (if channels =? 0 then 1 else channels).
Definition voice_len (v : Voice) (channels : N) : N := voice_len_of (length (v_frames v)) channels.

(** Whether a voice has played to its end. *)
Definition voice_played (channels played : N) (v : Voice) : bool :=
  match v_state v with
  | VoicePlaying start => start +|64| voice_len v channels <=? played
  | _ => false
  end.

(** [SourceState::release_voices]: the loop over the voices, with the tracked
    utterances and the events it changes. *)
Fixpoint release_voices_from (channels played : N) (vs : list Voice) (ts : list Tracked)
    (es : list Pending) : list Voice * list Tracked * list Pending :=
  match vs with
  | [] => ([], ts, es)
  | v :: vs =>
      let '(v, ts, es) :=
        if voice_played channels played v then
          match v_ends v, v_utterance v with
          | true, Some u =>
              match position (fun t => bool_decide (t_utterance t = u)) ts with
              | Some (t, rest) =>
                  (retire v, rest,
                   {| p_position := 0; p_utterance := u; p_trace := t_trace t;
                      p_kind := KindEnded EndCompleted |} :: es)
              | None => (retire v, ts, es)
              end
          | _, _ => (retire v, ts, es)
          end
        else (v, ts, es) in
      let '(vs, ts, es) := release_voices_from channels played vs ts es in
      (v :: vs, ts, es)
  end.
Definition release_voices (played : N) (s : SourceState) :=
  let '(vs, ts, es) := release_voices_from (s_channels s) played (voices s) (tracked s) (events s) in
  set_events es (set_tracked ts (set_voices vs s)).

(** [SourceState::release_frames]: the loop over the segments from the oldest,
    which ends at one not wholly played. *)
Fixpoint release_segments (played : N) (segs : list MixSegment) (s : SourceState) : SourceState :=
  match segs with
  | [] => set_audio (data s) (data_start s) (write_end s) (mixed_end s) [] s
  | seg :: segs =>
      let done_ := N.min (played - mix_start seg) (seg_len seg) in
      if done_ =? 0 then set_audio (data s) (data_start s) (write_end s) (mixed_end s) (seg :: segs) s
      else
        let samples := N.min (N.min U64_MAX (done_ * s_channels s)) (N.of_nat (length (data s))) in
        let s := release_count done_
          (set_audio (drop (N.to_nat samples) (data s)) (data_start s +|64| done_) (write_end s)
             (mixed_end s) (segments s) s) in
        let seg := {| source_start := source_start seg +|64| done_;
                      mix_start := mix_start seg +|64| done_; seg_len := seg_len seg - done_ |} in
        if 0 <? seg_len seg
        then set_audio (data s) (data_start s) (write_end s) (mixed_end s) (seg :: segs) s
        else release_segments played segs s
  end.
Definition release_frames (played : N) (s : SourceState) := release_segments played (segments s) s.

(** Whether a pending event's moment has played. *)
Definition due (played : N) (p : Pending) (s : SourceState) : bool :=
  match p_kind p with
  | KindStart => frame_played (p_position p) played s
  | KindMark _ | KindEnd => played_up_to (p_position p) played s
  | KindEnded _ | KindFormatChanged => true
  end.

(** What firing one event does to the source, and what it sends. *)
Definition fire_one (source : nat) (p : Pending) (s : SourceState) : SourceState * Outbound :=
  match p_kind p with
  | KindStart =>
      (match mix_position (p_position p) s with
       | Some mix =>
           if decide (length (awaiting_clock s) < TRACKED)%nat
           then set_clock (awaiting_clock s ++ [(p_utterance p, p_trace p, mix)]) s else s
       | None => s
       end, OutEvent source (PlayStarted (p_utterance p) (p_trace p)))
  | KindMark m => (s, OutEvent source (PlayMark (p_utterance p) (p_trace p) m))
  | KindEnd =>
      (set_tracked (List.filter (fun t => negb (bool_decide (t_utterance t = p_utterance p))) (tracked s)) s,
       OutEvent source (PlayEnded (p_utterance p) (p_trace p) EndCompleted))
  | KindEnded ending => (s, OutEvent source (PlayEnded (p_utterance p) (p_trace p) ending))
  | KindFormatChanged => (s, OutFormatChanged source (p_utterance p) (p_trace p))
  end.

(** The loop of [SourceState::fire] over the pending events from the oldest. *)
Fixpoint fire_events (source : nat) (played : N) (es : list Pending) (s : SourceState)
    (out : list Outbound) (sent : bool) : SourceState * list Outbound * bool :=
  match es with
  | [] => (set_events [] s, out, sent)
  | p :: rest =>
      if negb (due played p s) || ring_full out then (set_events (p :: rest) s, out, sent)
      else
        let '(s, record) := fire_one source p s in
        fire_events source played rest s (ring_push record out) true
  end.

(** [SourceState::fire]. *)
Definition fire (source : nat) (played : N) (s : SourceState) (out : list Outbound) :
    SourceState * list Outbound * bool :=
  let s := release_voices played s in
  let '(s, out, sent) := fire_events source played (events s) s out false in
  (release_frames played s, out, sent).

(** ** Rewinding *)

(** A voice as [SourceState::rewind] leaves it. *)
Definition rewind_voice (channels played : N) (v : Voice) : Voice :=
  match v_state v with
  | VoicePlaying start =>
      let len := voice_len v channels in
      {| v_utterance := v_utterance v; v_ends := v_ends v; v_trigger := v_trigger v;
         v_frames := v_frames v; v_gain := v_gain v;
         v_state :=
           if played <=? start then VoiceWaiting
           else
             let heard := N.min (played - start) len in
             if heard =? len then VoiceRetired else VoiceResume heard |}
  | _ => v
  end.

(** The loop of [SourceState::rewind] over the segments, newest first. *)
Fixpoint rewind_segments (played : N) (newest_first : list MixSegment) (mend : N) :
    list MixSegment * N :=
  match newest_first with
  | [] => ([], mend)
  | seg :: rest =>
      if played <=? mix_start seg then rewind_segments played rest (mend - seg_len seg)
      else
        let keep := N.min (played - mix_start seg) (seg_len seg) in
        ({| source_start := source_start seg; mix_start := mix_start seg; seg_len := keep |} :: rest,
         mend - (seg_len seg - keep))
  end.

(** [SourceState::rewind]. *)
Definition rewind (played : N) (s : SourceState) :=
  let '(segs, mend) := rewind_segments played (rev (segments s)) (mixed_end s) in
  set_audio (data s) (data_start s) (write_end s) mend (rev segs)
    (set_voices (rewind_voice (s_channels s) played <$> voices s) s).

(** ** Mixing *)

(** [SourceState::unmixed] and [still_written]. *)
Definition unmixed (s : SourceState) : N := write_end s - mixed_end s.
Definition still_written (v : Voice) (s : SourceState) : bool :=
  match v_utterance v with
  | Some u => existsb (writes u) (tracked s)
  | None => false
  end.

(** [SourceState::mixable]. *)
Definition mixable (written : N) (s : SourceState) : N :=
  if s_paused s || bool_decide (length (segments s) = SEGMENTS) then 0
  else
    foldl (fun most v =>
      let len := voice_len v (s_channels s) in
      N.max most
        (match v_state v with
         | VoiceRetired => 0
         | state =>
             if still_written v s then 0
             else
               match state with
               | VoiceWaiting =>
                   if (mixed_end s <=? v_trigger v) && (v_trigger v <=? write_end s)
                   then (v_trigger v - mixed_end s) +|64| len else 0
               | VoiceResume heard => len - heard
               | VoicePlaying start => (start +|64| len) - written
               | VoiceRetired => 0
               end
         end)) (unmixed s) (voices s).

(** [SourceState::writing_any]. *)
Definition writing_any (s : SourceState) : bool := existsb t_writing (tracked s).

Definition with_state (state : VoiceState) (v : Voice) : Voice :=
  {| v_utterance := v_utterance v; v_ends := v_ends v; v_trigger := v_trigger v;
     v_frames := v_frames v; v_gain := v_gain v; v_state := state |}.

(** [SourceState::start_voices]. *)
Definition start_voice (written taken : N) (s : SourceState) (v : Voice) : Voice :=
  let mixed_to := mixed_end s +|64| taken in
  match v_state v with
  | VoiceResume heard => with_state (VoicePlaying (written - heard)) v
  | VoiceWaiting =>
      if (mixed_end s <=? v_trigger v)
         && ((v_trigger v <? mixed_to)
             || ((v_trigger v =? write_end s) && (mixed_to =? write_end s)
                 && negb (still_written v s)))
      then with_state (VoicePlaying (written +|64| (v_trigger v - mixed_end s))) v
      else v
  | _ => v
  end.
Definition start_voices (written taken : N) (s : SourceState) :=
  set_voices (start_voice written taken s <$> voices s) s.

(** [slice::get(from..from + count)]. *)
Definition slice (from count : N) (l : list f32) : option (list f32) :=
  if from +|64| count <=? N.of_nat (length l)
  then Some (take (N.to_nat count) (drop (N.to_nat from) l)) else None.

(** The samples from [from] on, each added to by [f] of the one in [extra]. *)
Fixpoint zip_add (f : f32 -> f32) (mix extra : list f32) : list f32 :=
  match mix, extra with
  | x :: mix, y :: extra => f32_add x (f y) :: zip_add f mix extra
  | mix, _ => mix
  end.

(** One voice of [SourceState::mix_voices]. *)
Definition mix_voice (channels written : N) (mix : list f32) (v : Voice) : list f32 :=
  match v_state v with
  | VoicePlaying start =>
      let end_ := written +|64| voice_len_of (length mix) channels in
      let samples n := N.min U64_MAX (n * channels) in
      let from := N.max start written in
      let to := N.min (start +|64| voice_len v channels) end_ in
      if to <=? from then mix
      else
        let out := samples (from - written) in
        let count := samples (to - from) in
        match slice out count mix, slice (samples (from - start)) count (v_frames v) with
        | Some mixed, Some extra =>
            take (N.to_nat out) mix ++ zip_add (fun y => f32_mul y (v_gain v)) mixed extra
            ++ drop (N.to_nat (out + count)) mix
        | _, _ => mix
        end
  | _ => mix
  end.
Definition mix_voices (written : N) (s : SourceState) (mix : list f32) : list f32 :=
  foldl (mix_voice (s_channels s) written) mix (voices s).

(** The end of [SourceState::mix_into]: where the frames went. *)
Definition add_segment (start written taken : N) (segs : list MixSegment) : list MixSegment :=
  match last segs with
  | Some seg =>
      if (mix_start seg +|64| seg_len seg =? written) && (source_start seg +|64| seg_len seg =? start)
      then take (length segs - 1) segs ++
           [{| source_start := source_start seg; mix_start := mix_start seg;
               seg_len := seg_len seg +|64| taken |}]
      else segs ++ [{| source_start := start; mix_start := written; seg_len := taken |}]
  | None => [{| source_start := start; mix_start := written; seg_len := taken |}]
  end.

(** [SourceState::mix_into]. *)
Definition mix_into (count written : N) (s : SourceState) (mix : list f32) : SourceState * list f32 :=
  if mixable written s =? 0 then (s, mix)
  else
    let s := set_pauses (s_paused s) false s in
    let taken := N.min (unmixed s) count in
    let s := start_voices written taken s in
    let mix := mix_voices written s mix in
    if taken =? 0 then (s, mix)
    else
      let offset := sample_index (mixed_end s) s in
      let samples := N.min U64_MAX (taken * s_channels s) in
      let end_ := N.min (offset +|64| samples) (N.of_nat (length (data s))) in
      let from := N.min offset end_ in
      let own := take (N.to_nat (end_ - from)) (drop (N.to_nat from) (data s)) in
      let mix := zip_add (fun y => y) mix own in
      (set_audio (data s) (data_start s) (write_end s) (mixed_end s +|64| taken)
         (add_segment (mixed_end s) written taken (segments s)) s, mix).

(** ** Pausing and the device's clock *)

(** [SourceState::set_paused]. *)
Definition pause_source (paused : bool) (s : SourceState) :=
  set_pauses paused (s_paused s && negb paused) s.

(** [SourceState::mid_utterance]. *)
Definition mid_utterance (s : SourceState) : bool :=
  if s_paused s || resumed s then false
  else existsb (fun t => (t_start t <? mixed_end s) && (t_writing t || (0 <? unmixed s))) (tracked s).

(** [SourceState::awaits_clock]. *)
Definition awaits_clock (s : SourceState) : bool :=
  match awaiting_clock s with [] => false | _ => true end.

(** The loop of [SourceState::heard_by_clock]: it moves on or takes one out. *)
Fixpoint heard_from (fuel index source : nat) (clock : N) (l : list (UtteranceId * TraceId * N))
    (out : list Outbound) (sent : bool) : list (UtteranceId * TraceId * N) * list Outbound * bool :=
  match fuel with
  | O => (l, out, sent)
  | S fuel =>
      match l !! index with
      | None => (l, out, sent)
      | Some (u, trace, mix) =>
          if (clock <=? mix) || ring_full out then heard_from fuel (S index) source clock l out sent
          else heard_from fuel index source clock (swap_remove index l)
                 (ring_push (OutEvent source (PlayHeard u trace)) out) true
      end
  end.

(** [SourceState::heard_by_clock]; the duration each report carries is computed
    in floating point and left out. *)
Definition heard_by_clock (source : nat) (clock : N) (s : SourceState) (out : list Outbound) :
    SourceState * list Outbound * bool :=
  let '(l, out, sent) := heard_from (length (awaiting_clock s)) 0 source clock (awaiting_clock s) out false in
  (set_clock l s, out, sent).

(** [SourceState::forget_clock]. *)
Definition forget_clock (s : SourceState) := set_clock [] s.
