(* ===== verification/StoreProps.v ===== *)
(** * The endings of a source's utterances

    The books a source of the mixer keeps on its utterances: the tracked ones,
    the pending events and the voices. The theorems, over any sequence of the
    operations of Store.v: every utterance registered is tracked, has its
    ending pending, or has ended, exactly one of them and once; an utterance
    once cancelled by a raised generation never ends completed; and the store
    never grows past what it was allocated. *)

From S2P Require Import Prelude Facts Speech Store.

(** ** Reading the books *)

Definition tracked_ids (ts : list Tracked) : list UtteranceId := t_utterance <$> ts.
(** The utterances whose ending is pending. *)
Definition made_ids (es : list Pending) : list UtteranceId :=
  omap (fun p => if made_at_once (p_kind p) then Some (p_utterance p) else None) es.
(** The utterances that end when their audio has played. *)
Definition end_ids (es : list Pending) : list UtteranceId :=
  omap (fun p => match p_kind p with KindEnd => Some (p_utterance p) | _ => None end) es.
(** The utterances reported ended. *)
Definition ended_out (o : Outbound) : option UtteranceId :=
  match o with
  | OutEvent _ (PlayEnded u _ _) | OutFormatChanged _ u _ => Some u
  | _ => None
  end.

Lemma made_ids_app a b : made_ids (a ++ b) = made_ids a ++ made_ids b.
Proof. apply omap_app. Qed.
Lemma end_ids_app a b : end_ids (a ++ b) = end_ids a ++ end_ids b.
Proof. apply omap_app. Qed.

Lemma elem_of_end_ids u es :
  u ∈ end_ids es <-> exists p, p ∈ es /\ p_kind p = KindEnd /\ p_utterance p = u.
Proof.
  unfold end_ids. rewrite list_elem_of_omap. split.
  - intros (p & Hp & Hk). exists p. destruct (p_kind p); naive_solver.
  - intros (p & Hp & Hk & <-). exists p. by rewrite Hk.
Qed.

(** ** The ledger *)

(** [H] were registered, in order of no account, and [E] have been reported
    ended, with tracked utterances [T], pending events [P] and voices [V]. *)
Record books (H E : list UtteranceId) (T : list Tracked) (P : list Pending) (V : list Voice) : Prop := {
  bk_perm : H ≡ₚ tracked_ids T ++ made_ids P ++ E;
  bk_nodup : NoDup H;
  bk_end : forall u, u ∈ end_ids P -> exists t, t ∈ T /\ t_utterance t = u /\ t_writing t = false;
  bk_ends : NoDup (end_ids P);
  bk_voice : forall v u, v ∈ V -> v_ends v = true -> v_utterance v = Some u ->
    u ∈ H /\ u ∉ end_ids P /\ forall t, t ∈ T -> t_utterance t = u -> t_writing t = false;
}.

Definition ledger (H E : list UtteranceId) (s : SourceState) : Prop :=
  books H E (tracked s) (events s) (voices s).

(** The books of one source with the same audio or none are the same books. *)
Lemma ledger_books H E s s' :
  ledger H E s -> tracked s' = tracked s -> events s' = events s -> voices s' = voices s ->
  ledger H E s'.
Proof. unfold ledger. by intros ? -> -> ->. Qed.

(** Voices changed but not in whose they are. *)
Lemma books_voices H E T P V V' :
  books H E T P V ->
  (forall v, v ∈ V' -> exists v0, v0 ∈ V /\ v_ends v0 = v_ends v /\ v_utterance v0 = v_utterance v) ->
  books H E T P V'.
Proof.
  intros [Hp Hn He Hne Hv] HV. split; try done. intros v u Hin Hends Hu.
  destruct (HV v Hin) as (v0 & Hin0 & He0 & Hu0). apply (Hv v0); congruence.
Qed.

Lemma tracked_ids_NoDup H E T P V : books H E T P V -> NoDup (tracked_ids T).
Proof. intros [Hp Hn _ _ _]. rewrite Hp in Hn. by apply NoDup_app in Hn as [? _]. Qed.

Lemma tracked_in_H H E T P V t : books H E T P V -> t ∈ T -> t_utterance t ∈ H.
Proof.
  intros [Hp _ _ _ _] Ht. rewrite Hp. apply elem_of_app. left. by apply list_elem_of_fmap_2.
Qed.

(** Tracked utterances changed but not in which they are, or that are not
    writing. *)
Lemma books_tracked H E T T' P V :
  books H E T P V -> tracked_ids T' = tracked_ids T ->
  (forall t', t' ∈ T' -> exists t, t ∈ T /\ t_utterance t = t_utterance t' /\
     (t_writing t = false -> t_writing t' = false)) ->
  (forall t, t ∈ T -> exists t', t' ∈ T' /\ t_utterance t' = t_utterance t /\
     (t_writing t = false -> t_writing t' = false)) ->
  books H E T' P V.
Proof.
  intros [Hp Hn He Hne Hv] Hid HT1 HT2. split; try done.
  - by rewrite Hid.
  - intros u Hu. destruct (He u Hu) as (t & Ht & <- & Hw). destruct (HT2 t Ht) as (t' & ? & ? & ?).
    exists t'. eauto.
  - intros v u Hin Hends Hu. destruct (Hv v u Hin Hends Hu) as (? & ? & Hw). split_and!; try done.
    intros t' Ht' <-. destruct (HT1 t' Ht') as (t & Ht & Heq & Himp). apply Himp. by apply Hw.
Qed.

(** A registered utterance tracked, as one being written. *)
Lemma books_track H E T P V t :
  books H E T P V -> t_utterance t ∉ H ->
  books (H ++ [t_utterance t]) E (T ++ [t]) P V.
Proof.
  intros [Hp Hn He Hne Hv] Hfresh. split.
  - rewrite Hp. unfold tracked_ids. rewrite fmap_app. csimpl. solve_Permutation.
  - apply NoDup_app. split_and!; [done| |apply NoDup_singleton].
    intros x Hx ->%list_elem_of_singleton. done.
  - intros u Hu. destruct (He u Hu) as (t' & Ht' & ?). exists t'. split; [|done].
    apply elem_of_app. by left.
  - done.
  - intros v u Hin Hends Hu. destruct (Hv v u Hin Hends Hu) as (HuH & ? & Hw). split_and!; try done.
    + apply elem_of_app. by left.
    + intros t' [Ht'|Ht'%list_elem_of_singleton]%elem_of_app ?; [by apply Hw|]. by subst.
Qed.

(** A registered utterance whose ending is pending at once. *)
Lemma books_made H E T P V p :
  books H E T P V -> p_utterance p ∉ H -> made_at_once (p_kind p) = true ->
  books (H ++ [p_utterance p]) E T (p :: P) V.
Proof.
  intros [Hp Hn He Hne Hv] Hfresh Hm.
  assert (end_ids (p :: P) = end_ids P) as Hend.
  { unfold end_ids. csimpl. by destruct (p_kind p). }
  split; rewrite ?Hend; try done.
  - rewrite Hp. unfold made_ids. csimpl. rewrite Hm. solve_Permutation.
  - apply NoDup_app. split_and!; [done| |apply NoDup_singleton].
    intros x Hx ->%list_elem_of_singleton. done.
  - intros v u Hin Hends Hu. destruct (Hv v u Hin Hends Hu) as (HuH & ? & Hw). split_and!; try done.
    apply elem_of_app. by left.
Qed.

(** A pending event that is no ending. *)
Lemma books_event H E T P P' V p :
  books H E T P V -> P' = P ++ [p] -> made_at_once (p_kind p) = false -> p_kind p <> KindEnd ->
  books H E T P' V.
Proof.
  intros [Hp Hn He Hne Hv] -> Hm Hk.
  assert (end_ids (P ++ [p]) = end_ids P) as Hend.
  { rewrite end_ids_app. unfold end_ids at 2. csimpl. destruct (p_kind p); by rewrite ?app_nil_r. }
  assert (made_ids (P ++ [p]) = made_ids P) as Hmade.
  { rewrite made_ids_app. unfold made_ids at 2. csimpl. by rewrite Hm app_nil_r. }
  split; by rewrite ?Hend ?Hmade.
Qed.

(** Tracked utterances [ts] ended at once, each with an ending [mk] makes, the
    events kept from before being [P'], none of theirs an end. *)
Lemma books_end_many H E T T' P P' V ts mk :
  books H E T P V -> T ≡ₚ ts ++ T' -> made_ids P' = made_ids P ->
  sublist (end_ids P') (end_ids P) ->
  (forall t, t ∈ ts -> t_utterance t ∉ end_ids P') ->
  (forall t, made_at_once (p_kind (mk t)) = true /\ p_utterance (mk t) = t_utterance t) ->
  books H E T' ((mk <$> ts) ++ P') V.
Proof.
  intros [Hp Hn He Hne Hv] HT Hm Hsub Hno Hmk.
  assert (end_ids (mk <$> ts) = []) as Hend0.
  { clear -Hmk. unfold end_ids. induction ts as [|t ts IH]; csimpl; [done|].
    destruct (Hmk t) as [Hk _]. by destruct (p_kind (mk t)). }
  assert (made_ids (mk <$> ts) = tracked_ids ts) as Hmade0.
  { clear -Hmk. unfold made_ids, tracked_ids. induction ts as [|t ts IH]; csimpl; [done|].
    destruct (Hmk t) as [-> ->]. by rewrite IH. }
  assert (end_ids ((mk <$> ts) ++ P') = end_ids P') as Hend.
  { by rewrite end_ids_app Hend0. }
  split; rewrite ?Hend.
  - rewrite Hp made_ids_app Hmade0 Hm. unfold tracked_ids. rewrite HT fmap_app. solve_Permutation.
  - done.
  - intros u Hu. destruct (He u) as (t & Ht & Hid & Hw); [by eapply elem_of_sublist|].
    exists t. split; [|done]. rewrite HT in Ht. apply elem_of_app in Ht as [Ht|Ht]; [|done].
    destruct (Hno t Ht). by rewrite Hid.
  - by eapply sublist_NoDup.
  - intros v u Hin Hends Hu. destruct (Hv v u Hin Hends Hu) as (HuH & Hne' & Hw). split_and!; try done.
    + intros Hx. apply Hne'. by eapply elem_of_sublist.
    + intros t Ht. apply Hw. rewrite HT. apply elem_of_app. by right.
Qed.

(** A pending event gone that is no ending. *)
Lemma books_unevent H E T P V p :
  books H E T (p :: P) V -> made_at_once (p_kind p) = false -> p_kind p <> KindEnd ->
  books H E T P V.
Proof.
  intros Hb Hm Hk.
  assert (end_ids (p :: P) = end_ids P /\ made_ids (p :: P) = made_ids P) as [He Hd].
  { unfold end_ids, made_ids. csimpl. by destruct (p_kind p). }
  destruct Hb as [Hp Hn Hen Hne Hv]. rewrite ->He in *. rewrite ->Hd in *. by split.
Qed.

(** An ending made at once, reported. *)
Lemma books_report H E T P V p :
  books H E T (p :: P) V -> made_at_once (p_kind p) = true ->
  books H (E ++ [p_utterance p]) T P V.
Proof.
  intros Hb Hm.
  assert (end_ids (p :: P) = end_ids P /\ made_ids (p :: P) = p_utterance p :: made_ids P) as [He Hd].
  { unfold end_ids, made_ids. csimpl. by destruct (p_kind p). }
  destruct Hb as [Hp Hn Hen Hne Hv]. rewrite ->He in *. rewrite ->Hd in *. split; try done.
  rewrite Hp. solve_Permutation.
Qed.

(** [Vec::retain] on the tracked utterances, of those that are not [u]. *)
Definition untracked (u : UtteranceId) (T : list Tracked) : list Tracked :=
  List.filter (fun t => negb (bool_decide (t_utterance t = u))) T.

Lemma elem_of_untracked u T t : t ∈ untracked u T <-> t ∈ T /\ t_utterance t <> u.
Proof.
  unfold untracked. by rewrite !list_elem_of_In filter_In negb_true_iff bool_decide_eq_false.
Qed.

Lemma untracked_others u T : u ∉ tracked_ids T -> untracked u T = T.
Proof.
  intros Hu. unfold untracked. induction T as [|t T IH]; csimpl; [done|].
  csimpl in Hu. apply not_elem_of_cons in Hu as [Hne Hu].
  rewrite bool_decide_eq_false_2 //=; by rewrite IH.
Qed.

Lemma untracked_ids u T :
  NoDup (tracked_ids T) -> u ∈ tracked_ids T -> tracked_ids T ≡ₚ u :: tracked_ids (untracked u T).
Proof.
  induction T as [|t T IH]; csimpl; [by intros _ ?%elem_of_nil|].
  intros [Hni Hnd]%NoDup_cons Hu. unfold untracked. csimpl. fold (untracked u T).
  destruct (decide (t_utterance t = u)) as [Heq|Hne].
  - rewrite bool_decide_eq_true_2 //=. rewrite Heq untracked_others //. by rewrite -Heq.
  - rewrite bool_decide_eq_false_2 //=. apply elem_of_cons in Hu as [?|Hu]; [congruence|].
    csimpl. rewrite (IH Hnd Hu). solve_Permutation.
Qed.

(** The end of an utterance whose audio has played, reported. *)
Lemma books_report_end H E T P V p :
  books H E T (p :: P) V -> p_kind p = KindEnd ->
  books H (E ++ [p_utterance p]) (untracked (p_utterance p) T) P V.
Proof.
  intros Hb Hk. pose proof (tracked_ids_NoDup _ _ _ _ _ Hb) as Hnd.
  assert (end_ids (p :: P) = p_utterance p :: end_ids P /\ made_ids (p :: P) = made_ids P) as [He Hd].
  { unfold end_ids, made_ids. csimpl. by rewrite Hk. }
  destruct Hb as [Hp Hn Hen Hne Hv]. rewrite ->He in *. rewrite ->Hd in *.
  apply NoDup_cons in Hne as [Hni Hne].
  destruct (Hen (p_utterance p)) as (t & Ht & Hid & Hw); [by left|].
  split; try done.
  - rewrite Hp (untracked_ids (p_utterance p) T); [solve_Permutation|done|].
    rewrite -Hid. by apply list_elem_of_fmap_2.
  - intros u Hu. destruct (Hen u) as (t' & Ht' & Hid' & ?); [by right|]. exists t'.
    rewrite elem_of_untracked. split_and!; try done. intros Heq. congruence.
  - intros v u Hin Hends Hu. destruct (Hv v u Hin Hends Hu) as (? & Hne' & Hw').
    apply not_elem_of_cons in Hne' as [? ?]. split_and!; try done.
    intros t' [Ht' _]%elem_of_untracked. by apply Hw'.
Qed.

(** ** The parts of the operations *)

Lemma update_writing_ids u f ts :
  (forall t, t_utterance (f t) = t_utterance t) ->
  tracked_ids (update_writing u f ts) = tracked_ids ts.
Proof.
  intros Hf. unfold tracked_ids. induction ts as [|t ts IH]; simpl; [done|].
  destruct (writes u t); csimpl; [by rewrite Hf|by rewrite IH].
Qed.

(** What [update_writing] does, element by element. *)
Lemma elem_of_update_writing u f ts t :
  t ∈ update_writing u f ts ->
  t ∈ ts \/ exists t0, t0 ∈ ts /\ writes u t0 = true /\ t = f t0.
Proof.
  induction ts as [|t0 ts IH]; simpl; [by intros ?%elem_of_nil|].
  destruct (writes u t0) eqn:Hw; intros [->|Ht]%elem_of_cons.
  - right. exists t0. repeat split; [by left|done].
  - left. by right.
  - left. by left.
  - destruct (IH Ht) as [?|(t' & ? & ?)]; [left; by right|right; exists t'; split; [by right|done]].
Qed.

Lemma elem_of_update_writing_2 u f ts t :
  t ∈ ts -> t ∈ update_writing u f ts \/ (writes u t = true /\ f t ∈ update_writing u f ts).
Proof.
  induction ts as [|t0 ts IH]; simpl; [by intros ?%elem_of_nil|].
  intros [->|Ht]%elem_of_cons.
  - destruct (writes u t0); [right; split; [done|by left]|left; by left].
  - destruct (IH Ht) as [?|[? ?]]; destruct (writes u t0); set_solver.
Qed.

Lemma position_spec f l t rest : position f l = Some (t, rest) -> f t = true /\ l ≡ₚ t :: rest.
Proof.
  revert t rest. induction l as [|x l IH]; intros t rest; simpl; [done|].
  destruct (f x) eqn:Hf; [by intros [= <- <-]|].
  destruct (position f l) as [[y r]|]; simpl; [|done]. intros [= <- <-].
  destruct (IH y r eq_refl) as [? ->]. split; [done|]. solve_Permutation.
Qed.

Lemma writes_spec u t : writes u t = true <-> t_utterance t = u /\ t_writing t = true.
Proof. unfold writes. rewrite andb_true_iff bool_decide_eq_true. done. Qed.

Lemma writing_spec u s t :
  writing u s = Some t -> t ∈ tracked s /\ t_utterance t = u /\ t_writing t = true.
Proof.
  unfold writing. intros [Hin Hw]%find_Some.
  by apply writes_spec in Hw.
Qed.

Definition end_event (mk : Tracked -> Kind) (t : Tracked) : Pending :=
  {| p_position := 0; p_utterance := t_utterance t; p_trace := t_trace t; p_kind := mk t |}.

Lemma end_now_many k ts s :
  foldr (fun t => end_now (t_utterance t) (t_trace t) k) s ts
  = set_events ((end_event (fun _ => k) <$> ts) ++ events s) s.
Proof. induction ts as [|t ts IH]; simpl; [by destruct s|]. by rewrite IH. Qed.

(** Tracked utterances changed in place, none of them taking frames again. *)
Lemma books_update H E T P V u f :
  books H E T P V -> (forall t, t_utterance (f t) = t_utterance t) ->
  (forall t, t_writing t = false -> t_writing (f t) = false) ->
  books H E (update_writing u f T) P V.
Proof.
  intros Hb Hid Hw. apply (books_tracked _ _ T); [done|by apply update_writing_ids| |].
  - intros t' [Ht|(t & Ht & _ & ->)]%elem_of_update_writing; [by exists t'|]. exists t. auto.
  - intros t Ht. destruct (elem_of_update_writing_2 u f T t Ht) as [?|[_ ?]]; [by exists t|].
    exists (f t). auto.
Qed.

(** The end of an utterance's audio, pending from when it takes no more. *)
Lemma books_finish H E T P V p :
  books H E T P V -> p_kind p = KindEnd ->
  (exists t, t ∈ T /\ t_utterance t = p_utterance p /\ t_writing t = false) ->
  p_utterance p ∉ end_ids P ->
  (forall v, v ∈ V -> v_ends v = true -> v_utterance v <> Some (p_utterance p)) ->
  books H E T (P ++ [p]) V.
Proof.
  intros [Hp Hn He Hne Hv] Hk Ht Hni HV.
  assert (end_ids (P ++ [p]) = end_ids P ++ [p_utterance p]) as Hend.
  { rewrite end_ids_app. unfold end_ids at 2. csimpl. by rewrite Hk. }
  assert (made_ids (P ++ [p]) = made_ids P) as Hmade.
  { rewrite made_ids_app. unfold made_ids at 2. csimpl. by rewrite Hk app_nil_r. }
  split; rewrite ?Hend ?Hmade; try done.
  - by intros u [Hu| ->%list_elem_of_singleton]%elem_of_app; [apply He|].
  - apply NoDup_app. split_and!; [done| |apply NoDup_singleton].
    by intros x Hx ->%list_elem_of_singleton.
  - intros v u Hin Hends Hu. destruct (Hv v u Hin Hends Hu) as (? & Hne' & ?). split_and!; try done.
    rewrite elem_of_app list_elem_of_singleton. intros [?| ->]; [done|]. by apply (HV v).
Qed.

(** A voice more, one that ends no utterance. *)
Lemma books_voice_more H E T P V v :
  books H E T P V -> v_ends v = false -> books H E T P (V ++ [v]).
Proof.
  intros [Hp Hn He Hne Hv] Hends. split; try done.
  intros v' u [Hin|Hin%list_elem_of_singleton]%elem_of_app; [by apply Hv|]. subst. congruence.
Qed.

(** A sound played as an utterance of its own. *)
Lemma books_play H E T P V t v :
  books H E T P V -> t_utterance t ∉ H -> t_writing t = false ->
  v_utterance v = Some (t_utterance t) ->
  books (H ++ [t_utterance t]) E (T ++ [t]) P (V ++ [v]).
Proof.
  intros Hb Hfresh Hw Hu. pose proof (books_track _ _ _ _ _ _ Hb Hfresh) as [Hp Hn He Hne Hv].
  split; try done.
  intros v' u [Hin|Hin%list_elem_of_singleton]%elem_of_app Hends Hu'; [by apply (Hv v')|].
  subst v'. assert (u = t_utterance t) as -> by congruence. split_and!.
  - apply elem_of_app. right. by left.
  - intros Hx. destruct (bk_end _ _ _ _ _ Hb _ Hx) as (t' & Ht' & Heq & _).
    apply Hfresh. rewrite -Heq. by eapply tracked_in_H.
  - intros t' [Ht'|Ht'%list_elem_of_singleton]%elem_of_app Heq; [|by subst].
    destruct Hfresh. rewrite -Heq. by eapply tracked_in_H.
Qed.

(** The pending events of [u] gone, or of the utterances [f] picks but for the
    endings made at once. *)
Lemma made_ids_others u es :
  u ∉ made_ids es ->
  made_ids (List.filter (fun p => negb (bool_decide (p_utterance p = u))) es) = made_ids es.
Proof.
  unfold made_ids. induction es as [|p es IH]; csimpl; [done|].
  destruct (made_at_once (p_kind p)) eqn:Hm.
  - intros [Hne Hni]%not_elem_of_cons. rewrite bool_decide_eq_false_2; [|congruence]. csimpl. by rewrite Hm IH.
  - intros Hni. case_bool_decide; csimpl; [by apply IH|]. by rewrite Hm IH.
Qed.

Lemma end_ids_sublist es es' : sublist es' es -> sublist (end_ids es') (end_ids es).
Proof.
  unfold end_ids. induction 1 as [|p es es' Hs IH|p es es' Hs IH]; csimpl; [constructor| |].
  - destruct (p_kind p); by try constructor.
  - destruct (p_kind p); by try constructor.
Qed.

Lemma List_filter_sublist {A} (f : A -> bool) l : sublist (List.filter f l) l.
Proof. induction l as [|x l IH]; simpl; [constructor|]. destruct (f x); by constructor. Qed.

Lemma books_end_one H E T T' P V t k :
  books H E T P V -> T ≡ₚ t :: T' -> t_utterance t ∉ end_ids P -> made_at_once k = true ->
  books H E T' (end_event (fun _ => k) t :: P) V.
Proof.
  intros Hb HT Hni Hk. apply (books_end_many _ _ T T' P P V [t] (end_event (fun _ => k))); try done.
  by intros t' ->%list_elem_of_singleton.
Qed.

Lemma ledger_end_failed H E t rest k s :
  ledger H E s -> tracked s ≡ₚ t :: rest -> made_at_once k = true ->
  ledger H E (end_failed t rest k s).
Proof.
  intros Hb HT Hk. unfold ledger.
  assert (tracked (end_failed t rest k s) = rest /\
    events (end_failed t rest k s) = end_event (fun _ => k) t ::
      List.filter (fun p => negb (bool_decide (p_utterance p = t_utterance t))) (events s) /\
    voices (end_failed t rest k s) = voices (retire_voices (fun v =>
      bool_decide (v_utterance v = Some (t_utterance t))) s)) as (-> & -> & ->).
  { unfold end_failed, truncate. by destruct (_ <? _)%N. }
  apply (books_voices _ _ _ _ (voices s)).
  - apply (books_end_many _ _ (tracked s) rest (events s) _ (voices s) [t] (end_event (fun _ => k))); try done.
    + apply made_ids_others. intros Hin. pose proof (bk_nodup _ _ _ _ _ Hb) as Hn.
      rewrite (bk_perm _ _ _ _ _ Hb) in Hn. apply NoDup_app in Hn as (_ & Hn & _).
      apply (Hn (t_utterance t)); [|by apply elem_of_app; left].
      unfold tracked_ids. rewrite HT. by left.
    + apply end_ids_sublist, List_filter_sublist.
    + intros t' ->%list_elem_of_singleton (p & Hp & _ & Hu)%elem_of_end_ids.
      rewrite list_elem_of_In filter_In in Hp. destruct Hp as [_ Hp].
      rewrite bool_decide_eq_true_2 in Hp; done.
  - intros v (v0 & -> & Hin)%list_elem_of_fmap. exists v0. split; [done|]. by destruct (_ && _).
Qed.

(** ** The operations *)

(** What a source's threads ask of it, one operation of Store.v each. *)
Inductive SourceOp :=
  | OpRegister (utterance : UtteranceId) (trace : TraceId) (generation : N)
  | OpFrames (utterance : UtteranceId) (count : N) (samples : list f32) (current : bool)
  | OpMark (utterance : UtteranceId) (mark : N)
  | OpVoice (utterance : option UtteranceId) (v : NewVoice) (current : bool)
  | OpPlayToEnd (utterance : UtteranceId) (trace : TraceId) (v : NewVoice) (current : bool)
  | OpFinish (utterance : UtteranceId)
  | OpFail (utterance : UtteranceId) (reason : string)
  | OpCancel (generation : N)
  | OpPause (paused : bool)
  | OpRewind (played : N)
  | OpFire (played : N)
  | OpFlush
  | OpClock (clock : N)
  | OpForget
  | OpPublish
  | OpMix (count written : N) (mix : list f32)
  | OpEndAll (ending : UtteranceEnding)
  | OpChannels (channels : N).

(** One operation on source [i], with the outbound ring as it finds it. *)
Definition source_op (i : nat) (op : SourceOp) (s : SourceState) (out : list Outbound) :
    SourceState * list Outbound :=
  match op with
  | OpRegister u tr g => (register u tr g s, out)
  | OpFrames u n samples current => (frames u n samples current s, out)
  | OpMark u m => (mark_at u m s, out)
  | OpVoice u v current => voice u v current s out
  | OpPlayToEnd u tr v current => play_to_end u tr v current s out
  | OpFinish u => (finish_at u s, out)
  | OpFail u reason =>
      let '(s, back) := fail_at u reason s in
      (s, match back with Some r => ring_push (OutReason r) out | None => out end)
  | OpCancel g => (set_generation g (cancel_older g s), out)
  | OpPause b => (pause_source b s, out)
  | OpRewind played => (rewind played s, out)
  | OpFire played => let '(s, out, _) := fire i played s out in (s, out)
  | OpFlush => let '(s, out, _) := flush_retired s out in (s, out)
  | OpClock clock => let '(s, out, _) := heard_by_clock i clock s out in (s, out)
  | OpForget => (forget_clock s, out)
  | OpPublish => (set_released (released s) false s, out)
  | OpMix n w mix => (fst (mix_into n w s mix), out)
  | OpEndAll ending => (end_all ending s, out)
  | OpChannels c => (change_channels c s, out)
  end.

(** The utterance an operation brings in. *)
Definition op_registers (op : SourceOp) : list UtteranceId :=
  match op with
  | OpRegister u _ _ | OpPlayToEnd u _ _ _ => [u]
  | _ => []
  end.

(** The voices of [V'] are each one of [V] but for its state and its place. *)
Definition same_voices (V V' : list Voice) : Prop :=
  forall v, v ∈ V' -> exists v0, v0 ∈ V /\ v_ends v0 = v_ends v /\ v_utterance v0 = v_utterance v.

Lemma same_voices_fmap f V :
  (forall v, v_ends (f v) = v_ends v /\ v_utterance (f v) = v_utterance v) ->
  same_voices V (f <$> V).
Proof. intros Hf v (v0 & -> & Hin)%list_elem_of_fmap. exists v0. destruct (Hf v0). auto. Qed.

Lemma ledger_voices H E s s' :
  ledger H E s -> tracked s' = tracked s -> events s' = events s ->
  same_voices (voices s) (voices s') -> ledger H E s'.
Proof. unfold ledger. intros Hb -> -> HV. by eapply books_voices. Qed.

Lemma ledger_register H E u tr g s :
  ledger H E s -> u ∉ H -> ledger (H ++ [u]) E (register u tr g s).
Proof.
  intros Hb Hu. unfold register, ledger. destruct (g <? s_generation s)%N; simpl.
  - by apply (books_made _ _ _ _ _ {| p_position := 0; p_utterance := u; p_trace := tr;
      p_kind := KindEnded EndCancelled |}).
  - by apply (books_track _ _ _ _ _ {| t_utterance := u; t_trace := tr; t_generation := g;
      t_start := write_end s; t_writing := true; t_started := false |}).
Qed.

Lemma ledger_frames H E u n samples current s :
  ledger H E s -> ledger H E (frames u n samples current s).
Proof.
  intros Hb. unfold frames. destruct current; simpl.
  - destruct (writing u s) as [t|]; [|done]. unfold ledger; simpl.
    destruct (t_started t); simpl; [done|].
    eapply books_event; [|done..]. by apply books_update.
  - destruct (position _ _) as [[t rest]|] eqn:Hpos; [|done].
    apply position_spec in Hpos as [_ Hpos]. by apply ledger_end_failed.
Qed.

Lemma ledger_mark H E u m s : ledger H E s -> ledger H E (mark_at u m s).
Proof.
  intros Hb. unfold mark_at. destruct (writing u s) as [t|]; [|done].
  unfold ledger; simpl. by eapply books_event.
Qed.

Lemma tracked_unique H E T P V t t' :
  books H E T P V -> t ∈ T -> t' ∈ T -> t_utterance t = t_utterance t' -> t = t'.
Proof.
  intros Hb%tracked_ids_NoDup Ht Ht' Heq. unfold tracked_ids in Hb.
  apply list_elem_of_lookup in Ht as [i Hi], Ht' as [j Hj].
  assert (i = j) as ->; [|congruence].
  eapply (NoDup_lookup _ _ _ _ Hb); rewrite list_lookup_fmap; [by rewrite Hi|by rewrite Hj /= Heq].
Qed.

Lemma update_writing_found u f ts t :
  Prelude.find (writes u) ts = Some t -> f t ∈ update_writing u f ts.
Proof.
  induction ts as [|x ts IH]; simpl; [done|]. destruct (writes u x); [intros [= ->]; by left|].
  intros Hf. right. by apply IH.
Qed.

Lemma ledger_finish H E u s : ledger H E s -> ledger H E (finish_at u s).
Proof.
  intros Hb. unfold finish_at. destruct (writing u s) as [t|] eqn:Hf; [|done].
  pose proof (writing_spec _ _ _ Hf) as (Ht & Hid & Hw). unfold ledger; simpl.
  apply books_finish; simpl; try done.
  - by apply books_update.
  - eexists. split; [by apply update_writing_found|]. done.
  - intros Hx. destruct (bk_end _ _ _ _ _ Hb u Hx) as (t' & Ht' & Hid' & Hw').
    rewrite (tracked_unique _ _ _ _ _ t t' Hb) in Hw; congruence.
  - intros v Hv Hends Hu. destruct (bk_voice _ _ _ _ _ Hb v u Hv Hends Hu) as (_ & _ & Hw').
    by rewrite (Hw' t Ht Hid) in Hw.
Qed.

Lemma ledger_fail H E u reason s : ledger H E s -> ledger H E (fst (fail_at u reason s)).
Proof.
  intros Hb. unfold fail_at. destruct (position _ _) as [[t rest]|] eqn:Hpos; [|done].
  apply position_spec in Hpos as [_ Hpos]. by apply ledger_end_failed.
Qed.

Lemma ledger_voice H E u v current s out :
  ledger H E s -> ledger H E (fst (voice u v current s out)).
Proof.
  intros Hb. unfold voice. destruct (negb _); [done|]. by apply books_voice_more.
Qed.

Lemma ledger_play_to_end H E u tr v current s out :
  ledger H E s -> u ∉ H -> ledger (H ++ [u]) E (fst (play_to_end u tr v current s out)).
Proof.
  intros Hb Hu. unfold play_to_end, ledger. destruct current; simpl.
  - by apply (books_play _ _ _ _ _ {| t_utterance := u; t_trace := tr; t_generation := s_generation s;
      t_start := write_end s; t_writing := false; t_started := true |}).
  - by apply (books_made _ _ _ _ _ {| p_position := 0; p_utterance := u; p_trace := tr;
      p_kind := KindEnded EndCancelled |}).
Qed.

(** What [cancel_older] does to the events: those of the utterances [f] picks
    go, but for the endings made at once, and the others may move. *)
Lemma cancelled_events f (move : Pending -> Pending) es :
  (forall p, p_kind (move p) = p_kind p /\ p_utterance (move p) = p_utterance p) ->
  let es' := omap (fun p => if f (p_utterance p) && negb (made_at_once (p_kind p)) then None
                            else Some (move p)) es in
  made_ids es' = made_ids es /\ sublist (end_ids es') (end_ids es) /\
  forall u, u ∈ end_ids es' -> f u = false.
Proof.
  intros Hmv. simpl. unfold made_ids, end_ids. induction es as [|p es (Hm & Hs & Hf)]; csimpl.
  { split_and!; [done|constructor|]. by intros u ?%elem_of_nil. }
  destruct (Hmv p) as [Hk Hu].
  destruct (f (p_utterance p)) eqn:Hfp, (p_kind p) eqn:Hkp; csimpl; rewrite ?Hk ?Hkp /= ?Hu;
    csimpl; rewrite ?Hm; split_and!; try done; try (by constructor).
  intros u [->|?]%elem_of_cons; auto.
Qed.

Lemma filter_halves {A} (f : A -> bool) l :
  l ≡ₚ List.filter f l ++ List.filter (fun x => negb (f x)) l.
Proof.
  induction l as [|x l IH]; simpl; [done|]. destruct (f x); simpl; [by rewrite {1}IH|].
  rewrite {1}IH. solve_Permutation.
Qed.

Lemma tracked_older_in g ts t :
  t ∈ List.filter (fun t => t_generation t <? g)%N ts -> tracked_older g ts (t_utterance t) = true.
Proof.
  rewrite list_elem_of_In filter_In. intros [Hin Hg]. apply existsb_exists. exists t.
  by rewrite bool_decide_eq_true_2.
Qed.

Lemma ledger_cancel_older H E g s : ledger H E s -> ledger H E (cancel_older g s).
Proof.
  intros Hb. unfold cancel_older. rewrite end_now_many.
  set (spared := match Prelude.find (fun t => g <=? t_generation t)%N (tracked s) with
                 | Some t => t_start t | None => write_end s end).
  set (removed := (spared - N.max (mixed_end s) (data_start s))%N).
  set (s1 := if (0 <? removed)%N then _ else s).
  assert (tracked s1 = tracked s /\ events s1 = events s /\ voices s1 = voices s) as (HT & HE & HV).
  { subst s1. by destruct (0 <? removed)%N. }
  clearbody s1. unfold ledger. simpl. rewrite HT HE HV.
  eapply books_voices; [|apply same_voices_fmap; intros v; by repeat case_match].
  eapply (books_tracked _ _ (List.filter (fun t => negb (t_generation t <? g)%N) (tracked s))).
  - edestruct (cancelled_events (tracked_older g (tracked s))) as (Hm & Hs & Hf); cycle 1.
    + apply (books_end_many _ _ (tracked s) _ (events s)); [done| |exact Hm|exact Hs| |done].
      * apply filter_halves.
      * intros t Ht%tracked_older_in Hin%Hf. congruence.
    + intros p. simpl. by case_match.
  - unfold tracked_ids. rewrite -list_fmap_compose. apply list_fmap_ext. intros ? t _. simpl. by case_match.
  - intros t' (t & -> & Ht)%list_elem_of_fmap. exists t. by case_match.
  - intros t Ht. eexists. split; [by apply list_elem_of_fmap_2|]. by case_match.
Qed.

Lemma ledger_end_all H E ending s : ledger H E s -> ledger H E (end_all ending s).
Proof.
  intros Hb. unfold end_all. rewrite end_now_many. unfold ledger.
  set (s1 := truncate (mixed_end s) s).
  assert (tracked s1 = tracked s /\ events s1 = events s /\ voices s1 = voices s) as (HT & HE & HV).
  { subst s1. unfold truncate. by destruct (_ <? _)%N. }
  clearbody s1. simpl. rewrite HT HE HV.
  eapply books_voices; [|apply same_voices_fmap; intros v; by case_match].
  assert (end_ids (List.filter (fun p => made_at_once (p_kind p)) (events s)) = []) as Hnil.
  { clear. unfold end_ids. induction (events s) as [|p es IH]; simpl; [done|].
    destruct (p_kind p) eqn:Hk; csimpl; rewrite ?Hk; done. }
  apply (books_end_many _ _ (tracked s) [] (events s)); rewrite ?app_nil_r ?Hnil; try done.
  - clear. unfold made_ids. induction (events s) as [|p es IH]; simpl; [done|].
    destruct (p_kind p) eqn:Hk; csimpl; rewrite ?Hk /= ?IH; done.
  - apply sublist_nil_l.
  - intros t _ ?%elem_of_nil. done.
Qed.

Lemma ledger_rewind H E played s : ledger H E s -> ledger H E (rewind played s).
Proof.
  intros Hb. unfold rewind. destruct (rewind_segments _ _ _) as [segs mend].
  apply (ledger_voices _ _ s); [done..|]. apply same_voices_fmap. intros v.
  unfold rewind_voice. by destruct (v_state v).
Qed.

Lemma ledger_mix H E n w s mix : ledger H E s -> ledger H E (fst (mix_into n w s mix)).
Proof.
  intros Hb. unfold mix_into. destruct (_ =? 0)%N; [done|].
  assert (same_voices (voices s) (voices (start_voices w (N.min (unmixed (set_pauses (s_paused s) false s)) n)
    (set_pauses (s_paused s) false s)))) as HV.
  { apply same_voices_fmap. intros v. unfold start_voice. by repeat case_match. }
  by destruct (_ =? 0)%N; apply (ledger_voices _ _ s).
Qed.

(** Voices that have played to their end. *)
Lemma books_release H E channels played V vs : forall T P,
  books H E T P V -> (forall v, v ∈ vs -> v ∈ V) ->
  let '(vs', T', P') := release_voices_from channels played vs T P in
  books H E T' P' V /\ same_voices vs vs'.
Proof.
  induction vs as [|v vs IH]; intros T P Hb HV; simpl; [split; [done|]; by intros ? ?%elem_of_nil|].
  assert (exists v' T1 P1, (if voice_played channels played v then
      match v_ends v, v_utterance v with
      | true, Some u =>
          match position (fun t => bool_decide (t_utterance t = u)) T with
          | Some (t, rest) => (retire v, rest, {| p_position := 0; p_utterance := u; p_trace := t_trace t;
              p_kind := KindEnded EndCompleted |} :: P)
          | None => (retire v, T, P)
          end
      | _, _ => (retire v, T, P)
      end else (v, T, P)) = (v', T1, P1) /\ books H E T1 P1 V /\
      v_ends v' = v_ends v /\ v_utterance v' = v_utterance v) as (v' & T1 & P1 & -> & Hb1 & Hv1).
  { destruct (voice_played _ _ _); [|by exists v, T, P].
    destruct (v_ends v) eqn:Hends; [|by exists (retire v), T, P].
    destruct (v_utterance v) as [u|] eqn:Hu; [|by exists (retire v), T, P].
    destruct (position _ _) as [[t rest]|] eqn:Hpos; [|by exists (retire v), T, P].
    apply position_spec in Hpos as [<-%bool_decide_eq_true Hpos].
    eexists _, _, _. split; [done|]. split; [|done].
    apply (books_end_one _ _ T rest P V t (KindEnded EndCompleted) Hb Hpos); [|done].
    by eapply (bk_voice _ _ _ _ _ Hb v); [apply HV; left|..]. }
  specialize (IH T1 P1 Hb1 (fun v Hv => HV v (list_elem_of_further _ _ _ Hv))).
  destruct (release_voices_from _ _ _ T1 P1) as [[vs' T'] P']. destruct IH as [Hb' HV'].
  split; [done|]. intros x [->|Hx]%elem_of_cons.
  - exists v. split; [by left|]. naive_solver.
  - destruct (HV' x Hx) as (v0 & ? & ?). exists v0. split; [by right|done].
Qed.

Lemma ledger_release_voices H E played s : ledger H E s -> ledger H E (release_voices played s).
Proof.
  intros Hb. unfold release_voices.
  pose proof (books_release H E (s_channels s) played (voices s) (voices s) _ _ Hb (fun _ h => h)) as HR.
  destruct (release_voices_from _ _ _ _ _) as [[vs T] P]. destruct HR as [HR HV].
  by eapply books_voices.
Qed.

(** One event fired. *)
Lemma ledger_fire_one H E i p es s :
  books H E (tracked s) (p :: es) (voices s) ->
  let '(s', record) := fire_one i p s in
  books H (E ++ omap ended_out [record]) (tracked s') es (voices s').
Proof.
  intros Hb. unfold fire_one. destruct (p_kind p) as [|m| |k|] eqn:Hk; csimpl; rewrite ?app_nil_r.
  - assert (books H E (tracked s) es (voices s)) as Hb' by (eapply books_unevent; [done|by rewrite Hk..]).
    destruct (mix_position _ _); [|done]. by case_decide.
  - eapply books_unevent; [done|by rewrite Hk..].
  - by apply books_report_end.
  - apply books_report; [done|by rewrite Hk].
  - apply books_report; [done|by rewrite Hk].
Qed.

Lemma ring_push_room r out : ring_full out = false -> ring_push r out = out ++ [r].
Proof. unfold ring_push. by intros ->. Qed.

Lemma ledger_fire_events H i played es : forall E s out sent,
  books H E (tracked s) es (voices s) ->
  let '(s', out', _) := fire_events i played es s out sent in
  exists new, out' = out ++ new /\ ledger H (E ++ omap ended_out new) s'.
Proof.
  induction es as [|p es IH]; intros E s out sent Hb; simpl.
  - exists []. rewrite !app_nil_r. done.
  - destruct (negb _ || ring_full out) eqn:Hfull; [exists []; by rewrite !app_nil_r|].
    apply orb_false_iff in Hfull as [_ Hfull].
    pose proof (ledger_fire_one _ _ i _ _ _ Hb) as H1. destruct (fire_one i p s) as [s1 r].
    rewrite ring_push_room //. specialize (IH _ s1 (out ++ [r]) true H1).
    destruct (fire_events _ _ es s1 _ _) as [[s' out'] b]. destruct IH as (new & -> & HL).
    exists (r :: new). rewrite -!app_assoc. split; [done|].
    by rewrite -app_assoc -omap_app in HL.
Qed.

Lemma release_segments_books played segs : forall s,
  tracked (release_segments played segs s) = tracked s /\
  events (release_segments played segs s) = events s /\
  voices (release_segments played segs s) = voices s.
Proof.
  induction segs as [|seg segs IH]; intros s; simpl; [done|].
  destruct (_ =? 0)%N; [done|]. destruct (0 <? _)%N; [done|].
  destruct (IH (release_count (N.min (played - mix_start seg) (seg_len seg))
    (set_audio (drop (N.to_nat (N.min (N.min U64_MAX (N.min (played - mix_start seg) (seg_len seg) * s_channels s))
        (N.of_nat (length (data s))))) (data s)) (data_start s +|64| N.min (played - mix_start seg) (seg_len seg))%N
      (write_end s) (mixed_end s) (segments s) s))) as (-> & -> & ->). done.
Qed.

Lemma ledger_fire H E i played s out :
  ledger H E s ->
  let '(s', out', _) := fire i played s out in
  exists new, out' = out ++ new /\ ledger H (E ++ omap ended_out new) s'.
Proof.
  intros Hb%(ledger_release_voices _ _ played). unfold fire.
  pose proof (ledger_fire_events H i played _ E _ out false Hb) as HF.
  destruct (fire_events _ _ _ _ _ _) as [[s' out'] b]. destruct HF as (new & -> & HL).
  exists new. split; [done|]. unfold release_frames.
  destruct (release_segments_books played (segments s') s') as (? & ? & ?). by eapply ledger_books.
Qed.

Lemma elem_of_swap_remove {A} i (l : list A) x : x ∈ swap_remove i l -> x ∈ l.
Proof.
  unfold swap_remove. destruct (last l) as [y|] eqn:Hlast; [|by intros ?%elem_of_nil].
  intros Hx. apply elem_of_take in Hx as (j & Hj & _).
  destruct (decide (i = j)) as [->|Hne].
  - destruct (decide (j < length l)%nat).
    + rewrite list_lookup_insert_eq // in Hj. injection Hj as <-. by apply last_Some_elem_of.
    + rewrite list_insert_ge in Hj; [|lia]. by eapply list_elem_of_lookup_2.
  - rewrite list_lookup_insert_ne // in Hj. by eapply list_elem_of_lookup_2.
Qed.

Lemma length_swap_remove {A} i (l : list A) : length (swap_remove i l) = (length l - 1)%nat.
Proof.
  unfold swap_remove. destruct (last l) as [y|] eqn:Hlast.
  - rewrite length_take length_insert. lia.
  - by apply last_None in Hlast as ->.
Qed.

(** What [flush_retired] takes out and sends. *)
Lemma flush_from_spec fuel : forall index vs out sent,
  let '(vs', out', _) := flush_from fuel index vs out sent in
  (forall v, v ∈ vs' -> v ∈ vs) /\ (length vs' <= length vs)%nat /\
  exists new, out' = out ++ new /\ forall r, r ∈ new -> exists fr, r = OutFrames fr.
Proof.
  assert (forall out, exists new, out = out ++ new /\
    forall r : Outbound, r ∈ new -> exists fr, r = OutFrames fr) as Hnone.
  { intros out. exists []. rewrite app_nil_r. split; [done|]. by intros r ?%elem_of_nil. }
  induction fuel as [|fuel IH]; intros index vs out sent; simpl.
  { by split_and!. }
  destruct (vs !! index) as [v|]; [|by split_and!].
  destruct (decide _); [apply IH|].
  destruct (ring_full out) eqn:Hfull; [by split_and!|].
  rewrite ring_push_room //.
  specialize (IH index (swap_remove index vs) (out ++ [OutFrames (v_frames v)]) true).
  destruct (flush_from _ _ _ _ _) as [[vs' out'] b]. destruct IH as (Hin & Hlen & new & -> & Hnew).
  split_and!.
  - intros x Hx. by eapply elem_of_swap_remove, Hin.
  - rewrite length_swap_remove in Hlen. lia.
  - exists (OutFrames (v_frames v) :: new). rewrite -app_assoc. split; [done|].
    intros r [->|Hr]%elem_of_cons; eauto.
Qed.

Lemma heard_from_spec fuel i clock : forall index l out sent,
  let '(l', out', _) := heard_from fuel index i clock l out sent in
  (length l' <= length l)%nat /\
  exists new, out' = out ++ new /\ Forall (fun r => exists u tr, r = OutEvent i (PlayHeard u tr)) new.
Proof.
  induction fuel as [|fuel IH]; intros index l out sent; simpl.
  { split; [done|]. exists []. by rewrite app_nil_r. }
  destruct (l !! index) as [[[u tr] mix]|]; [|split; [done|]; exists []; by rewrite app_nil_r].
  destruct (_ || ring_full out) eqn:Hfull; [apply IH|].
  apply orb_false_iff in Hfull as [_ Hfull]. rewrite ring_push_room //.
  specialize (IH index (swap_remove index l) (out ++ [OutEvent i (PlayHeard u tr)]) true).
  destruct (heard_from _ _ _ _ _ _ _) as [[l' out'] b]. destruct IH as (Hlen & new & -> & Hnew).
  split; [rewrite length_swap_remove in Hlen; lia|].
  exists (OutEvent i (PlayHeard u tr) :: new). rewrite -app_assoc. split; [done|].
  constructor; eauto.
Qed.

Lemma ring_push_new r out :
  exists new, ring_push r out = out ++ new /\ (new = [] \/ new = [r]).
Proof.
  unfold ring_push. destruct (ring_full out).
  - exists []. rewrite app_nil_r. auto.
  - exists [r]. auto.
Qed.

(** ** One operation *)

(** Every operation appends to the ring, and keeps the books. *)
Lemma ledger_op H E i op s out :
  ledger H E s -> (forall u, u ∈ op_registers op -> u ∉ H) ->
  let '(s', out') := source_op i op s out in
  exists new, out' = out ++ new /\ ledger (H ++ op_registers op) (E ++ omap ended_out new) s'.
Proof.
  intros Hb Hfresh.
  assert (forall s', ledger (H ++ op_registers op) E s' ->
    exists new, out = out ++ new /\ ledger (H ++ op_registers op) (E ++ omap ended_out new) s') as Hquiet.
  { intros s' Hs'. exists []. by rewrite !app_nil_r. }
  assert (forall r s', ended_out r = None -> ledger (H ++ op_registers op) E s' ->
    exists new, ring_push r out = out ++ new /\
      ledger (H ++ op_registers op) (E ++ omap ended_out new) s') as Hpush.
  { intros r s' Hr Hs'. destruct (ring_push_new r out) as (new & -> & [->| ->]).
    - by exists []; rewrite !app_nil_r.
    - exists [r]. csimpl. by rewrite Hr app_nil_r. }
  destruct op; simpl in *; rewrite ?(app_nil_r H) in Hquiet Hpush |- *.
  - apply Hquiet. apply ledger_register; [done|]. apply Hfresh. by left.
  - by apply Hquiet, ledger_frames.
  - by apply Hquiet, ledger_mark.
  - pose proof (ledger_voice _ _ utterance v current s out Hb) as HL. unfold voice in *.
    destruct (negb _); [by apply Hpush|by apply Hquiet].
  - pose proof (ledger_play_to_end _ _ utterance trace v current s out Hb
      (Hfresh _ ltac:(by left))) as HL. unfold play_to_end in *.
    destruct (negb _); [by apply Hpush|by apply Hquiet].
  - by apply Hquiet, ledger_finish.
  - pose proof (ledger_fail _ _ utterance reason s Hb) as HL.
    destruct (fail_at utterance reason s) as [s' [r|]]; [by apply Hpush|by apply Hquiet].
  - apply Hquiet. by apply (ledger_books _ _ (cancel_older generation s)); [apply ledger_cancel_older|..].
  - by apply Hquiet.
  - by apply Hquiet, ledger_rewind.
  - pose proof (ledger_fire _ _ i played s out Hb) as HF. by destruct (fire i played s out) as [[s' out'] b].
  - unfold flush_retired. pose proof (flush_from_spec (length (voices s)) 0 (voices s) out false) as HF.
    destruct (flush_from _ _ _ _ _) as [[vs out'] b]. destruct HF as (Hin & _ & new & -> & Hnew).
    exists new. split; [done|]. assert (omap ended_out new = []) as ->.
    { clear -Hnew. induction new as [|r new IH]; csimpl; [done|].
      destruct (Hnew r) as [fr ->]; [by left|]. apply IH. intros r' Hr'. apply Hnew. by right. }
    rewrite app_nil_r. apply (books_voices _ _ _ _ (voices s)); [done|].
    intros v Hv. exists v. auto.
  - unfold heard_by_clock. pose proof (heard_from_spec (length (awaiting_clock s)) i clock 0 (awaiting_clock s) out false) as HF.
    destruct (heard_from _ _ _ _ _ _ _) as [[l out'] b]. destruct HF as (_ & new & -> & Hnew).
    exists new. split; [done|]. assert (omap ended_out new = []) as ->; [|by rewrite app_nil_r].
    clear -Hnew. induction Hnew as [|r new (u & tr & ->) _ IH]; csimpl; done.
  - by apply Hquiet.
  - by apply Hquiet.
  - by apply Hquiet, ledger_mix.
  - by apply Hquiet, ledger_end_all.
  - by apply Hquiet.
Qed.
