(* ===== verification/StoreKept.v ===== *)
(** * What a source keeps

    The limits of a source's ledger, and the order of its reports, through each
    operation of [Store]. *)

From S2P Require Import Prelude Facts Speech Store StoreProps.

(** ** How much a source holds *)

#[local] Opaque TRACKED EVENTS VOICES SEGMENTS.

Record bounded (s : SourceState) : Prop := {
  bd_tracked : (length (tracked s) <= TRACKED)%nat;
  bd_events : (length (events s) + length (tracked s) <= EVENTS + TRACKED)%nat;
  bd_voices : (length (voices s) <= VOICES)%nat;
  bd_segments : (length (segments s) <= SEGMENTS)%nat;
  bd_clock : (length (awaiting_clock s) <= TRACKED)%nat;
  bd_data : (N.of_nat (length (data s)) <= sample_room s)%N;
  bd_room : (sample_room s <= SAMPLES)%N;
}.

(** The room [AudioLoop::admits] asks for before a record is taken. *)
Definition op_admitted (op : SourceOp) (s : SourceState) : bool :=
  match op with
  | OpRegister _ _ _ => admits_register s
  | OpFrames _ _ samples _ => admits_frames (N.of_nat (length samples)) s
  | OpMark _ _ | OpFinish _ | OpFail _ _ => admits_event s
  | OpVoice _ _ _ => admits_voice s
  | OpPlayToEnd _ _ _ _ => admits_voice s && admits_register s
  | _ => true
  end.

(** A source that holds no more than another. *)
Record holds_less (s s' : SourceState) : Prop := {
  hl_tracked : (length (tracked s') <= length (tracked s))%nat;
  hl_events : (length (events s') + length (tracked s') <= length (events s) + length (tracked s))%nat;
  hl_voices : (length (voices s') <= length (voices s))%nat;
  hl_segments : (length (segments s') <= length (segments s))%nat;
  hl_clock : (length (awaiting_clock s') <= length (awaiting_clock s))%nat;
  hl_data : (length (data s') <= length (data s))%nat;
  hl_room : sample_room s' = sample_room s;
}.

#[export] Instance holds_less_preorder : PreOrder holds_less.
Proof. split; [by split|]. intros ??? [] []. split; [lia..|congruence]. Qed.

Lemma bounded_less s s' : bounded s -> holds_less s s' -> bounded s'.
Proof. intros [] []. split; lia. Qed.

Lemma less_truncate from s : holds_less s (truncate from s).
Proof. unfold truncate. destruct (_ <? _)%N; split; simpl; rewrite ?length_take; lia. Qed.

Lemma length_filter_le {A} (f : A -> bool) l : (length (List.filter f l) <= length l)%nat.
Proof. induction l as [|x l IH]; simpl; [lia|]. destruct (f x); simpl; lia. Qed.

Lemma less_end_failed t rest k s : tracked s ≡ₚ t :: rest -> holds_less s (end_failed t rest k s).
Proof.
  intros HT%Permutation_length. simpl in HT. unfold end_failed.
  pose proof (less_truncate (N.max (t_start t) (mixed_end (set_tracked rest s))) (set_tracked rest s)) as [].
  pose proof (length_filter_le (fun p => negb (bool_decide (p_utterance p = t_utterance t)))
    (events (truncate (N.max (t_start t) (mixed_end (set_tracked rest s))) (set_tracked rest s)))).
  simpl in *. split; simpl; rewrite ?length_fmap; simpl in *; lia.
Qed.

Lemma length_omap_le {A B} (f : A -> option B) l : (length (omap f l) <= length l)%nat.
Proof. induction l as [|x l IH]; csimpl; [lia|]. destruct (f x); simpl; lia. Qed.

Lemma length_update_writing u f ts : length (update_writing u f ts) = length ts.
Proof. induction ts as [|t ts IH]; simpl; [done|]. destruct (writes u t); simpl; lia. Qed.

Lemma less_cancel_older g s : holds_less s (cancel_older g s).
Proof.
  unfold cancel_older. rewrite end_now_many.
  set (spared := match Prelude.find (fun t => g <=? t_generation t)%N (tracked s) with
                 | Some t => t_start t | None => write_end s end).
  set (removed := (spared - N.max (mixed_end s) (data_start s))%N).
  set (s1 := if (0 <? removed)%N then _ else s).
  assert (holds_less s s1 /\ tracked s1 = tracked s /\ events s1 = events s) as (Hless & HT & HE).
  { subst s1. destruct (0 <? removed)%N eqn:Hr; [|done]. split; [|done].
    split; simpl; try lia. rewrite length_app length_take length_drop.
    assert (sample_index (N.max (mixed_end s) (data_start s)) s <= sample_index spared s)%N; [|lia].
    unfold sample_index. apply N.ltb_lt in Hr. apply N.min_le_compat_l, N.mul_le_mono_r. lia. }
  etrans; [exact Hless|]. clearbody s1. pose proof (filter_halves (fun t => t_generation t <? g)%N (tracked s)) as HL.
  apply Permutation_length in HL. rewrite length_app in HL.
  split; simpl; rewrite ?HT ?HE ?length_app ?length_fmap; try lia.
  pose proof (length_omap_le (fun p =>
    if tracked_older g (tracked s) (p_utterance p) && negb (made_at_once (p_kind p)) then None
    else Some (if (spared <=? p_position p)%N && negb (made_at_once (p_kind p))
               then {| p_position := p_position p - removed; p_utterance := p_utterance p;
                       p_trace := p_trace p; p_kind := p_kind p |}
               else p)) (events s)). lia.
Qed.

Lemma less_end_all ending s : holds_less s (end_all ending s).
Proof.
  unfold end_all. rewrite end_now_many. etrans; [apply (less_truncate (mixed_end s))|].
  set (s1 := truncate (mixed_end s) s). clearbody s1.
  pose proof (length_filter_le (fun p => made_at_once (p_kind p)) (events s1)).
  split; simpl; rewrite ?length_app ?length_fmap; simpl; lia.
Qed.

Lemma length_rewind_segments played segs : forall mend,
  (length (fst (rewind_segments played segs mend)) <= length segs)%nat.
Proof.
  induction segs as [|seg segs IH]; intros mend; simpl; [lia|].
  destruct (_ <=? _)%N; [specialize (IH (mend - seg_len seg)%N); lia|simpl; lia].
Qed.

Lemma less_rewind played s : holds_less s (rewind played s).
Proof.
  unfold rewind. pose proof (length_rewind_segments played (rev (segments s)) (mixed_end s)) as HL.
  destruct (rewind_segments _ _ _) as [segs mend]. simpl in HL. rewrite length_rev in HL.
  split; simpl; rewrite ?length_fmap ?length_rev; lia.
Qed.

Lemma less_release_voices channels played vs : forall T P,
  let '(vs', T', P') := release_voices_from channels played vs T P in
  length vs' = length vs /\ (length T' <= length T)%nat /\
  (length P' + length T' <= length P + length T)%nat.
Proof.
  induction vs as [|v vs IH]; intros T P; simpl; [lia|].
  set (step := if voice_played channels played v then _ else _).
  assert (exists v' T1 P1, step = (v', T1, P1) /\ (length T1 <= length T)%nat /\
    (length P1 + length T1 <= length P + length T)%nat) as (v' & T1 & P1 & -> & HT & HP).
  { subst step. destruct (voice_played _ _ _); [|by eexists _, _, _].
    destruct (v_ends v); [|by eexists _, _, _]. destruct (v_utterance v) as [w|]; [|by eexists _, _, _].
    destruct (position _ _) as [[t rest]|] eqn:Hpos; [|by eexists _, _, _].
    apply position_spec in Hpos as [_ Hpos%Permutation_length]. simpl in Hpos.
    eexists _, _, _. split; [done|]. simpl. lia. }
  specialize (IH T1 P1). destruct (release_voices_from _ _ _ T1 P1) as [[vs' T'] P']. simpl. lia.
Qed.

Lemma bounded_fire_events i played es : forall s out sent,
  bounded (set_events es s) -> bounded (fst (fst (fire_events i played es s out sent))).
Proof.
  induction es as [|p es IH]; intros s out sent Hb; simpl; [done|].
  destruct (negb _ || ring_full out); [done|].
  assert (bounded (set_events es (fst (fire_one i p s)))) as H1.
  { destruct Hb as [A B C D F G R]. simpl in *. unfold fire_one. destruct (p_kind p); simpl;
      try (by split; simpl; lia).
    - destruct (mix_position _ _); simpl; [|by split; simpl; lia].
      destruct (decide _); split; simpl; rewrite ?length_app /=; lia.
    - pose proof (length_filter_le (fun t => negb (bool_decide (t_utterance t = p_utterance p))) (tracked s)).
      split; simpl; lia. }
  destruct (fire_one i p s) as [s1 r]. by apply IH.
Qed.

Lemma less_release_segments played segs : forall s,
  (length segs <= length (segments s))%nat -> holds_less s (release_segments played segs s).
Proof.
  induction segs as [|seg segs IH]; intros s Hlen; simpl; [split; simpl in *; lia|]. simpl in Hlen.
  destruct (_ =? 0)%N; [split; simpl; lia|]. destruct (0 <? _)%N.
  - split; simpl; rewrite ?length_drop; lia.
  - etrans; [|apply IH; simpl; lia]. split; simpl; rewrite ?length_drop; lia.
Qed.

Lemma bounded_fire i played s out : bounded s -> bounded (fst (fst (fire i played s out))).
Proof.
  intros Hb. unfold fire.
  assert (bounded (release_voices played s)) as H1.
  { eapply bounded_less; [done|]. unfold release_voices.
    pose proof (less_release_voices (s_channels s) played (voices s) (tracked s) (events s)) as HR.
    destruct (release_voices_from _ _ _ _ _) as [[vs T] P]. split; simpl; lia. }
  assert (bounded (set_events (events (release_voices played s)) (release_voices played s))) as H2.
  { by destruct (release_voices played s). }
  pose proof (bounded_fire_events i played _ _ out false H2) as HF.
  destruct (fire_events _ _ _ _ _ _) as [[s' out'] b]. simpl in *.
  eapply bounded_less; [done|]. by apply less_release_segments.
Qed.

Lemma length_add_segment start written taken segs :
  (length (add_segment start written taken segs) <= S (length segs))%nat.
Proof.
  unfold add_segment. destruct (last segs) as [seg|]; [|simpl; lia].
  destruct (_ && _); rewrite length_app /= ?length_take; lia.
Qed.

Lemma less_position f s t rest : position f (tracked s) = Some (t, rest) -> tracked s ≡ₚ t :: rest.
Proof. by intros [_ ?]%position_spec. Qed.

Lemma bounded_frames u n samples current s :
  bounded s -> admits_frames (N.of_nat (length samples)) s = true -> bounded (frames u n samples current s).
Proof.
  intros Hb Hop. unfold admits_frames in Hop. apply andb_true_iff in Hop as [H1%N.leb_le H2%bool_decide_eq_true].
  unfold frames. destruct current; simpl.
  - destruct (writing u s) as [t|]; [|by eapply bounded_less; [done|split]].
    destruct Hb as [A B C D F G R].
    assert (N.of_nat (length (data s)) + N.of_nat (length samples) <= sample_room s)%N as Hroom.
    { unfold saturating_add in H1. assert (SAMPLES < U64_MAX)%N by done. lia. }
    destruct (t_started t); split; simpl; rewrite ?length_app ?length_update_writing /=; lia.
  - destruct (position _ _) as [[t rest]|] eqn:Hpos; [|by eapply bounded_less; [done|split]].
    eapply bounded_less; [done|]. trans (release_count n s); [by split|]. by eapply less_end_failed, less_position.
Qed.

Lemma bounded_mix n w s mix : bounded s -> bounded (fst (mix_into n w s mix)).
Proof.
  intros Hb. unfold mix_into. destruct (mixable w s =? 0)%N eqn:Hm; [done|].
  assert (length (segments s) < SEGMENTS)%nat as Hsegs.
  { apply N.eqb_neq in Hm. unfold mixable in Hm. destruct (s_paused s); [done|]. simpl in Hm.
    case_bool_decide; [done|]. destruct Hb. lia. }
  set (s0 := set_pauses (s_paused s) false s). set (taken := N.min _ _).
  assert (holds_less s (start_voices w taken s0)) as HL by (split; simpl; rewrite ?length_fmap; lia).
  destruct (taken =? 0)%N; [by eapply bounded_less|].
  pose proof (bounded_less _ _ Hb HL) as [A B C D F G R].
  clear Hm. split; cbn [fst set_audio] in *; try done; simpl in *; try lia. etrans; [apply length_add_segment|]. simpl. lia.
Qed.

(** Every operation taken with its room keeps a source within its limits. *)
Lemma bounded_op i op s out :
  bounded s -> op_admitted op s = true -> bounded (fst (source_op i op s out)).
Proof.
  intros Hb Hop. pose proof Hop as Hop0. pose proof Hb as [A B C D F G R].
  assert (forall s', holds_less s s' -> bounded s') as Hless by (intros s'; by apply bounded_less).
  destruct op; simpl in Hop |- *; unfold admits_register, admits_event, admits_voice in Hop;
    rewrite ?andb_true_iff ?bool_decide_eq_true in Hop.
  - unfold register. destruct (_ <? _)%N; split; simpl; rewrite ?length_app /=; lia.
  - by apply bounded_frames.
  - unfold mark_at. destruct (writing _ _); [|done]. split; simpl; rewrite ?length_app /=; lia.
  - unfold voice. destruct (negb _); [done|]. split; simpl; rewrite ?length_app /=; lia.
  - unfold play_to_end. destruct (negb _); split; simpl; rewrite ?length_app /=; lia.
  - unfold finish_at. destruct (writing _ _); [|done].
    split; simpl; rewrite ?length_app ?length_update_writing /=; lia.
  - unfold fail_at. destruct (position _ _) as [[t rest]|] eqn:Hpos; [|done].
    by eapply Hless, less_end_failed, less_position.
  - apply Hless. trans (cancel_older generation s); [apply less_cancel_older|]. by split.
  - by apply Hless.
  - apply Hless, less_rewind.
  - pose proof (bounded_fire i played s out Hb) as HF. by destruct (fire i played s out) as [[s' out'] b].
  - unfold flush_retired. pose proof (flush_from_spec (length (voices s)) 0 (voices s) out false) as HF.
    destruct (flush_from _ _ _ _ _) as [[vs out'] b]. apply Hless. split; simpl; lia.
  - unfold heard_by_clock.
    pose proof (heard_from_spec (length (awaiting_clock s)) i clock 0 (awaiting_clock s) out false) as HF.
    destruct (heard_from _ _ _ _ _ _ _) as [[l out'] b]. apply Hless. split; simpl; lia.
  - apply Hless. split; simpl; lia.
  - by apply Hless.
  - by apply bounded_mix.
  - apply Hless, less_end_all.
  - by apply Hless.
Qed.

#[local] Arguments end_ids : simpl never.
#[local] Arguments made_ids : simpl never.
#[local] Arguments tracked_ids : simpl never.

(** A registered utterance: with the cancel generation it was registered under,
    or none for a sound played as an utterance. *)
Definition Registered : Type := UtteranceId * option N.

(** The utterance an operation registers, with its generation. *)
Definition op_regs (op : SourceOp) : list Registered :=
  match op with
  | OpRegister u _ g => [(u, Some g)]
  | OpPlayToEnd u _ _ _ => [(u, None)]
  | _ => []
  end.

Lemma op_regs_ids op : (op_regs op).*1 = op_registers op.
Proof. by destruct op. Qed.

(** An utterance's end is its last pending event, but for endings made at once. *)
Fixpoint ends_last (es : list Pending) : Prop :=
  match es with
  | [] => True
  | p :: es =>
      (p_kind p = KindEnd -> forall q, q ∈ es -> p_utterance q = p_utterance p ->
         made_at_once (p_kind q) = true) /\ ends_last es
  end.

Lemma ends_last_append es p :
  ends_last es -> (p_utterance p ∈ end_ids es -> made_at_once (p_kind p) = true) ->
  ends_last (es ++ [p]).
Proof.
  induction es as [|q es IH]; simpl; [intros _ _; split; [by intros _ q ?%elem_of_nil|done]|].
  intros [Hq Hes] Hp. split.
  - intros Hk x [Hx|Hx%list_elem_of_singleton]%elem_of_app Hu; [by apply Hq|].
    subst x. apply Hp. apply elem_of_end_ids. exists q. split_and!; [by left|done..].
  - apply IH; [done|]. intros (x & Hx & ?)%elem_of_end_ids. apply Hp, elem_of_end_ids.
    exists x. split; [by right|done].
Qed.

Lemma ends_last_made es es' :
  Forall (fun p => made_at_once (p_kind p) = true) es -> ends_last es' -> ends_last (es ++ es').
Proof.
  induction 1 as [|p es Hp _ IH]; simpl; [done|]. intros Hes. split; [|auto].
  intros Hk. by rewrite Hk in Hp.
Qed.

(** Events taken out, and moved. *)
Lemma ends_last_omap (f : Pending -> option Pending) es :
  (forall p q, f p = Some q -> p_utterance q = p_utterance p /\ p_kind q = p_kind p) ->
  ends_last es -> ends_last (omap f es).
Proof.
  intros Hf. induction es as [|p es IH]; csimpl; [done|]. intros [Hp Hes].
  destruct (f p) as [q|] eqn:Hq; csimpl; [|auto]. destruct (Hf _ _ Hq) as [Hu Hk].
  split; [|auto]. rewrite Hk Hu. intros Hend x (y & Hy & Hx)%list_elem_of_omap Hxu.
  destruct (Hf _ _ Hx) as [Hu' ->]. apply Hp; [done..|congruence].
Qed.

Lemma ends_last_filter (f : Pending -> bool) es : ends_last es -> ends_last (List.filter f es).
Proof.
  induction es as [|p es IH]; simpl; [done|]. intros [Hp Hes]. destruct (f p); simpl; [|auto].
  split; [|auto]. intros Hk q [Hq _]%list_elem_of_In%filter_In. apply list_elem_of_In in Hq. by apply Hp.
Qed.

(** ** The order kept *)

(** [R] were registered; [g] is the cancel generation read last. *)
Record manners (R : list Registered) (g : N) (T : list Tracked) (P : list Pending) (V : list Voice) : Prop := {
  m_current : forall t, t ∈ T -> (g <= t_generation t)%N;
  m_reg : forall t, t ∈ T -> (t_utterance t, None) ∈ R \/ (t_utterance t, Some (t_generation t)) ∈ R;
  m_done : forall p, p ∈ P -> p_kind p = KindEnded EndCompleted -> (p_utterance p, None) ∈ R;
  m_live : forall p, p ∈ P -> made_at_once (p_kind p) = false -> p_utterance p ∈ tracked_ids T;
  m_last : ends_last P;
  m_sound : forall v u, v ∈ V -> v_ends v = true -> v_utterance v = Some u ->
    (u, None) ∈ R /\ forall p, p ∈ P -> p_utterance p = u -> made_at_once (p_kind p) = true;
}.

(** The books, the limits and the order of one source. *)
Record kept (R : list Registered) (E : list UtteranceId) (s : SourceState) : Prop := {
  k_ledger : ledger R.*1 E s;
  k_bounded : bounded s;
  k_manners : manners R (s_generation s) (tracked s) (events s) (voices s);
}.

Lemma manners_voices R g T P V V' : manners R g T P V -> same_voices V V' -> manners R g T P V'.
Proof.
  intros [A B C D F G] HV. split; try done. intros v u Hin Hends Hu.
  destruct (HV v Hin) as (v0 & Hin0 & He0 & Hu0). apply (G v0); congruence.
Qed.

Lemma manners_more R R' g T P V : manners R g T P V -> manners (R ++ R') g T P V.
Proof.
  intros [A B C D F G]. split; try done.
  - intros t Ht. destruct (B t Ht); [left|right]; apply elem_of_app; by left.
  - intros p Hp Hk. apply elem_of_app. left. by apply C.
  - intros v u Hin Hends Hu. destruct (G v u Hin Hends Hu). split; [|done]. apply elem_of_app. by left.
Qed.

(** Tracked utterances changed, each with the utterance and generation of one
    before, and every utterance with a live event kept. *)
Lemma manners_tracked R g T T' P V :
  manners R g T P V ->
  (forall t', t' ∈ T' -> exists t, t ∈ T /\ t_utterance t = t_utterance t' /\ t_generation t = t_generation t') ->
  (forall p, p ∈ P -> made_at_once (p_kind p) = false -> p_utterance p ∈ tracked_ids T ->
     p_utterance p ∈ tracked_ids T') ->
  manners R g T' P V.
Proof.
  intros [A B C D F G] HT HP. split; try done.
  - intros t' Ht'. destruct (HT t' Ht') as (t & Ht & _ & <-). by apply A.
  - intros t' Ht'. destruct (HT t' Ht') as (t & Ht & <- & <-). by apply B.
  - intros p Hp Hm. apply HP; auto.
Qed.

(** An event more: of one being written, last; or an ending made at once. *)
Lemma manners_append R g T P V p :
  manners R g T P V -> made_at_once (p_kind p) = false -> p_utterance p ∈ tracked_ids T ->
  p_utterance p ∉ end_ids P ->
  (forall v, v ∈ V -> v_ends v = true -> v_utterance v <> Some (p_utterance p)) ->
  manners R g T (P ++ [p]) V.
Proof.
  intros [A B C D F G] Hm Hin Hend HV. split; try done.
  - intros q [Hq|Hq%list_elem_of_singleton]%elem_of_app; [by apply C|]. subst. intros Hk. by rewrite Hk in Hm.
  - intros q [Hq|Hq%list_elem_of_singleton]%elem_of_app; [by apply D|]. by subst.
  - by apply ends_last_append.
  - intros v u Hv Hends Hu. destruct (G v u Hv Hends Hu) as [? Hq]. split; [done|].
    intros q [Hin'|Hin'%list_elem_of_singleton]%elem_of_app Hqu; [by apply Hq|]. subst.
    by destruct (HV v Hv Hends).
Qed.

Lemma manners_made R g T P V p :
  manners R g T P V -> made_at_once (p_kind p) = true ->
  (p_kind p = KindEnded EndCompleted -> (p_utterance p, None) ∈ R) ->
  manners R g T (p :: P) V.
Proof.
  intros [A B C D F G] Hm Hc. split; try done.
  - intros q [->|Hq]%elem_of_cons; [done|by apply C].
  - intros q [->|Hq]%elem_of_cons; [congruence|by apply D].
  - apply (ends_last_made [p]); [by constructor|done].
  - intros v u Hv Hends Hu. destruct (G v u Hv Hends Hu) as [? Hq]. split; [done|].
    intros q [->|Hin]%elem_of_cons; [done|by apply Hq].
Qed.

(** Events taken out or moved, whose utterances stay tracked. *)
Lemma manners_events R g T P V (f : Pending -> option Pending) :
  (forall p q, f p = Some q -> p_utterance q = p_utterance p /\ p_kind q = p_kind p) ->
  manners R g T P V -> manners R g T (omap f P) V.
Proof.
  intros Hf [A B C D F G]. split; try done.
  - intros q (p & Hp & Hq)%list_elem_of_omap. destruct (Hf _ _ Hq) as [-> ->]. by apply C.
  - intros q (p & Hp & Hq)%list_elem_of_omap. destruct (Hf _ _ Hq) as [-> ->]. by apply D.
  - by apply ends_last_omap.
  - intros v u Hv Hends Hu. destruct (G v u Hv Hends Hu) as [? Hm]. split; [done|].
    intros q (p & Hp & Hq)%list_elem_of_omap. destruct (Hf _ _ Hq) as [-> ->]. by apply Hm.
Qed.

Lemma filter_omap {A} (f : A -> bool) l :
  List.filter f l = omap (fun x => if f x then Some x else None) l.
Proof. induction l as [|x l IH]; csimpl; [done|]. rewrite IH. by destruct (f x). Qed.

Lemma manners_filter R g T P V (f : Pending -> bool) :
  manners R g T P V -> manners R g T (List.filter f P) V.
Proof.
  rewrite filter_omap. apply manners_events. intros p q. by destruct (f p); intros [= <-].
Qed.

Lemma writing_facts R E s u t :
  kept R E s -> writing u s = Some t ->
  t ∈ tracked s /\ t_utterance t = u /\ u ∈ tracked_ids (tracked s) /\ u ∉ end_ids (events s) /\
  forall v, v ∈ voices s -> v_ends v = true -> v_utterance v <> Some u.
Proof.
  intros [Hb _ _] (Ht & <- & Hw)%writing_spec. split_and!; [done..|by apply list_elem_of_fmap_2| |].
  - intros Hx. destruct (bk_end _ _ _ _ _ Hb _ Hx) as (t' & Ht' & Hid & Hw').
    rewrite (tracked_unique _ _ _ _ _ t t' Hb) in Hw; congruence.
  - intros v Hv Hends Hu. destruct (bk_voice _ _ _ _ _ Hb v _ Hv Hends Hu) as (_ & _ & Hw').
    by rewrite (Hw' t Ht eq_refl) in Hw.
Qed.

Lemma manners_update R g T P V u f :
  manners R g T P V -> (forall t, t_utterance (f t) = t_utterance t /\ t_generation (f t) = t_generation t) ->
  manners R g (update_writing u f T) P V.
Proof.
  intros Hm Hf. apply (manners_tracked _ _ T); [done| |].
  - intros t' [Ht|(t & Ht & _ & ->)]%elem_of_update_writing; [by exists t'|]. exists t. destruct (Hf t). auto.
  - intros p _ _. rewrite update_writing_ids; [done|]. apply Hf.
Qed.

Lemma manners_end_failed R E t rest k s :
  kept R E s -> tracked s ≡ₚ t :: rest -> made_at_once k = true -> k <> KindEnded EndCompleted ->
  let s' := end_failed t rest k s in
  manners R (s_generation s') (tracked s') (events s') (voices s').
Proof.
  intros [_ _ Hm] HT Hk Hc. cbv zeta.
  assert (s_generation (end_failed t rest k s) = s_generation s /\ tracked (end_failed t rest k s) = rest /\
    events (end_failed t rest k s) = end_event (fun _ => k) t ::
      List.filter (fun p => negb (bool_decide (p_utterance p = t_utterance t))) (events s) /\
    voices (end_failed t rest k s) = voices (retire_voices (fun v =>
      bool_decide (v_utterance v = Some (t_utterance t))) s)) as (-> & -> & -> & ->).
  { unfold end_failed, truncate. by destruct (_ <? _)%N. }
  apply manners_made; [|done..].
  eapply manners_voices; [|apply same_voices_fmap; intros v; by destruct (_ && _)].
  apply (manners_tracked _ _ (tracked s)); [by apply manners_filter| |].
  - intros t' Ht'. exists t'. rewrite HT. split; [by right|done].
  - intros p [Hp Hne]%list_elem_of_In%filter_In _. unfold tracked_ids. rewrite HT fmap_cons.
    intros [Heq|?]%elem_of_cons; [|done]. by rewrite bool_decide_eq_true_2 in Hne.
Qed.

Lemma manners_frames R E u n smp current s :
  kept R E s ->
  let s' := frames u n smp current s in
  manners R (s_generation s') (tracked s') (events s') (voices s').
Proof.
  intros Hkept. pose proof (k_manners _ _ _ Hkept) as Hm. unfold frames. destruct current; simpl.
  - destruct (writing u s) as [t|] eqn:Hw; [|done].
    destruct (writing_facts _ _ _ _ _ Hkept Hw) as (Ht & Hid & Hin & Hend & HV).
    destruct (t_started t); [done|]. simpl.
    apply manners_append; simpl; try done; [by apply manners_update|by rewrite update_writing_ids].
  - destruct (position _ _) as [[t rest]|] eqn:Hpos; [|done]. apply position_spec in Hpos as [_ Hpos].
    apply (manners_end_failed R E); [|done..]. destruct Hkept as [Hb Hbd _]. split; try done.
    by eapply bounded_less; [done|split].
Qed.

Lemma manners_mark R E u m s :
  kept R E s -> let s' := mark_at u m s in
  manners R (s_generation s') (tracked s') (events s') (voices s').
Proof.
  intros Hkept. pose proof (k_manners _ _ _ Hkept) as Hm. unfold mark_at.
  destruct (writing u s) as [t|] eqn:Hw; [|done].
  destruct (writing_facts _ _ _ _ _ Hkept Hw) as (Ht & Hid & Hin & Hend & HV).
  by apply manners_append.
Qed.

Lemma manners_finish R E u s :
  kept R E s -> let s' := finish_at u s in
  manners R (s_generation s') (tracked s') (events s') (voices s').
Proof.
  intros Hkept. pose proof (k_manners _ _ _ Hkept) as Hm. unfold finish_at.
  destruct (writing u s) as [t|] eqn:Hw; [|done].
  destruct (writing_facts _ _ _ _ _ Hkept Hw) as (Ht & Hid & Hin & Hend & HV).
  apply manners_append; simpl; try done; [by apply manners_update|by rewrite update_writing_ids].
Qed.

(** What every utterance brought in is: apart from what there was. *)
Lemma fresh_events R E s u p :
  kept R E s -> u ∉ R.*1 -> p ∈ events s -> p_utterance p = u -> made_at_once (p_kind p) = true.
Proof.
  intros [Hb _ Hm] Hu Hp <-. destruct (made_at_once (p_kind p)) eqn:Hk; [done|].
  destruct Hu. apply (m_live _ _ _ _ _ Hm p Hp) in Hk as (t & -> & Ht)%list_elem_of_fmap.
  by apply (tracked_in_H _ _ _ _ _ _ Hb).
Qed.

Lemma manners_play_to_end R E u tr v current s o :
  kept R E s -> u ∉ R.*1 ->
  let s' := fst (play_to_end u tr v current s o) in
  manners (R ++ [(u, None)]) (s_generation s') (tracked s') (events s') (voices s').
Proof.
  intros Hkept Hu. pose proof (manners_more _ [(u, None)] _ _ _ _ (k_manners _ _ _ Hkept)) as Hm.
  assert ((u, None) ∈ R ++ [(u, None : option N)]) as Hin by (apply elem_of_app; right; by left).
  unfold play_to_end. destruct current; simpl; [|by apply manners_made].
  destruct Hm as [A B C D F G]. split; try done.
  - intros t [Ht|Ht%list_elem_of_singleton]%elem_of_app; [by apply A|]. subst. simpl. lia.
  - intros t [Ht|Ht%list_elem_of_singleton]%elem_of_app; [by apply B|]. subst. by left.
  - intros p Hp Hk. unfold tracked_ids. rewrite fmap_app elem_of_app. left. by apply D.
  - intros x w [Hx|Hx%list_elem_of_singleton]%elem_of_app Hends Hw; [by apply (G x)|]. subst x.
    simpl in Hw. injection Hw as <-. split; [done|]. intros p Hp Hpu. by eapply fresh_events.
Qed.

Lemma manners_register R E u tr g s :
  kept R E s -> u ∉ R.*1 ->
  let s' := register u tr g s in
  manners (R ++ [(u, Some g)]) (s_generation s') (tracked s') (events s') (voices s').
Proof.
  intros Hkept Hu. pose proof (manners_more _ [(u, Some g)] _ _ _ _ (k_manners _ _ _ Hkept)) as Hm.
  unfold register. destruct (g <? s_generation s)%N eqn:Hg; simpl; [by apply manners_made|].
  apply N.ltb_ge in Hg. destruct Hm as [A B C D F G]. split; try done.
  - intros t [Ht|Ht%list_elem_of_singleton]%elem_of_app; [by apply A|]. by subst.
  - intros t [Ht|Ht%list_elem_of_singleton]%elem_of_app; [by apply B|]. subst. right.
    apply elem_of_app. right. by left.
  - intros p Hp Hk. unfold tracked_ids. rewrite fmap_app elem_of_app. left. by apply D.
Qed.

Lemma manners_made_many R g T P V k ts :
  manners R g T P V -> made_at_once k = true -> k <> KindEnded EndCompleted ->
  manners R g T ((end_event (fun _ => k) <$> ts) ++ P) V.
Proof. intros Hm Hk Hc. induction ts as [|t ts IH]; csimpl; [done|]. by apply manners_made. Qed.

Lemma manners_cancel_older R E g s :
  kept R E s -> (s_generation s <= g)%N ->
  let s' := set_generation g (cancel_older g s) in
  manners R (s_generation s') (tracked s') (events s') (voices s').
Proof.
  intros [_ _ Hm] Hg. unfold cancel_older. rewrite end_now_many.
  set (spared := match Prelude.find (fun t => g <=? t_generation t)%N (tracked s) with
                 | Some t => t_start t | None => write_end s end).
  set (removed := (spared - N.max (mixed_end s) (data_start s))%N).
  set (s1 := if (0 <? removed)%N then _ else s).
  assert (tracked s1 = tracked s /\ events s1 = events s /\ voices s1 = voices s) as (HT & HE & HV).
  { subst s1. by destruct (0 <? removed)%N. }
  clearbody s1. simpl. rewrite HT HE HV. apply manners_made_many; [|done..].
  eapply manners_voices; [|apply same_voices_fmap; intros v; by repeat case_match].
  assert (forall t, t ∈ (fun t => if (spared <=? t_start t)%N
    then {| t_utterance := t_utterance t; t_trace := t_trace t; t_generation := t_generation t;
            t_start := t_start t - removed; t_writing := t_writing t; t_started := t_started t |}
    else t) <$> List.filter (fun t => negb (t_generation t <? g)%N) (tracked s) ->
    exists t0, t0 ∈ tracked s /\ t_utterance t0 = t_utterance t /\ t_generation t0 = t_generation t /\
      (g <= t_generation t0)%N) as Hkept.
  { intros t (t0 & -> & [Hin Hge]%list_elem_of_In%filter_In)%list_elem_of_fmap. exists t0.
    rewrite list_elem_of_In. apply negb_true_iff, N.ltb_ge in Hge. by case_match. }
  eapply (manners_events _ _ _ _ _ (fun p =>
    if tracked_older g (tracked s) (p_utterance p) && negb (made_at_once (p_kind p)) then None
    else Some (if (spared <=? p_position p)%N && negb (made_at_once (p_kind p))
               then {| p_position := p_position p - removed; p_utterance := p_utterance p;
                       p_trace := p_trace p; p_kind := p_kind p |}
               else p))) in Hm as Hm'.
  2: { intros p q. case_match; [done|]. intros [= <-]. by case_match. }
  destruct Hm' as [A B C D F G]. split; try done.
  - intros t Ht. destruct (Hkept t Ht) as (t0 & _ & _ & <- & ?). done.
  - intros t Ht. destruct (Hkept t Ht) as (t0 & Ht0 & <- & <- & _). by apply B.
  - intros q Hq Hk. pose proof (D q Hq Hk) as (t & Heq & Ht)%list_elem_of_fmap.
    apply list_elem_of_omap in Hq as (p & Hp & Hpq).
    destruct (tracked_older g (tracked s) (p_utterance p)) eqn:Hold.
    { simpl in Hpq. destruct (made_at_once (p_kind p)) eqn:Hmp; [|done]. simpl in Hpq. injection Hpq as <-.
      rewrite andb_false_r in Hk. congruence. }
    simpl in Hpq. injection Hpq as Hpq.
    assert (p_utterance p = t_utterance t) as Hpu by (rewrite -Heq -Hpq; by case_match).
    assert (negb (t_generation t <? g)%N = true) as Hge.
    { destruct (t_generation t <? g)%N eqn:Hlt; [|done].
      rewrite Hpu tracked_older_in // in Hold. rewrite list_elem_of_In filter_In -list_elem_of_In. done. }
    apply list_elem_of_fmap. eexists. split; [|apply list_elem_of_fmap_2].
    2: { apply list_elem_of_In, filter_In. split; [by apply list_elem_of_In|exact Hge]. }
    rewrite Heq /=. by destruct (spared <=? t_start t)%N.
Qed.

Lemma manners_end_all R E ending s :
  kept R E s -> ending <> EndCompleted ->
  let s' := end_all ending s in
  manners R (s_generation s') (tracked s') (events s') (voices s').
Proof.
  intros [_ _ Hm] Hne. unfold end_all. rewrite end_now_many. set (s1 := truncate (mixed_end s) s).
  assert (s_generation s1 = s_generation s /\ tracked s1 = tracked s /\ events s1 = events s /\
    voices s1 = voices s) as (HG & HT & HE & HV).
  { subst s1. unfold truncate. by destruct (_ <? _)%N. }
  clearbody s1. simpl. rewrite HG HT HE HV. apply manners_made_many; [|done|congruence].
  eapply manners_voices; [|apply same_voices_fmap; intros v; by case_match].
  apply (manners_tracked _ _ (tracked s)); [by apply manners_filter|by intros t ?%elem_of_nil|].
  intros p [_ Hp]%list_elem_of_In%filter_In. congruence.
Qed.

Lemma manners_release R g channels played V vs : forall T P,
  manners R g T P V -> (forall v, v ∈ vs -> v ∈ V) ->
  let '(_, T', P') := release_voices_from channels played vs T P in manners R g T' P' V.
Proof.
  induction vs as [|v vs IH]; intros T P Hm HV; simpl; [done|].
  set (step := if voice_played channels played v then _ else _).
  assert (exists v' T1 P1, step = (v', T1, P1) /\ manners R g T1 P1 V) as (v' & T1 & P1 & -> & Hm1).
  { subst step. destruct (voice_played _ _ _); [|by eexists _, _, _].
    destruct (v_ends v) eqn:Hends; [|by eexists _, _, _].
    destruct (v_utterance v) as [u|] eqn:Hu; [|by eexists _, _, _].
    destruct (position _ _) as [[t rest]|] eqn:Hpos; [|by eexists _, _, _].
    apply position_spec in Hpos as [Heq%bool_decide_eq_true Hpos]. eexists _, _, _. split; [done|].
    destruct (m_sound _ _ _ _ _ Hm v u (HV v ltac:(by left)) Hends Hu) as [Hreg Hev].
    apply manners_made; [|done..]. apply (manners_tracked _ _ T); [done| |].
    - intros t' Ht'. exists t'. rewrite Hpos. split; [by right|done].
    - intros p Hp Hk. unfold tracked_ids. rewrite Hpos fmap_cons. intros [Hpu|?]%elem_of_cons; [|done].
      rewrite (Hev p Hp) in Hk; congruence. }
  specialize (IH T1 P1 Hm1 (fun v Hv => HV v (list_elem_of_further _ _ _ Hv))).
  by destruct (release_voices_from _ _ _ T1 P1) as [[vs' T'] P'].
Qed.

(** ** The reports *)

(** What a record says of [u], by the kind of event it comes from. *)
Definition record_kind (u : UtteranceId) (r : Outbound) : option Kind :=
  match r with
  | OutEvent _ (PlayStarted u' _) => if decide (u' = u) then Some KindStart else None
  | OutEvent _ (PlayMark u' _ m) => if decide (u' = u) then Some (KindMark m) else None
  | OutEvent _ (PlayEnded u' _ k) => if decide (u' = u) then Some (KindEnded k) else None
  | OutFormatChanged _ u' _ => if decide (u' = u) then Some KindFormatChanged else None
  | _ => None
  end.

(** The endings of an utterance that is cut: not by playing to its end. *)
Definition cut_short (k : Kind) : bool :=
  match k with
  | KindEnded EndCompleted | KindStart | KindMark _ | KindEnd => false
  | _ => true
  end.

(** A record of a source whose registered utterances are [R], of which [E] have
    been reported ended, when the cancel generation it has read is [g]: it is of
    a registered utterance not yet ended, and unless it is an ending that cuts
    the utterance, of none registered under an older generation. *)
Definition report_fits (R : list Registered) (E : list UtteranceId) (g : N) (r : Outbound) : Prop :=
  forall u k, record_kind u r = Some k ->
    u ∈ R.*1 /\ u ∉ E /\ (cut_short k = false -> forall g', (u, Some g') ∈ R -> (g <= g')%N).

Fixpoint reports_fit (R : list Registered) (E : list UtteranceId) (g : N) (rs : list Outbound) : Prop :=
  match rs with
  | [] => True
  | r :: rs => report_fits R E g r /\ reports_fit R (E ++ omap ended_out [r]) g rs
  end.

Lemma registered_once {R : list Registered} {u a b} : NoDup R.*1 -> (u, a) ∈ R -> (u, b) ∈ R -> a = b.
Proof.
  intros Hnd [i Hi]%list_elem_of_lookup [j Hj]%list_elem_of_lookup.
  assert (i = j) as ->; [|congruence].
  eapply (NoDup_lookup _ _ _ _ Hnd); rewrite list_lookup_fmap; [by rewrite Hi|by rewrite Hj].
Qed.

(** Of a tracked utterance anything may be said. *)
Lemma tracked_fits R E g T P V u :
  books R.*1 E T P V -> manners R g T P V -> u ∈ tracked_ids T ->
  u ∈ R.*1 /\ u ∉ E /\ forall g', (u, Some g') ∈ R -> (g <= g')%N.
Proof.
  intros Hb Hm (t & -> & Ht)%list_elem_of_fmap. pose proof (bk_nodup _ _ _ _ _ Hb) as Hnd.
  split_and!.
  - by apply (tracked_in_H _ _ _ _ _ _ Hb).
  - intros HE. rewrite (bk_perm _ _ _ _ _ Hb) in Hnd. apply NoDup_app in Hnd as (_ & Hnd & _).
    apply (Hnd (t_utterance t)); [by apply list_elem_of_fmap_2|]. apply elem_of_app. by right.
  - intros g' Hg'. destruct (m_reg _ _ _ _ _ Hm t Ht) as [Hn|Hs].
    + by pose proof (registered_once Hnd Hn Hg').
    + pose proof (registered_once Hnd Hs Hg') as [= <-]. by apply (m_current _ _ _ _ _ Hm).
Qed.

(** Of one whose ending is pending, its ending. *)
Lemma made_fits R E g T P V p :
  books R.*1 E T P V -> manners R g T P V -> p ∈ P -> made_at_once (p_kind p) = true ->
  p_utterance p ∈ R.*1 /\ p_utterance p ∉ E /\
  (cut_short (p_kind p) = false -> forall g', (p_utterance p, Some g') ∈ R -> (g <= g')%N).
Proof.
  intros Hb Hm Hp Hk. pose proof (bk_nodup _ _ _ _ _ Hb) as Hnd.
  assert (p_utterance p ∈ made_ids P) as Hin.
  { apply list_elem_of_omap. exists p. by rewrite Hk. }
  split_and!.
  - rewrite (bk_perm _ _ _ _ _ Hb) !elem_of_app. auto.
  - intros HE. rewrite (bk_perm _ _ _ _ _ Hb) in Hnd. apply NoDup_app in Hnd as (_ & _ & Hnd).
    apply NoDup_app in Hnd as (_ & Hnd & _). by apply (Hnd (p_utterance p)).
  - intros Hc g' Hg'. assert (p_kind p = KindEnded EndCompleted) as Hcomp.
    { by destruct (p_kind p) as [| | |[]|]. }
    by pose proof (registered_once Hnd (m_done _ _ _ _ _ Hm p Hp Hcomp) Hg').
Qed.

Lemma manners_unevent R g T P V p : manners R g T (p :: P) V -> manners R g T P V.
Proof.
  intros [A B C D F G]. split; try done.
  - intros q Hq. apply C. by right.
  - intros q Hq. apply D. by right.
  - by destruct F.
  - intros v u Hv Hends Hu. destruct (G v u Hv Hends Hu) as [? Hm]. split; [done|].
    intros q Hq. apply Hm. by right.
Qed.

Lemma manners_report_end R g T P V p :
  manners R g T (p :: P) V -> p_kind p = KindEnd -> manners R g (untracked (p_utterance p) T) P V.
Proof.
  intros Hm Hk. pose proof (m_last _ _ _ _ _ Hm) as [Hlast _].
  apply (manners_tracked _ _ T); [by apply (manners_unevent _ _ _ _ _ p)| |].
  - intros t [Ht _]%elem_of_untracked. eauto.
  - intros q Hq Hmade (t & Heq & Ht)%list_elem_of_fmap. apply list_elem_of_fmap. exists t. split; [done|].
    apply elem_of_untracked. split; [done|]. intros Hu.
    rewrite (Hlast Hk q Hq) in Hmade; congruence.
Qed.

(** Records of source [i], or of none. *)
Definition from_source (i : nat) (r : Outbound) : Prop :=
  match r with OutEvent j _ | OutFormatChanged j _ _ => j = i | _ => True end.

Lemma kept_fire_one R E i p es s :
  books R.*1 E (tracked s) (p :: es) (voices s) ->
  manners R (s_generation s) (tracked s) (p :: es) (voices s) ->
  let '(s', r) := fire_one i p s in
  manners R (s_generation s) (tracked s') es (voices s') /\ report_fits R E (s_generation s) r /\
  s_generation s' = s_generation s /\ from_source i r.
Proof.
  intros Hb Hm.
  assert (forall k, made_at_once (p_kind p) = false -> p_utterance p ∈ R.*1 /\ p_utterance p ∉ E /\
    (cut_short k = false -> forall g', (p_utterance p, Some g') ∈ R -> (s_generation s <= g')%N)) as Hlive.
  { intros k Hk. destruct (tracked_fits _ _ _ _ _ _ (p_utterance p) Hb Hm) as (? & ? & ?); [|done].
    apply (m_live _ _ _ _ _ Hm); [by left|done]. }
  pose proof (made_fits _ _ _ _ _ _ p Hb Hm ltac:(by left)) as Hmade.
  pose proof (manners_unevent _ _ _ _ _ _ Hm) as Hm'.
  unfold fire_one, report_fits. destruct (p_kind p) eqn:Hk; simpl in *; split_and!; try done;
    try (intros u k Hr; case_decide; [|done]; subst; injection Hr as <-; auto).
  all: try (by repeat case_match). by apply manners_report_end.
Qed.

Lemma kept_fire_events R i played es : forall E s o snt,
  books R.*1 E (tracked s) es (voices s) ->
  manners R (s_generation s) (tracked s) es (voices s) ->
  let '(s', o', _) := fire_events i played es s o snt in
  manners R (s_generation s) (tracked s') (events s') (voices s') /\ s_generation s' = s_generation s /\
  exists new, o' = o ++ new /\ ledger R.*1 (E ++ omap ended_out new) s' /\
    reports_fit R E (s_generation s) new /\ Forall (from_source i) new.
Proof.
  induction es as [|p es IH]; intros E s o snt Hb Hm; simpl.
  - split_and!; [done..|]. exists []. rewrite !app_nil_r. done.
  - destruct (negb _ || ring_full o) eqn:Hfull.
    { split_and!; [done..|]. exists []. by rewrite !app_nil_r. }
    apply orb_false_iff in Hfull as [_ Hfull].
    pose proof (ledger_fire_one _ _ i _ _ _ Hb) as H1. pose proof (kept_fire_one _ _ i _ _ _ Hb Hm) as H2.
    destruct (fire_one i p s) as [s1 r]. destruct H2 as (Hm1 & Hr & Hg & Hi). rewrite -Hg in Hm1.
    rewrite ring_push_room //. specialize (IH _ s1 (o ++ [r]) true H1 Hm1).
    destruct (fire_events _ _ es s1 _ _) as [[s' o'] b]. destruct IH as (Hm' & Hg' & new & -> & HL & Hnew & Hin).
    rewrite -Hg. split_and!; [done..|]. exists (r :: new). rewrite -!app_assoc. split_and!; [done| | |by constructor].
    + by rewrite -app_assoc -omap_app in HL.
    + simpl. by rewrite Hg in Hnew |- *.
Qed.

Lemma release_segments_generation played segs : forall s,
  s_generation (release_segments played segs s) = s_generation s.
Proof.
  induction segs as [|seg segs IH]; intros s; simpl; [done|].
  destruct (_ =? 0)%N; [done|]. destruct (0 <? _)%N; [done|]. by rewrite IH.
Qed.

(** [fire] keeps the order, and every report fits. *)
Lemma kept_fire R E i played s o :
  kept R E s ->
  let '(s', o', _) := fire i played s o in
  s_generation s' = s_generation s /\
  exists new, o' = o ++ new /\ kept R (E ++ omap ended_out new) s' /\
    reports_fit R E (s_generation s') new /\ Forall (from_source i) new.
Proof.
  intros [Hb Hbd Hm]. pose proof (bounded_fire i played s o Hbd) as Hbd'. unfold fire in *.
  pose proof (ledger_release_voices _ _ played _ Hb) as Hb1.
  assert (manners R (s_generation (release_voices played s)) (tracked (release_voices played s))
    (events (release_voices played s)) (voices (release_voices played s)) /\
    s_generation (release_voices played s) = s_generation s) as [Hm1 Hg1].
  { unfold release_voices.
    pose proof (manners_release R (s_generation s) (s_channels s) played (voices s) (voices s) _ _ Hm (fun _ h => h)) as HR.
    pose proof (books_release R.*1 E (s_channels s) played (voices s) (voices s) _ _ Hb (fun _ h => h)) as HR'.
    destruct (release_voices_from _ _ _ _ _) as [[vs T] P]. destruct HR' as [_ HV].
    split; [|done]. by eapply manners_voices. }
  pose proof (kept_fire_events R i played _ E _ o false Hb1 Hm1) as HF.
  destruct (fire_events _ _ _ _ _ _) as [[s' o'] b]. destruct HF as (Hm' & Hg' & new & -> & HL & Hnew & Hin).
  unfold release_frames in *. destruct (release_segments_books played (segments s') s') as (HT & HE & HV).
  rewrite release_segments_generation. split; [congruence|]. exists new. split; [done|].
  split_and!; [|by rewrite Hg'|done]. split; [by eapply ledger_books|done|].
  rewrite release_segments_generation HT HE HV Hg'. done.
Qed.

(** ** One operation *)

(** An operation as the audio thread makes it: with the room it needs, a cancel
    generation only raised, and none ended as completed that did not play. *)
Definition op_proper (op : SourceOp) (s : SourceState) : Prop :=
  op_admitted op s = true /\
  match op with
  | OpCancel g => (s_generation s <= g)%N
  | OpEndAll ending => ending <> EndCompleted
  | _ => True
  end.

(** Records that are of no utterance. *)
Definition quiet (r : Outbound) : Prop := ended_out r = None /\ forall u, record_kind u r = None.

Lemma quiet_reports R g new : Forall quiet new -> omap ended_out new = [] /\ forall E, reports_fit R E g new.
Proof.
  induction 1 as [|r new [Hr Hq] _ [IH1 IH2]]; csimpl; [done|]. rewrite Hr. split; [done|].
  intros E. rewrite app_nil_r. split; [|done]. intros u k Hk. by rewrite Hq in Hk.
Qed.

(** An operation appends to the ring, and only to say what is its source's, or of
    no utterance unless it fires; the generation is only raised. *)
Lemma fire_events_sends i played es : forall s o snt,
  let '(s', o', _) := fire_events i played es s o snt in
  s_generation s' = s_generation s /\ exists new, o' = o ++ new /\ Forall (from_source i) new.
Proof.
  induction es as [|p es IH]; intros s o snt; simpl; [split; [done|]; exists []; by rewrite app_nil_r|].
  destruct (negb _ || ring_full o) eqn:Hfull; [split; [done|]; exists []; by rewrite app_nil_r|].
  apply orb_false_iff in Hfull as [_ Hfull].
  assert (let '(s1, r) := fire_one i p s in s_generation s1 = s_generation s /\ from_source i r) as H1.
  { unfold fire_one. destruct (p_kind p); split; try done. by repeat case_match. }
  destruct (fire_one i p s) as [s1 r]. destruct H1 as [<- Hr]. rewrite ring_push_room //.
  specialize (IH s1 (o ++ [r]) true). destruct (fire_events _ _ es s1 _ _) as [[s' o'] b].
  destruct IH as (? & new & -> & Hnew). split; [done|]. exists (r :: new). rewrite -app_assoc. auto.
Qed.

Lemma fire_sends i played s o :
  let '(s', o', _) := fire i played s o in
  s_generation s' = s_generation s /\ exists new, o' = o ++ new /\ Forall (from_source i) new.
Proof.
  unfold fire. pose proof (fire_events_sends i played (events (release_voices played s)) (release_voices played s) o false) as HF.
  destruct (fire_events _ _ _ _ _ _) as [[s' o'] b]. destruct HF as [Hg HF]. split; [|done].
  unfold release_frames. rewrite release_segments_generation Hg. unfold release_voices.
  by destruct (release_voices_from _ _ _ _ _) as [[vs T] P].
Qed.

Definition fires (op : SourceOp) : bool := match op with OpFire _ => true | _ => false end.

Lemma op_sends i op s o :
  (match op with OpCancel g => s_generation s <= g | _ => True end)%N ->
  let '(s', o') := source_op i op s o in
  (s_generation s <= s_generation s')%N /\
  exists new, o' = o ++ new /\ Forall (from_source i) new /\ (fires op = false -> Forall quiet new).
Proof.
  intros Hop.
  assert (exists new, o = o ++ new /\ Forall (from_source i) new /\ (fires op = false -> Forall quiet new)) as Hnone.
  { exists []. by rewrite app_nil_r. }
  assert (forall r, quiet r -> from_source i r ->
    exists new, ring_push r o = o ++ new /\ Forall (from_source i) new /\ (fires op = false -> Forall quiet new)) as Hpush.
  { intros r Hr Hi. destruct (ring_push_new r o) as (new & -> & [->| ->]); eexists; (split; [done|]); auto. }
  destruct op; simpl in *; try done.
  - split; [|done]. unfold register. by destruct (_ <? _)%N.
  - split; [|done]. unfold frames, end_failed, truncate. repeat case_match; simpl; done.
  - split; [|done]. unfold mark_at. by case_match.
  - unfold voice. destruct (negb _); (split; [done|]); [by apply Hpush|done].
  - unfold play_to_end. destruct (negb _); (split; [done|]); [by apply Hpush|done].
  - split; [|done]. unfold finish_at. by case_match.
  - unfold fail_at. destruct (position _ _) as [[t rest]|]; (split; [|]); [|done|done|by apply Hpush].
    unfold end_failed, truncate. by case_match.
  - unfold rewind. by destruct (rewind_segments _ _ _).
  - pose proof (fire_sends i played s o) as HF. destruct (fire i played s o) as [[s' o'] b].
    destruct HF as (-> & new & -> & Hnew). split; [lia|]. exists new. by split_and!.
  - unfold flush_retired. pose proof (flush_from_spec (length (voices s)) 0 (voices s) o false) as HF.
    destruct (flush_from _ _ _ _ _) as [[vs o'] b]. destruct HF as (_ & _ & new & -> & Hnew).
    split; [done|]. exists new. split_and!; [done|apply Forall_forall|intros _; apply Forall_forall];
      by intros r (fr & ->)%Hnew.
  - unfold heard_by_clock.
    pose proof (heard_from_spec (length (awaiting_clock s)) i clock 0 (awaiting_clock s) o false) as HF.
    destruct (heard_from _ _ _ _ _ _ _) as [[l o'] b]. destruct HF as (_ & new & -> & Hnew).
    split; [done|]. exists new. split_and!; [done|eapply Forall_impl|intros _; eapply Forall_impl];
      try exact Hnew; by intros r (u & tr & ->).
  - split; [|done]. unfold mix_into. destruct (mixable written s =? 0)%N; [done|]. by case_match.
  - split; [|done]. unfold end_all. rewrite end_now_many /=. unfold truncate. by case_match.
Qed.

Lemma op_manners R E i op s o :
  kept R E s -> op_proper op s -> (forall u, u ∈ op_registers op -> u ∉ R.*1) -> fires op = false ->
  let s' := fst (source_op i op s o) in
  manners (R ++ op_regs op) (s_generation s') (tracked s') (events s') (voices s').
Proof.
  intros Hk [_ Hop] Hfresh Hnf. pose proof (k_manners _ _ _ Hk) as Hm. cbv zeta.
  destruct op; simpl in *; rewrite ?app_nil_r; try done.
  - apply (manners_register R E); [done|]. apply Hfresh. by left.
  - by apply (manners_frames R E).
  - by apply (manners_mark R E).
  - unfold voice. destruct (negb _); [done|]. simpl. destruct Hm as [A B C D F G]. split; try done.
    intros x u [Hx|Hx%list_elem_of_singleton]%elem_of_app Hends; [by apply G|]. by subst.
  - apply (manners_play_to_end R E); [done|]. apply Hfresh. by left.
  - by apply (manners_finish R E).
  - unfold fail_at. destruct (position _ _) as [[t rest]|] eqn:Hpos; [|done].
    apply position_spec in Hpos as [_ Hpos]. by apply (manners_end_failed R E).
  - by apply (manners_cancel_older R E).
  - unfold rewind. destruct (rewind_segments _ _ _) as [segs mend].
    eapply manners_voices; [done|]. apply same_voices_fmap. intros v. unfold rewind_voice. by destruct (v_state v).
  - unfold flush_retired. pose proof (flush_from_spec (length (voices s)) 0 (voices s) o false) as HF.
    destruct (flush_from _ _ _ _ _) as [[vs o'] b]. destruct HF as (Hin & _).
    eapply manners_voices; [done|]. intros v Hv. exists v. auto.
  - unfold heard_by_clock. by destruct (heard_from _ _ _ _ _ _ _) as [[l o'] b].
  - unfold mix_into. destruct (mixable written s =? 0)%N; [done|].
    set (s0 := set_pauses (s_paused s) false s). set (taken := N.min _ _).
    assert (same_voices (voices s) (voices (start_voices written taken s0))) as HV.
    { apply same_voices_fmap. intros v. unfold start_voice. by repeat case_match. }
    destruct (taken =? 0)%N; simpl; by eapply manners_voices.
  - by apply (manners_end_all R E).
Qed.

(** Every operation keeps the books, the limits and the order, and makes only
    reports that fit. *)
Lemma kept_op R E i op s o :
  kept R E s -> op_proper op s -> (forall u, u ∈ op_registers op -> u ∉ R.*1) ->
  let '(s', o') := source_op i op s o in
  exists new, o' = o ++ new /\ kept (R ++ op_regs op) (E ++ omap ended_out new) s' /\
    reports_fit (R ++ op_regs op) E (s_generation s') new.
Proof.
  intros Hk Hop Hfresh. destruct (fires op) eqn:Hnf.
  - destruct op; try done. pose proof (kept_fire R E i played s o Hk) as HF. simpl. rewrite app_nil_r.
    destruct (fire i played s o) as [[s' o'] b]. destruct HF as (_ & new & -> & ? & ? & _). eauto.
  - pose proof (op_manners R E i op s o Hk Hop Hfresh Hnf) as Hm.
    pose proof (ledger_op _ _ i op s o (k_ledger _ _ _ Hk) Hfresh) as HL.
    pose proof (bounded_op i op s o (k_bounded _ _ _ Hk) (proj1 Hop)) as HB.
    pose proof (op_sends i op s o) as HS.
    destruct (source_op i op s o) as [s' o']. destruct HL as (new & -> & HL).
    destruct HS as (_ & new' & Heq%app_inv_head & _ & Hq); [by destruct op; try done; apply Hop|]. subst new'.
    destruct (quiet_reports (R ++ op_regs op) (s_generation s') new (Hq Hnf)) as [Hnil Hfit].
    exists new. split_and!; try done. split; try done. by rewrite fmap_app op_regs_ids.
Qed.
