(* ===== verification/Mixer.v ===== *)
(** * The audio thread

    [src/crates/verbatim-audio/src/mixer/run.rs], [recover.rs] and the parts of
    [mod.rs] they use: the records of a lane, one pass of the audio thread, its
    recovery path and its shutdown, over the sources of Store.v. The device and
    the other threads are what a pass reads: the device's answers, and the
    cancel generations and pauses, read twice as the code reads them; producers
    push onto the lanes between passes, which is what a push during a pass comes
    to. What a pass does to them is logged as [LoopAct]s. *)

From S2P Require Import Prelude Facts Speech Store.

(** ** Formats *)

(** [DeviceFormat]. *)
Record DeviceFormat := { sample_rate : N; channels : N; buffer_frames : N }.

Definition AHEAD_MS : N := 40.
Definition START_MS : N := 10.
Definition GENERATION_MASK : N := 0xFFFF.

(** [u32::saturating_mul] and [u64::saturating_mul]. *)
Definition mul32 (a b : N) : N := N.min U32_MAX (a * b).
Definition mul64 (a b : N) : N := N.min U64_MAX (a * b).

(** [mixer::pack_format]. *)
Definition pack_format (generation : N) (format : DeviceFormat) : N :=
  N.lor (N.lor (N.shiftl (N.land generation GENERATION_MASK) 48) (N.shiftl (channels format) 32))
    (sample_rate format).

(** [mixer::record_generation]. *)
Definition record_generation (generation : N) : N := N.land generation GENERATION_MASK.

(** [Shared::format], of the packed word and the buffer's frames. *)
Definition unpack_format (packed buffer : N) : N * DeviceFormat :=
  (N.shiftr packed 48,
   {| sample_rate := N.land packed 0xFFFFFFFF; channels := N.land (N.shiftr packed 32) 0xFFFF;
      buffer_frames := if buffer <=? U32_MAX then buffer else U32_MAX |}).

(** [mixer::source_capacity]. *)
Definition source_capacity (format : DeviceFormat) : N :=
  buffer_frames format +|64| mul32 (sample_rate format) AHEAD_MS / 1000.

(** [recover::fits]. *)
Definition fits (format : DeviceFormat) : bool :=
  let margin := mul64 (sample_rate format) MARGIN_MS / 1000 in
  mul64 (source_capacity format +|64| margin) (channels format) <=? SAMPLES.

(** ** What goes in and out *)

(** [records::Record]. *)
Inductive LaneRecord :=
  | RecRegister (utterance : UtteranceId) (trace : TraceId) (generation : N)
  | RecFrames (utterance : UtteranceId) (format frames samples : N)
  | RecMark (utterance : UtteranceId) (mark : N)
  | RecSound (utterance : UtteranceId) (v : NewVoice)
  | RecPlay (v : NewVoice)
  | RecPlayToEnd (utterance : UtteranceId) (trace : TraceId) (v : NewVoice)
  | RecFinish (utterance : UtteranceId)
  | RecFail (utterance : UtteranceId) (reason : string).

(** [run::LaneEnd]: the rings as lists, oldest first. *)
Record LaneEnd := {
  lane_source : nat;
  records : list LaneRecord;
  lane_capacity : nat;
  samples : option (list f32);
}.

(** A source's control as the audio thread reads it at one moment. *)
Record Control := { cancel_generation : N; paused : bool }.

(** What the audio thread does to the device and the other threads. *)
Inductive LoopAct :=
  | ActStop
  | ActWrite (mix : list f32)
  | ActStart
  | ActTap (frames : list f32)
  | ActRoom (source : nat)
  | ActReleased (source : nat) (released : N)
  | ActUnderruns (count : N)
  | ActFormat (packed buffer : N)
  | ActDelivery.

(** [run::AudioLoop]; the mix is what a pass writes, so [ActWrite] has it. *)
Record AudioLoop := {
  sources : list SourceState;
  lanes : list LaneEnd;
  out : list Outbound;
  format : DeviceFormat;
  generation : N;
  written : N;
  played : N;
  running : bool;
  clock_base : N;
  ran_dry : bool;
  tap : bool;
  tap_pending : list f32;
  tapped : N;
  underruns : N;
  underruns_sent : N;
  sent : bool;
  acts : list LoopAct;
}.

(** What a pass reads of the device and the other threads. *)
Record PassInput := {
  in_shutdown : bool;
  in_reopen : bool;
  in_queued : option N;
  in_changed : list Control;
  in_controls : list Control;
  in_clock : option N;
  in_write : bool;
  in_start : bool;
}.

(** [run::Pass]. *)
Inductive Pass := PassWait (playing : bool) | PassRecover (error : bool) | PassShutdown.

(** ** Changes of the loop's state *)

Definition set_sources (ss : list SourceState) (a : AudioLoop) :=
  {| sources := ss; lanes := lanes a; out := out a; format := format a; generation := generation a;
     written := written a; played := played a; running := running a; clock_base := clock_base a;
     ran_dry := ran_dry a; tap := tap a; tap_pending := tap_pending a; tapped := tapped a;
     underruns := underruns a; underruns_sent := underruns_sent a; sent := sent a; acts := acts a |}.
Definition set_lanes (ls : list LaneEnd) (a : AudioLoop) :=
  {| sources := sources a; lanes := ls; out := out a; format := format a; generation := generation a;
     written := written a; played := played a; running := running a; clock_base := clock_base a;
     ran_dry := ran_dry a; tap := tap a; tap_pending := tap_pending a; tapped := tapped a;
     underruns := underruns a; underruns_sent := underruns_sent a; sent := sent a; acts := acts a |}.
Definition set_out (o : list Outbound) (s : bool) (a : AudioLoop) :=
  {| sources := sources a; lanes := lanes a; out := o; format := format a; generation := generation a;
     written := written a; played := played a; running := running a; clock_base := clock_base a;
     ran_dry := ran_dry a; tap := tap a; tap_pending := tap_pending a; tapped := tapped a;
     underruns := underruns a; underruns_sent := underruns_sent a; sent := s; acts := acts a |}.
Definition set_positions (w p : N) (a : AudioLoop) :=
  {| sources := sources a; lanes := lanes a; out := out a; format := format a; generation := generation a;
     written := w; played := p; running := running a; clock_base := clock_base a;
     ran_dry := ran_dry a; tap := tap a; tap_pending := tap_pending a; tapped := tapped a;
     underruns := underruns a; underruns_sent := underruns_sent a; sent := sent a; acts := acts a |}.
Definition set_running (r : bool) (base : N) (dry : bool) (a : AudioLoop) :=
  {| sources := sources a; lanes := lanes a; out := out a; format := format a; generation := generation a;
     written := written a; played := played a; running := r; clock_base := base;
     ran_dry := dry; tap := tap a; tap_pending := tap_pending a; tapped := tapped a;
     underruns := underruns a; underruns_sent := underruns_sent a; sent := sent a; acts := acts a |}.
Definition set_tap (pending : list f32) (t : N) (a : AudioLoop) :=
  {| sources := sources a; lanes := lanes a; out := out a; format := format a; generation := generation a;
     written := written a; played := played a; running := running a; clock_base := clock_base a;
     ran_dry := ran_dry a; tap := tap a; tap_pending := pending; tapped := t;
     underruns := underruns a; underruns_sent := underruns_sent a; sent := sent a; acts := acts a |}.
Definition set_underruns (n m : N) (a : AudioLoop) :=
  {| sources := sources a; lanes := lanes a; out := out a; format := format a; generation := generation a;
     written := written a; played := played a; running := running a; clock_base := clock_base a;
     ran_dry := ran_dry a; tap := tap a; tap_pending := tap_pending a; tapped := tapped a;
     underruns := n; underruns_sent := m; sent := sent a; acts := acts a |}.
Definition set_format (f : DeviceFormat) (g : N) (a : AudioLoop) :=
  {| sources := sources a; lanes := lanes a; out := out a; format := f; generation := g;
     written := written a; played := played a; running := running a; clock_base := clock_base a;
     ran_dry := ran_dry a; tap := tap a; tap_pending := tap_pending a; tapped := tapped a;
     underruns := underruns a; underruns_sent := underruns_sent a; sent := sent a; acts := acts a |}.
Definition do_act (x : LoopAct) (a : AudioLoop) :=
  {| sources := sources a; lanes := lanes a; out := out a; format := format a; generation := generation a;
     written := written a; played := played a; running := running a; clock_base := clock_base a;
     ran_dry := ran_dry a; tap := tap a; tap_pending := tap_pending a; tapped := tapped a;
     underruns := underruns a; underruns_sent := underruns_sent a; sent := sent a; acts := acts a ++ [x] |}.

(** Every source changed. *)
Definition each_source (f : SourceState -> SourceState) (a : AudioLoop) :=
  set_sources (f <$> sources a) a.

(** ** The parts of a pass *)

(** [AudioLoop::end_pass]. *)
Definition end_pass (a : AudioLoop) : AudioLoop :=
  if sent a then do_act ActDelivery (set_out (out a) false a) else a.

(** [AudioLoop::feed_tap]. *)
Definition feed_tap (a : AudioLoop) : AudioLoop :=
  if negb (tap a) then a
  else if tapped a <? played a then
    let count := N.min (N.min U64_MAX ((played a - tapped a) * channels (format a)))
                   (N.of_nat (length (tap_pending a))) in
    set_tap (drop (N.to_nat count) (tap_pending a)) (played a)
      (do_act (ActTap (take (N.to_nat count) (tap_pending a))) a)
  else a.

(** [AudioLoop::forget_clock]. *)
Definition loop_forget_clock (a : AudioLoop) : AudioLoop := each_source forget_clock a.

(** [AudioLoop::discard]; the frames queued become none. *)
Definition discard (a : AudioLoop) : AudioLoop :=
  let a := if running a
           then loop_forget_clock (set_running false (clock_base a) (ran_dry a) (do_act ActStop a))
           else a in
  let a := set_positions (played a) (played a) a in
  let a := set_tap [] (tapped a) a in
  each_source (rewind (played a)) a.

(** [AudioLoop::admits]. *)
Definition admits (source : nat) (record : LaneRecord) (a : AudioLoop) : bool :=
  match sources a !! source with
  | None => true
  | Some store =>
      let ring := negb (ring_full (out a)) in
      match record with
      | RecRegister _ _ _ => admits_register store
      | RecFrames _ _ _ samples => admits_frames samples store
      | RecMark _ _ | RecFinish _ => admits_event store
      | RecSound _ _ | RecPlay _ => ring && admits_voice store
      | RecPlayToEnd _ _ _ => ring && admits_voice store && admits_register store
      | RecFail _ _ => ring && admits_event store
      end
  end.

(** [Consumer::read_chunk] on a lane's samples, all of it taken. *)
Definition read_chunk (lane : nat) (count : N) (a : AudioLoop) : option (list f32 * AudioLoop) :=
  l ← lanes a !! lane;
  ring ← samples l;
  if count <=? N.of_nat (length ring) then
    Some (take (N.to_nat count) ring,
          set_lanes (<[lane := {| lane_source := lane_source l; records := records l;
                                  lane_capacity := lane_capacity l;
                                  samples := Some (drop (N.to_nat count) ring) |}]> (lanes a)) a)
  else None.

(** A source's store replaced. *)
Definition put_source (source : nat) (s : SourceState) (a : AudioLoop) :=
  set_sources (<[source := s]> (sources a)) a.

(** [AudioLoop::apply], with the frames queued. *)
Definition apply_record (lane source : nat) (record : LaneRecord) (a : AudioLoop) (queued : N) :
    AudioLoop * N :=
  let current f := f =? generation a in
  match sources a !! source with
  | None =>
      match record with
      | RecFrames _ _ _ count =>
          match read_chunk lane count a with Some (_, a) => (a, queued) | None => (a, queued) end
      | _ => (a, queued)
      end
  | Some store =>
      match record with
      | RecRegister u tr g => (put_source source (register u tr g store) a, queued)
      | RecFrames u f n count =>
          match read_chunk lane count a with
          | Some (chunk, a) => (put_source source (frames u n chunk (current f) store) a, queued)
          | None => (put_source source (frames u n [] false store) a, queued)
          end
      | RecMark u m => (put_source source (mark_at u m store) a, queued)
      | RecSound u v =>
          let '(store, o) := voice (Some u) v (current (nv_format v)) store (out a) in
          (set_out o true (put_source source store a), queued)
      | RecPlay v =>
          let '(store, o) := voice None v (current (nv_format v)) store (out a) in
          (set_out o true (put_source source store a), queued)
      | RecPlayToEnd u tr v =>
          let '(store, o) := play_to_end u tr v (current (nv_format v)) store (out a) in
          (set_out o true (put_source source store a), queued)
      | RecFinish u => (put_source source (finish_at u store) a, queued)
      | RecFail u reason =>
          let a := discard a in
          match sources a !! source with
          | None => (a, 0)
          | Some store =>
              let '(store, back) := fail_at u reason store in
              let a := put_source source store a in
              (match back with
               | Some reason => set_out (ring_push (OutReason reason) (out a)) true a
               | None => a
               end, 0)
          end
      end
  end.

(** The first record of a lane taken. *)
Definition pop_record (lane : nat) (a : AudioLoop) : AudioLoop :=
  match lanes a !! lane with
  | Some l => set_lanes (<[lane := {| lane_source := lane_source l; records := tail (records l);
                                      lane_capacity := lane_capacity l; samples := samples l |}]>
                           (lanes a)) a
  | None => a
  end.

(** The inner loop of [AudioLoop::drain] on one lane: each turn takes a record,
    so the number of records is fuel enough. *)
Fixpoint drain_lane (fuel lane source : nat) (a : AudioLoop) (queued : N) (took : nat) :
    AudioLoop * N * nat :=
  match fuel with
  | O => (a, queued, took)
  | S fuel =>
      match lanes a !! lane ≫= fun l => head (records l) with
      | None => (a, queued, took)
      | Some record =>
          if admits source record a then
            let '(a, queued) := apply_record lane source record (pop_record lane a) queued in
            drain_lane fuel lane source a queued (S took)
          else (a, queued, took)
      end
  end.

(** One lane of [AudioLoop::drain]. *)
Definition drain_one (lane : nat) (a : AudioLoop) (queued : N) : AudioLoop * N :=
  match lanes a !! lane with
  | None => (a, queued)
  | Some l =>
      let '(a, queued, took) := drain_lane (length (records l)) lane (lane_source l) a queued 0 in
      let half_free := match lanes a !! lane with
                       | Some l' => bool_decide (length (records l') <= lane_capacity l / 2)%nat
                       | None => false end in
      (if bool_decide (0 < took)%nat && half_free && bool_decide (lane_source l < length (sources a))%nat
       then do_act (ActRoom (lane_source l)) a else a, queued)
  end.

(** [AudioLoop::drain]. *)
Definition drain (a : AudioLoop) (queued : N) : AudioLoop * N :=
  foldl (fun '(a, queued) lane => drain_one lane a queued) (a, queued) (seq 0 (length (lanes a))).

(** One source of [AudioLoop::read_controls]. *)
Definition read_control (c : Control) (s : SourceState) : SourceState :=
  let s := if s_generation s <? cancel_generation c
           then set_generation (cancel_generation c) (cancel_older (cancel_generation c) s) else s in
  if bool_decide (paused c <> s_paused s) then pause_source (paused c) s else s.

(** The iterator [zip] over sources and controls, the sources past the controls
    left as they are. *)
Fixpoint zip_controls (f : Control -> SourceState -> SourceState) (cs : list Control)
    (ss : list SourceState) : list SourceState :=
  match cs, ss with
  | c :: cs, s :: ss => f c s :: zip_controls f cs ss
  | _, ss => ss
  end.

Fixpoint any_control (f : Control -> SourceState -> bool) (cs : list Control)
    (ss : list SourceState) : bool :=
  match cs, ss with
  | c :: cs, s :: ss => f c s || any_control f cs ss
  | _, _ => false
  end.

(** [AudioLoop::read_controls]: the controls as its first look finds them, and
    as each source's are read after the queue was discarded. *)
Definition read_controls (first second : list Control) (a : AudioLoop) (queued : N) : AudioLoop * N :=
  let changed := any_control (fun c s => (s_generation s <? cancel_generation c)
                                         || bool_decide (paused c <> s_paused s)) first (sources a) in
  if negb changed then (a, queued)
  else
    let a := discard a in
    (set_sources (zip_controls read_control second (sources a)) a, 0).

(** [AudioLoop::fire]: the sources in turn, each with its index. *)
Fixpoint fire_sources (index : nat) (played : N) (ss : list SourceState) (o : list Outbound) (snt : bool) :
    list SourceState * list Outbound * bool :=
  match ss with
  | [] => ([], o, snt)
  | s :: ss =>
      let '(s, o, fired) := fire index played s o in
      let '(s, o, flushed) := flush_retired s o in
      let '(ss, o, snt) := fire_sources (S index) played ss o (snt || (fired || flushed)) in
      (s :: ss, o, snt)
  end.
Definition loop_fire (a : AudioLoop) : AudioLoop :=
  let '(ss, o, snt) := fire_sources 0 (played a) (sources a) (out a) (sent a) in
  set_out o snt (set_sources ss a).

(** [AudioLoop::heard_by_clock], of the clock's reading. *)
Fixpoint clock_sources (index : nat) (clock : N) (ss : list SourceState) (o : list Outbound) (snt : bool) :
    list SourceState * list Outbound * bool :=
  match ss with
  | [] => ([], o, snt)
  | s :: ss =>
      let '(s, o, heard) := heard_by_clock index clock s o in
      let '(ss, o, snt) := clock_sources (S index) clock ss o (snt || heard) in
      (s :: ss, o, snt)
  end.
Definition loop_heard_by_clock (reading : option N) (a : AudioLoop) : AudioLoop :=
  if negb (running a) || negb (existsb awaits_clock (sources a)) then a
  else
    match reading with
    | None => a
    | Some frames =>
        let '(ss, o, snt) := clock_sources 0 (clock_base a +|64| frames) (sources a) (out a) (sent a) in
        set_out o snt (set_sources ss a)
    end.

(** [AudioLoop::publish_room]. *)
Fixpoint publish_sources (index : nat) (capacity : N) (ss : list SourceState) : list SourceState * list LoopAct :=
  match ss with
  | [] => ([], [])
  | s :: ss =>
      let '(ss, log) := publish_sources (S index) capacity ss in
      if negb (released_now s) then (s :: ss, log)
      else
        (set_released (released s) false s :: ss,
         ActReleased index (released s)
         :: (if capacity / 2 <=? capacity - held s then [ActRoom index] else []) ++ log)
  end.
Definition publish_room (a : AudioLoop) : AudioLoop :=
  let '(ss, log) := publish_sources 0 (source_capacity (format a)) (sources a) in
  foldl (fun a x => do_act x a) (set_sources ss a) log.

(** [AudioLoop::frames_to_mix]. *)
Definition frames_to_mix (a : AudioLoop) (queued : N) : N :=
  let room := buffer_frames (format a) - queued in
  let available := foldl N.max 0 (mixable (written a) <$> sources a) in
  let frames := N.min room available in
  let start_frames := mul32 (sample_rate (format a)) START_MS / 1000 in
  let still_writing := existsb (fun s => (0 <? mixable (written a) s) && writing_any s) (sources a) in
  if negb (running a) && (frames <? start_frames) && still_writing then 0 else frames.

(** [AudioLoop::note_underrun]. *)
Definition note_underrun (a : AudioLoop) : AudioLoop :=
  let a := if ran_dry a && existsb mid_utterance (sources a)
           then let n := underruns a +|64| 1 in
                do_act (ActUnderruns n) (set_underruns n (underruns_sent a) a)
           else a in
  let a := set_running (running a) (clock_base a) false a in
  if (underruns_sent a <? underruns a) && negb (ring_full (out a)) then
    set_underruns (underruns a) (underruns a) (set_out (ring_push (OutUnderrun (underruns a)) (out a)) true a)
  else a.

(** [AudioLoop::mix_sources]. *)
Fixpoint mix_each (frames written : N) (ss : list SourceState) (mix : list f32) :
    list SourceState * list f32 :=
  match ss with
  | [] => ([], mix)
  | s :: ss =>
      let '(s, mix) := mix_into frames written s mix in
      let '(ss, mix) := mix_each frames written ss mix in
      (s :: ss, mix)
  end.
Definition mix_sources (frames : N) (a : AudioLoop) : AudioLoop * list f32 :=
  let n := N.min U64_MAX (frames * channels (format a)) in
  let '(ss, mix) := mix_each frames (written a) (sources a) (repeat f32_zero (N.to_nat n)) in
  (set_sources ss a, f32_clamp <$> mix).

(** [AudioLoop::pass]. *)
Definition pass (i : PassInput) (a : AudioLoop) : AudioLoop * Pass :=
  if in_shutdown i then (a, PassShutdown)
  else
    match in_queued i with
    | None => (a, PassRecover true)
    | Some queued =>
        let queued := N.min queued (written a - played a) in
        let a := set_positions (written a) (written a - queued) a in
        if in_reopen i then (a, PassRecover false)
        else
          let a := feed_tap a in
          let a := if running a && (queued =? 0) && existsb mid_utterance (sources a)
                   then set_running (running a) (clock_base a) true a else a in
          let '(a, queued) := drain a queued in
          let '(a, queued) := read_controls (in_changed i) (in_controls i) a queued in
          let a := loop_fire a in
          let a := loop_heard_by_clock (in_clock i) a in
          let a := publish_room a in
          let frames := frames_to_mix a queued in
          if 0 <? frames then
            let a := note_underrun a in
            let '(a, mix) := mix_sources frames a in
            let a := if running a then a else set_running false (written a) (ran_dry a) a in
            let was_running := running a in
            let a := do_act (ActWrite mix) a in
            let a := if in_write i && negb was_running then do_act ActStart a else a in
            if negb (in_write i && (was_running || in_start i)) then (end_pass a, PassRecover true)
            else
              let a := if tap a then set_tap (tap_pending a ++ mix) (tapped a) a else a in
              let a := set_positions (written a +|64| frames) (played a) a in
              let a := set_running true (clock_base a) (ran_dry a) a in
              (end_pass a, PassWait true)
          else
            let a := if running a && (queued =? 0)
                     then loop_forget_clock (set_running false (clock_base a) (ran_dry a) (do_act ActStop a))
                     else a in
            (end_pass a, PassWait (running a))
    end.

(** ** Recovery and shutdown *)

(** [mixer::FORMAT_CHANGED]. *)
Definition FORMAT_CHANGED : string := "the audio device changed format".

(** [recover::open], of the format the device opened in. *)
Definition open (opened : DeviceFormat) (a : AudioLoop) : AudioLoop :=
  let a := set_tap [] (tapped a) a in
  let a :=
    if (sample_rate opened =? sample_rate (format a)) && (channels opened =? channels (format a)) then a
    else
      let a := if channels (format a) =? 0 then a
               else each_source (end_all (EndFailed FORMAT_CHANGED)) a in
      let a := set_format (format a) (record_generation ((generation a + 1) mod 2 ^ 64)) a in
      each_source (change_channels (channels opened)) a in
  let a := set_format opened (generation a) a in
  do_act (ActFormat (pack_format (generation a) opened) (buffer_frames opened)) a.

(** [recover::recover], of the format the device reopened in. *)
Definition recover (opened : DeviceFormat) (a : AudioLoop) : AudioLoop :=
  let a := do_act ActStop a in
  let a := set_running false (clock_base a) (ran_dry a) a in
  let a := loop_forget_clock a in
  let a := set_positions (played a) (played a) a in
  let a := set_tap [] (tapped a) a in
  let a := each_source (rewind (played a)) a in
  let a := loop_fire a in
  let a := open opened a in
  let a := loop_fire a in
  let log := concat (imap (fun i s => [ActReleased i (released s); ActRoom i]) (sources a)) in
  let a := each_source (fun s => set_released (released s) false s) a in
  end_pass (foldl (fun a x => do_act x a) a log).

(** Whether every event and every retired voice has left. *)
Definition all_left (a : AudioLoop) : bool :=
  forallb (fun s => nothing_retired s && negb (events_pending s)) (sources a).

(** The loop of [recover::shut_down]; the delivery thread takes what the ring
    holds while the audio thread waits on the device. *)
Fixpoint shut_down_loop (fuel : nat) (a : AudioLoop) (delivered : list Outbound) :
    option (AudioLoop * list Outbound) :=
  match fuel with
  | O => None
  | S fuel =>
      let a := end_pass (loop_fire a) in
      if all_left a then Some (a, delivered)
      else shut_down_loop fuel (set_out [] (sent a) a) (delivered ++ out a)
  end.

(** [recover::shut_down]. *)
Definition shut_down (fuel : nat) (a : AudioLoop) : option (AudioLoop * list Outbound) :=
  let a := set_running false (clock_base a) (ran_dry a) (do_act ActStop a) in
  let a := each_source (end_all EndCancelled) a in
  '(a, delivered) ← shut_down_loop fuel a [];
  let a := foldl (fun a i => do_act (ActRoom i) a) a (seq 0 (length (sources a))) in
  Some (do_act ActDelivery a, delivered).

(** [MixerBuilder::start]'s loop, of whether each source takes frames. *)
Definition new_loop (takes : list bool) (ls : list LaneEnd) (with_tap : bool) : AudioLoop :=
  {| sources := new_source <$> takes; lanes := ls; out := [];
     format := {| sample_rate := 0; channels := 0; buffer_frames := 0 |}; generation := 0;
     written := 0; played := 0; running := false; clock_base := 0; ran_dry := false; tap := with_tap;
     tap_pending := []; tapped := 0; underruns := 0; underruns_sent := 0; sent := false; acts := [] |}.

(** ** The producers' side *)

(** [mixer::Refused]. *)
Inductive Refused := RefusedStopped | RefusedFull (record : LaneRecord).

(** [Lane::push]: onto lane [lane], [stopped] being the shutdown flag it reads. *)
Definition lane_push (stopped : bool) (lane : nat) (record : LaneRecord) (a : AudioLoop) :
    AudioLoop + Refused :=
  if stopped then inr RefusedStopped
  else
    match lanes a !! lane with
    | None => inr RefusedStopped
    | Some l =>
        if bool_decide (lane_capacity l <= length (records l))%nat then inr (RefusedFull record)
        else inl (set_lanes (<[lane := {| lane_source := lane_source l; records := records l ++ [record];
                                          lane_capacity := lane_capacity l; samples := samples l |}]>
                               (lanes a)) a)
    end.

(** [Producer::push_entire_slice] onto a lane's samples, as [SpeechLane::append]
    pushes a piece: all of it or none. *)
Definition push_samples (lane : nat) (piece : list f32) (a : AudioLoop) : option AudioLoop :=
  l ← lanes a !! lane;
  ring ← samples l;
  if N.of_nat (length ring + length piece) <=? SAMPLES
  then Some (set_lanes (<[lane := {| lane_source := lane_source l; records := records l;
                                     lane_capacity := lane_capacity l; samples := Some (ring ++ piece) |}]>
                          (lanes a)) a)
  else None.

(** [delivery::run] takes what the ring holds. *)
Definition deliver (a : AudioLoop) : AudioLoop * list Outbound := (set_out [] (sent a) a, out a).
