(* ===== verification/MixerProps.v ===== *)
(** * The audio thread and its sources' books

    Each part of a pass of Mixer.v is a sequence of the operations of Store.v on
    the sources, each made as StoreKept.v asks; so the books, limits and order
    of every source hold over any run of passes, recoveries and deliveries. *)

From S2P Require Import Prelude Facts Speech Store StoreProps StoreKept Mixer.

#[local] Arguments end_ids : simpl never.
#[local] Arguments made_ids : simpl never.
#[local] Arguments tracked_ids : simpl never.

(** ** A source's part of what is sent *)

Definition mine (i : nat) (r : Outbound) : bool :=
  match r with OutEvent j _ | OutFormatChanged j _ _ => bool_decide (j = i) | _ => false end.
Definition mine_of (i : nat) (rs : list Outbound) : list Outbound := List.filter (mine i) rs.

Lemma mine_of_app i a b : mine_of i (a ++ b) = mine_of i a ++ mine_of i b.
Proof. apply List.filter_app. Qed.

(** The records of source [i], with others that are of no utterance. *)
Lemma mine_of_own i rs :
  Forall (from_source i) rs ->
  omap ended_out (mine_of i rs) = omap ended_out rs /\
  forall R E g, reports_fit R E g rs -> reports_fit R E g (mine_of i rs).
Proof.
  unfold mine_of. induction 1 as [|r rs Hr _ [IH1 IH2]]; csimpl; [done|].
  destruct r as [j []|j u tr| | |]; simpl in Hr; subst; csimpl; rewrite ?bool_decide_eq_true_2 //; csimpl;
    rewrite ?IH1; split; try done; intros R E g; csimpl; rewrite ?app_nil_r; naive_solver.
Qed.

Lemma mine_of_other i j rs : i <> j -> Forall (from_source j) rs -> mine_of i rs = [].
Proof.
  intros Hne. unfold mine_of. induction 1 as [|r rs Hr _ IH]; simpl; [done|].
  destruct r; simpl in *; subst; rewrite ?bool_decide_eq_false_2 //.
Qed.

(** ** The ring's limit *)

(** A ring within its limit stays within it. *)
Definition ring_keeps (o o' : list Outbound) : Prop := (length o <= OUTBOUND -> length o' <= OUTBOUND)%nat.

#[local] Opaque OUTBOUND.

#[export] Instance ring_keeps_preorder : PreOrder ring_keeps.
Proof. split; unfold ring_keeps; [intros o|intros o1 o2 o3]; auto. Qed.

Lemma ring_keeps_push r o : ring_keeps o (ring_push r o).
Proof.
  intros Ho. unfold ring_push, ring_full. case_bool_decide; [done|]. rewrite length_app /=. lia.
Qed.

Lemma ring_keeps_fire_events i played es : forall s o snt,
  ring_keeps o (snd (fst (fire_events i played es s o snt))).
Proof.
  induction es as [|p es IH]; intros s o snt; simpl; [done|]. destruct (_ || _); [done|].
  destruct (fire_one i p s) as [s1 r]. etrans; [apply (ring_keeps_push r)|apply IH].
Qed.

Lemma ring_keeps_flush fuel : forall index vs o snt, ring_keeps o (snd (fst (flush_from fuel index vs o snt))).
Proof.
  induction fuel as [|fuel IH]; intros index vs o snt; simpl; [done|].
  destruct (vs !! index) as [v|]; [|done]. destruct (decide _); [apply IH|]. destruct (ring_full o); [done|].
  etrans; [apply ring_keeps_push|apply IH].
Qed.

Lemma ring_keeps_heard fuel i clock : forall index l o snt,
  ring_keeps o (snd (fst (heard_from fuel index i clock l o snt))).
Proof.
  induction fuel as [|fuel IH]; intros index l o snt; simpl; [done|].
  destruct (l !! index) as [[[u tr] mix]|]; [|done]. destruct (_ || _); [apply IH|].
  etrans; [apply ring_keeps_push|apply IH].
Qed.

Lemma ring_keeps_op i op s o : ring_keeps o (snd (source_op i op s o)).
Proof.
  destruct op; simpl; try done.
  - unfold voice. destruct (negb _); [apply ring_keeps_push|done].
  - unfold play_to_end. destruct (negb _); [apply ring_keeps_push|done].
  - destruct (fail_at _ _ _) as [s' [r|]]; [apply ring_keeps_push|done].
  - unfold fire. pose proof (ring_keeps_fire_events i played (events (release_voices played s)) (release_voices played s) o false) as HF.
    by destruct (fire_events _ _ _ _ _ _) as [[s' o'] b].
  - unfold flush_retired. pose proof (ring_keeps_flush (length (voices s)) 0 (voices s) o false) as HF.
    by destruct (flush_from _ _ _ _ _) as [[vs o'] b].
  - unfold heard_by_clock.
    pose proof (ring_keeps_heard (length (awaiting_clock s)) i clock 0 (awaiting_clock s) o false) as HF.
    by destruct (heard_from _ _ _ _ _ _ _) as [[l o'] b].
Qed.

(** ** One source's progress *)

(** Source [i] goes from [s] to [s'], having taken the registrations [regs],
    while [new] was sent by all the sources. *)
Definition source_advance (i : nat) (regs : list Registered) (new : list Outbound) (s s' : SourceState) : Prop :=
  (s_generation s <= s_generation s')%N /\
  forall R E, kept R E s -> NoDup (R ++ regs).*1 ->
    kept (R ++ regs) (E ++ omap ended_out (mine_of i new)) s' /\
    reports_fit (R ++ regs) E (s_generation s') (mine_of i new).

Lemma source_still i new s : mine_of i new = [] -> source_advance i [] new s s.
Proof. intros Hnew. split; [lia|]. intros R E Hk _. rewrite Hnew /= !app_nil_r. done. Qed.

Lemma source_advance_op i op s o s' o' :
  source_op i op s o = (s', o') -> op_proper op s ->
  exists new, o' = o ++ new /\ source_advance i (op_regs op) new s s' /\ Forall (from_source i) new.
Proof.
  intros Hop Hp. pose proof (op_sends i op s o) as HS. rewrite Hop in HS.
  destruct HS as (Hg & new & -> & Hi & _); [by destruct op; try done; apply Hp|].
  exists new. split_and!; [done| |done]. split; [done|]. intros R E Hk Hnd.
  pose proof (kept_op R E i op s o Hk Hp) as HO. rewrite Hop in HO.
  destruct HO as (new' & Heq%app_inv_head & Hk' & Hr).
  - intros u Hu HR. rewrite fmap_app op_regs_ids in Hnd. apply NoDup_app in Hnd as (_ & Hnd & _).
    by apply (Hnd u).
  - subst new'. destruct (mine_of_own i new Hi) as [-> Hmine]. auto.
Qed.

Lemma reports_fit_app R g a b : forall E,
  reports_fit R E g a -> reports_fit R (E ++ omap ended_out a) g b -> reports_fit R E g (a ++ b).
Proof.
  induction a as [|r a IH]; intros E; csimpl; [by rewrite app_nil_r|].
  intros [Hr Ha] Hb. split; [done|]. apply IH; [done|].
  rewrite -app_assoc. by destruct (ended_out r).
Qed.

(** Progress after progress: with the generation as it was, or after nothing was
    reported. *)
Lemma source_advance_same i regs n1 n2 s1 s2 s3 :
  source_advance i regs n1 s1 s2 -> source_advance i [] n2 s2 s3 -> s_generation s3 = s_generation s2 ->
  source_advance i regs (n1 ++ n2) s1 s3.
Proof.
  intros [G1 H1] [G2 H2] Heq. split; [lia|]. intros R E Hk Hnd.
  destruct (H1 R E Hk Hnd) as [Hk1 Hr1]. destruct (H2 _ _ Hk1) as [Hk2 Hr2]; [by rewrite app_nil_r|].
  rewrite mine_of_app omap_app app_assoc. rewrite app_nil_r in Hk2 Hr2. split; [done|].
  apply reports_fit_app; [by rewrite Heq|done].
Qed.

Lemma source_advance_quiet i r1 r2 n1 n2 s1 s2 s3 :
  source_advance i r1 n1 s1 s2 -> source_advance i r2 n2 s2 s3 -> mine_of i n1 = [] ->
  source_advance i (r1 ++ r2) (n1 ++ n2) s1 s3.
Proof.
  intros [G1 H1] [G2 H2] Hq. split; [lia|]. intros R E Hk Hnd. rewrite app_assoc in Hnd |- *.
  destruct (H1 R E Hk) as [Hk1 _].
  { rewrite fmap_app in Hnd. by apply NoDup_app in Hnd as (? & _). }
  rewrite Hq /= app_nil_r in Hk1. destruct (H2 _ _ Hk1 Hnd) as [Hk2 Hr2].
  by rewrite mine_of_app Hq.
Qed.

(** ** The loop's progress *)

Record advance (regs : nat -> list Registered) (new : list Outbound) (a a' : AudioLoop) : Prop := {
  av_out : out a' = out a ++ new;
  av_ring : ring_keeps (out a) (out a');
  av_len : length (sources a') = length (sources a);
  av_source : forall i s, sources a !! i = Some s ->
    exists s', sources a' !! i = Some s' /\ source_advance i (regs i) new s s';
}.

(** Nothing reported of an utterance. *)
Definition quiet_advance (regs : nat -> list Registered) (a a' : AudioLoop) : Prop :=
  exists new, advance regs new a a' /\ forall i, mine_of i new = [].

(** Nothing registered and no generation raised. *)
Definition same_advance (a a' : AudioLoop) : Prop :=
  exists new, advance (fun _ => []) new a a' /\
    forall i s s', sources a !! i = Some s -> sources a' !! i = Some s' -> s_generation s' = s_generation s.

Lemma quiet_advance_trans r1 r2 a b c :
  quiet_advance r1 a b -> quiet_advance r2 b c -> quiet_advance (fun i => r1 i ++ r2 i) a c.
Proof.
  intros (n1 & [O1 K1 L1 S1] & Q1) (n2 & [O2 K2 L2 S2] & Q2). exists (n1 ++ n2). split.
  - split; [by rewrite O2 O1 app_assoc|by etrans|congruence|]. intros i s Hs.
    destruct (S1 i s Hs) as (s1 & Hs1 & A1). destruct (S2 i s1 Hs1) as (s2 & Hs2 & A2).
    exists s2. split; [done|]. by eapply source_advance_quiet.
  - intros i. by rewrite mine_of_app Q1 Q2.
Qed.

Lemma advance_same regs n1 a b c :
  advance regs n1 a b -> same_advance b c -> exists n2, advance regs (n1 ++ n2) a c.
Proof.
  intros [O1 K1 L1 S1] (n2 & [O2 K2 L2 S2] & G). exists n2.
  split; [by rewrite O2 O1 app_assoc|by etrans|congruence|]. intros i s Hs.
  destruct (S1 i s Hs) as (s1 & Hs1 & A1). destruct (S2 i s1 Hs1) as (s2 & Hs2 & A2).
  exists s2. split; [done|]. eapply source_advance_same; [done..|]. by eapply G.
Qed.

#[export] Instance same_advance_preorder : PreOrder same_advance.
Proof.
  split.
  - intros a. exists []. split.
    + split; [by rewrite app_nil_r|done|done|]. intros i s Hs. exists s. split; [done|]. by apply source_still.
    + intros i s s' H1 H2. congruence.
  - intros a b c (n1 & A1 & G1) (n2 & A2 & G2).
    destruct (advance_same _ _ _ _ _ A1 (ex_intro _ n2 (conj A2 G2))) as (n & A). exists (n1 ++ n). split; [done|].
    intros i s s2 Hs Hs2. destruct (av_source _ _ _ _ A1 i s Hs) as (s1 & Hs1 & _).
    rewrite (G2 i s1 s2 Hs1 Hs2). by eapply G1.
Qed.

(** Neither, and nothing sent. *)
Definition still_advance (a a' : AudioLoop) : Prop :=
  advance (fun _ => []) [] a a' /\
  forall i s s', sources a !! i = Some s -> sources a' !! i = Some s' -> s_generation s' = s_generation s.

Lemma still_same a a' : still_advance a a' -> same_advance a a'.
Proof. intros [HA HG]. by exists []. Qed.

Lemma still_quiet a a' : still_advance a a' -> quiet_advance (fun _ => []) a a'.
Proof. intros [HA HG]. by exists []. Qed.

#[export] Instance still_advance_preorder : PreOrder still_advance.
Proof.
  split.
  - intros a. split; [|intros; congruence]. split; [by rewrite app_nil_r|done|done|].
    intros i s Hs. exists s. split; [done|]. by apply source_still.
  - intros a b c [[O1 K1 L1 S1] G1] [[O2 K2 L2 S2] G2]. split.
    + split; [by rewrite O2 O1 !app_nil_r|by etrans|congruence|]. intros i s Hs.
      destruct (S1 i s Hs) as (s1 & Hs1 & A1). destruct (S2 i s1 Hs1) as (s2 & Hs2 & A2).
      exists s2. split; [done|]. by apply (source_advance_quiet i [] [] [] [] s s1 s2).
    + intros i s s2 Hs Hs2. destruct (S1 i s Hs) as (s1 & Hs1 & _).
      rewrite (G2 i s1 s2 Hs1 Hs2). by eapply G1.
Qed.

(** What a part that leaves the sources and the ring alone does. *)
Lemma still_idle a a' : sources a' = sources a -> out a' = out a -> still_advance a a'.
Proof.
  intros Hs Ho. split.
  - split; [by rewrite Ho app_nil_r|by rewrite Ho|by rewrite Hs|]. intros i s His. exists s. rewrite Hs.
    split; [done|]. by apply source_still.
  - intros i s s' H1 H2. rewrite Hs in H2. congruence.
Qed.

(** An operation on every source that sends nothing. *)
Lemma still_each f a :
  (forall i s o, exists op, source_op i op s o = (f s, o) /\ op_proper op s /\ op_regs op = []) ->
  (forall s, s_generation (f s) = s_generation s) ->
  still_advance a (each_source f a).
Proof.
  intros Hf Hg. split.
  - split; [by rewrite app_nil_r|done|by rewrite length_fmap|]. intros i s Hs. exists (f s).
    split; [by rewrite /= list_lookup_fmap Hs|].
    destruct (Hf i s []) as (op & Hop & Hp & Hr).
    destruct (source_advance_op _ _ _ _ _ _ Hop Hp) as (new & Heq & HA & _). simpl in Heq. subst new.
    by rewrite Hr in HA.
  - intros i s s' Hs. rewrite /= list_lookup_fmap Hs. intros [= <-]. done.
Qed.

Lemma still_forget a : still_advance a (loop_forget_clock a).
Proof. apply still_each; [|done]. intros i s o. by exists OpForget. Qed.

Lemma rewind_generation played s : s_generation (rewind played s) = s_generation s.
Proof. unfold rewind. by destruct (rewind_segments _ _ _). Qed.

Lemma still_rewind played a : still_advance a (each_source (rewind played) a).
Proof. apply still_each; [|apply rewind_generation]. intros i s o. by exists (OpRewind played). Qed.

Lemma still_discard a : still_advance a (discard a).
Proof.
  unfold discard. etrans; [|apply still_rewind].
  destruct (running a); [|by apply still_idle].
  trans (loop_forget_clock (set_running false (clock_base a) (ran_dry a) (do_act ActStop a)));
    [|by apply still_idle].
  etrans; [|apply still_forget]. by apply still_idle.
Qed.

(** ** Taking records *)

(** One source's operation. *)
Definition at_source (i : nat) (regs : list Registered) (j : nat) : list Registered :=
  if decide (j = i) then regs else [].

Lemma advance_op i op s s' o' a a' :
  sources a !! i = Some s -> source_op i op s (out a) = (s', o') -> op_proper op s ->
  sources a' = <[i:=s']> (sources a) -> out a' = o' ->
  exists new, advance (at_source i (op_regs op)) new a a' /\ Forall (from_source i) new.
Proof.
  intros Hs Hop Hp Hss Ho. destruct (source_advance_op _ _ _ _ _ _ Hop Hp) as (new & -> & HA & Hi).
  exists new. split; [|done]. split; [done| |by rewrite Hss length_insert|].
  { pose proof (ring_keeps_op i op s (out a)) as HK. by rewrite Hop -Ho in HK. }
  intros j sj Hj. unfold at_source.
  rewrite Hss. destruct (decide (j = i)) as [->|Hne].
  - exists s'. rewrite list_lookup_insert_eq; [|by eapply lookup_lt_Some]. split; [done|]. congruence.
  - exists sj. rewrite list_lookup_insert_ne //. split; [done|]. apply source_still. by eapply mine_of_other.
Qed.

(** The operations of the lanes' records report nothing. *)
Definition of_record (op : SourceOp) : bool :=
  match op with
  | OpRegister _ _ _ | OpFrames _ _ _ _ | OpMark _ _ | OpVoice _ _ _ | OpPlayToEnd _ _ _ _
  | OpFinish _ | OpFail _ _ => true
  | _ => false
  end.

Lemma record_op_quiet i op s o :
  of_record op = true ->
  exists new, snd (source_op i op s o) = o ++ new /\ forall j, mine_of j new = [].
Proof.
  intros Hop.
  assert (exists new, o = o ++ new /\ forall j, mine_of j new = []) as Hnone.
  { exists []. by rewrite app_nil_r. }
  assert (forall r, (forall j, mine j r = false) ->
    exists new, ring_push r o = o ++ new /\ forall j, mine_of j new = []) as Hpush.
  { intros r Hr. destruct (ring_push_new r o) as (new & -> & [->| ->]); eexists; (split; [done|]); [done|].
    intros j. unfold mine_of. simpl. by rewrite Hr. }
  destruct op; simpl in *; try done.
  - unfold voice. by destruct (negb _); [apply Hpush|].
  - unfold play_to_end. by destruct (negb _); [apply Hpush|].
  - destruct (fail_at _ _ _) as [s' [r|]]; [by apply Hpush|done].
Qed.

Lemma quiet_op i op s s' o' a a' :
  of_record op = true -> sources a !! i = Some s -> source_op i op s (out a) = (s', o') ->
  op_proper op s -> sources a' = <[i:=s']> (sources a) -> out a' = o' ->
  quiet_advance (at_source i (op_regs op)) a a'.
Proof.
  intros Hrec Hs Hop Hp Hss Ho. destruct (advance_op _ _ _ _ _ _ _ Hs Hop Hp Hss Ho) as (new & HA & Hi).
  exists new. split; [done|]. destruct (record_op_quiet i op s (out a) Hrec) as (new' & Heq & Hq).
  rewrite Hop /= -Ho (av_out _ _ _ _ HA) in Heq. apply app_inv_head in Heq as <-. done.
Qed.

(** What a record registers. *)
Definition record_regs (r : LaneRecord) : list Registered :=
  match r with
  | RecRegister u _ g => [(u, Some g)]
  | RecPlayToEnd u _ _ => [(u, None)]
  | _ => []
  end.

(** What the lanes of source [i] still hold. *)
Definition lane_regs (i : nat) (ls : list LaneEnd) : list Registered :=
  concat ((fun l => if decide (lane_source l = i) then concat (record_regs <$> records l) else []) <$> ls).

(** The lanes but for their samples. *)
Definition lane_shape (ls : list LaneEnd) : list (nat * list LaneRecord * nat) :=
  (fun l => (lane_source l, records l, lane_capacity l)) <$> ls.

Lemma lane_regs_shape i ls ls' : lane_shape ls = lane_shape ls' -> lane_regs i ls = lane_regs i ls'.
Proof.
  unfold lane_shape, lane_regs. revert ls'. induction ls as [|l ls IH]; intros [|l' ls']; csimpl; try done.
  intros [= -> -> _ Heq]. by rewrite (IH _ Heq).
Qed.

Lemma admits_frames_less m n s : (n <= m)%N -> admits_frames m s = true -> admits_frames n s = true.
Proof.
  intros Hle. unfold admits_frames. rewrite !andb_true_iff. intros [Hr ?]. split; [|done].
  apply N.leb_le in Hr. apply N.leb_le. unfold saturating_add in *. lia.
Qed.

Lemma read_chunk_spec lane count a chunk a' :
  read_chunk lane count a = Some (chunk, a') ->
  N.of_nat (length chunk) = count /\ sources a' = sources a /\ out a' = out a /\ generation a' = generation a /\
  lane_shape (lanes a') = lane_shape (lanes a).
Proof.
  unfold read_chunk. destruct (lanes a !! lane) as [l|] eqn:Hl; [|done]. simpl.
  destruct (Mixer.samples l) as [ring|]; [|done]. simpl. destruct (_ <=? _)%N eqn:Hc; [|done].
  intros [= <- <-]. apply N.leb_le in Hc. split_and!; [rewrite length_take; lia|done..|].
  unfold lane_shape. simpl. rewrite list_fmap_insert. apply list_insert_id. by rewrite list_lookup_fmap Hl.
Qed.

Lemma quiet_advance_regs r r' a a' :
  (forall i, i < length (sources a) -> r i = r' i)%nat -> quiet_advance r a a' -> quiet_advance r' a a'.
Proof.
  intros Hr (n & [O K L S] & Q). exists n. split; [|done]. split; [done..|]. intros i s Hs.
  rewrite -Hr; [by apply S|by eapply lookup_lt_Some].
Qed.

Lemma quiet_trans_l r a b c : quiet_advance (fun _ => []) a b -> quiet_advance r b c -> quiet_advance r a c.
Proof. intros H1 H2. by apply (quiet_advance_regs (fun i => [] ++ r i)); [|eapply quiet_advance_trans]. Qed.

Lemma quiet_none source regs a a' :
  sources a !! source = None -> still_advance a a' -> quiet_advance (at_source source regs) a a'.
Proof.
  intros Hs%lookup_ge_None HA. eapply (quiet_advance_regs (fun _ => [])); [|by apply still_quiet].
  intros i Hi. unfold at_source. case_decide; [lia|done].
Qed.

Lemma discard_events a i s' :
  sources (discard a) !! i = Some s' -> exists s, sources a !! i = Some s /\ events s' = events s.
Proof.
  unfold discard, each_source. simpl. rewrite list_lookup_fmap. destruct (running a); simpl;
    rewrite ?list_lookup_fmap; destruct (sources a !! i) as [s|]; simpl; try done; intros [= <-];
    exists s; unfold rewind; by destruct (rewind_segments _ _ _).
Qed.

Lemma discard_lanes a : lanes (discard a) = lanes a.
Proof. unfold discard. by destruct (running a). Qed.

(** The operation a record asks for, but for a failure. *)
Lemma quiet_apply lane source record a q :
  admits source record a = true ->
  let '(a', _) := apply_record lane source record a q in
  quiet_advance (at_source source (record_regs record)) a a' /\
  lane_shape (lanes a') = lane_shape (lanes a).
Proof.
  unfold admits, apply_record. destruct (sources a !! source) as [s|] eqn:Hs; intros Had.
  2: { destruct record; try (by split; [apply quiet_none|]).
       destruct (read_chunk lane samples a) as [[chunk a']|] eqn:Hc; [|by split; [apply quiet_none|]].
       apply read_chunk_spec in Hc as (_ & ? & ? & _ & ?). split; [|done]. apply quiet_none; [done|].
       by apply still_idle. }
  destruct record.
  - split; [|done]. eapply (quiet_op source (OpRegister utterance trace generation)); [done|done|done|by split|done|done].
  - destruct (read_chunk lane samples a) as [[chunk a1]|] eqn:Hc.
    + apply read_chunk_spec in Hc as (Hlen & Hs1 & Ho1 & _ & ?). split; [|done].
      eapply (quiet_op source (OpFrames utterance frames chunk (format =? generation a)%N)); simpl;
        [done|done|done| |by rewrite Hs1|by rewrite Ho1]. split; [|done]. simpl. by rewrite Hlen.
    + split; [|done]. eapply (quiet_op source (OpFrames utterance frames [] false)); simpl; [done|done|done| |done|done].
      split; [|done]. simpl. eapply admits_frames_less; [|done]. simpl. lia.
  - split; [|done]. eapply (quiet_op source (OpMark utterance mark)); [done|done|done|by split|done|done].
  - destruct (voice _ _ _ _ _) as [s' o'] eqn:Hv. split; [|done].
    eapply (quiet_op source (OpVoice (Some utterance) v (nv_format v =? generation a)%N)); simpl;
      [done|done|done|split; [by apply andb_true_iff in Had as [_ ?]|done]|done|done].
  - destruct (voice _ _ _ _ _) as [s' o'] eqn:Hv. split; [|done].
    eapply (quiet_op source (OpVoice None v (nv_format v =? generation a)%N)); simpl;
      [done|done|done|split; [by apply andb_true_iff in Had as [_ ?]|done]|done|done].
  - destruct (play_to_end _ _ _ _ _ _) as [s' o'] eqn:Hv. split; [|done].
    eapply (quiet_op source (OpPlayToEnd utterance trace v (nv_format v =? generation a)%N)); simpl;
      [done|done|done| |done|done]. split; [|done]. simpl. apply andb_true_iff in Had as [[_ ->]%andb_true_iff ->]. done.
  - split; [|done]. eapply (quiet_op source (OpFinish utterance)); [done|done|done|by split|done|done].
  - destruct (sources (discard a) !! source) as [s2|] eqn:Hs2.
    2: { apply lookup_ge_None in Hs2. apply lookup_lt_Some in Hs.
         rewrite (av_len _ _ _ _ (proj1 (still_discard a))) in Hs2. lia. }
    destruct (discard_events _ _ _ Hs2) as (s0 & Hs0 & Hev). assert (s0 = s) as -> by congruence.
    destruct (fail_at utterance reason s2) as [s3 back] eqn:Hf.
    split; [|by destruct back; rewrite /= discard_lanes].
    eapply quiet_trans_l; [apply still_quiet, still_discard|].
    eapply (quiet_op source (OpFail utterance reason)); simpl; [done|done|by rewrite Hf| |by destruct back|by destruct back].
    split; [|done]. simpl. apply andb_true_iff in Had as [_ Had]. unfold admits_event in *. by rewrite Hev.
Qed.

(** Records taken from the lanes, each registration by its source. *)
Definition drains (a a' : AudioLoop) : Prop :=
  exists r, quiet_advance r a a' /\ forall i, lane_regs i (lanes a) ≡ₚ r i ++ lane_regs i (lanes a').

#[export] Instance drains_preorder : PreOrder drains.
Proof.
  split.
  - intros a. exists (fun _ => []). split; [|done]. by apply still_quiet.
  - intros a b c (r1 & Q1 & L1) (r2 & Q2 & L2). exists (fun i => r1 i ++ r2 i).
    split; [by eapply quiet_advance_trans|]. intros i. by rewrite L1 L2 app_assoc.
Qed.

Lemma drains_still a a' : still_advance a a' -> lanes a' = lanes a -> drains a a'.
Proof. intros HA HL. exists (fun _ => []). split; [by apply still_quiet|]. intros i. by rewrite HL. Qed.

(** A record taken off its lane. *)
Lemma pop_record_spec lane a l r :
  lanes a !! lane = Some l -> head (records l) = Some r ->
  (forall i, lane_regs i (lanes a) ≡ₚ
     at_source (lane_source l) (record_regs r) i ++ lane_regs i (lanes (pop_record lane a))) /\
  (lane_source <$> lanes (pop_record lane a) !! lane) = Some (lane_source l).
Proof.
  intros Hl Hr. destruct (records l) as [|r' rs] eqn:Hrec; [done|]. simpl in Hr. injection Hr as ->.
  unfold pop_record. rewrite Hl. simpl. split.
  - intros i. rewrite -{1}(take_drop_middle _ _ _ Hl). unfold lane_regs.
    assert (lane < length (lanes a))%nat as Hlt by (by eapply lookup_lt_Some).
    rewrite insert_take_drop; [|done]. rewrite !fmap_app !fmap_cons !concat_app /=.
    unfold at_source. rewrite Hrec /=. destruct (decide (lane_source l = i)) as [<-|Hne].
    + rewrite decide_True //. solve_Permutation.
    + by rewrite decide_False.
  - rewrite list_lookup_insert_eq //. by eapply lookup_lt_Some.
Qed.

Lemma shape_source ls ls' lane :
  lane_shape ls = lane_shape ls' -> (lane_source <$> ls !! lane) = (lane_source <$> ls' !! lane).
Proof.
  intros Hs. assert (lane_shape ls !! lane = lane_shape ls' !! lane) as Heq by (by rewrite Hs).
  unfold lane_shape in Heq. rewrite !list_lookup_fmap in Heq.
  destruct (ls !! lane), (ls' !! lane); simpl in *; try done. by injection Heq as -> _ _.
Qed.

Lemma drains_lane lane source fuel : forall a q took,
  (lane_source <$> lanes a !! lane) = Some source ->
  drains a (fst (fst (drain_lane fuel lane source a q took))).
Proof.
  induction fuel as [|fuel IH]; intros a q took Hl; simpl; [done|].
  destruct (lanes a !! lane) as [l|] eqn:Hlane; [|done]. simpl in *. injection Hl as <-.
  destruct (head (records l)) as [r|] eqn:Hr; [|done].
  destruct (admits (lane_source l) r a) eqn:Had; [|done].
  destruct (pop_record_spec _ _ _ _ Hlane Hr) as [Hperm Hsrc].
  assert (sources (pop_record lane a) = sources a /\ out (pop_record lane a) = out a) as [Hs Ho].
  { unfold pop_record. by rewrite Hlane. }
  assert (admits (lane_source l) r (pop_record lane a) = true) as Had'.
  { unfold admits in *. by rewrite Hs Ho. }
  pose proof (quiet_apply lane (lane_source l) r (pop_record lane a) q Had') as HQ.
  destruct (apply_record _ _ _ _ _) as [a1 q1]. destruct HQ as [HQ Hshape].
  etrans; [|apply IH; by rewrite (shape_source _ _ lane Hshape)].
  exists (at_source (lane_source l) (record_regs r)). split.
  - eapply quiet_trans_l; [|exact HQ]. apply still_quiet, still_idle; done.
  - intros i. by rewrite (lane_regs_shape i _ _ Hshape).
Qed.

Lemma drains_one lane a q : drains a (fst (drain_one lane a q)).
Proof.
  unfold drain_one. destruct (lanes a !! lane) as [l|] eqn:Hl; [|done].
  pose proof (drains_lane lane (lane_source l) (length (records l)) a q 0 ltac:(by rewrite Hl)) as HD.
  destruct (drain_lane _ _ _ _ _ _) as [[a1 q1] took]. simpl in *.
  etrans; [exact HD|]. destruct (_ && _); [|done]. by apply drains_still; [apply still_idle|].
Qed.

Lemma drains_drain a q : drains a (fst (drain a q)).
Proof.
  unfold drain. generalize (seq 0 (length (lanes a))). intros ls. revert a q.
  induction ls as [|lane ls IH]; intros a q; simpl; [done|].
  pose proof (drains_one lane a q) as HD. destruct (drain_one lane a q) as [a1 q1]. etrans; [exact HD|apply IH].
Qed.

(** ** Reading the controls and firing *)

Lemma source_read_control i c s : source_advance i [] [] s (read_control c s).
Proof.
  unfold read_control.
  assert (source_advance i [] [] s (if (s_generation s <? cancel_generation c)%N
    then set_generation (cancel_generation c) (cancel_older (cancel_generation c) s) else s)) as H1.
  { destruct (_ <? _)%N eqn:Hg; [|by apply source_still]. apply N.ltb_lt in Hg.
    destruct (source_advance_op i (OpCancel (cancel_generation c)) s [] _ _ eq_refl) as (new & Heq & HA & _).
    - split; [done|lia].
    - simpl in Heq. by subst. }
  set (s1 := if (_ <? _)%N then _ else s) in *. clearbody s1. case_bool_decide; [|done].
  destruct (source_advance_op i (OpPause (paused c)) s1 [] _ _ eq_refl) as (new & Heq & HA & _); [done|].
  simpl in Heq. subst new. by apply (source_advance_quiet i [] [] [] [] s s1).
Qed.

Lemma lookup_zip_controls f cs : forall ss i s,
  ss !! i = Some s ->
  zip_controls f cs ss !! i = Some (match cs !! i with Some c => f c s | None => s end).
Proof.
  induction cs as [|c cs IH]; intros ss i s Hs; simpl; [by destruct ss|].
  destruct ss as [|s0 ss]; [done|]. destruct i; simpl in *; [congruence|]. by apply IH.
Qed.

Lemma length_zip_controls f cs : forall ss, length (zip_controls f cs ss) = length ss.
Proof. induction cs as [|c cs IH]; intros [|s ss]; simpl; try done. by rewrite IH. Qed.

Lemma quiet_read_controls first second a q :
  quiet_advance (fun _ => []) a (fst (read_controls first second a q)) /\
  lanes (fst (read_controls first second a q)) = lanes a.
Proof.
  unfold read_controls. destruct (negb _); [split; [by apply still_quiet|done]|].
  split; [|by rewrite /= discard_lanes]. eapply quiet_trans_l; [apply still_quiet, still_discard|].
  exists []. split; [|done]. split; [by rewrite app_nil_r|done|by rewrite /= length_zip_controls|].
  intros i s Hs. eexists. split; [by apply lookup_zip_controls|]. simpl.
  destruct (second !! i) as [c|]; [apply source_read_control|by apply source_still].
Qed.

(** One source's operations that register nothing and leave its generation. *)
Definition same_source (i : nat) (s : SourceState) (o : list Outbound) (s' : SourceState) (o' : list Outbound) : Prop :=
  exists new, o' = o ++ new /\ source_advance i [] new s s' /\ Forall (from_source i) new /\
    s_generation s' = s_generation s /\ ring_keeps o o'.

Lemma same_source_op i op s o s' o' :
  source_op i op s o = (s', o') -> op_proper op s -> op_regs op = [] -> s_generation s' = s_generation s ->
  same_source i s o s' o'.
Proof.
  intros Hop Hp Hr Hg. destruct (source_advance_op _ _ _ _ _ _ Hop Hp) as (new & -> & HA & Hi).
  pose proof (ring_keeps_op i op s o) as HK. rewrite Hop in HK. rewrite Hr in HA. by exists new.
Qed.

Lemma same_source_trans i s1 o1 s2 o2 s3 o3 :
  same_source i s1 o1 s2 o2 -> same_source i s2 o2 s3 o3 -> same_source i s1 o1 s3 o3.
Proof.
  intros (n1 & -> & A1 & I1 & G1 & K1) (n2 & -> & A2 & I2 & G2 & K2). exists (n1 ++ n2).
  rewrite app_assoc. split_and!; [done|by eapply source_advance_same|by apply Forall_app|congruence|by etrans].
Qed.

Lemma same_source_fire i played s o :
  let '(s1, o1, _) := fire i played s o in
  let '(s2, o2, _) := flush_retired s1 o1 in same_source i s o s2 o2.
Proof.
  pose proof (fire_sends i played s o) as HF. destruct (fire i played s o) as [[s1 o1] b1] eqn:Hf.
  destruct HF as [Hg _]. destruct (flush_retired s1 o1) as [[s2 o2] b2] eqn:Hfl.
  apply (same_source_trans i s o s1 o1).
  - apply (same_source_op i (OpFire played)); [by rewrite /= Hf|done|done|done].
  - apply (same_source_op i OpFlush); [by rewrite /= Hfl|done|done|].
    unfold flush_retired in Hfl. destruct (flush_from _ _ _ _ _) as [[vs o'] b]. by injection Hfl as <- _ _.
Qed.

Lemma same_source_clock i clock s o :
  let '(s1, o1, _) := heard_by_clock i clock s o in same_source i s o s1 o1.
Proof.
  destruct (heard_by_clock i clock s o) as [[s1 o1] b] eqn:Hc.
  apply (same_source_op i (OpClock clock)); [by rewrite /= Hc|done|done|].
  unfold heard_by_clock in Hc. destruct (heard_from _ _ _ _ _ _ _) as [[l o'] b']. by injection Hc as <- _ _.
Qed.

(** The sources from index [k] on, in turn. *)
Definition same_sources (k : nat) (ss : list SourceState) (o : list Outbound) (ss' : list SourceState)
    (o' : list Outbound) : Prop :=
  exists new, o' = o ++ new /\ ring_keeps o o' /\ length ss' = length ss /\ (forall i, i < k -> mine_of i new = [])%nat /\
    forall j s, ss !! j = Some s -> exists s', ss' !! j = Some s' /\
      source_advance (k + j) [] new s s' /\ s_generation s' = s_generation s.

Lemma same_sources_nil k o : same_sources k [] o [] o.
Proof. exists []. by rewrite app_nil_r. Qed.

Lemma same_sources_cons k s ss o s' o1 ss' o2 :
  same_source k s o s' o1 -> same_sources (S k) ss o1 ss' o2 -> same_sources k (s :: ss) o (s' :: ss') o2.
Proof.
  intros (n1 & -> & A1 & I1 & G1 & K1) (n2 & -> & K2 & L2 & M2 & S2). exists (n1 ++ n2).
  rewrite app_assoc /= L2. split_and!; [done|by etrans|done| |].
  - intros i Hi. rewrite mine_of_app (mine_of_other i k) //; [|lia]. apply M2. lia.
  - intros [|j] x Hx; simpl in Hx.
    + injection Hx as <-. exists s'. split_and!; [done| |done]. rewrite Nat.add_0_r.
      eapply source_advance_same; [done| |done]. apply source_still, M2. lia.
    + destruct (S2 j x Hx) as (x' & Hx' & A2 & G2). exists x'. split_and!; [done| |done].
      replace (k + S j)%nat with (S k + j)%nat by lia.
      apply (source_advance_quiet _ [] [] _ _ x x); [|done|]; [apply source_still|];
        apply (mine_of_other _ k); (lia || done).
Qed.

Lemma same_sources_advance ss' o' a a' :
  same_sources 0 (sources a) (out a) ss' o' -> sources a' = ss' -> out a' = o' -> same_advance a a'.
Proof.
  intros (new & -> & K & L & _ & S) Hs Ho. exists new. split.
  - split; [done|by rewrite Ho|by rewrite Hs|]. intros i s Hi. rewrite Hs.
    destruct (S i s Hi) as (s' & ? & ? & _). eauto.
  - intros i s s' Hi Hi'. rewrite Hs in Hi'. destruct (S i s Hi) as (s0 & Hs0 & _ & Hg). congruence.
Qed.

Lemma same_fire_sources played ss : forall k o snt,
  let '(ss', o', _) := fire_sources k played ss o snt in same_sources k ss o ss' o'.
Proof.
  induction ss as [|s ss IH]; intros k o snt; simpl; [apply same_sources_nil|].
  pose proof (same_source_fire k played s o) as H1.
  destruct (fire k played s o) as [[s1 o1] b1], (flush_retired s1 o1) as [[s2 o2] b2].
  specialize (IH (S k) o2 (snt || (b1 || b2))).
  destruct (fire_sources _ _ ss _ _) as [[ss' o'] b]. by eapply same_sources_cons.
Qed.

Lemma same_fire a : same_advance a (loop_fire a).
Proof.
  unfold loop_fire. pose proof (same_fire_sources (played a) (sources a) 0 (out a) (sent a)) as HS.
  destruct (fire_sources _ _ _ _ _) as [[ss o] b]. by eapply same_sources_advance.
Qed.

Lemma same_clock_sources clock ss : forall k o snt,
  let '(ss', o', _) := clock_sources k clock ss o snt in same_sources k ss o ss' o'.
Proof.
  induction ss as [|s ss IH]; intros k o snt; simpl; [apply same_sources_nil|].
  pose proof (same_source_clock k clock s o) as H1.
  destruct (heard_by_clock k clock s o) as [[s1 o1] b1]. specialize (IH (S k) o1 (snt || b1)).
  destruct (clock_sources _ _ ss _ _) as [[ss' o'] b]. by eapply same_sources_cons.
Qed.

Lemma same_clock reading a : same_advance a (loop_heard_by_clock reading a).
Proof.
  unfold loop_heard_by_clock. destruct (_ || _); [done|]. destruct reading as [n|]; [|done].
  pose proof (same_clock_sources (clock_base a +|64| n)%N (sources a) 0 (out a) (sent a)) as HS.
  destruct (clock_sources _ _ _ _ _) as [[ss o] b]. by eapply same_sources_advance.
Qed.

(** ** The rest of a pass *)

Lemma same_source_still i s o : same_source i s o s o.
Proof. exists []. rewrite app_nil_r. split_and!; [done|by apply source_still|done..]. Qed.

Lemma same_publish_sources capacity ss o : forall k,
  same_sources k ss o (fst (publish_sources k capacity ss)) o.
Proof.
  induction ss as [|s ss IH]; intros k; simpl; [apply same_sources_nil|]. specialize (IH (S k)).
  destruct (publish_sources _ _ ss) as [ss' log]. simpl in *.
  destruct (negb _); simpl; (eapply same_sources_cons; [|exact IH]); [apply same_source_still|].
  by apply (same_source_op k OpPublish).
Qed.

Lemma do_acts_idle log : forall a,
  let a' := foldl (fun a x => do_act x a) a log in
  sources a' = sources a /\ out a' = out a /\ lanes a' = lanes a.
Proof. induction log as [|x log IH]; intros a; simpl; [done|]. by destruct (IH (do_act x a)) as (-> & -> & ->). Qed.

Lemma same_publish a : same_advance a (publish_room a) /\ lanes (publish_room a) = lanes a.
Proof.
  unfold publish_room.
  pose proof (same_publish_sources (source_capacity (format a)) (sources a) (out a) 0) as HS.
  destruct (publish_sources _ _ _) as [ss log]. simpl in HS.
  destruct (do_acts_idle log (set_sources ss a)) as (Hs & Ho & Hl). simpl in *.
  split; [|done]. by eapply same_sources_advance.
Qed.

Lemma same_note a : same_advance a (note_underrun a) /\ lanes (note_underrun a) = lanes a.
Proof.
  unfold note_underrun. set (a1 := if ran_dry a && _ then _ else a).
  assert (sources a1 = sources a /\ out a1 = out a /\ lanes a1 = lanes a) as (Hs & Ho & Hl).
  { subst a1. by destruct (_ && _). }
  clearbody a1. destruct (_ && negb (ring_full _)) eqn:Hc; simpl.
  - split; [|done]. apply andb_true_iff in Hc as [_ Hc%negb_true_iff]. exists [OutUnderrun (underruns a1)]. split.
    + split; simpl; [by rewrite ring_push_room // Ho|rewrite -Ho; apply ring_keeps_push|by rewrite Hs|]. intros i s Hi. exists s. rewrite Hs.
      split; [done|]. by apply source_still.
    + simpl. intros i s s' H1 H2. rewrite Hs in H2. congruence.
  - split; [|done]. by apply still_same, still_idle.
Qed.

Lemma same_mix_each n w ss o : forall k mix, same_sources k ss o (fst (mix_each n w ss mix)) o.
Proof.
  induction ss as [|s ss IH]; intros k mix; simpl; [apply same_sources_nil|].
  destruct (mix_into n w s mix) as [s1 mix1] eqn:Hm. specialize (IH (S k) mix1).
  destruct (mix_each n w ss mix1) as [ss' mix']. simpl in *. eapply same_sources_cons; [|exact IH].
  apply (same_source_op k (OpMix n w mix)); [by rewrite /= Hm|done|done|].
  unfold mix_into in Hm. destruct (_ =? 0)%N; [by injection Hm as <- _|].
  by destruct (N.min _ n =? 0)%N; injection Hm as <- _.
Qed.

Lemma same_mix n a : same_advance a (fst (mix_sources n a)) /\ lanes (fst (mix_sources n a)) = lanes a.
Proof.
  unfold mix_sources.
  pose proof (same_mix_each n (written a) (sources a) (out a) 0
    (repeat f32_zero (N.to_nat (N.min U64_MAX (n * channels (format a)))))) as HS.
  destruct (mix_each _ _ _ _) as [ss mix]. split; [|done]. by eapply same_sources_advance.
Qed.

Lemma same_end_pass a : same_advance a (end_pass a) /\ lanes (end_pass a) = lanes a.
Proof. unfold end_pass. destruct (sent a); [|done]. split; [|done]. by apply still_same, still_idle. Qed.

Lemma loop_fire_lanes a : lanes (loop_fire a) = lanes a.
Proof. unfold loop_fire. by destruct (fire_sources _ _ _ _ _) as [[ss o] b]. Qed.

Lemma loop_clock_lanes reading a : lanes (loop_heard_by_clock reading a) = lanes a.
Proof.
  unfold loop_heard_by_clock. destruct (_ || _); [done|]. destruct reading; [|done].
  by destruct (clock_sources _ _ _ _ _) as [[ss o] b].
Qed.

Lemma still_end_all ending a : ending <> EndCompleted -> still_advance a (each_source (end_all ending) a).
Proof.
  intros He. apply still_each.
  - intros i s o. by exists (OpEndAll ending).
  - intros s. unfold end_all. rewrite end_now_many /=. unfold truncate. by destruct (_ <? _)%N.
Qed.

Lemma still_open f a : still_advance a (open f a) /\ lanes (open f a) = lanes a.
Proof.
  unfold open. set (a0 := set_tap [] (tapped a) a). set (same := _ && _).
  set (a1 := if same then a0 else _).
  assert (still_advance a a1 /\ lanes a1 = lanes a) as [H1 HL].
  { subst a1. destruct same; [split; [by apply still_idle|done]|].
    set (a2 := if (_ =? 0)%N then a0 else _).
    assert (still_advance a a2 /\ lanes a2 = lanes a) as [H2 HL2].
    { subst a2. destruct (_ =? 0)%N; [split; [by apply still_idle|done]|]. split; [|done].
      trans a0; [by apply still_idle|]. by apply still_end_all. }
    split; [|done]. trans a2; [done|].
    trans (set_format (format a2) (record_generation ((generation a2 + 1) mod 2 ^ 64)) a2); [by apply still_idle|].
    apply still_each; [|done]. intros i s o. by exists (OpChannels (channels f)). }
  split; [|done]. trans a1; [done|]. by apply still_idle.
Qed.

Lemma same_recover f a : same_advance a (recover f a) /\ lanes (recover f a) = lanes a.
Proof.
  unfold recover.
  set (a1 := set_running false _ _ (do_act ActStop a)). set (a2 := loop_forget_clock a1).
  set (a3 := set_tap [] _ (set_positions (played a2) (played a2) a2)).
  set (a4 := each_source (rewind (played a3)) a3).
  set (a5 := open f (loop_fire a4)). set (a6 := loop_fire a5).
  set (a7 := each_source _ a6).
  set (a8 := foldl _ a7 _). destruct (same_end_pass a8) as [H9 L9].
  destruct (do_acts_idle (concat (imap (fun i s => [ActReleased i (released s); ActRoom i]) (sources a6))) a7)
    as (S8 & O8 & L8). change (sources a8 = sources a7) in S8. change (out a8 = out a7) in O8.
  change (lanes a8 = lanes a7) in L8.
  destruct (still_open f (loop_fire a4)) as [H5 L5]. split.
  - trans a8; [|done]. trans a7; [|by apply still_same, still_idle].
    trans a6. 2: { apply still_same, still_each; [|done]. intros i s o. by exists OpPublish. }
    trans a5; [|apply same_fire]. trans (loop_fire a4); [|by apply still_same].
    trans a4; [|apply same_fire]. apply still_same. trans a3; [|apply still_rewind].
    trans a2; [|by apply still_idle]. trans a1; [by apply still_idle|apply still_forget].
  - rewrite L9 L8. change (lanes a7) with (lanes a6). unfold a6. rewrite loop_fire_lanes L5 loop_fire_lanes. done.
Qed.

(** ** A pass *)

(** The sources' progress over a pass, with what was taken from the lanes. *)
Definition pass_advance (new : list Outbound) (a a' : AudioLoop) : Prop :=
  exists r, advance r new a a' /\ forall i, lane_regs i (lanes a) ≡ₚ r i ++ lane_regs i (lanes a').

Lemma pass_advance_same new a b c :
  pass_advance new a b -> same_advance b c -> lanes c = lanes b ->
  exists more, pass_advance (new ++ more) a c.
Proof.
  intros (r & HA & HL) HS Hl. destruct (advance_same _ _ _ _ _ HA HS) as (more & HA'). exists more, r.
  split; [done|]. by rewrite Hl.
Qed.

Lemma still_pass a a' : same_advance a a' -> lanes a' = lanes a -> exists new, pass_advance new a a'.
Proof. intros (new & HA & _) HL. exists new, (fun _ => []). split; [done|]. intros i. by rewrite HL. Qed.

(** Nothing taken from the lanes either. *)
Definition keeps (a a' : AudioLoop) : Prop := same_advance a a' /\ lanes a' = lanes a.

#[export] Instance keeps_preorder : PreOrder keeps.
Proof.
  split; [by intros a; split|]. intros a b c [S1 L1] [S2 L2]. split; [by trans b|congruence].
Qed.

Lemma keeps_idle a a' : sources a' = sources a -> out a' = out a -> lanes a' = lanes a -> keeps a a'.
Proof. intros ???. split; [|done]. by apply still_same, still_idle. Qed.

(** The second half of a pass: from where the controls have been read, nothing
    is registered and no generation is raised. *)
Definition pass_tail (i : PassInput) (a : AudioLoop) (queued : N) : AudioLoop * Pass :=
  let a := loop_fire a in
  let a := loop_heard_by_clock (in_clock i) a in
  let a := publish_room a in
  let frames := frames_to_mix a queued in
  if (0 <? frames)%N then
    let a := note_underrun a in
    let '(a, mix) := mix_sources frames a in
    let a := if running a then a else set_running false (written a) (ran_dry a) a in
    let was_running := running a in
    let a := do_act (ActWrite mix) a in
    let a := if in_write i && negb was_running then do_act ActStart a else a in
    if negb (in_write i && (was_running || in_start i)) then (end_pass a, PassRecover true)
    else
      let a := if tap a then set_tap (tap_pending a ++ mix) (tapped a) a else a in
      let a := set_positions (written a +|64| frames) (played a) a in
      let a := set_running true (clock_base a) (ran_dry a) a in
      (end_pass a, PassWait true)
  else
    let a := if running a && (queued =? 0)%N
             then loop_forget_clock (set_running false (clock_base a) (ran_dry a) (do_act ActStop a))
             else a in
    (end_pass a, PassWait (running a)).

Lemma keeps_tail i a q : keeps a (fst (pass_tail i a q)).
Proof.
  unfold pass_tail. set (a1 := loop_fire a). set (a2 := loop_heard_by_clock _ a1). set (a3 := publish_room a2).
  assert (keeps a a3) as H3.
  { trans a2; [|apply same_publish]. trans a1; (split; [|]).
    - apply same_fire.
    - apply loop_fire_lanes.
    - apply same_clock.
    - apply loop_clock_lanes. }
  clearbody a3. clear a1 a2. destruct (0 <? _)%N.
  - pose proof (same_mix (frames_to_mix a3 q) (note_underrun a3)) as HM.
    destruct (mix_sources _ _) as [a4 mix]. simpl in HM.
    assert (keeps a a4) as H4 by (trans a3; [done|]; trans (note_underrun a3); [apply same_note|done]).
    clear HM H3. set (a5 := if running a4 then a4 else _).
    assert (keeps a a5) as H5 by (trans a4; [done|]; subst a5; destruct (running a4); [done|by apply keeps_idle]).
    clearbody a5. set (a6 := if in_write i && _ then _ else _).
    assert (keeps a a6) as H6 by (trans a5; [done|]; subst a6; destruct (_ && _); by apply keeps_idle).
    clearbody a6. destruct (negb _); [trans a6; [done|apply same_end_pass]|]. simpl.
    etrans; [exact H6|]. etrans; [|apply same_end_pass]. destruct (tap a6); by apply keeps_idle.
  - etrans; [exact H3|]. etrans; [|apply same_end_pass]. destruct (_ && _); [|done]. split; [|done].
    etrans; [|apply still_same, still_forget]. by apply still_same, still_idle.
Qed.

(** Whether a pass gets as far as its lanes. *)
Definition reaches (i : PassInput) : bool :=
  negb (in_shutdown i) && bool_decide (is_Some (in_queued i)) && negb (in_reopen i).

(** The first half: what a pass does before it fires. *)
Lemma pass_parts i a :
  if reaches i then
    exists b q, drains a b /\
      pass i a = pass_tail i (fst (read_controls (in_changed i) (in_controls i) b q))
                   (snd (read_controls (in_changed i) (in_controls i) b q))
  else keeps a (fst (pass i a)).
Proof.
  unfold pass, reaches. destruct (in_shutdown i); [done|].
  destruct (in_queued i) as [q|]; [|done]. simpl.
  set (q0 := N.min q _). set (a0 := set_positions (written a) (written a - q0)%N a).
  destruct (in_reopen i); [by apply keeps_idle|]. simpl.
  assert (still_advance a (feed_tap a0) /\ lanes (feed_tap a0) = lanes a) as [S1 L1].
  { unfold feed_tap. repeat case_match; split; try done; by apply still_idle. }
  set (a1 := feed_tap a0) in *. set (a2 := if running a1 && _ && _ then _ else a1).
  assert (still_advance a a2 /\ lanes a2 = lanes a) as [S2 L2].
  { subst a2. destruct (_ && _); [|done]. split; [|done]. trans a1; [done|]. by apply still_idle. }
  clearbody a2. clear a1 S1 L1 a0.
  assert (drains a (fst (drain a2 q0))) as HD by (trans a2; [by apply drains_still|apply drains_drain]).
  destruct (drain a2 q0) as [a3 q3]. exists a3, q3. split; [done|].
  by destruct (read_controls (in_changed i) (in_controls i) a3 q3) as [a4 q4].
Qed.

Lemma pass_advances i a : exists new, pass_advance new a (fst (pass i a)).
Proof.
  pose proof (pass_parts i a) as HP. destruct (reaches i); [|destruct HP; by apply still_pass].
  destruct HP as (b & q & (r & HD & HR) & ->).
  destruct (quiet_read_controls (in_changed i) (in_controls i) b q) as [HQ HL].
  destruct (read_controls (in_changed i) (in_controls i) b q) as [b' q']. simpl in *.
  destruct (quiet_advance_trans _ _ _ _ _ HD HQ) as (n & HA & _).
  destruct (keeps_tail i b' q') as [HS HL'].
  assert (pass_advance n a b') as HP.
  { eexists. split; [exact HA|]. intros k. by rewrite HR HL app_nil_r. }
  destruct (pass_advance_same n a b' _ HP HS HL') as (more & ?). eauto.
Qed.

(** ** What the controls read come to *)

Lemma read_controls_raise first second a q k s c0 c :
  sources a !! k = Some s -> first !! k = Some c0 -> second !! k = Some c ->
  (cancel_generation c0 <= cancel_generation c)%N ->
  exists s', sources (fst (read_controls first second a q)) !! k = Some s' /\
    (cancel_generation c0 <= s_generation s')%N.
Proof.
  intros Hs H0 H1 Hle. unfold read_controls. destruct (any_control _ _ _) eqn:Hany; simpl.
  - destruct (av_source _ _ _ _ (proj1 (still_discard a)) k s Hs) as (s1 & Hs1 & _).
    eexists. split; [by apply lookup_zip_controls|]. rewrite H1. unfold read_control.
    destruct (s_generation s1 <? cancel_generation c)%N eqn:Hg; [|apply N.ltb_ge in Hg]; case_bool_decide; simpl; lia.
  - exists s. split; [done|].
    clear H1. revert k Hs H0. clear -Hany. revert Hany. generalize (sources a). induction first as [|f first IH]; [done|].
    intros [|x xs]; simpl; [done|]. intros [Hf Hrest]%orb_false_iff [|k]; simpl; [|by apply IH].
    intros [= ->] [= ->]. apply orb_false_iff in Hf as [Hf _]. apply N.ltb_ge in Hf. done.
Qed.

(** Once a pass has read a generation, the source has it. *)
Lemma turn_reads i a k s c0 c :
  reaches i = true -> sources a !! k = Some s ->
  in_changed i !! k = Some c0 -> in_controls i !! k = Some c ->
  (cancel_generation c0 <= cancel_generation c)%N ->
  exists s', sources (fst (pass i a)) !! k = Some s' /\ (cancel_generation c0 <= s_generation s')%N.
Proof.
  intros Hr Hs H0 H1 Hle. pose proof (pass_parts i a) as HP. rewrite Hr in HP.
  destruct HP as (b & q & (rg & (n & HA & _) & _) & ->).
  destruct (av_source _ _ _ _ HA k s Hs) as (s1 & Hs1 & _).
  destruct (read_controls_raise (in_changed i) (in_controls i) b q k s1 c0 c Hs1 H0 H1 Hle) as (s2 & Hs2 & Hg).
  destruct (keeps_tail i (fst (read_controls (in_changed i) (in_controls i) b q))
    (snd (read_controls (in_changed i) (in_controls i) b q))) as [(n' & HA' & HG) _].
  destruct (av_source _ _ _ _ HA' k s2 Hs2) as (s3 & Hs3 & _). exists s3. split; [done|].
  by rewrite (HG k s2 s3 Hs2 Hs3).
Qed.
