(* ===== verification/MixerRun.v ===== *)
(** * Runs of the mixer

    The mixer from its start: producers push onto the lanes, the audio thread
    makes its passes and recoveries, and the delivery thread takes what the ring
    holds, in any order. The theorems are those a client of the mixer counts on:
    every utterance taken is accounted for and ends at most once, nothing is
    reported of it after, a raised cancel generation is exact, and the mixer
    stays within what it allocated. *)

From S2P Require Import Prelude Facts Speech Store StoreProps StoreKept Mixer MixerProps.

#[local] Arguments end_ids : simpl never.
#[local] Arguments made_ids : simpl never.
#[local] Arguments tracked_ids : simpl never.

(** ** Runs *)

Inductive MixInput :=
  | InPush (lane : nat) (record : LaneRecord)
  | InSamples (lane : nat) (piece : list f32)
  | InPass (i : PassInput) (opened : DeviceFormat)
  | InDeliver.

(** The loop, what was delivered, and the registrations the lanes accepted, each
    with its source. *)
Record MixRun := {
  loop : AudioLoop;
  delivered : list Outbound;
  accepted : list (nat * Registered);
}.

(** [mixer::audio_thread]: a pass, and the recovery it asks for. *)
Definition thread_turn (i : PassInput) (opened : DeviceFormat) (a : AudioLoop) : AudioLoop :=
  match pass i a with
  | (a, PassRecover _) => recover opened a
  | (a, _) => a
  end.

Definition mix_step (x : MixInput) (r : MixRun) : MixRun :=
  match x with
  | InPush lane record =>
      match lane_push false lane record (loop r), lanes (loop r) !! lane with
      | inl a, Some l =>
          {| loop := a; delivered := delivered r;
             accepted := accepted r ++ ((fun g => (lane_source l, g)) <$> record_regs record) |}
      | _, _ => r
      end
  | InSamples lane piece =>
      match push_samples lane piece (loop r) with
      | Some a => {| loop := a; delivered := delivered r; accepted := accepted r |}
      | None => r
      end
  | InPass i opened =>
      {| loop := thread_turn i opened (loop r); delivered := delivered r; accepted := accepted r |}
  | InDeliver =>
      let '(a, got) := deliver (loop r) in
      {| loop := a; delivered := delivered r ++ got; accepted := accepted r |}
  end.

Definition mix_run (xs : list MixInput) (r : MixRun) : MixRun := foldl (fun r x => mix_step x r) r xs.

(** [MixerBuilder::start]: the lanes empty, the device opened. *)
Definition start_mixer (takes : list bool) (ls : list (nat * nat * bool)) (with_tap : bool)
    (opened : DeviceFormat) : MixRun :=
  {| loop := open opened (new_loop takes
       ((fun '(source, capacity, speech) =>
           {| lane_source := source; records := []; lane_capacity := capacity;
              samples := if speech : bool then Some [] else None |}) <$> ls) with_tap);
     delivered := []; accepted := [] |}.

(** The registrations pushed in a run. *)
Definition pushed (xs : list MixInput) : list Registered :=
  concat ((fun x => match x with InPush _ record => record_regs record | _ => [] end) <$> xs).

(** Everything sent so far; and what source [i] has accepted. *)
Definition sent_log (r : MixRun) : list Outbound := delivered r ++ out (loop r).
Definition accepted_of (i : nat) (r : MixRun) : list Registered :=
  omap (fun '(j, g) => if decide (j = i) then Some g else None) (accepted r).

(** ** The invariant *)

Record mix_inv (r : MixRun) : Prop := {
  mi_source : forall i s, sources (loop r) !! i = Some s ->
    exists R, kept R (omap ended_out (mine_of i (sent_log r))) s /\
      accepted_of i r ≡ₚ R ++ lane_regs i (lanes (loop r));
  mi_ring : (length (out (loop r)) <= OUTBOUND)%nat;
}.

#[local] Opaque OUTBOUND TRACKED EVENTS VOICES SEGMENTS.

Lemma new_source_kept takes : kept [] [] (new_source takes).
Proof.
  split.
  - split; try (intros ? ?%elem_of_nil || intros ? ? ?%elem_of_nil); try done; constructor.
  - split; simpl; try lia. by destruct takes.
  - split; simpl; try (intros ? ?%elem_of_nil || intros ? ? ?%elem_of_nil); done.
Qed.

(** One step of the invariant: what it sends is appended, and fits. *)
Definition step_fits (r r' : MixRun) : Prop :=
  exists new, sent_log r' = sent_log r ++ new /\
    forall i s', sources (loop r') !! i = Some s' ->
      exists s R, sources (loop r) !! i = Some s /\ (s_generation s <= s_generation s')%N /\
        R ⊆+ accepted_of i r' /\
        reports_fit R (omap ended_out (mine_of i (sent_log r))) (s_generation s') (mine_of i new).

Lemma accepted_NoDup i r : NoDup (accepted r).*2.*1 -> NoDup (accepted_of i r).*1.
Proof.
  intros Hnd. eapply sublist_NoDup; [exact Hnd|]. unfold accepted_of.
  clear Hnd. induction (accepted r) as [|[j g] l IH]; csimpl; [constructor|].
  destruct (decide (j = i)); csimpl; by constructor.
Qed.

(** A pass, or a recovery, within a run. *)
Lemma inv_advance new a a' r :
  mix_inv r -> NoDup (accepted r).*2.*1 -> pass_advance new (loop r) a' -> a = loop r ->
  let r' := {| loop := a'; delivered := delivered r; accepted := accepted r |} in
  mix_inv r' /\ step_fits r r'.
Proof.
  intros [HI HR] Hnd (rg & [HO HK HL HS] & HLn) ->. simpl.
  assert (forall i s, sources (loop r) !! i = Some s -> exists s' R, sources a' !! i = Some s' /\
    (s_generation s <= s_generation s')%N /\ R ⊆+ accepted_of i r /\
    accepted_of i r ≡ₚ R ++ lane_regs i (lanes a') /\
    kept R (omap ended_out (mine_of i (sent_log r ++ new))) s' /\
    reports_fit R (omap ended_out (mine_of i (sent_log r))) (s_generation s') (mine_of i new)) as Hall.
  { intros i s Hs. destruct (HI i s Hs) as (R & Hk & Hacc). destruct (HS i s Hs) as (s' & Hs' & Hg & HA).
    rewrite HLn app_assoc in Hacc. destruct (HA R _ Hk) as [Hk' Hr'].
    { pose proof (accepted_NoDup i r Hnd) as Hn. rewrite Hacc fmap_app in Hn. by apply NoDup_app in Hn as (? & _). }
    exists s', (R ++ rg i). rewrite mine_of_app omap_app. split_and!; try done.
    rewrite Hacc. by apply submseteq_inserts_r. }
  split.
  - split; [|by apply HK]. intros i s' Hs'. simpl in Hs'.
    destruct (lookup_lt_is_Some_2 (sources (loop r)) i) as [s Hs].
    { rewrite -HL. by eapply lookup_lt_Some. }
    destruct (Hall i s Hs) as (s0 & R & Hs0 & _ & _ & Hacc & Hk & _). exists R.
    assert (s0 = s') as <- by congruence. unfold sent_log. simpl. rewrite HO app_assoc. done.
  - exists new. split; [unfold sent_log; by rewrite /= HO app_assoc|]. intros i s' Hs'. simpl in Hs'.
    destruct (lookup_lt_is_Some_2 (sources (loop r)) i) as [s Hs].
    { rewrite -HL. by eapply lookup_lt_Some. }
    destruct (Hall i s Hs) as (s0 & R & Hs0 & ? & ? & _ & _ & ?). assert (s0 = s') as -> by congruence.
    exists s, R. done.
Qed.

Lemma turn_advances i f a : exists new, pass_advance new a (thread_turn i f a).
Proof.
  unfold thread_turn. destruct (pass_advances i a) as (new & HP). destruct (pass i a) as [a1 p]. simpl in HP.
  destruct p; [by exists new| |by exists new]. destruct (same_recover f a1) as [HS HL].
  destruct (pass_advance_same _ _ _ _ HP HS HL) as (more & ?). eauto.
Qed.

(** A step that leaves the sources and sends nothing. *)
Lemma quiet_step_fits r r' :
  sources (loop r') = sources (loop r) -> sent_log r' = sent_log r ->
  (forall i, accepted_of i r ⊆+ accepted_of i r') -> step_fits r r'.
Proof.
  intros Hs Hl Ha. exists []. rewrite app_nil_r. split; [done|]. intros i s' Hs'. rewrite Hs in Hs'.
  exists s', []. split_and!; [done|done|apply submseteq_nil_l|done].
Qed.

Lemma step_accepts x r :
  exists l, accepted (mix_step x r) = accepted r ++ l /\ sublist l.*2 (pushed [x]).
Proof.
  assert (exists l, accepted r = accepted r ++ l /\ sublist l.*2 (pushed [x])) as Hnone.
  { exists []. rewrite app_nil_r. split; [done|]. apply sublist_nil_l. }
  destruct x as [lane rec|lane piece|i f|]; unfold mix_step; try done.
  - destruct (lane_push false lane rec (loop r)); [|done]. destruct (lanes (loop r) !! lane) as [l|]; [|done]. eexists. split; [done|].
    unfold pushed. csimpl. rewrite app_nil_r -list_fmap_compose. simpl.
    rewrite (list_fmap_id (record_regs rec)). done.
  - by destruct (push_samples lane piece (loop r)).
Qed.

Lemma lane_regs_push i ls lane l rec :
  ls !! lane = Some l ->
  lane_regs i (<[lane := {| lane_source := lane_source l; records := records l ++ [rec];
                            lane_capacity := lane_capacity l; samples := samples l |}]> ls)
  ≡ₚ lane_regs i ls ++ (if decide (lane_source l = i) then record_regs rec else []).
Proof.
  intros Hl. rewrite -{2}(take_drop_middle _ _ _ Hl). unfold lane_regs.
  rewrite insert_take_drop; [|by eapply lookup_lt_Some]. rewrite !fmap_app !fmap_cons !concat_app /=.
  case_decide; simpl; [|by rewrite app_nil_r]. rewrite fmap_app concat_app /= app_nil_r. solve_Permutation.
Qed.

Lemma accepted_of_app i r l a d :
  accepted_of i {| loop := a; delivered := d; accepted := accepted r ++ l |}
  = accepted_of i r ++ omap (fun '(j, g) => if decide (j = i) then Some g else None) l.
Proof. unfold accepted_of. simpl. apply omap_app. Qed.

Lemma step_inv x r :
  mix_inv r -> NoDup (accepted (mix_step x r)).*2.*1 ->
  mix_inv (mix_step x r) /\ step_fits r (mix_step x r).
Proof.
  intros HI Hnd.
  assert (mix_inv r /\ step_fits r r) as Hnone.
  { split; [done|]. by apply quiet_step_fits. }
  destruct x as [lane rec|lane piece|i f|]; unfold mix_step in *.
  - destruct (lane_push false lane rec (loop r)) as [a|] eqn:Hp; [|exact Hnone].
    unfold lane_push in Hp. destruct (lanes (loop r) !! lane) as [l|] eqn:Hl; [|done].
    case_bool_decide; [done|]. injection Hp as <-.
    assert (forall i, omap (fun '(j, g) => if decide (j = i) then Some g else None)
      ((fun g => (lane_source l, g)) <$> record_regs rec) =
      if decide (lane_source l = i) then record_regs rec else []) as Hacc.
    { intros i. generalize (record_regs rec). intros gs. induction gs as [|g gs IH]; csimpl; [by case_decide|].
      rewrite IH. by case_decide. }
    split; [split; [|by destruct HI]|].
    + intros i s Hs. destruct HI as [HI _]. destruct (HI i s Hs) as (R & Hk & HR). exists R. split; [done|].
      rewrite accepted_of_app Hacc HR /= lane_regs_push // app_assoc. done.
    + apply quiet_step_fits; [done..|]. intros i. rewrite accepted_of_app. by apply submseteq_inserts_r.
  - destruct (push_samples lane piece (loop r)) as [a|] eqn:Hp; [|exact Hnone].
    assert (sources a = sources (loop r) /\ out a = out (loop r) /\ lane_shape (lanes a) = lane_shape (lanes (loop r))) as (Hs & Ho & HL).
    { unfold push_samples in Hp. destruct (lanes (loop r) !! lane) as [l|] eqn:Hl; [|done]. simpl in Hp.
      destruct (samples l) as [ring|]; [|done]. simpl in Hp. destruct (_ <=? _)%N; [|done]. injection Hp as <-.
      split_and!; [done..|]. unfold lane_shape. simpl. rewrite list_fmap_insert. apply list_insert_id.
      by rewrite list_lookup_fmap Hl. }
    split; [|apply quiet_step_fits; [done|unfold sent_log; simpl; by rewrite Ho|done]].
    destruct HI as [HI HR]. split; simpl; [|by rewrite Ho]. intros i s His. rewrite Hs in His.
    destruct (HI i s His) as (R & Hk & Hacc). exists R. unfold sent_log. simpl.
    by rewrite Ho (lane_regs_shape i _ _ HL).
  - destruct (turn_advances i f (loop r)) as (new & HP). by eapply inv_advance.
  - split; [|apply quiet_step_fits; [done|unfold sent_log; simpl; by rewrite app_nil_r|done]].
    destruct HI as [HI HR]. split; simpl; [|lia]. intros i s His. destruct (HI i s His) as (R & Hk & Hacc).
    exists R. unfold sent_log in *. simpl. by rewrite app_nil_r.
Qed.

Lemma run_accepts xs : forall r, exists l, accepted (mix_run xs r) = accepted r ++ l /\ sublist l.*2 (pushed xs).
Proof.
  induction xs as [|x xs IH]; intros r; simpl; [exists []; by rewrite app_nil_r|].
  destruct (step_accepts x r) as (l1 & H1 & S1). destruct (IH (mix_step x r)) as (l2 & H2 & S2).
  exists (l1 ++ l2). split; [by rewrite [LHS]H2 H1 app_assoc|].
  rewrite fmap_app. unfold pushed in *. simpl in *. rewrite app_nil_r in S1. by apply sublist_app.
Qed.

Lemma prefix_NoDup {A} (l k : list A) : NoDup (l ++ k) -> NoDup l.
Proof. by intros (? & _)%NoDup_app. Qed.

(** The invariant over a run, the registrations accepted in it being distinct. *)
Lemma mixer_run_inv xs : forall r,
  mix_inv r -> NoDup (accepted (mix_run xs r)).*2.*1 -> mix_inv (mix_run xs r).
Proof.
  induction xs as [|x xs IH]; intros r HI Hnd; simpl; [done|]. apply IH; [|done].
  apply step_inv; [done|]. destruct (run_accepts xs (mix_step x r)) as (l & Hl & _).
  simpl in Hnd. change (foldl _ _ xs) with (mix_run xs (mix_step x r)) in Hnd. rewrite Hl in Hnd.
  rewrite !fmap_app in Hnd. by apply prefix_NoDup in Hnd.
Qed.

Lemma start_inv takes ls with_tap opened : mix_inv (start_mixer takes ls with_tap opened).
Proof.
  unfold start_mixer. set (a := new_loop _ _ _). destruct (still_open opened a) as [[[HO HK HL HS] _] HLn].
  split.
  - intros i s' Hs'. change (sources (open opened a) !! i = Some s') in Hs'.
    change (lanes (loop _)) with (lanes (open opened a)).
    destruct (lookup_lt_is_Some_2 (sources a) i) as [s Hs].
    { rewrite -HL. by eapply lookup_lt_Some. }
    destruct (HS i s Hs) as (s0 & Hs0 & _ & HA). assert (s0 = s') as -> by congruence.
    subst a. simpl in Hs. rewrite list_lookup_fmap in Hs.
    destruct (takes !! i) as [b|]; [|done]. injection Hs as <-.
    destruct (HA [] [] (new_source_kept b)) as [Hk _]; [by constructor|].
    exists []. split.
    + unfold sent_log. cbn [delivered loop]. by rewrite HO.
    + rewrite HLn. simpl. clear. induction ls as [|[[src cap] sp] ls IH]; csimpl; [done|].
      unfold lane_regs in *. csimpl. case_decide; done.
  - cbn [loop]. rewrite HO. simpl. lia.
Qed.

(** Distinct registrations pushed make distinct registrations accepted. *)
Lemma run_NoDup xs takes ls with_tap opened :
  NoDup (pushed xs).*1 -> NoDup (accepted (mix_run xs (start_mixer takes ls with_tap opened))).*2.*1.
Proof.
  intros Hnd. destruct (run_accepts xs (start_mixer takes ls with_tap opened)) as (l & -> & Hs). simpl.
  assert (forall {A B} (f : A -> B) l1 l2, sublist l1 l2 -> sublist (f <$> l1) (f <$> l2)) as Hmap.
  { clear. intros A B f l1 l2. induction 1; csimpl; by constructor. }
  eapply sublist_NoDup; [exact Hnd|]. by apply Hmap.
Qed.

Lemma started_inv xs takes ls with_tap opened :
  NoDup (pushed xs).*1 -> mix_inv (mix_run xs (start_mixer takes ls with_tap opened)).
Proof. intros Hnd. apply mixer_run_inv; [apply start_inv|by apply run_NoDup]. Qed.

(** ** Nothing after an ending *)

(** No report in [log] is of an utterance reported ended before it. *)
Definition orderly (log : list Outbound) : Prop :=
  forall before rec after u k, log = before ++ rec :: after -> record_kind u rec = Some k ->
    u ∉ omap ended_out before.

Lemma orderly_fits R g new : forall log,
  orderly log -> reports_fit R (omap ended_out log) g new -> orderly (log ++ new).
Proof.
  induction new as [|r new IH]; intros log Ho Hf; [by rewrite app_nil_r|].
  destruct Hf as [Hr Hf]. rewrite (assoc_L (++) log [r] new). apply IH.
  - intros before rec after u k Heq Hk. destruct after as [|x after _] using rev_ind.
    + apply app_inj_tail in Heq as [-> ->]. by apply (Hr u k Hk).
    + rewrite app_comm_cons app_assoc in Heq. apply app_inj_tail in Heq as [-> _]. by eapply Ho.
  - by rewrite omap_app.
Qed.

Lemma run_orderly i xs : forall r s,
  mix_inv r -> NoDup (accepted (mix_run xs r)).*2.*1 -> orderly (mine_of i (sent_log r)) ->
  sources (loop (mix_run xs r)) !! i = Some s -> orderly (mine_of i (sent_log (mix_run xs r))).
Proof.
  induction xs as [|x xs IH] using rev_ind; intros r s HI Hnd Ho Hs; [done|].
  unfold mix_run in *. rewrite foldl_app in Hnd Hs |- *. simpl in *. fold (mix_run xs r) in *.
  assert (NoDup (accepted (mix_run xs r)).*2.*1) as Hnd'.
  { destruct (step_accepts x (mix_run xs r)) as (l & Hl & _). rewrite Hl !fmap_app in Hnd. by apply prefix_NoDup in Hnd. }
  destruct (step_inv x _ (mixer_run_inv xs r HI Hnd') Hnd) as [_ (new & Hlog & Hfit)].
  destruct (Hfit i s Hs) as (s0 & R & Hs0 & _ & _ & Hr). rewrite Hlog mine_of_app.
  eapply orderly_fits; [|exact Hr]. by eapply IH.
Qed.

(** ** After a cancel *)

Lemma reports_fit_in R g new rec : forall E,
  reports_fit R E g new -> rec ∈ new -> exists E', report_fits R E' g rec.
Proof.
  induction new as [|r new IH]; intros E; [by intros _ ?%elem_of_nil|].
  intros [Hr Hf] [->|Hin]%elem_of_cons; eauto.
Qed.

(** The records [later] say of [u] on source [k] only endings that cut it. *)
Definition only_cut (k : nat) (u : UtteranceId) (later : list Outbound) : Prop :=
  forall rec kd, rec ∈ mine_of k later -> record_kind u rec = Some kd -> cut_short kd = true.

Lemma accepted_mono k xs r : accepted_of k r ⊆+ accepted_of k (mix_run xs r).
Proof.
  destruct (run_accepts xs r) as (l & Hl & _). unfold accepted_of. rewrite Hl omap_app.
  by apply submseteq_inserts_r.
Qed.

(** One step after the source has read a generation above [g]. *)
Lemma step_cut k u g r r' s' all :
  step_fits r r' -> sources (loop r') !! k = Some s' -> (g < s_generation s')%N ->
  accepted_of k r' ⊆+ all -> NoDup all.*1 -> (u, Some g) ∈ all ->
  exists new, sent_log r' = sent_log r ++ new /\ only_cut k u new.
Proof.
  intros (new & Hlog & Hfit) Hs' Hg Hall Hnd Hu. exists new. split; [done|]. intros rec kd Hrec Hk.
  destruct (Hfit k s' Hs') as (s & R & _ & _ & HR & Hr).
  destruct (reports_fit_in _ _ _ _ _ Hr Hrec) as (E' & Hfits). destruct (Hfits u kd Hk) as (Hin & _ & Hc).
  destruct (cut_short kd) eqn:Hcut; [done|]. exfalso.
  apply list_elem_of_fmap in Hin as ([u' x] & -> & HinR). simpl in *.
  assert ((u', x) ∈ all) as Hall' by (by eapply elem_of_submseteq; [|etrans; [exact HR|exact Hall]]).
  pose proof (registered_once Hnd Hall' Hu) as ->. specialize (Hc eq_refl g HinR). lia.
Qed.

(** The generations of the sources are only raised. *)
Lemma step_raises x r k s :
  sources (loop r) !! k = Some s ->
  exists s', sources (loop (mix_step x r)) !! k = Some s' /\ (s_generation s <= s_generation s')%N.
Proof.
  intros Hs. destruct x as [lane rec|lane piece|i f|]; unfold mix_step; simpl.
  - unfold lane_push. simpl. destruct (lanes (loop r) !! lane) as [l|]; [|by exists s].
    case_bool_decide; by exists s.
  - destruct (push_samples lane piece (loop r)) as [a|] eqn:Hp; [|by exists s]. exists s. split; [|done].
    unfold push_samples in Hp. destruct (lanes (loop r) !! lane) as [l|]; [|done]. simpl in Hp.
    destruct (samples l) as [ring|]; [|done]. simpl in Hp. destruct (_ <=? _)%N; [|done]. by injection Hp as <-.
  - destruct (turn_advances i f (loop r)) as (new & rg & HA & _).
    destruct (av_source _ _ _ _ HA k s Hs) as (s' & Hs' & Hg & _). eauto.
  - by exists s.
Qed.

Lemma run_cut k u g ys : forall r s,
  mix_inv r -> NoDup (accepted (mix_run ys r)).*2.*1 -> sources (loop r) !! k = Some s ->
  (g < s_generation s)%N -> (u, Some g) ∈ accepted_of k (mix_run ys r) ->
  exists later, sent_log (mix_run ys r) = sent_log r ++ later /\ only_cut k u later.
Proof.
  induction ys as [|y ys IH]; intros r s HI Hnd Hs Hg Hu; simpl in *.
  { exists []. rewrite app_nil_r. split; [done|]. by intros rec kd ?%elem_of_nil. }
  change (foldl _ _ ys) with (mix_run ys (mix_step y r)) in *.
  assert (NoDup (accepted (mix_step y r)).*2.*1) as Hnd1.
  { destruct (run_accepts ys (mix_step y r)) as (l & Hl & _). rewrite Hl !fmap_app in Hnd. by apply prefix_NoDup in Hnd. }
  destruct (step_inv y r HI Hnd1) as [HI1 Hfit].
  assert (exists s1, sources (loop (mix_step y r)) !! k = Some s1 /\ (g < s_generation s1)%N) as (s1 & Hs1 & Hg1).
  { destruct (step_raises y r k s Hs) as (s1 & ? & ?). exists s1. split; [done|]. lia. }
  destruct (step_cut k u g r _ s1 (accepted_of k (mix_run ys (mix_step y r))) Hfit Hs1 Hg1) as (n1 & Hl1 & Hc1);
    [apply accepted_mono|by apply accepted_NoDup|done|].
  destruct (IH _ s1 HI1 Hnd Hs1 Hg1 Hu) as (n2 & Hl2 & Hc2). exists (n1 ++ n2).
  rewrite Hl2 Hl1 app_assoc. split; [done|]. intros rec kd. rewrite mine_of_app elem_of_app.
  intros [Hin|Hin]; [by apply Hc1|by apply Hc2].
Qed.

(** ** The properties *)



(** C34: the mixer stays within what it allocated before its threads started: at
    most 64 utterances and 64 voices a source, its events within 1,088, its
    frames within the samples it reserved, and the outbound ring within 1,024. *)
Theorem mixer_within_limits takes ls with_tap opened xs
    (Hdistinct : NoDup (pushed xs).*1) :
  let r := mix_run xs (start_mixer takes ls with_tap opened) in
  (length (out (loop r)) <= OUTBOUND)%nat /\
  forall i s, sources (loop r) !! i = Some s -> bounded s.
Proof.
  intros r. destruct (started_inv xs takes ls with_tap opened Hdistinct) as [HI HR]. split; [done|].
  intros i s Hs. by destruct (HI i s Hs) as (R & [_ ? _] & _).
Qed.

(** ** A run *)

(** A device of 48 kHz and two channels, its queue 40 ms. *)
Definition usual_format : DeviceFormat := {| sample_rate := 48000; channels := 2; buffer_frames := 1920 |}.

(** A pass in which the device has [queued] frames to play, and the one source's
    cancel generation is [g]. *)
Definition quiet_pass (queued g : N) : PassInput :=
  {| in_shutdown := false; in_reopen := false; in_queued := Some queued;
     in_changed := [{| cancel_generation := g; paused := false |}];
     in_controls := [{| cancel_generation := g; paused := false |}];
     in_clock := None; in_write := true; in_start := true |}.

Definition utt (n : N) : UtteranceId := {| utterance_number := n |}.
Definition trc (n : N) : TraceId := {| trace_number := n |}.

(** An utterance spoken to its end, a second cut by a cancel. *)
Definition two_utterances : list MixInput :=
  [InPush 0 (RecRegister (utt 1) (trc 7) 0); InSamples 0 (repeat f32_one 8); InPush 0 (RecFrames (utt 1) 1 4 8);
   InPush 0 (RecFinish (utt 1)); InPass (quiet_pass 0 0) usual_format; InPass (quiet_pass 0 0) usual_format;
   InPush 0 (RecRegister (utt 2) (trc 7) 0); InSamples 0 (repeat f32_one 8); InPush 0 (RecFrames (utt 2) 1 4 8);
   InPush 0 (RecFinish (utt 2))].

Definition sample_start : MixRun := start_mixer [true] [(0, 8, true)]%nat false usual_format.

Example two_utterances_log :
  sent_log (mix_run (two_utterances ++ [InPass (quiet_pass 0 1) usual_format]) sample_start)
  = [OutEvent 0 (PlayStarted (utt 1) (trc 7)); OutEvent 0 (PlayEnded (utt 1) (trc 7) EndCompleted);
     OutEvent 0 (PlayEnded (utt 2) (trc 7) EndCancelled)].
Proof. vm_compute. reflexivity. Qed.



Lemma mixer_within_limits_witness :
  let r := mix_run two_utterances sample_start in
  (length (out (loop r)) <= OUTBOUND)%nat /\ forall i s, sources (loop r) !! i = Some s -> bounded s.
Proof.
  apply mixer_within_limits. apply (bool_decide_unpack _). vm_compute. exact I.
Defined.
