(* ===== verification/MixerDevice.v ===== *)
(** * What the device is given

    The contract of [AudioDevice::write] (lib.rs: never more frames than the
    buffer has room for), kept by every pass of Mixer.v: what a pass writes fits
    what the device had free, every sample between -1 and 1. *)

From Stdlib Require Import SpecFloat.
From S2P Require Import Prelude Facts Speech Store StoreProps Mixer MixerProps MixerRun.

(** ** The length of a mix *)

Lemma length_zip_add f mix : forall extra, length (zip_add f mix extra) = length mix.
Proof. induction mix as [|x mix IH]; intros [|y extra]; simpl; try done. by rewrite IH. Qed.

Lemma slice_spec from count l piece :
  slice from count l = Some piece -> (from + count <= U64_MAX)%N ->
  length piece = N.to_nat count /\ (from + count <= N.of_nat (length l))%N.
Proof.
  unfold slice. destruct (_ <=? _)%N eqn:Hle; [|done]. intros [= <-] Hsat. apply N.leb_le in Hle.
  unfold saturating_add in Hle. rewrite length_take length_drop. lia.
Qed.

Lemma length_mix_voice c w mix v :
  (N.of_nat (length mix) < U64_MAX)%N -> length (mix_voice c w mix v) = length mix.
Proof.
  intros Hlen. unfold mix_voice. destruct (v_state v) as [| |start|]; try done.
  cbv zeta. destruct (_ <=? _)%N; [done|].
  set (o := N.min U64_MAX (_ * c)). set (n := N.min U64_MAX (_ * c)).
  destruct (slice o n mix) as [mixed|] eqn:Hs; [|done]. destruct (slice _ n (v_frames v)) as [extra|]; [|done].
  assert (o + n <= N.of_nat (length mix))%N as Hle.
  { unfold slice in Hs. destruct (_ <=? _)%N eqn:Hc; [|done]. apply N.leb_le in Hc.
    unfold saturating_add in Hc. lia. }
  apply slice_spec in Hs as [Hm _]; [|lia].
  rewrite !length_app length_zip_add length_take length_drop Hm. lia.
Qed.

Lemma length_mix_voices c w vs : forall mix,
  (N.of_nat (length mix) < U64_MAX)%N -> length (foldl (mix_voice c w) mix vs) = length mix.
Proof.
  induction vs as [|v vs IH]; intros mix Hlen; simpl; [done|].
  rewrite IH; rewrite length_mix_voice //.
Qed.

Lemma length_mix_into n w s mix :
  (N.of_nat (length mix) < U64_MAX)%N -> length (snd (mix_into n w s mix)) = length mix.
Proof.
  intros Hlen. unfold mix_into. destruct (mixable w s =? 0)%N; [done|].
  destruct (N.min (unmixed _) n =? 0)%N; cbn [snd]; rewrite ?length_zip_add; by apply length_mix_voices.
Qed.

Lemma length_mix_each n w ss : forall mix,
  (N.of_nat (length mix) < U64_MAX)%N -> length (snd (mix_each n w ss mix)) = length mix.
Proof.
  induction ss as [|s ss IH]; intros mix Hlen; simpl; [done|].
  pose proof (length_mix_into n w s mix Hlen) as H1. destruct (mix_into n w s mix) as [s1 mix1]. simpl in H1.
  rewrite -H1 in Hlen. specialize (IH mix1 Hlen). destruct (mix_each n w ss mix1). simpl in *. congruence.
Qed.

(** A sample a device takes. *)
Definition in_range (x : f32) : Prop :=
  SFltb x (SFopp f32_one) = false /\ SFltb f32_one x = false.

Lemma f32_clamp_range x : in_range (f32_clamp x).
Proof.
  unfold f32_clamp, in_range. destruct (SFltb x (SFopp f32_one)) eqn:Hlo; [by vm_compute|].
  destruct (SFltb f32_one x) eqn:Hhi; [by vm_compute|done].
Qed.

(** ** What the parts of a pass ask of the device *)

(** The device has [q] frames to play of those written. *)
Definition queued_fits (a : AudioLoop) (q : N) : Prop := (written a = played a + q)%N.

(** From [a] with [q] frames queued to [a'] with [q']: nothing was written, and
    the device was stopped, or it has what it had. *)
Record device_part (a : AudioLoop) (q : N) (a' : AudioLoop) (q' : N) : Prop := {
  dp_acts : exists log, acts a' = acts a ++ log /\ (forall m, ActWrite m ∉ log) /\
    ((ActStop ∈ log /\ q' = 0%N /\ running a' = false) \/
     (ActStop ∉ log /\ running a' = running a /\ (q' = q \/ (q' = 0%N /\ running a = false))));
  dp_format : format a' = format a;
  dp_queued : queued_fits a q -> queued_fits a' q';
}.

Lemma device_part_refl a q a' :
  acts a' = acts a -> running a' = running a -> format a' = format a ->
  written a' = written a -> played a' = played a -> device_part a q a' q.
Proof.
  intros Ha Hr Hf Hw Hp. split; [|done|unfold queued_fits; congruence]. exists []. rewrite app_nil_r. split_and!; [done|by intros m ?%elem_of_nil|].
  right. split_and!; [by intros ?%elem_of_nil|done|by left].
Qed.

Lemma device_part_trans a q b q1 c q2 :
  device_part a q b q1 -> device_part b q1 c q2 -> device_part a q c q2.
Proof.
  intros [(l1 & A1 & W1 & C1) F1 P1] [(l2 & A2 & W2 & C2) F2 P2]. split; [|congruence|auto].
  exists (l1 ++ l2). rewrite A2 A1 app_assoc. split_and!; [done| |].
  - intros m [?|?]%elem_of_app; [by apply (W1 m)|by apply (W2 m)].
  - destruct C2 as [(? & ? & ?)|(Hn2 & Hr2 & Hq2)]; [left; rewrite elem_of_app; auto|].
    destruct C1 as [(? & -> & Hr1)|(Hn1 & Hr1 & Hq1)].
    + left. rewrite elem_of_app. split_and!; [auto| |congruence]. by destruct Hq2 as [->|[-> _]].
    + right. rewrite elem_of_app. split_and!; [naive_solver|congruence|].
      rewrite Hr1 in Hq2. destruct Hq2 as [->|[-> ?]]; [done|by right].
Qed.

(** An act that is neither a write nor a stop. *)
Lemma device_part_act a q x :
  (forall m, x <> ActWrite m) -> x <> ActStop -> device_part a q (do_act x a) q.
Proof.
  intros Hw Hs. split; [|done..]. exists [x]. split_and!; [done|intros m Hm%list_elem_of_singleton; by apply (Hw m)|].
  right. split_and!; [intros Hm%list_elem_of_singleton; by apply Hs|done|by left].
Qed.

Lemma device_discard a q : device_part a q (discard a) 0.
Proof.
  unfold discard, queued_fits. destruct (running a) eqn:Hr; split; try done;
    try (unfold queued_fits; simpl; lia).
  - exists [ActStop]. split_and!; [done|by intros m ?%list_elem_of_singleton|].
    left. split_and!; [by left|done|done].
  - exists []. split_and!; [by rewrite app_nil_r|by intros m ?%elem_of_nil|]. right.
    split_and!; [by intros ?%elem_of_nil|done|right; done].
Qed.

Lemma read_chunk_device lane n a chunk a' q : read_chunk lane n a = Some (chunk, a') -> device_part a q a' q.
Proof.
  unfold read_chunk. destruct (lanes a !! lane) as [l|]; [|done]. simpl.
  destruct (samples l) as [ring|]; [|done]. simpl. destruct (_ <=? _)%N; [|done]. intros [= <- <-].
  by apply device_part_refl.
Qed.

Lemma device_apply lane source record a q :
  let '(a', q') := apply_record lane source record a q in device_part a q a' q'.
Proof.
  unfold apply_record. destruct (sources a !! source) as [s|].
  - destruct record; try (by apply device_part_refl).
    + destruct (read_chunk lane samples a) as [[chunk a']|] eqn:Hc; [|by apply device_part_refl].
      eapply device_part_trans; [by eapply read_chunk_device|by apply device_part_refl].
    + destruct (voice _ _ _ _ _). by apply device_part_refl.
    + destruct (voice _ _ _ _ _). by apply device_part_refl.
    + destruct (play_to_end _ _ _ _ _ _). by apply device_part_refl.
    + destruct (sources (discard a) !! source) as [s'|]; [|apply device_discard].
      destruct (fail_at _ _ _) as [s2 [r|]]; (eapply device_part_trans; [apply device_discard|by apply device_part_refl]).
  - destruct record; try (by apply device_part_refl).
    destruct (read_chunk lane samples a) as [[chunk a']|] eqn:Hc; [|by apply device_part_refl].
    by eapply read_chunk_device.
Qed.

Lemma device_drain_lane lane source fuel : forall a q took,
  let '(a', q', _) := drain_lane fuel lane source a q took in device_part a q a' q'.
Proof.
  induction fuel as [|fuel IH]; intros a q took; simpl; [by apply device_part_refl|].
  destruct (lanes a !! lane ≫= _) as [r|]; [|by apply device_part_refl].
  destruct (admits source r a); [|by apply device_part_refl].
  pose proof (device_apply lane source r (pop_record lane a) q) as HA.
  destruct (apply_record _ _ _ _ _) as [a1 q1]. specialize (IH a1 q1 (S took)).
  destruct (drain_lane _ _ _ a1 _ _) as [[a' q'] t']. eapply device_part_trans; [|exact IH].
  eapply device_part_trans; [|exact HA]. unfold pop_record. destruct (lanes a !! lane); by apply device_part_refl.
Qed.

Lemma device_drain a q : let '(a', q') := drain a q in device_part a q a' q'.
Proof.
  unfold drain. generalize (seq 0 (length (lanes a))). intros ls. revert a q.
  induction ls as [|lane ls IH]; intros a q; simpl; [by apply device_part_refl|].
  assert (let '(a1, q1) := drain_one lane a q in device_part a q a1 q1) as H1.
  { unfold drain_one. destruct (lanes a !! lane) as [l|]; [|by apply device_part_refl].
    pose proof (device_drain_lane lane (lane_source l) (length (records l)) a q 0) as HD.
    destruct (drain_lane _ _ _ _ _ _) as [[a1 q1] took]. destruct (_ && _); [|done].
    eapply device_part_trans; [exact HD|by apply device_part_act]. }
  destruct (drain_one lane a q) as [a1 q1]. specialize (IH a1 q1).
  destruct (foldl _ (a1, q1) ls) as [a' q']. by eapply device_part_trans.
Qed.

Lemma device_read_controls first second a q :
  let '(a', q') := read_controls first second a q in device_part a q a' q'.
Proof.
  unfold read_controls. destruct (negb _); [by apply device_part_refl|].
  eapply device_part_trans; [apply device_discard|by apply device_part_refl].
Qed.

(** ** The end of a pass *)

Lemma acts_foldl log : forall a, acts (foldl (fun a x => do_act x a) a log) = acts a ++ log.
Proof.
  induction log as [|x log IH]; intros a; simpl; [by rewrite app_nil_r|]. by rewrite IH -app_assoc.
Qed.

Lemma foldl_acts_rest log : forall a,
  let a' := foldl (fun a x => do_act x a) a log in
  running a' = running a /\ format a' = format a /\ written a' = written a /\ played a' = played a.
Proof. induction log as [|x log IH]; intros a; simpl; [done|]. by destruct (IH (do_act x a)) as (-> & -> & -> & ->). Qed.

Lemma publish_log k capacity ss :
  Forall (fun x => (forall m, x <> ActWrite m) /\ x <> ActStop) (snd (publish_sources k capacity ss)).
Proof.
  revert k. induction ss as [|s ss IH]; intros k; simpl; [constructor|]. specialize (IH (S k)).
  destruct (publish_sources (S k) capacity ss) as [ss' log]. simpl in *. destruct (negb _); [done|]. simpl.
  constructor; [done|]. destruct (_ <=? _)%N; [by constructor|done].
Qed.

Lemma device_acts a q log :
  Forall (fun x => (forall m, x <> ActWrite m) /\ x <> ActStop) log ->
  device_part a q (foldl (fun a x => do_act x a) a log) q.
Proof.
  intros Hlog. revert a. induction Hlog as [|x log [Hw Hs] _ IH]; intros a; simpl; [by apply device_part_refl|].
  eapply device_part_trans; [by apply device_part_act|apply IH].
Qed.

Lemma device_fire a q : device_part a q (loop_fire a) q.
Proof.
  unfold loop_fire. destruct (fire_sources _ _ _ _ _) as [[ss o] b]. by apply device_part_refl.
Qed.

Lemma device_clock reading a q : device_part a q (loop_heard_by_clock reading a) q.
Proof.
  unfold loop_heard_by_clock. destruct (_ || _); [by apply device_part_refl|].
  destruct reading; [|by apply device_part_refl].
  destruct (clock_sources _ _ _ _ _) as [[ss o] b]. by apply device_part_refl.
Qed.

Lemma device_publish a q : device_part a q (publish_room a) q.
Proof.
  unfold publish_room. pose proof (publish_log 0 (source_capacity (format a)) (sources a)) as HL.
  destruct (publish_sources _ _ _) as [ss log]. simpl in HL.
  eapply device_part_trans; [|by apply device_acts]. by apply device_part_refl.
Qed.

Lemma device_note a q : device_part a q (note_underrun a) q.
Proof.
  unfold note_underrun. set (a1 := if ran_dry a && _ then _ else a).
  assert (device_part a q a1 q) as H1.
  { subst a1. destruct (_ && _); [|by apply device_part_refl].
    eapply device_part_trans; [|by apply device_part_act]. by apply device_part_refl. }
  eapply device_part_trans; [exact H1|]. clearbody a1. destruct (_ && _); by apply device_part_refl.
Qed.

(** What is mixed. *)
Lemma mix_sources_spec n a :
  (n * channels (format a) < U64_MAX)%N ->
  let '(a', m) := mix_sources n a in
  device_part a 0 a' 0 /\ running a' = running a /\ format a' = format a /\ written a' = written a /\
  played a' = played a /\ acts a' = acts a /\
  N.of_nat (length m) = (n * channels (format a))%N /\ Forall in_range m.
Proof.
  intros Hn. unfold mix_sources. rewrite N.min_r; [|lia].
  pose proof (length_mix_each n (written a) (sources a) (repeat f32_zero (N.to_nat (n * channels (format a))))) as HL.
  rewrite repeat_length in HL. destruct (mix_each _ _ _ _) as [ss mix]. simpl in *.
  split_and!; try done; [by apply device_part_refl|rewrite length_fmap HL; lia|].
  apply Forall_fmap, Forall_forall. intros x _. apply f32_clamp_range.
Qed.

Definition no_write (log : list LoopAct) : Prop := forall m, ActWrite m ∉ log.

Definition stopped_in (log : list LoopAct) : bool :=
  existsb (fun x => match x with ActStop => true | _ => false end) log.

Lemma stopped_in_spec log : stopped_in log = false -> ActStop ∉ log.
Proof.
  intros Hs Hin. enough (stopped_in log = true) by congruence. apply existsb_exists. exists ActStop.
  by rewrite -list_elem_of_In.
Qed.

(** What a device with [queued] frames to play may be asked in a pass: written
    to once at most, whole frames, no more than it has free (all of it once it
    was stopped), every sample in range. *)
Definition write_fits (f : DeviceFormat) (queued : N) (log : list LoopAct) : Prop :=
  no_write log \/
  exists before m after n, log = before ++ ActWrite m :: after /\ no_write before /\ no_write after /\
    N.of_nat (length m) = (n * channels f)%N /\ Forall in_range m /\
    (n + (if stopped_in before then 0 else queued) <= buffer_frames f)%N.

(** The types of a format's fields. *)
Definition typed (f : DeviceFormat) : Prop :=
  (sample_rate f <= U32_MAX)%N /\ (channels f <= 0xFFFF)%N /\ (buffer_frames f <= U32_MAX)%N.

Lemma end_pass_acts a :
  exists log, acts (end_pass a) = acts a ++ log /\ no_write log /\ running (end_pass a) = running a /\
    written (end_pass a) = written a /\ played (end_pass a) = played a /\ format (end_pass a) = format a.
Proof.
  unfold end_pass, no_write. destruct (sent a).
  - exists [ActDelivery]. split_and!; [done|by intros m ?%list_elem_of_singleton|done..].
  - exists []. split_and!; [by rewrite app_nil_r|by intros m ?%elem_of_nil|done..].
Qed.

Lemma frames_to_mix_room a q : (frames_to_mix a q <= buffer_frames (format a) - q)%N.
Proof. unfold frames_to_mix. destruct (_ && _); lia. Qed.

(** Stopped, the mixer has nothing written that has not played. *)
Definition settled (a : AudioLoop) : Prop := running a = false -> written a = played a.

Lemma no_write_app a b : no_write a -> no_write b -> no_write (a ++ b).
Proof. intros Ha Hb m [?|?]%elem_of_app; [by apply (Ha m)|by apply (Hb m)]. Qed.

Lemma no_write_stop log : log = [ActStop] \/ log = [ActStart] \/ log = [] -> no_write log.
Proof. intros [->|[->| ->]] m Hm; [by apply list_elem_of_singleton in Hm..|by apply elem_of_nil in Hm]. Qed.

(** A pass with nothing to mix. *)
Lemma tail_idle a0 q0 a q :
  device_part a0 q0 a q -> queued_fits a0 q0 -> (running a0 = false -> q0 = 0%N) ->
  let b := if running a && (q =? 0)%N
           then loop_forget_clock (set_running false (clock_base a) (ran_dry a) (do_act ActStop a)) else a in
  (exists log, acts (end_pass b) = acts a0 ++ log /\ no_write log) /\ format (end_pass b) = format a0 /\
  settled (end_pass b).
Proof.
  intros [(l1 & Ha & Hw & Hcase) Hf Hq] Hq0 Hr0 b. specialize (Hq Hq0).
  destruct (end_pass_acts b) as (l3 & Hl3 & Hw3 & Hr3 & Hwr3 & Hp3 & Hf3).
  assert (exists l2, acts b = acts a ++ l2 /\ no_write l2 /\ format b = format a /\
    (running b = false -> written b = played b)) as (l2 & Hl2 & Hw2 & Hf2 & Hset).
  { subst b. destruct (running a) eqn:Hr; simpl.
    - destruct (q =? 0)%N eqn:Hz; simpl.
      + exists [ActStop]. split_and!; [done|by apply no_write_stop; left|done|].
        apply N.eqb_eq in Hz as ->. unfold queued_fits in Hq. simpl. lia.
      + exists []. rewrite app_nil_r. split_and!; [done|by apply no_write_stop; right; right|done|congruence].
    - exists []. rewrite app_nil_r. split_and!; [done|by apply no_write_stop; right; right|done|].
      intros _. unfold queued_fits in Hq. destruct Hcase as [(_ & -> & _)|(_ & Hra & [->|[-> _]])]; try lia.
      rewrite Hr0 in Hq; [lia|congruence]. }
  split_and!; [|congruence|].
  - exists (l1 ++ l2 ++ l3). rewrite Hl3 Hl2 Ha !app_assoc. split; [done|].
    apply no_write_app; [by apply no_write_app|done].
  - unfold settled. rewrite Hr3 Hwr3 Hp3. done.
Qed.

Lemma tail_writes i a0 q0 a q :
  device_part a0 q0 a q -> typed (format a0) -> queued_fits a0 q0 -> (running a0 = false -> q0 = 0%N) ->
  let '(a', p) := pass_tail i a q in
  (exists log, acts a' = acts a0 ++ log /\ write_fits (format a0) q0 log) /\ format a' = format a0 /\
  (match p with PassWait _ => settled a' | _ => True end).
Proof.
  intros HD (_ & Hch & Hbuf) Hq0 Hr0. unfold pass_tail.
  set (a1 := publish_room (loop_heard_by_clock (in_clock i) (loop_fire a))).
  assert (device_part a0 q0 a1 q) as HD1.
  { eapply device_part_trans; [exact HD|]. eapply device_part_trans; [apply device_fire|].
    eapply device_part_trans; [apply device_clock|apply device_publish]. }
  clearbody a1. pose proof (frames_to_mix_room a1 q) as Hroom.
  destruct (0 <? frames_to_mix a1 q)%N eqn:Hpos.
  2: { destruct (tail_idle a0 q0 a1 q HD1 Hq0 Hr0) as ((log & Hl & Hw) & ? & ?).
       split_and!; [|done..]. exists log. split; [done|by left]. }
  apply N.ltb_lt in Hpos. set (n := frames_to_mix a1 q) in *. clearbody n.
  assert (device_part a0 q0 (note_underrun a1) q) as HD2 by (eapply device_part_trans; [exact HD1|apply device_note]).
  destruct HD2 as [(l1 & Ha & Hw & Hcase) Hf Hq]. rewrite (dp_format _ _ _ _ HD1) in Hroom.
  pose proof (mix_sources_spec n (note_underrun a1)) as HM. rewrite Hf in HM.
  destruct (mix_sources n (note_underrun a1)) as [a2 m].
  destruct HM as (_ & Hr2 & Hf2 & Hw2 & Hp2 & Ha2 & Hlen & Hrange).
  { unfold U64_MAX, U32_MAX in *. nia. }
  set (a3 := if running a2 then a2 else set_running false (written a2) (ran_dry a2) a2).
  assert (acts a3 = acts a2 /\ format a3 = format a2) as [Ha3 Hf3] by (subst a3; by destruct (running a2)).
  clearbody a3.
  assert (exists l2, acts (if in_write i && negb (running a3) then do_act ActStart (do_act (ActWrite m) a3)
      else do_act (ActWrite m) a3) = acts a0 ++ l1 ++ ActWrite m :: l2 /\ no_write l2 /\
      format (if in_write i && negb (running a3) then do_act ActStart (do_act (ActWrite m) a3)
      else do_act (ActWrite m) a3) = format a0) as (l2 & Ha4 & Hw4 & Hf4).
  { destruct (_ && _); simpl; rewrite Ha3 Ha2 Ha.
    - exists [ActStart]. rewrite -!app_assoc. split_and!; [done|by apply no_write_stop; auto|congruence].
    - exists []. rewrite -!app_assoc. split_and!; [done|by apply no_write_stop; auto|congruence]. }
  assert (forall b, acts b = acts a0 ++ l1 ++ ActWrite m :: l2 -> format b = format a0 ->
    (exists log, acts (end_pass b) = acts a0 ++ log /\ write_fits (format a0) q0 log) /\
    format (end_pass b) = format a0) as Hend.
  { intros b Hb Hfb. destruct (end_pass_acts b) as (l3 & Hl3 & Hw3 & _ & _ & _ & Hf5). split; [|congruence].
    exists (l1 ++ ActWrite m :: (l2 ++ l3)). rewrite Hl3 Hb -!app_assoc /=. split; [done|]. right.
    exists l1, m, (l2 ++ l3), n. split_and!; [done..|by apply no_write_app|congruence|done|].
    destruct (stopped_in l1) eqn:Hst; [lia|]. apply stopped_in_spec in Hst.
    destruct Hcase as [(? & _)|(_ & _ & [->|[-> Hr]])]; [done|lia|rewrite Hr0 //; lia]. }
  cbn [running do_act]. destruct (negb (in_write i && (running a3 || in_start i))).
  - destruct (Hend _ Ha4 Hf4) as [? ?]. done.
  - edestruct Hend as [H1 H2]; [| |split_and!; [exact H1|exact H2|]].
    + simpl. by destruct (tap _).
    + simpl. by destruct (tap _).
    + unfold settled, end_pass. simpl. by destruct (sent _).
Qed.

(** ** A pass, and a run *)

Lemma pass_writes i a q :
  typed (format a) -> settled a -> in_queued i = Some q ->
  let '(a', p) := pass i a in
  (exists log, acts a' = acts a ++ log /\ write_fits (format a) (N.min q (written a - played a)) log) /\
  format a' = format a /\ (match p with PassWait _ => settled a' | _ => True end).
Proof.
  intros Hty Hset Hq.
  assert (exists log, acts a = acts a ++ log /\ write_fits (format a) (N.min q (written a - played a)) log) as Hnone.
  { exists []. rewrite app_nil_r. split; [done|]. left. by intros m ?%elem_of_nil. }
  unfold pass. destruct (in_shutdown i); [done|]. rewrite Hq.
  set (q0 := N.min q (written a - played a)) in *. set (a0 := set_positions (written a) (written a - q0)%N a).
  destruct (in_reopen i); [done|].
  assert (queued_fits a0 q0) as Hfit by (unfold queued_fits; simpl; lia).
  assert (running a0 = false -> q0 = 0%N) as Hr0 by (intros Hr%Hset; subst q0; lia).
  set (a1 := feed_tap a0). set (a2 := if running a1 && _ && _ then _ else a1).
  assert (device_part a0 q0 a2 q0) as H2.
  { eapply (device_part_trans _ _ a1 q0).
    - subst a1. unfold feed_tap. destruct (negb (tap a0)); [by apply device_part_refl|].
      destruct (_ <? _)%N; [|by apply device_part_refl].
      match goal with |- context [do_act ?x a0] => apply (device_part_trans _ _ (do_act x a0) q0) end;
        [by apply device_part_act|by apply device_part_refl].
    - subst a2. destruct (running a1 && (q0 =? 0)%N && existsb mid_utterance (sources a1)); by apply device_part_refl. }
  clearbody a2. clear a1. pose proof (device_drain a2 q0) as H3. destruct (drain a2 q0) as [a3 q3].
  pose proof (device_read_controls (in_changed i) (in_controls i) a3 q3) as H4.
  destruct (read_controls _ _ a3 q3) as [a4 q4].
  exact (tail_writes i a0 q0 a4 q4 (device_part_trans _ _ _ _ _ _ H2 (device_part_trans _ _ _ _ _ _ H3 H4)) Hty Hfit Hr0).
Qed.

Lemma loop_fire_rest a :
  written (loop_fire a) = written a /\ played (loop_fire a) = played a /\ running (loop_fire a) = running a /\
  format (loop_fire a) = format a.
Proof. unfold loop_fire. by destruct (fire_sources _ _ _ _ _) as [[ss o] b]. Qed.

Lemma open_rest f a :
  written (open f a) = written a /\ played (open f a) = played a /\ running (open f a) = running a /\
  format (open f a) = f.
Proof. unfold open. simpl. destruct (_ && _); [done|]. by destruct (_ =? 0)%N. Qed.

Lemma recover_settled f a : settled (recover f a) /\ format (recover f a) = f.
Proof.
  unfold recover. cbv zeta. set (a4 := each_source (rewind _) _).
  assert (written a4 = played a4 /\ running a4 = false) as [Hw Hr] by done. clearbody a4.
  destruct (loop_fire_rest a4) as (W5 & P5 & R5 & _). destruct (open_rest f (loop_fire a4)) as (W6 & P6 & R6 & F6).
  destruct (loop_fire_rest (open f (loop_fire a4))) as (W7 & P7 & R7 & F7).
  set (a7 := loop_fire (open f (loop_fire a4))) in *. set (log := concat _). set (a8 := each_source _ a7).
  destruct (foldl_acts_rest log a8) as (R8 & F8 & W8 & P8).
  destruct (end_pass_acts (foldl (fun a x => do_act x a) a8 log)) as (l9 & _ & _ & R9 & W9 & P9 & F9).
  unfold settled. rewrite R9 W9 P9 F9 R8 F8 W8 P8. subst a8. simpl. split; [intros _|]; congruence.
Qed.

Lemma turn_settled i f a :
  typed (format a) -> settled a -> typed f ->
  settled (thread_turn i f a) /\ typed (format (thread_turn i f a)).
Proof.
  intros Hty Hset Hf. unfold thread_turn. destruct (in_queued i) as [q|] eqn:Hq.
  - pose proof (pass_writes i a q Hty Hset Hq) as HP. assert (in_shutdown i = true -> pass i a = (a, PassShutdown)) as Hsh.
    { intros Hs. unfold pass. by rewrite Hs. }
    destruct (in_shutdown i) eqn:Hs; [by rewrite Hsh|].
    destruct (pass i a) as [a' p] eqn:Hpass. destruct HP as (_ & Hfa & Hset'). destruct p.
    + split; [done|by rewrite Hfa].
    + destruct (recover_settled f a'). split; [done|congruence].
    + exfalso. revert Hpass. unfold pass. rewrite Hs Hq. destruct (in_reopen i); [done|]. simpl.
      destruct (drain _ _). destruct (read_controls _ _ _ _). destruct (0 <? _)%N; [|done].
      destruct (mix_sources _ _). by destruct (negb (_ && (_ || _))).
  - unfold pass. rewrite Hq. destruct (in_shutdown i); [done|].
    destruct (recover_settled f a). split; [done|congruence].
Qed.

Definition input_typed (x : MixInput) : Prop :=
  match x with InPass _ opened => typed opened | _ => True end.

Lemma run_settled xs : forall r,
  Forall input_typed xs -> settled (loop r) -> typed (format (loop r)) ->
  settled (loop (mix_run xs r)) /\ typed (format (loop (mix_run xs r))).
Proof.
  induction xs as [|x xs IH]; intros r Hxs Hset Hty; simpl; [done|].
  apply Forall_cons in Hxs as [Hx Hxs].
  assert (settled (loop (mix_step x r)) /\ typed (format (loop (mix_step x r)))) as [H1 H2]; [|by apply IH].
  destruct x as [lane rec|lane piece|i f|]; unfold mix_step; simpl.
  - unfold lane_push. simpl. destruct (lanes (loop r) !! lane) as [l|]; [|done]. by case_bool_decide.
  - destruct (push_samples lane piece (loop r)) as [a|] eqn:Hp; [|done].
    unfold push_samples in Hp. destruct (lanes (loop r) !! lane) as [l|]; [|done]. simpl in Hp.
    destruct (samples l) as [ring|]; [|done]. simpl in Hp. destruct (_ <=? _)%N; [|done]. by injection Hp as <-.
  - by apply turn_settled.
  - done.
Qed.

(** In any run of the mixer, what a pass asks of the device keeps the
    device's contract: it writes at most once, whole frames, never more than the
    buffer has free of what the device says it has still to play (the whole
    buffer once the pass has stopped it), and every sample within -1 and 1. *)
Theorem device_write_contract takes ls with_tap opened xs i q
    (Hopened : typed opened) (Hinputs : Forall input_typed xs) (Hqueued : in_queued i = Some q) :
  let a := loop (mix_run xs (start_mixer takes ls with_tap opened)) in
  exists log, acts (fst (pass i a)) = acts a ++ log /\
    write_fits (format a) (N.min q (written a - played a)) log.
Proof.
  intros a. destruct (run_settled xs (start_mixer takes ls with_tap opened) Hinputs) as [Hset Hty].
  - unfold start_mixer, settled. cbn [loop].
    match goal with |- context [open opened ?x] => by destruct (open_rest opened x) as (-> & -> & _) end.
  - unfold start_mixer. cbn [loop].
    match goal with |- context [open opened ?x] => by destruct (open_rest opened x) as (_ & _ & _ & ->) end.
  - pose proof (pass_writes i a q Hty Hset Hqueued) as HP. by destruct (pass i a) as [a' p]; destruct HP.
Qed.

Lemma device_write_contract_witness :
  let a := loop (mix_run two_utterances sample_start) in
  exists log, acts (fst (pass (quiet_pass 0 0) a)) = acts a ++ log /\
    write_fits (format a) (N.min 0 (written a - played a)) log.
Proof.
  apply (device_write_contract [true] [(0, 8, true)]%nat false usual_format two_utterances (quiet_pass 0 0) 0).
  - vm_compute. repeat split; discriminate.
  - repeat constructor; simpl; vm_compute; try discriminate.
  - reflexivity.
Defined.
