(* ===== verification/MixerEnd.v ===== *)
(** * The end of the mixer

    Its shutdown ends every utterance, and two runs in which a sound's utterance
    is lost or outlasts a cancel. *)

From S2P Require Import Prelude Facts Speech Store StoreProps StoreKept Mixer MixerProps MixerRun.

#[local] Arguments end_ids : simpl never.
#[local] Arguments made_ids : simpl never.
#[local] Arguments tracked_ids : simpl never.
#[local] Opaque OUTBOUND TRACKED EVENTS VOICES SEGMENTS.

(** ** What a source has still to send *)

(** A source with everything ended: only endings made at once, and voices done
    with. *)
Record finished (s : SourceState) : Prop := {
  fi_tracked : tracked s = [];
  fi_events : Forall (fun p => made_at_once (p_kind p) = true) (events s);
  fi_voices : Forall (fun v => v_state v = VoiceRetired) (voices s);
}.

Definition load (s : SourceState) : nat := length (events s) + length (voices s).

Lemma finished_end_all ending s : finished (end_all ending s).
Proof.
  unfold end_all. rewrite end_now_many. set (s1 := truncate _ s). clearbody s1. split; simpl; [done| |].
  - apply Forall_app. split; [apply Forall_fmap, Forall_forall; by intros t _|].
    apply Forall_forall. by intros p [_ ?]%list_elem_of_In%filter_In.
  - apply Forall_fmap, Forall_forall. intros v _. simpl. by case_bool_decide as Hv.
Qed.

Lemma end_all_load ending s : (load (end_all ending s) <= length (events s) + length (tracked s) + length (voices s))%nat.
Proof.
  unfold load. pose proof (less_end_all ending s) as []. lia.
Qed.

(** Firing a finished source sends until the ring is full or nothing is left. *)
Lemma fire_events_load i played es : forall s o snt,
  Forall (fun p => made_at_once (p_kind p) = true) es ->
  let '(s', o', _) := fire_events i played es s o snt in
  (length (events s') + length o' = length es + length o)%nat /\
  (ring_full o' = true \/ events s' = []) /\ tracked s' = tracked s /\ voices s' = voices s /\
  Forall (fun p => made_at_once (p_kind p) = true) (events s').
Proof.
  induction es as [|p es IH]; intros s o snt Hes; simpl; [naive_solver|].
  apply Forall_cons in Hes as [Hp Hes].
  assert (due played p s = true) as Hdue by (unfold due; by destruct (p_kind p)).
  rewrite Hdue /=. destruct (ring_full o) eqn:Hfull; [split_and!; try done; [naive_solver|by constructor]|].
  assert (let '(s1, r) := fire_one i p s in tracked s1 = tracked s /\ voices s1 = voices s) as H1.
  { unfold fire_one. by destruct (p_kind p). }
  destruct (fire_one i p s) as [s1 r]. destruct H1 as [<- <-]. rewrite ring_push_room //.
  specialize (IH s1 (o ++ [r]) true Hes). destruct (fire_events _ _ es _ _ _) as [[s' o'] b].
  rewrite length_app /= in IH. destruct IH as (? & ?). split; [lia|done].
Qed.

Lemma flush_load fuel : forall vs o snt,
  Forall (fun v => v_state v = VoiceRetired) vs -> (length vs <= fuel)%nat ->
  let '(vs', o', _) := flush_from fuel 0 vs o snt in
  (length vs' + length o' = length vs + length o)%nat /\ (ring_full o' = true \/ vs' = []) /\
  Forall (fun v => v_state v = VoiceRetired) vs'.
Proof.
  induction fuel as [|fuel IH]; intros vs o snt Hvs Hlen; simpl.
  { destruct vs; [naive_solver|simpl in *; lia]. }
  destruct vs as [|v vs]; simpl; [naive_solver|].
  pose proof Hvs as [Hv _]%Forall_cons. destruct (decide _) as [Hne|_]; [done|].
  destruct (ring_full o) eqn:Hfull; [naive_solver|]. rewrite ring_push_room //.
  pose proof (length_swap_remove 0 (v :: vs)) as Hlsr. simpl in Hlsr.
  specialize (IH (swap_remove 0 (v :: vs)) (o ++ [OutFrames (v_frames v)]) true).
  destruct (flush_from _ _ _ _ _) as [[vs' o'] b]. destruct IH as (Hl & Hf & Hr).
  - apply Forall_forall. intros x Hx%elem_of_swap_remove. rewrite Forall_forall in Hvs. by apply Hvs.
  - simpl in Hlen. lia.
  - rewrite length_app /= in Hl. split; [simpl; lia|done].
Qed.

Lemma release_voices_finished played s :
  finished s -> release_voices played s = s.
Proof.
  intros [_ _ Hv]. unfold release_voices.
  assert (forall ts es, release_voices_from (s_channels s) played (voices s) ts es = (voices s, ts, es)) as Heq.
  { induction Hv as [|v vs Hv _ IH]; intros ts es; simpl; [done|].
    unfold voice_played. rewrite Hv. by rewrite IH. }
  rewrite Heq. by destruct s.
Qed.

Lemma fire_load i played s o :
  finished s ->
  let '(s1, o1, _) := fire i played s o in
  let '(s2, o2, _) := flush_retired s1 o1 in
  finished s2 /\ (load s2 + length o2 = load s + length o)%nat /\ (ring_full o2 = true \/ load s2 = 0%nat).
Proof.
  intros Hf. unfold fire. rewrite release_voices_finished //. destruct Hf as [Ht He Hv].
  pose proof (fire_events_load i played _ s o false He) as HF.
  destruct (fire_events _ _ _ _ _ _) as [[s1 o1] b1]. destruct HF as (Hl & Hfull & HT & HV & He').
  destruct (release_segments_books played (segments s1) s1) as (HT1 & HE1 & HV1). unfold release_frames.
  unfold flush_retired. rewrite HV1 HV. pose proof (flush_load (length (voices s)) (voices s) o1 false Hv (le_n _)) as HL.
  pose proof (flush_from_spec (length (voices s)) 0 (voices s) o1 false) as HS.
  destruct (flush_from _ _ _ _ _) as [[vs o2] b2]. destruct HL as (Hl2 & Hfull2 & Hv2).
  assert (ring_full o1 = true -> ring_full o2 = true) as Hmono.
  { unfold ring_full. rewrite !bool_decide_eq_true. destruct HS as (_ & _ & new & -> & _). rewrite length_app. lia. }
  split_and!.
  - split; simpl; [by rewrite HT1 HT|by rewrite HE1|done].
  - unfold load in *. simpl. rewrite HE1. lia.
  - unfold load. simpl. rewrite HE1. destruct Hfull as [?| ->]; [naive_solver|]. destruct Hfull2 as [?| ->]; [by left|by right].
Qed.

(** ** The loop's load *)

Definition total (ss : list SourceState) : nat := sum_list (load <$> ss).

Lemma fire_sources_load played ss : forall k o snt,
  Forall finished ss ->
  let '(ss', o', _) := fire_sources k played ss o snt in
  Forall finished ss' /\ (total ss' + length o' = total ss + length o)%nat /\
  (ring_full o' = true \/ total ss' = 0%nat) /\ (length o <= length o')%nat /\ length ss' = length ss.
Proof.
  induction ss as [|s ss IH]; intros k o snt Hf; simpl; [split_and!; try done; by right|].
  apply Forall_cons in Hf as [Hs Hss]. pose proof (fire_load k played s o Hs) as H1.
  pose proof (same_source_fire k played s o) as H2.
  destruct (fire k played s o) as [[s1 o1] b1], (flush_retired s1 o1) as [[s2 o2] b2].
  destruct H1 as (Hs2 & Hl2 & Hfull2). destruct H2 as (new & -> & _). rewrite length_app in Hl2.
  specialize (IH (S k) (o ++ new) (snt || (b1 || b2)) Hss).
  destruct (fire_sources _ _ ss _ _) as [[ss' o'] b]. destruct IH as (Hss' & Hl' & Hfull' & Hlen & HL).
  rewrite length_app in Hl' Hlen. unfold total in *. csimpl. split_and!; [by constructor|lia| |lia|lia].
  destruct Hfull2 as [Hr|Hz].
  - left. revert Hr. unfold ring_full. rewrite !bool_decide_eq_true length_app. lia.
  - rewrite Hz. destruct Hfull' as [?|?]; [by left|right; lia].
Qed.

Lemma all_left_total a : Forall finished (sources a) -> all_left a = bool_decide (total (sources a) = 0%nat).
Proof.
  unfold all_left, total. induction 1 as [|s ss [_ _ Hv] _ IH]; csimpl; [done|]. rewrite IH.
  assert (nothing_retired s = bool_decide (length (voices s) = 0%nat)) as ->.
  { unfold nothing_retired. destruct Hv as [|v vs Hv _]; simpl; [done|].
    rewrite (bool_decide_eq_false_2 (v_state v <> VoiceRetired)); [done|congruence]. }
  unfold load, events_pending. destruct (events s), (voices s); simpl; try done.
  all: rewrite ?andb_false_r; by rewrite bool_decide_eq_false_2.
Qed.

#[local] Transparent OUTBOUND.
Lemma full_ring o : ring_full o = true -> (0 < length o)%nat.
Proof. unfold ring_full. rewrite bool_decide_eq_true. unfold OUTBOUND. lia. Qed.
#[local] Opaque OUTBOUND.

Lemma loop_fire_load a :
  Forall finished (sources a) ->
  let a' := end_pass (loop_fire a) in
  Forall finished (sources a') /\ length (sources a') = length (sources a) /\
  (total (sources a') + length (out a') = total (sources a) + length (out a))%nat /\
  (ring_full (out a') = true \/ total (sources a') = 0%nat).
Proof.
  intros Hf. cbv zeta. unfold loop_fire.
  pose proof (fire_sources_load (played a) (sources a) 0 (out a) (sent a) Hf) as HL.
  destruct (fire_sources _ _ _ _ _) as [[ss o] b]. destruct HL as (? & ? & ? & _ & ?).
  unfold end_pass. simpl. by destruct b.
Qed.

(** From an empty ring every round sends something, so the load is fuel enough,
    and one round more for what the ring held. *)
Lemma shut_down_loop_ends fuel : forall a d,
  Forall finished (sources a) -> out a = [] -> (total (sources a) < fuel)%nat ->
  exists a' d', shut_down_loop fuel a d = Some (a', d') /\ all_left a' = true /\ Forall finished (sources a').
Proof.
  induction fuel as [|fuel IH]; intros a d Hf Ho Hfuel; [lia|]. simpl.
  destruct (loop_fire_load a Hf) as (Hf' & _ & Hl & Hfull). set (a1 := end_pass (loop_fire a)) in *.
  destruct (all_left a1) eqn:Hleft; [by eexists _, _|]. apply IH; [done|done|]. simpl.
  rewrite all_left_total // bool_decide_eq_false in Hleft. destruct Hfull as [Hr%full_ring|?]; [|done].
  rewrite Ho /= in Hl. lia.
Qed.

Lemma shut_down_loop_total fuel a d :
  Forall finished (sources a) -> (1 + total (sources a) < fuel)%nat ->
  exists a' d', shut_down_loop fuel a d = Some (a', d') /\ all_left a' = true /\ Forall finished (sources a').
Proof.
  intros Hf Hfuel. destruct fuel as [|fuel]; [lia|]. simpl.
  pose proof (loop_fire_load a Hf) as (Hf' & _ & Hl & Hfull).
  assert (length (out a) <= length (out (end_pass (loop_fire a))))%nat as Hle.
  { unfold loop_fire. pose proof (fire_sources_load (played a) (sources a) 0 (out a) (sent a) Hf) as HL.
    destruct (fire_sources _ _ _ _ _) as [[ss o] b]. destruct HL as (_ & _ & _ & ? & _).
    unfold end_pass. simpl. by destruct b. }
  set (a1 := end_pass (loop_fire a)) in *.
  destruct (all_left a1) eqn:Hleft; [by eexists _, _|]. apply shut_down_loop_ends; [done|done|]. simpl. lia.
Qed.

(** ** The books at the end *)

Lemma inv_same a' d acc new r :
  mix_inv r -> NoDup (accepted r).*2.*1 -> accepted r = acc -> delivered r = d ->
  pass_advance new (loop r) a' -> mix_inv {| loop := a'; delivered := d; accepted := acc |}.
Proof. intros HI Hnd <- <- HP. by destruct (inv_advance _ _ _ _ HI Hnd HP eq_refl). Qed.

Lemma shut_down_loop_inv fuel : forall a d D acc a' d',
  NoDup acc.*2.*1 -> shut_down_loop fuel a d = Some (a', d') ->
  mix_inv {| loop := a; delivered := D ++ d; accepted := acc |} ->
  mix_inv {| loop := a'; delivered := D ++ d'; accepted := acc |} /\ lanes a' = lanes a.
Proof.
  induction fuel as [|fuel IH]; intros a d D acc a' d' Hnd Hs HI; [done|]. simpl in Hs.
  set (a1 := end_pass (loop_fire a)) in *.
  assert (keeps a a1) as [HS HL].
  { trans (loop_fire a); [split; [apply same_fire|apply loop_fire_lanes]|apply same_end_pass]. }
  destruct (still_pass _ _ HS HL) as (new & HP).
  pose proof (inv_same a1 (D ++ d) acc new _ HI Hnd eq_refl eq_refl HP) as HI1.
  destruct (all_left a1); [injection Hs as <- <-; by split|].
  destruct (IH _ _ D acc a' d' Hnd Hs) as [HI' HL']; [|by rewrite HL' /= HL].
  destruct HI1 as [HI1 HR1]. split; simpl; [|lia]. intros i s Hi. destruct (HI1 i s Hi) as (R & Hk & Hacc).
  exists R. unfold sent_log in *. simpl in *. by rewrite app_nil_r app_assoc.
Qed.

(** Rounds enough for [n] sources: each sends at least one record of what a
    source can hold, and one makes room. *)
Definition shut_down_rounds (n : nat) : nat := 2 + n * (EVENTS + TRACKED + VOICES).

Lemma total_bound ss :
  Forall (fun s => load s <= EVENTS + TRACKED + VOICES)%nat ss ->
  (total ss <= length ss * (EVENTS + TRACKED + VOICES))%nat.
Proof. unfold total. induction 1; csimpl; lia. Qed.

(** The state [shut_down]'s loop begins in. *)
Definition ended_loop (a : AudioLoop) : AudioLoop :=
  each_source (end_all EndCancelled) (set_running false (clock_base a) (ran_dry a) (do_act ActStop a)).

Lemma ended_loop_inv r :
  mix_inv r -> NoDup (accepted r).*2.*1 ->
  mix_inv {| loop := ended_loop (loop r); delivered := delivered r ++ []; accepted := accepted r |} /\
  Forall finished (sources (ended_loop (loop r))) /\
  (total (sources (ended_loop (loop r))) <= length (sources (loop r)) * (EVENTS + TRACKED + VOICES))%nat.
Proof.
  intros HI Hnd. split_and!.
  - assert (still_advance (loop r) (ended_loop (loop r))) as HS.
    { etrans; [|by apply still_end_all]. by apply still_idle. }
    destruct (still_pass _ _ (still_same _ _ HS) eq_refl) as (new & HP). rewrite app_nil_r.
    by eapply (inv_same _ _ _ new r).
  - simpl. apply Forall_fmap, Forall_forall. intros s _. apply finished_end_all.
  - simpl. etrans; [apply total_bound|by rewrite length_fmap].
    apply Forall_fmap, Forall_lookup. intros i s Hs. destruct HI as [HI _].
    destruct (HI i s Hs) as (R & [_ [A B C D F G H] _] & _). simpl. pose proof (end_all_load EndCancelled s). lia.
Qed.

Lemma acts_rooms ks : forall a,
  sources (foldl (fun a i => do_act (ActRoom i) a) a ks) = sources a /\
  out (foldl (fun a i => do_act (ActRoom i) a) a ks) = out a /\
  lanes (foldl (fun a i => do_act (ActRoom i) a) a ks) = lanes a.
Proof. induction ks as [|i ks IH]; intros a; simpl; [done|]. by destruct (IH (do_act (ActRoom i) a)) as (-> & -> & ->). Qed.

(** C22: the mixer's shutdown always finishes: with the delivery thread taking
    what the ring holds, a number of rounds fixed by the sources' limits is
    enough, and then every utterance a source had taken from its lanes has been
    reported ended, each exactly once over the whole run, and no event and no
    voice is left behind. *)
Theorem shutdown_ends_everything takes ls with_tap opened xs
    (Hdistinct : NoDup (pushed xs).*1) :
  let r := mix_run xs (start_mixer takes ls with_tap opened) in
  exists a' last, shut_down (shut_down_rounds (length (sources (loop r)))) (loop r) = Some (a', last) /\
    forall i s', sources a' !! i = Some s' ->
      events s' = [] /\ voices s' = [] /\
      (accepted_of i r).*1 ≡ₚ
        (lane_regs i (lanes (loop r))).*1 ++ omap ended_out (mine_of i (delivered r ++ last ++ out a')) /\
      NoDup (accepted_of i r).*1.
Proof.
  intros r. pose proof (started_inv xs takes ls with_tap opened Hdistinct) as HI.
  pose proof (run_NoDup xs takes ls with_tap opened Hdistinct) as Hnd. fold r in HI, Hnd.
  destruct (ended_loop_inv r HI Hnd) as (HI1 & Hf & Hload).
  destruct (shut_down_loop_total (shut_down_rounds (length (sources (loop r)))) (ended_loop (loop r)) []) as
    (a1 & d1 & Hs & Hleft & Hf1); [done|unfold shut_down_rounds; lia|].
  destruct (shut_down_loop_inv _ _ _ _ _ _ _ Hnd Hs HI1) as [HI2 HL2].
  unfold shut_down. change (each_source _ _) with (ended_loop (loop r)). rewrite Hs. simpl.
  eexists _, _. split; [done|]. cbn [do_act sources out]. intros i s'.
  destruct (acts_rooms (seq 0 (length (sources a1))) a1) as (-> & -> & _). intros Hs'.
  destruct HI2 as [HI2 _]. destruct (HI2 i s' Hs') as (R & [Hb _ _] & Hacc). simpl in Hacc.
  assert (events s' = [] /\ voices s' = [] /\ tracked s' = []) as (He & Hv & Ht).
  { rewrite all_left_total // bool_decide_eq_true in Hleft. pose proof (fi_tracked _ (Forall_lookup_1 _ _ _ _ Hf1 Hs')) as Ht.
    apply list_elem_of_lookup_2 in Hs'. clear -Hleft Hs' Ht. unfold total in Hleft.
    induction (sources a1) as [|s ss IH]; [by apply elem_of_nil in Hs'|]. csimpl in Hleft.
    apply elem_of_cons in Hs' as [->|Hs']; [|apply IH; [done|lia]].
    unfold load in Hleft. destruct (events s), (voices s); simpl in Hleft; try lia. done. }
  split_and!; [done..| |by apply accepted_NoDup].
  change (accepted_of i _) with (accepted_of i r) in Hacc.
  rewrite Hacc fmap_app (bk_perm _ _ _ _ _ Hb) Ht He HL2. unfold sent_log. simpl. rewrite app_assoc.
  change (lanes (ended_loop (loop r))) with (lanes (loop r)). unfold tracked_ids, made_ids. simpl.
  by rewrite Permutation_app_comm.
Qed.

Lemma shutdown_ends_everything_witness :
  let r := mix_run two_utterances sample_start in
  exists a' last, shut_down (shut_down_rounds (length (sources (loop r)))) (loop r) = Some (a', last) /\
    forall i s', sources a' !! i = Some s' ->
      events s' = [] /\ voices s' = [] /\
      (accepted_of i r).*1 ≡ₚ
        (lane_regs i (lanes (loop r))).*1 ++ omap ended_out (mine_of i (delivered r ++ last ++ out a')) /\
      NoDup (accepted_of i r).*1.
Proof.
  apply (shutdown_ends_everything [true] [(0, 8, true)]%nat false usual_format two_utterances).
  apply (bool_decide_unpack _). vm_compute. exact I.
Defined.

(** Two sources, sounds on the first and speech on the second. *)
Definition sound_start : MixRun :=
  start_mixer [false; true] [(0, 8, false); (1, 8, true)]%nat false usual_format.

(** A pass in which the sources' cancel generations are [g0] and [g1]. *)
Definition sound_pass (queued g0 g1 : N) : PassInput :=
  let cs := [{| cancel_generation := g0; paused := false |}; {| cancel_generation := g1; paused := false |}] in
  {| in_shutdown := false; in_reopen := false; in_queued := Some queued; in_changed := cs; in_controls := cs;
     in_clock := None; in_write := true; in_start := true |}.

Definition tone (n : nat) : NewVoice := {| nv_frames := repeat f32_one n; nv_gain := f32_one; nv_format := 1 |}.

(** A sound played as utterance 9, written whole to the device in one pass. *)
Definition exit_sound : list MixInput :=
  [InPush 0 (RecPlayToEnd (utt 9) (trc 1) (tone 8)); InPass (sound_pass 0 0 0) usual_format].

(** When nothing intervenes the utterance ends completed. *)
Example exit_sound_completes :
  sent_log (mix_run (exit_sound ++ [InPass (sound_pass 0 0 0) usual_format]) sound_start)
  = [OutEvent 0 (PlayEnded (utt 9) (trc 1) EndCompleted); OutFrames (repeat f32_one 8)].
Proof. vm_compute. reflexivity. Qed.

(** Passes in which nothing more happens change nothing. *)
Lemma idle_passes r x n : mix_step x r = r -> mix_run (repeat x n) r = r.
Proof. intros Hx. induction n as [|n IH]; simpl; [done|]. by rewrite Hx. Qed.


(** Utterance 1 with a sound at its end, longer than what follows. *)
Definition trailing_sound : list MixInput :=
  [InPush 1 (RecRegister (utt 1) (trc 1) 0); InSamples 1 (repeat f32_one 4); InPush 1 (RecFrames (utt 1) 1 2 4);
   InPush 1 (RecSound (utt 1) (tone 40)); InPush 1 (RecFinish (utt 1));
   InPass (sound_pass 0 0 0) usual_format; InPass (sound_pass 10 0 0) usual_format].

(** A cancel stops the sounds of the utterances it ends, not every sound of
    the source. The utterance here has ended completed while its sound plays;
    the pass that reads the source's generation raised stops the device and then
    writes the rest of that sound. *)
Theorem sound_outlives_cancel :
  let r := mix_run trailing_sound sound_start in
  let a' := fst (pass (sound_pass 5 0 1) (loop r)) in
  sent_log r = [OutEvent 1 (PlayStarted (utt 1) (trc 1)); OutEvent 1 (PlayEnded (utt 1) (trc 1) EndCompleted)] /\
  exists m, acts a' = acts (loop r) ++ [ActStop; ActWrite m; ActStart] /\ length m = 10%nat /\ Forall (eq f32_one) m /\
    exists s, sources a' !! 1%nat = Some s /\ s_generation s = 1%N /\ length (voices s) = 1%nat.
Proof.
  split; [vm_compute; reflexivity|]. eexists. split; [vm_compute; reflexivity|].
  split; [reflexivity|]. split; [repeat constructor|]. eexists. split; [vm_compute; reflexivity|].
  split; reflexivity.
Qed.
