(* ===== verification/Settings.v ===== *)
(** * Synthesizer settings

    The descriptors of [src/crates/verbatim-speech/src/settings.rs], the
    validation, mirror and handle of [host.rs], and the registry of
    [registry.rs]. A setting's value is typed by the descriptor with its id:
    [fits] says when a value has the descriptor's kind and lies within what it
    allows, and [validate] decides it. A factory is foreign code: what its
    [attempt]-th call gives. *)

From stdpp Require Import pretty.
From S2P Require Import Prelude Speech SpeechQueue.

(** ** Errors and descriptors *)

(** [driver::SynthError] and its [Display]. *)
Inductive SynthError :=
  | Unavailable (detail : string)
  | Setting (detail : string)
  | Synthesis (detail : string).

#[export] Instance SynthError_eq_dec : EqDecision SynthError.
Proof. solve_decision. Defined.

Definition show_error (self : SynthError) : string :=
  match self with
  | Unavailable detail => "synthesizer unavailable: " +:+ detail
  | Setting detail => "synthesizer setting rejected: " +:+ detail
  | Synthesis detail => "synthesis failed: " +:+ detail
  end.

(** [settings::SynthChoice]. *)
Record SynthChoice := { choice_id : SynthId; choice_name : string }.

#[export] Instance SynthChoice_eq_dec : EqDecision SynthChoice.
Proof. solve_decision. Defined.

(** [settings::SettingDescriptor]. *)
Inductive SettingDescriptor :=
  | NumericOf (id : SettingId) (label_key : string) (min max small_step normal_step large_step : Z)
  | ChoiceOf (id : SettingId) (label_key : string) (options : list (string * string))
  | ToggleOf (id : SettingId) (label_key : string).

#[export] Instance SettingDescriptor_eq_dec : EqDecision SettingDescriptor.
Proof. solve_decision. Defined.

(** [SettingDescriptor::standard_numeric], [id] and [label_key]. *)
Definition standard_numeric (id : SettingId) (label_key : string) : SettingDescriptor :=
  NumericOf id label_key 0 100 1 5 10.

Definition descriptor_id (self : SettingDescriptor) : SettingId :=
  match self with
  | NumericOf id _ _ _ _ _ _ | ChoiceOf id _ _ | ToggleOf id _ => id
  end.

Definition descriptor_label (self : SettingDescriptor) : string :=
  match self with
  | NumericOf _ label _ _ _ _ _ | ChoiceOf _ label _ | ToggleOf _ label => label
  end.

(** What a driver's settings are read as: ids with values, in order. *)
Notation Values := (list (SettingId * SettingValue)).

Definition value_of (id : SettingId) (values : Values) : option SettingValue :=
  snd <$> List.find (fun p => bool_decide (p.1 = id)) values.

(** ** Validation *)

(** The value is of the descriptor's kind and within what it allows. *)
Inductive value_fits : SettingDescriptor -> SettingValue -> Prop :=
  | fits_number id label min max s n l x :
      (min <= x <= max)%Z -> value_fits (NumericOf id label min max s n l) (Number x)
  | fits_choice id label options name shown :
      (name, shown) ∈ options -> value_fits (ChoiceOf id label options) (Choice name)
  | fits_toggle id label on : value_fits (ToggleOf id label) (Toggled on).

Definition find_descriptor (descriptors : list SettingDescriptor) (id : SettingId) :
    option SettingDescriptor :=
  List.find (fun d => bool_decide (descriptor_id d = id)) descriptors.

(** The typing of a value under the descriptors: the first with its id. *)
Definition fits (descriptors : list SettingDescriptor) (id : SettingId) (value : SettingValue) : Prop :=
  exists d, find_descriptor descriptors id = Some d /\ value_fits d value.

(** [host::validate]; [None] is [Ok(())]. *)
Definition validate (descriptors : list SettingDescriptor) (id : SettingId) (value : SettingValue) :
    option SynthError :=
  match find_descriptor descriptors id with
  | None => Some (Setting ("unknown setting " +:+ id))
  | Some descriptor =>
      match descriptor, value with
      | NumericOf _ _ min max _ _ _, Number number =>
          if ((min <=? number) && (number <=? max))%Z then None
          else Some (Setting ("setting " +:+ id +:+ " value " +:+ pretty number +:+ " outside "
                              +:+ pretty min +:+ "..=" +:+ pretty max))
      | ChoiceOf _ _ options, Choice choice =>
          if existsb (fun '(option_id, _) => bool_decide (option_id = choice)) options then None
          else Some (Setting ("setting " +:+ id +:+ " has no option " +:+ choice))
      | ToggleOf _ _, Toggled _ => None
      | _, _ => Some (Setting ("setting " +:+ id +:+ " value has the wrong type"))
      end
  end.

(** ** The registry *)

Section registry.
Context {D : Type}.

(** [registry::SynthFactory]: what the factory gives at each of the registry's
    builds. *)
Definition SynthFactory := nat -> SynthError + D.

(** [registry::RegisteredSynth] and [SynthRegistry]. *)
Record RegisteredSynth := { reg_id : SynthId; reg_name : string; reg_factory : SynthFactory }.
Definition SynthRegistry := list RegisteredSynth.

Definition registry_new : SynthRegistry := [].

(** [SynthRegistry::register]. *)
Fixpoint register (id : SynthId) (name : string) (factory : SynthFactory) (self : SynthRegistry) :
    SynthRegistry :=
  match self with
  | [] => [{| reg_id := id; reg_name := name; reg_factory := factory |}]
  | entry :: self =>
      if decide (reg_id entry = id)
      then {| reg_id := reg_id entry; reg_name := name; reg_factory := factory |} :: self
      else entry :: register id name factory self
  end.

Definition find_entry (self : SynthRegistry) (id : SynthId) : option RegisteredSynth :=
  List.find (fun entry => bool_decide (reg_id entry = id)) self.

Definition choice_from (entry : RegisteredSynth) : SynthChoice :=
  {| choice_id := reg_id entry; choice_name := reg_name entry |}.

(** [SynthRegistry::choices], [choice], [contains] and [build]. *)
Definition choices (self : SynthRegistry) : list SynthChoice := choice_from <$> self.
Definition choice (self : SynthRegistry) (id : SynthId) : option SynthChoice :=
  choice_from <$> find_entry self id.
Definition contains (self : SynthRegistry) (id : SynthId) : bool :=
  existsb (fun entry => bool_decide (reg_id entry = id)) self.
Definition build (self : SynthRegistry) (id : SynthId) (attempt : nat) : SynthError + D :=
  match find_entry self id with
  | Some entry => reg_factory entry attempt
  | None => inl (Unavailable ("no synthesizer registered as " +:+ id))
  end.

End registry.
Arguments SynthFactory : clear implicits.
Arguments RegisteredSynth : clear implicits.
Arguments SynthRegistry : clear implicits.

(** ** The mirror and its handle *)

(** [host::MirrorState]. *)
Record Mirror := {
  m_synths : list SynthChoice;
  m_active : option SynthChoice;
  m_descriptors : list SettingDescriptor;
  m_values : Values;
}.

Definition new_mirror : Mirror :=
  {| m_synths := []; m_active := None; m_descriptors := []; m_values := [] |}.

(** [Mirror::set_driver] and [set_values]. *)
Definition set_driver (synths : list SynthChoice) (active : SynthChoice)
    (descriptors : list SettingDescriptor) (values : Values) (self : Mirror) : Mirror :=
  {| m_synths := synths; m_active := Some active; m_descriptors := descriptors; m_values := values |}.
Definition set_values (values : Values) (self : Mirror) : Mirror :=
  {| m_synths := m_synths self; m_active := m_active self; m_descriptors := m_descriptors self;
     m_values := values |}.

Definition STOPPED : SynthError := Unavailable "speech pipeline stopped".

(** [SettingsHost]'s getters, and its posts: the result and what went to the
    queue, whose inbox may be [closed]. *)
Definition host_synthesizers (m : Mirror) : list SynthChoice := m_synths m.
Definition host_active (m : Mirror) : SynthChoice :=
  default {| choice_id := ""; choice_name := "" |} (m_active m).
Definition host_descriptors (m : Mirror) : list SettingDescriptor := m_descriptors m.
Definition host_setting (m : Mirror) (id : SettingId) : option SettingValue :=
  value_of id (m_values m).

Definition host_post (closed : bool) (event : QueueEvent) : option SynthError * list QueueEvent :=
  if closed then (Some STOPPED, []) else (None, [event]).
Definition host_set_setting (m : Mirror) (closed : bool) (id : SettingId) (value : SettingValue)
    (change : N) : option SynthError * list QueueEvent :=
  match validate (m_descriptors m) id value with
  | Some error => (Some error, [])
  | None => host_post closed (ApplySetting id value change)
  end.
Definition host_commit (closed : bool) : option SynthError * list QueueEvent := host_post closed Commit.
Definition host_revert (closed : bool) : list QueueEvent := (host_post closed Revert).2.

(** [switch_synthesizer]: what is posted, or the failure [reply] is answered. *)
Definition host_switch (closed : bool) (id : SynthId) (reply : N) :
    list QueueEvent + (N * SynthError) :=
  if closed then inr (reply, STOPPED) else inl [SwitchSynth id reply].

(** ** Properties *)

(** A name is among the options just when the scan finds it. *)
Lemma option_known (options : list (string * string)) (name : string) :
  existsb (fun '(option_id, _) => bool_decide (option_id = name)) options = true <->
  exists shown, (name, shown) ∈ options.
Proof.
  rewrite existsb_exists. split.
  - intros ([o shown] & Hin & Ho). apply bool_decide_eq_true in Ho as ->.
    exists shown. by apply list_elem_of_In.
  - intros [shown Hin]. exists (name, shown). split; [by apply list_elem_of_In|].
    by apply bool_decide_eq_true.
Qed.

(** [validate] decides the typing. *)
Lemma validate_fits descriptors id value :
  validate descriptors id value = None <-> fits descriptors id value.
Proof.
  unfold validate, fits. destruct (find_descriptor descriptors id) as [d|].
  2:{ split; [done|]. by intros (d & ? & _). }
  split.
  - intros H. exists d. split; [done|].
    destruct d as [i l mn mx s n lg|i l os|i l], value as [x|name|on]; simplify_eq.
    + destruct (Z.leb_spec mn x), (Z.leb_spec x mx); simplify_eq/=. by constructor.
    + destruct (existsb _ os) eqn:Ho; simplify_eq. apply option_known in Ho as [shown Ho].
      by econstructor.
    + constructor.
  - intros (d' & [= <-] & Hf). destruct Hf as [i l mn mx s n lg x Hx|i l os name shown Hin|i l on].
    + by rewrite (proj2 (Z.leb_le mn x)) ?(proj2 (Z.leb_le x mx)); [|lia..].
    + by rewrite (proj2 (option_known os name)); [|exists shown].
    + done.
Qed.

(** A scan for an id finds an entry of the list with that id; and, when the ids
    are distinct, every entry by its own. *)
Lemma find_by_Some {A} (key : A -> string) (l : list A) (id : string) (x : A) :
  List.find (fun y => bool_decide (key y = id)) l = Some x -> key x = id /\ x ∈ l.
Proof.
  intros H. apply find_some in H as [Hin Hk]. apply bool_decide_eq_true in Hk.
  split; [done|]. by apply list_elem_of_In.
Qed.

Lemma find_by_own {A} (key : A -> string) (l : list A) (x : A) :
  NoDup (key <$> l) -> x ∈ l -> List.find (fun y => bool_decide (key y = key x)) l = Some x.
Proof.
  induction l as [|y l IH]; simpl; intros Hnd Hin; [by apply elem_of_nil in Hin|].
  apply NoDup_cons in Hnd as [Hy Hnd]. apply elem_of_cons in Hin as [->|Hin].
  { by rewrite bool_decide_eq_true_2. }
  rewrite bool_decide_eq_false_2; [by apply IH|].
  intros Heq. apply Hy. rewrite Heq. by apply list_elem_of_fmap_2.
Qed.

Section registry_props.
Context {D : Type}.
Implicit Types self : SynthRegistry D.

(** Registering finds the new factory under its id, and every other id as
    before. *)
Lemma register_find id id' name (factory : SynthFactory D) self :
  find_entry (register id name factory self) id' =
  if decide (id' = id) then Some {| reg_id := id; reg_name := name; reg_factory := factory |}
  else find_entry self id'.
Proof.
  induction self as [|e self IH]; unfold find_entry in *; simpl.
  { destruct (decide (id' = id)) as [->|Hn]; [by rewrite bool_decide_eq_true_2|].
    by rewrite bool_decide_eq_false_2. }
  destruct (decide (reg_id e = id)) as [He|He]; simpl.
  - subst id. destruct (decide (id' = reg_id e)) as [->|Hn]; [by rewrite bool_decide_eq_true_2|].
    by rewrite !bool_decide_eq_false_2.
  - destruct (decide (reg_id e = id')) as [Hd|Hd].
    + rewrite bool_decide_eq_true_2 // decide_False //. congruence.
    + by rewrite bool_decide_eq_false_2.
Qed.

(** It keeps the order of the list, and its ids distinct. *)
Lemma register_ids id name (factory : SynthFactory D) self :
  reg_id <$> register id name factory self =
  if contains self id then reg_id <$> self else (reg_id <$> self) ++ [id].
Proof.
  induction self as [|e self IH]; csimpl; [done|]. unfold contains in *. csimpl.
  destruct (decide (reg_id e = id)) as [He|He]; csimpl; [by rewrite bool_decide_eq_true_2|].
  rewrite IH bool_decide_eq_false_2 //. simpl. by case_match.
Qed.

Lemma contains_spec self id : contains self id = true <-> id ∈ reg_id <$> self.
Proof.
  unfold contains. rewrite existsb_exists list_elem_of_fmap. split.
  - intros (e & Hin & He). apply bool_decide_eq_true in He as <-.
    exists e. by rewrite list_elem_of_In.
  - intros (e & -> & Hin). exists e. rewrite -list_elem_of_In. split; [done|].
    by apply bool_decide_eq_true.
Qed.

Lemma register_NoDup id name (factory : SynthFactory D) self :
  NoDup (reg_id <$> self) -> NoDup (reg_id <$> register id name factory self).
Proof.
  intros Hnd. rewrite register_ids. destruct (contains self id) eqn:Hc; [done|].
  apply NoDup_app. split_and!; [done| |apply NoDup_singleton].
  intros x Hx ->%list_elem_of_singleton. apply contains_spec in Hx. congruence.
Qed.

(** A registry made by registering alone. *)
Definition registered (entries : list (SynthId * string * SynthFactory D)) : SynthRegistry D :=
  foldl (fun self '(id, name, factory) => register id name factory self) registry_new entries.

(** [choices] lists, each once and where it was first registered, the ids
    registered; and each id is built by, and shown under, what it was last
    registered as. *)
Theorem registry_keeps_latest entries :
  let self := registered entries in
  NoDup (choice_id <$> choices self) /\
  (forall id, id ∈ choice_id <$> choices self <-> contains self id = true) /\
  (forall before id name factory after,
     entries = before ++ (id, name, factory) :: after -> id ∉ after.*1.*1 ->
     choice self id = Some {| choice_id := id; choice_name := name |} /\
     forall attempt, build self id attempt = factory attempt).
Proof.
  assert (forall self, choice_id <$> choices self = reg_id <$> self) as Hids.
  { intros self. unfold choices. rewrite -list_fmap_compose. by apply list_fmap_ext. }
  assert (forall es self, NoDup (reg_id <$> self) ->
    NoDup (reg_id <$> foldl (fun self '(id, name, factory) => register id name factory self) self es)) as Hnd.
  { induction es as [|[[i n] f] es IH]; intros self H; simpl; [done|]. by apply IH, register_NoDup. }
  assert (forall es self id, id ∉ es.*1.*1 ->
    find_entry (foldl (fun self '(id, name, factory) => register id name factory self) self es) id =
    find_entry self id) as Hfind.
  { induction es as [|[[i n] f] es IH]; intros self id H; simpl in *; [done|].
    apply not_elem_of_cons in H as [H1 H2]. rewrite IH // register_find.
    by rewrite decide_False. }
  intros self. split_and!.
  - rewrite Hids. apply Hnd. constructor.
  - intros id. by rewrite Hids contains_spec.
  - intros before id name factory after -> Hafter.
    assert (find_entry self id = Some {| reg_id := id; reg_name := name; reg_factory := factory |}) as He.
    { unfold self, registered. rewrite foldl_app. simpl. rewrite Hfind // register_find.
      by rewrite decide_True. }
    unfold choice, build. by rewrite He.
Qed.

End registry_props.
