(* ===== verification/Synth.v ===== *)
(** * The synth thread

    The thread of [src/crates/verbatim-speech/src/manager.rs] that runs the
    active synthesizer ([SynthThread], [run_job], [PipelineSink]), with the
    contract of [driver.rs] it runs drivers by. A driver is foreign code: the
    class [SynthDriver] is its trait, and [speak] is the program of the calls it
    makes on its sink, [Speaking], whose continuations take the sink's answers.
    What other threads do meanwhile is [Surroundings]: what each read of the
    job's token finds, and whether the mixer refuses each write. What the thread
    does is the list of its acts, in order. *)

From S2P Require Import Prelude Tree Facts Speech SpeechQueue Trim Settings.

(** ** Drivers *)

(** [driver::SynthTiming]. *)
Record SynthTiming := { request_us : N; to_host_us : N; first_chunk_us : N; return_us : N }.

(** [SynthDriver::speak] as the calls it makes on the [SynthSink], and what it
    returns; [true] in answer to a push is [ControlFlow::Break]. *)
Inductive Speaking (D : Type) :=
  | Returns (result : option SynthError) (d : D)
  | PushPcm (format : PcmFormat) (pcm : list Z) (next : bool -> Speaking D)
  | IndexReached (mark : IndexMark) (next : Speaking D)
  | IsCancelled (next : bool -> Speaking D)
  | Timing (timing : SynthTiming) (next : Speaking D)
  | OnCancel (wake : N) (next : Speaking D).
Arguments Returns {D}.
Arguments PushPcm {D}.
Arguments IndexReached {D}.
Arguments IsCancelled {D}.
Arguments Timing {D}.
Arguments OnCancel {D}.

(** The trait [SynthDriver]; a change gives the driver after it and, when
    refused, why. *)
Class SynthDriver (D : Type) := {
  driver_id : D -> SynthId;
  driver_name : D -> string;
  supported_settings : D -> list SettingDescriptor;
  setting : D -> SettingId -> option SettingValue;
  set_setting : SettingId -> SettingValue -> D -> D * option SynthError;
  places_marks : D -> bool;
  changes_pitch : D -> bool;
  speak : SpeechSequence -> D -> Speaking D;
}.

(** The trait [SpeechSettingsStore]. *)
Class SpeechSettingsStore (St : Type) := {
  saved : St -> SynthId -> Values;
  persist : SynthId -> bool -> Values -> St -> St;
}.

(** ** The token *)

Module Token.

(** [driver::CancelToken]; each operation with the wakers it calls. *)
Record CancelToken := { cancelled : bool; waker : option N }.
Definition new : CancelToken := {| cancelled := false; waker := None |}.
Definition cancel (self : CancelToken) : CancelToken * list N :=
  ({| cancelled := true; waker := None |}, option_list (waker self)).
Definition on_cancel (wake : N) (self : CancelToken) : CancelToken * list N :=
  if cancelled self then (self, [wake])
  else ({| cancelled := cancelled self; waker := Some wake |}, []).

(** Any sequence of its operations: [None] cancels. *)
Definition token_step (op : option N) (self : CancelToken) : CancelToken * list N :=
  match op with None => cancel self | Some wake => on_cancel wake self end.
Fixpoint token_run (ops : list (option N)) (self : CancelToken) : CancelToken * list N :=
  match ops with
  | [] => (self, [])
  | op :: ops =>
      let '(self, woken) := token_step op self in
      let '(self, more) := token_run ops self in (self, woken ++ more)
  end.

(** The wakers due: the last registered before the first cancel, at it, and each
    registered after it. *)
Fixpoint wakes_due (ops : list (option N)) (last_ : option N) : list N :=
  match ops with
  | [] => []
  | Some wake :: ops => wakes_due ops (Some wake)
  | None :: ops => option_list last_ ++ omap (fun op => op) ops
  end.

Lemma cancelled_wakes ops : forall self,
  cancelled self = true -> waker self = None ->
  (token_run ops self).2 = omap (fun op => op) ops.
Proof.
  induction ops as [|op ops IH]; intros self Hc Hw; simpl; [done|].
  destruct op as [w|]; simpl.
  - unfold on_cancel. rewrite Hc. specialize (IH self Hc Hw).
    destruct (token_run ops self) as [s m]. simpl in *. by rewrite IH.
  - unfold cancel. rewrite Hw. simpl.
    specialize (IH {| cancelled := true; waker := None |} eq_refl eq_refl).
    destruct (token_run ops _) as [s m]. simpl in *. by rewrite IH.
Qed.

(** A cancel wakes, once, the driver that is waiting, and one that comes to wait
    after it at once; no driver is woken without a cancel. *)
Lemma token_wakes ops : (token_run ops new).2 = wakes_due ops None.
Proof.
  unfold new. generalize (@None N) as last_.
  induction ops as [|[w|] ops IH]; intros last_; simpl; [done| |].
  - specialize (IH (Some w)). destruct (token_run ops _) as [s m]. by simpl in *.
  - pose proof (cancelled_wakes ops {| cancelled := true; waker := None |} eq_refl eq_refl) as H.
    destruct (token_run ops _) as [s m]. simpl in *. by rewrite H.
Qed.

End Token.

(** ** What the thread does *)

Inductive SynthAct :=
  | LaneRegister (u : UtteranceId) (trace : TraceId) (generation : N)
  | LaneWrite (u : UtteranceId) (format : PcmFormat) (pcm : list Z)
  | LaneMark (u : UtteranceId) (mark : N)
  | LaneSound (u : UtteranceId) (sound gain : N)
  | LaneFinish (u : UtteranceId)
  | LaneFail (u : UtteranceId) (reason : string)
  | SynthesisStarted (u : UtteranceId) (trace : TraceId)
  | SynthesizerAudio (u : UtteranceId) (trace : TraceId)
  | AudioToMixer (u : UtteranceId) (trace : TraceId)
  | ReportTiming (u : UtteranceId) (trace : TraceId) (timing : SynthTiming)
  | TokenRead (cancelled : bool)
  | TokenWaker (wake : N)
  | DriverSpeaks (piece : SpeechSequence)
  | DriverSet (id : SettingId) (value : SettingValue)
  | PostFinished
  | AnswerGui (change : N) (values : Values)
  | AnswerSwitch (reply : N) (outcome : option SynthError)
  | DropSwitch (reply : N)
  | RunSettled (done_ : N)
  | ReportStartup (outcome : option SynthError).

(** What the other threads do to a job: the answer of each of its reads of its
    token, and of each of its writes to the lane. *)
Record Surroundings := { token_reads : nat -> bool; lane_breaks : nat -> bool }.

(** ** A job *)

(** [PipelineSink]'s state, and how many times the token was read and the lane
    written. *)
Record Sink := {
  trimmer : Trimmer;
  stopped : bool;
  driver_audio : bool;
  mixer_audio : bool;
  reads : nat;
  writes : nat;
}.

Definition new_sink : Sink :=
  {| trimmer := new_trimmer; stopped := false; driver_audio := false; mixer_audio := false;
     reads := 0; writes := 0 |}.
Definition with_trimmer (t : Trimmer) (s : Sink) : Sink :=
  {| trimmer := t; stopped := stopped s; driver_audio := driver_audio s; mixer_audio := mixer_audio s;
     reads := reads s; writes := writes s |}.
Definition with_driver_audio (s : Sink) : Sink :=
  {| trimmer := trimmer s; stopped := stopped s; driver_audio := true; mixer_audio := mixer_audio s;
     reads := reads s; writes := writes s |}.
Definition count_read (s : Sink) : Sink :=
  {| trimmer := trimmer s; stopped := stopped s; driver_audio := driver_audio s;
     mixer_audio := mixer_audio s; reads := S (reads s); writes := writes s |}.
Definition after_write (refused : bool) (s : Sink) : Sink :=
  {| trimmer := trimmer s; stopped := stopped s || refused; driver_audio := driver_audio s;
     mixer_audio := true; reads := reads s; writes := S (writes s) |}.

Definition PITCH : SettingId := "pitch".

Section job.
Context `{SynthDriver D}.
Context (env : Surroundings) (observed : bool).

(** [CancelToken::is_cancelled] of the job's token, now. *)
Definition read_token (s : Sink) : bool * Sink * list SynthAct :=
  (token_reads env (reads s), count_read s, [TokenRead (token_reads env (reads s))]).

(** A call on the observer, when there is one. *)
Definition report (x : SynthAct) : list SynthAct := if observed then [x] else [].

(** What the sink does with a mark it passes on. *)
Definition forward_mark (sounds : list SoundCue) (u : UtteranceId) (m : IndexMark) : list SynthAct :=
  match Sequence.mark_reads sounds m with
  | inl (Some cue) => [LaneSound u (cue_sound cue) (cue_gain cue)]
  | inl None => []
  | inr m => [LaneMark u (index m)]
  end.

Section sink.
Context (u : UtteranceId) (trace : TraceId) (sounds : list SoundCue).

(** [PipelineSink::forward]; [true] is [Break]. *)
Fixpoint forward (pieces : list Piece) (s : Sink) : Sink * list SynthAct * bool :=
  match pieces with
  | [] => (s, [], false)
  | Pcm format pcm :: pieces =>
      let first := if mixer_audio s then [] else report (AudioToMixer u trace) in
      let refused := lane_breaks env (writes s) in
      let s := after_write refused s in
      if refused then (s, first ++ [LaneWrite u format pcm], true)
      else
        let '(s, more, break) := forward pieces s in
        (s, first ++ [LaneWrite u format pcm] ++ more, break)
  | PieceMark m :: pieces =>
      let '(s, more, break) := forward pieces s in
      (s, forward_mark sounds u m ++ more, break)
  end.

(** [PipelineSink::push_pcm], [index_reached] and [is_cancelled]. *)
Definition push_pcm (format : PcmFormat) (pcm : list Z) (s : Sink) : Sink * list SynthAct * bool :=
  if stopped s then (s, [], true)
  else
    let '(cancelled, s, read) := read_token s in
    if cancelled then (s, read, true)
    else
      let first := if driver_audio s then [] else report (SynthesizerAudio u trace) in
      let '(t, pieces) := push format pcm (trimmer s) in
      let '(s, acts, break) := forward pieces (with_trimmer t (with_driver_audio s)) in
      (s, read ++ first ++ acts, break).

Definition index_reached (m : IndexMark) (s : Sink) : Sink * list SynthAct :=
  if stopped s then (s, [])
  else
    let '(t, pieces) := Trim.mark m (trimmer s) in
    let '(s, acts, _) := forward pieces (with_trimmer t s) in (s, acts).

Definition is_cancelled (s : Sink) : bool * Sink * list SynthAct :=
  if stopped s then (true, s, []) else read_token s.

(** A driver's calls, answered by the sink. *)
Fixpoint run_speak (p : Speaking D) (s : Sink) : Sink * list SynthAct * option SynthError * D :=
  match p with
  | Returns result d => (s, [], result, d)
  | PushPcm format pcm next =>
      let '(s, acts, break) := push_pcm format pcm s in
      let '(s, more, result, d) := run_speak (next break) s in (s, acts ++ more, result, d)
  | IndexReached m next =>
      let '(s, acts) := index_reached m s in
      let '(s, more, result, d) := run_speak next s in (s, acts ++ more, result, d)
  | IsCancelled next =>
      let '(answer, s, acts) := is_cancelled s in
      let '(s, more, result, d) := run_speak (next answer) s in (s, acts ++ more, result, d)
  | Timing timing next =>
      let '(s, more, result, d) := run_speak next s in
      (s, report (ReportTiming u trace timing) ++ more, result, d)
  | OnCancel wake next =>
      let '(s, more, result, d) := run_speak next s in (s, TokenWaker wake :: more, result, d)
  end.

(** The marks of a piece with nothing to say, placed where it stands. *)
Fixpoint place_marks (rest : list SpeechItem) (s : Sink) : Sink * list SynthAct :=
  match rest with
  | [] => (s, [])
  | ItemMark m :: rest =>
      let '(s, acts) := index_reached m s in
      let '(s, more) := place_marks rest s in (s, acts ++ more)
  | _ :: rest => place_marks rest s
  end.

(** [set_pitch]; [i32]'s [saturating_add] and [clamp]. *)
Definition saturating_add_i32 (a b : Z) : Z := Z.max (- 2 ^ 31) (Z.min (2 ^ 31 - 1) (a + b)).
Definition clamp (low high x : Z) : Z := Z.max low (Z.min high x).
Definition set_pitch (pitch : Z) (d : D) : D * list SynthAct :=
  let value := Number (clamp 0 100 pitch) in
  ((set_setting PITCH value d).1, [DriverSet PITCH value]).

(** The turn of [run_job]'s loop: what it does with a piece, and whether it
    breaks off. *)
Definition speak_piece (piece : SpeechSequence) (d : D) (s : Sink) :
    Sink * D * list SynthAct * option SynthError * bool :=
  if Sequence.has_text piece then
    let '(s, acts, result, d) := run_speak (speak piece d) s in
    let acts := DriverSpeaks piece :: acts in
    match result with
    | Some error => (s, d, acts, Some error, true)
    | None =>
        if stopped s then (s, d, acts, None, true)
        else let '(cancelled, s, read) := read_token s in (s, d, acts ++ read, None, cancelled)
    end
  else let '(s, acts) := place_marks (items piece) s in (s, d, acts, None, false).

(** What follows a piece: the item the sequence was split at. *)
Definition after_piece (base_pitch : option Z) (after : option SpeechItem) (d : D) (s : Sink) :
    Sink * D * list SynthAct :=
  match after, base_pitch with
  | Some (ItemMark m), _ => let '(s, acts) := index_reached m s in (s, d, acts)
  | Some (ItemPitch offset), Some base =>
      let '(d, acts) := set_pitch (saturating_add_i32 base offset) d in (s, d, acts)
  | _, _ => (s, d, [])
  end.

Fixpoint speak_pieces (base_pitch : option Z) (pieces : list (SpeechSequence * option SpeechItem))
    (d : D) (s : Sink) : Sink * D * list SynthAct * option SynthError :=
  match pieces with
  | [] => (s, d, [], None)
  | (piece, after) :: pieces =>
      let '(s, d, acts, result, broke) := speak_piece piece d s in
      if broke then (s, d, acts, result)
      else
        let '(s, d, then_) := after_piece base_pitch after d s in
        let '(s, d, more, result) := speak_pieces base_pitch pieces d s in
        (s, d, acts ++ then_ ++ more, result)
  end.

(** [run_job]'s end: the audio complete, or why synthesis failed. *)
Definition end_job (result : option SynthError) (s : Sink) : list SynthAct :=
  match result with
  | None =>
      let '(t, tail) := trim_finish (trimmer s) in
      let '(_, acts, _) := forward tail (with_trimmer t s) in acts ++ [LaneFinish u]
  | Some error => [LaneFail u (show_error error)]
  end.

End sink.

(** The pitch that pitch changes are made from: the driver's own when it does
    not change pitch itself, has a pitch, and there are changes. *)
Definition base_pitch_of (sequence : SpeechSequence) (d : D) : option Z :=
  match setting d PITCH with
  | Some (Number pitch) =>
      if negb (changes_pitch d) && Sequence.has_pitch_changes sequence then Some pitch else None
  | _ => None
  end.

(** The sequence the driver is given, and the pieces it is given it in. *)
Definition driver_pieces (sequence : SpeechSequence) (d : D) :
    list (SpeechSequence * option SpeechItem) :=
  let split_marks := negb (places_marks d) && Sequence.has_marks sequence in
  let split_pitch := bool_decide (is_Some (base_pitch_of sequence d)) in
  let sequence :=
    if changes_pitch d || split_pitch then sequence else Sequence.without_pitch_changes sequence in
  if split_marks || split_pitch then Sequence.split sequence split_marks split_pitch
  else [(sequence, None)].

(** [run_job]. *)
Definition run_job (job : Job) (d : D) : D * list SynthAct :=
  let '(sequence, sounds) := Sequence.sounds_as_marks (job_sequence job) in
  let u := seq_utterance sequence in
  let trace := seq_trace_id sequence in
  let registers := LaneRegister u trace (job_generation job) in
  let '(cancelled, s, read) := read_token new_sink in
  if cancelled then (d, registers :: read)
  else
    let base_pitch := base_pitch_of sequence d in
    let pieces := driver_pieces sequence d in
    let '(s, d, acts, result) := speak_pieces u trace sounds base_pitch pieces d s in
    let '(d, put_back) :=
      match base_pitch with Some base => set_pitch base d | None => (d, []) end in
    (d, registers :: read ++ report (SynthesisStarted u trace) ++ acts ++ put_back ++
          end_job u trace sounds result s).

End job.

(** ** The thread *)

(** [snapshot_values]. *)
Definition snapshot_values `{SynthDriver D} (d : D) : Values :=
  omap (fun descriptor =>
    (fun value => (descriptor_id descriptor, value)) <$> setting d (descriptor_id descriptor))
    (supported_settings d).

Section thread.
Context `{SynthDriver D} `{SpeechSettingsStore St}.
Context (surroundings : N -> Surroundings) (observed : bool).

(** [SynthThread], with the mirror it writes, whether the GUI has asked for its
    answers, and how many builds the registry has made. *)
Record SynthThread := {
  registry : SynthRegistry D;
  settings : St;
  mirror : Mirror;
  driver : D;
  committed : Values;
  chosen : bool;
  applied : N;
  answered : bool;
  builds : nat;
}.

Definition with_driver (d : D) (t : SynthThread) : SynthThread :=
  {| registry := registry t; settings := settings t; mirror := mirror t; driver := d;
     committed := committed t; chosen := chosen t; applied := applied t; answered := answered t;
     builds := builds t |}.
Definition with_chosen (c : bool) (t : SynthThread) : SynthThread :=
  {| registry := registry t; settings := settings t; mirror := mirror t; driver := driver t;
     committed := committed t; chosen := c; applied := applied t; answered := answered t;
     builds := builds t |}.
Definition with_applied (change : N) (t : SynthThread) : SynthThread :=
  {| registry := registry t; settings := settings t; mirror := mirror t; driver := driver t;
     committed := committed t; chosen := chosen t; applied := change; answered := answered t;
     builds := builds t |}.
Definition with_mirror (m : Mirror) (t : SynthThread) : SynthThread :=
  {| registry := registry t; settings := settings t; mirror := m; driver := driver t;
     committed := committed t; chosen := chosen t; applied := applied t; answered := answered t;
     builds := builds t |}.
Definition count_build (t : SynthThread) : SynthThread :=
  {| registry := registry t; settings := settings t; mirror := mirror t; driver := driver t;
     committed := committed t; chosen := chosen t; applied := applied t; answered := answered t;
     builds := S (builds t) |}.

(** [choice_of]. *)
Definition choice_of (r : SynthRegistry D) (d : D) : SynthChoice :=
  default {| choice_id := driver_id d; choice_name := driver_name d |} (choice r (driver_id d)).

(** [apply_saved_settings], over the descriptors the driver has at its start. *)
Fixpoint apply_each (descriptors : list SettingDescriptor) (saved : Values) (d : D) :
    D * list SynthAct :=
  match descriptors with
  | [] => (d, [])
  | descriptor :: descriptors =>
      let id := descriptor_id descriptor in
      match value_of id saved with
      | None => apply_each descriptors saved d
      | Some value =>
          match validate [descriptor] id value with
          | Some _ => apply_each descriptors saved d
          | None =>
              let '(d, acts) := apply_each descriptors saved (set_setting id value d).1 in
              (d, DriverSet id value :: acts)
          end
      end
  end.
Definition apply_saved_settings (saved : Values) (d : D) : D * list SynthAct :=
  apply_each (supported_settings d) saved d.

(** [start_synth]. *)
Definition start_synth (r : SynthRegistry D) (id : SynthId) (store : St) (attempt : nat) :
    (SynthError + D) * list SynthAct :=
  match build r id attempt with
  | inl error => (inl error, [])
  | inr d => let '(d, acts) := apply_saved_settings (saved store id) d in (inr d, acts)
  end.

(** [start_first_available]: the loop, with what failed so far, and the whole;
    the third part counts the builds made. *)
Fixpoint start_each (r : SynthRegistry D) (store : St) (ids : list SynthId) (attempt : nat)
    (failures : list string) : (SynthError + D) * list SynthAct * nat :=
  match ids with
  | [] => (inl (Unavailable ("no synthesizer could start (" +:+ String.concat "; " failures +:+ ")")),
           [], attempt)
  | id :: ids =>
      match start_synth r id store attempt with
      | (inr d, acts) => (inr d, acts, S attempt)
      | (inl error, _) =>
          start_each r store ids (S attempt) (failures ++ [id +:+ ": " +:+ show_error error])
      end
  end.
Definition start_order (r : SynthRegistry D) (preferred : SynthId) : list SynthId :=
  preferred :: List.filter (fun id => negb (bool_decide (id = preferred))) (choice_id <$> choices r).
Definition start_first_available (r : SynthRegistry D) (preferred : SynthId) (store : St) :
    (SynthError + D) * list SynthAct * nat :=
  start_each r store (start_order r preferred) 0 [].

(** [SynthThread::describe]. *)
Definition describe (t : SynthThread) : SynthThread :=
  let values := snapshot_values (driver t) in
  {| registry := registry t; settings := settings t;
     mirror := set_driver (choices (registry t)) (choice_of (registry t) (driver t))
                 (supported_settings (driver t)) values (mirror t);
     driver := driver t; committed := values; chosen := chosen t; applied := applied t;
     answered := answered t; builds := builds t |}.

(** [SynthThread::start]. *)
Definition start (r : SynthRegistry D) (initial_synth : SynthId) (store : St) (m : Mirror) :
    option SynthThread * list SynthAct :=
  match start_first_available r initial_synth store with
  | (inl error, acts, _) => (None, acts ++ [ReportStartup (Some error)])
  | (inr d, acts, n) =>
      (Some (describe {| registry := r; settings := store; mirror := m; driver := d; committed := [];
                         chosen := bool_decide (driver_id d = initial_synth); applied := 0;
                         answered := false; builds := n |}),
       acts ++ [ReportStartup None])
  end.

(** [SynthThread::answer], with [Mirror::answer]. *)
Definition answer (t : SynthThread) : SynthThread * list SynthAct :=
  let values := snapshot_values (driver t) in
  (with_mirror (set_values values (mirror t)) t,
   if answered t then [AnswerGui (applied t) values] else []).

(** [SynthThread::commit]. *)
Definition commit (t : SynthThread) : SynthThread :=
  let values := snapshot_values (driver t) in
  {| registry := registry t; settings := persist (driver_id (driver t)) (chosen t) values (settings t);
     mirror := set_values values (mirror t); driver := driver t; committed := values;
     chosen := chosen t; applied := applied t; answered := answered t; builds := builds t |}.

(** The restoring of a [Revert]. *)
Fixpoint restore (values : Values) (d : D) : D * list SynthAct :=
  match values with
  | [] => (d, [])
  | (id, value) :: values =>
      let '(d, acts) := restore values (set_setting id value d).1 in (d, DriverSet id value :: acts)
  end.

(** A turn of [SynthThread::run]'s loop. *)
Definition take_command (command : SynthCommand) (t : SynthThread) : SynthThread * list SynthAct :=
  match command with
  | JobCommand job =>
      let '(d, acts) := run_job (surroundings (job_cancel job)) observed job (driver t) in
      (with_driver d t, acts ++ [PostFinished])
  | SetSetting id value change =>
      let '(t, acts) := answer (with_applied change (with_driver (set_setting id value (driver t)).1 t)) in
      (t, DriverSet id value :: acts)
  | CommitCommand => (commit t, [])
  | RevertCommand =>
      let '(d, restored) := restore (committed t) (driver t) in
      let '(t, acts) := answer (with_driver d t) in (t, restored ++ acts)
  | SwitchCommand id reply =>
      match start_synth (registry t) id (settings t) (builds t) with
      | (inr d, acts) =>
          (describe (with_chosen true (with_driver d (count_build t))), acts ++ [AnswerSwitch reply None])
      | (inl error, acts) => (count_build t, acts ++ [AnswerSwitch reply (Some error)])
      end
  | SettleCommand done_ => (t, [RunSettled done_])
  | ShutdownCommand => (t, [])
  end.

(** What reaches the thread and its mirror: a command, or the GUI's
    [answer_to]. *)
Inductive ThreadInput := Takes (command : SynthCommand) | AnswerTo.

(** A responder dropped with the channel, after a shutdown. *)
Definition drop_input (x : ThreadInput) : list SynthAct :=
  match x with Takes (SwitchCommand _ reply) => [DropSwitch reply] | _ => [] end.

(** [switch_done]: what the asker of a switch hears. *)
Definition switch_done (outcome : option (option SynthError)) : option SynthError :=
  default (Some (Unavailable "the switch was dropped unanswered")) outcome.

Definition ask_answers (t : SynthThread) : SynthThread :=
  {| registry := registry t; settings := settings t; mirror := mirror t; driver := driver t;
     committed := committed t; chosen := chosen t; applied := applied t; answered := true;
     builds := builds t |}.

(** [SynthThread::run]: until shut down, when what is left in the channel is
    dropped. *)
Fixpoint run (inputs : list ThreadInput) (t : SynthThread) : SynthThread * list SynthAct :=
  match inputs with
  | [] => (t, [])
  | AnswerTo :: inputs => run inputs (ask_answers t)
  | Takes ShutdownCommand :: inputs => (t, flat_map drop_input inputs)
  | Takes command :: inputs =>
      let '(t, acts) := take_command command t in
      let '(t, more) := run inputs t in (t, acts ++ more)
  end.

End thread.
Arguments SynthThread : clear implicits.
