(* ===== verification/SynthProps.v ===== *)
(** * Properties of a job

    What a synthesizer's job does to the speech lane, whatever the driver, the
    mixer and the threads that cancel do: it registers its utterance first and
    then completes or fails it once; audio stops at the first refusal and at the
    cancel; and the driver's pitch is put back. Undisturbed, the lane is given
    exactly what the trimmer makes of the driver's calls, with every mark and
    sound of the sequence in order. *)

From S2P Require Import Prelude Tree Facts Speech SpeechQueue Trim Settings Synth.

(** A driver with a rate and a pitch, which speaks each text as two loud frames
    and reports each mark where it stands. *)
Record Toy := { toy_id : SynthId; toy_rate : Z; toy_pitch : Z; toy_places : bool; toy_fails : bool }.

Definition toy_settings : list SettingDescriptor :=
  [standard_numeric "rate" "setting-rate"; standard_numeric "pitch" "setting-pitch"].

Definition toy_format : PcmFormat := {| sample_rate := 16000; channels := 1 |}.

Fixpoint toy_speak (rest : list SpeechItem) (d : Toy) : Speaking Toy :=
  match rest with
  | [] => Returns (if toy_fails d then Some (Synthesis "no voice") else None) d
  | ItemText _ :: rest =>
      IsCancelled (fun stop =>
        if stop then Returns None d
        else PushPcm toy_format [1000%Z; 1000%Z] (fun break => if break then Returns None d else toy_speak rest d))
  | ItemMark m :: rest => IndexReached m (toy_speak rest d)
  | _ :: rest => toy_speak rest d
  end.

Definition toy_set (id : SettingId) (value : SettingValue) (d : Toy) : Toy * option SynthError :=
  match validate toy_settings id value with
  | Some error => (d, Some error)
  | None =>
      (match value with
       | Number x =>
           if decide (id = "pitch")
           then {| toy_id := toy_id d; toy_rate := toy_rate d; toy_pitch := x; toy_places := toy_places d; toy_fails := toy_fails d |}
           else {| toy_id := toy_id d; toy_rate := x; toy_pitch := toy_pitch d; toy_places := toy_places d; toy_fails := toy_fails d |}
       | _ => d
       end, None)
  end.

#[export] Instance toy_driver : SynthDriver Toy := {
  driver_id := toy_id;
  driver_name := fun _ => "Toy";
  supported_settings := fun _ => toy_settings;
  setting := fun d id =>
    if decide (id = "pitch") then Some (Number (clamp 0 100 (toy_pitch d)))
    else if decide (id = "rate") then Some (Number (clamp 0 100 (toy_rate d))) else None;
  set_setting := toy_set;
  places_marks := toy_places;
  changes_pitch := fun _ => false;
  speak := fun piece d => toy_speak (items piece) d;
}.

(** A store of the last values saved, for one synthesizer. *)
#[export] Instance toy_store : SpeechSettingsStore (SynthId * Values) := {
  saved := fun s id => if decide (id = s.1) then s.2 else [];
  persist := fun id _ values _ => (id, values);
}.

Definition toy : Toy :=
  {| toy_id := "toy"; toy_rate := 50; toy_pitch := 40; toy_places := false; toy_fails := false |}.

(** An utterance of a capital between two marks, with a sound. *)
Definition toy_job : Job := {|
  job_sequence := {|
    seq_utterance := {| utterance_number := 7 |}; seq_trace_id := {| trace_number := 3 |};
    seq_language := None;
    items := [ItemMark {| index := 1 |}; ItemPitch 30; ItemText "A"; ItemPitch 0;
              ItemSound {| cue_indication := "button"; cue_sound := 5; cue_gain := 9 |};
              ItemText "b"; ItemMark {| index := 2 |}] |};
  job_cancel := 0; job_generation := 4 |}.

(** Nobody cuts the job off; the mixer refuses the second write; the token reads
    cancelled from its third read on. *)
Definition calm_env : Surroundings := {| token_reads := fun _ => false; lane_breaks := fun _ => false |}.
Definition refused_env : Surroundings :=
  {| token_reads := fun _ => false; lane_breaks := fun n => Nat.eqb n 1 |}.
Definition cancelled_env : Surroundings :=
  {| token_reads := fun n => Nat.leb 3 n; lane_breaks := fun _ => false |}.

(** What the lane is given of the toy's job. *)
Example toy_job_lane :
  List.filter (fun x => match x with DriverSpeaks _ | TokenRead _ => false | _ => true end)
    (run_job calm_env false toy_job toy).2 =
  let u := {| utterance_number := 7 |} in
  [LaneRegister u {| trace_number := 3 |} 4; LaneMark u 1; DriverSet PITCH (Number 70);
   LaneWrite u toy_format [1000%Z; 1000%Z]; DriverSet PITCH (Number 40); LaneSound u 5 9;
   LaneWrite u toy_format [1000%Z; 1000%Z]; LaneMark u 2; DriverSet PITCH (Number 40); LaneFinish u].
Proof. vm_compute. reflexivity. Qed.

(** ** What a job's acts are *)

(** An act of a job's middle: between its registration and its end; [pitched]
    when pitch is changed between its pieces. *)
Definition job_act (pitched : bool) (u : UtteranceId) (x : SynthAct) : Prop :=
  match x with
  | LaneWrite v _ _ | LaneMark v _ | LaneSound v _ _ => v = u
  | SynthesizerAudio _ _ | AudioToMixer _ _ | ReportTiming _ _ _ | TokenRead _
  | TokenWaker _ | DriverSpeaks _ => True
  | DriverSet id value => pitched = true /\ id = PITCH /\ exists x, value = Number x /\ (0 <= x <= 100)%Z
  | _ => False
  end.

(** What the lane is given to play. *)
Definition lane_out (acts : list SynthAct) : list SynthAct :=
  List.filter (fun x => match x with LaneWrite _ _ _ | LaneMark _ _ | LaneSound _ _ _ => true | _ => false end)
    acts.
(** Every call on the lane. *)
Definition lane_acts (acts : list SynthAct) : list SynthAct :=
  List.filter (fun x => match x with
    | LaneRegister _ _ _ | LaneWrite _ _ _ | LaneMark _ _ | LaneSound _ _ _ | LaneFinish _ | LaneFail _ _ => true
    | _ => false end) acts.
Definition lane_writes (acts : list SynthAct) : list SynthAct :=
  List.filter (fun x => match x with LaneWrite _ _ _ => true | _ => false end) acts.

Lemma lane_out_app a b : lane_out (a ++ b) = lane_out a ++ lane_out b.
Proof. apply List.filter_app. Qed.
Lemma lane_acts_app a b : lane_acts (a ++ b) = lane_acts a ++ lane_acts b.
Proof. apply List.filter_app. Qed.
Lemma lane_writes_app a b : lane_writes (a ++ b) = lane_writes a ++ lane_writes b.
Proof. apply List.filter_app. Qed.

Section job.
Context `{SynthDriver D}.
Context (env : Surroundings) (observed : bool) (pitched : bool).

Lemma report_job u x : job_act pitched u x -> Forall (job_act pitched u) (report observed x).
Proof. unfold report. destruct observed; by repeat constructor. Qed.
Lemma report_out x :
  match x with LaneWrite _ _ _ | LaneMark _ _ | LaneSound _ _ _ => False | _ => True end ->
  lane_out (report observed x) = [] /\ lane_writes (report observed x) = [].
Proof. unfold report. destruct observed, x; done. Qed.

Section sink.
Context (u : UtteranceId) (trace : TraceId) (sounds : list SoundCue).
#[local] Notation forward := (forward env observed u trace sounds).
#[local] Notation push_pcm := (push_pcm env observed u trace sounds).
#[local] Notation index_reached := (index_reached env observed u trace sounds).
#[local] Notation run_speak := (run_speak env observed u trace sounds).
#[local] Notation place_marks := (place_marks env observed u trace sounds).
#[local] Notation speak_piece := (speak_piece env observed u trace sounds).
#[local] Notation after_piece := (after_piece env observed u trace sounds).
#[local] Notation speak_pieces := (speak_pieces env observed u trace sounds).

(** ** Nothing but a job's acts *)

Lemma forward_mark_job m : Forall (job_act pitched u) (forward_mark sounds u m).
Proof. unfold forward_mark. destruct (Sequence.mark_reads sounds m) as [[cue|]|m']; by repeat constructor. Qed.

Lemma forward_job pieces : forall s, Forall (job_act pitched u) (forward pieces s).1.2.
Proof.
  induction pieces as [|[f pcm|m] pieces IH]; intros s; simpl; [constructor| |].
  - assert (Forall (job_act pitched u) (if mixer_audio s then [] else report observed (AudioToMixer u trace))) as Hf.
    { destruct (mixer_audio s); [constructor|by apply report_job]. }
    specialize (IH (after_write (lane_breaks env (writes s)) s)).
    destruct (lane_breaks env (writes s)); simpl.
    + apply Forall_app_2; [done|]. by repeat constructor.
    + destruct (forward pieces _) as [[s' more] b]. simpl in *. apply Forall_app_2; [done|]. by constructor.
  - specialize (IH s). destruct (forward pieces s) as [[s' more] b]. simpl in *.
    apply Forall_app_2; [apply forward_mark_job|done].
Qed.

Lemma push_job f pcm s : Forall (job_act pitched u) (push_pcm f pcm s).1.2.
Proof.
  unfold Synth.push_pcm, read_token. destruct (stopped s); [constructor|].
  destruct (token_reads env (reads s)); [by repeat constructor|].
  destruct (push f pcm (trimmer (count_read s))) as [t pieces].
  pose proof (forward_job pieces (with_trimmer t (with_driver_audio (count_read s)))) as Hf.
  destruct (forward pieces _) as [[s' acts] b]. simpl in *. constructor; [done|].
  apply Forall_app_2; [|done].
  destruct (driver_audio s); [constructor|by apply report_job].
Qed.

Lemma index_job m s : Forall (job_act pitched u) (index_reached m s).2.
Proof.
  unfold Synth.index_reached. destruct (stopped s); [constructor|].
  destruct (Trim.mark m (trimmer s)) as [t pieces].
  pose proof (forward_job pieces (with_trimmer t s)) as Hf.
  by destruct (forward pieces _) as [[s' acts] b].
Qed.

Lemma speak_job (p : Speaking D) : forall s, Forall (job_act pitched u) (run_speak p s).1.1.2.
Proof.
  induction p as [r d|f pcm next IH|m next IH|next IH|t next IH|w next IH]; intros s; simpl.
  - constructor.
  - pose proof (push_job f pcm s) as Hp. destruct (push_pcm f pcm s) as [[s1 acts] b].
    specialize (IH b s1). destruct (run_speak (next b) s1) as [[[s2 more] r] d]. simpl in *.
    by apply Forall_app_2.
  - pose proof (index_job m s) as Hp. destruct (index_reached m s) as [s1 acts].
    specialize (IH s1). destruct (run_speak next s1) as [[[s2 more] r] d]. simpl in *.
    by apply Forall_app_2.
  - assert (Forall (job_act pitched u) (Synth.is_cancelled env s).2) as Hc.
    { unfold Synth.is_cancelled. destruct (stopped s); by repeat constructor. }
    destruct (Synth.is_cancelled env s) as [[a s1] acts]. specialize (IH a s1).
    destruct (run_speak (next a) s1) as [[[s2 more] r] d]. simpl in *. by apply Forall_app_2.
  - specialize (IH s). destruct (run_speak next s) as [[[s2 more] r] d]. simpl in *.
    apply Forall_app_2; [by apply report_job|done].
  - specialize (IH s). destruct (run_speak next s) as [[[s2 more] r] d]. simpl in *. by constructor.
Qed.

Lemma place_job rest : forall s, Forall (job_act pitched u) (place_marks rest s).2.
Proof.
  induction rest as [|[t|m|p|c] rest IH]; intros s; simpl; [constructor|apply IH| |apply IH..].
  pose proof (index_job m s) as Hp. destruct (index_reached m s) as [s1 acts].
  specialize (IH s1). destruct (place_marks rest s1) as [s2 more]. by apply Forall_app_2.
Qed.

Lemma set_pitch_job pitch (d : D) : pitched = true -> Forall (job_act pitched u) (set_pitch pitch d).2.
Proof.
  intros ->. repeat constructor. eexists. split; [reflexivity|]. unfold clamp. lia.
Qed.

Lemma pieces_job base pieces : (is_Some base -> pitched = true) -> forall d s, Forall (job_act pitched u) (speak_pieces base pieces d s).1.2.
Proof.
  intros Hb. induction pieces as [|[piece after] pieces IH]; intros d s; simpl; [constructor|].
  assert (Forall (job_act pitched u) (speak_piece piece d s).1.1.2) as Hp.
  { unfold Synth.speak_piece. destruct (Sequence.has_text piece).
    - pose proof (speak_job (speak piece d) s) as Hs.
      destruct (run_speak (speak piece d) s) as [[[s1 acts] r] d1]. simpl in *.
      destruct r; [by constructor|]. destruct (stopped s1); [by constructor|].
      constructor; [done|]. apply Forall_app_2; [done|]. by repeat constructor.
    - pose proof (place_job (items piece) s) as Hs. by destruct (place_marks (items piece) s). }
  destruct (speak_piece piece d s) as [[[[s1 d1] acts] r] broke]. simpl in Hp.
  destruct broke; [done|].
  assert (Forall (job_act pitched u) (after_piece base after d1 s1).2) as Ha.
  { unfold Synth.after_piece.
    destruct after as [[t|m|p|c]|]; [by destruct base| | |by destruct base..].
    - pose proof (index_job m s1) as Hi. by destruct (index_reached m s1), base.
    - destruct base as [b|]; [|constructor].
      pose proof (set_pitch_job (saturating_add_i32 b p) d1 (Hb ltac:(done))) as Hs. by destruct (set_pitch _ d1). }
  destruct (after_piece base after d1 s1) as [[s2 d2] then_].
  specialize (IH d2 s2). destruct (speak_pieces base pieces d2 s2) as [[[s3 d3] more] r3].
  simpl in *. by repeat apply Forall_app_2.
Qed.

(** ** When audio stops *)

(** What a part of a job does to the sink: it counts the writes it makes; once
    the mixer has refused a write, or the token has read cancelled, it makes no
    more. *)
Record flows (s s' : Sink) (acts : list SynthAct) : Prop := {
  fl_writes : (writes s' = writes s + length (lane_writes acts))%nat;
  fl_stopped : stopped s = true -> stopped s' = true /\ lane_writes acts = [];
  fl_refused : forall n, (writes s <= n < writes s')%nat -> lane_breaks env n = true ->
    stopped s' = true /\ writes s' = S n;
  fl_reads : (reads s <= reads s')%nat;
  fl_cancelled : token_reads env (reads s) = true -> lane_writes acts = [];
  fl_read : TokenRead true ∈ acts -> token_reads env (reads s') = true;
  fl_after : forall pre post, acts = pre ++ TokenRead true :: post -> lane_writes post = [];
}.

(** A token once cancelled stays cancelled ([Token.cancel]). *)
Context (Hmono : forall m n, (m <= n)%nat -> token_reads env m = true -> token_reads env n = true).

Lemma flows_quiet s s' acts :
  writes s' = writes s -> stopped s' = stopped s -> (reads s <= reads s')%nat ->
  lane_writes acts = [] -> (TokenRead true ∈ acts -> token_reads env (reads s') = true) ->
  flows s s' acts.
Proof.
  intros Hw Hs Hr Ha Ht. split; try done.
  - rewrite Ha Hw /=. lia.
  - by rewrite Hs.
  - intros n Hn. lia.
  - intros pre post ->. rewrite lane_writes_app in Ha. by apply app_eq_nil in Ha as [_ ?].
Qed.

Lemma flows_refl s : flows s s [].
Proof. apply flows_quiet; try done. by intros ?%not_elem_of_nil. Qed.

Lemma flows_trans s s1 s2 a b : flows s s1 a -> flows s1 s2 b -> flows s s2 (a ++ b).
Proof.
  intros [A1 A2 A3 A4 A5 A6 A7] [B1 B2 B3 B4 B5 B6 B7]. split.
  - rewrite lane_writes_app length_app. lia.
  - intros Hs. destruct (A2 Hs) as [Hs1 Ha]. destruct (B2 Hs1) as [Hs2 Hb].
    by rewrite lane_writes_app Ha Hb.
  - intros n Hn Hl. destruct (decide (n < writes s1)%nat) as [Hlt|Hge].
    + destruct (A3 n ltac:(lia) Hl) as [Hs1 Hw]. destruct (B2 Hs1) as [Hs2 Hb].
      rewrite Hb /= in B1. split; [done|lia].
    + apply B3; [lia|done].
  - lia.
  - intros Hc. rewrite lane_writes_app A5 // B5 //. by eapply Hmono.
  - intros [Hin|Hin]%elem_of_app; [|by apply B6]. eapply Hmono; [exact B4|by apply A6].
  - intros pre post Heq.
    assert (TokenRead true ∈ a -> lane_writes b = []) as Hab by (intros Hin; by apply B5, A6).
    apply app_eq_app in Heq as (l & [[-> Heq]|[-> Heq]]).
    + destruct l as [|x l]; simplify_list_eq; [by apply (B7 [])|].
      rewrite lane_writes_app (A7 pre l) // Hab //. apply elem_of_app. right. by left.
    + by apply (B7 l).
Qed.

Lemma flows_report s x acts s' :
  match x with LaneWrite _ _ _ | LaneMark _ _ | LaneSound _ _ _ | TokenRead _ => False | _ => True end ->
  flows s s' acts -> flows s s' (report observed x ++ acts).
Proof.
  intros Hx Hf. eapply flows_trans; [|exact Hf]. apply flows_quiet; try done.
  - apply report_out. by destruct x.
  - unfold report. destruct observed; [|by intros ?%not_elem_of_nil].
    intros Hin%list_elem_of_singleton. by subst x.
Qed.

Definition pieces_marks (pieces : list Piece) : Prop :=
  Forall (fun p => match p with PieceMark _ => True | Pcm _ _ => False end) pieces.

Lemma forward_mark_quiet m : lane_writes (forward_mark sounds u m) = [] /\
  TokenRead true ∉ forward_mark sounds u m.
Proof.
  unfold forward_mark. destruct (Sequence.mark_reads sounds m) as [[cue|]|m']; split; try done;
    by intros ?%list_elem_of_singleton || by intros ?%not_elem_of_nil.
Qed.

(** Passing pieces on reads no token; an unstopped sink is refused at most its
    last write. *)
Lemma forward_flows pieces : forall s, stopped s = false ->
  let '(s', acts, _) := forward pieces s in
  TokenRead true ∉ acts /\ reads s' = reads s /\
  writes s' = (writes s + length (lane_writes acts))%nat /\
  (forall n, (writes s <= n < writes s')%nat -> lane_breaks env n = true ->
     stopped s' = true /\ writes s' = S n) /\
  (pieces_marks pieces -> lane_writes acts = [] /\ stopped s' = false /\ writes s' = writes s).
Proof.
  induction pieces as [|[f pcm|m] pieces IH]; intros s Hs; simpl.
  { split_and!; [by apply not_elem_of_nil|done| |intros n Hn; lia|done]. lia. }
  - set (first := if mixer_audio s then [] else report observed (AudioToMixer u trace)).
    assert (lane_writes first = [] /\ TokenRead true ∉ first) as [Hf1 Hf2].
    { unfold first, report. destruct (mixer_audio s), observed; split; try done;
        by intros ?%list_elem_of_singleton || by intros ?%not_elem_of_nil. }
    destruct (lane_breaks env (writes s)) eqn:Hl; simpl.
    + rewrite lane_writes_app Hf1 /=. split_and!; [|done|lia| |by intros [? _]%Forall_cons].
      * rewrite not_elem_of_app list_elem_of_singleton. done.
      * intros n Hn _. rewrite Hs. split; [done|lia].
    + specialize (IH (after_write false s)). simpl in IH. rewrite Hs in IH. specialize (IH eq_refl).
      destruct (forward pieces (after_write false s)) as [[s' more] b].
      destruct IH as (I1 & I2 & I3 & I4 & _).
      rewrite lane_writes_app Hf1 /=. split_and!; [|done|lia| |by intros [? _]%Forall_cons].
      * rewrite not_elem_of_app elem_of_cons. naive_solver.
      * intros n Hn Hn2. destruct (decide (n = writes s)) as [->|Hne]; [congruence|]. apply I4; [lia|done].
  - specialize (IH s Hs). destruct (forward pieces s) as [[s' more] b].
    destruct IH as (I1 & I2 & I3 & I4 & I5). destruct (forward_mark_quiet m) as [Hm1 Hm2].
    rewrite lane_writes_app Hm1 not_elem_of_app. split_and!; try done.
    intros [_ Hp]%Forall_cons. by apply I5.
Qed.

Lemma mark_pieces m t : pieces_marks (Trim.mark m t).2.
Proof. unfold Trim.mark. destruct (held t); by repeat constructor. Qed.
Lemma finish_pieces t : pieces_marks (trim_finish t).2.
Proof. apply Forall_forall. intros p (x & -> & _)%list_elem_of_fmap. done. Qed.

(** An unread token, then pieces passed on. *)
Lemma forward_flows_read pieces s s0 :
  stopped s0 = false -> token_reads env (reads s0) = false ->
  stopped s = false -> writes s = writes s0 -> (reads s0 <= reads s)%nat ->
  let '(s', acts, _) := forward pieces s in flows s0 s' acts.
Proof.
  intros Hs0 Hr0 Hs Hw Hr. pose proof (forward_flows pieces s Hs) as H1.
  destruct (forward pieces s) as [[s' acts] b]. destruct H1 as (I1 & I2 & I3 & I4 & _).
  split; try done; try congruence.
  - rewrite -Hw. exact I4.
  - intros pre post ->. destruct I1. apply elem_of_app. right. by left.
Qed.

Lemma push_flows f pcm s : let '(s', acts, _) := push_pcm f pcm s in flows s s' acts.
Proof.
  unfold Synth.push_pcm, read_token. destruct (stopped s) eqn:Hs; [apply flows_refl|].
  destruct (token_reads env (reads s)) eqn:Hr.
  { apply flows_quiet; try done; simpl; [lia|]. intros _. eapply Hmono; [|exact Hr]. lia. }
  destruct (push f pcm (trimmer (count_read s))) as [t pieces].
  pose proof (forward_flows_read pieces (with_trimmer t (with_driver_audio (count_read s))) s Hs Hr) as Hf.
  simpl in Hf. specialize (Hf Hs eq_refl ltac:(lia)).
  destruct (forward pieces _) as [[s' acts] b].
  apply (flows_trans s s s' [TokenRead false]).
  { apply flows_quiet; try done. by intros ?%list_elem_of_singleton. }
  simpl. destruct (driver_audio s); [done|]. by apply flows_report.
Qed.

(** Marks alone, passed on. *)
Lemma forward_flows_marks pieces t s :
  pieces_marks pieces -> stopped s = false ->
  let '(s', acts, _) := forward pieces (with_trimmer t s) in flows s s' acts.
Proof.
  intros Hp Hs. pose proof (forward_flows pieces (with_trimmer t s) Hs) as H1.
  destruct (forward pieces _) as [[s' acts] b]. destruct H1 as (I1 & I2 & I3 & I4 & I5).
  destruct (I5 Hp) as (J1 & J2 & J3). simpl in *.
  apply flows_quiet; try done; by rewrite ?I2 ?J2.
Qed.

Lemma index_flows m s : let '(s', acts) := index_reached m s in flows s s' acts.
Proof.
  unfold Synth.index_reached. destruct (stopped s) eqn:Hs; [apply flows_refl|].
  pose proof (mark_pieces m (trimmer s)) as Hm. destruct (Trim.mark m (trimmer s)) as [t pieces].
  pose proof (forward_flows_marks pieces t s Hm Hs) as Hf.
  by destruct (forward pieces _) as [[s' acts] b].
Qed.

(** Reading the token is a step of its own. *)
Lemma read_flows s : flows s (count_read s) [TokenRead (token_reads env (reads s))].
Proof.
  apply flows_quiet; try done; simpl; [lia|].
  intros Heq%list_elem_of_singleton. injection Heq as Heq. eapply Hmono; [|by symmetry]. lia.
Qed.

Lemma is_cancelled_flows s : let '(_, s', acts) := Synth.is_cancelled env s in flows s s' acts.
Proof. unfold Synth.is_cancelled. destruct (stopped s); [apply flows_refl|apply read_flows]. Qed.

Lemma speak_flows (p : Speaking D) : forall s, let '(s', acts, _, _) := run_speak p s in flows s s' acts.
Proof.
  induction p as [r d|f pcm next IH|m next IH|next IH|t next IH|w next IH]; intros s; simpl.
  - apply flows_refl.
  - pose proof (push_flows f pcm s) as Hp. destruct (push_pcm f pcm s) as [[s1 acts] b].
    specialize (IH b s1). destruct (run_speak (next b) s1) as [[[s2 more] r] d].
    by eapply flows_trans.
  - pose proof (index_flows m s) as Hp. destruct (index_reached m s) as [s1 acts].
    specialize (IH s1). destruct (run_speak next s1) as [[[s2 more] r] d]. by eapply flows_trans.
  - pose proof (is_cancelled_flows s) as Hc. destruct (Synth.is_cancelled env s) as [[a s1] acts].
    specialize (IH a s1). destruct (run_speak (next a) s1) as [[[s2 more] r] d]. by eapply flows_trans.
  - specialize (IH s). destruct (run_speak next s) as [[[s2 more] r] d]. by apply flows_report.
  - specialize (IH s). destruct (run_speak next s) as [[[s2 more] r] d].
    apply (flows_trans s s s2 [TokenWaker w]); [|done].
    apply flows_quiet; try done. by intros ?%list_elem_of_singleton.
Qed.

Lemma place_flows rest : forall s, let '(s', acts) := place_marks rest s in flows s s' acts.
Proof.
  induction rest as [|[t|m|p|c] rest IH]; intros s; simpl; [apply flows_refl|apply IH| |apply IH..].
  pose proof (index_flows m s) as Hp. destruct (index_reached m s) as [s1 acts].
  specialize (IH s1). destruct (place_marks rest s1) as [s2 more]. by eapply flows_trans.
Qed.

(** An act that touches neither lane nor token. *)
Lemma flows_cons x s s' acts :
  match x with DriverSpeaks _ | DriverSet _ _ => True | _ => False end ->
  flows s s' acts -> flows s s' (x :: acts).
Proof.
  intros Hx Hf. apply (flows_trans s s s' [x]); [|done].
  apply flows_quiet; try done; [by destruct x|]. intros Hin%list_elem_of_singleton. by subst x.
Qed.

Lemma piece_flows piece (d : D) s : let '(s', _, acts, _, _) := speak_piece piece d s in flows s s' acts.
Proof.
  unfold Synth.speak_piece. destruct (Sequence.has_text piece).
  - pose proof (speak_flows (speak piece d) s) as Hs.
    destruct (run_speak (speak piece d) s) as [[[s1 acts] r] d1].
    destruct r; [by apply flows_cons|]. destruct (stopped s1); [by apply flows_cons|].
    apply flows_cons; [done|]. eapply flows_trans; [exact Hs|apply read_flows].
  - pose proof (place_flows (items piece) s) as Hs. by destruct (place_marks (items piece) s).
Qed.

Lemma after_flows base after (d : D) s : let '(s', _, acts) := after_piece base after d s in flows s s' acts.
Proof.
  unfold Synth.after_piece. destruct after as [[t|m|p|c]|].
  1,4,5: destruct base; apply flows_refl.
  - pose proof (index_flows m s) as Hi. by destruct (index_reached m s), base.
  - destruct base; [|apply flows_refl]. simpl. apply flows_cons; [done|apply flows_refl].
Qed.

Lemma pieces_flows base pieces : forall (d : D) s,
  let '(s', _, acts, _) := speak_pieces base pieces d s in flows s s' acts.
Proof.
  induction pieces as [|[piece after] pieces IH]; intros d s; simpl; [apply flows_refl|].
  pose proof (piece_flows piece d s) as Hp.
  destruct (speak_piece piece d s) as [[[[s1 d1] acts] r] broke]. destruct broke; [done|].
  pose proof (after_flows base after d1 s1) as Ha.
  destruct (after_piece base after d1 s1) as [[s2 d2] then_].
  specialize (IH d2 s2). destruct (speak_pieces base pieces d2 s2) as [[[s3 d3] more] r3].
  eapply flows_trans; [exact Hp|]. by eapply flows_trans.
Qed.

(** The end of a job writes no audio, and reads no token. *)
Lemma end_flows result s : flows s s (end_job env observed u trace sounds result s).
Proof.
  assert (lane_writes (end_job env observed u trace sounds result s) = [] /\
    TokenRead true ∉ end_job env observed u trace sounds result s) as [H1 H2];
    [|by apply flows_quiet].
  unfold end_job. destruct result; [split; [done|by intros ?%list_elem_of_singleton]|].
  pose proof (finish_pieces (trimmer s)) as Hm. destruct (trim_finish (trimmer s)) as [t tail]. simpl in Hm.
  assert (forall s, lane_writes (forward tail s).1.2 = [] /\ TokenRead true ∉ (forward tail s).1.2) as Hw.
  { clear s. induction Hm as [|p tail Hp Hm IH]; intros s; simpl; [split; [done|apply not_elem_of_nil]|].
    destruct p as [|m]; [done|]. specialize (IH s). destruct (forward tail s) as [[s' more] b].
    destruct (forward_mark_quiet m) as [M1 M2], IH as [I1 I2]. simpl in I1, I2 |- *.
    rewrite lane_writes_app not_elem_of_app M1 I1. done. }
  specialize (Hw (with_trimmer t s)). destruct (forward tail _) as [[s' acts] b].
  destruct Hw as [Hw1 Hw2]. simpl in Hw1, Hw2.
  rewrite lane_writes_app not_elem_of_app list_elem_of_singleton Hw1. done.
Qed.

End sink.
End job.

(** ** The lane's view of a job *)

Section job_whole.
Context `{SynthDriver D}.
Context (env : Surroundings) (observed : bool).

Lemma lane_acts_job pitched u acts : Forall (job_act pitched u) acts -> lane_acts acts = lane_out acts.
Proof.
  induction 1 as [|x acts Hx _ IH]; [done|]. unfold lane_acts, lane_out in *. simpl.
  by destruct x; simpl; rewrite ?IH.
Qed.

Lemma end_acts pitched u trace sounds result s :
  exists given last_, end_job env observed u trace sounds result s = given ++ [last_] /\
    Forall (job_act pitched u) given /\ (last_ = LaneFinish u \/ exists reason, last_ = LaneFail u reason).
Proof.
  unfold end_job. destruct result as [e|].
  - exists [], (LaneFail u (show_error e)). split_and!; [done|constructor|eauto].
  - destruct (trim_finish (trimmer s)) as [t tail].
    pose proof (forward_job env observed pitched u trace sounds tail (with_trimmer t s)) as Hf.
    destruct (forward env observed u trace sounds tail _) as [[s' acts] b].
    exists acts, (LaneFinish u). split_and!; [done|exact Hf|by left].
Qed.

Lemma sounds_keep sequence :
  seq_utterance (Sequence.sounds_as_marks sequence).1 = seq_utterance sequence /\
  seq_trace_id (Sequence.sounds_as_marks sequence).1 = seq_trace_id sequence.
Proof.
  unfold Sequence.sounds_as_marks. by destruct (Sequence.sounds_from [] (items sequence)).
Qed.

(** A job's whole life on the speech lane. Whatever its driver does and
    whenever it is cancelled, its utterance is registered first, under the
    generation it was handed on under; one cancelled before it started gives the
    lane nothing more; and any other gives it audio, marks and sounds of that
    utterance alone and then, once and last, that it is finished or failed. *)
Theorem job_registers_and_ends_once (job : Job) (d : D) :
  let u := seq_utterance (job_sequence job) in
  exists body, lane_acts (run_job env observed job d).2 =
      LaneRegister u (seq_trace_id (job_sequence job)) (job_generation job) :: body /\
    (body = [] <-> token_reads env 0 = true) /\
    (body <> [] -> exists given last_, body = given ++ [last_] /\
       Forall (fun x => job_act true u x /\ lane_out [x] = [x]) given /\
       (last_ = LaneFinish u \/ exists reason, last_ = LaneFail u reason)).
Proof.
  intros u. unfold run_job, read_token. simpl.
  pose proof (sounds_keep (job_sequence job)) as Hk.
  destruct (Sequence.sounds_as_marks (job_sequence job)) as [sequence sounds]. destruct Hk as [Hu Ht].
  simpl in Hu, Ht. rewrite Hu Ht. destruct (token_reads env 0) eqn:Hc.
  { exists []. split_and!; [done|done|]. by intros []. }
  set (base := base_pitch_of sequence d). fold u.
  pose proof (pieces_job env observed true u (seq_trace_id (job_sequence job)) sounds base
    (driver_pieces sequence d) ltac:(done) d (count_read new_sink)) as Hp.
  destruct (speak_pieces _ _ _ _ _ base _ d (count_read new_sink)) as [[[s d1] acts] result]. simpl in Hp.
  assert (exists d2 put, match base with Some b => set_pitch b d1 | None => (d1, []) end = (d2, put) /\
    Forall (job_act true u) put) as (d2 & put & -> & Hput).
  { destruct base as [b|]; [|by exists d1, []]. do 2 eexists. split; [reflexivity|]. by apply (set_pitch_job true u b d1). }
  destruct (end_acts true u (seq_trace_id (job_sequence job)) sounds result s) as (given & last_ & -> & Hg & Hl).
  exists (lane_out (acts ++ put ++ given) ++ [last_]). simpl. split_and!.
  - f_equal. change (lane_acts ([TokenRead false] ++ ?l)) with (lane_acts l).
    rewrite !lane_acts_app !lane_out_app.
    replace (lane_acts (report observed _)) with (@nil SynthAct) by (unfold report; by destruct observed).
    rewrite (lane_acts_job true u acts) // (lane_acts_job true u put) // (lane_acts_job true u given) // -!app_assoc.
    by destruct Hl as [->|[reason ->]].
  - split; [|done]. by intros []%eq_sym%app_cons_not_nil.
  - intros _. exists (lane_out (acts ++ put ++ given)), last_. split_and!; [done| |done].
    apply Forall_forall. intros x Hx. apply list_elem_of_In, filter_In in Hx as [Hin Hb].
    split; [|unfold lane_out; simpl; by rewrite Hb].
    assert (Forall (job_act true u) (acts ++ put ++ given)) as Hall by (by repeat apply Forall_app_2).
    rewrite Forall_forall in Hall. by apply Hall, list_elem_of_In.
Qed.

(** The parts of a job's acts: what it registers and reads, what its pieces do,
    and its end. *)
Lemma run_job_parts (job : Job) (d : D) :
  token_reads env 0 = false ->
  exists sequence sounds s acts result d1 put,
    Sequence.sounds_as_marks (job_sequence job) = (sequence, sounds) /\
    speak_pieces env observed (seq_utterance sequence) (seq_trace_id sequence) sounds
      (base_pitch_of sequence d) (driver_pieces sequence d) d (count_read new_sink)
      = (s, d1, acts, result) /\
    match base_pitch_of sequence d with Some base => set_pitch base d1 | None => (d1, []) end
      = ((run_job env observed job d).1, put) /\
    lane_writes put = [] /\ lane_out put = [] /\ TokenRead true ∉ put /\
    (run_job env observed job d).2 =
      [LaneRegister (seq_utterance sequence) (seq_trace_id sequence) (job_generation job); TokenRead false]
      ++ report observed (SynthesisStarted (seq_utterance sequence) (seq_trace_id sequence))
      ++ acts ++ put ++ end_job env observed (seq_utterance sequence) (seq_trace_id sequence) sounds result s.
Proof.
  intros Hc. unfold run_job, read_token. simpl. rewrite Hc.
  destruct (Sequence.sounds_as_marks (job_sequence job)) as [sequence sounds].
  destruct (speak_pieces _ _ _ _ _ (base_pitch_of sequence d) _ d (count_read new_sink))
    as [[[s d1] acts] result] eqn:Hp.
  destruct (base_pitch_of sequence d) as [base|] eqn:Hb; simpl.
  - exists sequence, sounds, s, acts, result, d1, [DriverSet PITCH (Number (clamp 0 100 base))].
    rewrite Hb. split_and!; try done. by intros ?%list_elem_of_singleton.
  - exists sequence, sounds, s, acts, result, d1, [].
    rewrite Hb. split_and!; try done. by intros ?%not_elem_of_nil.
Qed.

(** Audio stops. Once the mixer has refused a write, which it does when the
    utterance has ended, the job writes no more, however the driver goes on; and
    once its token has read cancelled, which it then does ever after, it writes
    no more either: the writes after such a read are none. *)
Theorem audio_stops (job : Job) (d : D)
    (Hmono : forall m n, (m <= n)%nat -> token_reads env m = true -> token_reads env n = true) :
  let acts := (run_job env observed job d).2 in
  (forall n, lane_breaks env n = true -> (length (lane_writes acts) <= S n)%nat) /\
  (forall pre post, acts = pre ++ TokenRead true :: post -> lane_writes post = []).
Proof.
  intros acts. assert (exists s', flows env new_sink s' acts) as [s' [F1 F2 F3 F4 F5 F6 F7]].
  2:{ split; [|exact F7]. intros n Hn. simpl in F1. rewrite -F1.
    destruct (decide (n < writes s')%nat); [|lia]. destruct (F3 n ltac:(simpl; lia) Hn) as [_ ->]. lia. }
  unfold acts. destruct (token_reads env 0) eqn:Hc.
  { exists (count_read new_sink). unfold run_job, read_token. simpl. rewrite Hc.
    destruct (Sequence.sounds_as_marks (job_sequence job)) as [sequence sounds]. simpl.
    apply flows_quiet; try done; simpl; [lia|]. intros _. eapply Hmono; [|exact Hc]. lia. }
  destruct (run_job_parts job d Hc) as (sequence & sounds & s & as_ & result & d1 & put & _ & Hp & _ & Hw & _ & Hr & ->).
  pose proof (pieces_flows env observed (seq_utterance sequence) (seq_trace_id sequence) sounds Hmono
    (base_pitch_of sequence d) (driver_pieces sequence d) d (count_read new_sink)) as Hf.
  rewrite Hp in Hf. exists s.
  eapply (flows_trans env Hmono _ (count_read new_sink)).
  { apply flows_quiet; try done; simpl; [lia|].
    by intros [[=]|[=]%list_elem_of_singleton]%elem_of_cons. }
  apply flows_report; [done..|].
  eapply flows_trans; [done|exact Hf|]. eapply flows_trans; [done|by apply (flows_quiet env s s)|].
  by apply end_flows.
Qed.

(** A job gives its driver nothing but pitches in range, and those only to one
    whose pitch it reads. *)
Lemma job_sets (job : Job) (d : D) id value :
  DriverSet id value ∈ (run_job env observed job d).2 ->
  id = PITCH /\ (exists x, value = Number x /\ (0 <= x <= 100)%Z) /\
  exists base, setting d PITCH = Some (Number base).
Proof.
  intros Hin. destruct (token_reads env 0) eqn:Hc.
  { exfalso. revert Hin. unfold run_job, read_token. simpl. rewrite Hc.
    destruct (Sequence.sounds_as_marks (job_sequence job)) as [sequence sounds]. simpl.
    by intros [[=]|[[=]|?%elem_of_nil]%elem_of_cons]%elem_of_cons. }
  destruct (run_job_parts job d Hc) as (sequence & sounds & s & acts & result & d1 & put & _ & Hp & Hput & _ & _ & _ & Ha).
  rewrite Ha in Hin. set (base := base_pitch_of sequence d) in *.
  assert (is_Some base -> exists b, setting d PITCH = Some (Number b)) as Hb.
  { unfold base, base_pitch_of. destruct (setting d PITCH) as [[b| |]|]; try by intros [? [=]].
    intros _. by exists b. }
  set (pitched := bool_decide (is_Some base)).
  assert (forall u x, job_act pitched u x -> x = DriverSet id value ->
    id = PITCH /\ (exists x, value = Number x /\ (0 <= x <= 100)%Z) /\ is_Some base) as Hact.
  { intros u x Hx ->. destruct Hx as (Hpt & -> & Hx). unfold pitched in Hpt.
    by rewrite bool_decide_eq_true in Hpt. }
  assert (exists x, job_act pitched (seq_utterance sequence) x /\ x = DriverSet id value) as (x & Hx & Heq).
  2:{ destruct (Hact _ x Hx Heq) as (H1 & H2 & H3). split_and!; [done..|]. by apply Hb. }
  exists (DriverSet id value). split; [|done].
  pose proof (pieces_job env observed pitched (seq_utterance sequence) (seq_trace_id sequence) sounds base
    (driver_pieces sequence d) ltac:(intros Hs; by apply bool_decide_eq_true) d (count_read new_sink)) as Hf.
  rewrite Hp in Hf. simpl in Hf.
  destruct (end_acts pitched (seq_utterance sequence) (seq_trace_id sequence) sounds result s)
    as (given & last_ & He & Hg & Hl). rewrite He in Hin.
  assert (Forall (job_act pitched (seq_utterance sequence)) put) as Hpf.
  { destruct base as [b|]; injection Hput as _ <-; [|constructor].
    by apply (set_pitch_job pitched (seq_utterance sequence) b d1). }
  rewrite !elem_of_app in Hin. rewrite !Forall_forall in Hf, Hg, Hpf.
  destruct Hin as [Hin|[Hin|[Hin|[Hin|[Hin|Hin]]]]]; [| |by apply Hf|by apply Hpf|by apply Hg|].
  - by apply elem_of_cons in Hin as [[=]|[[=]|?%elem_of_nil]%elem_of_cons].
  - unfold report in Hin. destruct observed; [|by apply elem_of_nil in Hin].
    by apply list_elem_of_singleton in Hin.
  - apply list_elem_of_singleton in Hin. destruct Hl as [->|[reason ->]]; done.
Qed.

End job_whole.

(** ** At a concrete driver *)

Lemma audio_stops_witness :
  (length (lane_writes (run_job refused_env false toy_job toy).2) = 2 /\ 2 <= 2)%nat /\
  forall pre post, (run_job cancelled_env false toy_job toy).2 = pre ++ TokenRead true :: post -> lane_writes post = [].
Proof.
  split.
  - pose proof (proj1 (audio_stops refused_env false toy_job toy ltac:(done)) 1%nat eq_refl) as H.
    split; [vm_compute; reflexivity|exact H].
  - refine (proj2 (audio_stops cancelled_env false toy_job toy _)).
    intros m n Hmn Hm. apply Nat.leb_le in Hm. apply Nat.leb_le. lia.
Defined.
