(* ===== verification/SynthAudio.v ===== *)
(** * What a job gives the mixer

    A job nobody cuts off, against its reference: the driver's calls, taken with
    no answer but "go on", in the pieces the sequence is split in. The lane is
    given what the trimmer makes of exactly those calls, so every mark and sound
    of the sequence, in order; and the driver is left at the pitch it had. *)

From S2P Require Import Prelude Tree Facts Speech SpeechQueue Trim Settings Synth SynthProps.

(** ** The reference *)

(** The lane's calls for a trimmer's pieces. *)
Definition forwarded (u : UtteranceId) (sounds : list SoundCue) (pieces : list Piece) : list SynthAct :=
  flat_map (fun p => match p with
    | Pcm f pcm => [LaneWrite u f pcm]
    | PieceMark m => forward_mark sounds u m
    end) pieces.

Section reference.
Context `{SynthDriver D}.

(** The audio and marks of a driver never told to stop, and how it returns. *)
Fixpoint calls_of (p : Speaking D) : list TrimCall * option SynthError * D :=
  match p with
  | Returns result d => ([], result, d)
  | PushPcm f pcm next => let '(calls, r, d) := calls_of (next false) in (CallPush f pcm :: calls, r, d)
  | IndexReached m next => let '(calls, r, d) := calls_of next in (CallMark m :: calls, r, d)
  | IsCancelled next => calls_of (next false)
  | Timing _ next | OnCancel _ next => calls_of next
  end.

(** Of a piece: the driver's when it has text, or else its marks. *)
Definition piece_calls (piece : SpeechSequence) (d : D) : list TrimCall * option SynthError * D :=
  if Sequence.has_text piece then calls_of (speak piece d)
  else (CallMark <$> Sequence.marks piece, None, d).

Definition after_calls (base : option Z) (after : option SpeechItem) (d : D) : list TrimCall * D :=
  match after, base with
  | Some (ItemMark m), _ => ([CallMark m], d)
  | Some (ItemPitch offset), Some base => ([], (set_pitch (saturating_add_i32 base offset) d).1)
  | _, _ => ([], d)
  end.

(** Of pieces, up to the first that fails. *)
Fixpoint pieces_calls (base : option Z) (pieces : list (SpeechSequence * option SpeechItem)) (d : D) :
    list TrimCall * option SynthError * D :=
  match pieces with
  | [] => ([], None, d)
  | (piece, after) :: pieces =>
      match piece_calls piece d with
      | (calls, Some error, d) => (calls, Some error, d)
      | (calls, None, d) =>
          let '(then_, d) := after_calls base after d in
          let '(more, r, d) := pieces_calls base pieces d in (calls ++ then_ ++ more, r, d)
      end
  end.

End reference.

Lemma forwarded_app u sounds a b : forwarded u sounds (a ++ b) = forwarded u sounds a ++ forwarded u sounds b.
Proof. apply flat_map_app. Qed.

Lemma trim_calls_app a : forall b t,
  trim_calls (a ++ b) t =
  let '(t1, out) := trim_calls a t in let '(t2, rest) := trim_calls b t1 in (t2, out ++ rest).
Proof.
  induction a as [|c a IH]; intros b t; simpl.
  { by destruct (trim_calls b t). }
  destruct (trim_call c t) as [t1 out]. rewrite IH. destruct (trim_calls a t1) as [t2 rest].
  destruct (trim_calls b t2) as [t3 more]. by rewrite app_assoc.
Qed.

(** ** An undisturbed job *)

Section calm.
Context `{SynthDriver D}.
Context (env : Surroundings) (observed : bool).
Context (Hreads : forall n, token_reads env n = false) (Hbreaks : forall n, lane_breaks env n = false).
Context (u : UtteranceId) (trace : TraceId) (sounds : list SoundCue).
#[local] Notation forward := (forward env observed u trace sounds).

(** A part of the job takes the sink on by these calls. *)
Definition takes_on (s s' : Sink) (acts : list SynthAct) (calls : list TrimCall) : Prop :=
  stopped s = false -> stopped s' = false /\ trimmer s' = (trim_calls calls (trimmer s)).1 /\
  lane_out acts = forwarded u sounds (trim_calls calls (trimmer s)).2.

Lemma takes_on_nothing s s' acts :
  stopped s' = stopped s -> trimmer s' = trimmer s -> lane_out acts = [] -> takes_on s s' acts [].
Proof. intros Hs Ht Ha Hf. simpl. by rewrite Hs. Qed.

Lemma takes_on_trans s s1 s2 a b c1 c2 :
  takes_on s s1 a c1 -> takes_on s1 s2 b c2 -> takes_on s s2 (a ++ b) (c1 ++ c2).
Proof.
  intros H1 H2 Hs. destruct (H1 Hs) as (Hs1 & Ht1 & Ho1). destruct (H2 Hs1) as (Hs2 & Ht2 & Ho2).
  rewrite trim_calls_app lane_out_app Ho1 Ho2 Ht2 Ht1.
  destruct (trim_calls c1 (trimmer s)) as [t1 o1]. simpl. destruct (trim_calls c2 t1) as [t2 o2]. simpl.
  by rewrite forwarded_app.
Qed.

Lemma takes_on_report s s' x acts calls :
  match x with LaneWrite _ _ _ | LaneMark _ _ | LaneSound _ _ _ => False | _ => True end ->
  takes_on s s' acts calls -> takes_on s s' (report observed x ++ acts) calls.
Proof.
  intros Hx Hf. apply (takes_on_trans s s s' _ acts []); [|done].
  apply takes_on_nothing; [done..|]. by apply report_out.
Qed.

Lemma forward_mark_out m : lane_out (forward_mark sounds u m) = forward_mark sounds u m.
Proof. unfold forward_mark. by destruct (Sequence.mark_reads sounds m) as [[cue|]|m']. Qed.

Lemma forward_calm pieces : forall s,
  let '(s', acts, break) := forward pieces s in
  stopped s' = stopped s /\ trimmer s' = trimmer s /\ lane_out acts = forwarded u sounds pieces /\
  break = false.
Proof.
  induction pieces as [|[f pcm|m] pieces IH]; intros s; simpl; [done| |].
  - rewrite Hbreaks. specialize (IH (after_write false s)). destruct (forward pieces _) as [[s' more] b].
    destruct IH as (I1 & I2 & I3 & ->). simpl in I1, I2. split_and!; [by rewrite I1 orb_false_r|done| |done].
    rewrite lane_out_app. simpl. rewrite I3. destruct (mixer_audio s); [done|].
    by rewrite (proj1 (report_out observed (AudioToMixer u trace) I)).
  - specialize (IH s). destruct (forward pieces s) as [[s' more] b]. destruct IH as (I1 & I2 & I3 & ->).
    split_and!; [done..| |done]. by rewrite lane_out_app forward_mark_out I3.
Qed.

Lemma push_calm f pcm s : stopped s = false ->
  let '(s', acts, break) := push_pcm env observed u trace sounds f pcm s in
  takes_on s s' acts [CallPush f pcm] /\ break = false.
Proof.
  intros Hs. unfold push_pcm, read_token. rewrite Hs Hreads.
  destruct (push f pcm (trimmer (count_read s))) as [t pieces] eqn:Hp. simpl in Hp.
  pose proof (forward_calm pieces (with_trimmer t (with_driver_audio (count_read s)))) as Hf.
  destruct (forward pieces _) as [[s' acts] b]. destruct Hf as (F1 & F2 & F3 & ->). simpl in F1, F2.
  split; [|done]. intros _. simpl. rewrite Hp /= F1 F2 Hs app_nil_r lane_out_app F3.
  split_and!; [done..|]. destruct (driver_audio s); [done|].
  by rewrite (proj1 (report_out observed (SynthesizerAudio u trace) I)).
Qed.

Lemma index_calm m s :
  let '(s', acts) := index_reached env observed u trace sounds m s in takes_on s s' acts [CallMark m].
Proof.
  unfold index_reached, takes_on. destruct (stopped s) eqn:Hs; [done|].
  simpl. destruct (Trim.mark m (trimmer s)) as [t pieces].
  pose proof (forward_calm pieces (with_trimmer t s)) as Hf.
  destruct (forward pieces _) as [[s' acts] b]. destruct Hf as (F1 & F2 & F3 & _). simpl in F1, F2.
  intros _. by rewrite F1 F2 F3 app_nil_r.
Qed.

Lemma speak_calm (p : Speaking D) : forall s, stopped s = false ->
  let '(s', acts, r, d) := run_speak env observed u trace sounds p s in
  let '(calls, r', d') := calls_of p in
  takes_on s s' acts calls /\ r = r' /\ d = d'.
Proof.
  induction p as [r d|f pcm next IH|m next IH|next IH|t next IH|w next IH]; intros s Hs; simpl.
  - split_and!; [|done..]. by apply takes_on_nothing.
  - pose proof (push_calm f pcm s Hs) as Hp. destruct (push_pcm _ _ _ _ _ f pcm s) as [[s1 acts] b].
    destruct Hp as [Hp ->]. specialize (IH false s1 ltac:(by apply Hp)).
    destruct (run_speak _ _ _ _ _ (next false) s1) as [[[s2 more] r] d], (calls_of (next false)) as [[calls r'] d'].
    destruct IH as (I1 & I2 & I3). split_and!; [|done..]. by apply (takes_on_trans _ s1 _ _ _ [_]).
  - pose proof (index_calm m s) as Hp. destruct (index_reached _ _ _ _ _ m s) as [s1 acts].
    specialize (IH s1 ltac:(by apply Hp)).
    destruct (run_speak _ _ _ _ _ next s1) as [[[s2 more] r] d], (calls_of next) as [[calls r'] d'].
    destruct IH as (I1 & I2 & I3). split_and!; [|done..]. by apply (takes_on_trans _ s1 _ _ _ [_]).
  - unfold is_cancelled, read_token. rewrite Hs Hreads. specialize (IH false (count_read s) Hs).
    destruct (run_speak _ _ _ _ _ (next false) _) as [[[s2 more] r] d], (calls_of (next false)) as [[calls r'] d'].
    destruct IH as (I1 & I2 & I3). split_and!; [|done..].
    apply (takes_on_trans s (count_read s) s2 [TokenRead false] more []); [|done].
    by apply takes_on_nothing.
  - specialize (IH s Hs).
    destruct (run_speak _ _ _ _ _ next s) as [[[s2 more] r] d], (calls_of next) as [[calls r'] d'].
    destruct IH as (I1 & I2 & I3). split_and!; [|done..]. by apply takes_on_report.
  - specialize (IH s Hs).
    destruct (run_speak _ _ _ _ _ next s) as [[[s2 more] r] d], (calls_of next) as [[calls r'] d'].
    destruct IH as (I1 & I2 & I3). split_and!; [|done..].
    apply (takes_on_trans s s s2 [TokenWaker w] more []); [by apply takes_on_nothing|done].
Qed.

Lemma place_calm rest : forall s,
  let '(s', acts) := place_marks env observed u trace sounds rest s in
  takes_on s s' acts (omap (fun item => match item with ItemMark m => Some (CallMark m) | _ => None end) rest).
Proof.
  induction rest as [|[t|m|p|c] rest IH]; intros s; simpl; [by apply takes_on_nothing|apply IH| |apply IH..].
  pose proof (index_calm m s) as Hp. destruct (index_reached _ _ _ _ _ m s) as [s1 acts].
  specialize (IH s1). destruct (place_marks _ _ _ _ _ rest s1) as [s2 more].
  by apply (takes_on_trans _ s1 _ _ _ [_]).
Qed.

Lemma piece_calm piece (d : D) s : stopped s = false ->
  let '(s', d1, acts, r, broke) := speak_piece env observed u trace sounds piece d s in
  let '(calls, r', d') := piece_calls piece d in
  takes_on s s' acts calls /\ r = r' /\ d1 = d' /\ broke = bool_decide (is_Some r').
Proof.
  intros Hs. unfold speak_piece, piece_calls. destruct (Sequence.has_text piece).
  - pose proof (speak_calm (speak piece d) s Hs) as Hp.
    destruct (run_speak _ _ _ _ _ (speak piece d) s) as [[[s1 acts] r] d1], (calls_of (speak piece d)) as [[calls r'] d'].
    destruct Hp as (P1 & <- & <-).
    assert (takes_on s s1 (DriverSpeaks piece :: acts) calls) as P2.
    { apply (takes_on_trans s s s1 [_] acts []); [by apply takes_on_nothing|done]. }
    destruct r as [e|]; [by rewrite bool_decide_eq_true_2|].
    destruct (P1 Hs) as [-> _]. unfold read_token. rewrite Hreads. split_and!; [|done..].
    change (DriverSpeaks piece :: acts ++ [TokenRead false]) with ((DriverSpeaks piece :: acts) ++ [TokenRead false]).
    rewrite -(app_nil_r calls). eapply takes_on_trans; [exact P2|]. by apply takes_on_nothing.
  - pose proof (place_calm (items piece) s) as Hp. destruct (place_marks _ _ _ _ _ (items piece) s) as [s1 acts].
    split_and!; [|done..]. unfold Sequence.marks. rewrite list_fmap_omap.
    replace (omap _ (items piece)) with
      (omap (fun item => match item with ItemMark m => Some (CallMark m) | _ => None end) (items piece)); [exact Hp|].
    clear. induction (items piece) as [|[t|m|p|c] rest IH]; csimpl; by rewrite ?IH.
Qed.

Lemma after_calm base after (d : D) s :
  let '(s', d1, acts) := after_piece env observed u trace sounds base after d s in
  let '(calls, d') := after_calls base after d in
  takes_on s s' acts calls /\ d1 = d'.
Proof.
  unfold after_piece, after_calls. destruct after as [[t|m|p|c]|].
  1,4,5: destruct base; by split; [apply takes_on_nothing|].
  - pose proof (index_calm m s) as Hi. destruct (index_reached _ _ _ _ _ m s) as [s1 acts]. by destruct base.
  - destruct base; by split; [apply takes_on_nothing|].
Qed.

Lemma pieces_calm base pieces : forall (d : D) s, stopped s = false ->
  let '(s', d1, acts, r) := speak_pieces env observed u trace sounds base pieces d s in
  let '(calls, r', d') := pieces_calls base pieces d in
  takes_on s s' acts calls /\ r = r' /\ d1 = d'.
Proof.
  induction pieces as [|[piece after] pieces IH]; intros d s Hs; simpl.
  { split_and!; [|done..]. by apply takes_on_nothing. }
  pose proof (piece_calm piece d s Hs) as Hp.
  destruct (speak_piece _ _ _ _ _ piece d s) as [[[[s1 d1] acts] r] broke], (piece_calls piece d) as [[calls r'] d'].
  destruct Hp as (P1 & <- & <- & ->). destruct r as [e|]; simpl; [done|].
  pose proof (after_calm base after d1 s1) as Ha.
  destruct (after_piece _ _ _ _ _ base after d1 s1) as [[s2 d2] then_], (after_calls base after d1) as [calls2 d2'].
  destruct Ha as [A1 <-]. specialize (IH d2 s2 ltac:(by apply A1, P1)).
  destruct (speak_pieces _ _ _ _ _ base pieces d2 s2) as [[[s3 d3] more] r3],
    (pieces_calls base pieces d2) as [[calls3 r3'] d3'].
  destruct IH as (I1 & I2 & I3). split_and!; [|done..].
  eapply takes_on_trans; [exact P1|]. by eapply takes_on_trans.
Qed.

Lemma end_calm result s :
  lane_out (end_job env observed u trace sounds result s) =
  match result with None => forwarded u sounds (trim_finish (trimmer s)).2 | Some _ => [] end.
Proof.
  unfold end_job. destruct result; [done|]. destruct (trim_finish (trimmer s)) as [t tail].
  pose proof (forward_calm tail (with_trimmer t s)) as Hf. destruct (forward tail _) as [[s' acts] b].
  destruct Hf as (_ & _ & F3 & _). by rewrite lane_out_app F3 app_nil_r.
Qed.

End calm.

(** What an undisturbed job gives the lane, and the driver it leaves. *)
Lemma job_reference `{SynthDriver D} (env : Surroundings) (observed : bool) (job : Job) (d : D) :
  (forall n, token_reads env n = false) -> (forall n, lane_breaks env n = false) ->
  let '(sequence, sounds) := Sequence.sounds_as_marks (job_sequence job) in
  let base := base_pitch_of sequence d in
  let '(calls, result, d') := pieces_calls base (driver_pieces sequence d) d in
  lane_out (run_job env observed job d).2 =
    forwarded (seq_utterance (job_sequence job)) sounds
      match result with None => trim_run calls | Some _ => (trim_calls calls new_trimmer).2 end /\
  (run_job env observed job d).1 =
    match base with Some base => (set_pitch base d').1 | None => d' end.
Proof.
  intros Hr Hb.
  destruct (run_job_parts env observed job d (Hr 0%nat))
    as (sequence & sounds & s & acts & result & d1 & put & Hs & Hp & Hput & _ & Hpo & _ & ->).
  pose proof (sounds_keep (job_sequence job)) as [Hu _]. rewrite Hs in Hu |- *. simpl in Hu |- *. rewrite -Hu.
  pose proof (pieces_calm env observed Hr Hb (seq_utterance sequence) (seq_trace_id sequence) sounds
    (base_pitch_of sequence d) (driver_pieces sequence d) d (count_read new_sink) eq_refl) as Hc.
  rewrite Hp in Hc. destruct (pieces_calls _ _ d) as [[calls r'] d']. destruct Hc as (Hc & <- & <-).
  destruct (Hc eq_refl) as (_ & Ht & Ho). simpl in Ht, Ho. split.
  - change (lane_out ([LaneRegister ?a ?b ?c; TokenRead ?r] ++ ?l)) with (lane_out l).
    rewrite !lane_out_app Ho Hpo (end_calm env observed Hb) Ht.
    rewrite (proj1 (report_out observed (SynthesisStarted _ _) I)). unfold trim_run.
    destruct (trim_calls calls new_trimmer) as [t out], result; simpl; [by rewrite app_nil_r|].
    by rewrite forwarded_app.
  - destruct (base_pitch_of sequence d); by injection Hput.
Qed.

(** ** Marks and sounds *)

(** The marks of a run of calls, and those the trimmer passes on. *)
Definition call_mark (c : TrimCall) : option IndexMark :=
  match c with CallMark m => Some m | CallPush _ _ => None end.
Definition sample_mark (s : Sample) : option IndexMark :=
  match s with SMark m => Some m | SAudio _ _ => None end.
Definition piece_mark (p : Piece) : option IndexMark :=
  match p with PieceMark m => Some m | Pcm _ _ => None end.

Lemma flat_piece_marks pieces : omap sample_mark (flat_pieces pieces) = omap piece_mark pieces.
Proof.
  induction pieces as [|[f pcm|m] pieces IH]; [done| |]; unfold flat_pieces in *; csimpl.
  - rewrite omap_app IH. replace (omap sample_mark (SAudio f <$> pcm)) with (@nil IndexMark); [done|].
    by induction pcm.
  - by rewrite IH.
Qed.

Lemma flat_sample_marks calls : omap sample_mark (flat_tokens (tokens calls)) = omap call_mark calls.
Proof.
  unfold flat_tokens, tokens. induction calls as [|[f pcm|m] calls IH]; [done| |]; csimpl.
  - rewrite flat_map_app omap_app IH.
    replace (omap sample_mark _) with (@nil IndexMark); [done|].
    induction (chunks_exact (channel_count f) pcm) as [|frame frames IHf]; [done|]; csimpl.
    rewrite omap_app -IHf app_nil_r. by induction frame.
  - by rewrite IH.
Qed.

(** No frame is a mark. *)
Lemma frame_marks f frame : omap sample_mark (SAudio f <$> frame) = [].
Proof. by induction frame. Qed.

Lemma lead_trim_marks ts : omap sample_mark (flat_tokens (lead_trim ts)) = omap sample_mark (flat_tokens ts).
Proof.
  unfold flat_tokens. induction ts as [|t ts IH]; [done|]. simpl lead_trim.
  destruct t as [f frame|m]; csimpl; [|by rewrite IH].
  destruct (negb (quiet frame)); [done|]. by rewrite omap_app frame_marks.
Qed.

Lemma filter_smark_marks l : omap sample_mark (List.filter is_smark l) = omap sample_mark l.
Proof. induction l as [|[f x|m] l IH]; csimpl; by rewrite ?IH. Qed.

(** Every mark goes through the trimmer, in order. *)
Lemma trim_run_marks calls : omap piece_mark (trim_run calls) = omap call_mark calls.
Proof.
  pose proof (trim_calls_tinv None calls [] new_trimmer [] ltac:(done) (tinv_new None)) as Ht.
  unfold trim_run. destruct (trim_calls calls new_trimmer) as [t out]. simpl in Ht.
  destruct Ht as [Hs _ Hwf _ _ _].
  rewrite -flat_piece_marks flat_pieces_app omap_app finish_marks // filter_smark_marks.
  by rewrite -omap_app Hs lead_trim_marks flat_sample_marks.
Qed.

(** What the lane is told of besides audio: marks and sounds. *)
Inductive Cue := CueMark (mark : N) | CueSound (sound gain : N).

Definition lane_cue (x : SynthAct) : option Cue :=
  match x with
  | LaneMark _ m => Some (CueMark m)
  | LaneSound _ sound gain => Some (CueSound sound gain)
  | _ => None
  end.
Definition item_cue (item : SpeechItem) : option Cue :=
  match item with
  | ItemMark m => Some (CueMark (index m))
  | ItemSound cue => Some (CueSound (cue_sound cue) (cue_gain cue))
  | _ => None
  end.

Lemma forwarded_cues u sounds pieces :
  omap lane_cue (forwarded u sounds pieces) =
  omap (fun m => item_cue (Sequence.item_reads sounds (ItemMark m))) (omap piece_mark pieces)
  \/ exists m, m ∈ omap piece_mark pieces /\ Sequence.mark_reads sounds m = inl None.
Proof.
  unfold forwarded. induction pieces as [|[f pcm|m] pieces IH]; csimpl; [by left|done|].
  destruct IH as [IH|(m' & Hin & Hm)]; [|right; exists m'; split; [by right|done]].
  destruct (Sequence.mark_reads sounds m) as [[cue|]|m'] eqn:Hm; csimpl.
  - left. rewrite omap_app IH /forward_mark Hm. done.
  - right. exists m. split; [by left|done].
  - left. rewrite omap_app IH /forward_mark Hm. done.
Qed.

Lemma lane_cues_out acts : omap lane_cue (lane_out acts) = omap lane_cue acts.
Proof. unfold lane_out. induction acts as [|x acts IH]; [done|]. destruct x; csimpl; by rewrite ?IH. Qed.

Definition item_mark (item : SpeechItem) : option IndexMark :=
  match item with ItemMark m => Some m | _ => None end.

(** The marks of the pieces and between them are those of the sequence. *)
Lemma driver_pieces_marks `{SynthDriver D} sequence (d : D) :
  omap item_mark (Sequence.rejoined (driver_pieces sequence d)) = omap item_mark (items sequence).
Proof.
  assert (omap item_mark (items (Sequence.without_pitch_changes sequence)) = omap item_mark (items sequence)) as Hw.
  { unfold Sequence.without_pitch_changes. simpl. induction (items sequence) as [|[t|m|p|c] l IH]; csimpl; by rewrite ?IH. }
  unfold driver_pieces. set (sp := bool_decide _).
  set (sq := if changes_pitch d || sp then sequence else Sequence.without_pitch_changes sequence).
  assert (omap item_mark (items sq) = omap item_mark (items sequence)) as Hsq by (unfold sq; by destruct (_ || _)).
  destruct ((negb (places_marks d) && Sequence.has_marks sequence) || sp).
  - unfold Sequence.split. rewrite (proj1 (Sequence.split_from_spec _ sp sq [] (items sq) ltac:(constructor))).
    by rewrite app_nil_l.
  - unfold Sequence.rejoined. simpl. by rewrite !app_nil_r.
Qed.

(** Drivers that do what they are asked, while [P] holds of them: each piece
    they are given, they speak without failing and with exactly its marks, in
    order. *)
Definition speaks_its_marks `{SynthDriver D} (P : D -> Prop)
    (pieces : list (SpeechSequence * option SpeechItem)) : Prop :=
  (forall piece d, P d -> piece ∈ pieces.*1 ->
    let '(calls, result, d') := calls_of (speak piece d) in
    result = None /\ omap call_mark calls = Sequence.marks piece /\ P d') /\
  (forall pitch d, P d -> P (set_pitch pitch d).1).

Lemma pieces_marks_of `{SynthDriver D} (P : D -> Prop) base pieces : speaks_its_marks P pieces -> forall d, P d ->
  let '(calls, result, _) := pieces_calls base pieces d in
  result = None /\ omap call_mark calls = omap item_mark (Sequence.rejoined pieces).
Proof.
  intros [Hs Hset]. induction pieces as [|[piece after] pieces IH]; intros d Hd; [done|]. simpl.
  assert (let '(calls, result, d') := piece_calls piece d in
    result = None /\ omap call_mark calls = omap item_mark (items piece) /\ P d') as Hp.
  { unfold piece_calls. destruct (Sequence.has_text piece).
    - apply (Hs piece d Hd). by left.
    - split_and!; [done| |done]. unfold Sequence.marks.
      induction (items piece) as [|[t|m|p|c] l IHl]; csimpl; by rewrite ?IHl. }
  destruct (piece_calls piece d) as [[calls r] d1]. destruct Hp as (-> & Hc & Hd1).
  assert (omap call_mark (after_calls base after d1).1 = omap item_mark (option_list after) /\
    P (after_calls base after d1).2) as [Ha Hd2].
  { unfold after_calls. destruct after as [[t|m|p|c]|], base; split; try done. by apply Hset. }
  destruct (after_calls base after d1) as [then_ d2]. simpl in Ha, Hd2.
  specialize (IH ltac:(intros p d' Hd' Hin; apply Hs; [done|by right]) d2 Hd2).
  destruct (pieces_calls base pieces d2) as [[more r] d3].
  destruct IH as [-> IH]. split; [done|].
  by rewrite !omap_app Hc Ha IH app_assoc.
Qed.

(** ** The guarantees *)

(** A job nobody cuts off gives the mixer exactly what the trimmer makes of
    its driver's calls: whatever the answers could have been, the audio, marks and
    sounds on the lane are those of the reference, which takes the driver's calls
    in the pieces the sequence is split in and trims them as one run. *)
Theorem undisturbed_job_is_reference `{SynthDriver D} (env : Surroundings) (observed : bool) (job : Job) (d : D)
    (Hreads : forall n, token_reads env n = false) (Hbreaks : forall n, lane_breaks env n = false) :
  let '(sequence, sounds) := Sequence.sounds_as_marks (job_sequence job) in
  let '(calls, result, _) := pieces_calls (base_pitch_of sequence d) (driver_pieces sequence d) d in
  lane_out (run_job env observed job d).2 =
    forwarded (seq_utterance (job_sequence job)) sounds
      match result with None => trim_run calls | Some _ => (trim_calls calls new_trimmer).2 end.
Proof.
  pose proof (job_reference env observed job d Hreads Hbreaks) as H'. cbv zeta in H'.
  destruct (Sequence.sounds_as_marks (job_sequence job)) as [sequence sounds].
  destruct (pieces_calls _ _ d) as [[calls r] d']. by destruct H'.
Qed.

(** C23: every mark and sound of an utterance reaches the mixer, once, in order
    and as itself, whether its driver places marks or has its pieces spoken one
    after another, changes pitch itself or has its setting changed between
    pieces, and however much silence is trimmed around them. *)
Theorem marks_and_sounds_arrive `{SynthDriver D} (env : Surroundings) (observed : bool) (job : Job) (d : D)
    (Hreads : forall n, token_reads env n = false) (Hbreaks : forall n, lane_breaks env n = false)
    (Hmarks : Forall (fun item => match item with ItemMark m => N.testbit (index m) 63 = false | _ => True end)
                (items (job_sequence job)))
    (Hcount : (N.of_nat (length (Sequence.sounds_as_marks (job_sequence job)).2) <= 2 ^ 63)%N)
    (P : D -> Prop) (Hd : P d)
    (Hdriver : speaks_its_marks P (driver_pieces (Sequence.sounds_as_marks (job_sequence job)).1 d)) :
  omap lane_cue (run_job env observed job d).2 = omap item_cue (items (job_sequence job)).
Proof.
  pose proof (job_reference env observed job d Hreads Hbreaks) as Hj. cbv zeta in Hj.
  unfold Sequence.sounds_as_marks in *.
  pose proof (Sequence.sounds_from_spec [] (items (job_sequence job))) as Hf.
  destruct (Sequence.sounds_from [] (items (job_sequence job))) as [its sounds]. simpl in Hcount, Hdriver.
  destruct Hf as (_ & _ & Hf & Hn). specialize (Hf Hmarks Hcount).
  set (sequence := Sequence.with_items (job_sequence job) its) in *.
  pose proof (pieces_marks_of P (base_pitch_of sequence d) _ Hdriver d Hd) as Hp.
  destruct (pieces_calls (base_pitch_of sequence d) (driver_pieces sequence d) d) as [[calls r] d'].
  destruct Hp as [-> Hp]. destruct Hj as [Hj _].
  rewrite -lane_cues_out Hj -Hf. rewrite driver_pieces_marks in Hp. simpl in Hp.
  rewrite -trim_run_marks in Hp.
  assert (forall m, m ∈ omap item_mark its -> Sequence.mark_reads sounds m <> inl None) as Hknown.
  { intros m Hin Hm. rewrite list_elem_of_omap in Hin. destruct Hin as (item & Hin & Hi).
    destruct item; simplify_eq/=.
    assert (ItemMark m ∈ items (job_sequence job)) as Hin'.
    { rewrite -Hf. apply list_elem_of_fmap. exists (ItemMark m). by rewrite /Sequence.item_reads Hm. }
    rewrite Forall_forall in Hmarks. specialize (Hmarks _ Hin'). simpl in Hmarks.
    unfold Sequence.mark_reads in Hm. by rewrite Hmarks in Hm. }
  destruct (forwarded_cues (seq_utterance (job_sequence job)) sounds (trim_run calls)) as [->|(m & Hin & Hm)].
  2:{ rewrite Hp in Hin. by destruct (Hknown m Hin). }
  rewrite Hp. clear -Hn. induction its as [|[t|m|p|c] its IH]; [done| | | |]; csimpl.
  1,3: apply IH; by inversion Hn.
  - inversion Hn; subst. rewrite IH //.
  - by inversion Hn.
Qed.

(** ** Pitch *)

Section pitch.
Context `{SynthDriver D}.

(** However its calls are answered, the driver ends as [P] says. *)
Fixpoint every_end (P : D -> Prop) (p : Speaking D) : Prop :=
  match p with
  | Returns _ d => P d
  | PushPcm _ _ next => forall break, every_end P (next break)
  | IndexReached _ next | Timing _ next | OnCancel _ next => every_end P next
  | IsCancelled next => forall answer, every_end P (next answer)
  end.

(** The driver describes itself, and has its settings, as before. *)
Definition same_settings (d d' : D) : Prop :=
  (forall id, setting d' id = setting d id) /\ supported_settings d' = supported_settings d /\
  driver_id d' = driver_id d.

(** What the trait's documentation says of a driver's settings: a pitch is a
    number from 0 to 100, which a change in that range sets and nothing else;
    no change makes it another driver; and speaking leaves them all alone. *)
Class KeepsSettings : Prop := {
  pitch_range : forall (d : D) x, setting d PITCH = Some (Number x) -> (0 <= x <= 100)%Z;
  pitch_set : forall (d : D) x y, setting d PITCH = Some (Number x) -> (0 <= y <= 100)%Z ->
    setting (set_setting PITCH (Number y) d).1 PITCH = Some (Number y);
  pitch_alone : forall (d : D) value id, id <> PITCH ->
    setting (set_setting PITCH value d).1 id = setting d id;
  set_describes : forall id value (d : D),
    supported_settings (set_setting id value d).1 = supported_settings d /\
    driver_id (set_setting id value d).1 = driver_id d;
  spoken_keeps : forall piece (d : D), every_end (same_settings d) (speak piece d);
}.
Context `{!KeepsSettings}.
Context (env : Surroundings) (observed : bool) (u : UtteranceId) (trace : TraceId) (sounds : list SoundCue).

Lemma run_speak_end P (p : Speaking D) : forall s,
  every_end P p -> P (run_speak env observed u trace sounds p s).2.
Proof.
  induction p as [r d|f pcm next IH|m next IH|next IH|t next IH|w next IH]; intros s Hp; simpl in *.
  - done.
  - destruct (push_pcm _ _ _ _ _ f pcm s) as [[s1 acts] b]. specialize (IH b s1 (Hp b)).
    by destruct (run_speak _ _ _ _ _ (next b) s1) as [[[s2 more] r] d].
  - destruct (index_reached _ _ _ _ _ m s) as [s1 acts]. specialize (IH s1 Hp).
    by destruct (run_speak _ _ _ _ _ next s1) as [[[s2 more] r] d].
  - destruct (is_cancelled env s) as [[a s1] acts]. specialize (IH a s1 (Hp a)).
    by destruct (run_speak _ _ _ _ _ (next a) s1) as [[[s2 more] r] d].
  - specialize (IH s Hp). by destruct (run_speak _ _ _ _ _ next s) as [[[s2 more] r] d].
  - specialize (IH s Hp). by destruct (run_speak _ _ _ _ _ next s) as [[[s2 more] r] d].
Qed.

Lemma same_trans d d1 d2 : same_settings d d1 -> same_settings d1 d2 -> same_settings d d2.
Proof. intros (A1 & A2 & A3) (B1 & B2 & B3). split_and!; [intros id; by rewrite B1|congruence..]. Qed.

(** As before but for the pitch, which is a number still. *)
Definition same_but_pitch (d d' : D) : Prop :=
  (forall id, id <> PITCH -> setting d' id = setting d id) /\ supported_settings d' = supported_settings d /\
  driver_id d' = driver_id d /\
  ((exists x, setting d PITCH = Some (Number x)) -> exists x, setting d' PITCH = Some (Number x)).

Lemma same_same_but d d' : same_settings d d' -> same_but_pitch d d'.
Proof. intros (A1 & A2 & A3). split_and!; [intros id _; by rewrite A1|done..|]. by rewrite A1. Qed.
Lemma same_but_trans d d1 d2 : same_but_pitch d d1 -> same_but_pitch d1 d2 -> same_but_pitch d d2.
Proof.
  intros (A1 & A2 & A3 & A4) (B1 & B2 & B3 & B4).
  split_and!; [intros id Hid; by rewrite B1 // A1|congruence..|]. intros Hx. by apply B4, A4.
Qed.

Lemma set_pitch_same pitch d : same_but_pitch d (set_pitch pitch d).1.
Proof.
  destruct (set_describes PITCH (Number (clamp 0 100 pitch)) d) as [Hd Hi].
  split_and!; [intros id Hid; by apply pitch_alone|done..|].
  intros [x Hx]. eexists. eapply pitch_set; [exact Hx|]. unfold clamp. lia.
Qed.

Lemma piece_same piece (d : D) s :
  same_settings d (speak_piece env observed u trace sounds piece d s).1.1.1.2.
Proof.
  unfold speak_piece. destruct (Sequence.has_text piece).
  - pose proof (run_speak_end _ _ s (spoken_keeps piece d)) as He.
    destruct (run_speak _ _ _ _ _ (speak piece d) s) as [[[s1 acts] r] d1]. simpl in He.
    destruct r; [done|]. by destruct (stopped s1).
  - by destruct (place_marks _ _ _ _ _ (items piece) s).
Qed.

(** Pieces leave all but the pitch alone, and that too when it is not changed
    between them. *)
Lemma pieces_same base pieces : forall (d : D) s,
  let d' := (speak_pieces env observed u trace sounds base pieces d s).1.1.2 in
  match base with None => same_settings d d' | Some _ => same_but_pitch d d' end.
Proof.
  induction pieces as [|[piece after] pieces IH]; intros d s; simpl; [by destruct base; split_and!|].
  pose proof (piece_same piece d s) as Hp.
  destruct (speak_piece _ _ _ _ _ piece d s) as [[[[s1 d1] acts] r] broke]. simpl in Hp.
  destruct broke; simpl; [destruct base; [by apply same_same_but|done]|].
  assert (let d2 := (after_piece env observed u trace sounds base after d1 s1).1.2 in
    match base with None => same_settings d1 d2 | Some _ => same_but_pitch d1 d2 end) as Ha.
  { unfold after_piece. destruct after as [[t|m|o|c]|]; [by destruct base; split_and!| | |by destruct base; split_and!..].
    - destruct (index_reached _ _ _ _ _ m s1), base; by split_and!.
    - destruct base as [b|]; [apply set_pitch_same|by split_and!]. }
  destruct (after_piece _ _ _ _ _ base after d1 s1) as [[s2 d2] then_]. simpl in Ha.
  specialize (IH d2 s2). destruct (speak_pieces _ _ _ _ _ base pieces d2 s2) as [[[s3 d3] more] r3].
  simpl in *. destruct base as [b|].
  - eapply same_but_trans; [by apply same_same_but|]. by eapply same_but_trans.
  - eapply same_trans; [done|]. by eapply same_trans.
Qed.

End pitch.
Arguments KeepsSettings D {_}.

(** A job leaves every setting of its driver as it was. *)
Lemma job_keeps_settings `{SynthDriver D} `{!KeepsSettings D} (env : Surroundings) (observed : bool) (job : Job) (d : D) :
  same_settings d (run_job env observed job d).1.
Proof.
  destruct (token_reads env 0) eqn:Hc.
  { unfold run_job, read_token. simpl. rewrite Hc. by destruct (Sequence.sounds_as_marks (job_sequence job)). }
  destruct (run_job_parts env observed job d Hc)
    as (sequence & sounds & s & acts & result & d1 & put & _ & Hp & Hput & _).
  pose proof (pieces_same env observed (seq_utterance sequence) (seq_trace_id sequence) sounds
    (base_pitch_of sequence d) (driver_pieces sequence d) d (count_read new_sink)) as Hk.
  rewrite Hp in Hk. simpl in Hk.
  destruct (base_pitch_of sequence d) as [base|] eqn:Hb.
  - unfold base_pitch_of in Hb. destruct (setting d PITCH) as [[x| |]|] eqn:Hd; try done.
    destruct (_ && _); simplify_eq. injection Hput as <- _.
    pose proof (pitch_range d base Hd) as Hr.
    destruct (same_but_trans _ _ _ Hk (set_pitch_same base d1)) as (K1 & K2 & K3 & _).
    split_and!; [|done..]. intros id. destruct (decide (id = PITCH)) as [->|Hid]; [|by apply K1].
    destruct (proj2 (proj2 (proj2 Hk)) ltac:(eauto)) as [y Hy].
    rewrite Hd (pitch_set d1 y (clamp 0 100 base)) //; unfold clamp; [|lia]. do 2 f_equal. lia.
  - injection Hput as <- _. exact Hk.
Qed.

(** Every setting is put back. Whatever pitch changes an utterance has, and
    whether its driver completes it, fails it or is cut off at any point, the
    driver ends the job with the settings it began it with, its pitch included. *)
Theorem settings_put_back `{SynthDriver D} `{!KeepsSettings D} (env : Surroundings) (observed : bool) (job : Job)
    (d : D) (id : SettingId) :
  setting (run_job env observed job d).1 id = setting d id.
Proof. by apply job_keeps_settings. Qed.

(** ** At a concrete driver *)

Lemma undisturbed_job_is_reference_witness :
  lane_out (run_job calm_env true toy_job toy).2 =
  let u := {| utterance_number := 7 |} in
  [LaneMark u 1; LaneWrite u toy_format [1000%Z; 1000%Z]; LaneSound u 5 9;
   LaneWrite u toy_format [1000%Z; 1000%Z]; LaneMark u 2].
Proof.
  exact (undisturbed_job_is_reference calm_env true toy_job toy (fun _ => eq_refl) (fun _ => eq_refl)).
Defined.

(** The toy reports the marks of what it is given, while it does not fail. *)
Lemma toy_calls rest : forall d, toy_fails d = false ->
  let '(calls, result, d') := calls_of (toy_speak rest d) in
  result = None /\ omap call_mark calls = omap item_mark rest /\ d' = d.
Proof.
  induction rest as [|[t|m|p|c] rest IH]; intros d Hd; simpl; [by rewrite Hd| | |by apply IH..];
    specialize (IH d Hd); destruct (calls_of (toy_speak rest d)) as [[calls r] d'];
    destruct IH as (-> & IH & ->); csimpl; by rewrite ?IH.
Qed.

Lemma toy_does_as_asked pieces : speaks_its_marks (fun d : Toy => toy_fails d = false) pieces.
Proof.
  split.
  - intros piece d Hd _. pose proof (toy_calls (items piece) d Hd) as Hc.
    simpl. destruct (calls_of (toy_speak (items piece) d)) as [[calls r] d'].
    destruct Hc as (-> & Hc & ->). split_and!; [done| |done]. by rewrite Hc.
  - intros pitch d Hd. unfold set_pitch, toy_set. simpl. unfold toy_set.
    by destruct (validate toy_settings PITCH _).
Qed.

Lemma marks_and_sounds_arrive_witness :
  omap lane_cue (run_job calm_env true toy_job toy).2 = [CueMark 1; CueSound 5 9; CueMark 2].
Proof.
  apply (marks_and_sounds_arrive calm_env true toy_job toy (fun _ => eq_refl) (fun _ => eq_refl)
           ltac:(repeat constructor) ltac:(vm_compute; congruence) (fun d => toy_fails d = false) eq_refl
           (toy_does_as_asked _)).
Defined.

(** The toy keeps its settings: no set call is another driver's, and speaking
    gives the driver back. *)
Lemma toy_speak_end rest (d : Toy) : every_end (fun d' => d' = d) (toy_speak rest d).
Proof.
  induction rest as [|[t|m|p|c] rest IH]; simpl; [done| |done..].
  intros []; simpl; [done|]. by intros [].
Qed.

Lemma every_end_weaken {D} (P Q : D -> Prop) (p : Speaking D) :
  (forall d, P d -> Q d) -> every_end P p -> every_end Q p.
Proof. intros HPQ. induction p; simpl; auto. Qed.

#[export] Instance toy_keeps : KeepsSettings Toy.
Proof.
  split.
  - intros d x. simpl. intros [= <-]. unfold clamp. lia.
  - intros d x y _ Hy. simpl. unfold toy_set.
    rewrite (proj2 (validate_fits _ _ _)); [|].
    2:{ exists (standard_numeric "pitch" "setting-pitch"). split; [done|]. by constructor. }
    simpl. do 2 f_equal. unfold clamp. lia.
  - intros d value id Hid. simpl. unfold toy_set.
    destruct (validate toy_settings PITCH value); [done|]. destruct value as [x| |]; try done.
    simpl. by destruct (decide (id = "pitch")) as [->|Hp].
  - intros id value d. simpl. unfold toy_set. destruct (validate toy_settings id value); [done|].
    split; [done|]. destruct value as [x| |]; try done. by case_decide.
  - intros piece d. eapply every_end_weaken; [|apply toy_speak_end]. by intros d' ->.
Qed.

Lemma settings_put_back_witness :
  setting (run_job refused_env true toy_job toy).1 PITCH = Some (Number 40) /\
  setting (run_job cancelled_env true toy_job toy).1 PITCH = Some (Number 40).
Proof.
  split; [exact (settings_put_back refused_env true toy_job toy PITCH)
         |exact (settings_put_back cancelled_env true toy_job toy PITCH)].
Defined.
