(* ===== verification/SynthThread.v ===== *)
(** * Properties of the synth thread

    Runs of the synth thread of [Synth.v] over the commands of its channel: which
    synthesizer starts, what the thread answers, that every value is typed by the
    descriptors of the synthesizer it is given to, that the mirror the settings
    GUI reads shows the driver, and that the speech queue's jobs reach the mixer
    once each and in order. *)

From S2P Require Import Prelude Tree Facts Speech SpeechQueue SpeechQueueProps Trim Settings Synth SynthProps SynthAudio.

(** ** Starting *)

Section starting.
Context `{SynthDriver D} `{SpeechSettingsStore St}.
Implicit Types r : SynthRegistry D.

(** The loop tries the ids in order, one attempt each, up to the first that
    starts. *)
Lemma start_each_spec r (store : St) ids : forall attempt failures,
  match start_each r store ids attempt failures with
  | (inr d, acts, n) => exists before id after, ids = before ++ id :: after /\
      n = S (attempt + length before) /\
      start_synth r id store (attempt + length before) = (inr d, acts) /\
      forall k x, before !! k = Some x -> exists e, build r x (attempt + k) = inl e
  | (inl e, acts, n) => acts = [] /\ n = (attempt + length ids)%nat /\ (exists reason, e = Unavailable reason) /\
      forall k x, ids !! k = Some x -> exists e, build r x (attempt + k) = inl e
  end.
Proof.
  induction ids as [|id ids IH]; intros attempt failures; simpl.
  { split_and!; [done|lia|eauto|done]. }
  destruct (start_synth r id store attempt) as [[e|d] acts] eqn:Hs.
  - assert (exists e, build r id attempt = inl e) as Hb.
    { unfold start_synth in Hs. destruct (build r id attempt) as [e'|d']; [eauto|].
      by destruct (apply_saved_settings _ d'). }
    specialize (IH (S attempt) (failures ++ [id +:+ ": " +:+ show_error e])).
    destruct (start_each r store ids (S attempt) _) as [[[e'|d'] acts'] n].
    + destruct IH as (-> & -> & He & IH). split_and!; [done|lia|done|].
      intros [|k] x Hk; simpl in Hk; [injection Hk as <-; by rewrite Nat.add_0_r|].
      specialize (IH k x Hk). by rewrite -Nat.add_succ_comm.
    + destruct IH as (before & id' & after & -> & -> & Hst & IH).
      exists (id :: before), id', after. simpl. rewrite -Nat.add_succ_comm.
      split_and!; [done..|]. intros [|k] x Hk; simpl in Hk; [injection Hk as <-; by rewrite Nat.add_0_r|].
      specialize (IH k x Hk). by rewrite -Nat.add_succ_comm.
  - exists [], id, ids. rewrite Nat.add_0_r. split_and!; [done..|]. intros k x. by rewrite lookup_nil.
Qed.

(** The synthesizer that starts is the configured one, or else the first
    other registered one that can, in the order of the list: every one before it
    in that order was tried, once each, and could not start; and the thread gives
    up only when none of them can. *)
Theorem fallback_is_first_that_starts r (store : St) (preferred : SynthId) :
  let order := start_order r preferred in
  (NoDup (reg_id <$> r) -> NoDup order) /\
  (forall id, id ∈ order <-> id = preferred \/ contains r id = true) /\
  match start_first_available r preferred store with
  | (inr d, acts, n) => exists before id after, order = before ++ id :: after /\ n = S (length before) /\
      start_synth r id store (length before) = (inr d, acts) /\
      forall k x, before !! k = Some x -> exists e, build r x k = inl e
  | (inl e, _, n) => n = length order /\ (exists reason, e = Unavailable reason) /\
      forall k x, order !! k = Some x -> exists e, build r x k = inl e
  end.
Proof.
  intros order. assert (choice_id <$> choices r = reg_id <$> r) as Hids.
  { unfold choices. rewrite -list_fmap_compose. by apply list_fmap_ext. }
  assert (forall id, id ∈ List.filter (fun id => negb (bool_decide (id = preferred))) (choice_id <$> choices r) <->
    id ∈ reg_id <$> r /\ id <> preferred) as Hin.
  { intros id. rewrite Hids list_elem_of_In filter_In -list_elem_of_In negb_true_iff bool_decide_eq_false. done. }
  split_and!.
  - intros Hnd. unfold order, start_order. apply NoDup_cons. split; [rewrite Hin; naive_solver|].
    rewrite Hids. apply NoDup_ListNoDup, List.NoDup_filter. by apply NoDup_ListNoDup.
  - intros id. unfold order, start_order. rewrite elem_of_cons Hin contains_spec.
    destruct (decide (id = preferred)); naive_solver.
  - pose proof (start_each_spec r store order 0 []) as He. unfold start_first_available.
    fold order. destruct (start_each r store order 0 []) as [[[e|d] acts] n]; simpl in He; [|done].
    by destruct He as (_ & ? & ? & ?).
Qed.

End starting.

(** ** What is answered *)

(** The commands taken: those before a shutdown. *)
Fixpoint taken_inputs (inputs : list ThreadInput) : list ThreadInput :=
  match inputs with
  | [] => []
  | Takes ShutdownCommand :: _ => []
  | x :: inputs => x :: taken_inputs inputs
  end.

(** An utterance registered, and a job finished. *)
Inductive JobEvent := Registered (u : UtteranceId) (generation : N) | Finished.
Definition job_event (x : SynthAct) : option JobEvent :=
  match x with LaneRegister u _ g => Some (Registered u g) | PostFinished => Some Finished | _ => None end.
Definition job_events (x : ThreadInput) : list JobEvent :=
  match x with
  | Takes (JobCommand job) => [Registered (seq_utterance (job_sequence job)) (job_generation job); Finished]
  | _ => []
  end.

Definition switch_heard (x : SynthAct) : option N :=
  match x with AnswerSwitch reply _ | DropSwitch reply => Some reply | _ => None end.
Definition switch_asked (x : ThreadInput) : option N :=
  match x with Takes (SwitchCommand _ reply) => Some reply | _ => None end.
Definition settled (x : SynthAct) : option N := match x with RunSettled n => Some n | _ => None end.
Definition settle_asked (x : ThreadInput) : option N :=
  match x with Takes (SettleCommand n) => Some n | _ => None end.

(** The answers the GUI is due: one for each change and revert after it asks,
    numbered by the latest change. *)
Definition answer_number (x : SynthAct) : option N :=
  match x with AnswerGui change _ => Some change | _ => None end.
Fixpoint answers_due (asked : bool) (applied : N) (inputs : list ThreadInput) : list N :=
  match inputs with
  | [] => []
  | AnswerTo :: inputs => answers_due true applied inputs
  | Takes (SetSetting _ _ change) :: inputs =>
      (if asked then [change] else []) ++ answers_due asked change inputs
  | Takes RevertCommand :: inputs => (if asked then [applied] else []) ++ answers_due asked applied inputs
  | _ :: inputs => answers_due asked applied inputs
  end.

Section answering.
Context `{SynthDriver D} `{SpeechSettingsStore St}.
Context (surroundings : N -> Surroundings) (observed : bool).
#[local] Notation take_command := (take_command (D := D) (St := St) surroundings observed).
#[local] Notation run := (Synth.run (D := D) (St := St) surroundings observed).

(** Acts that answer nothing. *)
Definition silent_act (x : SynthAct) : Prop :=
  job_event x = None /\ switch_heard x = None /\ settled x = None /\ answer_number x = None.

Lemma silent_acts acts : Forall silent_act acts ->
  omap job_event acts = [] /\ omap switch_heard acts = [] /\ omap settled acts = [] /\ omap answer_number acts = [].
Proof.
  induction 1 as [|x acts (H1 & H2 & H3 & H4) _ (I1 & I2 & I3 & I4)]; csimpl; [done|].
  by rewrite H1 H2 H3 H4.
Qed.

Lemma apply_silent descriptors saved : forall d : D, Forall silent_act (apply_each descriptors saved d).2.
Proof.
  induction descriptors as [|x descriptors IH]; intros d; simpl; [constructor|].
  destruct (value_of _ saved) as [v|]; [|apply IH]. destruct (validate [x] _ v); [apply IH|].
  specialize (IH (set_setting (descriptor_id x) v d).1). destruct (apply_each descriptors saved _) as [d' acts].
  by constructor.
Qed.

Lemma restore_silent values : forall d : D, Forall silent_act (restore values d).2.
Proof.
  induction values as [|[id v] values IH]; intros d; simpl; [constructor|].
  specialize (IH (set_setting id v d).1). destruct (restore values _) as [d' acts]. by constructor.
Qed.

Lemma start_silent (r : SynthRegistry D) id (store : St) n : Forall silent_act (start_synth r id store n).2.
Proof.
  unfold start_synth. destruct (build r id n) as [e|d]; [constructor|].
  pose proof (apply_silent (supported_settings d) (saved store id) d) as Ha. unfold apply_saved_settings.
  by destruct (apply_each _ _ d).
Qed.
(** A job registers its utterance, and answers nothing itself. *)
Lemma job_silent env (job : Job) (d : D) : exists acts,
  (run_job env observed job d).2 =
    LaneRegister (seq_utterance (job_sequence job)) (seq_trace_id (job_sequence job)) (job_generation job) :: acts /\
  Forall silent_act acts.
Proof.
  pose proof (sounds_keep (job_sequence job)) as [Hu Ht].
  destruct (token_reads env 0) eqn:Hc.
  { eexists. unfold run_job, read_token. simpl. rewrite Hc.
    destruct (Sequence.sounds_as_marks (job_sequence job)) as [sequence sounds]. simpl in *.
    rewrite Hu Ht. split; [reflexivity|]. by repeat constructor. }
  destruct (run_job_parts env observed job d Hc)
    as (sequence & sounds & s & acts & result & d1 & put & Hs & Hp & Hput & _ & _ & _ & ->).
  rewrite Hs in Hu, Ht. simpl in Hu, Ht. rewrite -Hu -Ht. eexists. split; [reflexivity|].
  pose proof (pieces_job env observed true (seq_utterance sequence) (seq_trace_id sequence) sounds
    (base_pitch_of sequence d) (driver_pieces sequence d) ltac:(done) d (count_read new_sink)) as Hf.
  rewrite Hp in Hf. simpl in Hf.
  destruct (end_acts env observed true (seq_utterance sequence) (seq_trace_id sequence) sounds result s)
    as (given & last_ & -> & Hg & Hl).
  assert (forall l, Forall (job_act true (seq_utterance sequence)) l -> Forall silent_act l) as Hsil.
  { intros l Hl'. eapply Forall_impl; [exact Hl'|]. by intros x Hx; destruct x. }
  constructor; [done|]. repeat apply Forall_app_2; [|by apply Hsil| |by apply Hsil|].
  - unfold report. destruct observed; by repeat constructor.
  - destruct (base_pitch_of sequence d) as [b|]; injection Hput as _ <-; by repeat constructor.
  - destruct Hl as [->|[reason ->]]; by repeat constructor.
Qed.

(** What a command makes the thread answer. *)
Definition answers_command (command : SynthCommand) (asked : bool) (applied : N) (acts : list SynthAct) : Prop :=
  omap job_event acts = job_events (Takes command) /\
  omap switch_heard acts = option_list (switch_asked (Takes command)) /\
  omap settled acts = option_list (settle_asked (Takes command)) /\
  omap answer_number acts = answers_due asked applied [Takes command].

Lemma command_answers (command : SynthCommand) (t : SynthThread D St) :
  answers_command command (answered t) (applied t) (take_command command t).2 /\
  answered (take_command command t).1 = answered t /\
  applied (take_command command t).1 = match command with SetSetting _ _ change => change | _ => applied t end.
Proof.
  unfold answers_command. destruct command as [job|id v change| | |id reply|n|]; csimpl.
  - destruct (job_silent (surroundings (job_cancel job)) job (driver t)) as (acts & Ha & Hs).
    destruct (run_job _ _ job (driver t)) as [d acts0]. simpl in Ha. subst acts0. csimpl.
    destruct (silent_acts acts Hs) as (H1 & H2 & H3 & H4). csimpl. by rewrite !omap_app H1 H2 H3 H4.
  - split_and!; by destruct (answered t).
  - done.
  - pose proof (restore_silent (committed t) (driver t)) as Hs.
    destruct (restore (committed t) (driver t)) as [d acts]. csimpl.
    destruct (silent_acts acts Hs) as (H1 & H2 & H3 & H4). rewrite !omap_app H1 H2 H3 H4.
    by destruct (answered t).
  - pose proof (start_silent (registry t) id (settings t) (builds t)) as Hs.
    destruct (start_synth (registry t) id (settings t) (builds t)) as [[e|d] acts]; csimpl in *;
      destruct (silent_acts acts Hs) as (H1 & H2 & H3 & H4); by rewrite !omap_app H1 H2 H3 H4.
  - done.
  - done.
Qed.

Lemma drop_heard inputs : omap switch_heard (flat_map drop_input inputs) = omap switch_asked inputs /\
  omap job_event (flat_map drop_input inputs) = [] /\ omap settled (flat_map drop_input inputs) = [] /\
  omap answer_number (flat_map drop_input inputs) = [].
Proof.
  induction inputs as [|x inputs (I1 & I2 & I3 & I4)]; [done|]. simpl. rewrite !omap_app I1 I2 I3 I4.
  destruct x as [[]|]; done.
Qed.

(** What a run answers. *)
Lemma run_answers (inputs : list ThreadInput) : forall t : SynthThread D St,
  let acts := (run inputs t).2 in
  omap job_event acts = flat_map job_events (taken_inputs inputs) /\
  omap switch_heard acts = omap switch_asked inputs /\
  omap settled acts = omap settle_asked (taken_inputs inputs) /\
  omap answer_number acts = answers_due (answered t) (applied t) (taken_inputs inputs).
Proof.
  induction inputs as [|[command|] inputs IH]; intros t acts; unfold acts; clear acts; [done| |].
  - assert (command = ShutdownCommand \/ command <> ShutdownCommand) as [->|Hc] by (destruct command; auto).
    { simpl. by destruct (drop_heard inputs) as (-> & -> & -> & ->). }
    pose proof (command_answers command t) as Hcmd.
    assert (run (Takes command :: inputs) t =
      let '(t, acts) := take_command command t in
      let '(t, more) := run inputs t in (t, acts ++ more)) as -> by by destruct command.
    assert (taken_inputs (Takes command :: inputs) = Takes command :: taken_inputs inputs) as ->
      by by destruct command.
    destruct (take_command command t) as [t1 acts]. specialize (IH t1).
    destruct (run inputs t1) as [t2 more]. destruct Hcmd as ((C1 & C2 & C3 & C4) & Ca & Cp), IH as (I1 & I2 & I3 & I4).
    csimpl in *. rewrite !omap_app C1 C2 C3 C4 I1 I2 I3 I4 Ca Cp. split_and!.
    + by destruct command.
    + by destruct command.
    + by destruct command.
    + by destruct command; rewrite ?app_nil_r.
  - apply (IH (ask_answers t)).
Qed.

(** The synth thread answers every command, once and in order: each job
    registers its utterance, under the generation it was handed on under, and
    is finished before the next is registered; each switch asked for is heard of
    once, those left in the channel at a shutdown as dropped; each settle runs;
    and the settings GUI, from when it asks, is answered for each change and
    revert with the number of the latest change. *)
Theorem thread_answers_everything (inputs : list ThreadInput) (t : SynthThread D St) :
  let acts := (run inputs t).2 in
  omap job_event acts = flat_map job_events (taken_inputs inputs) /\
  omap switch_heard acts = omap switch_asked inputs /\
  omap settled acts = omap settle_asked (taken_inputs inputs) /\
  omap answer_number acts = answers_due (answered t) (applied t) (taken_inputs inputs).
Proof.
  apply run_answers.
Qed.

Lemma run_job_events inputs (t : SynthThread D St) :
  omap job_event (run inputs t).2 = flat_map job_events (taken_inputs inputs).
Proof. by destruct (run_answers inputs t) as [? _]. Qed.

End answering.

(** ** Values and the mirror *)

Section values.
Context `{SynthDriver D} `{SpeechSettingsStore St}.
Context (surroundings : N -> Surroundings) (observed : bool).
#[local] Notation take_command := (take_command (D := D) (St := St) surroundings observed).
#[local] Notation run := (Synth.run (D := D) (St := St) surroundings observed).

(** What the trait documents of a driver's descriptors: one for each id, and its
    values, and the range of its pitch, within them. *)
Class DescribesItself : Prop := {
  descriptors_distinct : forall d : D, NoDup (descriptor_id <$> supported_settings d);
  setting_fits : forall (d : D) id value, setting d id = Some value -> fits (supported_settings d) id value;
  pitch_fits : forall (d : D) x y, setting d PITCH = Some (Number x) -> (0 <= y <= 100)%Z ->
    fits (supported_settings d) PITCH (Number y);
}.
Context `{!KeepsSettings D} `{!DescribesItself}.

Definition values_fit (descriptors : list SettingDescriptor) (values : Values) : Prop :=
  Forall (fun p => fits descriptors p.1 p.2) values.
Definition sets_fit (descriptors : list SettingDescriptor) (acts : list SynthAct) : Prop :=
  forall id value, DriverSet id value ∈ acts -> fits descriptors id value.

Lemma snapshot_same (d d' : D) : same_settings d d' -> snapshot_values d' = snapshot_values d.
Proof.
  intros (Hs & Hd & _). unfold snapshot_values. rewrite Hd.
  clear Hd. induction (supported_settings d) as [|x l IH]; [done|]. csimpl. by rewrite Hs IH.
Qed.

Lemma snapshot_fits (d : D) : values_fit (supported_settings d) (snapshot_values d).
Proof.
  apply Forall_forall. intros [id v] Hin. unfold snapshot_values in Hin.
  apply list_elem_of_omap in Hin as (x & _ & Hx). apply fmap_Some in Hx as (v' & Hv & [= -> ->]).
  by apply setting_fits.
Qed.

(** A descriptor alone types its own setting as the whole list does. *)
Lemma own_fits (descriptors : list SettingDescriptor) x value :
  NoDup (descriptor_id <$> descriptors) -> x ∈ descriptors ->
  validate [x] (descriptor_id x) value = None -> fits descriptors (descriptor_id x) value.
Proof.
  intros Hnd Hin Hv. apply validate_fits in Hv as (y & Hy & Hf). unfold find_descriptor in Hy. simpl in Hy.
  rewrite bool_decide_eq_true_2 // in Hy. injection Hy as <-. exists x. split; [|done].
  by apply (find_by_own descriptor_id).
Qed.

Lemma apply_fits descriptors saved_ : forall d : D,
  NoDup (descriptor_id <$> supported_settings d) -> (forall x, x ∈ descriptors -> x ∈ supported_settings d) ->
  let '(d', acts) := apply_each descriptors saved_ d in
  supported_settings d' = supported_settings d /\ driver_id d' = driver_id d /\
  sets_fit (supported_settings d) acts.
Proof.
  induction descriptors as [|x descriptors IH]; intros d Hnd Hin; simpl.
  { split_and!; [done..|]. by intros id v ?%elem_of_nil. }
  assert (forall y, y ∈ descriptors -> y ∈ supported_settings d) as Hin' by (intros y Hy; apply Hin; by right).
  destruct (value_of (descriptor_id x) saved_) as [v|]; [|by apply IH].
  destruct (validate [x] (descriptor_id x) v) eqn:Hv; [by apply IH|].
  destruct (set_describes (descriptor_id x) v d) as [Hd Hi].
  specialize (IH (set_setting (descriptor_id x) v d).1). rewrite Hd Hi in IH. specialize (IH Hnd Hin').
  destruct (apply_each descriptors saved_ _) as [d' acts]. destruct IH as (-> & -> & IH).
  split_and!; [done..|]. intros id w [[= -> ->]|Hw]%elem_of_cons; [|by apply IH].
  apply own_fits; [done| |done]. apply Hin. by left.
Qed.

Lemma start_fits (r : SynthRegistry D) id (store : St) n d acts :
  start_synth r id store n = (inr d, acts) -> sets_fit (supported_settings d) acts.
Proof.
  unfold start_synth. destruct (build r id n) as [e|d0]; [done|]. unfold apply_saved_settings.
  pose proof (apply_fits (supported_settings d0) (saved store id) d0 (descriptors_distinct d0) ltac:(done)) as Ha.
  destruct (apply_each _ _ d0) as [d' acts']. intros [= <- <-]. by destruct Ha as (-> & _ & Ha).
Qed.

Lemma restore_fits values : forall d : D, values_fit (supported_settings d) values ->
  let '(d', acts) := restore values d in
  supported_settings d' = supported_settings d /\ driver_id d' = driver_id d /\
  sets_fit (supported_settings d) acts.
Proof.
  induction values as [|[id v] values IH]; intros d Hf; simpl.
  { split_and!; [done..|]. by intros id v ?%elem_of_nil. }
  apply Forall_cons in Hf as [Hv Hf]. destruct (set_describes id v d) as [Hd Hi].
  specialize (IH (set_setting id v d).1). rewrite Hd Hi in IH. specialize (IH Hf).
  destruct (restore values _) as [d' acts]. destruct IH as (-> & -> & IH).
  split_and!; [done..|]. intros i w [[= -> ->]|Hw]%elem_of_cons; [done|by apply IH].
Qed.

(** The mirror describes the driver and holds its values, and the values a
    revert restores are the driver's to take. *)
Definition shows (t : SynthThread D St) : Prop :=
  m_descriptors (mirror t) = supported_settings (driver t) /\
  choice_id <$> m_active (mirror t) = Some (driver_id (driver t)) /\
  m_values (mirror t) = snapshot_values (driver t) /\
  values_fit (supported_settings (driver t)) (committed t).

Lemma describe_shows (t : SynthThread D St) : shows (describe t).
Proof.
  split_and!; simpl; [done| |done|apply snapshot_fits].
  f_equal. unfold choice_of, choice.
  destruct (find_entry (registry t) (driver_id (driver t))) as [e|] eqn:He; [|done]. simpl.
  by apply find_by_Some in He as [? _].
Qed.

(** Whatever the command, the mirror shows the driver after it. *)
Lemma command_shows command (t : SynthThread D St) : shows t -> shows (take_command command t).1.
Proof.
  intros (S1 & S2 & S3 & S4). destruct command as [job|id v change| | |id reply|n|]; simpl.
  - pose proof (job_keeps_settings (surroundings (job_cancel job)) observed job (driver t)) as Hk.
    destruct (run_job _ _ job (driver t)) as [d acts]. simpl in *. destruct Hk as (K1 & K2 & K3).
    split_and!; simpl; rewrite ?K2 ?K3 ?(snapshot_same (driver t)) //.
  - destruct (set_describes id v (driver t)) as [Hd Hi]. split_and!; simpl; by rewrite ?Hd ?Hi.
  - split_and!; simpl; [done..|apply snapshot_fits].
  - pose proof (restore_fits (committed t) (driver t) S4) as Hr.
    destruct (restore (committed t) (driver t)) as [d acts]. destruct Hr as (Hd & Hi & _).
    split_and!; simpl; by rewrite ?Hd ?Hi.
  - destruct (start_synth (registry t) id (settings t) (builds t)) as [[e|d] acts]; simpl;
      [by split_and!|apply describe_shows].
  - by split_and!.
  - by split_and!.
Qed.

Lemma run_shows inputs : forall t : SynthThread D St, shows t -> shows (run inputs t).1.
Proof.
  induction inputs as [|[command|] inputs IH]; intros t Ht; [done| |].
  - assert (command = ShutdownCommand \/ command <> ShutdownCommand) as [->|Hc] by (destruct command; auto); [done|].
    assert (run (Takes command :: inputs) t =
      let '(t, acts) := take_command command t in
      let '(t, more) := run inputs t in (t, acts ++ more)) as -> by by destruct command.
    pose proof (command_shows command t Ht) as Hc1. destruct (take_command command t) as [t1 acts].
    specialize (IH t1 Hc1). by destruct (run inputs t1).
  - by apply (IH (ask_answers t)).
Qed.

Lemma started_shows r initial_synth (store : St) m t acts :
  start r initial_synth store m = (Some t, acts) -> shows t /\ sets_fit (m_descriptors (mirror t)) acts.
Proof.
  unfold start. pose proof (start_each_spec r store (start_order r initial_synth) 0 []) as Hs.
  unfold start_first_available. destruct (start_each r store _ 0 []) as [[[e|d] acts'] n]; [done|].
  intros [= <- <-]. split; [apply describe_shows|]. simpl. destruct Hs as (before & id & after & _ & _ & Hs & _).
  intros i v [Hin|Hin%list_elem_of_singleton]%elem_of_app; [|done]. by apply (start_fits _ _ _ _ _ _ Hs).
Qed.

(** The settings GUI sees the driver: from its start, after whatever
    commands the synth thread has taken, jobs, changes the driver refused or
    clamped, reverts, commits and switches that failed or not, the mirror names
    the active synthesizer, describes its settings and holds every value the
    driver has. *)
Theorem mirror_shows_driver r initial_synth (store : St) m t0 acts0 (inputs : list ThreadInput)
    (Hstart : start r initial_synth store m = (Some t0, acts0)) :
  let t := (run inputs t0).1 in
  host_descriptors (mirror t) = supported_settings (driver t) /\
  choice_id (host_active (mirror t)) = driver_id (driver t) /\
  m_values (mirror t) = snapshot_values (driver t).
Proof.
  destruct (started_shows _ _ _ _ _ _ Hstart) as [Hs _]. apply (run_shows inputs) in Hs as (S1 & S2 & S3 & _).
  intros t. split_and!; [done| |done]. unfold host_active. fold t in S2.
  destruct (m_active (mirror t)); simpl in *; congruence.
Qed.


End values.
Arguments DescribesItself D {_}.

(** ** From the speech queue to the mixer *)

Section queue.
Context `{Presenter}.

(** What the queue thread sends the synth thread, in order. *)
Definition sent_commands (acts : list QueueAct) : list SynthCommand :=
  omap (fun a => match a with Send command => Some command | _ => None end) acts.

Definition goes_on (a : QueueAct) : Prop := a <> Send ShutdownCommand.
Definition keeps_going (f : Handler) : Prop := forall q, Forall goes_on (f q).2.

Lemma keeps_going_then f g : keeps_going f -> keeps_going g -> keeps_going (f >>> g).
Proof.
  intros Hf Hg q. unfold andThen. specialize (Hf q). destruct (f q) as [q1 a]. specialize (Hg q1).
  destruct (g q1) as [q2 b]. by apply Forall_app_2.
Qed.

Lemma marks_go_on id trace marks : Forall goes_on (report_marks_cancelled id trace marks).
Proof. unfold report_marks_cancelled. destruct marks; by repeat constructor. Qed.
Lemma end_waiting_goes_on waiting : Forall goes_on (end_waiting waiting).
Proof.
  unfold end_waiting. induction waiting as [|w waiting IH]; simpl; [constructor|].
  constructor; [done|]. apply Forall_app_2; [apply marks_go_on|done].
Qed.

Lemma stop_goes_on : keeps_going stop_handed_on.
Proof.
  intros q. unfold stop_handed_on, andThen, unpause, cancel_in_flight, control_cancel. simpl.
  destruct (in_flight q), (q_paused q); by repeat constructor.
Qed.
Lemma cancel_goes_on : keeps_going cancel_everything.
Proof. apply keeps_going_then; [intros q; apply end_waiting_goes_on|apply stop_goes_on]. Qed.
Lemma pump_goes_on : keeps_going pump.
Proof.
  intros q. unfold pump. destruct (in_flight q); [constructor|].
  destruct (take_due q) as [[[gone due] next] queued]. destruct due as [w|]; [|apply end_waiting_goes_on].
  apply keeps_going_then; [intros q'; apply end_waiting_goes_on|]. intros q'. by repeat constructor.
Qed.
Lemma speak_goes_on id utterance : keeps_going (SpeechQueue.speak id utterance).
Proof.
  repeat apply keeps_going_then; [intros q; by repeat constructor| | |apply pump_goes_on].
  - intros q. destruct (q_paused q); [apply cancel_goes_on|constructor].
  - destruct (priority utterance); [apply keeps_going_then; [apply cancel_goes_on|]| |]; intros q; constructor.
Qed.

(** Only a shutdown shuts the synth thread down, and last. *)
Lemma handle_goes_on event q :
  event <> Shutdown -> Forall goes_on (handle event q).2.
Proof.
  intros Hs. destruct event as [id u key| | | |id reply| | |key| |now|id ending| |]; simpl; try done;
    try (by repeat constructor).
  - destruct (fenced key q); [|apply speak_goes_on]. simpl. do 2 (constructor; [done|]). apply marks_go_on.
  - apply (keeps_going_then _ _ cancel_goes_on). intros q'. by repeat constructor.
  - apply pump_goes_on.
  - apply cancel_goes_on.
  - unfold drop_expired. destruct (existsb _ _); [apply stop_goes_on|constructor].
  - unfold ended. destruct (marked _ !! id) as [[trace marks]|]; [|constructor].
    destruct ending; simpl; [constructor|apply marks_go_on|by repeat constructor].
Qed.

Lemma sent_commands_app a b : sent_commands (a ++ b) = sent_commands a ++ sent_commands b.
Proof. apply omap_app. Qed.

Lemma goes_on_sent acts : Forall goes_on acts -> Forall (fun c => c <> ShutdownCommand) (sent_commands acts).
Proof.
  intros Hf. apply Forall_forall. intros c Hc ->. apply list_elem_of_omap in Hc as (a & Hin & Ha).
  rewrite Forall_forall in Hf. apply (Hf a Hin). destruct a; by simplify_eq.
Qed.

Lemma run_sent events : forall q, let '(_, acts, _) := SpeechQueue.run events q in
  exists before, Forall (fun c => c <> ShutdownCommand) before /\
    (sent_commands acts = before \/ sent_commands acts = before ++ [ShutdownCommand]).
Proof.
  induction events as [|event events IH]; intros q; [exists []; split; [constructor|by left]|].
  assert (event = Shutdown \/ event <> Shutdown) as [->|Hs] by (destruct event; auto).
  - pose proof (goes_on_sent _ (cancel_goes_on q)) as Hc.
    change (SpeechQueue.run (Shutdown :: events) q) with
      (let '(q, acts) := (let '(q1, a) := cancel_everything q in (q1, a ++ [Send ShutdownCommand])) in
       (q, acts, [Shutdown])).
    destruct (cancel_everything q) as [q1 acts]. simpl in Hc.
    exists (sent_commands acts). split; [done|]. right. by rewrite sent_commands_app.
  - pose proof (goes_on_sent _ (handle_goes_on event q Hs)) as Hh.
    change (SpeechQueue.run (event :: events) q) with
      (let '(q, acts) := handle event q in
       match event with
       | Shutdown => (q, acts, [event])
       | _ => let '(q, more, taken) := SpeechQueue.run events q in (q, acts ++ more, event :: taken)
       end).
    destruct (handle event q) as [q1 acts]. specialize (IH q1). simpl in Hh.
    destruct (SpeechQueue.run events q1) as [[q2 more] taken] eqn:Hr.
    destruct IH as (before & Hb & Hm).
    assert (match event with Shutdown => (q1, acts, [event]) | _ => (q2, acts ++ more, event :: taken) end =
      (q2, acts ++ more, event :: taken)) as -> by by destruct event.
    exists (sent_commands acts ++ before). split; [by apply Forall_app_2|].
    rewrite sent_commands_app. destruct Hm as [-> | ->]; [by left|right; by rewrite app_assoc].
Qed.

Lemma taken_all commands : Forall (fun c => c <> ShutdownCommand) commands -> forall rest,
  taken_inputs ((Takes <$> commands) ++ rest) = (Takes <$> commands) ++ taken_inputs rest.
Proof.
  induction 1 as [|c commands Hc _ IH]; intros rest; [done|]. csimpl. rewrite -IH. by destruct c.
Qed.

Lemma sent_jobs acts :
  flat_map job_events (Takes <$> sent_commands acts) =
  flat_map (fun job => [Registered (seq_utterance (job_sequence job)) (job_generation job); Finished]) (jobs_of acts).
Proof.
  unfold sent_commands, jobs_of. induction acts as [|a acts IH]; [done|].
  destruct a as [| | | | | | | | |[]|]; csimpl; by rewrite ?IH.
Qed.

(** The utterances registered on the lane. *)
Definition registered_ids (acts : list SynthAct) : list UtteranceId :=
  omap (fun x => match x with LaneRegister u _ _ => Some u | _ => None end) acts.

Lemma registered_events acts :
  registered_ids acts = omap (fun e => match e with Registered u _ => Some u | Finished => None end) (omap job_event acts).
Proof. unfold registered_ids. induction acts as [|x acts IH]; [done|]. destruct x; csimpl; by rewrite ?IH. Qed.

(** C33: from the queue to the mixer: of whatever the speech queue is sent, with
    distinct utterances, the synth thread registers with the mixer exactly the
    utterances the queue handed on, in that order and under the generations they
    were handed on under, each finished before the next is registered; so no
    utterance is registered twice, which is what the mixer's theorems ask of its
    producers. *)
Theorem queue_reaches_mixer_in_order `{SynthDriver D} `{SpeechSettingsStore St} surroundings observed
    (events : list QueueEvent) (t : SynthThread D St) :
  let '(_, acts, taken) := SpeechQueue.run events new_queue in
  let lane := (Synth.run surroundings observed (Takes <$> sent_commands acts) t).2 in
  omap job_event lane =
    flat_map (fun job => [Registered (seq_utterance (job_sequence job)) (job_generation job); Finished])
      (jobs_of acts) /\
  registered_ids lane = handed_ids acts /\
  (NoDup (spoken_ids taken) -> NoDup (registered_ids lane)).
Proof.
  pose proof (run_owes events) as Ho. pose proof (run_sent events new_queue) as Hs.
  destruct (SpeechQueue.run events new_queue) as [[q acts] taken]. destruct Hs as (before & Hb & Hs).
  assert (omap job_event (Synth.run surroundings observed (Takes <$> sent_commands acts) t).2 =
    flat_map (fun job => [Registered (seq_utterance (job_sequence job)) (job_generation job); Finished])
      (jobs_of acts)) as Hev.
  { rewrite (run_job_events surroundings observed) -sent_jobs.
    pose proof (taken_all before Hb) as Ht. destruct Hs as [-> | ->].
    - specialize (Ht []). change (taken_inputs []) with (@nil ThreadInput) in Ht. rewrite !app_nil_r in Ht. by rewrite Ht.
    - rewrite fmap_app Ht !flat_map_app. simpl. done. }
  assert (registered_ids (Synth.run surroundings observed (Takes <$> sent_commands acts) t).2 = handed_ids acts) as Hr.
  { rewrite registered_events Hev. unfold handed_ids. clear Hev. induction (jobs_of acts) as [|job l IH]; csimpl; [done|].
    by rewrite IH. }
  split_and!; [done..|]. intros Hnd. rewrite Hr. rewrite Ho in Hnd.
  apply NoDup_app in Hnd as (_ & _ & Hnd). by apply NoDup_app in Hnd as (Hnd & _).
Qed.

End queue.

(** ** At a concrete synthesizer *)

#[export] Instance toy_describes : DescribesItself Toy.
Proof.
  split.
  - intros d. apply (bool_decide_unpack _). vm_compute. exact I.
  - intros d id value. simpl. destruct (decide (id = "pitch")) as [->|Hp].
    { intros [= <-]. exists (standard_numeric "pitch" "setting-pitch"). split; [done|].
      constructor. unfold clamp. lia. }
    destruct (decide (id = "rate")) as [->|Hr]; [|done].
    intros [= <-]. exists (standard_numeric "rate" "setting-rate"). split; [done|]. constructor. unfold clamp. lia.
  - intros d x y _ Hy. exists (standard_numeric "pitch" "setting-pitch"). split; [done|]. by constructor.
Qed.

(** A registry whose first synthesizer never starts, and the other's saved
    values, one of them out of range. *)
Definition toy_registry : SynthRegistry Toy :=
  registered [("broken", "Broken", fun _ => inl (Unavailable "no voices")); ("toy", "Toy", fun _ => inr toy)].
Definition toy_saved : SynthId * Values := ("toy", [("rate", Number 70); ("pitch", Number 500)]).

Definition toy_thread : SynthThread Toy (SynthId * Values) :=
  default {| registry := []; settings := toy_saved; mirror := new_mirror; driver := toy; committed := [];
             chosen := false; applied := 0; answered := false; builds := 0 |}
    (start toy_registry "broken" toy_saved new_mirror).1.

(** It falls back, applies the one value that fits, and is not the user's
    choice. *)
Example toy_started :
  start toy_registry "broken" toy_saved new_mirror =
    (Some toy_thread, [DriverSet "rate" (Number 70); ReportStartup None]) /\
  chosen toy_thread = false /\ m_values (mirror toy_thread) = [("rate", Number 70); ("pitch", Number 40)].
Proof. vm_compute. done. Qed.

Definition toy_inputs : list ThreadInput :=
  [AnswerTo; Takes (SetSetting "rate" (Number 90) 1); Takes (JobCommand toy_job); Takes RevertCommand;
   Takes (SwitchCommand "broken" 5); Takes (SettleCommand 6); Takes ShutdownCommand; Takes (SwitchCommand "toy" 7)].

Lemma toy_start : start toy_registry "broken" toy_saved new_mirror =
  (Some toy_thread, [DriverSet "rate" (Number 70); ReportStartup None]).
Proof. by destruct toy_started. Qed.

Lemma mirror_shows_driver_witness :
  let t := (Synth.run (fun _ => calm_env) false toy_inputs toy_thread).1 in
  m_values (mirror t) = [("rate", Number 70); ("pitch", Number 40)] /\
  m_values (mirror t) = snapshot_values (driver t).
Proof.
  split; [vm_compute; reflexivity|].
  apply (mirror_shows_driver (fun _ => calm_env) false toy_registry "broken" toy_saved new_mirror toy_thread
           [DriverSet "rate" (Number 70); ReportStartup None] toy_inputs toy_start).
Defined.


Lemma fallback_is_first_that_starts_witness :
  start_order toy_registry "broken" = ["broken"; "toy"] /\ NoDup (start_order toy_registry "broken").
Proof.
  split; [vm_compute; reflexivity|].
  apply (fallback_is_first_that_starts toy_registry toy_saved "broken").
  apply (bool_decide_unpack _). vm_compute. exact I.
Defined.

Lemma queue_reaches_mixer_in_order_witness :
  let acts := (SpeechQueue.run queue_sample new_queue).1.2 in
  NoDup (registered_ids (Synth.run (fun _ => calm_env) false (Takes <$> sent_commands acts) toy_thread).2) /\
  registered_ids (Synth.run (fun _ => calm_env) false (Takes <$> sent_commands acts) toy_thread).2 = ids [1; 3; 5].
Proof.
  pose proof (queue_reaches_mixer_in_order (fun _ => calm_env) false queue_sample toy_thread) as H.
  assert (NoDup (spoken_ids (SpeechQueue.run queue_sample new_queue).2)) as Hnd
    by (apply (bool_decide_unpack _); vm_compute; exact I).
  split; [|vm_compute; reflexivity].
  destruct (SpeechQueue.run queue_sample new_queue) as [[q acts] taken]. by apply H.
Defined.
