(* ===== verification/Hosting.v ===== *)
(** * Synthesizer hosts

    The protocol between Core and a synthesizer host process
    ([src/crates/verbatim-speech/src/hosting.rs]), the thread that serves Core in
    the host ([verbatim-synth-host]) and the driver that relays the host to the
    synth thread ([verbatim-synth-hosted]). A frame's JSON body is the value it
    encodes. The operating system's part is an argument: which whole commands a
    read finds, whether a write succeeded, the clocks, and what a wait brought. *)

From S2P Require Import Prelude Tree Facts Speech SpeechQueue Trim Settings Synth.

(** ** The protocol *)

Inductive ToHost :=
  | HSpeak (sequence : SpeechSequence)
  | HCancel (u : UtteranceId)
  | HSetSetting (id : SettingId) (value : SettingValue).

Record HostDescription := {
  d_name : string;
  d_places_marks : bool;
  d_changes_pitch : bool;
  d_settings : list SettingDescriptor;
  d_values : Values;
}.

Record HostTiming := { received_at_us : N; ht_first_chunk_us : N; sent_at_us : N }.

Inductive FromHost :=
  | Ready (description : HostDescription)
  | HostUnavailable (reason : string)
  | FirstAudio (u : UtteranceId) (timing : HostTiming)
  | HostPcm (u : UtteranceId) (format : PcmFormat) (pcm : list Z)
  | HostMark (u : UtteranceId) (mark : IndexMark)
  | HostDone (u : UtteranceId)
  | HostFailed (u : UtteranceId) (reason : string)
  | SettingApplied (refusal : option string).

(** [FromHost::utterance] and [ends_utterance]. *)
Definition message_utterance (m : FromHost) : option UtteranceId :=
  match m with
  | FirstAudio u _ | HostPcm u _ _ | HostMark u _ | HostDone u | HostFailed u _ => Some u
  | Ready _ | HostUnavailable _ | SettingApplied _ => None
  end.
Definition ends_utterance (m : FromHost) : bool :=
  match m with HostDone _ | HostFailed _ _ => true | _ => false end.

Module Wire.

(** [hosting::Wire]: the body, with PCM's samples by their place in the raw
    section; [WireMessage] stands for its other constructors, so holds no PCM. *)
Inductive Wire :=
  | WireMessage (m : FromHost)
  | WirePcm (u : UtteranceId) (sample_rate channels : N) (start length : N).

Record Frame := { body : Wire; raw : option (list Z) }.

(** [i16::to_le_bytes] and [from_le_bytes]. *)
Definition to_le_bytes (x : Z) : list Z := [x mod 2 ^ 8; (x / 2 ^ 8) mod 2 ^ 8]%Z.
Definition from_le_bytes (low high : Z) : Z :=
  let v := (low + 2 ^ 8 * high)%Z in if (v <? 2 ^ 15)%Z then v else (v - 2 ^ 16)%Z.

(** [put_pcm] and [put_from_host]. *)
Definition put_pcm (u : UtteranceId) (format : PcmFormat) (pcm : list Z) : Frame :=
  {| body := WirePcm u (sample_rate format) (channels format) 0 (2 * N.of_nat (length pcm));
     raw := Some (flat_map to_le_bytes pcm) |}.
Definition put_from_host (m : FromHost) : Frame :=
  match m with
  | HostPcm u format pcm => put_pcm u format pcm
  | m => {| body := WireMessage m; raw := None |}
  end.

(** [as_chunks::<2>]: the pairs and what is left. *)
Fixpoint pairs (bytes : list Z) : list (Z * Z) * list Z :=
  match bytes with
  | a :: b :: bytes => let '(l, rest) := pairs bytes in ((a, b) :: l, rest)
  | rest => ([], rest)
  end.

(** [pcm_samples] and [decode_from_host]; the error is [InvalidData] with why. *)
Definition pcm_samples (start length_ : N) (raw : option (list Z)) : string + list Z :=
  match raw with
  | None => inl "a PCM frame has no raw section"
  | Some raw =>
      if negb (start =? 0) || negb (length_ =? N.of_nat (length raw))
      then inl "a PCM frame's samples are not its raw section"
      else
        let '(samples, rest) := pairs raw in
        match rest with
        | [] => inr ((fun '(low, high) => from_le_bytes low high) <$> samples)
        | _ => inl "a PCM frame's samples end inside a sample"
        end
  end.
Definition decode_from_host (f : Frame) : string + FromHost :=
  match body f with
  | WirePcm u rate chans start length_ =>
      match pcm_samples start length_ (raw f) with
      | inl e => inl e
      | inr samples => inr (HostPcm u {| sample_rate := rate; channels := chans |} samples)
      end
  | WireMessage m =>
      match raw f with
      | Some _ => inl "a frame has a raw section its message does not take"
      | None => inr m
      end
  end.

(** A sample's bytes give it back. *)
Lemma le_bytes_roundtrip x : (- 2 ^ 15 <= x < 2 ^ 15)%Z ->
  match to_le_bytes x with [low; high] => from_le_bytes low high = x | _ => False end.
Proof.
  intros Hx. unfold to_le_bytes, from_le_bytes.
  destruct (Z.ltb_spec (x mod 2 ^ 8 + 2 ^ 8 * ((x / 2 ^ 8) mod 2 ^ 8)) (2 ^ 15));
    Z.to_euclidean_division_equations; lia.
Qed.

Lemma pairs_flat pcm :
  pairs (flat_map to_le_bytes pcm) = ((fun x => (x mod 2 ^ 8, (x / 2 ^ 8) mod 2 ^ 8)%Z) <$> pcm, []).
Proof. induction pcm as [|x pcm IH]; [done|]. simpl. by rewrite IH. Qed.

(** Every message of a host survives its frame: what Core decodes is what
    the host put, samples included; and a PCM frame is refused unless its samples
    are exactly its raw section and whole, as is a raw section with any other
    message. *)
Theorem frames_roundtrip (m : FromHost)
    (Hpcm : match m with HostPcm _ _ pcm => Forall (fun x => - 2 ^ 15 <= x < 2 ^ 15)%Z pcm | _ => True end) :
  decode_from_host (put_from_host m) = inr m /\
  (forall u rate chans start len raw samples,
     decode_from_host {| body := WirePcm u rate chans start len; raw := raw |} = inr samples ->
     exists bytes, raw = Some bytes /\ start = 0 /\ len = N.of_nat (length bytes) /\
       Nat.Even (length bytes)) /\
  (forall m bytes, exists e, decode_from_host {| body := WireMessage m; raw := Some bytes |} = inl e).
Proof.
  split_and!.
  - destruct m as [| | |u format pcm| | | |]; try done. unfold put_from_host, put_pcm, decode_from_host. simpl.
    unfold pcm_samples.
    assert (length (flat_map to_le_bytes pcm) = 2 * length pcm)%nat as Hlen.
    { induction pcm as [|x pcm IH]; [done|]. simpl. inversion Hpcm. rewrite IH //. lia. }
    rewrite Hlen (proj2 (N.eqb_eq _ _)); [|lia]. simpl. rewrite pairs_flat -list_fmap_compose.
    destruct format as [r c]. simpl. do 2 f_equal. rewrite -{2}(list_fmap_id pcm).
    apply list_fmap_ext. intros i x Hx. eapply Forall_lookup_1 in Hpcm; [|exact Hx].
    pose proof (le_bytes_roundtrip x Hpcm) as Hb. exact Hb.
  - intros u rate chans start len raw samples. unfold decode_from_host, pcm_samples. simpl.
    destruct raw as [bytes|]; [|done].
    destruct (N.eqb_spec start 0), (N.eqb_spec len (N.of_nat (length bytes))); simpl; try done.
    intros Hd. exists bytes. split_and!; [done..|].
    destruct (pairs bytes) as [l rest] eqn:Hp. destruct rest; [|done]. clear -Hp.
    assert (length bytes = 2 * length l)%nat as ->; [|exists (length l); lia].
    assert (forall n l bytes, (length bytes <= n)%nat -> pairs bytes = (l, []) -> length bytes = (2 * length l)%nat) as Hind.
    { clear. induction n as [|n IH]; intros l [|a [|b bytes]] Hn Hp; simpl in *; simplify_eq; try done; try lia.
      destruct (pairs bytes) as [l' rest'] eqn:Hp'. simplify_eq. simpl.
      rewrite (IH l' bytes ltac:(lia) Hp'). lia. }
    by eapply Hind.
  - intros m' bytes. by eexists.
Qed.

Lemma frames_roundtrip_witness :
  let m := HostPcm {| utterance_number := 7 |} {| sample_rate := 22050; channels := 1 |} [1%Z; (-2)%Z] in
  raw (put_from_host m) = Some [1%Z; 0%Z; 254%Z; 255%Z] /\ decode_from_host (put_from_host m) = inr m.
Proof.
  split; [vm_compute; reflexivity|].
  refine (proj1 (frames_roundtrip (HostPcm {| utterance_number := 7 |} {| sample_rate := 22050; channels := 1 |}
    [1%Z; (-2)%Z]) _)).
  repeat constructor; vm_compute; congruence.
Defined.

End Wire.

(** ** The host *)

Module HostSide.

(** The clocks a step reads: the shared one and the process's own, in
    microseconds. *)
Record Clocks := { now_us : N; instant_us : N }.

(** [Command]; a [Speak]'s [Received] is the clocks at its reading. *)
Inductive Command :=
  | CmdSpeak (sequence : SpeechSequence) (received : Clocks)
  | CmdSkip (u : UtteranceId)
  | CmdSet (id : SettingId) (value : SettingValue).

(** [Commands], less its reader. *)
Record Commands := {
  waiting : list Command;
  current : option UtteranceId;
  cancelled : bool;
  wake : option N;
  ended : bool;
  clean_end : bool;
}.

Definition new_commands : Commands :=
  {| waiting := []; current := None; cancelled := false; wake := None; ended := false; clean_end := false |}.

Definition with_waiting (w : list Command) (c : Commands) : Commands :=
  {| waiting := w; current := current c; cancelled := cancelled c; wake := wake c; ended := ended c;
     clean_end := clean_end c |}.

(** The first waiting [Speak] of the utterance becomes a [Skip]. *)
Fixpoint skip (u : UtteranceId) (w : list Command) : list Command :=
  match w with
  | [] => []
  | CmdSpeak sequence received :: w =>
      if decide (seq_utterance sequence = u) then CmdSkip u :: w
      else CmdSpeak sequence received :: skip u w
  | c :: w => c :: skip u w
  end.

(** A command read, in [Commands::read], with the wakers it calls. *)
Definition read_one (clocks : Clocks) (m : ToHost) (c : Commands) : Commands * list N :=
  match m with
  | HCancel u =>
      if decide (current c = Some u)
      then ({| waiting := waiting c; current := current c; cancelled := true; wake := None;
               ended := ended c; clean_end := clean_end c |}, option_list (wake c))
      else (with_waiting (skip u (waiting c)) c, [])
  | HSpeak sequence => (with_waiting (waiting c ++ [CmdSpeak sequence clocks]) c, [])
  | HSetSetting id value => (with_waiting (waiting c ++ [CmdSet id value]) c, [])
  end.

Fixpoint read_all (clocks : Clocks) (ms : list ToHost) (c : Commands) : Commands * list N :=
  match ms with
  | [] => (c, [])
  | m :: ms =>
      let '(c, woken) := read_one clocks m c in
      let '(c, more) := read_all clocks ms c in (c, woken ++ more)
  end.

(** The end of the pipe: Core is gone. *)
Definition read_end (clean : bool) (c : Commands) : Commands * list N :=
  ({| waiting := waiting c; current := current c; cancelled := cancelled c; wake := None;
      ended := true; clean_end := clean |}, option_list (wake c)).

(** What a read finds: the whole commands that have come, and the pipe's end. *)
Record Came := { commands_came : list ToHost; end_came : option bool }.

(** [Commands::read]. *)
Definition read (clocks : Clocks) (came : Came) (c : Commands) : Commands * list N :=
  if ended c then (c, [])
  else
    let '(c, woken) := read_all clocks (commands_came came) c in
    match end_came came with
    | None => (c, woken)
    | Some clean => let '(c, more) := read_end clean c in (c, woken ++ more)
    end.

(** [Commands::begin] and [end]. *)
Definition begin_ (u : UtteranceId) (c : Commands) : Commands :=
  {| waiting := waiting c; current := Some u; cancelled := false; wake := None; ended := ended c;
     clean_end := clean_end c |}.
Definition end_ (c : Commands) : Commands :=
  {| waiting := waiting c; current := None; cancelled := cancelled c; wake := None; ended := ended c;
     clean_end := clean_end c |}.

Section host.
Context `{SynthDriver D}.

(** The utterance being spoken: [PipeSink] and what the driver does next. *)
Record Speaks := {
  sp_utterance : UtteranceId;
  sp_received : Clocks;
  sp_audio : bool;
  sp_program : Speaking D;
}.

(** The serving thread: its commands, its driver while none is speaking, the
    utterance it speaks, whether the pipe to Core is broken, and how it exited. *)
Record HostState := {
  commands : Commands;
  host_driver : D;
  speaks : option Speaks;
  broken : bool;
  exited : option bool;
}.

Definition new_host (d : D) : HostState :=
  {| commands := new_commands; host_driver := d; speaks := None; broken := false; exited := None |}.

(** [describe]. *)
Definition host_describes (d : D) : HostDescription :=
  {| d_name := driver_name d; d_places_marks := places_marks d; d_changes_pitch := changes_pitch d;
     d_settings := supported_settings d; d_values := snapshot_values d |}.

(** What a step finds: what reads find before it and while its write waits,
    whether its write succeeds, and the clocks. *)
Record Finds := { before : Came; during : Came; write_ok : bool; clocks : Clocks }.

(** A step's outcome: the host after it, what it wrote, and the wakers called. *)
Definition Turn : Type := HostState * list FromHost * list N.

(** [Host::send] and [send_pcm], with the reading of [paced]: what is written,
    and whether it was. *)
Definition send (f : Finds) (messages : list FromHost) (h : HostState) : Turn * bool :=
  if broken h then (h, [], [], false)
  else
    let '(c, woken) := read (clocks f) (during f) (commands h) in
    let h := {| commands := c; host_driver := host_driver h; speaks := speaks h;
                broken := negb (write_ok f); exited := exited h |} in
    (h, if write_ok f then messages else [], woken, write_ok f).

Definition with_commands (c : Commands) (h : HostState) : HostState :=
  {| commands := c; host_driver := host_driver h; speaks := speaks h; broken := broken h; exited := exited h |}.
Definition with_speaks (s : option Speaks) (h : HostState) : HostState :=
  {| commands := commands h; host_driver := host_driver h; speaks := s; broken := broken h; exited := exited h |}.
Definition with_host_driver (d : D) (h : HostState) : HostState :=
  {| commands := commands h; host_driver := d; speaks := speaks h; broken := broken h; exited := exited h |}.
Definition exits (success : bool) (h : HostState) : HostState :=
  {| commands := commands h; host_driver := host_driver h; speaks := speaks h; broken := broken h;
     exited := Some success |}.

(** The reply of [serve]'s loop, and its failure. *)
Definition reply (f : Finds) (m : FromHost) (h : HostState) : Turn :=
  let '(h, out, woken, ok) := send f [m] h in
  ((if ok : bool then h else exits false h), out, woken).

(** [serve]'s loop when no utterance is spoken: [Commands::next], and the command
    it gives. *)
Definition idle_turn (f : Finds) (h : HostState) : Turn :=
  match waiting (commands h) with
  | CmdSkip u :: w => reply f (HostDone u) (with_commands (with_waiting w (commands h)) h)
  | CmdSpeak sequence received :: w =>
      let u := seq_utterance sequence in
      (with_speaks (Some {| sp_utterance := u; sp_received := received; sp_audio := false;
                            sp_program := speak sequence (host_driver h) |})
         (with_commands (begin_ u (with_waiting w (commands h))) h), [], [])
  | CmdSet id value :: w =>
      let '(d, refused) := set_setting id value (host_driver h) in
      reply f (SettingApplied (show_error <$> refused))
        (with_host_driver d (with_commands (with_waiting w (commands h)) h))
  | [] =>
      if ended (commands h) then (exits (clean_end (commands h)) h, [], [])
      else
        let '(c, woken) := read (clocks f) (before f) (commands h) in (with_commands c h, [], woken)
  end.

(** [PipeSink::is_cancelled]; with the [Commands::is_cancelled] it asks. *)
Definition sink_cancelled (f : Finds) (h : HostState) : bool * HostState * list N :=
  if broken h then (true, h, [])
  else
    let '(c, woken) := read (clocks f) (before f) (commands h) in
    (cancelled c || ended c, with_commands c h, woken).

Definition goes_on (s : Speaks) (audio : bool) (p : Speaking D) : Speaks :=
  {| sp_utterance := sp_utterance s; sp_received := sp_received s; sp_audio := audio; sp_program := p |}.

(** The utterance being spoken, by its driver's next call: [PipeSink]'s methods,
    and the end of [speak]. *)
Definition speaking_turn (f : Finds) (s : Speaks) (h : HostState) : Turn :=
  let u := sp_utterance s in
  match sp_program s with
  | Returns result d =>
      let h := with_speaks None (with_host_driver d (with_commands (end_ (commands h)) h)) in
      if broken h then (exits false h, [], [])
      else reply f (match result with None => HostDone u | Some e => HostFailed u (show_error e) end) h
  | PushPcm format pcm next =>
      let '(stop, h, woken) := sink_cancelled f h in
      if stop then (with_speaks (Some (goes_on s (sp_audio s) (next true))) h, [], woken)
      else
        let first := if sp_audio s then []
          else [FirstAudio u {| received_at_us := now_us (sp_received s);
                                ht_first_chunk_us := instant_us (clocks f) - instant_us (sp_received s);
                                sent_at_us := now_us (clocks f) |}] in
        let '(h, out, more, ok) := send f (first ++ [HostPcm u format pcm]) h in
        let break := negb ok || cancelled (commands h) in
        (with_speaks (Some (goes_on s true (next break))) h, out, woken ++ more)
  | IndexReached m next =>
      let '(h, out, woken, _) := send f [HostMark u m] h in
      (with_speaks (Some (goes_on s (sp_audio s) next)) h, out, woken)
  | IsCancelled next =>
      let '(answer, h, woken) := sink_cancelled f h in
      (with_speaks (Some (goes_on s (sp_audio s) (next answer))) h, [], woken)
  | Timing _ next => (with_speaks (Some (goes_on s (sp_audio s) next)) h, [], [])
  | OnCancel w next =>
      let c := commands h in
      let h := with_speaks (Some (goes_on s (sp_audio s) next)) h in
      if cancelled c then (h, [], [w])
      else (with_commands {| waiting := waiting c; current := current c; cancelled := cancelled c;
                             wake := Some w; ended := ended c; clean_end := clean_end c |} h, [], [])
  end.

(** A step of the serving thread. *)
Definition host_turn (f : Finds) (h : HostState) : Turn :=
  match exited h with
  | Some _ => (h, [], [])
  | None => match speaks h with Some s => speaking_turn f s h | None => idle_turn f h end
  end.

(** [serve]'s start: what it writes before its loop, and the host, if it goes on. *)
Definition serve_start (built : SynthError + D) (f : Finds) : option HostState * list FromHost :=
  match built with
  | inl error => (None, if write_ok f then [HostUnavailable (show_error error)] else [])
  | inr d =>
      let '(h, out, _, ok) := send f [Ready (host_describes d)] (new_host d) in
      ((if ok : bool then Some h else None), out)
  end.

End host.
Arguments Speaks : clear implicits.
Arguments HostState : clear implicits.

End HostSide.

(** ** The driver of a host *)

Module CoreSide.

(** [HANG_TIMEOUT], in microseconds. *)
Definition HANG_TIMEOUT : N := 10000000.

(** [Host], less its pipes and process. *)
Record Host := {
  read_messages : list FromHost;
  host_ended : option string;
  draining : list UtteranceId;
  silent_since : N;
}.

(** [Lost]. *)
Inductive Lost := LostEnded (why : string) | LostHung | LostOutOfTurn (m : FromHost).

Definition misbehaved (self : Lost) : bool :=
  match self with LostEnded _ => false | _ => true end.

Section shown.
(** The derived [Debug] text of a message. *)
Context (debug : FromHost -> string).

Definition lost_error (self : Lost) : SynthError :=
  Synthesis match self with
  | LostEnded why => "the synthesizer host ended: " +:+ why
  | LostHung => "the synthesizer host sent nothing for 10s"
  | LostOutOfTurn m => "the synthesizer host sent " +:+ debug m +:+ " out of turn"
  end.
End shown.

Definition fresh_host (now : N) : Host :=
  {| read_messages := []; host_ended := None; draining := []; silent_since := now |}.
Definition with_read (l : list FromHost) (h : Host) : Host :=
  {| read_messages := l; host_ended := host_ended h; draining := draining h; silent_since := silent_since h |}.
Definition with_draining (l : list UtteranceId) (h : Host) : Host :=
  {| read_messages := read_messages h; host_ended := host_ended h; draining := l; silent_since := silent_since h |}.
Definition heard_at (now : N) (h : Host) : Host :=
  {| read_messages := read_messages h; host_ended := host_ended h; draining := draining h; silent_since := now |}.
Definition with_ended (why : string) (h : Host) : Host :=
  {| read_messages := read_messages h; host_ended := Some why; draining := draining h;
     silent_since := silent_since h |}.

(** [Host::send]: a request written to a host that owes nothing starts its time;
    how the write went is the pipe's. *)
Inductive Written := WrittenWhole | WrittenTimedOut | WrittenError (why : string).
Definition core_send (m : ToHost) (written : Written) (now : N) (h : Host) : Host * option Lost :=
  let h :=
    match draining h, m with
    | [], HSpeak _ | [], HSetSetting _ _ => heard_at now h
    | _, _ => h
    end in
  (h, match written with
      | WrittenWhole => None
      | WrittenTimedOut => Some LostHung
      | WrittenError why => Some (LostEnded why)
      end).

(** [Host::hung_at] and [handed_back]. *)
Definition hung_at (h : Host) : N := silent_since h + HANG_TIMEOUT.
Definition handed_back (now : N) (h : Host) : Host := heard_at now h.

(** [Host::cancel]. *)
Definition core_cancel (u : UtteranceId) (written : Written) (now : N) (h : Host) : Host * option Lost :=
  match core_send (HCancel u) written now h with
  | (h, Some lost) => (h, Some lost)
  | (h, None) => (with_draining (draining h ++ [u]) h, None)
  end.

(** [Taken]: what a read that does not wait brings. *)
Inductive Taken := TakenFrames (ms : list FromHost) | TakenWaiting | TakenEnded (error : option string).

(** [Host::fill]: the host, and whether a read is now in flight. *)
Definition fill (taken : Taken) (now : N) (h : Host) : Host * bool :=
  match host_ended h with
  | Some _ => (h, false)
  | None =>
      match taken with
      | TakenFrames ms => (heard_at now (with_read (read_messages h ++ ms) h), false)
      | TakenWaiting => (h, true)
      | TakenEnded None => (with_ended "its pipe closed" h, false)
      | TakenEnded (Some error) => (with_ended error h, false)
      end
  end.

(** Where a message's utterance is in the ones draining. *)
Definition drains (m : FromHost) (draining : list UtteranceId) : option nat :=
  u ← message_utterance m; fst <$> list_find (fun d => d = u) draining.

Definition remove_at {A} (i : nat) (l : list A) : list A := take i l ++ drop (S i) l.

(** Of a draining utterance: the message dropped, and the utterance with its
    end. *)
Definition drain_one (m : FromHost) (at_ : nat) (l : list UtteranceId) : list UtteranceId :=
  if ends_utterance m then remove_at at_ l else l.

(** The inner loop of [Host::next]: the first message not draining. *)
Fixpoint pop_next (ms : list FromHost) (l : list UtteranceId) : option FromHost * list FromHost * list UtteranceId :=
  match ms with
  | [] => (None, [], l)
  | m :: ms =>
      match drains m l with
      | Some at_ => pop_next ms (drain_one m at_ l)
      | None => (Some m, ms, l)
      end
  end.

(** What a wait brought: the pipe's read, the cancel, nothing in time, or an
    error. *)
Inductive Signal := SignalRead | SignalCancel | SignalNone | SignalError (why : string).
Inductive Next := NextMessage (m : FromHost) | NextCancelled.

(** [Host::next] over what its reads and waits bring; [None] while it still
    waits. *)
Fixpoint next_ (script : list (Taken * Signal * N)) (h : Host) : Host * option (Lost + Next) :=
  let '(popped, ms, l) := pop_next (read_messages h) (draining h) in
  let h := with_draining l (with_read ms h) in
  match popped with
  | Some m => (h, Some (inr (NextMessage m)))
  | None =>
      match host_ended h with
      | Some why => (h, Some (inl (LostEnded why)))
      | None =>
          match script with
          | [] => (h, None)
          | (taken, signal, now) :: script =>
              let '(h, in_flight) := fill taken now h in
              if in_flight then
                match signal with
                | SignalRead => next_ script h
                | SignalCancel => (h, Some (inr NextCancelled))
                | SignalNone => (h, Some (inl LostHung))
                | SignalError why => (h, Some (inl (LostEnded why)))
                end
              else next_ script h
          end
      end
  end.

(** The loop of [Host::between_requests] over the messages read. *)
Fixpoint drop_draining (ms : list FromHost) (l : list UtteranceId) :
    list FromHost * list UtteranceId * option Lost :=
  match ms with
  | [] => ([], l, None)
  | m :: ms =>
      match drains m l with
      | Some at_ => drop_draining ms (drain_one m at_ l)
      | None => (m :: ms, l, Some (LostOutOfTurn m))
      end
  end.

(** [Host::between_requests]; the reads end with one that waits. *)
Fixpoint between_requests (script : list (Taken * N)) (now : N) (h : Host) : Host * option Lost :=
  let '(ms, l, lost) := drop_draining (read_messages h) (draining h) in
  let h := with_draining l (with_read ms h) in
  match lost with
  | Some lost => (h, Some lost)
  | None =>
      match host_ended h with
      | Some why => (h, Some (LostEnded why))
      | None =>
          let at_end := if negb (bool_decide (draining h = [])) && (hung_at h <=? now) then Some LostHung else None in
          match script with
          | [] => (h, at_end)
          | (taken, at_) :: script =>
              let '(h, in_flight) := fill taken at_ h in
              if in_flight then (h, at_end) else between_requests script now h
          end
      end
  end.

(** What [speak_with] does with a message: the call on the sink, which may break
    the utterance off, its end, or the host lost. *)
Inductive Handled :=
  | RelaysTiming (timing : HostTiming)
  | Relays (call : TrimCall)
  | EndsSpeak (outcome : option SynthError)
  | Loses (lost : Lost).

Definition handle_message (u : UtteranceId) (m : FromHost) : Handled :=
  if decide (message_utterance m = Some u) then
    match m with
    | FirstAudio _ timing => RelaysTiming timing
    | HostPcm _ format pcm => Relays (CallPush format pcm)
    | HostMark _ mark => Relays (CallMark mark)
    | HostDone _ => EndsSpeak None
    | HostFailed _ reason => EndsSpeak (Some (Synthesis reason))
    | other => Loses (LostOutOfTurn other)
    end
  else Loses (LostOutOfTurn m).

(** [split_synthesis], of the driver's stamps. *)
Definition split_synthesis (asked sent taken : N) (host : HostTiming) : SynthTiming :=
  {| request_us := sent - asked; to_host_us := received_at_us host - sent;
     first_chunk_us := ht_first_chunk_us host; return_us := taken - sent_at_us host |}.

(** What an answer to a setting means, in [Host::set_setting]. *)
Inductive SettingAnswer := SettingDone | SettingRefused (refusal : string) | SettingLost (m : FromHost).
Definition handle_answer (m : FromHost) : SettingAnswer :=
  match m with
  | SettingApplied None => SettingDone
  | SettingApplied (Some refusal) => SettingRefused refusal
  | m => SettingLost m
  end.

(** [HostedSynth]'s description: its values as the host last took them. *)
Fixpoint update_value (id : SettingId) (value : SettingValue) (values : Values) : Values :=
  match values with
  | [] => [(id, value)]
  | (k, v) :: values => if decide (k = id) then (k, value) :: values else (k, v) :: update_value id value values
  end.
Definition hosted_set (id : SettingId) (value : SettingValue) (result : option SynthError)
    (description : HostDescription) : HostDescription :=
  match result with
  | None => {| d_name := d_name description; d_places_marks := d_places_marks description;
               d_changes_pitch := d_changes_pitch description; d_settings := d_settings description;
               d_values := update_value id value (d_values description) |}
  | Some _ => description
  end.

(** The rounds of [HostedSynth::speak]: given how each of its two went, and
    whether anything was relayed and the sink is cancelled by its end, what it
    returns and whether the second was tried. *)
Definition speaks_again (relayed : bool) (lost : Lost) (round : nat) (sink_cancelled : bool) : bool :=
  negb (relayed || misbehaved lost || (round =? 1)%nat || sink_cancelled).

End CoreSide.
