(* ===== verification/HostingProps.v ===== *)
(** * Core and a synthesizer host together

    The host of [Hosting.v] and the driver that relays it, over their two pipes,
    taking steps in any order: Core asks, cancels and takes messages, and the
    host reads commands and serves. While the host lives, no message reaches Core
    out of turn, however cancels cross the endings they cross; no utterance is
    stopped by another's cancel; and an utterance not cancelled is relayed as
    the driver spoke it. *)

From S2P Require Import Prelude Tree Facts Speech SpeechQueue Trim Settings Synth SynthProps SynthAudio Hosting.
Import HostSide CoreSide.

(** ** The system *)

(** What Core waits for. *)
Inductive Request := Idle | Asking (u : UtteranceId) | SettingIt.

(** What has happened, oldest first. *)
Inductive Event :=
  | EvAsked (sequence : SpeechSequence)
  | EvCancelled (u : UtteranceId)
  | EvBegan (u : UtteranceId) (calls : list TrimCall) (result : option SynthError)
  | EvSent (u : UtteranceId) (call : TrimCall)
  | EvRelayed (u : UtteranceId) (call : TrimCall)
  | EvEnded (u : UtteranceId) (outcome : option SynthError).

Section system.
Context `{SynthDriver D}.

Record System := {
  host : HostState D;
  to_host : list ToHost;
  from_host : list FromHost;
  drain : list UtteranceId;
  request : Request;
  log : list Event;
}.

Definition started (d : D) : System :=
  {| host := new_host d; to_host := []; from_host := []; drain := []; request := Idle; log := [] |}.

(** What Core makes of the next message; [None] when it is out of turn. *)
Definition core_take (m : FromHost) (s : System) (rest : list FromHost) : option System :=
  match drains m (drain s) with
  | Some at_ =>
      Some {| host := host s; to_host := to_host s; from_host := rest; drain := drain_one m at_ (drain s);
              request := request s; log := log s |}
  | None =>
      match request s with
      | Idle => None
      | Asking u =>
          match handle_message u m with
          | RelaysTiming _ =>
              Some {| host := host s; to_host := to_host s; from_host := rest; drain := drain s;
                      request := request s; log := log s |}
          | Relays call =>
              Some {| host := host s; to_host := to_host s; from_host := rest; drain := drain s;
                      request := request s; log := log s ++ [EvRelayed u call] |}
          | EndsSpeak outcome =>
              Some {| host := host s; to_host := to_host s; from_host := rest; drain := drain s;
                      request := Idle; log := log s ++ [EvEnded u outcome] |}
          | Loses _ => None
          end
      | SettingIt =>
          match handle_answer m with
          | SettingLost _ => None
          | _ => Some {| host := host s; to_host := to_host s; from_host := rest; drain := drain s;
                         request := Idle; log := log s |}
          end
      end
  end.

(** The commands a turn of the host reads, of those it finds. *)
Definition reads (f : Finds) (h : HostState D) : list ToHost :=
  let first := commands_came (before f) in
  let then_ := commands_came (during f) in
  match speaks h with
  | None =>
      match waiting (commands h) with
      | [] => first
      | CmdSpeak _ _ :: _ => []
      | _ => then_
      end
  | Some s =>
      match sp_program s with
      | Returns _ _ | IndexReached _ _ => then_
      | PushPcm _ _ _ => if (sink_cancelled f h).1.1 then first else first ++ then_
      | IsCancelled _ => first
      | _ => []
      end
  end.

(** A sink call sent, by its message. *)
Definition message_call (m : FromHost) : option (UtteranceId * TrimCall) :=
  match m with
  | HostPcm u f pcm => Some (u, CallPush f pcm)
  | HostMark u m => Some (u, CallMark m)
  | _ => None
  end.

Definition host_events (h h' : HostState D) (out : list FromHost) : list Event :=
  match speaks h, speaks h' with
  | None, Some s => let '(calls, r, _) := calls_of (sp_program s) in [EvBegan (sp_utterance s) calls r]
  | _, _ => []
  end ++ ((fun p => EvSent p.1 p.2) <$> omap message_call out).

(** The pipes are whole: neither ends, and writes succeed. *)
Definition alive (f : Finds) : Prop :=
  end_came (before f) = None /\ end_came (during f) = None /\ write_ok f = true.

Definition asked (u : UtteranceId) (l : list Event) : Prop :=
  exists sequence, EvAsked sequence ∈ l /\ seq_utterance sequence = u.

(** A step of either side. An utterance is asked for once, when Core waits for
    nothing; cancelled while it is waited for; and the host reads, of what has
    come, as much as it finds. *)
Inductive system_step : System -> System -> Prop :=
  | step_speak s sequence :
      request s = Idle -> ~ asked (seq_utterance sequence) (log s) ->
      system_step s {| host := host s; to_host := to_host s ++ [HSpeak sequence]; from_host := from_host s;
                       drain := drain s; request := Asking (seq_utterance sequence);
                       log := log s ++ [EvAsked sequence] |}
  | step_set s id value :
      request s = Idle ->
      system_step s {| host := host s; to_host := to_host s ++ [HSetSetting id value]; from_host := from_host s;
                       drain := drain s; request := SettingIt; log := log s |}
  | step_cancel s u :
      request s = Asking u ->
      system_step s {| host := host s; to_host := to_host s ++ [HCancel u]; from_host := from_host s;
                       drain := drain s ++ [u]; request := Idle; log := log s ++ [EvCancelled u] |}
  | step_take s m rest s' :
      from_host s = m :: rest -> core_take m s rest = Some s' -> system_step s s'
  | step_host s f rest h out woken :
      alive f -> to_host s = reads f (host s) ++ rest -> host_turn f (host s) = (h, out, woken) ->
      system_step s {| host := h; to_host := rest; from_host := from_host s ++ out; drain := drain s;
                       request := request s; log := log s ++ host_events (host s) h out |}.

Inductive reachable (d : D) : System -> Prop :=
  | reach_start : reachable d (started d)
  | reach_step s s' : reachable d s -> system_step s s' -> reachable d s'.

(** ** What is owed *)

(** Work in turn: an utterance, or a setting. *)
Inductive Item := IU (u : UtteranceId) | IS.

#[local] Instance Item_eq_dec : EqDecision Item.
Proof. solve_decision. Defined.

Definition owed (s : System) : list Item :=
  (IU <$> drain s) ++ match request s with Idle => [] | Asking u => [IU u] | SettingIt => [IS] end.

Definition command_item (c : Command) : Item :=
  match c with CmdSpeak sequence _ => IU (seq_utterance sequence) | CmdSkip u => IU u | CmdSet _ _ => IS end.
Definition pipe_item (m : ToHost) : option Item :=
  match m with HSpeak sequence => Some (IU (seq_utterance sequence)) | HSetSetting _ _ => Some IS | HCancel _ => None end.
Definition now_items (h : HostState D) : list Item :=
  match speaks h with Some s => [IU (sp_utterance s)] | None => [] end.
Definition host_items (s : System) : list Item :=
  now_items (host s) ++ (command_item <$> waiting (commands (host s))) ++ omap pipe_item (to_host s).

(** What is left of the work after messages; [None] when one is out of turn. *)
Definition after_one (m : FromHost) (l : list Item) : option (list Item) :=
  match message_utterance m, l with
  | Some u, IU v :: rest => if decide (u = v) then Some (if ends_utterance m then rest else l) else None
  | None, IS :: rest => match m with SettingApplied _ => Some rest | _ => None end
  | _, _ => None
  end.
Fixpoint after (ms : list FromHost) (l : list Item) : option (list Item) :=
  match ms with
  | [] => Some l
  | m :: ms => l ← after_one m l; after ms l
  end.

Lemma after_app a b l : after (a ++ b) l = after a l ≫= after b.
Proof.
  revert l. induction a as [|m a IH]; intros l; simpl; [done|].
  destruct (after_one m l); simpl; [apply IH|done].
Qed.

Lemma after_one_more m l l' more : after_one m l = Some l' -> after_one m (l ++ more) = Some (l' ++ more).
Proof.
  unfold after_one. destruct (message_utterance m), l as [|[v|] l]; simpl; try done.
  - case_decide; [|done]. intros [= <-]. by destruct (ends_utterance m).
  - destruct m; try done. by intros [= <-].
Qed.
Lemma after_more ms : forall l l' more, after ms l = Some l' -> after ms (l ++ more) = Some (l' ++ more).
Proof.
  induction ms as [|m ms IH]; intros l l' more; simpl; [by intros [= <-]|].
  destruct (after_one m l) as [l1|] eqn:Ho; simpl; [|done]. intros Ha.
  rewrite (after_one_more _ _ _ _ Ho). simpl. by apply IH.
Qed.

(** ** Reading *)

Lemma skip_items u w : command_item <$> skip u w = command_item <$> w.
Proof.
  induction w as [|[sequence r|v|id x] w IH]; csimpl; [done| |by rewrite IH..].
  case_decide as Hd; csimpl; [by rewrite Hd|by rewrite IH].
Qed.

Lemma read_all_items clocks ms : forall c,
  let c' := (read_all clocks ms c).1 in
  (command_item <$> waiting c') = (command_item <$> waiting c) ++ omap pipe_item ms /\
  current c' = current c /\ ended c' = ended c.
Proof.
  induction ms as [|m ms IH]; intros c; simpl; [by rewrite app_nil_r|].
  assert (let c1 := (read_one clocks m c).1 in
    (command_item <$> waiting c1) = (command_item <$> waiting c) ++ option_list (pipe_item m) /\
    current c1 = current c /\ ended c1 = ended c) as H1.
  { destruct m as [sequence|u|id x]; simpl; rewrite ?fmap_app; try done.
    case_decide; simpl; rewrite ?skip_items app_nil_r; done. }
  destruct (read_one clocks m c) as [c1 w1]. specialize (IH c1).
  destruct (read_all clocks ms c1) as [c2 w2]. simpl in *.
  destruct H1 as (A1 & A2 & A3), IH as (B1 & B2 & B3).
  rewrite B1 A1 B2 B3 A2 A3 -app_assoc. split_and!; [|done..]. f_equal. csimpl. by destruct (pipe_item m).
Qed.

(** What a host has been told: to cancel an utterance it has not ended, or to
    speak one it has not begun. *)
Inductive Told := ToldCancel (u : UtteranceId) | ToldSpeak (sequence : SpeechSequence).
Definition told (c : Commands) (t : Told) : Prop :=
  match t with
  | ToldCancel u => CmdSkip u ∈ waiting c \/ (current c = Some u /\ cancelled c = true)
  | ToldSpeak sequence => exists received, CmdSpeak sequence received ∈ waiting c
  end.
Definition tells (ms : list ToHost) (t : Told) : Prop :=
  match t with ToldCancel u => HCancel u ∈ ms | ToldSpeak sequence => HSpeak sequence ∈ ms end.
#[local] Notation knows c u := (told c (ToldCancel u)).

Lemma tells_app a b t : tells (a ++ b) t <-> tells a t \/ tells b t.
Proof. destruct t; apply elem_of_app. Qed.

Lemma skip_told u c c' t :
  waiting c' = skip u (waiting c) -> current c' = current c -> cancelled c' = cancelled c ->
  told c' t -> told c t \/ t = ToldCancel u.
Proof.
  intros Hw Hc Hca. assert (forall w, (forall v, CmdSkip v ∈ skip u w -> CmdSkip v ∈ w \/ v = u) /\
    (forall q r, CmdSpeak q r ∈ skip u w -> CmdSpeak q r ∈ w)) as Hs.
  { induction w as [|[q r|x|id x] w [IH1 IH2]]; simpl.
    - split; [by intros v ?%elem_of_nil|by intros q r ?%elem_of_nil].
    - case_decide; split; intros *; rewrite !elem_of_cons; naive_solver.
    - split; intros *; rewrite !elem_of_cons; naive_solver.
    - split; intros *; rewrite !elem_of_cons; naive_solver. }
  destruct (Hs (waiting c)) as [H1 H2]. destruct t as [v|q]; simpl; rewrite Hw ?Hc ?Hca.
  - intros [Hin|?]; [|by left; right]. destruct (H1 v Hin) as [?| ->]; [by left; left|by right].
  - intros [r Hin]. left. exists r. by apply H2.
Qed.

Lemma read_all_told clocks ms t : forall c,
  told (read_all clocks ms c).1 t -> told c t \/ tells ms t.
Proof.
  induction ms as [|m ms IH]; intros c; simpl; [by left|].
  assert (told (read_one clocks m c).1 t -> told c t \/ tells [m] t) as H1.
  { destruct m as [q|v|id x]; simpl.
    - destruct t as [u|q']; simpl.
      + intros [Hin|?]; [|by left; right]. left. left.
        by apply elem_of_app in Hin as [?|?%list_elem_of_singleton].
      + intros [r Hin]. apply elem_of_app in Hin as [?|Hin%list_elem_of_singleton]; [left; by exists r|].
        right. injection Hin as -> _. by left.
    - case_decide as Hd; simpl.
      + destruct t as [u|q]; simpl; [|by left]. intros [Hin|[Hc _]]; [by left; left|]. right.
        rewrite list_elem_of_singleton. congruence.
      + intros Ht. apply (skip_told v c) in Ht as [?| ->]; [by left| |done..]. right. simpl. by left.
    - destruct t as [u|q']; simpl.
      + intros [Hin|?]; [|by left; right]. left. left.
        by apply elem_of_app in Hin as [?|?%list_elem_of_singleton].
      + intros [r Hin]. apply elem_of_app in Hin as [?|Hin%list_elem_of_singleton]; [left; by exists r|done]. }
  destruct (read_one clocks m c) as [c1 w1]. specialize (IH c1).
  destruct (read_all clocks ms c1) as [c2 w2]. simpl in *. intros Hk.
  change (m :: ms) with ([m] ++ ms). rewrite tells_app.
  destruct (IH Hk) as [Hk1|Hin]; [|by right; right]. destruct (H1 Hk1) as [?|?]; [by left|by right; left].
Qed.

(** A host without its first waiting command was told no more. *)
Lemma told_tail c c' x w t :
  waiting c = x :: w -> waiting c' = w -> (current c' = current c /\ cancelled c' = cancelled c \/ cancelled c' = false) ->
  told c' t -> told c t.
Proof.
  intros Hc Hc' Hcur. destruct t as [u|q]; simpl; rewrite Hc Hc'.
  - intros [Hin|[H1 H2]]; [left; by right|]. destruct Hcur as [[<- <-]|?]; [by right|congruence].
  - intros [r Hin]. exists r. by right.
Qed.

(** ** A turn of the host *)

Definition host_ok (h : HostState D) : Prop :=
  exited h = None /\ broken h = false /\ ended (commands h) = false /\
  current (commands h) = sp_utterance <$> speaks h.

Lemma read_alive clocks came c :
  ended c = false -> end_came came = None -> HostSide.read clocks came c = read_all clocks (commands_came came) c.
Proof.
  intros He Hc. unfold HostSide.read. rewrite He. destruct (read_all clocks _ c) as [c' w]. by rewrite Hc.
Qed.

(** A write, with the reading it does, from a host that is whole. *)
Lemma send_alive f ms (h : HostState D) :
  alive f -> broken h = false -> ended (commands h) = false ->
  exists c woken, read_all (clocks f) (commands_came (during f)) (commands h) = (c, woken) /\
    send f ms h = (with_commands c h, ms, woken, true).
Proof.
  intros (_ & Hd & Hw) Hb He. unfold send. rewrite Hb read_alive // Hw.
  destruct (read_all _ _ (commands h)) as [c w]. exists c, w. split; [done|]. destruct h. simpl in *. by subst.
Qed.

Lemma cancelled_alive f (h : HostState D) :
  alive f -> broken h = false -> ended (commands h) = false ->
  exists c woken, read_all (clocks f) (commands_came (before f)) (commands h) = (c, woken) /\
    sink_cancelled f h = (cancelled c, with_commands c h, woken).
Proof.
  intros (Hb' & _ & _) Hb He. unfold sink_cancelled. rewrite Hb read_alive //.
  pose proof (read_all_items (clocks f) (commands_came (before f)) (commands h)) as (_ & _ & He').
  destruct (read_all _ _ (commands h)) as [c w]. simpl in He'. exists c, w. split; [done|].
  by rewrite He' He orb_false_r.
Qed.

(** What a turn keeps: the host whole, its work in turn, and no cancel it was not
    told of. *)
Record turns (f : Finds) (h h' : HostState D) (out : list FromHost) : Prop := {
  tn_ok : host_ok h';
  tn_items : after out (now_items h ++ (command_item <$> waiting (commands h)) ++ omap pipe_item (reads f h)) =
    Some (now_items h' ++ (command_item <$> waiting (commands h')));
  tn_knows : forall t, told (commands h') t -> told (commands h) t \/ tells (reads f h) t;
}.

(** A reply read meanwhile: the next command's answer. *)
Lemma reply_turns f m (h0 h : HostState D) item :
  alive f -> host_ok h -> speaks h = None ->
  now_items h0 ++ (command_item <$> waiting (commands h0)) = item :: (command_item <$> waiting (commands h)) ->
  (forall l, after_one m (item :: l) = Some l) ->
  reads f h0 = commands_came (during f) ->
  (forall t, told (commands h) t -> told (commands h0) t) ->
  let '(h', out, _) := reply f m h in turns f h0 h' out /\ speaks h' = None /\ out = [m].
Proof.
  intros Hal (Hx & Hb & He & Hcur) Hs Hw Hm Hr Hk.
  destruct (send_alive f [m] h Hal Hb He) as (c & woken & Hc & Hsend).
  unfold reply. rewrite Hsend.
  pose proof (read_all_items (clocks f) (commands_came (during f)) (commands h)) as (Hi & Hcu & Hen).
  pose proof (fun t => read_all_told (clocks f) (commands_came (during f)) t (commands h)) as Hkn.
  rewrite Hc in Hi, Hcu, Hen, Hkn. simpl in *. split_and!; [|done..]. split.
  - split_and!; simpl; try done; congruence.
  - rewrite app_assoc Hw Hr. simpl. rewrite Hm. simpl. unfold now_items. simpl. by rewrite Hs Hi.
  - intros u Hu. simpl in Hu. rewrite Hr. destruct (Hkn u Hu) as [?|?]; [left; by apply Hk|by right].
Qed.

Lemma idle_turns f (h : HostState D) :
  alive f -> host_ok h -> speaks h = None ->
  let '(h', out, _) := idle_turn f h in
  turns f h h' out /\ omap message_call out = [] /\
  match speaks h' with
  | Some s => exists sequence received w, waiting (commands h) = CmdSpeak sequence received :: w /\
      sp_utterance s = seq_utterance sequence /\ sp_program s = speak sequence (host_driver h)
  | None => True
  end /\
  (forall m u, m ∈ out -> message_utterance m = Some u -> ends_utterance m = true ->
     CmdSkip u ∈ waiting (commands h)).
Proof.
  intros Hal (Hx & Hb & He & Hcur) Hs. unfold idle_turn. rewrite Hs in Hcur.
  destruct (waiting (commands h)) as [|[sequence received|u|id value] w] eqn:Hw.
  - rewrite He. destruct Hal as (Hbe & Hdu & Hok). rewrite read_alive //.
    pose proof (read_all_items (clocks f) (commands_came (before f)) (commands h)) as (Hi & Hcu & Hen).
    pose proof (fun t => read_all_told (clocks f) (commands_came (before f)) t (commands h)) as Hkn.
    destruct (read_all _ _ (commands h)) as [c woken]. simpl in *. rewrite Hs. split_and!; [|done|done|].
    + split; simpl.
      * split_and!; simpl; rewrite ?Hs ?Hcu ?Hen //.
      * unfold now_items, reads. simpl. by rewrite Hs Hw Hi Hw.
      * intros u Hu. unfold reads. rewrite Hs Hw. by apply Hkn.
    + by intros m u ?%elem_of_nil.
  - split_and!; simpl; try done.
    + split.
      * by split_and!.
      * unfold now_items, reads. simpl. rewrite Hs Hw. simpl. by rewrite app_nil_r.
      * intros t Ht. left. eapply (told_tail _ _ _ w); [exact Hw| | |exact Ht]; [done|by right].
    + by exists sequence, received, w.
    + by intros m u ?%elem_of_nil.
  - pose proof (reply_turns f (HostDone u) h (with_commands (with_waiting w (commands h)) h) (IU u) Hal) as Ht.
    destruct (reply f (HostDone u) _) as [[h' out] woken].
    destruct Ht as (Ht & Hs' & ->); simpl; try done.
    + split_and!; simpl; rewrite ?Hs; done.
    + unfold now_items. by rewrite Hs Hw.
    + intros l. unfold after_one. simpl. by rewrite decide_True.
    + unfold reads. by rewrite Hs Hw.
    + intros t Ht. eapply (told_tail _ _ _ w); [exact Hw| | |exact Ht]; [done|by left].
    + rewrite Hs'. split_and!; [done..|]. intros m v ->%list_elem_of_singleton [= <-] _. by left.
  - destruct (set_setting id value (host_driver h)) as [d refused].
    pose proof (reply_turns f (SettingApplied (show_error <$> refused)) h
      (with_host_driver d (with_commands (with_waiting w (commands h)) h)) IS Hal) as Ht.
    destruct (reply f (SettingApplied _) _) as [[h' out] woken].
    destruct Ht as (Ht & Hs' & ->); simpl; try done.
    + split_and!; simpl; rewrite ?Hs; done.
    + unfold now_items. by rewrite Hs Hw.
    + unfold reads. by rewrite Hs Hw.
    + intros t Ht. eapply (told_tail _ _ _ w); [exact Hw| | |exact Ht]; [done|by left].
    + rewrite Hs'. split_and!; [done..|]. by intros m v ->%list_elem_of_singleton [=].
Qed.

(** The message that ends an utterance. *)
Definition end_of (u : UtteranceId) (r : option SynthError) : FromHost :=
  match r with None => HostDone u | Some e => HostFailed u (show_error e) end.

(** What a turn does of the utterance it speaks. *)
Definition speaks_on (f : Finds) (s : Speaks D) (h h' : HostState D) (out : list FromHost) : Prop :=
  let u := sp_utterance s in
  Forall (fun p => p.1 = u) (omap message_call out) /\
  match speaks h' with
  | Some s' => sp_utterance s' = u /\ Forall (fun m => ends_utterance m = false) out
  | None => exists r, out = [end_of u r]
  end /\
  (~ knows (commands h) u -> HCancel u ∉ reads f h ->
   let '(calls, r, _) := calls_of (sp_program s) in
   match speaks h' with
   | Some s' => let '(more, r', _) := calls_of (sp_program s') in
       calls = (omap message_call out).*2 ++ more /\ r = r'
   | None => calls = [] /\ out = [end_of u r]
   end).

(** A turn that only reads, or only takes the program on. *)
Lemma quiet_turns f s (h : HostState D) c p audio ms :
  host_ok h -> speaks h = Some s -> reads f h = ms ->
  (command_item <$> waiting c) = (command_item <$> waiting (commands h)) ++ omap pipe_item ms ->
  current c = current (commands h) -> ended c = false ->
  (forall t, told c t -> told (commands h) t \/ tells ms t) ->
  turns f h (with_speaks (Some (goes_on s audio p)) (with_commands c h)) [].
Proof.
  intros (Hx & Hb & He & Hcur) Hs Hr Hi Hc Hce Hk. rewrite Hs in Hcur. split.
  - split_and!; simpl; try done. by rewrite Hc Hcur.
  - simpl. unfold now_items. simpl. by rewrite Hs Hr Hi.
  - intros u Hu. rewrite Hr. by apply Hk.
Qed.

(** The same with messages of the utterance written, and reading meanwhile. *)
Lemma write_turns f s (h : HostState D) c p audio ms out :
  host_ok h -> speaks h = Some s -> reads f h = ms ->
  (command_item <$> waiting c) = (command_item <$> waiting (commands h)) ++ omap pipe_item ms ->
  current c = current (commands h) -> ended c = false ->
  (forall t, told c t -> told (commands h) t \/ tells ms t) ->
  Forall (fun m => message_utterance m = Some (sp_utterance s) /\ ends_utterance m = false) out ->
  turns f h (with_speaks (Some (goes_on s audio p)) (with_commands c h)) out.
Proof.
  intros Hok Hs Hr Hi Hc Hce Hk Hout.
  pose proof (quiet_turns f s h c p audio ms Hok Hs Hr Hi Hc Hce Hk) as [Q1 Q2 Q3].
  split; [done| |done]. revert Q2. simpl. unfold now_items. rewrite Hs. simpl. intros [= Q2].
  clear -Hout Q2. induction Hout as [|m out [Hm Hend] _ IH]; simpl; [by rewrite Q2|].
  unfold after_one at 1. rewrite Hm Hend decide_True //.
Qed.

Lemma speaking_turns f s (h : HostState D) :
  alive f -> host_ok h -> speaks h = Some s ->
  let '(h', out, _) := speaking_turn f s h in turns f h h' out /\ speaks_on f s h h' out.
Proof.
  intros Hal Hok Hs. pose proof Hok as (Hx & Hb & He & Hcur). rewrite Hs in Hcur. simpl in Hcur.
  unfold speaking_turn, speaks_on. destruct (sp_program s) as [r d|fm pcm next|m next|next|t next|w next] eqn:Hp.
  - set (h1 := with_speaks None (with_host_driver d (with_commands (end_ (commands h)) h))).
    rewrite Hb. pose proof (reply_turns f (end_of (sp_utterance s) r) h h1 (IU (sp_utterance s)) Hal) as Ht.
    change (match r with None => HostDone (sp_utterance s) | Some e => HostFailed (sp_utterance s) (show_error e) end)
      with (end_of (sp_utterance s) r).
    destruct (reply f (end_of _ r) h1) as [[h' out] woken]. destruct Ht as (Ht & Hs' & ->); try done.
    + unfold now_items. by rewrite Hs.
    + intros l. unfold after_one. destruct r; simpl; by rewrite decide_True.
    + unfold reads. by rewrite Hs Hp.
    + intros [u|q]; simpl; [intros [Hin|[? _]]; [by left|done]|done].
    + rewrite Hs'. split_and!; [done| |eauto|]; [by destruct r; constructor|]. done.
  - destruct (cancelled_alive f h Hal Hb He) as (c & woken & Hc & Hsc). rewrite Hsc.
    pose proof (read_all_items (clocks f) (commands_came (before f)) (commands h)) as (Hi & Hcu & Hen).
    pose proof (fun t => read_all_told (clocks f) (commands_came (before f)) t (commands h)) as Hkn.
    rewrite Hc in Hi, Hcu, Hen, Hkn. simpl in Hi, Hcu, Hen, Hkn.
    assert (reads f h = if cancelled c then commands_came (before f)
      else commands_came (before f) ++ commands_came (during f)) as Hr.
    { unfold reads. rewrite Hs Hp Hsc. done. }
    destruct (cancelled c) eqn:Hcan.
    { split; [apply (quiet_turns f s h c _ _ _ Hok Hs Hr Hi Hcu); [congruence|done]|].
      simpl. split_and!; [done|done|done|]. intros Hnk Hnc.
      destruct (Hkn (ToldCancel (sp_utterance s))) as [?|?]; [right; rewrite Hcu Hcur; done|done|]. by rewrite Hr in Hnc. }
    set (first := if sp_audio s then [] else _). set (h1 := with_commands c h).
    destruct (send_alive f (first ++ [HostPcm (sp_utterance s) fm pcm]) h1 Hal Hb ltac:(simpl; congruence))
      as (c2 & woken2 & Hc2 & ->). simpl.
    pose proof (read_all_items (clocks f) (commands_came (during f)) (commands h1)) as (Hi2 & Hcu2 & Hen2).
    pose proof (fun t => read_all_told (clocks f) (commands_came (during f)) t (commands h1)) as Hkn2.
    rewrite Hc2 in Hi2, Hcu2, Hen2, Hkn2. simpl in Hi2, Hcu2, Hen2, Hkn2.
    assert (Forall (fun m => message_utterance m = Some (sp_utterance s) /\ ends_utterance m = false)
      (first ++ [HostPcm (sp_utterance s) fm pcm])) as Hout.
    { apply Forall_app_2; [|by repeat constructor]. unfold first. destruct (sp_audio s); by repeat constructor. }
    assert (omap message_call (first ++ [HostPcm (sp_utterance s) fm pcm]) = [(sp_utterance s, CallPush fm pcm)]) as Hcalls.
    { rewrite omap_app. unfold first. by destruct (sp_audio s). }
    split.
    + apply (write_turns f s h c2 _ true _ _ Hok Hs Hr); [| | | |done].
      * rewrite Hi2 Hi omap_app app_assoc. done.
      * by rewrite Hcu2.
      * congruence.
      * intros u Hu. rewrite tells_app. destruct (Hkn2 u Hu) as [Hk|?]; [|by right; right].
        destruct (Hkn u Hk); [by left|by right; left].
    + rewrite Hcalls. split_and!; [by repeat constructor|done| |].
      { eapply Forall_impl; [exact Hout|]. by intros ? []. }
      intros Hnk Hnc. rewrite Hr not_elem_of_app in Hnc. destruct Hnc as [Hnc1 Hnc2].
      assert (cancelled c2 = false) as ->.
      { destruct (cancelled c2) eqn:Hc2c; [|done]. exfalso.
        destruct (Hkn2 (ToldCancel (sp_utterance s))) as [Hk|?]; [right; rewrite Hcu2 Hcu Hcur; done| |done].
        by destruct (Hkn _ Hk). }
      simpl. destruct (calls_of (next false)) as [[calls r] d]. done.
  - destruct (send_alive f [HostMark (sp_utterance s) m] h Hal Hb He) as (c & woken & Hc & ->).
    pose proof (read_all_items (clocks f) (commands_came (during f)) (commands h)) as (Hi & Hcu & Hen).
    pose proof (fun t => read_all_told (clocks f) (commands_came (during f)) t (commands h)) as Hkn.
    rewrite Hc in Hi, Hcu, Hen, Hkn. simpl in Hi, Hcu, Hen, Hkn.
    assert (reads f h = commands_came (during f)) as Hr by (unfold reads; by rewrite Hs Hp).
    split; [apply (write_turns f s h c _ _ _ _ Hok Hs Hr Hi Hcu); [congruence|done|by repeat constructor]|].
    simpl. split_and!; [by repeat constructor|done|by repeat constructor|]. intros _ _. simpl.
    by destruct (calls_of next) as [[calls r] d].
  - destruct (cancelled_alive f h Hal Hb He) as (c & woken & Hc & ->).
    pose proof (read_all_items (clocks f) (commands_came (before f)) (commands h)) as (Hi & Hcu & Hen).
    pose proof (fun t => read_all_told (clocks f) (commands_came (before f)) t (commands h)) as Hkn.
    rewrite Hc in Hi, Hcu, Hen, Hkn. simpl in Hi, Hcu, Hen, Hkn.
    assert (reads f h = commands_came (before f)) as Hr by (unfold reads; by rewrite Hs Hp).
    split; [apply (quiet_turns f s h c _ _ _ Hok Hs Hr Hi Hcu); [congruence|done]|].
    simpl. split_and!; [done..|]. intros Hnk Hnc.
    assert (cancelled c = false) as ->.
    { destruct (cancelled c) eqn:Hcc; [|done]. exfalso. rewrite Hr in Hnc.
      destruct (Hkn (ToldCancel (sp_utterance s))) as [?|?]; [right; rewrite Hcu Hcur; done|done..]. }
    simpl. by destruct (calls_of (next false)) as [[calls r] d].
  - assert (reads f h = []) as Hr by (unfold reads; by rewrite Hs Hp).
    split.
    + pose proof (quiet_turns f s h (commands h) next (sp_audio s) [] Hok Hs Hr) as Hq.
      replace (with_commands (commands h) h) with h in Hq by by destruct h.
      apply Hq; try done; [by rewrite app_nil_r|by intros; left].
    + simpl. split_and!; [done..|]. intros _ _. simpl. by destruct (calls_of next) as [[calls r] d].
  - assert (reads f h = []) as Hr by (unfold reads; by rewrite Hs Hp).
    destruct (cancelled (commands h)) eqn:Hcan.
    + split.
      * pose proof (quiet_turns f s h (commands h) next (sp_audio s) [] Hok Hs Hr) as Hq.
        replace (with_commands (commands h) h) with h in Hq by by destruct h.
        apply Hq; try done; [by rewrite app_nil_r|by intros; left].
      * simpl. split_and!; [done..|]. intros _ _. simpl. by destruct (calls_of next) as [[calls r] d].
    + split.
      * apply (quiet_turns f s h {| waiting := waiting (commands h); current := current (commands h);
          cancelled := false; wake := Some w; ended := ended (commands h);
          clean_end := clean_end (commands h) |} next (sp_audio s) [] Hok Hs Hr); simpl; try done;
          [by rewrite app_nil_r|intros [u|q]; simpl; [intros [Hin|[_ ?]]; [by left; left|done]|by left]].
      * simpl. split_and!; [done..|]. intros _ _. simpl. by destruct (calls_of next) as [[calls r] d].
Qed.

(** ** The invariant *)

Definition item_u (i : Item) : option UtteranceId := match i with IU u => Some u | IS => None end.
Definition future (s : System) : list Item :=
  (command_item <$> waiting (commands (host s))) ++ omap pipe_item (to_host s).

(** The sink calls of an utterance the host sent, Core relayed, and the pipe
    holds. *)
Definition sent (u : UtteranceId) (l : list Event) : list TrimCall :=
  omap (fun e => match e with EvSent v c => if decide (v = u) then Some c else None | _ => None end) l.
Definition relayed (u : UtteranceId) (l : list Event) : list TrimCall :=
  omap (fun e => match e with EvRelayed v c => if decide (v = u) then Some c else None | _ => None end) l.
Definition in_pipe (u : UtteranceId) (ms : list FromHost) : list TrimCall :=
  omap (fun m => match message_call m with Some (v, c) => if decide (v = u) then Some c else None | None => None end) ms.

Record sys_inv (s : System) : Prop := {
  iv_ok : host_ok (host s);
  iv_order : after (from_host s) (owed s) = Some (host_items s);
  iv_once : NoDup (omap item_u (owed s));
  iv_asked : forall u, IU u ∈ owed s -> asked u (log s);
  iv_cancelled : forall u, knows (commands (host s)) u \/ HCancel u ∈ to_host s \/ u ∈ drain s -> EvCancelled u ∈ log s;
  iv_log : forall u, EvCancelled u ∈ log s \/ sent u (log s) <> [] -> asked u (log s);
  iv_waits : forall u, request s = Asking u -> EvCancelled u ∉ log s;
  iv_future : forall u, IU u ∈ future s -> sent u (log s) = [];
  iv_relay : forall u, EvCancelled u ∉ log s -> relayed u (log s) ++ in_pipe u (from_host s) = sent u (log s);
  iv_program : forall sp, speaks (host s) = Some sp -> EvCancelled (sp_utterance sp) ∉ log s ->
    let '(more, r, _) := calls_of (sp_program sp) in
    EvBegan (sp_utterance sp) (sent (sp_utterance sp) (log s) ++ more) r ∈ log s;
  iv_ends : forall m u, m ∈ from_host s -> message_utterance m = Some u -> ends_utterance m = true ->
    EvCancelled u ∉ log s -> exists r, m = end_of u r /\ EvBegan u (sent u (log s)) r ∈ log s;
}.

Lemma after_one_suffix m l l' : after_one m l = Some l' -> exists pre, l = pre ++ l'.
Proof.
  unfold after_one. destruct (message_utterance m), l as [|[v|] l]; simpl; try done.
  - case_decide; [|done]. intros [= <-]. destruct (ends_utterance m); [by exists [IU v]|by exists []].
  - destruct m; try done. intros [= <-]. by exists [IS].
Qed.

Lemma after_suffix ms : forall l l', after ms l = Some l' -> exists pre, l = pre ++ l'.
Proof.
  induction ms as [|m ms IH]; intros l l'; simpl; [intros [= <-]; by exists []|].
  destruct (after_one m l) as [l1|] eqn:Ho; simpl; [|done]. intros Ha.
  apply after_one_suffix in Ho as [pre ->]. apply IH in Ha as [pre' ->]. exists (pre ++ pre'). by rewrite app_assoc.
Qed.

(** What has ended is owed no more. *)
Lemma after_ended ms m u : forall l l', after ms l = Some l' -> NoDup (omap item_u l) ->
  m ∈ ms -> message_utterance m = Some u -> ends_utterance m = true -> IU u ∉ l'.
Proof.
  induction ms as [|m' ms IH]; intros l l' Ha Hnd Hin Hm He; [by apply elem_of_nil in Hin|].
  simpl in Ha. destruct (after_one m' l) as [l1|] eqn:Ho; simpl in Ha; [|done].
  apply elem_of_cons in Hin as [<-|Hin].
  - unfold after_one in Ho. rewrite Hm He in Ho. destruct l as [|[v|] l]; try done.
    case_decide; [|done]. injection Ho as <-. subst v.
    apply after_suffix in Ha as [pre ->]. csimpl in *. apply NoDup_cons in Hnd as [Hnd _].
    intros Hu. apply Hnd. rewrite omap_app elem_of_app. right. apply list_elem_of_omap. by exists (IU u).
  - eapply IH; [exact Ha| |done..]. apply after_one_suffix in Ho as [pre ->].
    rewrite omap_app in Hnd. by apply NoDup_app in Hnd as (_ & _ & ?).
Qed.

(** Nothing in turn is of what is not owed. *)
Lemma after_absent ms u : forall l l', after ms l = Some l' -> IU u ∉ l -> in_pipe u ms = [].
Proof.
  induction ms as [|m ms IH]; intros l l' Ha Hu; [done|]. simpl in Ha.
  destruct (after_one m l) as [l1|] eqn:Ho; simpl in Ha; [|done].
  assert (in_pipe u ms = []) as Hms.
  { eapply IH; [exact Ha|]. apply after_one_suffix in Ho as [pre ->].
    intros Hin. apply Hu. apply elem_of_app. by right. }
  unfold in_pipe in *. csimpl. destruct (message_call m) as [[v c]|] eqn:Hc; [|done].
  case_decide as Hv; [|done]. exfalso. subst v. unfold after_one in Ho.
  assert (message_utterance m = Some u) as Hm by (destruct m; simplify_eq/=; done).
  rewrite Hm in Ho. destruct l as [|[v|] l]; try done. case_decide; [|done]. subst v. apply Hu. by left.
Qed.

Lemma host_items_asked s u : sys_inv s -> IU u ∈ host_items s -> asked u (log s).
Proof.
  intros HI Hin. apply (iv_asked _ HI). destruct (after_suffix _ _ _ (iv_order _ HI)) as [pre ->].
  apply elem_of_app. by right.
Qed.

Lemma sent_app u a b : sent u (a ++ b) = sent u a ++ sent u b.
Proof. apply omap_app. Qed.
Lemma relayed_app u a b : relayed u (a ++ b) = relayed u a ++ relayed u b.
Proof. apply omap_app. Qed.
Lemma in_pipe_app u a b : in_pipe u (a ++ b) = in_pipe u a ++ in_pipe u b.
Proof. apply omap_app. Qed.

Lemma asked_more u a b : asked u a -> asked u (a ++ b).
Proof. intros (sequence & Hin & Hu). exists sequence. split; [|done]. apply elem_of_app. by left. Qed.

(** ** Core's steps *)

(** Core having taken a message: what it then waits for and what it has noted. *)
Definition taken (s : System) (rest : list FromHost) (d : list UtteranceId) (r : Request) (evs : list Event) : System :=
  {| host := host s; to_host := to_host s; from_host := rest; drain := d; request := r; log := log s ++ evs |}.

Lemma taken_inv s m rest d r evs l1 :
  sys_inv s -> from_host s = m :: rest -> after_one m (owed s) = Some l1 ->
  owed (taken s rest d r evs) = l1 ->
  Forall (fun e => match e with EvRelayed _ _ | EvEnded _ _ => True | _ => False end) evs ->
  (forall u, EvCancelled u ∉ log s -> relayed u evs ++ in_pipe u rest = in_pipe u (m :: rest)) ->
  (forall u, u ∈ d -> u ∈ drain s) -> (forall u, r = Asking u -> request s = Asking u) ->
  sys_inv (taken s rest d r evs).
Proof.
  intros [Iok Iord Ionce Iask Ican Ilog Iwait Ifut Irel Iprog Iends] Hf Ho Howed Hevs Hrel Hd Hr.
  assert (forall v, sent v evs = []) as Hsent.
  { intros v. clear -Hevs. induction Hevs as [|e evs He _ IH]; [done|]. unfold sent in *. csimpl. by destruct e. }
  assert (forall e, e ∈ evs -> match e with EvRelayed _ _ | EvEnded _ _ => True | _ => False end) as Hev
    by by apply Forall_forall.
  assert (forall u, EvCancelled u ∈ log s ++ evs -> EvCancelled u ∈ log s) as Hcan.
  { intros u [?|Hin]%elem_of_app; [done|by apply Hev in Hin]. }
  assert (forall u, EvCancelled u ∉ log s ++ evs -> EvCancelled u ∉ log s) as Hncan.
  { intros u Hn Hin. apply Hn. apply elem_of_app. by left. }
  rewrite Hf in Iord. simpl in Iord. rewrite Ho in Iord. simpl in Iord.
  assert (exists pre, owed s = pre ++ l1) as [pre Hpre] by by eapply after_one_suffix.
  split.
  - done.
  - by rewrite Howed.
  - rewrite Howed. rewrite Hpre omap_app in Ionce. by apply NoDup_app in Ionce as (_ & _ & ?).
  - intros u Hu. rewrite Howed in Hu. apply asked_more. apply Iask. rewrite Hpre. apply elem_of_app. by right.
  - intros u Hu. simpl in *. apply elem_of_app. left. apply Ican. destruct Hu as [?|[?|?]]; auto.
  - intros u [Hu|Hu]; apply asked_more; apply Ilog; [left; by apply Hcan|right].
    simpl in Hu. by rewrite sent_app Hsent app_nil_r in Hu.
  - intros u Hu Hin. simpl in *. apply (Iwait u); auto.
  - intros u Hu. simpl. by rewrite sent_app Hsent app_nil_r Ifut.
  - intros u Hu. cbn [taken log from_host] in Hu |- *.
    rewrite sent_app Hsent app_nil_r relayed_app -app_assoc Hrel -?Hf; auto.
  - intros sp Hsp Hu. simpl in *. specialize (Iprog sp Hsp (Hncan _ Hu)).
    destruct (calls_of (sp_program sp)) as [[more r'] d']. rewrite sent_app Hsent app_nil_r.
    apply elem_of_app. by left.
  - intros x u Hin Hm He Hu. simpl in *.
    destruct (Iends x u ltac:(rewrite Hf; by right) Hm He (Hncan _ Hu)) as (r' & -> & Hb).
    exists r'. split; [done|]. rewrite sent_app Hsent app_nil_r. apply elem_of_app. by left.
Qed.

(** The side conditions of [taken_inv] that a case's own message settles. *)
#[local] Ltac tidy how :=
  try done; try (by repeat constructor); try (by intros x ?%elem_of_nil);
  try (by rewrite how /after_one /= ?decide_True); try (intros; congruence).

(** Of the next message: it is in turn, and taking it keeps the invariant. *)
Lemma core_take_inv s m rest :
  sys_inv s -> from_host s = m :: rest -> exists s', core_take m s rest = Some s' /\ sys_inv s'.
Proof.
  intros HI Hf. pose proof HI as [Iok Iord Ionce Iask Ican Ilog Iwait Ifut Irel Iprog Iends].
  rewrite Hf in Iord. simpl in Iord. destruct (after_one m (owed s)) as [l1|] eqn:Ho; simpl in Iord; [|done].
  assert (forall d r evs, {| host := host s; to_host := to_host s; from_host := rest; drain := d; request := r;
    log := log s ++ evs |} = taken s rest d r evs) as Htk by done.
  assert (log s = log s ++ []) as Hl by by rewrite app_nil_r.
  unfold core_take. destruct (drain s) as [|d ds] eqn:Hd.
  - assert (drains m [] = None) as -> by (unfold drains; by destruct (message_utterance m)).
    assert (owed s = match request s with Idle => [] | Asking u => [IU u] | SettingIt => [IS] end) as How
      by (unfold owed; by rewrite Hd).
    rewrite How in Ho. destruct (request s) as [|u|] eqn:Hr.
    + unfold after_one in Ho. by destruct (message_utterance m).
    + assert (message_utterance m = Some u) as Hm.
      { unfold after_one in Ho. destruct (message_utterance m); [|done]. case_decide; [|done]. by subst. }
      unfold handle_message. rewrite decide_True //. rewrite -How in Ho.
      unfold after_one in Ho. rewrite Hm How decide_True // in Ho.
      destruct m as [| |v t|v fm pcm|v mk|v|v r|]; simplify_eq/=.
      * rewrite Hl Htk. eexists. split; [reflexivity|].
        apply (taken_inv s (FirstAudio u t) rest [] (Asking u) [] [IU u] HI Hf); tidy How.
      * rewrite Htk. eexists. split; [reflexivity|].
        apply (taken_inv s (HostPcm u fm pcm) rest [] (Asking u) [EvRelayed u (CallPush fm pcm)] [IU u] HI Hf); tidy How.
        intros v _. unfold relayed, in_pipe. csimpl. by case_decide.
      * rewrite Htk. eexists. split; [reflexivity|].
        apply (taken_inv s (HostMark u mk) rest [] (Asking u) [EvRelayed u (CallMark mk)] [IU u] HI Hf); tidy How.
        intros v _. unfold relayed, in_pipe. csimpl. by case_decide.
      * rewrite Htk. eexists. split; [reflexivity|].
        apply (taken_inv s (HostDone u) rest [] Idle [EvEnded u None] [] HI Hf); tidy How.
      * rewrite Htk. eexists. split; [reflexivity|].
        apply (taken_inv s (HostFailed u r) rest [] Idle [EvEnded u (Some (Synthesis r))] [] HI Hf); tidy How.
    + unfold after_one in Ho. destruct (message_utterance m) eqn:Hm; [done|]. destruct m; simplify_eq/=.
      rewrite Hl Htk. exists (taken s rest [] Idle []). split; [by destruct refusal|].
      apply (taken_inv s (SettingApplied refusal) rest [] Idle [] [] HI Hf); tidy How.
  - assert (owed s = IU d :: (IU <$> ds) ++ match request s with Idle => [] | Asking u => [IU u] | SettingIt => [IS] end) as How
      by (unfold owed; by rewrite Hd).
    assert (message_utterance m = Some d) as Hm.
    { rewrite How in Ho. unfold after_one in Ho. destruct (message_utterance m); [|done]. case_decide; [|done]. by subst. }
    assert (drains m (d :: ds) = Some 0%nat) as ->.
    { unfold drains. rewrite Hm. simpl. by rewrite decide_True. }
    rewrite Hl Htk. eexists. split; [reflexivity|].
    apply (taken_inv s m rest (drain_one m 0 (d :: ds)) (request s) [] l1 HI Hf); try done.
    + rewrite How in Ho. unfold after_one in Ho. rewrite Hm decide_True // in Ho. injection Ho as <-.
      unfold owed, drain_one. simpl. by destruct (ends_utterance m).
    + intros u Hu. unfold in_pipe. csimpl. destruct (message_call m) as [[v c]|] eqn:Hc; [|done].
      assert (v = d) as -> by (destruct m; simplify_eq/=; done).
      rewrite decide_False //. intros ->. apply Hu, Ican. right. right. by left.
    + intros u Hu. rewrite Hd. unfold drain_one in Hu. destruct (ends_utterance m); [|done]. by right.
Qed.

(** ** The host's steps *)

Definition sent_events (calls : list (UtteranceId * TrimCall)) : list Event := (fun p => EvSent p.1 p.2) <$> calls.

Lemma in_pipe_sent u ms : in_pipe u ms = sent u (sent_events (omap message_call ms)).
Proof.
  unfold in_pipe, sent, sent_events. induction ms as [|m ms IH]; [done|]. csimpl.
  destruct (message_call m) as [[v c]|]; csimpl; [|done]. case_decide; by rewrite IH.
Qed.

Lemma sent_own u calls : Forall (fun p => p.1 = u) calls -> sent u (sent_events calls) = calls.*2.
Proof.
  unfold sent, sent_events. induction 1 as [|[v c] calls Hv _ IH]; [done|]. csimpl in *. subst v.
  by rewrite decide_True // IH.
Qed.
Lemma sent_other u v calls : Forall (fun p => p.1 = u) calls -> v <> u -> sent v (sent_events calls) = [].
Proof.
  intros Hf Hv. unfold sent, sent_events. induction Hf as [|[w c] calls Hw _ IH]; [done|]. csimpl in *. subst w.
  rewrite decide_False //.
Qed.
Lemma relayed_sent u calls : relayed u (sent_events calls) = [].
Proof. unfold relayed, sent_events. by induction calls. Qed.

(** What a turn of the host leaves of a system. *)
Definition served (s : System) (rest : list ToHost) (h : HostState D) (out : list FromHost) (evs : list Event) : System :=
  {| host := h; to_host := rest; from_host := from_host s ++ out; drain := drain s; request := request s;
     log := log s ++ evs |}.

(** Notes of a turn: an utterance begun, and what is sent of one. *)
Definition turn_note (e : Event) : Prop := match e with EvBegan _ _ _ | EvSent _ _ => True | _ => False end.

Lemma turn_order s f rest h out evs :
  sys_inv s -> to_host s = reads f (host s) ++ rest -> turns f (host s) h out ->
  let s' := served s rest h out evs in
  after (from_host s') (owed s') = Some (host_items s') /\
  (forall x, x ∈ host_items s' -> x ∈ host_items s) /\
  (forall m u, m ∈ from_host s' -> message_utterance m = Some u -> ends_utterance m = true -> IU u ∉ host_items s').
Proof.
  intros HI Hto Ht s'. pose proof (iv_order _ HI) as Iord.
  assert (after out (host_items s) = Some (host_items s')) as Ho.
  { unfold host_items. rewrite Hto omap_app. pose proof (tn_items _ _ _ _ Ht) as Hi.
    apply (after_more _ _ _ (omap pipe_item rest)) in Hi. simpl. by rewrite -!app_assoc in Hi. }
  assert (after (from_host s') (owed s') = Some (host_items s')) as Ha.
  { unfold s', served, owed in *. simpl in *. by rewrite after_app Iord. }
  split_and!; [done| |].
  - intros x Hx. destruct (after_suffix _ _ _ Ho) as [pre ->]. apply elem_of_app. by right.
  - intros m u Hin Hm He. eapply after_ended; [exact Ha|apply HI|done..].
Qed.

Lemma served_inv s f rest h out evs :
  sys_inv s -> alive f -> to_host s = reads f (host s) ++ rest -> turns f (host s) h out ->
  Forall turn_note evs ->
  (forall u, in_pipe u out = sent u evs) ->
  (forall u, sent u evs <> [] -> IU u ∈ now_items (host s)) ->
  (forall u, IU u ∈ now_items (host s) -> IU u ∉ future (served s rest h out evs)) ->
  let s' := served s rest h out evs in
  (forall sp, speaks h = Some sp -> EvCancelled (sp_utterance sp) ∉ log s ->
    let '(more, r, _) := calls_of (sp_program sp) in
    EvBegan (sp_utterance sp) (sent (sp_utterance sp) (log s') ++ more) r ∈ log s') ->
  (forall m u, m ∈ out -> message_utterance m = Some u -> ends_utterance m = true -> EvCancelled u ∉ log s ->
    exists r, m = end_of u r /\ EvBegan u (sent u (log s')) r ∈ log s') ->
  sys_inv s'.
Proof.
  intros HI Hal Hto Ht Hev Hpipe Hnow Hfut s' Hprog Hends.
  destruct (turn_order s f rest h out evs HI Hto Ht) as (Hord & Hsub & Hend).
  fold s' in Hord, Hsub, Hend, Hfut.
  pose proof HI as [Iok Iord Ionce Iask Ican Ilog Iwait Ifut Irel Iprog Iends].
  rewrite Forall_forall in Hev.
  assert (forall u, EvCancelled u ∈ log s' -> EvCancelled u ∈ log s) as Hcan.
  { intros u [?|Hin]%elem_of_app; [done|by apply Hev in Hin]. }
  assert (forall u, EvCancelled u ∉ log s' -> EvCancelled u ∉ log s) as Hncan.
  { intros u Hn Hin. apply Hn. apply elem_of_app. by left. }
  assert (forall e, e ∈ log s -> e ∈ log s') as Hkeep by (intros e He; apply elem_of_app; by left).
  assert (forall u, relayed u evs = []) as Hrel.
  { intros u. clear -Hev. induction evs as [|e evs IH]; [done|]. unfold relayed in *. csimpl.
    rewrite IH; [|intros x Hx; apply Hev; by right]. pose proof (Hev e ltac:(by left)) as He. by destruct e. }
  split; try done.
  - by apply (tn_ok _ _ _ _ Ht).
  - intros u Hu. apply asked_more. by apply Iask.
  - intros u Hu. apply Hkeep, Ican. destruct Hu as [Hk|[Hin|Hin]]; [| |by right; right].
    + destruct (tn_knows _ _ _ _ Ht (ToldCancel u) Hk) as [?|Hin]; [by left|right; left].
      rewrite Hto. apply elem_of_app. by left.
    + right. left. rewrite Hto. apply elem_of_app. by right.
  - intros u Hu. apply asked_more. destruct Hu as [Hu|Hu]; [by apply Ilog; left; apply Hcan|].
    unfold s', served in Hu. simpl in Hu. rewrite sent_app in Hu.
    destruct (decide (sent u (log s) = [])) as [He|He]; [|by apply Ilog; right].
    rewrite He in Hu. apply (host_items_asked s u HI). unfold host_items. apply elem_of_app. left. by apply Hnow.
  - intros u Hu Hin. apply (Iwait u Hu). by apply Hcan.
  - intros u Hu. unfold s', served. simpl. rewrite sent_app.
    assert (IU u ∉ now_items (host s)) as Hnn by (intros Hn; by apply (Hfut u Hn)).
    assert (sent u evs = []) as ->.
    { destruct (decide (sent u evs = [])) as [?|Hne]; [done|]. destruct Hnn. by apply Hnow. }
    rewrite app_nil_r. apply Ifut. specialize (Hsub (IU u)).
    assert (IU u ∈ host_items s') as Hin by (unfold host_items; apply elem_of_app; by right).
    apply Hsub in Hin. unfold host_items in Hin. by apply elem_of_app in Hin as [?|?].
  - intros u Hu. unfold s', served. cbn [log from_host].
    rewrite relayed_app Hrel app_nil_r in_pipe_app Hpipe sent_app app_assoc Irel //. by apply Hncan.
  - intros sp Hsp Hu. apply Hprog; [done|by apply Hncan].
  - intros m u Hin Hm He Hu. apply elem_of_app in Hin as [Hin|Hin]; [|by apply Hends; [..|apply Hncan]].
    destruct (Iends m u Hin Hm He (Hncan _ Hu)) as (r & -> & Hb). exists r. split; [done|].
    assert (sent u evs = []) as Hs.
    { destruct (decide (sent u evs = [])) as [?|Hne]; [done|]. exfalso.
      apply (after_ended _ _ _ _ _ Iord Ionce Hin Hm He).
      unfold host_items. apply elem_of_app. left. by apply Hnow. }
    unfold s', served. simpl. rewrite sent_app Hs app_nil_r. by apply Hkeep.
Qed.

Lemma host_step_inv s f rest h out woken :
  sys_inv s -> alive f -> to_host s = reads f (host s) ++ rest -> host_turn f (host s) = (h, out, woken) ->
  sys_inv (served s rest h out (host_events (host s) h out)).
Proof.
  intros HI Hal Hto Hturn. pose proof (iv_ok _ HI) as Hok. pose proof Hok as (Hx & _).
  unfold host_turn in Hturn. rewrite Hx in Hturn.
  assert (forall u, EvCancelled u ∉ log s -> ~ knows (commands (host s)) u /\ HCancel u ∉ reads f (host s)) as Hfree.
  { intros u Hu. split; intros Hk; apply Hu, (iv_cancelled _ HI); [by left|right; left].
    rewrite Hto. apply elem_of_app. by left. }
  destruct (speaks (host s)) as [sp|] eqn:Hs.
  - pose proof (speaking_turns f sp (host s) Hal Hok Hs) as Hsp. rewrite Hturn in Hsp.
    destruct Hsp as [Ht (Hown & Hstate & Hcalls)]. set (u := sp_utterance sp) in *.
    assert (host_events (host s) h out = sent_events (omap message_call out)) as ->.
    { unfold host_events. by rewrite Hs. }
    assert (forall v, IU v ∈ now_items (host s) <-> v = u) as Hnow.
    { intros v. unfold now_items. rewrite Hs list_elem_of_singleton. split; [by intros [= ->]|by intros ->]. }
    apply (served_inv s f); try done.
    + apply Forall_forall. intros e He. apply list_elem_of_fmap in He as (p & -> & _). done.
    + intros v. apply in_pipe_sent.
    + intros v Hv. apply Hnow. destruct (decide (v = u)) as [?|Hne]; [done|].
      destruct Hv. by apply (sent_other u).
    + intros v ->%Hnow Hin.
      destruct (turn_order s f rest h out (sent_events (omap message_call out)) HI Hto Ht) as (Hord & _ & Hend).
      assert (IU u ∈ host_items (served s rest h out (sent_events (omap message_call out)))) as Hhi.
      { unfold host_items. apply elem_of_app. by right. }
      destruct (speaks h) as [sp'|] eqn:Hs'.
      * destruct Hstate as [Hu' _].
        pose proof (iv_once _ HI) as Hnd. change (owed s) with (owed (served s rest h out (sent_events (omap message_call out)))) in Hnd.
        destruct (after_suffix _ _ _ Hord) as [pre Heq]. rewrite Heq omap_app in Hnd.
        apply NoDup_app in Hnd as (_ & _ & Hnd). unfold host_items, now_items in Hnd. simpl in Hnd.
        rewrite Hs' in Hnd. csimpl in Hnd. apply NoDup_cons in Hnd as [Hnd _]. apply Hnd.
        rewrite Hu'. apply list_elem_of_omap. by exists (IU u).
      * destruct Hstate as [r ->]. apply (Hend (end_of u r) u); [|by destruct r..|done].
        simpl. apply elem_of_app. right. by left.
    + intros sp' Hs' Hu. rewrite Hs' in Hstate, Hcalls. destruct Hstate as [Hu' _]. rewrite Hu' in Hu |- *.
      destruct (Hfree u Hu) as [Hk Hr]. specialize (Hcalls Hk Hr).
      pose proof (iv_program _ HI sp Hs Hu) as Hp.
      destruct (calls_of (sp_program sp)) as [[calls r] d], (calls_of (sp_program sp')) as [[more r'] d'].
      destruct Hcalls as [-> <-]. simpl. rewrite sent_app (sent_own u) // -app_assoc.
      apply elem_of_app. by left.
    + intros m v Hin Hm He Hv. destruct (speaks h) as [sp'|] eqn:Hs'.
      * destruct Hstate as [_ Hno]. rewrite Forall_forall in Hno. by rewrite Hno in He.
      * destruct Hstate as [r0 ->]. apply list_elem_of_singleton in Hin as ->.
        assert (v = u) as -> by (destruct r0; simpl in Hm; congruence).
        destruct (Hfree u Hv) as [Hk Hr]. specialize (Hcalls Hk Hr).
        pose proof (iv_program _ HI sp Hs Hv) as Hp.
        destruct (calls_of (sp_program sp)) as [[calls r] d]. destruct Hcalls as [-> Heq].
        rewrite app_nil_r in Hp. exists r. split; [by injection Heq|].
        assert (omap message_call [end_of u r0] = []) as -> by by destruct r0.
        simpl. change (sent_events []) with (@nil Event). by rewrite app_nil_r.
  - pose proof (idle_turns f (host s) Hal Hok Hs) as Ht. rewrite Hturn in Ht.
    destruct Ht as (Ht & Hcalls & Hbegins & Hends).
    assert (now_items (host s) = []) as Hnow by (unfold now_items; by rewrite Hs).
    set (evs := host_events (host s) h out).
    assert (forall u, sent u evs = []) as Hsent.
    { intros u. unfold evs, host_events. rewrite Hs Hcalls. destruct (speaks h) as [sp|]; [|done].
      by destruct (calls_of (sp_program sp)) as [[calls r] d]. }
    apply (served_inv s f); try done.
    + unfold evs, host_events. rewrite Hs Hcalls. destruct (speaks h) as [sp|]; [|constructor].
      destruct (calls_of (sp_program sp)) as [[calls r] d]. by repeat constructor.
    + intros u. rewrite Hsent in_pipe_sent Hcalls. done.
    + intros u Hu. by rewrite Hsent in Hu.
    + intros u Hu. rewrite Hnow in Hu. by apply elem_of_nil in Hu.
    + intros sp Hsp _. simpl. rewrite sent_app Hsent app_nil_r.
      unfold evs, host_events. rewrite Hs Hsp in Hbegins |- *.
      destruct Hbegins as (sequence & received & w & Hw & Hu & _).
      rewrite (iv_future _ HI).
      2:{ unfold future. apply elem_of_app. left. rewrite Hw. csimpl. rewrite -Hu. by left. }
      destruct (calls_of (sp_program sp)) as [[calls r] d]. apply elem_of_app. right. by left.
    + intros m u Hin Hm He Hu. destruct (Hfree u Hu) as [Hk _]. destruct Hk. left. by eapply Hends.
Qed.

(** ** Core asking *)

(** Core having asked for something more. *)
Definition asking (s : System) (m : ToHost) (d : list UtteranceId) (r : Request) (evs : list Event) : System :=
  {| host := host s; to_host := to_host s ++ [m]; from_host := from_host s; drain := d; request := r;
     log := log s ++ evs |}.

Lemma asking_inv s m d r e more :
  sys_inv s ->
  match e with Some (EvAsked _) | Some (EvCancelled _) | None => True | _ => False end ->
  let s' := asking s m d r (option_list e) in
  owed s' = owed s ++ more -> omap pipe_item [m] = more ->
  NoDup (omap item_u (owed s')) ->
  (forall u, IU u ∈ more -> asked u (log s') /\ sent u (log s) = []) ->
  (forall u, m = HCancel u \/ u ∈ d -> EvCancelled u ∈ log s') ->
  (forall u, EvCancelled u ∈ log s' -> EvCancelled u ∈ log s \/ asked u (log s)) ->
  (forall u, r = Asking u -> EvCancelled u ∉ log s') ->
  sys_inv s'.
Proof.
  intros [Iok Iord Ionce Iask Ican Ilog Iwait Ifut Irel Iprog Iends] He s' Howed Hm Hnd Hmore Hcan Hlog Hwait.
  assert (forall u, sent u (log s') = sent u (log s)) as Hsent.
  { intros u. unfold s', asking. cbn [log]. rewrite sent_app. destruct e as [[]|]; simpl; try done; by rewrite app_nil_r. }
  assert (forall u, relayed u (log s') = relayed u (log s)) as Hrel.
  { intros u. unfold s', asking. cbn [log]. rewrite relayed_app. destruct e as [[]|]; simpl; try done; by rewrite app_nil_r. }
  assert (forall u, EvCancelled u ∉ log s' -> EvCancelled u ∉ log s) as Hncan.
  { intros u Hn Hin. apply Hn. apply elem_of_app. by left. }
  split.
  - done.
  - rewrite Howed. apply (after_more _ _ _ more) in Iord. unfold host_items, s', asking in *. cbn [from_host host to_host].
    rewrite Iord omap_app Hm. by rewrite !app_assoc.
  - done.
  - intros u Hu. rewrite Howed in Hu. apply elem_of_app in Hu as [Hu|Hu]; [by apply asked_more, Iask|by apply Hmore].
  - intros u [Hk|[Hin|Hin]].
    + apply elem_of_app. left. apply Ican. by left.
    + apply elem_of_app in Hin as [Hin|Hin%list_elem_of_singleton]; [|apply Hcan; by left].
      apply elem_of_app. left. apply Ican. by right; left.
    + apply Hcan. by right.
  - intros u [Hu|Hu].
    + destruct (Hlog u Hu) as [?|?]; apply asked_more; [apply Ilog; by left|done].
    + rewrite Hsent in Hu. apply asked_more, Ilog. by right.
  - done.
  - intros u Hu. rewrite Hsent. unfold future, s', asking in Hu. cbn [host to_host] in Hu.
    rewrite omap_app Hm app_assoc in Hu. apply elem_of_app in Hu as [Hu|Hu]; [by apply Ifut|by apply Hmore].
  - intros u Hu. rewrite Hrel Hsent. apply Irel. by apply Hncan.
  - intros sp Hsp Hu. specialize (Iprog sp Hsp (Hncan _ Hu)). rewrite Hsent.
    destruct (calls_of (sp_program sp)) as [[calls r'] d']. apply elem_of_app. by left.
  - intros x u Hin Hx Hend Hu. destruct (Iends x u Hin Hx Hend (Hncan _ Hu)) as (r' & -> & Hb).
    exists r'. split; [done|]. rewrite Hsent. apply elem_of_app. by left.
Qed.

Lemma system_step_inv s s' : sys_inv s -> system_step s s' -> sys_inv s'.
Proof.
  intros HI Hstep. destruct Hstep as [s sequence Hr Hna|s id value Hr|s u Hr|s m rest s' Hf Ht|s f rest h out woken Hal Hto Ht].
  - assert (owed s = IU <$> drain s) as How by (unfold owed; by rewrite Hr app_nil_r).
    apply (asking_inv s (HSpeak sequence) (drain s) (Asking (seq_utterance sequence)) (Some (EvAsked sequence))
      [IU (seq_utterance sequence)] HI); simpl; try done.
    + unfold owed at 1. simpl. by rewrite How.
    + unfold owed. simpl. rewrite omap_app NoDup_app. pose proof (iv_once _ HI) as Hnd. rewrite How in Hnd.
      split_and!; [done| |apply NoDup_singleton]. intros v Hv ->%list_elem_of_singleton.
      apply Hna, (iv_asked _ HI). rewrite How. apply list_elem_of_omap in Hv as ([w|] & Hw & Heq); simplify_eq/=. done.
    + intros v [= ->]%list_elem_of_singleton. split.
      * exists sequence. split; [|done]. apply elem_of_app. right. by left.
      * destruct (decide (sent (seq_utterance sequence) (log s) = [])) as [?|Hne]; [done|].
        destruct Hna. apply (iv_log _ HI). by right.
    + intros v [?|Hin]; [done|]. apply elem_of_app. left. apply (iv_cancelled _ HI). by right; right.
    + intros v [?|[=]%list_elem_of_singleton]%elem_of_app. by left.
    + intros v [= <-] [Hin|[=]%list_elem_of_singleton]%elem_of_app. apply Hna, (iv_log _ HI). by left.
  - assert (owed s = IU <$> drain s) as How by (unfold owed; by rewrite Hr app_nil_r).
    pose proof (asking_inv s (HSetSetting id value) (drain s) SettingIt None [IS] HI) as Ha. unfold asking in Ha.
    simpl in Ha. rewrite app_nil_r in Ha. apply Ha; try done.
    + unfold owed at 1. simpl. by rewrite How.
    + unfold owed. simpl. rewrite omap_app app_nil_r. pose proof (iv_once _ HI) as Hnd. by rewrite How in Hnd.
    + by intros v [=]%list_elem_of_singleton.
    + intros v [?|Hin]; [done|]. apply (iv_cancelled _ HI). by right; right.
    + intros v Hv. by left.
  - assert (owed s = (IU <$> drain s) ++ [IU u]) as How by (unfold owed; by rewrite Hr).
    assert (asked u (log s)) as Hu by (apply (iv_asked _ HI); rewrite How; apply elem_of_app; right; by left).
    assert (EvCancelled u ∈ log s ++ [EvCancelled u]) as Hin by (apply elem_of_app; right; by left).
    apply (asking_inv s (HCancel u) (drain s ++ [u]) Idle (Some (EvCancelled u)) [] HI); simpl; try done.
    + unfold owed at 1. simpl. by rewrite How fmap_app !app_nil_r.
    + unfold owed. simpl. rewrite fmap_app app_nil_r. pose proof (iv_once _ HI) as Hnd. by rewrite How in Hnd.
    + by intros v ?%elem_of_nil.
    + intros v [[= ->]|[Hv|Hv%list_elem_of_singleton]%elem_of_app]; [done| |by subst v].
      apply elem_of_app. left. apply (iv_cancelled _ HI). by right; right.
    + intros v [Hv|Hv%list_elem_of_singleton]%elem_of_app; [by left|]. right. by injection Hv as ->.
  - by destruct (core_take_inv s m rest HI Hf) as (s2 & Hs2 & HI2); simplify_eq.
  - by apply (host_step_inv s f rest h out woken).
Qed.

Lemma started_sys_inv d : sys_inv (started d).
Proof.
  split; simpl; try done; try (by intros ? ?%elem_of_nil).
  - constructor.
  - intros u [[Hin|[? _]]|[Hin|Hin]]; try done; by apply elem_of_nil in Hin.
  - intros u [Hin|?]; [by apply elem_of_nil in Hin|done].
  - by intros m u ?%elem_of_nil.
Qed.

Lemma reachable_inv d s : reachable d s -> sys_inv s.
Proof. induction 1 as [|s s' _ IH Hs]; [apply started_sys_inv|by eapply system_step_inv]. Qed.

(** What a turn of the host is to Core: whichever it is, what it was told and
    what it begins. *)
Lemma host_turn_told s f rest h out woken :
  sys_inv s -> alive f -> to_host s = reads f (host s) ++ rest -> host_turn f (host s) = (h, out, woken) ->
  (forall t, told (commands h) t -> told (commands (host s)) t \/ tells (to_host s) t) /\
  (forall u calls r, EvBegan u calls r ∈ host_events (host s) h out ->
     exists sequence d, told (commands (host s)) (ToldSpeak sequence) /\ seq_utterance sequence = u /\
       (calls_of (speak sequence d)).1 = (calls, r)).
Proof.
  intros HI Hal Hto Hturn. pose proof (iv_ok _ HI) as Hok. pose proof Hok as (Hx & _).
  unfold host_turn in Hturn. rewrite Hx in Hturn.
  assert (forall t, tells (reads f (host s)) t -> tells (to_host s) t) as Hpre.
  { intros t Ht. rewrite Hto tells_app. by left. }
  destruct (speaks (host s)) as [sp|] eqn:Hs.
  - pose proof (speaking_turns f sp (host s) Hal Hok Hs) as Ht. rewrite Hturn in Ht. destruct Ht as [Ht _].
    split.
    + intros t Hk. destruct (tn_knows _ _ _ _ Ht t Hk); auto.
    + intros u calls r Hin. unfold host_events in Hin. rewrite Hs in Hin.
      by apply list_elem_of_fmap in Hin as (p & ? & _).
  - pose proof (idle_turns f (host s) Hal Hok Hs) as Ht. rewrite Hturn in Ht. destruct Ht as (Ht & Hc & Hb & _).
    split.
    + intros t Hk. destruct (tn_knows _ _ _ _ Ht t Hk); auto.
    + intros u calls r Hin. unfold host_events in Hin. rewrite Hs Hc in Hin.
      destruct (speaks h) as [sp|]; [|by apply elem_of_nil in Hin].
      destruct Hb as (sequence & received & w & Hw & Hu & Hp).
      destruct (calls_of (sp_program sp)) as [[calls' r'] d'] eqn:Hca.
      apply list_elem_of_singleton in Hin as [= -> -> ->].
      exists sequence, (host_driver (host s)). split_and!; [|done|by rewrite -Hp Hca].
      exists received. rewrite Hw. by left.
Qed.

(** What the host is told to speak was asked for, and what it begins is a
    driver's speaking of what was asked. *)
Lemma spoken_was_asked d s : reachable d s ->
  (forall sequence, told (commands (host s)) (ToldSpeak sequence) \/ tells (to_host s) (ToldSpeak sequence) ->
     EvAsked sequence ∈ log s) /\
  (forall u calls r, EvBegan u calls r ∈ log s ->
     exists sequence d', EvAsked sequence ∈ log s /\ seq_utterance sequence = u /\
       (calls_of (speak sequence d')).1 = (calls, r)).
Proof.
  induction 1 as [|s s' Hr [IH1 IH2] Hstep].
  { split; simpl; [intros q [[r Hin]|Hin]; by apply elem_of_nil in Hin|by intros u c r ?%elem_of_nil]. }
  pose proof (reachable_inv _ _ Hr) as HI.
  assert (forall m e evs, (forall q, m = HSpeak q -> e = Some (EvAsked q)) -> evs = option_list e ->
    (forall u c r, e <> Some (EvBegan u c r)) ->
    (forall q, told (commands (host s)) (ToldSpeak q) \/ tells (to_host s ++ [m]) (ToldSpeak q) ->
       EvAsked q ∈ log s ++ evs) /\
    (forall u calls r, EvBegan u calls r ∈ log s ++ evs ->
       exists q d', EvAsked q ∈ log s ++ evs /\ seq_utterance q = u /\ (calls_of (speak q d')).1 = (calls, r))) as Hask.
  { intros m e evs Hm -> He. split.
    - intros q Hq. rewrite tells_app in Hq. rewrite elem_of_app.
      destruct Hq as [Hq|[Hq|Hq%list_elem_of_singleton]]; [left; apply IH1; by left|left; apply IH1; by right|].
      right. rewrite (Hm q); [by left|done].
    - intros u calls r [Hin|Hin]%elem_of_app.
      + destruct (IH2 u calls r Hin) as (q & d' & ? & ?). exists q, d'. by rewrite elem_of_app; split; [left|].
      + destruct e as [e|]; [|by apply elem_of_nil in Hin]. apply list_elem_of_singleton in Hin as <-.
        by destruct (He u calls r). }
  destruct Hstep as [s sequence Hq Hna|s id value Hq|s u Hq|s m rest s' Hf Ht|s f rest h out woken Hal Hto Ht].
  - apply (Hask (HSpeak sequence) (Some (EvAsked sequence))); [by intros q [= ->]|done|done].
  - pose proof (Hask (HSetSetting id value) None [] ltac:(done) eq_refl ltac:(done)) as Ha.
    by rewrite app_nil_r in Ha.
  - by apply (Hask (HCancel u) (Some (EvCancelled u))).
  - assert (exists dr rq evs, s' = taken s rest dr rq evs /\
      Forall (fun e => match e with EvRelayed _ _ | EvEnded _ _ => True | _ => False end) evs) as (dr & rq & evs & -> & Hev).
    { assert (forall dr rq, {| host := host s; to_host := to_host s; from_host := rest; drain := dr; request := rq;
        log := log s |} = taken s rest dr rq []) as Hl by (intros; unfold taken; by rewrite app_nil_r).
      unfold core_take in Ht. destruct (drains m (drain s)) as [i|].
      { injection Ht as <-. rewrite Hl. do 3 eexists. split; [reflexivity|constructor]. }
      destruct (request s) as [|u|]; [done| |].
      - destruct (handle_message u m); try done; injection Ht as <-; rewrite ?Hl;
          do 3 eexists; (split; [reflexivity|by repeat constructor]).
      - destruct (handle_answer m); try done; injection Ht as <-; rewrite Hl;
          do 3 eexists; (split; [reflexivity|by repeat constructor]). }
    simpl. split.
    + intros q Hw. apply elem_of_app. left. by apply IH1.
    + intros u calls r [Hin|Hin]%elem_of_app.
      * destruct (IH2 u calls r Hin) as (q & d' & ? & ?). exists q, d'. by rewrite elem_of_app; split; [left|].
      * rewrite Forall_forall in Hev. by apply Hev in Hin.
  - destruct (host_turn_told s f rest h out woken HI Hal Hto Ht) as [Htold Hbegan]. simpl. split.
    + intros q Hw. apply elem_of_app. left. apply IH1. destruct Hw as [Hw|Hw]; [by apply Htold|].
      right. rewrite Hto tells_app. by right.
    + intros u calls r [Hin|Hin]%elem_of_app.
      * destruct (IH2 u calls r Hin) as (q & d' & ? & ?). exists q, d'. by rewrite elem_of_app; split; [left|].
      * destruct (Hbegan u calls r Hin) as (q & d' & Hq & ? & ?). exists q, d'.
        split; [|done]. apply elem_of_app. left. apply IH1. by left.
Qed.

(** ** The guarantees *)

(** C18: no message reaches Core out of turn: whatever Core asks, cancels and
    takes and whatever the host reads and serves, in any order, the next message
    on the pipe is of an utterance draining or answers what Core waits for; and
    when Core waits for nothing and nothing drains, the pipe is empty and the host
    has nothing left to do. So a host that lives is never judged to have
    misbehaved, however its endings cross Core's cancels. *)
Theorem never_out_of_turn d s (Hreach : reachable d s) :
  (forall m rest, from_host s = m :: rest -> exists s', core_take m s rest = Some s') /\
  (request s = Idle -> drain s = [] -> from_host s = [] /\ host_items s = []).
Proof.
  pose proof (reachable_inv _ _ Hreach) as HI. split.
  - intros m rest Hf. destruct (core_take_inv s m rest HI Hf) as (s' & Hs' & _). eauto.
  - intros Hr Hd. pose proof (iv_order _ HI) as Ho. unfold owed in Ho. rewrite Hr Hd in Ho. simpl in Ho.
    destruct (from_host s) as [|m rest]; simpl in Ho; [by injection Ho as <-|].
    unfold after_one in Ho. by destruct (message_utterance m).
Qed.

(** C24: a cancel stops its own utterance alone: the host tells its driver to
    stop the utterance it speaks, and passes over one that waits, only when Core
    cancelled that utterance, though the cancel may cross the utterance's own
    ending; and Core drops the messages of no other. *)
Theorem cancel_stops_only_its_own d s (Hreach : reachable d s) :
  (forall sp, speaks (host s) = Some sp -> cancelled (commands (host s)) = true ->
     EvCancelled (sp_utterance sp) ∈ log s) /\
  (forall u, CmdSkip u ∈ waiting (commands (host s)) -> EvCancelled u ∈ log s) /\
  (forall u, u ∈ drain s -> EvCancelled u ∈ log s) /\
  (forall u, request s = Asking u -> EvCancelled u ∉ log s).
Proof.
  pose proof (reachable_inv _ _ Hreach) as HI. split_and!.
  - intros sp Hs Hc. apply (iv_cancelled _ HI). left. right. split; [|done].
    destruct (iv_ok _ HI) as (_ & _ & _ & ->). by rewrite Hs.
  - intros u Hu. apply (iv_cancelled _ HI). left. by left.
  - intros u Hu. apply (iv_cancelled _ HI). by right; right.
  - apply HI.
Qed.

(** C19: a host is transparent: when an utterance ends that Core asked for and
    did not cancel, what Core relayed of it to its sink is exactly the audio and
    marks of a driver, in the host, speaking the sequence asked for and never
    told to stop, and the outcome is that driver's own. *)
Theorem hosting_is_transparent d s m rest u outcome (Hreach : reachable d s)
    (Hnext : from_host s = m :: rest) (Hwaits : request s = Asking u) (Hkept : drains m (drain s) = None)
    (Hends : handle_message u m = EndsSpeak outcome) :
  exists sequence d', EvAsked sequence ∈ log s /\ seq_utterance sequence = u /\
    let '(calls, result, _) := calls_of (speak sequence d') in
    relayed u (log s) = calls /\ outcome = (fun e => Synthesis (show_error e)) <$> result.
Proof.
  pose proof (reachable_inv _ _ Hreach) as HI. destruct (spoken_was_asked _ _ Hreach) as [_ Hbegan].
  assert (message_utterance m = Some u /\ ends_utterance m = true /\ message_call m = None /\
    forall r, m = end_of u r -> outcome = (fun e => Synthesis (show_error e)) <$> r) as (Hm & He & Hc & Hout).
  { unfold handle_message in Hends. case_decide as Hm; [|done].
    destruct m as [| | | | |v|v why|]; simplify_eq/=; (split_and!; [done..|]); intros [e|]; simpl; by intros [=]; simplify_eq. }
  pose proof (iv_waits _ HI u Hwaits) as Hnc.
  destruct (iv_ends _ HI m u) as (r & Hmr & Hb); [rewrite Hnext; by left|done..|].
  destruct (Hbegan u _ r Hb) as (sequence & d' & Hask & Hu & Hcalls).
  exists sequence, d'. split_and!; [done..|].
  destruct (calls_of (speak sequence d')) as [[calls r'] d2]. simpl in Hcalls. injection Hcalls as -> ->.
  split; [|by apply Hout]. rewrite -(iv_relay _ HI u Hnc).
  assert (in_pipe u (from_host s) = []) as ->; [|by rewrite app_nil_r].
  pose proof (iv_order _ HI) as Ho. pose proof (iv_once _ HI) as Hnd. rewrite Hnext in Ho |- *. simpl in Ho.
  destruct (after_one m (owed s)) as [l1|] eqn:Ho1; simpl in Ho; [|done].
  assert (in_pipe u (m :: rest) = in_pipe u rest) as -> by (unfold in_pipe; csimpl; by rewrite Hc).
  eapply after_absent; [exact Ho|]. eapply (after_ended [m] m u (owed s)); [simpl; by rewrite Ho1|done|by left|done..].
Qed.

(** ** Playing a run *)

(** The moves of a run, a host's turn with how many of the waiting commands it
    finds before it and while it writes. *)
Inductive Move :=
  | DoSpeak (sequence : SpeechSequence)
  | DoSet (id : SettingId) (value : SettingValue)
  | DoCancel
  | DoTake
  | DoHost (first then_ : nat).

#[local] Instance SpeechSequence_eq_dec : EqDecision SpeechSequence.
Proof. solve_decision. Defined.
#[local] Instance ToHost_eq_dec : EqDecision ToHost.
Proof. solve_decision. Defined.

Definition found (ms : list ToHost) (first then_ : nat) : Finds :=
  {| before := {| commands_came := take first ms; end_came := None |};
     during := {| commands_came := take then_ (drop first ms); end_came := None |};
     write_ok := true; clocks := {| now_us := 0; instant_us := 0 |} |}.

Definition asked_before (u : UtteranceId) (l : list Event) : bool :=
  existsb (fun e => match e with EvAsked q => bool_decide (seq_utterance q = u) | _ => false end) l.

Definition move (mv : Move) (s : System) : option System :=
  match mv with
  | DoSpeak sequence =>
      match request s with
      | Idle =>
          if asked_before (seq_utterance sequence) (log s) then None
          else Some {| host := host s; to_host := to_host s ++ [HSpeak sequence]; from_host := from_host s;
                       drain := drain s; request := Asking (seq_utterance sequence);
                       log := log s ++ [EvAsked sequence] |}
      | _ => None
      end
  | DoSet id value =>
      match request s with
      | Idle => Some {| host := host s; to_host := to_host s ++ [HSetSetting id value]; from_host := from_host s;
                        drain := drain s; request := SettingIt; log := log s |}
      | _ => None
      end
  | DoCancel =>
      match request s with
      | Asking u => Some {| host := host s; to_host := to_host s ++ [HCancel u]; from_host := from_host s;
                            drain := drain s ++ [u]; request := Idle; log := log s ++ [EvCancelled u] |}
      | _ => None
      end
  | DoTake => match from_host s with m :: rest => core_take m s rest | [] => None end
  | DoHost first then_ =>
      let f := found (to_host s) first then_ in
      let rest := drop (length (reads f (host s))) (to_host s) in
      if decide (to_host s = reads f (host s) ++ rest) then
        let '(h, out, _) := host_turn f (host s) in
        Some {| host := h; to_host := rest; from_host := from_host s ++ out; drain := drain s;
                request := request s; log := log s ++ host_events (host s) h out |}
      else None
  end.

Fixpoint play (ms : list Move) (s : System) : option System :=
  match ms with [] => Some s | mv :: ms => s ← move mv s; play ms s end.

Lemma move_step mv s s' : move mv s = Some s' -> system_step s s'.
Proof.
  destruct mv as [sequence|id value| | |first then_]; simpl.
  - destruct (request s) eqn:Hr; [|done..]. destruct (asked_before _ _) eqn:Ha; [done|]. intros [= <-].
    apply step_speak; [done|]. intros (q & Hin & Hu). apply not_true_iff_false in Ha. apply Ha.
    apply existsb_exists. exists (EvAsked q). split; [by apply list_elem_of_In|by apply bool_decide_eq_true].
  - destruct (request s) eqn:Hr; [|done..]. intros [= <-]. by apply step_set.
  - destruct (request s) eqn:Hr; [done| |done]. intros [= <-]. by apply step_cancel.
  - destruct (from_host s) as [|m rest] eqn:Hf; [done|]. intros Ht. by apply (step_take s m rest).
  - case_decide as Hd; [|done]. destruct (host_turn _ (host s)) as [[h out] woken] eqn:Ht. intros [= <-].
    by apply (step_host s (found (to_host s) first then_) _ h out woken).
Qed.

Lemma play_reachable d ms : forall s s', reachable d s -> play ms s = Some s' -> reachable d s'.
Proof.
  induction ms as [|mv ms IH]; intros s s' Hr Hp; simpl in Hp; [by injection Hp as <-|].
  destruct (move mv s) as [s1|] eqn:Hm; simpl in Hp; [|done].
  apply (IH s1 s'); [|done]. eapply reach_step; [exact Hr|]. by eapply move_step.
Qed.

End system.

(** ** A run *)

(** An utterance asked for and cancelled at once, a second asked for behind the
    cancel and spoken: the host ends the first as the cancel crosses it. *)
Definition asks (n : N) : SpeechSequence :=
  {| seq_utterance := {| utterance_number := n |}; seq_trace_id := {| trace_number := n |}; seq_language := None;
     items := [ItemText "one"; ItemMark {| index := n |}] |}.
Definition crossing : list Move :=
  [DoSpeak (asks 1); DoHost 1 0; DoHost 0 0; DoHost 0 0; DoHost 0 0; DoHost 0 0; DoCancel; DoHost 0 0;
   DoSpeak (asks 2); DoHost 2 0; DoHost 0 0; DoHost 0 0; DoHost 0 0; DoHost 0 0; DoHost 0 0;
   DoTake; DoTake; DoTake; DoTake; DoTake; DoTake; DoTake].
Definition crossed : System := default (started toy) (play crossing (started toy)).

Lemma crossed_reachable : reachable toy crossed.
Proof. apply (play_reachable toy crossing (started toy) crossed (reach_start toy)). vm_compute. reflexivity. Qed.

Lemma never_out_of_turn_witness :
  from_host crossed = [HostDone {| utterance_number := 2 |}] /\
  exists s', core_take (HostDone {| utterance_number := 2 |}) crossed [] = Some s'.
Proof.
  split; [vm_compute; reflexivity|].
  apply (proj1 (never_out_of_turn toy crossed crossed_reachable)). vm_compute. reflexivity.
Defined.

Lemma cancel_stops_only_its_own_witness :
  request crossed = Asking {| utterance_number := 2 |} /\ EvCancelled {| utterance_number := 1 |} ∈ log crossed /\
  EvCancelled {| utterance_number := 2 |} ∉ log crossed.
Proof.
  split; [vm_compute; reflexivity|]. split; [apply list_elem_of_In; vm_compute; tauto|].
  apply (cancel_stops_only_its_own toy crossed crossed_reachable). vm_compute. reflexivity.
Defined.

Lemma hosting_is_transparent_witness :
  relayed {| utterance_number := 2 |} (log crossed) =
    [CallPush toy_format [1000%Z; 1000%Z]; CallMark {| index := 2 |}] /\
  exists sequence d', EvAsked sequence ∈ log crossed /\ seq_utterance sequence = {| utterance_number := 2 |} /\
    let '(calls, result, _) := calls_of (speak sequence (d' : Toy)) in
    relayed {| utterance_number := 2 |} (log crossed) = calls /\
    None = (fun e => Synthesis (show_error e)) <$> result.
Proof.
  split; [vm_compute; reflexivity|].
  apply (hosting_is_transparent toy crossed (HostDone {| utterance_number := 2 |}) [] {| utterance_number := 2 |} None
           crossed_reachable); vm_compute; reflexivity.
Defined.
