(* ===== verification/Announce.v ===== *)
(** * What Core says of an object

    The announcement of a node and of a change of its states: the functions of
    [src/crates/verbatim-core/src/reduce.rs] from [is_presentable_container] to
    its end, with [window_title]'s words, and the rules for particular
    applications' windows of [applications.rs]. They read nodes and window facts
    and change nothing but the last tree level, which they are given and give
    back. A [str] is its UTF-8 bytes, so a blank one is one whose characters are
    all white space. *)

From S2P Require Import Prelude Text Tree FocusRules TextModel Facts Messages Speech.

(** ** Strings *)

(** Whether a character of one, two or three bytes is [char::is_whitespace]. *)
Definition is_whitespace (character : string) : bool :=
  existsb (String.eqb character) Sequence.WHITESPACE.

(** [s.trim().is_empty()]. *)
Fixpoint is_all_whitespace (s : string) : bool :=
  match s with
  | EmptyString => true
  | String a s1 =>
      if is_whitespace (String a EmptyString) then is_all_whitespace s1
      else match s1 with
      | EmptyString => false
      | String b s2 =>
          if is_whitespace (String a (String b EmptyString)) then is_all_whitespace s2
          else match s2 with
          | EmptyString => false
          | String c s3 =>
              is_whitespace (String a (String b (String c EmptyString))) && is_all_whitespace s3
          end
      end
  end.

(** [has_text]. *)
Definition has_text (text : option string) : bool :=
  match text with Some text => negb (is_all_whitespace text) | None => false end.

(** ** Applications *)

Definition SHELL_STAGING_CLASSES : list string :=
  ["ForegroundStaging"; "LauncherTipWnd"; "ApplicationManager_DesktopShellWindow"].

Definition is_shell_staging_window (window : option WindowFacts) : bool :=
  match window with
  | Some window => existsb (String.eqb (window_class window)) SHELL_STAGING_CLASSES
  | None => false
  end.

Definition FILE_EXPLORER : string := "explorer".

Definition in_explorer (window : option WindowFacts) : bool :=
  match window with
  | Some window => bool_decide (window_application window = FILE_EXPLORER)
  | None => false
  end.

Definition refuses_focus (window : option WindowFacts) (node : NodeSnapshot) : bool :=
  bool_decide (backend node = Uia) && in_explorer window &&
  match class_name (details node), role node with
  | Some class, RoleWindow => String.eqb class "MultitaskingViewFrame"
  | Some class, RolePane => String.eqb class "Windows.UI.Input.InputSite.WindowClass"
  | _, _ => false
  end.

Definition TASK_SWITCHING_LIST : string := "SwitchItemListControl".
Definition TASK_SWITCHING_FRAME : string := "MultitaskingViewFrame".

Definition drops_ancestry (window : option WindowFacts) (node : NodeSnapshot) : bool :=
  bool_decide (backend node = Uia) && bool_decide (role node = RoleListItem) &&
  match window with
  | Some window =>
      bool_decide (window_application window = FILE_EXPLORER) && alt_held window &&
      (bool_decide (window_class window = TASK_SWITCHING_FRAME)
       || bool_decide (parent_automation_id (details node) = Some TASK_SWITCHING_LIST))
  | None => false
  end.

(** ** Nodes with a part left out or replaced *)

Definition with_value (v : option string) (node : NodeSnapshot) : NodeSnapshot :=
  {| id := id node; backend := backend node; role := role node; name := name node; value := v;
     states := states node; details := details node |}.
Definition with_name (n : option string) (node : NodeSnapshot) : NodeSnapshot :=
  {| id := id node; backend := backend node; role := role node; name := n; value := value node;
     states := states node; details := details node |}.
Definition with_states (s : StateSet.t) (node : NodeSnapshot) : NodeSnapshot :=
  {| id := id node; backend := backend node; role := role node; name := name node;
     value := value node; states := s; details := details node |}.
Definition with_details (d : NodeDetails) (node : NodeSnapshot) : NodeSnapshot :=
  {| id := id node; backend := backend node; role := role node; name := name node;
     value := value node; states := states node; details := d |}.

Definition with_description (text : option string) (d : NodeDetails) : NodeDetails :=
  {| description := text; keyboard_shortcut := keyboard_shortcut d;
     position_in_set := position_in_set d; set_size := set_size d; level := level d; rect := rect d;
     top_level_client := top_level_client d; class_name := class_name d; row := row d;
     column := column d; parent_automation_id := parent_automation_id d;
     details_window := details_window d |}.

(** ** States *)

(** [Reason] and [StateReason]. *)
Inductive Reason := ForFocus | ForQuery.
Inductive StateReason := StateFocus | StateQuery | StateChange.

#[export] Instance Reason_eq_dec : EqDecision Reason.
Proof. solve_decision. Defined.
#[export] Instance StateReason_eq_dec : EqDecision StateReason.
Proof. solve_decision. Defined.

Definition state_reason (reason : Reason) : StateReason :=
  match reason with ForFocus => StateFocus | ForQuery => StateQuery end.

Definition STATE_ORDER : list State :=
  [Disabled; Focused; Tree.Selected; Busy; Pressed; Checked; Mixed; ReadOnly; Multiline; Expanded;
   Collapsed; Visited; Linked; HasPopup; Protected; Required; InvalidEntry; Offscreen].

(** [intersect]. *)
Definition intersect (a b : StateSet.t) : StateSet.t :=
  StateSet.from_iter (List.filter (StateSet.contains b) (StateSet.iter a)).

Definition remove_when (condition : bool) (state : State) (set : StateSet.t) : StateSet.t :=
  if condition then StateSet.remove set state else set.
Definition insert_when (condition : bool) (state : State) (set : StateSet.t) : StateSet.t :=
  if condition then StateSet.insert set state else set.

(** [spoken_states]. *)
Definition spoken_states (role : Role) (states : StateSet.t) (reason : StateReason) : StateSet.t :=
  let spoken := StateSet.remove (StateSet.remove (StateSet.remove states Selectable) Focusable) Checkable in
  let spoken := remove_when (bool_decide (role = RoleComboBox)) HasPopup spoken in
  let spoken := remove_when (negb (bool_decide (role = RoleLink))) Visited spoken in
  if decide (reason = StateQuery) then spoken
  else
    let changes := bool_decide (reason = StateChange) in
    let spoken := StateSet.remove spoken Focused in
    let spoken := remove_when (negb changes) Linked spoken in
    let spoken := StateSet.remove spoken Offscreen in
    let spoken := remove_when
      (negb changes &&
       match role with
       | RoleListItem | RoleTreeItem | RoleMenuItem | RoleRow | RoleCheckBox => true
       | _ => false
       end && StateSet.contains states Selectable) Tree.Selected spoken in
    let spoken := remove_when
      (match role with RoleEditableText | RoleCheckBox => false | _ => true end) ReadOnly spoken in
    let spoken := remove_when (negb (bool_decide (role = RoleEditableText))) Multiline spoken in
    let spoken := remove_when (bool_decide (role = RoleCheckBox)) Pressed spoken in
    if bool_decide (role = RoleMenuItem) && StateSet.contains spoken HasPopup
    then StateSet.remove (StateSet.remove spoken Expanded) Collapsed
    else spoken.

(** [negated_states]. *)
Definition negated_states (role : Role) (states : StateSet.t) (reason : StateReason) : StateSet.t :=
  let focused := negb (bool_decide (reason = StateChange)) || StateSet.contains states Focused in
  let negated := insert_when
    (StateSet.contains states Selectable && StateSet.contains states Focusable &&
     negb (bool_decide (reason = StateQuery)) && focused &&
     match role with
     | RoleListItem | RoleTreeItem | RoleRow | RoleCell | RoleColumnHeader | RoleRowHeader
     | RoleCheckBox => true
     | _ => false
     end) Tree.Selected StateSet.new in
  let negated := insert_when
    ((match role with RoleCheckBox | RoleRadioButton => true | _ => false end
      || StateSet.contains states Checkable) &&
     negb (StateSet.contains states Mixed) && focused) Checked negated in
  let negated := insert_when (bool_decide (role = RoleToggleButton)) Pressed negated in
  if decide (reason = StateChange) then negated
  else StateSet.from_iter
         (List.filter (fun state => negb (StateSet.contains states state)) (StateSet.iter negated)).

(** [ordered_state_segments]. *)
Definition ordered_state_segments (positive negative : StateSet.t) : list UtteranceSegment :=
  omap (fun state =>
    if StateSet.contains positive state then Some (segment (SegState state))
    else if StateSet.contains negative state then Some (segment (SegNegatedState state))
    else None) STATE_ORDER.

(** [state_segments]. *)
Definition state_segments (role : Role) (states : StateSet.t) (reason : Reason) :
    list UtteranceSegment :=
  let reason := state_reason reason in
  ordered_state_segments (spoken_states role states reason) (negated_states role states reason).

(** The states in [a] that are not in [b]. *)
Definition difference (a b : StateSet.t) : StateSet.t :=
  StateSet.from_iter (List.filter (fun state => negb (StateSet.contains b state)) (StateSet.iter a)).

(** [state_change_segments]. *)
Definition state_change_segments (role : Role) (old_states new_states : StateSet.t) :
    list UtteranceSegment :=
  let gained := difference new_states old_states in
  let lost := difference old_states new_states in
  let positive := intersect (spoken_states role new_states StateChange) gained in
  let negative := intersect (negated_states role new_states StateChange) lost in
  let negative := insert_when
    (StateSet.contains lost Mixed && negb (StateSet.contains new_states Checked)) Checked negative in
  ordered_state_segments positive negative.

(** ** A node *)

Definition is_silent_on_focus (role : Role) : bool :=
  match role with
  | RolePane | RoleUnknown | RoleApplication | RoleCell | RoleListItem | RoleMenuItem
  | RoleTreeItem | RoleStaticText => true
  | _ => false
  end.

Definition speaks_value (role : Role) : bool :=
  match role with
  | RoleCheckBox | RoleRadioButton | RoleLink | RoleMenuItem | RoleApplication
  | RoleBusyIndicator => false
  | _ => true
  end.

Definition reports_text_itself (role : Role) : bool :=
  match role with RoleEditableText | RoleDocument => true | _ => false end.

Definition not_empty (text : option string) : bool :=
  match text with Some text => negb (is_empty text) | None => false end.

Definition speaks_role (node : NodeSnapshot) (reason : Reason) : bool :=
  let something_else :=
    not_empty (name node) || not_empty (value node) ||
    is_some (row (details node)) || is_some (column (details node)) in
  negb (bool_decide (reason = ForFocus) && something_else && is_silent_on_focus (role node)).

(** A segment for a detail that is there. *)
Definition said {A} (content : A -> SegmentContent) (detail : option A) : list UtteranceSegment :=
  match detail with Some x => [segment (content x)] | None => [] end.

(** The segments of [node_segments] before the level. *)
Definition level_less_segments (node : NodeSnapshot) (reason : Reason) : list UtteranceSegment :=
  said SegLabel (name node) ++
  (if speaks_role node reason then [segment (SegRole (role node))] else []) ++
  (if speaks_value (role node) then said SegValue (value node) else []) ++
  state_segments (role node) (states node) reason ++
  (if bool_decide (name node = description (details node)) then []
   else said SegDescription (description (details node))) ++
  said SegShortcut (keyboard_shortcut (details node)) ++
  said SegRow (row (details node)) ++
  said SegColumn (column (details node)) ++
  said (fun position => SegPosition position (set_size (details node)))
    (position_in_set (details node)).

(** [node_segments]: the segments, and the last tree level after them. *)
Definition node_segments (node : NodeSnapshot) (reason : Reason) (last_level : option N) :
    list UtteranceSegment * option N :=
  let segments := level_less_segments node reason in
  match level (details node) with
  | Some level =>
      let says := segment (SegLevel level) in
      if match role node with RoleTreeItem | RoleListItem => true | _ => false end &&
         negb (bool_decide (last_level = Some level))
      then (says :: segments, Some level)
      else (segments ++ [says], last_level)
  | None => (segments, last_level)
  end.

(** [source_of]. *)
Definition source_of (node : NodeSnapshot) : UtteranceSource :=
  {| source_role := role node; source_rect := rect (details node) |}.

(** An utterance about nothing, and one about a node. *)
Definition plain_utterance (trace_id : TraceId) (p : SpeechPriority)
    (segments : list UtteranceSegment) : Utterance :=
  {| utt_trace_id := trace_id; priority := p; utt_segments := segments; source := None;
     validity := None; say_all := false |}.
Definition node_utterance (trace_id : TraceId) (p : SpeechPriority)
    (segments : list UtteranceSegment) (node : NodeSnapshot) (v : option FocusValidity) : Utterance :=
  {| utt_trace_id := trace_id; priority := p; utt_segments := segments;
     source := Some (source_of node); validity := v; say_all := false |}.

(** [announce_node]. *)
Definition announce_node (trace_id : TraceId) (p : SpeechPriority) (node : NodeSnapshot)
    (reason : Reason) (last_level : option N) : Utterance * option N :=
  let '(segments, last_level) := node_segments node reason last_level in
  (node_utterance trace_id p segments node None, last_level).

(** ** Containers *)

(** [is_menu]. *)
Definition is_menu (node : NodeSnapshot) : bool :=
  match role node with RoleMenuBar | RoleMenu | RoleMenuItem => true | _ => false end.

(** [is_presentable_container]. *)
Definition is_presentable_container (node : NodeSnapshot) : bool :=
  if StateSet.contains (states node) Invisible then false
  else
    let named := has_text (name node) in
    let described := has_text (description (details node)) in
    match role node with
    | RoleTreeItem | RoleListItem | RoleEditableText | RoleProgressBar | RoleBusyIndicator
    | RoleTitleBar | RoleUnknown | RoleBorder | RoleWhitespace | RoleMenuBar | RoleMenu
    | RoleMenuItem => false
    | RolePane => top_level_client (details node)
    | RoleWindow | RoleGroup | RolePropertyPage => named || described
    | RoleStaticText => named
    | _ => true
    end.

(** The node [container_segments] speaks for an entered container. *)
Definition entered_copy (node : NodeSnapshot) : NodeSnapshot :=
  let d := details node in
  with_details
    {| description := description d;
       keyboard_shortcut := if decide (role node = RoleList) then keyboard_shortcut d else None;
       position_in_set := position_in_set d; set_size := set_size d; level := None; rect := rect d;
       top_level_client := top_level_client d; class_name := class_name d; row := row d;
       column := column d; parent_automation_id := parent_automation_id d;
       details_window := details_window d |} (with_value None node).

(** [container_segments]. *)
Definition container_segments (node : NodeSnapshot) : list UtteranceSegment :=
  if is_sensitive_slider node then (node_segments node ForFocus None).1
  else (node_segments (entered_copy node) ForFocus None).1.

(** [window_title]. *)
Definition window_title (top_level : WindowHandle) (ancestors entered : list NodeSnapshot) :
    option NodeSnapshot :=
  match find (fun ancestor => bool_decide (details_window (details ancestor) = Some top_level))
          ancestors with
  | None => None
  | Some entry =>
      let spoken := existsb (fun container =>
        bool_decide (id container = id entry) && negb (is_menu container) &&
        (is_sensitive_slider container || is_presentable_container container) &&
        negb (bool_decide (container_segments container = []))) entered in
      if negb spoken && has_text (name entry) then Some entry else None
  end.
