(* ===== verification/CoreEvents.v ===== *)
(** * What goes into Core's reducer and comes out

    The inputs and effects of [src/crates/verbatim-model/src/event.rs], less the
    values of them that other files hold, with the reader settings of
    [settings.rs]. A query's number is [QueryId]; the event of an input and the
    outcome of a query are those of [Messages]. *)

From S2P Require Import Prelude Keys Tree TextModel Facts Messages Speech SpeechQueue.

Record QueryId := { query_number : N }.

#[export] Instance QueryId_eq_dec : EqDecision QueryId.
Proof. solve_decision. Defined.

#[export] Instance TextAnchor_eq_dec : EqDecision TextAnchor.
Proof. solve_decision. Defined.

(** [is_empty] of a vector or a slice. *)
Definition is_nil {A} (l : list A) : bool := match l with [] => true | _ => false end.

(** ** Keys and commands *)

Inductive CaretMotion :=
  | PreviousCharacter | NextCharacter | PreviousWord | NextWord | PreviousLine | NextLine
  | PreviousParagraph | NextParagraph | PreviousSentence | NextSentence | StartOfLine | EndOfLine
  | PreviousPage | NextPage | MotionTop | MotionBottom | Backspace | BackspaceWord | MotionDelete
  | DeleteWord | SelectAll | OtherMotion.

#[export] Instance CaretMotion_eq_dec : EqDecision CaretMotion.
Proof. solve_decision. Defined.

(** [CaretMotion::deletes_back], [deletes] and [unit]. *)
Definition deletes_back (self : CaretMotion) : bool :=
  match self with Backspace | BackspaceWord => true | _ => false end.
Definition motion_deletes (self : CaretMotion) : bool :=
  match self with Backspace | BackspaceWord | MotionDelete | DeleteWord => true | _ => false end.
Definition motion_unit (self : CaretMotion) : TextUnit :=
  match self with
  | PreviousCharacter | NextCharacter | StartOfLine | EndOfLine | Backspace | MotionDelete => UnitCharacter
  | PreviousWord | NextWord | BackspaceWord | DeleteWord | OtherMotion => UnitWord
  | PreviousParagraph | NextParagraph => UnitParagraph
  | PreviousLine | NextLine | PreviousSentence | NextSentence | PreviousPage | NextPage
  | MotionTop | MotionBottom | SelectAll => UnitLine
  end.

Record CaretKey := { motion : CaretMotion; key_selects : bool }.

Inductive ReviewCommand :=
  | ReportObject | CmdParent | CmdNextSibling | CmdPreviousSibling | CmdFirstChild | ToFocus
  | CmdActivate | ReviewTop | ReviewPreviousLine | ReviewCurrentLine | ReviewNextLine
  | ReviewPreviousWord | ReviewCurrentWord | ReviewNextWord | ReviewStartOfLine
  | ReviewPreviousCharacter | ReviewCurrentCharacter | ReviewNextCharacter | ReviewEndOfLine
  | ReviewBottom | ReviewPreviousPage | ReviewNextPage | ReviewSelectionStart | ReviewSelectionEnd
  | SayAllFromReview | SayAllFromCaret | SetStartMarker | MoveToStartMarker | SelectThenCopy
  | ToggleFollowCaret | ToggleTypedCharacters | ToggleTypedWords | ToggleReportNewOutput
  | ReportCaretLocation | ReportReviewLocation | ReportFocus | ReportStatusBar
  | PreviousCommandMark | NextCommandMark.

#[export] Instance ReviewCommand_eq_dec : EqDecision ReviewCommand.
Proof. solve_decision. Defined.

Inductive Script := ShowMenu | ReportTime | ScriptShellList.
Inductive GuiRequest := GuiMenu | GuiShellList (kind : ShellItemKind).

Inductive Earcon :=
  | AppNotResponding | EarconStart | EarconExit | EarconError | BrowseMode | FocusMode
  | SuggestionsOpened | SuggestionsClosed | EarconProgress (percentage : N).

(** ** Settings *)

Inductive SayAllUnit := BySentence | ByParagraph | ByLine.

Record ReaderSettings := {
  speak_typed_characters : TypingEcho;
  speak_typed_words : TypingEcho;
  follow_caret_setting : bool;
  say_all_unit : SayAllUnit;
  keep_display_on : bool;
  speak_terminal_passwords : bool;
  report_terminal_output : bool;
  terminal_full_lines : N;
  terminal_last_lines : N;
}.

(** [ReaderSettings::full_lines] and [last_lines]. *)
Definition MAX_TERMINAL_LINES : N := 10000.
Definition clamp_lines (lines : N) : nat := N.to_nat (N.min MAX_TERMINAL_LINES (N.max 1 lines)).
Definition full_lines (self : ReaderSettings) : nat := clamp_lines (terminal_full_lines self).
Definition last_lines (self : ReaderSettings) : nat := clamp_lines (terminal_last_lines self).

(** [ReaderSettings::default]. *)
Definition default_settings : ReaderSettings :=
  {| speak_typed_characters := EchoEditControls; speak_typed_words := EchoOff; follow_caret_setting := true;
     say_all_unit := BySentence; keep_display_on := true; speak_terminal_passwords := false;
     report_terminal_output := true; terminal_full_lines := 30; terminal_last_lines := 30 |}.

(** [TypingEcho::next]. *)
Definition next_echo (self : TypingEcho) : TypingEcho :=
  match self with EchoOff => EchoEditControls | EchoEditControls => EchoAlways | EchoAlways => EchoOff end.

(** [theme::Fetches], the details the theme wants fetched. *)
Record Fetches := {
  fetch_description : bool; fetch_shortcut : bool; fetch_position : bool; fetch_level : bool;
  fetch_cell_coordinates : bool; fetch_spelling_errors : bool; fetch_grammar_errors : bool;
  fetch_font_name : bool; fetch_font_size : bool; fetch_color : bool; fetch_background_color : bool;
  fetch_font_attributes : bool; fetch_strikethrough : bool; fetch_underline_style : bool;
  fetch_bullet_style : bool; fetch_link : bool;
}.
(** [Fetches::default]. *)
Definition all_fetches : Fetches :=
  {| fetch_description := true; fetch_shortcut := true; fetch_position := true; fetch_level := true;
     fetch_cell_coordinates := true; fetch_spelling_errors := true; fetch_grammar_errors := true;
     fetch_font_name := true; fetch_font_size := true; fetch_color := true;
     fetch_background_color := true; fetch_font_attributes := true; fetch_strikethrough := true;
     fetch_underline_style := true; fetch_bullet_style := true; fetch_link := true |}.

(** ** The foreground *)

Record ForegroundWindow := {
  fw_window : WindowHandle;
  fw_root_owner : WindowHandle;
  fw_process : Pid;
  fw_observed_at_us : N;
  fw_own : bool;
  fw_thread : N;
  fw_console : bool;
  fw_integrity : option N;
  fw_own_integrity : option N;
}.

Record HookForeground := {
  hook_window : WindowHandle;
  holds_keys : bool;
  focus_has_text : bool;
  keyboard_thread : option N;
}.

(** ** Effects *)

Inductive Effect :=
  | EffSpeak (utterance : Utterance) (key : option KeySeq)
  | EffStopSpeech
  | EffDropExpired (now : Speech.FocusNow)
  | EffFetch (query_id : QueryId) (node_id : NodeId) (kind : QueryKind)
  | EffPlayEarcon (earcon : Earcon)
  | EffActivate (query_id : QueryId) (node_id : NodeId)
  | EffCopyToClipboard (text : string)
  | EffText (query_id : QueryId) (node_id : NodeId) (op : TextOp)
  | EffKeepDisplayOn (on : bool)
  | EffSettingsChanged (settings : ReaderSettings)
  | EffPassHeldKey (trace_id : TraceId)
  | EffBoundHeldKey (bound : option (TraceId * N))
  | EffWithdraw (outpost : OutpostId) (query_id : QueryId)
  | EffForKey (trace_id : TraceId) (effect : Effect)
  | EffReadForegroundFocus
  | EffReadClock (repeat : N)
  | EffShow (request : GuiRequest).

(** ** Inputs *)

Inductive Input :=
  | InEvent (trace_id : TraceId) (observed_at_us : N) (source : Pid) (backend : Backend)
      (window : option WindowFacts) (event : NormalizedEvent)
  | InAnswered (trace_id : TraceId) (query_id : QueryId) (outpost : OutpostId) (outcome : QueryOutcome)
  | InOutpostEnded (trace_id : TraceId) (outpost : OutpostId)
  | InCommand (trace_id : TraceId) (key_seq : KeySeq) (command : ReviewCommand) (pressed_at_ms : N)
      (repeat : N)
  | InScript (trace_id : TraceId) (key_seq : KeySeq) (repeat : N) (script : Script) (pressed_at_ms : N)
  | InToggleKeyPressed (trace_id : TraceId) (key_seq : KeySeq) (toggle : Toggle.LockKey)
      (pressed_at_ms : N)
  | InTick
  | InCaretKey (trace_id : TraceId) (key_seq : KeySeq) (key : CaretKey) (pressed_at_ms : N)
  | InHeldKey (trace_id : TraceId) (key_seq : KeySeq) (key : CaretKey) (pressed_at_ms : N)
  | InHeldKeyDue (trace_id : TraceId)
  | InCharacterTyped (trace_id : TraceId) (key_seq : KeySeq) (text : string) (at_ms : N)
  | InClearingKey (trace_id : TraceId) (key_seq : KeySeq) (at_ms : N)
  | InMarkReached (mark : SpeechMark)
  | InSpeechCancelled (at_ms : N)
  | InSettings (settings : ReaderSettings)
  | InFetches (fetches : Fetches)
  | InUtteranceCancelled (marks : list SpeechMark) (at_ms : N)
  | InUtteranceFailed (marks : list SpeechMark)
  | InStarted
  | InExiting (replaced : bool)
  | InErrorLogged
  | InApplicationNotResponding (outpost : OutpostId) (process : Pid)
  | InLockKeyToggled (trace_id : TraceId) (key : Toggle.LockKey) (on : bool)
  | InClockRead (trace_id : TraceId) (repeat : N) (time date : option string)
  | InClipboardCopied (trace_id : TraceId) (text : string) (copied : bool)
  | InShellItemGone (trace_id : TraceId) (name : string)
  | InShellItemUnclickable (trace_id : TraceId) (name : string)
  | InPreviewSpeech (trace_id : TraceId) (segments : list UtteranceSegment)
  | InPreviewEarcon (earcon : Earcon)
  | InMenuOrSwitchEnded (ended_at_us : N)
  | InTerminalTimer (trace_id : TraceId) (at_ms : N)
  | InForeground (change : ForegroundWindow).

(** [Input::trace_id]. *)
Definition input_trace_id (self : Input) : option TraceId :=
  match self with
  | InEvent trace_id _ _ _ _ _ | InAnswered trace_id _ _ _ | InOutpostEnded trace_id _
  | InCommand trace_id _ _ _ _ | InScript trace_id _ _ _ _ | InToggleKeyPressed trace_id _ _ _
  | InCaretKey trace_id _ _ _ | InHeldKey trace_id _ _ _ | InCharacterTyped trace_id _ _ _
  | InClearingKey trace_id _ _ | InLockKeyToggled trace_id _ _ | InClockRead trace_id _ _ _
  | InClipboardCopied trace_id _ _ | InShellItemGone trace_id _ | InShellItemUnclickable trace_id _
  | InPreviewSpeech trace_id _ => Some trace_id
  | _ => None
  end.
