(* ===== verification/ForegroundRecord.v ===== *)
(** * The foreground record

    [src/crates/verbatim-core/src/foreground.rs]: where the user's attention is,
    which window and object are in front, the window the focus line was last in,
    and the stamps that order focuses. [apply] is the record's only write. *)

From S2P Require Import Prelude Tree Facts Messages CoreEvents.

Record Attention := { at_source : Pid; at_window : option WindowFacts }.

(** [Attention::of]. *)
Definition attention_of (change : ForegroundWindow) : Attention :=
  {| at_source := fw_process change;
     at_window := Some {|
       top_level := fw_window change; root_owner := fw_root_owner change; topmost := false;
       under_active_window := None; in_foreground := true; foreground_window := fw_window change;
       window_class := ""; window_application := ""; alt_held := false;
       foreground_is_shell := false |} |}.

Record Front := {
  front_window : WindowHandle;
  front_root_owner : WindowHandle;
  front_observed_at_us : N;
}.

(** [Front::relates] and [Front::observed_after]. *)
Definition relates (self : Front) (facts : WindowFacts) : bool :=
  existsb (fun window => bool_decide (window = front_window self) ||
                         bool_decide (window = front_root_owner self))
    [top_level facts; root_owner facts].
Definition front_observed_after (self : Front) (observed_at_us : N) : bool :=
  negb (observed_at_us =? 0) && (observed_at_us <? front_observed_at_us self).

Record LatestFocus := {
  latest_outpost : OutpostId;
  latest_observed_at_us : N;
  latest_top_level : option WindowHandle;
}.

(** [LatestFocus::observed_after]. *)
Definition latest_observed_after (self : LatestFocus) (observed_at_us : N) : bool :=
  observed_at_us <? latest_observed_at_us self.

Inductive ForegroundFact :=
  | FactChanged (change : ForegroundWindow)
  | FactObject (object : ObjectKey)
  | FactEntered (window : WindowHandle)
  | FactEnteredBy (window : WindowHandle) (object : option ObjectKey)
  | FactLineCut (at_us : N)
  | FactObserved (latest : LatestFocus)
  | FactApplied (at_us : N).

Record Foreground := {
  attention : option Attention;
  fg_object : option ObjectKey;
  changed_at : option N;
  fg_window : option ForegroundWindow;
  front : option Front;
  entered : option WindowHandle;
  latest_focus : option LatestFocus;
  applied_at : option N;
}.

(** [Foreground::default]. *)
Definition empty_foreground : Foreground :=
  {| attention := None; fg_object := None; changed_at := None; fg_window := None; front := None;
     entered := None; latest_focus := None; applied_at := None |}.

(** [Foreground::apply]. *)
Definition apply (fact : ForegroundFact) (self : Foreground) : Foreground :=
  match fact with
  | FactChanged change =>
      if fw_own change then
        {| attention := attention self; fg_object := fg_object self; changed_at := changed_at self;
           fg_window := Some change; front := front self; entered := None;
           latest_focus := latest_focus self; applied_at := applied_at self |}
      else
        {| attention := Some (attention_of change); fg_object := fg_object self;
           changed_at := changed_at self; fg_window := Some change;
           front := Some {| front_window := fw_window change; front_root_owner := fw_root_owner change;
                            front_observed_at_us := fw_observed_at_us change |};
           entered := entered self; latest_focus := latest_focus self; applied_at := applied_at self |}
  | FactObject object =>
      {| attention := attention self; fg_object := Some object; changed_at := changed_at self;
         fg_window := fg_window self; front := front self; entered := entered self;
         latest_focus := latest_focus self; applied_at := applied_at self |}
  | FactEntered window =>
      {| attention := attention self; fg_object := fg_object self; changed_at := changed_at self;
         fg_window := fg_window self; front := front self; entered := Some window;
         latest_focus := latest_focus self; applied_at := applied_at self |}
  | FactEnteredBy window object =>
      {| attention := attention self; fg_object := object; changed_at := changed_at self;
         fg_window := fg_window self; front := front self; entered := Some window;
         latest_focus := latest_focus self; applied_at := applied_at self |}
  | FactLineCut at_us =>
      {| attention := attention self; fg_object := fg_object self; changed_at := Some at_us;
         fg_window := fg_window self; front := front self; entered := entered self;
         latest_focus := latest_focus self; applied_at := applied_at self |}
  | FactObserved latest =>
      {| attention := attention self; fg_object := fg_object self; changed_at := changed_at self;
         fg_window := fg_window self; front := front self; entered := entered self;
         latest_focus := Some latest; applied_at := applied_at self |}
  | FactApplied at_us =>
      {| attention := attention self; fg_object := fg_object self; changed_at := changed_at self;
         fg_window := fg_window self; front := front self; entered := entered self;
         latest_focus := latest_focus self; applied_at := Some at_us |}
  end.

(** Only the listener's change moves attention and the front. *)
Lemma apply_attention fact self :
  (forall change, fact <> FactChanged change) ->
  attention (apply fact self) = attention self /\ front (apply fact self) = front self /\
  fg_window (apply fact self) = fg_window self.
Proof. destruct fact; intros H; [by destruct (H change)|done..]. Qed.

(** And of the rest it changes only the entered window, and that for one of
    Verbatim's own windows. *)
Lemma apply_changed change self :
  fg_object (apply (FactChanged change) self) = fg_object self /\
  changed_at (apply (FactChanged change) self) = changed_at self /\
  latest_focus (apply (FactChanged change) self) = latest_focus self /\
  applied_at (apply (FactChanged change) self) = applied_at self /\
  (fw_own change = false -> entered (apply (FactChanged change) self) = entered self).
Proof. unfold apply. by destruct (fw_own change). Qed.
