(* ===== verification/CoreQueries.v ===== *)
(** * Core's queries

    The table of [src/crates/verbatim-core/src/queries.rs], with the values of
    [state.rs] a query's answer continues. The table is a map from a query's
    number; where the source walks it in number order the numbers are sorted.
    [ended] and what it continues are the reducer's, in [CoreReducer]. *)

From S2P Require Import Prelude Tree TextModel Facts Messages Speech CoreEvents.

#[export] Program Instance QueryId_countable : Countable QueryId :=
  inj_countable' query_number Build_QueryId _.
Next Obligation. by intros []. Qed.

(** ** What an answer continues *)

(** [state::PendingCaret]. *)
Record PendingCaret := {
  pc_node : NodeId;
  pc_key : CaretKey;
  pc_deleted : option string;
  pc_before : option (string * N);
  later_key_at_ms : option N;
  selected_before : bool;
  before_unknown : bool;
  heard : list UtteranceSegment;
}.

(** [state::HeldKey] and [HeldRead]. *)
Record HeldKey := { hk_trace_id : TraceId; hk_key : CaretKey; hk_pressed_at_ms : N }.
Record HeldRead := { hr_node : NodeId; hr_key : HeldKey }.

(** [state::NavigatorRead], [LandingPlace] and [Landing]. *)
Inductive NavigatorRead := ReadAnnounce | ReadSpell | ReadCopy.
Inductive LandingPlace :=
  | LandColumn (column : N) | LandStart | LandFirstWord | LandLastWord | LandPoint | LandBeforePoint.
Record Landing := {
  place : LandingPlace;
  land_speak : TextUnit;
  land_edge : option Message;
  land_command : ReviewCommand;
}.

(** [state::TextFollowUp] and [PendingText]. *)
Inductive TextFollowUp :=
  | FollowSeed (command : ReviewCommand) (repeat : N)
  | FollowLand (landing : Landing)
  | FollowSelected
  | FollowCopy (marker : N)
  | FollowLocation
  | FollowNavigatorSelection (read : NavigatorRead)
  | FollowNavigatorLine (read : NavigatorRead).
Record PendingText := { pt_node : NodeId; pt_then : TextFollowUp }.

(** [TerminalAsk], [terminal_model::HistoryAsked] and [ModelAsk]. *)
Inductive TerminalAsk := AskRead | AskCancel | AskOvertaken.
Record HistoryAsked := { ha_review : QueryId; ha_above : N; ha_whole : bool }.
Inductive ModelAsk :=
  | AskWhole | AskHistoryBlock | AskFresh | AskHistory (asked : HistoryAsked) | AskFind (hash : N).

(** [ModelAsk::owed]. *)
Definition owed (self : ModelAsk) : bool :=
  match self with AskWhole | AskHistoryBlock => true | _ => false end.

Inductive Asked := AskedRead | AskedWatch | AskedMemory.

#[export] Instance Asked_eq_dec : EqDecision Asked.
Proof. solve_decision. Defined.

Inductive Then :=
  | ThenNavigation (from : NodeId) (kind : QueryKind)
  | ThenActivation
  | ThenCaret (pending : PendingCaret)
  | ThenSupersededCaret (node : NodeId)
  | ThenHeldRead (reading : HeldRead)
  | ThenText (pending : PendingText)
  | ThenSayAll
  | ThenTerminal (ask : TerminalAsk)
  | ThenTerminalModel (node : NodeId) (generation : N) (ask : ModelAsk)
  | ThenNothing.

(** [then == Then::Nothing]. *)
Definition is_nothing (t : Then) : bool := match t with ThenNothing => true | _ => false end.

(** [Open]. *)
Record Open := {
  open_outpost : OutpostId;
  open_trace_id : option TraceId;
  asked : Asked;
  then_ : Then;
}.

Definition with_then (t : Then) (o : Open) : Open :=
  {| open_outpost := open_outpost o; open_trace_id := open_trace_id o; asked := asked o; then_ := t |}.
Definition with_trace (t : option TraceId) (o : Open) : Open :=
  {| open_outpost := open_outpost o; open_trace_id := t; asked := asked o; then_ := then_ o |}.

(** [Asking]. *)
Inductive Asking :=
  | AskNavigate (node : NodeId) (kind : QueryKind)
  | AskText (node : NodeId) (op : TextOp)
  | AskActivate (node : NodeId).

Definition asking_node (asking : Asking) : NodeId :=
  match asking with AskNavigate node _ | AskText node _ | AskActivate node => node end.
Definition asking_asked (asking : Asking) : Asked :=
  match asking with AskText _ (AwaitCaret _) => AskedWatch | _ => AskedRead end.
Definition asking_effect (asking : Asking) (query_id : QueryId) : Effect :=
  match asking with
  | AskNavigate node kind => EffFetch query_id node kind
  | AskText node op => EffText query_id node op
  | AskActivate node => EffActivate query_id node
  end.

(** ** The table *)

Record Queries := { next : N; open : gmap QueryId Open }.

(** [Queries::default]. *)
Definition no_queries : Queries := {| next := 0; open := ∅ |}.
Definition with_open (o : gmap QueryId Open) (self : Queries) : Queries :=
  {| next := next self; open := o |}.

(** The entry of a query just asked, recorded under the next number. *)
Definition record_query (outpost : OutpostId) (how : Asked) (t : Then) (self : Queries) :
    Queries * QueryId :=
  let query_id := {| query_number := next self |} in
  ({| next := next self +|64| 1;
      open := <[query_id := {| open_outpost := outpost; open_trace_id := None; asked := how;
                               then_ := t |}]> (open self) |}, query_id).

(** [Queries::ask]. *)
Definition ask (asking : Asking) (t : Then) (self : Queries) : Queries * QueryId * Effect :=
  let '(self, query_id) := record_query (outpost (asking_node asking)) (asking_asked asking) t self in
  (self, query_id, asking_effect asking query_id).

(** [Queries::ask_memory]. *)
Definition ask_memory (node : NodeId) (t : Then) (self : Queries) : Queries * QueryId :=
  record_query (outpost node) AskedMemory t self.

(** [Queries::answer_from_memory_later]. *)
Definition answer_from_memory_later (query_id : QueryId) (trace : option TraceId) (self : Queries) :
    Queries :=
  match open self !! query_id with
  | Some o => with_open (<[query_id := {| open_outpost := open_outpost o; open_trace_id := trace;
                                          asked := AskedMemory; then_ := then_ o |}]> (open self)) self
  | None => self
  end.

(** The open queries in number order. *)
Definition number_le (a b : QueryId * Open) : Prop := query_number a.1 <= query_number b.1.
#[export] Instance number_le_dec a b : Decision (number_le a b).
Proof. unfold number_le. apply _. Defined.
Definition in_order (m : gmap QueryId Open) : list (QueryId * Open) :=
  merge_sort number_le (map_to_list m).

(** [Queries::find], [has], and [find_mut] with the change made. *)
Definition picks (which : Then -> bool) (o : Open) : bool := negb (is_nothing (then_ o)) && which (then_ o).
Definition find_entry (which : Then -> bool) (self : Queries) : option (QueryId * Open) :=
  find (fun p => picks which p.2) (in_order (open self)).
Definition find_query (which : Then -> bool) (self : Queries) : option (QueryId * Then) :=
  (fun p => (p.1, then_ p.2)) <$> find_entry which self.
Definition has (which : Then -> bool) (self : Queries) : bool :=
  match find_query which self with Some _ => true | None => false end.
Definition find_mut (which : Then -> bool) (change : Then -> Then) (self : Queries) : option Queries :=
  match find_entry which self with
  | Some (query_id, o) =>
      Some (with_open (<[query_id := with_then (change (then_ o)) o]> (open self)) self)
  | None => None
  end.

(** [Queries::replace]. *)
Definition replace_then (query_id : QueryId) (t : Then) (self : Queries) : Queries * option Then :=
  match open self !! query_id with
  | Some o => (with_open (<[query_id := with_then t o]> (open self)) self, Some (then_ o))
  | None => (self, None)
  end.

(** [Queries::forget]. *)
Definition forget_entry (which : Then -> bool) (o : Open) : option Open :=
  if picks which o
  then if decide (asked o = AskedMemory) then None else Some (with_then ThenNothing o)
  else Some o.
Definition forget (which : Then -> bool) (self : Queries) : Queries :=
  with_open (omap (forget_entry which) (open self)) self.

(** [Queries::withdraw]. *)
Definition withdraw (query_id : QueryId) (self : Queries) : Queries * option (Then * Effect) :=
  match open self !! query_id with
  | Some o => (with_open (delete query_id (open self)) self,
               Some (then_ o, EffWithdraw (open_outpost o) query_id))
  | None => (self, None)
  end.

(** [Queries::forget_memory]. *)
Definition forget_memory (query_ids : list QueryId) (self : Queries) : Queries :=
  with_open (foldl (fun m query_id =>
    match m !! query_id with
    | Some o => if decide (asked o = AskedMemory) then delete query_id m else m
    | None => m
    end) (open self) query_ids) self.

(** [Queries::outstanding] and [continuations]. *)
Definition outstanding (self : Queries) : nat :=
  length (List.filter (fun p => bool_decide (asked p.2 = AskedRead)) (in_order (open self))).
Definition continuations (self : Queries) : list Then := (fun p => then_ p.2) <$> in_order (open self).

(** [Queries::set_trace] and [set_traces]. *)
Fixpoint set_trace (first : N) (effect : Effect) (trace : option TraceId) (self : Queries) : Queries :=
  match effect with
  | EffForKey key inner => set_trace first inner (Some key) self
  | EffFetch query_id _ _ | EffText query_id _ _ | EffActivate query_id _ =>
      if first <=? query_number query_id
      then match open self !! query_id with
           | Some o => with_open (<[query_id := with_trace trace o]> (open self)) self
           | None => self
           end
      else self
  | _ => self
  end.
Definition set_traces (first : N) (effects : list Effect) (input : option TraceId) (self : Queries) :
    Queries :=
  if next self =? first then self
  else foldl (fun self effect => set_trace first effect input self) self effects.

(** The removal of an answered query: [answered]'s guard, and what is left to
    continue. *)
Definition take_answered (query_id : QueryId) (from : OutpostId) (self : Queries) :
    Queries * option Then :=
  match open self !! query_id with
  | Some o =>
      if negb (bool_decide (open_outpost o = from)) || bool_decide (asked o = AskedMemory)
      then (self, None)
      else (with_open (delete query_id (open self)) self, Some (then_ o))
  | None => (self, None)
  end.

(** [answer_from_memory]'s removal. *)
Definition take_memory (query_id : QueryId) (self : Queries) : Queries * option Then :=
  match open self !! query_id with
  | Some o => (with_open (delete query_id (open self)) self, Some (then_ o))
  | None => (self, None)
  end.

(** The queries [outpost_gone] ends, in order. *)
Definition at_outpost (from : OutpostId) (self : Queries) : list QueryId :=
  fst <$> List.filter (fun p => bool_decide (open_outpost p.2 = from) &&
                                negb (bool_decide (asked p.2 = AskedMemory))) (in_order (open self)).

(** [Ending] and [Ending::reply]. *)
Inductive Ending := EndOutcome (outcome : QueryOutcome) | EndReply (reply : TextReply).
Definition ending_reply (self : Ending) : TextReply :=
  match self with
  | EndReply reply | EndOutcome (Done (TextResult reply)) => reply
  | EndOutcome Gone => ReplyGone
  | EndOutcome _ => ReplyUnanswered
  end.
