(* ===== verification/TextUnits.v ===== *)
(** * Units of text

    [src/crates/verbatim-text/src/lib.rs]: lines, sentence ends, padding and
    words. A [&str] is a [string] of its UTF-8 bytes, [char_indices] decodes it,
    and an offset is a byte offset. What the crate asks of the ICU, jieba and
    unicode-width crates is the class [UnicodeRules]. *)

From S2P Require Import Prelude Text FocusRules.

(** ** Strings *)

(** The code point of the bytes of one character. *)
Definition code2 (a b : N) : N := (a mod 32) * 64 + b mod 64.
Definition code3 (a b c : N) : N := code2 (a mod 16) b * 64 + c mod 64.
Definition code4 (a b c d : N) : N := code3 (a mod 8) b c * 64 + d mod 64.

(** [str::char_indices], from byte [i] on. *)
Fixpoint char_indices_from (i : nat) (s : string) : list (nat * N) :=
  match s with
  | EmptyString => []
  | String a s1 =>
      let a := N_of_ascii a in
      if a <? 0x80 then (i, a) :: char_indices_from (i + 1)%nat s1
      else match s1 with
      | EmptyString => []
      | String b s2 =>
          let b := N_of_ascii b in
          if a <? 0xE0 then (i, code2 a b) :: char_indices_from (i + 2)%nat s2
          else match s2 with
          | EmptyString => []
          | String c s3 =>
              let c := N_of_ascii c in
              if a <? 0xF0 then (i, code3 a b c) :: char_indices_from (i + 3)%nat s3
              else match s3 with
              | EmptyString => []
              | String d s4 => (i, code4 a b c (N_of_ascii d)) :: char_indices_from (i + 4)%nat s4
              end
          end
      end
  end.
Definition char_indices (s : string) : list (nat * N) := char_indices_from 0 s.
Definition chars (s : string) : list N := (char_indices s).*2.

(** [char::len_utf8]. *)
Definition len_utf8 (c : N) : nat :=
  if c <? 0x80 then 1%nat else if c <? 0x800 then 2%nat else if c <? 0x10000 then 3%nat else 4%nat.

(** [str::is_char_boundary] and [str::get] of a range. *)
Definition is_char_boundary (s : string) (at_ : nat) : bool :=
  bool_decide (at_ = 0%nat) || bool_decide (at_ = String.length s) ||
  match String.get at_ s with
  | Some b => negb ((0x80 <=? N_of_ascii b) && (N_of_ascii b <? 0xC0))
  | None => false
  end.
Definition get (s : string) (range : nat * nat) : option string :=
  if (bool_decide (range.1 <= range.2)%nat && bool_decide (range.2 <= String.length s)%nat &&
      is_char_boundary s range.1 && is_char_boundary s range.2)
  then Some (String.substring range.1 (range.2 - range.1) s) else None.

(** Where [trim_end_matches] and [trim_start_matches] cut. *)
Definition trimmed_end (f : N -> bool) (s : string) : nat :=
  foldl (fun e '(i, c) => if f c then e else (i + len_utf8 c)%nat) 0%nat (char_indices s).
Definition trim_end_matches (f : N -> bool) (s : string) : string :=
  String.substring 0 (trimmed_end f s) s.
Definition trimmed_start (f : N -> bool) (s : string) : nat :=
  match find (fun '(_, c) => negb (f c)) (char_indices s) with
  | Some (i, _) => i
  | None => String.length s
  end.

(** [char::is_control]. *)
Definition is_control (c : N) : bool := (c <? 32) || ((0x7F <=? c) && (c <? 0xA0)).

(** [char::is_whitespace]. *)
Definition is_whitespace (c : N) : bool :=
  ((9 <=? c) && (c <=? 13)) || (c =? 32) || (c =? 0x85) || (c =? 0xA0) || (c =? 0x1680) ||
  ((0x2000 <=? c) && (c <=? 0x200A)) || (c =? 0x2028) || (c =? 0x2029) || (c =? 0x202F) ||
  (c =? 0x205F) || (c =? 0x3000).

(** [str::trim]. *)
Definition trim (s : string) : string :=
  let start := trimmed_start is_whitespace s in
  String.substring start (trimmed_end is_whitespace s - start) s.

(** ** Characters *)

Definition is_bidi_control (c : N) : bool :=
  (c =? 0x200E) || (c =? 0x200F) || ((0x202A <=? c) && (c <=? 0x202E)) ||
  ((0x2066 <=? c) && (c <=? 0x2069)).

Definition is_space (c : N) : bool := is_whitespace c || (c =? 0x200B) || (c =? 0xFEFF).

Definition is_line_break (c : N) : bool :=
  (c =? 13) || (c =? 10) || (c =? 0x0B) || (c =? 0x0C) || (c =? 0x85) || (c =? 0x2028) || (c =? 0x2029).

Definition is_sentence_end (c : N) : bool :=
  existsb (N.eqb c) [46; 33; 63; 0x3002; 0xFF01; 0xFF1F; 0x0964; 0x0965; 0x061F; 0x06D4; 0x0589;
                     0x1362; 0x1367].
Definition is_full_width_end (c : N) : bool := existsb (N.eqb c) [0x3002; 0xFF01; 0xFF1F].
Definition is_closing (c : N) : bool :=
  existsb (N.eqb c) [34; 39; 0x201D; 0x2019; 41; 0xBB; 0xAB; 0x201E; 0x201C; 0x300D; 0x300F; 0xFF09].

(** [trim_padding]: the loops take white space off the end, byte by byte and
    then by character, so what is left ends at the last character that is none. *)
Definition trim_padding (line : string) : string := trim_end_matches is_whitespace line.

(** ** Lines *)

(** The loop of [lines]: [start] is where the line under way starts. *)
Fixpoint lines_from (start : nat) (cs : list (nat * N)) (len : nat) : list (nat * nat) :=
  match cs with
  | [] => [(start, len)]
  | (index, c) :: cs =>
      if negb (is_line_break c) then lines_from start cs len
      else
        let start' := (index + len_utf8 c)%nat in
        (start, index) ::
          match cs with
          | (_, next) :: rest =>
              if (c =? 13) && (next =? 10) then lines_from (start' + 1)%nat rest len
              else lines_from start' cs len
          | [] => lines_from start' cs len
          end
  end.
Definition lines (text : string) : list (nat * nat) :=
  lines_from 0 (char_indices text) (String.length text).

(** [iter().take_while(f).last()]. *)
Fixpoint take_while_last {A} (f : A -> bool) (l : list A) (so_far : option A) : option A :=
  match l with
  | x :: l => if f x then take_while_last f l (Some x) else so_far
  | [] => so_far
  end.

Definition line_at (text : string) (offset : nat) : nat * nat :=
  default (0, 0)%nat (take_while_last (fun line => bool_decide (line.1 <= offset)%nat) (lines text) None).

(** ** Sentence ends *)

(** Where the white space at index [next] ends, as an index. *)
Fixpoint skip_whitespace (cs : list (nat * N)) : list (nat * N) :=
  match cs with
  | (i, c) :: rest => if is_whitespace c then skip_whitespace rest else cs
  | [] => []
  end.

(** What [last_pause] makes of the character at [index]. *)
Definition pause_at (cs : list (nat * N)) (len : nat) (index : nat) : option nat :=
  '(_, mark) ← cs !! index;
  '(_, before) ← cs !! (index - 1)%nat;
  if negb (is_sentence_end mark) || is_whitespace before || is_sentence_end before then None
  else
    let next := S index in
    let next := match cs !! next with
                | Some (_, c) => if is_closing c then S next else next
                | None => next
                end in
    if negb (is_full_width_end mark) &&
       match cs !! next with Some (_, c) => negb (is_whitespace c) | None => false end
    then None
    else match skip_whitespace (drop next cs) with
         | (offset, _) :: _ => Some offset
         | [] => Some len
         end.
Definition last_pause (text : string) : option nat :=
  let cs := char_indices text in
  find_map (pause_at cs (String.length text)) (rev (seq 1 (length cs - 1))).

(** ** Unicode *)

(** What the sources ask of the ICU, jieba and unicode-width crates, and of the
    character tables of the standard library. *)
Class UnicodeRules := {
  graphemes : string -> list (nat * nat);
  sentences : string -> list (nat * nat);
  unicode_words : string -> option string -> list (nat * nat);
  jieba_words : string -> list (nat * nat);
  cell_width : string -> nat;
  composed : string -> string;
  is_uppercase : N -> bool;
  is_lowercase : N -> bool;
  is_alphanumeric : N -> bool;
  is_han : N -> bool;
  is_kana : N -> bool;
  is_word_character : N -> bool;
}.

Section unicode.
Context `{UnicodeRules}.

Definition grapheme_at (text : string) (offset : nat) : option (nat * nat) :=
  find (fun range => bool_decide (range.1 <= offset < range.2)%nat) (graphemes text).

Definition is_capital (grapheme : string) : bool :=
  let cs := chars (composed grapheme) in existsb is_uppercase cs && negb (existsb is_lowercase cs).

(** [is_word_grapheme]: [is_word_character] is a letter, a mark or a number. *)
Definition is_word_grapheme (grapheme : string) : bool :=
  negb (bool_decide (grapheme = EmptyString)) &&
  forallb (fun c => (c =? 0x200C) || (c =? 0x200D) || is_word_character c) (chars grapheme).

Inductive WordRules := RulesUnicode | RulesChinese.

(** The part of a language tag before its first separator. *)
Fixpoint primary_tag (tag : string) : string :=
  match tag with
  | EmptyString => EmptyString
  | String c rest =>
      if Ascii.eqb c "-"%char || Ascii.eqb c "_"%char then EmptyString else String c (primary_tag rest)
  end.

(** [WordRules::for_text]; [eq_ignore_ascii_case] by lowering both. *)
Definition for_text (text : string) (language : option string) : WordRules :=
  let chinese :=
    match language with
    | Some tag => bool_decide (to_lowercase (primary_tag tag) = "zh")
    | None => existsb is_han (chars text) && negb (existsb is_kana (chars text))
    end in
  if chinese then RulesChinese else RulesUnicode.

Definition range_is_space (text : string) (range : nat * nat) : bool :=
  match get text range with Some s => forallb is_space (chars s) | None => false end.

(** The loop of [merge_whitespace_runs]: [last] is the last range kept. *)
Fixpoint merge_from (text : string) (last : nat * nat) (segments : list (nat * nat)) : list (nat * nat) :=
  match segments with
  | [] => [last]
  | segment :: rest =>
      if bool_decide (last.2 = segment.1) && range_is_space text last && range_is_space text segment
      then merge_from text (last.1, segment.2) rest
      else last :: merge_from text segment rest
  end.
Definition merge_whitespace_runs (text : string) (segments : list (nat * nat)) : list (nat * nat) :=
  match segments with [] => [] | first :: rest => merge_from text first rest end.

(** [Segmenter::words_in]. *)
Definition words_in (text : string) (rules : WordRules) (language : option string) : list (nat * nat) :=
  merge_whitespace_runs text
    match rules with
    | RulesUnicode => unicode_words text language
    | RulesChinese => jieba_words text
    end.

End unicode.
