(* ===== verification/CoreText.v ===== *)
(** * Core's text helpers

    [src/crates/verbatim-core/src/text.rs] and [review.rs]: a line's content
    and its characters, where an offset rests, words, and the segments spoken
    for characters, words, lines and formatting. Segmentation is [TextUnits];
    a byte offset the model holds as a [u32] is an [N], one Core works with is
    a [nat]. *)

From S2P Require Import Prelude Text Tree TextModel Facts Speech TextUnits.

(** [proven::text_in], a range of a text its caller proves is in it, in a
    release build. *)
Definition text_in (text : string) (range : nat * nat) : string := default EmptyString (get text range).

Definition byte_offset (value : N) : nat := N.to_nat value.

(** ** Lines and blanks *)

Definition line_content (text : string) (grid : bool) : string :=
  let content := trim_end_matches is_line_break text in
  if grid then trim_padding content else content.

(** [text.get(from..)]. *)
Definition get_from (text : string) (from : nat) : option string := get text (from, String.length text).

Definition line_break (text : string) : option string :=
  rest ← get_from text (String.length (trim_end_matches is_line_break text));
  if bool_decide (rest = EmptyString) then None else Some rest.

(** The loop of [boundary] at [offset], at most the text's length. *)
Fixpoint boundary_down (text : string) (offset : nat) : nat :=
  if is_char_boundary text offset then offset
  else match offset with S offset => boundary_down text offset | O => O end.
Definition boundary (text : string) (offset : nat) : nat :=
  boundary_down text (Nat.min offset (String.length text)).

Definition is_blank (text : string) : bool := forallb is_space (chars text).

(** [take_while(f).last()] from the start. *)
Definition last_while {A} (f : A -> bool) (l : list A) : option A := take_while_last f l None.

Section unicode.
Context `{UnicodeRules}.

(** ** Characters *)

(** The characters of a line break at byte [at_], each a range. *)
Definition break_characters (line_break : string) (at_ : nat) : list (nat * nat) :=
  (fun '(index, c) => (at_ + index, at_ + index + len_utf8 c)%nat) <$> char_indices line_break.

Definition characters (text : string) (grid : bool) : list (nat * nat) :=
  let content := line_content text grid in
  graphemes content ++
  (if grid then []
   else match get_from text (String.length content) with
        | Some line_break => break_characters line_break (String.length content)
        | None => []
        end).

Definition contains (offset : nat) (range : nat * nat) : bool :=
  bool_decide (range.1 <= offset)%nat && bool_decide (offset < range.2)%nat.

Definition character_at (text : string) (offset : nat) (grid : bool) : option string :=
  find (contains offset) (characters text grid) ≫= get text.
Definition previous_character (text : string) (offset : nat) (grid : bool) : option (nat * nat) :=
  last_while (fun range => bool_decide (range.1 < offset)%nat) (characters text grid).
Definition next_character (text : string) (offset : nat) (grid : bool) : option (nat * nat) :=
  find (fun range => bool_decide (offset < range.1)%nat) (characters text grid).

Definition position_in (text : string) (offset : nat) (grid : bool) : nat :=
  let content := line_content text grid in
  let offset := boundary text offset in
  if bool_decide (offset <= String.length content)%nat then offset
  else if grid then String.length content
  else match last (characters text grid) with
       | Some range => Nat.min offset range.1
       | None => String.length content
       end.

Definition graphemes_count (text : string) : nat := length (graphemes text).
Definition previous_grapheme (content : string) (offset : nat) : option (nat * nat) :=
  last_while (fun range => bool_decide (range.1 < offset)%nat) (graphemes content).

(** ** Columns *)

Definition column_of (content : string) (offset : nat) (grid : bool) : nat :=
  let before := text_in content (0%nat, boundary content offset) in
  if grid then cell_width before else length (graphemes before).

(** The loop of [offset_at_column] over a grid's clusters. *)
Fixpoint offset_at_cell (content : string) (column cells : nat) (clusters : list (nat * nat)) : nat :=
  match clusters with
  | [] => String.length content
  | range :: clusters =>
      let width := Nat.max 1 (match get content range with Some s => cell_width s | None => 0%nat end) in
      if bool_decide (column < cells + width)%nat then range.1
      else offset_at_cell content column (cells + width) clusters
  end.
Definition offset_at_column (content : string) (column : nat) (grid : bool) : nat :=
  let clusters := graphemes content in
  if grid then offset_at_cell content column 0 clusters
  else match clusters !! column with
       | Some range => range.1
       | None => match last clusters with Some range => range.1 | None => 0%nat end
       end.

(** ** Words *)

Definition words (content : string) (language : option string) : list (nat * nat) :=
  List.filter (fun range => match get content range with Some word => negb (is_blank word) | None => false end)
    (words_in content (for_text content language) language).

Definition word_at (words : list (nat * nat)) (offset : nat) : option (nat * nat) :=
  match find (fun range => bool_decide (range.1 <= offset)%nat) (rev words) with
  | Some word => Some word
  | None => head words
  end.

Definition chunk_content (chunk : TextChunk) (grid : bool) : string := line_content (chunk_text chunk) grid.

(** ** Segments *)

Definition in_language (content : SegmentContent) (language : option string) : UtteranceSegment :=
  {| content := content; segment_language := language |}.

Definition message_segment (message : Message) : UtteranceSegment := segment (SegMessage message).

Definition text_segments (text : string) (language : option string) : list UtteranceSegment :=
  if is_blank text then [message_segment MsgBlank] else [in_language (SegText text) language].

Definition CR_LF : string := String "013" (String "010" EmptyString).
Definition CR : string := String "013" EmptyString.
Definition LF : string := String "010" EmptyString.

Definition character_segments (character : option string) (language : option string) :
    list UtteranceSegment :=
  match character with
  | Some character =>
      if bool_decide (character = EmptyString) then [message_segment MsgBlank]
      else
        let character := if bool_decide (character = CR_LF) then CR else character in
        [in_language (SegCharacter character) language]
  | None => [message_segment MsgBlank]
  end.

Definition word_segments (word : string) (language : option string) : list UtteranceSegment :=
  let word := trim word in
  if bool_decide (length (graphemes word) = 1%nat) then character_segments (Some word) language
  else text_segments word language.

(** What one grapheme is spelled as. *)
Definition spelled_content (character : string) (descriptions : bool) : SegmentContent :=
  if descriptions then SegCharacterDescription character
  else if bool_decide (character = " ") then SegMessage MsgSpace
  else if is_capital character then SegSpelledCapital character
  else if forallb is_alphanumeric (chars character) then SegText character
  else SegCharacter character.
Definition spelled (text : string) (descriptions : bool) (language : option string) :
    list UtteranceSegment :=
  omap (fun range => grapheme ← get text range;
          Some (in_language (spelled_content (composed grapheme) descriptions) language))
    (graphemes text).

(** ** Formatting *)

#[export] Instance LineStyle_eq_dec : EqDecision LineStyle.
Proof. solve_decision. Defined.
#[export] Instance BulletStyle_eq_dec : EqDecision BulletStyle.
Proof. solve_decision. Defined.
#[export] Instance TextAttributes_eq_dec : EqDecision TextAttributes.
Proof. solve_decision. Defined.

(** [TextAttributes::default]. *)
Definition no_attributes : TextAttributes :=
  {| spelling_error := false; grammar_error := false; font_name := None; font_size := None;
     color := None; bold := None; italic := None; underline := None; underline_style := None;
     strikethrough := None; background_color := None; bullet := None; link := false |}.

Definition line_change (old new : option LineStyle) : option LineStyle :=
  match new with
  | None => None
  | Some LineNone =>
      if match old with Some old => is_drawn old | None => false end then Some LineNone else None
  | Some drawn => if bool_decide (old = Some drawn) then None else Some drawn
  end.

(** The closures [differs] and [switched] of [format_changes], and a change of
    an error's mark. *)
Definition differs (old new : option string) : option string :=
  match new with
  | Some value => if bool_decide (old = Some value) then None else Some value
  | None => None
  end.
Definition switched (old new : option bool) (on off : TextFormat) : list TextFormat :=
  match old, new with
  | Some true, Some false => [off]
  | (None | Some false), Some true => [on]
  | _, _ => []
  end.
Definition marked (old new extra_detail : bool) (on off : TextFormat) : list TextFormat :=
  if new && negb old then [on] else if old && negb new && extra_detail then [off] else [].

Definition format_changes (old new : TextAttributes) (extra_detail : bool) : list TextFormat :=
  option_list (FmtFontName <$> differs (font_name old) (font_name new)) ++
  option_list (FmtFontSize <$> differs (font_size old) (font_size new)) ++
  (let background := differs (background_color old) (background_color new) in
   match differs (color old) (color new) with
   | Some color => FmtColor color :: option_list (FmtOnBackgroundColor <$> background)
   | None => option_list (FmtBackgroundColor <$> background)
   end) ++
  switched (bold old) (bold new) FmtBold FmtNotBold ++
  switched (italic old) (italic new) FmtItalic FmtNotItalic ++
  option_list (FmtStrikethrough <$> line_change (strikethrough old) (strikethrough new)) ++
  (match underline_style new with
   | Some _ => option_list (FmtUnderlineStyle <$> line_change (underline_style old) (underline_style new))
   | None => switched (underline old) (underline new) FmtUnderline FmtNotUnderline
   end) ++
  (if bool_decide (link new = link old) then [] else [if link new then FmtLink else FmtNotLink]) ++
  marked (spelling_error old) (spelling_error new) extra_detail FmtSpellingError FmtNotSpellingError ++
  marked (grammar_error old) (grammar_error new) extra_detail FmtGrammarError FmtNotGrammarError.

Inductive Spoken := SpokenText | SpokenWord | SpokenCharacter.

#[export] Instance Spoken_eq_dec : EqDecision Spoken.
Proof. solve_decision. Defined.

Definition runs_within (formats : list FormatRun) (span : nat * nat) :
    list ((nat * nat) * TextAttributes) :=
  omap (fun run =>
    let start := Nat.max (byte_offset (format_start run)) span.1 in
    let end_ := Nat.min (byte_offset (format_end run)) span.2 in
    if bool_decide (start < end_)%nat then Some ((start, end_), attributes run) else None) formats.

(** The runs [formatted_segments] reads a span by. *)
Definition runs_of (chunk : TextChunk) (span : nat * nat) : list ((nat * nat) * TextAttributes) :=
  match runs_within (formats chunk) span with
  | [] =>
      option_list ((fun run => (span, attributes run)) <$>
        find (fun run => bool_decide (byte_offset (format_start run) <= span.1)%nat &&
                         bool_decide (span.1 <= byte_offset (format_end run))%nat) (formats chunk))
  | runs => runs
  end.

Definition format_segment (change : TextFormat) : UtteranceSegment := segment (SegFormat change).

(** [flush]: the text joined so far, as a segment when it has any. *)
Definition flush (joined : string) (language : option string) : list UtteranceSegment :=
  let piece := trim joined in
  if bool_decide (piece = EmptyString) then [] else [in_language (SegText piece) language].

(** The part of a run that is spoken. *)
Definition run_text (text : string) (spoken range : nat * nat) : string :=
  let end_ := boundary text (Nat.min range.2 spoken.2) in
  let start := Nat.min (boundary text (Nat.max range.1 spoken.1)) end_ in
  text_in text (start, end_).

(** The loop of [formatted_segments] from the second run on: [joined] is the
    text since the last change spoken. *)
Fixpoint formatted_runs (text : string) (spoken : nat * nat) (extra_detail : bool)
    (language : option string) (runs : list ((nat * nat) * TextAttributes)) (joined : string)
    (reported : TextAttributes) : list UtteranceSegment * TextAttributes :=
  match runs with
  | [] => (flush joined language, reported)
  | (range, attributes) :: runs =>
      match format_changes reported attributes extra_detail with
      | [] => formatted_runs text spoken extra_detail language runs
                (String.append joined (run_text text spoken range)) attributes
      | changes =>
          let '(segments, reported) :=
            formatted_runs text spoken extra_detail language runs (run_text text spoken range) attributes in
          (flush joined language ++ (format_segment <$> changes) ++ segments, reported)
      end
  end.

Definition formatted_segments (chunk : TextChunk) (span spoken : nat * nat) (how : Spoken)
    (reported : TextAttributes) (language : option string) :
    option (list UtteranceSegment * TextAttributes) :=
  match runs_of chunk span with
  | [] => None
  | (range, attributes) :: rest =>
      let extra_detail := negb (bool_decide (how = SpokenText)) in
      text ← get (chunk_text chunk) spoken;
      let changes := format_segment <$> format_changes reported attributes extra_detail in
      let bullet :=
        match how, bullet attributes with
        | SpokenText, Some bullet =>
            if bool_decide (bullet = BulletNone) then [] else [format_segment (FmtBullet bullet)]
        | _, _ => []
        end in
      if bool_decide (how = SpokenCharacter) ||
         (bool_decide (how = SpokenWord) && bool_decide (length (graphemes (trim text)) = 1%nat))
      then
        let character := if bool_decide (how = SpokenCharacter) then text else trim text in
        Some (changes ++ bullet ++
              character_segments (if bool_decide (character = EmptyString) then None else Some character)
                language, attributes)
      else if is_blank text then
        Some (changes ++ bullet ++ text_segments EmptyString None,
              default attributes (snd <$> last rest))
      else
        let '(segments, reported) :=
          formatted_runs (chunk_text chunk) spoken extra_detail language rest
            (run_text (chunk_text chunk) spoken range) attributes in
        Some (changes ++ bullet ++ segments, reported)
  end.

(** ** Flat review text ([review.rs]) *)

Definition text_of (node : NodeSnapshot) : string :=
  match value node with
  | Some value => if bool_decide (value = EmptyString) then default EmptyString (name node) else value
  | None => default EmptyString (name node)
  end.

Definition line_span (text : string) (offset : nat) : nat * nat := line_at text offset.
Definition next_line_span (text : string) (offset : nat) : option (nat * nat) :=
  find (fun line => bool_decide (offset < line.1)%nat) (lines text).
Definition review_words (text : string) : list (nat * nat) := words text None.
Definition next_word (words : list (nat * nat)) (offset : nat) : option (nat * nat) :=
  find (fun range => match word_at words offset with
                     | Some current => bool_decide (current.1 < range.1)%nat
                     | None => true
                     end) words.
Definition previous_word (words : list (nat * nat)) (offset : nat) : option (nat * nat) :=
  current ← word_at words offset;
  find (fun range => bool_decide (range.1 < current.1)%nat) (rev words).
Definition char_span (text : string) (offset : nat) : option (nat * nat) :=
  grapheme_at text (Nat.min offset (String.length text)).
Definition previous_char (text : string) (offset : nat) : option nat :=
  fst <$> previous_grapheme text (Nat.min offset (String.length text)).

End unicode.
