(* ===== verification/CoreState.v ===== *)
(** * Core's state

    [src/crates/verbatim-core/src/state.rs]: what the reducer keeps, with the
    parts of [terminal.rs] and [terminal_model.rs] it holds. Of a terminal's
    model only what the rest of Core reads is named, its node, whether its
    outpost holds, and the queries of the reviews waiting on it; its rows and
    reading rules are the interface [TerminalReading]'s. *)

From S2P Require Import Prelude Keys Tree TextModel Facts Messages Speech SpeechQueue CoreEvents ForegroundRecord CoreQueries.

(** ** The focus *)

(** [SpokenRecord] and [SpokenRecord::of]. *)
Record SpokenRecord := {
  spoken_name : option string;
  spoken_value : option string;
  spoken_description : option string;
  record_states : StateSet.t;
  record_ancestors : list (NodeId * StateSet.t);
}.
Definition spoken_of (node : NodeSnapshot) (ancestors : list (NodeId * StateSet.t)) : SpokenRecord :=
  {| spoken_name := name node; spoken_value := value node;
     spoken_description := description (details node); record_states := states node;
     record_ancestors := ancestors |}.

Definition with_spoken_name (x : option string) (r : SpokenRecord) : SpokenRecord :=
  {| spoken_name := x; spoken_value := spoken_value r; spoken_description := spoken_description r;
   record_states := record_states r; record_ancestors := record_ancestors r |}.
Definition with_spoken_value (x : option string) (r : SpokenRecord) : SpokenRecord :=
  {| spoken_name := spoken_name r; spoken_value := x; spoken_description := spoken_description r;
   record_states := record_states r; record_ancestors := record_ancestors r |}.
Definition with_spoken_description (x : option string) (r : SpokenRecord) : SpokenRecord :=
  {| spoken_name := spoken_name r; spoken_value := spoken_value r; spoken_description := x;
   record_states := record_states r; record_ancestors := record_ancestors r |}.
Definition with_record_states (x : StateSet.t) (r : SpokenRecord) : SpokenRecord :=
  {| spoken_name := spoken_name r; spoken_value := spoken_value r; spoken_description :=
   spoken_description r; record_states := x; record_ancestors := record_ancestors r |}.
Definition with_record_ancestors (x : list (NodeId * StateSet.t)) (r : SpokenRecord) : SpokenRecord :=
  {| spoken_name := spoken_name r; spoken_value := spoken_value r; spoken_description :=
   spoken_description r; record_states := record_states r; record_ancestors := x |}.

Record FocusContext := {
  focus_from : Pid;
  focus_window : option WindowFacts;
  focus_node : NodeSnapshot;
  focus_ancestors : list NodeSnapshot;
  last_selection : option NodeId;
  alive : bool;
  reported_focused : bool;
  focus_trace_id : option TraceId;
  focus_observed_at_us : N;
  spoken : option SpokenRecord;
  left_ : bool;
}.

Definition with_focus_node (x : NodeSnapshot) (f : FocusContext) : FocusContext :=
  {| focus_from := focus_from f; focus_window := focus_window f; focus_node := x; focus_ancestors
   := focus_ancestors f; last_selection := last_selection f; alive := alive f; reported_focused :=
   reported_focused f; focus_trace_id := focus_trace_id f; focus_observed_at_us :=
   focus_observed_at_us f; spoken := spoken f; left_ := left_ f |}.
Definition with_focus_ancestors (x : list NodeSnapshot) (f : FocusContext) : FocusContext :=
  {| focus_from := focus_from f; focus_window := focus_window f; focus_node := focus_node f;
   focus_ancestors := x; last_selection := last_selection f; alive := alive f; reported_focused :=
   reported_focused f; focus_trace_id := focus_trace_id f; focus_observed_at_us :=
   focus_observed_at_us f; spoken := spoken f; left_ := left_ f |}.
Definition with_last_selection (x : option NodeId) (f : FocusContext) : FocusContext :=
  {| focus_from := focus_from f; focus_window := focus_window f; focus_node := focus_node f;
   focus_ancestors := focus_ancestors f; last_selection := x; alive := alive f; reported_focused :=
   reported_focused f; focus_trace_id := focus_trace_id f; focus_observed_at_us :=
   focus_observed_at_us f; spoken := spoken f; left_ := left_ f |}.
Definition with_alive (x : bool) (f : FocusContext) : FocusContext :=
  {| focus_from := focus_from f; focus_window := focus_window f; focus_node := focus_node f;
   focus_ancestors := focus_ancestors f; last_selection := last_selection f; alive := x;
   reported_focused := reported_focused f; focus_trace_id := focus_trace_id f; focus_observed_at_us
   := focus_observed_at_us f; spoken := spoken f; left_ := left_ f |}.
Definition with_reported_focused (x : bool) (f : FocusContext) : FocusContext :=
  {| focus_from := focus_from f; focus_window := focus_window f; focus_node := focus_node f;
   focus_ancestors := focus_ancestors f; last_selection := last_selection f; alive := alive f;
   reported_focused := x; focus_trace_id := focus_trace_id f; focus_observed_at_us :=
   focus_observed_at_us f; spoken := spoken f; left_ := left_ f |}.
Definition with_spoken (x : option SpokenRecord) (f : FocusContext) : FocusContext :=
  {| focus_from := focus_from f; focus_window := focus_window f; focus_node := focus_node f;
   focus_ancestors := focus_ancestors f; last_selection := last_selection f; alive := alive f;
   reported_focused := reported_focused f; focus_trace_id := focus_trace_id f; focus_observed_at_us
   := focus_observed_at_us f; spoken := x; left_ := left_ f |}.
Definition with_left_ (x : bool) (f : FocusContext) : FocusContext :=
  {| focus_from := focus_from f; focus_window := focus_window f; focus_node := focus_node f;
   focus_ancestors := focus_ancestors f; last_selection := last_selection f; alive := alive f;
   reported_focused := reported_focused f; focus_trace_id := focus_trace_id f; focus_observed_at_us
   := focus_observed_at_us f; spoken := spoken f; left_ := x |}.

(** What [FocusContext::spoken] reads: the record, or the reading's. *)
Definition the_spoken (self : FocusContext) : SpokenRecord :=
  default (spoken_of (focus_node self)
             ((fun ancestor => (id ancestor, states ancestor)) <$> focus_ancestors self))
    (spoken self).

(** [FocusContext::spoken_states]. *)
Definition spoken_states_of (self : FocusContext) (node : NodeId) : option StateSet.t :=
  if bool_decide (node = id (focus_node self)) then
    Some (match spoken self with Some spoken => record_states spoken | None => states (focus_node self) end)
  else
    match spoken self ≫= fun spoken => find (fun p => bool_decide (p.1 = node)) (record_ancestors spoken) with
    | Some (_, states) => Some states
    | None => states <$> find (fun ancestor => bool_decide (id ancestor = node)) (focus_ancestors self)
    end.

(** ** The navigator *)

Record ReviewPosition := { review_line : TextChunk; review_at : nat; review_column : nat }.
Inductive ReviewText :=
  | ReviewUnknown | ReviewFlat | ReviewAt (position : ReviewPosition) | ReviewCaret
  | ReviewPoint (position : TextPosition).
Record Navigator := { object : NodeSnapshot; review_offset : nat; review_text : ReviewText }.

(** [Navigator::on]. *)
Definition navigator_on (object : NodeSnapshot) : Navigator :=
  {| object := object; review_offset := 0; review_text := ReviewUnknown |}.
Definition with_review_text (t : ReviewText) (n : Navigator) : Navigator :=
  {| object := object n; review_offset := review_offset n; review_text := t |}.
Definition with_review_offset (o : nat) (n : Navigator) : Navigator :=
  {| object := object n; review_offset := o; review_text := review_text n |}.

(** ** The caret *)

Record CaretContext := {
  caret_node : NodeId;
  context_line : TextChunk;
  caret_selection : option Selection;
  caret_selection_line : option TextChunk;
  caret_line_break : option string;
  caret_observed_at_ms : N;
}.
Definition with_line_break (b : option string) (c : CaretContext) : CaretContext :=
  {| caret_node := caret_node c; context_line := context_line c; caret_selection := caret_selection c;
     caret_selection_line := caret_selection_line c; caret_line_break := b;
     caret_observed_at_ms := caret_observed_at_ms c |}.

(** Where a line's chunk puts the caret: [CaretContext::caret]. *)
Definition chunk_caret (line : TextChunk) : TextPosition :=
  {| anchor := chunk_start line; pos_offset := chunk_offset line |}.

Definition CARET_HISTORY : nat := 8.
Record TimedCaret := {
  timed_at_ms : N;
  timed_node : NodeId;
  timed_line : TextChunk;
  timed_selection : option Selection;
  timed_selection_line : option TextChunk;
}.
Definition no_history : list (option TimedCaret) := replicate CARET_HISTORY None.

(** ** Held keys *)

Inductive WaitingKey :=
  | WaitHeld (held : HeldKey)
  | WaitLater (input : Input)
  | WaitCommand (input : Input).
Record HeldKeys := {
  waiting_keys : list WaitingKey;
  passed_at_ms : N;
  awaiting_watch : option QueryId;
  bounded : option TraceId;
}.
Definition no_held_keys : HeldKeys :=
  {| waiting_keys := []; passed_at_ms := 0; awaiting_watch := None; bounded := None |}.
Definition with_waiting_keys (x : list WaitingKey) (h : HeldKeys) : HeldKeys :=
  {| waiting_keys := x; passed_at_ms := passed_at_ms h; awaiting_watch := awaiting_watch h;
   bounded := bounded h |}.
Definition with_passed_at_ms (x : N) (h : HeldKeys) : HeldKeys :=
  {| waiting_keys := waiting_keys h; passed_at_ms := x; awaiting_watch := awaiting_watch h;
   bounded := bounded h |}.
Definition with_awaiting_watch (x : option QueryId) (h : HeldKeys) : HeldKeys :=
  {| waiting_keys := waiting_keys h; passed_at_ms := passed_at_ms h; awaiting_watch := x; bounded
   := bounded h |}.
Definition with_bounded (x : option TraceId) (h : HeldKeys) : HeldKeys :=
  {| waiting_keys := waiting_keys h; passed_at_ms := passed_at_ms h; awaiting_watch :=
   awaiting_watch h; bounded := x |}.

(** ** The start marker *)

Inductive StartMarker :=
  | MarkerText (node : NodeId) (at_ after : TextPosition)
      (selected_to : option (TextPosition * TextPosition))
  | MarkerFlat (node : NodeId) (offset : nat) (selected_to : option nat).
Definition marker_node (self : StartMarker) : NodeId :=
  match self with MarkerText node _ _ _ | MarkerFlat node _ _ => node end.

(** ** Say-all *)

Record BufferedPiece := { piece_chunk : TextChunk; piece_start : N; piece_end : N; marked : bool }.
Record UnitStart := { unit_chunk : TextChunk; unit_offset : N }.
Definition unit_position (self : UnitStart) : TextPosition :=
  {| anchor := chunk_start (unit_chunk self); pos_offset := unit_offset self |}.
Record QueuedMark := { queued_mark : SpeechMark; mark_unit : option UnitStart; opens : bool }.

Record SayAll := {
  reading_node : NodeId;
  moves_caret : bool;
  start_at : TextPoint;
  reading_unit : TextUnit;
  last_chunk : option (TextPosition * TextUnit);
  queued : list QueuedMark;
  buffer : list (list BufferedPiece);
  held : list BufferedPiece;
  held_units : nat;
  say_all_trace : option TraceId;
  finished : bool;
  display_held : bool;
}.
Definition with_reading_unit (x : TextUnit) (r : SayAll) : SayAll :=
  {| reading_node := reading_node r; moves_caret := moves_caret r; start_at := start_at r;
   reading_unit := x; last_chunk := last_chunk r; queued := queued r; buffer := buffer r; held :=
   held r; held_units := held_units r; say_all_trace := say_all_trace r; finished := finished r;
   display_held := display_held r |}.
Definition with_last_chunk (x : option (TextPosition * TextUnit)) (r : SayAll) : SayAll :=
  {| reading_node := reading_node r; moves_caret := moves_caret r; start_at := start_at r;
   reading_unit := reading_unit r; last_chunk := x; queued := queued r; buffer := buffer r; held :=
   held r; held_units := held_units r; say_all_trace := say_all_trace r; finished := finished r;
   display_held := display_held r |}.
Definition with_queued (x : list QueuedMark) (r : SayAll) : SayAll :=
  {| reading_node := reading_node r; moves_caret := moves_caret r; start_at := start_at r;
   reading_unit := reading_unit r; last_chunk := last_chunk r; queued := x; buffer := buffer r;
   held := held r; held_units := held_units r; say_all_trace := say_all_trace r; finished :=
   finished r; display_held := display_held r |}.
Definition with_buffer (x : list (list BufferedPiece)) (r : SayAll) : SayAll :=
  {| reading_node := reading_node r; moves_caret := moves_caret r; start_at := start_at r;
   reading_unit := reading_unit r; last_chunk := last_chunk r; queued := queued r; buffer := x;
   held := held r; held_units := held_units r; say_all_trace := say_all_trace r; finished :=
   finished r; display_held := display_held r |}.
Definition with_held (x : list BufferedPiece) (r : SayAll) : SayAll :=
  {| reading_node := reading_node r; moves_caret := moves_caret r; start_at := start_at r;
   reading_unit := reading_unit r; last_chunk := last_chunk r; queued := queued r; buffer := buffer
   r; held := x; held_units := held_units r; say_all_trace := say_all_trace r; finished := finished
   r; display_held := display_held r |}.
Definition with_held_units (x : nat) (r : SayAll) : SayAll :=
  {| reading_node := reading_node r; moves_caret := moves_caret r; start_at := start_at r;
   reading_unit := reading_unit r; last_chunk := last_chunk r; queued := queued r; buffer := buffer
   r; held := held r; held_units := x; say_all_trace := say_all_trace r; finished := finished r;
   display_held := display_held r |}.
Definition with_say_all_trace (x : option TraceId) (r : SayAll) : SayAll :=
  {| reading_node := reading_node r; moves_caret := moves_caret r; start_at := start_at r;
   reading_unit := reading_unit r; last_chunk := last_chunk r; queued := queued r; buffer := buffer
   r; held := held r; held_units := held_units r; say_all_trace := x; finished := finished r;
   display_held := display_held r |}.
Definition with_finished (x : bool) (r : SayAll) : SayAll :=
  {| reading_node := reading_node r; moves_caret := moves_caret r; start_at := start_at r;
   reading_unit := reading_unit r; last_chunk := last_chunk r; queued := queued r; buffer := buffer
   r; held := held r; held_units := held_units r; say_all_trace := say_all_trace r; finished := x;
   display_held := display_held r |}.

(** ** The terminal's speech ([terminal.rs], [terminal/items.rs]) *)

Inductive Skipped := SkipCount (n : N) | SkipUncounted | SkipMoreThan (n : N) | SkipAbout (n : N).
#[export] Instance Skipped_eq_dec : EqDecision Skipped.
Proof. solve_decision. Defined.

Inductive Counted := Exactly | About_ | MoreThan_.
Inductive LineKind := LineCounted (counted : Counted) | LineGrowth.
Inductive WaitingOutput :=
  | WaitLine (line : string) (kind : LineKind)
  | WaitSkipped (skipped : Skipped)
  | WaitCut.

Record TerminalSpeechState := {
  waiting : list WaitingOutput;
  group : option nat;
  ahead : list (SpeechMark * bool);
  sounding : option SpeechMark;
  output_trace : option TraceId;
  deciding : bool;
  cut_at_ms : N;
}.
Definition no_terminal_speech : TerminalSpeechState :=
  {| waiting := []; group := None; ahead := []; sounding := None; output_trace := None;
     deciding := false; cut_at_ms := 0 |}.
Definition with_waiting (x : list WaitingOutput) (t : TerminalSpeechState) : TerminalSpeechState :=
  {| waiting := x; group := group t; ahead := ahead t; sounding := sounding t; output_trace :=
   output_trace t; deciding := deciding t; cut_at_ms := cut_at_ms t |}.
Definition with_group (x : option nat) (t : TerminalSpeechState) : TerminalSpeechState :=
  {| waiting := waiting t; group := x; ahead := ahead t; sounding := sounding t; output_trace :=
   output_trace t; deciding := deciding t; cut_at_ms := cut_at_ms t |}.
Definition with_ahead (x : list (SpeechMark * bool)) (t : TerminalSpeechState) : TerminalSpeechState :=
  {| waiting := waiting t; group := group t; ahead := x; sounding := sounding t; output_trace :=
   output_trace t; deciding := deciding t; cut_at_ms := cut_at_ms t |}.
Definition with_sounding (x : option SpeechMark) (t : TerminalSpeechState) : TerminalSpeechState :=
  {| waiting := waiting t; group := group t; ahead := ahead t; sounding := x; output_trace :=
   output_trace t; deciding := deciding t; cut_at_ms := cut_at_ms t |}.
Definition with_output_trace (x : option TraceId) (t : TerminalSpeechState) : TerminalSpeechState :=
  {| waiting := waiting t; group := group t; ahead := ahead t; sounding := sounding t;
   output_trace := x; deciding := deciding t; cut_at_ms := cut_at_ms t |}.
Definition with_deciding (x : bool) (t : TerminalSpeechState) : TerminalSpeechState :=
  {| waiting := waiting t; group := group t; ahead := ahead t; sounding := sounding t;
   output_trace := output_trace t; deciding := x; cut_at_ms := cut_at_ms t |}.
Definition with_cut_at_ms (x : N) (t : TerminalSpeechState) : TerminalSpeechState :=
  {| waiting := waiting t; group := group t; ahead := ahead t; sounding := sounding t;
   output_trace := output_trace t; deciding := deciding t; cut_at_ms := x |}.

(** ** Terminal models *)

(** What only [terminal_model.rs] reads of a model. *)
Class TerminalReading := { Reading : Type }.

(** ** The state *)

Section state.
Context `{TerminalReading}.

Record TerminalModel := {
  model_node : NodeId;
  model_held : bool;
  model_reviews : list QueryId;
  model_reading : Reading;
}.
Record Terminals := { models : list TerminalModel; next_generation : N }.

(** [Terminals::remove_where]: [model_reviews] are the queries of a model's
    waiting reviews, less those of a status bar. *)
Definition remove_where (which : TerminalModel -> bool) (self : Terminals) : Terminals * list QueryId :=
  ({| models := List.filter (fun model => negb (which model)) (models self);
      next_generation := next_generation self |},
   flat_map model_reviews (List.filter which (models self))).

Record SrState := {
  focus : option FocusContext;
  foreground_record : Foreground;
  group_taken : option (OutpostId * FocusGroup);
  queries : Queries;
  navigator : option Navigator;
  settings : ReaderSettings;
  caret : option CaretContext;
  caret_history : list (option TimedCaret);
  held_keys : HeldKeys;
  key_origins : list (TraceId * KeySeq);
  toggle_keys : list (Toggle.LockKey * N);
  start_marker : option StartMarker;
  start_marker_generation : N;
  saying : option SayAll;
  typed_word : string;
  next_mark : N;
  fetches : Fetches;
  terminal : TerminalSpeechState;
  terminals : Terminals;
  next_terminal_anchor : N;
  reported_format_of : option (NodeId * TextAttributes);
  last_tree_level : option N;
  progress_reported : list ((Z * Z) * N);
  exiting : bool;
}.

Definition with_focus (x : option FocusContext) (s : SrState) : SrState :=
  {| focus := x; foreground_record := foreground_record s; group_taken := group_taken s; queries
   := queries s; navigator := navigator s; settings := settings s; caret := caret s; caret_history
   := caret_history s; held_keys := held_keys s; key_origins := key_origins s; toggle_keys :=
   toggle_keys s; start_marker := start_marker s; start_marker_generation :=
   start_marker_generation s; saying := saying s; typed_word := typed_word s; next_mark :=
   next_mark s; fetches := fetches s; terminal := terminal s; terminals := terminals s;
   next_terminal_anchor := next_terminal_anchor s; reported_format_of := reported_format_of s;
   last_tree_level := last_tree_level s; progress_reported := progress_reported s; exiting :=
   exiting s |}.
Definition with_foreground_record (x : Foreground) (s : SrState) : SrState :=
  {| focus := focus s; foreground_record := x; group_taken := group_taken s; queries := queries s;
   navigator := navigator s; settings := settings s; caret := caret s; caret_history :=
   caret_history s; held_keys := held_keys s; key_origins := key_origins s; toggle_keys :=
   toggle_keys s; start_marker := start_marker s; start_marker_generation :=
   start_marker_generation s; saying := saying s; typed_word := typed_word s; next_mark :=
   next_mark s; fetches := fetches s; terminal := terminal s; terminals := terminals s;
   next_terminal_anchor := next_terminal_anchor s; reported_format_of := reported_format_of s;
   last_tree_level := last_tree_level s; progress_reported := progress_reported s; exiting :=
   exiting s |}.
Definition with_group_taken (x : option (OutpostId * FocusGroup)) (s : SrState) : SrState :=
  {| focus := focus s; foreground_record := foreground_record s; group_taken := x; queries :=
   queries s; navigator := navigator s; settings := settings s; caret := caret s; caret_history :=
   caret_history s; held_keys := held_keys s; key_origins := key_origins s; toggle_keys :=
   toggle_keys s; start_marker := start_marker s; start_marker_generation :=
   start_marker_generation s; saying := saying s; typed_word := typed_word s; next_mark :=
   next_mark s; fetches := fetches s; terminal := terminal s; terminals := terminals s;
   next_terminal_anchor := next_terminal_anchor s; reported_format_of := reported_format_of s;
   last_tree_level := last_tree_level s; progress_reported := progress_reported s; exiting :=
   exiting s |}.
Definition with_queries (x : Queries) (s : SrState) : SrState :=
  {| focus := focus s; foreground_record := foreground_record s; group_taken := group_taken s;
   queries := x; navigator := navigator s; settings := settings s; caret := caret s; caret_history
   := caret_history s; held_keys := held_keys s; key_origins := key_origins s; toggle_keys :=
   toggle_keys s; start_marker := start_marker s; start_marker_generation :=
   start_marker_generation s; saying := saying s; typed_word := typed_word s; next_mark :=
   next_mark s; fetches := fetches s; terminal := terminal s; terminals := terminals s;
   next_terminal_anchor := next_terminal_anchor s; reported_format_of := reported_format_of s;
   last_tree_level := last_tree_level s; progress_reported := progress_reported s; exiting :=
   exiting s |}.
Definition with_navigator (x : option Navigator) (s : SrState) : SrState :=
  {| focus := focus s; foreground_record := foreground_record s; group_taken := group_taken s;
   queries := queries s; navigator := x; settings := settings s; caret := caret s; caret_history :=
   caret_history s; held_keys := held_keys s; key_origins := key_origins s; toggle_keys :=
   toggle_keys s; start_marker := start_marker s; start_marker_generation :=
   start_marker_generation s; saying := saying s; typed_word := typed_word s; next_mark :=
   next_mark s; fetches := fetches s; terminal := terminal s; terminals := terminals s;
   next_terminal_anchor := next_terminal_anchor s; reported_format_of := reported_format_of s;
   last_tree_level := last_tree_level s; progress_reported := progress_reported s; exiting :=
   exiting s |}.
Definition with_settings (x : ReaderSettings) (s : SrState) : SrState :=
  {| focus := focus s; foreground_record := foreground_record s; group_taken := group_taken s;
   queries := queries s; navigator := navigator s; settings := x; caret := caret s; caret_history
   := caret_history s; held_keys := held_keys s; key_origins := key_origins s; toggle_keys :=
   toggle_keys s; start_marker := start_marker s; start_marker_generation :=
   start_marker_generation s; saying := saying s; typed_word := typed_word s; next_mark :=
   next_mark s; fetches := fetches s; terminal := terminal s; terminals := terminals s;
   next_terminal_anchor := next_terminal_anchor s; reported_format_of := reported_format_of s;
   last_tree_level := last_tree_level s; progress_reported := progress_reported s; exiting :=
   exiting s |}.
Definition with_caret (x : option CaretContext) (s : SrState) : SrState :=
  {| focus := focus s; foreground_record := foreground_record s; group_taken := group_taken s;
   queries := queries s; navigator := navigator s; settings := settings s; caret := x;
   caret_history := caret_history s; held_keys := held_keys s; key_origins := key_origins s;
   toggle_keys := toggle_keys s; start_marker := start_marker s; start_marker_generation :=
   start_marker_generation s; saying := saying s; typed_word := typed_word s; next_mark :=
   next_mark s; fetches := fetches s; terminal := terminal s; terminals := terminals s;
   next_terminal_anchor := next_terminal_anchor s; reported_format_of := reported_format_of s;
   last_tree_level := last_tree_level s; progress_reported := progress_reported s; exiting :=
   exiting s |}.
Definition with_caret_history (x : list (option TimedCaret)) (s : SrState) : SrState :=
  {| focus := focus s; foreground_record := foreground_record s; group_taken := group_taken s;
   queries := queries s; navigator := navigator s; settings := settings s; caret := caret s;
   caret_history := x; held_keys := held_keys s; key_origins := key_origins s; toggle_keys :=
   toggle_keys s; start_marker := start_marker s; start_marker_generation :=
   start_marker_generation s; saying := saying s; typed_word := typed_word s; next_mark :=
   next_mark s; fetches := fetches s; terminal := terminal s; terminals := terminals s;
   next_terminal_anchor := next_terminal_anchor s; reported_format_of := reported_format_of s;
   last_tree_level := last_tree_level s; progress_reported := progress_reported s; exiting :=
   exiting s |}.
Definition with_held_keys (x : HeldKeys) (s : SrState) : SrState :=
  {| focus := focus s; foreground_record := foreground_record s; group_taken := group_taken s;
   queries := queries s; navigator := navigator s; settings := settings s; caret := caret s;
   caret_history := caret_history s; held_keys := x; key_origins := key_origins s; toggle_keys :=
   toggle_keys s; start_marker := start_marker s; start_marker_generation :=
   start_marker_generation s; saying := saying s; typed_word := typed_word s; next_mark :=
   next_mark s; fetches := fetches s; terminal := terminal s; terminals := terminals s;
   next_terminal_anchor := next_terminal_anchor s; reported_format_of := reported_format_of s;
   last_tree_level := last_tree_level s; progress_reported := progress_reported s; exiting :=
   exiting s |}.
Definition with_key_origins (x : list (TraceId * KeySeq)) (s : SrState) : SrState :=
  {| focus := focus s; foreground_record := foreground_record s; group_taken := group_taken s;
   queries := queries s; navigator := navigator s; settings := settings s; caret := caret s;
   caret_history := caret_history s; held_keys := held_keys s; key_origins := x; toggle_keys :=
   toggle_keys s; start_marker := start_marker s; start_marker_generation :=
   start_marker_generation s; saying := saying s; typed_word := typed_word s; next_mark :=
   next_mark s; fetches := fetches s; terminal := terminal s; terminals := terminals s;
   next_terminal_anchor := next_terminal_anchor s; reported_format_of := reported_format_of s;
   last_tree_level := last_tree_level s; progress_reported := progress_reported s; exiting :=
   exiting s |}.
Definition with_toggle_keys (x : list (Toggle.LockKey * N)) (s : SrState) : SrState :=
  {| focus := focus s; foreground_record := foreground_record s; group_taken := group_taken s;
   queries := queries s; navigator := navigator s; settings := settings s; caret := caret s;
   caret_history := caret_history s; held_keys := held_keys s; key_origins := key_origins s;
   toggle_keys := x; start_marker := start_marker s; start_marker_generation :=
   start_marker_generation s; saying := saying s; typed_word := typed_word s; next_mark :=
   next_mark s; fetches := fetches s; terminal := terminal s; terminals := terminals s;
   next_terminal_anchor := next_terminal_anchor s; reported_format_of := reported_format_of s;
   last_tree_level := last_tree_level s; progress_reported := progress_reported s; exiting :=
   exiting s |}.
Definition with_start_marker (x : option StartMarker) (s : SrState) : SrState :=
  {| focus := focus s; foreground_record := foreground_record s; group_taken := group_taken s;
   queries := queries s; navigator := navigator s; settings := settings s; caret := caret s;
   caret_history := caret_history s; held_keys := held_keys s; key_origins := key_origins s;
   toggle_keys := toggle_keys s; start_marker := x; start_marker_generation :=
   start_marker_generation s; saying := saying s; typed_word := typed_word s; next_mark :=
   next_mark s; fetches := fetches s; terminal := terminal s; terminals := terminals s;
   next_terminal_anchor := next_terminal_anchor s; reported_format_of := reported_format_of s;
   last_tree_level := last_tree_level s; progress_reported := progress_reported s; exiting :=
   exiting s |}.
Definition with_start_marker_generation (x : N) (s : SrState) : SrState :=
  {| focus := focus s; foreground_record := foreground_record s; group_taken := group_taken s;
   queries := queries s; navigator := navigator s; settings := settings s; caret := caret s;
   caret_history := caret_history s; held_keys := held_keys s; key_origins := key_origins s;
   toggle_keys := toggle_keys s; start_marker := start_marker s; start_marker_generation := x;
   saying := saying s; typed_word := typed_word s; next_mark := next_mark s; fetches := fetches s;
   terminal := terminal s; terminals := terminals s; next_terminal_anchor := next_terminal_anchor
   s; reported_format_of := reported_format_of s; last_tree_level := last_tree_level s;
   progress_reported := progress_reported s; exiting := exiting s |}.
Definition with_saying (x : option SayAll) (s : SrState) : SrState :=
  {| focus := focus s; foreground_record := foreground_record s; group_taken := group_taken s;
   queries := queries s; navigator := navigator s; settings := settings s; caret := caret s;
   caret_history := caret_history s; held_keys := held_keys s; key_origins := key_origins s;
   toggle_keys := toggle_keys s; start_marker := start_marker s; start_marker_generation :=
   start_marker_generation s; saying := x; typed_word := typed_word s; next_mark := next_mark s;
   fetches := fetches s; terminal := terminal s; terminals := terminals s; next_terminal_anchor :=
   next_terminal_anchor s; reported_format_of := reported_format_of s; last_tree_level :=
   last_tree_level s; progress_reported := progress_reported s; exiting := exiting s |}.
Definition with_typed_word (x : string) (s : SrState) : SrState :=
  {| focus := focus s; foreground_record := foreground_record s; group_taken := group_taken s;
   queries := queries s; navigator := navigator s; settings := settings s; caret := caret s;
   caret_history := caret_history s; held_keys := held_keys s; key_origins := key_origins s;
   toggle_keys := toggle_keys s; start_marker := start_marker s; start_marker_generation :=
   start_marker_generation s; saying := saying s; typed_word := x; next_mark := next_mark s;
   fetches := fetches s; terminal := terminal s; terminals := terminals s; next_terminal_anchor :=
   next_terminal_anchor s; reported_format_of := reported_format_of s; last_tree_level :=
   last_tree_level s; progress_reported := progress_reported s; exiting := exiting s |}.
Definition with_next_mark (x : N) (s : SrState) : SrState :=
  {| focus := focus s; foreground_record := foreground_record s; group_taken := group_taken s;
   queries := queries s; navigator := navigator s; settings := settings s; caret := caret s;
   caret_history := caret_history s; held_keys := held_keys s; key_origins := key_origins s;
   toggle_keys := toggle_keys s; start_marker := start_marker s; start_marker_generation :=
   start_marker_generation s; saying := saying s; typed_word := typed_word s; next_mark := x;
   fetches := fetches s; terminal := terminal s; terminals := terminals s; next_terminal_anchor :=
   next_terminal_anchor s; reported_format_of := reported_format_of s; last_tree_level :=
   last_tree_level s; progress_reported := progress_reported s; exiting := exiting s |}.
Definition with_fetches (x : Fetches) (s : SrState) : SrState :=
  {| focus := focus s; foreground_record := foreground_record s; group_taken := group_taken s;
   queries := queries s; navigator := navigator s; settings := settings s; caret := caret s;
   caret_history := caret_history s; held_keys := held_keys s; key_origins := key_origins s;
   toggle_keys := toggle_keys s; start_marker := start_marker s; start_marker_generation :=
   start_marker_generation s; saying := saying s; typed_word := typed_word s; next_mark :=
   next_mark s; fetches := x; terminal := terminal s; terminals := terminals s;
   next_terminal_anchor := next_terminal_anchor s; reported_format_of := reported_format_of s;
   last_tree_level := last_tree_level s; progress_reported := progress_reported s; exiting :=
   exiting s |}.
Definition with_terminal (x : TerminalSpeechState) (s : SrState) : SrState :=
  {| focus := focus s; foreground_record := foreground_record s; group_taken := group_taken s;
   queries := queries s; navigator := navigator s; settings := settings s; caret := caret s;
   caret_history := caret_history s; held_keys := held_keys s; key_origins := key_origins s;
   toggle_keys := toggle_keys s; start_marker := start_marker s; start_marker_generation :=
   start_marker_generation s; saying := saying s; typed_word := typed_word s; next_mark :=
   next_mark s; fetches := fetches s; terminal := x; terminals := terminals s; next_terminal_anchor
   := next_terminal_anchor s; reported_format_of := reported_format_of s; last_tree_level :=
   last_tree_level s; progress_reported := progress_reported s; exiting := exiting s |}.
Definition with_terminals (x : Terminals) (s : SrState) : SrState :=
  {| focus := focus s; foreground_record := foreground_record s; group_taken := group_taken s;
   queries := queries s; navigator := navigator s; settings := settings s; caret := caret s;
   caret_history := caret_history s; held_keys := held_keys s; key_origins := key_origins s;
   toggle_keys := toggle_keys s; start_marker := start_marker s; start_marker_generation :=
   start_marker_generation s; saying := saying s; typed_word := typed_word s; next_mark :=
   next_mark s; fetches := fetches s; terminal := terminal s; terminals := x; next_terminal_anchor
   := next_terminal_anchor s; reported_format_of := reported_format_of s; last_tree_level :=
   last_tree_level s; progress_reported := progress_reported s; exiting := exiting s |}.
Definition with_next_terminal_anchor (x : N) (s : SrState) : SrState :=
  {| focus := focus s; foreground_record := foreground_record s; group_taken := group_taken s;
   queries := queries s; navigator := navigator s; settings := settings s; caret := caret s;
   caret_history := caret_history s; held_keys := held_keys s; key_origins := key_origins s;
   toggle_keys := toggle_keys s; start_marker := start_marker s; start_marker_generation :=
   start_marker_generation s; saying := saying s; typed_word := typed_word s; next_mark :=
   next_mark s; fetches := fetches s; terminal := terminal s; terminals := terminals s;
   next_terminal_anchor := x; reported_format_of := reported_format_of s; last_tree_level :=
   last_tree_level s; progress_reported := progress_reported s; exiting := exiting s |}.
Definition with_reported_format_of (x : option (NodeId * TextAttributes)) (s : SrState) : SrState :=
  {| focus := focus s; foreground_record := foreground_record s; group_taken := group_taken s;
   queries := queries s; navigator := navigator s; settings := settings s; caret := caret s;
   caret_history := caret_history s; held_keys := held_keys s; key_origins := key_origins s;
   toggle_keys := toggle_keys s; start_marker := start_marker s; start_marker_generation :=
   start_marker_generation s; saying := saying s; typed_word := typed_word s; next_mark :=
   next_mark s; fetches := fetches s; terminal := terminal s; terminals := terminals s;
   next_terminal_anchor := next_terminal_anchor s; reported_format_of := x; last_tree_level :=
   last_tree_level s; progress_reported := progress_reported s; exiting := exiting s |}.
Definition with_last_tree_level (x : option N) (s : SrState) : SrState :=
  {| focus := focus s; foreground_record := foreground_record s; group_taken := group_taken s;
   queries := queries s; navigator := navigator s; settings := settings s; caret := caret s;
   caret_history := caret_history s; held_keys := held_keys s; key_origins := key_origins s;
   toggle_keys := toggle_keys s; start_marker := start_marker s; start_marker_generation :=
   start_marker_generation s; saying := saying s; typed_word := typed_word s; next_mark :=
   next_mark s; fetches := fetches s; terminal := terminal s; terminals := terminals s;
   next_terminal_anchor := next_terminal_anchor s; reported_format_of := reported_format_of s;
   last_tree_level := x; progress_reported := progress_reported s; exiting := exiting s |}.
Definition with_progress_reported (x : list ((Z * Z) * N)) (s : SrState) : SrState :=
  {| focus := focus s; foreground_record := foreground_record s; group_taken := group_taken s;
   queries := queries s; navigator := navigator s; settings := settings s; caret := caret s;
   caret_history := caret_history s; held_keys := held_keys s; key_origins := key_origins s;
   toggle_keys := toggle_keys s; start_marker := start_marker s; start_marker_generation :=
   start_marker_generation s; saying := saying s; typed_word := typed_word s; next_mark :=
   next_mark s; fetches := fetches s; terminal := terminal s; terminals := terminals s;
   next_terminal_anchor := next_terminal_anchor s; reported_format_of := reported_format_of s;
   last_tree_level := last_tree_level s; progress_reported := x; exiting := exiting s |}.
Definition with_exiting (x : bool) (s : SrState) : SrState :=
  {| focus := focus s; foreground_record := foreground_record s; group_taken := group_taken s;
   queries := queries s; navigator := navigator s; settings := settings s; caret := caret s;
   caret_history := caret_history s; held_keys := held_keys s; key_origins := key_origins s;
   toggle_keys := toggle_keys s; start_marker := start_marker s; start_marker_generation :=
   start_marker_generation s; saying := saying s; typed_word := typed_word s; next_mark :=
   next_mark s; fetches := fetches s; terminal := terminal s; terminals := terminals s;
   next_terminal_anchor := next_terminal_anchor s; reported_format_of := reported_format_of s;
   last_tree_level := last_tree_level s; progress_reported := progress_reported s; exiting := x |}.

(** [SrState::new]. *)
Definition new_state : SrState :=
  {| focus := None; foreground_record := empty_foreground; group_taken := None; queries := no_queries;
     navigator := None; settings := default_settings; caret := None; caret_history := no_history;
     held_keys := no_held_keys; key_origins := []; toggle_keys := []; start_marker := None;
     start_marker_generation := 0; saying := None; typed_word := EmptyString; next_mark := 0;
     fetches := all_fetches; terminal := no_terminal_speech;
     terminals := {| models := []; next_generation := 0 |}; next_terminal_anchor := 0;
     reported_format_of := None; last_tree_level := None; progress_reported := []; exiting := false |}.

(** [SrState::forget_caret]. *)
Definition forget_caret (s : SrState) : SrState := with_caret None (with_caret_history no_history s).

(** [SrState::allocate_mark]. *)
Definition allocate_mark (s : SrState) : SrState * SpeechMark :=
  (with_next_mark (next_mark s +|64| 1) s, {| mark_value := next_mark s |}).

(** The focus while its outpost runs, and [SrState::focus_matches]. *)
Definition live_focus (s : SrState) : option FocusContext :=
  focus ← focus s; if alive focus then Some focus else None.
Definition focus_matches (node_id : NodeId) (s : SrState) : bool :=
  match live_focus s with Some focus => bool_decide (id (focus_node focus) = node_id) | None => false end.

(** A change of the focus, and of the queries. *)
Definition update_focus (f : FocusContext -> FocusContext) (s : SrState) : SrState :=
  with_focus (f <$> focus s) s.
Definition forget_queries (which : Then -> bool) (s : SrState) : SrState :=
  with_queries (forget which (queries s)) s.
Definition ask_query (asking : Asking) (t : Then) (s : SrState) : SrState * QueryId * Effect :=
  let '(queries, query_id, effect) := ask asking t (queries s) in
  (with_queries queries s, query_id, effect).
Definition apply_foreground (fact : ForegroundFact) (s : SrState) : SrState :=
  with_foreground_record (apply fact (foreground_record s)) s.

(** [SrState::drop_models]. *)
Definition drop_models (which : TerminalModel -> bool) (s : SrState) : SrState :=
  let '(terminals, reviews) := remove_where which (terminals s) in
  with_queries (forget_memory reviews (queries s)) (with_terminals terminals s).

(** [SrState::reading_held] and [held_busy]. *)
Definition reading_held (s : SrState) : option (QueryId * HeldRead) :=
  match find_query (fun t => match t with ThenHeldRead _ => true | _ => false end) (queries s) with
  | Some (query_id, ThenHeldRead reading) => Some (query_id, reading)
  | _ => None
  end.
Definition held_busy (s : SrState) : bool :=
  match reading_held s, waiting_keys (held_keys s) with None, [] => false | _, _ => true end.

(** [SrState::focus_source]. *)
Definition focus_source (s : SrState) : option Pid := focus_from <$> focus s.

(** ** Steps

    A handler takes the state and gives the new one with its effects in order;
    [first_ >>+ then_] runs one after the other. *)

Definition Step := SrState -> SrState * list Effect.
Definition quiet (f : SrState -> SrState) : Step := fun s => (f s, []).
Definition silent : Step := fun s => (s, []).
Definition emit (effects : list Effect) : Step := fun s => (s, effects).
Definition seq_steps (first_ then_ : Step) : Step := fun s =>
  let '(s, effects) := first_ s in
  let '(s, more) := then_ s in
  (s, effects ++ more).
Fixpoint each_step {A} (f : A -> Step) (l : list A) : Step :=
  match l with [] => silent | x :: l => seq_steps (f x) (each_step f l) end.

(** ** What the shell reads of it *)

(** [SrState::held_nodes]: a node is held by its own outpost, so the groups
    are the set's nodes by outpost. *)
Definition held_by_then (t : Then) : list NodeId :=
  match t with
  | ThenNavigation from _ => [from]
  | ThenCaret pending => [pc_node pending]
  | ThenText pending => [pt_node pending]
  | ThenHeldRead reading => [hr_node reading]
  | _ => []
  end.
Definition held_nodes (s : SrState) : list NodeId :=
  (match live_focus s with
   | Some focus => id (focus_node focus) :: (id <$> focus_ancestors focus) ++ option_list (last_selection focus)
   | None => []
   end) ++
  option_list ((fun n => id (object n)) <$> navigator s) ++
  flat_map held_by_then (continuations (queries s)) ++
  option_list (caret_node <$> caret s) ++
  option_list (marker_node <$> start_marker s) ++
  option_list (reading_node <$> saying s).

(** [SrState::held_anchors], each with the node whose outpost minted it. *)
Definition held_anchors (s : SrState) : list (NodeId * TextAnchor) :=
  (match caret s with
   | Some c => (caret_node c, chunk_start (context_line c)) ::
       match caret_selection c with
       | Some selection => [(caret_node c, anchor (selection_start selection));
                            (caret_node c, anchor (selection_end selection))]
       | None => []
       end
   | None => []
   end) ++
  (match navigator s with
   | Some n =>
       match review_text n with
       | ReviewAt position => [(id (object n), chunk_start (review_line position))]
       | ReviewPoint point => [(id (object n), anchor point)]
       | _ => []
       end
   | None => []
   end) ++
  (match start_marker s with
   | Some (MarkerText node at_ after selected_to) =>
       (node, anchor at_) :: (node, anchor after) ::
       match selected_to with
       | Some (end_, end_after) => [(node, anchor end_); (node, anchor end_after)]
       | None => []
       end
   | _ => []
   end) ++
  (match saying s with
   | Some r =>
       option_list ((fun p => (reading_node r, anchor p.1)) <$> last_chunk r) ++
       ((fun unit_ => (reading_node r, chunk_start (unit_chunk unit_))) <$> omap mark_unit (queued r)) ++
       ((fun piece => (reading_node r, chunk_start (piece_chunk piece))) <$>
          (List.concat (buffer r) ++ held r))
   | None => []
   end).

End state.

Infix ">>+" := seq_steps (at level 60, right associativity).
