(* ===== verification/CoreShell.v ===== *)
(** * What the shell's threads learn, and the keys of speech

    [src/crates/verbatim-core/src/shell.rs]: the sounds, words and requests of
    what the shell's threads learn, and the scripts of the gestures that are no
    review commands. [keys.rs]: the numbers of the keys that caused what is
    spoken, kept by trace, and the stamp that puts them on a step's effects. *)

From S2P Require Import Prelude Text Keys Tree TextModel Facts Messages Speech SpeechQueue FocusRules TextUnits CoreText CoreEvents ForegroundRecord CoreQueries CoreState Announce.

(** ** Key numbers *)

Definition KEY_ORIGINS_KEPT : nat := 1024.
Definition KeyOrigins := list (TraceId * KeySeq).

(** [KeyOrigins::record] and [KeyOrigins::key_of]. *)
Definition record_origin (trace_id : TraceId) (key : KeySeq) (self : KeyOrigins) : KeyOrigins :=
  (if bool_decide (length self = KEY_ORIGINS_KEPT) then drop 1 self else self) ++ [(trace_id, key)].
Definition key_of (trace_id : TraceId) (self : KeyOrigins) : option KeySeq :=
  snd <$> find (fun p => bool_decide (p.1 = trace_id)) (rev self).

Definition user_key (input : Input) : option (TraceId * KeySeq) :=
  let numbered trace_id key := if bool_decide (key = NONE_YET) then None else Some (trace_id, key) in
  match input with
  | InCaretKey trace_id key_seq _ _ | InHeldKey trace_id key_seq _ _ | InCharacterTyped trace_id key_seq _ _
  | InClearingKey trace_id key_seq _ | InCommand trace_id key_seq _ _ _ | InScript trace_id key_seq _ _ _
  | InToggleKeyPressed trace_id key_seq _ _ => numbered trace_id key_seq
  | _ => None
  end.

Fixpoint stamp_one (origins : KeyOrigins) (trace : option TraceId) (effect : Effect) : Effect :=
  match effect with
  | EffSpeak utterance _ =>
      EffSpeak utterance
        (match trace ≫= (fun trace_id => key_of trace_id origins) with
         | Some key => Some key
         | None => key_of (utt_trace_id utterance) origins
         end)
  | EffForKey key_trace inner => EffForKey key_trace (stamp_one origins (Some key_trace) inner)
  | effect => effect
  end.

(** ** Scripts *)

Definition shell_list_kind (repeat : N) : ShellItemKind := if repeat =? 0 then SystemTray else Taskbar.
Definition script (the_script : Script) (repeat : N) : list Effect :=
  [match the_script with
   | ReportTime => EffReadClock repeat
   | ShowMenu => EffShow GuiMenu
   | ScriptShellList => EffShow (GuiShellList (shell_list_kind repeat))
   end].

(** ** Facts of the shell *)

Definition TOGGLE_KEY_DELAY_MS : N := 30.

Definition utterance (trace_id : TraceId) (p : SpeechPriority) (segments : list UtteranceSegment) : Effect :=
  EffSpeak (plain_utterance trace_id p segments) None.

Definition exiting_ (replaced : bool) : list Effect :=
  if replaced then [] else [EffStopSpeech; EffPlayEarcon EarconExit].

Definition lock_key (trace_id : TraceId) (key : Toggle.LockKey) (on : bool) : list Effect :=
  [utterance trace_id Interrupt [segment (SegPhrase (LockKeyState key on))]].

Definition clock (trace_id : TraceId) (repeat : N) (time date : option string) : list Effect :=
  match if repeat =? 0 then time else date with
  | Some text => [utterance trace_id Interrupt [text_segment text]]
  | None => []
  end.

Definition clipboard (trace_id : TraceId) (text : string) (copied : bool) : list Effect :=
  [utterance trace_id Interrupt
     [segment (if copied then SegPhrase (CopiedToClipboard text) else SegMessage UnableToCopy)]].

Definition shell_item_not_clicked (trace_id : TraceId) (phrase : Phrase) : list Effect :=
  [utterance trace_id Queued [segment (SegPhrase phrase)]].

Section core.
Context `{TerminalReading}.

(** [keys::record] and [keys::stamp]. *)
Definition record_input (input : Input) (s : SrState) : SrState :=
  match user_key input with
  | Some (trace_id, key) => with_key_origins (record_origin trace_id key (key_origins s)) s
  | None => s
  end.
Definition stamp (s : SrState) (input : Input) (effects : list Effect) : list Effect :=
  stamp_one (key_origins s) (input_trace_id input) <$> effects.

(** [reduce::process_is_attended]. *)
Definition process_is_attended (s : SrState) (attention : Attention) (process : Pid) : bool :=
  bool_decide (process = at_source attention) ||
  match focus s with
  | Some focus =>
      bool_decide (focus_from focus = process) &&
      match focus_window focus, at_window attention with
      | Some focus, Some attended => bool_decide (top_level focus = top_level attended)
      | _, _ => false
      end
  | None => false
  end.

Definition not_responding (s : SrState) (process : Pid) : list Effect :=
  match attention (foreground_record s) with
  | Some attention =>
      if process_is_attended s attention process then [EffPlayEarcon AppNotResponding] else []
  | None => []
  end.

Definition toggle_key_pressed (toggle : Toggle.LockKey) (pressed_at_ms : N) (s : SrState) : SrState :=
  with_toggle_keys (toggle_keys s ++ [(toggle, pressed_at_ms +|64| TOGGLE_KEY_DELAY_MS)]) s.
(** [SrState::toggle_key_read_due]. *)
Definition toggle_key_read_due (s : SrState) : option (Toggle.LockKey * N) := head (toggle_keys s).

Definition menu_or_switch_ended (s : SrState) (ended_at_us : N) : list Effect :=
  match applied_at (foreground_record s) with
  | Some observed => if ended_at_us <=? observed then [] else [EffReadForegroundFocus]
  | None => [EffReadForegroundFocus]
  end.

(** [shell::reduce]. *)
Definition reduce_shell (input : Input) : Step := fun s =>
  match input with
  | InStarted => (s, [EffPlayEarcon EarconStart])
  | InExiting replaced => (with_exiting true s, exiting_ replaced)
  | InErrorLogged => (s, [EffPlayEarcon EarconError])
  | InApplicationNotResponding _ process => (s, not_responding s process)
  | InToggleKeyPressed _ _ toggle pressed_at_ms => (toggle_key_pressed toggle pressed_at_ms s, [])
  | InLockKeyToggled trace_id key on => (with_toggle_keys (drop 1 (toggle_keys s)) s, lock_key trace_id key on)
  | InClockRead trace_id repeat time date => (s, clock trace_id repeat time date)
  | InClipboardCopied trace_id text copied => (s, clipboard trace_id text copied)
  | InShellItemGone trace_id name => (s, shell_item_not_clicked trace_id (ShellItemGone name))
  | InShellItemUnclickable trace_id name => (s, shell_item_not_clicked trace_id (ShellItemUnclickable name))
  | InPreviewSpeech trace_id segments => (s, [utterance trace_id Interrupt segments])
  | InPreviewEarcon earcon => (s, [EffPlayEarcon earcon])
  | InMenuOrSwitchEnded ended_at_us => (s, menu_or_switch_ended s ended_at_us)
  | _ => (s, [])
  end.

End core.

(** ** The numbers are kept *)

Lemma record_origin_length trace_id key self :
  (length self <= KEY_ORIGINS_KEPT)%nat -> (length (record_origin trace_id key self) <= KEY_ORIGINS_KEPT)%nat.
Proof.
  intros Hle. unfold record_origin. rewrite length_app. cbn [length]. case_bool_decide.
  - rewrite length_drop. unfold KEY_ORIGINS_KEPT in *. lia.
  - lia.
Qed.

Lemma key_of_snoc trace_id self t key :
  key_of trace_id (self ++ [(t, key)]) = if bool_decide (t = trace_id) then Some key else key_of trace_id self.
Proof. unfold key_of. rewrite rev_unit. simpl. by case_bool_decide. Qed.

(** The key recorded last for a trace is the one found. *)
Lemma key_of_recorded trace_id key self : key_of trace_id (record_origin trace_id key self) = Some key.
Proof. unfold record_origin. rewrite key_of_snoc bool_decide_eq_true_2 //. Qed.

Lemma find_app_l {A} (f : A -> bool) l k x : find f l = Some x -> find f (l ++ k) = Some x.
Proof. induction l as [|y l IH]; simpl; [done|]. by destruct (f y). Qed.

Lemma key_of_app trace_id old self key : key_of trace_id self = Some key -> key_of trace_id (old ++ self) = Some key.
Proof.
  unfold key_of. rewrite rev_app_distr. destruct (find _ (rev self)) as [p|] eqn:Hf; [|done].
  intros [= <-]. by rewrite (find_app_l _ _ _ _ Hf).
Qed.

(** A trace's number stays known while fewer than the table's size follow. *)
Definition record_all (l : KeyOrigins) (self : KeyOrigins) : KeyOrigins :=
  foldl (fun self p => record_origin p.1 p.2 self) self l.

Lemma record_all_suffix l self :
  (length self <= KEY_ORIGINS_KEPT)%nat ->
  record_all l self = drop (length (self ++ l) - KEY_ORIGINS_KEPT) (self ++ l).
Proof.
  revert self. induction l as [|[t k] l IH] using rev_ind; intros self Hle.
  { simpl. rewrite app_nil_r. replace (length self - KEY_ORIGINS_KEPT)%nat with 0%nat by lia. done. }
  unfold record_all. rewrite foldl_app. fold (record_all l self). rewrite (IH self Hle). cbn [foldl fst snd].
  rewrite (app_assoc self l). set (all := self ++ l). unfold record_origin. rewrite length_drop length_app. cbn [length].
  case_bool_decide as Hl.
  - rewrite drop_drop. rewrite drop_app_le; [|unfold KEY_ORIGINS_KEPT in *; lia]. f_equal. f_equal.
    unfold KEY_ORIGINS_KEPT in *. lia.
  - rewrite drop_app_le; [|lia]. f_equal. f_equal. unfold KEY_ORIGINS_KEPT in *. lia.
Qed.

Section stamps.
Context `{TerminalReading}.

Lemma user_key_trace input trace_id key : user_key input = Some (trace_id, key) -> input_trace_id input = Some trace_id.
Proof. destruct input; try done; simpl; case_bool_decide; congruence. Qed.

(** What the step of a key's input speaks carries that key's number. *)
Lemma stamped_with_key input trace_id key s effects utterance stamped :
  user_key input = Some (trace_id, key) ->
  EffSpeak utterance stamped ∈ stamp (record_input input s) input effects -> stamped = Some key.
Proof.
  intros Hk. unfold stamp, record_input. rewrite Hk (user_key_trace _ _ _ Hk).
  intros ([] & He & _)%list_elem_of_fmap; try done. cbn [mbind option_bind stamp_one key_origins with_key_origins] in He.
  rewrite key_of_recorded in He. by injection He as _ ->.
Qed.

End stamps.
