(* ===== verification/Editing.v ===== *)
(** * Carets, selections and typing

    [src/crates/verbatim-core/src/editing.rs], less the keys held back, which
    are in [HeldKeys]: Core's caret and its history, what a caret key did, the
    selection's changes, the text an object says, and typing echo, with
    [say_all::stop]. Of [terminal_model.rs] nothing is needed here. *)

From S2P Require Import Prelude Text Tree TextModel Facts Messages Speech FocusRules Announce TextUnits CoreText CoreEvents CoreQueries CoreState.

Definition HELD_READ_BOUND_MS : N := 150.
Definition KEY_AHEAD_BOUND_MS : N := 100.
Definition MAX_TYPED_WORD : nat := 256.
Definition SELECTION_SPOKEN_AS_COUNT : N := 512.
Definition PROTECTED_CHARACTER : string := "*".

(** ** Roles and speech *)

Definition may_have_text (role : Role) : bool :=
  match role with RoleEditableText | RoleDocument | RoleTerminal => true | _ => false end.
Definition is_grid (role : Role) : bool := bool_decide (role = RoleTerminal).
Definition is_editable (node : NodeSnapshot) : bool :=
  match role node with
  | RoleEditableText | RoleTerminal => true
  | RoleDocument => negb (StateSet.contains (states node) ReadOnly)
  | _ => false
  end.

Definition speak (trace_id : TraceId) (segments : list UtteranceSegment) : Effect :=
  EffSpeak (plain_utterance trace_id Queued segments) None.
Definition speak_each (trace_id : TraceId) (segments : list UtteranceSegment) : list Effect :=
  (fun segment => speak trace_id [segment]) <$> segments.

(** Queued speech about a node, valid as [validity] says. *)
Definition speak_of (trace_id : TraceId) (node : NodeSnapshot) (segments : list UtteranceSegment)
    (validity : option FocusValidity) : Effect :=
  EffSpeak {| utt_trace_id := trace_id; priority := Queued; utt_segments := segments;
              source := Some (source_of node); validity := validity; say_all := false |} None.
Definition speak_about (trace_id : TraceId) (node : NodeSnapshot) (segments : list UtteranceSegment) :
    Effect := speak_of trace_id node segments None.
Definition while_focus (node : NodeSnapshot) : FocusValidity :=
  {| valid_node := id node; had_focus := true; valid_window := details_window (details node) |}.

(** ** What happened to a line *)

Inductive Removal := Removed (text : string) | Joined | RemovedNothing.

(** The line as [removal] reads it, padded up to the caret in a terminal. *)
Definition read_line (line : string * nat) (grid : bool) : string :=
  let content := line_content line.1 grid in
  if grid && bool_decide (String.length content < line.2)%nat
  then String.append content (String.string_of_list_ascii (replicate (line.2 - String.length content) " "%char))
  else content.

(** [str::ends_with]. *)
Definition ends_with (text suffix : string) : bool :=
  bool_decide (String.length suffix <= String.length text)%nat &&
  bool_decide (String.substring (String.length text - String.length suffix) (String.length suffix) text
               = suffix).

(** [str::trim_end]. *)
Definition trim_end (text : string) : string := trim_end_matches is_whitespace text.

Definition removal (before after : string * nat) (grid : bool) : Removal :=
  let '(was, b) := (read_line before grid, before.2) in
  let '(now, a) := (read_line after grid, after.2) in
  if bool_decide (b < a)%nat || negb (is_char_boundary was b) || negb (is_char_boundary now a) ||
     bool_decide (String.length was < b)%nat || bool_decide (String.length now < a)%nat
  then
    if bool_decide (a = String.length now - String.length was)%nat && ends_with now was
    then Joined else RemovedNothing
  else
    let kept_before := bool_decide (get was (0%nat, a) = get now (0%nat, a)) in
    let end_ := (a + (String.length was - String.length now))%nat in
    let stayed :=
      if bool_decide (a = b) && kept_before && bool_decide (String.length now < String.length was)%nat
      then gone ← get was (a, end_);
           if bool_decide (get_from was end_ = get_from now a) then Some gone else None
      else None in
    match stayed with
    | Some gone => Removed gone
    | None =>
        let kept_after :=
          bool_decide (get_from was b = get_from now a) ||
          (grid && bool_decide (trim_end <$> get_from was b = trim_end <$> get_from now a)) in
        match get was (a, b) with
        | Some gone => if kept_before && kept_after && bool_decide (a < b)%nat then Removed gone
                       else RemovedNothing
        | None => RemovedNothing
        end
    end.

(** ** Selections *)

(** [General]. *)
Record General := { general_selection : option SelectionChange; collapsed : bool }.

Definition selection_text (change : SelectionChange) : SelectionText :=
  if SELECTION_SPOKEN_AS_COUNT <=? characters_selected change then SelCharacters (characters_selected change)
  else if characters_selected change =? 1 then SelCharacter (TextModel.selected_text change)
  else SelText (TextModel.selected_text change).

Definition phrase_segment (phrase : Phrase) : UtteranceSegment := segment (SegPhrase phrase).

(** A change with some text. *)
Definition has_characters (change : SelectionChange) : bool := 0 <? characters_selected change.

Definition selection_segments (changes : list SelectionChange) (general : option General) :
    list UtteranceSegment :=
  match general with
  | None =>
      (fun change =>
         phrase_segment (if selected change then Selected (selection_text change)
                         else Unselected (selection_text change))) <$>
      List.filter has_characters changes
  | Some general =>
      let new_text :=
        selection ← general_selection general;
        if has_characters selection then Some (selection_text selection) else None in
      (if existsb selected changes
       then option_list ((fun text => phrase_segment (Selected text)) <$> new_text) else []) ++
      (if existsb (fun change => negb (selected change)) changes then
         if collapsed general then [message_segment SelectionRemoved]
         else option_list ((fun text => phrase_segment (SelectedInstead text)) <$> new_text)
       else [])
  end.

(** What a reply or a report says in general terms, when its text changed. *)
Definition general_of (content_changed : bool) (new_selection : option SelectionChange)
    (report : CaretReport) : option General :=
  if content_changed then
    Some {| general_selection := new_selection;
            collapsed := match report_selection report with None => true | Some _ => false end |}
  else None.

Definition reply_changes (reply : CaretReply) : list UtteranceSegment :=
  selection_segments (reply_selection_changes reply)
    (general_of (reply_content_changed reply) (reply_new_selection reply) (reply_caret reply)).

Definition changed_after (trace_id : TraceId) (pending : PendingCaret) (changes : list SelectionChange)
    (general : option General) : list Effect :=
  speak_each trace_id (heard pending) ++ speak_each trace_id (selection_segments changes general).

Definition selects (key : CaretKey) : bool :=
  key_selects key || bool_decide (motion key = SelectAll).

Section unicode.
Context `{UnicodeRules}.

Definition selected_segments (text : string) : option (list UtteranceSegment) :=
  let characters := N.min U32_MAX (N.of_nat (length (graphemes text))) in
  if characters =? 0 then None
  else Some [phrase_segment (Preselected
               (if SELECTION_SPOKEN_AS_COUNT <=? characters then SelCharacters characters
                else SelText text))].

(** ** What a key deletes *)

Definition deleted_text (line : TextChunk) (offset : N) (line_break : option string)
    (motion : CaretMotion) (grid : bool) : option string :=
  let content := line_content (chunk_text line) grid in
  let offset := boundary content (byte_offset offset) in
  let break := if negb grid && negb (chunk_first line) then line_break else None in
  match motion with
  | Backspace =>
      match previous_grapheme content offset with
      | Some range => Some (text_in content range)
      | None => break
      end
  | BackspaceWord =>
      match find (fun range => bool_decide (range.1 < offset)%nat)
              (rev (words content (language_at line 0))) with
      | Some word => Some (text_in content (word.1, offset))
      | None => if bool_decide (offset = 0%nat) then break else None
      end
  | _ => None
  end.

Definition compared_text (line : TextChunk) (motion : CaretMotion) (grid : bool) : option string :=
  let content := line_content (chunk_text line) grid in
  let offset := byte_offset (chunk_offset line) in
  match motion with
  | MotionDelete =>
      let text := if grid then content else chunk_text line in
      Some (match grapheme_at text offset with Some range => text_in text range | None => EmptyString end)
  | DeleteWord =>
      Some (match word_at (words content (language_at line 0)) offset with
            | Some range => text_in content range
            | None => EmptyString
            end)
  | _ => None
  end.

Definition removed_segments (removed : string) (language : option string) : list UtteranceSegment :=
  if bool_decide (graphemes_count removed = 1%nat) then character_segments (Some removed) language
  else text_segments (trim removed) language.

Definition deleted_segments (deleted : string) (motion : CaretMotion) : list UtteranceSegment :=
  if bool_decide (motion = Backspace) || bool_decide (line_break deleted = Some deleted) then
    character_segments (Some (if bool_decide (deleted = CR_LF) then LF else deleted)) None
  else text_segments (trim deleted) None.

(** [find_map] of a range to its text: the first word that [f] picks. *)
Definition find_text (content : string) (f : nat * nat -> bool) (words : list (nat * nat)) :
    option string := find f words ≫= get content.

Definition landing_segments (from : nat) (line : TextChunk) (grid : bool) : list UtteranceSegment :=
  let content := line_content (chunk_text line) grid in
  let at_ := boundary content (byte_offset (chunk_offset line)) in
  let from := boundary content from in
  let language := language_at line (N.of_nat at_) in
  let character := character_segments (grapheme_at content at_ ≫= get content) language in
  let one_character :=
    match grapheme_at content (Nat.min from at_) with
    | Some range => bool_decide (range.1 = Nat.min from at_) && bool_decide (range.2 = Nat.max from at_)
    | None => false
    end in
  if bool_decide (at_ = 0%nat) || bool_decide (String.length content <= at_)%nat || one_character
  then character
  else
    let words := words content language in
    let at_word :=
      match find (fun word => bool_decide (word.1 = at_)) words with
      | Some word => Some word
      | None => find (fun word => bool_decide (word.2 = at_)) words
      end ≫= get content in
    match at_word with
    | Some word => word_segments word language
    | None =>
        match find_text content (fun word => bool_decide (word.1 < at_)%nat && bool_decide (at_ < word.2)%nat)
                words with
        | Some word => word_segments word language ++ character
        | None => character
        end
    end.

(** [other_key_segments]: [None] has the caller read the line. *)
Definition other_key_segments (before : option (string * N)) (after : TextChunk)
    (same_line : option bool) (grid : bool) : option (list UtteranceSegment) :=
  match before with
  | None => if bool_decide (same_line = Some false) then None else Some []
  | Some (text, offset) =>
      match removal (text, byte_offset offset) (chunk_text after, byte_offset (chunk_offset after)) grid with
      | Removed removed => Some (removed_segments removed (language_at after 0))
      | _ =>
          if bool_decide (same_line = Some false) then None
          else if bool_decide (line_content text grid = line_content (chunk_text after) grid)
          then Some (landing_segments (byte_offset offset) after grid)
          else Some []
      end
  end.

Definition backspace_segments (pending : PendingCaret) (line : TextChunk) (grid : bool) :
    list UtteranceSegment :=
  let motion := motion (pc_key pending) in
  if before_unknown pending then []
  else if selected_before pending then
    match pc_deleted pending with
    | Some deleted => deleted_segments deleted motion
    | None => character_segments None None
    end
  else
    let removed :=
      (fun '(text, offset) =>
         removal (text, byte_offset offset) (chunk_text line, byte_offset (chunk_offset line)) grid) <$>
      pc_before pending in
    match removed, pc_deleted pending with
    | Some (Removed text), _ => deleted_segments text motion
    | (Some Joined | None), Some deleted => deleted_segments deleted motion
    | _, _ => []
    end.

Definition removes_selection (pending : PendingCaret) (caret : CaretReport) : bool :=
  selected_before pending && match report_selection caret with None => true | Some _ => false end.

(** ** A unit with its formatting *)

Definition formatted (chunk : TextChunk) (grid : bool) (how : Spoken) (reported : TextAttributes) :
    option (list UtteranceSegment * TextAttributes) :=
  let content := chunk_content chunk grid in
  let spoken :=
    match how with
    | SpokenWord =>
        let start := trimmed_start is_whitespace content in
        (start, Nat.max (String.length (trim_end content)) start)
    | SpokenCharacter => default (0, 0)%nat (head (characters (chunk_text chunk) grid))
    | SpokenText => (0%nat, String.length content)
    end in
  formatted_segments chunk (0%nat, String.length content) spoken how reported (language_at chunk 0).

Definition line_segments (line : TextChunk) (grid : bool) (reported : TextAttributes) :
    list UtteranceSegment * TextAttributes :=
  match formatted line grid SpokenText reported with
  | Some r => r
  | None => (text_segments (line_content (chunk_text line) grid) (language_at line 0), reported)
  end.

Definition unit_segments (caret : CaretReport) (unit_chunk : option TextChunk) (unit_ : TextUnit)
    (grid : bool) (reported : TextAttributes) : list UtteranceSegment * TextAttributes :=
  let line := line caret in
  let offset := byte_offset (chunk_offset line) in
  match unit_, unit_chunk with
  | UnitCharacter, chunk =>
      match chunk ≫= fun chunk => formatted chunk grid SpokenCharacter reported with
      | Some r => r
      | None => (character_segments (character_at (chunk_text line) offset grid)
                   (language_at line (chunk_offset line)), reported)
      end
  | UnitLine, _ | _, None => line_segments line grid reported
  | UnitWord, Some chunk =>
      match formatted chunk grid SpokenWord reported with
      | Some r => r
      | None => (word_segments (trim (chunk_content chunk grid)) (language_at chunk 0), reported)
      end
  | _, Some chunk => (text_segments (trim (chunk_content chunk grid)) (language_at chunk 0), reported)
  end.

(** ** Core's caret *)

Context `{TerminalReading}.

(** [say_all::stop]. *)
Definition stop_say_all : Step := fun s =>
  let s := forget_queries (fun t => match t with ThenSayAll => true | _ => false end) s in
  (with_saying None s,
   match saying s with
   | Some reading => if display_held reading then [EffKeepDisplayOn false] else []
   | None => []
   end).

Definition caret_of (node : NodeId) (s : SrState) : option CaretContext :=
  caret ← caret s; if bool_decide (caret_node caret = node) then Some caret else None.

Definition reported_format (node : NodeId) (s : SrState) : TextAttributes :=
  match reported_format_of s with
  | Some (reported, attributes) => if bool_decide (reported = node) then attributes else no_attributes
  | None => no_attributes
  end.

Definition text_focus (s : SrState) : option NodeId :=
  focus ← live_focus s;
  let node := id (focus_node focus) in
  if is_some (caret_of node s) || may_have_text (role (focus_node focus)) then Some node else None.

Definition follow_caret (node : NodeId) (s : SrState) : SrState :=
  match navigator s with
  | Some n =>
      if follow_caret_setting (settings s) && bool_decide (id (object n) = node) &&
         negb (is_grid (role (object n)))
      then with_navigator (Some (with_review_text ReviewCaret n)) s else s
  | None => s
  end.

(** [rotate_left(1)] and the newest report put last. *)
Definition push_history (report : TimedCaret) (history : list (option TimedCaret)) :
    list (option TimedCaret) := drop 1 history ++ [Some report].

Definition update_caret (node : NodeId) (report : CaretReport) (observed_at_ms : N) (s : SrState) :
    SrState :=
  if negb (focus_matches node s) then s
  else
    let known_elsewhere :=
      match caret s with Some known => negb (bool_decide (caret_node known = node)) | None => false end in
    let s := if (observed_at_ms =? 0) || known_elsewhere then with_caret_history no_history s else s in
    let s :=
      if observed_at_ms =? 0 then s
      else with_caret_history
             (push_history {| timed_at_ms := observed_at_ms; timed_node := node; timed_line := line report;
                              timed_selection := report_selection report;
                              timed_selection_line := selection_line report |} (caret_history s)) s in
    let newer :=
      known ← caret_of node s;
      if negb (observed_at_ms =? 0) && (observed_at_ms <? caret_observed_at_ms known) then Some known
      else None in
    let break := line_break (chunk_text (line report)) in
    match newer with
    | Some known =>
        match caret_line_break known with
        | None => with_caret (Some (with_line_break break known)) s
        | Some _ => s
        end
    | None =>
        let s := follow_caret node s in
        let break := match break with
                     | Some break => Some break
                     | None => known ← caret_of node s; caret_line_break known
                     end in
        with_caret (Some {| caret_node := node; context_line := line report;
                            caret_selection := report_selection report;
                            caret_selection_line := selection_line report; caret_line_break := break;
                            caret_observed_at_ms := observed_at_ms |}) s
    end.

Definition caret_moved_by_core (node : NodeId) (new_line : TextChunk) (s : SrState) : SrState :=
  if negb (focus_matches node s) then s
  else
    let s := update_caret node
               {| line := new_line; report_selection := None; selection_line := None |} 0 s in
    match caret s with
    | Some caret =>
        with_caret_history
          (<[(CARET_HISTORY - 1)%nat := Some {| timed_at_ms := 0; timed_node := node;
               timed_line := context_line caret; timed_selection := None;
               timed_selection_line := None |}]> (caret_history s)) s
    | None => s
    end.

(** [CaretBefore] and [caret_before]; [max_by_key] takes the last of the
    newest. *)
Record CaretBefore := {
  before_line : TextChunk;
  before_selection : option Selection;
  before_selection_line : option TextChunk;
}.
Definition newest (reports : list TimedCaret) : option TimedCaret :=
  foldl (fun best report =>
    match best with
    | Some b => if timed_at_ms report <? timed_at_ms b then best else Some report
    | None => Some report
    end) None reports.
Definition caret_before (node : NodeId) (pressed_at_ms : N) (s : SrState) : option CaretBefore :=
  let timed := List.filter (fun report => bool_decide (timed_node report = node))
                 (omap (fun r => r) (caret_history s)) in
  if (pressed_at_ms =? 0) || is_nil timed then
    (fun caret => {| before_line := context_line caret; before_selection := caret_selection caret;
                     before_selection_line := caret_selection_line caret |}) <$> caret_of node s
  else
    (fun report => {| before_line := timed_line report; before_selection := timed_selection report;
                      before_selection_line := timed_selection_line report |}) <$>
    newest (List.filter (fun report => timed_at_ms report <? pressed_at_ms) timed).

(** ** A caret key *)

Definition is_caret (t : Then) : bool := match t with ThenCaret _ => true | _ => false end.
Definition is_caret_at (node : NodeId) (t : Then) : bool :=
  match t with ThenCaret pending => bool_decide (pc_node pending = node) | _ => false end.
Definition is_superseded (t : Then) : bool :=
  match t with ThenSupersededCaret _ => true | _ => false end.

Definition supersede_caret (node : NodeId) (s : SrState) : SrState * list UtteranceSegment :=
  match find_query is_caret (queries s) with
  | None => (s, [])
  | Some (query_id, _) =>
      match replace_then query_id ThenNothing (queries s) with
      | (qs, Some (ThenCaret old)) =>
          if negb (bool_decide (pc_node old = node)) then (with_queries qs s, [])
          else (with_queries (replace_then query_id (ThenSupersededCaret node)
                                (forget is_superseded qs)).1 s, heard old)
      | (qs, _) => (with_queries qs s, [])
      end
  end.

(** The line and the offset a backward deletion over a selection starts at:
    [Some None] when its line is not known. *)
Definition deletion_start (motion : CaretMotion) (context : option CaretBefore) :
    option (option (TextChunk * N)) :=
  caret ← context;
  selection ← before_selection caret;
  if deletes_back motion then
    Some ((fun line => (line, pos_offset (selection_start selection))) <$>
          find (fun line => bool_decide (chunk_start line = anchor (selection_start selection)))
            (before_line caret :: option_list (before_selection_line caret)))
  else None.

(** What [caret_key] asks the outpost to watch, and what it keeps waiting. *)
Definition caret_watch (key : CaretKey) (at_ms : N) (context : option CaretBefore) (grid : bool) :
    CaretWatch :=
  {| since := (fun caret => chunk_caret (before_line caret)) <$> context;
     pressed_at_ms := at_ms; watch_unit := motion_unit (motion key);
     compare_with := caret ← context; compared_text (before_line caret) (motion key) grid;
     landing := bool_decide (motion key = OtherMotion); deletes := motion_deletes (motion key) |}.
Definition pending_caret (node : NodeId) (key : CaretKey) (context : option CaretBefore)
    (line_break : option string) (grid : bool) (held : list UtteranceSegment) : PendingCaret :=
  let start := deletion_start (motion key) context in
  {| pc_node := node; pc_key := key;
     pc_deleted :=
       (caret ← context;
        let '(line, offset) :=
          default (before_line caret, chunk_offset (before_line caret)) (mjoin start) in
        deleted_text line offset line_break (motion key) grid);
     pc_before :=
       (caret ← context;
        if deletes_back (motion key) || bool_decide (motion key = OtherMotion)
        then Some (chunk_text (before_line caret), chunk_offset (before_line caret)) else None);
     later_key_at_ms := None;
     selected_before := match context with Some caret => is_some (before_selection caret) | None => false end;
     before_unknown := match start with Some None => true | _ => false end;
     heard := held |}.

Definition caret_key (key : CaretKey) (pressed_at_ms : N) : Step := fun s =>
  let '(s, stopped) := stop_say_all s in
  let s := if negb (selects key) && negb (bool_decide (motion key = OtherMotion))
           then with_typed_word EmptyString s else s in
  match live_focus s with
  | None => (s, stopped)
  | Some focus =>
      let node := id (focus_node focus) in
      let role := role (focus_node focus) in
      let current := caret_of node s in
      if negb (is_some current) && negb (may_have_text role) then (s, stopped)
      else
        let grid := is_grid role in
        let break := caret ← current; caret_line_break caret in
        let context := caret_before node pressed_at_ms s in
        let s := follow_caret node s in
        let '(s, held) := supersede_caret node s in
        let '(s, query_id, request) :=
          ask_query (AskText node (AwaitCaret (caret_watch key pressed_at_ms context grid)))
            (ThenCaret (pending_caret node key context break grid held)) s in
        let s := if is_some (awaiting_watch (held_keys s))
                 then with_held_keys (with_awaiting_watch (Some query_id) (held_keys s)) s else s in
        (s, stopped ++ [request])
  end.

Definition heard_effects (s : SrState) (trace_id : TraceId) (pending : PendingCaret) : list Effect :=
  if focus_matches (pc_node pending) s then speak_each trace_id (heard pending) else [].

(** A segmentation that updates the formatting reported in a node's text. *)
Definition with_format (node : NodeId) (f : TextAttributes -> list UtteranceSegment * TextAttributes)
    (s : SrState) : SrState * list UtteranceSegment :=
  let '(segments, reported) := f (reported_format node s) in
  (with_reported_format_of (Some (node, reported)) s, segments).

(** The words of a caret key's own answer. *)
Definition caret_words (pending : PendingCaret) (reply : CaretReply) (grid : bool) (s : SrState) :
    SrState * list UtteranceSegment :=
  let report := reply_caret reply in
  if selects (pc_key pending) then (s, [])
  else
    match motion (pc_key pending) with
    | Backspace | BackspaceWord => (s, backspace_segments pending (line report) grid)
    | OtherMotion =>
        if removes_selection pending report then (s, [])
        else match removed reply with
        | Some removed => (s, removed_segments removed (language_at (line report) 0))
        | None =>
            with_format (pc_node pending) (fun reported =>
              match other_key_segments (pc_before pending) (line report) (reply_same_line reply) grid with
              | Some segments => (segments, reported)
              | None => line_segments (line report) grid reported
              end) s
        end
    | motion =>
        with_format (pc_node pending)
          (unit_segments report (reply_unit reply) (motion_unit motion) grid) s
    end.

Definition caret_reply (trace_id : TraceId) (pending : PendingCaret) (reply : TextReply) : Step := fun s =>
  match reply with
  | ReplyCaret reply =>
      let node := pc_node pending in
      let later :=
        match later_key_at_ms pending with
        | Some later => (read_at_ms reply =? 0) || (later <=? read_at_ms reply)
        | None => false
        end in
      if later then
        if negb (focus_matches node s) then (s, [])
        else (update_caret node (reply_caret reply) (read_at_ms reply) s,
              speak_each trace_id (heard pending ++ reply_changes reply))
      else if negb (moved reply) then (s, heard_effects s trace_id pending)
      else
        match live_focus s with
        | None => (s, [])
        | Some focus =>
            if negb (bool_decide (id (focus_node focus) = node)) then (s, [])
            else if bool_decide (role (focus_node focus) = RoleTerminal) then
              let s := update_caret node (reply_caret reply) (read_at_ms reply) s in
              (s, heard_effects s trace_id pending)
            else
              let grid := is_grid (role (focus_node focus)) in
              let general := general_of (reply_content_changed reply) (reply_new_selection reply)
                               (reply_caret reply) in
              let '(s, segments) := caret_words pending reply grid s in
              let s := update_caret node (reply_caret reply) (read_at_ms reply) s in
              (s, (if is_nil segments then [] else [speak trace_id segments]) ++
                  changed_after trace_id pending (reply_selection_changes reply) general)
        end
  | _ => (s, heard_effects s trace_id pending)
  end.

(** Words held for a caret key still waiting on [node], or spoken now. *)
Definition add_heard (segments : list UtteranceSegment) (t : Then) : Then :=
  match t with
  | ThenCaret p =>
      ThenCaret {| pc_node := pc_node p; pc_key := pc_key p; pc_deleted := pc_deleted p;
                   pc_before := pc_before p; later_key_at_ms := later_key_at_ms p;
                   selected_before := selected_before p; before_unknown := before_unknown p;
                   heard := heard p ++ segments |}
  | t => t
  end.
Definition hold_or_speak (trace_id : TraceId) (node : NodeId) (segments : list UtteranceSegment) : Step :=
  fun s =>
  match find_mut (is_caret_at node) (add_heard segments) (queries s) with
  | Some queries => (with_queries queries s, [])
  | None => (s, speak_each trace_id segments)
  end.

Definition superseded_reply (trace_id : TraceId) (node : NodeId) (reply : TextReply) : Step := fun s =>
  match reply with
  | ReplyCaret reply =>
      let changed := reply_changes reply in
      if is_nil changed || negb (focus_matches node s) then (s, [])
      else hold_or_speak trace_id node changed s
  | _ => (s, [])
  end.

Definition selection_changed (trace_id : TraceId) (node : NodeId) (changes : list SelectionChange)
    (general : option General) : Step := fun s =>
  if is_nil changes || negb (focus_matches node s) then (s, [])
  else hold_or_speak trace_id node (selection_segments changes general) s.

(** [later_key]. *)
Definition mark_later (at_ms : N) (t : Then) : Then :=
  match t with
  | ThenCaret p =>
      match later_key_at_ms p with
      | None =>
          if at_ms =? 0 then t
          else ThenCaret {| pc_node := pc_node p; pc_key := pc_key p; pc_deleted := pc_deleted p;
                            pc_before := pc_before p; later_key_at_ms := Some at_ms;
                            selected_before := selected_before p; before_unknown := before_unknown p;
                            heard := heard p |}
      | Some _ => t
      end
  | t => t
  end.
Definition later_key (at_ms : N) (s : SrState) : SrState :=
  match find_mut is_caret (mark_later at_ms) (queries s) with
  | Some queries => with_queries queries s
  | None => s
  end.

(** ** The text an object says *)

Definition focus_speech (trace_id : TraceId) (node : NodeId) (segments : list UtteranceSegment)
    (s : SrState) : list Effect :=
  match live_focus s with
  | Some focus =>
      if bool_decide (id (focus_node focus) = node)
      then [speak_of trace_id (focus_node focus) segments (Some (while_focus (focus_node focus)))] else []
  | None => []
  end.

Definition caret_line (node : NodeId) (s : SrState) : option (SrState * list UtteranceSegment) :=
  caret ← caret_of node s;
  let grid := match focus s with Some focus => is_grid (role (focus_node focus)) | None => false end in
  Some (with_format node (line_segments (context_line caret) grid) s).

Definition focus_line_of (trace_id : TraceId) (node : NodeId) : Step := fun s =>
  match caret_line node s with
  | Some (s, segments) => (s, focus_speech trace_id node segments s)
  | None => (s, [])
  end.

Definition focus_value (trace_id : TraceId) (node : NodeId) (s : SrState) : list Effect :=
  match focus s ≫= fun focus => value (focus_node focus) with
  | Some value => if bool_decide (value = EmptyString) then []
                  else focus_speech trace_id node [value_segment value] s
  | None => []
  end.

Definition keep_focus_caret (node : NodeId) (text : option FocusText) (observed_at_ms : N) (s : SrState) :
    SrState :=
  match text with
  | Some (FocusCaret caret _) => update_caret node caret observed_at_ms s
  | _ => s
  end.

Definition focus_text (trace_id : TraceId) (node : NodeSnapshot) (text : option FocusText)
    (observed_at_ms : N) : Step := fun s =>
  let s := keep_focus_caret (id node) text observed_at_ms s in
  if negb (may_have_text (role node)) then (s, [])
  else
    match text with
    | Some (FocusCaret caret selected_text) =>
        match (if is_some (report_selection caret) then selected_text ≫= selected_segments else None) with
        | Some segments => (s, focus_speech trace_id (id node) segments s)
        | None => focus_line_of trace_id (id node) s
        end
    | Some FocusNoText => (s, focus_value trace_id (id node) s)
    | Some FocusNotRead | None => (s, [])
    end.

Definition is_text (t : Then) : bool := match t with ThenText _ => true | _ => false end.

Definition navigator_request (node : NodeId) (op : TextOp) (follow_up : TextFollowUp) : Step := fun s =>
  let '(s, _, effect) :=
    ask_query (AskText node op) (ThenText {| pt_node := node; pt_then := follow_up |})
      (forget_queries is_text s) in
  (s, [effect]).

(** Two parts joined by a space, less the empty ones. *)
Definition joined_parts (one other : string) : string :=
  if bool_decide (one = EmptyString) then other
  else if bool_decide (other = EmptyString) then one
  else String.append one (String.append " " other).

Definition named_text (trace_id : TraceId) (node : NodeSnapshot) (read : NavigatorRead) (body : string) :
    list Effect :=
  let text := joined_parts (default EmptyString (name node)) body in
  if bool_decide (text = EmptyString) then []
  else match read with
       | ReadCopy => [EffCopyToClipboard text]
       | _ => [speak_about trace_id node (spelled text false None)]
       end.

Definition is_announce (read : NavigatorRead) : bool :=
  match read with ReadAnnounce => true | _ => false end.

Definition navigator_text (trace_id : TraceId) (node : NodeSnapshot) (read : NavigatorRead) : Step := fun s =>
  let ask_range start end_ :=
    navigator_request (id node) (ReadRange start end_ None) (FollowNavigatorSelection read) s in
  if negb (may_have_text (role node)) then (s, [])
  else
    match caret_of (id node) s with
    | Some caret =>
        match caret_selection caret with
        | Some selection =>
            ask_range (PointAt (selection_start selection)) (PointAt (selection_end selection))
        | None =>
            if is_announce read then
              match caret_line (id node) s with
              | Some (s, segments) => (s, [speak_about trace_id node segments])
              | None => (s, [])
              end
            else (s, named_text trace_id node read
                       (line_content (chunk_text (context_line caret)) (is_grid (role node))))
        end
    | None => ask_range PointSelectionStart PointSelectionEnd
    end.

Definition navigator_line (node : NodeId) (read : NavigatorRead) : Step :=
  navigator_request node
    (Read {| read_at := PointCaret; read_movement := None; read_unit := UnitLine |})
    (FollowNavigatorLine read).

Definition navigator_text_reply (trace_id : TraceId) (pending : PendingText) (reply : TextReply) : Step :=
  fun s =>
  let objects := option_list (object <$> navigator s) ++ option_list (focus_node <$> live_focus s) in
  match find (fun object => bool_decide (id object = pt_node pending)) objects with
  | None => (s, [])
  | Some object =>
      let no_text read :=
        if negb (is_announce read) then
          (s, named_text trace_id object read (default EmptyString (value object)))
        else match value object with
             | Some value => if bool_decide (value = EmptyString) then (s, [])
                             else (s, [speak_about trace_id object [value_segment value]])
             | None => (s, [])
             end in
      match pt_then pending, reply with
      | FollowNavigatorSelection read, ReplyRange text _ =>
          if is_nil (graphemes text) then navigator_line (pt_node pending) read s
          else if negb (is_announce read) then (s, named_text trace_id object read text)
          else (s, [speak_about trace_id object (default [] (selected_segments text))])
      | FollowNavigatorSelection read, ReplyUnsupported => navigator_line (pt_node pending) read s
      | FollowNavigatorLine read, ReplyRead _ chunk =>
          let grid := is_grid (role object) in
          if negb (is_announce read)
          then (s, named_text trace_id object read (line_content (chunk_text chunk) grid))
          else (s, [speak_about trace_id object (line_segments chunk grid no_attributes).1])
      | FollowNavigatorSelection read, ReplyNoText
      | FollowNavigatorLine read, (ReplyNoText | ReplyUnsupported) => no_text read
      | _, _ => (s, [])
      end
  end.

(** ** Typing *)

Definition clearing_key (s : SrState) : SrState :=
  match live_focus s with
  | Some focus => if bool_decide (role (focus_node focus) = RoleTerminal)
                  then with_typed_word EmptyString s else s
  | None => s
  end.

(** The closure [applies] of [echo]. *)
Definition echo_applies (mode : TypingEcho) (editable : bool) : bool :=
  match mode with EchoOff => false | EchoEditControls => editable | EchoAlways => true end.

(** The loop of [echo] over the typed characters: [word] is the word typed so
    far. *)
Fixpoint echo_each (trace_id : TraceId) (echo_characters echo_words protected : bool)
    (characters : list string) (word : string) : string * list Effect :=
  match characters with
  | [] => (word, [])
  | character :: characters =>
      let '(word, ended) :=
        if is_word_grapheme character then
          (if echo_words && bool_decide (String.length word + String.length character <= MAX_TYPED_WORD)%nat
           then String.append word character else word, [])
        else (EmptyString,
              if echo_words && negb (bool_decide (word = EmptyString))
              then [speak trace_id [text_segment word]] else []) in
      let printable := negb (existsb is_control (chars character)) in
      let said :=
        if echo_characters && printable
        then [speak trace_id [segment (SegCharacter
                (if protected then PROTECTED_CHARACTER else character))]] else [] in
      let '(word, effects) := echo_each trace_id echo_characters echo_words protected characters word in
      (word, ended ++ said ++ effects)
  end.

Definition echo (trace_id : TraceId) (typed : string) : Step := fun s =>
  match live_focus s with
  | None => (s, [])
  | Some focus =>
      let node := focus_node focus in
      let protected := StateSet.contains (states node) Protected in
      let '(word, effects) :=
        echo_each trace_id (echo_applies (speak_typed_characters (settings s)) (is_editable node))
          (echo_applies (speak_typed_words (settings s)) (is_editable node) && negb protected) protected
          (omap (get typed) (graphemes typed)) (typed_word s) in
      (with_typed_word word s, effects)
  end.

Definition character_typed (trace_id : TraceId) (typed : string) : Step := fun s =>
  let '(s, stopped) := stop_say_all s in
  match live_focus s with
  | None => (s, stopped)
  | Some focus =>
      if bool_decide (role (focus_node focus) = RoleTerminal) then
        if existsb (fun c => (c =? 13) || (c =? 10) || (c =? 9)) (chars typed)
        then (with_typed_word EmptyString s, stopped)
        else if speak_terminal_passwords (settings s)
        then let '(s, effects) := echo trace_id typed s in (s, stopped ++ effects)
        else (s, stopped)
      else let '(s, effects) := echo trace_id typed s in (s, stopped ++ effects)
  end.

End unicode.
