(* ===== verification/SayAll.v ===== *)
(** * Say-all

    [src/crates/verbatim-core/src/say_all.rs]: reading a text aloud from a
    point on. Reads ask for batches of units; each unit is spoken up to its last
    sentence end, what follows is held back; utterances wait in a buffer and are
    handed to speech two ahead of playback, and the marks playback reaches move
    the caret or the review cursor. [stop] is [Editing.stop_say_all]. *)

From S2P Require Import Prelude Text Tree TextModel Facts Messages Speech FocusRules TextUnits CoreText CoreEvents CoreQueries CoreState Editing.

Definition READ_AHEAD : N := 20.
Definition HANDED : nat := 2.
Definition LOW_WATER : nat := 10.
Definition MAX_HELD : nat := 10.

(** [u32::try_from(x).unwrap_or(u32::MAX)]. *)
Definition as_u32 (x : nat) : N := N.min U32_MAX (N.of_nat x).

Definition is_say_all (t : Then) : bool := match t with ThenSayAll => true | _ => false end.

(** [BufferedPiece::text]. *)
Definition piece_text (piece : BufferedPiece) : string :=
  text_in (chunk_text (piece_chunk piece)) (byte_offset (piece_start piece), byte_offset (piece_end piece)).

(** How many utterances handed to speech playback has not started. *)
Definition unstarted (r : SayAll) : nat := length (List.filter opens (queued r)).

(** ** Holding text back *)

Definition release (r : SayAll) : SayAll :=
  let r := with_held_units 0 r in
  match held r with
  | [] => r
  | pieces => with_buffer (buffer r ++ [pieces]) (with_held [] r)
  end.

(** The two parts of a unit cut at its last sentence end. *)
Definition split_piece (unit_ : BufferedPiece) (pause : nat) : BufferedPiece * option BufferedPiece :=
  let split := piece_start unit_ +|32| as_u32 pause in
  ({| piece_chunk := piece_chunk unit_; piece_start := piece_start unit_; piece_end := split;
      marked := marked unit_ |},
   if split <? piece_end unit_ then
     Some {| piece_chunk := piece_chunk unit_; piece_start := split; piece_end := piece_end unit_;
             marked := false |}
   else None).

Definition hold (unit_ : option BufferedPiece) (r : SayAll) : SayAll :=
  match unit_, unit_ ≫= fun unit_ => last_pause (piece_text unit_) with
  | Some unit_, Some pause =>
      let '(first, rest) := split_piece unit_ pause in
      let r := release (with_held (held r ++ [first]) r) in
      with_held (held r ++ option_list rest) r
  | _, _ =>
      let r := with_held_units (S (held_units r)) (with_held (held r ++ option_list unit_) r) in
      if bool_decide (MAX_HELD <= held_units r)%nat then release r else r
  end.

Section unicode.
Context `{UnicodeRules} `{TerminalReading}.

(** ** Reading *)

(** The role of the node read, as the navigator or else the focus has it. *)
Definition reads_grid (node : NodeId) (s : SrState) : bool :=
  let role_of (n : option NodeSnapshot) :=
    n ← n; if bool_decide (id n = node) then Some (role n) else None in
  match role_of (object <$> navigator s) with
  | Some role => is_grid role
  | None =>
      match role_of (focus_node <$> focus s) with Some role => is_grid role | None => false end
  end.

(** The batch [read_next] asks for. *)
Definition next_read (r : SayAll) : TextReadAhead :=
  let '(at_, movement) :=
    match last_chunk r with
    | None => (start_at r, None)
    | Some (position, unit_) =>
        (PointAt position, Some {| movement_unit := unit_; movement_count := 1 |})
    end in
  {| ahead_at := at_; ahead_movement := movement; ahead_unit := reading_unit r; ahead_count := READ_AHEAD |}.

Definition read_next : Step := fun s =>
  match saying s with
  | None => (s, [])
  | Some r =>
      let '(s, _, effect) := ask_query (AskText (reading_node r) (ReadAhead (next_read r))) ThenSayAll s in
      (s, [effect])
  end.

Definition start (node : NodeId) (moves_caret : bool) (at_ : TextPoint) : Step := fun s =>
  let '(s, stopped) := stop_say_all s in
  let unit_ :=
    if reads_grid node s then UnitLine
    else match say_all_unit (settings s) with
         | BySentence => UnitSentence | ByParagraph => UnitParagraph | ByLine => UnitLine
         end in
  let display := keep_display_on (settings s) in
  let s := with_saying (Some {|
    reading_node := node; moves_caret := moves_caret; start_at := at_; reading_unit := unit_;
    last_chunk := None; queued := []; buffer := []; held := []; held_units := 0;
    say_all_trace := None; finished := false; display_held := display |}) s in
  let '(s, asked) := read_next s in
  (s, stopped ++ (if display then [EffKeepDisplayOn true] else []) ++ asked).

Definition pieces (chunk : TextChunk) (from : nat) (by_sentence grid : bool) : list (nat * nat) :=
  let content := line_content (chunk_text chunk) grid in
  let from := boundary content from in
  let ranges :=
    if by_sentence then
      (fun range => (Nat.max range.1 from, range.2)) <$>
      List.filter (fun range => bool_decide (from < range.2)%nat) (sentences content)
    else [(from, String.length content)] in
  List.filter (fun range => match get content range with Some piece => negb (is_blank piece) | None => false end)
    ranges.

(** ** Handing out *)

(** The text a piece is spoken as: with a space after it when another follows
    and it does not end with white space. *)
Definition spoken_text (piece : BufferedPiece) (more : bool) : string :=
  let text := piece_text piece in
  if more && negb (match last (chars text) with Some c => is_whitespace c | None => false end)
  then String.append text " " else text.

(** The loop over an utterance's pieces, from piece [index] on. *)
Fixpoint hand_pieces (index : nat) (ps : list BufferedPiece) (s : SrState) :
    SrState * list UtteranceSegment * list QueuedMark :=
  match ps with
  | [] => (s, [], [])
  | piece :: ps =>
      let opening := bool_decide (index = 0%nat) in
      let '(s, mark_segments, marks) :=
        if opening || marked piece then
          let '(s, mark) := allocate_mark s in
          (s, [segment (SegMark mark)],
           [{| queued_mark := mark;
               mark_unit := if marked piece
                            then Some {| unit_chunk := piece_chunk piece; unit_offset := piece_start piece |}
                            else None;
               opens := opening |}])
        else (s, [], []) in
      let said := text_segments (spoken_text piece (negb (is_nil ps)))
                    (language_at (piece_chunk piece) (piece_start piece)) in
      let '(s, segments, more) := hand_pieces (S index) ps s in
      (s, mark_segments ++ said ++ segments, marks ++ more)
  end.

Definition say_all_utterance (trace_id : TraceId) (segments : list UtteranceSegment) : Effect :=
  EffSpeak {| utt_trace_id := trace_id; priority := Queued; utt_segments := segments; source := None;
              validity := None; say_all := true |} None.

(** The loop of [hand_out]; [waiting] is what the buffer holds. *)
Fixpoint hand_out_each (waiting : list (list BufferedPiece)) : Step := fun s =>
  match saying s with
  | None => (s, [])
  | Some r =>
      match say_all_trace r with
      | None => (s, [])
      | Some trace_id =>
          if bool_decide (HANDED <= unstarted r)%nat then (s, [])
          else
            match waiting with
            | [] => (s, [])
            | ps :: waiting =>
                let '(s, segments, marks) := hand_pieces 0 ps s in
                let s := with_saying (Some (with_queued (queued r ++ marks) (with_buffer waiting r))) s in
                let '(s, effects) := hand_out_each waiting s in
                (s, say_all_utterance trace_id segments :: effects)
            end
      end
  end.
Definition hand_out : Step := fun s =>
  hand_out_each (match saying s with Some r => buffer r | None => [] end) s.

(** ** Going on, and ending *)

Definition end_if_done : Step := fun s =>
  match saying s with
  | Some r =>
      if finished r && is_nil (queued r) && is_nil (buffer r) && is_nil (held r)
      then stop_say_all s else (s, [])
  | None => (s, [])
  end.

Definition read_on_or_end : Step := fun s =>
  match saying s with
  | None => (s, [])
  | Some r =>
      if finished r then end_if_done s
      else if negb (has is_say_all (queries s)) &&
              bool_decide (unstarted r + length (buffer r) < LOW_WATER)%nat
      then read_next s
      else (s, [])
  end.

(** The units of a chunk read by [unit_], from byte [from] on, as they are
    buffered. *)
Definition chunk_units (grid : bool) (unit_ : TextUnit) (from : nat) (chunk : TextChunk) :
    list BufferedPiece :=
  let by_sentence :=
    match unit_, chunk_unit chunk with UnitSentence, UnitParagraph => true | _, _ => false end in
  (fun range => {| piece_chunk := chunk; piece_start := as_u32 range.1; piece_end := as_u32 range.2;
                   marked := true |}) <$> pieces chunk from by_sentence grid.

(** A chunk of the answer, [from] its byte on. *)
Definition take_chunk (grid : bool) (from : nat) (chunk : TextChunk) (r : SayAll) : SayAll :=
  let units := chunk_units grid (reading_unit r) from chunk in
  let r := with_last_chunk (Some (position_at (chunk_start chunk), chunk_unit chunk)) r in
  let r := with_finished (finished r || chunk_last chunk) r in
  match units with
  | [] => hold None r
  | _ => foldl (fun r unit_ => hold (Some unit_) r) r units
  end.

(** The chunks in turn: the first read starts where its chunk says. *)
Fixpoint take_chunks (grid first : bool) (chunks : list TextChunk) (r : SayAll) : SayAll :=
  match chunks with
  | [] => r
  | chunk :: chunks =>
      take_chunks grid false chunks
        (take_chunk grid (if first then byte_offset (chunk_offset chunk) else 0%nat) chunk r)
  end.

(** What a reply reads: how far it moved, and its chunks. *)
Definition reply_chunks (reply : TextReply) : option (Z * list TextChunk) :=
  match reply with
  | ReplyChunks moved chunks => Some (moved, chunks)
  | ReplyRead moved chunk => Some (moved, [chunk])
  | _ => None
  end.

Definition navigator_grid (node : NodeId) (s : SrState) : bool :=
  match navigator s with
  | Some n => bool_decide (id (object n) = node) && is_grid (role (object n))
  | None => false
  end.

Definition take_batch (trace_id : TraceId) (grid : bool) (moved : Z) (chunks : list TextChunk) (r : SayAll) :
    SayAll :=
  let r := with_say_all_trace (Some trace_id) r in
  let r :=
    if (is_some (last_chunk r) && bool_decide (moved = 0%Z)) || is_nil chunks
    then with_finished true r
    else take_chunks grid (negb (is_some (last_chunk r))) chunks r in
  if finished r then release r else r.

Definition reply (trace_id : TraceId) (reply : TextReply) : Step := fun s =>
  match saying s with
  | None => (s, [])
  | Some r =>
      match reply_chunks reply with
      | Some (moved, chunks) =>
          let r := take_batch trace_id (navigator_grid (reading_node r) s) moved chunks r in
          (hand_out >>+ read_on_or_end) (with_saying (Some r) s)
      | None =>
          match reply, reading_unit r with
          | ReplyUnsupportedUnit _, UnitLine => stop_say_all s
          | ReplyUnsupportedUnit _, _ => read_next (with_saying (Some (with_reading_unit UnitLine r)) s)
          | _, _ => stop_say_all s
          end
      end
  end.

(** ** Playback *)

Definition mark_le (mark : SpeechMark) (q : QueuedMark) : bool :=
  mark_value (queued_mark q) <=? mark_value mark.

(** The marks up to [mark], and those after them. *)
Fixpoint take_marks (mark : SpeechMark) (qs : list QueuedMark) : list QueuedMark * list QueuedMark :=
  match qs with
  | q :: rest => if mark_le mark q then let '(l, r) := take_marks mark rest in (q :: l, r) else ([], qs)
  | [] => ([], [])
  end.

Definition move_cursor (r : SayAll) (unit_ : UnitStart) : Step := fun s =>
  let position := unit_position unit_ in
  if moves_caret r then
    let '(s, _, effect) :=
      ask_query (AskText (reading_node r) (MoveCaret (PointAt position))) ThenNothing s in
    let line := unit_chunk unit_ in
    (caret_moved_by_core (reading_node r)
       {| chunk_unit := chunk_unit line; chunk_text := chunk_text line; chunk_start := chunk_start line;
          chunk_offset := unit_offset unit_; languages := languages line; chunk_first := chunk_first line;
          chunk_last := chunk_last line; chunk_truncated := chunk_truncated line; formats := formats line |} s,
     [effect])
  else
    match navigator s with
    | Some n => if bool_decide (id (object n) = reading_node r)
                then (with_navigator (Some (with_review_text (ReviewPoint position) n)) s, [])
                else (s, [])
    | None => (s, [])
    end.

Definition passed (mark : SpeechMark) (moves : bool) : Step := fun s =>
  match saying s with
  | None => (s, [])
  | Some r =>
      if negb (existsb (fun q => bool_decide (mark_value (queued_mark q) = mark_value mark)) (queued r))
      then (s, [])
      else
        let '(gone, left) := take_marks mark (queued r) in
        let reached := last (omap mark_unit gone) in
        let s := with_saying (Some (with_queued left r)) s in
        ((match reached with
          | Some unit_ => if moves then move_cursor r unit_ else silent
          | None => silent
          end) >>+ hand_out >>+ read_on_or_end) s
  end.

Definition mark_reached (mark : SpeechMark) : Step := passed mark true.

(** [marks.iter().max()]. *)
Definition last_mark (marks : list SpeechMark) : option SpeechMark :=
  foldl (fun best mark =>
    match best with
    | Some b => if mark_value mark <? mark_value b then best else Some mark
    | None => Some mark
    end) None marks.
Definition utterance_failed (marks : list SpeechMark) : Step :=
  match last_mark marks with Some mark => passed mark false | None => silent end.

Definition utterance_cancelled (marks : list SpeechMark) : Step := fun s =>
  match saying s with
  | Some r =>
      if existsb (fun q => existsb (fun m => bool_decide (mark_value m = mark_value (queued_mark q))) marks)
           (queued r)
      then stop_say_all s else (s, [])
  | None => (s, [])
  end.

End unicode.
