(* ===== verification/CoreProps.v ===== *)
(** * Core's announcements and queries

    The words [Announce] says of states are true; each query of [CoreQueries]
    ends once; and a sample of what Core asks of its libraries, which the
    witnesses run the reducer with. *)

From stdpp Require Import sorting.
From S2P Require Import Prelude Text Tree TextModel Facts Messages Speech Announce FocusRules TextUnits CoreText CoreEvents CoreQueries CoreState.

(** The state a segment is about, and whether what it says is true of a set. *)
Definition word_state (s : UtteranceSegment) : option State :=
  match content s with SegState a | SegNegatedState a => Some a | _ => None end.
Definition word_true (states : StateSet.t) (s : UtteranceSegment) : Prop :=
  match content s with
  | SegState a => StateSet.contains states a = true
  | SegNegatedState a => StateSet.contains states a = false
  | _ => False
  end.

Section sets.
Implicit Types (a b : State) (s t : StateSet.t).

Lemma collected_contains (f : State -> bool) s a :
  StateSet.contains (StateSet.from_iter (List.filter f (StateSet.iter s))) a =
  f a && StateSet.contains s a.
Proof.
  rewrite (proj2 (from_iter_spec _)). apply eq_bool_prop_intro.
  rewrite !Is_true_true bool_decide_eq_true andb_true_iff -elem_of_iter.
  rewrite !list_elem_of_In filter_In. tauto.
Qed.

Lemma intersect_contains s t a :
  StateSet.contains (intersect s t) a = StateSet.contains t a && StateSet.contains s a.
Proof. apply collected_contains. Qed.

Lemma difference_contains s t a :
  StateSet.contains (difference s t) a = negb (StateSet.contains t a) && StateSet.contains s a.
Proof. apply collected_contains. Qed.

Lemma insert_when_contains c s a b :
  StateSet.contains (insert_when c a s) b = (c && bool_decide (a = b)) || StateSet.contains s b.
Proof. unfold insert_when. destruct c; simpl; [apply insert_contains|done]. Qed.

Lemma remove_when_contains c s a b :
  StateSet.contains (remove_when c a s) b = true -> StateSet.contains s b = true.
Proof. unfold remove_when. destruct c; [|done]. rewrite remove_contains. by intros [_ ?]%andb_true_iff. Qed.

Lemma remove_contains_true s a b :
  StateSet.contains (StateSet.remove s a) b = true -> StateSet.contains s b = true.
Proof. apply (remove_when_contains true). Qed.

(** Only states of the node are spoken as present. *)
Lemma spoken_states_present role s reason a :
  StateSet.contains (spoken_states role s reason) a = true -> StateSet.contains s a = true.
Proof.
  unfold spoken_states. cbv zeta.
  destruct (decide _); [|destruct (bool_decide (role = RoleMenuItem) && _)]; intros H;
    repeat first [apply remove_contains_true in H | apply remove_when_contains in H]; done.
Qed.

(** For an announcement, only states absent from the node are negated. *)
Lemma negated_states_absent role s reason a :
  reason <> StateChange ->
  StateSet.contains (negated_states role s reason) a = true -> StateSet.contains s a = false.
Proof.
  unfold negated_states. intros Hr. rewrite decide_False //.
  rewrite collected_contains andb_true_iff negb_true_iff. by intros [? _].
Qed.

End sets.

Section words.
Context (positive negative : StateSet.t).

Lemma ordered_words :
  omap word_state (ordered_state_segments positive negative) =
  List.filter (fun a => StateSet.contains positive a || StateSet.contains negative a) STATE_ORDER.
Proof.
  unfold ordered_state_segments. induction STATE_ORDER as [|a l IH]; [done|]. csimpl.
  destruct (StateSet.contains positive a) eqn:Hp; csimpl; [by rewrite IH|].
  destruct (StateSet.contains negative a) eqn:Hn; csimpl; by rewrite IH.
Qed.

Lemma ordered_elem seg :
  seg ∈ ordered_state_segments positive negative <->
  exists a, a ∈ STATE_ORDER /\
    ((StateSet.contains positive a = true /\ seg = segment (SegState a)) \/
     (StateSet.contains positive a = false /\ StateSet.contains negative a = true /\
      seg = segment (SegNegatedState a))).
Proof.
  unfold ordered_state_segments. rewrite list_elem_of_omap. split.
  - intros (a & Ha & Hs). exists a. split; [done|].
    destruct (StateSet.contains positive a) eqn:Hp; simplify_eq; [by left|].
    destruct (StateSet.contains negative a) eqn:Hn; simplify_eq. by right.
  - intros (a & Ha & [[Hp ->]|(Hp & Hn & ->)]); exists a; (split; [done|]); by rewrite Hp ?Hn.
Qed.

Lemma ordered_true states :
  (forall a, StateSet.contains positive a = true -> StateSet.contains states a = true) ->
  (forall a, StateSet.contains negative a = true -> StateSet.contains states a = false) ->
  Forall (word_true states) (ordered_state_segments positive negative).
Proof.
  intros Hp Hn. apply Forall_forall. intros seg (a & _ & [[Ha ->]|(_ & Ha & ->)])%ordered_elem.
  - by apply Hp.
  - by apply Hn.
Qed.

End words.

Lemma STATE_ORDER_NoDup : NoDup STATE_ORDER.
Proof. apply (bool_decide_unpack _). vm_compute. exact I. Qed.

(** Words of a set are about distinct states, in the order of [STATE_ORDER]. *)
Definition in_state_order (segments : list UtteranceSegment) : Prop :=
  omap word_state segments `sublist_of` STATE_ORDER /\ NoDup (omap word_state segments) /\
  length (omap word_state segments) = length segments.

Lemma ordered_in_order positive negative :
  in_state_order (ordered_state_segments positive negative).
Proof.
  pose proof (filter_sublist (fun a => StateSet.contains positive a || StateSet.contains negative a)
    STATE_ORDER) as Hs.
  unfold in_state_order. rewrite ordered_words. split_and!; [done| |].
  - exact (sublist_NoDup _ _ STATE_ORDER_NoDup Hs).
  - clear Hs. rewrite -ordered_words. unfold ordered_state_segments.
    induction STATE_ORDER as [|a l IH]; [done|]. csimpl.
    destruct (StateSet.contains positive a); csimpl; [by rewrite IH|].
    destruct (StateSet.contains negative a); csimpl; by rewrite IH.
Qed.

(** What Core says of an object's states is true and said once: an
    announcement's words are about distinct states, in the documented order,
    "selected" only of a node that is selected and "not checked" only of one
    that is not; a change says, in that order, a gained state exactly when it is
    one spoken for the role, and a lost one exactly when its absence is, or when
    half checked was lost without becoming checked, and it says what holds of
    the new states; no change says nothing. *)
Theorem state_words_are_true (role : Role) (old_states new_states : StateSet.t) (reason : Reason) :
  let announced := state_segments role new_states reason in
  let changed := state_change_segments role old_states new_states in
  Forall (word_true new_states) announced /\ Forall (word_true new_states) changed /\
  in_state_order announced /\ in_state_order changed /\
  (forall a, segment (SegState a) ∈ changed <->
     a ∈ STATE_ORDER /\ StateSet.contains old_states a = false /\
     StateSet.contains (spoken_states role new_states StateChange) a = true) /\
  (forall a, segment (SegNegatedState a) ∈ changed <->
     a ∈ STATE_ORDER /\ StateSet.contains new_states a = false /\
     ((StateSet.contains old_states a = true /\
       StateSet.contains (negated_states role new_states StateChange) a = true) \/
      (a = Checked /\ StateSet.contains old_states Mixed = true /\
       StateSet.contains new_states Mixed = false))) /\
  state_change_segments role new_states new_states = [].
Proof.
  intros announced changed.
  assert (forall old a, StateSet.contains (intersect (spoken_states role new_states StateChange)
            (difference new_states old)) a = true <->
          StateSet.contains old a = false /\
          StateSet.contains (spoken_states role new_states StateChange) a = true) as Hpos.
  { intros old a. rewrite intersect_contains difference_contains !andb_true_iff negb_true_iff.
    pose proof (spoken_states_present role new_states StateChange a). tauto. }
  assert (forall old a, StateSet.contains
            (insert_when (StateSet.contains (difference old new_states) Mixed &&
                          negb (StateSet.contains new_states Checked)) Checked
               (intersect (negated_states role new_states StateChange) (difference old new_states))) a = true <->
          StateSet.contains new_states a = false /\
          ((StateSet.contains old a = true /\
            StateSet.contains (negated_states role new_states StateChange) a = true) \/
           (a = Checked /\ StateSet.contains old Mixed = true /\
            StateSet.contains new_states Mixed = false))) as Hneg.
  { intros old a. rewrite insert_when_contains intersect_contains !difference_contains.
    rewrite orb_true_iff !andb_true_iff !negb_true_iff bool_decide_eq_true. split.
    - intros [[[[? ?] ?] <-]|[[? ?] ?]]; tauto.
    - intros [? [[? ?]|(-> & ? & ?)]]; tauto. }
  split_and!; try apply ordered_in_order.
  - apply ordered_true; intros a; [apply spoken_states_present|].
    apply negated_states_absent. by destruct reason.
  - apply ordered_true; intros a.
    + intros [_ H]%Hpos. by apply spoken_states_present in H.
    + by intros [? _]%Hneg.
  - intros a. unfold changed, state_change_segments. rewrite ordered_elem. split.
    + intros (b & Hb & [[Hp [= ->]]|(_ & _ & [=])]). split; [done|]. by apply Hpos.
    + intros (Ha & Ho & Hs). exists a. split; [done|]. left. split; [|done]. by apply Hpos.
  - intros a. unfold changed, state_change_segments. rewrite ordered_elem. split.
    + intros (b & Hb & [[_ [=]]|(_ & Hn & [= ->])]). split; [done|]. by apply Hneg.
    + intros (Ha & Hn & Ho). exists a. split; [done|]. right. split_and!; [|by apply Hneg|done].
      apply not_true_iff_false. intros [_ Hs]%Hpos. apply spoken_states_present in Hs. congruence.
  - unfold state_change_segments. apply elem_of_nil_inv. intros seg (a & _ & [[Hp _]|(_ & Hn & _)])%ordered_elem.
    + apply Hpos in Hp as [Ho Hp]. apply spoken_states_present in Hp. congruence.
    + apply Hneg in Hn as [Hn [[? _]|(_ & ? & ?)]]; congruence.
Qed.

(** ** The walk in number order *)

Lemma in_order_perm m : in_order m ≡ₚ map_to_list m.
Proof. apply merge_sort_Permutation. Qed.

Lemma in_order_elem m query_id o : (query_id, o) ∈ in_order m <-> m !! query_id = Some o.
Proof. by rewrite in_order_perm elem_of_map_to_list. Qed.

Lemma find_entry_Some which q query_id o :
  find_entry which q = Some (query_id, o) -> open q !! query_id = Some o /\ picks which o = true.
Proof.
  intros [Hin Hp]%find_Some. split; [by apply in_order_elem|done].
Qed.

Lemma find_entry_None which q :
  find_entry which q = None <-> forall query_id o, open q !! query_id = Some o -> picks which o = false.
Proof.
  unfold find_entry. rewrite find_None. split.
  - intros Hn query_id o Ho. by apply (Hn (query_id, o)), in_order_elem.
  - intros Hn [query_id o] Ho%in_order_elem. by eapply Hn.
Qed.

Lemma has_true which q :
  has which q = true <-> exists query_id o, open q !! query_id = Some o /\ picks which o = true.
Proof.
  unfold has, find_query. destruct (find_entry which q) as [[query_id o]|] eqn:Hf; csimpl.
  - split; [|done]. intros _. exists query_id, o. by apply find_entry_Some.
  - split; [done|]. intros (query_id & o & Ho & Hp).
    by rewrite (proj1 (find_entry_None which q) Hf query_id o Ho) in Hp.
Qed.

Lemma has_ask which asking t q :
  which t = true -> is_nothing t = false -> has which (ask asking t q).1.1 = true.
Proof.
  intros Hw Hn. apply has_true. eexists {| query_number := next q |}, _. csimpl.
  rewrite lookup_insert_eq. split; [done|]. unfold picks. simpl. by rewrite Hn Hw.
Qed.

(** Asking something else changes nothing of what [which] picks, on a table
    whose numbers are below the next. *)
Lemma has_ask_other which asking t q :
  open q !! {| query_number := next q |} = None -> which t = false ->
  has which (ask asking t q).1.1 = has which q.
Proof.
  intros Hfresh Hw. apply eq_true_iff_eq. rewrite !has_true. csimpl. split.
  - intros (query_id & o & Ho & Hp). destruct (decide (query_id = {| query_number := next q |})) as [->|Hne].
    + rewrite lookup_insert_eq in Ho. simplify_eq. unfold picks in Hp. simpl in Hp.
      rewrite Hw andb_false_r in Hp. done.
    + rewrite lookup_insert_ne in Ho; [|congruence]. eauto.
  - intros (query_id & o & Ho & Hp). exists query_id, o. split; [|done].
    rewrite lookup_insert_ne; [done|]. intros <-. congruence.
Qed.

Lemma has_forget which q : has which (forget which q) = false.
Proof.
  apply not_true_iff_false. rewrite has_true. intros (query_id & o & Ho & Hp). simpl in Ho.
  rewrite lookup_omap_Some in Ho. destruct Ho as (o' & Ho & _). unfold forget_entry in Ho.
  destruct (picks which o') eqn:Hw; [|congruence].
  by destruct (decide _); simplify_eq.
Qed.

(** ** Runs of the table *)

Inductive TableOp :=
  | OpAsk (asking : Asking) (t : Then)
  | OpAskMemory (node : NodeId) (t : Then)
  | OpMemoryLater (query_id : QueryId) (trace : option TraceId)
  | OpFindMut (which : Then -> bool) (change : Then -> Then)
  | OpReplace (query_id : QueryId) (t : Then)
  | OpForget (which : Then -> bool)
  | OpWithdraw (query_id : QueryId)
  | OpForgetMemory (query_ids : list QueryId)
  | OpTraces (first : N) (effects : list Effect) (input : option TraceId)
  | OpAnswered (query_id : QueryId) (from : OutpostId)
  | OpMemoryAnswer (query_id : QueryId)
  | OpEndGone (query_id : QueryId).

(** The queries of [m] that are not in [m']. *)
Definition dropped (m m' : gmap QueryId Open) : list QueryId :=
  fst <$> map_to_list (filter (fun p => m' !! p.1 = None) m).

(** The new table, the queries ended with what each continues, and those
    dropped. [OpEndGone] is one turn of [outpost_gone]'s loop. *)
Definition table_step (op : TableOp) (q : Queries) : Queries * list (QueryId * Then) * list QueryId :=
  let drops q' := (q', [], dropped (open q) (open q')) in
  let ends query_id (r : Queries * option Then) :=
    (r.1, (fun t => (query_id, t)) <$> option_list r.2, []) in
  match op with
  | OpAsk asking t => ((ask asking t q).1.1, [], [])
  | OpAskMemory node t => ((ask_memory node t q).1, [], [])
  | OpMemoryLater query_id trace => (answer_from_memory_later query_id trace q, [], [])
  | OpFindMut which change => (default q (find_mut which change q), [], [])
  | OpReplace query_id t => ((replace_then query_id t q).1, [], [])
  | OpForget which => drops (forget which q)
  | OpForgetMemory query_ids => drops (forget_memory query_ids q)
  | OpTraces first effects input => (set_traces first effects input q, [], [])
  | OpWithdraw query_id => ends query_id ((withdraw query_id q).1, fst <$> (withdraw query_id q).2)
  | OpAnswered query_id from => ends query_id (take_answered query_id from q)
  | OpMemoryAnswer query_id | OpEndGone query_id => ends query_id (take_memory query_id q)
  end.

Record TableRun := {
  table : Queries;
  asked_ids : list QueryId;
  ended_ids : list (QueryId * Then);
  dropped_ids : list QueryId;
}.
Definition is_ask (op : TableOp) : bool := match op with OpAsk _ _ | OpAskMemory _ _ => true | _ => false end.
Definition run_step (r : TableRun) (op : TableOp) : TableRun :=
  let '(q, ended, gone) := table_step op (table r) in
  {| table := q;
     asked_ids := asked_ids r ++
       (if is_ask op then [{| query_number := next (table r) |}] else []);
     ended_ids := ended_ids r ++ ended; dropped_ids := dropped_ids r ++ gone |}.
Definition empty_run : TableRun :=
  {| table := no_queries; asked_ids := []; ended_ids := []; dropped_ids := [] |}.
Definition run_table (ops : list TableOp) : TableRun := foldl run_step empty_run ops.

(** ** What a step does to the open queries *)

Definition ids (m : gmap QueryId Open) : list QueryId := fst <$> map_to_list m.

Lemma ids_elem m query_id : query_id ∈ ids m <-> is_Some (m !! query_id).
Proof.
  unfold ids. rewrite list_elem_of_fmap. split.
  - intros ([i o] & -> & Ho%elem_of_map_to_list). by exists o.
  - intros [o Ho]. exists (query_id, o). split; [done|]. by apply elem_of_map_to_list.
Qed.

Lemma ids_insert m query_id o : m !! query_id = None -> ids (<[query_id := o]> m) ≡ₚ query_id :: ids m.
Proof. intros Hm. unfold ids. by rewrite map_to_list_insert. Qed.

Lemma ids_delete m query_id o : m !! query_id = Some o -> ids m ≡ₚ query_id :: ids (delete query_id m).
Proof. intros Hm. unfold ids. by rewrite -{1}(map_to_list_delete m query_id o). Qed.

Lemma ids_NoDup m : NoDup (ids m).
Proof. apply NoDup_fst_map_to_list. Qed.

Lemma ids_same_dom m m' : (forall query_id, is_Some (m !! query_id) <-> is_Some (m' !! query_id)) ->
  ids m ≡ₚ ids m'.
Proof.
  intros Hd. apply NoDup_Permutation; [apply ids_NoDup..|]. intros query_id. rewrite !ids_elem. apply Hd.
Qed.

Lemma ids_update m query_id o o' : m !! query_id = Some o -> ids (<[query_id := o']> m) ≡ₚ ids m.
Proof.
  intros Hm. apply ids_same_dom. intros i. destruct (decide (i = query_id)) as [->|Hne].
  - rewrite lookup_insert_eq Hm. by split; eexists.
  - by rewrite lookup_insert_ne.
Qed.

Lemma ids_dropped m m' :
  (forall query_id, is_Some (m' !! query_id) -> is_Some (m !! query_id)) ->
  ids m ≡ₚ dropped m m' ++ ids m'.
Proof.
  intros Hsub. unfold dropped. fold (ids (filter (fun p => m' !! p.1 = None) m)).
  apply NoDup_Permutation; [apply ids_NoDup| |].
  - apply NoDup_app. split_and!; [apply ids_NoDup| |apply ids_NoDup].
    intros i. rewrite !ids_elem. intros [o [_ Hn]%map_lookup_filter_Some] [o' Ho']. simpl in Hn. congruence.
  - intros i. rewrite elem_of_app !ids_elem. split.
    + intros [o Ho]. destruct (m' !! i) eqn:Hi; [right; by eexists|]. left. exists o.
      by apply map_lookup_filter_Some.
    + intros [[o [Ho _]%map_lookup_filter_Some]|Hi]; [by exists o|by apply Hsub].
Qed.

Lemma forget_sub which q query_id :
  is_Some (open (forget which q) !! query_id) -> is_Some (open q !! query_id).
Proof. simpl. intros [o (o' & _ & Ho)%lookup_omap_Some]. by exists o'. Qed.

Lemma forget_memory_lookup query_ids q query_id o :
  open (forget_memory query_ids q) !! query_id = Some o -> open q !! query_id = Some o.
Proof.
  unfold forget_memory. simpl. revert query_id o. generalize (open q) as m.
  induction query_ids as [|i query_ids IH]; intros m query_id o Ho; [done|]. csimpl in Ho.
  apply IH in Ho. destruct (m !! i) as [oi|]; [|done]. destruct (decide _); [|done].
  by apply lookup_delete_Some in Ho as [_ ?].
Qed.

Lemma set_trace_dom first effect trace q :
  next (set_trace first effect trace q) = next q /\
  ids (open (set_trace first effect trace q)) ≡ₚ ids (open q).
Proof.
  revert trace. induction effect; intros trace; simpl; try done; try apply IHeffect;
    destruct (first <=? _); try done; destruct (open q !! query_id) eqn:Ho; (split; [done|]); try done;
    by apply ids_update with o.
Qed.

Lemma set_traces_dom first effects input q :
  next (set_traces first effects input q) = next q /\
  ids (open (set_traces first effects input q)) ≡ₚ ids (open q).
Proof.
  unfold set_traces. destruct (next q =? first); [done|]. revert q.
  induction effects as [|effect effects IH]; intros q; [done|]. csimpl.
  destruct (IH (set_trace first effect input q)) as [Hn Hi].
  destruct (set_trace_dom first effect input q) as [Hn' Hi']. split; [by rewrite Hn|by rewrite Hi].
Qed.

(** A step that asks nothing moves no number, and what leaves the table is
    ended or dropped. *)
Lemma table_step_ids op q q' ended gone :
  is_ask op = false -> table_step op q = (q', ended, gone) ->
  next q' = next q /\ ids (open q) ≡ₚ ended.*1 ++ gone ++ ids (open q').
Proof.
  intros Ha Hs.
  assert (forall query_id (r : Queries * option Then),
    (r = (q, None) \/ exists o, open q !! query_id = Some o /\
       r = (with_open (delete query_id (open q)) q, Some (then_ o))) ->
    (r.1, (fun t => (query_id, t)) <$> option_list r.2, []) = (q', ended, gone) ->
    next q' = next q /\ ids (open q) ≡ₚ ended.*1 ++ gone ++ ids (open q')) as Hends.
  { intros query_id r [->|(o & Ho & ->)] [= <- <- <-]; csimpl; [done|]. split; [done|]. by eapply ids_delete. }
  destruct op; try done; cbn [table_step] in Hs;
    try (eapply Hends; [|exact Hs]; unfold withdraw, take_answered, take_memory;
         destruct (open q !! query_id) as [o|] eqn:Ho; [|by left];
         try (destruct (_ || _); [by left|]); right; by exists o);
    injection Hs as <- <- <-.
  - unfold answer_from_memory_later. destruct (open q !! query_id) eqn:Ho; (split; [done|]); [|done].
    simpl. by rewrite ids_update.
  - unfold find_mut. destruct (find_entry which q) as [[query_id o]|] eqn:Hf; simpl; [|done].
    apply find_entry_Some in Hf as [Ho _]. split; [done|]. by rewrite ids_update.
  - unfold replace_then. destruct (open q !! query_id) eqn:Ho; (split; [done|]); [|done].
    simpl. by rewrite ids_update.
  - split; [done|]. apply ids_dropped, forget_sub.
  - split; [done|]. apply ids_dropped. intros i [o Ho]. exists o. by eapply forget_memory_lookup.
  - destruct (set_traces_dom first effects input q) as [Hn Hi]. split; [done|]. by rewrite Hi.
Qed.

(** ** Every query ends once *)

(** The numbers given are those below the next, and each is open, ended or
    dropped. *)
Definition numbered (n : N) : list QueryId := Build_QueryId ∘ N.of_nat <$> seq 0 (N.to_nat n).
Definition run_inv (r : TableRun) : Prop :=
  asked_ids r = numbered (next (table r)) /\
  asked_ids r ≡ₚ (ended_ids r).*1 ++ dropped_ids r ++ ids (open (table r)).

Lemma numbered_S n : numbered (n + 1) = numbered n ++ [{| query_number := n |}].
Proof.
  unfold numbered. replace (N.to_nat (n + 1)) with (S (N.to_nat n)) by lia.
  rewrite seq_S fmap_app. csimpl. by rewrite N2Nat.id.
Qed.

Lemma numbered_NoDup n : NoDup (numbered n).
Proof.
  unfold numbered. apply NoDup_fmap_2; [|apply NoDup_seq]. intros i j. simpl. intros [= Hij]. lia.
Qed.

Lemma numbered_fresh n : {| query_number := n |} ∉ numbered n.
Proof.
  unfold numbered. rewrite list_elem_of_fmap. intros (i & [= Hi] & Hin%elem_of_seq). lia.
Qed.

(** A number just given. *)
Lemma run_step_asked r outpost how t :
  run_inv r -> next (table r) < U64_MAX ->
  let q := (record_query outpost how t (table r)).1 in
  next q = next (table r) + 1 /\
  ids (open q) ≡ₚ {| query_number := next (table r) |} :: ids (open (table r)).
Proof.
  intros [Hn Hp] Hlt. simpl. split; [rewrite saturating_add_exact; [done|lia]|].
  apply ids_insert. destruct (open (table r) !! _) eqn:Ho; [exfalso|done].
  apply (numbered_fresh (next (table r))). rewrite -Hn Hp !elem_of_app. right. right.
  apply ids_elem. by eexists.
Qed.

Lemma run_step_inv r op : run_inv r -> next (table r) < U64_MAX -> run_inv (run_step r op).
Proof.
  intros Hr Hlt. pose proof Hr as [Hn Hp]. unfold run_step.
  assert (forall outpost how t, run_inv
    {| table := (record_query outpost how t (table r)).1;
       asked_ids := asked_ids r ++ [{| query_number := next (table r) |}];
       ended_ids := ended_ids r ++ []; dropped_ids := dropped_ids r ++ [] |}) as Hask.
  { intros outpost how t. destruct (run_step_asked r outpost how t Hr Hlt) as [Hn' Hi].
    split; cbn [table asked_ids ended_ids dropped_ids].
    - by rewrite Hn' numbered_S Hn.
    - rewrite !app_nil_r Hi Hp. solve_Permutation. }
  destruct (is_ask op) eqn:Ha.
  - destruct op; try done; csimpl; apply Hask.
  - destruct (table_step op (table r)) as [[q ended] gone] eqn:Hs.
    destruct (table_step_ids op (table r) q ended gone Ha Hs) as [Hn' Hi]. split; simpl; rewrite app_nil_r.
    + by rewrite Hn'.
    + rewrite Hp Hi fmap_app. solve_Permutation.
Qed.

(** The numbers asked of a run of operations. *)
Lemma run_table_inv ops :
  N.of_nat (length ops) <= U64_MAX ->
  run_inv (run_table ops) /\ next (table (run_table ops)) <= N.of_nat (length ops).
Proof.
  unfold run_table. induction ops as [|op ops IH] using rev_ind; intros Hlen.
  { by split; [split|]. }
  rewrite length_app in Hlen. simpl in Hlen. destruct IH as [IH Hle]; [lia|].
  rewrite foldl_app length_app. simpl. set (r := foldl run_step empty_run ops) in *.
  assert (next (table r) < U64_MAX) as Hlt by lia.
  split; [by apply run_step_inv|]. unfold run_step.
  destruct (is_ask op) eqn:Ha.
  - destruct op; try done; simpl; rewrite saturating_add_exact; lia.
  - destruct (table_step op (table r)) as [[q ended] gone] eqn:Hs.
    destruct (table_step_ids op (table r) q ended gone Ha Hs) as [Hn' _]. simpl. lia.
Qed.

(** What was dropped was only Core's to answer, and what ended was open. *)
Lemma dropped_memory which q query_id :
  query_id ∈ dropped (open q) (open (forget which q)) ->
  exists o, open q !! query_id = Some o /\ asked o = AskedMemory /\ picks which o = true.
Proof.
  unfold dropped. rewrite list_elem_of_fmap.
  intros ([i o] & -> & [Ho Hn]%elem_of_map_to_list%map_lookup_filter_Some). simpl in Hn |- *.
  exists o. split; [done|]. rewrite lookup_omap Ho in Hn. csimpl in Hn. unfold forget_entry in Hn.
  destruct (picks which o); [|done]. by destruct (decide _).
Qed.



Module Sample.

Definition ascii_graphemes (s : string) : list (nat * nat) :=
  (fun i => (i, S i)) <$> seq 0 (String.length s).

(** The runs of spaces and of other characters, from byte [i] on. *)
Fixpoint runs (i : nat) (s : string) (current : option (bool * nat)) : list (nat * nat) :=
  match s with
  | EmptyString => match current with Some (_, from) => [(from, i)] | None => [] end
  | String c s =>
      let space := is_whitespace (N_of_ascii c) in
      match current with
      | Some (was, from) =>
          if Bool.eqb was space then runs (S i) s current else (from, i) :: runs (S i) s (Some (space, i))
      | None => runs (S i) s (Some (space, i))
      end
  end.

Definition letter (c : N) : bool := ((65 <=? c) && (c <=? 90)) || ((97 <=? c) && (c <=? 122)).

#[export] Instance unicode : UnicodeRules := {
  graphemes := ascii_graphemes;
  sentences := fun s => [(0%nat, String.length s)];
  unicode_words := fun s _ => runs 0 s None;
  jieba_words := fun s => runs 0 s None;
  cell_width := String.length;
  composed := fun s => s;
  is_uppercase := fun c => (65 <=? c) && (c <=? 90);
  is_lowercase := fun c => (97 <=? c) && (c <=? 122);
  is_alphanumeric := fun c => letter c || ((48 <=? c) && (c <=? 57));
  is_han := fun _ => false;
  is_kana := fun _ => false;
  is_word_character := fun c => letter c || ((48 <=? c) && (c <=? 57));
}.

#[export] Instance reading : TerminalReading := { Reading := unit }.

Definition outpost_one : OutpostId := {| outpost_number := 1 |}.
Definition node_id (n : N) : NodeId := {| outpost := outpost_one; number := n |}.
Definition trace (n : N) : TraceId := {| trace_number := n |}.

Definition node_of (n : N) (r : Role) (called : string) : NodeSnapshot :=
  {| id := node_id n; backend := Uia; role := r; name := Some called; value := None;
     states := StateSet.new; details := NodeDetails_default |}.

Definition line_of (unit_ : TextUnit) (text : string) (is_last : bool) : TextChunk :=
  {| chunk_unit := unit_; chunk_text := text; chunk_start := {| anchor_number := 1 |}; chunk_offset := 0;
     languages := []; chunk_first := true; chunk_last := is_last; chunk_truncated := false; formats := [] |}.

End Sample.
