(* ===== verification/SayAllProps.v ===== *)
(** * Say-all reads on, in order

    Properties of [SayAll] over its runs: what was read is handed to speech
    once, in the order read; say-all never waits for nothing; no more than two
    utterances are ahead of playback; and the display is kept on exactly while
    it reads. *)

From S2P Require Import Prelude Text Tree TextModel Facts Messages Speech FocusRules TextUnits CoreText CoreEvents ForegroundRecord CoreQueries CoreProps CoreState Editing SayAll.

(** ** Sentence ends are in the text *)

Lemma char_indices_bound i s j c : (j, c) ∈ char_indices_from i s -> (i <= j < i + String.length s)%nat.
Proof.
  revert i. assert (forall n s i, (String.length s <= n)%nat -> (j, c) ∈ char_indices_from i s ->
    (i <= j < i + String.length s)%nat) as H; [|intros i; by apply (H (String.length s))].
  clear s. induction n as [|n IH]; intros s i Hn Hin.
  { destruct s; simpl in *; [by apply not_elem_of_nil in Hin|lia]. }
  assert (forall k i' s' (Hk : (0 < k)%nat) x, ((j, c) ∈ (i, x) :: char_indices_from (i + k)%nat s') ->
    (String.length s' + k <= S n)%nat -> i' = (String.length s' + k)%nat -> (i <= j < i + i')%nat) as Hstep.
  { intros k i' s' Hk x Hx Hle ->. apply elem_of_cons in Hx as [[= -> _]|Hx]; [lia|].
    apply IH in Hx; lia. }
  destruct s as [|a s1]; simpl in Hin, Hn; [by apply not_elem_of_nil in Hin|].
  destruct (N_of_ascii a <? 0x80).
  { eapply (Hstep 1%nat); [lia|exact Hin|lia|simpl; lia]. }
  destruct s1 as [|b s2]; [by apply not_elem_of_nil in Hin|]. simpl in Hn.
  destruct (N_of_ascii a <? 0xE0).
  { eapply (Hstep 2%nat); [lia|exact Hin|lia|simpl; lia]. }
  destruct s2 as [|d s3]; [by apply not_elem_of_nil in Hin|]. simpl in Hn.
  destruct (N_of_ascii a <? 0xF0).
  { eapply (Hstep 3%nat); [lia|exact Hin|lia|simpl; lia]. }
  destruct s3 as [|e s4]; [by apply not_elem_of_nil in Hin|]. simpl in Hn.
  eapply (Hstep 4%nat); [lia|exact Hin|lia|simpl; lia].
Qed.

Lemma find_map_Some {A B} (f : A -> option B) l y : find_map f l = Some y -> exists x, x ∈ l /\ f x = Some y.
Proof.
  induction l as [|x l IH]; [done|]. simpl. destruct (f x) eqn:Hf.
  - intros [= ->]. exists x. split; [apply elem_of_cons; by left|done].
  - intros (z & Hz & Hy)%IH. exists z. split; [apply elem_of_cons; by right|done].
Qed.

Lemma skip_whitespace_sub cs p : p ∈ skip_whitespace cs -> p ∈ cs.
Proof.
  induction cs as [|[i c] cs IH]; [done|]. simpl. destruct (is_whitespace c); [|done].
  intros ?. apply elem_of_cons. right. by apply IH.
Qed.

Lemma last_pause_bound text pause : last_pause text = Some pause -> (pause <= String.length text)%nat.
Proof.
  unfold last_pause. intros (index & _ & Hp)%find_map_Some. unfold pause_at in Hp.
  destruct (char_indices text !! index) as [[i mark]|]; [|done].
  csimpl in Hp. destruct (char_indices text !! (index - 1)%nat) as [[i' before]|]; [|done].
  csimpl in Hp. destruct (_ || _ || _); [done|]. destruct (_ && _); [done|].
  destruct (skip_whitespace _) as [|[offset c] rest] eqn:Hs; simplify_eq; [lia|].
  assert ((pause, c) ∈ char_indices text) as Hin.
  { match type of Hs with skip_whitespace (drop ?n ?l) = _ => rewrite -(take_drop n l) end.
    apply elem_of_app. right. apply skip_whitespace_sub. rewrite Hs. apply elem_of_cons. by left. }
  apply char_indices_bound in Hin. lia.
Qed.

(** ** The bytes of pieces *)

Definition piece_bytes (piece : BufferedPiece) : list (TextChunk * nat) :=
  (fun i => (piece_chunk piece, i)) <$>
  seq (byte_offset (piece_start piece)) (byte_offset (piece_end piece) - byte_offset (piece_start piece)).
Definition bytes_of (ps : list BufferedPiece) : list (TextChunk * nat) := flat_map piece_bytes ps.

Lemma bytes_of_app ps qs : bytes_of (ps ++ qs) = bytes_of ps ++ bytes_of qs.
Proof. apply flat_map_app. Qed.

(** What say-all has read and not handed to speech. *)
Definition pending (r : SayAll) : list BufferedPiece := List.concat (buffer r) ++ held r.

Lemma length_substring n m s : (String.length (String.substring n m s) <= m)%nat.
Proof.
  revert n m. induction s as [|a s IH]; intros [|n] [|m]; simpl; try lia.
  - specialize (IH 0%nat m). lia.
  - apply (IH n 0%nat).
  - apply (IH n (S m)).
Qed.

Lemma length_text_in text range : (String.length (text_in text range) <= range.2 - range.1)%nat.
Proof.
  unfold text_in, get. destruct (_ && _ && _ && _); simpl; [apply length_substring|lia].
Qed.

Definition fits (piece : BufferedPiece) : Prop :=
  piece_start piece <= U32_MAX /\ piece_end piece <= U32_MAX.

Lemma split_piece_bytes unit_ pause :
  fits unit_ -> last_pause (piece_text unit_) = Some pause ->
  let '(first, rest) := split_piece unit_ pause in
  bytes_of (first :: option_list rest) = piece_bytes unit_.
Proof.
  intros [Hs He] Hp%last_pause_bound. unfold split_piece.
  pose proof (length_text_in (chunk_text (piece_chunk unit_))
    (byte_offset (piece_start unit_), byte_offset (piece_end unit_))) as Hl.
  fold (piece_text unit_) in Hl. unfold byte_offset in Hl. simpl in Hl.
  assert (as_u32 pause = N.of_nat pause) as -> by (unfold as_u32; lia).
  destruct (piece_start unit_ +|32| N.of_nat pause <? piece_end unit_) eqn:Hlt.
  - assert (piece_start unit_ +|32| N.of_nat pause = piece_start unit_ + N.of_nat pause) as Hx.
    { apply saturating_add_exact. apply N.ltb_lt in Hlt. unfold saturating_add in Hlt. lia. }
    rewrite Hx in Hlt |- *. apply N.ltb_lt in Hlt. unfold bytes_of, piece_bytes, byte_offset. simpl.
    rewrite app_nil_r. set (a := N.to_nat (piece_start unit_)). set (b := N.to_nat (piece_end unit_)).
    replace (N.to_nat (piece_start unit_ + N.of_nat pause)) with (a + pause)%nat by lia.
    replace (b - a)%nat with (pause + (b - (a + pause)))%nat by lia.
    rewrite seq_app fmap_app. do 3 f_equal. lia.
  - unfold bytes_of, piece_bytes, byte_offset. simpl. rewrite app_nil_r. do 2 f_equal.
    apply N.ltb_ge in Hlt. unfold saturating_add in *. lia.
Qed.

(** ** Holding text back keeps it *)

#[local] Opaque split_piece.

Lemma release_pending r : pending (release r) = pending r.
Proof.
  unfold release, pending. destruct (held r) eqn:Hh; simpl; rewrite ?Hh; [done|].
  by rewrite concat_app app_nil_r /= app_nil_r.
Qed.

Lemma hold_bytes unit_ r :
  (forall u, unit_ = Some u -> fits u) ->
  bytes_of (pending (hold unit_ r)) = bytes_of (pending r) ++ bytes_of (option_list unit_).
Proof.
  intros Hfit. unfold hold.
  assert (forall k, bytes_of (pending (with_held_units k (with_held (held r ++ option_list unit_) r))) =
    bytes_of (pending r) ++ bytes_of (option_list unit_)) as Hkept.
  { intros k. unfold pending. simpl. by rewrite app_assoc bytes_of_app. }
  destruct unit_ as [u|]; csimpl.
  - destruct (last_pause (piece_text u)) as [pause|] eqn:Hp; csimpl.
    + pose proof (split_piece_bytes u pause (Hfit u eq_refl) Hp) as Hsplit.
      destruct (split_piece u pause) as [first rest].
      assert (bytes_of (pending (release (with_held (held r ++ [first]) r))) =
        bytes_of (pending r) ++ piece_bytes first) as Hr.
      { rewrite release_pending. unfold pending. simpl.
        rewrite app_assoc !bytes_of_app. by rewrite {3}/bytes_of /= app_nil_r. }
      unfold pending at 1. simpl. rewrite app_assoc bytes_of_app.
      fold (pending (release (with_held (held r ++ [first]) r))). rewrite Hr -app_assoc. f_equal.
      by rewrite app_nil_r -Hsplit.
    + destruct (bool_decide _); [rewrite release_pending|]; apply Hkept.
  - destruct (bool_decide _); [rewrite release_pending|]; apply Hkept.
Qed.

Lemma hold_frame unit_ r :
  queued (hold unit_ r) = queued r /\ last_chunk (hold unit_ r) = last_chunk r /\
  say_all_trace (hold unit_ r) = say_all_trace r /\ display_held (hold unit_ r) = display_held r /\
  reading_unit (hold unit_ r) = reading_unit r /\ finished (hold unit_ r) = finished r /\
  reading_node (hold unit_ r) = reading_node r.
Proof.
  assert (forall r, queued (release r) = queued r /\ last_chunk (release r) = last_chunk r /\
    say_all_trace (release r) = say_all_trace r /\ display_held (release r) = display_held r /\
    reading_unit (release r) = reading_unit r /\ finished (release r) = finished r /\
    reading_node (release r) = reading_node r) as Hrel.
  { intros r'. unfold release. simpl. by destruct (held r'). }
  unfold hold. destruct unit_ as [u|]; csimpl; [destruct (last_pause (piece_text u)); csimpl|].
  - destruct (split_piece u _) as [first rest]. simpl. apply (Hrel (with_held (held r ++ [first]) r)).
  - destruct (bool_decide _); [|done]. match goal with |- queued (release ?x) = _ /\ _ => exact (Hrel x) end.
  - destruct (bool_decide _); [|done]. match goal with |- queued (release ?x) = _ /\ _ => exact (Hrel x) end.
Qed.

(** An utterance buffered says something. *)
Definition buffered (r : SayAll) : Prop := Forall (fun ps => ps <> []) (buffer r).

Lemma release_buffered r : buffered r -> buffered (release r).
Proof.
  unfold buffered, release. intros Hb. simpl. destruct (held r); simpl; [done|].
  apply Forall_app. split; [done|]. by apply Forall_singleton.
Qed.

Lemma hold_buffered unit_ r : buffered r -> buffered (hold unit_ r).
Proof.
  intros Hb. unfold hold. destruct unit_ as [u|]; csimpl; [destruct (last_pause (piece_text u)); csimpl|].
  - destruct (split_piece u _) as [first rest]. unfold buffered. simpl.
    by apply (release_buffered (with_held (held r ++ [first]) r)).
  - destruct (bool_decide _); [by apply release_buffered|done].
  - destruct (bool_decide _); [by apply release_buffered|done].
Qed.

Section unicode.
Context `{UnicodeRules} `{TerminalReading}.

(** ** A batch *)

#[local] Opaque hold.

(** The units an answer is read as, in order. *)
Fixpoint units_of (grid : bool) (unit_ : TextUnit) (first : bool) (chunks : list TextChunk) :
    list BufferedPiece :=
  match chunks with
  | [] => []
  | chunk :: chunks =>
      chunk_units grid unit_ (if first then byte_offset (chunk_offset chunk) else 0%nat) chunk ++
      units_of grid unit_ false chunks
  end.
Definition batch_units (grid : bool) (moved : Z) (chunks : list TextChunk) (r : SayAll) :
    list BufferedPiece :=
  if (is_some (last_chunk r) && bool_decide (moved = 0%Z)) || is_nil chunks then []
  else units_of grid (reading_unit r) (negb (is_some (last_chunk r))) chunks.

Lemma as_u32_le x : as_u32 x <= U32_MAX.
Proof. unfold as_u32. lia. Qed.

Lemma hold_units_bytes units r :
  Forall fits units ->
  bytes_of (pending (foldl (fun r unit_ => hold (Some unit_) r) r units)) =
  bytes_of (pending r) ++ bytes_of units.
Proof.
  revert r. induction units as [|u units IH]; intros r Hf; simpl; [by rewrite app_nil_r|].
  apply Forall_cons in Hf as [Hu Hf]. rewrite IH // hold_bytes; [|by intros ? [= <-]].
  by rewrite -app_assoc /= app_nil_r.
Qed.

Lemma chunk_units_fit grid unit_ from chunk : Forall fits (chunk_units grid unit_ from chunk).
Proof.
  unfold chunk_units. apply Forall_fmap, Forall_forall. intros range _. split; apply as_u32_le.
Qed.

(** What a batch leaves as it was. *)
Definition same_playback (r r' : SayAll) : Prop :=
  queued r' = queued r /\ display_held r' = display_held r /\ reading_node r' = reading_node r.

Lemma take_chunk_spec grid from chunk r :
  bytes_of (pending (take_chunk grid from chunk r)) =
    bytes_of (pending r) ++ bytes_of (chunk_units grid (reading_unit r) from chunk) /\
  same_playback r (take_chunk grid from chunk r) /\
  reading_unit (take_chunk grid from chunk r) = reading_unit r /\
  say_all_trace (take_chunk grid from chunk r) = say_all_trace r /\
  (buffered r -> buffered (take_chunk grid from chunk r)).
Proof.
  unfold take_chunk. pose proof (chunk_units_fit grid (reading_unit r) from chunk) as Hf.
  set (r0 := with_finished _ _).
  assert (forall units r', same_playback r' (foldl (fun r unit_ => hold (Some unit_) r) r' units) /\
    reading_unit (foldl (fun r unit_ => hold (Some unit_) r) r' units) = reading_unit r' /\
    say_all_trace (foldl (fun r unit_ => hold (Some unit_) r) r' units) = say_all_trace r' /\
    (buffered r' -> buffered (foldl (fun r unit_ => hold (Some unit_) r) r' units))) as Hframe.
  { intros units. induction units as [|u units IH]; intros r'; [done|]. simpl.
    destruct (IH (hold (Some u) r')) as ((? & ? & ?) & ? & ? & Hb).
    destruct (hold_frame (Some u) r') as (? & ? & ? & ? & ? & ? & ?). unfold same_playback in *.
    split_and!; try congruence. intros ?. by apply Hb, hold_buffered. }
  destruct (chunk_units grid (reading_unit r) from chunk) as [|u units] eqn:Hu.
  - destruct (hold_frame None r0) as (? & ? & ? & ? & ? & ? & ?).
    rewrite hold_bytes; [|done]. split_and!; try done. intros ?. by apply hold_buffered.
  - rewrite hold_units_bytes //. split; [done|]. apply (Hframe (u :: units) r0).
Qed.

Lemma take_chunks_spec grid first chunks r :
  bytes_of (pending (take_chunks grid first chunks r)) =
    bytes_of (pending r) ++ bytes_of (units_of grid (reading_unit r) first chunks) /\
  same_playback r (take_chunks grid first chunks r) /\
  say_all_trace (take_chunks grid first chunks r) = say_all_trace r /\
  (buffered r -> buffered (take_chunks grid first chunks r)).
Proof.
  revert first r. induction chunks as [|chunk chunks IH]; intros first r; simpl.
  { by rewrite app_nil_r. }
  set (from := if first then _ else _).
  destruct (take_chunk_spec grid from chunk r) as (Hb & (? & ? & ?) & Hu & Ht & Hk).
  destruct (IH false (take_chunk grid from chunk r)) as (Hb' & (? & ? & ?) & Ht' & Hk').
  rewrite Hb' Hb Hu -app_assoc bytes_of_app. unfold same_playback. split_and!; try congruence; auto.
Qed.

Lemma take_batch_spec trace_id grid moved chunks r :
  let r' := take_batch trace_id grid moved chunks r in
  bytes_of (pending r') = bytes_of (pending r) ++ bytes_of (batch_units grid moved chunks r) /\
  same_playback r r' /\ say_all_trace r' = Some trace_id /\ (buffered r -> buffered r') /\
  (finished r' = true -> held r' = []).
Proof.
  unfold take_batch, batch_units. cbv zeta.
  change (last_chunk (with_say_all_trace (Some trace_id) r)) with (last_chunk r).
  set (r0 := if _ || _ then _ else _).
  assert (bytes_of (pending r0) = bytes_of (pending r) ++ bytes_of
    (if (is_some (last_chunk r) && bool_decide (moved = 0%Z)) || is_nil chunks then []
     else units_of grid (reading_unit r) (negb (is_some (last_chunk r))) chunks) /\
    same_playback r r0 /\ say_all_trace r0 = Some trace_id /\ (buffered r -> buffered r0))
    as (Hb & Hs & Ht & Hk).
  { subst r0. destruct (_ || _); simpl; [by rewrite app_nil_r|].
    apply (take_chunks_spec grid _ chunks (with_say_all_trace (Some trace_id) r)). }
  destruct (finished r0) eqn:Hf; [|split_and!; try done; congruence].
  assert (same_playback r0 (release r0) /\ say_all_trace (release r0) = say_all_trace r0 /\
    held (release r0) = []) as ((? & ? & ?) & Htr & Hh).
  { unfold release. simpl. by destruct (held r0) eqn:Hh. }
  destruct Hs as (? & ? & ?). rewrite release_pending Htr. unfold same_playback.
  split_and!; try congruence. intros ?. by apply release_buffered, Hk.
Qed.

(** ** Handing out *)

Definition is_mark_segment (s : UtteranceSegment) : bool :=
  match content s with SegMark _ => true | _ => false end.

(** What the pieces of an utterance say, its marks left out. *)
Fixpoint pieces_say (ps : list BufferedPiece) : list UtteranceSegment :=
  match ps with
  | [] => []
  | piece :: ps =>
      text_segments (spoken_text piece (negb (is_nil ps)))
        (language_at (piece_chunk piece) (piece_start piece)) ++ pieces_say ps
  end.

(** An effect that speaks the pieces, as say-all's. *)
Definition says (effect : Effect) (ps : list BufferedPiece) : Prop :=
  exists trace_id segments, effect = say_all_utterance trace_id segments /\
    List.filter (fun s => negb (is_mark_segment s)) segments = pieces_say ps.

Lemma text_segments_unmarked text language :
  List.filter (fun s => negb (is_mark_segment s)) (text_segments text language) =
  text_segments text language.
Proof. unfold text_segments. by destruct (is_blank text). Qed.

Lemma filter_app_eq {A} (f : A -> bool) l k : List.filter f (l ++ k) = List.filter f l ++ List.filter f k.
Proof. apply List.filter_app. Qed.

Lemma hand_pieces_spec index ps s :
  exists n segments marks,
    hand_pieces index ps s = (with_next_mark n s, segments, marks) /\
    List.filter (fun s => negb (is_mark_segment s)) segments = pieces_say ps /\
    length (List.filter opens marks) =
      (if bool_decide (index = 0%nat) && negb (is_nil ps) then 1 else 0)%nat.
Proof.
  revert index s. induction ps as [|piece ps IH]; intros index s; simpl.
  { exists (next_mark s), [], []. rewrite andb_false_r. by destruct s. }
  rewrite andb_true_r. destruct (bool_decide (index = 0%nat) || marked piece) eqn:Hm.
  - destruct (IH (S index) (with_next_mark (next_mark s +|64| 1) s)) as (n & segments & marks & Heq & Hs & Ho).
    unfold allocate_mark. rewrite Heq. eexists n, _, _. split; [by destruct s|]. split.
    + rewrite /= filter_app_eq text_segments_unmarked Hs //.
    + simpl. rewrite (bool_decide_eq_false_2 (S index = 0%nat)) // in Ho.
      destruct (bool_decide (index = 0%nat)); simpl; by rewrite Ho.
  - apply orb_false_iff in Hm as [Hi Hm].
    destruct (IH (S index) s) as (n & segments & marks & Heq & Hs & Ho). rewrite Heq.
    eexists n, _, _. split; [done|]. rewrite Hi. split.
    + rewrite /= filter_app_eq text_segments_unmarked Hs //.
    + done.
Qed.

(** What handing out does to say-all. *)
Lemma hand_out_each_spec waiting s r trace_id :
  saying s = Some r -> say_all_trace r = Some trace_id -> Forall (fun ps => ps <> []) waiting ->
  exists n out rest marks effects,
    hand_out_each waiting s =
      (with_saying (Some (with_queued (queued r ++ marks)
         (with_buffer (if is_nil out then buffer r else rest) r))) (with_next_mark n s), effects) /\
    waiting = out ++ rest /\ Forall2 says effects out /\
    length (List.filter opens marks) = length out /\
    ((unstarted r + length out <= HANDED)%nat \/ out = []) /\
    (rest = [] \/ (HANDED <= unstarted r + length out)%nat).
Proof.
  revert s r. induction waiting as [|ps waiting IH]; intros s r Hr Ht Hb.
  { exists (next_mark s), [], [], [], []. split.
    - simpl. rewrite Hr Ht. rewrite app_nil_r. destruct (bool_decide _); by destruct s, r; simplify_eq/=.
    - split_and!; auto. }
  apply Forall_cons in Hb as [Hps Hb]. simpl. rewrite Hr Ht.
  destruct (bool_decide (HANDED <= unstarted r)%nat) eqn:Hfull.
  { apply bool_decide_eq_true in Hfull. exists (next_mark s), [], (ps :: waiting), [], []. split.
    - rewrite app_nil_r. by destruct s, r; simplify_eq/=.
    - split_and!; auto. right. simpl. lia. }
  apply bool_decide_eq_false in Hfull.
  destruct (hand_pieces_spec 0 ps s) as (n & segments & marks & Heq & Hs & Ho). rewrite Heq.
  set (r1 := with_queued (queued r ++ marks) (with_buffer waiting r)).
  destruct (IH (with_saying (Some r1) (with_next_mark n s)) r1 eq_refl Ht Hb)
    as (n' & out & rest & marks' & effects & Heq' & Hw & Hout & Hm & Hle & Hrest).
  rewrite Heq'. exists n', (ps :: out), rest, (marks ++ marks'), (say_all_utterance trace_id segments :: effects).
  assert (length (List.filter opens marks) = 1%nat) as Hone.
  { rewrite Ho. by destruct ps. }
  assert (unstarted r1 = S (unstarted r)) as Hu.
  { unfold unstarted. subst r1. simpl. rewrite filter_app_eq length_app Hone. lia. }
  split_and!.
  - f_equal. subst r1. destruct s, r; simplify_eq/=. rewrite app_assoc. by destruct out; simplify_eq/=.
  - by rewrite Hw.
  - constructor; [|done]. by exists trace_id, segments.
  - by rewrite filter_app_eq length_app Hone Hm.
  - left. simpl. destruct Hle as [Hle| ->]; [lia|]. simpl. lia.
  - destruct Hrest as [?|?]; [by left|right]. simpl. lia.
Qed.

(** ** Frames *)

Lemma saying_update_caret node report at_ms s : saying (update_caret node report at_ms s) = saying s.
Proof.
  unfold update_caret, follow_caret. destruct (negb (focus_matches node s)); [done|].
  destruct (_ || _), (at_ms =? 0); simpl;
    repeat first [done | case_match; simpl]; try done.
Qed.

Lemma saying_caret_moved node new_line s : saying (caret_moved_by_core node new_line s) = saying s.
Proof.
  unfold caret_moved_by_core. destruct (negb _); [done|].
  destruct (caret (update_caret _ _ _ s)); simpl; apply saying_update_caret.
Qed.

Lemma saying_move_cursor r unit_ s : saying (move_cursor r unit_ s).1 = saying s.
Proof.
  unfold move_cursor. destruct (moves_caret r); csimpl; [by rewrite saying_caret_moved|].
  destruct (navigator s); [|done]. by destruct (bool_decide _).
Qed.

(** ** The display *)

Definition display (effect : Effect) : option bool :=
  match effect with EffKeepDisplayOn on => Some on | _ => None end.

(** The display kept on after the effects, if each of them changes it. *)
Definition toggle (on : option bool) (effect : Effect) : option bool :=
  on ≫= fun on =>
    match display effect with
    | Some now => if Bool.eqb now on then None else Some now
    | None => Some on
    end.
Definition toggles (on : bool) (effects : list Effect) : option bool := foldl toggle (Some on) effects.

Definition shown (s : SrState) : bool := match saying s with Some r => display_held r | None => false end.

(** A step whose effects keep the display as say-all wants it. *)
Definition display_ok (step : Step) : Prop := forall s, toggles (shown s) (step s).2 = Some (shown (step s).1).

Lemma toggles_app on effects more : toggles on (effects ++ more) =
  toggles on effects ≫= fun on => toggles on more.
Proof.
  unfold toggles. rewrite foldl_app. destruct (foldl toggle (Some on) effects); [done|]. csimpl.
  induction more; [done|]. by csimpl.
Qed.

Lemma toggles_none on effects : omap display effects = [] -> toggles on effects = Some on.
Proof.
  induction effects as [|e effects IH]; [done|]. cbn [omap list_omap].
  destruct (display e) eqn:He; [done|]. intros Hn. rewrite (toggles_app on [e]).
  assert (toggles on [e] = Some on) as ->; [|by apply IH].
  unfold toggles, toggle. cbn [foldl mbind option_bind]. by rewrite He.
Qed.

Lemma display_ok_seq a b : display_ok a -> display_ok b -> display_ok (a >>+ b).
Proof.
  intros Ha Hb s. unfold seq_steps. specialize (Ha s). destruct (a s) as [s1 e1]. specialize (Hb s1).
  destruct (b s1) as [s2 e2]. simpl in *. rewrite toggles_app Ha. done.
Qed.

Lemma display_ok_quiet (step : Step) :
  (forall s, shown (step s).1 = shown s) -> (forall s, omap display (step s).2 = []) -> display_ok step.
Proof. intros Hs He s. rewrite Hs. by apply toggles_none. Qed.

Lemma display_ok_stop : display_ok stop_say_all.
Proof.
  intros s. unfold stop_say_all, shown. simpl.
  destruct (saying s) as [r|]; [|done]. by destruct (display_held r).
Qed.

Lemma display_ok_silent : display_ok silent.
Proof. by apply display_ok_quiet. Qed.

Lemma display_ok_read_next : display_ok read_next.
Proof.
  apply display_ok_quiet; intros s; unfold read_next, shown; destruct (saying s) eqn:Hr; simpl; by rewrite ?Hr.
Qed.

Lemma says_display effects out : Forall2 says effects out -> omap display effects = [].
Proof. induction 1 as [|e ps effects out (t & segs & -> & _) _ IH]; [done|]. by csimpl. Qed.

Lemma hand_out_ok s r :
  saying s = Some r -> buffered r ->
  exists n out rest marks effects,
    hand_out s = (with_saying (Some (with_queued (queued r ++ marks) (with_buffer rest r))) (with_next_mark n s),
                  effects) /\
    buffer r = out ++ rest /\ Forall2 says effects out /\
    unstarted (with_queued (queued r ++ marks) r) = (unstarted r + length out)%nat /\
    ((unstarted r + length out <= HANDED)%nat \/ out = []) /\
    (is_some (say_all_trace r) = true -> rest = [] \/ (HANDED <= unstarted r + length out)%nat) /\
    (out <> [] -> marks <> []) /\ (say_all_trace r = None -> marks = []).
Proof.
  intros Hr Hb. unfold hand_out. rewrite Hr. destruct (say_all_trace r) as [trace_id|] eqn:Ht.
  - destruct (hand_out_each_spec (buffer r) s r trace_id Hr Ht Hb)
      as (n & out & rest & marks & effects & Heq & Hw & Ho & Hm & Hle & Hrest).
    exists n, out, rest, marks, effects. rewrite Heq. split_and!; try done.
    + destruct out; simpl in *; by rewrite ?Hw.
    + unfold unstarted. simpl. rewrite filter_app_eq length_app. lia.
    + intros ? ->. simpl in Hm. by destruct out.
  - exists (next_mark s), [], (buffer r), [], []. split.
    + destruct (buffer r) eqn:Hbuf; simpl; rewrite Hr Ht app_nil_r; destruct s, r; by simplify_eq/=.
    + rewrite app_nil_r. split_and!; auto; simpl; try lia; try done.
Qed.

Lemma display_ok_hand_out : forall s, (forall r, saying s = Some r -> buffered r) ->
  toggles (shown s) (hand_out s).2 = Some (shown (hand_out s).1).
Proof.
  intros s Hb. destruct (saying s) as [r|] eqn:Hr.
  - destruct (hand_out_ok s r Hr (Hb r eq_refl)) as (n & out & rest & marks & effects & -> & _ & Ho & _).
    simpl. rewrite toggles_none; [|by eapply says_display]. unfold shown. by rewrite Hr.
  - unfold hand_out, shown. rewrite Hr /= Hr /= ?Hr //.
Qed.

Lemma display_ok_end_if_done : display_ok end_if_done.
Proof.
  intros s. unfold end_if_done. destruct (saying s) as [r|] eqn:Hr; [|by apply (display_ok_silent s)].
  destruct (_ && _); [apply display_ok_stop|apply (display_ok_silent s)].
Qed.

Lemma display_ok_read_on : display_ok read_on_or_end.
Proof.
  intros s. unfold read_on_or_end. destruct (saying s) as [r|] eqn:Hr; [|by apply (display_ok_silent s)].
  destruct (finished r); [apply display_ok_end_if_done|].
  destruct (_ && _); [apply display_ok_read_next|apply (display_ok_silent s)].
Qed.

(** ** What keeps say-all going *)

(** It waits for the answer to a read or for playback. *)
Definition waits (s : SrState) : Prop :=
  match saying s with
  | Some r => has is_say_all (queries s) = true \/ queued r <> []
  | None => True
  end.

(** What holds of say-all between its steps. *)
Record well (r : SayAll) : Prop := {
  well_buffered : buffered r;
  well_unstarted : (unstarted r <= HANDED)%nat;
  well_held : finished r = true -> held r = [];
  well_trace : say_all_trace r = None -> queued r = [];
}.

Definition well_saying (s : SrState) : Prop := forall r, saying s = Some r -> well r.

Lemma read_next_waits s : waits (read_next s).1.
Proof.
  unfold read_next, waits. destruct (saying s) as [r|] eqn:Hr; simpl; rewrite ?Hr; [|done].
  left. by apply (has_ask is_say_all (AskText (reading_node r) (ReadAhead (next_read r))) ThenSayAll (queries s)).
Qed.

Lemma stop_waits s : waits (stop_say_all s).1 /\ well_saying (stop_say_all s).1.
Proof. done. Qed.

Lemma unstarted_queued r : (0 < unstarted r)%nat -> queued r <> [].
Proof. unfold unstarted. intros Hlt Hq. rewrite Hq /= in Hlt. lia. Qed.

(** Reading on, once what could be handed out was. *)
Lemma read_on_waits s :
  well_saying s ->
  (forall r, saying s = Some r -> buffer r = [] \/ (HANDED <= unstarted r)%nat) ->
  waits (read_on_or_end s).1 /\ well_saying (read_on_or_end s).1.
Proof.
  intros Hw Hfull. unfold read_on_or_end. destruct (saying s) as [r|] eqn:Hr; [|split].
  2: by rewrite /waits /= Hr. 2: done.
  specialize (Hw r Hr). specialize (Hfull r eq_refl).
  destruct (finished r) eqn:Hf.
  - unfold end_if_done. rewrite Hr Hf (well_held r Hw Hf) !andb_true_r. simpl.
    destruct (is_nil (queued r) && is_nil (buffer r)) eqn:Hd; [apply stop_waits|]. simpl. split.
    + unfold waits. rewrite Hr. right. destruct Hfull as [He|?].
      * rewrite He andb_true_r in Hd. by destruct (queued r).
      * apply unstarted_queued. unfold HANDED in *. lia.
    + intros r' Hr'. congruence.
  - destruct (negb _ && _) eqn:Hd.
    + split; [apply read_next_waits|]. unfold read_next. rewrite Hr. simpl. intros r' Hr'.
      simpl in Hr'. congruence.
    + simpl. split; [|intros r' Hr'; congruence]. unfold waits. rewrite Hr.
      destruct (has is_say_all (queries s)); [by left|right]. simpl in Hd.
      apply bool_decide_eq_false in Hd. apply unstarted_queued. unfold LOW_WATER, HANDED in *.
      destruct Hfull as [Hb|?]; [rewrite Hb /= in Hd|]; lia.
Qed.

(** What say-all says among the effects. *)
Definition say_all_speech (effect : Effect) : option Effect :=
  match effect with EffSpeak utterance _ => if say_all utterance then Some effect else None | _ => None end.

Lemma stop_says_nothing s : omap say_all_speech (stop_say_all s).2 = [].
Proof. unfold stop_say_all. simpl. destruct (saying s) as [r|]; [|done]. by destruct (display_held r). Qed.

Lemma read_next_says_nothing s : omap say_all_speech (read_next s).2 = [].
Proof. unfold read_next. by destruct (saying s). Qed.

Lemma read_on_says_nothing s : omap say_all_speech (read_on_or_end s).2 = [].
Proof.
  unfold read_on_or_end, end_if_done. destruct (saying s) as [r|]; [|done].
  destruct (finished r); (destruct (_ && _); [|done]); [apply stop_says_nothing|apply read_next_says_nothing].
Qed.

Lemma says_speech effects out : Forall2 says effects out -> omap say_all_speech effects = effects.
Proof. induction 1 as [|e ps effects out (t & segs & -> & _) _ IH]; [done|]. csimpl. by rewrite IH. Qed.

(** Handing out and reading on, from a well-formed say-all. *)
Lemma hand_on_spec s r :
  saying s = Some r -> well r -> (is_some (say_all_trace r) = true) ->
  exists out rest marks s' effects,
    (hand_out >>+ read_on_or_end) s = (s', effects) /\
    buffer r = out ++ rest /\ Forall2 says (omap say_all_speech effects) out /\
    toggles (shown s) effects = Some (shown s') /\ waits s' /\ well_saying s' /\
    (saying s' = Some (with_queued (queued r ++ marks) (with_buffer rest r)) \/
     (saying s' = None /\ finished r = true /\ rest = [])).
Proof.
  intros Hr Hw Ht.
  destruct (hand_out_ok s r Hr (well_buffered r Hw))
    as (n & out & rest & marks & effects & Heq & Hbuf & Hsays & Hun & Hle & Hrest & _ & _).
  set (r1 := with_queued (queued r ++ marks) (with_buffer rest r)) in *.
  set (s1 := with_saying (Some r1) (with_next_mark n s)) in *.
  assert (well r1) as Hw1.
  { destruct Hw as [Hb Hu Hh Htr]. split; simpl.
    - unfold buffered in *. simpl. rewrite Hbuf in Hb. by apply Forall_app in Hb as [_ ?].
    - change (unstarted r1) with (unstarted (with_queued (queued r ++ marks) r)). rewrite Hun.
      destruct Hle as [?| ->]; [done|]. simpl. lia.
    - done.
    - intros Hn. by rewrite Hn in Ht. }
  assert (saying s1 = Some r1) as Hs1 by done.
  assert (well_saying s1) as Hws by (intros r' Hr'; simplify_eq/=; done).
  destruct (read_on_waits s1) as [Hwait Hwell]; [done| |].
  { intros r' Hr'. rewrite Hs1 in Hr'. injection Hr' as <-. change (unstarted r1) with (unstarted (with_queued (queued r ++ marks) r)).
    rewrite Hun. by apply Hrest. }
  pose proof (display_ok_hand_out s) as Hd1. rewrite Heq /= in Hd1.
  specialize (Hd1 ltac:(intros r' Hr'; simplify_eq; apply Hw)).
  pose proof (display_ok_read_on s1) as Hd2.
  unfold seq_steps. rewrite Heq. destruct (read_on_or_end s1) as [s2 more] eqn:Hread. simpl in *.
  exists out, rest, marks, s2, (effects ++ more). split_and!; try done.
  - rewrite omap_app (says_speech effects out) //.
    by rewrite -[more]/((s2, more).2) -Hread read_on_says_nothing app_nil_r.
  - by rewrite toggles_app Hd1.
  - pose proof (f_equal fst Hread) as Hs2. cbn [fst] in Hs2. rewrite -Hs2.
    unfold read_on_or_end. change (saying s1) with (Some r1). cbv beta iota.
    change (finished r) with (finished r1). destruct (finished r1) eqn:Hf.
    + unfold end_if_done. change (saying s1) with (Some r1). cbv beta iota. rewrite Hf.
      destruct (true && is_nil (queued r1) && is_nil (buffer r1) && is_nil (held r1)) eqn:Hc; [right|by left].
      split_and!; [done..|]. rewrite !andb_true_iff in Hc. destruct Hc as [[_ Hc] _].
      simpl in Hc. by destruct rest.
    + left. destruct (negb _ && _); [|done]. unfold read_next. by change (saying s1) with (Some r1).
Qed.

(** ** Runs *)

(** What an answer is read as. *)
Definition read_units (rep : TextReply) (s : SrState) : list BufferedPiece :=
  match saying s, reply_chunks rep with
  | Some r, Some (moved, chunks) => batch_units (navigator_grid (reading_node r) s) moved chunks r
  | _, _ => []
  end.

(** Another part of the reducer: it leaves say-all and its read alone. *)
Definition other_step (s s' : SrState) (effects : list Effect) : Prop :=
  saying s' = saying s /\
  (has is_say_all (queries s) = true -> has is_say_all (queries s') = true) /\
  omap display effects = [] /\ omap say_all_speech effects = [].

(** A run of say-all among the reducer's steps: the effects of all of it, those
    since say-all last started, and the units read since. The answer to the
    read leaves the table [q]. *)
Inductive say_run : SrState -> list Effect -> list Effect -> list BufferedPiece -> Prop :=
  | run_idle s : saying s = None -> say_run s [] [] []
  | run_start s all log read node moves_caret at_ s' effects :
      say_run s all log read -> start node moves_caret at_ s = (s', effects) ->
      say_run s' (all ++ effects) [] []
  | run_answer s all log read q trace_id ending s' effects :
      say_run s all log read -> reply trace_id (ending_reply ending) (with_queries q s) = (s', effects) ->
      say_run s' (all ++ effects) (log ++ effects) (read ++ read_units (ending_reply ending) s)
  | run_mark s all log read mark moves s' effects :
      say_run s all log read -> passed mark moves s = (s', effects) ->
      say_run s' (all ++ effects) (log ++ effects) read
  | run_cancelled s all log read marks s' effects :
      say_run s all log read -> utterance_cancelled marks s = (s', effects) ->
      say_run s' (all ++ effects) (log ++ effects) read
  | run_stop s all log read s' effects :
      say_run s all log read -> stop_say_all s = (s', effects) ->
      say_run s' (all ++ effects) (log ++ effects) read
  | run_other s all log read s' effects :
      say_run s all log read -> other_step s s' effects ->
      say_run s' (all ++ effects) (log ++ effects) read.

(** The utterances said so far, and what they leave of what was read. *)
Definition said_in_order (s : SrState) (log : list Effect) (read : list BufferedPiece) : Prop :=
  exists handed, Forall2 says (omap say_all_speech log) handed /\
    match saying s with
    | Some r => bytes_of (List.concat handed) ++ bytes_of (pending r) = bytes_of read
    | None => bytes_of (List.concat handed) `prefix_of` bytes_of read
    end.

Record run_ok (s : SrState) (all log : list Effect) (read : list BufferedPiece) : Prop := {
  ok_waits : waits s;
  ok_well : well_saying s;
  ok_display : toggles false all = Some (shown s);
  ok_order : said_in_order s log read;
}.

Lemma said_in_order_stop s s' log read :
  saying s' = None -> said_in_order s log read -> said_in_order s' log read.
Proof.
  intros Hn (handed & Hs & Hb). exists handed. split; [done|]. rewrite Hn.
  destruct (saying s) as [r|]; [|done]. rewrite -Hb. by eexists.
Qed.

Lemma said_in_order_quiet s s' log more read :
  saying s' = saying s -> omap say_all_speech more = [] -> said_in_order s log read ->
  said_in_order s' (log ++ more) read.
Proof. unfold said_in_order. rewrite omap_app. intros -> ->. by rewrite app_nil_r. Qed.

Lemma run_ok_step s all log read s' effects read' :
  run_ok s all log read -> toggles (shown s) effects = Some (shown s') -> waits s' -> well_saying s' ->
  said_in_order s' (log ++ effects) read' -> run_ok s' (all ++ effects) (log ++ effects) read'.
Proof. intros [] Ht Hw Hs Ho. split; try done. by rewrite toggles_app ok_display0. Qed.

Lemma run_ok_stop s all log read :
  run_ok s all log read ->
  run_ok (stop_say_all s).1 (all ++ (stop_say_all s).2) (log ++ (stop_say_all s).2) read.
Proof.
  intros Hok. destruct (stop_waits s). eapply run_ok_step; [done|apply display_ok_stop|done..|].
  eapply (said_in_order_quiet (stop_say_all s).1); [done|apply stop_says_nothing|].
  eapply said_in_order_stop; [done|apply Hok].
Qed.

Lemma run_ok_nothing s all log read s' effects :
  run_ok s all log read -> (s, []) = (s', effects) -> run_ok s' (all ++ effects) (log ++ effects) read.
Proof. intros Hok [= <- <-]. by rewrite !app_nil_r. Qed.

(** Handing on from [r], reached from say-all with [new] read or not. *)
Lemma run_ok_hand_on s all log read s1 r new s' effects moved_effects :
  run_ok s all log read ->
  saying s1 = Some r -> well r -> is_some (say_all_trace r) = true ->
  shown s1 = shown s -> omap display moved_effects = [] -> omap say_all_speech moved_effects = [] ->
  (forall r0, saying s = Some r0 -> bytes_of (pending r) = bytes_of (pending r0) ++ bytes_of new) ->
  is_some (saying s) = true ->
  (hand_out >>+ read_on_or_end) s1 = (s', effects) ->
  run_ok s' (all ++ moved_effects ++ effects) (log ++ moved_effects ++ effects) (read ++ new).
Proof.
  intros Hok Hr Hw Ht Hshown Hd Hsp Hpend Hsome Heq.
  destruct (hand_on_spec s1 r Hr Hw Ht)
    as (out & rest & marks & s2 & more & Heq' & Hbuf & Hsays & Htog & Hwait & Hwell & Hend).
  rewrite Heq in Heq'. simplify_eq.
  eapply run_ok_step; [done| |done|done|].
  - by rewrite toggles_app (toggles_none _ _ Hd) /= -Hshown.
  - destruct (ok_order _ _ _ _ Hok) as (handed & Hh & Hb). destruct (saying s) as [r0|]; [|done].
    exists (handed ++ out). rewrite !omap_app Hsp. split; [by apply Forall2_app|].
    assert (bytes_of (List.concat (handed ++ out)) ++ bytes_of (List.concat rest ++ held r) =
            bytes_of (read ++ new)) as Hall.
    { rewrite concat_app !bytes_of_app -Hb -!app_assoc -(Hpend r0) //. f_equal.
      unfold pending. rewrite Hbuf concat_app !bytes_of_app. by rewrite -app_assoc. }
    destruct Hend as [->|(-> & Hf & ->)].
    + done.
    + rewrite (well_held r Hw Hf) /= app_nil_r in Hall. by rewrite Hall.
Qed.

Lemma take_marks_app mark qs : (take_marks mark qs).1 ++ (take_marks mark qs).2 = qs.
Proof.
  induction qs as [|q qs IH]; [done|]. simpl. destruct (mark_le mark q); [|done].
  destruct (take_marks mark qs). simpl in *. by rewrite IH.
Qed.

Lemma move_cursor_quiet r unit_ s :
  omap display (move_cursor r unit_ s).2 = [] /\ omap say_all_speech (move_cursor r unit_ s).2 = [].
Proof.
  unfold move_cursor. destruct (moves_caret r); [done|]. destruct (navigator s); [|done].
  by destruct (bool_decide _).
Qed.

Lemma run_ok_passed s all log read mark moves s' effects :
  run_ok s all log read -> passed mark moves s = (s', effects) ->
  run_ok s' (all ++ effects) (log ++ effects) read.
Proof.
  intros Hok. unfold passed. destruct (saying s) as [r|] eqn:Hr; [|by apply run_ok_nothing].
  destruct (existsb _ (queued r)) eqn:Hq; simpl; [|by apply run_ok_nothing].
  pose proof (ok_well _ _ _ _ Hok r Hr) as Hw. pose proof (take_marks_app mark (queued r)) as Happ.
  destruct (take_marks mark (queued r)) as [gone left]. simpl in Happ.
  set (r1 := with_queued left r).
  assert (is_some (say_all_trace r) = true) as Ht.
  { destruct (say_all_trace r) eqn:Ht; [done|]. by rewrite (well_trace r Hw Ht) in Hq. }
  assert (well r1) as Hw1.
  { destruct Hw as [Hb Hu Hh Htr]. split; try done.
    - unfold unstarted in *. simpl. rewrite -Happ filter_app_eq length_app in Hu. lia.
    - simpl. intros Hn. by rewrite Hn in Ht. }
  set (move := match last (omap mark_unit gone) with
               | Some unit_ => if moves then move_cursor r unit_ else silent | None => silent end).
  assert (forall s0, saying (move s0).1 = saying s0 /\ omap display (move s0).2 = [] /\
                     omap say_all_speech (move s0).2 = []) as Hmove.
  { intros s0. subst move. destruct (last _); [destruct moves|]; try done.
    split; [apply saying_move_cursor|apply move_cursor_quiet]. }
  destruct (Hmove (with_saying (Some r1) s)) as (Hs & Hd & Hsp).
  unfold seq_steps at 1. fold (seq_steps hand_out read_on_or_end).
  destruct (move (with_saying (Some r1) s)) as [s1 moved] eqn:Hm. simpl in Hs, Hd, Hsp.
  destruct ((hand_out >>+ read_on_or_end) s1) as [s2 more] eqn:Hon. intros [= <- <-].
  rewrite -(app_nil_r read).
  eapply (run_ok_hand_on s all log read s1 r1 []); try done.
  - unfold shown. by rewrite Hs Hr.
  - intros r0 Hr0. simplify_eq. by rewrite app_nil_r.
  - by rewrite Hr.
Qed.

Lemma run_ok_reply s all log read q trace_id rep s' effects :
  run_ok s all log read -> reply trace_id rep (with_queries q s) = (s', effects) ->
  run_ok s' (all ++ effects) (log ++ effects) (read ++ read_units rep s).
Proof.
  intros Hok. unfold reply, read_units. change (saying (with_queries q s)) with (saying s).
  destruct (saying s) as [r|] eqn:Hr.
  2: { intros [= <- <-]. rewrite !app_nil_r. destruct Hok as [? ? Hd Ho]. split.
       - unfold waits. simpl. by rewrite Hr.
       - intros r Hr'. simpl in Hr'. congruence.
       - done.
       - unfold said_in_order in *. done. }
  pose proof (ok_well _ _ _ _ Hok r Hr) as Hw.
  assert (forall s' effects, stop_say_all (with_queries q s) = (s', effects) ->
            run_ok s' (all ++ effects) (log ++ effects) (read ++ [])) as Hstop.
  { intros s2 e2 Heq. rewrite app_nil_r. pose proof (run_ok_stop s all log read Hok) as Hst.
    pose proof (f_equal snd Heq) as He. pose proof (f_equal fst Heq) as Hs2. simpl in He, Hs2. subst.
    unfold stop_say_all in Hst. simpl in Hst. destruct Hst as [? ? Hd Ho]. split; try done. }
  destruct (reply_chunks rep) as [[moved chunks]|] eqn:Hc.
  - destruct (take_batch_spec trace_id (navigator_grid (reading_node r) (with_queries q s)) moved chunks r)
      as (Hb & (Hq & Hdh & Hn) & Ht & Hbuf & Hheld).
    change (navigator_grid (reading_node r) (with_queries q s)) with (navigator_grid (reading_node r) s) in *.
    set (r1 := take_batch trace_id (navigator_grid (reading_node r) s) moved chunks r) in *.
    intros Hon. rewrite -(app_nil_l effects).
    eapply (run_ok_hand_on s all log read (with_saying (Some r1) (with_queries q s)) r1); [done|done| | |..].
    + destruct Hw as [Hwb Hu Hh Htr]. split; [by apply Hbuf| |done|congruence].
      unfold unstarted. by rewrite Hq.
    + by rewrite Ht.
    + unfold shown. by rewrite Hr /= Hdh.
    + done.
    + done.
    + intros r0 Hr0. by simplify_eq.
    + by rewrite Hr.
    + exact Hon.
  - assert (forall u, reply_chunks rep = None ->
      read_next (with_saying (Some (with_reading_unit u r)) (with_queries q s)) = (s', effects) ->
      run_ok s' (all ++ effects) (log ++ effects) (read ++ [])) as Hnext.
    { intros u _ Heq. unfold read_next in Heq. simpl in Heq. injection Heq as <- <-. rewrite app_nil_r.
      eapply run_ok_step; [done|..].
      - unfold toggles, shown. simpl. by rewrite Hr.
      - unfold waits. simpl. left.
        apply (has_ask is_say_all (AskText (reading_node r)
          (ReadAhead (next_read (with_reading_unit u r)))) ThenSayAll q); done.
      - intros r' Hr'. simpl in Hr'. injection Hr' as <-. by destruct Hw; split.
      - destruct (ok_order _ _ _ _ Hok) as (handed & Hh & Hb). exists handed.
        rewrite omap_app app_nil_r. split; [done|]. rewrite Hr in Hb. done. }
    destruct rep; try done; try apply Hstop. destruct (reading_unit r); first [apply Hstop | by apply Hnext].
Qed.

Lemma say_run_ok s all log read : say_run s all log read -> run_ok s all log read.
Proof.
  induction 1 as [s Hn|s all log read node mv at_ s' effects _ IH Heq|s all log read q t ending s' effects _ IH Heq
    |s all log read mark moves s' effects _ IH Heq|s all log read marks s' effects _ IH Heq
    |s all log read s' effects _ IH Heq|s all log read s' effects _ IH (Hs & Hhas & Hd & Hsp)].
  - split.
    + unfold waits. by rewrite Hn.
    + intros r Hr. congruence.
    + unfold shown. by rewrite Hn.
    + exists []. rewrite Hn. by split.
  - unfold start in Heq. destruct (stop_say_all s) as [s1 stopped] eqn:Hstop.
    pose proof (display_ok_stop s) as Hds. rewrite Hstop /= in Hds.
    assert (shown s1 = false) as Hn1 by (unfold stop_say_all in Hstop; by simplify_eq/=).
    rewrite Hn1 in Hds. simpl in Heq. injection Heq as <- <-. split.
    + unfold waits. simpl. left.
      apply (has_ask is_say_all (AskText node (ReadAhead {| ahead_at := at_; ahead_movement := None;
        ahead_unit := UnitLine; ahead_count := READ_AHEAD |})) ThenSayAll (queries s1)); done.
    + intros r Hr. simpl in Hr. injection Hr as <-.
      split; [by constructor|unfold unstarted, HANDED; simpl; lia|done|done].
    + rewrite toggles_app (ok_display _ _ _ _ IH) /= toggles_app Hds /=.
      unfold shown. simpl. by destruct (keep_display_on _).
    + exists []. by split.
  - by eapply run_ok_reply.
  - by eapply run_ok_passed.
  - unfold utterance_cancelled in Heq. destruct (saying s) as [r|]; [|by eapply run_ok_nothing].
    destruct (existsb _ _); [|by eapply run_ok_nothing].
    pose proof (run_ok_stop s all log read IH) as Hst. by rewrite Heq in Hst.
  - pose proof (run_ok_stop s all log read IH) as Hst. by rewrite Heq in Hst.
  - eapply run_ok_step; [done|..].
    + rewrite toggles_none //. unfold shown. by rewrite Hs.
    + pose proof (ok_waits _ _ _ _ IH) as Hw. unfold waits in *. rewrite Hs.
      destruct (saying s); [|done]. destruct Hw; [left; by apply Hhas|by right].
    + intros r Hr. apply (ok_well _ _ _ _ IH). congruence.
    + eapply said_in_order_quiet; [done|done|apply IH].
Qed.

(** C2: say-all hands speech what it read, once and in the order it was read:
    whatever reads, answers, marks reached, failed and cancelled utterances and
    other steps came in between, the words of its utterances since it started are the
    bytes of the units read, from the first on, and while it reads what it has
    not handed over yet is the rest of them, in its buffer or held back. *)
Theorem say_all_order s all log read :
  say_run s all log read ->
  exists handed, Forall2 says (omap say_all_speech log) handed /\
    match saying s with
    | Some r => bytes_of (List.concat handed) ++ bytes_of (List.concat (buffer r) ++ held r) = bytes_of read
    | None => bytes_of (List.concat handed) `prefix_of` bytes_of read
    end.
Proof. intros Hrun%say_run_ok. exact (ok_order _ _ _ _ Hrun). Qed.



End unicode.

(** ** A run *)

Module SayAllSample.

Import Sample.

(** Say-all over three lines, read in one batch; the second is two sentences'
    worth, its last word held back until the third ends it. *)
Definition lines : list TextChunk :=
  [line_of UnitLine "First line." false; line_of UnitLine "Then one. And" false;
   line_of UnitLine "another." true].
Definition started : SrState * list Effect := start (node_id 7) false PointStart new_state.
Definition batch : Ending := EndReply (ReplyChunks 0 lines).
Definition answered : SrState * list Effect :=
  reply (trace 1) (ending_reply batch) (with_queries no_queries started.1).
Definition marked_ : SrState * list Effect := passed {| mark_value := 0 |} true answered.1.

Lemma run :
  say_run marked_.1 ((([] ++ started.2) ++ answered.2) ++ marked_.2) (([] ++ answered.2) ++ marked_.2)
    ([] ++ read_units (ending_reply batch) started.1).
Proof.
  apply (run_mark answered.1 _ _ _ {| mark_value := 0 |} true); [|vm_compute; reflexivity].
  apply (run_answer started.1 _ _ _ no_queries (trace 1) batch); [|vm_compute; reflexivity].
  apply (run_start new_state [] [] [] (node_id 7) false PointStart); [by apply run_idle|vm_compute; reflexivity].
Qed.


Lemma say_all_order_witness :
  length (omap say_all_speech (answered.2 ++ marked_.2)) = 3%nat /\
  exists handed, Forall2 says (omap say_all_speech (([] ++ answered.2) ++ marked_.2)) handed /\
    match saying marked_.1 with
    | Some r => bytes_of (List.concat handed) ++ bytes_of (List.concat (buffer r) ++ held r) =
        bytes_of ([] ++ read_units (ending_reply batch) started.1)
    | None => bytes_of (List.concat handed) `prefix_of`
        bytes_of ([] ++ read_units (ending_reply batch) started.1)
    end.
Proof. split; [vm_compute; reflexivity|exact (say_all_order _ _ _ _ run)]. Defined.

Definition reading_on : SayAll :=
  match saying marked_.1 with
  | Some r => r
  | None => {| reading_node := node_id 7; moves_caret := false; start_at := PointStart;
               reading_unit := UnitLine; last_chunk := None; queued := []; buffer := []; held := [];
               held_units := 0; say_all_trace := None; finished := true; display_held := false |}
  end.



End SayAllSample.
