(* ===== verification/Flood.v ===== *)
(** * What a focused terminal says: the flood policy

    [src/crates/verbatim-core/src/terminal.rs] with [terminal/items.rs], and
    the parts of [terminal_model.rs] it calls for whether the outpost holds the
    terminal's reading. The answers to keys are spoken at once; output waits,
    is handed to speech two utterances ahead of playback, in groups, and what
    waits past a group is counted as skipped. The text of a new line, which the
    code shares with the read until the line waits, is a string here, so what
    the code adds ([Adding]) is what waits. *)

From S2P Require Import Prelude Text Tree TextModel Facts Messages Speech FocusRules TextUnits CoreText CoreEvents ForegroundRecord CoreQueries CoreState Announce Editing.

Definition AHEAD : nat := 2.

(** [10 * 1024 * 1024] bytes. *)
Definition MAX_WAITING_BYTES : N := 10485760.

(** ** Items *)

#[export] Instance TerminalAsk_eq_dec : EqDecision TerminalAsk.
Proof. solve_decision. Defined.

Inductive TerminalUnit := UnitCharacter_ | UnitWord_ | UnitLine_.

Inductive TerminalItem :=
  | ItemOutput (line : string)
  | ItemGrowth (text : string)
  | ItemSkipped (skipped : Skipped)
  | ItemEcho (typed : string)
  | ItemCaret (unit_ : TerminalUnit) (text : string)
  | ItemGained (text : string)
  | ItemLost (text : string)
  | ItemAnswer (text : string)
  | ItemSuggestion (text : string).

(** [TerminalItem::is_output]. *)
Definition item_is_output (self : TerminalItem) : bool :=
  match self with ItemOutput _ | ItemGrowth _ | ItemSkipped _ => true | _ => false end.

Inductive TerminalKeyKind :=
  | KindTyped (text : string)
  | KindCaret (unit_ : TerminalUnit)
  | KindEnter
  | KindForget
  | KindDelete
  | KindOther.

(** [Skipped::plus]. *)
Definition plus (self newer : Skipped) : Skipped :=
  match self, newer with
  | SkipCount a, SkipCount b => SkipCount (a +|32| b)
  | _, SkipMoreThan b => SkipMoreThan b
  | SkipMoreThan a, SkipCount b | SkipMoreThan a, SkipAbout b => SkipMoreThan (a +|32| b)
  | SkipAbout a, SkipAbout b | SkipCount a, SkipAbout b | SkipAbout a, SkipCount b => SkipAbout (a +|32| b)
  | _, SkipUncounted | SkipUncounted, SkipCount _ | SkipUncounted, SkipAbout _ => SkipUncounted
  end.

Definition with_line (skipped : option Skipped) (counted : Counted) : Skipped :=
  match skipped, counted with
  | Some (SkipMoreThan n), _ => plus (SkipMoreThan n) (SkipCount 1)
  | skipped, MoreThan_ => plus (default (SkipCount 0) skipped) (SkipMoreThan 1)
  | skipped, About_ =>
      match skipped with None => SkipAbout 1 | Some skipped => plus skipped (SkipAbout 1) end
  | skipped, Exactly =>
      match skipped with None => SkipCount 1 | Some skipped => plus skipped (SkipCount 1) end
  end.

Inductive SaidItem := SaidOther (item : TerminalItem) | SaidLine (text : string).
Record Said := { said_items : list SaidItem; followed : bool }.

(** [SaidItem::is_output]. *)
Definition is_output (self : SaidItem) : bool :=
  match self with SaidOther item => item_is_output item | SaidLine _ => true end.

(** ** What waits *)

Definition is_line (item : WaitingOutput) : bool :=
  match item with WaitLine _ (LineCounted _) => true | _ => false end.
Definition belongs (item : WaitingOutput) : bool :=
  match item with WaitLine _ LineGrowth | WaitCut => true | _ => false end.
Definition waiting_lines (waiting : list WaitingOutput) : nat := length (List.filter is_line waiting).

Definition is_mark (item : WaitingOutput) : bool :=
  match item with WaitSkipped (SkipMoreThan 0) => true | _ => false end.

(** How many bytes of output an item holds. *)
Definition line_bytes (item : WaitingOutput) : N :=
  match item with WaitLine line _ => N.of_nat (String.length line) | _ => 0 end.
Definition waiting_bytes (waiting : list WaitingOutput) : N :=
  foldr (fun item sum => line_bytes item + sum) 0 waiting.

Fixpoint push_skipped (skipped : Skipped) (waiting : list WaitingOutput) : list WaitingOutput :=
  match waiting with
  | [] => [WaitSkipped skipped]
  | [WaitSkipped last] => [WaitSkipped (plus last skipped)]
  | item :: waiting => item :: push_skipped skipped waiting
  end.

(** An item added after what waits. *)
Definition push_item (waiting : list WaitingOutput) (item : WaitingOutput) : list WaitingOutput :=
  match item with WaitSkipped skipped => push_skipped skipped waiting | _ => waiting ++ [item] end.

(** [iter().take_while(..)]. *)
Fixpoint leading (f : WaitingOutput -> bool) (l : list WaitingOutput) : list WaitingOutput :=
  match l with [] => [] | x :: l => if f x then x :: leading f l else [] end.

(** The loop of [backlog_start], [group_left] lines still to come. *)
Fixpoint backlog_from (group_left : nat) (waiting : list WaitingOutput) : nat :=
  match waiting with
  | [] => 0
  | item :: waiting =>
      S (if is_line item then
           if bool_decide (group_left = 1%nat) then length (leading belongs waiting)
           else backlog_from (group_left - 1) waiting
         else backlog_from group_left waiting)
  end.
Definition backlog_start (waiting : list WaitingOutput) (group_left : nat) : nat :=
  if bool_decide (group_left = 0%nat) then 0%nat else backlog_from group_left waiting.

(** ** Skipping *)

(** Whether an item at the front of the backlog is dropped. *)
Definition drops (in_line : bool) (dropping : nat) (item : WaitingOutput) : bool :=
  match item with
  | WaitSkipped _ => true
  | _ => if belongs item then in_line || bool_decide (0 < dropping)%nat else bool_decide (0 < dropping)%nat
  end.

(** What is left to drop, counted and in a line once [item] is dropped. *)
Definition dropped (item : WaitingOutput) (dropping : nat) (skipped : option Skipped) (in_line : bool) :
    nat * option Skipped * bool :=
  match item with
  | WaitLine _ (LineCounted counted) => ((dropping - 1)%nat, Some (with_line skipped counted), true)
  | WaitSkipped count =>
      (dropping, Some (match skipped with None => count | Some s => plus s count end), false)
  | WaitLine _ LineGrowth | WaitCut => (dropping, skipped, in_line)
  end.

(** The count of what was dropped, in its place. *)
Definition skipped_count (skipped : option Skipped) : list WaitingOutput :=
  match skipped with
  | Some skipped => if bool_decide (skipped = SkipCount 0) then [] else [WaitSkipped skipped]
  | None => []
  end.

(** The loop of [skip_all_but]. *)
Fixpoint skip_each (dropping : nat) (skipped : option Skipped) (in_line : bool)
    (waiting : list WaitingOutput) : list WaitingOutput :=
  match waiting with
  | item :: rest =>
      if drops in_line dropping item then
        let '(dropping, skipped, in_line) := dropped item dropping skipped in_line in
        skip_each dropping skipped in_line rest
      else skipped_count skipped ++ waiting
  | [] => skipped_count skipped
  end.
Definition skip_all_but (waiting : list WaitingOutput) (start keep : nat) : list WaitingOutput :=
  take start waiting ++ skip_each (waiting_lines (drop start waiting) - keep) None false (drop start waiting).

(** ** Adding output *)

(** [Bounded]: the queue rebuilt while the backlog is over its bound. *)
Record Bounded := {
  bounded_group_left : option nat;
  skipping : bool;
  dropping : nat;
  bounded_skipped : option Skipped;
  in_line : bool;
}.

(** [Bounded::end], and [Bounded::add] once the group is past. *)
Definition bounded_end (self : Bounded) (out : list WaitingOutput) : Bounded * list WaitingOutput :=
  if skipping self
  then ({| bounded_group_left := bounded_group_left self; skipping := false; dropping := dropping self;
           bounded_skipped := None; in_line := in_line self |},
        out ++ skipped_count (bounded_skipped self))
  else (self, out).
Definition bounded_skip (item : WaitingOutput) (self : Bounded) (out : list WaitingOutput) :
    Bounded * list WaitingOutput :=
  if skipping self then
    if drops (in_line self) (dropping self) item then
      let '(dropping, skipped, in_line) :=
        dropped item (dropping self) (bounded_skipped self) (in_line self) in
      ({| bounded_group_left := bounded_group_left self; skipping := true; dropping := dropping;
          bounded_skipped := skipped; in_line := in_line |}, out)
    else let '(self, out) := bounded_end self out in (self, out ++ [item])
  else (self, out ++ [item]).
Definition bounded_add (item : WaitingOutput) (self : Bounded) (out : list WaitingOutput) :
    Bounded * list WaitingOutput :=
  let with_left left skipping_ :=
    {| bounded_group_left := left; skipping := skipping_; dropping := dropping self;
       bounded_skipped := bounded_skipped self; in_line := in_line self |} in
  match bounded_group_left self with
  | Some left =>
      if bool_decide (0 < left)%nat then
        (with_left (Some (if is_line item then (left - 1)%nat else left)) (skipping self), out ++ [item])
      else if belongs item then (self, out ++ [item])
      else bounded_skip item (with_left None true) out
  | None => bounded_skip item self out
  end.

(** [queue]'s turns: [held] is the item before the next, not added yet. *)
Definition turn (item : WaitingOutput) (st : Bounded * list WaitingOutput * option WaitingOutput) :
    Bounded * list WaitingOutput * option WaitingOutput :=
  let '(self, out, held) := st in
  match held with
  | Some before => let '(self, out) := bounded_add before self out in (self, out, Some item)
  | None => (self, out, Some item)
  end.
Definition turn_added (item : WaitingOutput) (st : Bounded * list WaitingOutput * option WaitingOutput) :
    Bounded * list WaitingOutput * option WaitingOutput :=
  let '(self, out, held) := st in
  match item, held with
  | WaitSkipped skipped, Some (WaitSkipped last) => (self, out, Some (WaitSkipped (plus last skipped)))
  | _, _ => turn item st
  end.
Definition turn_end (st : Bounded * list WaitingOutput * option WaitingOutput) : list WaitingOutput :=
  let '(self, out, held) := st in
  let '(self, out) := match held with Some before => bounded_add before self out | None => (self, out) end in
  (bounded_end self out).2.

(** The oldest line waiting past [start], or else before it. *)
Definition is_text_line (item : WaitingOutput) : bool :=
  match item with WaitLine _ _ => true | _ => false end.
Fixpoint position_of (f : WaitingOutput -> bool) (l : list WaitingOutput) : option nat :=
  match l with [] => None | x :: l => if f x then Some 0%nat else S <$> position_of f l end.
Definition oldest_line (waiting : list WaitingOutput) (start : nat) : option nat :=
  match position_of is_text_line (drop start waiting) with
  | Some i => Some (start + i)%nat
  | None => position_of is_text_line (take start waiting)
  end.

(** One turn of [bound]'s loop, on the line at [index]. *)
Definition bound_at (index start : nat) (t : TerminalSpeechState) : TerminalSpeechState :=
  let group := if bool_decide (index < start)%nat then (fun left => (left - 1)%nat) <$> group t else group t in
  let counted := match waiting t !! index with Some (WaitLine _ (LineCounted c)) => Some c | _ => None end in
  let above := take index (waiting t) in
  let rest := drop (S index) (waiting t) in
  let rest :=
    match counted with Some _ => drop (length (leading belongs rest)) rest | None => rest end in
  let waiting :=
    match counted with
    | Some counted =>
        match last above with
        | Some (WaitSkipped before) =>
            take (index - 1) above ++ WaitSkipped (with_line (Some before) counted) :: rest
        | _ => above ++ WaitSkipped (with_line None counted) :: rest
        end
    | None => above ++ rest
    end in
  with_waiting waiting (with_group group t).

(** [bound]'s loop; [rounds] is enough when it is the number of items. *)
Fixpoint bound_rounds (rounds : nat) (t : TerminalSpeechState) : TerminalSpeechState :=
  match rounds with
  | 0%nat => t
  | S rounds =>
      if MAX_WAITING_BYTES <? waiting_bytes (waiting t) then
        let start := backlog_start (waiting t) (default 0%nat (group t)) in
        match oldest_line (waiting t) start with
        | Some index => bound_rounds rounds (bound_at index start t)
        | None => t
        end
      else t
  end.
Definition bound (t : TerminalSpeechState) : TerminalSpeechState := bound_rounds (length (waiting t)) t.

(** ** The flood policy *)

(** [skips]: the lines and the counts waiting from [start] on. *)
Definition count_lines (waiting : list WaitingOutput) : nat * Skipped :=
  foldl (fun '(lines, skipped) item =>
    if is_mark item then (lines, skipped)
    else match item with
         | WaitSkipped count => (lines, plus skipped count)
         | _ => if is_line item then (S lines, skipped) else (lines, skipped)
         end) (0%nat, SkipCount 0) waiting.
Definition skips (waiting : list WaitingOutput) (start full : nat) : bool :=
  match count_lines (drop start waiting) with
  | (lines, SkipCount count) => bool_decide (full < lines + N.to_nat count)%nat
  | _ => true
  end.

Definition skip_says_more_than (waiting : list WaitingOutput) (group_left full last_ : nat) : bool :=
  let start := backlog_start waiting group_left in
  match waiting !! start with
  | Some (WaitSkipped (SkipMoreThan _)) => skips waiting start full
  | Some (WaitLine _ (LineCounted MoreThan_)) =>
      skips waiting start full && bool_decide (last_ < waiting_lines (drop start waiting))%nat
  | _ => false
  end.

Section unicode.
Context `{UnicodeRules} `{TerminalReading}.

Definition with_speech (f : TerminalSpeechState -> TerminalSpeechState) (s : SrState) : SrState :=
  with_terminal (f (terminal s)) s.

Definition within_bound (line : string) : string * bool :=
  if N.of_nat (String.length line) <=? MAX_WAITING_BYTES then (line, false)
  else
    let end_ := match take_while_last (fun grapheme => N.of_nat grapheme.2 <=? MAX_WAITING_BYTES)
                        (graphemes line) None with
                | Some grapheme => grapheme.2
                | None => 0%nat
                end in
    (String.substring 0 end_ line, true).

(** [added]: the items the output makes; [counted] is how its next lines
    count. *)
Definition added_line (line : string) (kind : LineKind) : list WaitingOutput :=
  let '(line, cut) := within_bound line in
  WaitLine line kind :: if cut then [WaitCut] else [].
Fixpoint added (counted : Counted) (items : list SaidItem) : list WaitingOutput :=
  match items with
  | [] => []
  | SaidLine text :: items => added_line text (LineCounted counted) ++ added counted items
  | SaidOther item :: items =>
      match item with
      | ItemOutput line => added_line line (LineCounted counted) ++ added counted items
      | ItemGrowth line => added_line line LineGrowth ++ added counted items
      | ItemSkipped (SkipAbout 0) => added About_ items
      | ItemSkipped skipped =>
          WaitSkipped skipped ::
          added (match skipped with SkipMoreThan 0 => MoreThan_ | _ => counted end) items
      | _ => added counted items
      end
  end.

(** The lines [queue] counts among what was said. *)
Definition is_said_line (item : SaidItem) : bool :=
  match item with SaidOther (ItemOutput _) | SaidLine _ => true | _ => false end.

Definition queue_items (full last_ : nat) (items : list SaidItem) (t : TerminalSpeechState) :
    TerminalSpeechState :=
  let keep := Nat.max full last_ in
  let group_left := default 0%nat (group t) in
  let lines := (waiting_lines (waiting t) + length (List.filter is_said_line items))%nat in
  let backlog := (lines - group_left)%nat in
  if bool_decide (backlog <= keep)%nat then
    with_waiting (foldl push_item (waiting t) (added Exactly items)) t
  else
    let bounded := {|
      bounded_group_left := if bool_decide (0 < group_left)%nat then Some group_left else None;
      skipping := bool_decide (group_left = 0%nat);
      dropping := (backlog - keep)%nat;
      bounded_skipped := None; in_line := false |} in
    let st := foldl (fun st item => turn item st) (bounded, [], None) (waiting t) in
    let st := foldl (fun st item => turn_added item st) st (added Exactly items) in
    with_waiting (turn_end st) t.
Definition queue (items : list SaidItem) (s : SrState) : SrState :=
  with_speech (queue_items (full_lines (settings s)) (last_lines (settings s)) items) s.

Definition decide_backlog (full last_ : nat) (t : TerminalSpeechState) : TerminalSpeechState :=
  match waiting t with
  | [] => with_group None t
  | _ =>
      let lines := waiting_lines (waiting t) in
      if skips (waiting t) 0 full
      then with_group (Some (Nat.max full (Nat.min lines last_)))
             (with_waiting (skip_all_but (waiting t) 0 last_) t)
      else with_group (Some (Nat.max full lines)) t
  end.
Definition decide_group (s : SrState) : SrState :=
  with_speech (decide_backlog (full_lines (settings s)) (last_lines (settings s))) s.

(** ** The focused terminal and its outpost *)

Definition terminal_focus (s : SrState) : option NodeId :=
  focus ← live_focus s;
  if bool_decide (role (focus_node focus) = RoleTerminal) then Some (id (focus_node focus)) else None.

(** [terminal_model::focused], [holds] and [set_held]. *)
Definition model_of (node : NodeId) (s : SrState) : option TerminalModel :=
  find (fun model => bool_decide (model_node model = node)) (models (terminals s)).
Definition focused_model (s : SrState) : option NodeId :=
  node ← terminal_focus s; if is_some (model_of node s) then Some node else None.
Definition holds (s : SrState) : bool :=
  match node ← focused_model s; model_of node s with Some model => model_held model | None => false end.
Fixpoint hold_first (node : NodeId) (held : bool) (ms : list TerminalModel) : list TerminalModel :=
  match ms with
  | [] => []
  | model :: ms =>
      if bool_decide (model_node model = node)
      then {| model_node := model_node model; model_held := held; model_reviews := model_reviews model;
              model_reading := model_reading model |} :: ms
      else model :: hold_first node held ms
  end.
Definition set_held (held : bool) (s : SrState) : SrState :=
  match focused_model s with
  | Some node =>
      with_terminals {| models := hold_first node held (models (terminals s));
                        next_generation := next_generation (terminals s) |} s
  | None => s
  end.

(** [terminal_model::under]. *)
Definition under (key : option TraceId) (effects : list Effect) : list Effect :=
  match key with Some key => EffForKey key <$> effects | None => effects end.

Definition request (op : TextOp) (t : Then) (s : SrState) : option (SrState * Effect) :=
  node ← focused_model s;
  let '(s, _, effect) := ask_query (AskText node op) t s in Some (s, effect).

Definition is_ask (ask : TerminalAsk) (t : Then) : bool :=
  match t with ThenTerminal a => bool_decide (a = ask) | _ => false end.
Definition asked_terminal (ask : TerminalAsk) (s : SrState) : bool := has (is_ask ask) (queries s).

Definition hold_if_full : Step := fun s =>
  if holds s || asked_terminal AskCancel s ||
     bool_decide (waiting_lines (waiting (terminal s)) + length (List.filter snd (ahead (terminal s))) <
                  full_lines (settings s))%nat
  then (s, [])
  else
    match request TerminalHold ThenNothing s with
    | Some (s, effect) => (set_held true s, [effect])
    | None => (s, [])
    end.

Definition ask_new (hold : bool) : Step := fun s =>
  if asked_terminal AskRead s || asked_terminal AskCancel s then (s, [])
  else
    match request (TerminalRead hold) (ThenTerminal AskRead) s with
    | Some (s, effect) => (set_held hold s, [effect])
    | None => (s, [])
    end.

(** ** Handing output to speech *)

Definition output_utterance (s : SrState) (trace_id : TraceId) (segments : list UtteranceSegment) : Effect :=
  EffSpeak {| utt_trace_id := trace_id; priority := Queued; utt_segments := segments;
              source := (fun focus => source_of (focus_node focus)) <$> focus s;
              validity := (fun focus => while_focus (focus_node focus)) <$> focus s;
              say_all := false |} None.

(** What an item is spoken as. *)
Definition output_segments (item : WaitingOutput) : list UtteranceSegment :=
  match item with
  | WaitLine line _ => text_segments line None
  | WaitSkipped (SkipCount count) => [segment (SegPhrase (SkippedLines count))]
  | WaitSkipped SkipUncounted | WaitSkipped (SkipMoreThan 0) => [segment (SegPhrase SkippedUncountedLines)]
  | WaitSkipped (SkipAbout count) => [segment (SegPhrase (SkippedAboutLines count))]
  | WaitSkipped (SkipMoreThan count) => [segment (SegPhrase (SkippedMoreThanLines count))]
  | WaitCut => [segment (SegMessage TerminalLineCut)]
  end.

(** Whether an item reaching speech says nothing. *)
Definition is_silent (item : WaitingOutput) (s : SrState) : bool :=
  (match item with WaitLine line _ => is_blank line | _ => false end) ||
  (is_mark item &&
   skip_says_more_than (waiting (terminal s)) (default 0%nat (group (terminal s)))
     (full_lines (settings s)) (last_lines (settings s))).

(** The turn of [pump]'s loop that takes [item], already off the queue. *)
Definition end_group (item : WaitingOutput) : Step := fun s =>
  match is_line item, group (terminal s) with
  | true, Some left =>
      let left := (left - 1)%nat in
      let s := with_speech (with_group (Some left)) s in
      if bool_decide (left = 0%nat) && holds s then ask_new true s else (s, [])
  | _, _ => (s, [])
  end.
Definition say_item (trace_id : TraceId) (item : WaitingOutput) : Step := fun s =>
  if is_silent item s then (s, [])
  else
    let '(s, mark) := allocate_mark s in
    let '(s, end_) := allocate_mark s in
    let utterance := output_utterance s trace_id
      (segment (SegMark mark) :: output_segments item ++ [segment (SegMark end_)]) in
    (with_speech (fun t => with_sounding (Some end_) (with_ahead (ahead t ++ [(mark, is_line item)]) t)) s,
     [utterance]).
Fixpoint pump_each (trace_id : TraceId) (items : list WaitingOutput) : Step := fun s =>
  if bool_decide (AHEAD <= length (ahead (terminal s)))%nat then (s, [])
  else if bool_decide (group (terminal s) = Some 0%nat) &&
          negb (match items with item :: _ => belongs item | [] => false end) then (s, [])
  else
    match items with
    | [] => (s, [])
    | item :: rest =>
        (end_group item >>+ say_item trace_id item >>+ pump_each trace_id rest)
          (with_speech (with_waiting rest) s)
    end.

(** Whether the group, or all that waits, was handed on with nothing
    sounding. *)
Definition group_heard (t : TerminalSpeechState) : bool :=
  is_nil (ahead t) &&
  match group t with Some left => bool_decide (left = 0%nat) || is_nil (waiting t) | None => false end.
Definition ends_silently (t : TerminalSpeechState) : bool :=
  match sounding t with None => group_heard t | Some _ => false end.

(** [pump], with [decide_and_pump] unfolded in it; [pump_unfold] of [FloodProps]
    shows that the rounds [pump] takes are enough. *)
Definition read_live : Step := fun s =>
  if is_nil (waiting (terminal s)) && holds s then ask_new false s else (s, []).
Fixpoint pump_rounds (rounds : nat) (trace_id : TraceId) : Step :=
  match rounds with
  | 0%nat => silent
  | S rounds => fun s =>
      (pump_each trace_id (waiting (terminal s)) >>+ fun s =>
       if ends_silently (terminal s) then
         if asked_terminal AskRead s then (with_speech (with_deciding true) s, [])
         else
           match output_trace (terminal s) with
           | None => (s, [])
           | Some trace_id => (pump_rounds rounds trace_id >>+ read_live) (decide_group s)
           end
       else (s, [])) s
  end.
Definition pump (trace_id : TraceId) : Step := fun s =>
  pump_rounds (length (waiting (terminal s)) + 3) trace_id s.

Definition decide_and_pump : Step := fun s =>
  match output_trace (terminal s) with
  | None => (s, [])
  | Some trace_id => (pump trace_id >>+ read_live) (decide_group s)
  end.

(** ** What the terminal says *)

Definition answer_segments (item : TerminalItem) : option (list UtteranceSegment) :=
  match item with
  | ItemCaret UnitCharacter_ text =>
      Some (character_segments (if bool_decide (text = EmptyString) then None else Some text) None)
  | ItemCaret UnitWord_ text | ItemLost text => Some (word_segments text None)
  | ItemCaret UnitLine_ text | ItemGained text | ItemAnswer text | ItemSuggestion text =>
      Some (text_segments text None)
  | ItemOutput _ | ItemGrowth _ | ItemSkipped _ | ItemEcho _ => None
  end.

Definition answer_item (trace_id : TraceId) (item : SaidItem) : Step := fun s =>
  match item with
  | SaidLine _ => (s, [])
  | SaidOther item =>
      match item, speak_terminal_passwords (settings s) with
      | ItemEcho typed, false => echo trace_id typed s
      | _, _ => (s, match answer_segments item with
                    | Some segments => [speak trace_id segments]
                    | None => []
                    end)
      end
  end.

(** The review cursor follows the caret. *)
Definition follow_key (node : option NodeId) (said : Said) (s : SrState) : SrState :=
  match navigator s with
  | Some n =>
      if followed said && bool_decide (Some (id (object n)) = node)
      then with_navigator (Some (with_review_text ReviewCaret n)) s else s
  | None => s
  end.

Definition take_output (trace_id : TraceId) (items : list SaidItem) : Step := fun s =>
  let s := with_speech (with_output_trace (Some trace_id)) s in
  let s := match group (terminal s) with
           | None => with_speech (with_group (Some (full_lines (settings s)))) s
           | Some _ => s
           end in
  (pump trace_id >>+ hold_if_full) (with_speech bound (queue items s)).

Definition take_said (trace_id : TraceId) (node : option NodeId) (said : Said) (before_cut : bool) : Step :=
  each_step (answer_item trace_id) (said_items said) >>+ fun s =>
  let s := follow_key node said s in
  if negb (report_terminal_output (settings s)) || before_cut || negb (existsb is_output (said_items said))
  then (s, [])
  else take_output trace_id (said_items said) s.

Definition speech (trace_id : TraceId) (observed_at_ms : N) (node : NodeId) (said : Said) : Step := fun s =>
  if negb (focus_matches node s) then (s, [])
  else
    let before_cut := asked_terminal AskCancel s ||
      (negb (observed_at_ms =? 0) && (observed_at_ms <? cut_at_ms (terminal s))) in
    take_said trace_id (Some node) said before_cut s.

(** [answered], of an answer whose speech is [output]. *)
Definition answered_terminal (trace_id : TraceId) (ask : TerminalAsk) (output : Said) (key : option TraceId) :
    Step := fun s =>
  let trace_id := default trace_id key in
  let node := terminal_focus s in
  let '(s, spoken) :=
    match ask with
    | AskCancel | AskOvertaken => take_said trace_id node output true s
    | AskRead =>
        (take_said trace_id node output false >>+ fun s =>
         let decides := deciding (terminal s) in
         let s := with_speech (with_deciding false) s in
         if decides then decide_and_pump s else (s, [])) s
    end in
  (s, under key spoken).

(** ** Playback and cuts *)

Fixpoint drop_reached (mark : SpeechMark) (ahead : list (SpeechMark * bool)) : list (SpeechMark * bool) :=
  match ahead with
  | (m, line) :: rest => if mark_value m <=? mark_value mark then drop_reached mark rest else ahead
  | [] => []
  end.
Definition mark_reached (mark : SpeechMark) : Step := fun s =>
  let t := terminal s in
  match output_trace t with
  | None => (s, [])
  | Some trace_id =>
      if existsb (fun p => bool_decide (mark_value p.1 = mark_value mark)) (ahead t) then
        pump trace_id (with_speech (with_ahead
          (drop_reached mark (ahead t))) s)
      else
        match sounding t with
        | Some sounds =>
            if bool_decide (mark_value sounds = mark_value mark) then
              let s := with_speech (with_sounding None) s in
              if group_heard (terminal s) then
                if asked_terminal AskRead s then (with_speech (with_deciding true) s, [])
                else decide_and_pump s
              else pump trace_id s
            else (s, [])
        | None => (s, [])
        end
  end.

Definition cancel : Step := fun s =>
  if (negb (holds s) && negb (asked_terminal AskRead s)) || negb (is_some (focused_model s)) then (s, [])
  else
    let s := forget_queries (fun t => is_ask AskCancel t || is_ask AskOvertaken t) s in
    let s :=
      match find_query (is_ask AskRead) (queries s) with
      | Some (query_id, _) => with_queries (replace_then query_id (ThenTerminal AskOvertaken) (queries s)).1 s
      | None => s
      end in
    match request TerminalCancel (ThenTerminal AskCancel) s with
    | Some (s, effect) => (set_held false s, [effect])
    | None => (s, [])
    end.

Definition cut (at_ms : N) : Step := fun s =>
  cancel (with_speech (fun t =>
    {| waiting := []; group := None; ahead := []; sounding := None; output_trace := output_trace t;
       deciding := false; cut_at_ms := N.max (cut_at_ms t) at_ms |}) s).

Definition utterance_cancelled (marks : list SpeechMark) (at_ms : N) : Step := fun s =>
  let among (mark : SpeechMark) := existsb (fun m => bool_decide (mark_value m = mark_value mark)) marks in
  if (match sounding (terminal s) with Some mark => among mark | None => false end)
     || existsb (fun p => among p.1) (ahead (terminal s))
  then cut at_ms s else (s, []).

Definition is_terminal_ask (t : Then) : bool := match t with ThenTerminal _ => true | _ => false end.
Definition focus_moved (node : NodeId) (left_ : bool) (s : SrState) : SrState :=
  if left_ || negb (match focus s with
                    | Some focus => bool_decide (id (focus_node focus) = node)
                    | None => false
                    end)
  then forget_queries is_terminal_ask (with_terminal no_terminal_speech s)
  else s.

Fixpoint cuts_speech (effect : Effect) : bool :=
  match effect with
  | EffStopSpeech => true
  | EffSpeak utterance _ => match priority utterance with Interrupt => true | _ => false end
  | EffForKey _ effect => cuts_speech effect
  | _ => false
  end.

Definition drop_waiting : Step := fun s =>
  cancel (with_speech (fun t =>
    with_deciding false
      (with_group (if is_nil (ahead t) then None else group t) (with_waiting [] t))) s).

(** [ReaderSettings] with what "Report new output" is. *)
Definition with_report_output (on : bool) (settings : ReaderSettings) : ReaderSettings :=
  {| speak_typed_characters := speak_typed_characters settings;
     speak_typed_words := speak_typed_words settings;
     follow_caret_setting := follow_caret_setting settings;
     say_all_unit := say_all_unit settings;
     keep_display_on := keep_display_on settings;
     speak_terminal_passwords := speak_terminal_passwords settings;
     report_terminal_output := on;
     terminal_full_lines := terminal_full_lines settings;
     terminal_last_lines := terminal_last_lines settings |}.
Definition toggle_output (trace_id : TraceId) : Step := fun s =>
  let on := negb (report_terminal_output (settings s)) in
  ((if on then silent else drop_waiting) >>+ fun s =>
   (s, [speak trace_id [segment (SegMessage (if on then ReportNewOutputOn else ReportNewOutputOff))];
        EffSettingsChanged (settings s)]))
    (with_settings (with_report_output on (settings s)) s).

(** [caret_key_kind] and [typed_kind]. *)
Definition caret_key_kind (key : CaretKey) : TerminalKeyKind :=
  match motion key with
  | PreviousCharacter | NextCharacter | StartOfLine | EndOfLine => KindCaret UnitCharacter_
  | PreviousWord | NextWord => KindCaret UnitWord_
  | PreviousLine | NextLine | PreviousPage | NextPage | PreviousParagraph | NextParagraph | MotionTop
  | MotionBottom => KindCaret UnitLine_
  | MotionDelete => KindDelete
  | _ => KindOther
  end.
Definition typed_kind (typed : string) : TerminalKeyKind :=
  if existsb (fun c => (c =? 0x0D) || (c =? 0x0A)) (chars typed) then KindEnter
  else if existsb (N.eqb 0x09) (chars typed) then KindForget
  else if existsb is_control (chars typed) then KindOther
  else KindTyped typed.

End unicode.
