(* ===== verification/FloodProps.v ===== *)
(** * The backlog of output, and handing it on

    What [Flood.queue] keeps of the output added is what adding all of it and
    then skipping all but the newest lines keeps; what waits is bounded in bytes;
    and the rounds of [Flood.pump] end: it is the loop of the code, which calls
    itself again once a group ends with nothing sounding. *)

From S2P Require Import Prelude Text Tree TextModel Facts Messages Speech Announce FocusRules TextUnits CoreText CoreEvents ForegroundRecord CoreQueries CoreState Editing CoreProps Flood.

(** ** Adding all of it *)

Lemma push_skipped_last skipped pre item :
  push_skipped skipped (pre ++ [item]) =
  pre ++ match item with WaitSkipped last => [WaitSkipped (plus last skipped)] | _ => [item; WaitSkipped skipped] end.
Proof.
  induction pre as [|x pre IH]; [by destruct item|]. cbn [app push_skipped]. rewrite IH.
  destruct x; destruct pre; done.
Qed.

Lemma push_item_snoc pre before item :
  push_item (pre ++ [before]) item =
  match item, before with
  | WaitSkipped skipped, WaitSkipped last => pre ++ [WaitSkipped (plus last skipped)]
  | _, _ => pre ++ [before; item]
  end.
Proof.
  unfold push_item. destruct item; rewrite -?app_assoc //. rewrite push_skipped_last. by destruct before.
Qed.

(** ** The bounded queue *)

Definition add_each (st : Bounded * list WaitingOutput) (items : list WaitingOutput) :
    Bounded * list WaitingOutput :=
  foldl (fun st item => bounded_add item st.1 st.2) st items.

Lemma add_each_snoc st items item :
  add_each st (items ++ [item]) = bounded_add item (add_each st items).1 (add_each st items).2.
Proof. unfold add_each. by rewrite foldl_app. Qed.

(** The turns add every item but the last, which is held. *)
Definition turns_ok (b0 : Bounded) (items : list WaitingOutput)
    (st : Bounded * list WaitingOutput * option WaitingOutput) : Prop :=
  let '(self, out, held) := st in
  exists pre, items = pre ++ option_list held /\ (held = None -> pre = []) /\
    (self, out) = add_each (b0, []) pre.

Lemma turn_ok b0 items item st : turns_ok b0 items st -> turns_ok b0 (items ++ [item]) (turn item st).
Proof.
  destruct st as [[self out] held]. intros (pre & -> & Hn & Heq). unfold turn.
  destruct held as [before|].
  - destruct (bounded_add before self out) as [self' out'] eqn:Hadd.
    exists (pre ++ [before]). split_and!; [done|done|].
    rewrite add_each_snoc -Heq /= Hadd. done.
  - exists []. rewrite (Hn eq_refl). split_and!; [done|done|]. by rewrite (Hn eq_refl) in Heq.
Qed.

Lemma turn_added_ok b0 items item st :
  turns_ok b0 items st -> turns_ok b0 (push_item items item) (turn_added item st).
Proof.
  intros Hok. destruct st as [[self out] held].
  assert (forall items', items' = items ++ [item] -> turns_ok b0 items' (turn item (self, out, held))) as Hturn.
  { intros items' ->. by apply turn_ok. }
  destruct Hok as (pre & -> & Hn & Heq). destruct held as [before|]; simpl option_list in *.
  - rewrite push_item_snoc. destruct item as [| |]; try (apply Hturn; by rewrite -app_assoc).
    destruct before; try (apply Hturn; by rewrite -app_assoc).
    exists pre. by split_and!.
  - rewrite (Hn eq_refl) /=. rewrite (Hn eq_refl) in Hturn.
    destruct item; apply Hturn; done.
Qed.

Lemma turns_ok_each b0 l items st :
  turns_ok b0 items st -> turns_ok b0 (items ++ l) (foldl (fun st item => turn item st) st l).
Proof.
  revert items st. induction l as [|x l IH]; intros items st Hst; [by rewrite app_nil_r|].
  rewrite (app_assoc items [x]). simpl. apply IH. by apply turn_ok.
Qed.

Lemma turns_added_ok b0 l items st :
  turns_ok b0 items st ->
  turns_ok b0 (foldl push_item items l) (foldl (fun st item => turn_added item st) st l).
Proof.
  revert items st. induction l as [|x l IH]; intros items st Hst; [done|]. simpl. apply IH.
  by apply turn_added_ok.
Qed.

Lemma turns_end b0 items st :
  turns_ok b0 items st ->
  turn_end st = (bounded_end (add_each (b0, []) items).1 (add_each (b0, []) items).2).2.
Proof.
  destruct st as [[self out] held]. intros (pre & -> & Hn & Heq). unfold turn_end. destruct held as [before|].
  - simpl option_list. rewrite add_each_snoc -Heq /=. by destruct (bounded_add _ _ _).
  - rewrite (Hn eq_refl) /= in Heq |- *. by simplify_eq.
Qed.

(** What [add_each] gives, once ended. *)
Definition ended (st : Bounded * list WaitingOutput) (items : list WaitingOutput) : list WaitingOutput :=
  (bounded_end (add_each st items).1 (add_each st items).2).2.

Lemma ended_past self out items :
  bounded_group_left self = None -> skipping self = false -> ended (self, out) items = out ++ items.
Proof.
  intros Hg Hs. revert out. induction items as [|item items IH]; intros out.
  - unfold ended. simpl. unfold bounded_end. rewrite Hs app_nil_r. done.
  - change (ended (self, out) (item :: items)) with (ended (bounded_add item self out) items).
    unfold bounded_add. rewrite Hg. unfold bounded_skip. rewrite Hs IH -app_assoc. done.
Qed.

Lemma ended_skipping self out items :
  bounded_group_left self = None -> skipping self = true ->
  ended (self, out) items = out ++ skip_each (dropping self) (bounded_skipped self) (in_line self) items.
Proof.
  revert self out. induction items as [|item items IH]; intros self out Hg Hs.
  - unfold ended. simpl. unfold bounded_end. by rewrite Hs.
  - change (ended (self, out) (item :: items)) with (ended (bounded_add item self out) items).
    cbn [skip_each]. unfold bounded_add. rewrite Hg. unfold bounded_skip. rewrite Hs.
    destruct (drops (in_line self) (dropping self) item) eqn:Hd.
    + destruct (dropped item _ _ _) as [[d k] l] eqn:Hdr. rewrite IH //.
    + unfold bounded_end. rewrite Hs. rewrite ended_past // -!app_assoc. done.
Qed.

Lemma ended_group_past self out items :
  bounded_group_left self = Some 0%nat -> skipping self = false -> bounded_skipped self = None ->
  in_line self = false ->
  ended (self, out) items =
    let start := length (leading belongs items) in
    out ++ take start items ++ skip_each (dropping self) None false (drop start items).
Proof.
  intros Hg Hs Hk Hl. revert out. induction items as [|item items IH]; intros out.
  - unfold ended. simpl. unfold bounded_end. by rewrite Hs app_nil_r.
  - change (ended (self, out) (item :: items)) with (ended (bounded_add item self out) items).
    unfold bounded_add. rewrite Hg. case_bool_decide; [lia|].
    cbn [leading]. destruct (belongs item) eqn:Hb.
    + rewrite IH. cbn [length take drop]. by rewrite -app_assoc.
    + cbn [length take drop].
      set (self' := {| bounded_group_left := None; skipping := true; dropping := dropping self;
        bounded_skipped := bounded_skipped self; in_line := in_line self |}).
      change (ended (bounded_skip item self' out) items) with (ended (self', out) (item :: items)).
      rewrite (ended_skipping self') //= Hk Hl. done.
Qed.

Lemma ended_group self left_ out items :
  bounded_group_left self = Some (S left_) -> skipping self = false -> bounded_skipped self = None ->
  in_line self = false -> (S left_ <= waiting_lines items)%nat ->
  ended (self, out) items =
    let start := backlog_from (S left_) items in
    out ++ take start items ++ skip_each (dropping self) None false (drop start items).
Proof.
  revert self left_ out. induction items as [|item items IH]; intros self left_ out Hg Hs Hk Hl Hle.
  { unfold waiting_lines in Hle. simpl in Hle. lia. }
  change (ended (self, out) (item :: items)) with (ended (bounded_add item self out) items).
  unfold bounded_add. rewrite Hg. case_bool_decide; [|lia].
  unfold waiting_lines in Hle. cbn [List.filter] in Hle. cbn [backlog_from].
  destruct (is_line item) eqn:Hi; cbn [length] in Hle.
  - replace (S left_ - 1)%nat with left_ by lia. case_bool_decide as H1.
    + injection H1 as ->. rewrite ended_group_past //. cbn [take drop]. by rewrite -app_assoc.
    + destruct left_ as [|left_]; [done|]. rewrite (IH _ left_) //; [|cbn; unfold waiting_lines; lia].
      cbn [take drop]. by rewrite -app_assoc.
  - rewrite (IH _ left_) //. cbn [take drop]. by rewrite -app_assoc.
Qed.

(** ** Lines *)

Lemma waiting_lines_app l k : waiting_lines (l ++ k) = (waiting_lines l + waiting_lines k)%nat.
Proof. unfold waiting_lines. by rewrite List.filter_app length_app. Qed.

Lemma waiting_lines_push waiting item :
  waiting_lines (push_item waiting item) = (waiting_lines waiting + waiting_lines [item])%nat.
Proof.
  destruct item as [line kind|skipped|]; try apply waiting_lines_app. cbn [push_item].
  assert (waiting_lines (push_skipped skipped waiting) = waiting_lines waiting) as ->; [|unfold waiting_lines; simpl; lia].
  induction waiting as [|x waiting IH] using rev_ind; [done|].
  rewrite push_skipped_last !waiting_lines_app. by destruct x.
Qed.

Lemma waiting_lines_pushed items waiting :
  waiting_lines (foldl push_item waiting items) = (waiting_lines waiting + waiting_lines items)%nat.
Proof.
  revert waiting. induction items as [|item items IH]; intros waiting; simpl.
  - unfold waiting_lines at 3. simpl. lia.
  - rewrite IH waiting_lines_push (waiting_lines_app [item] items). lia.
Qed.

Lemma waiting_lines_leading items :
  waiting_lines (take (length (leading belongs items)) items) = 0%nat.
Proof.
  induction items as [|item items IH]; [done|]. cbn [leading]. destruct (belongs item) eqn:Hb; [|done].
  cbn [length take]. rewrite (waiting_lines_app [item]) IH.
  destruct item as [l []| |]; done.
Qed.

Lemma waiting_lines_group g waiting :
  (0 < g)%nat -> (g <= waiting_lines waiting)%nat ->
  waiting_lines (take (backlog_from g waiting) waiting) = g.
Proof.
  revert g. induction waiting as [|item waiting IH]; intros g Hg Hle.
  { unfold waiting_lines in Hle. simpl in Hle. lia. }
  rewrite (waiting_lines_app [item]) in Hle. cbn [backlog_from take]. rewrite (waiting_lines_app [item]).
  unfold waiting_lines at 1 in Hle. unfold waiting_lines at 1. cbn [List.filter] in *.
  destruct (is_line item); cbn [length] in *; [|apply IH; lia].
  case_bool_decide; [rewrite waiting_lines_leading; lia|]. rewrite IH; lia.
Qed.

Lemma waiting_lines_backlog g waiting :
  (g <= waiting_lines waiting)%nat ->
  waiting_lines (drop (backlog_start waiting g) waiting) = (waiting_lines waiting - g)%nat.
Proof.
  intros Hle. unfold backlog_start. case_bool_decide as Hz; [subst; rewrite drop_0; lia|].
  pose proof (waiting_lines_group g waiting ltac:(lia) Hle) as Ht.
  pose proof (waiting_lines_app (take (backlog_from g waiting) waiting) (drop (backlog_from g waiting) waiting)) as Ha.
  rewrite take_drop Ht in Ha. lia.
Qed.

(** ** The lines kept *)

Lemma waiting_lines_count skipped : waiting_lines (skipped_count skipped) = 0%nat.
Proof. unfold skipped_count. destruct skipped; [|done]. by case_bool_decide. Qed.

Lemma skip_each_lines d k l items :
  (d <= waiting_lines items)%nat -> (waiting_lines (skip_each d k l items) + d = waiting_lines items)%nat.
Proof.
  revert d k l. induction items as [|item items IH]; intros d k l Hle.
  { change (waiting_lines []) with 0%nat in *. simpl. rewrite waiting_lines_count. lia. }
  rewrite (waiting_lines_app [item]) in Hle |- *. cbn [skip_each].
  destruct (drops l d item) eqn:Hd.
  - destruct item as [line [counted|]|count|]; cbn [dropped];
      unfold waiting_lines at 1 in Hle; cbn in Hle; unfold waiting_lines at 2; cbn [List.filter is_line length].
    + cbn in Hd. apply bool_decide_eq_true in Hd.
      specialize (IH (d - 1)%nat (Some (with_line k counted)) true). lia.
    + by apply IH.
    + by apply IH.
    + by apply IH.
  - rewrite waiting_lines_app waiting_lines_count (waiting_lines_app [item]).
    assert (d = 0)%nat; [|lia].
    destruct item as [line [counted|]|count|]; cbn in Hd; try done;
      try (apply orb_false_iff in Hd as [_ Hd]); apply bool_decide_eq_false in Hd; lia.
Qed.

Lemma skip_all_but_lines waiting start keep :
  waiting_lines (skip_all_but waiting start keep) =
  (waiting_lines (take start waiting) + Nat.min keep (waiting_lines (drop start waiting)))%nat.
Proof.
  unfold skip_all_but. rewrite waiting_lines_app.
  pose proof (skip_each_lines (waiting_lines (drop start waiting) - keep) None false (drop start waiting)).
  lia.
Qed.

(** A growth that the bound drops from the front of the group, whose line was
    handed on before, takes a line off the group, though both of its lines
    still wait: the group then ends a line early. *)
Example dropped_growth_ends_group_early :
  let line text kind := WaitLine text kind in
  let t := with_group (Some 2%nat) (with_waiting
    [line "more" LineGrowth; line "a" (LineCounted Exactly); line "b" (LineCounted Exactly)]
    no_terminal_speech)%string in
  let start := backlog_start (waiting t) 2 in
  oldest_line (waiting t) start = Some 0%nat /\ group (bound_at 0 start t) = Some 1%nat /\
  waiting_lines (waiting (bound_at 0 start t)) = 2%nat.
Proof. by vm_compute. Qed.

Section unicode.
Context `{UnicodeRules}.

Lemma added_line_lines line kind : waiting_lines (added_line line kind) = waiting_lines [WaitLine line kind].
Proof.
  unfold added_line. destruct (within_bound line) as [text cut]. rewrite (waiting_lines_app [WaitLine text kind]).
  assert (waiting_lines (if cut then [WaitCut] else []) = 0%nat) as -> by by destruct cut.
  rewrite Nat.add_0_r. by destruct kind.
Qed.

Lemma added_lines counted items :
  waiting_lines (added counted items) = length (List.filter is_said_line items).
Proof.
  revert counted. induction items as [|[item|text] items IH]; intros counted; [done| |].
  - cbn [added List.filter is_said_line].
    destruct item as [line|text|skipped| | | | | |]; try apply IH.
    + by rewrite waiting_lines_app added_line_lines IH.
    + by rewrite waiting_lines_app added_line_lines IH.
    + destruct skipped as [n| |n|n]; try (rewrite (waiting_lines_app [_]) IH //).
      destruct n; [apply IH|by rewrite (waiting_lines_app [_]) IH].
  - cbn [added List.filter is_said_line]. by rewrite waiting_lines_app added_line_lines IH.
Qed.

Lemma queue_items_all (full last_ : nat) (items : list SaidItem) (t : TerminalSpeechState) :
  let group_left := default 0%nat (group t) in
  let all := foldl push_item (waiting t) (added Exactly items) in
  let keep := Nat.max full last_ in
  queue_items full last_ items t =
  with_waiting
    (if bool_decide (waiting_lines all - group_left <= keep)%nat then all
     else skip_all_but all (backlog_start all group_left) keep) t.
Proof.
  intros g all keep. unfold queue_items. fold g keep.
  assert (waiting_lines (waiting t) + length (List.filter is_said_line items) = waiting_lines all)%nat as ->.
  { unfold all. by rewrite waiting_lines_pushed added_lines. }
  case_bool_decide as Hle; [done|]. f_equal.
  set (b0 := {| bounded_group_left := _ |}).
  assert (turns_ok b0 all (foldl (fun st item => turn_added item st)
    (foldl (fun st item => turn item st) (b0, [], None) (waiting t)) (added Exactly items))) as Hok.
  { apply turns_added_ok. apply (turns_ok_each b0 (waiting t) [] (b0, [], None)). exists []. by split_and!. }
  rewrite (turns_end b0 all) //. fold (ended (b0, []) all).
  pose proof (waiting_lines_backlog g all ltac:(lia)) as Hd.
  unfold skip_all_but. rewrite Hd. unfold backlog_start in *. case_bool_decide as Hz.
  - rewrite (ended_skipping b0).
    + done.
    + unfold b0. simpl. by case_bool_decide; [lia|].
    + done.
  - assert (exists left_, g = S left_) as [left_ Hg]; [exists (g - 1)%nat; lia|].
    rewrite (ended_group b0 left_); [by rewrite -Hg|unfold b0; simpl..|lia].
    + case_bool_decide; [by rewrite Hg|lia].
    + done.
    + done.
    + done.
Qed.

(** C10: the backlog kept while output is added is the backlog of a reference
    that adds all of it first: with no more lines past the group than the limits
    keep, everything said waits, in order, after what waited, counts merged;
    with more, all but the newest lines past the group become one count in
    their place, as [skip_all_but] makes it of the whole. *)
Theorem queue_is_skip_all_but (full last_ : nat) (items : list SaidItem) (t : TerminalSpeechState) :
  let group_left := default 0%nat (group t) in
  let all := foldl push_item (waiting t) (added Exactly items) in
  let keep := Nat.max full last_ in
  queue_items full last_ items t =
  with_waiting
    (if bool_decide (waiting_lines all - group_left <= keep)%nat then all
     else skip_all_but all (backlog_start all group_left) keep) t.
Proof. exact (queue_items_all full last_ items t). Qed.

(** ** Bytes *)

Definition text_lines (waiting : list WaitingOutput) : nat := length (List.filter is_text_line waiting).

Lemma text_lines_app l k : text_lines (l ++ k) = (text_lines l + text_lines k)%nat.
Proof. unfold text_lines. by rewrite List.filter_app length_app. Qed.

Lemma no_text_no_bytes waiting : text_lines waiting = 0%nat -> waiting_bytes waiting = 0.
Proof.
  induction waiting as [|item waiting IH]; [done|]. rewrite (text_lines_app [item]). intros Hz.
  unfold waiting_bytes in *. simpl. rewrite IH; [|lia]. destruct item; [done|done|done].
Qed.

Lemma position_of_Some f l i : position_of f l = Some i -> exists x, l !! i = Some x /\ f x = true.
Proof.
  revert i. induction l as [|x l IH]; intros i; [done|]. simpl. destruct (f x) eqn:Hf.
  - intros [= <-]. by exists x.
  - destruct (position_of f l) as [j|]; [|done]. intros [= <-]. by apply IH.
Qed.

Lemma position_of_None f l : position_of f l = None -> length (List.filter f l) = 0%nat.
Proof.
  induction l as [|x l IH]; [done|]. simpl. destruct (f x); [done|].
  destruct (position_of f l); [done|]. intros _. by apply IH.
Qed.

Lemma oldest_line_Some waiting start i :
  oldest_line waiting start = Some i -> exists x, waiting !! i = Some x /\ is_text_line x = true.
Proof.
  unfold oldest_line. destruct (position_of is_text_line (drop start waiting)) as [j|] eqn:Hj.
  - intros [= <-]. apply position_of_Some in Hj as (x & Hx & Hf). rewrite lookup_drop in Hx. by exists x.
  - intros Hi%position_of_Some. destruct Hi as (x & Hx & Hf). apply lookup_take_Some in Hx as [Hx _]. by exists x.
Qed.

Lemma oldest_line_None waiting start : oldest_line waiting start = None -> text_lines waiting = 0%nat.
Proof.
  unfold oldest_line. destruct (position_of is_text_line (drop start waiting)) eqn:Hj; [done|].
  intros Hi%position_of_None. apply position_of_None in Hj.
  rewrite -(take_drop start waiting) text_lines_app. unfold text_lines. lia.
Qed.

Lemma text_lines_drop n l : (text_lines (drop n l) <= text_lines l)%nat.
Proof. rewrite -{2}(take_drop n l) text_lines_app. lia. Qed.
Lemma text_lines_take n l : (text_lines (take n l) <= text_lines l)%nat.
Proof. rewrite -{2}(take_drop n l) text_lines_app. lia. Qed.

Lemma bound_at_text index start t x :
  waiting t !! index = Some x -> is_text_line x = true ->
  (text_lines (waiting (bound_at index start t)) < text_lines (waiting t))%nat.
Proof.
  intros Hx Ht. pose proof (take_drop_middle _ _ _ Hx) as Hm. apply (f_equal text_lines) in Hm.
  rewrite text_lines_app (text_lines_app [x]) in Hm.
  replace (text_lines [x]) with 1%nat in Hm by (unfold text_lines; simpl; by rewrite Ht).
  rewrite -Hm. unfold bound_at. simpl. rewrite Hx.
  set (above := take index (waiting t)). set (rest := drop (S index) (waiting t)).
  destruct x as [line [counted|]|count|]; try done.
  - pose proof (text_lines_drop (length (leading belongs rest)) rest) as Hr.
    pose proof (text_lines_take (index - 1) above) as Ha.
    assert (forall l c, text_lines (l ++ WaitSkipped c :: drop (length (leading belongs rest)) rest) =
      (text_lines l + text_lines (drop (length (leading belongs rest)) rest))%nat) as Hs.
    { intros l c. rewrite text_lines_app. done. }
    destruct (last above) as [[]|]; rewrite ?Hs ?text_lines_app; lia.
  - rewrite text_lines_app. lia.
Qed.

Lemma bound_rounds_bytes rounds t :
  (text_lines (waiting t) <= rounds)%nat ->
  waiting_bytes (waiting (bound_rounds rounds t)) <= MAX_WAITING_BYTES.
Proof.
  revert t. induction rounds as [|rounds IH]; intros t Hle; simpl.
  - rewrite no_text_no_bytes; [done|lia].
  - destruct (MAX_WAITING_BYTES <? waiting_bytes (waiting t)) eqn:Hb; [|by apply N.ltb_ge in Hb].
    destruct (oldest_line _ _) as [index|] eqn:Ho.
    + apply oldest_line_Some in Ho as (x & Hx & Ht).
      apply IH. pose proof (bound_at_text index (backlog_start (waiting t) (default 0%nat (group t))) t x Hx Ht).
      lia.
    + apply oldest_line_None in Ho. rewrite no_text_no_bytes; done.
Qed.

Lemma bound_bytes t : waiting_bytes (waiting (bound t)) <= MAX_WAITING_BYTES.
Proof. apply bound_rounds_bytes. unfold text_lines. apply List.filter_length_le. Qed.

End unicode.

(** ** What a step leaves *)

Section unicode.
Context `{UnicodeRules} `{TerminalReading}.

(** ** What a request leaves *)

Definition numbers_below (s : SrState) : Prop :=
  forall query_id o, open (queries s) !! query_id = Some o -> query_number query_id < next (queries s).

(** Queries are only asked: while numbers last, what was open stays open. *)
Definition asks (s s' : SrState) : Prop :=
  next (queries s') < U64_MAX ->
  next (queries s) <= next (queries s') /\
  (numbers_below s ->
   numbers_below s' /\ (asked_terminal AskRead s = true -> asked_terminal AskRead s' = true)).

Lemma asks_refl s s' : queries s' = queries s -> asks s s'.
Proof. intros Hq. unfold asks, numbers_below, asked_terminal. rewrite Hq. split; [lia|done]. Qed.

Lemma asks_trans s1 s2 s3 : asks s1 s2 -> asks s2 s3 -> asks s1 s3.
Proof.
  intros H1 H2 Hm. destruct (H2 Hm) as [Hn2 Hk2]. destruct H1 as [Hn1 Hk1]; [lia|]. split; [lia|].
  intros Hb. destruct (Hk1 Hb) as [Hb2 Hr1]. destruct (Hk2 Hb2). eauto.
Qed.

Lemma ask_query_asks asking t s : asks s (ask_query asking t s).1.1.
Proof.
  unfold ask_query, ask, record_query, asks, numbers_below, asked_terminal. csimpl.
  unfold saturating_add. intros Hm. split; [lia|]. intros Hb.
  assert (next (queries s) < U64_MAX) as Hlt by lia. split.
  - intros query_id o. destruct (decide (query_id = {| query_number := next (queries s) |})) as [->|Hne].
    + intros _. csimpl. lia.
    + rewrite lookup_insert_ne; [|done]. intros Ho%Hb. lia.
  - rewrite !has_true. intros (query_id & o & Ho & Hp). exists query_id, o. split; [|done]. csimpl.
    rewrite lookup_insert_ne; [done|]. intros <-. apply Hb in Ho. simpl in Ho. lia.
Qed.

(** What handing output on leaves of the rest of the state. *)
Record flows (s s' : SrState) : Prop := {
  flows_settings : settings s' = settings s;
  flows_focus : focus s' = focus s;
  flows_trace : output_trace (terminal s') = output_trace (terminal s);
  flows_cut : cut_at_ms (terminal s') = cut_at_ms (terminal s);
  flows_asks : asks s s';
}.

Lemma flows_same s : flows s s.
Proof. split; try done; by apply asks_refl. Qed.
Lemma flows_then s1 s2 s3 : flows s1 s2 -> flows s2 s3 -> flows s1 s3.
Proof. intros [] []. split; try congruence. by eapply asks_trans. Qed.

Lemma flows_speech f s :
  output_trace (f (terminal s)) = output_trace (terminal s) ->
  cut_at_ms (f (terminal s)) = cut_at_ms (terminal s) -> flows s (with_speech f s).
Proof. intros Ht Hc. split; try done; by apply asks_refl. Qed.

Lemma set_held_flows held s : flows s (set_held held s) /\ terminal (set_held held s) = terminal s.
Proof.
  unfold set_held. destruct (focused_model s); [|split; [apply flows_same|done]].
  split; [|done]. split; try done; by apply asks_refl.
Qed.

Lemma ask_query_flows asking t s :
  flows s (ask_query asking t s).1.1 /\ terminal (ask_query asking t s).1.1 = terminal s.
Proof.
  pose proof (ask_query_asks asking t s) as Ha. unfold ask_query in *.
  destruct (ask asking t (queries s)) as [[q i] e]. by split.
Qed.

Lemma request_flows op t s s' effect :
  request op t s = Some (s', effect) -> flows s s' /\ terminal s' = terminal s.
Proof.
  unfold request. destruct (focused_model s) as [node|]; [|done]. cbn [mbind option_bind].
  pose proof (ask_query_flows (AskText node op) t s) as Ha.
  destruct (ask_query (AskText node op) t s) as [[s1 i] e]. by intros [= <- <-].
Qed.

Lemma ask_new_flows hold s : flows s (ask_new hold s).1 /\ terminal (ask_new hold s).1 = terminal s.
Proof.
  unfold ask_new. destruct (_ || _); [split; [apply flows_same|done]|].
  destruct (request _ _ _) as [[s1 e]|] eqn:Hr; [|split; [apply flows_same|done]].
  apply request_flows in Hr as [Hf Ht]. destruct (set_held_flows hold s1) as [Hf' Ht']. simpl.
  split; [by eapply flows_then|congruence].
Qed.

Lemma hold_if_full_flows s : flows s (hold_if_full s).1 /\ terminal (hold_if_full s).1 = terminal s.
Proof.
  unfold hold_if_full. destruct (_ || _); [split; [apply flows_same|done]|].
  destruct (request _ _ _) as [[s1 e]|] eqn:Hr; [|split; [apply flows_same|done]].
  apply request_flows in Hr as [Hf Ht]. destruct (set_held_flows true s1) as [Hf' Ht']. simpl.
  split; [by eapply flows_then|congruence].
Qed.

(** ** What is heard of output *)

(** The words of an utterance of output, which opens with a mark and is not
    say-all's. *)
Fixpoint output_of (effect : Effect) : option (list UtteranceSegment) :=
  match effect with
  | EffSpeak utterance _ =>
      if say_all utterance then None
      else match utt_segments utterance with
           | {| content := SegMark _ |} :: segments =>
               Some (List.filter (fun s => match content s with SegMark _ => false | _ => true end) segments)
           | _ => None
           end
  | EffForKey _ effect => output_of effect
  | _ => None
  end.
Definition outputs (effects : list Effect) : list (list UtteranceSegment) := omap output_of effects.

Lemma outputs_app l k : outputs (l ++ k) = outputs l ++ outputs k.
Proof. apply omap_app. Qed.

Lemma outputs_under key effects : outputs (under key effects) = outputs effects.
Proof.
  unfold under, outputs. destruct key; [|done]. induction effects as [|e effects IH]; [done|].
  csimpl. rewrite IH. done.
Qed.

Lemma request_output op t s s' effect : request op t s = Some (s', effect) -> output_of effect = None.
Proof.
  unfold request. destruct (focused_model s) as [node|]; [|done]. cbn [mbind option_bind].
  unfold ask_query, ask. cbn [asking_node]. destruct (record_query _ _ _ _) as [q i]. by intros [= <- <-].
Qed.

Lemma ask_new_outputs hold s : outputs (ask_new hold s).2 = [].
Proof.
  unfold ask_new. destruct (_ || _); [done|].
  destruct (request _ _ _) as [[s1 e]|] eqn:Hr; [|done].
  unfold outputs. csimpl. by rewrite (request_output _ _ _ _ _ Hr).
Qed.

Lemma hold_if_full_outputs s : outputs (hold_if_full s).2 = [].
Proof.
  unfold hold_if_full. destruct (_ || _); [done|].
  destruct (request _ _ _) as [[s1 e]|] eqn:Hr; [|done].
  unfold outputs. csimpl. by rewrite (request_output _ _ _ _ _ Hr).
Qed.

Lemma output_segments_unmarked item :
  List.filter (fun s => match content s with SegMark _ => false | _ => true end) (output_segments item) =
  output_segments item.
Proof.
  destruct item as [line kind|[n| |n|n]|]; try done.
  - unfold output_segments, text_segments. by destruct (is_blank line).
  - by destruct n.
Qed.

(** ** Handing items on *)

Lemma end_group_spec item s :
  flows s (end_group item s).1 /\ outputs (end_group item s).2 = [] /\
  terminal (end_group item s).1 =
    (if is_line item then with_group ((fun left => (left - 1)%nat) <$> group (terminal s)) else fun t => t)
      (terminal s).
Proof.
  unfold end_group. destruct (is_line item).
  - destruct (group (terminal s)) as [left|] eqn:Hg; csimpl.
    + set (s1 := with_speech (with_group (Some (left - 1)%nat)) s).
      assert (flows s s1) as Hf by by apply flows_speech.
      destruct (_ && _).
      * destruct (ask_new_flows true s1) as [Hf' Ht]. split_and!; [by eapply flows_then|apply ask_new_outputs|done].
      * by split_and!.
    + split_and!; [apply flows_same|done|]. destruct (terminal s). simpl in *. by subst.
  - split_and!; [apply flows_same|done|done].
Qed.

Lemma say_item_spec trace_id item s :
  let s' := (say_item trace_id item s).1 in
  flows s s' /\ waiting (terminal s') = waiting (terminal s) /\ group (terminal s') = group (terminal s) /\
  deciding (terminal s') = deciding (terminal s) /\
  outputs (say_item trace_id item s).2 = (if is_silent item s then [] else [output_segments item]) /\
  if is_silent item s
  then ahead (terminal s') = ahead (terminal s) /\ sounding (terminal s') = sounding (terminal s)
  else ahead (terminal s') <> [] /\ is_some (sounding (terminal s')) = true /\
       length (ahead (terminal s')) = S (length (ahead (terminal s))).
Proof.
  unfold say_item. destruct (is_silent item s) eqn:Hs; simpl; rewrite ?Hs.
  { by split_and!. }
  split_and!; try done.
  - unfold outputs. csimpl. rewrite List.filter_app output_segments_unmarked. simpl. by rewrite app_nil_r.
  - by destruct (ahead (terminal s)).
  - rewrite length_app. simpl. lia.
Qed.

(** What is heard of items handed on in order: a blank line is silent, and so
    may the mark of a lost read be. *)
Definition is_blank_line (item : WaitingOutput) : bool :=
  match item with WaitLine line _ => is_blank line | _ => false end.
Inductive heard : list WaitingOutput -> list (list UtteranceSegment) -> Prop :=
  | heard_nil : heard [] []
  | heard_said item items said :
      is_blank_line item = false -> heard items said -> heard (item :: items) (output_segments item :: said)
  | heard_blank item items said : is_blank_line item = true -> heard items said -> heard (item :: items) said
  | heard_mark item items said : is_mark item = true -> heard items said -> heard (item :: items) said.

Lemma heard_app items1 said1 items2 said2 :
  heard items1 said1 -> heard items2 said2 -> heard (items1 ++ items2) (said1 ++ said2).
Proof. intros H1 H2. induction H1; [done|by constructor..]. Qed.

Lemma heard_one item s :
  heard [item] (if is_silent item s then [] else [output_segments item]).
Proof.
  destruct (is_silent item s) eqn:Hs; unfold is_silent in Hs; fold (is_blank_line item) in Hs.
  - apply orb_true_iff in Hs as [Hb|Hm]; [apply heard_blank; [done|constructor]|].
    apply andb_true_iff in Hm as [Hm _]. apply heard_mark; [done|constructor].
  - apply orb_false_iff in Hs as [Hb _]. apply heard_said; [done|constructor].
Qed.

(** What one round of [pump] does: it hands on the first of what waits, until
    two utterances are ahead of playback, the group is over or nothing waits. *)
Record pumped (s s' : SrState) (handed : list WaitingOutput) (said : list (list UtteranceSegment)) : Prop := {
  pumped_flows : flows s s';
  pumped_waiting : waiting (terminal s) = handed ++ waiting (terminal s');
  pumped_heard : heard handed said;
  pumped_group :
    group (terminal s') = (fun left => (left - waiting_lines handed)%nat) <$> group (terminal s);
  pumped_deciding : deciding (terminal s') = deciding (terminal s);
  pumped_sounding : ahead (terminal s') = [] -> sounding (terminal s') = sounding (terminal s);
  pumped_ahead : ahead (terminal s) <> [] -> ahead (terminal s') <> [];
}.

Lemma pumped_none s : pumped s s [] [].
Proof.
  split; try done; [constructor|].
  destruct (group (terminal s)); [|done]. csimpl. by rewrite Nat.sub_0_r.
Qed.

Lemma pumped_step trace_id item rest s :
  waiting (terminal s) = item :: rest ->
  let st := (end_group item >>+ say_item trace_id item) (with_speech (with_waiting rest) s) in
  waiting (terminal st.1) = rest /\
  exists said, outputs st.2 = said /\
    forall s2 handed said', pumped st.1 s2 handed said' -> pumped s s2 (item :: handed) (said ++ said').
Proof.
  intros Hw st. subst st. unfold seq_steps.
  set (s0 := with_speech (with_waiting rest) s).
  assert (flows s s0) as Hf0 by by apply flows_speech.
  destruct (end_group_spec item s0) as (Hf1 & Ho1 & Ht1). destruct (end_group item s0) as [s1 e1]. simpl in *.
  destruct (say_item_spec trace_id item s1) as (Hf2 & Hw2 & Hg2 & Hd2 & Ho2 & Ha2).
  pose proof (heard_one item s1) as Hh.
  destruct (say_item trace_id item s1) as [s2 e2]. simpl in *.
  assert (waiting (terminal s2) = rest) as Hrest by (rewrite Hw2 Ht1; by destruct (is_line item)).
  split; [done|]. eexists. split; [by rewrite outputs_app Ho1 Ho2|]. simpl.
  intros s3 handed said' []. split.
  - exact (flows_then _ _ _ Hf0 (flows_then _ _ _ Hf1 (flows_then _ _ _ Hf2 pumped_flows0))).
  - by rewrite Hw /= -Hrest pumped_waiting0.
  - rewrite Ho2. by apply (heard_app [item]).
  - rewrite pumped_group0 Hg2 Ht1 (waiting_lines_app [item]). unfold waiting_lines at 2. simpl.
    destruct (is_line item); simpl; destruct (group (terminal s)); csimpl; try done; f_equal; lia.
  - rewrite pumped_deciding0 Hd2 Ht1. by destruct (is_line item).
  - intros Hn. rewrite (pumped_sounding0 Hn). destruct (is_silent item s1).
    + destruct Ha2 as [_ ->]. rewrite Ht1. by destruct (is_line item).
    + destruct Ha2 as [Ha2 _]. by apply pumped_ahead0 in Ha2.
  - intros Hn. apply pumped_ahead0. destruct (is_silent item s1); [|by destruct Ha2].
    destruct Ha2 as [-> _]. rewrite Ht1. by destruct (is_line item).
Qed.

(** Why a round ends. *)
Definition round_over (t : TerminalSpeechState) : Prop :=
  (AHEAD <= length (ahead t))%nat \/ group t = Some 0%nat \/ waiting t = [].

Lemma pump_each_pumped trace_id items s :
  waiting (terminal s) = items ->
  let st := pump_each trace_id items s in
  (exists handed, pumped s st.1 handed (outputs st.2)) /\ round_over (terminal st.1).
Proof.
  revert s. induction items as [|item rest IH]; intros s Hw; cbn [pump_each].
  - repeat case_match; simpl; (split; [exists []; apply pumped_none|by right; right]).
  - case_bool_decide as Ha; [simpl; split; [exists []; apply pumped_none|by left]|].
    case_match eqn:Hg.
    { apply andb_true_iff in Hg as [Hg%bool_decide_eq_true _].
      simpl. split; [exists []; apply pumped_none|by right; left]. }
    destruct (pumped_step trace_id item rest s Hw) as (Hrest & said & Ho & Hp).
    unfold seq_steps in *. destruct (end_group item _) as [s1 e1]. destruct (say_item trace_id item s1) as [s2 e2].
    simpl in *. destruct (IH s2 Hrest) as ((handed & Hh) & Hover).
    destruct (pump_each trace_id rest s2) as [s3 e3]. simpl in *. split; [|done].
    exists (item :: handed). rewrite app_assoc outputs_app Ho. by apply Hp.
Qed.

(** ** Rounds *)

Lemma full_lines_pos (self : ReaderSettings) : (0 < full_lines self)%nat.
Proof. unfold full_lines, clamp_lines, MAX_TERMINAL_LINES. lia. Qed.

Lemma skip_each_length d k l items :
  (length (skip_each d k l items) <= length items + length (option_list k))%nat.
Proof.
  assert (forall k, length (skipped_count k) <= length (option_list k))%nat as Hk.
  { intros [k'|]; simpl; [case_bool_decide; simpl; lia|lia]. }
  revert d k l. induction items as [|item items IH]; intros d k l; cbn [skip_each]; [apply Hk|].
  destruct (drops l d item).
  - destruct (dropped item d k l) as [[d' k'] l'] eqn:Hd. specialize (IH d' k' l').
    assert (length (option_list k') <= 1)%nat by (destruct k'; simpl; lia). simpl. lia.
  - rewrite length_app. specialize (Hk k). simpl. lia.
Qed.

Lemma skip_all_but_length waiting keep : (length (skip_all_but waiting 0 keep) <= length waiting)%nat.
Proof.
  unfold skip_all_but. rewrite take_0 drop_0. cbn [app].
  pose proof (skip_each_length (waiting_lines waiting - keep) None false waiting). simpl in *. lia.
Qed.

Lemma decide_backlog_spec full last_ t :
  (0 < full)%nat ->
  (length (waiting (decide_backlog full last_ t)) <= length (waiting t))%nat /\
  (group (decide_backlog full last_ t) = None /\ waiting (decide_backlog full last_ t) = [] /\ waiting t = [] \/
   waiting t <> [] /\ exists left_, group (decide_backlog full last_ t) = Some (S left_)) /\
  ahead (decide_backlog full last_ t) = ahead t /\ sounding (decide_backlog full last_ t) = sounding t /\
  deciding (decide_backlog full last_ t) = deciding t /\ cut_at_ms (decide_backlog full last_ t) = cut_at_ms t /\
  output_trace (decide_backlog full last_ t) = output_trace t.
Proof.
  intros Hfull. unfold decide_backlog. destruct (waiting t) as [|item rest] eqn:Hw.
  { simpl. rewrite Hw. split_and!; try done. by left. }
  rewrite -Hw.
  assert (forall lines, exists left_, Nat.max full lines = S left_) as Hmax.
  { intros lines. exists (Nat.max full lines - 1)%nat. lia. }
  destruct (skips (waiting t) 0 full); simpl; rewrite ?Hw.
  - split_and!; try done; [apply (skip_all_but_length (item :: rest))|]. right. split; [done|].
    destruct (Hmax (Nat.min (waiting_lines (item :: rest)) last_)) as [g ->]. by exists g.
  - split_and!; try done. right. split; [done|].
    destruct (Hmax (waiting_lines (item :: rest))) as [g ->]. by exists g.
Qed.

Lemma decide_group_spec s :
  let t := terminal s in let t' := terminal (decide_group s) in
  (length (waiting t') <= length (waiting t))%nat /\
  (group t' = None /\ waiting t' = [] /\ waiting t = [] \/
   waiting t <> [] /\ exists left_, group t' = Some (S left_)) /\
  ahead t' = ahead t /\ sounding t' = sounding t /\ deciding t' = deciding t /\ flows s (decide_group s).
Proof.
  destruct (decide_backlog_spec (full_lines (settings s)) (last_lines (settings s)) (terminal s)
    (full_lines_pos _)) as (Hl & Hg & Ha & Hs & Hd & Hc & Ht).
  cbn zeta. split_and!; [done..|]. by apply flows_speech.
Qed.

Definition rounds_needed (t : TerminalSpeechState) : nat :=
  (length (waiting t) + match group t with None => 1 | Some 0%nat => 3 | Some (S _) => 2 end)%nat.

Lemma ends_silently_group t : ends_silently t = true ->
  sounding t = None /\ ahead t = [] /\ exists left_, group t = Some left_ /\ (left_ = 0%nat \/ waiting t = []).
Proof.
  unfold ends_silently, group_heard. destruct (sounding t); [done|]. rewrite andb_true_iff.
  intros [Ha Hg]. split; [done|]. split; [by destruct (ahead t)|].
  destruct (group t) as [left_|]; [|done]. exists left_. split; [done|].
  apply orb_true_iff in Hg as [Hg%bool_decide_eq_true|Hg]; [by left|]. right. by destruct (waiting t).
Qed.

Lemma decide_fewer trace_id s :
  let s' := (pump_each trace_id (waiting (terminal s)) s).1 in
  ends_silently (terminal s') = true ->
  (rounds_needed (terminal (decide_group s')) < rounds_needed (terminal s))%nat.
Proof.
  destruct (pump_each_pumped trace_id (waiting (terminal s)) s eq_refl) as ((handed & Hp) & _).
  cbn zeta. set (s' := (pump_each _ _ s).1) in *.
  intros (Hso & Ha & left_ & Hg & Hor)%ends_silently_group.
  destruct (decide_group_spec s') as (Hl & Hd & _).
  pose proof (pumped_waiting _ _ _ _ Hp) as Hw. apply (f_equal length) in Hw. rewrite length_app in Hw.
  pose proof (pumped_group _ _ _ _ Hp) as Hgp. rewrite Hg in Hgp.
  destruct (group (terminal s)) as [before|] eqn:Hb; [|done]. injection Hgp as Hgp.
  assert (waiting_lines handed <= length handed)%nat by apply List.filter_length_le.
  unfold rounds_needed. rewrite Hb.
  destruct Hd as [(-> & -> & _)|(Hne & after & ->)]; [simpl; destruct before; lia|].
  destruct before; [lia|]. destruct Hor; [|done]. lia.
Qed.

Lemma pump_rounds_enough n m trace_id s :
  (rounds_needed (terminal s) <= n)%nat -> (rounds_needed (terminal s) <= m)%nat ->
  pump_rounds n trace_id s = pump_rounds m trace_id s.
Proof.
  revert m trace_id s. induction n as [|n IH]; intros m trace_id s Hn Hm.
  { unfold rounds_needed in Hn. repeat case_match; lia. }
  destruct m as [|m]; [unfold rounds_needed in Hm; repeat case_match; lia|].
  cbn [pump_rounds]. unfold seq_steps.
  pose proof (decide_fewer trace_id s) as Hf. cbn zeta in Hf.
  destruct (pump_each trace_id (waiting (terminal s)) s) as [s1 e1]. cbn [fst] in Hf.
  destruct (ends_silently (terminal s1)); [|done]. destruct (asked_terminal AskRead s1); [done|].
  destruct (output_trace (terminal s1)) as [t1|]; [|done].
  rewrite (IH m); [done| |]; specialize (Hf eq_refl); lia.
Qed.

Lemma pump_ends trace_id s :
  pump trace_id s =
  (pump_each trace_id (waiting (terminal s)) >>+ fun s =>
   if ends_silently (terminal s) then
     if asked_terminal AskRead s then (with_speech (with_deciding true) s, []) else decide_and_pump s
   else (s, [])) s.
Proof.
  unfold pump at 1. destruct (length (waiting (terminal s)) + 3)%nat as [|n] eqn:Hn; [lia|]. cbn [pump_rounds].
  unfold seq_steps at 1 3. pose proof (decide_fewer trace_id s) as Hf. cbn zeta in Hf.
  destruct (pump_each trace_id (waiting (terminal s)) s) as [s1 e1]. cbn [fst] in Hf.
  destruct (ends_silently (terminal s1)); [|done]. destruct (asked_terminal AskRead s1); [done|].
  unfold decide_and_pump. destruct (output_trace (terminal s1)) as [t1|]; [|done]. unfold seq_steps, pump.
  specialize (Hf eq_refl).
  rewrite (pump_rounds_enough n (length (waiting (terminal (decide_group s1))) + 3)); [done| |].
  - assert (rounds_needed (terminal s) <= S n)%nat; [|lia].
    unfold rounds_needed. rewrite -Hn. repeat case_match; lia.
  - unfold rounds_needed. repeat case_match; lia.
Qed.


End unicode.
