(* ===== verification/FloodLedger.v ===== *)
(** * What is heard of a terminal's output

    Every line of output is heard, heard of in a count or still waiting;
    output that waits is always brought on; what waits stays within its bound
    of bytes, and nothing of output before a cut is heard. *)

From S2P Require Import Prelude Text Tree TextModel Facts Messages Speech Announce FocusRules TextUnits CoreText CoreEvents ForegroundRecord CoreQueries CoreState Editing CoreProps Flood FloodProps.

Section unicode.
Context `{UnicodeRules} `{TerminalReading}.

(** ** Every line is accounted for *)

(** The lines an item stands for, and whether it stands for exactly those. *)
Definition lines_of (item : WaitingOutput) : N :=
  match item with
  | WaitLine _ (LineCounted _) => 1
  | WaitSkipped (SkipCount n) => n
  | _ => 0
  end.
Definition exact (item : WaitingOutput) : Prop :=
  match item with
  | WaitLine _ (LineCounted Exactly) | WaitLine _ LineGrowth | WaitSkipped (SkipCount _) | WaitCut => True
  | _ => False
  end.
Definition total (items : list WaitingOutput) : N := foldr (fun item sum => lines_of item + sum) 0 items.

Lemma lines_total_app l k : total (l ++ k) = total l + total k.
Proof. induction l as [|x l IH]; simpl; [done|]. rewrite IH. lia. Qed.

(** A count so far: the lines it stands for. *)
Definition counts (skipped : option Skipped) (n : N) : Prop :=
  match skipped with None => n = 0 | Some (SkipCount m) => m = n | _ => False end.

Lemma skipped_count_total skipped n : counts skipped n -> total (skipped_count skipped) = n /\ Forall exact (skipped_count skipped).
Proof.
  unfold counts, skipped_count. destruct skipped as [[m| |m|m]|]; try done.
  intros ->. case_bool_decide as Hz; [simplify_eq; by split|]. simpl. split; [lia|]. repeat constructor.
Qed.

Lemma leading_total items :
  total (take (length (leading belongs items)) items) = 0.
Proof.
  induction items as [|item items IH]; [done|]. cbn [leading]. destruct (belongs item) eqn:Hb; [|done].
  cbn [length take]. simpl. rewrite IH. by destruct item as [l []| |].
Qed.

Lemma dropped_counts item d k l n d' k' l' :
  exact item -> counts k n -> n + lines_of item <= U32_MAX -> dropped item d k l = (d', k', l') ->
  counts k' (n + lines_of item).
Proof.
  intros He Hk Hn. destruct item as [line [[]|]|[m| |m|m]|]; simpl in *; try done; intros [= <- <- <-];
    destruct k as [[m'| |m'|m']|]; simpl in *; try done; subst; unfold saturating_add; lia.
Qed.

Lemma skip_each_total d k l items n :
  Forall exact items -> counts k n -> n + total items <= U32_MAX ->
  total (skip_each d k l items) = n + total items /\ Forall exact (skip_each d k l items).
Proof.
  intros He. revert d k l n. induction He as [|item items Hi He IH]; intros d k l n Hk Hn; cbn [skip_each].
  { destruct (skipped_count_total k n Hk) as [-> ?]. simpl. split; [lia|done]. }
  simpl in Hn. destruct (drops l d item).
  - destruct (dropped item d k l) as [[d' k'] l'] eqn:Hd.
    eapply dropped_counts in Hd; [|done..|lia].
    destruct (IH d' k' l' _ Hd) as [-> ?]; [lia|]. simpl. split; [lia|done].
  - destruct (skipped_count_total k n Hk) as [Ht ?]. rewrite lines_total_app Ht. split; [done|].
    apply Forall_app. split; [done|by constructor].
Qed.

Lemma skip_all_but_total waiting start keep :
  Forall exact waiting -> total waiting <= U32_MAX ->
  total (skip_all_but waiting start keep) = total waiting /\ Forall exact (skip_all_but waiting start keep).
Proof.
  intros He Hn. rewrite -(take_drop start waiting) in He, Hn. rewrite lines_total_app in Hn.
  apply Forall_app in He as [He1 He2]. unfold skip_all_but. rewrite lines_total_app Forall_app.
  destruct (skip_each_total (waiting_lines (drop start waiting) - keep) None false (drop start waiting) 0)
    as [-> He3]; [done|done|lia|].
  rewrite -{3}(take_drop start waiting) lines_total_app. by split.
Qed.

Lemma push_item_total waiting item :
  Forall exact waiting -> exact item -> total waiting + lines_of item <= U32_MAX ->
  total (push_item waiting item) = total waiting + lines_of item /\ Forall exact (push_item waiting item).
Proof.
  intros He Hi Hn.
  assert (total (waiting ++ [item]) = total waiting + lines_of item /\ Forall exact (waiting ++ [item])) as Hsnoc.
  { rewrite lines_total_app Forall_app /=. split; [lia|]. split; [done|by constructor]. }
  destruct item as [line kind|skipped|]; try done. cbn [push_item].
  destruct waiting as [|before waiting _] using rev_ind; [done|]. rewrite push_skipped_last.
  destruct before as [line kind|last_|]; try (by rewrite -app_assoc in Hsnoc).
  apply Forall_app in He as [He [Hl _]%Forall_cons]. rewrite !lines_total_app in Hn |- *.
  rewrite Forall_app. destruct last_ as [m| |m|m], skipped as [k| |k|k]; simpl in Hl, Hi; try done.
  simpl in *. unfold saturating_add. split; [lia|]. split; [done|by constructor].
Qed.

Lemma pushed_total items waiting :
  Forall exact waiting -> Forall exact items -> total waiting + total items <= U32_MAX ->
  total (foldl push_item waiting items) = total waiting + total items /\
  Forall exact (foldl push_item waiting items).
Proof.
  intros Hw Hi. revert waiting Hw. induction Hi as [|item items He Hi IH]; intros waiting Hw Hn; simpl in *.
  - split; [lia|done].
  - destruct (push_item_total waiting item) as [Ht Hp]; [done|done|lia|].
    destruct (IH _ Hp) as [-> ?]; [lia|]. split; [lia|done].
Qed.

(** ** The bound *)

Lemma bound_at_total index start t x :
  waiting t !! index = Some x -> is_text_line x = true -> Forall exact (waiting t) -> total (waiting t) <= U32_MAX ->
  total (waiting (bound_at index start t)) = total (waiting t) /\ Forall exact (waiting (bound_at index start t)).
Proof.
  intros Hx Ht He Hn. pose proof (take_drop_middle _ _ _ Hx) as Hm.
  unfold bound_at. simpl. rewrite Hx.
  set (above := take index (waiting t)) in *. set (rest := drop (S index) (waiting t)) in *.
  assert (length above = index) as Hlen.
  { unfold above. rewrite length_take. apply lookup_lt_Some in Hx. lia. }
  rewrite -Hm in He, Hn |- *. rewrite lines_total_app /= in Hn. rewrite lines_total_app /=.
  apply Forall_app in He as [Ha [He Hr]%Forall_cons].
  destruct x as [line [counted|]|count|]; try done.
  - destruct counted; try done.
    pose proof (leading_total rest) as Hlr. pose proof (lines_total_app (take (length (leading belongs rest)) rest) (drop (length (leading belongs rest)) rest)) as Hr2.
    rewrite take_drop Hlr in Hr2.
    assert (Forall exact (drop (length (leading belongs rest)) rest)) as Hr3 by by apply Forall_drop.
    assert (total (above ++ WaitSkipped (with_line None Exactly) :: drop (length (leading belongs rest)) rest) =
      total above + (1 + total rest) /\
      Forall exact (above ++ WaitSkipped (with_line None Exactly) :: drop (length (leading belongs rest)) rest)) as Hnone.
    { rewrite lines_total_app /= Forall_app. split; [lia|]. split; [done|by constructor]. }
    destruct above as [|before above' _] using rev_ind; [done|]. rewrite last_snoc.
    destruct before as [|count|]; try done.
    rewrite length_app /= in Hlen. rewrite take_app_le; [|lia]. rewrite take_ge; [|lia].
    apply Forall_app in Ha as [Ha [Hc _]%Forall_cons]. destruct count as [m| |m|m]; try done.
    rewrite !lines_total_app /= in Hn |- *. unfold saturating_add. rewrite Forall_app.
    split; [lia|]. split; [done|by constructor].
  - rewrite lines_total_app Forall_app. split; [simpl; lia|done].
Qed.

Lemma bound_rounds_total rounds t :
  Forall exact (waiting t) -> total (waiting t) <= U32_MAX ->
  total (waiting (bound_rounds rounds t)) = total (waiting t) /\ Forall exact (waiting (bound_rounds rounds t)).
Proof.
  revert t. induction rounds as [|rounds IH]; intros t He Hn; simpl; [done|].
  destruct (_ <? _); [|done]. destruct (oldest_line _ _) as [index|] eqn:Ho; [|done].
  apply oldest_line_Some in Ho as (x & Hx & Ht).
  destruct (bound_at_total index (backlog_start (waiting t) (default 0%nat (group t))) t x) as [Hb Hbe]; [done..|].
  destruct (IH _ Hbe) as [-> ?]; [lia|done].
Qed.

Lemma queue_items_total full last_ items t :
  let new := added Exactly items in
  Forall exact (waiting t) -> Forall exact new -> total (waiting t) + total new <= U32_MAX ->
  total (waiting (queue_items full last_ items t)) = total (waiting t) + total new /\
  Forall exact (waiting (queue_items full last_ items t)).
Proof.
  intros new Hw Hi Hn. destruct (pushed_total new (waiting t)) as [Hp Hpe]; [done|done|lia|].
  rewrite queue_items_all. cbn [waiting with_waiting]. fold new. case_bool_decide; [done|].
  destruct (skip_all_but_total (foldl push_item (waiting t) new)
    (backlog_start (foldl push_item (waiting t) new) (default 0%nat (group t))) (Nat.max full last_))
    as [-> ?]; [done|lia|done].
Qed.

Lemma decide_backlog_total full last_ t :
  Forall exact (waiting t) -> total (waiting t) <= U32_MAX ->
  total (waiting (decide_backlog full last_ t)) = total (waiting t) /\ Forall exact (waiting (decide_backlog full last_ t)).
Proof.
  intros He Hn. unfold decide_backlog. destruct (waiting t) as [|item rest] eqn:Hw; [by rewrite /= Hw|].
  rewrite -Hw in He, Hn |- *. destruct (skips (waiting t) 0 full); [|done]. simpl. by apply skip_all_but_total.
Qed.

(** ** The lines themselves, in order *)

Definition line_text (item : WaitingOutput) : option string :=
  match item with WaitLine line _ => Some line | _ => None end.
Definition texts (items : list WaitingOutput) : list string := omap line_text items.

Lemma texts_app l k : texts (l ++ k) = texts l ++ texts k.
Proof. apply omap_app. Qed.

Lemma texts_drop n items : texts (drop n items) `sublist_of` texts items.
Proof. rewrite -{2}(take_drop n items) texts_app. by apply sublist_inserts_l. Qed.

Lemma texts_count skipped : texts (skipped_count skipped) = [].
Proof. unfold skipped_count. destruct skipped; [|done]. by case_bool_decide. Qed.

Lemma skip_each_texts d k l items : texts (skip_each d k l items) `sublist_of` texts items.
Proof.
  revert d k l. induction items as [|item items IH]; intros d k l; cbn [skip_each]; [by rewrite texts_count|].
  destruct (drops l d item).
  - destruct (dropped item d k l) as [[d' k'] l']. rewrite (texts_app [item]).
    apply sublist_inserts_l, IH.
  - by rewrite texts_app texts_count.
Qed.

Lemma skip_all_but_texts waiting start keep : texts (skip_all_but waiting start keep) `sublist_of` texts waiting.
Proof.
  pose proof (texts_app (take start waiting) (drop start waiting)) as Ht. rewrite take_drop in Ht.
  unfold skip_all_but. rewrite texts_app Ht. apply sublist_app; [done|apply skip_each_texts].
Qed.

Lemma push_item_texts waiting item : texts (push_item waiting item) = texts waiting ++ texts [item].
Proof.
  destruct item as [line kind|skipped|]; try apply texts_app. cbn [push_item].
  destruct waiting as [|before waiting _] using rev_ind; [done|].
  rewrite push_skipped_last !texts_app. by destruct before; rewrite ?app_nil_r.
Qed.

Lemma pushed_texts items waiting : texts (foldl push_item waiting items) = texts waiting ++ texts items.
Proof.
  revert waiting. induction items as [|item items IH]; intros waiting; [by rewrite app_nil_r|].
  simpl. rewrite IH push_item_texts -app_assoc -texts_app. done.
Qed.

Lemma queue_items_texts full last_ items t :
  texts (waiting (queue_items full last_ items t)) `sublist_of` texts (waiting t) ++ texts (added Exactly items).
Proof.
  rewrite queue_items_all. cbn [waiting with_waiting]. rewrite -pushed_texts.
  case_bool_decide; [done|apply skip_all_but_texts].
Qed.

Lemma bound_at_texts index start t x :
  waiting t !! index = Some x -> texts (waiting (bound_at index start t)) `sublist_of` texts (waiting t).
Proof.
  intros Hx. pose proof (take_drop_middle _ _ _ Hx) as Hm. rewrite -Hm. unfold bound_at. simpl. rewrite Hx.
  set (above := take index (waiting t)). set (rest := drop (S index) (waiting t)).
  assert (forall above' rest' mid, texts above' `sublist_of` texts above -> texts rest' `sublist_of` texts rest ->
    texts mid = [] -> texts (above' ++ mid ++ rest') `sublist_of` texts (above ++ x :: rest)) as Hall.
  { intros above' rest' mid Ha Hr Hmid. rewrite !texts_app Hmid (texts_app [x]).
    apply sublist_app; [done|]. by apply sublist_inserts_l. }
  assert (texts (take (index - 1) above) `sublist_of` texts above) as Ht.
  { rewrite -{2}(take_drop (index - 1) above) texts_app. by apply sublist_inserts_r. }
  destruct x as [line [counted|]|count|]; try apply (Hall above rest []); try done.
  pose proof (texts_drop (length (leading belongs rest)) rest) as Hd.
  destruct (last above) as [[]|]; by apply (Hall _ _ [_]).
Qed.

Lemma bound_rounds_texts rounds t : texts (waiting (bound_rounds rounds t)) `sublist_of` texts (waiting t).
Proof.
  revert t. induction rounds as [|rounds IH]; intros t; simpl; [done|].
  destruct (_ <? _); [|done]. destruct (oldest_line _ _) as [index|] eqn:Ho; [|done].
  apply oldest_line_Some in Ho as (x & Hx & _). etrans; [apply IH|]. by eapply bound_at_texts.
Qed.

Lemma decide_backlog_texts full last_ t : texts (waiting (decide_backlog full last_ t)) `sublist_of` texts (waiting t).
Proof.
  unfold decide_backlog. destruct (waiting t) as [|item rest] eqn:Hw; [by rewrite /= Hw|].
  rewrite -Hw. destruct (skips (waiting t) 0 full); [|done]. apply skip_all_but_texts.
Qed.

Lemma texts_bytes w w' : texts w' `sublist_of` texts w -> waiting_bytes w' <= waiting_bytes w.
Proof.
  assert (forall w, waiting_bytes w = foldr (fun line sum => N.of_nat (String.length line) + sum) 0 (texts w)) as Hb.
  { intros l. induction l as [|item l IH]; [done|]. destruct item; simpl; by rewrite IH. }
  rewrite !Hb. induction 1; simpl; lia.
Qed.

(** ** What a step does with output *)

(** Output [new] arrives and [said] is heard: what is heard and still waits is
    of what waited and arrived, in order, and, when counts are exact, stands
    for as many lines. *)
Definition hands_on (new : list WaitingOutput) (s s' : SrState) (said : list (list UtteranceSegment)) : Prop :=
  let before := waiting (terminal s) in
  let after := waiting (terminal s') in
  exists handed, heard handed said /\
    texts handed ++ texts after `sublist_of` texts before ++ texts new /\
    (Forall exact before -> Forall exact new -> total before + total new <= U32_MAX ->
     total handed + total after = total before + total new /\ Forall exact after).

Lemma hands_on_quiet new s s' :
  texts (waiting (terminal s')) `sublist_of` texts (waiting (terminal s)) ++ texts new ->
  (Forall exact (waiting (terminal s)) -> Forall exact new -> total (waiting (terminal s)) + total new <= U32_MAX ->
   total (waiting (terminal s')) = total (waiting (terminal s)) + total new /\ Forall exact (waiting (terminal s'))) ->
  hands_on new s s' [].
Proof. intros Ht He. exists []. split_and!; [constructor|done|done]. Qed.

Lemma hands_on_same s s' : waiting (terminal s') = waiting (terminal s) -> hands_on [] s s' [].
Proof. intros Hw. apply hands_on_quiet; rewrite Hw /= ?app_nil_r //. intros. split; [lia|done]. Qed.

Lemma hands_on_trans new1 new2 s1 s2 s3 said1 said2 :
  hands_on new1 s1 s2 said1 -> hands_on new2 s2 s3 said2 -> hands_on (new1 ++ new2) s1 s3 (said1 ++ said2).
Proof.
  intros (handed1 & Hh1 & Ht1 & He1) (handed2 & Hh2 & Ht2 & He2). exists (handed1 ++ handed2). split_and!.
  - by apply heard_app.
  - rewrite !texts_app -app_assoc. etrans; [apply sublist_app; [done|exact Ht2]|].
    rewrite !app_assoc. by apply sublist_app.
  - intros Hw [Hn1 Hn2]%Forall_app Hm. rewrite lines_total_app in Hm.
    destruct He1 as [Heq1 Hw2]; [done|done|lia|]. destruct He2 as [Heq2 Hw3]; [done|done|lia|].
    rewrite !lines_total_app. split; [lia|done].
Qed.

Lemma pumped_hands_on s s' handed said : pumped s s' handed said -> hands_on [] s s' said.
Proof.
  intros Hp. pose proof (pumped_waiting _ _ _ _ Hp) as Hw. exists handed.
  split_and!; [by eapply pumped_heard| |].
  - by rewrite Hw texts_app app_nil_r.
  - rewrite Hw lines_total_app. intros [? ?]%Forall_app. simpl. split; [lia|done].
Qed.

Lemma decide_hands_on s : hands_on [] s (decide_group s) [].
Proof.
  apply hands_on_quiet; cbn [terminal decide_group with_speech with_terminal].
  - rewrite app_nil_r. apply decide_backlog_texts.
  - intros Hw _ Hm. simpl in *. rewrite !N.add_0_r in Hm |- *. by apply decide_backlog_total.
Qed.

Lemma ask_new_asked hold s : asked_terminal AskRead s = true -> ask_new hold s = (s, []).
Proof. intros Ha. unfold ask_new. by rewrite Ha. Qed.

Lemma read_live_spec s :
  let st := read_live s in
  flows s st.1 /\ terminal st.1 = terminal s /\ outputs st.2 = [] /\
  (asked_terminal AskRead s = true -> asked_terminal AskRead st.1 = true).
Proof.
  unfold read_live. destruct (_ && _); [|split_and!; [apply flows_same|done..]].
  destruct (ask_new_flows false s) as [Hf Ht]. split_and!; [done|done|apply ask_new_outputs|].
  intros Ha. by rewrite ask_new_asked.
Qed.

(** Something is still to happen that brings waiting output on: an utterance to
    start or end, or the answer of a read. *)
Definition moves (s : SrState) : Prop :=
  (waiting (terminal s) = [] /\ group (terminal s) = None) \/ ahead (terminal s) <> [] \/
  sounding (terminal s) <> None \/ (deciding (terminal s) = true /\ asked_terminal AskRead s = true).

Lemma moves_same s s' :
  terminal s' = terminal s -> (asked_terminal AskRead s = true -> asked_terminal AskRead s' = true) ->
  moves s -> moves s'.
Proof. unfold moves. intros -> Ha. naive_solver. Qed.

Lemma round_moves s : round_over (terminal s) -> ends_silently (terminal s) = false -> moves s.
Proof.
  unfold moves, round_over, ends_silently, group_heard, AHEAD. intros Hr He.
  destruct (sounding (terminal s)); [by right; right; left|].
  destruct (ahead (terminal s)) as [|a l]; [|by right; left]. simpl in *.
  destruct (group (terminal s)) as [left_|] eqn:Hg.
  - apply orb_false_iff in He as [Hz%bool_decide_eq_false Hn].
    destruct Hr as [Hr|[Hr|Hr]]; [lia|congruence|by rewrite Hr in Hn].
  - destruct Hr as [Hr|[Hr|Hr]]; [lia|done|]. by left.
Qed.

Lemma pump_rounds_spec n trace_id s :
  let st := pump_rounds n trace_id s in
  flows s st.1 /\ hands_on [] s st.1 (outputs st.2) /\
  ((rounds_needed (terminal s) <= n)%nat -> output_trace (terminal s) <> None -> moves st.1).
Proof.
  revert trace_id s. induction n as [|n IH]; intros trace_id s; cbn [pump_rounds].
  { split_and!; [apply flows_same|by apply hands_on_same|]. unfold rounds_needed. repeat case_match; lia. }
  unfold seq_steps. pose proof (decide_fewer trace_id s) as Hfew. cbn zeta in Hfew.
  destruct (pump_each_pumped trace_id (waiting (terminal s)) s eq_refl) as ((handed & Hp) & Hover).
  destruct (pump_each trace_id (waiting (terminal s)) s) as [s1 e1]. cbn [fst snd] in *.
  pose proof (pumped_flows _ _ _ _ Hp) as Hf1. apply pumped_hands_on in Hp.
  destruct (ends_silently (terminal s1)) eqn:He.
  2:{ cbn [fst snd]. rewrite app_nil_r. split_and!; [done|done|]. intros _ _. by apply round_moves. }
  destruct (asked_terminal AskRead s1) eqn:Ha.
  { cbn [fst snd]. rewrite app_nil_r. split_and!.
    - eapply flows_then; [done|by apply flows_speech].
    - rewrite -(app_nil_r (outputs e1)). eapply (hands_on_trans [] []); [done|by apply hands_on_same].
    - intros _ _. right; right; right. done. }
  destruct (output_trace (terminal s1)) as [t1|] eqn:Ht.
  2:{ cbn [fst snd]. rewrite app_nil_r. split_and!; [done|done|]. intros _ Hn.
      destruct Hn. by rewrite -(flows_trace _ _ Hf1). }
  destruct (IH t1 (decide_group s1)) as (Hf2 & Hh2 & Hm2).
  destruct (pump_rounds n t1 (decide_group s1)) as [s2 e2]. cbn [fst snd] in *.
  destruct (read_live_spec s2) as (Hf3 & Ht3 & Ho3 & Ha3). destruct (read_live s2) as [s3 e3]. cbn [fst snd] in *.
  destruct (decide_group_spec s1) as (_ & _ & _ & _ & _ & Hfd).
  split_and!.
  - exact (flows_then _ _ _ Hf1 (flows_then _ _ _ Hfd (flows_then _ _ _ Hf2 Hf3))).
  - rewrite !outputs_app Ho3. eapply (hands_on_trans [] []); [done|].
    eapply (hands_on_trans [] [] _ s2); [|by apply hands_on_same; rewrite Ht3].
    eapply (hands_on_trans [] [] _ _ _ []); [apply decide_hands_on|done].
  - intros Hn Htr. apply (moves_same s2); [done|done|]. apply Hm2; [specialize (Hfew eq_refl); lia|].
    rewrite (flows_trace _ _ Hfd) Ht. done.
Qed.

Lemma pump_spec trace_id s :
  let st := pump trace_id s in
  flows s st.1 /\ hands_on [] s st.1 (outputs st.2) /\ (output_trace (terminal s) <> None -> moves st.1).
Proof.
  destruct (pump_rounds_spec (length (waiting (terminal s)) + 3) trace_id s) as (Hf & Hh & Hm).
  split_and!; [done|done|]. apply Hm. unfold rounds_needed. repeat case_match; lia.
Qed.

Lemma decide_and_pump_spec s :
  let st := decide_and_pump s in
  flows s st.1 /\ hands_on [] s st.1 (outputs st.2) /\ (output_trace (terminal s) <> None -> moves st.1).
Proof.
  unfold decide_and_pump. destruct (output_trace (terminal s)) as [t1|] eqn:Ht.
  2:{ cbn [fst snd]. split_and!; [apply flows_same|by apply hands_on_same|done]. }
  destruct (decide_group_spec s) as (_ & _ & _ & _ & _ & Hfd). unfold seq_steps.
  destruct (pump_spec t1 (decide_group s)) as (Hf2 & Hh2 & Hm2).
  destruct (pump t1 (decide_group s)) as [s2 e2]. cbn [fst snd] in *.
  destruct (read_live_spec s2) as (Hf3 & Ht3 & Ho3 & Ha3). destruct (read_live s2) as [s3 e3]. cbn [fst snd] in *.
  split_and!.
  - exact (flows_then _ _ _ Hfd (flows_then _ _ _ Hf2 Hf3)).
  - rewrite !outputs_app Ho3.
    eapply (hands_on_trans [] [] _ s2); [|by apply hands_on_same; rewrite Ht3].
    eapply (hands_on_trans [] [] _ _ _ []); [apply decide_hands_on|done].
  - intros _. apply (moves_same s2); [done|done|]. apply Hm2. rewrite (flows_trace _ _ Hfd) Ht. done.
Qed.

(** ** What is not output *)

(** What a step leaves when it concerns no output. *)
Record spares (s s' : SrState) : Prop := {
  spares_terminal : terminal s' = terminal s;
  spares_queries : queries s' = queries s;
  spares_settings : settings s' = settings s;
  spares_focus : focus s' = focus s;
}.

Lemma spares_refl s : spares s s.
Proof. done. Qed.
Lemma spares_trans s1 s2 s3 : spares s1 s2 -> spares s2 s3 -> spares s1 s3.
Proof. intros [] []. split; congruence. Qed.

Definition unmarked (segments : list UtteranceSegment) : Prop :=
  match segments with {| content := SegMark _ |} :: _ => False | _ => True end.

Lemma speak_unmarked trace_id segments : unmarked segments -> output_of (speak trace_id segments) = None.
Proof. unfold unmarked, speak, plain_utterance. simpl. by destruct segments as [|[[] ?] ?]. Qed.

Lemma outputs_one effect : output_of effect = None -> outputs [effect] = [].
Proof. intros He. unfold outputs. simpl. by rewrite He. Qed.

Lemma text_unmarked text language : unmarked (text_segments text language).
Proof. unfold text_segments. by destruct (is_blank text). Qed.
Lemma character_unmarked character language : unmarked (character_segments character language).
Proof. unfold character_segments. destruct character; [|done]. by case_bool_decide. Qed.

Lemma answer_unmarked item segments : answer_segments item = Some segments -> unmarked segments.
Proof.
  destruct item as [| | | |[]| | | |]; try done; intros [= <-];
    (apply text_unmarked || apply character_unmarked || idtac);
    unfold word_segments; case_bool_decide; (apply text_unmarked || apply character_unmarked).
Qed.

Lemma echo_each_outputs trace_id echo_characters echo_words protected characters word :
  outputs (echo_each trace_id echo_characters echo_words protected characters word).2 = [].
Proof.
  revert word. induction characters as [|character characters IH]; intros word; [done|]. cbn [echo_each].
  destruct (if is_word_grapheme character then _ else _) as [word' ended] eqn:Hw.
  specialize (IH word'). destruct (echo_each _ _ _ _ _ word') as [word'' effects]. cbn [snd] in *.
  rewrite !outputs_app IH app_nil_r. replace (outputs ended) with (@nil (list UtteranceSegment)).
  - by destruct (echo_characters && negb (existsb is_control (chars character))), protected.
  - destruct (is_word_grapheme character); [by injection Hw as _ <-|]. injection Hw as _ <-.
    by destruct (_ && _).
Qed.

Lemma answer_item_spec trace_id item s :
  spares s (answer_item trace_id item s).1 /\ outputs (answer_item trace_id item s).2 = [].
Proof.
  assert (forall item, outputs (match answer_segments item with
    | Some segments => [speak trace_id segments] | None => [] end) = []) as Ho.
  { intros i. destruct (answer_segments i) as [segments|] eqn:Ha; [|done].
    apply outputs_one, speak_unmarked. by eapply answer_unmarked. }
  assert (forall typed, spares s (echo trace_id typed s).1 /\ outputs (echo trace_id typed s).2 = []) as He.
  { intros typed. unfold echo. destruct (live_focus s); [|done].
    pose proof (echo_each_outputs trace_id
      (echo_applies (speak_typed_characters (settings s)) (is_editable (focus_node f)))
      (echo_applies (speak_typed_words (settings s)) (is_editable (focus_node f)) &&
       negb (StateSet.contains (states (focus_node f)) Protected))
      (StateSet.contains (states (focus_node f)) Protected) (omap (get typed) (graphemes typed)) (typed_word s)).
    destruct (echo_each _ _ _ _ _ _) as [word effects]. by split. }
  unfold answer_item. destruct item as [item|text]; [|done].
  destruct item, (speak_terminal_passwords (settings s)); (by split; [|apply Ho]) || apply He.
Qed.

Lemma answer_items_spec trace_id items s :
  let st := each_step (answer_item trace_id) items s in spares s st.1 /\ outputs st.2 = [].
Proof.
  revert s. induction items as [|item items IH]; intros s; [done|]. cbn [each_step]. unfold seq_steps.
  destruct (answer_item_spec trace_id item s) as [Hs1 Ho1]. destruct (answer_item trace_id item s) as [s1 e1].
  cbn [fst snd] in *. destruct (IH s1) as [Hs2 Ho2]. destruct (each_step _ items s1) as [s2 e2].
  cbn [fst snd] in *. split; [by eapply spares_trans|]. by rewrite outputs_app Ho1 Ho2.
Qed.

Lemma follow_key_spares node said s : spares s (follow_key node said s).
Proof. unfold follow_key. destruct (navigator s); [|done]. by destruct (_ && _). Qed.

(** ** Output taken in *)

Lemma take_output_spec trace_id items s :
  let st := take_output trace_id items s in
  hands_on (added Exactly items) s st.1 (outputs st.2) /\ asks s st.1 /\
  is_some (output_trace (terminal st.1)) = true /\
  waiting_bytes (waiting (terminal st.1)) <= MAX_WAITING_BYTES /\
  (next (queries st.1) < U64_MAX -> numbers_below s -> moves st.1).
Proof.
  cbn zeta. unfold take_output.
  set (s1 := with_speech (with_output_trace (Some trace_id)) s).
  set (s2 := match group (terminal s1) with None => _ | Some _ => s1 end).
  assert (waiting (terminal s2) = waiting (terminal s) /\ queries s2 = queries s /\
    output_trace (terminal s2) = Some trace_id) as (Hw2 & Hq2 & Ht2) by (unfold s2; by destruct (group (terminal s1))).
  clearbody s2. clear s1. set (s3 := with_speech bound (queue items s2)).
  assert (hands_on (added Exactly items) s s3 []) as Hh3.
  { apply hands_on_quiet; rewrite -Hw2.
    - etrans; [apply bound_rounds_texts|apply queue_items_texts].
    - intros Hw Hn Hm. destruct (queue_items_total (full_lines (settings s2)) (last_lines (settings s2)) items
        (terminal s2)) as [Hq Hqe]; [done..|].
      unfold s3. cbn [terminal with_speech with_terminal queue]. unfold bound.
      destruct (bound_rounds_total (length (waiting (queue_items (full_lines (settings s2)) (last_lines (settings s2))
        items (terminal s2)))) (queue_items (full_lines (settings s2)) (last_lines (settings s2)) items (terminal s2)))
        as [-> ?]; [done|lia|done]. }
  assert (output_trace (terminal s3) = Some trace_id) as Ht3.
  { unfold s3. cbn [terminal with_speech with_terminal queue]. unfold bound.
    assert (forall t, output_trace (queue_items (full_lines (settings s2)) (last_lines (settings s2)) items t) =
      output_trace t) as Hq by (intros t; unfold queue_items; by case_bool_decide).
    assert (forall n t, output_trace (bound_rounds n t) = output_trace t) as Hb.
    { intros n. induction n as [|n IH]; intros t; simpl; [done|]. destruct (_ <? _); [|done].
      destruct (oldest_line _ _); [|done]. by rewrite IH. }
    by rewrite Hb Hq. }
  assert (waiting_bytes (waiting (terminal s3)) <= MAX_WAITING_BYTES) as Hb3 by apply bound_bytes.
  assert (asks s s3) as Ha3 by (apply asks_refl; by rewrite -Hq2).
  clearbody s3. unfold seq_steps.
  destruct (pump_spec trace_id s3) as (Hf4 & Hh4 & Hm4). destruct (pump trace_id s3) as [s4 e4]. cbn [fst snd] in *.
  destruct (hold_if_full_flows s4) as [Hf5 Ht5]. pose proof (hold_if_full_outputs s4) as Ho5.
  destruct (hold_if_full s4) as [s5 e5]. cbn [fst snd] in *.
  split_and!.
  - rewrite outputs_app Ho5. rewrite -(app_nil_r (added Exactly items)).
    eapply (hands_on_trans _ [] _ s4); [|by apply hands_on_same; rewrite Ht5].
    rewrite -(app_nil_r (added Exactly items)). by eapply (hands_on_trans _ [] _ _ _ []).
  - eapply asks_trans; [done|]. eapply asks_trans; by apply flows_asks.
  - by rewrite Ht5 (flows_trace _ _ Hf4) Ht3.
  - rewrite Ht5. destruct Hh4 as (handed & _ & Hs & _). etrans; [|exact Hb3]. apply texts_bytes.
    rewrite app_nil_r in Hs. etrans; [|exact Hs]. by apply sublist_inserts_l.
  - intros Hmax Hn. apply (moves_same s4); [done| |].
    + destruct (flows_asks _ _ Hf5 Hmax) as [Hle Hk]. apply Hk.
      destruct (asks_trans _ _ _ Ha3 (flows_asks _ _ Hf4)) as [_ Hk4]; [lia|]. by apply Hk4.
    + apply Hm4. by rewrite Ht3.
Qed.

(** Whether what was said is taken in as output. *)
Definition reports (s : SrState) (said : Said) (before_cut : bool) : bool :=
  report_terminal_output (settings s) && negb before_cut && existsb is_output (said_items said).
Definition new_output (s : SrState) (said : Said) (before_cut : bool) : list WaitingOutput :=
  if reports s said before_cut then added Exactly (said_items said) else [].

Lemma take_said_spec trace_id node said before_cut s :
  let st := take_said trace_id node said before_cut s in
  hands_on (new_output s said before_cut) s st.1 (outputs st.2) /\ asks s st.1 /\
  if reports s said before_cut
  then is_some (output_trace (terminal st.1)) = true /\
       waiting_bytes (waiting (terminal st.1)) <= MAX_WAITING_BYTES /\
       (next (queries st.1) < U64_MAX -> numbers_below s -> moves st.1)
  else terminal st.1 = terminal s /\ queries st.1 = queries s /\ outputs st.2 = [].
Proof.
  cbn zeta. unfold take_said, seq_steps.
  destruct (answer_items_spec trace_id (said_items said) s) as [Hs1 Ho1].
  destruct (each_step _ _ s) as [s1 e1]. cbn [fst snd] in *.
  pose proof (spares_trans _ _ _ Hs1 (follow_key_spares node said s1)) as [Ht Hq Hse Hf].
  set (s2 := follow_key node said s1) in *. clearbody s2. rewrite Hse.
  assert (negb (report_terminal_output (settings s)) || before_cut || negb (existsb is_output (said_items said)) =
    negb (reports s said before_cut)) as ->.
  { unfold reports. by destruct (report_terminal_output _), before_cut, (existsb _ _). }
  unfold new_output. destruct (reports s said before_cut); cbn [negb].
  - destruct (take_output_spec trace_id (said_items said) s2) as (Hh & Ha & Htr & Hb & Hm).
    destruct (take_output trace_id (said_items said) s2) as [s3 e3]. cbn [fst snd] in *.
    rewrite outputs_app Ho1. split_and!; [|eapply asks_trans; [by apply asks_refl|done]|done|done|].
    + unfold hands_on in *. by rewrite Ht in Hh.
    + intros Hmax Hn. apply Hm; [done|]. unfold numbers_below. by rewrite Hq.
  - cbn [fst snd]. rewrite outputs_app Ho1. split_and!; try done.
    + by apply hands_on_same; rewrite Ht.
    + by apply asks_refl.
Qed.

(** ** Cuts *)

(** Query numbers only grow. *)
Definition later (s s' : SrState) : Prop :=
  next (queries s') < U64_MAX ->
  next (queries s) <= next (queries s') /\ (numbers_below s -> numbers_below s').

Lemma asks_later s s' : asks s s' -> later s s'.
Proof. intros Ha Hm. destruct (Ha Hm) as [Hle Hk]. split; [done|]. intros Hn. by apply Hk. Qed.
Lemma later_trans s1 s2 s3 : later s1 s2 -> later s2 s3 -> later s1 s3.
Proof.
  intros H1 H2 Hm. destruct (H2 Hm) as [? Hk2]. destruct H1 as [? Hk1]; [lia|]. split; [lia|auto].
Qed.

(** Fewer queries, or the same with other continuations. *)
Lemma later_open s s' :
  next (queries s') = next (queries s) ->
  (forall query_id, is_Some (open (queries s') !! query_id) -> is_Some (open (queries s) !! query_id)) ->
  later s s'.
Proof.
  intros Hn Ho Hm. split; [lia|]. intros Hb query_id o Hl. rewrite Hn.
  destruct (Ho query_id) as [o' Ho']; [by eexists|]. by eapply Hb.
Qed.

Lemma forget_later which s : later s (forget_queries which s).
Proof.
  apply later_open; [done|]. intros query_id. cbn. rewrite lookup_omap. intros [o Ho].
  destruct (open (queries s) !! query_id); [by eexists|done].
Qed.

Lemma cancel_spec s :
  let st := cancel s in terminal st.1 = terminal s /\ later s st.1 /\ outputs st.2 = [].
Proof.
  cbn zeta. unfold cancel. destruct (_ || _).
  { by split_and!. }
  set (s1 := forget_queries _ s). pose proof (forget_later (fun t => is_ask AskCancel t || is_ask AskOvertaken t) s) as Hl1.
  set (s2 := match find_query _ _ with Some _ => _ | None => s1 end).
  assert (terminal s2 = terminal s /\ later s s2) as [Ht2 Hl2].
  { unfold s2. destruct (find_query _ (queries s1)) as [[query_id t]|]; [|done]. split; [done|].
    eapply later_trans; [exact Hl1|]. unfold replace_then.
    destruct (open (queries s1) !! query_id) as [o|] eqn:Ho; [|by apply later_open].
    apply later_open; [done|]. intros q. cbn. destruct (decide (q = query_id)) as [->|Hne].
    - intros _. by eexists.
    - by rewrite lookup_insert_ne. }
  clearbody s2. destruct (request _ _ _) as [[s3 e]|] eqn:Hr; [|done].
  pose proof (request_output _ _ _ _ _ Hr) as Ho. apply request_flows in Hr as [Hf Ht].
  destruct (set_held_flows false s3) as [Hf' Ht']. cbn [fst snd].
  split_and!; [congruence| |by apply outputs_one].
  eapply later_trans; [done|]. apply asks_later. eapply asks_trans; by apply flows_asks.
Qed.

(** After a cut nothing waits, and nothing is to be brought on. *)
Definition hushed (before t : TerminalSpeechState) : Prop :=
  waiting t = [] /\ output_trace t = output_trace before /\
  (group t = None \/ ahead t <> [] /\ group t = group before).

Lemma hushed_moves t s : hushed t (terminal s) -> moves s.
Proof. unfold moves. intros (Hw & _ & [Hg|[Ha _]]); auto. Qed.

Lemma cut_spec at_ms s :
  let st := cut at_ms s in hushed (terminal s) (terminal st.1) /\ later s st.1 /\ outputs st.2 = [].
Proof.
  cbn zeta. unfold cut. set (s1 := with_speech _ s).
  destruct (cancel_spec s1) as (Ht & Hl & Ho). split_and!; [|exact Hl|done].
  rewrite Ht. split_and!; [done|done|by left].
Qed.

Lemma drop_waiting_spec s :
  let st := drop_waiting s in hushed (terminal s) (terminal st.1) /\ later s st.1 /\ outputs st.2 = [].
Proof.
  cbn zeta. unfold drop_waiting. set (s1 := with_speech _ s).
  destruct (cancel_spec s1) as (Ht & Hl & Ho). split_and!; [|exact Hl|done].
  rewrite Ht. split_and!; [done|done|]. simpl. destruct (ahead (terminal s)); [by left|by right].
Qed.

(** ** Runs

    A run of a terminal's output: [log] is what was heard of it, [out] what was
    taken in, each line once, and [lost] what waited when a cut, the report of
    output turned off or the focus leaving dropped it. Everything else in Core
    only asks queries, as far as output is concerned. *)
Definition answered_query (query_id : QueryId) (s : SrState) : SrState :=
  with_queries (with_open (delete query_id (open (queries s))) (queries s)) s.
Definition speech_output (observed_at_ms : N) (node : NodeId) (said : Said) (s : SrState) : list WaitingOutput :=
  if focus_matches node s then
    new_output s said (asked_terminal AskCancel s ||
      (negb (observed_at_ms =? 0) && (observed_at_ms <? cut_at_ms (terminal s))))
  else [].
Definition answer_output (ask : TerminalAsk) (said : Said) (s : SrState) : list WaitingOutput :=
  match ask with AskRead => new_output s said false | _ => [] end.

Inductive output_run :
    SrState -> list (list UtteranceSegment) -> list WaitingOutput -> list WaitingOutput -> Prop :=
  | run_from s : terminal s = no_terminal_speech -> numbers_below s -> output_run s [] [] []
  | run_elsewhere s s' effects log out lost :
      output_run s log out lost ->
      terminal s' = terminal s -> asks s s' -> outputs effects = [] -> output_run s' log out lost
  | run_speech s s' effects trace_id observed_at_ms node said log out lost :
      output_run s log out lost ->
      speech trace_id observed_at_ms node said s = (s', effects) ->
      output_run s' (log ++ outputs effects) (out ++ speech_output observed_at_ms node said s) lost
  | run_answer s s' effects trace_id query_id o ask said key log out lost :
      output_run s log out lost ->
      open (queries s) !! query_id = Some o -> then_ o = ThenTerminal ask ->
      answered_terminal trace_id ask said key (answered_query query_id s) = (s', effects) ->
      output_run s' (log ++ outputs effects) (out ++ answer_output ask said (answered_query query_id s)) lost
  | run_mark s s' effects mark log out lost :
      output_run s log out lost ->
      mark_reached mark s = (s', effects) -> output_run s' (log ++ outputs effects) out lost
  | run_cut s s' effects at_ms log out lost :
      output_run s log out lost ->
      cut at_ms s = (s', effects) ->
      output_run s' (log ++ outputs effects) out (lost ++ waiting (terminal s))
  | run_cancelled s s' effects marks at_ms log out lost :
      output_run s log out lost ->
      utterance_cancelled marks at_ms s = (s', effects) -> waiting (terminal s') = [] ->
      output_run s' (log ++ outputs effects) out (lost ++ waiting (terminal s))
  | run_drop s s' effects log out lost :
      output_run s log out lost ->
      drop_waiting s = (s', effects) ->
      output_run s' (log ++ outputs effects) out (lost ++ waiting (terminal s))
  | run_focus s node left_ log out lost :
      output_run s log out lost ->
      waiting (terminal (focus_moved node left_ s)) = [] ->
      output_run (focus_moved node left_ s) log out (lost ++ waiting (terminal s)).

(** What holds of a run: every line is accounted for, what waits is bounded,
    and waiting output is to be brought on. *)
Definition accounts (s : SrState) (log : list (list UtteranceSegment)) (out lost : list WaitingOutput) : Prop :=
  exists handed, heard handed log /\
    texts handed ++ texts (waiting (terminal s)) `sublist_of` texts out /\
    (Forall exact out -> total out <= U32_MAX ->
     total handed + total lost + total (waiting (terminal s)) = total out /\ Forall exact (waiting (terminal s))).
Definition traced (s : SrState) : Prop :=
  output_trace (terminal s) = None -> waiting (terminal s) = [] /\ group (terminal s) = None.
Record sound (s : SrState) : Prop := {
  sound_bytes : waiting_bytes (waiting (terminal s)) <= MAX_WAITING_BYTES;
  sound_traced : traced s;
  sound_numbers : next (queries s) < U64_MAX -> numbers_below s;
}.
Definition fluent (s : SrState) : Prop := sound s /\ (next (queries s) < U64_MAX -> moves s).

Lemma run_accounts_step s s' log out lost new said :
  accounts s log out lost -> hands_on new s s' said -> accounts s' (log ++ said) (out ++ new) lost.
Proof.
  intros (handed & Hh & Ht & He) (handed' & Hh' & Ht' & He'). exists (handed ++ handed'). split_and!.
  - by apply heard_app.
  - rewrite !texts_app -app_assoc. etrans; [apply sublist_app; [done|exact Ht']|].
    rewrite app_assoc. by apply sublist_app.
  - intros [Ho Hn]%Forall_app Hm. rewrite lines_total_app in Hm. destruct He as [Heq Hw]; [done|lia|].
    destruct He' as [Heq' Hw']; [done|done|lia|]. rewrite !lines_total_app. split; [lia|done].
Qed.

Lemma accounts_same s s' log out lost :
  accounts s log out lost -> waiting (terminal s') = waiting (terminal s) -> accounts s' log out lost.
Proof. intros Ha Hw. unfold accounts in *. by rewrite Hw. Qed.

Lemma accounts_lost s s' log out lost :
  accounts s log out lost -> waiting (terminal s') = [] -> accounts s' log out (lost ++ waiting (terminal s)).
Proof.
  intros (handed & Hh & Ht & He) Hw. exists handed. rewrite Hw app_nil_r. split_and!; [done| |].
  - etrans; [|exact Ht]. by apply sublist_inserts_r.
  - intros Ho Hm. destruct (He Ho Hm) as [Heq _]. rewrite lines_total_app. simpl. split; [lia|done].
Qed.

Lemma sound_later s s' :
  sound s -> waiting_bytes (waiting (terminal s')) <= MAX_WAITING_BYTES -> traced s' -> later s s' -> sound s'.
Proof.
  intros [_ _ Hn] Hb Ht Hl. split; [done|done|]. intros Hmax. destruct (Hl Hmax) as [Hle Hk]. apply Hk, Hn. lia.
Qed.

Lemma fluent_hushed s s' : fluent s -> hushed (terminal s) (terminal s') -> later s s' -> fluent s'.
Proof.
  intros [Hs Hm] Hh Hl. pose proof Hh as (Hw & Htr & Hg). split; [|intros _; by eapply hushed_moves].
  apply (sound_later s); [done|by rewrite Hw| |done]. intros Hnone. rewrite Htr in Hnone.
  destruct (sound_traced _ Hs Hnone) as [_ Hg0]. split; [done|]. destruct Hg as [Hg|[_ ->]]; done.
Qed.

Lemma sound_same s s' : sound s -> terminal s' = terminal s -> later s s' -> sound s'.
Proof.
  intros Hs Ht Hl. apply (sound_later s); [done| | |done].
  - rewrite Ht. apply Hs.
  - unfold traced. rewrite Ht. apply Hs.
Qed.

Lemma hands_on_bytes s s' said :
  hands_on [] s s' said -> waiting_bytes (waiting (terminal s')) <= waiting_bytes (waiting (terminal s)).
Proof.
  intros (handed & _ & Hs & _). rewrite app_nil_r in Hs. apply texts_bytes. etrans; [|exact Hs].
  by apply sublist_inserts_l.
Qed.

Lemma sound_hands_on s s' said :
  sound s -> flows s s' -> hands_on [] s s' said -> output_trace (terminal s) <> None -> sound s'.
Proof.
  intros Hs Hf Hh Ht. apply (sound_later s); [done| | |by apply asks_later, flows_asks].
  - etrans; [by eapply hands_on_bytes|apply Hs].
  - unfold traced. by rewrite (flows_trace _ _ Hf).
Qed.

Lemma pump_fluent trace_id s :
  sound s -> output_trace (terminal s) <> None -> fluent (pump trace_id s).1.
Proof.
  intros Hs Ht. destruct (pump_spec trace_id s) as (Hf & Hh & Hm).
  split; [by eapply sound_hands_on|]. intros _. by apply Hm.
Qed.

Lemma decide_and_pump_fluent s : sound s -> fluent (decide_and_pump s).1.
Proof.
  intros Hs. destruct (decide_and_pump_spec s) as (Hf & Hh & Hm).
  destruct (output_trace (terminal s)) eqn:Ht; [|].
  - split; [apply (sound_hands_on _ _ _ Hs Hf Hh); by rewrite Ht|]. intros _. by apply Hm.
  - unfold decide_and_pump. rewrite Ht. split; [done|]. intros _. left. by apply Hs.
Qed.

Lemma take_said_fluent trace_id node said before_cut s :
  sound s ->
  let s' := (take_said trace_id node said before_cut s).1 in
  sound s' /\ (if reports s said before_cut then next (queries s') < U64_MAX -> moves s'
               else terminal s' = terminal s /\ queries s' = queries s).
Proof.
  intros Hs s'. destruct (take_said_spec trace_id node said before_cut s) as (_ & Ha & Hr). fold s' in Ha, Hr.
  destruct (reports s said before_cut).
  - destruct Hr as (Ht & Hb & Hm). split.
    + apply (sound_later s); [done|done| |by apply asks_later]. intros Hn. by rewrite Hn in Ht.
    + intros Hmax. apply Hm; [done|]. apply (sound_numbers _ Hs). destruct (Ha Hmax). lia.
  - destruct Hr as (Ht & Hq & _). split; [|done]. by apply (sound_same s); [| |apply asks_later].
Qed.

Lemma moves_kept s s' : terminal s' = terminal s -> queries s' = queries s -> moves s -> moves s'.
Proof. intros Ht Hq. apply moves_same; [done|]. unfold asked_terminal. by rewrite Hq. Qed.

Lemma answered_query_later query_id s : later s (answered_query query_id s).
Proof.
  apply later_open; [done|]. intros q [o Ho]. cbn in Ho. apply lookup_delete_Some in Ho as [_ Ho].
  by eexists.
Qed.

Lemma answered_query_asked query_id o ask s :
  open (queries s) !! query_id = Some o -> then_ o = ThenTerminal ask -> ask <> AskRead ->
  asked_terminal AskRead s = true -> asked_terminal AskRead (answered_query query_id s) = true.
Proof.
  unfold asked_terminal. rewrite !has_true. intros Ho Ht Hne (q & o' & Ho' & Hp). exists q, o'. split; [|done].
  cbn. rewrite lookup_delete_ne; [done|]. intros <-. simplify_eq. unfold picks in Hp. rewrite Ht in Hp.
  apply andb_true_iff in Hp as [_ Hp]. apply bool_decide_eq_true in Hp. done.
Qed.

Lemma speech_step trace_id observed_at_ms node said s :
  fluent s ->
  let st := speech trace_id observed_at_ms node said s in
  fluent st.1 /\ hands_on (speech_output observed_at_ms node said s) s st.1 (outputs st.2).
Proof.
  intros [Hs Hm]. cbn zeta. unfold speech, speech_output. destruct (focus_matches node s); cbn [negb].
  2:{ split; [done|by apply hands_on_same]. }
  set (before_cut := _ || _).
  destruct (take_said_fluent trace_id (Some node) said before_cut s Hs) as [Hs' Hr].
  destruct (take_said_spec trace_id (Some node) said before_cut s) as (Hh & Ha & _).
  split; [|done]. split; [done|]. destruct (reports s said before_cut); [done|].
  destruct Hr as [Ht Hq]. rewrite Hq. intros Hmax. apply (moves_kept s); auto.
Qed.

Lemma answer_step trace_id query_id o ask said key s :
  fluent s -> open (queries s) !! query_id = Some o -> then_ o = ThenTerminal ask ->
  let s0 := answered_query query_id s in
  let st := answered_terminal trace_id ask said key s0 in
  fluent st.1 /\ hands_on (answer_output ask said s0) s0 st.1 (outputs st.2).
Proof.
  intros [Hs Hm] Ho Hth. cbn zeta. set (s0 := answered_query query_id s).
  assert (sound s0) as Hs0 by by apply (sound_same s); [| |apply answered_query_later].
  unfold answered_terminal. set (trace := default trace_id key).
  destruct (take_said_spec trace (terminal_focus s0) said true s0) as (Hh1 & _ & Hr1).
  destruct (take_said_fluent trace (terminal_focus s0) said true s0 Hs0) as [Hs1 Hq1].
  assert (forall b, reports s0 said true = b -> b = false) as Hno.
  { unfold reports. intros b <-. by rewrite andb_false_r. }
  destruct (decide (ask = AskRead)) as [->|Hne].
  - clear Hh1 Hr1 Hs1 Hq1 Hno. unfold seq_steps.
    destruct (take_said_spec trace (terminal_focus s0) said false s0) as (Hh1 & _ & _).
    destruct (take_said_fluent trace (terminal_focus s0) said false s0 Hs0) as [Hs1 Hr1].
    destruct (take_said trace (terminal_focus s0) said false s0) as [s1 e1]. cbn [fst snd] in *.
    set (s2 := with_speech (with_deciding false) s1).
    assert (sound s2) as Hs2 by (apply (sound_later s1); [done|apply Hs1|apply Hs1|by apply later_open]).
    cbn [answer_output]. destruct (deciding (terminal s1)) eqn:Hd.
    + destruct (decide_and_pump_spec s2) as (_ & Hh2 & _). pose proof (decide_and_pump_fluent s2 Hs2) as Hf2.
      destruct (decide_and_pump s2) as [s3 e3]. cbn [fst snd] in *. split; [done|].
      rewrite outputs_under outputs_app -(app_nil_r (new_output s0 said false)).
      eapply (hands_on_trans _ [] _ s1); [done|]. exact Hh2.
    + cbn [fst snd]. rewrite app_nil_r outputs_under. split; [|exact Hh1].
      split; [done|]. change (queries s2) with (queries s1). intros Hmax.
      assert (moves s1 \/ (waiting (terminal s1) = [] /\ group (terminal s1) = None) \/ ahead (terminal s1) <> [] \/
        sounding (terminal s1) <> None) as Hw.
      { destruct (reports s0 said false); [by left; apply Hr1|]. right. destruct Hr1 as [Ht Hq].
        rewrite Hq in Hmax. specialize (Hm Hmax). unfold moves in Hm. rewrite Ht in Hd |- *.
        change (terminal s0) with (terminal s) in *. rewrite Hd in Hm. naive_solver. }
      unfold moves in Hw |- *. cbn [terminal s2 with_speech with_terminal with_deciding]. rewrite Hd in Hw.
      unfold s2, with_speech. cbn. naive_solver.
  - destruct (take_said trace (terminal_focus s0) said true s0) as [s1 e1]. cbn [fst snd] in *.
    assert (new_output s0 said true = [] /\ reports s0 said true = false) as [Hnew Hrep].
    { unfold new_output. specialize (Hno _ eq_refl). by rewrite Hno. }
    rewrite Hnew in Hh1. rewrite Hrep in Hq1. destruct Hq1 as [Ht Hq].
    assert (fluent s1) as Hf1.
    { split; [done|]. rewrite Hq. intros Hmax. apply (moves_kept s0); [done|done|].
      apply (moves_same s); [done|by eapply answered_query_asked|by apply Hm]. }
    destruct ask; [done|..]; cbn [fst snd answer_output]; by rewrite outputs_under.
Qed.

Lemma mark_step mark s :
  fluent s ->
  let st := mark_reached mark s in fluent st.1 /\ hands_on [] s st.1 (outputs st.2).
Proof.
  intros [Hs Hm]. cbn zeta. unfold mark_reached. destruct (output_trace (terminal s)) as [trace_id|] eqn:Ht.
  2:{ split; [done|by apply hands_on_same]. }
  assert (forall t, waiting t = waiting (terminal s) -> output_trace t = output_trace (terminal s) ->
    sound (with_speech (fun _ => t) s)) as Hsnd.
  { intros t Hw Htr. apply (sound_later s); [done| | |by apply later_open].
    - cbn. rewrite Hw. apply Hs.
    - intros Hn. cbn in Hn. congruence. }
  destruct (existsb _ _).
  - set (s1 := with_speech _ s). assert (sound s1) as Hs1 by by apply Hsnd.
    assert (output_trace (terminal s1) <> None) as Htr by by rewrite /= Ht.
    destruct (pump_spec trace_id s1) as (_ & Hh & _). split; [by apply pump_fluent|exact Hh].
  - destruct (sounding (terminal s)) as [sounds|]; [|split; [done|by apply hands_on_same]].
    case_bool_decide; [|split; [done|by apply hands_on_same]].
    set (s1 := with_speech _ s). assert (sound s1) as Hs1 by by apply Hsnd.
    assert (output_trace (terminal s1) <> None) as Htr by by rewrite /= Ht.
    destruct (group_heard (terminal s1)).
    + destruct (asked_terminal AskRead s1) eqn:Ha.
      * cbn [fst snd]. split; [|by apply hands_on_same]. split; [by apply Hsnd|].
        intros _. right; right; right. done.
      * destruct (decide_and_pump_spec s1) as (_ & Hh & _). split; [by apply decide_and_pump_fluent|exact Hh].
    + destruct (pump_spec trace_id s1) as (_ & Hh & _). split; [by apply pump_fluent|exact Hh].
Qed.

(** ** Theorems *)

Lemma output_run_ok s log out lost : output_run s log out lost -> accounts s log out lost /\ fluent s.
Proof.
  induction 1 as [s Ht Hn|s s' effects log out lost _ [Ha [Hs Hm]] Ht Has Ho
    |s s' effects trace_id at_ms node said log out lost _ [Ha Hf] Heq
    |s s' effects trace_id query_id o ask said key log out lost _ [Ha Hf] Ho Hth Heq
    |s s' effects mark log out lost _ [Ha Hf] Heq|s s' effects at_ms log out lost _ [Ha Hf] Heq
    |s s' effects marks at_ms log out lost _ [Ha Hf] Heq Hw|s s' effects log out lost _ [Ha Hf] Heq
    |s node left_ log out lost _ [Ha Hf] Hw].
  - split.
    + exists []. rewrite Ht. split_and!; [constructor|done|done].
    + split; [|by left; rewrite Ht]. split; rewrite ?Ht; [done|by intros _; rewrite Ht|done].
  - split; [by eapply accounts_same; [|rewrite Ht]|]. split; [by apply (sound_same s); [| |apply asks_later]|].
    intros Hmax. destruct (Has Hmax) as [Hle Hk]. apply (moves_same s); [done| |apply Hm; lia].
    apply Hk, (sound_numbers _ Hs). lia.
  - destruct (speech_step trace_id at_ms node said s Hf) as [Hf' Hh]. rewrite Heq in Hf', Hh.
    split; [by eapply run_accounts_step|done].
  - destruct (answer_step trace_id query_id o ask said key s Hf Ho Hth) as [Hf' Hh]. rewrite Heq in Hf', Hh.
    split; [|done]. eapply run_accounts_step; [|done]. by apply (accounts_same s).
  - destruct (mark_step mark s Hf) as [Hf' Hh]. rewrite Heq in Hf', Hh.
    split; [|done]. rewrite -(app_nil_r out). by eapply run_accounts_step.
  - destruct (cut_spec at_ms s) as (Hh & Hl & Ho). rewrite Heq /= in Hh, Hl, Ho. rewrite Ho app_nil_r.
    split; [apply accounts_lost; [done|apply Hh]|by eapply fluent_hushed].
  - unfold utterance_cancelled in Heq. destruct (_ || _).
    + destruct (cut_spec at_ms s) as (Hh & Hl & Ho). rewrite Heq /= in Hh, Hl, Ho. rewrite Ho app_nil_r.
      split; [by apply accounts_lost|by eapply fluent_hushed].
    + injection Heq as <- <-. rewrite !app_nil_r. split; [by apply accounts_lost|done].
  - destruct (drop_waiting_spec s) as (Hh & Hl & Ho). rewrite Heq /= in Hh, Hl, Ho. rewrite Ho app_nil_r.
    split; [apply accounts_lost; [done|apply Hh]|by eapply fluent_hushed].
  - split; [by apply accounts_lost|]. unfold focus_moved. destruct (_ || _); [|done].
    destruct Hf as [Hs Hm]. split; [|by left]. apply (sound_later s); [done|done|done|].
    exact (forget_later is_terminal_ask (with_terminal no_terminal_speech s)).
Qed.


(** C9: output never stalls and never grows past its bound: at every point of a
    run, while query numbers last, when output waits or a group is being
    spoken, an utterance of output is still to start or to end, or the answer
    that decides what is spoken next is still to come; and at most
    [MAX_WAITING_BYTES] bytes wait. *)
Theorem output_never_stalls s log out lost :
  output_run s log out lost -> next (queries s) < U64_MAX ->
  (waiting (terminal s) <> [] \/ group (terminal s) <> None ->
   ahead (terminal s) <> [] \/ sounding (terminal s) <> None \/
   (deciding (terminal s) = true /\ has (is_ask AskRead) (queries s) = true)) /\
  waiting_bytes (waiting (terminal s)) <= MAX_WAITING_BYTES.
Proof.
  intros [_ [Hs Hm]]%output_run_ok Hmax. split; [|apply Hs]. specialize (Hm Hmax). unfold moves in Hm.
  naive_solver.
Qed.


End unicode.

(** ** A run of six lines *)

Module FloodSample.

Import Sample.

(** Two lines are spoken in full, and of more the last one. *)
Definition settings_of : ReaderSettings :=
  {| speak_typed_characters := EchoOff; speak_typed_words := EchoOff; follow_caret_setting := true;
     say_all_unit := BySentence; keep_display_on := true; speak_terminal_passwords := false;
     report_terminal_output := true; terminal_full_lines := 2; terminal_last_lines := 1 |}.
Definition shell_focused : FocusContext :=
  {| focus_from := {| pid_number := 4 |}; focus_window := None; focus_node := node_of 7 RoleTerminal "Shell";
     focus_ancestors := []; last_selection := None; alive := true; reported_focused := true;
     focus_trace_id := None; focus_observed_at_us := 0; spoken := None; left_ := false |}.
Definition at_shell : SrState := with_focus (Some shell_focused) (with_settings settings_of new_state).
Definition six_lines : Said :=
  {| said_items := SaidLine <$> ["one"; "two"; "three"; "four"; "five"; "six"]%string; followed := false |}.
Definition said_six : SrState * list Effect := speech (trace 1) 0 (node_id 7) six_lines at_shell.
Definition mark_at (n : N) : SpeechMark := {| mark_value := n |}.
Definition first_heard : SrState * list Effect := mark_reached (mark_at 2) said_six.1.
Definition group_ended : SrState * list Effect := mark_reached (mark_at 3) first_heard.1.

Definition six_log : list (list UtteranceSegment) :=
  (([] ++ outputs said_six.2) ++ outputs first_heard.2) ++ outputs group_ended.2.
Definition six_out : list WaitingOutput := [] ++ speech_output 0 (node_id 7) six_lines at_shell.

Lemma six_run : output_run group_ended.1 six_log six_out [].
Proof.
  apply (run_mark first_heard.1 _ _ (mark_at 3)); [|vm_compute; reflexivity].
  apply (run_mark said_six.1 _ _ (mark_at 2)); [|vm_compute; reflexivity].
  apply (run_speech at_shell _ _ (trace 1) 0 (node_id 7) six_lines [] [] []); [|vm_compute; reflexivity].
  apply run_from; [reflexivity|]. intros query_id o Ho. vm_compute in Ho. discriminate.
Qed.


Lemma output_never_stalls_witness :
  group (terminal group_ended.1) = Some 1%nat /\
  (waiting (terminal group_ended.1) <> [] \/ group (terminal group_ended.1) <> None ->
   ahead (terminal group_ended.1) <> [] \/ sounding (terminal group_ended.1) <> None \/
   (deciding (terminal group_ended.1) = true /\ has (is_ask AskRead) (queries group_ended.1) = true)) /\
  waiting_bytes (waiting (terminal group_ended.1)) <= MAX_WAITING_BYTES.
Proof.
  split; [vm_compute; reflexivity|]. apply (output_never_stalls _ _ _ _ six_run). vm_compute. reflexivity.
Defined.


End FloodSample.
