(* ===== verification/HeldKeys.v ===== *)
(** * Keys held back

    The keys of [src/crates/verbatim-core/src/editing.rs] that the keyboard
    hook holds back until the caret before them is read, the keys and commands
    that wait behind them, the dispatch of key inputs in [reduce.rs], the keys a
    terminal's model keeps ([terminal_model.rs]) and the end of a query that a
    held key waits for ([queries.rs]). What the reading rules keep of a key, a
    terminal's read and the review commands are the interface [KeyParts]'s. *)

From S2P Require Import Prelude Text Tree TextModel Facts Messages Speech FocusRules TextUnits CoreText CoreEvents ForegroundRecord CoreQueries CoreState Announce CoreShell Editing Flood.

Definition KEY_WINDOW_MS : N := 300.

(** ** Key inputs *)

(** [reduce::key_trace]. *)
Definition key_trace (input : Input) : option TraceId :=
  match input with
  | InCaretKey trace_id _ _ _ | InCharacterTyped trace_id _ _ _ | InClearingKey trace_id _ _
  | InHeldKey trace_id _ _ _ => Some trace_id
  | _ => None
  end.

Definition pressed_no_earlier (input : Input) (at_ms : N) : Input :=
  match input with
  | InCaretKey trace_id key_seq key pressed_at_ms =>
      if pressed_at_ms =? 0 then input else InCaretKey trace_id key_seq key (N.max pressed_at_ms at_ms)
  | InCharacterTyped trace_id key_seq text typed_at_ms =>
      if typed_at_ms =? 0 then input else InCharacterTyped trace_id key_seq text (N.max typed_at_ms at_ms)
  | InClearingKey trace_id key_seq cleared_at_ms =>
      if cleared_at_ms =? 0 then input else InClearingKey trace_id key_seq (N.max cleared_at_ms at_ms)
  | input => input
  end.

(** What waits for the watch of the key ahead, and when it was pressed. *)
Definition front_waits (front : WaitingKey) : option (TraceId * N) :=
  match front with
  | WaitHeld held => Some (hk_trace_id held, hk_pressed_at_ms held)
  | WaitCommand (InCommand trace_id _ _ pressed_at_ms _)
  | WaitCommand (InScript trace_id _ _ _ pressed_at_ms) => Some (trace_id, pressed_at_ms)
  | _ => None
  end.

Class KeyParts `{TerminalReading} := {
  keep_key : TerminalKeyKind -> N -> TraceId -> Reading -> Reading;
  snapshot_event : TraceId -> NodeId -> TerminalSnapshot -> Step;
  reduce_command : TraceId -> ReviewCommand -> N -> Step;
}.

Section keys.
Context `{UnicodeRules} `{KeyParts}.

Definition update_held (f : HeldKeys -> HeldKeys) (s : SrState) : SrState :=
  with_held_keys (f (held_keys s)) s.

(** [terminal_model::key] and [key_input]. *)
Fixpoint keep_first (node : NodeId) (kind : TerminalKeyKind) (at_ms : N) (trace_id : TraceId)
    (ms : list TerminalModel) : list TerminalModel :=
  match ms with
  | [] => []
  | model :: ms =>
      if bool_decide (model_node model = node)
      then {| model_node := model_node model; model_held := model_held model;
              model_reviews := model_reviews model;
              model_reading := keep_key kind at_ms trace_id (model_reading model) |} :: ms
      else model :: keep_first node kind at_ms trace_id ms
  end.
Definition terminal_key (kind : TerminalKeyKind) (at_ms : N) (trace_id : TraceId) : Step := fun s =>
  match focused_model s with
  | None => (s, [])
  | Some node =>
      let '(s, _, effect) :=
        ask_query (AskText node (TerminalColours at_ms (at_ms +|64| KEY_WINDOW_MS))) ThenNothing s in
      (with_terminals {| models := keep_first node kind at_ms trace_id (models (terminals s));
                         next_generation := next_generation (terminals s) |} s, [effect])
  end.
Definition terminal_key_input (input : Input) : Step :=
  match input with
  | InCaretKey trace_id _ key pressed_at_ms => terminal_key (caret_key_kind key) pressed_at_ms trace_id
  | InCharacterTyped trace_id _ text at_ms => terminal_key (typed_kind text) at_ms trace_id
  | InClearingKey trace_id _ at_ms => terminal_key KindForget at_ms trace_id
  | _ => silent
  end.

Definition key_input (input : Input) : Step :=
  terminal_key_input input >>+
  match input with
  | InCaretKey _ _ key pressed_at_ms => caret_key key pressed_at_ms
  | InCharacterTyped trace_id _ text _ => character_typed trace_id text
  | InClearingKey _ _ _ => quiet clearing_key
  | _ => silent
  end.

Definition command_input (input : Input) : Step :=
  match input with
  | InCommand trace_id _ command _ repeat => reduce_command trace_id command repeat
  | InScript _ _ repeat the_script _ => emit (script the_script repeat)
  | _ => silent
  end.

(** ** Held keys *)

(** The watch among the effects of a key. *)
Definition watch_of (effect : Effect) : option QueryId :=
  match effect with EffText query_id _ (AwaitCaret _) => Some query_id | _ => None end.

Definition pass_held (held : HeldKey) (at_ms : N) : Step := fun s =>
  let s := update_held (with_passed_at_ms at_ms) s in
  let '(s, effects) :=
    (terminal_key (caret_key_kind (hk_key held)) at_ms (hk_trace_id held) >>+ caret_key (hk_key held) at_ms) s in
  (update_held (with_awaiting_watch (find_map watch_of effects)) s,
   effects ++ [EffPassHeldKey (hk_trace_id held)]).

Definition start_held (held : HeldKey) : Step := fun s =>
  match text_focus s with
  | None => pass_held held (hk_pressed_at_ms held) s
  | Some node =>
      let '(s, _, request) :=
        ask_query (AskText node ReadCaret) (ThenHeldRead {| hr_node := node; hr_key := held |}) s in
      (update_held (with_bounded (Some (hk_trace_id held))) s,
       [EffBoundHeldKey (Some (hk_trace_id held, HELD_READ_BOUND_MS)); request])
  end.

(** The front's wait for the watch of the key ahead, while it is not due. *)
Definition blocks (front : WaitingKey) (s : SrState) : option (TraceId * N) :=
  match front_waits front with
  | Some (trace_id, pressed_at_ms) =>
      if is_some (awaiting_watch (held_keys s)) &&
         (pressed_at_ms <? passed_at_ms (held_keys s) +|64| KEY_AHEAD_BOUND_MS)
      then Some (trace_id, pressed_at_ms) else None
  | None => None
  end.
Definition bound_wait (trace_id : TraceId) (pressed_at_ms : N) : Step := fun s =>
  if bool_decide (bounded (held_keys s) = Some trace_id) then (s, [])
  else
    let passed := passed_at_ms (held_keys s) in
    (update_held (with_bounded (Some trace_id)) s,
     [EffBoundHeldKey (Some (trace_id,
        (passed +|64| KEY_AHEAD_BOUND_MS) - N.max pressed_at_ms passed))]).

(** What handling the front does, once it is off the queue. *)
Definition handle_waiting (waiting : WaitingKey) : Step := fun s =>
  match waiting with
  | WaitHeld held =>
      let '(s, own) := start_held held s in (s, under (Some (hk_trace_id held)) own)
  | WaitLater input =>
      let input := pressed_no_earlier input (passed_at_ms (held_keys s)) in
      let '(s, own) := key_input input s in (s, under (key_trace input) own)
  | WaitCommand input =>
      let '(s, own) := command_input input s in (s, under (input_trace_id input) own)
  end.

(** The loop of [next_held]: with as many rounds as keys wait; also the trace
    of the key whose wait ends it. *)
Fixpoint held_rounds (rounds : nat) (behind : bool) (s : SrState) : SrState * list Effect * option TraceId :=
  match rounds with
  | 0%nat => (s, [], None)
  | S rounds =>
      match reading_held s, waiting_keys (held_keys s) with
      | Some _, _ | None, [] => (s, [], None)
      | None, front :: rest =>
          let s := if behind then later_key (passed_at_ms (held_keys s)) s else s in
          match blocks front s with
          | Some (trace_id, pressed_at_ms) =>
              let '(s, effects) := bound_wait trace_id pressed_at_ms s in (s, effects, Some trace_id)
          | None =>
              let s := match front_waits front with
                       | Some _ => update_held (with_awaiting_watch None) s
                       | None => s
                       end in
              let '(s, own) := handle_waiting front (update_held (with_waiting_keys rest) s) in
              let '(s, effects, blocked) := held_rounds rounds true s in
              (s, own ++ effects, blocked)
          end
      end
  end.
Definition clear_bound (blocked : option TraceId) : Step := fun s =>
  match reading_held s, bounded (held_keys s) with
  | None, Some trace_id =>
      if bool_decide (Some trace_id = blocked) then (s, [])
      else (update_held (with_bounded None) s, [EffBoundHeldKey None])
  | _, _ => (s, [])
  end.
Definition next_held (behind : bool) : Step := fun s =>
  let '(s, effects, blocked) := held_rounds (length (waiting_keys (held_keys s))) behind s in
  let '(s, cleared) := clear_bound blocked s in
  (s, effects ++ cleared).

Definition push_waiting (key : WaitingKey) (s : SrState) : SrState :=
  update_held (fun h => with_waiting_keys (waiting_keys h ++ [key]) h) s.

Definition held_key (trace_id : TraceId) (key : CaretKey) (pressed_at_ms : N) : Step := fun s =>
  next_held false (push_waiting
    (WaitHeld {| hk_trace_id := trace_id; hk_key := key; hk_pressed_at_ms := pressed_at_ms |}) s).

Definition queue_command (input : Input) : Step := fun s =>
  let busy := held_busy s in
  let s := push_waiting (WaitCommand input) s in
  if busy then (s, []) else next_held true s.

Definition held_watch_answered : Step := next_held true.

(** [held_wait_ended]. *)
Definition front_trace (waiting : list WaitingKey) : option TraceId :=
  match waiting with
  | WaitHeld held :: _ => Some (hk_trace_id held)
  | WaitCommand input :: _ => input_trace_id input
  | _ => None
  end.
Definition held_wait_ended (trace_id : TraceId) : Step := fun s =>
  if negb (is_some (reading_held s)) && is_some (awaiting_watch (held_keys s)) &&
     bool_decide (front_trace (waiting_keys (held_keys s)) = Some trace_id)
  then next_held true (update_held (with_awaiting_watch None) s)
  else (s, []).

Definition held_read (reading : HeldRead) (reply : TextReply) : Step := fun s =>
  let held := hr_key reading in
  let '(s, at_ms) :=
    match reply with
    | ReplyCaret reply =>
        (update_caret (hr_node reading) (reply_caret reply) (read_at_ms reply) s,
         if read_at_ms reply =? 0 then hk_pressed_at_ms held else read_at_ms reply +|64| 1)
    | _ => (s, hk_pressed_at_ms held)
    end in
  (pass_held held at_ms >>+ next_held true) s.

Definition held_key_due (trace_id : TraceId) : Step := fun s =>
  if negb (bool_decide (bounded (held_keys s) = Some trace_id)) then (s, [])
  else
    let s := update_held (with_bounded None) s in
    match reading_held s with
    | Some (query_id, reading) =>
        if bool_decide (hk_trace_id (hr_key reading) = trace_id) then
          match withdraw query_id (queries s) with
          | (queries, Some (_, withdrawal)) =>
              (emit [withdrawal] >>+ held_read reading ReplyUnanswered) (with_queries queries s)
          | _ => held_wait_ended trace_id s
          end
        else held_wait_ended trace_id s
    | None => held_wait_ended trace_id s
    end.

(** ** Dispatch *)

(** The arms of [reduce_input] for keys, commands and scripts. *)
Definition reduce_key (input : Input) : Step := fun s =>
  match input with
  | InCommand _ _ _ _ _ | InScript _ _ _ _ _ =>
      if held_busy s || is_some (awaiting_watch (held_keys s)) then queue_command input s
      else command_input input s
  | InCaretKey _ _ _ _ | InCharacterTyped _ _ _ _ | InClearingKey _ _ _ =>
      if held_busy s then (push_waiting (WaitLater input) s, []) else key_input input s
  | InHeldKey trace_id _ key pressed_at_ms => held_key trace_id key pressed_at_ms s
  | InHeldKeyDue trace_id => held_key_due trace_id s
  | _ => (s, [])
  end.

(** [queries::ended], of a query already taken out that continues with
    [continued]. *)
Definition ended_query (query_id : QueryId) (continued : Step) : Step := fun s =>
  if bool_decide (awaiting_watch (held_keys s) = Some query_id)
  then (continued >>+ held_watch_answered) (update_held (with_awaiting_watch None) s)
  else continued s.

(** [terminal_model::read_at] and [before_key]. *)
Definition snapshot_read_at (snapshot : TerminalSnapshot) : N := N.max (ended_ms snapshot) (started_ms snapshot).
Definition caret_before_key (snapshot : TerminalSnapshot) : TextReply :=
  match terminal_caret snapshot with
  | Some caret =>
      ReplyCaret {| moved := false; reply_caret := caret; read_at_ms := snapshot_read_at snapshot;
                    reply_unit := None; reply_selection_changes := []; reply_content_changed := false;
                    reply_new_selection := None; reply_same_line := None; removed := None |}
  | None => ReplyUnanswered
  end.

(** [queries::continued] for a held key's read. *)
Definition held_continued (trace_id : TraceId) (reading : HeldRead) (reply : TextReply) : Step :=
  match reply with
  | ReplyTerminalSnapshot snapshot =>
      snapshot_event trace_id (hr_node reading) snapshot >>+ held_read reading (caret_before_key snapshot)
  | reply => held_read reading reply
  end.

End keys.
