(* ===== verification/HeldKeysProps.v ===== *)
(** * Every held key reaches the application

    Over every run, each key the hook holds back is passed on once, in the
    order pressed, and while a key waits the shell keeps a deadline that brings
    it on. *)

From S2P Require Import Prelude Text Tree TextModel Facts Messages Speech Announce FocusRules TextUnits CoreText CoreEvents ForegroundRecord CoreQueries CoreState CoreShell Editing CoreProps Flood HeldKeys.

(** ** What the shell is told *)

(** A key passed on, and the deadline the shell keeps. *)
Inductive Signal := Passed (trace_id : TraceId) | Deadline (trace_id : option TraceId).
Fixpoint signal_of (effect : Effect) : option Signal :=
  match effect with
  | EffPassHeldKey trace_id => Some (Passed trace_id)
  | EffBoundHeldKey bound => Some (Deadline (fst <$> bound))
  | EffForKey _ effect => signal_of effect
  | _ => None
  end.
Definition signals (effects : list Effect) : list Signal := omap signal_of effects.
Definition passes (l : list Signal) : list TraceId :=
  omap (fun signal => match signal with Passed trace_id => Some trace_id | _ => None end) l.
Definition deadline (shell : option TraceId) (l : list Signal) : option TraceId :=
  foldl (fun shell signal => match signal with Deadline trace_id => trace_id | _ => shell end) shell l.

Lemma signals_app l k : signals (l ++ k) = signals l ++ signals k.
Proof. apply omap_app. Qed.
Lemma passes_app l k : passes (l ++ k) = passes l ++ passes k.
Proof. apply omap_app. Qed.
Lemma deadline_app shell l k : deadline shell (l ++ k) = deadline (deadline shell l) k.
Proof. apply foldl_app. Qed.

Lemma signals_under key effects : signals (under key effects) = signals effects.
Proof.
  unfold under, signals. destruct key; [|done]. induction effects as [|e effects IH]; [done|].
  csimpl. by rewrite IH.
Qed.

(** ** The read in flight *)

Definition is_reading (t : Then) : bool := match t with ThenHeldRead _ => true | _ => false end.
Definition unread (q : Queries) : Prop :=
  forall query_id o, open q !! query_id = Some o -> is_reading (then_ o) = false.
(** At most one read is in flight. *)
Definition one_reading (q : Queries) : Prop :=
  forall id1 o1 id2 o2, open q !! id1 = Some o1 -> open q !! id2 = Some o2 ->
    is_reading (then_ o1) = true -> is_reading (then_ o2) = true -> id1 = id2.

Lemma unread_one q : unread q -> one_reading q.
Proof. intros Hu id1 o1 id2 o2 H1 H2 Hr. by rewrite (Hu _ _ H1) in Hr. Qed.

Lemma unread_open q q' :
  (forall query_id o, open q' !! query_id = Some o -> is_reading (then_ o) = true ->
     exists query_id' o', open q !! query_id' = Some o' /\ is_reading (then_ o') = true) ->
  unread q -> unread q'.
Proof.
  intros Hq Hu query_id o Ho. destruct (is_reading (then_ o)) eqn:Hr; [|done].
  destruct (Hq _ _ Ho Hr) as (query_id' & o' & Ho' & Hr'). by rewrite (Hu _ _ Ho') in Hr'.
Qed.

Lemma unread_ask asking t q : is_reading t = false -> unread q -> unread (ask asking t q).1.1.
Proof.
  intros Ht Hu query_id o. csimpl. destruct (decide (query_id = {| query_number := next q |})) as [->|Hne].
  - rewrite lookup_insert_eq. by intros [= <-].
  - rewrite lookup_insert_ne; [|done]. apply Hu.
Qed.

Lemma unread_forget which q : unread q -> unread (forget which q).
Proof.
  intros Hu query_id o. csimpl. rewrite lookup_omap_Some. intros (o' & Ho & Ho').
  unfold forget_entry in Ho. destruct (picks which o'); [|simplify_eq; by eapply Hu].
  by destruct (decide _); simplify_eq.
Qed.

Lemma unread_replace query_id t q : is_reading t = false -> unread q -> unread (replace_then query_id t q).1.
Proof.
  intros Ht Hu. unfold replace_then. destruct (open q !! query_id) as [o|] eqn:Ho; [|done].
  intros query_id' o'. csimpl. destruct (decide (query_id' = query_id)) as [->|Hne].
  - rewrite lookup_insert_eq. by intros [= <-].
  - rewrite lookup_insert_ne; [|done]. apply Hu.
Qed.

Section keys.
Context `{UnicodeRules} `{KeyParts}.

Lemma reading_held_Some s query_id reading :
  reading_held s = Some (query_id, reading) ->
  exists o, open (queries s) !! query_id = Some o /\ then_ o = ThenHeldRead reading.
Proof.
  unfold reading_held, find_query. destruct (find_entry _ _) as [[q o]|] eqn:Hf; [|done]. csimpl.
  apply find_entry_Some in Hf as [Ho Hp]. destruct (then_ o) eqn:Ht; try done. intros [= <- <-]. by exists o.
Qed.

Lemma reading_held_None s : reading_held s = None <-> unread (queries s).
Proof.
  unfold reading_held, find_query, unread. destruct (find_entry _ _) as [[q o]|] eqn:Hf; csimpl.
  - apply find_entry_Some in Hf as [Ho Hp]. unfold picks in Hp. split.
    + by destruct (then_ o).
    + intros Hu. specialize (Hu _ _ Ho). by destruct (then_ o).
  - split; [|done]. intros _ query_id o Ho. pose proof (proj1 (find_entry_None _ _) Hf _ _ Ho) as Hp.
    unfold picks in Hp. by destruct (then_ o).
Qed.

Lemma reading_held_one s query_id o reading :
  one_reading (queries s) -> open (queries s) !! query_id = Some o -> then_ o = ThenHeldRead reading ->
  reading_held s = Some (query_id, reading).
Proof.
  intros Hone Ho Ht. destruct (reading_held s) as [[query_id' reading']|] eqn:Hr.
  - apply reading_held_Some in Hr as (o' & Ho' & Ht').
    assert (query_id' = query_id) as ->; [|rewrite Ho in Ho'; congruence].
    by apply (Hone _ _ _ _ Ho' Ho); [rewrite Ht'|rewrite Ht].
  - apply reading_held_None in Hr. specialize (Hr _ _ Ho). by rewrite Ht in Hr.
Qed.

(** ** Handlers that hold nothing *)

(** What a handler run with no read in flight keeps of the held keys: it tells
    the shell nothing of them. *)
Record holds_nothing (s s' : SrState) (effects : list Effect) : Prop := {
  hn_waiting : waiting_keys (held_keys s') = waiting_keys (held_keys s);
  hn_bounded : bounded (held_keys s') = bounded (held_keys s);
  hn_unread : unread (queries s) -> unread (queries s');
  hn_signals : signals effects = [];
}.
Definition holds_none (f : Step) : Prop := forall s, holds_nothing s (f s).1 (f s).2.

Lemma holds_none_seq f g : holds_none f -> holds_none g -> holds_none (f >>+ g).
Proof.
  intros Hf Hg s. unfold seq_steps. destruct (Hf s) as [? ? ? Hs1]. destruct (f s) as [s1 e1].
  destruct (Hg s1) as [? ? ? Hs2]. destruct (g s1) as [s2 e2]. cbn [fst snd] in *.
  split; [congruence|congruence|auto|]. by rewrite signals_app Hs1 Hs2.
Qed.

Lemma holds_none_same (f : Step) :
  (forall s, held_keys (f s).1 = held_keys s /\ queries (f s).1 = queries s /\ signals (f s).2 = []) -> holds_none f.
Proof. intros Hf s. destruct (Hf s) as (Hh & Hq & Hs). split; by rewrite ?Hh ?Hq. Qed.

Lemma holds_none_terminal_key kind at_ms trace_id : holds_none (terminal_key kind at_ms trace_id).
Proof.
  intros s. unfold terminal_key. destruct (focused_model s) as [node|]; [|by split].
  pose proof (unread_ask (AskText node (TerminalColours at_ms (at_ms +|64| KEY_WINDOW_MS))) ThenNothing
    (queries s) eq_refl) as Hu.
  unfold ask_query. destruct (ask _ _ _) as [[q i] e] eqn:Ha. unfold ask in Ha.
  destruct (record_query _ _ _ _). injection Ha as <- <- <-. by split.
Qed.

Lemma holds_none_stop : holds_none stop_say_all.
Proof.
  intros s. unfold stop_say_all. split; try done; cbn [fst snd].
  - apply unread_forget.
  - destruct (saying _) as [r|]; [|done]. by destruct (display_held r).
Qed.

Lemma holds_none_echo trace_id text : holds_none (echo trace_id text).
Proof.
  apply holds_none_same. intros s. unfold echo. destruct (live_focus s) as [f|]; [|done].
  destruct (echo_each _ _ _ _ _ _) as [word effects] eqn:He. cbn [fst snd]. split_and!; [done..|].
  revert word effects He. generalize (typed_word s) as word0.
  induction (omap (get text) (graphemes text)) as [|c cs IH]; intros word0 word effects; cbn [echo_each].
  { by intros [= <- <-]. }
  destruct (if is_word_grapheme c then _ else _) as [w1 ended] eqn:Hw.
  destruct (echo_each _ _ _ _ cs w1) as [w2 e2] eqn:Hr. intros [= <- <-]. rewrite !signals_app (IH _ _ _ Hr).
  assert (signals ended = []) as ->.
  { destruct (is_word_grapheme c); injection Hw as _ <-; [done|].
    match goal with |- signals (if ?b then _ else _) = _ => by destruct b end. }
  match goal with |- _ ++ signals (if ?b then _ else _) ++ _ = _ => by destruct b end.
Qed.

Lemma holds_none_typed trace_id text : holds_none (character_typed trace_id text).
Proof.
  intros s. unfold character_typed. pose proof (holds_none_stop s) as Hs.
  destruct (stop_say_all s) as [s1 e1]. cbn [fst snd] in Hs.
  assert (holds_nothing s (echo trace_id text s1).1 (e1 ++ (echo trace_id text s1).2)) as He.
  { destruct Hs as [? ? ? Hs1]. destruct (holds_none_echo trace_id text s1) as [? ? ? Hs2].
    split; [congruence|congruence|auto|]. by rewrite signals_app Hs1 Hs2. }
  destruct (echo trace_id text s1) as [s2 e2]. cbn [fst snd] in He.
  destruct (live_focus s1); [|done]. repeat case_match; try done.
  all: destruct Hs; by split.
Qed.

Lemma supersede_unread node s :
  held_keys (supersede_caret node s).1 = held_keys s /\
  (unread (queries s) -> unread (queries (supersede_caret node s).1)).
Proof.
  unfold supersede_caret. destruct (find_query is_caret (queries s)) as [[query_id t]|]; [|done].
  pose proof (unread_replace query_id ThenNothing (queries s) eq_refl) as Hu.
  destruct (replace_then query_id ThenNothing (queries s)) as [qs [[]|]]; cbn [fst] in Hu; try done.
  case_match; [done|]. split; [done|]. intros Hq. cbn [fst queries with_queries].
  apply unread_replace; [done|]. by apply unread_forget, Hu.
Qed.

Lemma holds_none_caret_key key at_ms : holds_none (caret_key key at_ms).
Proof.
  intros s. unfold caret_key. pose proof (holds_none_stop s) as Hs.
  destruct (stop_say_all s) as [s1 e1]. cbn [fst snd] in Hs.
  set (s2 := if negb (selects key) && negb (bool_decide (motion key = OtherMotion)) then with_typed_word EmptyString s1 else s1).
  assert (holds_nothing s s2 e1) as Hs2 by (destruct Hs; unfold s2; by destruct (_ && _)).
  clearbody s2. clear Hs s1. destruct (live_focus s2) as [f|]; [|done]. case_match; [done|].
  set (s3 := follow_caret _ s2).
  assert (holds_nothing s s3 e1) as Hs3.
  { destruct Hs2. unfold s3, follow_caret. destruct (navigator s2); [|by split]. case_match; by split. }
  destruct (supersede_unread (id (focus_node f)) s3) as [Hh4 Hu4].
  destruct (supersede_caret _ s3) as [s4 words]. cbn [fst] in *. unfold ask_query.
  match goal with |- context [ask ?a ?t (queries s4)] =>
    pose proof (unread_ask a t (queries s4) eq_refl) as Hu5; destruct (ask a t (queries s4)) as [[q i] e] eqn:Ha end.
  unfold ask in Ha. destruct (record_query _ _ _ _). injection Ha as <- <- <-. cbn [fst snd] in *.
  destruct Hs3 as [Hw Hb Hu Hsig]. case_match; cbn [fst snd]; split; cbn [held_keys with_held_keys with_queries queries];
    rewrite ?Hh4 //; try (by rewrite signals_app Hsig); auto.
Qed.

Lemma holds_none_key_input input : holds_none (key_input input).
Proof.
  apply holds_none_seq.
  - destruct input; try (by intros s; split); apply holds_none_terminal_key.
  - destruct input; try (by intros s; split).
    + apply holds_none_caret_key.
    + apply holds_none_typed.
    + apply holds_none_same. intros s. unfold quiet, clearing_key. cbn [fst snd].
      destruct (live_focus s); [|done]. by case_match.
Qed.

Lemma later_key_holds at_ms s : holds_nothing s (later_key at_ms s) [].
Proof.
  unfold later_key. destruct (find_mut is_caret (mark_later at_ms) (queries s)) as [q|] eqn:Hf; [|by split].
  split; [done|done| |done]. unfold find_mut in Hf.
  destruct (find_entry is_caret (queries s)) as [[query_id o]|] eqn:He; [|done]. injection Hf as <-.
  intros Hu query_id' o'. cbn. destruct (decide (query_id' = query_id)) as [->|Hne].
  - rewrite lookup_insert_eq. intros [= <-]. cbn. apply find_entry_Some in He as [_ Hp].
    unfold picks in Hp. unfold mark_later. destruct (then_ o); try done.
    repeat case_match; done.
  - rewrite lookup_insert_ne; [|done]. apply Hu.
Qed.

(** What the held keys rely on of commands and of a terminal's read. *)
Class KeyLaws : Prop := {
  command_holds trace_id command repeat : holds_none (reduce_command trace_id command repeat);
  snapshot_holds trace_id node snapshot : holds_none (snapshot_event trace_id node snapshot);
}.

(** ** Keys moved on *)

Definition flight (s : SrState) : list WaitingKey :=
  match reading_held s with Some (_, reading) => [WaitHeld (hr_key reading)] | None => [] end.
(** The keys not handled yet, in the order pressed. *)
Definition unhandled (s : SrState) : list WaitingKey := flight s ++ waiting_keys (held_keys s).
Definition held_traces (l : list WaitingKey) : list TraceId :=
  omap (fun key => match key with WaitHeld held => Some (hk_trace_id held) | _ => None end) l.

(** The keys [handled] are taken off the front, those of them that were held
    are passed on, and the shell's deadline stays the one noted. *)
Record moved_on (s s' : SrState) (effects : list Effect) (handled : list WaitingKey) : Prop := {
  mo_unhandled : unhandled s = handled ++ unhandled s';
  mo_passes : passes (signals effects) = held_traces handled;
  mo_deadline : deadline (bounded (held_keys s)) (signals effects) = bounded (held_keys s');
  mo_waiting : (length (waiting_keys (held_keys s')) <= length (waiting_keys (held_keys s)))%nat;
  mo_one : one_reading (queries s');
}.
Definition moves_on (s s' : SrState) (effects : list Effect) : Prop := exists handled, moved_on s s' effects handled.

Lemma moved_on_then s1 s2 s3 e1 e2 h1 h2 :
  moved_on s1 s2 e1 h1 -> moved_on s2 s3 e2 h2 -> moved_on s1 s3 (e1 ++ e2) (h1 ++ h2).
Proof.
  intros [] []. split.
  - by rewrite mo_unhandled0 mo_unhandled1 app_assoc.
  - unfold held_traces. by rewrite signals_app passes_app mo_passes0 mo_passes1 omap_app.
  - by rewrite signals_app deadline_app mo_deadline0.
  - lia.
  - done.
Qed.

Lemma moves_on_then s1 s2 s3 e1 e2 : moves_on s1 s2 e1 -> moves_on s2 s3 e2 -> moves_on s1 s3 (e1 ++ e2).
Proof. intros [h1 H1'] [h2 H2]. exists (h1 ++ h2). by eapply moved_on_then. Qed.

Lemma flight_unread s : unread (queries s) -> flight s = [].
Proof. intros Hu. unfold flight. by rewrite (proj2 (reading_held_None s) Hu). Qed.

Lemma holds_nothing_moved s s' effects :
  unread (queries s) -> holds_nothing s s' effects -> moved_on s s' effects [].
Proof.
  intros Hu [Hw Hb Hu' Hs]. specialize (Hu' Hu). split; rewrite ?Hs //.
  - unfold unhandled. by rewrite !flight_unread // Hw.
  - by rewrite Hw.
  - by apply unread_one.
Qed.

Lemma moved_on_none s : one_reading (queries s) -> moved_on s s [] [].
Proof. by split. Qed.

Lemma pass_held_spec held at_ms s :
  let st := pass_held held at_ms s in
  waiting_keys (held_keys st.1) = waiting_keys (held_keys s) /\ bounded (held_keys st.1) = bounded (held_keys s) /\
  (unread (queries s) -> unread (queries st.1)) /\ signals st.2 = [Passed (hk_trace_id held)].
Proof.
  cbn zeta. unfold pass_held.
  pose proof (holds_none_seq _ _ (holds_none_terminal_key (caret_key_kind (hk_key held)) at_ms (hk_trace_id held))
    (holds_none_caret_key (hk_key held) at_ms) (update_held (with_passed_at_ms at_ms) s)) as [Hw Hb Hu Hs].
  destruct ((terminal_key _ _ _ >>+ _) _) as [s1 e1]. cbn [fst snd] in *.
  split_and!; [by rewrite -Hw|by rewrite -Hb|done|].
  by rewrite signals_app Hs.
Qed.

(** A read in flight is the one whose deadline is kept. *)
Definition read_bounded (s : SrState) : Prop :=
  forall query_id reading, reading_held s = Some (query_id, reading) ->
    bounded (held_keys s) = Some (hk_trace_id (hr_key reading)).

Lemma unread_bounded s : unread (queries s) -> read_bounded s.
Proof. intros Hu q r Hr. by rewrite (proj2 (reading_held_None s) Hu) in Hr. Qed.

Lemma start_held_spec held s :
  unread (queries s) ->
  let st := start_held held s in
  waiting_keys (held_keys st.1) = waiting_keys (held_keys s) /\ one_reading (queries st.1) /\ read_bounded st.1 /\
  deadline (bounded (held_keys s)) (signals st.2) = bounded (held_keys st.1) /\
  (flight st.1 = [WaitHeld held] /\ passes (signals st.2) = [] \/
   flight st.1 = [] /\ passes (signals st.2) = [hk_trace_id held]).
Proof.
  intros Hu. cbn zeta. unfold start_held. destruct (text_focus s) as [node|].
  - unfold ask_query, ask. cbn [asking_node asking_asked asking_effect record_query].
    set (query_id := {| query_number := next (queries s) |}).
    set (reading := {| hr_node := node; hr_key := held |}). set (s1 := update_held _ _).
    assert (forall q o, open (queries s1) !! q = Some o -> is_reading (then_ o) = true -> q = query_id) as Hq.
    { intros q o. cbn. destruct (decide (q = query_id)) as [|Hne]; [done|]. rewrite lookup_insert_ne; [|done].
      intros Ho. by rewrite (Hu _ _ Ho). }
    assert (one_reading (queries s1)) as Hone.
    { intros id1 o1 id2 o2 H1' H2 Hr1 Hr2. by rewrite (Hq _ _ H1' Hr1) (Hq _ _ H2 Hr2). }
    assert (reading_held s1 = Some (query_id, reading)) as Hr.
    { eapply reading_held_one; [done| |]; [cbn; apply lookup_insert_eq|done]. }
    cbn [fst snd]. split_and!; [done|done| |done|].
    + intros q r Hr'. rewrite Hr in Hr'. by injection Hr' as <- <-.
    + left. unfold flight. rewrite Hr. done.
  - destruct (pass_held_spec held (hk_pressed_at_ms held) s) as (Hw & Hb & Hu' & Hs).
    specialize (Hu' Hu). split_and!; [done|by apply unread_one|by apply unread_bounded|by rewrite Hs Hb|].
    right. split; [by apply flight_unread|]. by rewrite Hs.
Qed.

Lemma later_key_held at_ms s : held_keys (later_key at_ms s) = held_keys s.
Proof. unfold later_key. by destruct (find_mut _ _ _). Qed.

Context `{!KeyLaws}.

Lemma holds_none_command input : holds_none (command_input input).
Proof.
  destruct input; try (by intros s; split); [apply command_holds|].
  intros s. split; [done..|]. by destruct script.
Qed.

Lemma handle_waiting_spec front rest s :
  unread (queries s) -> waiting_keys (held_keys s) = front :: rest ->
  let st := handle_waiting front (update_held (with_waiting_keys rest) s) in
  waiting_keys (held_keys st.1) = rest /\ moves_on s st.1 st.2 /\ read_bounded st.1.
Proof.
  intros Hu Hw. cbn zeta. set (s1 := update_held _ s).
  assert (unhandled s = front :: rest) as Hun by by rewrite /unhandled flight_unread // Hw.
  assert (forall (f : Step) key, holds_none f -> (forall held, front <> WaitHeld held) ->
    let '(s', own) := f s1 in
    waiting_keys (held_keys s') = rest /\ moves_on s s' (under key own) /\ read_bounded s') as Hf.
  { intros f key Hf Hfront. destruct (Hf s1) as [Hw' Hb Hu' Hs]. destruct (f s1) as [s' own]. cbn [fst snd] in *.
    specialize (Hu' Hu). split_and!; [done| |by apply unread_bounded].
    exists [front]. split; rewrite ?signals_under ?Hs //.
    - rewrite Hun /unhandled flight_unread // Hw'. done.
    - destruct front; [by edestruct Hfront|done|done].
    - rewrite Hw' Hw. simpl. lia.
    - by apply unread_one. }
  unfold handle_waiting. destruct front as [held|input|input].
  - destruct (start_held_spec held s1 Hu) as (Hw' & Hone & Hb & Hd & Hor).
    destruct (start_held held s1) as [s' own]. cbn [fst snd] in *. split_and!; [done| |done].
    destruct Hor as [[Hfl Hp]|[Hfl Hp]]; [exists []|exists [WaitHeld held]]; split;
      rewrite ?signals_under // ?Hun /unhandled ?Hfl Hw' ?Hw //; simpl; lia.
  - pose proof (Hf (key_input (pressed_no_earlier input (passed_at_ms (held_keys s1))))
      (key_trace (pressed_no_earlier input (passed_at_ms (held_keys s1)))) (holds_none_key_input _)) as Hk.
    destruct (key_input _ s1). by apply Hk.
  - pose proof (Hf (command_input input) (input_trace_id input) (holds_none_command _)) as Hk.
    destruct (command_input _ s1). by apply Hk.
Qed.

(** ** The loop *)

(** What the loop leaves: a read in flight whose deadline is kept, nothing
    waiting, or a front that waits for a watch, its deadline kept. *)
Definition rests (blocked : option TraceId) (s : SrState) : Prop :=
  read_bounded s /\
  (reading_held s = None ->
   match waiting_keys (held_keys s) with
   | [] => blocked = None
   | front :: _ => exists trace_id pressed_at_ms, blocks front s = Some (trace_id, pressed_at_ms) /\
       bounded (held_keys s) = Some trace_id /\ blocked = Some trace_id
   end).

Lemma unwatch_moved s : one_reading (queries s) -> moved_on s (update_held (with_awaiting_watch None) s) [] [].
Proof. by split. Qed.

Lemma blocks_held front s s' : held_keys s' = held_keys s -> blocks front s' = blocks front s.
Proof. unfold blocks. by intros ->. Qed.

Lemma bound_wait_spec front trace_id pressed_at_ms s :
  unread (queries s) -> blocks front s = Some (trace_id, pressed_at_ms) ->
  let st := bound_wait trace_id pressed_at_ms s in
  moved_on s st.1 st.2 [] /\ queries st.1 = queries s /\
  waiting_keys (held_keys st.1) = waiting_keys (held_keys s) /\
  blocks front st.1 = Some (trace_id, pressed_at_ms) /\ bounded (held_keys st.1) = Some trace_id.
Proof.
  intros Hu Hb. cbn zeta. unfold bound_wait. case_bool_decide as Hbd; cbn [fst snd].
  { split_and!; [by apply moved_on_none, unread_one|done..]. }
  split_and!; [|done..]. split; [by rewrite /unhandled !flight_unread|done|done|done|by apply unread_one].
Qed.

Lemma held_rounds_spec n behind s :
  (length (waiting_keys (held_keys s)) <= n)%nat -> one_reading (queries s) -> read_bounded s ->
  let '(s', effects, blocked) := held_rounds n behind s in moves_on s s' effects /\ rests blocked s'.
Proof.
  revert behind s. induction n as [|n IH]; intros behind s Hn Hone Hrb.
  { simpl. split; [exists []; by apply moved_on_none|]. split; [done|]. intros _.
    destruct (waiting_keys (held_keys s)); [done|simpl in Hn; lia]. }
  cbn [held_rounds]. destruct (reading_held s) as [[q r]|] eqn:Hr.
  { split; [exists []; by apply moved_on_none|]. split; [done|congruence]. }
  destruct (waiting_keys (held_keys s)) as [|front rest] eqn:Hw.
  { split; [exists []; by apply moved_on_none|]. split; [done|]. by rewrite Hw. }
  apply reading_held_None in Hr.
  set (s1 := if behind then later_key (passed_at_ms (held_keys s)) s else s).
  assert (moved_on s s1 [] [] /\ unread (queries s1) /\ held_keys s1 = held_keys s) as (Hm1 & Hu1 & Hh1).
  { unfold s1. destruct behind; [|split_and!; [by apply moved_on_none|done|done]].
    pose proof (later_key_holds (passed_at_ms (held_keys s)) s) as Hl.
    split_and!; [by apply holds_nothing_moved|by apply Hl|apply later_key_held]. }
  clearbody s1. destruct (blocks front s1) as [[trace_id pressed_at_ms]|] eqn:Hb.
  - destruct (bound_wait_spec front trace_id pressed_at_ms s1 Hu1 Hb) as (Hm2 & Hq2 & Hw2 & Hb2 & Hbd2).
    destruct (bound_wait trace_id pressed_at_ms s1) as [s2 e2]. cbn [fst snd] in *. split.
    + exists []. exact (moved_on_then _ _ _ _ _ _ _ Hm1 Hm2).
    + split; [apply unread_bounded; by rewrite Hq2|]. intros _. rewrite Hw2 Hh1 Hw. by exists trace_id, pressed_at_ms.
  - set (s2 := match front_waits front with Some _ => update_held (with_awaiting_watch None) s1 | None => s1 end).
    assert (moved_on s1 s2 [] [] /\ unread (queries s2) /\ waiting_keys (held_keys s2) = front :: rest) as (Hm2 & Hu2 & Hw2).
    { unfold s2. destruct (front_waits front).
      - split_and!; [by apply unwatch_moved, unread_one|done|by cbn; rewrite Hh1].
      - split_and!; [by apply moved_on_none, unread_one|done|by rewrite Hh1]. }
    clearbody s2. destruct (handle_waiting_spec front rest s2 Hu2 Hw2) as (Hw3 & [done3 Hm3] & Hrb3).
    destruct (handle_waiting front _) as [s3 own]. cbn [fst snd] in *.
    specialize (IH true s3). destruct (held_rounds n true s3) as [[s4 e4] blocked].
    destruct IH as [Hm4 Hrest]; [by rewrite Hw3; simpl in Hn; lia|by apply Hm3|done|]. split; [|done].
    eapply moves_on_then; [|done]. exists done3.
    exact (moved_on_then _ _ _ [] _ [] _ Hm1 (moved_on_then _ _ _ [] _ [] _ Hm2 Hm3)).
Qed.

(** What is left once keys were moved on: whatever is in flight or waits has
    its deadline with the shell. *)
Definition covered (s : SrState) : Prop :=
  one_reading (queries s) /\ read_bounded s /\
  (reading_held s = None ->
   match waiting_keys (held_keys s) with
   | [] => bounded (held_keys s) = None
   | front :: _ => exists trace_id pressed_at_ms, blocks front s = Some (trace_id, pressed_at_ms) /\
       bounded (held_keys s) = Some trace_id
   end).

Lemma next_held_spec behind s :
  one_reading (queries s) -> read_bounded s ->
  let st := next_held behind s in moves_on s st.1 st.2 /\ covered st.1.
Proof.
  intros Hone Hrb. cbn zeta. unfold next_held.
  pose proof (held_rounds_spec (length (waiting_keys (held_keys s))) behind s (le_n _) Hone Hrb) as Hr.
  destruct (held_rounds _ behind s) as [[s1 e1] blocked]. destruct Hr as [[done1 Hm1] [Hrb1 Hrest]].
  pose proof (mo_one _ _ _ _ Hm1) as Hone1.
  unfold clear_bound. destruct (reading_held s1) as [[q r]|] eqn:Hread.
  { cbn [fst snd]. rewrite app_nil_r. split; [by exists done1|]. split_and!; [done|done|congruence]. }
  specialize (Hrest eq_refl). destruct (bounded (held_keys s1)) as [trace_id|] eqn:Hb.
  - case_bool_decide as Hbl; cbn [fst snd].
    + rewrite app_nil_r. split; [by exists done1|]. split_and!; [done|done|]. intros _.
      destruct (waiting_keys (held_keys s1)); [congruence|].
      destruct Hrest as (t & p & Hbk & Hbd & _). exists t, p. split; [done|congruence].
    + split.
      * exists done1. rewrite -(app_nil_r done1). eapply moved_on_then; [done|].
        split; [|done|done|done|done]. unfold unhandled. by rewrite !flight_unread; [| |]; try apply reading_held_None.
      * split_and!; [done|by apply unread_bounded, reading_held_None|]. intros _. cbn.
        destruct (waiting_keys (held_keys s1)); [done|].
        destruct Hrest as (t & p & _ & Hbd & ->). congruence.
  - cbn [fst snd]. rewrite app_nil_r. split; [by exists done1|]. split_and!; [done|done|]. intros _.
    destruct (waiting_keys (held_keys s1)); [done|]. destruct Hrest as (t & p & _ & Hbd & _). congruence.
Qed.

(** Nothing in flight and no watch to wait for: the front is handled. *)
Lemma next_held_pops behind front rest s :
  unread (queries s) -> waiting_keys (held_keys s) = front :: rest -> awaiting_watch (held_keys s) = None ->
  (length (waiting_keys (held_keys (next_held behind s).1)) <= length rest)%nat.
Proof.
  intros Hu Hw Ha. unfold next_held. rewrite Hw. cbn [length held_rounds].
  rewrite (proj2 (reading_held_None s) Hu) Hw.
  set (s1 := if behind then later_key (passed_at_ms (held_keys s)) s else s).
  assert (unread (queries s1) /\ held_keys s1 = held_keys s) as (Hu1 & Hh1).
  { unfold s1. destruct behind; [|done]. split; [by apply (hn_unread _ _ _ (later_key_holds _ s))|apply later_key_held]. }
  clearbody s1. assert (blocks front s1 = None) as ->.
  { unfold blocks. rewrite Hh1 Ha. by destruct (front_waits front) as [[]|]. }
  set (s2 := match front_waits front with Some _ => _ | None => s1 end).
  assert (unread (queries s2) /\ waiting_keys (held_keys s2) = front :: rest) as (Hu2 & Hw2).
  { unfold s2. destruct (front_waits front); split; try done; cbn; by rewrite Hh1. }
  clearbody s2. destruct (handle_waiting_spec front rest s2 Hu2 Hw2) as (Hw3 & [done3 Hm3] & Hrb3).
  destruct (handle_waiting front _) as [s3 own]. cbn [fst snd] in *.
  pose proof (held_rounds_spec (length rest) true s3) as Hr.
  destruct (held_rounds (length rest) true s3) as [[s4 e4] blocked].
  destruct Hr as [[done4 Hm4] _]; [by rewrite Hw3|by apply Hm3|done|].
  pose proof (mo_waiting _ _ _ _ Hm4) as Hle. rewrite Hw3 in Hle.
  assert (waiting_keys (held_keys (clear_bound blocked s4).1) = waiting_keys (held_keys s4)) as Hc.
  { unfold clear_bound. destruct (reading_held s4); [done|]. destruct (bounded (held_keys s4)); [|done].
    by case_bool_decide. }
  destruct (clear_bound blocked s4). cbn [fst] in *. by rewrite Hc.
Qed.

(** ** Handlers *)

Lemma push_unhandled key s : unhandled (push_waiting key s) = unhandled s ++ [key].
Proof. unfold unhandled, flight. by rewrite app_assoc. Qed.

Lemma held_read_spec reading reply s :
  unread (queries s) ->
  let st := held_read reading reply s in
  covered st.1 /\ (length (waiting_keys (held_keys st.1)) <= length (waiting_keys (held_keys s)))%nat /\
  deadline (bounded (held_keys s)) (signals st.2) = bounded (held_keys st.1) /\
  exists handled, waiting_keys (held_keys s) = handled ++ unhandled st.1 /\
    passes (signals st.2) = hk_trace_id (hr_key reading) :: held_traces handled.
Proof.
  intros Hu. cbn zeta. unfold held_read.
  set (c := match reply with ReplyCaret _ => _ | _ => _ end).
  assert (held_keys c.1 = held_keys s /\ queries c.1 = queries s) as [Hh Hq].
  { unfold c. destruct reply; try done. cbn [fst]. unfold update_caret, follow_caret. repeat case_match; done. }
  destruct c as [s1 at_ms]. cbn [fst] in *. unfold seq_steps.
  destruct (pass_held_spec (hr_key reading) at_ms s1) as (Hw2 & Hb2 & Hu2 & Hs2).
  destruct (pass_held (hr_key reading) at_ms s1) as [s2 e2]. cbn [fst snd] in *. rewrite Hq in Hu2. specialize (Hu2 Hu).
  destruct (next_held_spec true s2 (unread_one _ Hu2) (unread_bounded _ Hu2)) as [[done3 Hm3] Hc3].
  destruct (next_held true s2) as [s3 e3]. cbn [fst snd] in *. destruct Hm3 as [Hun Hp Hd Hlen _].
  rewrite Hw2 Hh in Hlen. split_and!; [done|done| |].
  - by rewrite signals_app Hs2 deadline_app -Hd Hb2 Hh.
  - exists done3. unfold unhandled in Hun. rewrite flight_unread // Hw2 Hh in Hun.
    split; [exact Hun|]. by rewrite signals_app passes_app Hs2 Hp.
Qed.

Definition taken (query_id : QueryId) (s : SrState) : SrState :=
  with_queries (with_open (delete query_id (open (queries s))) (queries s)) s.

Lemma taken_unread s query_id reading :
  one_reading (queries s) -> reading_held s = Some (query_id, reading) -> unread (queries (taken query_id s)).
Proof.
  intros Hone (o & Ho & Ht)%reading_held_Some query_id' o'. cbn. rewrite lookup_delete_Some. intros [Hne Ho'].
  destruct (is_reading (then_ o')) eqn:Hr; [|done]. destruct Hne.
  apply (Hone _ _ _ _ Ho Ho'); [by rewrite Ht|done].
Qed.

Lemma held_continued_spec trace_id reading reply s query_id :
  one_reading (queries s) -> reading_held s = Some (query_id, reading) ->
  let st := held_continued trace_id reading reply (taken query_id s) in
  moves_on s st.1 st.2 /\ covered st.1.
Proof.
  intros Hone Hr. cbn zeta. pose proof (taken_unread _ _ _ Hone Hr) as Hu. set (s1 := taken query_id s) in *.
  assert (unhandled s = WaitHeld (hr_key reading) :: waiting_keys (held_keys s)) as Hun.
  { unfold unhandled, flight. by rewrite Hr. }
  assert (forall s2 e2 reply, holds_nothing s1 s2 e2 ->
    let st := held_read reading reply s2 in moves_on s st.1 (e2 ++ st.2) /\ covered st.1) as Hread.
  { intros s2 e2 reply' [Hw2 Hb2 Hu2 Hs2]. cbn zeta.
    destruct (held_read_spec reading reply' s2 (Hu2 Hu)) as (Hc & Hlen & Hd & done3 & Hw3 & Hp).
    split; [|done]. exists (WaitHeld (hr_key reading) :: done3). rewrite Hw2 in Hw3, Hlen. split.
    - rewrite Hun. cbn. f_equal. exact Hw3.
    - by rewrite signals_app Hs2 Hp.
    - rewrite signals_app Hs2 -Hd Hb2. done.
    - exact Hlen.
    - apply Hc. }
  unfold held_continued. destruct reply;
    try (match goal with |- context [held_read _ ?r s1] =>
           destruct (Hread s1 [] r) as [Hm' Hc']; [by split|]; by split end).
  unfold seq_steps. pose proof (snapshot_holds trace_id (hr_node reading) snapshot s1) as Hsn.
  destruct (snapshot_event _ _ _ s1) as [s2 e2]. cbn [fst snd] in Hsn.
  destruct (Hread s2 e2 (caret_before_key snapshot) Hsn) as [Hm' Hc'].
  by destruct (held_read reading (caret_before_key snapshot) s2).
Qed.

(** The keys and commands an input makes wait. *)
Definition arrives (input : Input) (s : SrState) : list WaitingKey :=
  match input with
  | InHeldKey trace_id _ key pressed_at_ms =>
      [WaitHeld {| hk_trace_id := trace_id; hk_key := key; hk_pressed_at_ms := pressed_at_ms |}]
  | InCommand _ _ _ _ _ | InScript _ _ _ _ _ =>
      if held_busy s || is_some (awaiting_watch (held_keys s)) then [WaitCommand input] else []
  | InCaretKey _ _ _ _ | InCharacterTyped _ _ _ _ | InClearingKey _ _ _ =>
      if held_busy s then [WaitLater input] else []
  | _ => []
  end.

(** What a step makes of the keys: those that arrive join the ones to handle. *)
Definition takes (new : list WaitingKey) (s s' : SrState) (effects : list Effect) : Prop :=
  exists handled, unhandled s ++ new = handled ++ unhandled s' /\
    passes (signals effects) = held_traces handled /\
    deadline (bounded (held_keys s)) (signals effects) = bounded (held_keys s').

Lemma moves_takes s s' effects : moves_on s s' effects -> takes [] s s' effects.
Proof. intros [handled []]. exists handled. by rewrite app_nil_r. Qed.

Lemma pushed_takes key s s' effects :
  moves_on (push_waiting key s) s' effects -> takes [key] s s' effects.
Proof. intros [handled []]. exists handled. by rewrite -push_unhandled. Qed.

Lemma holds_nothing_takes s s' effects :
  unread (queries s) -> holds_nothing s s' effects -> takes [] s s' effects.
Proof. intros Hu Hh. apply moves_takes. exists []. by apply holds_nothing_moved. Qed.

Lemma not_busy s : held_busy s = false -> unread (queries s) /\ waiting_keys (held_keys s) = [].
Proof.
  unfold held_busy. destruct (reading_held s) eqn:Hr; [done|].
  destruct (waiting_keys (held_keys s)); [|done]. intros _. by split; [apply reading_held_None|].
Qed.

Lemma idle_covered s s' effects :
  covered s -> held_busy s = false -> holds_nothing s s' effects -> covered s'.
Proof.
  intros (Hone & Hrb & Hc) [Hu Hw]%not_busy [Hw' Hb' Hu' _]. specialize (Hu' Hu).
  split_and!; [by apply unread_one|by apply unread_bounded|]. intros _. rewrite Hw' Hw Hb'.
  rewrite Hw in Hc. by apply Hc, reading_held_None.
Qed.

Lemma busy_covered key s : covered s -> held_busy s = true -> covered (push_waiting key s).
Proof.
  intros (Hone & Hrb & Hc) Hbusy. split_and!; [done|done|]. intros Hr. cbn.
  change (reading_held (push_waiting key s)) with (reading_held s) in Hr.
  unfold held_busy in Hbusy. rewrite Hr in Hbusy, Hc. specialize (Hc eq_refl).
  by destruct (waiting_keys (held_keys s)).
Qed.

Lemma pushed_pass key s : takes [key] s (push_waiting key s) [].
Proof. exists []. by rewrite -push_unhandled. Qed.

Lemma queue_command_spec input s :
  covered s -> let st := queue_command input s in takes [WaitCommand input] s st.1 st.2 /\ covered st.1.
Proof.
  intros Hc. cbn zeta. unfold queue_command. destruct (held_busy s) eqn:Hb; cbn [fst snd].
  - split; [apply pushed_pass|by apply busy_covered].
  - destruct (next_held_spec true (push_waiting (WaitCommand input) s)) as [Hm Hc']; [apply Hc|apply Hc|].
    split; [by apply pushed_takes|done].
Qed.

Lemma held_wait_ended_spec trace_id s :
  one_reading (queries s) -> read_bounded s ->
  let st := held_wait_ended trace_id s in moves_on s st.1 st.2.
Proof.
  intros Hone Hrb. cbn zeta. unfold held_wait_ended. destruct (_ && _); [|by exists []; apply moved_on_none].
  set (s1 := update_held _ s). destruct (next_held_spec true s1) as [[done1 Hm] _]; [done|done|].
  exists done1. exact (moved_on_then _ _ _ [] _ [] _ (unwatch_moved s Hone) Hm).
Qed.

(** How far the keys are from being handled: two for each that waits, one for
    the one being read. *)
Definition to_handle (s : SrState) : nat :=
  (2 * length (waiting_keys (held_keys s)) + length (flight s))%nat.

Lemma blocks_front front rest s trace_id pressed_at_ms :
  blocks front s = Some (trace_id, pressed_at_ms) ->
  front_trace (front :: rest) = Some trace_id /\ is_some (awaiting_watch (held_keys s)) = true.
Proof.
  unfold blocks. destruct (front_waits front) as [[t p]|] eqn:Hf; [|done].
  destruct (is_some _); [|done]. destruct (_ <? _); [|done]. intros [= -> ->]. split; [|done].
  destruct front as [held| |[]]; simpl in Hf |- *; congruence.
Qed.

Lemma flight_length s : (length (flight s) <= 1)%nat.
Proof. unfold flight. destruct (reading_held s) as [[]|]; simpl; lia. Qed.

Lemma held_key_due_spec trace_id s :
  covered s ->
  let st := held_key_due trace_id s in
  covered st.1 /\
  (exists handled, unhandled s = handled ++ unhandled st.1 /\ passes (signals st.2) = held_traces handled) /\
  deadline (if bool_decide (bounded (held_keys s) = Some trace_id) then None else bounded (held_keys s))
    (signals st.2) = bounded (held_keys st.1) /\
  (bounded (held_keys s) = Some trace_id -> (to_handle st.1 < to_handle s)%nat).
Proof.
  intros Hcov. pose proof Hcov as (Hone & Hrb & Hc). cbn zeta. unfold held_key_due.
  case_bool_decide as Hbd; cbn [negb]; [|split_and!; [done|by exists []|done|done]].
  set (s1 := update_held (with_bounded None) s).
  change (reading_held s1) with (reading_held s). destruct (reading_held s) as [[query_id reading]|] eqn:Hr.
  - assert (hk_trace_id (hr_key reading) = trace_id) as Htr.
    { specialize (Hrb _ _ Hr). congruence. }
    rewrite bool_decide_eq_true_2 //.
    pose proof (taken_unread s query_id reading Hone Hr) as Hu.
    destruct (reading_held_Some _ _ _ Hr) as (o & Ho & _).
    unfold withdraw. cbn [queries s1 update_held with_held_keys]. rewrite Ho. unfold seq_steps, emit.
    set (s2 := with_queries _ s1).
    destruct (held_read_spec reading ReplyUnanswered s2 Hu) as (Hc3 & Hlen & Hd & done3 & Hw3 & Hp).
    destruct (held_read reading ReplyUnanswered s2) as [s3 e3]. cbn [fst snd] in *.
    assert (signals ([EffWithdraw (open_outpost o) query_id] ++ e3) = signals e3) as -> by done.
    split_and!; [done| |done|].
    + exists (WaitHeld (hr_key reading) :: done3). split; [|done].
      unfold unhandled at 1. unfold flight. rewrite Hr. cbn. f_equal. exact Hw3.
    + intros _. unfold to_handle. unfold flight at 2. rewrite Hr. pose proof (flight_length s3).
      apply (f_equal length) in Hw3. unfold unhandled in Hw3. rewrite !length_app in Hw3.
      change (waiting_keys (held_keys s2)) with (waiting_keys (held_keys s)) in *. simpl. lia.
  - apply reading_held_None in Hr. specialize (Hc eq_refl).
    destruct (waiting_keys (held_keys s)) as [|front rest] eqn:Hw; [congruence|].
    destruct Hc as (t & p & Hbk & Hbt). assert (t = trace_id) as -> by congruence.
    destruct (blocks_front front rest s _ _ Hbk) as [Hft Haw].
    assert (moves_on s1 (held_wait_ended trace_id s1).1 (held_wait_ended trace_id s1).2) as [done2 Hm].
    { by apply held_wait_ended_spec; [|apply unread_bounded]. }
    pose proof (next_held_spec true (update_held (with_awaiting_watch None) s1) Hone
      (unread_bounded (update_held (with_awaiting_watch None) s1) Hr)) as [_ Hc3].
    pose proof (next_held_pops true front rest (update_held (with_awaiting_watch None) s1) Hr Hw eq_refl) as Hpop.
    assert (held_wait_ended trace_id s1 = next_held true (update_held (with_awaiting_watch None) s1)) as Heq.
    { unfold held_wait_ended. change (reading_held s1) with (reading_held s).
      rewrite (proj2 (reading_held_None s) Hr). cbn [held_keys s1 update_held with_held_keys with_bounded waiting_keys awaiting_watch].
      rewrite Haw Hw Hft bool_decide_eq_true_2 //. }
    rewrite Heq in Hm |- *. split_and!; [done| | |].
    + exists done2. split; [apply (mo_unhandled _ _ _ _ Hm)|apply (mo_passes _ _ _ _ Hm)].
    + apply (mo_deadline _ _ _ _ Hm).
    + intros _. unfold to_handle. rewrite (flight_unread s) // Hw.
      match goal with |- context [flight ?x] => pose proof (flight_length x) end. simpl. lia.
Qed.

(** ** Runs

    A run of the keys: [shell] is the deadline the shell keeps, [arrived] the
    keys and commands that had to wait, in the order pressed, and [log] the
    held keys passed on to the application. The rest of Core keeps the held
    keys and the read in flight. *)
Inductive key_run : SrState -> option TraceId -> list WaitingKey -> list TraceId -> Prop :=
  | keys_from s : held_keys s = no_held_keys -> unread (queries s) -> key_run s None [] []
  | keys_elsewhere s s' effects shell arrived log :
      key_run s shell arrived log ->
      held_keys s' = held_keys s -> reading_held s' = reading_held s -> one_reading (queries s') ->
      signals effects = [] -> key_run s' shell arrived log
  | keys_input s s' effects input shell arrived log :
      key_run s shell arrived log ->
      (forall trace_id, input <> InHeldKeyDue trace_id) -> reduce_key input s = (s', effects) ->
      key_run s' (deadline shell (signals effects)) (arrived ++ arrives input s) (log ++ passes (signals effects))
  | keys_due s s' effects trace_id shell arrived log :
      key_run s shell arrived log ->
      reduce_key (InHeldKeyDue trace_id) s = (s', effects) ->
      key_run s' (deadline (if bool_decide (shell = Some trace_id) then None else shell) (signals effects))
        arrived (log ++ passes (signals effects))
  | keys_read s s' effects trace_id query_id reading reply shell arrived log :
      key_run s shell arrived log ->
      reading_held s = Some (query_id, reading) ->
      ended_query query_id (held_continued trace_id reading reply) (taken query_id s) = (s', effects) ->
      key_run s' (deadline shell (signals effects)) arrived (log ++ passes (signals effects))
  | keys_watch s s1 s' effects query_id continued_effects shell arrived log :
      key_run s shell arrived log ->
      awaiting_watch (held_keys s) = Some query_id ->
      held_keys s1 = with_awaiting_watch None (held_keys s) -> reading_held s1 = reading_held s ->
      one_reading (queries s1) -> signals continued_effects = [] ->
      ended_query query_id (fun _ => (s1, continued_effects)) (taken query_id s) = (s', effects) ->
      key_run s' (deadline shell (signals effects)) arrived (log ++ passes (signals effects)).

(** What holds of a run. *)
Record keys_ok (s : SrState) (shell : option TraceId) (arrived : list WaitingKey) (log : list TraceId) : Prop := {
  ko_arrived : exists handled, arrived = handled ++ unhandled s /\ log = held_traces handled;
  ko_shell : shell = bounded (held_keys s);
  ko_covered : covered s;
}.

Lemma takes_ok s s' effects shell arrived log new :
  keys_ok s shell arrived log -> takes new s s' effects -> covered s' ->
  keys_ok s' (deadline shell (signals effects)) (arrived ++ new) (log ++ passes (signals effects)).
Proof.
  intros [(handled & -> & ->) -> Hc] (handled' & Hun & Hp & Hd) Hc'. split; [|by rewrite Hd|done].
  exists (handled ++ handled'). split; [by rewrite -app_assoc Hun app_assoc|].
  unfold held_traces. by rewrite Hp omap_app.
Qed.

Lemma reduce_key_ok input s :
  covered s -> (forall trace_id, input <> InHeldKeyDue trace_id) ->
  let st := reduce_key input s in takes (arrives input s) s st.1 st.2 /\ covered st.1.
Proof.
  intros Hc Hnot. cbn zeta.
  assert (forall f, holds_none f -> held_busy s = false -> takes [] s (f s).1 (f s).2 /\ covered (f s).1) as Hf.
  { intros f Hf Hb. split; [|by eapply idle_covered]. apply holds_nothing_takes; [by apply not_busy|done]. }
  assert (takes [] s s [] /\ covered s) as Hnone by (split; [by exists []; rewrite app_nil_r|done]).
  destruct input; try exact Hnone; try (by edestruct Hnot); cbn [reduce_key arrives].
  - destruct (held_busy s) eqn:Hb; [by apply queue_command_spec|].
    destruct (is_some _); [by apply queue_command_spec|]. apply (Hf (command_input _)); [apply holds_none_command|done].
  - destruct (held_busy s) eqn:Hb; [by apply queue_command_spec|].
    destruct (is_some _); [by apply queue_command_spec|]. apply (Hf (command_input _)); [apply holds_none_command|done].
  - destruct (held_busy s) eqn:Hb; [split; [apply pushed_pass|by apply busy_covered]|].
    apply (Hf (key_input _)); [apply holds_none_key_input|done].
  - unfold held_key. match goal with |- context [push_waiting ?k s] =>
      destruct (next_held_spec false (push_waiting k s)) as [Hm Hc']; [apply Hc|apply Hc|] end.
    split; [by apply pushed_takes|done].
  - destruct (held_busy s) eqn:Hb; [split; [apply pushed_pass|by apply busy_covered]|].
    apply (Hf (key_input _)); [apply holds_none_key_input|done].
  - destruct (held_busy s) eqn:Hb; [split; [apply pushed_pass|by apply busy_covered]|].
    apply (Hf (key_input _)); [apply holds_none_key_input|done].
Qed.

Lemma next_after_ok s s1 e1 :
  moves_on s s1 e1 -> covered s1 ->
  let st := next_held true s1 in moves_on s st.1 (e1 ++ st.2) /\ covered st.1.
Proof.
  intros Hm Hc. destruct (next_held_spec true s1) as [Hm' Hc']; [apply Hc|apply Hc|].
  split; [by eapply moves_on_then|done].
Qed.

Lemma key_run_ok s shell arrived log : key_run s shell arrived log -> keys_ok s shell arrived log.
Proof.
  induction 1 as [s Hh Hu|s s' effects shell arrived log _ IH Hh Hr Hone Hs
    |s s' effects input shell arrived log _ IH Hnot Heq|s s' effects trace_id shell arrived log _ IH Heq
    |s s' effects trace_id query_id reading reply shell arrived log _ IH Hr Heq
    |s s1 s' effects query_id e1 shell arrived log _ IH Ha Hh Hr Hone Hs Heq].
  - split; [exists []|by rewrite Hh|].
    + unfold unhandled. by rewrite flight_unread // Hh.
    + split_and!; [by apply unread_one|by apply unread_bounded|]. intros _. by rewrite Hh.
  - destruct IH as [(handled & -> & ->) -> (_ & Hrb & Hc)]. split; [exists handled|by rewrite Hh|].
    + unfold unhandled, flight. by rewrite Hh Hr.
    + split_and!; [done| |].
      * unfold read_bounded. by rewrite Hr Hh.
      * rewrite Hr Hh. destruct (waiting_keys (held_keys s)); [done|]. by setoid_rewrite (blocks_held _ s s' Hh).
  - destruct (reduce_key_ok input s (ko_covered _ _ _ _ IH) Hnot) as [Ht Hc]. rewrite Heq in Ht, Hc.
    by eapply takes_ok.
  - cbn [reduce_key] in Heq. destruct IH as [(handled & -> & ->) -> Hc].
    destruct (held_key_due_spec trace_id s Hc) as (Hc' & (handled' & Hun & Hp) & Hd & _). rewrite Heq in Hc', Hun, Hp, Hd.
    split; [|done|done]. exists (handled ++ handled'). cbn [fst snd] in *.
    unfold held_traces. by rewrite Hun app_assoc Hp omap_app.
  - pose proof (ko_covered _ _ _ _ IH) as (Hone & Hrb & _).
    rewrite -(app_nil_r arrived). unfold ended_query in Heq.
    destruct (held_continued_spec trace_id reading reply s query_id Hone Hr) as [Hm Hc].
    case_bool_decide as Hw.
    + unfold seq_steps in Heq.
      set (s1 := update_held (with_awaiting_watch None) s).
      destruct (held_continued_spec trace_id reading reply s1 query_id Hone Hr) as [Hm1 Hc1].
      change (taken query_id s1) with (update_held (with_awaiting_watch None) (taken query_id s)) in Hm1, Hc1.
      destruct (held_continued _ _ _ (update_held _ _)) as [s2 e2]. cbn [fst snd] in *.
      destruct (next_after_ok s1 s2 e2 Hm1 Hc1) as [[done3 Hm3] Hc3].
      unfold held_watch_answered in Heq. destruct (next_held true s2) as [s3 e3]. injection Heq as <- <-.
      eapply takes_ok; [done| |done]. apply moves_takes. exists done3.
      exact (moved_on_then _ _ _ [] _ [] _ (unwatch_moved s Hone) Hm3).
    + destruct (held_continued _ _ _ _) as [s2 e2]. injection Heq as <- <-.
      eapply takes_ok; [done|by apply moves_takes|done].
  - pose proof (ko_covered _ _ _ _ IH) as (Hone0 & Hrb & _).
    rewrite -(app_nil_r arrived). unfold ended_query in Heq.
    change (awaiting_watch (held_keys (taken query_id s))) with (awaiting_watch (held_keys s)) in Heq.
    rewrite bool_decide_eq_true_2 // in Heq. unfold seq_steps, held_watch_answered in Heq.
    assert (moved_on s s1 e1 []) as Hm1.
    { split; rewrite ?Hs ?Hh //. unfold unhandled, flight. by rewrite Hr Hh. }
    assert (read_bounded s1) as Hrb1 by (unfold read_bounded; by rewrite Hr Hh).
    destruct (next_held_spec true s1 Hone Hrb1) as [[done2 Hm2] Hc2].
    destruct (next_held true s1) as [s2 e2]. injection Heq as <- <-.
    eapply takes_ok; [done| |done]. apply moves_takes. exists ([] ++ done2). by eapply moved_on_then.
Qed.


(** C7: a waiting key is never stuck: whenever a key is being read or waits, the
    shell keeps a deadline for it, and that deadline brings the keys closer to
    being handled, which can happen only as often as twice for each key. *)
Theorem held_keys_never_stuck s shell arrived log :
  key_run s shell arrived log -> held_busy s = true ->
  exists trace_id, shell = Some trace_id /\
    (to_handle (reduce_key (InHeldKeyDue trace_id) s).1 < to_handle s)%nat.
Proof.
  intros [_ -> Hc]%key_run_ok Hb.
  assert (exists trace_id, bounded (held_keys s) = Some trace_id) as [trace_id Hbd].
  { destruct Hc as (_ & Hrb & Hc). unfold held_busy in Hb.
    destruct (reading_held s) as [[q r]|] eqn:Hr; [eexists; by eapply Hrb|].
    specialize (Hc eq_refl). destruct (waiting_keys (held_keys s)); [done|].
    destruct Hc as (t & _ & _ & Hbd). by exists t. }
  exists trace_id. split; [done|]. cbn [reduce_key].
  destruct (held_key_due_spec trace_id s Hc) as (_ & _ & _ & Hlt). by apply Hlt.
Qed.

End keys.

(** ** A held key with keys behind it *)

Module HeldSample.

Import Sample.

#[export] Instance parts : KeyParts := {
  keep_key := fun _ _ _ reading => reading;
  snapshot_event := fun _ _ _ => silent;
  reduce_command := fun _ _ _ => silent;
}.
#[export] Instance laws : KeyLaws.
Proof. by split. Qed.

Definition in_field : SrState :=
  with_focus (Some
    {| focus_from := {| pid_number := 4 |}; focus_window := None;
       focus_node := node_of 7 RoleEditableText "Name"; focus_ancestors := []; last_selection := None;
       alive := true; reported_focused := true; focus_trace_id := None; focus_observed_at_us := 0;
       spoken := None; left_ := false |}) new_state.
Definition right : CaretKey := {| motion := NextCharacter; key_selects := false |}.

(** A held key's caret is being read; typing waits behind it, then another held
    key. The first's read fails, and the second waits for its watch. *)
Definition held_one : SrState * list Effect := reduce_key (InHeldKey (trace 1) 1 right 1000) in_field.
Definition typed_two : SrState * list Effect := reduce_key (InCharacterTyped (trace 2) 2 "a" 1010) held_one.1.
Definition held_three : SrState * list Effect := reduce_key (InHeldKey (trace 3) 3 right 1020) typed_two.1.
Definition first_read : QueryId := {| query_number := 0 |}.
Definition reading_one : HeldRead :=
  {| hr_node := node_id 7; hr_key := {| hk_trace_id := trace 1; hk_key := right; hk_pressed_at_ms := 1000 |} |}.
Definition read_one : SrState * list Effect :=
  ended_query first_read (held_continued (trace 1) reading_one ReplyUnanswered) (taken first_read held_three.1).

Definition arrived_keys : list WaitingKey :=
  (([] ++ arrives (InHeldKey (trace 1) 1 right 1000) in_field) ++
   arrives (InCharacterTyped (trace 2) 2 "a" 1010) held_one.1) ++
  arrives (InHeldKey (trace 3) 3 right 1020) typed_two.1.
Definition passed_keys : list TraceId :=
  ((([] ++ passes (signals held_one.2)) ++ passes (signals typed_two.2)) ++ passes (signals held_three.2)) ++
  passes (signals read_one.2).
Definition shell_deadline : option TraceId :=
  deadline (deadline (deadline (deadline None (signals held_one.2)) (signals typed_two.2)) (signals held_three.2))
    (signals read_one.2).

Lemma three_keys : key_run read_one.1 shell_deadline arrived_keys passed_keys.
Proof.
  apply (keys_read held_three.1 _ _ (trace 1) first_read reading_one ReplyUnanswered);
    [|vm_compute; reflexivity|vm_compute; reflexivity].
  apply (keys_input typed_two.1 _ _ (InHeldKey (trace 3) 3 right 1020)); [|done|vm_compute; reflexivity].
  apply (keys_input held_one.1 _ _ (InCharacterTyped (trace 2) 2 "a" 1010)); [|done|vm_compute; reflexivity].
  apply (keys_input in_field _ _ (InHeldKey (trace 1) 1 right 1000)); [|done|vm_compute; reflexivity].
  apply keys_from; [reflexivity|]. intros query_id o Ho. vm_compute in Ho. discriminate.
Qed.


Lemma held_keys_never_stuck_witness :
  shell_deadline = Some (trace 3) /\
  exists trace_id, shell_deadline = Some trace_id /\
    (to_handle (reduce_key (InHeldKeyDue trace_id) read_one.1).1 < to_handle read_one.1)%nat.
Proof.
  split; [vm_compute; reflexivity|].
  exact (held_keys_never_stuck _ _ _ _ three_keys ltac:(vm_compute; reflexivity)).
Defined.

End HeldSample.
